(* ===== verification/_CoqProject ===== *)
-Q . S2P
Prelude.v
GoStd.v
Limits.v
SafetyTrip.v
Governor.v
GovernorSteps.v
GovernorInv.v
GovernorMicro.v
GovernorLocal.v
GovernorThms.v
GovernorRuns.v
Ledger.v
LedgerSnapshot.v
LedgerOps.v
LedgerReplay.v
LedgerEffects.v
LedgerThms.v
LedgerRuns.v
PairingGate.v
PairingGateInv.v
PairingGateFinish.v
PairingGateThms.v
PairingGateRuns.v
LivenessWire.v
LivenessWireThms.v
Liveness.v
LivenessInv.v
LivenessController.v
LivenessChanges.v
LivenessPhases.v
LivenessTrace.v
LivenessThms.v
LivenessEmission.v
LivenessReporter.v
LivenessRuns.v
MeshTopology.v
MeshSearch.v
MeshRoutes.v
MeshMessage.v
MeshRouter.v
MeshForward.v
MeshRuns.v
MeshControl.v
MeshNode.v
MeshNetwork.v
MeshFloodInv.v
MeshFloodThms.v
MeshAnnounce.v
MeshFloodRuns.v
SelectionWire.v
SelectionWireThms.v
Selection.v
SelectionNet.v
SelectionInv.v
SelectionDeliver.v
SelectionPres.v
SelectionThms.v
SelectionRounds.v
SelectionPeace.v
SelectionRuns.v
HardNatArith.v
HardNatCount.v
HardNatTypes.v
HardNatStun.v
HardNatEvidence.v
HardNatPlan.v
HardNatBudget.v
HardNatCandidates.v
HardNatBilateral.v
HardNatPlanThms.v
HardNatEvidenceThms.v
HardNatDiscovery.v
HardNatAttempt.v
HardNatObserve.v
HardNatRuns.v
ProbeIO.v
ProbeInv.v
ProbeTrace.v
ProbeThms.v
ProbeRuns.v
