(* ===== verification/Prelude.v ===== *)
(** * WinkYou: a verification development

    WinkYou is a peer-to-peer connectivity system written in Go.  Its
    experimental "v2" stack may open NAT mappings and emit packets towards
    networks it does not own, so every attempt passes through a small trusted
    core, the package [src/internal/governor], and every session it opens is
    kept alive and torn down by the liveness protocol of
    [src/internal/v2/gatecorchestrator].  Nodes that
    hold sessions form a mesh, [src/pkg/mesh], which computes routes from flooded
    records and carries data over them.  Before a connection is improved, its two
    ends agree on the strategy to run, [src/pkg/session], and where both are
    behind difficult NATs they plan the packets of an attempt beforehand,
    [src/internal/v2/hardnatplan].  This development models that core, the
    protocols, the routing and the planning, and proves the properties the rest
    of the program relies on.

    ** The parts and how they interact

    - [limits.go]: the compiled resource policy.  A caller may lower a limit
      and never raise it.
    - [safety_trip.go]: a persistent latch on disk.  Once tripped, no attempt
      is admitted on this machine until an operator resets it.
    - [governor.go], [loopback_termination.go]: the in-process authority.  It
      hands out peer and attempt leases, accounts for their resources, stops
      and drains them, trips the latch, and releases the namespace owner.
    - [pairing_ledger.go], [pairing_ledger_format.go],
      [hard_nat_campaign_ledger.go]: the durable journal of admissions, which
      burns credentials, enforces rolling windows over hours and days, and
      opens a circuit after repeated failures.
    - [pairing_gate.go]: the gate that joins them.  [Commit] checks a live
      lease of the governor, records the admission in the journal, checks the
      lease again and only then hands out a one-time token; the token's first
      emission checks the lease a last time.

    - [echo.go], [liveness_wire.go], [liveness_clock.go], [liveness_model.go],
      [liveness_controller.go]: an established session.  Both ends exchange a
      bounded number of pings and pongs in the tunnel; a session without a
      recent proof of its peer ends, and a hard violation trips the governor.
    - [src/pkg/mesh] ([topology.go], [router.go], [data_router.go],
      [data_frame.go], [node.go], [generation.go]) with the messages of
      [src/pkg/peercontrol]: every node floods its member and link-state records,
      stores those of the others, computes a control and a data route table from
      the links both ends advertise, installs the next hops in its router, and
      the routers pass control messages and data frames hop by hop.
    - [src/pkg/session] ([selection_agreement.go], [selection_wire.go]): the two
      ends of a connection exchange capabilities, propose strategies and confirm
      a joint value in numbered rounds; only then does either run a strategy.

    - [src/internal/v2/hardnatplan], [hardnatbudget], [hardnatobserve]: an attempt
      behind endpoint-dependent NATs.  [Collect] sends thirteen STUN packets and
      classifies the NAT; each end freezes what it learned in a commitment; from
      the two commitments and a shared key both ends derive the same plan of
      packets, check it, and run it under an envelope of the governor.

    - [src/internal/probeio]: the sockets of an attempt.  A controller opens
      them, registers targets, sends and receives within the reservation of its
      lease, promotes one verified socket, and registers a drain with the
      governor that completes when nothing of it is in flight.

    The governor calls the safety store under its mutex; the gate calls the
    governor and the journal; the journal and the store call the file system; the
    probe controller and the liveness reporter trip the governor.

    ** Files

    Prelude: the result type, its notations ([let!], [check!], [&then]), sums
    over finite maps, and the lemmas and hints every component shares.
    GoStd: the part of Go's standard library the source uses, executable:
    [time.Time] arithmetic, byte slices, hex, base64, UTF-8, trimming.

    Limits (limits.go): data, [HardLimits], [validateNotRaised],
    [ValidateAttemptCost] and the arithmetic of resource vectors.

    SafetyTrip (safety_trip.go): the state file is a byte list.  Writers take
    the outcome of each system call and return every intermediate content of
    the file, so a crash is any prefix of a writer.  The JSON codec with its
    checksum is the class [TripCodec] with laws [TripCodecLaws]; what the
    governor needs of a store is the class [TripStore] with [TripStoreLaws],
    and the disk store is an instance.

    Governor (governor.go): one function per critical section on the record
    [Governor], whose maps hold identifiers into heaps of leases, peers and loopback
    managers, as the Go maps hold pointers.  GovernorSteps (the goroutines of
    governor.go and loopback_termination.go): threads with explicit phases and
    the transition relation [gstep], in which calls, threads, managers and
    timers interleave in any order.  GovernorInv: the registry invariant.
    GovernorMicro, GovernorLocal: every critical section as a sequence of
    elementary changes, and the invariants of single leases, threads and
    managers.  GovernorThms: the theorems over all [reachable] states.
    GovernorRuns: concrete executions.

    Ledger, LedgerSnapshot, LedgerOps (the three ledger files): records and
    validation; framing, replay and policy; the operations on the file, with
    the outcome of every system call as an argument.  LedgerReplay,
    LedgerEffects: the decoder, the replayed snapshot and the effect of one
    operation on the file, characterised on the records.  LedgerThms: the
    theorems over every journal a machine can
    hold ([ledger_reachable]: any owners, clocks and failures).  LedgerRuns:
    a concrete codec and runs with it.  The JSON codec with its checksum is
    the class [LedgerCodec] with [LedgerCodecLaws].

    PairingGate (pairing_gate.go and the terminal writer of
    loopback_termination.go): a [Machine] is a governor, a journal, the tokens
    and the calls in progress; [machine_step] interleaves their critical
    sections with each other and with the steps of the governor.
    PairingGateInv, PairingGateFinish: the invariants.  PairingGateThms: the
    theorems.  PairingGateRuns: concrete executions.

    LivenessWire (echo.go, liveness_wire.go, the roles of
    directattempt/protocol.go): the packets of a session byte by byte, as the
    builders assign them and the parsers check them.  SHA-256 is the class
    [Sha256] with [Sha256Laws].  LivenessWireThms: the layout and the codecs.

    Liveness (liveness_clock.go, liveness_model.go): the clock guard, the frozen
    budget and [livenessModel], one function per critical section; a clock is
    its readings, which are arguments.  LivenessController
    (liveness_controller.go): the foreground with its teardown, the writer, the
    watchdog, [Deliver] and the callbacks of the session gate as phases of one
    transition relation [controller_step]; a transition records what it did as
    events, and [session_run] relates a trace to the state it leads to.
    LivenessInv, LivenessChanges: every transition as a sequence of elementary
    changes of the model, and the invariant they keep.  LivenessPhases,
    LivenessTrace: emission slots, phases and queues, and the invariant of a
    run.  LivenessThms, LivenessEmission: the theorems.  LivenessReporter ([livenessReporter]): a
    session beside the governor its reporter trips.  LivenessRuns: an executable
    scheduler ([play]) and concrete sessions.

    MeshTopology (topology.go): the record database and the route computation,
    with the order of Go's map ranges ([MapRange]) and the unstable sort
    ([SortEdges]) as classes with laws.  MeshSearch: the order on paths, the specification ([walk], [best]) and the search.  MeshRoutes: the
    tables are the specification's.  MeshRouter (router.go, data_router.go,
    data_frame.go, syncRoutes): frames, neighbors, tables, forwarding.
    MeshForward: a mesh of nodes ([network]) and the journey of a frame
    ([originate]).  MeshRuns: the frame codec and a concrete mesh.
    MeshMessage (peercontrol/message.go): messages and their validation, with
    JSON as the class [MessageCodec].  MeshControl (router.go): acceptance,
    delivery, flood and forwarding, one function per critical section, and
    [Send] and [HandleInbound] as their composition.  MeshNode (node.go,
    generation.go): the node.  MeshNetwork: routers that exchange messages, as a
    transition system in which every critical section of every call is a step,
    and the copies of a message.  MeshFloodInv: the invariant of a flood among
    other traffic, against the interface [Handler] of the node's handler.
    MeshFloodThms: the flood.  MeshAnnounce: the handler of a node implements
    the interface, and its announcements are installed.  MeshFloodRuns: a codec,
    a scheduler and concrete floods.

    SelectionWire (selection_wire.go, rendezvous/proto/envelope.go,
    solver/capability.go): the messages of the selection agreement, their
    validation, the strict decoder and the joint value, with encoding/json as
    the class [SelectionJSON].  SelectionWireThms: the decoder and the laws
    ([SelectionJSONLaws]).  Selection (selection_agreement.go and the parts of
    session.go, envelope.go and lifecycle.go it uses): the state of a session
    and one function per critical section.  SelectionNet: sessions on a network
    that may lose, repeat and reorder messages ([sel_step]).  SelectionInv,
    SelectionDeliver, SelectionPres: the invariant of a world, the effect of a
    delivery, and that every transition keeps it.  SelectionThms,
    SelectionRounds, SelectionPeace: the theorems.
    SelectionRuns: a JSON codec that satisfies the laws, a scheduler and concrete
    selections.

    HardNatArith (probability.go): 512-bit floats with directed rounding, the
    collision probability, the Poisson approximation, and the proof that the
    interval encloses the exact fraction.  HardNatCount (MathComp): that fraction
    counts the pairs of subsets that meet.  HardNatTypes (types.go, encoding.go):
    data and encodings; the enumerations are the strings they are on the wire.
    HardNatStun (rfc5780.go, rfc5780_evidence.go): the STUN codec, the discovery
    machine and transcripts.  HardNatEvidence (evidence.go, validation.go):
    validation against the issued transactions, merging, classification of the
    allocator, [InferStateModel].  HardNatPlan (planner.go, compact.go): shapes,
    commitments, the shuffle, candidates, plans, verification, with HMAC as the
    class [Hmac].  HardNatBudget (hardnatbudget/budget.go): envelopes.
    HardNatCandidates: the shuffle and the validators, characterised.
    HardNatBilateral: the plan of two ends.  HardNatPlanThms: budgets, the compact
    form and uniqueness of plans.  HardNatEvidenceThms: what evidence is believed
    and what is predicted from it.  HardNatDiscovery: the codec, and discovery
    against a reference NAT.  HardNatAttempt: from evidence to an accepted plan.
    HardNatObserve (hardnatobserve/observe.go): [Collect] over the class
    [Network].  HardNatRuns: a NAT as a network, and concrete attempts.

    ProbeIO (probeio.go, terminal_revoke.go): the state of a controller, one
    function per critical section, and its goroutines ([pthread]); [pstep]
    interleaves them with the governor, the network generation and the clock,
    and [probe_run] relates the trace of a run to its state.  ProbeInv: the
    books and the budget.  ProbeTrace: the goroutines in flight, what a trace
    tells about the state, phases.  ProbeThms: the governor's side, the
    invariant of a run and the theorems.  ProbeRuns: a scheduler and concrete
    runs.

    ** What the theorems show

    - Limits and SafetyTrip: the latch fails closed on any content of the
      file; a trip blocks at every intermediate state of the disk; a reset is
      a compare-and-set that unblocks only with its last write; a trip and a
      reset round-trip.
    - Governor: the reservation is the sum of the active costs and stays
      within every limit; admission grants exactly what it should and refuses
      without a trace; a latched, closed or faulted governor stays so; a trip
      stops every attempt; no channel is closed twice; an exclusive claim is
      granted once; the owner is released only when nothing is left; in the
      loopback lifecycle a closed Done channel witnesses that every drain is
      complete.  In the ordinary lifecycle it does not:
      [ordinary_done_not_drained] is a run that shows it.
    - Ledger: rolling windows, spacing and packet budgets hold of the records
      themselves; a credential is admitted once, across restarts, clocks that
      run backwards and torn writes; a torn append is detected; a successful
      admission leaves room for its terminal record; three failures open the
      circuit and only the reset closes it, not before its horizon.
    - Gate: every run of a machine is a run of the governor and of the journal
      ([gate_refines]); at most one authorization exists per credential, each
      backed by a durable admission; the first emission is checked against the
      governor; a terminal reason is chosen once; the terminal witness is
      reported only when its record is durable.
    - Liveness: the peer's parser returns exactly the message sent, and accepts
      only packets with the session's binding; any five admissions span an
      interval and the frozen budget bounds them all; a permit is backed by the
      arming or by an answered ping less than a lease ago; every injected packet
      is injected once, unchanged and in its window; a session does not fail by
      its own doing; once stopped the workers finish within a bounded number of
      steps, and a drained session stays quiet; a hard violation latches the
      governor.
    - Mesh: the route search terminates and its table is exactly the table of
      best routes, whatever the order of ranges and sorts; after any sequence
      of updates the installed tables are those of the stored records; in a
      converged mesh a frame follows its source's best route to the end, and in
      any mesh, converged or not, it comes to rest within its hop limit; the
      frame codec is a bijection.  A flooded message reaches every connected
      node exactly once, in a bounded number of steps and under any
      interleaving, if neighbors do not change meanwhile, the flood is over
      within the seenTTL, and its hop limit is as large as the number of other nodes
      ([hop_limit_loses_nodes] shows that the diameter is not enough), and an
      announced link state is then installed at every node.
    - Selection: two sessions that confirm the same round have the same joint
      value and order, whatever the network does and however often sessions are
      restarted; the strategies they enter have the same name, and each round is
      entered once and only when the last one is closed; the first error is
      final; a waiting session is always woken; and two sessions whose code offers
      common strategies and executes what they agreed on never see a conflict.  The strict decoder accepts exactly the
      documents without repeated keys, of depth at most four and within the
      limit.
    - Hard NAT: the probability an attempt is admitted with is a sound lower bound
      of the combinatorial one; the shuffle is unbiased (every permutation arises
      from the same number of draws); what the peer reports has no influence on a
      commitment, which rests on exactly the issued transactions; the ports of a
      sequential NAT are predicted exactly; commitments built from evidence are
      valid, survive their compact form, and always have a plan, the same
      whichever end builds it, whose two schedules meet packet by packet; a plan
      that verifies is the only one up to a hash collision and stays inside its
      envelope, which an idle governor admits; [Collect] sends exactly its
      thirteen packets.  Discovery finds the mapping of every reference NAT, and
      the filter only behind a port-dependent mapping
      ([discovery_of_reference_nat]); the first allocation sample repeats an
      earlier flow ([first_sample_stale]).
    - Probe I/O: sockets, targets, five-tuples, packets and rate stay within the
      lease's reservation, which is part of what the governor has reserved; a
      packet is sent only by a live controller, of the current generation, on an
      open socket to a registered target; a socket is promoted once, after a
      verified reply, and nothing follows; the drain is complete only when no
      goroutine is in the factory's Open, in a read or write or in a verifier, and
      in the loopback lifecycle before the attempt is released; a trip latches the
      governor.  After a promotion the drain does not wait for the factory
      ([promotion_releases_during_open]), and it never waits for the close of a
      datagram that a late open returns ([drained_before_late_close]).

    ** Bounds and fuel

    Counters of the source are [int] or [uint64] and are kept as [Z] with
    their guards; the sequence numbers of the latch and of the journal carry
    the source's overflow checks.  [time.Time] is nanoseconds as [Z], and
    [time.Duration] results saturate as Go's do where the source relies on it.
    Recursion with fuel occurs in these places.  The frame loop of the journal's decoder:
    each frame consumes at least its header, so the length of the file is
    enough, which LedgerReplay proves.  The carry loop of the packet checksum:
    two rounds fold every 32-bit sum ([fold16_range]).  The route search: every
    round visits a new node, so the number of members plus two is enough
    ([routes_are_best] includes it).  The journey of a frame over the mesh: the
    hop limit is at most 64 and shrinks with every hop ([frames_come_to_rest]).
    The scan of a JSON document: every call consumes a token, so two units for
    each token are enough ([scan_enough]).  A draw of the keyed shuffle rejects
    values and tries again; [attempts] bounds the tries, [None] is a draw that
    needs more, and the theorems that promise a plan assume that the draws
    accept ([draws_succeed]): the source loops until one does.  The attributes of
    a STUN message take four bytes each, the samples of a suffix have distinct
    ordinals, and the argument of the Poisson series is below 128, so the message
    length, the number of samples and ten halvings are enough.
    All other functions are structural.  Round-trip times add up in 64-bit
    durations that wrap; with at most 2000 members ([small]) they cannot.

    A timer is a transition that may happen at any time, a context may be
    cancelled at any time, and a failing system call may leave any prefix of
    its write.

    ** What is not modelled

    HMAC is a class without laws.  JSON and SHA-256 are the codec classes above; their laws are that
    a valid record survives encoding and decoding, and that a digest has 32
    bytes.  Locating files, permissions, file locks
    ([owner.go], [namespace.go], [owner_lock_*.go], [restricted_user.go]) are
    operating-system calls whose results are arguments.  Read accessors that
    only copy state ([Snapshot], [Inspect...]) are left out.  Socket I/O,
    gRPC services, the command line, network devices and the third-party ICE
    and WireGuard bindings are outside.  Of the mesh, neighbor sessions are
    transports behind an interface (their results are arguments) that deliver a
    message as it was sent; the handlers an application registers are arguments.
    Of the sessions, strategies and executors are references whose results are
    arguments; planning and probing are not modelled.  Of the hard-NAT attempt,
    the control protocol ([hardnatcontrol]), the executor ([hardnatattempt]) and
    [remote.go] are not modelled; the probe sockets it uses are
    the class [Network], with the registered-target check and the verifier of
    [ReceiveReply].  Of [src/internal/probeio], the factories and datagrams are
    arguments, and the transport leases, the WireGuard gates and the transport of
    a promoted socket are not modelled.  The probability caches of [planner.go] are not modelled: they
    hold the values that would be computed again.

    ** Plan for extension

    What is left of the program's own logic, in this order: the control protocol
    and the executor of a hard-NAT attempt ([hardnatcontrol], [hardnatattempt]),
    the transport leases and the WireGuard gates of [probeio], the remaining wire
    codecs ([stunwire], [rendezvouswire], [punchproto]), the session planner and the
    shortcut manager of the mesh. *)
From stdpp Require Export prelude gmap strings.
From Stdlib Require Export ZArith Lia.

#[export] Set Default Goal Selector "!".
Open Scope Z_scope.

(** ** Results

    A Go function that returns [(T, error)] is a function into [res E T];
    one that returns only an [error] is a function into [option E], where
    [None] is Go's [nil]. *)
Inductive res (E A : Type) : Type :=
| Ok (a : A)
| Err (e : E).
Arguments Ok {E A} _.
Arguments Err {E A} _.

Definition res_bind {E A B} (m : res E A) (k : A -> res E B) : res E B :=
  match m with Ok a => k a | Err e => Err e end.

(** [if err := m; err != nil { return err }]. *)
Definition err_then {E} (m : option E) (k : option E) : option E :=
  match m with Some e => Some e | None => k end.

Definition guard_err {E A} (m : option E) (k : res E A) : res E A :=
  match m with Some e => Err e | None => k end.

Declare Scope go_scope.
Delimit Scope go_scope with go.
Notation "'let!' x ':=' m 'in' k" := (res_bind m (fun x => k))
  (at level 10, x pattern, m at level 100, k at level 200) : go_scope.
Notation "'check!' m 'in' k" := (guard_err m k)
  (at level 10, m at level 100, k at level 200) : go_scope.
Notation "m '&then' k" := (err_then m k)
  (at level 60, right associativity) : go_scope.

Definition is_ok {E A} (m : res E A) : bool :=
  match m with Ok _ => true | Err _ => false end.

Section res_lemmas.
Context {E A B : Type}.

Lemma res_bind_Ok (m : res E A) (k : A -> res E B) b :
  res_bind m k = Ok b <-> exists a, m = Ok a /\ k a = Ok b.
Proof.
  split.
  - destruct m as [a|e]; [by eauto | done].
  - intros (a & -> & Hk). done.
Qed.

Lemma guard_err_Ok (m : option E) (k : res E A) a :
  guard_err m k = Ok a <-> m = None /\ k = Ok a.
Proof. destruct m; simpl; naive_solver. Qed.

Lemma err_then_None (m k : option E) :
  err_then m k = None <-> m = None /\ k = None.
Proof. destruct m; simpl; naive_solver. Qed.
End res_lemmas.

(** ** Fixed-width integers *)

Definition wrap (w : Z) (z : Z) : Z := z mod 2 ^ w.
Definition u64_add (a b : Z) : Z := wrap 64 (a + b).
Definition u64_max : Z := 2 ^ 64 - 1.
Definition i64_max : Z := 2 ^ 63 - 1.
Definition i64_min : Z := - 2 ^ 63.

Lemma u64_add_small a b :
  0 <= a + b <= u64_max -> u64_add a b = a + b.
Proof. unfold u64_add, wrap, u64_max. intros. apply Z.mod_small. lia. Qed.

Lemma wrap_range w z : 0 <= w -> 0 <= wrap w z < 2 ^ w.
Proof. intros. apply Z.mod_pos_bound. lia. Qed.

(** ** Sums over finite maps *)

Section map_sum.
Context {K : Type} `{Countable K} {A : Type}.
Implicit Types (f g : A -> Z) (m : gmap K A).

Definition map_sum f m : Z := map_fold (fun _ x acc => f x + acc) 0 m.

Lemma map_sum_empty f : map_sum f ∅ = 0.
Proof. apply map_fold_empty. Qed.

Lemma map_sum_insert f m k x :
  m !! k = None -> map_sum f (<[k:=x]> m) = f x + map_sum f m.
Proof.
  intros Hk. unfold map_sum.
  rewrite map_fold_insert_L; [done | intros; lia | done].
Qed.

Lemma map_sum_delete f m k x :
  m !! k = Some x -> map_sum f m = f x + map_sum f (delete k m).
Proof.
  intros Hk. rewrite <-(insert_id m k x) at 1 by done.
  rewrite <-insert_delete_eq. apply map_sum_insert, lookup_delete_eq.
Qed.

Lemma map_sum_ext f g m :
  (forall k x, m !! k = Some x -> f x = g x) -> map_sum f m = map_sum g m.
Proof.
  induction m as [|k x m Hk IH] using map_ind; intros Hfg.
  - by rewrite !map_sum_empty.
  - rewrite !map_sum_insert by done. f_equal.
    + apply (Hfg k). by simplify_map_eq.
    + apply IH. intros k' x' Hk'. apply (Hfg k').
      rewrite lookup_insert_ne; [done | congruence].
Qed.

Lemma map_sum_le f g m :
  (forall k x, m !! k = Some x -> f x <= g x) -> map_sum f m <= map_sum g m.
Proof.
  induction m as [|k x m Hk IH] using map_ind; intros Hfg.
  - by rewrite !map_sum_empty.
  - rewrite !map_sum_insert by done. apply Z.add_le_mono.
    + apply (Hfg k). by simplify_map_eq.
    + apply IH. intros k' x' Hk'. apply (Hfg k').
      rewrite lookup_insert_ne; [done | congruence].
Qed.

Lemma map_sum_zero m : map_sum (fun _ => 0) m = 0.
Proof.
  induction m as [|k x m Hk IH] using map_ind;
    [apply map_sum_empty | by rewrite map_sum_insert, IH].
Qed.

Lemma map_sum_nonneg f m :
  (forall k x, m !! k = Some x -> 0 <= f x) -> 0 <= map_sum f m.
Proof. intros Hf. rewrite <-(map_sum_zero m). by apply map_sum_le. Qed.
End map_sum.

(** ** Tactics shared by the components *)

(** Opens existentials and conjunctions in the context. *)
Ltac open_hyps :=
  repeat match goal with
  | H : exists x, _ |- _ => let y := fresh x in destruct H as [y H]
  | H : _ /\ _ |- _ => destruct H
  end.

(** Case analysis on the innermost [match]/[if] of hypothesis [H], discarding
    the impossible branches. *)
Ltac break_match_in H :=
  match type of H with
  | context [match ?x with _ => _ end] =>
      lazymatch x with
      | context [match _ with _ => _ end] => fail
      | _ => let E := fresh "E" in destruct x eqn:E; simplify_eq/=
      end
  end.
Ltac break_matches_in H := repeat (break_match_in H; try done).

Ltac break_match_goal :=
  match goal with
  | |- context [match ?x with _ => _ end] =>
      lazymatch x with
      | context [match _ with _ => _ end] => fail
      | _ => let E := fresh "E" in destruct x eqn:E; simplify_eq/=
      end
  end.

Create HintDb winkyou.
Create Rewrite HintDb winkyou_rw.
#[export] Hint Resolve lookup_insert_eq lookup_delete_eq : winkyou.
#[export] Hint Rewrite @map_sum_empty @map_sum_zero : winkyou_rw.

Definition bool_nat (b : bool) : nat := if b then 1%nat else 0%nat.
Definition bool_Z (b : bool) : Z := if b then 1 else 0.
