(* ===== verification/GoStd.v ===== *)
(** * The part of Go's standard library the modelled packages rely on

    [time.Time] and [time.Duration] arithmetic, byte slices and big-endian
    integers, [encoding/hex], [encoding/base64] (raw URL alphabet),
    [unicode/utf8], [strings.TrimSpace] and [unicode.IsControl].  Everything
    here is executable. *)
From S2P Require Import Prelude.

(** ** Time

    A [time.Time] is an instant in nanoseconds since year 1 (Go's zero time)
    together with whether its location is [time.UTC].  [time.Duration] is a
    number of nanoseconds. *)
Record Time := mkTime { instant : Z; utc_loc : bool }.

#[export] Instance Time_eq_dec : EqDecision Time.
Proof. solve_decision. Defined.

#[export] Instance Time_countable : Countable Time.
Proof.
  refine (inj_countable' (fun t => (instant t, utc_loc t))
    (fun '(i, u) => mkTime i u) _).
  by intros [].
Defined.

Definition Millisecond : Z := 1000000.
Definition Second : Z := 1000 * Millisecond.
Definition Minute : Z := 60 * Second.
Definition Hour : Z := 60 * Minute.

Definition time_zero : Time := mkTime 0 true.
Definition IsZero (t : Time) : bool := instant t =? 0.
Definition Before (t u : Time) : bool := instant t <? instant u.
Definition After (t u : Time) : bool := instant u <? instant t.
Definition TEqual (t u : Time) : bool := instant t =? instant u.
Definition TAdd (t : Time) (d : Z) : Time := mkTime (instant t + d) (utc_loc t).
Definition UTC (t : Time) : Time := mkTime (instant t) true.

(** [Time.Sub] saturates at the ends of [time.Duration]. *)
Definition TSub (t u : Time) : Z :=
  Z.max i64_min (Z.min i64_max (instant t - instant u)).

(** [Duration.Milliseconds] truncates toward zero. *)
Definition Milliseconds (d : Z) : Z := Z.quot d Millisecond.

Lemma TSub_exact t u :
  TEqual (TAdd u (TSub t u)) t = true <-> i64_min <= instant t - instant u <= i64_max.
Proof.
  unfold TEqual, TAdd, TSub. simpl. unfold i64_min, i64_max.
  rewrite Z.eqb_eq. lia.
Qed.

(** ** Bytes

    A byte slice is a list of integers; [is_byte] bounds each of them. *)
Definition is_byte (b : Z) : Prop := 0 <= b < 256.

Fixpoint string_bytes (s : string) : list Z :=
  match s with
  | EmptyString => []
  | String a s' => Z.of_N (Ascii.N_of_ascii a) :: string_bytes s'
  end.

Fixpoint bytes_string (bs : list Z) : string :=
  match bs with
  | [] => EmptyString
  | b :: bs' => String (Ascii.ascii_of_N (Z.to_N b)) (bytes_string bs')
  end.

Lemma bytes_string_bytes s : bytes_string (string_bytes s) = s.
Proof.
  induction s as [|a s IH]; simpl; [done|].
  by rewrite N2Z.id, Ascii.ascii_N_embedding, IH.
Qed.

Lemma string_bytes_inj s t : string_bytes s = string_bytes t -> s = t.
Proof.
  intros H. by rewrite <-(bytes_string_bytes s), <-(bytes_string_bytes t), H.
Qed.

Lemma string_bytes_string bs : Forall is_byte bs -> string_bytes (bytes_string bs) = bs.
Proof.
  induction 1 as [|b bs Hb _ IH]; simpl; [done|].
  rewrite IH. f_equal. unfold is_byte in Hb.
  rewrite Ascii.N_ascii_embedding by lia. lia.
Qed.

Lemma string_bytes_is_byte s : Forall is_byte (string_bytes s).
Proof.
  induction s as [|a s IH]; simpl; constructor; [|done].
  pose proof (Ascii.N_ascii_bounded a). unfold is_byte. lia.
Qed.

(** [len(s)]. *)
Definition slen (s : string) : Z := Z.of_nat (String.length s).
Definition blen (bs : list Z) : Z := Z.of_nat (length bs).

(** [data[from:to]] for a range that has been checked. *)
Definition slice {A} (from to : Z) (bs : list A) : list A :=
  take (Z.to_nat (to - from)) (drop (Z.to_nat from) bs).

(** [data[i]] for an index that has been checked. *)
Definition byte_at (i : Z) (bs : list Z) : Z := nth (Z.to_nat i) bs 0.

Definition bytes_eqb (a b : list Z) : bool := bool_decide (a = b).

Lemma bytes_eqb_eq a b : bytes_eqb a b = true <-> a = b.
Proof. apply bool_decide_eq_true. Qed.

(** ** Big-endian integers *)

Fixpoint be_decode_acc (acc : Z) (bs : list Z) : Z :=
  match bs with [] => acc | b :: bs' => be_decode_acc (acc * 256 + b) bs' end.
Definition be_decode (bs : list Z) : Z := be_decode_acc 0 bs.

Fixpoint be_encode (n : nat) (z : Z) : list Z :=
  match n with
  | O => []
  | S n' => (z / 256 ^ Z.of_nat n') mod 256 :: be_encode n' z
  end.

Lemma blen_app (a b : list Z) : blen (a ++ b) = (blen a + blen b)%Z.
Proof. unfold blen. rewrite length_app. lia. Qed.
Lemma be_encode_length n z : length (be_encode n z) = n.
Proof. induction n; simpl; congruence. Qed.

Lemma be_encode_is_byte n z : Forall is_byte (be_encode n z).
Proof.
  induction n; simpl; constructor; [|done].
  unfold is_byte. apply Z.mod_pos_bound. lia.
Qed.

Lemma be_decode_acc_encode n z acc :
  be_decode_acc acc (be_encode n z) = acc * 256 ^ Z.of_nat n + z mod 256 ^ Z.of_nat n.
Proof.
  revert acc. induction n as [|n IH]; intros acc.
  - simpl. rewrite Z.mod_1_r. lia.
  - change (be_encode (S n) z) with ((z / 256 ^ Z.of_nat n) mod 256 :: be_encode n z).
    cbn [be_decode_acc]. rewrite IH.
    replace (Z.of_nat (S n)) with (1 + Z.of_nat n) by lia.
    rewrite Z.pow_add_r, Z.pow_1_r by lia.
    set (p := 256 ^ Z.of_nat n).
    assert (0 < p) by (unfold p; lia).
    rewrite (Z.mul_comm 256 p), Z.rem_mul_r by lia. ring.
Qed.

Lemma be_decode_encode n z : be_decode (be_encode n z) = z mod 256 ^ Z.of_nat n.
Proof. unfold be_decode. rewrite be_decode_acc_encode. lia. Qed.

Lemma be_decode_encode_small n z :
  0 <= z < 256 ^ Z.of_nat n -> be_decode (be_encode n z) = z.
Proof. intros. rewrite be_decode_encode. by apply Z.mod_small. Qed.

Lemma be_decode_acc_bounds bs acc :
  Forall is_byte bs -> 0 <= acc ->
  acc * 256 ^ Z.of_nat (length bs) <= be_decode_acc acc bs
    < (acc + 1) * 256 ^ Z.of_nat (length bs).
Proof.
  intros Hb. revert acc. induction Hb as [|b bs Hb _ IH]; intros acc Hacc; simpl length.
  - simpl. lia.
  - cbn [be_decode_acc]. unfold is_byte in Hb. specialize (IH (acc * 256 + b) ltac:(lia)).
    rewrite Nat2Z.inj_succ, Z.pow_succ_r by lia. nia.
Qed.

Lemma be_decode_range bs :
  Forall is_byte bs -> 0 <= be_decode bs < 256 ^ Z.of_nat (length bs).
Proof. intros Hb. pose proof (be_decode_acc_bounds bs 0 Hb). unfold be_decode. lia. Qed.

Lemma be_encode_decode_acc bs acc :
  Forall is_byte bs -> 0 <= acc -> be_encode (length bs) (be_decode_acc acc bs) = bs.
Proof.
  intros Hb. revert acc. induction Hb as [|b bs Hb Hbs IH]; intros acc Hacc; [done|].
  simpl length. cbn [be_encode be_decode_acc]. unfold is_byte in Hb.
  pose proof (be_decode_acc_bounds bs (acc * 256 + b) Hbs ltac:(lia)) as Hr.
  assert (E : be_decode_acc (acc * 256 + b) bs / 256 ^ Z.of_nat (length bs) = acc * 256 + b).
  { symmetry. apply Z.div_unique_pos with
      (be_decode_acc (acc * 256 + b) bs - 256 ^ Z.of_nat (length bs) * (acc * 256 + b)); nia. }
  rewrite E, IH by lia. f_equal. rewrite Z.add_comm, Z.mod_add, Z.mod_small; lia.
Qed.

(** A byte list of known length is the encoding of its value. *)
Lemma be_encode_decode n bs :
  length bs = n -> Forall is_byte bs -> be_encode n (be_decode bs) = bs.
Proof. intros <- Hb. by apply be_encode_decode_acc. Qed.

(** ** [encoding/hex] *)

Definition hex_char (v : Z) : Z := if v <? 10 then 48 + v else 87 + v.

Definition hex_val (c : Z) : option Z :=
  if (48 <=? c) && (c <=? 57) then Some (c - 48)
  else if (97 <=? c) && (c <=? 102) then Some (c - 87)
  else if (65 <=? c) && (c <=? 70) then Some (c - 55)
  else None.

Fixpoint hex_encode (bs : list Z) : list Z :=
  match bs with
  | [] => []
  | b :: bs' => hex_char (b / 16) :: hex_char (b mod 16) :: hex_encode bs'
  end.

Fixpoint hex_decode (cs : list Z) : option (list Z) :=
  match cs with
  | [] => Some []
  | [_] => None
  | c1 :: c2 :: cs' =>
      match hex_val c1, hex_val c2, hex_decode cs' with
      | Some v1, Some v2, Some r => Some (16 * v1 + v2 :: r)
      | _, _, _ => None
      end
  end.

Lemma hex_val_char v : 0 <= v < 16 -> hex_val (hex_char v) = Some v.
Proof.
  intros. unfold hex_char, hex_val.
  destruct (Z.ltb_spec v 10).
  - replace ((48 <=? 48 + v) && (48 + v <=? 57)) with true by lia. f_equal. lia.
  - replace ((48 <=? 87 + v) && (87 + v <=? 57)) with false by lia.
    replace ((97 <=? 87 + v) && (87 + v <=? 102)) with true by lia. f_equal. lia.
Qed.

Lemma hex_decode_encode bs : Forall is_byte bs -> hex_decode (hex_encode bs) = Some bs.
Proof.
  induction 1 as [|b bs Hb _ IH]; simpl; [done|].
  unfold is_byte in Hb.
  rewrite !hex_val_char, IH.
  - f_equal. f_equal. pose proof (Z.div_mod b 16). lia.
  - apply Z.mod_pos_bound. lia.
  - split; [apply Z.div_pos; lia | apply Z.div_lt_upper_bound; lia].
Qed.

(** A canonical lowercase encoding of exactly [n] bytes:
    [hex.DecodeString] succeeds with [n] bytes that encode back to [s]. *)
Definition canonical_hex (n : Z) (s : string) : bool :=
  match hex_decode (string_bytes s) with
  | Some decoded =>
      (blen decoded =? n) && bytes_eqb (hex_encode decoded) (string_bytes s)
  | None => false
  end.

(** ** [base64.RawURLEncoding] *)

Definition b64_char (v : Z) : Z :=
  if v <? 26 then 65 + v
  else if v <? 52 then 71 + v
  else if v <? 62 then v - 4
  else if v =? 62 then 45 else 95.

Definition b64_val (c : Z) : option Z :=
  if (65 <=? c) && (c <=? 90) then Some (c - 65)
  else if (97 <=? c) && (c <=? 122) then Some (c - 71)
  else if (48 <=? c) && (c <=? 57) then Some (c + 4)
  else if c =? 45 then Some 62
  else if c =? 95 then Some 63
  else None.

Fixpoint b64_encode (bs : list Z) : list Z :=
  match bs with
  | [] => []
  | [a] => [b64_char (a / 4); b64_char (a mod 4 * 16)]
  | [a; b] => [b64_char (a / 4); b64_char (a mod 4 * 16 + b / 16);
               b64_char (b mod 16 * 4)]
  | a :: b :: c :: bs' =>
      b64_char (a / 4) :: b64_char (a mod 4 * 16 + b / 16)
      :: b64_char (b mod 16 * 4 + c / 64) :: b64_char (c mod 64)
      :: b64_encode bs'
  end.

Fixpoint b64_quanta (vs : list Z) : option (list Z) :=
  match vs with
  | [] => Some []
  | [_] => None
  | [v1; v2] => Some [v1 * 4 + v2 / 16]
  | [v1; v2; v3] => Some [v1 * 4 + v2 / 16; v2 mod 16 * 16 + v3 / 4]
  | v1 :: v2 :: v3 :: v4 :: vs' =>
      match b64_quanta vs' with
      | Some r => Some (v1 * 4 + v2 / 16 :: v2 mod 16 * 16 + v3 / 4
                        :: v3 mod 4 * 64 + v4 :: r)
      | None => None
      end
  end.

(** The decoder skips carriage returns and line feeds. *)
Definition b64_decode (cs : list Z) : option (list Z) :=
  match mapM b64_val (List.filter (fun c => negb ((c =? 10) || (c =? 13))) cs) with
  | Some vs => b64_quanta vs
  | None => None
  end.

Definition canonical_base64 (n : Z) (s : string) : bool :=
  match b64_decode (string_bytes s) with
  | Some decoded =>
      (blen decoded =? n) && bytes_eqb (b64_encode decoded) (string_bytes s)
  | None => false
  end.

(** ** [unicode/utf8], [unicode] and [strings] *)

Definition in_range (lo hi b : Z) : bool := (lo <=? b) && (b <=? hi).
Definition cont_byte (b : Z) : bool := in_range 128 191 b.

(** The bounds of the second byte depend on the first. *)
Definition second_ok (b0 b1 : Z) : bool :=
  if b0 =? 224 then in_range 160 191 b1
  else if b0 =? 237 then in_range 128 159 b1
  else if b0 =? 240 then in_range 144 191 b1
  else if b0 =? 244 then in_range 128 143 b1
  else cont_byte b1.

Definition rune_error : Z := 65533.

(** The runes of a byte string, each with whether it was a valid encoding; an
    invalid byte is one [RuneError] of width one. *)
Fixpoint runes (bs : list Z) : list (Z * bool) :=
  match bs with
  | [] => []
  | b0 :: r0 =>
      if b0 <? 128 then (b0, true) :: runes r0 else
      match r0 with
      | [] => [(rune_error, false)]
      | b1 :: r1 =>
          if in_range 194 223 b0 && cont_byte b1
          then (b0 mod 32 * 64 + b1 mod 64, true) :: runes r1 else
          match r1 with
          | [] => (rune_error, false) :: runes r0
          | b2 :: r2 =>
              if in_range 224 239 b0 && second_ok b0 b1 && cont_byte b2
              then (b0 mod 16 * 4096 + b1 mod 64 * 64 + b2 mod 64, true) :: runes r2
              else
              match r2 with
              | [] => (rune_error, false) :: runes r0
              | b3 :: r3 =>
                  if in_range 240 244 b0 && second_ok b0 b1 && cont_byte b2 && cont_byte b3
                  then (b0 mod 8 * 262144 + b1 mod 64 * 4096 + b2 mod 64 * 64 + b3 mod 64,
                        true) :: runes r3
                  else (rune_error, false) :: runes r0
              end
          end
      end
  end.

Definition string_runes (s : string) : list (Z * bool) := runes (string_bytes s).

(** [utf8.ValidString]. *)
Definition valid_utf8 (s : string) : bool := forallb snd (string_runes s).

(** [unicode.IsSpace]. *)
Definition is_space (r : Z) : bool :=
  in_range 9 13 r || (r =? 32) || (r =? 133) || (r =? 160) || (r =? 5760)
  || in_range 8192 8202 r || (r =? 8232) || (r =? 8233) || (r =? 8239)
  || (r =? 8287) || (r =? 12288).

(** [unicode.IsControl]. *)
Definition is_control (r : Z) : bool := in_range 0 31 r || in_range 127 159 r.

(** [strings.TrimSpace(s) == ""]. *)
Definition all_space (s : string) : bool :=
  forallb (fun r => is_space (fst r)) (string_runes s).

(** [strings.TrimSpace(s) == s]: no space at either end. *)
Definition trimmed (s : string) : bool :=
  match head (string_runes s), last (string_runes s) with
  | Some a, Some b => negb (is_space (fst a)) && negb (is_space (fst b))
  | _, _ => true
  end.

(** The encodings of the runes of a byte string, cut as [runes] cuts them. *)
Fixpoint rune_chunks (bs : list Z) : list (list Z) :=
  match bs with
  | [] => []
  | b0 :: r0 =>
      if b0 <? 128 then [b0] :: rune_chunks r0 else
      match r0 with
      | [] => [[b0]]
      | b1 :: r1 =>
          if in_range 194 223 b0 && cont_byte b1 then [b0; b1] :: rune_chunks r1 else
          match r1 with
          | [] => [b0] :: rune_chunks r0
          | b2 :: r2 =>
              if in_range 224 239 b0 && second_ok b0 b1 && cont_byte b2
              then [b0; b1; b2] :: rune_chunks r2
              else
              match r2 with
              | [] => [b0] :: rune_chunks r0
              | b3 :: r3 =>
                  if in_range 240 244 b0 && second_ok b0 b1 && cont_byte b2 && cont_byte b3
                  then [b0; b1; b2; b3] :: rune_chunks r3
                  else [b0] :: rune_chunks r0
              end
          end
      end
  end.

Definition space_chunk (chunk : list Z) : bool := forallb (fun r => is_space (fst r)) (runes chunk).

Fixpoint drop_spaces (chunks : list (list Z)) : list (list Z) :=
  match chunks with
  | c :: chunks' => if space_chunk c then drop_spaces chunks' else chunks
  | [] => []
  end.

(** [strings.TrimSpace]. *)
Definition TrimSpace (s : string) : string :=
  bytes_string (concat (rev (drop_spaces (rev (drop_spaces (rune_chunks (string_bytes s))))))).

(** [strings.IndexFunc(s, unicode.IsControl) >= 0]. *)
Definition has_control (s : string) : bool :=
  existsb (fun r => is_control (fst r)) (string_runes s).

(** ** A byte serialization of every countable type

    Used to exhibit codecs that satisfy the laws the components ask of theirs. *)
Fixpoint pos_bytes (p : positive) : list Z :=
  match p with xH => [] | xO q => 0 :: pos_bytes q | xI q => 1 :: pos_bytes q end.
Fixpoint bytes_pos (bs : list Z) : positive :=
  match bs with [] => xH | b :: bs' => if b =? 0 then xO (bytes_pos bs') else xI (bytes_pos bs') end.

Lemma bytes_pos_bytes p : bytes_pos (pos_bytes p) = p.
Proof. induction p; simpl; congruence. Qed.

Definition any_marshal {A} `{Countable A} (x : A) : list Z := pos_bytes (encode x).
Definition any_decode {A} `{Countable A} (bs : list Z) : option A := decode (bytes_pos bs).

Lemma any_decode_marshal {A} `{Countable A} (x : A) : any_decode (any_marshal x) = Some x.
Proof. unfold any_decode, any_marshal. by rewrite bytes_pos_bytes, decode_encode. Qed.
