(* ===== verification/Limits.v ===== *)
(** * Data shared by the governor package (src/internal/governor)

    Scopes, the safety-trip record and status, and the package's errors.  A Go
    string enumeration is an inductive type with one constructor per constant
    and, where the code has a default branch, an [...Other] constructor that
    carries the unknown text. *)
From S2P Require Import Prelude GoStd.

(** ** Scope (owner.go) *)
Inductive Scope :=
| ScopeMachine
| ScopeUserAcknowledged
| ScopeOther (s : string).

#[export] Instance Scope_eq_dec : EqDecision Scope.
Proof. solve_decision. Defined.

#[export] Instance Scope_countable : Countable Scope.
Proof.
  refine (inj_countable'
    (fun s => match s with
      | ScopeMachine => (0%nat, "") | ScopeUserAcknowledged => (1%nat, "")
      | ScopeOther t => (2%nat, t) end)
    (fun '(n, t) => match n with
      | 0%nat => ScopeMachine | 1%nat => ScopeUserAcknowledged | _ => ScopeOther t end) _).
  by intros [].
Defined.

Definition Scope_valid (s : Scope) : bool :=
  match s with ScopeMachine | ScopeUserAcknowledged => true | ScopeOther _ => false end.

(** ** Safety trips (safety_trip.go) *)
Inductive SafetyTripState :=
| SafetyTripClear
| SafetyTripTripped
| SafetyTripIndeterminate
| SafetyTripUnavailable
| SafetyTripStateOther (s : string).

#[export] Instance SafetyTripState_eq_dec : EqDecision SafetyTripState.
Proof. solve_decision. Defined.

#[export] Instance SafetyTripState_countable : Countable SafetyTripState.
Proof.
  refine (inj_countable'
    (fun s => match s with
      | SafetyTripClear => (0%nat, "") | SafetyTripTripped => (1%nat, "")
      | SafetyTripIndeterminate => (2%nat, "") | SafetyTripUnavailable => (3%nat, "")
      | SafetyTripStateOther t => (4%nat, t) end)
    (fun '(n, t) => match n with
      | 0%nat => SafetyTripClear | 1%nat => SafetyTripTripped
      | 2%nat => SafetyTripIndeterminate | 3%nat => SafetyTripUnavailable
      | _ => SafetyTripStateOther t end) _).
  by intros [].
Defined.

Inductive SafetyTripReason :=
| SafetyTripResourceExhausted
| SafetyTripWriteFailures
| SafetyTripHardLimit
| SafetyTripCancellation
| SafetyTripStaleGeneration
| SafetyTripOperator
| SafetyTripReasonOther (s : string).

#[export] Instance SafetyTripReason_eq_dec : EqDecision SafetyTripReason.
Proof. solve_decision. Defined.

#[export] Instance SafetyTripReason_countable : Countable SafetyTripReason.
Proof.
  refine (inj_countable'
    (fun s => match s with
      | SafetyTripResourceExhausted => (0%nat, "") | SafetyTripWriteFailures => (1%nat, "")
      | SafetyTripHardLimit => (2%nat, "") | SafetyTripCancellation => (3%nat, "")
      | SafetyTripStaleGeneration => (4%nat, "") | SafetyTripOperator => (5%nat, "")
      | SafetyTripReasonOther t => (6%nat, t) end)
    (fun '(n, t) => match n with
      | 0%nat => SafetyTripResourceExhausted | 1%nat => SafetyTripWriteFailures
      | 2%nat => SafetyTripHardLimit | 3%nat => SafetyTripCancellation
      | 4%nat => SafetyTripStaleGeneration | 5%nat => SafetyTripOperator
      | _ => SafetyTripReasonOther t end) _).
  by intros [].
Defined.

(** The empty reason of a clear record. *)
Definition no_reason : SafetyTripReason := SafetyTripReasonOther "".

Definition SafetyTripReason_valid (r : SafetyTripReason) : bool :=
  match r with SafetyTripReasonOther _ => false | _ => true end.

Record SafetyTripEvent := mkEvent {
  ev_Reason : SafetyTripReason;
  ev_Detail : string;
  ev_PeerID : string;
  ev_AttemptID : string;
  ev_BuildVersion : string;
  ev_OccurredAt : Time;
}.

Record SafetyTripRecord := mkTripRecord {
  tr_SchemaVersion : Z;
  tr_State : SafetyTripState;
  tr_Sequence : Z;
  tr_UpdatedAt : Time;
  tr_Reason : SafetyTripReason;
  tr_Detail : string;
  tr_PeerID : string;
  tr_AttemptID : string;
  tr_BuildVersion : string;
  tr_ResetNote : string;
}.

#[export] Instance SafetyTripRecord_eq_dec : EqDecision SafetyTripRecord.
Proof. solve_decision. Defined.

#[export] Instance SafetyTripRecord_countable : Countable SafetyTripRecord.
Proof.
  refine (inj_countable'
    (fun r => (tr_SchemaVersion r, tr_State r, tr_Sequence r, tr_UpdatedAt r, tr_Reason r,
               tr_Detail r, tr_PeerID r, tr_AttemptID r, tr_BuildVersion r, tr_ResetNote r))
    (fun '(a, b, c, d, e, f, g, h, i, j) => mkTripRecord a b c d e f g h i j) _).
  by intros [].
Defined.

(** The zero value. *)
Definition trip_record_zero : SafetyTripRecord :=
  mkTripRecord 0 (SafetyTripStateOther "") 0 time_zero no_reason "" "" "" "" "".

Record SafetyTripStatus := mkTripStatus {
  ts_State : SafetyTripState;
  ts_BlocksActiveWork : bool;
  ts_Record : SafetyTripRecord;
  ts_Detail : string;
}.

#[export] Instance SafetyTripStatus_eq_dec : EqDecision SafetyTripStatus.
Proof. solve_decision. Defined.

Definition trip_status_zero : SafetyTripStatus :=
  mkTripStatus (SafetyTripStateOther "") false trip_record_zero "".

Definition indeterminateSafetyTripStatus (detail : string) : SafetyTripStatus :=
  mkTripStatus SafetyTripIndeterminate true trip_record_zero detail.

(** ** Errors

    One constructor per sentinel of the package, with the message that tells
    its branches apart; [ELimit] is [*LimitError], [ESafetyTrip] is
    [*SafetyTripError], [EContext] an error of the caller's context, [EIO] an
    operating-system error and [EJoin] the result of [errors.Join]. *)
Inductive goerr :=
| ErrInvalidLimits (msg : string)
| ELimit (field : string) (requested maximum : Z)
| ErrNotAllowed
| ErrInvalidRequest (msg : string)
| ErrGovernorClosed
| ErrLeaseClosed
| ErrDuplicatePeer
| ErrDuplicateAttempt
| ErrExclusiveClaimUsed
| ErrCancellationDrainTimeout
| ErrRestrictedScopeRequired
| ErrOwnerInUse
| ErrSafetyStateCorrupt (msg : string)
| ErrSafetyResetRejected (msg : string)
| ESafetyTrip (status : SafetyTripStatus)
| ErrTerminalFinalizing
| ErrTerminalFinalizationTimeout
| ErrTerminalFinalizationFailed
| EContext (msg : string)
| EIO (msg : string)
| EText (msg : string)
| EJoin (errs : list goerr).

(** [errors.Join] drops the nil errors and is nil when none is left. *)
Definition errors_join (errs : list (option goerr)) : option goerr :=
  match omap id errs with [] => None | l => Some (EJoin l) end.

Lemma errors_join_None errs :
  errors_join errs = None <-> Forall (fun e => e = None) errs.
Proof.
  unfold errors_join. induction errs as [|[e|] errs IH]; simpl.
  - split; [constructor | done].
  - split; [done | inversion 1; congruence].
  - rewrite Forall_cons. tauto.
Qed.

(** ** Identifiers (governor.go) *)
Definition validateIdentifier (field value : string) : option goerr :=
  if negb (valid_utf8 value) then Some (ErrInvalidRequest (field +:+ " is not valid UTF-8"))
  else if all_space value then Some (ErrInvalidRequest (field +:+ " is empty"))
  else if negb (trimmed value) then
    Some (ErrInvalidRequest (field +:+ " has surrounding whitespace"))
  else if 256 <? slen value then Some (ErrInvalidRequest (field +:+ " is too long"))
  else if has_control value then
    Some (ErrInvalidRequest (field +:+ " contains a control character"))
  else None.

(** * The compiled resource policy (src/internal/governor/limits.go)

    Profiles, operations, resource vectors and the limits a governor enforces.
    [HardLimits] is the compiled ceiling of each profile; a configuration is
    accepted only through [validateNotRaised]. *)

Inductive Profile :=
| ProfilePhase1Machine
| ProfilePhase1ManualTraversal
| ProfilePhase1UserAcknowledged
| ProfilePhase1HardNATCampaign
| ProfileOther (s : string).

#[export] Instance Profile_eq_dec : EqDecision Profile.
Proof. solve_decision. Defined.

Definition Profile_Scope (p : Profile) : res goerr Scope :=
  match p with
  | ProfilePhase1Machine | ProfilePhase1ManualTraversal | ProfilePhase1HardNATCampaign =>
      Ok ScopeMachine
  | ProfilePhase1UserAcknowledged => Ok ScopeUserAcknowledged
  | ProfileOther _ => Err (ErrInvalidLimits "unknown profile")
  end.

Inductive Operation :=
| OperationDiagnose
| OperationConnectTest
| OperationNodeRuntime
| OperationRecovery
| OperationPortMapping
| OperationPrediction
| OperationBirthday
| OperationOther (s : string).

#[export] Instance Operation_eq_dec : EqDecision Operation.
Proof. solve_decision. Defined.

Definition Profile_Allows (p : Profile) (operation : Operation) : bool :=
  match p with
  | ProfilePhase1Machine | ProfilePhase1UserAcknowledged =>
      bool_decide (operation = OperationDiagnose)
      || bool_decide (operation = OperationConnectTest)
  | ProfilePhase1ManualTraversal =>
      bool_decide (operation = OperationPrediction)
      || bool_decide (operation = OperationBirthday)
  | ProfilePhase1HardNATCampaign => bool_decide (operation = OperationBirthday)
  | ProfileOther _ => false
  end.

(** ** Resource vectors *)
Record Resources := mkResources {
  Sockets : Z;
  Targets : Z;
  PacketsPerSecond : Z;
  Packets : Z;
  FiveTuples : Z;
}.

#[export] Instance Resources_eq_dec : EqDecision Resources.
Proof. solve_decision. Defined.

Definition resources_zero : Resources := mkResources 0 0 0 0 0.

Definition resources_add (r other : Resources) : Resources := {|
  Sockets := Sockets r + Sockets other;
  Targets := Targets r + Targets other;
  PacketsPerSecond := PacketsPerSecond r + PacketsPerSecond other;
  Packets := Packets r + Packets other;
  FiveTuples := FiveTuples r + FiveTuples other |}.

Definition resources_subtract (r other : Resources) : Resources := {|
  Sockets := Sockets r - Sockets other;
  Targets := Targets r - Targets other;
  PacketsPerSecond := PacketsPerSecond r - PacketsPerSecond other;
  Packets := Packets r - Packets other;
  FiveTuples := FiveTuples r - FiveTuples other |}.

Definition validateNonNegative (r : Resources) : option goerr :=
  if Sockets r <? 0 then Some (ErrInvalidLimits "sockets must be non-negative")
  else if Targets r <? 0 then Some (ErrInvalidLimits "targets must be non-negative")
  else if PacketsPerSecond r <? 0 then
    Some (ErrInvalidLimits "packets per second must be non-negative")
  else if Packets r <? 0 then Some (ErrInvalidLimits "packets must be non-negative")
  else if FiveTuples r <? 0 then Some (ErrInvalidLimits "five-tuples must be non-negative")
  else None.

(** The first field of [current] above [maximum], with both values; the loop
    over the table of checks returns at the first excess. *)
Definition firstExcess (checks : list (string * Z * Z)) : option (string * Z * Z) :=
  List.find (fun '(_, current, maximum) => maximum <? current) checks.

Definition firstResourceExcess (current maximum : Resources) : option (string * Z * Z) :=
  firstExcess
    [ ("sockets", Sockets current, Sockets maximum);
      ("targets", Targets current, Targets maximum);
      ("packets_per_second", PacketsPerSecond current, PacketsPerSecond maximum);
      ("packets", Packets current, Packets maximum);
      ("five_tuples", FiveTuples current, FiveTuples maximum) ].

(** [&LimitError{Field: prefix + field, ...}] for an excess that was found. *)
Definition limit_error (prefix : string) (excess : option (string * Z * Z)) : option goerr :=
  match excess with
  | Some (field, current, maximum) => Some (ELimit (prefix +:+ field) current maximum)
  | None => None
  end.

(** ** Limits *)
Record Limits := mkLimits {
  MaxActivePeers : Z;
  MaxActiveAttempts : Z;
  MaxAttemptsPerPeer : Z;
  MaxHeavyweightAttempts : Z;
  MaxAttemptDuration : Z;
  CancellationDrainTimeout : Z;
  Aggregate : Resources;
  PerAttempt : Resources;
}.

#[export] Instance Limits_eq_dec : EqDecision Limits.
Proof. solve_decision. Defined.

Definition HardLimits (profile : Profile) : res goerr Limits :=
  match profile with
  | ProfilePhase1Machine => Ok {|
      MaxActivePeers := 20;
      MaxActiveAttempts := 8;
      MaxAttemptsPerPeer := 1;
      MaxHeavyweightAttempts := 1;
      MaxAttemptDuration := 60 * Second;
      CancellationDrainTimeout := 2 * Second;
      Aggregate := {| Sockets := 128; Targets := 512; PacketsPerSecond := 64;
                      Packets := 4096; FiveTuples := 512 |};
      PerAttempt := {| Sockets := 128; Targets := 512; PacketsPerSecond := 64;
                       Packets := 512; FiveTuples := 512 |} |}
  | ProfilePhase1ManualTraversal => Ok {|
      MaxActivePeers := 1;
      MaxActiveAttempts := 1;
      MaxAttemptsPerPeer := 1;
      MaxHeavyweightAttempts := 1;
      MaxAttemptDuration := 22 * Second;
      CancellationDrainTimeout := 2 * Second;
      Aggregate := {| Sockets := 128; Targets := 516; PacketsPerSecond := 64;
                      Packets := 526; FiveTuples := 523 |};
      PerAttempt := {| Sockets := 128; Targets := 516; PacketsPerSecond := 64;
                       Packets := 526; FiveTuples := 523 |} |}
  | ProfilePhase1HardNATCampaign => Ok {|
      MaxActivePeers := 1;
      MaxActiveAttempts := 1;
      MaxAttemptsPerPeer := 1;
      MaxHeavyweightAttempts := 1;
      MaxAttemptDuration := 47 * Second;
      CancellationDrainTimeout := 2 * Second;
      Aggregate := {| Sockets := 16; Targets := 16400; PacketsPerSecond := 512;
                      Packets := 16432; FiveTuples := 16400 |};
      PerAttempt := {| Sockets := 16; Targets := 16400; PacketsPerSecond := 512;
                       Packets := 16432; FiveTuples := 16400 |} |}
  | ProfilePhase1UserAcknowledged => Ok {|
      MaxActivePeers := 1;
      MaxActiveAttempts := 1;
      MaxAttemptsPerPeer := 1;
      MaxHeavyweightAttempts := 0;
      MaxAttemptDuration := 15 * Second;
      CancellationDrainTimeout := Second;
      Aggregate := {| Sockets := 4; Targets := 8; PacketsPerSecond := 8;
                      Packets := 64; FiveTuples := 8 |};
      PerAttempt := {| Sockets := 4; Targets := 8; PacketsPerSecond := 8;
                       Packets := 64; FiveTuples := 8 |} |}
  | ProfileOther _ => Err (ErrInvalidLimits "unknown profile")
  end.

Definition validateLimits (limits : Limits) : option goerr :=
  if MaxActivePeers limits <=? 0 then
    Some (ErrInvalidLimits "max active peers must be positive")
  else if MaxActiveAttempts limits <=? 0 then
    Some (ErrInvalidLimits "max active attempts must be positive")
  else if (MaxAttemptsPerPeer limits <=? 0)
          || (MaxActiveAttempts limits <? MaxAttemptsPerPeer limits) then
    Some (ErrInvalidLimits "max attempts per peer must be within active attempt capacity")
  else if (MaxHeavyweightAttempts limits <? 0)
          || (MaxActiveAttempts limits <? MaxHeavyweightAttempts limits) then
    Some (ErrInvalidLimits "invalid heavyweight attempt limit")
  else if MaxAttemptDuration limits <=? 0 then
    Some (ErrInvalidLimits "max attempt duration must be positive")
  else if CancellationDrainTimeout limits <=? 0 then
    Some (ErrInvalidLimits "cancellation drain timeout must be positive")
  else
    (validateNonNegative (Aggregate limits) &then
     validateNonNegative (PerAttempt limits) &then
     limit_error "per_attempt_" (firstResourceExcess (PerAttempt limits) (Aggregate limits)))%go.

Definition validateNotRaised (requested hard : Limits) : option goerr :=
  (validateLimits requested &then
   limit_error "" (firstExcess
     [ ("max_active_peers", MaxActivePeers requested, MaxActivePeers hard);
       ("max_active_attempts", MaxActiveAttempts requested, MaxActiveAttempts hard);
       ("max_attempts_per_peer", MaxAttemptsPerPeer requested, MaxAttemptsPerPeer hard);
       ("max_heavyweight_attempts", MaxHeavyweightAttempts requested,
          MaxHeavyweightAttempts hard);
       ("max_attempt_duration_ns", MaxAttemptDuration requested, MaxAttemptDuration hard);
       ("cancellation_drain_timeout_ns", CancellationDrainTimeout requested,
          CancellationDrainTimeout hard) ]) &then
   limit_error "aggregate_" (firstResourceExcess (Aggregate requested) (Aggregate hard)) &then
   limit_error "per_attempt_" (firstResourceExcess (PerAttempt requested) (PerAttempt hard)))%go.

(** ** The order the checks decide *)

Definition resources_le (a b : Resources) : Prop :=
  Sockets a <= Sockets b /\ Targets a <= Targets b /\
  PacketsPerSecond a <= PacketsPerSecond b /\ Packets a <= Packets b /\
  FiveTuples a <= FiveTuples b.

Definition resources_nonneg (r : Resources) : Prop := resources_le resources_zero r.

#[export] Instance resources_le_preorder : PreOrder resources_le.
Proof. split; unfold resources_le; [intros a | intros a b c]; lia. Qed.

Definition limits_le (a b : Limits) : Prop :=
  MaxActivePeers a <= MaxActivePeers b /\ MaxActiveAttempts a <= MaxActiveAttempts b /\
  MaxAttemptsPerPeer a <= MaxAttemptsPerPeer b /\
  MaxHeavyweightAttempts a <= MaxHeavyweightAttempts b /\
  MaxAttemptDuration a <= MaxAttemptDuration b /\
  CancellationDrainTimeout a <= CancellationDrainTimeout b /\
  resources_le (Aggregate a) (Aggregate b) /\ resources_le (PerAttempt a) (PerAttempt b).

(** What a limit vector must satisfy to be enforceable. *)
Definition limits_ok (l : Limits) : Prop :=
  0 < MaxActivePeers l /\ 0 < MaxActiveAttempts l /\
  0 < MaxAttemptsPerPeer l <= MaxActiveAttempts l /\
  0 <= MaxHeavyweightAttempts l <= MaxActiveAttempts l /\
  0 < MaxAttemptDuration l /\ 0 < CancellationDrainTimeout l /\
  resources_nonneg (Aggregate l) /\ resources_nonneg (PerAttempt l) /\
  resources_le (PerAttempt l) (Aggregate l).

Lemma firstExcess_None checks :
  firstExcess checks = None <-> Forall (fun '(_, c, m) => c <= m) checks.
Proof.
  unfold firstExcess. induction checks as [|[[f c] m] checks IH]; simpl.
  - split; [constructor | done].
  - rewrite Forall_cons. destruct (Z.ltb_spec m c).
    + split; [done | lia].
    + rewrite IH. intuition lia.
Qed.

Lemma limit_error_None prefix excess : limit_error prefix excess = None <-> excess = None.
Proof. destruct excess as [[[f c] m]|]; simpl; naive_solver. Qed.

Lemma firstResourceExcess_None current maximum :
  firstResourceExcess current maximum = None <-> resources_le current maximum.
Proof.
  unfold firstResourceExcess, resources_le.
  rewrite firstExcess_None, !Forall_cons, Forall_nil. intuition lia.
Qed.

Lemma validateNonNegative_None r : validateNonNegative r = None <-> resources_nonneg r.
Proof.
  unfold validateNonNegative, resources_nonneg, resources_le, resources_zero. simpl.
  repeat (case_match; [naive_solver lia|]). naive_solver lia.
Qed.

Lemma validateLimits_None l : validateLimits l = None <-> limits_ok l.
Proof.
  unfold validateLimits, limits_ok.
  repeat (case_match; [split; [done | lia] |]).
  rewrite !err_then_None, !validateNonNegative_None, limit_error_None,
    firstResourceExcess_None.
  intuition lia.
Qed.

#[export] Hint Rewrite validateNonNegative_None validateLimits_None limit_error_None
  firstResourceExcess_None : winkyou_rw.

(** The resource arithmetic behaves as vector addition. *)
Lemma resources_add_sub r o : resources_subtract (resources_add r o) o = r.
Proof. destruct r, o. unfold resources_subtract, resources_add. simpl. f_equal; lia. Qed.

Lemma resources_eq a b : resources_le a b -> resources_le b a -> a = b.
Proof. destruct a, b. unfold resources_le. simpl. intros. f_equal; lia. Qed.

Lemma resources_le_add_nonneg r o :
  resources_nonneg o -> resources_le r (resources_add r o).
Proof. unfold resources_nonneg, resources_le. simpl. lia. Qed.

Lemma HardLimits_ok p l : HardLimits p = Ok l -> limits_ok l.
Proof.
  intros H. apply validateLimits_None.
  destruct p; simpl in H; inv H; reflexivity.
Qed.

(** [validateNotRaised] accepts a requested limit vector exactly when it is well
    formed and no field of it exceeds the compiled ceiling. *)
Lemma validateNotRaised_None requested hard :
  validateNotRaised requested hard = None <->
  limits_ok requested /\ limits_le requested hard.
Proof.
  unfold validateNotRaised, limits_le.
  rewrite !err_then_None, !limit_error_None, validateLimits_None,
    !firstResourceExcess_None, firstExcess_None, !Forall_cons, Forall_nil.
  intuition lia.
Qed.

#[export] Instance limits_le_preorder : PreOrder limits_le.
Proof. split; unfold limits_le, resources_le; [intros a | intros a b c]; lia. Qed.
