(* ===== verification/SafetyTrip.v ===== *)
(** * The persistent safety-trip latch (src/internal/governor/safety_trip.go)

    The state file is one latch byte ('C' or 'T') followed by a checksummed
    JSON envelope.  [readLocked] interprets a file; [tripThen] and
    [store_reset] are the two writers.  Each writer takes the outcome of every
    system call it makes ([trip_io]) and returns, besides Go's results, the
    sequence of file contents it produces, so that the state left by a crash
    or a failed call at any point is one of that sequence.

    [encoding/json] and [crypto/sha256] are reached through the class
    [TripCodec]; its laws are in [TripCodecLaws]. *)
From S2P Require Import Prelude GoStd Limits.

Definition safetyTripSchemaVersion : Z := 1.
Definition maxSafetyTripFileBytes : Z := 16 * 1024.
Definition maxSafetyTripDetailLen : Z := 1024.
Definition maxSafetyTripNoteLen : Z := 1024.
Definition maxSafetyTripBuildLen : Z := 128.
Definition safetyTripLatchClear : Z := 67.
Definition safetyTripLatchTripped : Z := 84.

(** ** Validation *)

Definition validateSafetyDiagnosticText (field value : string) (maximum : Z)
    (allowEmpty : bool) : option goerr :=
  if bool_decide (value = "") then
    if allowEmpty then None else Some (EText (field +:+ " is empty"))
  else if negb (valid_utf8 value) then Some (EText (field +:+ " is not valid UTF-8"))
  else if maximum <? slen value then Some (EText (field +:+ " is too long"))
  else if has_control value then Some (EText (field +:+ " contains a control character"))
  else None.

(** [fmt.Errorf("%w: %v", ErrInvalidRequest, err)]. *)
Definition as_invalid_request (m : option goerr) : option goerr :=
  match m with
  | Some (EText msg) => Some (ErrInvalidRequest msg)
  | Some _ => Some (ErrInvalidRequest "")
  | None => None
  end.

(** An identifier that may be absent. *)
Definition validateOptionalIdentifier (field value : string) : option goerr :=
  if bool_decide (value = "") then None else validateIdentifier field value.

Definition validateSafetyTripEvent (event : SafetyTripEvent) : option goerr :=
  if negb (SafetyTripReason_valid (ev_Reason event)) then
    Some (ErrInvalidRequest "unknown safety trip reason")
  else
    (as_invalid_request (validateSafetyDiagnosticText "safety trip detail"
       (ev_Detail event) maxSafetyTripDetailLen true) &then
     as_invalid_request (validateSafetyDiagnosticText "build version"
       (ev_BuildVersion event) maxSafetyTripBuildLen true) &then
     validateOptionalIdentifier "peer id" (ev_PeerID event) &then
     validateOptionalIdentifier "attempt id" (ev_AttemptID event))%go.

Definition validateSafetyTripRecord (record : SafetyTripRecord) : option goerr :=
  if negb (tr_SchemaVersion record =? safetyTripSchemaVersion) then
    Some (EText "schema version")
  else if IsZero (tr_UpdatedAt record) then Some (EText "updated_at is missing")
  else
    (validateSafetyDiagnosticText "detail" (tr_Detail record)
       maxSafetyTripDetailLen true &then
     validateSafetyDiagnosticText "reset note" (tr_ResetNote record)
       maxSafetyTripNoteLen true &then
     validateSafetyDiagnosticText "build version" (tr_BuildVersion record)
       maxSafetyTripBuildLen true &then
     validateOptionalIdentifier "peer id" (tr_PeerID record) &then
     validateOptionalIdentifier "attempt id" (tr_AttemptID record) &then
     match tr_State record with
     | SafetyTripClear =>
         if negb (bool_decide (tr_Reason record = no_reason))
            || negb (bool_decide (tr_Detail record = ""))
            || negb (bool_decide (tr_PeerID record = ""))
            || negb (bool_decide (tr_AttemptID record = ""))
         then Some (EText "clear record contains trip-only fields")
         else if (0 <? tr_Sequence record) && bool_decide (tr_ResetNote record = "")
         then Some (EText "reset clear record has no operator note")
         else None
     | SafetyTripTripped =>
         if negb (SafetyTripReason_valid (tr_Reason record))
         then Some (EText "unknown trip reason")
         else if tr_Sequence record =? 0
         then Some (EText "tripped record sequence is zero")
         else if negb (bool_decide (tr_ResetNote record = ""))
         then Some (EText "tripped record contains a reset note")
         else None
     | _ => Some (EText "unknown record state")
     end)%go.

(** [fmt.Errorf("%w: %v", ErrSafetyResetRejected, err)]. *)
Definition as_reset_rejected (m : option goerr) : option goerr :=
  match m with
  | Some (EText msg) => Some (ErrSafetyResetRejected msg)
  | Some _ => Some (ErrSafetyResetRejected "")
  | None => None
  end.

Definition validateSafetyResetRequest (expectedSequence : Z) (note buildVersion : string)
    : option goerr :=
  if expectedSequence =? 0 then
    Some (ErrSafetyResetRejected "expected sequence must be greater than zero")
  else if negb (trimmed note) then
    Some (ErrSafetyResetRejected "reset note must not have surrounding whitespace")
  else
    (as_reset_rejected (validateSafetyDiagnosticText "reset note" note
       maxSafetyTripNoteLen false) &then
     as_reset_rejected (validateSafetyDiagnosticText "build version" buildVersion
       maxSafetyTripBuildLen true))%go.

(** ** The codec *)

Class TripCodec := {
  (** [json.Marshal(record)] *)
  trip_marshal_record : SafetyTripRecord -> option (list Z);
  (** [json.Marshal(safetyTripEnvelope{Record, Checksum})] *)
  trip_marshal_envelope : SafetyTripRecord -> list Z -> option (list Z);
  (** [Decode] with [DisallowUnknownFields], then a second [Decode] that must
      find the end of the input *)
  trip_decode_envelope : list Z -> option (SafetyTripRecord * list Z);
  (** [sha256.Sum256] *)
  trip_sum256 : list Z -> list Z;
}.

(** What the code relies on: a marshalled envelope followed by a line feed
    decodes to itself (for the records the code marshals: validated, with a
    UTC time stamp), and the digest is 32 bytes. *)
Class TripCodecLaws (C : TripCodec) := {
  trip_decode_marshal : forall record checksum payload,
    validateSafetyTripRecord record = None ->
    utc_loc (tr_UpdatedAt record) = true ->
    trip_marshal_envelope record checksum = Some payload ->
    trip_decode_envelope (payload ++ [10]) = Some (record, checksum);
  trip_sum256_bytes : forall data,
    length (trip_sum256 data) = 32%nat /\ Forall is_byte (trip_sum256 data);
}.

(** The contents of the state file; [None] when it cannot be read. *)
Abbreviation disk := (option (list Z)).

(** [file.WriteAt(data, off)]. *)
Definition write_at (off : nat) (data file : list Z) : list Z :=
  take off file ++ replicate (off - length file) 0 ++ data
  ++ drop (off + length data) file.

(** The outcome of each system call of one writer, [true] for success;
    [io_record_prefix] is how much of the record a failed write leaves and
    [io_reread] whether the file can be read back at the end. *)
Record trip_io := mkTripIO {
  io_open : bool;
  io_latch_write : bool;
  io_latch_sync : bool;
  io_hook : bool;
  io_record_write : bool;
  io_record_prefix : nat;
  io_truncate : bool;
  io_sync : bool;
  io_close : bool;
  io_reread : bool;
}.

Definition io_all_ok : trip_io := mkTripIO true true true true true 0 true true true true.

(** What one writer produces. *)
Record trip_run := mkRun {
  run_disks : list (list Z);
  run_status : SafetyTripStatus;
  run_err : option goerr;
  run_after_latch : bool;
}.

(** The file at the end of the run. *)
Definition run_disk (before : disk) (r : trip_run) : disk :=
  match last (run_disks r) with Some d => Some d | None => before end.

Section store.
Context {C : TripCodec}.

Definition encodeSafetyTripRecord (record : SafetyTripRecord) : res goerr (list Z) :=
  match validateSafetyTripRecord record with
  | Some e => Err e
  | None =>
      match trip_marshal_record record with
      | None => Err (EText "encode safety trip record")
      | Some recordPayload =>
          let checksum := hex_encode (trip_sum256 recordPayload) in
          match trip_marshal_envelope record checksum with
          | None => Err (EText "encode safety trip envelope")
          | Some payload => Ok (payload ++ [10])
          end
      end
  end.

Definition decodeSafetyTripRecord (payload : list Z) : res goerr SafetyTripRecord :=
  match trip_decode_envelope payload with
  | None => Err (ErrSafetyStateCorrupt "decode envelope")
  | Some (record, checksum) =>
      match validateSafetyTripRecord record with
      | Some _ => Err (ErrSafetyStateCorrupt "record")
      | None =>
          match trip_marshal_record record with
          | None => Err (ErrSafetyStateCorrupt "encode checksum input")
          | Some recordPayload =>
              match hex_decode checksum with
              | Some got =>
                  if (blen got =? 32) && bytes_eqb got (trip_sum256 recordPayload)
                  then Ok record
                  else Err (ErrSafetyStateCorrupt "checksum mismatch")
              | None => Err (ErrSafetyStateCorrupt "checksum mismatch")
              end
          end
      end
  end.

Definition readSafetyTripFile (d : disk) : res goerr (list Z) :=
  match d with
  | None => Err (EIO "read safety trip state")
  | Some data =>
      if blen data <? 2 then Err (EText "safety trip state is empty or truncated")
      else if maxSafetyTripFileBytes <? blen data
      then Err (EText "safety trip state exceeds its limit")
      else Ok data
  end.

Definition readLocked (d : disk) : SafetyTripStatus :=
  match readSafetyTripFile d with
  | Err _ => indeterminateSafetyTripStatus "unreadable"
  | Ok data =>
      let latch := byte_at 0 data in
      match decodeSafetyTripRecord (drop 1 data) with
      | Err _ => indeterminateSafetyTripStatus "corrupt"
      | Ok record =>
          if (latch =? safetyTripLatchClear) && bool_decide (tr_State record = SafetyTripClear)
          then mkTripStatus SafetyTripClear false record ""
          else if (latch =? safetyTripLatchTripped)
                  && bool_decide (tr_State record = SafetyTripTripped)
          then mkTripStatus SafetyTripTripped true record ""
          else indeterminateSafetyTripStatus "latch does not match record state"
      end
  end.

Definition initializeSafetyTripFile (now : Time) : res goerr (list Z) :=
  match encodeSafetyTripRecord (mkTripRecord safetyTripSchemaVersion SafetyTripClear 0
          (UTC now) no_reason "" "" "" "" "") with
  | Err e => Err e
  | Ok payload => Ok (safetyTripLatchClear :: payload)
  end.

(** [writeSafetyTripRecord]: the contents of the file after each call that
    changed it, and the error. *)
Definition writeSafetyTripRecord (io : trip_io) (file : list Z) (record : SafetyTripRecord)
    : list (list Z) * option goerr :=
  match encodeSafetyTripRecord record with
  | Err e => ([], Some e)
  | Ok payload =>
      if maxSafetyTripFileBytes <? 1 + blen payload then
        ([], Some (EText "safety trip state exceeds its limit"))
      else if negb (io_record_write io) then
        ([write_at 1 (take (io_record_prefix io) payload) file],
         Some (EIO "write safety trip record"))
      else
        let written := write_at 1 payload file in
        if negb (io_truncate io) then ([written], Some (EIO "truncate safety trip record"))
        else
          let truncated := take (1 + length payload) written in
          if negb (io_sync io) then
            ([written; truncated], Some (EIO "sync safety trip record"))
          else ([written; truncated], None)
  end.

(** The status the writer reads back. *)
Definition readback (io : trip_io) (file : list Z) : SafetyTripStatus :=
  readLocked (if io_reread io then Some file else None).

(** The file after the writes [ds] over [file]. *)
Definition after_writes (file : list Z) (ds : list (list Z)) : list Z :=
  match last ds with Some d => d | None => file end.

Definition tripThen (io : trip_io) (now : Time) (event : SafetyTripEvent) (d : disk)
    : trip_run :=
  match validateSafetyTripEvent event with
  | Some e => mkRun [] trip_status_zero (Some e) false
  | None =>
      let current := readLocked d in
      if bool_decide (ts_State current = SafetyTripTripped) then
        mkRun [] current None true
      else if ts_BlocksActiveWork current then
        mkRun [] current (Some (ESafetyTrip current)) true
      else
        let when := if IsZero (ev_OccurredAt event) then now else ev_OccurredAt event in
        let record := mkTripRecord safetyTripSchemaVersion SafetyTripTripped
          (u64_add (tr_Sequence (ts_Record current)) 1) (UTC when) (ev_Reason event)
          (ev_Detail event) (ev_PeerID event) (ev_AttemptID event)
          (ev_BuildVersion event) "" in
        match d with
        | None => mkRun [] (indeterminateSafetyTripStatus "open")
                    (Some (EIO "open safety trip state")) false
        | Some file =>
            if negb (io_open io) then
              mkRun [] (indeterminateSafetyTripStatus "open")
                (Some (EIO "open safety trip state")) false
            else if negb (io_latch_write io) then
              mkRun [] (indeterminateSafetyTripStatus "latch")
                (Some (EIO "write safety trip latch")) false
            else
              let latched := write_at 0 [safetyTripLatchTripped] file in
              if negb (io_latch_sync io) then
                mkRun [latched] (indeterminateSafetyTripStatus "latch")
                  (Some (EIO "sync safety trip latch")) false
              else if negb (io_hook io) then
                mkRun [latched] (readback io latched)
                  (Some (EText "after trip latch commit")) true
              else
                let '(ds, werr) := writeSafetyTripRecord io latched record in
                let final := after_writes latched ds in
                match werr with
                | Some e => mkRun (latched :: ds) (readback io final) (Some e) true
                | None =>
                    let status := readback io final in
                    if negb (io_close io) then
                      mkRun (latched :: ds) status (Some (EIO "close safety trip file")) true
                    else if negb (bool_decide (ts_State status = SafetyTripTripped)) then
                      mkRun (latched :: ds) status (Some (ESafetyTrip status)) true
                    else mkRun (latched :: ds) status None true
                end
        end
  end.

Definition store_reset (io : trip_io) (now : Time) (expectedSequence : Z)
    (note buildVersion : string) (d : disk) : trip_run :=
  match validateSafetyResetRequest expectedSequence note buildVersion with
  | Some e => mkRun [] trip_status_zero (Some e) false
  | None =>
      let current := readLocked d in
      if negb (bool_decide (ts_State current = SafetyTripTripped)) then
        if ts_BlocksActiveWork current then
          mkRun [] current (Some (ESafetyTrip current)) false
        else mkRun [] current (Some (ErrSafetyResetRejected "state is not tripped")) false
      else if (expectedSequence =? 0)
              || negb (expectedSequence =? tr_Sequence (ts_Record current)) then
        mkRun [] current (Some (ErrSafetyResetRejected "expected sequence")) false
      else
        let record := mkTripRecord safetyTripSchemaVersion SafetyTripClear
          (u64_add (tr_Sequence (ts_Record current)) 1) (UTC now) no_reason
          "" "" "" buildVersion note in
        match d with
        | None => mkRun [] current (Some (EIO "open safety trip state")) false
        | Some file =>
            if negb (io_open io) then
              mkRun [] current (Some (EIO "open safety trip state")) false
            else
              let '(ds, werr) := writeSafetyTripRecord io file record in
              let recorded := after_writes file ds in
              match werr with
              | Some e => mkRun ds (readback io recorded) (Some e) false
              | None =>
                  if negb (io_hook io) then
                    mkRun ds (readback io recorded)
                      (Some (EText "before reset latch clear")) false
                  else if negb (io_latch_write io) then
                    mkRun ds (readback io recorded)
                      (Some (EIO "write safety trip latch")) false
                  else
                    let final := write_at 0 [safetyTripLatchClear] recorded in
                    let status := readback io final in
                    if negb (io_latch_sync io) then
                      mkRun (ds ++ [final]) status (Some (EIO "sync safety trip latch")) false
                    else if negb (io_close io) then
                      mkRun (ds ++ [final]) status (Some (EIO "close safety trip file")) false
                    else if negb (bool_decide (ts_State status = SafetyTripClear)) then
                      mkRun (ds ++ [final]) status (Some (ESafetyTrip status)) false
                    else mkRun (ds ++ [final]) status None false
              end
        end
  end.

(** ** Reading *)

Lemma readLocked_not_blocking d :
  ts_BlocksActiveWork (readLocked d) = false <->
  exists file record, d = Some file /\ 2 <= blen file <= maxSafetyTripFileBytes /\
    byte_at 0 file = safetyTripLatchClear /\
    decodeSafetyTripRecord (drop 1 file) = Ok record /\ tr_State record = SafetyTripClear /\
    readLocked d = mkTripStatus SafetyTripClear false record "".
Proof.
  split.
  - unfold readLocked, readSafetyTripFile.
    destruct d as [file|]; [|done].
    destruct (Z.ltb_spec (blen file) 2); [done|].
    destruct (Z.ltb_spec maxSafetyTripFileBytes (blen file)); [done|].
    destruct (decodeSafetyTripRecord (drop 1 file)) as [record|e] eqn:Hdec; [|done].
    destruct (byte_at 0 file =? safetyTripLatchClear) eqn:Hl;
      destruct (bool_decide (tr_State record = SafetyTripClear)) eqn:Hs; simpl.
    1: { intros _. exists file, record. rewrite bool_decide_eq_true in Hs. repeat split; auto; lia. }
    all: destruct (byte_at 0 file =? safetyTripLatchTripped);
      destruct (bool_decide (tr_State record = SafetyTripTripped)); done.
  - intros (file & record & -> & _ & _ & _ & _ & ->). done.
Qed.

Lemma latch_tripped_blocks file :
  byte_at 0 file = safetyTripLatchTripped ->
  ts_BlocksActiveWork (readLocked (Some file)) = true.
Proof.
  intros Hl. apply not_false_iff_true. rewrite readLocked_not_blocking.
  intros (f & r & Hf & _ & Hc & _). simplify_eq. rewrite Hl in Hc. discriminate Hc.
Qed.

Lemma readback_latch_tripped io file :
  byte_at 0 file = safetyTripLatchTripped ->
  ts_BlocksActiveWork (readback io file) = true.
Proof. intros. unfold readback. destruct (io_reread io); [by apply latch_tripped_blocks|done]. Qed.

Lemma write_latch_head b file : byte_at 0 (write_at 0 [b] file) = b.
Proof. done. Qed.

Lemma write_record_head data file :
  file <> [] -> byte_at 0 (write_at 1 data file) = byte_at 0 file.
Proof. destruct file; [done|]. done. Qed.

Lemma write_at_nonempty data file : write_at 1 data file <> [].
Proof. destruct file; done. Qed.

(** The record writer never touches the latch. *)
Lemma writeSafetyTripRecord_latch io file record :
  file <> [] ->
  Forall (fun f => f <> [] /\ byte_at 0 f = byte_at 0 file)
    (writeSafetyTripRecord io file record).1.
Proof.
  intros Hf. unfold writeSafetyTripRecord.
  destruct (encodeSafetyTripRecord record) as [payload|e]; [|constructor].
  destruct (maxSafetyTripFileBytes <? 1 + blen payload); [constructor|].
  assert (Hw : forall data, write_at 1 data file <> [] /\
                byte_at 0 (write_at 1 data file) = byte_at 0 file).
  { intros data. split; [apply write_at_nonempty | by apply write_record_head]. }
  assert (Ht : take (1 + length payload) (write_at 1 payload file) <> [] /\
     byte_at 0 (take (1 + length payload) (write_at 1 payload file)) = byte_at 0 file).
  { destruct file; [done|]. done. }
  destruct (io_record_write io); simpl; [|by auto].
  destruct (io_truncate io); simpl; [|by auto].
  destruct (io_sync io); simpl; auto.
Qed.

Lemma after_writes_forall (P : list Z -> Prop) file ds :
  P file -> Forall P ds -> P (after_writes file ds).
Proof.
  intros Hf Hds. unfold after_writes. destruct (last ds) eqn:Hl; [|done].
  rewrite Forall_forall in Hds. by apply Hds, last_Some_elem_of.
Qed.

(** The file a trip or a reset rewrites is not empty: its status was read. *)
Lemma readLocked_read file :
  (ts_BlocksActiveWork (readLocked (Some file)) = false \/
   ts_State (readLocked (Some file)) = SafetyTripTripped) -> file <> [].
Proof.
  intros H ->. unfold readLocked in H. simpl in H. destruct H; discriminate.
Qed.

Lemma readLocked_tripped_latch file :
  ts_State (readLocked (Some file)) = SafetyTripTripped ->
  byte_at 0 file = safetyTripLatchTripped.
Proof.
  unfold readLocked. destruct (readSafetyTripFile (Some file)) as [data|] eqn:Hr; [|done].
  assert (data = file) as ->.
  { unfold readSafetyTripFile in Hr. repeat case_match; congruence. }
  destruct (decodeSafetyTripRecord (drop 1 file)); [|done].
  destruct (byte_at 0 file =? safetyTripLatchClear) eqn:E1;
    destruct (bool_decide (tr_State a = SafetyTripClear)); simpl; try done;
    destruct (byte_at 0 file =? safetyTripLatchTripped) eqn:E2; simpl; try done; lia.
Qed.

Lemma readLocked_tripped_blocks d :
  ts_State (readLocked d) = SafetyTripTripped -> ts_BlocksActiveWork (readLocked d) = true.
Proof.
  intros H. apply not_false_iff_true. rewrite readLocked_not_blocking.
  intros (f & r & _ & _ & _ & _ & _ & Hr). rewrite Hr in H. discriminate.
Qed.

(** The disks a trip leaves once the latch byte is written. *)
Lemma trip_latched_disks io file record latched ds werr :
  latched = write_at 0 [safetyTripLatchTripped] file ->
  writeSafetyTripRecord io latched record = (ds, werr) ->
  Forall (fun f => f <> [] /\ byte_at 0 f = safetyTripLatchTripped) (latched :: ds) /\
  byte_at 0 (after_writes latched ds) = safetyTripLatchTripped.
Proof.
  intros Heq Hrun. pose proof (writeSafetyTripRecord_latch io latched record) as Hw.
  rewrite Hrun in Hw. simpl in Hw.
  assert (Hl : latched <> [] /\ byte_at 0 latched = safetyTripLatchTripped)
    by by rewrite Heq.
  destruct Hl as [Hne Hl]. rewrite Hl in Hw. specialize (Hw Hne). split.
  - by constructor.
  - by apply (after_writes_forall
      (fun f => f <> [] /\ byte_at 0 f = safetyTripLatchTripped)).
Qed.

Lemma run_disk_last before r (P : list Z -> Prop) :
  Forall P (run_disks r) -> (run_disks r = [] -> exists f, before = Some f /\ P f) ->
  exists f, run_disk before r = Some f /\ P f.
Proof.
  unfold run_disk. intros Hall Hb. destruct (last (run_disks r)) as [f|] eqn:Hl.
  - exists f. split; [done|]. rewrite Forall_forall in Hall.
    by apply Hall, last_Some_elem_of.
  - apply last_None in Hl. auto.
Qed.

Lemma tripThen_blocks io now event d :
  validateSafetyTripEvent event = None ->
  let r := tripThen io now event d in
  ts_BlocksActiveWork (run_status r) = true /\
  Forall (fun f => ts_BlocksActiveWork (readLocked (Some f)) = true) (run_disks r) /\
  (run_after_latch r = true -> ts_BlocksActiveWork (readLocked (run_disk d r)) = true).
Proof.
  intros Hev r. subst r. unfold tripThen. rewrite Hev.
  destruct (bool_decide_reflect (ts_State (readLocked d) = SafetyTripTripped)) as [Ht|Ht].
  { pose proof (readLocked_tripped_blocks d Ht). by repeat split. }
  destruct (ts_BlocksActiveWork (readLocked d)) eqn:Hb; [by repeat split|].
  destruct d as [file|]; [|by repeat split].
  destruct (io_open io); [|by repeat split].
  destruct (io_latch_write io); [|by repeat split].
  match goal with |- context [writeSafetyTripRecord io ?l ?rec] =>
    destruct (writeSafetyTripRecord io l rec) as [ds werr] eqn:Hrun;
    destruct (trip_latched_disks io file rec l ds werr eq_refl Hrun) as [Hall Hlast] end.
  assert (Hblk : Forall (fun f => ts_BlocksActiveWork (readLocked (Some f)) = true)
            (write_at 0 [safetyTripLatchTripped] file :: ds)).
  { eapply Forall_impl; [exact Hall|]. intros f [_ Hf]. by apply latch_tripped_blocks. }
  pose proof (readback_latch_tripped io _ Hlast) as Hrb.
  pose proof (readback_latch_tripped io _ (write_latch_head safetyTripLatchTripped file)) as Hrl.
  assert (Hgo : forall status err called,
    ts_BlocksActiveWork status = true ->
    let r := mkRun (write_at 0 [safetyTripLatchTripped] file :: ds) status err called in
    ts_BlocksActiveWork (run_status r) = true /\
    Forall (fun f => ts_BlocksActiveWork (readLocked (Some f)) = true) (run_disks r) /\
    (run_after_latch r = true -> ts_BlocksActiveWork (readLocked (run_disk (Some file) r)) = true)).
  { intros status err called Hs. repeat split; [done..|]. intros _.
    destruct (run_disk_last (Some file) (mkRun (write_at 0 [safetyTripLatchTripped] file :: ds)
      status err called) _ Hblk) as (f & -> & Hf); [done|done]. }
  apply Forall_cons in Hblk as [Hone _].
  destruct (io_latch_sync io); simpl negb; cbv iota; [|by split_and!; [|apply Forall_singleton|]].
  destruct (io_hook io); [|by split_and!; [|apply Forall_singleton|]].
  destruct werr; [by apply Hgo|].
  destruct (io_close io); simpl; [|by apply Hgo].
  destruct (bool_decide _); by apply Hgo.
Qed.

(** ** Properties *)

(** What an unblocking file holds, independently of the reader: a text without
    control characters, a record that is clear and nothing else, and a payload
    that carries such a record with the SHA-256 of its encoding. *)
Definition plain_text (maximum : Z) (s : string) : Prop :=
  s = "" \/ valid_utf8 s = true /\ slen s <= maximum /\ has_control s = false.

Record clear_record (r : SafetyTripRecord) : Prop := {
  cr_state : tr_State r = SafetyTripClear;
  cr_schema : tr_SchemaVersion r = 1;
  cr_updated : IsZero (tr_UpdatedAt r) = false;
  cr_reason : tr_Reason r = no_reason;
  cr_texts : tr_Detail r = "" /\ tr_PeerID r = "" /\ tr_AttemptID r = "";
  cr_note : plain_text 1024 (tr_ResetNote r);
  cr_noted : 0 < tr_Sequence r -> tr_ResetNote r <> "";
  cr_build : plain_text 128 (tr_BuildVersion r);
}.

Definition sealed (payload : list Z) (r : SafetyTripRecord) : Prop :=
  exists checksum recordPayload,
    trip_decode_envelope payload = Some (r, checksum) /\
    trip_marshal_record r = Some recordPayload /\
    hex_decode checksum = Some (trip_sum256 recordPayload) /\
    length (trip_sum256 recordPayload) = 32%nat.

Lemma diagnostic_text_None field value maximum :
  validateSafetyDiagnosticText field value maximum true = None <-> plain_text maximum value.
Proof.
  unfold validateSafetyDiagnosticText, plain_text. case_bool_decide; [naive_solver|].
  destruct (valid_utf8 value), (Z.ltb_spec maximum (slen value)), (has_control value); simpl;
    naive_solver lia.
Qed.

Lemma clear_record_valid r :
  validateSafetyTripRecord r = None /\ tr_State r = SafetyTripClear <-> clear_record r.
Proof.
  unfold validateSafetyTripRecord, safetyTripSchemaVersion, maxSafetyTripDetailLen,
    maxSafetyTripNoteLen, maxSafetyTripBuildLen. split.
  - destruct (Z.eqb_spec (tr_SchemaVersion r) 1); [simpl|by intros []].
    destruct (IsZero (tr_UpdatedAt r)) eqn:?; [by intros []|].
    rewrite !err_then_None, !diagnostic_text_None. intros [(_ & Hn & Hb & _ & _ & H) E].
    rewrite E in H. repeat case_bool_decide; try done. simpl in H.
    split; try done. destruct (Z.ltb_spec 0 (tr_Sequence r)); [|lia]. done.
  - intros [E1 E2 E3 E4 (E5 & E6 & E7) Hn Hs Hb]. split; [|done].
    rewrite E2, E3, Z.eqb_refl. cbn [negb].
    rewrite !err_then_None, !diagnostic_text_None, E5, E6, E7, E1, E4.
    split_and!; try done; [by left|].
    rewrite !bool_decide_eq_true_2 by done. simpl.
    destruct (Z.ltb_spec 0 (tr_Sequence r)); [|done]. by rewrite bool_decide_eq_false_2 by auto.
Qed.

Lemma decode_clear payload r :
  decodeSafetyTripRecord payload = Ok r /\ tr_State r = SafetyTripClear <->
  clear_record r /\ sealed payload r.
Proof.
  rewrite <-clear_record_valid. unfold decodeSafetyTripRecord, sealed. split.
  - intros [H Es]. destruct (trip_decode_envelope payload) as [[r' c]|]; [|done].
    destruct (validateSafetyTripRecord r') eqn:Ev; [done|].
    destruct (trip_marshal_record r') as [bytes|] eqn:Em; [|done].
    destruct (hex_decode c) as [got|] eqn:Eh; [|done].
    destruct (Z.eqb_spec (blen got) 32) as [Hl|]; [|done]. simpl in H.
    destruct (bytes_eqb got _) eqn:Eb; [|done]. apply bytes_eqb_eq in Eb as ->. injection H as ->.
    split; [done|]. exists c, bytes. split_and!; try done. unfold blen in Hl. lia.
  - intros [[Ev Es] (c & bytes & -> & Em & Eh & Hl)]. rewrite Ev, Em, Eh. unfold blen.
    rewrite Hl. simpl. by rewrite (proj2 (bytes_eqb_eq _ _) eq_refl).
Qed.

(** C5: the latch fails closed.  Whatever bytes the state file holds (or if it
    cannot be read at all), the status leaves active work unblocked exactly
    when the file is the byte 'C' followed by at least one and fewer than 16384
    bytes that decode to a record and a checksum, the checksum being the 32
    bytes of SHA-256 of the record's encoding in hexadecimal, and the record is
    of schema 1, clear, dated, with no reason, detail, peer or attempt, with a
    bounded printable note (required once a trip has happened) and build
    version. *)
Theorem safety_latch_fail_closed d :
  ts_BlocksActiveWork (readLocked d) = false <->
  exists payload record, d = Some (67 :: payload) /\ 1 <= blen payload < 16384 /\
    sealed payload record /\ clear_record record.
Proof.
  rewrite readLocked_not_blocking. split.
  - intros (file & r & -> & Hl & Hb & Hd & Hs & _).
    destruct file as [|b payload]; [unfold blen in Hl; simpl in Hl; lia|].
    unfold byte_at, safetyTripLatchClear in Hb. simpl in Hb, Hd. subst b.
    exists payload, r. destruct (proj1 (decode_clear payload r) (conj Hd Hs)).
    unfold blen, maxSafetyTripFileBytes in *. simpl length in Hl. split_and!; try done; lia.
  - intros (payload & r & -> & Hl & Hp & Hc).
    destruct (proj2 (decode_clear payload r) (conj Hc Hp)) as [Hd Hs].
    assert (Hlen : 2 <= blen (67 :: payload) <= maxSafetyTripFileBytes).
    { unfold blen, maxSafetyTripFileBytes in *. simpl length. lia. }
    exists (67 :: payload), r. split_and!; try done; try lia.
    unfold readLocked, readSafetyTripFile.
    destruct (Z.ltb_spec (blen (67 :: payload)) 2); [lia|].
    destruct (Z.ltb_spec maxSafetyTripFileBytes (blen (67 :: payload))); [lia|].
    change (drop 1 (67 :: payload)) with payload. rewrite Hd. by rewrite bool_decide_eq_true_2.
Qed.

(** C29: a trip with a valid event blocks no matter which system call fails.
    The status it returns blocks active work, every file content it leaves
    (also the intermediate ones a crash exposes) blocks, and the commit
    callback runs only once the file on disk blocks. *)
Theorem trip_blocks_at_every_point io now event d :
  validateSafetyTripEvent event = None ->
  let r := tripThen io now event d in
  ts_BlocksActiveWork (run_status r) = true /\
  Forall (fun f => ts_BlocksActiveWork (readLocked (Some f)) = true) (run_disks r) /\
  (run_after_latch r = true -> ts_BlocksActiveWork (readLocked (run_disk d r)) = true).
Proof. apply tripThen_blocks. Qed.

(** A reset is a compare-and-set that unblocks only at its last write.  If
    any file content it leaves does not block, that content is the last one it
    writes, the request was valid, and the state it replaced was tripped with
    exactly the expected sequence; before that point a crash or a failed call
    leaves the machine blocked. *)
Theorem reset_unblocks_only_last io now expectedSequence note build d i f :
  let r := store_reset io now expectedSequence note build d in
  run_disks r !! i = Some f ->
  ts_BlocksActiveWork (readLocked (Some f)) = false ->
  S i = length (run_disks r) /\
  validateSafetyResetRequest expectedSequence note build = None /\
  ts_State (readLocked d) = SafetyTripTripped /\
  tr_Sequence (ts_Record (readLocked d)) = expectedSequence.
Proof.
  intros r. subst r. unfold store_reset.
  destruct (validateSafetyResetRequest expectedSequence note build); [done|].
  destruct (bool_decide_reflect (ts_State (readLocked d) = SafetyTripTripped)) as [Ht|Ht];
    simpl negb; cbv iota; [|case_match; done].
  destruct ((expectedSequence =? 0)
    || negb (expectedSequence =? tr_Sequence (ts_Record (readLocked d)))) eqn:Hseq; [done|].
  assert (tr_Sequence (ts_Record (readLocked d)) = expectedSequence) as Hs by lia.
  destruct d as [file|]; [|done].
  destruct (io_open io); [|done]. simpl negb; cbv iota.
  pose proof (readLocked_tripped_latch file Ht) as Hlatch.
  assert (Hne : file <> []) by (apply readLocked_read; auto).
  match goal with |- context [writeSafetyTripRecord io ?l ?rec] =>
    pose proof (writeSafetyTripRecord_latch io l rec Hne) as Hw;
    destruct (writeSafetyTripRecord io l rec) as [ds werr] end.
  simpl in Hw.
  assert (Hbad : ds !! i = Some f -> ts_BlocksActiveWork (readLocked (Some f)) = false -> False).
  { intros Hi Hf. eapply Forall_lookup_1 in Hw as [_ Hh]; [|done]. simpl in Hh.
    rewrite Hlatch in Hh. apply latch_tripped_blocks in Hh. congruence. }
  assert (Hlast : forall final, (ds ++ [final]) !! i = Some f ->
    ts_BlocksActiveWork (readLocked (Some f)) = false -> S i = length (ds ++ [final])).
  { intros final Hi Hf. apply lookup_app_Some in Hi as [Hi|[Hle Hi]]; [by destruct Hbad|].
    apply list_lookup_singleton_Some in Hi as [Hi _]. rewrite length_app. simpl. lia. }
  destruct werr; simpl; [by intros ? ?; destruct Hbad|].
  destruct (io_hook io); simpl; [|by intros ? ?; destruct Hbad].
  destruct (io_latch_write io); simpl; [|by intros ? ?; destruct Hbad].
  repeat (case_match; simpl); eauto 10.
Qed.

(** ** Round trips *)

Context {L : TripCodecLaws C}.

Lemma decode_encode_record record payload :
  utc_loc (tr_UpdatedAt record) = true ->
  encodeSafetyTripRecord record = Ok payload ->
  decodeSafetyTripRecord payload = Ok record.
Proof.
  intros Hutc. unfold encodeSafetyTripRecord, decodeSafetyTripRecord.
  destruct (validateSafetyTripRecord record) eqn:Hv; [done|].
  destruct (trip_marshal_record record) as [rp|] eqn:Hm; [|done].
  destruct (trip_marshal_envelope record _) as [ep|] eqn:He; [|done].
  intros Heq. simplify_eq.
  rewrite (trip_decode_marshal _ _ _ Hv Hutc He), Hv, Hm.
  destruct (trip_sum256_bytes rp) as [Hlen Hbytes].
  rewrite hex_decode_encode by done.
  unfold blen. rewrite Hlen.
  by replace (bytes_eqb _ _) with true by (symmetry; by apply bytes_eqb_eq).
Qed.

(** A complete record write replaces everything behind the latch. *)
Lemma write_record_all_ok file record payload :
  file <> [] -> encodeSafetyTripRecord record = Ok payload ->
  1 + blen payload <= maxSafetyTripFileBytes ->
  exists ds, writeSafetyTripRecord io_all_ok file record = (ds, None) /\
    ds <> [] /\ after_writes file ds = byte_at 0 file :: payload.
Proof.
  intros Hne Henc Hlen. unfold writeSafetyTripRecord. rewrite Henc.
  replace (maxSafetyTripFileBytes <? 1 + blen payload) with false by lia. simpl.
  eexists. split; [done|]. split; [done|]. destruct file as [|b file]; [done|].
  unfold after_writes, write_at. simpl. f_equal.
  by rewrite take_app_length.
Qed.

Lemma readLocked_state b payload record :
  decodeSafetyTripRecord payload = Ok record ->
  1 <= blen payload -> 1 + blen payload <= maxSafetyTripFileBytes ->
  readLocked (Some (b :: payload)) =
    if (b =? safetyTripLatchClear) && bool_decide (tr_State record = SafetyTripClear)
    then mkTripStatus SafetyTripClear false record ""
    else if (b =? safetyTripLatchTripped) && bool_decide (tr_State record = SafetyTripTripped)
    then mkTripStatus SafetyTripTripped true record ""
    else indeterminateSafetyTripStatus "latch does not match record state".
Proof.
  intros Hdec H1 H2. unfold readLocked, readSafetyTripFile.
  unfold blen in *. cbn [length] in *.
  rewrite Nat2Z.inj_succ.
  destruct (Z.ltb_spec (Z.succ (Z.of_nat (length payload))) 2); [lia|].
  destruct (Z.ltb_spec maxSafetyTripFileBytes (Z.succ (Z.of_nat (length payload)))); [lia|].
  change (drop 1 (b :: payload)) with payload. by rewrite Hdec.
Qed.

Lemma readLocked_tripped_file payload record :
  decodeSafetyTripRecord payload = Ok record -> tr_State record = SafetyTripTripped ->
  1 <= blen payload -> 1 + blen payload <= maxSafetyTripFileBytes ->
  readLocked (Some (safetyTripLatchTripped :: payload)) =
    mkTripStatus SafetyTripTripped true record "".
Proof.
  intros Hd Hs H1 H2. rewrite (readLocked_state _ _ _ Hd H1 H2), Hs.
  by rewrite (bool_decide_true (SafetyTripTripped = SafetyTripTripped)) by done.
Qed.

Lemma readLocked_clear_file payload record :
  decodeSafetyTripRecord payload = Ok record -> tr_State record = SafetyTripClear ->
  1 <= blen payload -> 1 + blen payload <= maxSafetyTripFileBytes ->
  readLocked (Some (safetyTripLatchClear :: payload)) =
    mkTripStatus SafetyTripClear false record "".
Proof.
  intros Hd Hs H1 H2. rewrite (readLocked_state _ _ _ Hd H1 H2), Hs.
  by rewrite (bool_decide_true (SafetyTripClear = SafetyTripClear)) by done.
Qed.

Lemma encode_nonempty record payload :
  encodeSafetyTripRecord record = Ok payload -> 1 <= blen payload.
Proof.
  unfold encodeSafetyTripRecord. intros H. repeat case_match; simplify_eq.
  unfold blen. rewrite length_app. simpl. lia.
Qed.

(** The record a trip writes over the clear status [current]. *)
Definition trip_record (now : Time) (event : SafetyTripEvent) (current : SafetyTripStatus) :=
  mkTripRecord safetyTripSchemaVersion SafetyTripTripped
    (u64_add (tr_Sequence (ts_Record current)) 1)
    (UTC (if IsZero (ev_OccurredAt event) then now else ev_OccurredAt event))
    (ev_Reason event) (ev_Detail event) (ev_PeerID event) (ev_AttemptID event)
    (ev_BuildVersion event) "".

(** The record a reset writes over the tripped status [current]. *)
Definition reset_record (now : Time) (note build : string) (current : SafetyTripStatus) :=
  mkTripRecord safetyTripSchemaVersion SafetyTripClear
    (u64_add (tr_Sequence (ts_Record current)) 1) (UTC now) no_reason "" "" "" build note.

Lemma trip_all_ok now event file payload :
  validateSafetyTripEvent event = None ->
  ts_BlocksActiveWork (readLocked (Some file)) = false ->
  encodeSafetyTripRecord (trip_record now event (readLocked (Some file))) = Ok payload ->
  1 + blen payload <= maxSafetyTripFileBytes ->
  let r := tripThen io_all_ok now event (Some file) in
  run_err r = None /\ run_disk (Some file) r = Some (safetyTripLatchTripped :: payload) /\
  run_status r = mkTripStatus SafetyTripTripped true
                   (trip_record now event (readLocked (Some file))) "".
Proof.
  intros Hev Hb Henc Hlen r. subst r. unfold tripThen. rewrite Hev, Hb.
  destruct (bool_decide_reflect (ts_State (readLocked (Some file)) = SafetyTripTripped)) as [Ht|_].
  { apply readLocked_tripped_blocks in Ht. congruence. }
  fold (trip_record now event (readLocked (Some file))).
  set (latched := write_at 0 [safetyTripLatchTripped] file).
  destruct (write_record_all_ok latched (trip_record now event (readLocked (Some file)))
    payload) as (ds & Hrun & Hne & Hfinal); [done..|].
  cbn [io_all_ok io_open io_latch_write io_latch_sync io_hook io_close negb].
  rewrite Hrun, Hfinal. unfold readback. cbn [io_all_ok io_reread].
  change (byte_at 0 latched) with safetyTripLatchTripped.
  rewrite (readLocked_tripped_file payload (trip_record now event (readLocked (Some file))));
    [|by apply decode_encode_record | done | by eapply encode_nonempty | done].
  cbn [ts_State]. rewrite bool_decide_true by done. cbn [negb].
  split_and!; [done| |done]. unfold run_disk. cbn [run_disks].
  unfold after_writes in Hfinal. rewrite last_cons.
  destruct (last ds) eqn:Hl; [by rewrite Hfinal | by apply last_None in Hl].
Qed.

Lemma reset_all_ok now seq note build file payload :
  validateSafetyResetRequest seq note build = None ->
  ts_State (readLocked (Some file)) = SafetyTripTripped ->
  tr_Sequence (ts_Record (readLocked (Some file))) = seq ->
  encodeSafetyTripRecord (reset_record now note build (readLocked (Some file))) = Ok payload ->
  1 + blen payload <= maxSafetyTripFileBytes ->
  let r := store_reset io_all_ok now seq note build (Some file) in
  run_err r = None /\ run_disk (Some file) r = Some (safetyTripLatchClear :: payload) /\
  run_status r = mkTripStatus SafetyTripClear false
                   (reset_record now note build (readLocked (Some file))) "".
Proof.
  intros Hreq Ht Hseq Henc Hlen r. subst r. unfold store_reset. rewrite Hreq.
  rewrite bool_decide_true by done.
  assert (seq <> 0) by (intros ->; by unfold validateSafetyResetRequest in Hreq).
  rewrite Hseq. replace ((seq =? 0) || negb (seq =? seq)) with false by lia.
  rewrite <-Hseq. fold (reset_record now note build (readLocked (Some file))).
  destruct (write_record_all_ok file (reset_record now note build (readLocked (Some file)))
    payload) as (ds & Hrun & Hne & Hfinal);
    [apply readLocked_read; auto|done..|].
  cbn [io_all_ok io_open io_latch_write io_latch_sync io_hook io_close negb].
  rewrite Hrun, Hfinal. unfold readback. cbn [io_all_ok io_reread].
  change (write_at 0 [safetyTripLatchClear] (byte_at 0 file :: payload))
    with (safetyTripLatchClear :: payload).
  rewrite (readLocked_clear_file payload (reset_record now note build (readLocked (Some file))));
    [|by apply decode_encode_record | done | by eapply encode_nonempty | done].
  cbn [ts_State]. rewrite bool_decide_true by done. cbn [negb].
  split_and!; [done| |done]. unfold run_disk. cbn [run_disks]. by rewrite last_snoc.
Qed.

(** with working storage, a trip over a clear file persists exactly the
    event under the next sequence number, and the reset that names this
    sequence turns the file back to a clear record under the one after it. *)
Theorem trip_then_reset now now' event note build file payload payload' :
  validateSafetyTripEvent event = None ->
  ts_BlocksActiveWork (readLocked (Some file)) = false ->
  encodeSafetyTripRecord (trip_record now event (readLocked (Some file))) = Ok payload ->
  1 + blen payload <= maxSafetyTripFileBytes ->
  let tripped := tripThen io_all_ok now event (Some file) in
  let seq := u64_add (tr_Sequence (ts_Record (readLocked (Some file)))) 1 in
  validateSafetyResetRequest seq note build = None ->
  encodeSafetyTripRecord (reset_record now' note build (run_status tripped)) = Ok payload' ->
  1 + blen payload' <= maxSafetyTripFileBytes ->
  let cleared := store_reset io_all_ok now' seq note build (run_disk (Some file) tripped) in
  run_err tripped = None /\
  run_status tripped =
    mkTripStatus SafetyTripTripped true (trip_record now event (readLocked (Some file))) "" /\
  readLocked (run_disk (Some file) tripped) = run_status tripped /\
  run_err cleared = None /\
  run_status cleared =
    mkTripStatus SafetyTripClear false (reset_record now' note build (run_status tripped)) "".
Proof.
  intros Hev Hb Henc Hlen tripped seq Hreq Henc' Hlen' cleared.
  destruct (trip_all_ok now event file payload Hev Hb Henc Hlen) as (He & Hd & Hs).
  fold tripped in He, Hd, Hs. subst cleared. rewrite Hd.
  assert (Hread : readLocked (Some (safetyTripLatchTripped :: payload)) = run_status tripped).
  { rewrite Hs. apply readLocked_tripped_file; [by apply decode_encode_record | done |
      by eapply encode_nonempty | done]. }
  rewrite <-Hread in Henc'.
  destruct (reset_all_ok now' seq note build (safetyTripLatchTripped :: payload) payload' Hreq) as (Hre & _ & Hrs);
    [by rewrite Hread, Hs|by rewrite Hread, Hs|done..|].
  rewrite Hread in Hrs. rewrite Hread. by rewrite Hs in *.
Qed.

End store.

(** ** Witnesses

    A concrete codec that satisfies the laws, and a concrete trip. *)

Definition sample_codec : TripCodec := {|
  trip_marshal_record r := Some (any_marshal r);
  trip_marshal_envelope r c := Some (any_marshal (r, c));
  trip_decode_envelope data := any_decode (removelast data);
  trip_sum256 data := replicate 32 (blen data mod 256) |}.

#[export] Instance sample_codec_laws : TripCodecLaws sample_codec.
Proof.
  split.
  - intros record checksum payload _ _ H. simpl in H. simplify_eq. simpl.
    rewrite removelast_last. apply any_decode_marshal.
  - intros data. split; [done|].
    apply Forall_replicate. unfold is_byte. apply Z.mod_pos_bound. lia.
Qed.

Definition sample_event : SafetyTripEvent :=
  mkEvent SafetyTripOperator "stop" "p" "a" "v1" time_zero.

(** The initial file of the namespace. *)
Definition sample_file : list Z :=
  match @initializeSafetyTripFile sample_codec (mkTime 1 true) with
  | Ok f => f | Err _ => [] end.

(** The initial file unblocks, so it is sealed and clear; with one byte of its
    payload changed it blocks. *)
Lemma safety_latch_fail_closed_witness :
  (exists payload record, Some sample_file = Some (67 :: payload) /\ @sealed sample_codec payload record /\
     clear_record record) /\
  ts_BlocksActiveWork (@readLocked sample_codec (Some (<[30%nat := 0]> sample_file))) = true.
Proof.
  split; [|vm_compute; reflexivity].
  destruct (proj1 (@safety_latch_fail_closed sample_codec (Some sample_file))) as (p & r & E & _ & Hp & Hr).
  - vm_compute. reflexivity.
  - exists p, r. split; [exact E|]. split; [exact Hp|exact Hr].
Defined.

Lemma trip_blocks_at_every_point_witness :
  validateSafetyTripEvent sample_event = None /\
  ts_BlocksActiveWork (run_status (@tripThen sample_codec
    (mkTripIO true true true true false 7 true true true true)
    (mkTime 2 true) sample_event (Some sample_file))) = true.
Proof.
  split; [vm_compute; reflexivity|].
  refine (proj1 (@trip_blocks_at_every_point sample_codec
    (mkTripIO true true true true false 7 true true true true)
    (mkTime 2 true) sample_event (Some sample_file) _)).
  vm_compute. reflexivity.
Defined.

Definition sample_tripped : trip_run :=
  @tripThen sample_codec io_all_ok (mkTime 2 true) sample_event (Some sample_file).

Definition sample_cleared : trip_run :=
  @store_reset sample_codec io_all_ok (mkTime 3 true) 1 "ok" "v2"
    (run_disk (Some sample_file) sample_tripped).

Lemma reset_unblocks_only_last_witness :
  exists f, run_disks sample_cleared !! 2%nat = Some f /\
    3%nat = length (run_disks sample_cleared).
Proof.
  destruct (run_disks sample_cleared !! 2%nat) as [f|] eqn:Hf;
    [|vm_compute in Hf; discriminate].
  exists f. split; [done|].
  refine (proj1 (@reset_unblocks_only_last sample_codec io_all_ok (mkTime 3 true) 1 "ok" "v2"
    (run_disk (Some sample_file) sample_tripped) 2 f Hf _)).
  vm_compute in Hf. injection Hf as <-. vm_compute. reflexivity.
Defined.

Definition ok_payload (r : res goerr (list Z)) : list Z :=
  match r with Ok p => p | Err _ => [] end.

Lemma trip_then_reset_witness : run_err sample_cleared = None.
Proof.
  refine (proj1 (proj2 (proj2 (proj2 (@trip_then_reset sample_codec sample_codec_laws
    (mkTime 2 true) (mkTime 3 true)
    sample_event "ok" "v2" sample_file
    (ok_payload (@encodeSafetyTripRecord sample_codec
       (trip_record (mkTime 2 true) sample_event (@readLocked sample_codec (Some sample_file)))))
    (ok_payload (@encodeSafetyTripRecord sample_codec
       (reset_record (mkTime 3 true) "ok" "v2" (run_status sample_tripped))))
    _ _ _ _ _ _ _)))));
    vm_compute; try reflexivity; discriminate.
Defined.
