(* ===== verification/Governor.v ===== *)
(** * The governor (src/internal/governor/governor.go, loopback_termination.go)

    The governor is the in-process authority that hands out peer and attempt
    leases.  All of its state is guarded by one mutex, so every critical
    section is one function on the state below; what a goroutine does between
    two critical sections is a thread with an explicit phase.

    Leases are Go pointers shared between maps ([g.attempts], [peer.attempts],
    the caller) and stay reachable after they are released: they live in two
    heaps indexed by [ptr].  A channel is the number of times it has been
    closed (Go panics at the second close); it is closed when that number is
    positive.

    Iteration over a Go map follows [map_to_list]; timers are nondeterministic
    (see GovernorSteps.v). *)
From S2P Require Import Prelude GoStd Limits SafetyTrip.

Abbreviation ptr := nat.

Definition maxAttemptDrainRegistrations : Z := 8.

(** ** Data *)

Record AttemptCost := mkCost {
  cost_Resources : Resources;
  cost_Duration : Z;
  cost_Heavyweight : bool;
}.

Record AttemptRequest := mkRequest {
  req_ID : string;
  req_Operation : Operation;
  req_Cost : AttemptCost;
}.

Record attemptDrain := mkDrain {
  dr_name : string;
  dr_accounting : bool;
}.

Record loopbackTerminal := mkTerminal {
  lt_networkDrained : nat;
  lt_networkDone : nat;
  lt_accountingDone : nat;
  lt_verdict : nat;
  lt_settled : nat;
  lt_networkClosed : bool;
  lt_accountingClosed : bool;
  lt_accountingRegistered : bool;
  lt_networkErr : option goerr;
  lt_finishErr : option goerr;
  lt_result : option goerr;
}.

Definition newLoopbackTerminal : loopbackTerminal :=
  mkTerminal 0 0 0 0 0 false false false None None None.

Record AttemptLease := mkAttempt {
  al_peer : ptr;
  al_request : AttemptRequest;
  al_stopping : nat;
  al_drained : nat;
  al_done : nat;
  al_drains : gmap Z attemptDrain;
  al_exclusiveClaims : gset string;
  al_nextDrainID : Z;
  al_stoppingStarted : bool;
  al_drainedClosed : bool;
  al_closed : bool;
  al_closeErr : option goerr;
  al_terminal : option loopbackTerminal;
}.

Record PeerLease := mkPeer {
  pl_peerID : string;
  pl_attempts : gmap string ptr;
  pl_closed : bool;
}.

(** *** Threads

    [drain_thread] is one call of [drainAttempts] together with what its caller
    does afterwards; [term_phase] is the position of the loopback manager
    [runLoopbackTermination] of a lease. *)
Inductive drain_for :=
| ForAttempt
| ForPeer (p : ptr)
| ForGovernor
| ForTrip.

Inductive drain_phase :=
| DStopPhased
| DStopOrdinary
| DWait
| DTimedOut (a : ptr)
| DRelease (result : option goerr)
| DPhased (todo : list ptr) (result : option goerr)
| DFinish (result : option goerr)
| DCloseOwner (drainErr : option goerr).

Record drain_thread := mkDrainThread {
  dt_for : drain_for;
  dt_ordinary : list ptr;
  dt_phased : list ptr;
  dt_phase : drain_phase;
}.

Inductive term_phase :=
| TNetwork
| TNetworkDone (networkErr : option goerr)
| TAccounting (networkErr : option goerr)
| TVerdict (networkErr : option goerr) (timedOut : bool)
| TSettle.

Record Governor := mkGovernor {
  g_profile : Profile;
  g_limits : Limits;
  g_build : string;
  g_trip : SafetyTripStatus;
  g_closing : bool;
  g_closed : bool;
  g_closeErr : option goerr;
  g_tripDrainStarted : bool;
  g_loopbackFinalizing : Z;
  g_finalizationFault : option goerr;
  g_peers : gmap string ptr;
  g_attempts : gmap string ptr;
  g_reserved : Resources;
  g_heavyweightAttempts : Z;
  g_pheap : gmap ptr PeerLease;
  g_aheap : gmap ptr AttemptLease;
  g_drainThreads : gmap nat drain_thread;
  g_terms : gmap ptr term_phase;
  g_next : nat;
  g_ownerHeld : bool;
}.

(** *** Field updates *)

Definition set_lt_networkDrained (v : nat) (t : loopbackTerminal) : loopbackTerminal :=
  mkTerminal v (lt_networkDone t) (lt_accountingDone t) (lt_verdict t) (lt_settled t)
  (lt_networkClosed t) (lt_accountingClosed t) (lt_accountingRegistered t) (lt_networkErr t)
  (lt_finishErr t) (lt_result t).
Definition set_lt_networkDone (v : nat) (t : loopbackTerminal) : loopbackTerminal :=
  mkTerminal (lt_networkDrained t) v (lt_accountingDone t) (lt_verdict t) (lt_settled t)
  (lt_networkClosed t) (lt_accountingClosed t) (lt_accountingRegistered t) (lt_networkErr t)
  (lt_finishErr t) (lt_result t).
Definition set_lt_accountingDone (v : nat) (t : loopbackTerminal) : loopbackTerminal :=
  mkTerminal (lt_networkDrained t) (lt_networkDone t) v (lt_verdict t) (lt_settled t)
  (lt_networkClosed t) (lt_accountingClosed t) (lt_accountingRegistered t) (lt_networkErr t)
  (lt_finishErr t) (lt_result t).
Definition set_lt_verdict (v : nat) (t : loopbackTerminal) : loopbackTerminal := mkTerminal
  (lt_networkDrained t) (lt_networkDone t) (lt_accountingDone t) v (lt_settled t)
  (lt_networkClosed t) (lt_accountingClosed t) (lt_accountingRegistered t) (lt_networkErr t)
  (lt_finishErr t) (lt_result t).
Definition set_lt_settled (v : nat) (t : loopbackTerminal) : loopbackTerminal := mkTerminal
  (lt_networkDrained t) (lt_networkDone t) (lt_accountingDone t) (lt_verdict t) v
  (lt_networkClosed t) (lt_accountingClosed t) (lt_accountingRegistered t) (lt_networkErr t)
  (lt_finishErr t) (lt_result t).
Definition set_lt_networkClosed (v : bool) (t : loopbackTerminal) : loopbackTerminal :=
  mkTerminal (lt_networkDrained t) (lt_networkDone t) (lt_accountingDone t) (lt_verdict t)
  (lt_settled t) v (lt_accountingClosed t) (lt_accountingRegistered t) (lt_networkErr t)
  (lt_finishErr t) (lt_result t).
Definition set_lt_accountingClosed (v : bool) (t : loopbackTerminal) : loopbackTerminal :=
  mkTerminal (lt_networkDrained t) (lt_networkDone t) (lt_accountingDone t) (lt_verdict t)
  (lt_settled t) (lt_networkClosed t) v (lt_accountingRegistered t) (lt_networkErr t)
  (lt_finishErr t) (lt_result t).
Definition set_lt_accountingRegistered (v : bool) (t : loopbackTerminal) : loopbackTerminal
  := mkTerminal (lt_networkDrained t) (lt_networkDone t) (lt_accountingDone t) (lt_verdict
  t) (lt_settled t) (lt_networkClosed t) (lt_accountingClosed t) v (lt_networkErr t)
  (lt_finishErr t) (lt_result t).
Definition set_lt_networkErr (v : option goerr) (t : loopbackTerminal) : loopbackTerminal :=
  mkTerminal (lt_networkDrained t) (lt_networkDone t) (lt_accountingDone t) (lt_verdict t)
  (lt_settled t) (lt_networkClosed t) (lt_accountingClosed t) (lt_accountingRegistered t) v
  (lt_finishErr t) (lt_result t).
Definition set_lt_finishErr (v : option goerr) (t : loopbackTerminal) : loopbackTerminal :=
  mkTerminal (lt_networkDrained t) (lt_networkDone t) (lt_accountingDone t) (lt_verdict t)
  (lt_settled t) (lt_networkClosed t) (lt_accountingClosed t) (lt_accountingRegistered t)
  (lt_networkErr t) v (lt_result t).
Definition set_lt_result (v : option goerr) (t : loopbackTerminal) : loopbackTerminal :=
  mkTerminal (lt_networkDrained t) (lt_networkDone t) (lt_accountingDone t) (lt_verdict t)
  (lt_settled t) (lt_networkClosed t) (lt_accountingClosed t) (lt_accountingRegistered t)
  (lt_networkErr t) (lt_finishErr t) v.

Definition set_al_stopping (v : nat) (l : AttemptLease) : AttemptLease := mkAttempt (al_peer
  l) (al_request l) v (al_drained l) (al_done l) (al_drains l) (al_exclusiveClaims l)
  (al_nextDrainID l) (al_stoppingStarted l) (al_drainedClosed l) (al_closed l) (al_closeErr
  l) (al_terminal l).
Definition set_al_drained (v : nat) (l : AttemptLease) : AttemptLease := mkAttempt (al_peer
  l) (al_request l) (al_stopping l) v (al_done l) (al_drains l) (al_exclusiveClaims l)
  (al_nextDrainID l) (al_stoppingStarted l) (al_drainedClosed l) (al_closed l) (al_closeErr
  l) (al_terminal l).
Definition set_al_done (v : nat) (l : AttemptLease) : AttemptLease := mkAttempt (al_peer l)
  (al_request l) (al_stopping l) (al_drained l) v (al_drains l) (al_exclusiveClaims l)
  (al_nextDrainID l) (al_stoppingStarted l) (al_drainedClosed l) (al_closed l) (al_closeErr
  l) (al_terminal l).
Definition set_al_drains (v : gmap Z attemptDrain) (l : AttemptLease) : AttemptLease :=
  mkAttempt (al_peer l) (al_request l) (al_stopping l) (al_drained l) (al_done l) v
  (al_exclusiveClaims l) (al_nextDrainID l) (al_stoppingStarted l) (al_drainedClosed l)
  (al_closed l) (al_closeErr l) (al_terminal l).
Definition set_al_exclusiveClaims (v : gset string) (l : AttemptLease) : AttemptLease :=
  mkAttempt (al_peer l) (al_request l) (al_stopping l) (al_drained l) (al_done l) (al_drains
  l) v (al_nextDrainID l) (al_stoppingStarted l) (al_drainedClosed l) (al_closed l)
  (al_closeErr l) (al_terminal l).
Definition set_al_nextDrainID (v : Z) (l : AttemptLease) : AttemptLease := mkAttempt
  (al_peer l) (al_request l) (al_stopping l) (al_drained l) (al_done l) (al_drains l)
  (al_exclusiveClaims l) v (al_stoppingStarted l) (al_drainedClosed l) (al_closed l)
  (al_closeErr l) (al_terminal l).
Definition set_al_stoppingStarted (v : bool) (l : AttemptLease) : AttemptLease := mkAttempt
  (al_peer l) (al_request l) (al_stopping l) (al_drained l) (al_done l) (al_drains l)
  (al_exclusiveClaims l) (al_nextDrainID l) v (al_drainedClosed l) (al_closed l)
  (al_closeErr l) (al_terminal l).
Definition set_al_drainedClosed (v : bool) (l : AttemptLease) : AttemptLease := mkAttempt
  (al_peer l) (al_request l) (al_stopping l) (al_drained l) (al_done l) (al_drains l)
  (al_exclusiveClaims l) (al_nextDrainID l) (al_stoppingStarted l) v (al_closed l)
  (al_closeErr l) (al_terminal l).
Definition set_al_closed (v : bool) (l : AttemptLease) : AttemptLease := mkAttempt (al_peer
  l) (al_request l) (al_stopping l) (al_drained l) (al_done l) (al_drains l)
  (al_exclusiveClaims l) (al_nextDrainID l) (al_stoppingStarted l) (al_drainedClosed l) v
  (al_closeErr l) (al_terminal l).
Definition set_al_closeErr (v : option goerr) (l : AttemptLease) : AttemptLease := mkAttempt
  (al_peer l) (al_request l) (al_stopping l) (al_drained l) (al_done l) (al_drains l)
  (al_exclusiveClaims l) (al_nextDrainID l) (al_stoppingStarted l) (al_drainedClosed l)
  (al_closed l) v (al_terminal l).
Definition set_al_terminal (v : option loopbackTerminal) (l : AttemptLease) : AttemptLease
  := mkAttempt (al_peer l) (al_request l) (al_stopping l) (al_drained l) (al_done l)
  (al_drains l) (al_exclusiveClaims l) (al_nextDrainID l) (al_stoppingStarted l)
  (al_drainedClosed l) (al_closed l) (al_closeErr l) v.

Definition set_pl_attempts (v : gmap string ptr) (p : PeerLease) : PeerLease := mkPeer
  (pl_peerID p) v (pl_closed p).
Definition set_pl_closed (v : bool) (p : PeerLease) : PeerLease := mkPeer (pl_peerID p)
  (pl_attempts p) v.

Definition set_dt_ordinary (v : list ptr) (t : drain_thread) : drain_thread := mkDrainThread
  (dt_for t) v (dt_phased t) (dt_phase t).
Definition set_dt_phase (v : drain_phase) (t : drain_thread) : drain_thread := mkDrainThread
  (dt_for t) (dt_ordinary t) (dt_phased t) v.

Definition set_g_trip (v : SafetyTripStatus) (g : Governor) : Governor := mkGovernor
  (g_profile g) (g_limits g) (g_build g) v (g_closing g) (g_closed g) (g_closeErr g)
  (g_tripDrainStarted g) (g_loopbackFinalizing g) (g_finalizationFault g) (g_peers g)
  (g_attempts g) (g_reserved g) (g_heavyweightAttempts g) (g_pheap g) (g_aheap g)
  (g_drainThreads g) (g_terms g) (g_next g) (g_ownerHeld g).
Definition set_g_closing (v : bool) (g : Governor) : Governor := mkGovernor (g_profile g)
  (g_limits g) (g_build g) (g_trip g) v (g_closed g) (g_closeErr g) (g_tripDrainStarted g)
  (g_loopbackFinalizing g) (g_finalizationFault g) (g_peers g) (g_attempts g) (g_reserved g)
  (g_heavyweightAttempts g) (g_pheap g) (g_aheap g) (g_drainThreads g) (g_terms g) (g_next
  g) (g_ownerHeld g).
Definition set_g_closed (v : bool) (g : Governor) : Governor := mkGovernor (g_profile g)
  (g_limits g) (g_build g) (g_trip g) (g_closing g) v (g_closeErr g) (g_tripDrainStarted g)
  (g_loopbackFinalizing g) (g_finalizationFault g) (g_peers g) (g_attempts g) (g_reserved g)
  (g_heavyweightAttempts g) (g_pheap g) (g_aheap g) (g_drainThreads g) (g_terms g) (g_next
  g) (g_ownerHeld g).
Definition set_g_closeErr (v : option goerr) (g : Governor) : Governor := mkGovernor
  (g_profile g) (g_limits g) (g_build g) (g_trip g) (g_closing g) (g_closed g) v
  (g_tripDrainStarted g) (g_loopbackFinalizing g) (g_finalizationFault g) (g_peers g)
  (g_attempts g) (g_reserved g) (g_heavyweightAttempts g) (g_pheap g) (g_aheap g)
  (g_drainThreads g) (g_terms g) (g_next g) (g_ownerHeld g).
Definition set_g_tripDrainStarted (v : bool) (g : Governor) : Governor := mkGovernor
  (g_profile g) (g_limits g) (g_build g) (g_trip g) (g_closing g) (g_closed g) (g_closeErr
  g) v (g_loopbackFinalizing g) (g_finalizationFault g) (g_peers g) (g_attempts g)
  (g_reserved g) (g_heavyweightAttempts g) (g_pheap g) (g_aheap g) (g_drainThreads g)
  (g_terms g) (g_next g) (g_ownerHeld g).
Definition set_g_loopbackFinalizing (v : Z) (g : Governor) : Governor := mkGovernor
  (g_profile g) (g_limits g) (g_build g) (g_trip g) (g_closing g) (g_closed g) (g_closeErr
  g) (g_tripDrainStarted g) v (g_finalizationFault g) (g_peers g) (g_attempts g) (g_reserved
  g) (g_heavyweightAttempts g) (g_pheap g) (g_aheap g) (g_drainThreads g) (g_terms g)
  (g_next g) (g_ownerHeld g).
Definition set_g_finalizationFault (v : option goerr) (g : Governor) : Governor :=
  mkGovernor (g_profile g) (g_limits g) (g_build g) (g_trip g) (g_closing g) (g_closed g)
  (g_closeErr g) (g_tripDrainStarted g) (g_loopbackFinalizing g) v (g_peers g) (g_attempts
  g) (g_reserved g) (g_heavyweightAttempts g) (g_pheap g) (g_aheap g) (g_drainThreads g)
  (g_terms g) (g_next g) (g_ownerHeld g).
Definition set_g_peers (v : gmap string ptr) (g : Governor) : Governor := mkGovernor
  (g_profile g) (g_limits g) (g_build g) (g_trip g) (g_closing g) (g_closed g) (g_closeErr
  g) (g_tripDrainStarted g) (g_loopbackFinalizing g) (g_finalizationFault g) v (g_attempts
  g) (g_reserved g) (g_heavyweightAttempts g) (g_pheap g) (g_aheap g) (g_drainThreads g)
  (g_terms g) (g_next g) (g_ownerHeld g).
Definition set_g_attempts (v : gmap string ptr) (g : Governor) : Governor := mkGovernor
  (g_profile g) (g_limits g) (g_build g) (g_trip g) (g_closing g) (g_closed g) (g_closeErr
  g) (g_tripDrainStarted g) (g_loopbackFinalizing g) (g_finalizationFault g) (g_peers g) v
  (g_reserved g) (g_heavyweightAttempts g) (g_pheap g) (g_aheap g) (g_drainThreads g)
  (g_terms g) (g_next g) (g_ownerHeld g).
Definition set_g_reserved (v : Resources) (g : Governor) : Governor := mkGovernor (g_profile
  g) (g_limits g) (g_build g) (g_trip g) (g_closing g) (g_closed g) (g_closeErr g)
  (g_tripDrainStarted g) (g_loopbackFinalizing g) (g_finalizationFault g) (g_peers g)
  (g_attempts g) v (g_heavyweightAttempts g) (g_pheap g) (g_aheap g) (g_drainThreads g)
  (g_terms g) (g_next g) (g_ownerHeld g).
Definition set_g_heavyweightAttempts (v : Z) (g : Governor) : Governor := mkGovernor
  (g_profile g) (g_limits g) (g_build g) (g_trip g) (g_closing g) (g_closed g) (g_closeErr
  g) (g_tripDrainStarted g) (g_loopbackFinalizing g) (g_finalizationFault g) (g_peers g)
  (g_attempts g) (g_reserved g) v (g_pheap g) (g_aheap g) (g_drainThreads g) (g_terms g)
  (g_next g) (g_ownerHeld g).
Definition set_g_pheap (v : gmap ptr PeerLease) (g : Governor) : Governor := mkGovernor
  (g_profile g) (g_limits g) (g_build g) (g_trip g) (g_closing g) (g_closed g) (g_closeErr
  g) (g_tripDrainStarted g) (g_loopbackFinalizing g) (g_finalizationFault g) (g_peers g)
  (g_attempts g) (g_reserved g) (g_heavyweightAttempts g) v (g_aheap g) (g_drainThreads g)
  (g_terms g) (g_next g) (g_ownerHeld g).
Definition set_g_aheap (v : gmap ptr AttemptLease) (g : Governor) : Governor := mkGovernor
  (g_profile g) (g_limits g) (g_build g) (g_trip g) (g_closing g) (g_closed g) (g_closeErr
  g) (g_tripDrainStarted g) (g_loopbackFinalizing g) (g_finalizationFault g) (g_peers g)
  (g_attempts g) (g_reserved g) (g_heavyweightAttempts g) (g_pheap g) v (g_drainThreads g)
  (g_terms g) (g_next g) (g_ownerHeld g).
Definition set_g_drainThreads (v : gmap nat drain_thread) (g : Governor) : Governor :=
  mkGovernor (g_profile g) (g_limits g) (g_build g) (g_trip g) (g_closing g) (g_closed g)
  (g_closeErr g) (g_tripDrainStarted g) (g_loopbackFinalizing g) (g_finalizationFault g)
  (g_peers g) (g_attempts g) (g_reserved g) (g_heavyweightAttempts g) (g_pheap g) (g_aheap
  g) v (g_terms g) (g_next g) (g_ownerHeld g).
Definition set_g_terms (v : gmap ptr term_phase) (g : Governor) : Governor := mkGovernor
  (g_profile g) (g_limits g) (g_build g) (g_trip g) (g_closing g) (g_closed g) (g_closeErr
  g) (g_tripDrainStarted g) (g_loopbackFinalizing g) (g_finalizationFault g) (g_peers g)
  (g_attempts g) (g_reserved g) (g_heavyweightAttempts g) (g_pheap g) (g_aheap g)
  (g_drainThreads g) v (g_next g) (g_ownerHeld g).
Definition set_g_next (v : nat) (g : Governor) : Governor := mkGovernor (g_profile g)
  (g_limits g) (g_build g) (g_trip g) (g_closing g) (g_closed g) (g_closeErr g)
  (g_tripDrainStarted g) (g_loopbackFinalizing g) (g_finalizationFault g) (g_peers g)
  (g_attempts g) (g_reserved g) (g_heavyweightAttempts g) (g_pheap g) (g_aheap g)
  (g_drainThreads g) (g_terms g) v (g_ownerHeld g).
Definition set_g_ownerHeld (v : bool) (g : Governor) : Governor := mkGovernor (g_profile g)
  (g_limits g) (g_build g) (g_trip g) (g_closing g) (g_closed g) (g_closeErr g)
  (g_tripDrainStarted g) (g_loopbackFinalizing g) (g_finalizationFault g) (g_peers g)
  (g_attempts g) (g_reserved g) (g_heavyweightAttempts g) (g_pheap g) (g_aheap g)
  (g_drainThreads g) (g_terms g) (g_next g) v.

(** Writing through a pointer. *)
Definition upd_lease (a : ptr) (f : AttemptLease -> AttemptLease) (g : Governor) : Governor :=
  set_g_aheap (alter f a (g_aheap g)) g.
Definition upd_peer (p : ptr) (f : PeerLease -> PeerLease) (g : Governor) : Governor :=
  set_g_pheap (alter f p (g_pheap g)) g.

Definition upd_terminal (f : loopbackTerminal -> loopbackTerminal) (l : AttemptLease)
    : AttemptLease :=
  set_al_terminal (f <$> al_terminal l) l.

Definition closed_chan (n : nat) : bool := negb (Nat.eqb n 0).

(** ** Loopback admission (loopback_termination.go) *)

Definition loopbackAdmissionBlockedLocked (g : Governor) : option goerr :=
  match g_finalizationFault g with
  | Some e => Some e
  | None =>
      if negb (g_loopbackFinalizing g =? 0) then Some ErrTerminalFinalizing else None
  end.

Definition lease_settled (l : AttemptLease) : bool :=
  match al_terminal l with Some t => closed_chan (lt_settled t) | None => true end.

(** Some attempt of the loopback lifecycle has not settled. *)
Definition loopbackWorkOutstandingLocked (g : Governor) : bool :=
  existsb (fun '(_, a) =>
    match g_aheap g !! a with Some l => negb (lease_settled l) | None => false end)
    (map_to_list (g_attempts g)).

Definition has_drain (accounting : bool) (l : AttemptLease) : bool :=
  existsb (fun '(_, d) => eqb (dr_accounting d) accounting) (map_to_list (al_drains l)).

Definition maybeCloseLoopbackNetworkLocked (l : AttemptLease) : AttemptLease :=
  match al_terminal l with
  | None => l
  | Some t =>
      if negb (al_stoppingStarted l) then l else
      let t1 :=
        if negb (has_drain false l) && negb (lt_networkClosed t)
        then set_lt_networkDrained (S (lt_networkDrained t)) (set_lt_networkClosed true t)
        else t in
      let t2 :=
        if negb (has_drain true l) && negb (lt_accountingClosed t1)
        then set_lt_accountingDone (S (lt_accountingDone t1)) (set_lt_accountingClosed true t1)
        else t1 in
      set_al_terminal (Some t2) l
  end.

(** ** Stopping and releasing an attempt *)

Definition closeAttemptDrainedLocked (l : AttemptLease) : AttemptLease :=
  if al_drainedClosed l then l
  else set_al_drained (S (al_drained l)) (set_al_drainedClosed true l).

(** The lease part of [beginAttemptStoppingLocked]. *)
Definition start_stopping (l : AttemptLease) : AttemptLease :=
  let l1 := set_al_stopping (S (al_stopping l)) (set_al_stoppingStarted true l) in
  let l2 := if bool_decide (al_drains l1 = ∅) then closeAttemptDrainedLocked l1 else l1 in
  maybeCloseLoopbackNetworkLocked l2.

Definition beginAttemptStoppingLocked (g : Governor) (a : ptr) : Governor :=
  match g_aheap g !! a with
  | None => g
  | Some l =>
      if al_closed l || al_stoppingStarted l then g else
      let g1 := upd_lease a start_stopping g in
      match al_terminal l with
      | None => g1
      | Some _ =>
          set_g_terms (<[a := TNetwork]> (g_terms g1))
            (set_g_loopbackFinalizing (g_loopbackFinalizing g1 + 1) g1)
      end
  end.

Definition begin_all (g : Governor) (l : list ptr) : Governor :=
  fold_left beginAttemptStoppingLocked l g.

(** The removal of the lease [l] at [a] from the registry. *)
Definition remove_attempt (a : ptr) (l : AttemptLease) (g : Governor) : Governor :=
  let id := req_ID (al_request l) in
  let cost := req_Cost (al_request l) in
  let g2 := upd_lease a (fun l => set_al_done (S (al_done l)) (set_al_closed true l)) g in
  let g3 := set_g_attempts (delete id (g_attempts g2)) g2 in
  let g4 := upd_peer (al_peer l) (fun p => set_pl_attempts (delete id (pl_attempts p)) p) g3 in
  let g5 := set_g_reserved (resources_subtract (g_reserved g4) (cost_Resources cost)) g4 in
  if cost_Heavyweight cost
  then set_g_heavyweightAttempts (g_heavyweightAttempts g5 - 1) g5 else g5.

Definition releaseAttemptLocked (g : Governor) (a : ptr) : Governor :=
  match g_aheap g !! a with
  | None => g
  | Some l =>
      if al_closed l then g else remove_attempt a l (beginAttemptStoppingLocked g a)
  end.

Definition activeAttemptsLocked (g : Governor) : list ptr :=
  snd <$> map_to_list (g_attempts g).

(** ** Draining *)

Definition is_phased (g : Governor) (a : ptr) : bool :=
  match g_aheap g !! a with
  | Some l => match al_terminal l with Some _ => true | None => false end
  | None => false
  end.

(** A new call of [drainAttempts]. *)
Definition spawn_drain (who : drain_for) (attempts : list ptr) (g : Governor) : Governor :=
  set_g_next (S (g_next g))
    (set_g_drainThreads
       (<[g_next g := mkDrainThread who
            (List.filter (fun a => negb (is_phased g a)) attempts)
            (List.filter (is_phased g) attempts) DStopPhased]> (g_drainThreads g)) g).

Definition beginSafetyTripDrainLocked (g : Governor) : Governor :=
  let attempts := activeAttemptsLocked g in
  let g1 := begin_all g attempts in
  if bool_decide (attempts = []) || g_tripDrainStarted g1 then g1
  else spawn_drain ForTrip attempts (set_g_tripDrainStarted true g1).

(** [tripLocked]; [reply] is what [tripThen] of the store returned: its status,
    its error and whether it ran the commit callback. *)
Definition trip_reply : Type := SafetyTripStatus * option goerr * bool.

Definition tripLocked (reply : trip_reply) (g : Governor)
    : Governor * (SafetyTripStatus * option goerr) :=
  if g_closed g then (g, (g_trip g, Some ErrGovernorClosed))
  else if ts_BlocksActiveWork (g_trip g) then
    (beginSafetyTripDrainLocked g, (g_trip g, None))
  else
    let '(status, err, called) := reply in
    let g1 := if called then beginSafetyTripDrainLocked g else g in
    let g2 := set_g_trip status g1 in
    let '(g3, err3) :=
      if negb (ts_BlocksActiveWork status) then
        let t := indeterminateSafetyTripStatus
                   "trip operation did not produce a blocking state" in
        (set_g_trip t g2, match err with None => Some (ESafetyTrip t) | Some e => Some e end)
      else (g2, err) in
    let g4 := beginSafetyTripDrainLocked g3 in
    (g4, (g_trip g4, err3)).

(** [Governor.Trip]. *)
Definition Governor_Trip (event : SafetyTripEvent) (reply : trip_reply) (g : Governor)
    : Governor * (SafetyTripStatus * option goerr) :=
  match validateSafetyTripEvent event with
  | Some e => (g, (trip_status_zero, Some e))
  | None => tripLocked reply g
  end.

(** The part of [inspectPairingAttempt] (pairing_gate.go) that adopts a
    blocking status read afresh from the store. *)
Definition refreshTrip (fresh : SafetyTripStatus) (g : Governor) : Governor :=
  if ts_BlocksActiveWork (g_trip g) then g
  else if ts_BlocksActiveWork fresh then beginSafetyTripDrainLocked (set_g_trip fresh g)
  else g.

(** ** Construction (governor.go, owner.go) *)

Record Owner := mkOwner {
  o_scope : Scope;
  o_build : string;
  o_hasFile : bool;
  o_closed : bool;
  o_claimed : bool;
}.

Definition Owner_usable (o : Owner) : bool := negb (o_closed o) && o_hasFile o.

Definition Owner_claim (o : Owner) : res goerr Owner :=
  if o_closed o || negb (o_hasFile o) then Err (ErrInvalidRequest "owner is closed")
  else if o_claimed o then Err ErrOwnerInUse
  else Ok (mkOwner (o_scope o) (o_build o) (o_hasFile o) (o_closed o) true).

(** [trip] is the status of the owner's safety-trip store. *)
Definition newGovernor (owner : option Owner) (trip : SafetyTripStatus) (profile : Profile)
    (requested : option Limits) : res goerr (Owner * Governor) :=
  match owner with
  | None => Err (ErrInvalidRequest "namespace owner is missing or closed")
  | Some o =>
      if negb (Owner_usable o) then
        Err (ErrInvalidRequest "namespace owner is missing or closed")
      else
        (let! scope := Profile_Scope profile in
         if negb (bool_decide (o_scope o = scope)) then
           Err (ErrInvalidRequest "owner scope does not match profile scope")
         else
           let! hard := HardLimits profile in
           check! match requested with
                  | Some r => validateNotRaised r hard
                  | None => None
                  end in
           let limits := match requested with Some r => r | None => hard end in
           if ts_BlocksActiveWork trip then Err (ESafetyTrip trip)
           else
             let! o' := Owner_claim o in
             Ok (o', mkGovernor profile limits (o_build o) trip false false None false 0 None
                  ∅ ∅ resources_zero 0 ∅ ∅ ∅ ∅ 0 true))%go
  end.

Definition New (owner : option Owner) (trip : SafetyTripStatus) (profile : Profile)
    (requested : option Limits) : res goerr (Owner * Governor) :=
  if bool_decide (profile = ProfilePhase1UserAcknowledged)
  then Err ErrRestrictedScopeRequired
  else newGovernor owner trip profile requested.

(** ** Peer leases *)

Definition AcquirePeer (peerID : string) (g : Governor) : Governor * res goerr ptr :=
  match validateIdentifier "peer id" peerID with
  | Some e => (g, Err e)
  | None =>
      if g_closed g || g_closing g then (g, Err ErrGovernorClosed) else
      match loopbackAdmissionBlockedLocked g with
      | Some e => (g, Err e)
      | None =>
          if ts_BlocksActiveWork (g_trip g) then (g, Err (ESafetyTrip (g_trip g))) else
          match g_peers g !! peerID with
          | Some _ => (g, Err ErrDuplicatePeer)
          | None =>
              if MaxActivePeers (g_limits g) <=? Z.of_nat (size (g_peers g)) then
                (g, Err (ELimit "active_peers" (Z.of_nat (size (g_peers g)) + 1)
                           (MaxActivePeers (g_limits g))))
              else
                let p := g_next g in
                (set_g_next (S p)
                   (set_g_peers (<[peerID := p]> (g_peers g))
                      (set_g_pheap (<[p := mkPeer peerID ∅ false]> (g_pheap g)) g)), Ok p)
          end
      end
  end.

(** [PeerLease.Close] up to its call of [drainAttempts]. *)
Definition PeerLease_Close (p : ptr) (g : Governor) : Governor :=
  match g_pheap g !! p with
  | None => g
  | Some pl =>
      if pl_closed pl then g else
      let g1 := upd_peer p (set_pl_closed true) g in
      let attempts := snd <$> map_to_list (pl_attempts pl) in
      spawn_drain (ForPeer p) attempts (begin_all g1 attempts)
  end.

(** ** Attempt leases *)

Definition validateAttemptLocked (g : Governor) (peer : PeerLease) (request : AttemptRequest)
    : option goerr :=
  let cost := req_Cost request in
  match validateIdentifier "attempt id" (req_ID request) with
  | Some e => Some e
  | None =>
      if negb (Profile_Allows (g_profile g) (req_Operation request)) then Some ErrNotAllowed
      else match g_attempts g !! req_ID request with
      | Some _ => Some ErrDuplicateAttempt
      | None =>
          if MaxActiveAttempts (g_limits g) <=? Z.of_nat (size (g_attempts g)) then
            Some (ELimit "active_attempts" (Z.of_nat (size (g_attempts g)) + 1)
                    (MaxActiveAttempts (g_limits g)))
          else if MaxAttemptsPerPeer (g_limits g) <=? Z.of_nat (size (pl_attempts peer)) then
            Some (ELimit "attempts_per_peer" (Z.of_nat (size (pl_attempts peer)) + 1)
                    (MaxAttemptsPerPeer (g_limits g)))
          else match validateNonNegative (cost_Resources cost) with
          | Some _ => Some (ErrInvalidRequest "negative resource")
          | None =>
              if bool_decide (cost_Resources cost = resources_zero) then
                Some (ErrInvalidRequest "attempt must reserve at least one resource")
              else if cost_Duration cost <=? 0 then
                Some (ErrInvalidRequest "attempt duration must be positive")
              else if MaxAttemptDuration (g_limits g) <? cost_Duration cost then
                Some (ELimit "attempt_duration_ns" (cost_Duration cost)
                        (MaxAttemptDuration (g_limits g)))
              else match limit_error "per_attempt_"
                           (firstResourceExcess (cost_Resources cost)
                              (PerAttempt (g_limits g))) with
              | Some e => Some e
              | None =>
                  match limit_error "aggregate_"
                          (firstResourceExcess
                             (resources_add (g_reserved g) (cost_Resources cost))
                             (Aggregate (g_limits g))) with
                  | Some e => Some e
                  | None =>
                      if cost_Heavyweight cost &&
                         (MaxHeavyweightAttempts (g_limits g) <=? g_heavyweightAttempts g)
                      then Some (ELimit "heavyweight_attempts" (g_heavyweightAttempts g + 1)
                                   (MaxHeavyweightAttempts (g_limits g)))
                      else None
                  end
              end
          end
      end
  end.

Definition new_lease (p : ptr) (request : AttemptRequest) (loopback : bool) : AttemptLease :=
  mkAttempt p request 0 0 0 ∅ ∅ 0 false false false None
    (if loopback then Some newLoopbackTerminal else None).

(** The reservation at the end of [acquireAttempt]. *)
Definition install_attempt (p : ptr) (request : AttemptRequest) (loopback : bool)
    (g : Governor) : Governor :=
  let a := g_next g in
  let g1 := set_g_aheap (<[a := new_lease p request loopback]> (g_aheap g)) (set_g_next (S a) g) in
  let g2 := upd_peer p
    (fun pl => set_pl_attempts (<[req_ID request := a]> (pl_attempts pl)) pl) g1 in
  let g3 := set_g_attempts (<[req_ID request := a]> (g_attempts g2)) g2 in
  let g4 := set_g_reserved
    (resources_add (g_reserved g3) (cost_Resources (req_Cost request))) g3 in
  if cost_Heavyweight (req_Cost request)
  then set_g_heavyweightAttempts (g_heavyweightAttempts g4 + 1) g4 else g4.

Definition profile_string (p : Profile) : string :=
  match p with
  | ProfilePhase1Machine => "phase1_machine"
  | ProfilePhase1ManualTraversal => "phase1_manual_traversal"
  | ProfilePhase1UserAcknowledged => "phase1_user_acknowledged"
  | ProfilePhase1HardNATCampaign => "phase1_hard_nat_campaign"
  | ProfileOther s => s
  end.

(** The event of a rejected acquisition under a one-shot profile. *)
Definition hard_limit_event (g : Governor) (peerID attemptID field : string)
    : SafetyTripEvent :=
  mkEvent SafetyTripHardLimit
    (profile_string (g_profile g) +:+ " hard limit " +:+ field +:+ " exceeded")
    peerID attemptID (g_build g) time_zero.

(** Whether a rejected request trips the latch, and with which event. *)
Definition acquire_trip_event (g : Governor) (pl : PeerLease) (request : AttemptRequest)
    (e : goerr) : option SafetyTripEvent :=
  match e with
  | ELimit field _ _ =>
      if bool_decide (g_profile g = ProfilePhase1ManualTraversal)
         || bool_decide (g_profile g = ProfilePhase1HardNATCampaign)
      then Some (hard_limit_event g (pl_peerID pl) (req_ID request) field)
      else None
  | _ => None
  end.

(** [acquireAttempt] up to the end of its critical section; [ctx] is the
    caller's context ([None] when nil) with its error.  A context that is
    cancelled later closes the lease ([AttemptLease_Close]). *)
Definition acquireAttempt (p : ptr) (ctx : option (option goerr)) (request : AttemptRequest)
    (loopback : bool) (reply : trip_reply) (g : Governor) : Governor * res goerr ptr :=
  match g_pheap g !! p with
  | None => (g, Err ErrLeaseClosed)
  | Some pl =>
      match ctx with
      | None => (g, Err (ErrInvalidRequest "context is nil"))
      | Some (Some e) => (g, Err e)
      | Some None =>
          match loopbackAdmissionBlockedLocked g with
          | Some e => (g, Err e)
          | None =>
              if loopback &&
                 (negb (bool_decide (g_profile g = ProfilePhase1Machine))
                  || negb (bool_decide (req_Operation request = OperationConnectTest)))
              then (g, Err ErrNotAllowed)
              else if ts_BlocksActiveWork (g_trip g) then (g, Err (ESafetyTrip (g_trip g)))
              else if g_closed g || g_closing g || pl_closed pl then (g, Err ErrLeaseClosed)
              else match validateAttemptLocked g pl request with
              | Some e =>
                  match acquire_trip_event g pl request e with
                  | Some _ =>
                      let '(g', (_, tripErr)) := tripLocked reply g in
                      (g', match errors_join [Some e; tripErr] with
                           | Some e' => Err e' | None => Err e end)
                  | None => (g, Err e)
                  end
              | None => (install_attempt p request loopback g, Ok (g_next g))
              end
          end
      end
  end.

(** ** Operations on a lease *)

Definition lease_unusable (g : Governor) (l : AttemptLease) : bool :=
  g_closed g || g_closing g || al_closed l || al_stoppingStarted l.

Definition ClaimExclusive (a : ptr) (name : string) (g : Governor)
    : Governor * option goerr :=
  match g_aheap g !! a with
  | None => (g, Some ErrLeaseClosed)
  | Some l =>
      match validateIdentifier "exclusive claim" name with
      | Some e => (g, Some e)
      | None =>
          if lease_unusable g l then (g, Some ErrLeaseClosed)
          else if bool_decide (name ∈ al_exclusiveClaims l) then (g, Some ErrExclusiveClaimUsed)
          else (upd_lease a (set_al_exclusiveClaims ({[name]} ∪ al_exclusiveClaims l)) g, None)
      end
  end.

(** Identity is always taken from the lease. *)
Definition lease_event (g : Governor) (l : AttemptLease) (event : SafetyTripEvent)
    : SafetyTripEvent :=
  mkEvent (ev_Reason event) (ev_Detail event)
    match g_pheap g !! al_peer l with Some p => pl_peerID p | None => "" end
    (req_ID (al_request l)) (ev_BuildVersion event) (ev_OccurredAt event).

Definition AttemptLease_Trip (a : ptr) (event : SafetyTripEvent) (reply : trip_reply)
    (g : Governor) : Governor * (SafetyTripStatus * option goerr) :=
  match g_aheap g !! a with
  | None => (g, (indeterminateSafetyTripStatus "attempt lease has no governor",
                 Some ErrLeaseClosed))
  | Some l =>
      match validateSafetyTripEvent (lease_event g l event) with
      | Some e => (g, (trip_status_zero, Some e))
      | None =>
          if al_closed l || al_stoppingStarted l then (g, (g_trip g, Some ErrLeaseClosed))
          else tripLocked reply g
      end
  end.

Definition registerDrain (a : ptr) (name : string) (accounting : bool) (g : Governor)
    : Governor * res goerr Z :=
  match g_aheap g !! a with
  | None => (g, Err ErrLeaseClosed)
  | Some l =>
      match validateIdentifier "drain name" name with
      | Some e => (g, Err e)
      | None =>
          if lease_unusable g l then (g, Err ErrLeaseClosed)
          else if accounting && match al_terminal l with
                                | None => true
                                | Some t => lt_accountingRegistered t
                                end
          then (g, Err (ErrInvalidRequest ""))
          else if maxAttemptDrainRegistrations <=? Z.of_nat (size (al_drains l)) then
            (g, Err (ELimit "attempt_drains" (Z.of_nat (size (al_drains l)) + 1)
                       maxAttemptDrainRegistrations))
          else
            let id := u64_add (al_nextDrainID l) 1 in
            (upd_lease a (fun l =>
               let l1 := set_al_drains (<[id := mkDrain name accounting]> (al_drains l))
                           (set_al_nextDrainID id l) in
               if accounting then upd_terminal (set_lt_accountingRegistered true) l1 else l1) g,
             Ok id)
      end
  end.

(** [attemptDrain.Complete]; the second call of one handle finds nothing. *)
Definition drain_complete (id : Z) (l : AttemptLease) : AttemptLease :=
  match al_drains l !! id with
  | None => l
  | Some _ =>
      let l1 := set_al_drains (delete id (al_drains l)) l in
      let l2 := if al_stoppingStarted l1 && bool_decide (al_drains l1 = ∅)
                then closeAttemptDrainedLocked l1 else l1 in
      maybeCloseLoopbackNetworkLocked l2
  end.

Definition Complete (a : ptr) (id : Z) (g : Governor) : Governor :=
  upd_lease a (drain_complete id) g.

(** [AttemptLease.Close] up to the point where it waits. *)
Definition AttemptLease_Close (a : ptr) (g : Governor) : Governor :=
  match g_aheap g !! a with
  | None => g
  | Some l =>
      match al_terminal l with
      | Some _ => beginAttemptStoppingLocked g a
      | None =>
          if al_closed l || al_stoppingStarted l then g
          else spawn_drain ForAttempt [a] (beginAttemptStoppingLocked g a)
      end
  end.

(** [recordLoopbackFinishError]. *)
Definition recordLoopbackFinishError (a : ptr) (err : goerr) (g : Governor) : Governor :=
  match g_aheap g !! a with
  | Some l =>
      match al_terminal l with
      | None => g
      | Some _ =>
          let e := errors_join [Some ErrTerminalFinalizationFailed; Some err] in
          let g1 := upd_lease a (upd_terminal (set_lt_finishErr e)) g in
          set_g_finalizationFault (errors_join [g_finalizationFault g1; e]) g1
      end
  | None => g
  end.

(** [Governor.Close] up to its call of [drainAttempts]. *)
Definition Governor_Close (g : Governor) : Governor :=
  if g_closed g || g_closing g then g
  else
    let g1 := set_g_closing true g in
    let attempts := activeAttemptsLocked g1 in
    spawn_drain ForGovernor attempts (begin_all g1 attempts).
