(* ===== verification/GovernorSteps.v ===== *)
(** * Threads and transitions of the governor

    The critical sections of [drainAttempts], [drainOrdinaryAttempts],
    [finishSafetyTripDrain], the end of the [Close] methods (governor.go) and
    [runLoopbackTermination] (loopback_termination.go), and the transition
    relation [gstep] in which operations and threads interleave in any order.
    A timer is a transition that may happen at any time. *)
From S2P Require Import Prelude GoStd Limits SafetyTrip Governor.

(** ** The safety-trip store as the governor sees it *)

(** [store_reply event reply]: [tripThen] may answer [event] with [reply]. *)
Class TripStore := store_reply : SafetyTripEvent -> trip_reply -> Prop.

(** What the store promises: a valid event is answered with a blocking status. *)
Class TripStoreLaws (S : TripStore) :=
  store_reply_blocks : forall event status err called,
    store_reply event (status, err, called) ->
    validateSafetyTripEvent event = None -> ts_BlocksActiveWork status = true.

(** The store of SafetyTrip.v, over any file and any outcome of its calls. *)
Definition disk_store (C : TripCodec) : TripStore := fun event reply =>
  exists io now d, let r := tripThen io now event d in
    reply = (run_status r, run_err r, run_after_latch r).

(** ** Formatting of the timeout detail

    [cancel_detail timeout pending first] is the text [fmt.Sprintf] produces. *)
Class Sprintf := cancel_detail : Z -> Z -> string -> string.

(** ** The critical sections of [drainAttempts] *)

Definition set_thread (tid : nat) (t : drain_thread) (g : Governor) : Governor :=
  set_g_drainThreads (<[tid := t]> (g_drainThreads g)) g.
Definition end_thread (tid : nat) (g : Governor) : Governor :=
  set_g_drainThreads (delete tid (g_drainThreads g)) g.

Definition lease_id (g : Governor) (a : ptr) : string :=
  match g_aheap g !! a with Some l => req_ID (al_request l) | None => "" end.

Fixpoint insert_by_id (g : Governor) (a : ptr) (l : list ptr) : list ptr :=
  match l with
  | [] => [a]
  | b :: l' => if String.ltb (lease_id g b) (lease_id g a)
               then b :: insert_by_id g a l' else a :: b :: l'
  end.
(** [sort.Slice] by request identifier. *)
Definition sort_by_id (g : Governor) (l : list ptr) : list ptr :=
  foldr (insert_by_id g) [] l.

(** The attempt's [drained] or [done] channel is closed. *)
Definition lease_waited (g : Governor) (a : ptr) : bool :=
  match g_aheap g !! a with
  | Some l => closed_chan (al_drained l) || closed_chan (al_done l)
  | None => true
  end.

(** [waitForAttemptDrains]: [None] while it blocks; after the timer it reports
    the first attempt that is still pending. *)
Definition waitForAttemptDrains (timer : bool) (attempts : list ptr) (g : Governor)
    : option (option ptr) :=
  match List.find (fun a => negb (lease_waited g a)) attempts with
  | None => Some None
  | Some a => if timer then Some (Some a) else None
  end.

Definition drain_stop_phased (tid : nat) (t : drain_thread) (g : Governor) : Governor :=
  set_thread tid (set_dt_phase DStopOrdinary t) (begin_all g (dt_phased t)).

Definition drain_stop_ordinary (tid : nat) (t : drain_thread) (g : Governor) : Governor :=
  if bool_decide (dt_ordinary t = []) then
    set_thread tid (set_dt_phase (DPhased (dt_phased t) None) t) g
  else
    let attempts := sort_by_id g (dt_ordinary t) in
    set_thread tid (set_dt_phase DWait (set_dt_ordinary attempts t)) (begin_all g attempts).

(** The wait is over: with nothing pending, or with the attempt that timed out. *)
Definition drain_wait (tid : nat) (t : drain_thread) (timedOut : option ptr) (g : Governor)
    : Governor :=
  set_thread tid
    (set_dt_phase match timedOut with Some a => DTimedOut a | None => DRelease None end t) g.

Definition firstPendingDrainNameLocked (l : AttemptLease) : string :=
  match foldr (fun '(i, d) acc =>
          match acc with
          | Some (j, _) => if i <? j then Some (i, dr_name d) else acc
          | None => Some (i, dr_name d)
          end) None (map_to_list (al_drains l)) with
  | Some (_, name) => name
  | None => "unknown"
  end.

Section sprintf.
Context {F : Sprintf}.

Definition cancellation_event (g : Governor) (l : AttemptLease) : SafetyTripEvent :=
  mkEvent SafetyTripCancellation
    (cancel_detail (CancellationDrainTimeout (g_limits g)) (Z.of_nat (size (al_drains l)))
       (firstPendingDrainNameLocked l))
    match g_pheap g !! al_peer l with Some p => pl_peerID p | None => "" end
    (req_ID (al_request l)) (g_build g) time_zero.

(** Whether the timed-out attempt still has pending drains. *)
Definition timeout_pending (a : ptr) (g : Governor) : option AttemptLease :=
  match g_aheap g !! a with
  | Some l => if negb (al_closed l) && negb (bool_decide (al_drains l = ∅))
              then Some l else None
  | None => None
  end.

Definition drain_timed_out (reply : trip_reply) (tid : nat) (t : drain_thread) (a : ptr)
    (g : Governor) : Governor :=
  match timeout_pending a g with
  | None => set_thread tid (set_dt_phase (DRelease None) t) g
  | Some l =>
      match validateSafetyTripEvent (cancellation_event g l) with
      | Some e =>
          set_thread tid (set_dt_phase
            (DRelease (errors_join [Some ErrCancellationDrainTimeout; Some e])) t) g
      | None =>
          let '(g', (_, tripErr)) := tripLocked reply g in
          set_thread tid (set_dt_phase
            (DRelease (errors_join [Some ErrCancellationDrainTimeout; tripErr])) t) g'
      end
  end.
End sprintf.

(** One round of the release loop: the attempt's close error and the result. *)
Definition release_one (st : Governor * option goerr) (a : ptr) : Governor * option goerr :=
  let '(g, result) := st in
  match g_aheap g !! a with
  | None => st
  | Some l =>
      match al_closeErr l with
      | None => (releaseAttemptLocked (upd_lease a (set_al_closeErr result) g) a, result)
      | Some e => (releaseAttemptLocked g a, errors_join [result; Some e])
      end
  end.

Definition drain_release (tid : nat) (t : drain_thread) (result : option goerr)
    (g : Governor) : Governor :=
  let '(g', result') := fold_left release_one (dt_ordinary t) (g, result) in
  set_thread tid (set_dt_phase (DPhased (dt_phased t) result') t) g'.

(** [closeLoopbackAttempt] of the next phased attempt, after its verdict. *)
Definition drain_phased (tid : nat) (t : drain_thread) (a : ptr) (todo : list ptr)
    (result : option goerr) (g : Governor) : Governor :=
  let g1 := beginAttemptStoppingLocked g a in
  let verdict := match g_aheap g1 !! a with
                 | Some l => match al_terminal l with Some x => lt_result x | None => None end
                 | None => None end in
  set_thread tid (set_dt_phase (DPhased todo (errors_join [result; verdict])) t) g1.

Definition verdict_known (g : Governor) (a : ptr) : bool :=
  match g_aheap g !! a with
  | Some l => match al_terminal l with Some x => closed_chan (lt_verdict x) | None => false end
  | None => false
  end.

(** ** What the callers of [drainAttempts] do afterwards *)

(** The end of [PeerLease.Close]. *)
Definition finish_peer (p : ptr) (g : Governor) : Governor :=
  match g_pheap g !! p with
  | None => g
  | Some pl =>
      if bool_decide (g_peers g !! pl_peerID pl = Some p) && bool_decide (pl_attempts pl = ∅)
      then set_g_peers (delete (pl_peerID pl) (g_peers g)) g else g
  end.

(** One peer of the loop in [finishSafetyTripDrain]. *)
Definition finish_trip_peer (g : Governor) (entry : string * ptr) : Governor :=
  let '(peerID, p) := entry in
  match g_pheap g !! p with
  | None => g
  | Some pl =>
      if bool_decide (pl_attempts pl = ∅)
      then set_g_peers (delete peerID (g_peers g)) (upd_peer p (set_pl_closed true) g) else g
  end.

Definition finishSafetyTripDrain (g : Governor) : Governor :=
  set_g_tripDrainStarted false
    (fold_left finish_trip_peer (map_to_list (g_peers g)) g).

Definition stop_peer (g : Governor) (p : ptr) : Governor :=
  match g_pheap g !! p with
  | None => g
  | Some pl =>
      upd_peer p (set_pl_closed true)
        (fold_left releaseAttemptLocked (snd <$> map_to_list (pl_attempts pl)) g)
  end.

Definition stopActiveLocked (g : Governor) : Governor :=
  let g1 := fold_left stop_peer (snd <$> map_to_list (g_peers g)) g in
  set_g_heavyweightAttempts 0
    (set_g_reserved resources_zero (set_g_attempts ∅ (set_g_peers ∅ g1))).

(** The critical section of [Governor.Close] after the drain. *)
Definition finish_governor (tid : nat) (t : drain_thread) (drainErr : option goerr)
    (g : Governor) : Governor :=
  if loopbackWorkOutstandingLocked g then
    end_thread tid
      (set_g_closing false
         (set_g_closeErr
            (errors_join [drainErr; g_finalizationFault g; Some ErrTerminalFinalizing]) g))
  else
    set_thread tid (set_dt_phase (DCloseOwner drainErr) t)
      (set_g_closed true (stopActiveLocked g)).

(** [owner.closeClaimed] and the last section of [Governor.Close]. *)
Definition finish_close_owner (tid : nat) (drainErr ownerErr : option goerr) (g : Governor)
    : Governor :=
  end_thread tid
    (set_g_closeErr (errors_join [drainErr; ownerErr]) (set_g_ownerHeld false g)).

Definition drain_finish (tid : nat) (t : drain_thread) (result : option goerr) (g : Governor)
    : Governor :=
  match dt_for t with
  | ForAttempt => end_thread tid g
  | ForPeer p => end_thread tid (finish_peer p g)
  | ForTrip => end_thread tid (finishSafetyTripDrain g)
  | ForGovernor => finish_governor tid t result g
  end.

(** ** The loopback manager *)

Definition set_term (a : ptr) (ph : term_phase) (g : Governor) : Governor :=
  set_g_terms (<[a := ph]> (g_terms g)) g.
Definition end_term (a : ptr) (g : Governor) : Governor :=
  set_g_terms (delete a (g_terms g)) g.

Definition lease_terminal (g : Governor) (a : ptr) : option loopbackTerminal :=
  match g_aheap g !! a with Some l => al_terminal l | None => None end.

(** The network drain is complete. *)
Definition term_network_ok (a : ptr) (g : Governor) : Governor :=
  set_term a (TNetworkDone None) g.

Definition loopback_event (g : Governor) (a : ptr) : SafetyTripEvent :=
  let l := g_aheap g !! a in
  mkEvent SafetyTripCancellation "loopback network drain exceeded its deadline"
    match l with
    | Some l => match g_pheap g !! al_peer l with Some p => pl_peerID p | None => "" end
    | None => "" end
    (lease_id g a) (g_build g) time_zero.

(** The network timer fired. *)
Definition term_network_timeout (reply : trip_reply) (a : ptr) (g : Governor) : Governor :=
  match lease_terminal g a with
  | Some t =>
      if negb (lt_networkClosed t) then
        let '(g', (_, tripErr)) := tripLocked reply g in
        set_term a (TNetworkDone
          (errors_join [Some ErrCancellationDrainTimeout; tripErr])) g'
      else set_term a (TNetworkDone None) g
  | None => g
  end.

(** Publication of the network result. *)
Definition term_network_done (a : ptr) (networkErr : option goerr) (g : Governor) : Governor :=
  set_term a (TAccounting networkErr)
    (upd_lease a (upd_terminal (fun t =>
       set_lt_networkDone (S (lt_networkDone t)) (set_lt_networkErr networkErr t))) g).

Definition term_accounting (a : ptr) (networkErr : option goerr) (timedOut : bool)
    (g : Governor) : Governor :=
  set_term a (TVerdict networkErr timedOut) g.

Definition term_verdict (a : ptr) (networkErr : option goerr) (timedOut : bool)
    (g : Governor) : Governor :=
  match lease_terminal g a with
  | None => g
  | Some t =>
      let g1 := if timedOut then
        set_g_finalizationFault
          (errors_join [g_finalizationFault g; Some ErrTerminalFinalizationTimeout]) g
        else g in
      let r0 := errors_join [networkErr; lt_finishErr t] in
      let result := if timedOut
        then errors_join [r0; Some ErrTerminalFinalizationTimeout] else r0 in
      let g2 := upd_lease a (fun l =>
        set_al_closeErr result (upd_terminal (set_lt_result result) l)) g1 in
      match result with
      | None =>
          let g3 := releaseAttemptLocked
            (set_g_loopbackFinalizing (g_loopbackFinalizing g2 - 1) g2) a in
          end_term a (upd_lease a (upd_terminal (fun t =>
            set_lt_verdict (S (lt_verdict t)) (set_lt_settled (S (lt_settled t)) t))) g3)
      | Some _ =>
          set_term a TSettle
            (upd_lease a (upd_terminal (fun t => set_lt_verdict (S (lt_verdict t)) t)) g2)
      end
  end.

Definition term_settle (a : ptr) (g : Governor) : Governor :=
  end_term a
    (upd_lease a (upd_terminal (fun t => set_lt_settled (S (lt_settled t)) t)) g).

(** ** Transitions *)

Section steps.
Context {St : TripStore} {F : Sprintf}.

Inductive gstep : Governor -> Governor -> Prop :=
| step_AcquirePeer peerID g : gstep g (AcquirePeer peerID g).1
| step_PeerLease_Close p g : gstep g (PeerLease_Close p g)
| step_acquireAttempt p ctx request loopback reply g :
    (forall pl e event, g_pheap g !! p = Some pl ->
       validateAttemptLocked g pl request = Some e ->
       acquire_trip_event g pl request e = Some event -> store_reply event reply) ->
    gstep g (acquireAttempt p ctx request loopback reply g).1
| step_ClaimExclusive a name g : gstep g (ClaimExclusive a name g).1
| step_registerDrain a name accounting g : gstep g (registerDrain a name accounting g).1
| step_Complete a id g : gstep g (Complete a id g)
| step_AttemptLease_Close a g : gstep g (AttemptLease_Close a g)
| step_AttemptLease_Trip a event reply g :
    (forall l, g_aheap g !! a = Some l -> store_reply (lease_event g l event) reply) ->
    gstep g (AttemptLease_Trip a event reply g).1
| step_Governor_Trip event reply g :
    store_reply event reply -> gstep g (Governor_Trip event reply g).1
| step_recordLoopbackFinishError a err g : gstep g (recordLoopbackFinishError a err g)
| step_Governor_Close g : gstep g (Governor_Close g)
| step_refreshTrip fresh g : gstep g (refreshTrip fresh g)
(* drain threads *)
| step_stop_phased tid t g :
    g_drainThreads g !! tid = Some t -> dt_phase t = DStopPhased ->
    gstep g (drain_stop_phased tid t g)
| step_stop_ordinary tid t g :
    g_drainThreads g !! tid = Some t -> dt_phase t = DStopOrdinary ->
    gstep g (drain_stop_ordinary tid t g)
| step_wait tid t timer timedOut g :
    g_drainThreads g !! tid = Some t -> dt_phase t = DWait ->
    waitForAttemptDrains timer (dt_ordinary t) g = Some timedOut ->
    gstep g (drain_wait tid t timedOut g)
| step_timed_out tid t a reply g :
    g_drainThreads g !! tid = Some t -> dt_phase t = DTimedOut a ->
    (forall l, timeout_pending a g = Some l -> store_reply (cancellation_event g l) reply) ->
    gstep g (drain_timed_out reply tid t a g)
| step_release tid t result g :
    g_drainThreads g !! tid = Some t -> dt_phase t = DRelease result ->
    gstep g (drain_release tid t result g)
| step_phased tid t a todo result g :
    g_drainThreads g !! tid = Some t -> dt_phase t = DPhased (a :: todo) result ->
    verdict_known g a = true ->
    gstep g (drain_phased tid t a todo result g)
| step_phased_end tid t result g :
    g_drainThreads g !! tid = Some t -> dt_phase t = DPhased [] result ->
    gstep g (set_thread tid (set_dt_phase (DFinish result) t) g)
| step_finish tid t result g :
    g_drainThreads g !! tid = Some t -> dt_phase t = DFinish result ->
    gstep g (drain_finish tid t result g)
| step_close_owner tid t drainErr ownerErr g :
    g_drainThreads g !! tid = Some t -> dt_phase t = DCloseOwner drainErr ->
    gstep g (finish_close_owner tid drainErr ownerErr g)
(* loopback managers *)
| step_network_ok a t g :
    g_terms g !! a = Some TNetwork -> lease_terminal g a = Some t ->
    closed_chan (lt_networkDrained t) = true ->
    gstep g (term_network_ok a g)
| step_network_timeout a reply g :
    g_terms g !! a = Some TNetwork -> store_reply (loopback_event g a) reply ->
    gstep g (term_network_timeout reply a g)
| step_network_done a networkErr g :
    g_terms g !! a = Some (TNetworkDone networkErr) ->
    gstep g (term_network_done a networkErr g)
| step_accounting a t networkErr timedOut g :
    g_terms g !! a = Some (TAccounting networkErr) -> lease_terminal g a = Some t ->
    closed_chan (lt_accountingDone t) = negb timedOut ->
    gstep g (term_accounting a networkErr timedOut g)
| step_verdict a networkErr timedOut g :
    g_terms g !! a = Some (TVerdict networkErr timedOut) ->
    gstep g (term_verdict a networkErr timedOut g)
| step_settle a l g :
    g_terms g !! a = Some TSettle -> g_aheap g !! a = Some l ->
    closed_chan (al_drained l) = true ->
    gstep g (term_settle a g).

(** Every governor a process can be in: built by [newGovernor], then any
    interleaving. *)
Definition initial (g : Governor) : Prop :=
  exists owner trip profile requested o,
    newGovernor owner trip profile requested = Ok (o, g).

Definition reachable (g : Governor) : Prop := exists g0, initial g0 /\ rtc gstep g0 g.

Lemma reachable_ind_inv (P : Governor -> Prop) :
  (forall g, initial g -> P g) -> (forall g g', P g -> gstep g g' -> P g') ->
  forall g, reachable g -> P g.
Proof.
  intros Hi Hs g (g0 & H0 & Hrtc). apply Hi in H0.
  induction Hrtc as [g|g g1 g2 Hst _ IH]; eauto.
Qed.
End steps.
