(* ===== verification/GovernorInv.v ===== *)
(** * The registry invariant of the governor

    [registry] relates the maps of the governor to its heaps and its counters:
    every active attempt is one open lease, listed under its identifier in the
    governor and in exactly one registered peer, the reservation is the sum of
    the costs of the active attempts, and every limit holds.  Each critical
    section preserves it; most of them change only bookkeeping of single
    leases ([soft]). *)
From S2P Require Import Prelude GoStd Limits SafetyTrip Governor GovernorSteps.

(** ** Costs *)

Definition cost_of (h : gmap ptr AttemptLease) (a : ptr) : Resources :=
  match h !! a with
  | Some l => cost_Resources (req_Cost (al_request l)) | None => resources_zero end.

Definition heavy_of (h : gmap ptr AttemptLease) (a : ptr) : Z :=
  match h !! a with
  | Some l => bool_Z (cost_Heavyweight (req_Cost (al_request l))) | None => 0 end.

(** The sum of the costs of the attempts in [m]. *)
Definition total_cost (h : gmap ptr AttemptLease) (m : gmap string ptr) : Resources := {|
  Sockets := map_sum (fun a => Sockets (cost_of h a)) m;
  Targets := map_sum (fun a => Targets (cost_of h a)) m;
  PacketsPerSecond := map_sum (fun a => PacketsPerSecond (cost_of h a)) m;
  Packets := map_sum (fun a => Packets (cost_of h a)) m;
  FiveTuples := map_sum (fun a => FiveTuples (cost_of h a)) m |}.

Definition total_heavy (h : gmap ptr AttemptLease) (m : gmap string ptr) : Z :=
  map_sum (heavy_of h) m.

Lemma total_cost_insert h m id a :
  m !! id = None -> total_cost h (<[id:=a]> m) = resources_add (total_cost h m) (cost_of h a).
Proof.
  intros. unfold total_cost, resources_add. simpl.
  rewrite !map_sum_insert by done. f_equal; lia.
Qed.

Lemma total_cost_delete h m id a :
  m !! id = Some a ->
  total_cost h (delete id m) = resources_subtract (total_cost h m) (cost_of h a).
Proof.
  intros Hm. unfold total_cost, resources_subtract. simpl.
  rewrite !(map_sum_delete _ m id a) by done. f_equal; lia.
Qed.

Lemma total_cost_ext h h' m :
  (forall id a, m !! id = Some a -> cost_of h a = cost_of h' a) ->
  total_cost h m = total_cost h' m.
Proof.
  intros Hext. unfold total_cost.
  f_equal; apply map_sum_ext; intros id a Ha; by rewrite (Hext id a Ha).
Qed.

Lemma total_cost_empty h : total_cost h ∅ = resources_zero.
Proof. unfold total_cost. by rewrite !map_sum_empty. Qed.

(** ** The invariant *)

Record registry (g : Governor) : Prop := {
  reg_attempt : forall id a, g_attempts g !! id = Some a ->
    exists l pl, g_aheap g !! a = Some l /\ al_closed l = false /\
      req_ID (al_request l) = id /\ g_pheap g !! al_peer l = Some pl /\
      pl_attempts pl !! id = Some a /\ g_peers g !! pl_peerID pl = Some (al_peer l);
  reg_peer_attempt : forall p pl id a, g_pheap g !! p = Some pl ->
    pl_attempts pl !! id = Some a ->
    g_attempts g !! id = Some a /\ exists l, g_aheap g !! a = Some l /\ al_peer l = p;
  reg_open : forall a l, g_aheap g !! a = Some l -> al_closed l = false ->
    g_attempts g !! req_ID (al_request l) = Some a;
  reg_peer : forall peerID p, g_peers g !! peerID = Some p ->
    exists pl, g_pheap g !! p = Some pl /\ pl_peerID pl = peerID;
  reg_peer_open : forall p pl, g_pheap g !! p = Some pl -> pl_closed pl = false ->
    g_peers g !! pl_peerID pl = Some p;
  reg_fresh_lease : forall a, (g_next g <= a)%nat -> g_aheap g !! a = None;
  reg_fresh_peer : forall p, (g_next g <= p)%nat -> g_pheap g !! p = None;
  reg_reserved : g_reserved g = total_cost (g_aheap g) (g_attempts g);
  reg_heavy : g_heavyweightAttempts g = total_heavy (g_aheap g) (g_attempts g);
  reg_cost : forall a l, g_aheap g !! a = Some l ->
    resources_nonneg (cost_Resources (req_Cost (al_request l))) /\
    resources_le (cost_Resources (req_Cost (al_request l))) (PerAttempt (g_limits g));
  reg_max_attempts : Z.of_nat (size (g_attempts g)) <= MaxActiveAttempts (g_limits g);
  reg_max_peers : Z.of_nat (size (g_peers g)) <= MaxActivePeers (g_limits g);
  reg_max_per_peer : forall p pl, g_pheap g !! p = Some pl ->
    Z.of_nat (size (pl_attempts pl)) <= MaxAttemptsPerPeer (g_limits g);
  reg_max_heavy : g_heavyweightAttempts g <= MaxHeavyweightAttempts (g_limits g);
  reg_aggregate : resources_le (g_reserved g) (Aggregate (g_limits g));
  reg_limits : limits_ok (g_limits g);
}.

(** ** Changes of bookkeeping *)

Definition same_key (l l' : AttemptLease) : Prop :=
  al_peer l = al_peer l' /\ al_request l = al_request l' /\ al_closed l = al_closed l'.

Lemma same_key_refl l : same_key l l.
Proof. done. Qed.

Lemma same_key_trans l1 l2 l3 : same_key l1 l2 -> same_key l2 l3 -> same_key l1 l3.
Proof. unfold same_key. naive_solver congruence. Qed.

Definition heap_soft (h h' : gmap ptr AttemptLease) : Prop :=
  forall a, match h !! a, h' !! a with
            | Some l, Some l' => same_key l l'
            | None, None => True
            | _, _ => False
            end.

Lemma heap_soft_lookup h h' a l' :
  heap_soft h h' -> h' !! a = Some l' -> exists l, h !! a = Some l /\ same_key l l'.
Proof. intros Hs Hl. specialize (Hs a). rewrite Hl in Hs. case_match; naive_solver. Qed.

Lemma heap_soft_lookup_r h h' a l :
  heap_soft h h' -> h !! a = Some l -> exists l', h' !! a = Some l' /\ same_key l l'.
Proof. intros Hs Hl. specialize (Hs a). rewrite Hl in Hs. case_match; naive_solver. Qed.

Lemma heap_soft_None h h' a : heap_soft h h' -> h !! a = None -> h' !! a = None.
Proof. intros Hs Hl. specialize (Hs a). rewrite Hl in Hs. case_match; naive_solver. Qed.

(** The transition leaves the registry alone. *)
Record soft (g g' : Governor) : Prop := {
  soft_limits : g_limits g' = g_limits g;
  soft_profile : g_profile g' = g_profile g;
  soft_peers : g_peers g' = g_peers g;
  soft_attempts : g_attempts g' = g_attempts g;
  soft_pheap : g_pheap g' = g_pheap g;
  soft_reserved : g_reserved g' = g_reserved g;
  soft_heavy : g_heavyweightAttempts g' = g_heavyweightAttempts g;
  soft_next : (g_next g <= g_next g')%nat;
  soft_heap : heap_soft (g_aheap g) (g_aheap g');
}.

#[export] Instance soft_preorder : PreOrder soft.
Proof.
  split.
  - intros g. split; try done. intros a. case_match; [apply same_key_refl|done].
  - intros g1 g2 g3 [] []. split; [congruence..|lia|].
    intros a. specialize (soft_heap0 a). specialize (soft_heap1 a).
    repeat case_match; try done. by eapply same_key_trans.
Qed.

Lemma soft_cost_of h h' a : heap_soft h h' -> cost_of h' a = cost_of h a.
Proof.
  intros Hs. unfold cost_of. specialize (Hs a).
  destruct (h !! a), (h' !! a); try done. by destruct Hs as (_ & -> & _).
Qed.

Lemma soft_heavy_of h h' a : heap_soft h h' -> heavy_of h' a = heavy_of h a.
Proof.
  intros Hs. unfold heavy_of. specialize (Hs a).
  destruct (h !! a), (h' !! a); try done. by destruct Hs as (_ & -> & _).
Qed.

Lemma registry_soft g g' : soft g g' -> registry g -> registry g'.
Proof.
  intros [Hlim Hprof Hpeers Hatt Hph Hres Hhv Hnext Hheap] R.
  split; rewrite ?Hlim, ?Hpeers, ?Hatt, ?Hph, ?Hres, ?Hhv; try apply R.
  - intros id a Ha. destruct (reg_attempt g R id a Ha) as (l & pl & Hl & Hc & Hid & Hrest).
    destruct (heap_soft_lookup_r _ _ a l Hheap Hl) as (l' & Hl' & Hk1 & Hk2 & Hk3).
    exists l', pl. by rewrite <-Hk1, <-Hk2, <-Hk3.
  - intros p pl id a Hp Hat. destruct (reg_peer_attempt g R p pl id a Hp Hat) as (Ha & l & Hl & Hlp).
    destruct (heap_soft_lookup_r _ _ a l Hheap Hl) as (l' & Hl' & Hk1 & _).
    split; [done|]. exists l'. by rewrite <-Hk1.
  - intros a l' Hl' Hc. destruct (heap_soft_lookup _ _ a l' Hheap Hl') as (l & Hl & _ & Hk2 & Hk3).
    rewrite <-Hk2. apply (reg_open g R); congruence.
  - intros a Ha. eapply heap_soft_None; [done|]. apply (reg_fresh_lease g R). lia.
  - intros p Hp. apply (reg_fresh_peer g R). lia.
  - rewrite (reg_reserved g R). apply total_cost_ext. intros. by rewrite (soft_cost_of _ _ _ Hheap).
  - rewrite (reg_heavy g R). apply map_sum_ext. intros. by rewrite (soft_heavy_of _ _ _ Hheap).
  - intros a l' Hl'. destruct (heap_soft_lookup _ _ a l' Hheap Hl') as (l & Hl & _ & Hk2 & _).
    rewrite <-Hk2. by apply (reg_cost g R a).
Qed.

(** ** The soft operations *)

Lemma heap_soft_alter (f : AttemptLease -> AttemptLease) a h :
  (forall l, same_key l (f l)) -> heap_soft h (alter f a h).
Proof.
  intros Hf b. destruct (decide (a = b)) as [->|Hne].
  - rewrite lookup_alter_eq. destruct (h !! b); simpl; [apply Hf|done].
  - rewrite lookup_alter_ne by done. destruct (h !! b); [apply same_key_refl|done].
Qed.

Lemma upd_lease_soft a f g : (forall l, same_key l (f l)) -> soft g (upd_lease a f g).
Proof. intros Hf. split; try done. by apply heap_soft_alter. Qed.

(** Updates of fields the registry does not read. *)
Ltac soft_fields := split; simpl;
  first [done | lia | intros ?; simpl; case_match; [apply same_key_refl | done]].

Lemma close_drained_key l : same_key l (closeAttemptDrainedLocked l).
Proof. unfold closeAttemptDrainedLocked. by destruct (al_drainedClosed l). Qed.

Lemma maybe_close_key l : same_key l (maybeCloseLoopbackNetworkLocked l).
Proof.
  unfold maybeCloseLoopbackNetworkLocked. destruct (al_terminal l); [|done].
  by destruct (al_stoppingStarted l).
Qed.

Lemma start_stopping_key l : same_key l (start_stopping l).
Proof.
  unfold start_stopping. eapply same_key_trans; [|apply maybe_close_key].
  case_bool_decide; [|done].
  eapply same_key_trans; [|apply close_drained_key]. done.
Qed.

Lemma upd_terminal_key f l : same_key l (upd_terminal f l).
Proof. done. Qed.

Lemma drain_complete_key id l : same_key l (drain_complete id l).
Proof.
  unfold drain_complete. destruct (al_drains l !! id); [|done].
  eapply same_key_trans; [|apply maybe_close_key].
  case_match; [|done]. eapply same_key_trans; [|apply close_drained_key]. done.
Qed.

#[export] Hint Resolve close_drained_key maybe_close_key start_stopping_key upd_terminal_key
  drain_complete_key same_key_refl : winkyou.

Lemma begin_stopping_soft g a : soft g (beginAttemptStoppingLocked g a).
Proof.
  unfold beginAttemptStoppingLocked. destruct (g_aheap g !! a) as [l|]; [|done].
  destruct (al_closed l || al_stoppingStarted l); [done|].
  transitivity (upd_lease a start_stopping g); [auto using upd_lease_soft, start_stopping_key|].
  destruct (al_terminal l); [|done]. soft_fields.
Qed.

Lemma begin_all_soft l g : soft g (begin_all g l).
Proof.
  unfold begin_all. revert g. induction l as [|a l IH]; intros g; [done|].
  simpl. etrans; [apply (begin_stopping_soft g a) | apply IH].
Qed.

Lemma spawn_drain_soft who l g : soft g (spawn_drain who l g).
Proof. soft_fields. Qed.

Lemma set_thread_soft tid t g : soft g (set_thread tid t g).
Proof. soft_fields. Qed.

Lemma end_thread_soft tid g : soft g (end_thread tid g).
Proof. soft_fields. Qed.

Lemma trip_drain_soft g : soft g (beginSafetyTripDrainLocked g).
Proof.
  unfold beginSafetyTripDrainLocked.
  case_match; [apply begin_all_soft|].
  etrans; [apply begin_all_soft|]. etrans; [|apply spawn_drain_soft]. soft_fields.
Qed.

Lemma set_trip_soft t g : soft g (set_g_trip t g).
Proof. soft_fields. Qed.

Lemma tripLocked_soft reply g : soft g (tripLocked reply g).1.
Proof.
  unfold tripLocked. destruct (g_closed g); [done|].
  destruct (ts_BlocksActiveWork (g_trip g)); [apply trip_drain_soft|].
  destruct reply as [[status err] called].
  assert (H1 : soft g (if called then beginSafetyTripDrainLocked g else g))
    by (destruct called; [apply trip_drain_soft | done]).
  destruct (negb (ts_BlocksActiveWork status)); simpl;
    (etrans; [exact H1|]); (etrans; [apply set_trip_soft|]);
    [etrans; [apply set_trip_soft|]|]; apply trip_drain_soft.
Qed.

#[export] Hint Resolve begin_stopping_soft begin_all_soft spawn_drain_soft set_thread_soft
  end_thread_soft trip_drain_soft tripLocked_soft set_trip_soft upd_lease_soft : winkyou.

(** ** Removing an attempt *)

Section remove.
Variables (g : Governor) (a : ptr) (l : AttemptLease) (k : AttemptLease).
Hypothesis R : registry g.
Hypothesis Hl : g_aheap g !! a = Some k.
Hypothesis Hkey : same_key l k.
Hypothesis Hopen : al_closed l = false.

Let g' := remove_attempt a l g.
Let id := req_ID (al_request l).

Lemma remove_aheap :
  g_aheap g' = alter (fun l => set_al_done (S (al_done l)) (set_al_closed true l)) a (g_aheap g).
Proof. subst g'. unfold remove_attempt. by destruct (cost_Heavyweight _). Qed.
Lemma remove_pheap :
  g_pheap g' = alter (fun p => set_pl_attempts (delete id (pl_attempts p)) p) (al_peer l)
                 (g_pheap g).
Proof. subst g'. unfold remove_attempt. by destruct (cost_Heavyweight _). Qed.
Lemma remove_attempts : g_attempts g' = delete id (g_attempts g).
Proof. subst g'. unfold remove_attempt. by destruct (cost_Heavyweight _). Qed.
Lemma remove_reserved :
  g_reserved g' = resources_subtract (g_reserved g) (cost_Resources (req_Cost (al_request l))).
Proof. subst g'. unfold remove_attempt. by destruct (cost_Heavyweight _). Qed.
Lemma remove_heavy :
  g_heavyweightAttempts g' =
  g_heavyweightAttempts g - bool_Z (cost_Heavyweight (req_Cost (al_request l))).
Proof. subst g'. unfold remove_attempt. destruct (cost_Heavyweight _); simpl; lia. Qed.
Lemma remove_frame :
  g_peers g' = g_peers g /\ g_limits g' = g_limits g /\ g_next g' = g_next g /\
  g_profile g' = g_profile g.
Proof. subst g'. unfold remove_attempt. by destruct (cost_Heavyweight _). Qed.

Lemma remove_lookup b :
  g_aheap g' !! b =
    if decide (b = a) then Some (set_al_done (S (al_done k)) (set_al_closed true k))
    else g_aheap g !! b.
Proof.
  rewrite remove_aheap. case_decide as Hb; subst.
  - by rewrite lookup_alter_eq, Hl.
  - by rewrite lookup_alter_ne.
Qed.

Lemma remove_key_in : g_attempts g !! id = Some a.
Proof.
  subst id. destruct Hkey as (_ & Hr & Hc). rewrite Hr.
  apply (reg_open g R); congruence.
Qed.

Lemma remove_cost b : cost_of (g_aheap g') b = cost_of (g_aheap g) b.
Proof. unfold cost_of. rewrite remove_lookup. case_decide; [by subst; rewrite Hl|done]. Qed.
Lemma remove_heavy_of b : heavy_of (g_aheap g') b = heavy_of (g_aheap g) b.
Proof. unfold heavy_of. rewrite remove_lookup. case_decide; [by subst; rewrite Hl|done]. Qed.

(** A peer of the new state is a peer of the old one with fewer attempts. *)
Lemma remove_peer_lookup p pl' :
  g_pheap g' !! p = Some pl' ->
  exists pl, g_pheap g !! p = Some pl /\ pl_peerID pl' = pl_peerID pl /\
    pl_closed pl' = pl_closed pl /\
    pl_attempts pl' = (if decide (p = al_peer l) then delete id (pl_attempts pl)
                       else pl_attempts pl).
Proof.
  rewrite remove_pheap. case_decide as Hp; subst.
  - rewrite lookup_alter_eq. destruct (g_pheap g !! al_peer l) as [pl|]; [|done].
    intros ?; simplify_eq/=. by exists pl.
  - rewrite lookup_alter_ne by done. intros ->. by exists pl'.
Qed.

Lemma remove_other id' b : delete id (g_attempts g) !! id' = Some b ->
  id' <> id /\ b <> a /\ g_attempts g !! id' = Some b.
Proof.
  intros Hd. apply lookup_delete_Some in Hd as [Hne Hb].
  split; [congruence|]. split; [|done]. intros ->.
  destruct (reg_attempt g R id' a Hb) as (l0 & _ & Hl0 & _ & Hid & _).
  rewrite Hl in Hl0. simplify_eq. destruct Hkey as (_ & Hr & _).
  subst id. rewrite Hr in Hne. congruence.
Qed.

Lemma registry_remove : registry g'.
Proof.
  pose proof remove_frame as (Hpeers & Hlim & Hnext & _).
  pose proof remove_key_in as Hin.
  split; rewrite ?Hpeers, ?Hlim, ?Hnext, ?remove_attempts.
  - intros id' b Hb. apply remove_other in Hb as (Hne & Hba & Hb).
    destruct (reg_attempt g R id' b Hb) as (lb & pl & Hlb & Hcb & Hidb & Hpl & Hat & Hreg).
    exists lb.
    assert (Hpl' : exists pl', g_pheap g' !! al_peer lb = Some pl' /\
              pl_attempts pl' !! id' = Some b /\ pl_peerID pl' = pl_peerID pl).
    { rewrite remove_pheap. destruct (decide (al_peer lb = al_peer l)) as [He|He].
      - rewrite He, lookup_alter_eq, <-He, Hpl. eexists.
        split_and!; [done | simpl; by rewrite lookup_delete_ne | done].
      - rewrite lookup_alter_ne by done. by exists pl. }
    destruct Hpl' as (pl' & Hpl' & Hat' & Hpid). exists pl'.
    rewrite remove_lookup, decide_False, Hpid by done. done.
  - intros p pl' id' b Hp Hat.
    destruct (remove_peer_lookup p pl' Hp) as (pl & Hpl & _ & _ & Hatt).
    rewrite Hatt in Hat.
    assert (Hold : pl_attempts pl !! id' = Some b /\ id' <> id).
    { case_decide as Hpa.
      - apply lookup_delete_Some in Hat as [? ?]. split; congruence.
      - split; [done|]. intros ->.
        destruct (reg_peer_attempt g R p pl id b Hpl Hat) as (Hb & lb & Hlb & Hlp).
        assert (b = a) as -> by congruence. assert (lb = k) as -> by congruence.
        destruct Hkey as (Hp1 & _). congruence. }
    destruct Hold as [Hold Hne].
    destruct (reg_peer_attempt g R p pl id' b Hpl Hold) as (Hb & lb & Hlb & Hlp).
    split; [by rewrite lookup_delete_ne|].
    rewrite remove_lookup. destruct (decide (b = a)) as [Hba|Hba]; [|by eauto].
    subst b. assert (lb = k) as -> by congruence. eexists. by split.
  - intros b lb Hlb Hcb. rewrite remove_lookup in Hlb. case_decide as Hba; [by simplify_eq|].
    pose proof (reg_open g R b lb Hlb Hcb) as Hb.
    rewrite lookup_delete_ne; [done|]. intros He. rewrite <-He in Hb.
    rewrite Hin in Hb. congruence.
  - intros peerID p Hp. destruct (reg_peer g R peerID p Hp) as (pl & Hpl & Hid).
    rewrite remove_pheap. destruct (decide (p = al_peer l)) as [->|Hne].
    + rewrite lookup_alter_eq, Hpl. by eexists.
    + rewrite lookup_alter_ne by done. by eauto.
  - intros p pl' Hp Hc. destruct (remove_peer_lookup p pl' Hp) as (pl & Hpl & -> & Hcl & _).
    apply (reg_peer_open g R); congruence.
  - intros b Hb. rewrite remove_lookup. case_decide as Hba; [|by apply (reg_fresh_lease g R)].
    subst. rewrite (reg_fresh_lease g R a Hb) in Hl. done.
  - intros p Hp. rewrite remove_pheap, lookup_alter_None. by apply (reg_fresh_peer g R).
  - rewrite remove_reserved, (total_cost_ext _ (g_aheap g)) by (intros; apply remove_cost).
    rewrite (total_cost_delete _ _ _ a) by done. rewrite (reg_reserved g R). f_equal.
    unfold cost_of. rewrite Hl. by destruct Hkey as (_ & -> & _).
  - rewrite remove_heavy, (reg_heavy g R). unfold total_heavy.
    rewrite (map_sum_delete _ (g_attempts g) id a) by done.
    rewrite (map_sum_ext (heavy_of (g_aheap g')) (heavy_of (g_aheap g))
      (delete id (g_attempts g))) by (intros; apply remove_heavy_of).
    unfold heavy_of at 1. rewrite Hl. destruct Hkey as (_ & -> & _). lia.
  - intros b lb Hlb. rewrite remove_lookup in Hlb. case_decide; [|by apply (reg_cost g R b)].
    simplify_eq/=. by apply (reg_cost g R a).
  - rewrite map_size_delete_Some by done. pose proof (reg_max_attempts g R).
    destruct (size (g_attempts g)); simpl; lia.
  - apply R.
  - intros p pl' Hp. destruct (remove_peer_lookup p pl' Hp) as (pl & Hpl & _ & _ & ->).
    pose proof (reg_max_per_peer g R p pl Hpl). case_decide; [|done].
    enough (size (delete id (pl_attempts pl)) <= size (pl_attempts pl))%nat by lia.
    apply map_subseteq_size, delete_subseteq.
  - rewrite remove_heavy. pose proof (reg_max_heavy g R). destruct (cost_Heavyweight _); simpl; lia.
  - rewrite remove_reserved. pose proof (reg_aggregate g R) as Hagg.
    destruct (reg_cost g R a k Hl) as [Hnn _]. destruct Hkey as (_ & -> & _).
    unfold resources_nonneg, resources_le, resources_subtract in *. simpl in *. lia.
  - apply R.
Qed.
End remove.

Lemma release_registry g a : registry g -> registry (releaseAttemptLocked g a).
Proof.
  intros R. unfold releaseAttemptLocked. destruct (g_aheap g !! a) as [l|] eqn:Hl; [|done].
  destruct (al_closed l) eqn:Hc; [done|].
  pose proof (begin_stopping_soft g a) as Hs.
  destruct (heap_soft_lookup_r _ _ a l (soft_heap _ _ Hs) Hl) as (k & Hk & Hkey).
  eapply registry_remove; [by eapply registry_soft | done..].
Qed.

(** ** Admission *)

(** The conditions under which [validateAttemptLocked] accepts a request. *)
Definition admissible (g : Governor) (pl : PeerLease) (request : AttemptRequest) : Prop :=
  validateIdentifier "attempt id" (req_ID request) = None /\
  Profile_Allows (g_profile g) (req_Operation request) = true /\
  g_attempts g !! req_ID request = None /\
  Z.of_nat (size (g_attempts g)) < MaxActiveAttempts (g_limits g) /\
  Z.of_nat (size (pl_attempts pl)) < MaxAttemptsPerPeer (g_limits g) /\
  resources_nonneg (cost_Resources (req_Cost request)) /\
  cost_Resources (req_Cost request) <> resources_zero /\
  0 < cost_Duration (req_Cost request) <= MaxAttemptDuration (g_limits g) /\
  resources_le (cost_Resources (req_Cost request)) (PerAttempt (g_limits g)) /\
  resources_le (resources_add (g_reserved g) (cost_Resources (req_Cost request)))
    (Aggregate (g_limits g)) /\
  (cost_Heavyweight (req_Cost request) = true ->
     g_heavyweightAttempts g < MaxHeavyweightAttempts (g_limits g)).

Lemma validateAttemptLocked_None g pl request :
  validateAttemptLocked g pl request = None <-> admissible g pl request.
Proof.
  unfold validateAttemptLocked, admissible.
  destruct (validateIdentifier "attempt id" (req_ID request)); [naive_solver|].
  destruct (Profile_Allows _ _); simpl; [|naive_solver].
  destruct (g_attempts g !! req_ID request); [naive_solver|].
  destruct (Z.leb_spec (MaxActiveAttempts (g_limits g)) (Z.of_nat (size (g_attempts g))));
    [naive_solver lia|].
  destruct (Z.leb_spec (MaxAttemptsPerPeer (g_limits g)) (Z.of_nat (size (pl_attempts pl))));
    [naive_solver lia|].
  rewrite <-validateNonNegative_None.
  destruct (validateNonNegative _); [naive_solver|].
  case_bool_decide; [naive_solver|].
  destruct (Z.leb_spec (cost_Duration (req_Cost request)) 0); [naive_solver lia|].
  destruct (Z.ltb_spec (MaxAttemptDuration (g_limits g)) (cost_Duration (req_Cost request)));
    [naive_solver lia|].
  rewrite <-(firstResourceExcess_None (cost_Resources _)), <-(limit_error_None "per_attempt_").
  destruct (limit_error "per_attempt_" _); [naive_solver|].
  rewrite <-firstResourceExcess_None, <-(limit_error_None "aggregate_").
  destruct (limit_error "aggregate_" _); [naive_solver|].
  destruct (cost_Heavyweight _); simpl; [|naive_solver lia].
  destruct (Z.leb_spec (MaxHeavyweightAttempts (g_limits g)) (g_heavyweightAttempts g));
    naive_solver lia.
Qed.

Section install.
Variables (g : Governor) (p : ptr) (pl : PeerLease) (request : AttemptRequest) (loopback : bool).
Hypothesis R : registry g.
Hypothesis Hp : g_pheap g !! p = Some pl.
Hypothesis Hopen : pl_closed pl = false.
Hypothesis Hadm : admissible g pl request.

Let g' := install_attempt p request loopback g.
Let id := req_ID request.
Let a := g_next g.

Lemma install_aheap : g_aheap g' = <[a := new_lease p request loopback]> (g_aheap g).
Proof. subst g'. unfold install_attempt. by destruct (cost_Heavyweight _). Qed.
Lemma install_pheap :
  g_pheap g' = alter (fun pl => set_pl_attempts (<[id := a]> (pl_attempts pl)) pl) p (g_pheap g).
Proof. subst g'. unfold install_attempt. by destruct (cost_Heavyweight _). Qed.
Lemma install_attempts : g_attempts g' = <[id := a]> (g_attempts g).
Proof. subst g'. unfold install_attempt. by destruct (cost_Heavyweight _). Qed.
Lemma install_reserved :
  g_reserved g' = resources_add (g_reserved g) (cost_Resources (req_Cost request)).
Proof. subst g'. unfold install_attempt. by destruct (cost_Heavyweight _). Qed.
Lemma install_heavy :
  g_heavyweightAttempts g' =
  g_heavyweightAttempts g + bool_Z (cost_Heavyweight (req_Cost request)).
Proof. subst g'. unfold install_attempt. destruct (cost_Heavyweight _); simpl; lia. Qed.
Lemma install_frame :
  g_peers g' = g_peers g /\ g_limits g' = g_limits g /\ g_next g' = S a /\
  g_profile g' = g_profile g.
Proof. subst g'. unfold install_attempt. by destruct (cost_Heavyweight _). Qed.

Lemma install_fresh : g_aheap g !! a = None.
Proof. by apply (reg_fresh_lease g R). Qed.

Lemma install_lookup b : b <> a -> g_aheap g' !! b = g_aheap g !! b.
Proof. intros. by rewrite install_aheap, lookup_insert_ne. Qed.

Lemma install_old id' b : g_attempts g !! id' = Some b -> id' <> id /\ b <> a.
Proof.
  intros Hb. destruct Hadm as (_ & _ & Hnone & _).
  split; [intros ->; subst id; congruence|]. intros ->.
  destruct (reg_attempt g R id' a Hb) as (l & _ & Hl & _). rewrite install_fresh in Hl. done.
Qed.

Lemma install_peer_lookup q pl' :
  g_pheap g' !! q = Some pl' ->
  exists pl0, g_pheap g !! q = Some pl0 /\ pl_peerID pl' = pl_peerID pl0 /\
    pl_closed pl' = pl_closed pl0 /\
    pl_attempts pl' = (if decide (q = p) then <[id := a]> (pl_attempts pl0)
                       else pl_attempts pl0).
Proof.
  rewrite install_pheap. case_decide as Hq; subst.
  - rewrite lookup_alter_eq, Hp. simpl. intros ?; simplify_eq/=. by exists pl.
  - rewrite lookup_alter_ne by done. intros ->. by exists pl'.
Qed.

Lemma install_peer_old q pl0 : g_pheap g !! q = Some pl0 ->
  exists pl', g_pheap g' !! q = Some pl' /\ pl_peerID pl' = pl_peerID pl0 /\
    forall id' b, pl_attempts pl0 !! id' = Some b -> id' <> id -> pl_attempts pl' !! id' = Some b.
Proof.
  intros Hq. rewrite install_pheap. destruct (decide (q = p)) as [->|Hne].
  - rewrite lookup_alter_eq, Hq. eexists. split_and!; [done..|].
    intros id' b Hb Hne. simpl. by rewrite lookup_insert_ne.
  - rewrite lookup_alter_ne by done. by exists pl0.
Qed.

Lemma registry_install : registry g'.
Proof.
  pose proof install_frame as (Hpeers & Hlim & Hnext & _).
  destruct Hadm as (_ & _ & Hnone & Hmax & Hper & Hnn & _ & _ & Hpa & Hagg & Hheavy).
  split; rewrite ?Hpeers, ?Hlim, ?Hnext, ?install_attempts.
  - intros id' b Hb. apply lookup_insert_Some in Hb as [[<- <-]|[Hne Hb]].
    + destruct (install_peer_old p pl Hp) as (pl' & Hpl' & Hpid & _).
      exists (new_lease p request loopback), pl'.
      rewrite install_aheap, lookup_insert_eq, Hpid. simpl.
      split_and!; try done; [|by apply (reg_peer_open g R)].
      rewrite install_pheap, lookup_alter_eq, Hp in Hpl'. simplify_eq/=. by rewrite lookup_insert_eq.
    + destruct (install_old id' b Hb) as [Hne' Hba].
      destruct (reg_attempt g R id' b Hb) as (lb & plb & Hlb & Hcb & Hidb & Hplb & Hat & Hreg).
      destruct (install_peer_old _ plb Hplb) as (pl' & Hpl' & Hpid & Hkeep).
      exists lb, pl'. rewrite install_lookup, Hpid by done. split_and!; auto.
  - intros q pl' id' b Hq Hat. destruct (install_peer_lookup q pl' Hq) as (pl0 & Hpl0 & _ & _ & Hatt).
    rewrite Hatt in Hat.
    assert (Hcase : (q = p /\ id' = id /\ b = a) \/ (pl_attempts pl0 !! id' = Some b)).
    { destruct (decide (q = p)); [|by right].
      apply lookup_insert_Some in Hat as [[<- <-]|[_ ?]]; auto. }
    destruct Hcase as [(-> & -> & ->)|Hold].
    + rewrite lookup_insert_eq, install_aheap, lookup_insert_eq. split; [done|]. by eexists.
    + destruct (reg_peer_attempt g R q pl0 id' b Hpl0 Hold) as (Hb & lb & Hlb & Hlp).
      destruct (install_old id' b Hb) as [Hne Hba].
      rewrite lookup_insert_ne, install_lookup by done. eauto.
  - intros b lb Hlb Hcb. rewrite install_aheap in Hlb.
    apply lookup_insert_Some in Hlb as [[<- <-]|[Hne Hlb]]; [by rewrite lookup_insert_eq|].
    pose proof (reg_open g R b lb Hlb Hcb) as Hb.
    rewrite lookup_insert_ne; [done|]. by apply install_old in Hb as [? _].
  - intros peerID q Hq. destruct (reg_peer g R peerID q Hq) as (pl0 & Hpl0 & Hid).
    destruct (install_peer_old q pl0 Hpl0) as (pl' & Hpl' & Hpid & _). exists pl'. by rewrite Hpid.
  - intros q pl' Hq Hc. destruct (install_peer_lookup q pl' Hq) as (pl0 & Hpl0 & -> & Hcl & _).
    apply (reg_peer_open g R); congruence.
  - intros b Hb. rewrite install_lookup by lia. apply (reg_fresh_lease g R). lia.
  - intros q Hq. rewrite install_pheap, lookup_alter_None. apply (reg_fresh_peer g R). lia.
  - rewrite total_cost_insert by done. rewrite install_reserved. f_equal.
    + rewrite (reg_reserved g R). apply total_cost_ext. intros id' b Hb.
      unfold cost_of. rewrite install_lookup; [done|]. by apply install_old in Hb as [_ ?].
    + unfold cost_of. by rewrite install_aheap, lookup_insert_eq.
  - assert (Hh : heavy_of (g_aheap g') a = bool_Z (cost_Heavyweight (req_Cost request)))
      by (unfold heavy_of; by rewrite install_aheap, lookup_insert_eq).
    assert (Ho : total_heavy (g_aheap g') (g_attempts g) = total_heavy (g_aheap g) (g_attempts g)).
    { apply map_sum_ext. intros id' b Hb. unfold heavy_of.
      rewrite install_lookup; [done|]. by apply install_old in Hb as [_ ?]. }
    unfold total_heavy in *. rewrite map_sum_insert, install_heavy, (reg_heavy g R) by done.
    unfold total_heavy. lia.
  - intros b lb Hlb. rewrite install_aheap in Hlb.
    apply lookup_insert_Some in Hlb as [[<- <-]|[Hne Hlb]]; [done|by apply (reg_cost g R b)].
  - rewrite map_size_insert_None by done. lia.
  - apply R.
  - intros q pl' Hq. destruct (install_peer_lookup q pl' Hq) as (pl0 & Hpl0 & _ & _ & ->).
    pose proof (reg_max_per_peer g R q pl0 Hpl0). case_decide; [|done].
    subst q. assert (pl0 = pl) as -> by congruence. rewrite map_size_insert.
    destruct (pl_attempts pl !! id); simpl; lia.
  - rewrite install_heavy. pose proof (reg_max_heavy g R).
    destruct (cost_Heavyweight (req_Cost request)); simpl; [specialize (Hheavy eq_refl)|]; lia.
  - by rewrite install_reserved.
  - apply R.
Qed.
End install.

(** ** Peers *)

Lemma acquirePeer_registry peerID g : registry g -> registry (AcquirePeer peerID g).1.
Proof.
  intros R. unfold AcquirePeer.
  destruct (validateIdentifier _ _); [done|]. destruct (g_closed g || g_closing g); [done|].
  destruct (loopbackAdmissionBlockedLocked g); [done|].
  destruct (ts_BlocksActiveWork (g_trip g)); [done|].
  destruct (g_peers g !! peerID) eqn:Hnone; [done|].
  destruct (Z.leb_spec (MaxActivePeers (g_limits g)) (Z.of_nat (size (g_peers g)))); [done|].
  pose proof (reg_fresh_peer g R (g_next g)) as Hfresh. specialize (Hfresh (Nat.le_refl _)).
  assert (Hold : forall p pl, g_pheap g !! p = Some pl -> p <> g_next g) by naive_solver.
  split; simpl; try apply R.
  - intros id a Ha. destruct (reg_attempt g R id a Ha) as (l & pl & ? & ? & ? & Hpl & ? & Hreg).
    exists l, pl. rewrite lookup_insert_ne by (symmetry; eauto).
    rewrite lookup_insert_ne by congruence. done.
  - intros p pl id a Hpl Hat. apply lookup_insert_Some in Hpl as [[<- <-]|[_ Hpl]]; [done|].
    by eapply (reg_peer_attempt g R).
  - intros pid p Hp. apply lookup_insert_Some in Hp as [[<- <-]|[Hne Hp]].
    + rewrite lookup_insert_eq. by eexists.
    + destruct (reg_peer g R pid p Hp) as (pl & Hpl & Hid). exists pl.
      by rewrite lookup_insert_ne by (symmetry; eauto).
  - intros p pl Hpl Hc. apply lookup_insert_Some in Hpl as [[<- <-]|[Hne Hpl]];
      [by rewrite lookup_insert_eq|].
    pose proof (reg_peer_open g R p pl Hpl Hc). rewrite lookup_insert_ne; congruence.
  - intros a Ha. apply (reg_fresh_lease g R). lia.
  - intros p Hp. rewrite lookup_insert_ne by lia. apply (reg_fresh_peer g R). lia.
  - rewrite map_size_insert_None by done. lia.
  - intros p pl Hpl. apply lookup_insert_Some in Hpl as [[<- <-]|[_ Hpl]];
      [|by apply (reg_max_per_peer g R p)].
    simpl. rewrite map_size_empty. pose proof (reg_limits g R) as Hl. unfold limits_ok in Hl. lia.
Qed.

Lemma close_peer_registry p g : registry g -> registry (upd_peer p (set_pl_closed true) g).
Proof.
  intros R.
  assert (Hlook : forall q pl', alter (set_pl_closed true) p (g_pheap g) !! q = Some pl' ->
    exists pl, g_pheap g !! q = Some pl /\ pl_peerID pl' = pl_peerID pl /\
      pl_attempts pl' = pl_attempts pl /\ (pl_closed pl' = false -> pl' = pl)).
  { intros q pl'. destruct (decide (q = p)) as [->|Hne].
    - rewrite lookup_alter_eq. destruct (g_pheap g !! p) as [pl|]; [|done].
      intros ?; simplify_eq/=. by exists pl.
    - rewrite lookup_alter_ne by done. intros ->. by exists pl'. }
  assert (Hkeep : forall q pl, g_pheap g !! q = Some pl ->
    exists pl', alter (set_pl_closed true) p (g_pheap g) !! q = Some pl' /\
      pl_peerID pl' = pl_peerID pl /\ pl_attempts pl' = pl_attempts pl).
  { intros q pl Hq. destruct (decide (q = p)) as [->|Hne].
    - rewrite lookup_alter_eq, Hq. by eexists.
    - rewrite lookup_alter_ne by done. by exists pl. }
  split; simpl; try apply R.
  - intros id a Ha. destruct (reg_attempt g R id a Ha) as (l & pl & ? & ? & ? & Hpl & Hat & Hreg).
    destruct (Hkeep _ pl Hpl) as (pl' & Hpl' & Hid & Hatt). exists l, pl'. by rewrite Hid, Hatt.
  - intros q pl' id a Hq Hat. destruct (Hlook q pl' Hq) as (pl & Hpl & _ & Hatt & _).
    rewrite Hatt in Hat. by eapply (reg_peer_attempt g R).
  - intros pid q Hq. destruct (reg_peer g R pid q Hq) as (pl & Hpl & Hid).
    destruct (Hkeep _ pl Hpl) as (pl' & Hpl' & Hid' & _). exists pl'. by rewrite Hid'.
  - intros q pl' Hq Hc. destruct (Hlook q pl' Hq) as (pl & Hpl & _ & _ & Heq).
    assert (pl' = pl) as -> by auto. by apply (reg_peer_open g R).
  - intros q Hq. rewrite lookup_alter_None. by apply (reg_fresh_peer g R).
  - intros q pl' Hq. destruct (Hlook q pl' Hq) as (pl & Hpl & _ & -> & _).
    by apply (reg_max_per_peer g R q).
Qed.

(** Dropping a closed peer without attempts. *)
Lemma delete_peer_registry p pl g :
  registry g -> g_pheap g !! p = Some pl -> pl_closed pl = true -> pl_attempts pl = ∅ ->
  g_peers g !! pl_peerID pl = Some p ->
  registry (set_g_peers (delete (pl_peerID pl) (g_peers g)) g).
Proof.
  intros R Hp Hc Hat Hreg. split; simpl; try apply R.
  - intros id a Ha. destruct (reg_attempt g R id a Ha) as (l & q & ? & ? & ? & Hq & Hqa & Hqr).
    exists l, q. split_and!; try done. rewrite lookup_delete_ne; [done|].
    intros He. assert (al_peer l = p) as Hlp by congruence. rewrite Hlp in Hq.
    assert (q = pl) as -> by congruence. rewrite Hat in Hqa. done.
  - intros pid q Hq. apply lookup_delete_Some in Hq as [_ Hq]. by apply (reg_peer g R).
  - intros q ql Hq Hqc. pose proof (reg_peer_open g R q ql Hq Hqc) as Hqr.
    rewrite lookup_delete_ne; [done|]. intros He. rewrite <-He, Hreg in Hqr.
    assert (q = p) as -> by congruence. congruence.
  - rewrite map_size_delete_Some by done. pose proof (reg_max_peers g R). lia.
Qed.

(** ** Releasing everything *)

(** [release] keeps the peers and only shrinks the set of attempts. *)
Definition shrinks (g g' : Governor) : Prop :=
  g_peers g' = g_peers g /\ g_attempts g' ⊆ g_attempts g /\
  forall p pl', g_pheap g' !! p = Some pl' ->
    exists pl, g_pheap g !! p = Some pl /\ pl_attempts pl' ⊆ pl_attempts pl /\
      (pl_closed pl = true -> pl_closed pl' = true).

#[export] Instance shrinks_preorder : PreOrder shrinks.
Proof.
  split.
  - intros g. split_and!; [done..|]. intros p pl' Hp. by exists pl'.
  - intros g1 g2 g3 (E1 & S1 & P1) (E2 & S2 & P2). split_and!; [congruence|by etrans|].
    intros p pl3 Hp3. destruct (P2 p pl3 Hp3) as (pl2 & Hp2 & ? & ?).
    destruct (P1 p pl2 Hp2) as (pl1 & Hp1 & ? & ?). exists pl1. split_and!; [done|by etrans|auto].
Qed.

Lemma soft_shrinks g g' : soft g g' -> shrinks g g'.
Proof.
  intros []. split_and!; [done|by rewrite soft_attempts0|].
  rewrite soft_pheap0. intros p pl Hp. by exists pl.
Qed.

Lemma remove_shrinks a l g : shrinks g (remove_attempt a l g).
Proof.
  destruct (remove_frame g a l) as (Hpeers & _). split_and!; [done|..].
  - rewrite remove_attempts. apply delete_subseteq.
  - intros p pl' Hp. destruct (remove_peer_lookup g a l p pl' Hp) as (pl & Hpl & _ & -> & ->).
    exists pl. split_and!; [done| |done]. case_decide; [apply delete_subseteq|done].
Qed.

Lemma release_shrinks g a : shrinks g (releaseAttemptLocked g a).
Proof.
  unfold releaseAttemptLocked. destruct (g_aheap g !! a) as [l|]; [|done].
  destruct (al_closed l); [done|].
  etrans; [apply soft_shrinks, begin_stopping_soft | apply remove_shrinks].
Qed.

Lemma release_all l g :
  registry g ->
  registry (fold_left releaseAttemptLocked l g) /\
  shrinks g (fold_left releaseAttemptLocked l g).
Proof.
  revert g. induction l as [|a l IH]; intros g R; [done|]. simpl.
  destruct (IH (releaseAttemptLocked g a)) as [HR HS]; [by apply release_registry|].
  split; [done|]. etrans; [apply release_shrinks | exact HS].
Qed.

(** A released attempt is no longer registered. *)
Lemma release_gone g a id :
  registry g -> g_attempts (releaseAttemptLocked g a) !! id <> Some a.
Proof.
  intros R Hin. pose proof (release_registry g a R) as R'.
  destruct (reg_attempt _ R' id a Hin) as (l' & _ & Hl' & Hc' & _).
  unfold releaseAttemptLocked in Hl'. destruct (g_aheap g !! a) as [l|] eqn:Hl.
  - destruct (al_closed l) eqn:Hc; [rewrite Hl in Hl'; congruence|].
    rewrite remove_aheap, lookup_alter_eq in Hl'.
    destruct (g_aheap (beginAttemptStoppingLocked g a) !! a); simplify_eq/=.
  - congruence.
Qed.

Lemma release_all_gone l g id a :
  registry g -> a ∈ l -> g_attempts (fold_left releaseAttemptLocked l g) !! id <> Some a.
Proof.
  revert g. induction l as [|b l IH]; intros g R Hin; [by apply not_elem_of_nil in Hin|].
  simpl. pose proof (release_registry g b R) as R1.
  apply elem_of_cons in Hin as [->|Hin]; [|by apply IH].
  destruct (release_all l _ R1) as [_ (_ & Hsub & _)]. intros Hc.
  by eapply (release_gone g b id R), lookup_weaken.
Qed.

Lemma stop_peer_registry g p :
  registry g -> registry (stop_peer g p) /\ shrinks g (stop_peer g p) /\
  forall pl', g_pheap (stop_peer g p) !! p = Some pl' ->
    pl_attempts pl' = ∅ /\ pl_closed pl' = true.
Proof.
  intros R. unfold stop_peer. destruct (g_pheap g !! p) as [pl|] eqn:Hp;
    [|split_and!; [done..|congruence]].
  set (l := snd <$> map_to_list (pl_attempts pl)).
  destruct (release_all l g R) as [R1 S1].
  assert (S2 : shrinks g (upd_peer p (set_pl_closed true) (fold_left releaseAttemptLocked l g))).
  { etrans; [exact S1|]. split_and!; [done..|]. intros q pl'. simpl.
    destruct (decide (q = p)) as [->|Hne].
    - rewrite lookup_alter_eq. destruct (g_pheap (fold_left _ _ _) !! p) as [ql|]; [|done].
      intros ?; simplify_eq/=. by exists ql.
    - rewrite lookup_alter_ne by done. intros ->. by exists pl'. }
  split_and!; [by apply close_peer_registry | exact S2 |].
  intros pl' Hpl'. split.
  2: { simpl in Hpl'. rewrite lookup_alter_eq in Hpl'.
       destruct (g_pheap (fold_left _ _ _) !! p); by simplify_eq/=. }
  apply map_empty. intros id.
  destruct (pl_attempts pl' !! id) as [a|] eqn:Ha; [|done]. exfalso.
  destruct S2 as (_ & _ & S2). destruct (S2 p pl' Hpl') as (pl0 & Hpl0 & Hsub & _).
  assert (pl0 = pl) as -> by congruence.
  pose proof (lookup_weaken _ _ _ _ Ha Hsub) as Hold.
  destruct (reg_peer_attempt _ (close_peer_registry p _ R1) p pl' id a Hpl' Ha) as [Hin _].
  eapply (release_all_gone l g id a R); [|exact Hin].
  apply list_elem_of_fmap. exists (id, a). split; [done|]. by apply elem_of_map_to_list.
Qed.

Lemma stop_peers_registry ps g :
  registry g -> let g' := fold_left stop_peer ps g in
  registry g' /\ shrinks g g' /\
  forall p pl', p ∈ ps -> g_pheap g' !! p = Some pl' ->
    pl_attempts pl' = ∅ /\ pl_closed pl' = true.
Proof.
  revert g. induction ps as [|q ps IH]; intros g R.
  - split_and!; [done..|]. by intros p pl' Hp%not_elem_of_nil.
  - simpl. destruct (stop_peer_registry g q R) as (R1 & S1 & E1).
    destruct (IH _ R1) as (R2 & S2 & E2). split_and!; [done|by etrans|].
    intros p pl' Hin Hp. apply elem_of_cons in Hin as [->|Hin]; [|by eapply E2].
    destruct S2 as (_ & _ & S2). destruct (S2 q pl' Hp) as (pl1 & Hp1 & Hsub & Hcl).
    destruct (E1 pl1 Hp1) as [Hemp ?]. rewrite Hemp in Hsub. split; [|by auto].
    apply map_empty. intros id. destruct (pl_attempts pl' !! id) eqn:Hid; [|done].
    by eapply lookup_weaken in Hid; [|exact Hsub].
Qed.

(** After the loop of [stopActiveLocked] nothing is active. *)
Lemma stop_peers_done g (ps := snd <$> map_to_list (g_peers g)) (g1 := fold_left stop_peer ps g) :
  registry g ->
  registry g1 /\ g_attempts g1 = ∅ /\
  forall p pl, g_pheap g1 !! p = Some pl -> pl_closed pl = true.
Proof.
  intros R. destruct (stop_peers_registry ps g R) as (R1 & (Hpeers & _ & _) & Hempty).
  fold g1 in R1, Hpeers, Hempty.
  assert (Hps : forall pid p, g_peers g1 !! pid = Some p -> p ∈ ps).
  { intros pid p Hp. rewrite Hpeers in Hp. apply list_elem_of_fmap. exists (pid, p).
    split; [done|]. by apply elem_of_map_to_list. }
  split_and!; [done| |].
  - apply map_empty. intros id. destruct (g_attempts g1 !! id) as [a|] eqn:Ha; [|done]. exfalso.
    destruct (reg_attempt g1 R1 id a Ha) as (l & pl & _ & _ & _ & Hpl & Hat & Hreg).
    destruct (Hempty (al_peer l) pl) as [He _]; [by eapply Hps|done|]. by rewrite He in Hat.
  - intros p pl Hp. apply not_false_iff_true. intros Hc.
    pose proof (reg_peer_open g1 R1 p pl Hp Hc) as Hreg.
    destruct (Hempty p pl) as [_ ?]; [by eapply Hps|done|congruence].
Qed.

Lemma stopActive_registry g : registry g -> registry (stopActiveLocked g).
Proof.
  intros R. destruct (stop_peers_done g R) as (R1 & Hnone & Hclosed). unfold stopActiveLocked.
  set (g1 := fold_left stop_peer _ g) in *.
  pose proof (reg_limits g1 R1) as Hlim.
  split; simpl; try apply R1; try done.
  - intros p pl id a Hp Hat. rewrite <-Hnone. by apply (reg_peer_attempt g1 R1 p pl).
  - intros a l Hl Hc. rewrite <-Hnone. by apply (reg_open g1 R1).
  - intros p pl Hp Hc. rewrite (Hclosed p pl Hp) in Hc. done.
  - unfold limits_ok in Hlim. rewrite map_size_empty. lia.
  - unfold limits_ok in Hlim. rewrite map_size_empty. lia.
Qed.

(** ** Every transition preserves the registry *)

(** A thread that finishes a peer's [Close] works on a closed peer. *)
Definition peer_threads (g : Governor) : Prop :=
  forall tid t p pl, g_drainThreads g !! tid = Some t -> dt_for t = ForPeer p ->
    g_pheap g !! p = Some pl -> pl_closed pl = true.

Lemma release_one_registry l st :
  registry st.1 -> registry (fold_left release_one l st).1.
Proof.
  revert st. induction l as [|a l IH]; intros [g result] R; [done|]. simpl.
  apply IH. simpl in R. destruct (g_aheap g !! a) as [la|]; [|done].
  destruct (al_closeErr la); simpl; apply release_registry; [done|].
  eapply registry_soft; [apply upd_lease_soft|done]. done.
Qed.

Lemma finish_peer_registry p g :
  registry g -> (forall pl, g_pheap g !! p = Some pl -> pl_closed pl = true) ->
  registry (finish_peer p g).
Proof.
  intros R Hc. unfold finish_peer. destruct (g_pheap g !! p) as [pl|] eqn:Hp; [|done].
  case_bool_decide as Hreg; [|done]. case_bool_decide as Hat; [|done]. simpl.
  by apply (delete_peer_registry p pl); auto.
Qed.

Lemma finish_trip_peers_registry l g :
  registry g -> NoDup (l.*1) -> (forall pid p, (pid, p) ∈ l -> g_peers g !! pid = Some p) ->
  registry (fold_left finish_trip_peer l g).
Proof.
  revert g. induction l as [|[pid p] l IH]; intros g R Hnd Hin; [done|]. simpl.
  apply NoDup_cons in Hnd as [Hnot Hnd].
  assert (Hp : g_peers g !! pid = Some p) by (apply Hin; left).
  destruct (reg_peer g R pid p Hp) as (pl & Hpl & Hid).
  assert (Hrest : forall q b, (q, b) ∈ l -> g_peers g !! q = Some b /\ q <> pid).
  { intros q b Hq. split; [apply Hin; by right|]. intros ->. apply Hnot.
    apply list_elem_of_fmap. by exists (pid, b). }
  rewrite Hpl. case_bool_decide as Hat.
  - apply IH; [|done|].
    + pose proof (close_peer_registry p g R) as R1.
      replace (delete pid (g_peers g)) with
        (delete (pl_peerID (set_pl_closed true pl))
           (g_peers (upd_peer p (set_pl_closed true) g))) by (simpl; by rewrite Hid).
      apply (delete_peer_registry p); simpl; [done| |done|done|by rewrite Hid].
      by rewrite lookup_alter_eq, Hpl.
    + intros q b Hq. simpl. apply Hrest in Hq as [Hq Hne]. by rewrite lookup_delete_ne.
  - apply IH; [done|done|]. intros q b Hq. by apply Hrest in Hq as [? _].
Qed.

Lemma finishSafetyTripDrain_registry g : registry g -> registry (finishSafetyTripDrain g).
Proof.
  intros R. unfold finishSafetyTripDrain.
  eapply (registry_soft (fold_left finish_trip_peer (map_to_list (g_peers g)) g)); [soft_fields|].
  apply finish_trip_peers_registry; [done|apply NoDup_fst_map_to_list|].
  intros pid p Hin. by apply elem_of_map_to_list in Hin.
Qed.

Lemma acquireAttempt_registry p ctx request loopback reply g :
  registry g -> registry (acquireAttempt p ctx request loopback reply g).1.
Proof.
  intros R. unfold acquireAttempt. destruct (g_pheap g !! p) as [pl|] eqn:Hp; [|done].
  destruct ctx as [[e|]|]; [done| |done].
  destruct (loopbackAdmissionBlockedLocked g); [done|]. case_match; [done|].
  destruct (ts_BlocksActiveWork (g_trip g)); [done|].
  destruct (g_closed g || g_closing g || pl_closed pl) eqn:Hc; [done|].
  destruct (validateAttemptLocked g pl request) as [e|] eqn:Hv.
  - destruct (acquire_trip_event g pl request e); [|done].
    pose proof (tripLocked_soft reply g) as Hs.
    destruct (tripLocked reply g) as [g' [st te]]. simpl in *. by eapply registry_soft.
  - simpl. apply (registry_install g p pl); [done|done| |by apply validateAttemptLocked_None].
    by destruct (pl_closed pl); [rewrite orb_true_r in Hc|].
Qed.

(** A soft change of the tail of a transition. *)
Ltac soft_step R := eapply registry_soft; [|exact R].

Lemma set_term_upd_soft a b ph f g :
  soft g (set_term a ph (upd_lease b (upd_terminal f) g)).
Proof.
  trans (upd_lease b (upd_terminal f) g); [apply upd_lease_soft, upd_terminal_key|].
  soft_fields.
Qed.

Lemma end_term_upd_soft a b f g : soft g (end_term a (upd_lease b (upd_terminal f) g)).
Proof.
  trans (upd_lease b (upd_terminal f) g); [apply upd_lease_soft, upd_terminal_key|].
  soft_fields.
Qed.

Lemma term_verdict_registry a e timedOut g :
  registry g -> registry (term_verdict a e timedOut g).
Proof.
  intros R. unfold term_verdict. destruct (lease_terminal g a) as [t|]; [|done].
  set (result := if timedOut then _ else _).
  set (g1 := if timedOut then _ else g).
  assert (R1 : registry g1) by (subst g1; destruct timedOut; [soft_step R; soft_fields|done]).
  set (g2 := upd_lease a _ g1).
  assert (R2 : registry g2) by (soft_step R1; by apply upd_lease_soft).
  destruct result.
  - soft_step R2. by apply set_term_upd_soft.
  - set (g3 := releaseAttemptLocked _ a).
    assert (R3 : registry g3) by (apply release_registry; soft_step R2; soft_fields).
    soft_step R3. by apply end_term_upd_soft.
Qed.

Section preserve.
Context {St : TripStore} {F : Sprintf}.

Lemma gstep_registry g g' : gstep g g' -> peer_threads g -> registry g -> registry g'.
Proof.
  intros Hstep PT R. destruct Hstep.
  - by apply acquirePeer_registry.
  - unfold PeerLease_Close. destruct (g_pheap g !! p) as [pl|]; [|done].
    destruct (pl_closed pl); [done|].
    eapply registry_soft; [|by apply (close_peer_registry p)].
    etrans; [apply begin_all_soft|apply spawn_drain_soft].
  - by apply acquireAttempt_registry.
  - unfold ClaimExclusive. repeat case_match; try done. soft_step R. by apply upd_lease_soft.
  - unfold registerDrain. repeat case_match; try done; soft_step R; by apply upd_lease_soft.
  - soft_step R. apply upd_lease_soft. intros. apply drain_complete_key.
  - unfold AttemptLease_Close. repeat case_match; try done; soft_step R;
      auto with winkyou. etrans; [apply begin_stopping_soft | apply spawn_drain_soft].
  - unfold AttemptLease_Trip. repeat case_match; try done. soft_step R. auto with winkyou.
  - unfold Governor_Trip. repeat case_match; try done. soft_step R. auto with winkyou.
  - unfold recordLoopbackFinishError. repeat case_match; try done. soft_step R.
    trans (upd_lease a (upd_terminal (set_lt_finishErr
      (errors_join [Some ErrTerminalFinalizationFailed; Some err]))) g);
      [apply upd_lease_soft, upd_terminal_key|]. soft_fields.
  - unfold Governor_Close. case_match; [done|]. soft_step R.
    etrans; [|apply spawn_drain_soft]. etrans; [|apply begin_all_soft]. soft_fields.
  - unfold refreshTrip. repeat case_match; try done. soft_step R.
    etrans; [apply set_trip_soft | apply trip_drain_soft].
  - soft_step R. etrans; [apply begin_all_soft | apply set_thread_soft].
  - unfold drain_stop_ordinary. case_match; soft_step R; auto with winkyou.
    etrans; [apply begin_all_soft | apply set_thread_soft].
  - soft_step R. apply set_thread_soft.
  - unfold drain_timed_out. destruct (timeout_pending a g); [|soft_step R; auto with winkyou].
    destruct (validateSafetyTripEvent _); [soft_step R; auto with winkyou|].
    pose proof (tripLocked_soft reply g) as Hs.
    destruct (tripLocked reply g) as [g' [st te]]. soft_step R.
    etrans; [exact Hs | apply set_thread_soft].
  - unfold drain_release. pose proof (release_one_registry (dt_ordinary t) (g, result) R) as R1.
    destruct (fold_left release_one (dt_ordinary t) (g, result)) as [g' r']. simpl in R1.
    soft_step R1. auto with winkyou.
  - soft_step R. etrans; [apply begin_stopping_soft | apply set_thread_soft].
  - soft_step R. auto with winkyou.
  - unfold drain_finish. destruct (dt_for t) eqn:Hfor.
    + soft_step R. auto with winkyou.
    + eapply registry_soft; [apply end_thread_soft|].
      apply finish_peer_registry; [done|]. intros pl Hpl. by eapply PT.
    + unfold finish_governor. case_match.
      * soft_step R. etrans; [|apply end_thread_soft]. soft_fields.
      * soft_step (stopActive_registry g R).
        etrans; [|apply set_thread_soft]. soft_fields.
    + eapply registry_soft; [apply end_thread_soft|]. by apply finishSafetyTripDrain_registry.
  - soft_step R. etrans; [|apply end_thread_soft]. soft_fields.
  - soft_step R. soft_fields.
  - unfold term_network_timeout. destruct (lease_terminal g a) as [t|]; [|done].
    destruct (negb (lt_networkClosed t)); [|soft_step R; soft_fields].
    pose proof (tripLocked_soft reply g) as Hs.
    destruct (tripLocked reply g) as [g' [st te]]. soft_step R.
    etrans; [exact Hs|]. soft_fields.
  - soft_step R. apply set_term_upd_soft.
  - soft_step R. soft_fields.
  - by apply term_verdict_registry.
  - soft_step R. apply end_term_upd_soft.
Qed.
End preserve.
