(* ===== verification/GovernorMicro.v ===== *)
(** * Elementary changes of the governor

    Every critical section is a sequence of the elementary changes [micro]:
    one lease, one peer, one thread or one loopback manager moves at a time.
    Facts about single leases, threads and managers are proved once per
    elementary change and then hold for every transition. *)
From S2P Require Import Prelude GoStd Limits SafetyTrip Governor GovernorSteps GovernorInv.

(** ** Changes of one lease *)

(** [lstep unusable l l']: what an operation that is not part of the loopback
    manager may do to a lease; [unusable] tells that new work is refused. *)
Inductive lstep (unusable : bool) (l : AttemptLease) : AttemptLease -> Prop :=
| ls_claim name :
    unusable = false -> name ∉ al_exclusiveClaims l ->
    lstep unusable l (set_al_exclusiveClaims ({[name]} ∪ al_exclusiveClaims l) l)
| ls_register id d :
    unusable = false -> Z.of_nat (size (al_drains l)) < maxAttemptDrainRegistrations ->
    lstep unusable l (set_al_drains (<[id := d]> (al_drains l)) (set_al_nextDrainID id l))
| ls_registered t :
    al_terminal l = Some t -> unusable = false ->
    lstep unusable l (upd_terminal (set_lt_accountingRegistered true) l)
| ls_complete id : lstep unusable l (drain_complete id l)
| ls_begin :
    al_closed l = false -> al_stoppingStarted l = false -> al_terminal l = None ->
    lstep unusable l (start_stopping l)
| ls_closeErr e : lstep unusable l (set_al_closeErr e l)
| ls_finishErr e : lstep unusable l (upd_terminal (set_lt_finishErr e) l)
| ls_result e : lstep unusable l (upd_terminal (set_lt_result e) l).

Definition put_lease (a : ptr) (l : AttemptLease) (g : Governor) : Governor :=
  set_g_aheap (<[a := l]> (g_aheap g)) g.

Lemma upd_lease_put a f l g : g_aheap g !! a = Some l -> upd_lease a f g = put_lease a (f l) g.
Proof.
  intros Hl. unfold upd_lease, put_lease. f_equal. apply map_eq. intros b.
  destruct (decide (b = a)) as [->|Hne].
  - by rewrite lookup_alter_eq, lookup_insert_eq, Hl.
  - by rewrite lookup_alter_ne, lookup_insert_ne.
Qed.

Lemma upd_lease_None a f g : g_aheap g !! a = None -> upd_lease a f g = g.
Proof.
  intros Hl. unfold upd_lease. rewrite alter_id by (intros x Hx; congruence). by destruct g.
Qed.

(** ** Changes of the governor *)

Inductive micro (g : Governor) : Governor -> Prop :=
| mu_misc closing closeErr started fault owner :
    (g_finalizationFault g <> None -> fault <> None) ->
    (owner = false -> g_ownerHeld g = true -> g_closed g = true) ->
    micro g (set_g_ownerHeld owner (set_g_finalizationFault fault
      (set_g_tripDrainStarted started (set_g_closeErr closeErr (set_g_closing closing g)))))
| mu_trip t :
    ts_BlocksActiveWork (g_trip g) = false -> micro g (set_g_trip t g)
| mu_lease a l l' :
    g_aheap g !! a = Some l -> lstep (lease_unusable g l) l l' -> micro g (put_lease a l' g)
| mu_begin a l t :
    g_aheap g !! a = Some l -> al_closed l = false -> al_stoppingStarted l = false ->
    al_terminal l = Some t ->
    micro g (set_g_terms (<[a := TNetwork]> (g_terms g))
      (set_g_loopbackFinalizing (g_loopbackFinalizing g + 1)
        (put_lease a (start_stopping l) g)))
| mu_remove a l :
    g_aheap g !! a = Some l -> al_closed l = false -> al_stoppingStarted l = true ->
    lease_settled l = true -> micro g (remove_attempt a l g)
| mu_install p pl request loopback :
    g_pheap g !! p = Some pl -> ts_BlocksActiveWork (g_trip g) = false ->
    g_closed g || g_closing g || pl_closed pl = false ->
    loopbackAdmissionBlockedLocked g = None ->
    validateAttemptLocked g pl request = None ->
    micro g (install_attempt p request loopback g)
| mu_add_peer peerID :
    g_closed g || g_closing g = false -> ts_BlocksActiveWork (g_trip g) = false ->
    loopbackAdmissionBlockedLocked g = None -> validateIdentifier "peer id" peerID = None ->
    micro g (set_g_next (S (g_next g)) (set_g_peers (<[peerID := g_next g]> (g_peers g))
      (set_g_pheap (<[g_next g := mkPeer peerID ∅ false]> (g_pheap g)) g)))
| mu_close_peer p : micro g (upd_peer p (set_pl_closed true) g)
| mu_del_peer peerID : micro g (set_g_peers (delete peerID (g_peers g)) g)
| mu_spawn who attempts :
    (forall p, who = ForPeer p -> exists pl, g_pheap g !! p = Some pl /\ pl_closed pl = true) ->
    (forall a, a ∈ attempts -> is_Some (g_aheap g !! a)) ->
    micro g (spawn_drain who attempts g)
| mu_thread tid t t' :
    g_drainThreads g !! tid = Some t -> dt_for t' = dt_for t ->
    (forall a, a ∈ dt_ordinary t' -> a ∈ dt_ordinary t) ->
    (forall e, dt_phase t' = DCloseOwner e -> g_closed g = true) ->
    micro g (set_thread tid t' g)
| mu_end_thread tid : micro g (end_thread tid g)
| mu_network a networkErr :
    g_terms g !! a = Some TNetwork ->
    (networkErr = None -> exists t, lease_terminal g a = Some t /\
      closed_chan (lt_networkDrained t) || lt_networkClosed t = true) ->
    micro g (set_term a (TNetworkDone networkErr) g)
| mu_network_done a networkErr :
    g_terms g !! a = Some (TNetworkDone networkErr) ->
    micro g (term_network_done a networkErr g)
| mu_accounting a t networkErr timedOut :
    g_terms g !! a = Some (TAccounting networkErr) -> lease_terminal g a = Some t ->
    closed_chan (lt_accountingDone t) = negb timedOut ->
    micro g (term_accounting a networkErr timedOut g)
| mu_verdict a networkErr timedOut :
    g_terms g !! a = Some (TVerdict networkErr timedOut) ->
    micro g (set_term a TSettle
      (upd_lease a (upd_terminal (fun t => set_lt_verdict (S (lt_verdict t)) t)) g))
| mu_finish a :
    g_terms g !! a = Some (TVerdict None false) ->
    micro g (end_term a (upd_lease a (upd_terminal (fun t =>
      set_lt_verdict (S (lt_verdict t)) (set_lt_settled (S (lt_settled t)) t)))
      (set_g_loopbackFinalizing (g_loopbackFinalizing g - 1) g)))
| mu_settle a l :
    g_terms g !! a = Some TSettle -> g_aheap g !! a = Some l ->
    closed_chan (al_drained l) = true -> micro g (term_settle a g)
| mu_close :
    g_attempts g = ∅ ->
    micro g (set_g_closed true (set_g_heavyweightAttempts 0
      (set_g_reserved resources_zero (set_g_attempts ∅ (set_g_peers ∅ g))))).

Abbreviation micros := (rtc micro).

Lemma micros_1 g g' : micro g g' -> micros g g'.
Proof. apply rtc_once. Qed.

(** ** Decomposition of the critical sections *)

Lemma misc_micros g g' :
  g' = set_g_ownerHeld (g_ownerHeld g') (set_g_finalizationFault (g_finalizationFault g')
    (set_g_tripDrainStarted (g_tripDrainStarted g') (set_g_closeErr (g_closeErr g')
      (set_g_closing (g_closing g') g)))) ->
  (g_finalizationFault g <> None -> g_finalizationFault g' <> None) ->
  (g_ownerHeld g' = false -> g_ownerHeld g = true -> g_closed g = true) -> micros g g'.
Proof. intros -> ? ?. by apply micros_1, mu_misc. Qed.

(** [g'] differs from [g] in flags only. *)
Ltac misc g := apply misc_micros; [destruct g; reflexivity | simpl; try done |
  simpl; try (intros; congruence)].

Lemma lease_micros a l l' g :
  g_aheap g !! a = Some l -> lstep (lease_unusable g l) l l' -> micros g (put_lease a l' g).
Proof. intros. by eapply micros_1, mu_lease. Qed.

Lemma begin_micros g a : micros g (beginAttemptStoppingLocked g a).
Proof.
  unfold beginAttemptStoppingLocked. destruct (g_aheap g !! a) as [l|] eqn:Hl; [|done].
  destruct (al_closed l || al_stoppingStarted l) eqn:Hc; [done|].
  apply orb_false_iff in Hc as [Hc Hs]. rewrite (upd_lease_put a _ l) by done.
  destruct (al_terminal l) as [t|] eqn:Ht.
  - apply micros_1. by apply (mu_begin g a l t).
  - apply (lease_micros a l); [done|]. by apply ls_begin.
Qed.

Lemma begin_all_micros l g : micros g (begin_all g l).
Proof.
  revert g. induction l as [|a l IH]; intros g; [done|]. simpl.
  etrans; [apply begin_micros | apply IH].
Qed.

Lemma spawn_micros who attempts g :
  (forall p, who <> ForPeer p) -> (forall a, a ∈ attempts -> is_Some (g_aheap g !! a)) ->
  micros g (spawn_drain who attempts g).
Proof. intros Hw Hin. apply micros_1, mu_spawn; [|done]. intros p ->. by destruct (Hw p). Qed.

(** The registered attempts exist. *)
Definition attempts_exist (g : Governor) : Prop :=
  forall a, a ∈ activeAttemptsLocked g -> is_Some (g_aheap g !! a).

Lemma soft_is_Some g g' a : soft g g' -> is_Some (g_aheap g !! a) -> is_Some (g_aheap g' !! a).
Proof.
  intros Hs [l Hl]. destruct (heap_soft_lookup_r _ _ a l (soft_heap _ _ Hs) Hl) as (l' & -> & _).
  by eexists.
Qed.

Lemma attempts_exist_soft g g' : soft g g' -> attempts_exist g -> attempts_exist g'.
Proof.
  intros Hs He a. unfold activeAttemptsLocked. rewrite (soft_attempts _ _ Hs). intros Ha.
  by apply (soft_is_Some g), He.
Qed.

Lemma registry_exist g : registry g -> attempts_exist g.
Proof.
  intros R a Ha. apply list_elem_of_fmap in Ha as ([id b] & -> & Hin).
  apply elem_of_map_to_list in Hin. destruct (reg_attempt g R id b Hin) as (l & _ & Hl & _).
  by exists l.
Qed.

Lemma thread_micros tid t t' g :
  g_drainThreads g !! tid = Some t -> dt_for t' = dt_for t ->
  (forall a, a ∈ dt_ordinary t' -> a ∈ dt_ordinary t) ->
  (forall e, dt_phase t' = DCloseOwner e -> g_closed g = true) -> micros g (set_thread tid t' g).
Proof. intros. by eapply micros_1, mu_thread. Qed.

Lemma trip_drain_micros g : attempts_exist g -> micros g (beginSafetyTripDrainLocked g).
Proof.
  intros He. unfold beginSafetyTripDrainLocked. destruct (_ || _); [apply begin_all_micros|].
  trans (begin_all g (activeAttemptsLocked g)); [apply begin_all_micros|].
  etrans; [|apply spawn_micros; [done|]].
  2: { intros a Ha. simpl. by eapply soft_is_Some; [apply begin_all_soft|apply He]. }
  generalize (begin_all g (activeAttemptsLocked g)). intros g1. misc g1.
Qed.

(** What stopping attempts leaves alone. *)
Record stop_frame (g g' : Governor) : Prop := {
  sf_trip : g_trip g' = g_trip g;
  sf_closed : g_closed g' = g_closed g;
  sf_closing : g_closing g' = g_closing g;
  sf_threads : g_drainThreads g' = g_drainThreads g;
  sf_pheap : g_pheap g' = g_pheap g;
}.

Lemma begin_frame g a : stop_frame g (beginAttemptStoppingLocked g a).
Proof.
  unfold beginAttemptStoppingLocked. destruct (g_aheap g !! a) as [l|]; [|done].
  destruct (_ || _); [done|]. by destruct (al_terminal l).
Qed.

Lemma begin_all_frame l g : stop_frame g (begin_all g l).
Proof.
  revert g. induction l as [|a l IH]; intros g; [done|]. simpl.
  destruct (begin_frame g a) as [? ? ? ? ?].
  destruct (IH (beginAttemptStoppingLocked g a)) as [? ? ? ? ?]. split; congruence.
Qed.

Lemma trip_drain_frame g :
  g_trip (beginSafetyTripDrainLocked g) = g_trip g /\
  g_closed (beginSafetyTripDrainLocked g) = g_closed g.
Proof.
  unfold beginSafetyTripDrainLocked.
  destruct (begin_all_frame (activeAttemptsLocked g) g). by destruct (_ || _).
Qed.

Lemma tripLocked_micros reply g : attempts_exist g -> micros g (tripLocked reply g).1.
Proof.
  intros He. unfold tripLocked. destruct (g_closed g) eqn:Hc; [done|].
  destruct (ts_BlocksActiveWork (g_trip g)) eqn:Hb; [by apply trip_drain_micros|].
  destruct reply as [[status err] called].
  set (g1 := if called then beginSafetyTripDrainLocked g else g).
  assert (H1 : micros g g1) by (destruct called; [by apply trip_drain_micros|done]).
  assert (He1 : attempts_exist g1).
  { destruct called; [|done]. by eapply attempts_exist_soft; [apply trip_drain_soft|]. }
  assert (g_trip g1 = g_trip g /\ g_closed g1 = g_closed g) as [Ht1 Hc1].
  { destruct called; [apply trip_drain_frame|done]. }
  etrans; [exact H1|].
  assert (H2 : micros g1 (set_g_trip status g1)) by (apply micros_1, mu_trip; congruence).
  destruct (ts_BlocksActiveWork status) eqn:Hs; simpl;
    (etrans; [exact H2|]); [by apply trip_drain_micros|].
  etrans; [|by apply trip_drain_micros].
  apply micros_1, mu_trip; simpl; congruence.
Qed.

(** ** Releasing *)

(** An attempt whose release is a sequence of elementary changes: an ordinary
    one, or one whose loopback manager has settled. *)
Definition releasable (g : Governor) (a : ptr) : Prop :=
  forall l, g_aheap g !! a = Some l -> al_closed l = false ->
    al_terminal l = None \/ (al_stoppingStarted l = true /\ lease_settled l = true).

Lemma start_stopping_terminal l :
  al_terminal l = None -> al_terminal (start_stopping l) = None.
Proof.
  intros Ht. unfold start_stopping, maybeCloseLoopbackNetworkLocked, closeAttemptDrainedLocked.
  simpl. case_bool_decide; simpl; [destruct (al_drainedClosed l); simpl|]; by rewrite Ht.
Qed.

Lemma remove_attempt_key a l l' g :
  same_key l l' -> remove_attempt a l g = remove_attempt a l' g.
Proof. intros (Hp & Hr & _). unfold remove_attempt. by rewrite Hp, Hr. Qed.

Lemma start_stopping_started l : al_stoppingStarted (start_stopping l) = true.
Proof.
  unfold start_stopping, maybeCloseLoopbackNetworkLocked, closeAttemptDrainedLocked.
  simpl. case_bool_decide; simpl; [destruct (al_drainedClosed l); simpl|];
    destruct (al_terminal l); done.
Qed.

Lemma release_micros g a : releasable g a -> micros g (releaseAttemptLocked g a).
Proof.
  intros Hr. unfold releaseAttemptLocked. destruct (g_aheap g !! a) as [l|] eqn:Hl; [|done].
  destruct (al_closed l) eqn:Hc; [done|].
  etrans; [apply (begin_micros g a)|]. unfold beginAttemptStoppingLocked.
  rewrite Hl, Hc. simpl. destruct (al_stoppingStarted l) eqn:Hs.
  - apply micros_1, mu_remove; [done..|]. destruct (Hr l Hl Hc) as [Ht|[_ ?]]; [|done].
    unfold lease_settled. by rewrite Ht.
  - destruct (Hr l Hl Hc) as [Ht|[? _]]; [|congruence]. rewrite Ht.
    rewrite (upd_lease_put a _ l) by done.
    pose proof (start_stopping_key l) as Hk. rewrite (remove_attempt_key _ _ _ _ Hk).
    apply micros_1, mu_remove.
    + apply lookup_insert_eq.
    + destruct Hk as (_ & _ & <-). done.
    + apply start_stopping_started.
    + unfold lease_settled. by rewrite start_stopping_terminal.
Qed.

Lemma release_other g a b :
  a <> b -> g_aheap (releaseAttemptLocked g a) !! b = g_aheap g !! b.
Proof.
  intros Hne. unfold releaseAttemptLocked, beginAttemptStoppingLocked.
  destruct (g_aheap g !! a) as [l|] eqn:Hl; [|done]. destruct (al_closed l); [done|].
  unfold remove_attempt. simpl.
  destruct (al_stoppingStarted l), (al_terminal l), (cost_Heavyweight _); simpl;
    rewrite !lookup_alter_ne by done; done.
Qed.

Lemma release_closed g a l :
  g_aheap (releaseAttemptLocked g a) !! a = Some l -> al_closed l = true.
Proof.
  unfold releaseAttemptLocked. destruct (g_aheap g !! a) as [l0|] eqn:Hl; [|congruence].
  destruct (al_closed l0) eqn:Hc; [congruence|]. unfold remove_attempt. simpl.
  destruct (cost_Heavyweight _); simpl; rewrite lookup_alter_eq;
    destruct (g_aheap (beginAttemptStoppingLocked g a) !! a); intros; by simplify_eq/=.
Qed.

Lemma releasable_release g a b : releasable g b -> releasable (releaseAttemptLocked g a) b.
Proof.
  intros Hr l Hl Hc. destruct (decide (a = b)) as [->|Hne].
  - apply release_closed in Hl. congruence.
  - rewrite release_other in Hl by done. by apply Hr.
Qed.

Lemma release_all_micros l g :
  (forall a, a ∈ l -> releasable g a) ->
  micros g (fold_left releaseAttemptLocked l g) /\
  forall b, releasable g b -> releasable (fold_left releaseAttemptLocked l g) b.
Proof.
  revert g. induction l as [|a l IH]; intros g Hr; [done|]. simpl.
  destruct (IH (releaseAttemptLocked g a)) as [Hm Hk].
  { intros b Hb. apply releasable_release, Hr. by right. }
  split; [|intros b Hb; by apply Hk, releasable_release].
  etrans; [apply release_micros, Hr; by left | exact Hm].
Qed.

(** ** Decomposition of every transition *)

(** The attempts that [drainOrdinaryAttempts] handles have no manager. *)
Definition ordinary_threads (g : Governor) : Prop :=
  forall tid t a l, g_drainThreads g !! tid = Some t -> a ∈ dt_ordinary t ->
    g_aheap g !! a = Some l -> al_terminal l = None.

Definition settled_stopping (g : Governor) : Prop :=
  forall a l t, g_aheap g !! a = Some l -> al_terminal l = Some t ->
    closed_chan (lt_settled t) = true -> al_stoppingStarted l = true.

Lemma release_threads g a : g_drainThreads (releaseAttemptLocked g a) = g_drainThreads g.
Proof.
  unfold releaseAttemptLocked. destruct (g_aheap g !! a) as [l|]; [|done].
  destruct (al_closed l); [done|]. unfold remove_attempt.
  destruct (begin_frame g a). by destruct (cost_Heavyweight _).
Qed.

Lemma release_all_threads l g :
  g_drainThreads (fold_left releaseAttemptLocked l g) = g_drainThreads g.
Proof.
  revert g. induction l as [|a l IH]; intros g; [done|]. simpl.
  by rewrite IH, release_threads.
Qed.

Lemma release_one_micros l st :
  (forall a, a ∈ l -> releasable st.1 a) ->
  micros st.1 (fold_left release_one l st).1 /\
  g_drainThreads (fold_left release_one l st).1 = g_drainThreads st.1.
Proof.
  revert st. induction l as [|a l IH]; intros [g result] Hr; [done|]. simpl.
  destruct (g_aheap g !! a) as [la|] eqn:Ha.
  2: { destruct (IH (g, result)); [|done]. intros b Hb. apply Hr. by right. }
  set (g1 := match al_closeErr la with
             | None => upd_lease a (set_al_closeErr result) g | Some _ => g end).
  assert (Hm1 : micros g g1 /\ g_drainThreads g1 = g_drainThreads g).
  { unfold g1. destruct (al_closeErr la); [done|]. split; [|done].
    rewrite (upd_lease_put a _ la) by done. eapply lease_micros; [done|]. apply ls_closeErr. }
  assert (Hr1 : forall b, b ∈ a :: l -> releasable g1 b).
  { intros b Hb k Hk Hc. specialize (Hr b Hb). simpl in Hr. unfold g1 in Hk.
    destruct (al_closeErr la); [by apply Hr|]. rewrite (upd_lease_put a _ la) in Hk by done.
    simpl in Hk. destruct (decide (b = a)) as [->|Hne].
    - rewrite lookup_insert_eq in Hk. simplify_eq/=. by apply (Hr la).
    - rewrite lookup_insert_ne in Hk by done. by apply (Hr k). }
  assert (exists r, (match al_closeErr la with
    | None => (releaseAttemptLocked (upd_lease a (set_al_closeErr result) g) a, result)
    | Some e => (releaseAttemptLocked g a, errors_join [result; Some e]) end)
    = (releaseAttemptLocked g1 a, r)) as [r ->].
  { unfold g1. destruct (al_closeErr la); by eexists. }
  destruct (IH (releaseAttemptLocked g1 a, r)) as [Hm Ht]; simpl in *.
  { intros b Hb. apply releasable_release, Hr1. by right. }
  destruct Hm1 as [Hm1 Ht1]. split; [|by rewrite Ht, release_threads].
  etrans; [exact Hm1|]. etrans; [apply release_micros, Hr1; by left | exact Hm].
Qed.

Lemma stop_peers_micros ps g :
  (forall p pl id a, g_pheap g !! p = Some pl -> pl_attempts pl !! id = Some a ->
    releasable g a) ->
  registry g ->
  micros g (fold_left stop_peer ps g) /\
  g_drainThreads (fold_left stop_peer ps g) = g_drainThreads g.
Proof.
  revert g. induction ps as [|p ps IH]; intros g Hr R; [done|]. simpl.
  destruct (stop_peer_registry g p R) as (R1 & (_ & _ & S1) & _).
  assert (Hm : micros g (stop_peer g p) /\
    (forall b, releasable g b -> releasable (stop_peer g p) b) /\
    g_drainThreads (stop_peer g p) = g_drainThreads g).
  { unfold stop_peer. destruct (g_pheap g !! p) as [pl|] eqn:Hp; [|done].
    destruct (release_all_micros (snd <$> map_to_list (pl_attempts pl)) g) as [Hm Hk].
    { intros a Ha. apply list_elem_of_fmap in Ha as ([id b] & -> & Hin).
      apply elem_of_map_to_list in Hin. by apply (Hr p pl id). }
    split_and!; [|done|by rewrite <-(release_all_threads (snd <$> map_to_list (pl_attempts pl)) g)].
    etrans; [exact Hm|]. apply micros_1, mu_close_peer. }
  destruct Hm as (Hm & Hk & Ht).
  destruct (IH (stop_peer g p)) as [Hm2 Ht2]; [|done|].
  { intros q ql id a Hq Ha. destruct (S1 q ql Hq) as (q0 & Hq0 & Hsub & _).
    apply Hk, (Hr q q0 id); [done|]. by eapply lookup_weaken. }
  split; [by etrans|congruence].
Qed.

Lemma finish_trip_peers_micros l g : micros g (fold_left finish_trip_peer l g).
Proof.
  revert g. induction l as [|[peerID p] l IH]; intros g; [done|].
  etrans; [|apply (IH (finish_trip_peer g (peerID, p)))]. simpl.
  destruct (g_pheap g !! p) as [pl|]; [|done]. case_bool_decide; [|done].
  etrans; [apply micros_1, (mu_close_peer g p)|].
  exact (micros_1 _ _ (mu_del_peer (upd_peer p (set_pl_closed true) g) peerID)).
Qed.

Lemma outstanding_releasable g :
  settled_stopping g -> registry g -> loopbackWorkOutstandingLocked g = false ->
  forall p pl id a, g_pheap g !! p = Some pl -> pl_attempts pl !! id = Some a -> releasable g a.
Proof.
  intros Hss R Hout p pl id a Hp Ha l Hl Hc.
  destruct (reg_peer_attempt g R p pl id a Hp Ha) as [Hin _].
  destruct (al_terminal l) as [t|] eqn:Ht; [right|by left].
  assert (Hset : lease_settled l = true).
  { apply not_false_iff_true. intros Hf. unfold loopbackWorkOutstandingLocked in Hout.
    rewrite <-not_true_iff_false in Hout. apply Hout, existsb_exists. exists (id, a).
    rewrite Hl, Hf. split; [|done].
    apply list_elem_of_In, elem_of_map_to_list, Hin. }
  split; [|done]. unfold lease_settled in Hset. rewrite Ht in Hset. by eapply Hss.
Qed.

Lemma finish_governor_micros tid t result g :
  settled_stopping g -> registry g -> g_drainThreads g !! tid = Some t ->
  micros g (finish_governor tid t result g).
Proof.
  intros Hss R Ht. unfold finish_governor.
  destruct (loopbackWorkOutstandingLocked g) eqn:Hout.
  - etrans; [|apply micros_1, mu_end_thread]. misc g.
  - destruct (stop_peers_done g R) as (_ & Hnone & _).
    destruct (stop_peers_micros (snd <$> map_to_list (g_peers g)) g) as [Hm Hth].
    { by apply outstanding_releasable. }
    { done. }
    unfold stopActiveLocked. set (g1 := fold_left stop_peer _ g) in *.
    etrans; [exact Hm|]. etrans; [by apply micros_1, mu_close|].
    eapply thread_micros; simpl; [by rewrite Hth|done..].
Qed.

(** The successful end of the manager: the release commutes with the
    publication of the verdict. *)
Lemma release_publish a l f g :
  g_aheap g !! a = Some l -> al_closed l = false -> al_stoppingStarted l = true ->
  end_term a (upd_lease a (upd_terminal f)
    (releaseAttemptLocked (set_g_loopbackFinalizing (g_loopbackFinalizing g - 1) g) a)) =
  releaseAttemptLocked (end_term a (upd_lease a (upd_terminal f)
    (set_g_loopbackFinalizing (g_loopbackFinalizing g - 1) g))) a.
Proof.
  intros Hl Hc Hs. unfold releaseAttemptLocked, beginAttemptStoppingLocked. simpl.
  rewrite lookup_alter_eq, Hl. simpl. rewrite Hc, Hs. simpl. unfold remove_attempt. simpl.
  destruct (cost_Heavyweight _); unfold end_term, upd_lease, set_g_terms, set_g_aheap; simpl;
    rewrite !alter_alter_eq; reflexivity.
Qed.

Lemma term_verdict_micros a networkErr timedOut l g :
  g_terms g !! a = Some (TVerdict networkErr timedOut) -> g_aheap g !! a = Some l ->
  al_closed l = false -> al_stoppingStarted l = true ->
  micros g (term_verdict a networkErr timedOut g).
Proof.
  intros Hph Hl Hc Hs. unfold term_verdict, lease_terminal. rewrite Hl.
  destruct (al_terminal l) as [t|] eqn:Ht; [|done].
  set (r0 := errors_join [networkErr; lt_finishErr t]).
  set (result := if timedOut then _ else r0).
  set (g1 := if timedOut then _ else g).
  assert (H1 : micros g g1).
  { unfold g1. destruct timedOut; [|done]. misc g. intros _ Hj%errors_join_None.
    by apply Forall_cons in Hj as [_ [? _]%Forall_cons]. }
  assert (Hl1 : g_aheap g1 !! a = Some l) by (unfold g1; by destruct timedOut).
  assert (Hp1 : g_terms g1 !! a = Some (TVerdict networkErr timedOut))
    by (unfold g1; by destruct timedOut).
  set (l2 := set_al_closeErr result (upd_terminal (set_lt_result result) l)).
  rewrite (upd_lease_put a _ l g1) by done. fold l2.
  etrans; [exact H1|].
  trans (put_lease a l2 g1).
  { etrans; [by eapply (lease_micros a l), (ls_result _ _ result)|].
    assert (put_lease a l2 g1 = put_lease a l2 (put_lease a (upd_terminal (set_lt_result result) l) g1))
      as -> by (unfold put_lease; simpl; by rewrite insert_insert_eq).
    eapply (lease_micros a); [apply lookup_insert_eq|]. apply ls_closeErr. }
  destruct result as [e|] eqn:Hres.
  - by eapply micros_1, mu_verdict.
  - assert (networkErr = None /\ timedOut = false) as [-> ->].
    { subst result r0. destruct timedOut; apply errors_join_None in Hres;
        apply Forall_cons in Hres as [? Hres]; [|done].
      by apply Forall_cons in Hres as [? _]. }
    rewrite (release_publish a l2); [|apply lookup_insert_eq|done|done].
    etrans; [by apply micros_1, mu_finish|].
    apply release_micros. intros k Hk _. right. simpl in Hk.
    rewrite lookup_alter_eq, lookup_insert_eq in Hk. simplify_eq/=.
    split; [done|]. unfold lease_settled. simpl. by rewrite Ht.
Qed.

Lemma insert_by_id_elem g a l b : b ∈ insert_by_id g a l <-> b = a \/ b ∈ l.
Proof.
  induction l as [|c l IH]; simpl; [set_solver|].
  destruct (String.ltb _ _); set_solver.
Qed.

Lemma sort_by_id_elem g l a : a ∈ sort_by_id g l <-> a ∈ l.
Proof.
  induction l as [|b l IH]; simpl; [done|]. rewrite insert_by_id_elem. set_solver.
Qed.

(** Thread identifiers are fresh, so a trip never overwrites a thread. *)
Definition fresh_threads (g : Governor) : Prop :=
  forall tid, (g_next g <= tid)%nat -> g_drainThreads g !! tid = None.

Lemma begin_next g a : g_next (beginAttemptStoppingLocked g a) = g_next g.
Proof.
  unfold beginAttemptStoppingLocked. destruct (g_aheap g !! a) as [l|]; [|done].
  destruct (_ || _); [done|]. by destruct (al_terminal l).
Qed.

Lemma begin_all_next l g : g_next (begin_all g l) = g_next g.
Proof.
  revert g. induction l as [|a l IH]; intros g; [done|]. simpl.
  change (g_next (begin_all (beginAttemptStoppingLocked g a) l) = g_next g).
  by rewrite IH, begin_next.
Qed.

Lemma trip_drain_threads g :
  fresh_threads g ->
  fresh_threads (beginSafetyTripDrainLocked g) /\
  g_drainThreads g ⊆ g_drainThreads (beginSafetyTripDrainLocked g).
Proof.
  intros Hf. unfold beginSafetyTripDrainLocked, fresh_threads in *.
  pose proof (begin_all_next (activeAttemptsLocked g) g) as Hn.
  pose proof (sf_threads _ _ (begin_all_frame (activeAttemptsLocked g) g)) as Ht.
  destruct (_ || _); simpl; rewrite ?Ht, ?Hn; [done|]. split.
  - intros tid Htid. rewrite lookup_insert_ne by lia. apply Hf. lia.
  - apply insert_subseteq, Hf. lia.
Qed.

Lemma tripLocked_threads reply g tid t :
  fresh_threads g -> g_drainThreads g !! tid = Some t ->
  g_drainThreads (tripLocked reply g).1 !! tid = Some t.
Proof.
  intros Hf Ht. unfold tripLocked. destruct (g_closed g); [done|].
  destruct (trip_drain_threads g Hf) as [Hf1 Hs1].
  destruct (ts_BlocksActiveWork (g_trip g)); [by eapply lookup_weaken|].
  destruct reply as [[status err] called].
  set (g1 := if called then beginSafetyTripDrainLocked g else g).
  assert (Hg1 : fresh_threads g1 /\ g_drainThreads g1 !! tid = Some t).
  { unfold g1. destruct called; [|done]. split; [done|]. by eapply lookup_weaken. }
  destruct Hg1 as [Hf2 Ht2]. destruct (ts_BlocksActiveWork status); simpl;
    eapply lookup_weaken; try apply trip_drain_threads; done.
Qed.

Lemma begin_all_terms l g a :
  g_terms g !! a = Some TNetwork -> g_terms (begin_all g l) !! a = Some TNetwork.
Proof.
  revert g. induction l as [|b l IH]; intros g Hg; [done|]. simpl. apply IH.
  unfold beginAttemptStoppingLocked. destruct (g_aheap g !! b) as [lb|]; [|done].
  destruct (_ || _); [done|]. destruct (al_terminal lb); [|done]. simpl.
  destruct (decide (a = b)) as [->|Hne]; [apply lookup_insert_eq | by rewrite lookup_insert_ne].
Qed.

Lemma trip_drain_terms g a :
  g_terms g !! a = Some TNetwork -> g_terms (beginSafetyTripDrainLocked g) !! a = Some TNetwork.
Proof.
  intros Hg. unfold beginSafetyTripDrainLocked.
  destruct (_ || _); simpl; by apply begin_all_terms.
Qed.

Lemma tripLocked_terms reply g a :
  g_terms g !! a = Some TNetwork -> g_terms (tripLocked reply g).1 !! a = Some TNetwork.
Proof.
  intros Hg. unfold tripLocked. destruct (g_closed g); [done|].
  destruct (ts_BlocksActiveWork (g_trip g)); [by apply trip_drain_terms|].
  destruct reply as [[status err] called].
  destruct (ts_BlocksActiveWork status), called; simpl; apply trip_drain_terms; simpl;
    try apply trip_drain_terms; done.
Qed.

Section decompose.
Context {St : TripStore} {F : Sprintf}.

(** The manager that is about to publish its verdict owns an open lease. *)
Definition verdict_open (g : Governor) : Prop :=
  forall a l networkErr timedOut, g_terms g !! a = Some (TVerdict networkErr timedOut) ->
    g_aheap g !! a = Some l -> al_closed l = false /\ al_stoppingStarted l = true.

(** A thread that closes the owner runs after the governor has closed. *)
Definition owner_threads (g : Governor) : Prop :=
  forall tid t e, g_drainThreads g !! tid = Some t -> dt_phase t = DCloseOwner e ->
    g_closed g = true.

Lemma registerDrain_micros a name accounting g :
  micros g (registerDrain a name accounting g).1.
Proof.
  unfold registerDrain. destruct (g_aheap g !! a) as [l|] eqn:Hl; [|done].
  destruct (validateIdentifier _ _); [done|].
  destruct (lease_unusable g l) eqn:Hu; [done|].
  destruct (accounting && _) eqn:Hacc; [done|].
  destruct (Z.leb_spec maxAttemptDrainRegistrations (Z.of_nat (size (al_drains l)))); [done|].
  simpl. rewrite (upd_lease_put a _ l) by done.
  set (id := u64_add (al_nextDrainID l) 1).
  set (l1 := set_al_drains (<[id:=mkDrain name accounting]> (al_drains l))
               (set_al_nextDrainID id l)).
  assert (H1 : micros g (put_lease a l1 g)).
  { eapply lease_micros; [done|]. rewrite Hu. by apply ls_register. }
  destruct accounting; [|done]. etrans; [exact H1|].
  destruct (al_terminal l) as [t|] eqn:Ht; [|done].
  assert (put_lease a (upd_terminal (set_lt_accountingRegistered true) l1) g =
    put_lease a (upd_terminal (set_lt_accountingRegistered true) l1) (put_lease a l1 g)) as ->
    by (unfold put_lease; simpl; by rewrite insert_insert_eq).
  eapply (lease_micros a l1); [apply lookup_insert_eq|]. by eapply (ls_registered _ l1 t).
Qed.

Lemma gstep_micros g g' :
  gstep g g' -> ordinary_threads g -> settled_stopping g -> verdict_open g ->
  fresh_threads g -> owner_threads g -> registry g -> micros g g'.
Proof.
  intros Hstep Hord Hss Hvo Hfr Hco R. destruct Hstep.
  - unfold AcquirePeer. destruct (validateIdentifier _ _) eqn:?; [done|].
    destruct (g_closed g || g_closing g) eqn:?; [done|].
    destruct (loopbackAdmissionBlockedLocked g) eqn:?; [done|].
    destruct (ts_BlocksActiveWork (g_trip g)) eqn:?; [done|].
    destruct (g_peers g !! peerID); [done|]. destruct (_ <=? _); [done|].
    by apply micros_1, mu_add_peer.
  - unfold PeerLease_Close. destruct (g_pheap g !! p) as [pl|] eqn:Hp; [|done].
    destruct (pl_closed pl); [done|].
    etrans; [apply micros_1, (mu_close_peer g p)|].
    etrans; [apply (begin_all_micros (snd <$> map_to_list (pl_attempts pl)))|].
    apply micros_1, mu_spawn.
    2: { intros a Ha. eapply soft_is_Some; [apply begin_all_soft|]. simpl.
         apply list_elem_of_fmap in Ha as ([id b] & -> & Hin).
         apply elem_of_map_to_list in Hin.
         destruct (reg_peer_attempt g R p pl id b Hp Hin) as (_ & l & Hl & _). by exists l. }
    intros q [= <-]. exists (set_pl_closed true pl). split; [|done].
    rewrite (sf_pheap _ _ (begin_all_frame _ _)). simpl. by rewrite lookup_alter_eq, Hp.
  - unfold acquireAttempt. destruct (g_pheap g !! p) as [pl|] eqn:Hp; [|done].
    destruct ctx as [[?|]|]; [done| |done].
    destruct (loopbackAdmissionBlockedLocked g) eqn:?; [done|].
    destruct (loopback && _); [done|].
    destruct (ts_BlocksActiveWork (g_trip g)) eqn:?; [done|].
    destruct (g_closed g || g_closing g || pl_closed pl) eqn:?; [done|].
    destruct (validateAttemptLocked g pl request) as [e|] eqn:Hv.
    + destruct (acquire_trip_event g pl request e); [|done].
      pose proof (tripLocked_micros reply g (registry_exist g R)) as Hm.
      by destruct (tripLocked reply g) as [g' [st te]].
    + by eapply micros_1, mu_install.
  - unfold ClaimExclusive. destruct (g_aheap g !! a) as [l|] eqn:Hl; [|done].
    destruct (validateIdentifier _ _); [done|].
    destruct (lease_unusable g l) eqn:Hu; [done|]. case_bool_decide; [done|].
    simpl. rewrite (upd_lease_put a _ l) by done.
    eapply lease_micros; [done|]. rewrite Hu. by apply ls_claim.
  - apply registerDrain_micros.
  - unfold Complete. destruct (g_aheap g !! a) as [l|] eqn:Hl.
    + rewrite (upd_lease_put a _ l) by done. eapply lease_micros; [done|]. apply ls_complete.
    + by rewrite upd_lease_None.
  - unfold AttemptLease_Close. destruct (g_aheap g !! a) as [l|] eqn:Hl; [|done].
    destruct (al_terminal l); [apply begin_micros|]. destruct (_ || _); [done|].
    etrans; [apply (begin_micros g a)|]. apply spawn_micros; [done|].
    intros b ->%list_elem_of_singleton. eapply soft_is_Some; [apply begin_stopping_soft|]. by exists l.
  - unfold AttemptLease_Trip. destruct (g_aheap g !! a) as [l|]; [|done].
    destruct (validateSafetyTripEvent _); [done|]. destruct (_ || _); [done|].
    by apply tripLocked_micros, registry_exist.
  - unfold Governor_Trip. destruct (validateSafetyTripEvent _); [done|].
    by apply tripLocked_micros, registry_exist.
  - unfold recordLoopbackFinishError. destruct (g_aheap g !! a) as [l|] eqn:Hl; [|done].
    destruct (al_terminal l) as [t|] eqn:Ht; [|done].
    set (e := errors_join [_; Some err]). rewrite (upd_lease_put a _ l) by done.
    etrans; [eapply (lease_micros a l); [done|apply (ls_finishErr _ _ e)]|].
    generalize (put_lease a (upd_terminal (set_lt_finishErr e) l) g). intros g1. misc g1.
    intros Hf Hj%errors_join_None. by apply Forall_cons in Hj as [? _].
  - unfold Governor_Close. destruct (_ || _); [done|].
    trans (set_g_closing true g); [misc g|].
    etrans; [apply (begin_all_micros (activeAttemptsLocked (set_g_closing true g)))|].
    apply spawn_micros; [done|]. intros a Ha.
    by eapply soft_is_Some; [apply begin_all_soft | apply (registry_exist g R)].
  - unfold refreshTrip. destruct (ts_BlocksActiveWork (g_trip g)) eqn:Hb; [done|].
    destruct (ts_BlocksActiveWork fresh); [|done].
    etrans; [by apply micros_1, (mu_trip g fresh)|].
    apply trip_drain_micros. apply (registry_exist g R).
  - etrans; [apply begin_all_micros|].
    eapply thread_micros; [by rewrite (sf_threads _ _ (begin_all_frame _ _))|done..].
  - unfold drain_stop_ordinary. case_bool_decide; [by eapply thread_micros|].
    etrans; [apply begin_all_micros|].
    eapply thread_micros; [by rewrite (sf_threads _ _ (begin_all_frame _ _))|done| |done].
    simpl. intros a. by rewrite sort_by_id_elem.
  - eapply thread_micros; [done..|]. simpl. by destruct timedOut.
  - unfold drain_timed_out. destruct (timeout_pending a g); [|by eapply thread_micros].
    destruct (validateSafetyTripEvent _); [by eapply thread_micros|].
    pose proof (tripLocked_micros reply g (registry_exist g R)) as Hm.
    pose proof (tripLocked_threads reply g tid t Hfr) as Ht.
    destruct (tripLocked reply g) as [g' [st te]]. simpl in *.
    etrans; [exact Hm|]. by eapply thread_micros; [apply Ht|..].
  - unfold drain_release. destruct (release_one_micros (dt_ordinary t) (g, result)) as [Hm Ht].
    { intros a Ha l Hl _. left. by eapply Hord. }
    destruct (fold_left release_one _ _) as [g' r']. simpl in *.
    etrans; [exact Hm|]. eapply thread_micros; [by rewrite Ht|done..].
  - unfold drain_phased. etrans; [apply (begin_micros g a)|].
    eapply thread_micros; [by rewrite (sf_threads _ _ (begin_frame _ _))|done..].
  - by eapply thread_micros.
  - unfold drain_finish. destruct (dt_for t).
    + apply micros_1, mu_end_thread.
    + etrans; [|apply micros_1, mu_end_thread]. unfold finish_peer.
      destruct (g_pheap g !! p); [|done]. destruct (_ && _); [|done].
      apply micros_1, mu_del_peer.
    + by apply finish_governor_micros.
    + etrans; [|apply micros_1, mu_end_thread]. unfold finishSafetyTripDrain.
      etrans; [apply (finish_trip_peers_micros (map_to_list (g_peers g)))|].
      generalize (fold_left finish_trip_peer (map_to_list (g_peers g)) g). intros g1. misc g1.
  - unfold finish_close_owner. etrans; [|apply micros_1, mu_end_thread]. misc g.
    intros. by eapply Hco.
  - apply micros_1, mu_network; [done|]. intros _. exists t. by rewrite H1.
  - unfold term_network_timeout. destruct (lease_terminal g a) as [t|] eqn:Ht; [|done].
    destruct (lt_networkClosed t) eqn:Hn; simpl.
    { apply micros_1, mu_network; [done|]. intros _. exists t. by rewrite Hn, orb_true_r. }
    pose proof (tripLocked_micros reply g (registry_exist g R)) as Hm.
    pose proof (tripLocked_terms reply g a) as Hterm.
    destruct (tripLocked reply g) as [g' [st te]]. simpl in *.
    etrans; [exact Hm|]. apply micros_1, mu_network; [by apply Hterm|].
    intros Hj%errors_join_None. by apply Forall_cons in Hj as [? _].
  - by apply micros_1, mu_network_done.
  - by eapply micros_1, mu_accounting.
  - destruct (g_aheap g !! a) as [l|] eqn:Hl.
    + destruct (Hvo a l networkErr timedOut) as [? ?]; [done..|].
      by apply (term_verdict_micros a networkErr timedOut l).
    + unfold term_verdict, lease_terminal. by rewrite Hl.
  - by eapply micros_1, mu_settle.
Qed.
End decompose.
