(* ===== verification/GovernorLocal.v ===== *)
(** * Lease, thread and manager invariants of the governor

    [lease_ok] is the state of one lease: every channel has been closed exactly
    as often as its flag says, [drained] is closed exactly when the lease is
    stopping with no registered drain left, and the two loopback channels
    follow the two kinds of drains.  [phase_ok] ties a loopback lease to the
    position of its manager.  All of it is preserved by [micro], hence by every
    transition. *)
From S2P Require Import Prelude GoStd Limits SafetyTrip Governor GovernorSteps GovernorInv GovernorMicro.

(** ** One lease *)

Record lease_ok (l : AttemptLease) : Prop := {
  lo_stopping : al_stopping l = bool_nat (al_stoppingStarted l);
  lo_drained : al_drained l = bool_nat (al_drainedClosed l);
  lo_done : al_done l = bool_nat (al_closed l);
  lo_closed : al_closed l = true -> al_stoppingStarted l = true;
  lo_drainedClosed :
    al_drainedClosed l = al_stoppingStarted l && bool_decide (al_drains l = ∅);
  lo_drains : Z.of_nat (size (al_drains l)) <= maxAttemptDrainRegistrations;
}.

(** The two channels of the loopback terminal that drains close. *)
Record term_chans (l : AttemptLease) (t : loopbackTerminal) : Prop := {
  tc_network : lt_networkDrained t = bool_nat (lt_networkClosed t);
  tc_accounting : lt_accountingDone t = bool_nat (lt_accountingClosed t);
  tc_networkClosed : lt_networkClosed t = al_stoppingStarted l && negb (has_drain false l);
  tc_accountingClosed : lt_accountingClosed t = al_stoppingStarted l && negb (has_drain true l);
}.

(** The counters of the channels the manager closes: networkDone, verdict, settled. *)
Definition published (t : loopbackTerminal) : nat * nat * nat :=
  (lt_networkDone t, lt_verdict t, lt_settled t).

Definition phase_ok (ph : option term_phase) (l : AttemptLease) (t : loopbackTerminal) : Prop :=
  match ph with
  | None =>
      if al_stoppingStarted l then published t = (1, 1, 1)%nat /\ al_drains l = ∅
      else published t = (0, 0, 0)%nat
  | Some ph =>
      al_stoppingStarted l = true /\ al_closed l = false /\
      match ph with
      | TNetwork => published t = (0, 0, 0)%nat
      | TNetworkDone e =>
          published t = (0, 0, 0)%nat /\ (e = None -> lt_networkClosed t = true)
      | TAccounting e =>
          published t = (1, 0, 0)%nat /\ (e = None -> lt_networkClosed t = true)
      | TVerdict e timedOut =>
          published t = (1, 0, 0)%nat /\ (e = None -> lt_networkClosed t = true) /\
          (timedOut = false -> lt_accountingClosed t = true)
      | TSettle => published t = (1, 1, 0)%nat
      end
  end.

Definition terminal_ok (ph : option term_phase) (l : AttemptLease) : Prop :=
  match al_terminal l with
  | None => ph = None
  | Some t => term_chans l t /\ phase_ok ph l t
  end.

Lemma has_drain_spec b l :
  has_drain b l = true <-> exists i d, al_drains l !! i = Some d /\ dr_accounting d = b.
Proof.
  unfold has_drain. rewrite existsb_exists. split.
  - intros ([i d] & Hin & Hd). apply list_elem_of_In, elem_of_map_to_list in Hin.
    exists i, d. by apply eqb_prop in Hd.
  - intros (i & d & Hi & <-). exists (i, d). split; [|apply eqb_reflx].
    by apply list_elem_of_In, elem_of_map_to_list.
Qed.

Lemma no_drains l :
  has_drain false l = false -> has_drain true l = false -> al_drains l = ∅.
Proof.
  intros H0 H1. apply map_empty. intros i. destruct (al_drains l !! i) as [d|] eqn:Hi; [|done].
  assert (has_drain (dr_accounting d) l = true) by (apply has_drain_spec; eauto).
  destruct (dr_accounting d); congruence.
Qed.

Lemma has_drain_ext b l l' : al_drains l = al_drains l' -> has_drain b l = has_drain b l'.
Proof. unfold has_drain. by intros ->. Qed.

Lemma has_drain_subseteq b l l' :
  al_drains l' ⊆ al_drains l -> has_drain b l = false -> has_drain b l' = false.
Proof.
  intros Hsub. rewrite <-!not_true_iff_false, !has_drain_spec. intros Hn (i & d & Hi & Hd).
  apply Hn. exists i, d. split; [|done]. by eapply lookup_weaken.
Qed.

(** [maybeCloseLoopbackNetworkLocked] restores [term_chans]. *)
Lemma maybeClose_chans l t :
  al_terminal l = Some t ->
  lt_networkDrained t = bool_nat (lt_networkClosed t) ->
  lt_accountingDone t = bool_nat (lt_accountingClosed t) ->
  (lt_networkClosed t = true -> al_stoppingStarted l = true /\ has_drain false l = false) ->
  (lt_accountingClosed t = true -> al_stoppingStarted l = true /\ has_drain true l = false) ->
  exists t', maybeCloseLoopbackNetworkLocked l = set_al_terminal (Some t') l /\
    term_chans l t' /\ published t' = published t /\
    (lt_networkClosed t = true -> lt_networkClosed t' = true) /\
    (lt_accountingClosed t = true -> lt_accountingClosed t' = true).
Proof.
  intros Ht Hn Ha Hn' Ha'. unfold maybeCloseLoopbackNetworkLocked. rewrite Ht.
  destruct (al_stoppingStarted l) eqn:Hs; simpl.
  - eexists. split; [reflexivity|].
    destruct (has_drain false l) eqn:H0, (has_drain true l) eqn:H1,
      (lt_networkClosed t) eqn:E0, (lt_accountingClosed t) eqn:E1; simpl in *;
      rewrite ?E0, ?E1; simpl; rewrite ?E0, ?E1; simpl;
      try (by destruct Hn'; auto); try (by destruct Ha'; auto);
      (split; [split; simpl; rewrite ?Hs, ?H0, ?H1, ?E0, ?E1, ?Hn, ?Ha; done | done]).
  - exists t. split; [by destruct l; simpl in *; subst|]. split; [|done].
    split; rewrite ?Hs; simpl; try done.
    + apply not_true_iff_false. intros H%Hn'. by destruct H.
    + apply not_true_iff_false. intros H%Ha'. by destruct H.
Qed.

Definition lease_inv (ph : option term_phase) (l : AttemptLease) : Prop :=
  lease_ok l /\ terminal_ok ph l.

(** A change that keeps the flags and the drains keeps the lease invariant. *)
Lemma lease_ok_ext l l' :
  (al_stopping l, al_drained l, al_done l, al_drains l) =
  (al_stopping l', al_drained l', al_done l', al_drains l') ->
  (al_stoppingStarted l, al_drainedClosed l, al_closed l) =
  (al_stoppingStarted l', al_drainedClosed l', al_closed l') ->
  lease_ok l -> lease_ok l'.
Proof.
  intros [= ? ? ? ?] [= ? ? ?] []. destruct l, l'; simpl in *; subst. by split.
Qed.

Lemma terminal_ok_ext ph l l' (f : loopbackTerminal -> loopbackTerminal) :
  al_terminal l' = f <$> al_terminal l ->
  (forall t, lt_networkDrained (f t) = lt_networkDrained t) ->
  (forall t, lt_accountingDone (f t) = lt_accountingDone t) ->
  (forall t, lt_networkClosed (f t) = lt_networkClosed t) ->
  (forall t, lt_accountingClosed (f t) = lt_accountingClosed t) ->
  (forall t, published (f t) = published t) ->
  al_stoppingStarted l' = al_stoppingStarted l -> al_closed l' = al_closed l ->
  al_drains l' = al_drains l ->
  terminal_ok ph l -> terminal_ok ph l'.
Proof.
  intros Ht H1 H2 H3 H4 H5 Hs Hc Hd. unfold terminal_ok. rewrite Ht.
  destruct (al_terminal l) as [t|]; simpl; [|done]. intros [[] Hp]. split.
  - split; rewrite ?H1, ?H2, ?H3, ?H4, ?Hs, ?(has_drain_ext _ _ _ Hd); done.
  - unfold phase_ok in *. by rewrite ?H3, ?H4, ?H5, ?Hs, ?Hc, ?Hd.
Qed.

Lemma lease_inv_terminal ph l f :
  (forall t, lt_networkDrained (f t) = lt_networkDrained t) ->
  (forall t, lt_accountingDone (f t) = lt_accountingDone t) ->
  (forall t, lt_networkClosed (f t) = lt_networkClosed t) ->
  (forall t, lt_accountingClosed (f t) = lt_accountingClosed t) ->
  (forall t, published (f t) = published t) ->
  lease_inv ph l -> lease_inv ph (upd_terminal f l).
Proof.
  intros ? ? ? ? ? [Hl Ht]. split; [by eapply (lease_ok_ext l)|].
  by eapply (terminal_ok_ext ph l _ f).
Qed.

(** Stopping an open lease. *)
Lemma start_stopping_ok l :
  lease_ok l -> al_stoppingStarted l = false -> al_closed l = false ->
  let l' := start_stopping l in
  lease_ok l' /\ al_stoppingStarted l' = true /\ al_closed l' = false /\
  al_drains l' = al_drains l.
Proof.
  intros [] Hs Hc. unfold start_stopping. simpl.
  assert (Hdc : al_drainedClosed l = false) by (rewrite lo_drainedClosed0, Hs; done).
  unfold closeAttemptDrainedLocked, maybeCloseLoopbackNetworkLocked. simpl. rewrite Hdc.
  case_bool_decide as Hd; simpl; destruct (al_terminal l); simpl;
    (split; [split; simpl; rewrite ?Hs, ?Hc in *; simpl in *; rewrite ?lo_stopping0, ?lo_drained0,
       ?lo_done0, ?Hdc; simpl; try done; rewrite ?bool_decide_true, ?bool_decide_false by done; done
     | done]).
Qed.

Lemma start_stopping_terminal_ok l t :
  lease_ok l -> al_stoppingStarted l = false -> al_closed l = false ->
  al_terminal l = Some t -> terminal_ok None l -> terminal_ok (Some TNetwork) (start_stopping l).
Proof.
  intros Hok Hs Hc Ht. unfold terminal_ok at 1. rewrite Ht. intros [[N A NC AC] P].
  unfold phase_ok in P. rewrite Hs in *. simpl in *.
  destruct (start_stopping_ok l Hok Hs Hc) as (_ & Hs' & Hc' & Hd').
  unfold start_stopping in *. simpl in *.
  set (l2 := if bool_decide _ then _ else _) in *.
  assert (Ht2 : al_terminal l2 = Some t).
  { unfold l2, closeAttemptDrainedLocked. simpl. repeat case_match; done. }
  destruct (maybeClose_chans l2 t) as (t' & E & Hch & Hpub & _ & _); try done; try congruence.
  rewrite E in *. unfold terminal_ok. simpl in *. split.
  - destruct Hch. by split.
  - by rewrite Hpub.
Qed.

Lemma drain_complete_ok id l : lease_ok l -> lease_ok (drain_complete id l).
Proof.
  intros Hok. unfold drain_complete. destruct (al_drains l !! id) as [d|] eqn:Hd; [|done].
  pose proof Hok as [].
  assert (Hne : al_drains l <> ∅) by (intros He; by rewrite He in Hd).
  assert (Hdc : al_drainedClosed l = false).
  { rewrite lo_drainedClosed0. by rewrite bool_decide_false, andb_false_r. }
  assert (Hsz : (size (delete id (al_drains l)) <= size (al_drains l))%nat).
  { apply map_subseteq_size, delete_subseteq. }
  set (l2 := if _ && _ then _ else _).
  assert (H2 : lease_ok l2).
  { unfold l2, closeAttemptDrainedLocked. simpl. rewrite Hdc.
    destruct (decide (delete id (al_drains l) = ∅)) as [Hb|Hb];
      [rewrite (bool_decide_true (delete id (al_drains l) = ∅)) by done
      |rewrite (bool_decide_false (delete id (al_drains l) = ∅)) by done];
      destruct (al_stoppingStarted l) eqn:Hs; simpl;
      split; simpl; rewrite ?Hs, ?lo_drained0, ?Hdc; simpl; try done; try lia.
    - by rewrite bool_decide_true.
    - by rewrite bool_decide_false. }
  unfold maybeCloseLoopbackNetworkLocked. destruct (al_terminal l2); [|done].
  destruct (negb _); [done|]. by eapply (lease_ok_ext l2).
Qed.

Lemma drain_complete_terminal_ok id ph l :
  lease_ok l -> terminal_ok ph l -> terminal_ok ph (drain_complete id l).
Proof.
  intros Hok. unfold drain_complete. destruct (al_drains l !! id) as [d|] eqn:Hd; [|done].
  set (l2 := if _ && _ then _ else _).
  assert (Hl2 : al_terminal l2 = al_terminal l /\ al_stoppingStarted l2 = al_stoppingStarted l /\
    al_closed l2 = al_closed l /\ al_drains l2 = delete id (al_drains l)).
  { unfold l2, closeAttemptDrainedLocked. simpl. repeat case_match; done. }
  destruct Hl2 as (Ht2 & Hs2 & Hc2 & Hd2).
  unfold terminal_ok at 1. destruct (al_terminal l) as [t|] eqn:Ht.
  2: { intros ->. unfold maybeCloseLoopbackNetworkLocked, terminal_ok. by rewrite Ht2, Ht2. }
  intros [[N A NC AC] P].
  assert (Hsub : al_drains l2 ⊆ al_drains l) by (rewrite Hd2; apply delete_subseteq).
  destruct (maybeClose_chans l2 t) as (t' & E & Hch & Hpub & Hnc & Hac); try done.
  - rewrite NC, Hs2. intros [? Hh%negb_true_iff]%andb_true_iff. split; [done|].
    by eapply has_drain_subseteq.
  - rewrite AC, Hs2. intros [? Hh%negb_true_iff]%andb_true_iff. split; [done|].
    by eapply has_drain_subseteq.
  - rewrite E. unfold terminal_ok. simpl. split; [destruct Hch; by split|].
    unfold phase_ok in *. simpl. rewrite Hpub, Hs2, Hc2.
    destruct ph as [ph|].
    + destruct P as (? & ? & P). split_and!; [done..|]. destruct ph; intuition.
    + rewrite Hd2. destruct (al_stoppingStarted l); [|done]. destruct P as [? ->].
      by rewrite delete_empty.
Qed.

Lemma lstep_inv u ph l l' :
  (u = false -> al_stoppingStarted l = false /\ al_closed l = false) ->
  lstep u l l' -> lease_inv ph l -> lease_inv ph l'.
Proof.
  intros Hu Hst [Hok Ht]. destruct Hst.
  - split; [by eapply (lease_ok_ext l)|]. eapply (terminal_ok_ext ph l _ id); try done.
    by destruct l as [? ? ? ? ? ? ? ? ? ? ? ? []].
  - destruct (Hu H) as [Hs Hc]. pose proof Hok as [].
    assert (Hsz : (size (<[id:=d]> (al_drains l)) <= S (size (al_drains l)))%nat).
    { rewrite map_size_insert. destruct (al_drains l !! id); simpl; lia. }
    split.
    + split; simpl; rewrite ?Hs in *; try done. lia.
    + unfold terminal_ok in *. simpl. destruct (al_terminal l) as [t|]; [|done].
      destruct Ht as [[] P]. split; [split; simpl in *; rewrite ?Hs in *; done|].
      unfold phase_ok in *. simpl. rewrite Hs in *. destruct ph as [ph|]; [|done].
      by destruct P.
  - by apply lease_inv_terminal.
  - split; [by apply drain_complete_ok | by apply drain_complete_terminal_ok].
  - split; [by apply start_stopping_ok|]. unfold terminal_ok in *.
    rewrite H1 in Ht. by rewrite start_stopping_terminal.
  - split; [by eapply (lease_ok_ext l)|]. eapply (terminal_ok_ext ph l _ id); try done.
    by destruct l as [? ? ? ? ? ? ? ? ? ? ? ? []].
  - by apply lease_inv_terminal.
  - by apply lease_inv_terminal.
Qed.

(** ** The whole state *)

Record local (g : Governor) : Prop := {
  lc_lease : forall a l, g_aheap g !! a = Some l -> lease_inv (g_terms g !! a) l;
  lc_terms : forall a ph, g_terms g !! a = Some ph ->
    exists l t, g_aheap g !! a = Some l /\ al_terminal l = Some t;
  lc_finalizing : Z.of_nat (size (g_terms g)) <= g_loopbackFinalizing g;
  lc_lease_fresh : forall a l, g_aheap g !! a = Some l -> (a < g_next g)%nat;
  lc_peer_fresh : forall p pl, g_pheap g !! p = Some pl -> (p < g_next g)%nat;
  lc_thread_fresh : forall tid t, g_drainThreads g !! tid = Some t -> (tid < g_next g)%nat;
  lc_ordinary : forall tid t a, g_drainThreads g !! tid = Some t -> a ∈ dt_ordinary t ->
    exists l, g_aheap g !! a = Some l /\ al_terminal l = None;
  lc_peer : forall tid t p, g_drainThreads g !! tid = Some t -> dt_for t = ForPeer p ->
    exists pl, g_pheap g !! p = Some pl /\ pl_closed pl = true;
  lc_owner_thread : owner_threads g;
  lc_owner : g_ownerHeld g = false -> g_closed g = true;
}.

Definition peers_grow (g g' : Governor) : Prop :=
  (forall p pl, g_pheap g !! p = Some pl ->
    exists pl', g_pheap g' !! p = Some pl' /\ (pl_closed pl = true -> pl_closed pl' = true)) /\
  (forall p pl', g_pheap g' !! p = Some pl' -> (p < g_next g')%nat).

Lemma peers_grow_same g g' :
  local g -> g_pheap g' = g_pheap g -> g_next g' = g_next g -> peers_grow g g'.
Proof.
  intros L Hp Hn. split; rewrite Hp, ?Hn; [eauto | apply L].
Qed.

(** One lease moves, together with its manager. *)
Lemma local_update g g' a l l' ph' :
  local g -> g_aheap g !! a = Some l ->
  g_aheap g' = <[a := l']> (g_aheap g) ->
  (forall b, b <> a -> g_terms g' !! b = g_terms g !! b) -> g_terms g' !! a = ph' ->
  lease_inv ph' l' -> (al_terminal l' = None <-> al_terminal l = None) ->
  Z.of_nat (size (g_terms g')) <= g_loopbackFinalizing g' ->
  g_next g' = g_next g -> g_drainThreads g' = g_drainThreads g -> peers_grow g g' ->
  g_closed g' = g_closed g -> g_ownerHeld g' = g_ownerHeld g ->
  local g'.
Proof.
  intros L Hl Hh Hto Hta Hinv Htm Hsz Hn Hth [Hpg Hpf] Hc Ho. split; rewrite ?Hn, ?Hth.
  - intros b k. rewrite Hh. destruct (decide (b = a)) as [->|Hne].
    + rewrite lookup_insert_eq. intros [= <-]. by rewrite Hta.
    + rewrite lookup_insert_ne by done. rewrite Hto by done. apply L.
  - intros b ph. rewrite Hh. destruct (decide (b = a)) as [->|Hne].
    + rewrite Hta. intros ->. exists l'. rewrite lookup_insert_eq.
      destruct Hinv as [_ Ht]. unfold terminal_ok in Ht.
      destruct (al_terminal l') as [t|]; [|done]. by exists t.
    + rewrite Hto by done. rewrite lookup_insert_ne by done. apply L.
  - done.
  - intros b k. rewrite Hh, lookup_insert_Some. intros [[<- _]|[_ Hb]]; by eapply lc_lease_fresh.
  - intros p pl Hp. rewrite <-Hn. by eapply Hpf.
  - apply L.
  - intros tid t b Ht Hb. destruct (lc_ordinary g L tid t b Ht Hb) as (k & Hk & Hn').
    rewrite Hh. destruct (decide (b = a)) as [->|Hne].
    + exists l'. rewrite lookup_insert_eq. split; [done|]. apply Htm. congruence.
    + exists k. by rewrite lookup_insert_ne.
  - intros tid t p Ht Hp. destruct (lc_peer g L tid t p Ht Hp) as (pl & Hpl & Hcl).
    destruct (Hpg p pl Hpl) as (pl' & ? & ?). eauto.
  - unfold owner_threads. rewrite Hth, Hc. apply L.
  - rewrite Ho, Hc. apply L.
Qed.

(** No lease and no manager moves. *)
Lemma local_frame g g' :
  local g -> g_aheap g' = g_aheap g -> g_terms g' = g_terms g ->
  g_loopbackFinalizing g' = g_loopbackFinalizing g -> (g_next g <= g_next g')%nat ->
  (forall tid t, g_drainThreads g' !! tid = Some t ->
    (tid < g_next g')%nat /\
    (forall a, a ∈ dt_ordinary t -> exists l, g_aheap g !! a = Some l /\ al_terminal l = None) /\
    (forall p, dt_for t = ForPeer p -> exists pl, g_pheap g' !! p = Some pl /\ pl_closed pl = true) /\
    (forall e, dt_phase t = DCloseOwner e -> g_closed g' = true)) ->
  (forall p pl, g_pheap g' !! p = Some pl -> (p < g_next g')%nat) ->
  (g_ownerHeld g' = false -> g_closed g' = true) ->
  local g'.
Proof.
  intros L Hh Ht Hf Hn Hth Hp Ho. split.
  - rewrite Hh, Ht. apply L.
  - rewrite Hh, Ht. apply L.
  - rewrite Ht, Hf. apply L.
  - rewrite Hh. intros a l Hl. apply (lc_lease_fresh g L) in Hl. lia.
  - done.
  - intros tid t Ht'. by apply Hth in Ht' as (? & _).
  - intros tid t a Ht'. apply Hth in Ht' as (_ & Ha & _). rewrite Hh. apply Ha.
  - intros tid t p Ht'. apply Hth in Ht' as (_ & _ & Hpp & _). apply Hpp.
  - intros tid t e Ht'. apply Hth in Ht' as (_ & _ & _ & He). apply He.
  - done.
Qed.

(** The threads of [g] are still as [local_frame] wants them in [g']. *)
Lemma thread_frame g g' tid t :
  local g -> g_drainThreads g !! tid = Some t -> (g_next g <= g_next g')%nat ->
  peers_grow g g' -> (g_closed g = true -> g_closed g' = true) ->
  (tid < g_next g')%nat /\
  (forall a, a ∈ dt_ordinary t -> exists l, g_aheap g !! a = Some l /\ al_terminal l = None) /\
  (forall p, dt_for t = ForPeer p -> exists pl, g_pheap g' !! p = Some pl /\ pl_closed pl = true) /\
  (forall e, dt_phase t = DCloseOwner e -> g_closed g' = true).
Proof.
  intros L Ht Hn [Hpg _] Hc. split_and!.
  - apply (lc_thread_fresh g L) in Ht. lia.
  - intros a. by apply (lc_ordinary g L tid).
  - intros p Hp. destruct (lc_peer g L tid t p Ht Hp) as (pl & Hpl & Hcl).
    destruct (Hpg p pl Hpl) as (pl' & ? & ?). eauto.
  - intros e He. by eapply Hc, (lc_owner_thread g L).
Qed.

(** ** Preservation *)

Lemma peers_grow_alter g g' p f :
  local g -> g_pheap g' = alter f p (g_pheap g) -> g_next g' = g_next g ->
  (forall pl, pl_closed pl = true -> pl_closed (f pl) = true) -> peers_grow g g'.
Proof.
  intros L Hp Hn Hf. split; rewrite Hp, ?Hn.
  - intros q pl Hq. destruct (decide (q = p)) as [->|Hne].
    + rewrite lookup_alter_eq, Hq. eauto.
    + rewrite lookup_alter_ne by done. eauto.
  - intros q pl'. destruct (decide (q = p)) as [->|Hne].
    + rewrite lookup_alter_eq. destruct (g_pheap g !! p) eqn:E; [|done].
      intros _. by eapply (lc_peer_fresh g L).
    + rewrite lookup_alter_ne by done. apply L.
Qed.

Lemma remove_inv ph l :
  lease_inv ph l -> al_closed l = false -> al_stoppingStarted l = true ->
  lease_settled l = true ->
  lease_inv ph (set_al_done (S (al_done l)) (set_al_closed true l)).
Proof.
  intros [[] Ht] Hc Hs Hset. split.
  - split; simpl; rewrite ?lo_done0, ?Hc; done.
  - unfold terminal_ok, lease_settled in *. simpl. destruct (al_terminal l) as [t|]; [|done].
    destruct Ht as [[] P]. split; [by split|]. unfold phase_ok, published in *. simpl.
    destruct ph as [ph|]; [|done]. destruct P as (_ & _ & P). exfalso.
    assert (lt_settled t = 0%nat) as E by (destruct ph; destruct_and?; simplify_eq/=; done).
    by rewrite E in Hset.
Qed.

Lemma local_remove g a l :
  local g -> g_aheap g !! a = Some l -> al_closed l = false -> al_stoppingStarted l = true ->
  lease_settled l = true -> local (remove_attempt a l g).
Proof.
  intros L Hl Hc Hs Hset.
  assert (Hh : alter (fun l => set_al_done (S (al_done l)) (set_al_closed true l)) a (g_aheap g) =
    <[a := set_al_done (S (al_done l)) (set_al_closed true l)]> (g_aheap g)).
  { pose proof (upd_lease_put a (fun l => set_al_done (S (al_done l)) (set_al_closed true l)) l g Hl)
      as E. by injection E. }
  eapply (local_update g _ a l _ (g_terms g !! a));
    [done|done| | | |by apply remove_inv; [apply L|..]|..];
    unfold remove_attempt; destruct (cost_Heavyweight (req_Cost (al_request l))); simpl;
    try done; try apply L.
  all: by eapply (peers_grow_alter g).
Qed.

Lemma new_lease_inv p request loopback : lease_inv None (new_lease p request loopback).
Proof.
  split; [by split|]. unfold terminal_ok. by destruct loopback; simpl; [split; [split|]|].
Qed.

Lemma local_install g p request loopback :
  local g -> local (install_attempt p request loopback g).
Proof.
  intros L. set (a := g_next g). set (l := new_lease p request loopback).
  assert (Hfr : g_aheap g !! a = None).
  { destruct (g_aheap g !! a) eqn:E; [|done]. apply (lc_lease_fresh g L) in E. lia. }
  assert (Hterm : g_terms g !! a = None).
  { destruct (g_terms g !! a) eqn:E; [|done].
    destruct (lc_terms g L a _ E) as (? & ? & ? & _). congruence. }
  set (g' := install_attempt p request loopback g).
  assert (Hh : g_aheap g' = <[a := l]> (g_aheap g) /\ g_next g' = S a /\
    g_terms g' = g_terms g /\ g_loopbackFinalizing g' = g_loopbackFinalizing g /\
    g_drainThreads g' = g_drainThreads g /\ g_closed g' = g_closed g /\
    g_ownerHeld g' = g_ownerHeld g /\ exists f, g_pheap g' = alter f p (g_pheap g) /\
      (forall pl, pl_closed pl = true -> pl_closed (f pl) = true)).
  { unfold g', install_attempt. destruct (cost_Heavyweight _); simpl; split_and!; try done;
      eexists; split; done. }
  destruct Hh as (Hh & Hn & Ht & Hf & Hth & Hc & Ho & f & Hp & Hf').
  split; rewrite ?Hh, ?Hn, ?Ht, ?Hf, ?Hth, ?Hp.
  - intros b k. rewrite lookup_insert_Some. intros [[<- <-]|[_ Hb]]; [|by apply L].
    rewrite Hterm. apply new_lease_inv.
  - intros b ph Hb. destruct (lc_terms g L b ph Hb) as (k & t & Hk & ?). exists k, t.
    split; [|done]. rewrite lookup_insert_ne; [done|]. intros <-. congruence.
  - apply L.
  - intros b k. rewrite lookup_insert_Some. intros [[<- _]|[_ Hb]]; [lia|].
    apply (lc_lease_fresh g L) in Hb. lia.
  - intros q pl Hq. assert (is_Some (g_pheap g !! q)) as [pl0 Hq0].
    { destruct (decide (q = p)) as [->|]; [rewrite lookup_alter_eq in Hq|
        rewrite lookup_alter_ne in Hq by done]; [by destruct (g_pheap g !! p)|by eexists]. }
    apply (lc_peer_fresh g L) in Hq0. lia.
  - intros tid t Htid. apply (lc_thread_fresh g L) in Htid. lia.
  - intros tid t b Htid Hb. destruct (lc_ordinary g L tid t b Htid Hb) as (k & Hk & ?).
    exists k. split; [|done]. rewrite lookup_insert_ne; [done|]. intros <-. congruence.
  - intros tid t q Htid Hq. destruct (lc_peer g L tid t q Htid Hq) as (pl & Hpl & ?).
    destruct (decide (q = p)) as [->|].
    + rewrite lookup_alter_eq, Hpl. eauto.
    + rewrite lookup_alter_ne by done. eauto.
  - unfold owner_threads. rewrite Hth, Hc. apply L.
  - rewrite Ho, Hc. apply L.
Qed.

Lemma unusable_false g l :
  lease_unusable g l = false -> al_stoppingStarted l = false /\ al_closed l = false.
Proof.
  unfold lease_unusable. destruct (al_stoppingStarted l), (al_closed l);
    rewrite ?orb_true_r; done.
Qed.

Lemma lstep_terminal u l l' : lstep u l l' -> al_terminal l' = None <-> al_terminal l = None.
Proof.
  assert (Hm : forall k, al_terminal (maybeCloseLoopbackNetworkLocked k) = None <->
    al_terminal k = None).
  { intros k. unfold maybeCloseLoopbackNetworkLocked.
    destruct (al_terminal k) eqn:E; [|by rewrite E]. destruct (negb _); simpl; [by rewrite E|done]. }
  destruct 1; simpl; try done.
  - by destruct (al_terminal l).
  - unfold drain_complete. destruct (al_drains l !! id); [|done]. rewrite Hm.
    unfold closeAttemptDrainedLocked. repeat case_match; done.
  - by rewrite start_stopping_terminal, H1.
  - by destruct (al_terminal l).
  - by destruct (al_terminal l).
Qed.

(** One step of the manager of [a]: its lease through [f], its phase to [ph']. *)
Lemma local_manager g g' a ph ph' f :
  local g -> g_terms g !! a = Some ph -> (forall l, al_terminal (f l) = None <-> al_terminal l = None) ->
  g_aheap g' = alter f a (g_aheap g) ->
  g_terms g' = match ph' with Some x => <[a := x]> (g_terms g) | None => delete a (g_terms g) end ->
  (forall l t, g_aheap g !! a = Some l -> al_terminal l = Some t ->
    lease_inv (Some ph) l -> lease_inv ph' (f l)) ->
  g_loopbackFinalizing g' = g_loopbackFinalizing g -
    (if decide (g_loopbackFinalizing g' = g_loopbackFinalizing g) then 0 else 1) ->
  (ph' = None \/ g_loopbackFinalizing g' = g_loopbackFinalizing g) ->
  g_next g' = g_next g -> g_drainThreads g' = g_drainThreads g -> g_pheap g' = g_pheap g ->
  g_closed g' = g_closed g -> g_ownerHeld g' = g_ownerHeld g -> local g'.
Proof.
  intros L Hph Hf Hh Ht Hinv Hfin Hcase Hn Hth Hp Hc Ho.
  destruct (lc_terms g L a ph Hph) as (l & t & Hl & Htm).
  assert (Hsz : (0 < size (g_terms g))%nat).
  { destruct (size (g_terms g)) eqn:E; [|lia]. apply map_size_empty_inv in E.
    by rewrite E, lookup_empty in Hph. }
  pose proof (lc_finalizing g L).
  eapply (local_update g g' a l (f l) ph'); try done.
  - rewrite Hh. pose proof (upd_lease_put a f l g Hl) as E. by injection E.
  - intros b Hb. rewrite Ht. destruct ph'; [by rewrite lookup_insert_ne|by rewrite lookup_delete_ne].
  - rewrite Ht. destruct ph'; [apply lookup_insert_eq|apply lookup_delete_eq].
  - eapply Hinv; [done..|]. rewrite <-Hph. by apply L.
  - rewrite Ht. destruct ph' as [x|].
    + destruct Hcase as [|Hcase]; [done|]. rewrite Hcase, map_size_insert, Hph. simpl. lia.
    + rewrite map_size_delete, Hph. simpl. rewrite Hfin. destruct (decide _); lia.
  - by apply peers_grow_same.
Qed.

(** Publishing: the counters of the manager move, nothing else of the terminal. *)
Lemma publish_inv ph ph' l f :
  (forall t, lt_networkDrained (f t) = lt_networkDrained t) ->
  (forall t, lt_accountingDone (f t) = lt_accountingDone t) ->
  (forall t, lt_networkClosed (f t) = lt_networkClosed t) ->
  (forall t, lt_accountingClosed (f t) = lt_accountingClosed t) ->
  (forall t, al_terminal l = Some t -> term_chans l t -> phase_ok (Some ph) l t ->
    phase_ok ph' l (f t)) ->
  al_terminal l <> None -> lease_inv (Some ph) l -> lease_inv ph' (upd_terminal f l).
Proof.
  intros H1 H2 H3 H4 Hp Hn [Hok Ht]. split; [by eapply (lease_ok_ext l)|].
  unfold terminal_ok in *. simpl. destruct (al_terminal l) as [t|]; [|done]. simpl.
  destruct Ht as [Hch Hpo]. split.
  - destruct Hch. by split; rewrite ?H1, ?H2, ?H3, ?H4.
  - pose proof (Hp t eq_refl Hch Hpo) as Hq. unfold phase_ok in *. simpl. exact Hq.
Qed.

Lemma upd_terminal_None f l : al_terminal (upd_terminal f l) = None <-> al_terminal l = None.
Proof. simpl. by destruct (al_terminal l). Qed.

Lemma chans_drained l t :
  term_chans l t -> lt_networkClosed t = true -> lt_accountingClosed t = true ->
  al_drains l = ∅.
Proof.
  intros [_ _ -> ->] [_ Hn]%andb_true_iff [_ Ha]%andb_true_iff.
  by apply no_drains; apply negb_true_iff.
Qed.

Lemma micro_local g g' : micro g g' -> local g -> local g'.
Proof.
  intros Hm L. destruct Hm.
  - eapply local_frame; simpl; try done; [|apply L|].
    + intros tid t Ht. eapply thread_frame; try done. by apply peers_grow_same.
    + intros Ho. destruct (g_ownerHeld g) eqn:E; [auto|by apply L].
  - eapply local_frame; simpl; try done; [|apply L|apply L].
    intros tid x Ht. eapply thread_frame; try done. by apply peers_grow_same.
  - eapply (local_update g _ a l l' (g_terms g !! a)); try done.
    + by eapply lstep_inv; [apply unusable_false| |apply L].
    + by eapply lstep_terminal.
    + apply L.
    + by apply peers_grow_same.
  - destruct (lc_lease g L a l H) as [Hok Htm].
    assert (Hno : g_terms g !! a = None).
    { destruct (g_terms g !! a) as [ph|] eqn:E; [|done]. unfold terminal_ok in Htm.
      rewrite H2 in Htm. destruct Htm as [_ [? _]]. congruence. }
    rewrite Hno in Htm.
    destruct (start_stopping_ok l Hok) as (Hok' & _); [done..|].
    pose proof (start_stopping_terminal_ok l t Hok H1 H0 H2 Htm) as Htm'.
    eapply (local_update g _ a l (start_stopping l) (Some TNetwork)); simpl; try done.
    + intros b Hb. by rewrite lookup_insert_ne.
    + apply lookup_insert_eq.
    + rewrite H2. unfold terminal_ok in Htm'. by destruct (al_terminal (start_stopping l)).
    + rewrite map_size_insert, Hno. simpl. pose proof (lc_finalizing g L). lia.
    + by apply peers_grow_same.
  - by apply local_remove.
  - by apply local_install.
  - eapply (local_frame g); try done; [simpl; lia| | |apply L].
    + intros tid t Ht. eapply (thread_frame g); try done; [simpl; lia|]. split; simpl.
      * intros p pl Hp. exists pl. split; [|done]. rewrite lookup_insert_ne; [done|].
        intros <-. apply (lc_peer_fresh g L) in Hp. lia.
      * intros p pl'. rewrite lookup_insert_Some. intros [[<- _]|[_ Hp]]; [lia|].
        apply (lc_peer_fresh g L) in Hp. lia.
    + intros p pl'. simpl. rewrite lookup_insert_Some. intros [[<- _]|[_ Hp]]; [lia|].
      apply (lc_peer_fresh g L) in Hp. lia.
  - assert (Hpg : peers_grow g (upd_peer p (set_pl_closed true) g)).
    { by eapply (peers_grow_alter g). }
    eapply (local_frame g); try done; [|apply Hpg|apply L].
    intros tid t Ht. by eapply thread_frame.
  - eapply local_frame; simpl; try done; [|apply L|apply L].
    intros tid x Ht. eapply thread_frame; try done. by apply peers_grow_same.
  - eapply local_frame; simpl; try done; [lia| | |apply L].
    + intros tid t. rewrite lookup_insert_Some. intros [[<- <-]|[_ Ht]].
      * split_and!; [lia| |done|done]. simpl. intros a Ha.
        apply list_elem_of_In, List.filter_In in Ha as [Ha Hnp].
        apply list_elem_of_In in Ha. destruct (H0 a Ha) as [l Hl]. exists l.
        unfold is_phased in Hnp. rewrite Hl in Hnp. by destruct (al_terminal l).
      * destruct (thread_frame g g tid t L Ht) as (? & ? & ? & ?); try done.
        { by apply peers_grow_same. }
        split_and!; [lia|done..].
    + intros p pl Hp. apply (lc_peer_fresh g L) in Hp. lia.
  - eapply local_frame; simpl; try done; [|apply L|apply L].
    intros i x. rewrite lookup_insert_Some. intros [[<- <-]|[_ Ht]].
    + destruct (thread_frame g g tid t L H) as (? & Ho & Hp & ?); try done.
      { by apply peers_grow_same. }
      split_and!; [done|by auto|by rewrite H0|done].
    + eapply thread_frame; try done. by apply peers_grow_same.
  - eapply local_frame; simpl; try done; [|apply L|apply L].
    intros i x [_ Ht]%lookup_delete_Some. eapply thread_frame; try done. by apply peers_grow_same.
  - eapply (local_manager g _ a TNetwork (Some (TNetworkDone networkErr)) id);
      simpl; try done; try (destruct (decide _); lia); [by rewrite alter_id| |by right].
    intros l t Hl Ht [Hok Htm]. split; [done|]. unfold terminal_ok in *. rewrite Ht in *.
    destruct Htm as [Hch (? & ? & ?)]. split; [done|]. split_and!; [done..|].
    intros He. destruct (H0 He) as (t' & Ht' & Hcl). unfold lease_terminal in Ht'.
    rewrite Hl, Ht in Ht'. simplify_eq.
    rewrite (tc_network _ _ Hch) in Hcl. by destruct (lt_networkClosed t').
  - eapply (local_manager g _ a _ (Some (TAccounting networkErr)));
      simpl; [done|done|intros; apply upd_terminal_None|reflexivity|reflexivity
             | |destruct (decide _); lia|by right|done..].
    intros l t Hl Ht. apply publish_inv; try done; [|congruence].
    intros t' _ _ (? & ? & Hpub & ?). unfold phase_ok, published in *. simpl.
    by injection Hpub as -> -> ->.
  - eapply (local_manager g _ a _ (Some (TVerdict networkErr timedOut)) id);
      simpl; try done; try (destruct (decide _); lia); [by rewrite alter_id| |by right].
    intros l x Hl Ht [Hok Htm]. split; [done|]. unfold terminal_ok in *. rewrite Ht in *.
    destruct Htm as [Hch (? & ? & ? & ?)]. split; [done|]. split_and!; [done..|].
    intros ->. unfold lease_terminal in H0. rewrite Hl, Ht in H0. simplify_eq.
    rewrite (tc_accounting _ _ Hch) in H1. by destruct (lt_accountingClosed t).
  - eapply (local_manager g _ a _ (Some TSettle));
      simpl; [done|done|intros; apply upd_terminal_None|reflexivity|reflexivity
             | |destruct (decide _); lia|by right|done..].
    intros l t Hl Ht. apply publish_inv; try done; [|congruence].
    intros t' _ _ (? & ? & Hpub & ?). unfold phase_ok, published in *. simpl.
    by injection Hpub as -> -> ->.
  - eapply (local_manager g _ a _ None);
      simpl; [done|done|intros; apply upd_terminal_None|reflexivity|reflexivity
             | |destruct (decide _); lia|by left|done..].
    intros l t Hl Ht. apply publish_inv; try done; [|congruence].
    intros t' _ Hch (Hs & ? & Hpub & Hn & Ha). unfold phase_ok, published in *. rewrite Hs. simpl.
    split; [by injection Hpub as -> -> ->|]. by eapply chans_drained; auto.
  - eapply (local_manager g _ a _ None);
      simpl; [done|done|intros; apply upd_terminal_None|reflexivity|reflexivity
             | |destruct (decide _); lia|by left|done..].
    intros k t Hk Ht. assert (k = l) as -> by congruence. intros Hinv. pose proof Hinv as [Hok _].
    revert Hinv. apply publish_inv; try done; [|congruence].
    intros t' _ Hch (Hs & ? & Hpub). unfold phase_ok, published in *. rewrite Hs. simpl.
    split; [by injection Hpub as -> -> ->|]. rewrite (lo_drained _ Hok), (lo_drainedClosed _ Hok), Hs in H1.
    simpl in H1. by case_bool_decide.
  - eapply (local_frame g); try done; [|apply L].
    intros tid x Ht. eapply (thread_frame g); try done. by apply peers_grow_same.
Qed.

(** ** Everything that can be reached *)

Section reachable.
Context {St : TripStore} {F : Sprintf}.

Lemma micros_local g g' : micros g g' -> local g -> local g'.
Proof. induction 1; eauto using micro_local. Qed.

Lemma local_verdict_open g : local g -> verdict_open g.
Proof.
  intros L a l e timedOut Hph Hl. destruct (lc_lease g L a l Hl) as [_ Ht].
  destruct (lc_terms g L a _ Hph) as (l' & t & Hl' & Htm). assert (l' = l) as -> by congruence.
  unfold terminal_ok in Ht. rewrite Htm, Hph in Ht. by destruct Ht as (_ & ? & ? & _).
Qed.

Lemma local_settled g : local g -> settled_stopping g.
Proof.
  intros L a l t Hl Htm Hs. destruct (lc_lease g L a l Hl) as [_ Ht].
  unfold terminal_ok in Ht. rewrite Htm in Ht. destruct Ht as [_ P].
  unfold phase_ok, published in P. destruct (g_terms g !! a); [by destruct P|].
  destruct (al_stoppingStarted l); [done|]. injection P as _ _ E. by rewrite E in Hs.
Qed.

Lemma local_ordinary g : local g -> ordinary_threads g.
Proof.
  intros L tid t a l Ht Ha Hl. destruct (lc_ordinary g L tid t a Ht Ha) as (k & ? & ?). congruence.
Qed.

Lemma local_fresh_threads g : local g -> fresh_threads g.
Proof.
  intros L tid Htid. destruct (g_drainThreads g !! tid) eqn:E; [|done].
  apply (lc_thread_fresh g L) in E. lia.
Qed.

Lemma local_peer_threads g : local g -> peer_threads g.
Proof.
  intros L tid t p pl Ht Hp Hpl. destruct (lc_peer g L tid t p Ht Hp) as (k & ? & ?). congruence.
Qed.

Definition governor_inv (g : Governor) : Prop := registry g /\ local g.

Lemma gstep_inv_micros g g' : gstep g g' -> governor_inv g -> micros g g'.
Proof.
  intros Hst [R L]. apply gstep_micros; auto using local_ordinary, local_settled,
    local_verdict_open, local_fresh_threads. apply L.
Qed.

Lemma gstep_governor_inv g g' : governor_inv g -> gstep g g' -> governor_inv g'.
Proof.
  intros I Hst. split.
  - destruct I as [R L]. eapply gstep_registry; eauto using local_peer_threads.
  - eapply micros_local; [by apply gstep_inv_micros | apply I].
Qed.

(** What a successful [newGovernor] has checked. *)
Lemma newGovernor_Ok owner trip profile requested o g :
  newGovernor owner trip profile requested = Ok (o, g) ->
  exists o0 hard, owner = Some o0 /\ Owner_usable o0 = true /\ o_claimed o0 = false /\
    Profile_Scope profile = Ok (o_scope o0) /\ HardLimits profile = Ok hard /\
    limits_ok (g_limits g) /\ limits_le (g_limits g) hard /\
    ts_BlocksActiveWork trip = false /\
    g = mkGovernor profile (g_limits g) (o_build o0) trip false false None false 0 None
          ∅ ∅ resources_zero 0 ∅ ∅ ∅ ∅ 0 true /\
    o = mkOwner (o_scope o0) (o_build o0) (o_hasFile o0) (o_closed o0) true.
Proof.
  unfold newGovernor. intros H. destruct owner as [o0|]; [|done].
  destruct (Owner_usable o0) eqn:Hu; [|done]. simpl in H.
  destruct (Profile_Scope profile) as [scope|e] eqn:Hs; [|done]. simpl in H.
  case_bool_decide as Hsc; [|done]. simpl in H.
  destruct (HardLimits profile) as [hard|e] eqn:Hh; [|done]. simpl in H.
  set (limits := match requested with Some r => r | None => hard end) in *.
  assert (Hlim : limits_ok limits /\ limits_le limits hard \/
    match requested with Some r => validateNotRaised r hard | None => None end <> None).
  { unfold limits. destruct requested as [r|].
    - destruct (validateNotRaised r hard) eqn:E; [by right|].
      left. by apply validateNotRaised_None.
    - left. split; [by eapply HardLimits_ok|done]. }
  destruct (match requested with Some r => _ | None => None end); [done|]. simpl in H.
  destruct (ts_BlocksActiveWork trip) eqn:Hb; [done|].
  unfold Owner_claim in H. destruct (o_closed o0 || negb (o_hasFile o0)); [done|].
  destruct (o_claimed o0) eqn:Hc; [done|]. simpl in H. injection H as <- <-.
  destruct Hlim as [[? ?]|?]; [|done]. subst scope. exists o0, hard. by split_and!.
Qed.

Lemma initial_inv g : initial g -> governor_inv g.
Proof.
  intros (owner & trip & profile & requested & o & Hnew).
  destruct (newGovernor_Ok _ _ _ _ _ _ Hnew) as (o0 & hard & _ & _ & _ & _ & _ & Hok & _ & _ & Hg & _).
  remember (g_limits g) as lim eqn:Hl. clear Hl. subst g. split.
  - pose proof Hok as Hok'. unfold limits_ok, resources_nonneg, resources_le in Hok'.
    split; simpl; try done; try (rewrite map_size_empty); try lia.
    by destruct Hok as (_ & _ & _ & _ & _ & _ & ? & _).
  - by split.
Qed.

Lemma reachable_inv g : reachable g -> governor_inv g.
Proof. apply reachable_ind_inv; [apply initial_inv | apply gstep_governor_inv]. Qed.

Lemma steps_inv g g' : governor_inv g -> rtc gstep g g' -> micros g g' /\ governor_inv g'.
Proof.
  intros I Hst. induction Hst as [g|g g1 g2 Hs _ IH]; [done|].
  destruct IH as [Hm I2]; [by eapply gstep_governor_inv|]. split; [|done].
  etrans; [by apply gstep_inv_micros | done].
Qed.
End reachable.
