(* ===== verification/GovernorThms.v ===== *)
(** * What the governor guarantees in every reachable state

    The theorems quantify over every interleaving of API calls, drain threads,
    loopback managers and timers ([reachable]), for any answers of the
    safety-trip store and any text of the cancellation detail. *)
From S2P Require Import Prelude GoStd Limits SafetyTrip Governor GovernorSteps GovernorInv GovernorMicro GovernorLocal.

(** ** Facts that only grow *)

(** New leases are refused for good: the latch blocks, the governor is closed,
    or a terminal accounting fault has been recorded. *)
Definition latched (g : Governor) : Prop :=
  ts_BlocksActiveWork (g_trip g) = true \/ g_closed g = true \/ g_finalizationFault g <> None.

Lemma latched_not_admitting g :
  latched g -> ts_BlocksActiveWork (g_trip g) = false -> loopbackAdmissionBlockedLocked g = None ->
  g_closed g = true.
Proof.
  unfold loopbackAdmissionBlockedLocked.
  intros [?|[?|Hf]] ? Hadm; [congruence|done|]. by destruct (g_finalizationFault g).
Qed.

Definition no_new_leases (g g' : Governor) : Prop :=
  (forall a, g_aheap g !! a = None -> g_aheap g' !! a = None) /\
  (forall p, g_pheap g !! p = None -> g_pheap g' !! p = None) /\
  g_attempts g' ⊆ g_attempts g /\ g_peers g' ⊆ g_peers g.

#[export] Instance no_new_leases_preorder : PreOrder no_new_leases.
Proof.
  split; [intros g; by split_and!|].
  intros g1 g2 g3 (H1 & H2 & H3 & H4) (H5 & H6 & H7 & H8). split_and!; eauto; by etrans.
Qed.

Lemma latched_micro g g' : micro g g' -> latched g -> latched g' /\ no_new_leases g g'.
Proof.
  intros Hm Hlat. destruct Hm; unfold no_new_leases.
  - split; [|by split_and!]. destruct Hlat as [?|[?|?]]; [by left|by right; left|].
    right; right. simpl. auto.
  - split; [|by split_and!]. destruct Hlat as [?|[?|?]]; [congruence|by right; left|].
    right; right. done.
  - split; [done|]. split_and!; try done. intros b Hb. simpl.
    destruct (decide (a = b)) as [->|]; [congruence|]. by rewrite lookup_insert_ne.
  - split; [done|]. split_and!; try done. intros b Hb. simpl.
    destruct (decide (a = b)) as [->|]; [congruence|]. by rewrite lookup_insert_ne.
  - unfold remove_attempt. set (b := cost_Heavyweight _). split; [by destruct b|].
    split_and!; destruct b; simpl; try done; try apply delete_subseteq;
      intros x Hx; by rewrite lookup_alter_None.
  - exfalso. pose proof (latched_not_admitting g Hlat H0 H2) as Hc. by rewrite Hc in H1.
  - exfalso. pose proof (latched_not_admitting g Hlat H0 H1) as Hc. by rewrite Hc in H.
  - split; [done|]. split_and!; try done. intros q Hq. simpl. by rewrite lookup_alter_None.
  - split; [done|]. split_and!; try done. apply delete_subseteq.
  - by split; [|split_and!].
  - by split; [|split_and!].
  - by split; [|split_and!].
  - by split; [|split_and!].
  - split; [done|]. split_and!; try done. intros x Hx. simpl. by rewrite lookup_alter_None.
  - by split; [|split_and!].
  - split; [done|]. split_and!; try done. intros x Hx. simpl. by rewrite lookup_alter_None.
  - split; [done|]. split_and!; try done. intros x Hx. simpl. by rewrite lookup_alter_None.
  - split; [done|]. split_and!; try done. intros x Hx. simpl. by rewrite lookup_alter_None.
  - split; [by right; left|]. split_and!; try done; apply map_empty_subseteq.
Qed.

Lemma latched_micros g g' : micros g g' -> latched g -> latched g' /\ no_new_leases g g'.
Proof.
  induction 1 as [g|g1 g2 g3 Hm _ IH]; intros Hl; [done|].
  destruct (latched_micro g1 g2 Hm Hl) as [Hl2 Hn]. destruct (IH Hl2) as [Hl3 Hn'].
  split; [done|]. by etrans.
Qed.

(** Identity and claims of a lease. *)
Definition lease_grows (l l' : AttemptLease) : Prop :=
  al_request l' = al_request l /\ al_peer l' = al_peer l /\
  al_exclusiveClaims l ⊆ al_exclusiveClaims l' /\
  (al_closed l = true -> al_closed l' = true) /\
  (al_stoppingStarted l = true -> al_stoppingStarted l' = true) /\
  (is_Some (al_terminal l) <-> is_Some (al_terminal l')).

#[export] Instance lease_grows_preorder : PreOrder lease_grows.
Proof.
  split; [intros l; by split_and!|]. intros l1 l2 l3 (? & ? & ? & ? & ? & ?) (? & ? & ? & ? & ? & ?).
  split_and!; [congruence|congruence|by etrans|auto|auto|by etrans].
Qed.

Lemma maybeClose_grows l : lease_grows l (maybeCloseLoopbackNetworkLocked l).
Proof.
  unfold maybeCloseLoopbackNetworkLocked. destruct (al_terminal l) eqn:Ht; [|done].
  destruct (negb _); [done|]. split_and!; simpl; rewrite ?Ht; by eauto.
Qed.

Lemma upd_terminal_grows f l : lease_grows l (upd_terminal f l).
Proof. split_and!; simpl; rewrite ?fmap_is_Some; done. Qed.

Lemma closeDrained_grows l : lease_grows l (closeAttemptDrainedLocked l).
Proof. unfold closeAttemptDrainedLocked. by destruct (al_drainedClosed l). Qed.

Lemma start_stopping_grows l : lease_grows l (start_stopping l).
Proof.
  unfold start_stopping. etrans; [|apply maybeClose_grows].
  case_bool_decide; [|by split_and!]. etrans; [|apply closeDrained_grows]. by split_and!.
Qed.

Lemma lstep_grows u l l' : lstep u l l' -> lease_grows l l'.
Proof.
  destruct 1; try (by split_and!); try apply start_stopping_grows;
    try apply upd_terminal_grows.
  - split_and!; try done. simpl. set_solver.
  - unfold drain_complete. destruct (al_drains l !! id); [|done].
    etrans; [|apply maybeClose_grows]. case_match; [|by split_and!].
    etrans; [|apply closeDrained_grows]. by split_and!.
Qed.

Lemma micro_grows g g' a l :
  micro g g' -> local g -> g_aheap g !! a = Some l ->
  exists l', g_aheap g' !! a = Some l' /\ lease_grows l l'.
Proof.
  intros Hm L Hl.
  assert (Hput : forall b k k', g_aheap g !! b = Some k -> lease_grows k k' ->
    exists l', <[b := k']> (g_aheap g) !! a = Some l' /\ lease_grows l l').
  { intros b k k' Hb Hg. destruct (decide (b = a)) as [->|].
    - exists k'. rewrite lookup_insert_eq. split; [done|]. congruence.
    - exists l. rewrite lookup_insert_ne by done. done. }
  assert (Halt : forall b f, (forall k, lease_grows k (f k)) ->
    exists l', alter f b (g_aheap g) !! a = Some l' /\ lease_grows l l').
  { intros b f Hf. destruct (decide (b = a)) as [->|].
    - exists (f l). by rewrite lookup_alter_eq, Hl.
    - exists l. rewrite lookup_alter_ne by done. done. }
  destruct Hm; simpl; try (by exists l).
  - eapply Hput; [done|]. by eapply lstep_grows.
  - eapply Hput; [done|]. by eapply start_stopping_grows.
  - unfold remove_attempt. destruct (cost_Heavyweight _); simpl; by apply Halt.
  - exists l. split; [|done]. unfold install_attempt.
    assert (g_next g <> a) by (apply (lc_lease_fresh g L) in Hl; lia).
    destruct (cost_Heavyweight _); simpl; by rewrite lookup_insert_ne.
  - apply Halt; intros; apply upd_terminal_grows.
  - apply Halt; intros; apply upd_terminal_grows.
  - apply Halt; intros; apply upd_terminal_grows.
  - apply Halt; intros; apply upd_terminal_grows.
Qed.

Lemma micros_grow g g' a l :
  micros g g' -> local g -> g_aheap g !! a = Some l ->
  exists l', g_aheap g' !! a = Some l' /\ lease_grows l l'.
Proof.
  intros Hm. revert l. induction Hm as [g|g1 g2 g3 Hm _ IH]; intros l L Hl; [by exists l|].
  destruct (micro_grows g1 g2 a l Hm L Hl) as (l2 & Hl2 & Hg2).
  destruct (IH l2 (micro_local _ _ Hm L) Hl2) as (l3 & ? & ?). exists l3. split; [done|].
  by etrans.
Qed.

(** The compiled ceiling of the profile. *)
Definition under_ceiling (g : Governor) : Prop :=
  exists hard, HardLimits (g_profile g) = Ok hard /\ limits_le (g_limits g) hard.

(** A closed governor has nothing registered. *)
Definition closed_empty (g : Governor) : Prop :=
  g_closed g = true -> g_attempts g = ∅ /\ g_peers g = ∅.

Lemma micro_ceiling g g' : micro g g' -> under_ceiling g -> under_ceiling g'.
Proof.
  intros Hm. destruct Hm; try done; unfold remove_attempt, install_attempt;
    by destruct (cost_Heavyweight _).
Qed.

Lemma micro_closed_empty g g' : micro g g' -> closed_empty g -> closed_empty g'.
Proof.
  intros Hm He. destruct Hm; try done; unfold closed_empty in *.
  - unfold remove_attempt. destruct (cost_Heavyweight _); simpl; intros Hc;
      destruct (He Hc) as [-> ->]; by rewrite delete_empty.
  - assert (g_closed g = false) as Hc by (by destruct (g_closed g)).
    unfold install_attempt. destruct (cost_Heavyweight _); simpl; congruence.
  - simpl. intros Hc. by rewrite Hc in H.
  - simpl. intros Hc. destruct (He Hc) as [-> ->]. by rewrite delete_empty.
Qed.

Section theorems.
Context {St : TripStore} {F : Sprintf}.

Lemma reachable_extra g : reachable g -> under_ceiling g /\ closed_empty g.
Proof.
  intros Hr. pose proof Hr as (g0 & Hi & Hst).
  destruct (steps_inv g0 g (initial_inv g0 Hi) Hst) as [Hm _].
  assert (H0 : under_ceiling g0 /\ closed_empty g0).
  { destruct Hi as (owner & trip & profile & requested & o & Hnew).
    destruct (newGovernor_Ok _ _ _ _ _ _ Hnew) as
      (o0 & hard & _ & _ & _ & _ & Hh & _ & Hle & _ & Hg & _).
    split; [exists hard|]; rewrite Hg; done. }
  clear -Hm H0. induction Hm as [|g1 g2 g3 Hm _ IH]; [done|]. destruct H0.
  apply IH. split; [by eapply micro_ceiling | by eapply micro_closed_empty].
Qed.

(** C1: In every reachable state the reservation is exactly the sum of the
    costs of the active attempts, the heavyweight counter is exactly the number
    of active heavyweight attempts, and every limit holds: active attempts,
    active peers, attempts per peer, heavyweight attempts and each component of
    the aggregate; the limits themselves never exceed the ceiling compiled in
    for the profile. *)
Theorem governor_accounting g :
  reachable g ->
  g_reserved g = total_cost (g_aheap g) (g_attempts g) /\
  g_heavyweightAttempts g = total_heavy (g_aheap g) (g_attempts g) /\
  resources_le (g_reserved g) (Aggregate (g_limits g)) /\
  g_heavyweightAttempts g <= MaxHeavyweightAttempts (g_limits g) /\
  Z.of_nat (size (g_attempts g)) <= MaxActiveAttempts (g_limits g) /\
  Z.of_nat (size (g_peers g)) <= MaxActivePeers (g_limits g) /\
  (forall p pl, g_pheap g !! p = Some pl ->
    Z.of_nat (size (pl_attempts pl)) <= MaxAttemptsPerPeer (g_limits g)) /\
  exists hard, HardLimits (g_profile g) = Ok hard /\ limits_le (g_limits g) hard.
Proof.
  intros Hr. destruct (reachable_inv g Hr) as [R _].
  destruct (reachable_extra g Hr) as [Hc _]. split_and!; try apply R. exact Hc.
Qed.

(** C28: Once the safety latch blocks, the governor is closed or a terminal
    accounting fault is recorded, no continuation of the run leaves that
    state, creates a lease or a peer, or registers one again. *)
Theorem latched_forever g g' :
  reachable g -> latched g -> rtc gstep g g' -> latched g' /\ no_new_leases g g'.
Proof.
  intros Hr Hl Hst. apply latched_micros; [|done].
  by apply (steps_inv g g' (reachable_inv g Hr)).
Qed.

(** No interleaving closes a channel twice (which would panic): in every
    reachable state each channel of a lease has been closed at most once, and
    [drained] exactly when the lease is stopping and no drain is left. *)
Theorem channels_close_once g a l :
  reachable g -> g_aheap g !! a = Some l ->
  (al_stopping l <= 1 /\ al_drained l <= 1 /\ al_done l <= 1)%nat /\
  (closed_chan (al_drained l) = al_stoppingStarted l && bool_decide (al_drains l = ∅)) /\
  (al_closed l = true -> closed_chan (al_stopping l) = true) /\
  match al_terminal l with
  | None => True
  | Some t => (lt_networkDrained t <= 1 /\ lt_networkDone t <= 1 /\ lt_accountingDone t <= 1 /\
               lt_verdict t <= 1 /\ lt_settled t <= 1)%nat
  end.
Proof.
  intros Hr Hl. destruct (reachable_inv g Hr) as [_ L].
  destruct (lc_lease g L a l Hl) as [[S D Dn C DC _] Ht]. split_and!.
  - rewrite S. by destruct (al_stoppingStarted l); simpl; lia.
  - rewrite D. by destruct (al_drainedClosed l); simpl; lia.
  - rewrite Dn. by destruct (al_closed l); simpl; lia.
  - rewrite D, <-DC. by destruct (al_drainedClosed l).
  - intros Hc. by rewrite S, (C Hc).
  - unfold terminal_ok in Ht. destruct (al_terminal l) as [t|]; [|done].
    destruct Ht as [[N A _ _] P]. rewrite N, A. unfold phase_ok, published in P.
    destruct (g_terms g !! a) as [[]|], (al_stoppingStarted l); destruct_and?; simplify_eq/=;
      destruct (lt_networkClosed t), (lt_accountingClosed t); simpl; lia.
Qed.

(** C4: In the loopback lifecycle the release of an attempt is a drain witness:
    when [Done] has been closed, every registered drain has completed, the
    network phase, the verdict and the settlement have been published, and no
    manager of the lease is running. *)
Theorem loopback_done_is_drained g a l t :
  reachable g -> g_aheap g !! a = Some l -> al_terminal l = Some t ->
  closed_chan (al_done l) = true ->
  al_drains l = ∅ /\ published t = (1, 1, 1)%nat /\ g_terms g !! a = None.
Proof.
  intros Hr Hl Ht Hd. destruct (reachable_inv g Hr) as [_ L].
  destruct (lc_lease g L a l Hl) as [[_ _ Dn C _ _] Htm].
  assert (Hc : al_closed l = true) by (rewrite Dn in Hd; by destruct (al_closed l)).
  unfold terminal_ok in Htm. rewrite Ht in Htm. destruct Htm as [_ P]. unfold phase_ok in P.
  destruct (g_terms g !! a) as [ph|].
  - destruct P as (_ & ? & _). congruence.
  - rewrite (C Hc) in P. by destruct P.
Qed.

(** While a loopback manager runs, admission is refused. *)
Theorem finalizing_blocks_admission g a ph :
  reachable g -> g_terms g !! a = Some ph -> loopbackAdmissionBlockedLocked g <> None.
Proof.
  intros Hr Hph. destruct (reachable_inv g Hr) as [_ L].
  unfold loopbackAdmissionBlockedLocked. destruct (g_finalizationFault g); [done|].
  pose proof (lc_finalizing g L) as Hf.
  destruct (Z.eqb_spec (g_loopbackFinalizing g) 0) as [E|]; [|done].
  assert (size (g_terms g) = 0%nat) as Hz by lia.
  apply map_size_empty_inv in Hz. by rewrite Hz, lookup_empty in Hph.
Qed.

(** The namespace owner is released only when nothing is left: the governor
    is closed, no attempt, peer or reservation remains, every lease ever issued
    is closed, no loopback manager runs and no loopback drain is pending. *)
Theorem owner_released_only_when_idle g :
  reachable g -> g_ownerHeld g = false ->
  g_closed g = true /\ g_attempts g = ∅ /\ g_peers g = ∅ /\
  g_reserved g = resources_zero /\ g_terms g = ∅ /\
  forall a l, g_aheap g !! a = Some l ->
    al_closed l = true /\ (al_terminal l <> None -> al_drains l = ∅).
Proof.
  intros Hr Ho. destruct (reachable_inv g Hr) as [R L].
  destruct (reachable_extra g Hr) as [_ He].
  pose proof (lc_owner g L Ho) as Hc. destruct (He Hc) as [Ha Hp].
  assert (Hall : forall a l, g_aheap g !! a = Some l -> al_closed l = true).
  { intros a l Hl. apply not_false_iff_true. intros Hf.
    pose proof (reg_open g R a l Hl Hf) as E. by rewrite Ha in E. }
  assert (Hph : forall a l ph, g_aheap g !! a = Some l -> g_terms g !! a = Some ph -> False).
  { intros a l ph Hl Hph. destruct (lc_lease g L a l Hl) as [_ Htm].
    destruct (lc_terms g L a ph Hph) as (l' & t & Hl' & Ht).
    assert (l' = l) as -> by congruence. unfold terminal_ok in Htm. rewrite Ht, Hph in Htm.
    destruct Htm as (_ & _ & Hcl & _). rewrite (Hall a l Hl) in Hcl. done. }
  split_and!; [done..| | |].
  - rewrite (reg_reserved g R), Ha. apply total_cost_empty.
  - apply map_empty. intros a. destruct (g_terms g !! a) as [ph|] eqn:E; [|done].
    destruct (lc_terms g L a ph E) as (l & _ & Hl & _). by destruct (Hph a l ph).
  - intros a l Hl. split; [by eapply Hall|]. intros Ht.
    destruct (lc_lease g L a l Hl) as [Hok Htm]. unfold terminal_ok in Htm.
    destruct (al_terminal l) as [t|]; [|done]. destruct Htm as [_ P]. unfold phase_ok in P.
    destruct (g_terms g !! a) as [ph|] eqn:E; [by destruct (Hph a l ph)|].
    rewrite (lo_closed l Hok (Hall a l Hl)) in P. by destruct P.
Qed.

(** An exclusive claim is granted at most once per lease, over the whole
    rest of the run. *)
Theorem exclusive_claim_once g g1 g2 a name :
  reachable g -> ClaimExclusive a name g = (g1, None) -> rtc gstep g1 g2 ->
  (ClaimExclusive a name g2).2 <> None /\ (ClaimExclusive a name g2).1 = g2.
Proof.
  intros Hr Hc Hst.
  assert (Hg1 : gstep g g1).
  { replace g1 with (ClaimExclusive a name g).1 by (by rewrite Hc). apply step_ClaimExclusive. }
  pose proof (gstep_governor_inv g g1 (reachable_inv g Hr) Hg1) as I1.
  destruct (steps_inv g1 g2 I1 Hst) as [Hm _]. destruct I1 as [_ L1].
  unfold ClaimExclusive in Hc. destruct (g_aheap g !! a) as [l|] eqn:Hl; [|done].
  destruct (validateIdentifier "exclusive claim" name) eqn:Hv; [done|].
  destruct (lease_unusable g l); [done|]. case_bool_decide; [done|]. injection Hc as <-.
  set (l1 := set_al_exclusiveClaims ({[name]} ∪ al_exclusiveClaims l) l) in *.
  assert (Hl1 : g_aheap (upd_lease a (set_al_exclusiveClaims
    ({[name]} ∪ al_exclusiveClaims l)) g) !! a = Some l1) by (simpl; by rewrite lookup_alter_eq, Hl).
  destruct (micros_grow _ g2 a l1 Hm L1 Hl1) as (l2 & Hl2 & _ & _ & Hsub & _).
  unfold ClaimExclusive. rewrite Hl2, Hv. destruct (lease_unusable g2 l2); [done|].
  rewrite bool_decide_true; [done|]. set_solver.
Qed.

(** [acquireAttempt] grants a lease exactly when no terminal accounting is
    in progress, the latch is clear, governor and peer are open, the loopback
    lifecycle is used for connectivity tests of the machine profile only, and
    the request is admissible; then it registers exactly this request under a
    fresh lease. *)
Theorem acquireAttempt_grants g p pl request loopback reply a :
  g_pheap g !! p = Some pl ->
  (acquireAttempt p (Some None) request loopback reply g).2 = Ok a <->
  loopbackAdmissionBlockedLocked g = None /\
  (loopback = true ->
    g_profile g = ProfilePhase1Machine /\ req_Operation request = OperationConnectTest) /\
  ts_BlocksActiveWork (g_trip g) = false /\
  g_closed g = false /\ g_closing g = false /\ pl_closed pl = false /\
  admissible g pl request /\ a = g_next g /\
  (acquireAttempt p (Some None) request loopback reply g).1 =
    install_attempt p request loopback g.
Proof.
  intros Hp. rewrite <-validateAttemptLocked_None. unfold acquireAttempt. rewrite Hp.
  destruct (loopbackAdmissionBlockedLocked g); [naive_solver|].
  destruct (loopback && _) eqn:Hlb.
  { apply andb_true_iff in Hlb as [-> Hn]. split; [done|]. intros (_ & Hx & _).
    destruct (Hx eq_refl) as [H1 H2]. rewrite H1, H2 in Hn. done. }
  assert (Hlb' : loopback = true ->
    g_profile g = ProfilePhase1Machine /\ req_Operation request = OperationConnectTest).
  { intros ->. simpl in Hlb. apply orb_false_iff in Hlb as [H1%negb_false_iff H2%negb_false_iff].
    by apply bool_decide_eq_true in H1, H2. }
  destruct (ts_BlocksActiveWork (g_trip g)); [naive_solver|].
  destruct (g_closed g), (g_closing g), (pl_closed pl); simpl; try naive_solver.
  destruct (validateAttemptLocked g pl request) as [e|].
  - destruct (acquire_trip_event g pl request e); [|naive_solver].
    destruct (tripLocked reply g) as [g' [st te]]. destruct te; naive_solver.
  - naive_solver.
Qed.

Lemma tripLocked_blocks reply g :
  g_closed g = false -> ts_BlocksActiveWork (g_trip (tripLocked reply g).1) = true.
Proof.
  intros Hc. unfold tripLocked. rewrite Hc.
  destruct (ts_BlocksActiveWork (g_trip g)) eqn:Hb.
  { simpl. by destruct (trip_drain_frame g) as [-> _]. }
  destruct reply as [[status err] called].
  set (g1 := if called then _ else g). destruct (ts_BlocksActiveWork status) eqn:Hs; simpl.
  - destruct (trip_drain_frame (set_g_trip status g1)) as [-> _]. done.
  - set (g2 := set_g_trip _ _). by destruct (trip_drain_frame g2) as [-> _].
Qed.

(** A refused acquisition leaves the registry as it was: no lease is
    created and no reservation is made.  If it was refused for a limit under a
    one-shot profile, the safety latch blocks afterwards, whatever the store
    answered. *)
Theorem acquireAttempt_refused g p ctx request loopback reply g' e :
  acquireAttempt p ctx request loopback reply g = (g', Err e) ->
  g_attempts g' = g_attempts g /\ g_peers g' = g_peers g /\
  g_reserved g' = g_reserved g /\ g_heavyweightAttempts g' = g_heavyweightAttempts g /\
  (forall a, g_aheap g !! a = None <-> g_aheap g' !! a = None) /\
  (g' = g \/
   (g_profile g = ProfilePhase1ManualTraversal \/
    g_profile g = ProfilePhase1HardNATCampaign) /\
   ts_BlocksActiveWork (g_trip g') = true).
Proof.
  unfold acquireAttempt. intros H.
  destruct (g_pheap g !! p) as [pl|]; [|by simplify_eq; auto 10].
  destruct ctx as [[?|]|]; [by simplify_eq; auto 10| |by simplify_eq; auto 10].
  destruct (loopbackAdmissionBlockedLocked g); [by simplify_eq; auto 10|].
  destruct (loopback && _); [by simplify_eq; auto 10|].
  destruct (ts_BlocksActiveWork (g_trip g)); [by simplify_eq; auto 10|].
  destruct (g_closed g || g_closing g || pl_closed pl) eqn:Hc; [by simplify_eq; auto 10|].
  apply orb_false_iff in Hc as [[Hc _]%orb_false_iff _].
  destruct (validateAttemptLocked g pl request) as [e0|] eqn:Hv; [|done].
  destruct (acquire_trip_event g pl request e0) as [event|] eqn:Hev;
    [|by simplify_eq; auto 10].
  pose proof (tripLocked_soft reply g) as Hs. pose proof (tripLocked_blocks reply g Hc) as Hb.
  destruct (tripLocked reply g) as [g1 [st te]]. simpl in *.
  assert (g1 = g') as -> by (destruct te; by simplify_eq).
  split_and!; try apply Hs.
  - intros a. pose proof (soft_heap _ _ Hs a) as Ha. by destruct (g_aheap g !! a), (g_aheap g' !! a).
  - right. split; [|done]. unfold acquire_trip_event in Hev. destruct e0; try done.
    destruct (bool_decide_reflect (g_profile g = ProfilePhase1ManualTraversal)); [by left|].
    destruct (bool_decide_reflect (g_profile g = ProfilePhase1HardNATCampaign)); [by right|done].
Qed.

(** ** A trip *)

Lemma begin_stops g a l :
  g_aheap g !! a = Some l ->
  exists l', g_aheap (beginAttemptStoppingLocked g a) !! a = Some l' /\
    (al_closed l' = false -> al_stoppingStarted l' = true).
Proof.
  intros Hl. unfold beginAttemptStoppingLocked. rewrite Hl.
  destruct (al_closed l) eqn:Hc; [by exists l; rewrite Hc|].
  destruct (al_stoppingStarted l) eqn:Hs; [by exists l|]. simpl.
  exists (start_stopping l). split; [|intros _; apply start_stopping_started].
  destruct (al_terminal l); simpl; by rewrite lookup_alter_eq, Hl.
Qed.

Lemma begin_keeps_stopping g a b l :
  g_aheap g !! b = Some l -> (al_closed l = false -> al_stoppingStarted l = true) ->
  exists l', g_aheap (beginAttemptStoppingLocked g a) !! b = Some l' /\
    (al_closed l' = false -> al_stoppingStarted l' = true).
Proof.
  intros Hl Hs. destruct (decide (a = b)) as [->|Hne]; [by eapply begin_stops|].
  exists l. split; [|done]. unfold beginAttemptStoppingLocked.
  destruct (g_aheap g !! a) as [k|]; [|done]. destruct (_ || _); [done|].
  destruct (al_terminal k); simpl; by rewrite lookup_alter_ne.
Qed.

Lemma begin_all_stops l g a k :
  a ∈ l \/ (al_closed k = false -> al_stoppingStarted k = true) -> g_aheap g !! a = Some k ->
  exists k', g_aheap (begin_all g l) !! a = Some k' /\
    (al_closed k' = false -> al_stoppingStarted k' = true).
Proof.
  revert g k. induction l as [|b l IH]; intros g k Hin Hk; simpl.
  { destruct Hin as [[]%not_elem_of_nil|Hs]. by exists k. }
  destruct (decide (b = a)) as [->|Hne].
  - destruct (begin_stops g a k Hk) as (k1 & Hk1 & Hs1). apply (IH _ k1); [by right|done].
  - assert (Hk1 : g_aheap (beginAttemptStoppingLocked g b) !! a = Some k).
    { unfold beginAttemptStoppingLocked. destruct (g_aheap g !! b) as [x|]; [|done].
      destruct (_ || _); [done|]. destruct (al_terminal x); simpl; by rewrite lookup_alter_ne. }
    apply (IH _ k); [|done]. destruct Hin as [Hin|]; [|by right].
    apply elem_of_cons in Hin as [->|]; [done|by left].
Qed.

Lemma trip_drain_stops g id a :
  registry g -> g_attempts g !! id = Some a ->
  exists l, g_aheap (beginSafetyTripDrainLocked g) !! a = Some l /\
    (al_closed l = false -> al_stoppingStarted l = true).
Proof.
  intros R Ha. destruct (reg_attempt g R id a Ha) as (k & _ & Hk & _).
  destruct (begin_all_stops (activeAttemptsLocked g) g a k) as (k' & Hk' & Hs); [|done|].
  { left. apply list_elem_of_fmap. exists (id, a). split; [done|]. by apply elem_of_map_to_list. }
  exists k'. split; [|done]. unfold beginSafetyTripDrainLocked. by destruct (_ || _).
Qed.

(** With a store that keeps its promise, a valid trip of an open governor
    whose latch is clear publishes exactly the status and the error the store
    returned, that status blocks active work, and every active attempt is
    stopping when the critical section ends. *)
Theorem Governor_Trip_stops_everything `{!TripStoreLaws St} g event status err called :
  reachable g -> g_closed g = false -> ts_BlocksActiveWork (g_trip g) = false ->
  validateSafetyTripEvent event = None -> store_reply event (status, err, called) ->
  let r := Governor_Trip event (status, err, called) g in
  r.2 = (status, err) /\ g_trip r.1 = status /\ ts_BlocksActiveWork status = true /\
  forall id a, g_attempts r.1 !! id = Some a ->
    exists l, g_aheap r.1 !! a = Some l /\ al_stoppingStarted l = true.
Proof.
  intros Hr Hc Hb Hev Hst. pose proof (store_reply_blocks _ _ _ _ Hst Hev) as Hs.
  destruct (reachable_inv g Hr) as [R _].
  unfold Governor_Trip, tripLocked. rewrite Hev, Hc, Hb, Hs. simpl.
  set (g1 := set_g_trip status _).
  assert (R1 : registry g1).
  { eapply registry_soft; [|exact R]. unfold g1. destruct called; [|apply set_trip_soft].
    etrans; [apply trip_drain_soft | apply set_trip_soft]. }
  destruct (trip_drain_frame g1) as [Ht _]. rewrite Ht. split_and!; [done..|].
  pose proof (trip_drain_soft g1) as Hsoft.
  intros id a Ha. rewrite (soft_attempts _ _ Hsoft) in Ha.
  destruct (trip_drain_stops g1 id a R1 Ha) as (l & Hl & Hstop). exists l. split; [done|].
  apply Hstop. pose proof (registry_soft _ _ Hsoft R1) as R2.
  rewrite <-(soft_attempts _ _ Hsoft) in Ha.
  destruct (reg_attempt _ R2 id a Ha) as (l' & _ & Hl' & Hcl & _). congruence.
Qed.
End theorems.
