(* ===== verification/GovernorRuns.v ===== *)
(** * Concrete runs of the governor

    Executions that reach the interesting states: they are the witnesses of the
    theorems of GovernorThms.v, over the disk store of SafetyTrip.v, and one of
    them shows what a cancellation timeout of several ordinary attempts does. *)
From S2P Require Import Prelude GoStd Limits SafetyTrip Governor GovernorSteps GovernorInv GovernorMicro GovernorLocal GovernorThms.

(** ** The disk store discharges the interface of the governor *)

#[export] Instance disk_store_laws (C : TripCodec) : TripStoreLaws (disk_store C).
Proof.
  intros event status err called (io & now & d & Hr) Hev. cbv zeta in Hr. simplify_eq.
  by apply tripThen_blocks.
Qed.

Section reach.
Context {St : TripStore} {F : Sprintf}.

Lemma reach_step g g' : gstep g g' -> reachable g -> reachable g'.
Proof. intros Hs (g0 & Hi & Hst). exists g0. split; [done|]. by eapply rtc_r. Qed.

(** Steps of a run, with their side conditions in executable form. *)
Lemma reach_acquire p pl request loopback reply g :
  g_pheap g !! p = Some pl -> validateAttemptLocked g pl request = None ->
  reachable g -> reachable (acquireAttempt p (Some None) request loopback reply g).1.
Proof.
  intros Hp Hv. apply reach_step, step_acquireAttempt.
  intros pl' e event Hp' Hv'. congruence.
Qed.
End reach.

(** ** Sample environment *)

#[export] Instance sample_store : TripStore := disk_store sample_codec.
#[export] Instance sample_sprintf : Sprintf := fun _ _ first => "pending " +:+ first.

Definition sample_owner : Owner := mkOwner ScopeMachine "v1" true false false.
Definition clear_status : SafetyTripStatus := @readLocked sample_codec (Some sample_file).

Definition machine_start : Governor :=
  match newGovernor (Some sample_owner) clear_status ProfilePhase1Machine None with
  | Ok (_, g) => g
  | Err _ => mkGovernor ProfilePhase1Machine (mkLimits 0 0 0 0 0 0 resources_zero resources_zero)
      "" trip_status_zero false false None false 0 None ∅ ∅ resources_zero 0 ∅ ∅ ∅ ∅ 0 true
  end.

Definition sample_request (id : string) (heavy : bool) : AttemptRequest :=
  mkRequest id OperationConnectTest (mkCost (mkResources 1 1 1 10 1) (5 * Second) heavy).

Lemma machine_start_initial : initial machine_start.
Proof.
  destruct (newGovernor (Some sample_owner) clear_status ProfilePhase1Machine None)
    as [[o g]|] eqn:E; [|vm_compute in E; discriminate].
  exists (Some sample_owner), clear_status, ProfilePhase1Machine, None, o.
  unfold machine_start. by rewrite E.
Qed.

Lemma machine_start_reachable : reachable machine_start.
Proof. exists machine_start. split; [exact machine_start_initial|done]. Qed.

(** The thread [tid] of [g]. *)
Definition thread_of (g : Governor) (tid : nat) : drain_thread :=
  match g_drainThreads g !! tid with
  | Some t => t | None => mkDrainThread ForAttempt [] [] DStopPhased end.

Lemma thread_of_phase g tid ph :
  dt_phase <$> g_drainThreads g !! tid = Some ph ->
  g_drainThreads g !! tid = Some (thread_of g tid) /\ dt_phase (thread_of g tid) = ph.
Proof. unfold thread_of. destruct (g_drainThreads g !! tid); naive_solver. Qed.

(** *** Two attempts with one pending drain each *)

Definition no_reply : trip_reply := (trip_status_zero, None, false).

Definition two_1 : Governor := (AcquirePeer "p1" machine_start).1.
Definition two_2 : Governor := (AcquirePeer "p2" two_1).1.
Definition two_3 : Governor :=
  (acquireAttempt 0 (Some None) (sample_request "a" false) false no_reply two_2).1.
Definition two_4 : Governor :=
  (acquireAttempt 1 (Some None) (sample_request "b" true) false no_reply two_3).1.
Definition two_5 : Governor := (registerDrain 2 "probe" false two_4).1.
Definition two_6 : Governor := (registerDrain 3 "probe" false two_5).1.

Lemma two_6_reachable : reachable two_6.
Proof.
  apply reach_step with two_5; [apply step_registerDrain|].
  apply reach_step with two_4; [apply step_registerDrain|].
  eapply (reach_acquire 1 (mkPeer "p2" ∅ false)); [vm_compute; reflexivity..|].
  eapply (reach_acquire 0 (mkPeer "p1" ∅ false)); [vm_compute; reflexivity..|].
  apply reach_step with two_1; [apply step_AcquirePeer|].
  apply reach_step with machine_start; [apply step_AcquirePeer|].
  apply machine_start_reachable.
Qed.

(** [Governor.Close]; the timer fires while both are pending; the first one
    completes before the governor looks at it again. *)
Definition two_7 : Governor := Governor_Close two_6.
Definition two_8 : Governor := drain_stop_phased 4 (thread_of two_7 4) two_7.
Definition two_9 : Governor := drain_stop_ordinary 4 (thread_of two_8 4) two_8.
Definition two_10 : Governor := drain_wait 4 (thread_of two_9 4) (Some 2%nat) two_9.
Definition two_11 : Governor := Complete 2 1 two_10.
Definition two_12 : Governor := drain_timed_out no_reply 4 (thread_of two_11 4) 2 two_11.
Definition two_13 : Governor := drain_release 4 (thread_of two_12 4) None two_12.

Lemma two_13_reachable : reachable two_13.
Proof.
  destruct (thread_of_phase two_7 4 DStopPhased) as [H7 P7]; [vm_compute; reflexivity|].
  destruct (thread_of_phase two_8 4 DStopOrdinary) as [H8 P8]; [vm_compute; reflexivity|].
  destruct (thread_of_phase two_9 4 DWait) as [H9 P9]; [vm_compute; reflexivity|].
  destruct (thread_of_phase two_11 4 (DTimedOut 2)) as [H11 P11]; [vm_compute; reflexivity|].
  destruct (thread_of_phase two_12 4 (DRelease None)) as [H12 P12]; [vm_compute; reflexivity|].
  apply reach_step with two_12; [exact (step_release 4 _ None two_12 H12 P12)|].
  apply reach_step with two_11.
  { apply step_timed_out; [done..|]. intros l Hl. vm_compute in Hl. discriminate. }
  apply reach_step with two_10; [apply step_Complete|].
  apply reach_step with two_9.
  { eapply (step_wait _ _ true); [done..|]. vm_compute. reflexivity. }
  apply reach_step with two_8; [exact (step_stop_ordinary 4 _ two_8 H8 P8)|].
  apply reach_step with two_7; [exact (step_stop_phased 4 _ two_7 H7 P7)|].
  apply reach_step with two_6; [apply step_Governor_Close|]. apply two_6_reachable.
Qed.

(** [Done] of an ordinary attempt is not a drain witness.  When the
    cancellation timer of one call of [drainAttempts] finds two attempts
    pending, only the first one is looked at again; if it completes just then,
    no trip is recorded, and the other attempt is released ([Done] closed, its
    reservation given back) while its drain is still registered. *)
Theorem ordinary_done_not_drained :
  exists g a l, reachable g /\ g_aheap g !! a = Some l /\
    closed_chan (al_done l) = true /\ al_drains l <> ∅ /\
    ts_BlocksActiveWork (g_trip g) = false /\ g_attempts g = ∅.
Proof.
  exists two_13, 3%nat. destruct (g_aheap two_13 !! 3%nat) as [l|] eqn:Hl;
    [|vm_compute in Hl; discriminate].
  exists l. split; [apply two_13_reachable|]. split; [done|].
  vm_compute in Hl. injection Hl as <-. vm_compute. by split_and!.
Qed.

(** *** One loopback attempt, closed and settled *)

Definition loop_1 : Governor := (AcquirePeer "p1" machine_start).1.
Definition loop_2 : Governor :=
  (acquireAttempt 0 (Some None) (sample_request "a" false) true no_reply loop_1).1.
Definition loop_3 : Governor := (ClaimExclusive 1 "carrier" loop_2).1.
Definition loop_4 : Governor := AttemptLease_Close 1 loop_3.
Definition loop_5 : Governor := term_network_ok 1 loop_4.
Definition loop_6 : Governor := term_network_done 1 None loop_5.
Definition loop_7 : Governor := term_accounting 1 None false loop_6.
Definition loop_8 : Governor := term_verdict 1 None false loop_7.

Lemma loop_2_reachable : reachable loop_2.
Proof.
  eapply (reach_acquire 0 (mkPeer "p1" ∅ false)); [vm_compute; reflexivity..|].
  apply reach_step with machine_start; [apply step_AcquirePeer|].
  apply machine_start_reachable.
Qed.

Lemma loop_4_reachable : reachable loop_4.
Proof.
  apply reach_step with loop_3; [apply step_AttemptLease_Close|].
  apply reach_step with loop_2; [apply step_ClaimExclusive|]. apply loop_2_reachable.
Qed.

Definition terminal_of (g : Governor) (a : ptr) : loopbackTerminal :=
  match lease_terminal g a with Some t => t | None => newLoopbackTerminal end.

Lemma loop_8_reachable : reachable loop_8.
Proof.
  apply reach_step with loop_7; [apply step_verdict; vm_compute; reflexivity|].
  apply reach_step with loop_6.
  { apply (step_accounting 1 (terminal_of loop_6 1)); vm_compute; reflexivity. }
  apply reach_step with loop_5; [apply step_network_done; vm_compute; reflexivity|].
  apply reach_step with loop_4.
  { apply (step_network_ok 1 (terminal_of loop_4 1)); vm_compute; reflexivity. }
  apply loop_4_reachable.
Qed.

(** *** Closing the governor *)

Definition close_1 : Governor := Governor_Close loop_8.
Definition close_2 : Governor := drain_stop_phased 2 (thread_of close_1 2) close_1.
Definition close_3 : Governor := drain_stop_ordinary 2 (thread_of close_2 2) close_2.
Definition close_4 : Governor :=
  set_thread 2 (set_dt_phase (DFinish None) (thread_of close_3 2)) close_3.
Definition close_5 : Governor := drain_finish 2 (thread_of close_4 2) None close_4.
Definition close_6 : Governor := finish_close_owner 2 None None close_5.

Lemma close_6_reachable : reachable close_6.
Proof.
  destruct (thread_of_phase close_1 2 DStopPhased) as [H1 P1]; [vm_compute; reflexivity|].
  destruct (thread_of_phase close_2 2 DStopOrdinary) as [H2 P2]; [vm_compute; reflexivity|].
  destruct (thread_of_phase close_3 2 (DPhased [] None)) as [H3 P3]; [vm_compute; reflexivity|].
  destruct (thread_of_phase close_4 2 (DFinish None)) as [H4 P4]; [vm_compute; reflexivity|].
  destruct (thread_of_phase close_5 2 (DCloseOwner None)) as [H5 P5]; [vm_compute; reflexivity|].
  apply reach_step with close_5; [exact (step_close_owner 2 _ None None close_5 H5 P5)|].
  apply reach_step with close_4; [exact (step_finish 2 _ None close_4 H4 P4)|].
  apply reach_step with close_3; [exact (step_phased_end 2 _ None close_3 H3 P3)|].
  apply reach_step with close_2; [exact (step_stop_ordinary 2 _ close_2 H2 P2)|].
  apply reach_step with close_1; [exact (step_stop_phased 2 _ close_1 H1 P1)|].
  apply reach_step with loop_8; [apply step_Governor_Close|]. apply loop_8_reachable.
Qed.

(** *** An operator trip *)

Definition sample_reply : trip_reply :=
  (run_status sample_tripped, run_err sample_tripped, run_after_latch sample_tripped).

Definition trip_1 : Governor := (Governor_Trip sample_event sample_reply two_6).1.
Definition trip_2 : Governor := (AcquirePeer "p3" trip_1).1.

Lemma trip_1_reachable : reachable trip_1.
Proof.
  apply reach_step with two_6; [|apply two_6_reachable]. apply step_Governor_Trip.
  exists io_all_ok, (mkTime 2 true), (Some sample_file). cbv zeta.
  unfold sample_reply, sample_tripped. reflexivity.
Qed.

(** ** Witnesses *)

Lemma governor_accounting_witness :
  g_reserved two_6 = mkResources 2 2 2 20 2 /\
  g_reserved two_6 = total_cost (g_aheap two_6) (g_attempts two_6).
Proof.
  split; [vm_compute; reflexivity|]. exact (proj1 (governor_accounting two_6 two_6_reachable)).
Defined.

Lemma latched_forever_witness :
  ts_BlocksActiveWork (g_trip trip_1) = true /\ latched trip_2.
Proof.
  split; [vm_compute; reflexivity|].
  refine (proj1 (latched_forever trip_1 trip_2 trip_1_reachable _ _)).
  - left. vm_compute. reflexivity.
  - apply rtc_once, step_AcquirePeer.
Defined.

Definition lease_of (g : Governor) (a : ptr) : AttemptLease :=
  match g_aheap g !! a with
  | Some l => l | None => new_lease 0 (sample_request "" false) false end.

Lemma channels_close_once_witness :
  al_done (lease_of loop_8 1) = 1%nat /\ (al_done (lease_of loop_8 1) <= 1)%nat.
Proof.
  split; [vm_compute; reflexivity|].
  refine (proj2 (proj2 (proj1 (channels_close_once loop_8 1 (lease_of loop_8 1)
    loop_8_reachable _)))).
  vm_compute. reflexivity.
Defined.

Lemma loopback_done_is_drained_witness :
  closed_chan (al_done (lease_of loop_8 1)) = true /\ al_drains (lease_of loop_8 1) = ∅.
Proof.
  split; [vm_compute; reflexivity|].
  refine (proj1 (loopback_done_is_drained loop_8 1 (lease_of loop_8 1) (terminal_of loop_8 1)
    loop_8_reachable _ _ _)); vm_compute; reflexivity.
Defined.

Lemma finalizing_blocks_admission_witness : loopbackAdmissionBlockedLocked loop_4 <> None.
Proof.
  refine (finalizing_blocks_admission loop_4 1 TNetwork loop_4_reachable _).
  vm_compute. reflexivity.
Defined.

Lemma owner_released_witness : g_attempts close_6 = ∅ /\ g_terms close_6 = ∅.
Proof.
  assert (Ho : g_ownerHeld close_6 = false) by (vm_compute; reflexivity).
  destruct (owner_released_only_when_idle close_6 close_6_reachable Ho)
    as (_ & Ha & _ & _ & Ht & _).
  exact (conj Ha Ht).
Defined.

Lemma exclusive_claim_once_witness : (ClaimExclusive 1 "carrier" loop_3).2 <> None.
Proof.
  refine (proj1 (exclusive_claim_once loop_2 loop_3 loop_3 1 "carrier" loop_2_reachable _ _)).
  - vm_compute. reflexivity.
  - apply rtc_refl.
Defined.

Lemma acquireAttempt_grants_witness :
  admissible loop_1 (mkPeer "p1" ∅ false) (sample_request "a" false).
Proof.
  refine (proj1 (proj2 (proj2 (proj2 (proj2 (proj2 (proj2 (proj1
    (acquireAttempt_grants loop_1 0 (mkPeer "p1" ∅ false) (sample_request "a" false) true
       no_reply 1 _) _)))))))); vm_compute; reflexivity.
Defined.

(** A second attempt of a peer under the manual profile. *)
Definition manual_start : Governor :=
  match newGovernor (Some sample_owner) clear_status ProfilePhase1ManualTraversal None with
  | Ok (_, g) => g | Err _ => machine_start end.

Definition manual_1 : Governor := (AcquirePeer "p1" manual_start).1.
Definition manual_request : AttemptRequest :=
  mkRequest "a" OperationPrediction (mkCost (mkResources 1 1 1 9999 1) Second false).

Lemma acquireAttempt_refused_witness :
  g_profile manual_1 = ProfilePhase1ManualTraversal /\
  g_reserved (acquireAttempt 0 (Some None) manual_request false no_reply manual_1).1 =
  g_reserved manual_1.
Proof.
  split; [vm_compute; reflexivity|].
  destruct (acquireAttempt 0 (Some None) manual_request false no_reply manual_1)
    as [g' [a|e]] eqn:E; [vm_compute in E; discriminate|].
  exact (proj1 (proj2 (proj2 (acquireAttempt_refused manual_1 0 (Some None) manual_request false
    no_reply g' e E)))).
Defined.

Lemma Governor_Trip_stops_everything_witness :
  g_trip trip_1 = run_status sample_tripped.
Proof.
  refine (proj1 (proj2 (Governor_Trip_stops_everything (St := sample_store) two_6 sample_event
    (run_status sample_tripped) (run_err sample_tripped) (run_after_latch sample_tripped)
    two_6_reachable _ _ _ _))); [vm_compute; reflexivity..|].
  exists io_all_ok, (mkTime 2 true), (Some sample_file). cbv zeta.
  unfold sample_tripped. reflexivity.
Defined.
