(* ===== verification/Ledger.v ===== *)
(** * The pairing admission journal: data and validation
    (src/internal/governor/pairing_ledger.go, pairing_ledger_format.go,
     hard_nat_campaign_ledger.go)

    The journal is an append-only file of length-prefixed, checksummed JSON
    records.  This file has the record and status types, the validation of
    requests and records, and the policy constants. *)
From S2P Require Import Prelude GoStd Limits SafetyTrip Governor.

(** ** Constants *)
Definition pairingLedgerSchemaVersion : Z := 1.
Definition maxPairingLedgerBytes : Z := 4194304.
Definition maxPairingLedgerRecords : Z := 8192.
Definition maxPairingLedgerFrameBytes : Z := 16384.
Definition pairingAdmissionMinimumInterval : Z := 60 * Second.
Definition pairingAdmissionOneHourWindow : Z := Hour.
Definition pairingAdmissionOneHourLimit : Z := 4.
Definition pairingAdmissionDayWindow : Z := 24 * Hour.
Definition pairingAdmissionDayLimit : Z := 12.
Definition pairingAdmissionDayPackets : Z := 2048.
Definition pairingAdmissionFailureLimit : Z := 3.
Definition pairingAdmissionCircuitHorizon : Z := 6 * Hour.
Definition pairingLedgerClockRollbackSkew : Z := 2 * Minute.
Definition pairingCredentialMaxLifetime : Z := 10 * Minute.
Definition hardNATCampaignWindow : Z := 24 * Hour.
Definition hardNATCampaignAdmissions : Z := 1.
Definition hardNATCampaignPackets : Z := 16432.

(** ** Enumerations *)
Inductive PairingLedgerState :=
| PairingLedgerReady
| PairingLedgerNotInitialized
| PairingLedgerIndeterminate
| PairingLedgerRateLimited
| PairingLedgerCircuitOpen
| PairingLedgerCapacityFull
| PairingLedgerClockRollback
| PairingLedgerStateOther (s : string).

#[export] Instance PairingLedgerState_eq_dec : EqDecision PairingLedgerState.
Proof. solve_decision. Defined.

Inductive PairingLedgerRecordClass :=
| PairingRecordClassOrdinary
| PairingRecordClassHardNATCampaign
| PairingRecordClassOther (s : string).

#[export] Instance PairingLedgerRecordClass_eq_dec : EqDecision PairingLedgerRecordClass.
Proof. solve_decision. Defined.

#[export] Instance PairingLedgerRecordClass_countable : Countable PairingLedgerRecordClass.
Proof.
  refine (inj_countable'
    (fun c => match c with
      | PairingRecordClassOrdinary => (0%nat, "") | PairingRecordClassHardNATCampaign => (1%nat, "")
      | PairingRecordClassOther t => (2%nat, t) end)
    (fun '(n, t) => match n with
      | 0%nat => PairingRecordClassOrdinary | 1%nat => PairingRecordClassHardNATCampaign
      | _ => PairingRecordClassOther t end) _).
  by intros [].
Defined.

Definition RecordClass_valid (c : PairingLedgerRecordClass) : bool :=
  match c with PairingRecordClassOther _ => false | _ => true end.

Inductive PairingTerminalReason :=
| PairingTerminalSuccess
| PairingTerminalCancelled
| PairingTerminalExpired
| PairingTerminalProtocolError
| PairingTerminalScopeChanged
| PairingTerminalCarrierError
| PairingTerminalOther (s : string).

#[export] Instance PairingTerminalReason_eq_dec : EqDecision PairingTerminalReason.
Proof. solve_decision. Defined.

#[export] Instance PairingTerminalReason_countable : Countable PairingTerminalReason.
Proof.
  refine (inj_countable'
    (fun c => match c with
      | PairingTerminalSuccess => (0%nat, "") | PairingTerminalCancelled => (1%nat, "")
      | PairingTerminalExpired => (2%nat, "") | PairingTerminalProtocolError => (3%nat, "")
      | PairingTerminalScopeChanged => (4%nat, "") | PairingTerminalCarrierError => (5%nat, "")
      | PairingTerminalOther t => (6%nat, t) end)
    (fun '(n, t) => match n with
      | 0%nat => PairingTerminalSuccess | 1%nat => PairingTerminalCancelled
      | 2%nat => PairingTerminalExpired | 3%nat => PairingTerminalProtocolError
      | 4%nat => PairingTerminalScopeChanged | 5%nat => PairingTerminalCarrierError
      | _ => PairingTerminalOther t end) _).
  by intros [].
Defined.

Definition TerminalReason_valid (r : PairingTerminalReason) : bool :=
  match r with PairingTerminalOther _ => false | _ => true end.

(** The empty reason, scope and class of the zero record. *)
Definition no_terminal : PairingTerminalReason := PairingTerminalOther "".
Definition no_scope : Scope := ScopeOther "".

Inductive pairingJournalRecordType :=
| pairingRecordInitialize
| pairingRecordRebuildBaseline
| pairingRecordBurnAndAdmit
| pairingRecordFinish
| pairingRecordCircuitReset
| pairingRecordOther (s : string).

#[export] Instance pairingJournalRecordType_eq_dec : EqDecision pairingJournalRecordType.
Proof. solve_decision. Defined.

#[export] Instance pairingJournalRecordType_countable : Countable pairingJournalRecordType.
Proof.
  refine (inj_countable'
    (fun c => match c with
      | pairingRecordInitialize => (0%nat, "") | pairingRecordRebuildBaseline => (1%nat, "")
      | pairingRecordBurnAndAdmit => (2%nat, "") | pairingRecordFinish => (3%nat, "")
      | pairingRecordCircuitReset => (4%nat, "") | pairingRecordOther t => (5%nat, t) end)
    (fun '(n, t) => match n with
      | 0%nat => pairingRecordInitialize | 1%nat => pairingRecordRebuildBaseline
      | 2%nat => pairingRecordBurnAndAdmit | 3%nat => pairingRecordFinish
      | 4%nat => pairingRecordCircuitReset | _ => pairingRecordOther t end) _).
  by intros [].
Defined.

(** ** Limits and statuses *)
Record PairingAdmissionLimits := mkAdmissionLimits {
  pal_MinimumInterval : Z;
  pal_OneHourAdmissions : Z;
  pal_TwentyFourHourAdmissions : Z;
  pal_TwentyFourHourPackets : Z;
  pal_FailureLimit : Z;
  pal_CircuitHorizon : Z;
  pal_ClockRollbackTolerance : Z;
  pal_MaxJournalBytes : Z;
  pal_MaxJournalRecords : Z;
}.

Definition PairingAdmissionHardLimits : PairingAdmissionLimits := {|
  pal_MinimumInterval := pairingAdmissionMinimumInterval;
  pal_OneHourAdmissions := pairingAdmissionOneHourLimit;
  pal_TwentyFourHourAdmissions := pairingAdmissionDayLimit;
  pal_TwentyFourHourPackets := pairingAdmissionDayPackets;
  pal_FailureLimit := pairingAdmissionFailureLimit;
  pal_CircuitHorizon := pairingAdmissionCircuitHorizon;
  pal_ClockRollbackTolerance := pairingLedgerClockRollbackSkew;
  pal_MaxJournalBytes := maxPairingLedgerBytes;
  pal_MaxJournalRecords := maxPairingLedgerRecords |}.

Record PairingLedgerStatus := mkLedgerStatus {
  ps_State : PairingLedgerState;
  ps_BlocksActiveWork : bool;
  ps_Sequence : Z;
  ps_Records : Z;
  ps_Bytes : Z;
  ps_HighWatermark : Time;
  ps_LastAdmissionAt : Time;
  ps_OneHourAdmissions : Z;
  ps_TwentyFourHourAdmissions : Z;
  ps_TwentyFourHourPackets : Z;
  ps_ConsecutiveFailures : Z;
  ps_CircuitOpenedAt : Time;
  ps_CircuitResetEligibleAt : Time;
  ps_ExplicitResetRequired : bool;
  ps_NextAdmissionAt : Time;
  ps_Limits : PairingAdmissionLimits;
  ps_Detail : string;
}.

(** A status with only the fields a literal of the code names. *)
Definition ledger_status (state : PairingLedgerState) (blocks : bool)
    (sequence records bytes : Z) (highWatermark : Time) (limits : PairingAdmissionLimits)
    (detail : string) : PairingLedgerStatus :=
  mkLedgerStatus state blocks sequence records bytes highWatermark time_zero 0 0 0 0 time_zero
    time_zero false time_zero limits detail.

(** The zero value. *)
Definition ledger_status_zero : PairingLedgerStatus :=
  ledger_status (PairingLedgerStateOther "") false 0 0 0 time_zero
    (mkAdmissionLimits 0 0 0 0 0 0 0 0 0) "".

Definition indeterminatePairingLedgerStatus (detail : string) : PairingLedgerStatus :=
  ledger_status PairingLedgerIndeterminate true 0 0 0 time_zero PairingAdmissionHardLimits detail.

(** [status] with another state that blocks. *)
Definition blocked_status (state : PairingLedgerState) (detail : string)
    (s : PairingLedgerStatus) : PairingLedgerStatus :=
  mkLedgerStatus state true (ps_Sequence s) (ps_Records s) (ps_Bytes s) (ps_HighWatermark s)
    (ps_LastAdmissionAt s) (ps_OneHourAdmissions s) (ps_TwentyFourHourAdmissions s)
    (ps_TwentyFourHourPackets s) (ps_ConsecutiveFailures s) (ps_CircuitOpenedAt s)
    (ps_CircuitResetEligibleAt s) (ps_ExplicitResetRequired s) (ps_NextAdmissionAt s)
    (ps_Limits s) detail.

(** ** Errors *)
Inductive ledger_cause :=
| ErrPairingLedgerNotInitialized
| ErrPairingLedgerIndeterminate
| ErrPairingCredentialUsed
| ErrPairingAdmissionRateLimited
| ErrPairingAdmissionCircuitOpen
| ErrPairingLedgerCapacity
| ErrPairingLedgerClockRollback.

(** [EPairingLedger] is [*PairingLedgerError]; [EGovernor] wraps the errors of
    the resource checks. *)
Inductive ledgererr :=
| ErrPairingLedgerInvalidRequest (msg : string)
| ErrPairingMachineScopeRequired (msg : string)
| ErrPairingLedgerResetRejected (msg : string)
| ErrHardNATCampaignRateLimited (admissions packets : Z)
| ErrHardNATCampaignCircuitOpen (sequence : Z)
| EPairingLedger (status : PairingLedgerStatus) (cause : ledger_cause)
| EGovernor (e : goerr)
| EJournal (msg : string).

(** ** Records *)
Record PairingAdmissionEnvelope := mkEnvelope {
  env_Sockets : Z;
  env_Targets : Z;
  env_PacketsPerSecond : Z;
  env_Packets : Z;
  env_FiveTuples : Z;
  env_DurationMillis : Z;
  env_Heavyweight : bool;
}.

#[export] Instance PairingAdmissionEnvelope_eq_dec : EqDecision PairingAdmissionEnvelope.
Proof. solve_decision. Defined.

#[export] Instance PairingAdmissionEnvelope_countable : Countable PairingAdmissionEnvelope.
Proof.
  refine (inj_countable'
    (fun e => (env_Sockets e, env_Targets e, env_PacketsPerSecond e, env_Packets e,
               env_FiveTuples e, env_DurationMillis e, env_Heavyweight e))
    (fun '(a, b, c, d, e, f, g) => mkEnvelope a b c d e f g) _).
  by intros [].
Defined.

Definition envelope_zero : PairingAdmissionEnvelope := mkEnvelope 0 0 0 0 0 0 false.

Definition PairingEnvelopeFromAttemptCost (cost : AttemptCost) : PairingAdmissionEnvelope :=
  let r := cost_Resources cost in
  mkEnvelope (Sockets r) (Targets r) (PacketsPerSecond r) (Packets r) (FiveTuples r)
    (Milliseconds (cost_Duration cost)) (cost_Heavyweight cost).

Definition envelope_resources (e : PairingAdmissionEnvelope) : Resources :=
  mkResources (env_Sockets e) (env_Targets e) (env_PacketsPerSecond e) (env_Packets e)
    (env_FiveTuples e).

Definition hardNATCampaignEnvelope : PairingAdmissionEnvelope :=
  mkEnvelope 16 16400 512 16432 16400 47000 true.

Record PairingAdmissionRequest := mkAdmissionRequest {
  par_RecordClass : PairingLedgerRecordClass;
  par_CredentialID : string;
  par_AttemptID : string;
  par_ContextDigest : string;
  par_Scope : Scope;
  par_ExpiresAt : Time;
  par_Envelope : PairingAdmissionEnvelope;
}.

Record pairingJournalRecord := mkRecord {
  jr_SchemaVersion : Z;
  jr_Sequence : Z;
  jr_Type : pairingJournalRecordType;
  jr_RecordedAt : Time;
  jr_RecordClass : PairingLedgerRecordClass;
  jr_CredentialID : string;
  jr_AttemptID : string;
  jr_ContextDigest : string;
  jr_OwnerInstanceID : string;
  jr_Scope : Scope;
  jr_ExpiresAt : Time;
  jr_Envelope : PairingAdmissionEnvelope;
  jr_Reason : PairingTerminalReason;
  jr_ResetNote : string;
}.

#[export] Instance pairingJournalRecord_eq_dec : EqDecision pairingJournalRecord.
Proof. solve_decision. Defined.

#[export] Instance pairingJournalRecord_countable : Countable pairingJournalRecord.
Proof.
  refine (inj_countable'
    (fun r => ((jr_SchemaVersion r, jr_Sequence r, jr_Type r, jr_RecordedAt r, jr_RecordClass r,
                jr_CredentialID r, jr_AttemptID r),
               (jr_ContextDigest r, jr_OwnerInstanceID r, jr_Scope r, jr_ExpiresAt r,
                jr_Envelope r, jr_Reason r, jr_ResetNote r)))
    (fun '((a, b, c, d, e, f, g), (h, i, j, k, l, m, n)) =>
       mkRecord a b c d e f g h i j k l m n) _).
  by intros [].
Defined.

(** ** Validation *)

Definition validatePairingOpaqueID (field value : string) : option ledgererr :=
  if canonical_base64 16 value then None
  else Some (ErrPairingLedgerInvalidRequest (field +:+ " must encode exactly 16 bytes")).

Definition validatePairingOwnerInstanceID (value : string) : option ledgererr :=
  if canonical_hex 16 value then None
  else Some (ErrPairingLedgerInvalidRequest "owner instance id").

Definition validatePairingResetNote (note : string) : option ledgererr :=
  if negb (trimmed note) || bool_decide (note = "") || negb (valid_utf8 note)
     || (maxSafetyTripNoteLen <? slen note) || has_control note
  then Some (EJournal "pairing circuit reset note is missing, malformed, or too long")
  else None.

Definition resourceMaximum (left right : Resources) : Resources :=
  mkResources (Z.max (Sockets left) (Sockets right)) (Z.max (Targets left) (Targets right))
    (Z.max (PacketsPerSecond left) (PacketsPerSecond right))
    (Z.max (Packets left) (Packets right)) (Z.max (FiveTuples left) (FiveTuples right)).

Definition validatePairingEnvelope (envelope : PairingAdmissionEnvelope) : option ledgererr :=
  let resources := envelope_resources envelope in
  match validateNonNegative resources with
  | Some _ => Some (ErrPairingLedgerInvalidRequest "negative resource")
  | None =>
      if bool_decide (resources = resources_zero) then
        Some (ErrPairingLedgerInvalidRequest "envelope reserves no resources")
      else if env_Packets envelope <=? 0 then
        Some (ErrPairingLedgerInvalidRequest "packet reservation must be positive")
      else if env_DurationMillis envelope <=? 0 then
        Some (ErrPairingLedgerInvalidRequest "duration must be positive")
      else match HardLimits ProfilePhase1Machine, HardLimits ProfilePhase1ManualTraversal with
      | Ok machine, Ok manual =>
          match limit_error "pairing_per_attempt_" (firstResourceExcess resources
                  (resourceMaximum (PerAttempt machine) (PerAttempt manual))) with
          | Some e => Some (EGovernor e)
          | None =>
              let maximumDuration :=
                if MaxAttemptDuration machine <? MaxAttemptDuration manual
                then MaxAttemptDuration manual else MaxAttemptDuration machine in
              if Milliseconds maximumDuration <? env_DurationMillis envelope then
                Some (EGovernor (ELimit "pairing_attempt_duration_ms"
                  (env_DurationMillis envelope) (Milliseconds maximumDuration)))
              else if env_Heavyweight envelope && (MaxHeavyweightAttempts machine =? 0)
                      && (MaxHeavyweightAttempts manual =? 0) then
                Some (ErrPairingLedgerInvalidRequest "heavyweight attempt is unavailable")
              else None
          end
      | Err e, _ | _, Err e => Some (EGovernor e)
      end
  end.

Definition validatePairingAdmissionRequest (request : PairingAdmissionRequest)
    : option ledgererr :=
  if negb (RecordClass_valid (par_RecordClass request)) then
    Some (ErrPairingLedgerInvalidRequest "unknown record class")
  else if negb (bool_decide (par_Scope request = ScopeMachine)) then
    Some (ErrPairingMachineScopeRequired "")
  else
    (validatePairingOpaqueID "credential id" (par_CredentialID request) &then
     validatePairingOpaqueID "attempt id" (par_AttemptID request) &then
     if bool_decide (par_CredentialID request = par_AttemptID request) then
       Some (ErrPairingLedgerInvalidRequest "credential and attempt ids must differ")
     else if negb (canonical_hex 32 (par_ContextDigest request)) then
       Some (ErrPairingLedgerInvalidRequest "context digest")
     else if IsZero (par_ExpiresAt request) || negb (utc_loc (par_ExpiresAt request)) then
       Some (ErrPairingLedgerInvalidRequest "expiry must be UTC")
     else if bool_decide (par_RecordClass request = PairingRecordClassHardNATCampaign) then
       if negb (bool_decide (par_Envelope request = hardNATCampaignEnvelope)) then
         Some (ErrPairingLedgerInvalidRequest "hard NAT campaign envelope is not exact")
       else None
     else validatePairingEnvelope (par_Envelope request))%go.

(** The request a burn record stands for. *)
Definition record_request (record : pairingJournalRecord) : PairingAdmissionRequest :=
  mkAdmissionRequest (jr_RecordClass record) (jr_CredentialID record) (jr_AttemptID record)
    (jr_ContextDigest record) (jr_Scope record) (jr_ExpiresAt record) (jr_Envelope record).

Definition validatePairingJournalRecord (record : pairingJournalRecord) : option ledgererr :=
  if negb (jr_SchemaVersion record =? pairingLedgerSchemaVersion) then
    Some (EJournal "schema version")
  else if jr_Sequence record =? 0 then Some (EJournal "pairing journal sequence is zero")
  else if IsZero (jr_RecordedAt record) || negb (utc_loc (jr_RecordedAt record)) then
    Some (EJournal "pairing journal recorded_at must be UTC")
  else
    let no_context := bool_decide (jr_ContextDigest record = "")
      && bool_decide (jr_OwnerInstanceID record = "") && bool_decide (jr_Scope record = no_scope)
      && IsZero (jr_ExpiresAt record) && bool_decide (jr_Envelope record = envelope_zero) in
    match jr_Type record with
    | pairingRecordInitialize | pairingRecordRebuildBaseline =>
        if negb (bool_decide (jr_RecordClass record = PairingRecordClassOrdinary))
           || negb (bool_decide (jr_CredentialID record = ""))
           || negb (bool_decide (jr_AttemptID record = "")) || negb no_context
           || negb (bool_decide (jr_Reason record = no_terminal))
           || negb (bool_decide (jr_ResetNote record = ""))
        then Some (EJournal "pairing journal initialization record has unexpected fields")
        else None
    | pairingRecordBurnAndAdmit =>
        (validatePairingAdmissionRequest (record_request record) &then
         validatePairingOwnerInstanceID (jr_OwnerInstanceID record) &then
         if negb (Before (jr_RecordedAt record) (jr_ExpiresAt record))
            || (pairingCredentialMaxLifetime <?
                TSub (jr_ExpiresAt record) (jr_RecordedAt record)) then
           Some (EJournal "pairing admission expiry is outside the ten-minute lifetime")
         else if negb (bool_decide (jr_Reason record = no_terminal))
                 || negb (bool_decide (jr_ResetNote record = "")) then
           Some (EJournal "pairing admission record has terminal-only fields")
         else None)%go
    | pairingRecordFinish =>
        if negb (RecordClass_valid (jr_RecordClass record)) then
          Some (EJournal "invalid pairing ledger record class")
        else
          (validatePairingOpaqueID "credential id" (jr_CredentialID record) &then
           validatePairingOpaqueID "attempt id" (jr_AttemptID record) &then
           if negb (TerminalReason_valid (jr_Reason record)) then
             Some (EJournal "invalid pairing terminal reason")
           else if negb no_context || negb (bool_decide (jr_ResetNote record = "")) then
             Some (EJournal "pairing finish record has unexpected fields")
           else None)%go
    | pairingRecordCircuitReset =>
        if negb (RecordClass_valid (jr_RecordClass record)) then
          Some (EJournal "invalid pairing ledger record class")
        else
          (validatePairingResetNote (jr_ResetNote record) &then
           if negb (bool_decide (jr_CredentialID record = ""))
              || negb (bool_decide (jr_AttemptID record = "")) || negb no_context
              || negb (bool_decide (jr_Reason record = no_terminal)) then
             Some (EJournal "pairing circuit reset has unexpected fields")
           else None)%go
    | pairingRecordOther _ => Some (EJournal "unknown pairing journal record type")
    end.
