(* ===== verification/LedgerSnapshot.v ===== *)
(** * The pairing admission journal: framing, replay and policy
    (src/internal/governor/pairing_ledger_format.go, hard_nat_campaign_ledger.go)

    [decodePairingJournal] reads the frames of the file;
    [buildPairingLedgerSnapshot] replays the records into the maps the policy
    is evaluated on; [statusAt], [hardNATCampaignStatusAt] and
    [admissionError] are the policy.

    An admission entry is shared in Go between two maps and a slice; here the
    maps hold positions in the slice. *)
From S2P Require Import Prelude GoStd Limits SafetyTrip Governor Ledger.

(** ** The codec *)

Class LedgerCodec := {
  (** [json.Marshal(record)] *)
  ledger_marshal_record : pairingJournalRecord -> option (list Z);
  (** [json.Marshal(pairingJournalFrame{Record, Checksum})] *)
  ledger_marshal_frame : pairingJournalRecord -> list Z -> option (list Z);
  (** [Decode] with [DisallowUnknownFields], then a second [Decode] that must
      find the end of the input *)
  ledger_decode_frame : list Z -> option (pairingJournalRecord * list Z);
  (** [sha256.Sum256] *)
  ledger_sum256 : list Z -> list Z;
}.

(** A marshalled frame of a validated record decodes to itself; the digest is
    32 bytes. *)
Class LedgerCodecLaws (C : LedgerCodec) := {
  ledger_decode_marshal : forall record checksum payload,
    validatePairingJournalRecord record = None ->
    ledger_marshal_frame record checksum = Some payload ->
    ledger_decode_frame payload = Some (record, checksum);
  ledger_sum256_bytes : forall data,
    length (ledger_sum256 data) = 32%nat /\ Forall is_byte (ledger_sum256 data);
}.

Section codec.
Context {C : LedgerCodec}.

Definition encodePairingJournalFrame (record : pairingJournalRecord)
    : res ledgererr (list Z) :=
  match validatePairingJournalRecord record with
  | Some e => Err e
  | None =>
      match ledger_marshal_record record with
      | None => Err (EJournal "encode pairing journal record")
      | Some recordPayload =>
          match ledger_marshal_frame record (hex_encode (ledger_sum256 recordPayload)) with
          | None => Err (EJournal "encode pairing journal frame")
          | Some envelopePayload =>
              if (blen envelopePayload =? 0)
                 || (maxPairingLedgerFrameBytes <? blen envelopePayload) then
                Err (EJournal "pairing journal frame exceeds its limit")
              else Ok (be_encode 4 (blen envelopePayload) ++ envelopePayload)
          end
      end
  end.

Definition decodePairingJournalFrame (payload : list Z) : res ledgererr pairingJournalRecord :=
  match ledger_decode_frame payload with
  | None => Err (EJournal "decode pairing journal frame")
  | Some (record, checksum) =>
      match validatePairingJournalRecord record with
      | Some e => Err e
      | None =>
          match ledger_marshal_record record with
          | None => Err (EJournal "encode pairing journal checksum input")
          | Some recordPayload =>
              match hex_decode checksum with
              | Some got =>
                  if (blen got =? 32) && bytes_eqb got (ledger_sum256 recordPayload)
                  then Ok record
                  else Err (EJournal "pairing journal checksum mismatch")
              | None => Err (EJournal "pairing journal checksum mismatch")
              end
          end
      end
  end.

(** The loop of [decodePairingJournal] over what is left of the data.  Every
    round consumes at least five bytes, so [fuel = length data] never runs out
    ([decode_loop_fuel] in LedgerThms.v). *)
Fixpoint decode_loop (fuel : nat) (data : list Z) (records : list pairingJournalRecord)
    : res ledgererr (list pairingJournalRecord) :=
  if blen data =? 0 then Ok records else
  match fuel with
  | O => Err (EJournal "out of fuel")
  | S fuel =>
      if blen data <? 4 then Err (EJournal "pairing journal has a truncated length prefix")
      else
        let bodyLength := be_decode (take 4 data) in
        let rest := drop 4 data in
        if (bodyLength <=? 0) || (maxPairingLedgerFrameBytes <? bodyLength) then
          Err (EJournal "pairing journal frame length is invalid")
        else if blen rest <? bodyLength then
          Err (EJournal "pairing journal frame body is truncated")
        else
          match decodePairingJournalFrame (take (Z.to_nat bodyLength) rest) with
          | Err e => Err e
          | Ok record =>
              let records := records ++ [record] in
              if maxPairingLedgerRecords <? Z.of_nat (length records) then
                Err (EJournal "pairing journal exceeds its record limit")
              else decode_loop fuel (drop (Z.to_nat bodyLength) rest) records
          end
  end.

Definition decodePairingJournal (data : list Z) : res ledgererr (list pairingJournalRecord) :=
  if blen data =? 0 then Err (EJournal "pairing journal is empty")
  else decode_loop (length data) data [].
End codec.

(** ** Snapshots *)

Record pairingAdmissionEntry := mkEntry {
  en_record : pairingJournalRecord;
  en_finish : option pairingJournalRecord;
}.

Record pairingLedgerSnapshot := mkSnapshot {
  sn_status : PairingLedgerStatus;
  sn_sequence : Z;
  sn_records : list pairingJournalRecord;
  sn_admissions : gmap string nat;
  sn_attempts : gmap string nat;
  sn_order : list pairingAdmissionEntry;
  sn_rebuildAt : Time;
  sn_bytes : Z;
  sn_highWatermark : Time;
  sn_owner : string;
}.

(** [pairingLedgerSnapshot{status: status}]. *)
Definition status_only (status : PairingLedgerStatus) : pairingLedgerSnapshot :=
  mkSnapshot status 0 [] ∅ ∅ [] time_zero 0 time_zero "".

Definition not_usable (state : PairingLedgerState) : bool :=
  bool_decide (state = PairingLedgerNotInitialized)
  || bool_decide (state = PairingLedgerIndeterminate).

Definition rollback_detail : string := "wall clock is behind the durable high-watermark".

Definition effectiveNow (s : pairingLedgerSnapshot) (now : Time) : res ledgererr Time :=
  let now := UTC now in
  if not_usable (ps_State (sn_status s)) then
    Err (EPairingLedger (sn_status s) ErrPairingLedgerIndeterminate)
  else if Before (TAdd now pairingLedgerClockRollbackSkew) (sn_highWatermark s) then
    Err (EPairingLedger
      (blocked_status PairingLedgerClockRollback rollback_detail (sn_status s))
      ErrPairingLedgerClockRollback)
  else if Before now (sn_highWatermark s) then Ok (sn_highWatermark s)
  else Ok now.

(** *** Consecutive failures *)

Definition failureLimit (recordClass : PairingLedgerRecordClass) : Z :=
  if bool_decide (recordClass = PairingRecordClassHardNATCampaign) then 1
  else pairingAdmissionFailureLimit.

(** The finish records of one class, by sequence. *)
Definition finishBySequence (recordClass : PairingLedgerRecordClass)
    (order : list pairingAdmissionEntry) : gmap Z pairingJournalRecord :=
  fold_left (fun m entry =>
    match en_finish entry with
    | Some finish =>
        if bool_decide (jr_RecordClass (en_record entry) = recordClass)
        then <[jr_Sequence finish := finish]> m else m
    | None => m
    end) order ∅.

(** The variables of the loop over the records. *)
Record failure_acc := mkFailure {
  fa_pending : list pairingAdmissionEntry;
  fa_streak : Z;
  fa_openedAt : Time;
}.

Definition failure_step (s : pairingLedgerSnapshot) (recordClass : PairingLedgerRecordClass)
    (finishes : gmap Z pairingJournalRecord) (acc : failure_acc) (record : pairingJournalRecord)
    : failure_acc :=
  if negb (bool_decide (jr_RecordClass record = recordClass)) then acc else
  match jr_Type record with
  | pairingRecordBurnAndAdmit =>
      match sn_admissions s !! jr_CredentialID record with
      | Some i =>
          match sn_order s !! i with
          | Some entry =>
              match en_finish entry with
              | None => mkFailure (fa_pending acc ++ [entry]) (fa_streak acc) (fa_openedAt acc)
              | Some _ => acc
              end
          | None => acc
          end
      | None => acc
      end
  | pairingRecordFinish =>
      match finishes !! jr_Sequence record with
      | None => acc
      | Some finish =>
          if bool_decide (jr_Reason finish = PairingTerminalSuccess)
             && IsZero (fa_openedAt acc)
          then mkFailure (fa_pending acc) 0 (fa_openedAt acc)
          else
            let streak :=
              if bool_decide (jr_Reason finish = PairingTerminalSuccess)
              then fa_streak acc else fa_streak acc + 1 in
            mkFailure (fa_pending acc) streak
              (if (failureLimit recordClass <=? streak) && IsZero (fa_openedAt acc)
               then jr_RecordedAt finish else fa_openedAt acc)
      end
  | pairingRecordCircuitReset => mkFailure [] 0 time_zero
  | _ => acc
  end.

(** Admissions that another owner left without a terminal record. *)
Definition pending_step (owner : string) (recordClass : PairingLedgerRecordClass)
    (acc : Z * Time) (entry : pairingAdmissionEntry) : Z * Time :=
  let '(streak, openedAt) := acc in
  if negb (bool_decide (owner = ""))
     && bool_decide (jr_OwnerInstanceID (en_record entry) = owner) then acc
  else
    let streak := streak + 1 in
    (streak, if (failureLimit recordClass <=? streak) && IsZero openedAt
             then jr_RecordedAt (en_record entry) else openedAt).

Definition failureState (s : pairingLedgerSnapshot) (recordClass : PairingLedgerRecordClass)
    : Z * Time :=
  let acc := fold_left (failure_step s recordClass (finishBySequence recordClass (sn_order s)))
    (sn_records s) (mkFailure [] 0 time_zero) in
  fold_left (pending_step (sn_owner s) recordClass) (fa_pending acc)
    (fa_streak acc, fa_openedAt acc).

(** *** The rolling windows *)

(** LastAdmissionAt, one-hour count, 24-hour count, 24-hour packets. *)
Record window_acc := mkWindow {
  wa_last : Time;
  wa_hour : Z;
  wa_day : Z;
  wa_packets : Z;
}.

Definition window_step (recordClass : PairingLedgerRecordClass) (hourCutoff dayCutoff : Time)
    (acc : window_acc) (entry : pairingAdmissionEntry) : window_acc :=
  if negb (bool_decide (jr_RecordClass (en_record entry) = recordClass)) then acc else
  let when := jr_RecordedAt (en_record entry) in
  let last := if After when (wa_last acc) then when else wa_last acc in
  let hour := if After when hourCutoff then wa_hour acc + 1 else wa_hour acc in
  if After when dayCutoff
  then mkWindow last hour (wa_day acc + 1)
         (wa_packets acc + env_Packets (jr_Envelope (en_record entry)))
  else mkWindow last hour (wa_day acc) (wa_packets acc).

(** What a rebuilt journal charges for the admissions it lost. *)
Definition rebuild_window (s : pairingLedgerSnapshot) (now : Time) : window_acc :=
  if IsZero (sn_rebuildAt s) then mkWindow (ps_LastAdmissionAt (sn_status s)) 0 0 0
  else
    let hour := Before now (TAdd (sn_rebuildAt s) pairingAdmissionOneHourWindow) in
    let day := Before now (TAdd (sn_rebuildAt s) pairingAdmissionDayWindow) in
    mkWindow (sn_rebuildAt s)
      (if hour then pairingAdmissionOneHourLimit else 0)
      (if day then pairingAdmissionDayLimit else 0)
      (if day then pairingAdmissionDayPackets else 0).

Definition ordinary_window (s : pairingLedgerSnapshot) (now : Time) : window_acc :=
  fold_left (window_step PairingRecordClassOrdinary
      (TAdd now (- pairingAdmissionOneHourWindow)) (TAdd now (- pairingAdmissionDayWindow)))
    (sn_order s) (rebuild_window s now).

Definition statusAt (s : pairingLedgerSnapshot) (now : Time) : PairingLedgerStatus :=
  if not_usable (ps_State (sn_status s)) then sn_status s else
  match effectiveNow s now with
  | Err (EPairingLedger status _) => status
  | Err _ => indeterminatePairingLedgerStatus "journal clock evaluation failed"
  | Ok now =>
      let base := sn_status s in
      let w := ordinary_window s now in
      let next := if IsZero (wa_last w) then time_zero
                  else TAdd (wa_last w) pairingAdmissionMinimumInterval in
      let '(failures, openedAt) := failureState s PairingRecordClassOrdinary in
      let status (state : PairingLedgerState) (blocks : bool) (detail : string)
          (eligible : bool) :=
        mkLedgerStatus state blocks (ps_Sequence base) (ps_Records base) (ps_Bytes base)
          (ps_HighWatermark base) (wa_last w) (wa_hour w) (wa_day w) (wa_packets w)
          failures openedAt (if eligible then TAdd openedAt pairingAdmissionCircuitHorizon
                             else time_zero) eligible next (ps_Limits base) detail in
      if negb (IsZero openedAt) then
        status PairingLedgerCircuitOpen true
          "three consecutive terminal failures require explicit reset" true
      else if (maxPairingLedgerRecords <=? ps_Records base)
              || (maxPairingLedgerBytes <=? ps_Bytes base) then
        status PairingLedgerCapacityFull true "journal reached a compiled capacity ceiling" false
      else if (negb (IsZero next) && Before now next)
              || (pairingAdmissionOneHourLimit <=? wa_hour w)
              || (pairingAdmissionDayLimit <=? wa_day w)
              || (pairingAdmissionDayPackets <=? wa_packets w) then
        status PairingLedgerRateLimited true
          "persistent admission interval or rolling window is exhausted" false
      else status PairingLedgerReady false "" false
  end.

(** *** The hard-NAT campaign partition *)

Record HardNATCampaignLimits := mkCampaignLimits {
  hl_TwentyFourHourAdmissions : Z;
  hl_TwentyFourHourPackets : Z;
  hl_Window : Z;
  hl_MaxJournalBytes : Z;
  hl_MaxJournalRecords : Z;
}.

Definition HardNATCampaignHardLimits : HardNATCampaignLimits :=
  mkCampaignLimits hardNATCampaignAdmissions hardNATCampaignPackets hardNATCampaignWindow
    maxPairingLedgerBytes maxPairingLedgerRecords.

Record HardNATCampaignStatus := mkCampaignStatus {
  hs_State : PairingLedgerState;
  hs_BlocksCampaign : bool;
  hs_Sequence : Z;
  hs_Records : Z;
  hs_Bytes : Z;
  hs_HighWatermark : Time;
  hs_LastAdmissionAt : Time;
  hs_TwentyFourHourAdmissions : Z;
  hs_TwentyFourHourPackets : Z;
  hs_CircuitOpenedAt : Time;
  hs_ExplicitResetRequired : bool;
  hs_Limits : HardNATCampaignLimits;
  hs_Detail : string;
}.

Definition indeterminateHardNATCampaignStatus (detail : string) : HardNATCampaignStatus :=
  mkCampaignStatus PairingLedgerIndeterminate true 0 0 0 time_zero time_zero 0 0 time_zero false
    HardNATCampaignHardLimits detail.

Definition campaign_start (s : pairingLedgerSnapshot) (now : Time) : window_acc :=
  if negb (IsZero (sn_rebuildAt s))
     && Before now (TAdd (sn_rebuildAt s) hardNATCampaignWindow)
  then mkWindow (sn_rebuildAt s) 0 hardNATCampaignAdmissions hardNATCampaignPackets
  else mkWindow time_zero 0 0 0.

Definition campaign_window (s : pairingLedgerSnapshot) (now : Time) : window_acc :=
  fold_left (window_step PairingRecordClassHardNATCampaign
      (TAdd now (- hardNATCampaignWindow)) (TAdd now (- hardNATCampaignWindow)))
    (sn_order s) (campaign_start s now).

Definition hardNATCampaignStatusAt (s : pairingLedgerSnapshot) (now : Time)
    : HardNATCampaignStatus :=
  let records := Z.of_nat (length (sn_records s)) in
  if not_usable (ps_State (sn_status s)) then
    mkCampaignStatus (ps_State (sn_status s)) true 0 0 0 time_zero time_zero 0 0 time_zero false
      HardNATCampaignHardLimits (ps_Detail (sn_status s))
  else
  match effectiveNow s now with
  | Err (EPairingLedger status _) =>
      mkCampaignStatus (ps_State status) true (sn_sequence s) records (sn_bytes s)
        (sn_highWatermark s) time_zero 0 0 time_zero false HardNATCampaignHardLimits
        (ps_Detail status)
  | Err _ => indeterminateHardNATCampaignStatus "journal clock evaluation failed"
  | Ok now =>
      let w := campaign_window s now in
      let '(_, openedAt) := failureState s PairingRecordClassHardNATCampaign in
      let status (state : PairingLedgerState) (blocks reset : bool) (detail : string) :=
        mkCampaignStatus state blocks (sn_sequence s) records (sn_bytes s) (sn_highWatermark s)
          (wa_last w) (wa_day w) (wa_packets w) openedAt reset HardNATCampaignHardLimits
          detail in
      if negb (IsZero openedAt) then
        status PairingLedgerCircuitOpen true true
          "a post-burn hard NAT campaign failure requires explicit reset"
      else
        let ordinary := statusAt s now in
        match ps_State ordinary with
        | PairingLedgerCircuitOpen | PairingLedgerCapacityFull | PairingLedgerClockRollback
        | PairingLedgerNotInitialized | PairingLedgerIndeterminate =>
            status (ps_State ordinary) true false (ps_Detail ordinary)
        | _ =>
            if (maxPairingLedgerRecords <=? records)
               || (maxPairingLedgerBytes <=? sn_bytes s) then
              status PairingLedgerCapacityFull true false
                "journal reached a compiled capacity ceiling"
            else if (hardNATCampaignAdmissions <=? wa_day w)
                    || (hardNATCampaignPackets <=? wa_packets w) then
              status PairingLedgerRateLimited true false
                "hard NAT campaign 24-hour reservation is exhausted"
            else status PairingLedgerReady false false ""
        end
  end.

(** *** Admission *)

Definition hardNATCampaignAdmissionError (s : pairingLedgerSnapshot) (now : Time)
    (envelope : PairingAdmissionEnvelope) : option ledgererr :=
  let status := hardNATCampaignStatusAt s now in
  match hs_State status with
  | PairingLedgerCircuitOpen =>
      let ordinary := statusAt s now in
      if bool_decide (ps_State ordinary = PairingLedgerCircuitOpen)
      then Some (EPairingLedger ordinary ErrPairingAdmissionCircuitOpen)
      else Some (ErrHardNATCampaignCircuitOpen (hs_Sequence status))
  | PairingLedgerRateLimited =>
      Some (ErrHardNATCampaignRateLimited (hs_TwentyFourHourAdmissions status)
              (hs_TwentyFourHourPackets status))
  | PairingLedgerCapacityFull => Some (EPairingLedger (statusAt s now) ErrPairingLedgerCapacity)
  | PairingLedgerClockRollback =>
      Some (EPairingLedger (statusAt s now) ErrPairingLedgerClockRollback)
  | PairingLedgerNotInitialized =>
      Some (EPairingLedger (statusAt s now) ErrPairingLedgerNotInitialized)
  | PairingLedgerIndeterminate =>
      Some (EPairingLedger (statusAt s now) ErrPairingLedgerIndeterminate)
  | _ =>
      if negb (bool_decide (envelope = hardNATCampaignEnvelope)) then
        Some (ErrPairingLedgerInvalidRequest "hard NAT campaign envelope is not exact")
      else if (hardNATCampaignAdmissions <? hs_TwentyFourHourAdmissions status + 1)
              || (hardNATCampaignPackets <?
                  hs_TwentyFourHourPackets status + env_Packets envelope) then
        Some (ErrHardNATCampaignRateLimited (hs_TwentyFourHourAdmissions status)
                (hs_TwentyFourHourPackets status))
      else None
  end.

Definition admissionError (s : pairingLedgerSnapshot) (now : Time)
    (envelope : PairingAdmissionEnvelope) (recordClass : PairingLedgerRecordClass)
    : option ledgererr :=
  if bool_decide (recordClass = PairingRecordClassHardNATCampaign) then
    hardNATCampaignAdmissionError s now envelope
  else
    let status := statusAt s now in
    match ps_State status with
    | PairingLedgerCircuitOpen => Some (EPairingLedger status ErrPairingAdmissionCircuitOpen)
    | PairingLedgerCapacityFull => Some (EPairingLedger status ErrPairingLedgerCapacity)
    | PairingLedgerClockRollback => Some (EPairingLedger status ErrPairingLedgerClockRollback)
    | PairingLedgerNotInitialized => Some (EPairingLedger status ErrPairingLedgerNotInitialized)
    | PairingLedgerIndeterminate => Some (EPairingLedger status ErrPairingLedgerIndeterminate)
    | _ =>
        if (negb (IsZero (ps_NextAdmissionAt status)) && Before now (ps_NextAdmissionAt status))
           || (pairingAdmissionOneHourLimit <? ps_OneHourAdmissions status + 1)
           || (pairingAdmissionDayLimit <? ps_TwentyFourHourAdmissions status + 1)
           || (pairingAdmissionDayPackets <?
               ps_TwentyFourHourPackets status + env_Packets envelope) then
          Some (EPairingLedger (blocked_status PairingLedgerRateLimited
            "new worst-case envelope exceeds a persistent admission window" status)
            ErrPairingAdmissionRateLimited)
        else None
    end.

Definition capacity_error (s : pairingLedgerSnapshot) (detail : string) : ledgererr :=
  EPairingLedger (blocked_status PairingLedgerCapacityFull detail (sn_status s))
    ErrPairingLedgerCapacity.

Definition ensureAdmissionCapacity (s : pairingLedgerSnapshot) (frameBytes : Z)
    : option ledgererr :=
  if (maxPairingLedgerRecords <? Z.of_nat (length (sn_records s)) + 2)
     || (maxPairingLedgerBytes <? sn_bytes s + frameBytes + 4 + maxPairingLedgerFrameBytes)
  then Some (capacity_error s "journal lacks reserved capacity for admission and terminal records")
  else None.

Definition ensureRecordCapacity (s : pairingLedgerSnapshot) (frameBytes : Z)
    : option ledgererr :=
  if (maxPairingLedgerRecords <? Z.of_nat (length (sn_records s)) + 1)
     || (maxPairingLedgerBytes <? sn_bytes s + frameBytes)
  then Some (capacity_error s "journal reached a compiled capacity ceiling")
  else None.

(** ** Replay *)

Definition set_sn_status (v : PairingLedgerStatus) (s : pairingLedgerSnapshot) :=
  mkSnapshot v (sn_sequence s) (sn_records s) (sn_admissions s) (sn_attempts s) (sn_order s)
    (sn_rebuildAt s) (sn_bytes s) (sn_highWatermark s) (sn_owner s).
Definition set_sn_sequence (v : Z) (s : pairingLedgerSnapshot) :=
  mkSnapshot (sn_status s) v (sn_records s) (sn_admissions s) (sn_attempts s) (sn_order s)
    (sn_rebuildAt s) (sn_bytes s) (sn_highWatermark s) (sn_owner s).
Definition set_sn_records (v : list pairingJournalRecord) (s : pairingLedgerSnapshot) :=
  mkSnapshot (sn_status s) (sn_sequence s) v (sn_admissions s) (sn_attempts s) (sn_order s)
    (sn_rebuildAt s) (sn_bytes s) (sn_highWatermark s) (sn_owner s).
Definition set_sn_order (v : list pairingAdmissionEntry) (s : pairingLedgerSnapshot) :=
  mkSnapshot (sn_status s) (sn_sequence s) (sn_records s) (sn_admissions s) (sn_attempts s) v
    (sn_rebuildAt s) (sn_bytes s) (sn_highWatermark s) (sn_owner s).
Definition set_sn_rebuildAt (v : Time) (s : pairingLedgerSnapshot) :=
  mkSnapshot (sn_status s) (sn_sequence s) (sn_records s) (sn_admissions s) (sn_attempts s)
    (sn_order s) v (sn_bytes s) (sn_highWatermark s) (sn_owner s).
Definition set_sn_highWatermark (v : Time) (s : pairingLedgerSnapshot) :=
  mkSnapshot (sn_status s) (sn_sequence s) (sn_records s) (sn_admissions s) (sn_attempts s)
    (sn_order s) (sn_rebuildAt s) (sn_bytes s) v (sn_owner s).

(** A new admission entry, shared by both maps and the order. *)
Definition add_entry (record : pairingJournalRecord) (s : pairingLedgerSnapshot)
    : pairingLedgerSnapshot :=
  let i := length (sn_order s) in
  mkSnapshot (sn_status s) (sn_sequence s) (sn_records s)
    (<[jr_CredentialID record := i]> (sn_admissions s))
    (<[jr_AttemptID record := i]> (sn_attempts s))
    (sn_order s ++ [mkEntry record None]) (sn_rebuildAt s) (sn_bytes s) (sn_highWatermark s)
    (sn_owner s).

Definition snapshot_start (bytes : Z) (owner : string) : pairingLedgerSnapshot :=
  mkSnapshot (ledger_status PairingLedgerReady false 0 0 0 time_zero PairingAdmissionHardLimits "")
    0 [] ∅ ∅ [] time_zero bytes time_zero owner.

(** The switch on the type of the record at [index]. *)
Definition replay_record (index : nat) (record : pairingJournalRecord)
    (s : pairingLedgerSnapshot) : res ledgererr pairingLedgerSnapshot :=
  match jr_Type record with
  | pairingRecordInitialize =>
      if negb (Nat.eqb index 0) then Err (EJournal "initialize record is not first") else Ok s
  | pairingRecordRebuildBaseline =>
      if negb (Nat.eqb index 0) then Err (EJournal "rebuild baseline is not first")
      else Ok (set_sn_rebuildAt (jr_RecordedAt record) s)
  | pairingRecordBurnAndAdmit =>
      if Nat.eqb index 0 then Err (EJournal "burn record precedes initialization")
      else match sn_admissions s !! jr_CredentialID record with
      | Some _ => Err (EJournal "credential has duplicate burn records")
      | None =>
          match sn_attempts s !! jr_AttemptID record with
          | Some _ => Err (EJournal "attempt id has duplicate burn records")
          | None => Ok (add_entry record s)
          end
      end
  | pairingRecordFinish =>
      match sn_admissions s !! jr_CredentialID record with
      | None => Err (EJournal "finish record has no matching admission")
      | Some i =>
          match sn_order s !! i with
          | None => Err (EJournal "finish record has no matching admission")
          | Some entry =>
              if negb (bool_decide (jr_AttemptID (en_record entry) = jr_AttemptID record))
                 || negb (bool_decide (jr_RecordClass (en_record entry) = jr_RecordClass record))
              then Err (EJournal "finish record has no matching admission")
              else match en_finish entry with
              | Some _ => Err (EJournal "admission has duplicate finish records")
              | None => Ok (set_sn_order (<[i := mkEntry (en_record entry) (Some record)]>
                                            (sn_order s)) s)
              end
          end
      end
  | pairingRecordCircuitReset =>
      if Nat.eqb index 0 then Err (EJournal "circuit reset precedes initialization")
      else if bool_decide (jr_RecordClass record = PairingRecordClassHardNATCampaign) then
        let status := hardNATCampaignStatusAt s (jr_RecordedAt record) in
        if negb (hs_ExplicitResetRequired status) || IsZero (hs_CircuitOpenedAt status)
        then Err (EJournal "hard NAT campaign reset has no matching open circuit")
        else Ok s
      else
        let status := statusAt s (jr_RecordedAt record) in
        if negb (ps_ExplicitResetRequired status) || IsZero (ps_CircuitOpenedAt status)
        then Err (EJournal "circuit reset has no matching open circuit")
        else if Before (jr_RecordedAt record) (ps_CircuitResetEligibleAt status)
        then Err (EJournal "circuit reset precedes its minimum horizon")
        else Ok s
  | pairingRecordOther _ => Err (EJournal "unknown pairing journal record type")
  end.

(** One round of the loop; the records replayed so far are [sn_records s]. *)
Definition replay_step (s : pairingLedgerSnapshot) (record : pairingJournalRecord)
    : res ledgererr pairingLedgerSnapshot :=
  let index := length (sn_records s) in
  if negb (jr_Sequence record =? Z.of_nat index + 1) then
    Err (EJournal "pairing journal sequence")
  else if match last (sn_records s) with
          | Some previous => Before (jr_RecordedAt record) (jr_RecordedAt previous)
          | None => false
          end
  then Err (EJournal "pairing journal timestamp regressed")
  else
    let s1 := if After (jr_RecordedAt record) (sn_highWatermark s)
              then set_sn_highWatermark (jr_RecordedAt record) s else s in
    match replay_record index record s1 with
    | Err e => Err e
    | Ok s2 => Ok (set_sn_records (sn_records s2 ++ [record]) s2)
    end.

Fixpoint replay (records : list pairingJournalRecord) (s : pairingLedgerSnapshot)
    : res ledgererr pairingLedgerSnapshot :=
  match records with
  | [] => Ok s
  | record :: records =>
      match replay_step s record with Err e => Err e | Ok s' => replay records s' end
  end.

Definition buildPairingLedgerSnapshot (records : list pairingJournalRecord) (bytes : Z)
    (owner : string) : res ledgererr pairingLedgerSnapshot :=
  if Nat.eqb (length records) 0 then
    Err (EJournal "pairing journal has no initialization record")
  else match replay records (snapshot_start bytes owner) with
  | Err e => Err e
  | Ok s =>
      let sequence := Z.of_nat (length records) in
      Ok (set_sn_status
            (ledger_status PairingLedgerReady false sequence sequence bytes
               (sn_highWatermark s) PairingAdmissionHardLimits "")
            (set_sn_sequence sequence s))
  end.
