(* ===== verification/LedgerOps.v ===== *)
(** * The pairing admission journal: operations
    (src/internal/governor/pairing_ledger.go, pairing_ledger_format.go,
     hard_nat_campaign_ledger.go)

    [Preflight], [Admit], [Finish], [ResetCircuit], [Status],
    [CampaignStatus] and [ResetHardNATCampaignCircuit], as functions from the
    journal file to the journal file and Go's results.  The outcome of every
    system call is an argument ([read_io], [append_io]). *)
From S2P Require Import Prelude GoStd Limits SafetyTrip Governor Ledger LedgerSnapshot.

(** The contents of the journal; [None] when the file does not exist. *)
Abbreviation journal := (option (list Z)).

(** Outcomes of the calls of one read: whether the file metadata is trusted,
    the file opens, and it can be read to its end. *)
Record read_io := mkReadIO {
  rio_trusted : bool;
  rio_open : bool;
  rio_read : bool;
}.

(** Outcomes of one append: [aio_written] is [None] when [Write] returns no
    error, else the number of bytes a failed or short write leaves. *)
Record append_io := mkAppendIO {
  aio_trusted : bool;
  aio_open : bool;
  aio_written : option nat;
  aio_beforeSync : bool;
  aio_sync : bool;
  aio_afterSync : bool;
  aio_close : bool;
}.

Definition read_ok : read_io := mkReadIO true true true.
Definition append_ok : append_io := mkAppendIO true true None true true true true.

(** What an operation runs in: the held owner with its instance identifier,
    the wall clock, and the outcomes of its three file accesses. *)
Record ledger_env := mkEnv {
  le_owner : option Owner;
  le_ownerInstance : string;
  le_now : Time;
  le_read : read_io;
  le_append : append_io;
  le_verify : read_io;
}.

Record PairingAdmissionReceipt := mkReceipt {
  rc_sequence : Z;
  rc_recordClass : PairingLedgerRecordClass;
  rc_credentialID : string;
  rc_attemptID : string;
  rc_contextDigest : string;
  rc_ownerInstanceID : string;
  rc_committedAt : Time;
}.

Section operations.
Context {C : LedgerCodec}.

(** ** Reading *)

Definition indeterminate_result (detail : string) : pairingLedgerSnapshot * option ledgererr :=
  let status := indeterminatePairingLedgerStatus detail in
  (status_only status, Some (EPairingLedger status ErrPairingLedgerIndeterminate)).

Definition readValidatedPairingLedgerSnapshot (io : read_io) (file : list Z) (now : Time)
    (owner : string) : pairingLedgerSnapshot * option ledgererr :=
  if negb (rio_open io) then indeterminate_result "journal cannot be opened"
  else if negb (rio_read io) then indeterminate_result "journal cannot be read"
  else
    let data := take (Z.to_nat (maxPairingLedgerBytes + 1)) file in
    if maxPairingLedgerBytes <? blen data then
      indeterminate_result "journal exceeds its compiled byte ceiling"
    else match decodePairingJournal data with
    | Err _ => indeterminate_result "journal framing, sequence, or checksum is invalid"
    | Ok records =>
        match buildPairingLedgerSnapshot records (blen data) owner with
        | Err _ => indeterminate_result "journal record transitions are invalid"
        | Ok s =>
            let s := set_sn_status (statusAt s now) s in
            if bool_decide (ps_State (sn_status s) = PairingLedgerClockRollback)
            then (s, Some (EPairingLedger (sn_status s) ErrPairingLedgerClockRollback))
            else (s, None)
        end
    end.

Definition readPairingLedgerSnapshot (io : read_io) (file : journal) (now : Time)
    (owner : string) : pairingLedgerSnapshot * option ledgererr :=
  match file with
  | None =>
      let status := ledger_status PairingLedgerNotInitialized true 0 0 0 time_zero
        PairingAdmissionHardLimits
        "explicit machine setup has not initialized the pairing journal" in
      (status_only status, Some (EPairingLedger status ErrPairingLedgerNotInitialized))
  | Some data =>
      if negb (rio_trusted io) then
        indeterminate_result "journal metadata is unavailable or untrusted"
      else readValidatedPairingLedgerSnapshot io data now owner
  end.

(** ** Appending *)

(** The file afterwards and the error. *)
Definition appendPairingJournalFrame (io : append_io) (file : journal) (frame : list Z)
    : journal * option ledgererr :=
  match file with
  | None => (file, Some (EJournal "pairing journal does not exist"))
  | Some data =>
      if negb (aio_trusted io) then (file, Some (EJournal "pairing journal is untrusted"))
      else if negb (aio_open io) then (file, Some (EJournal "open pairing journal for append"))
      else match aio_written io with
      | Some n => (Some (data ++ take n frame), Some (EJournal "append pairing journal frame"))
      | None =>
          let file := Some (data ++ frame) in
          if negb (aio_beforeSync io) then (file, Some (EJournal "after append"))
          else if negb (aio_sync io) then (file, Some (EJournal "sync pairing journal frame"))
          else if negb (aio_afterSync io) then (file, Some (EJournal "after sync"))
          else if negb (aio_close io) then (file, Some (EJournal "close pairing journal"))
          else (file, None)
      end
  end.

Definition appendAndSync (io : append_io) (file : journal) (frame : list Z)
    : journal * option ledgererr :=
  match appendPairingJournalFrame io file frame with
  | (file', None) => (file', None)
  | (file', Some _) =>
      (file', Some (EPairingLedger
        (indeterminatePairingLedgerStatus "journal append or synchronization failed")
        ErrPairingLedgerIndeterminate))
  end.

(** [createPairingLedgerFile] with calls that succeed. *)
Definition createPairingLedgerFile (now : Time) (rebuild : bool) : res ledgererr (list Z) :=
  encodePairingJournalFrame
    (mkRecord pairingLedgerSchemaVersion 1
       (if rebuild then pairingRecordRebuildBaseline else pairingRecordInitialize) (UTC now)
       PairingRecordClassOrdinary "" "" "" "" no_scope time_zero envelope_zero no_terminal "").

(** ** The owner *)

Definition holdOwner (owner : option Owner) (ownerInstance ledgerInstance : string)
    : option ledgererr :=
  match owner with
  | None => Some (ErrPairingMachineScopeRequired "owner is unavailable")
  | Some o =>
      if o_closed o || negb (o_hasFile o) || negb (bool_decide (o_scope o = ScopeMachine))
         || negb (bool_decide (ownerInstance = ledgerInstance))
      then Some (ErrPairingMachineScopeRequired "machine owner is no longer held")
      else None
  end.

(** The handle: the owner instance it was opened for. *)
Variable ledgerInstance : string.

(** Hold the owner and read the journal; a journal that exists and decodes is
    usable even when the clock is behind. *)
Definition open_snapshot (env : ledger_env) (file : journal)
    : res ledgererr pairingLedgerSnapshot :=
  match holdOwner (le_owner env) (le_ownerInstance env) ledgerInstance with
  | Some e => Err e
  | None =>
      let '(s, err) := readPairingLedgerSnapshot (le_read env) file (UTC (le_now env))
                         ledgerInstance in
      match err with
      | Some e => if not_usable (ps_State (sn_status s)) then Err e else Ok s
      | None => Ok s
      end
  end.

(** ** Admission *)

Definition burn_record (s : pairingLedgerSnapshot) (now : Time)
    (request : PairingAdmissionRequest) : pairingJournalRecord :=
  mkRecord pairingLedgerSchemaVersion (u64_add (sn_sequence s) 1) pairingRecordBurnAndAdmit now
    (par_RecordClass request) (par_CredentialID request) (par_AttemptID request)
    (par_ContextDigest request) ledgerInstance ScopeMachine (UTC (par_ExpiresAt request))
    (par_Envelope request) no_terminal "".

(** The checks [Preflight] and [Admit] share, up to the encoded frame. *)
Definition admission_checks (env : ledger_env) (request : PairingAdmissionRequest)
    (s : pairingLedgerSnapshot) : res ledgererr (Time * pairingJournalRecord * list Z) :=
  (let! now := effectiveNow s (UTC (le_now env)) in
   if negb (Before now (par_ExpiresAt request)) then
     Err (ErrPairingLedgerInvalidRequest "bundle expired before admission")
   else match sn_admissions s !! par_CredentialID request with
   | Some _ => Err (EPairingLedger (statusAt s now) ErrPairingCredentialUsed)
   | None =>
       match sn_attempts s !! par_AttemptID request with
       | Some _ => Err (ErrPairingLedgerInvalidRequest "attempt id already recorded")
       | None =>
           check! admissionError s now (par_Envelope request) (par_RecordClass request) in
           let record := burn_record s now request in
           let! frame := encodePairingJournalFrame record in
           check! ensureAdmissionCapacity s (blen frame) in
           Ok (now, record, frame)
       end
   end)%go.

Definition Preflight (env : ledger_env) (request : PairingAdmissionRequest) (file : journal)
    : option ledgererr :=
  match validatePairingAdmissionRequest request with
  | Some e => Some e
  | None =>
      match open_snapshot env file with
      | Err e => Some e
      | Ok s => match admission_checks env request s with Err e => Some e | Ok _ => None end
      end
  end.

Definition Admit (env : ledger_env) (request : PairingAdmissionRequest) (file : journal)
    : journal * res ledgererr PairingAdmissionReceipt :=
  match validatePairingAdmissionRequest request with
  | Some e => (file, Err e)
  | None =>
      match open_snapshot env file with
      | Err e => (file, Err e)
      | Ok s =>
          match admission_checks env request s with
          | Err e => (file, Err e)
          | Ok (now, record, frame) =>
              match appendAndSync (le_append env) file frame with
              | (file', Some e) => (file', Err e)
              | (file', None) =>
                  let '(verified, verifyErr) :=
                    readPairingLedgerSnapshot (le_verify env) file' now ledgerInstance in
                  match verifyErr with
                  | Some e => (file', Err e)
                  | None =>
                      let committed :=
                        match sn_admissions verified !! par_CredentialID request with
                        | Some i =>
                            match sn_order verified !! i with
                            | Some entry => jr_Sequence (en_record entry) =? jr_Sequence record
                            | None => false
                            end
                        | None => false
                        end in
                      if committed then
                        (file', Ok (mkReceipt (jr_Sequence record) (par_RecordClass request)
                           (par_CredentialID request) (par_AttemptID request)
                           (par_ContextDigest request) ledgerInstance now))
                      else
                        (file', Err (EPairingLedger
                           (indeterminatePairingLedgerStatus
                              "committed admission could not be verified")
                           ErrPairingLedgerIndeterminate))
                  end
              end
          end
      end
  end.

(** ** Terminal records *)

Definition finish_record (s : pairingLedgerSnapshot) (now : Time)
    (receipt : PairingAdmissionReceipt) (reason : PairingTerminalReason)
    : pairingJournalRecord :=
  mkRecord pairingLedgerSchemaVersion (u64_add (sn_sequence s) 1) pairingRecordFinish now
    (rc_recordClass receipt) (rc_credentialID receipt) (rc_attemptID receipt) "" "" no_scope
    time_zero envelope_zero reason "".

(** The admission a receipt names, if the journal still holds exactly it. *)
Definition receipt_entry (s : pairingLedgerSnapshot) (receipt : PairingAdmissionReceipt)
    : option pairingAdmissionEntry :=
  match sn_admissions s !! rc_credentialID receipt with
  | Some i =>
      match sn_order s !! i with
      | Some entry =>
          if (jr_Sequence (en_record entry) =? rc_sequence receipt)
             && bool_decide (jr_RecordClass (en_record entry) = rc_recordClass receipt)
             && bool_decide (jr_AttemptID (en_record entry) = rc_attemptID receipt)
             && bool_decide (jr_ContextDigest (en_record entry) = rc_contextDigest receipt)
          then Some entry else None
      | None => None
      end
  | None => None
  end.

Definition Finish (env : ledger_env) (receipt : PairingAdmissionReceipt)
    (reason : PairingTerminalReason) (file : journal) : journal * option ledgererr :=
  if negb (TerminalReason_valid reason) then
    (file, Some (ErrPairingLedgerInvalidRequest "terminal reason"))
  else match holdOwner (le_owner env) (le_ownerInstance env) ledgerInstance with
  | Some e => (file, Some e)
  | None =>
      if negb (bool_decide (rc_ownerInstanceID receipt = ledgerInstance)) then
        (file, Some (ErrPairingLedgerInvalidRequest "receipt belongs to another owner instance"))
      else match open_snapshot env file with
      | Err e => (file, Some e)
      | Ok s =>
          match effectiveNow s (UTC (le_now env)) with
          | Err e => (file, Some e)
          | Ok now =>
              match receipt_entry s receipt with
              | None => (file, Some (ErrPairingLedgerInvalidRequest
                                       "receipt does not match durable admission"))
              | Some entry =>
                  match en_finish entry with
                  | Some finish =>
                      if bool_decide (jr_Reason finish = reason) then (file, None)
                      else (file, Some (ErrPairingLedgerInvalidRequest
                                          "terminal reason already recorded"))
                  | None =>
                      match encodePairingJournalFrame (finish_record s now receipt reason) with
                      | Err e => (file, Some e)
                      | Ok frame =>
                          match ensureRecordCapacity s (blen frame) with
                          | Some e => (file, Some e)
                          | None => appendAndSync (le_append env) file frame
                          end
                      end
                  end
              end
          end
      end
  end.

(** ** Circuit resets *)

Definition reset_journal_record (s : pairingLedgerSnapshot) (now : Time)
    (recordClass : PairingLedgerRecordClass) (note : string) : pairingJournalRecord :=
  mkRecord pairingLedgerSchemaVersion (u64_add (sn_sequence s) 1) pairingRecordCircuitReset now
    recordClass "" "" "" "" no_scope time_zero envelope_zero no_terminal note.

(** Encode, check the capacity, append. *)
Definition append_reset (env : ledger_env) (s : pairingLedgerSnapshot)
    (record : pairingJournalRecord) (file : journal) : journal * option ledgererr :=
  match encodePairingJournalFrame record with
  | Err e => (file, Some e)
  | Ok frame =>
      match ensureRecordCapacity s (blen frame) with
      | Some e => (file, Some e)
      | None => appendAndSync (le_append env) file frame
      end
  end.

Definition ResetCircuit (env : ledger_env) (expectedSequence : Z) (note : string)
    (file : journal) : journal * (PairingLedgerStatus * option ledgererr) :=
  if (expectedSequence =? 0) || match validatePairingResetNote note with
                                | Some _ => true | None => false end then
    (file, (ledger_status_zero, Some (ErrPairingLedgerResetRejected
              "expected sequence and operator note are required")))
  else match holdOwner (le_owner env) (le_ownerInstance env) ledgerInstance with
  | Some e => (file, (ledger_status_zero, Some e))
  | None =>
      let '(s, err) := readPairingLedgerSnapshot (le_read env) file (UTC (le_now env))
                         ledgerInstance in
      if match err with Some _ => not_usable (ps_State (sn_status s)) | None => false end
      then (file, (sn_status s, err))
      else match effectiveNow s (UTC (le_now env)) with
      | Err e => (file, (statusAt s (UTC (le_now env)), Some e))
      | Ok now =>
          let status := statusAt s now in
          if negb (expectedSequence =? sn_sequence s) then
            (file, (status, Some (ErrPairingLedgerResetRejected "expected sequence")))
          else if negb (ps_ExplicitResetRequired status) || IsZero (ps_CircuitOpenedAt status)
          then (file, (status, Some (ErrPairingLedgerResetRejected "circuit is not open")))
          else if Before now (ps_CircuitResetEligibleAt status) then
            (file, (status, Some (ErrPairingLedgerResetRejected
                      "circuit minimum horizon has not elapsed")))
          else
            match append_reset env s (reset_journal_record s now PairingRecordClassOrdinary note)
                    file with
            | (file', Some e) => (file', (status, Some e))
            | (file', None) =>
                let '(verified, verifyErr) :=
                  readPairingLedgerSnapshot (le_verify env) file' now ledgerInstance in
                match verifyErr with
                | Some e => (file', (sn_status verified, Some e))
                | None => (file', (statusAt verified now, None))
                end
            end
      end
  end.

Definition ResetHardNATCampaignCircuit (env : ledger_env) (expectedSequence : Z)
    (note : string) (file : journal) : journal * (HardNATCampaignStatus * option ledgererr) :=
  if (expectedSequence =? 0) || match validatePairingResetNote note with
                                | Some _ => true | None => false end then
    (file, (indeterminateHardNATCampaignStatus "reset request is invalid",
            Some (ErrPairingLedgerResetRejected "")))
  else match holdOwner (le_owner env) (le_ownerInstance env) ledgerInstance with
  | Some e =>
      (file, (indeterminateHardNATCampaignStatus "machine owner is no longer held", Some e))
  | None =>
      let '(s, err) := readPairingLedgerSnapshot (le_read env) file (UTC (le_now env))
                         ledgerInstance in
      if match err with Some _ => not_usable (ps_State (sn_status s)) | None => false end
      then (file, (hardNATCampaignStatusAt s (UTC (le_now env)), err))
      else match effectiveNow s (UTC (le_now env)) with
      | Err e => (file, (hardNATCampaignStatusAt s (UTC (le_now env)), Some e))
      | Ok now =>
          let status := hardNATCampaignStatusAt s now in
          if negb (expectedSequence =? sn_sequence s)
             || negb (hs_ExplicitResetRequired status) || IsZero (hs_CircuitOpenedAt status)
          then (file, (status, Some (ErrPairingLedgerResetRejected
                         "campaign circuit or expected sequence does not match")))
          else
            match append_reset env s
                    (reset_journal_record s now PairingRecordClassHardNATCampaign note) file with
            | (file', Some e) => (file', (status, Some e))
            | (file', None) =>
                let '(verified, verifyErr) :=
                  readPairingLedgerSnapshot (le_verify env) file' now ledgerInstance in
                (file', (hardNATCampaignStatusAt verified now, verifyErr))
            end
      end
  end.

(** ** Status *)

Definition Status (env : ledger_env) (file : journal) : PairingLedgerStatus :=
  match holdOwner (le_owner env) (le_ownerInstance env) ledgerInstance with
  | Some _ => indeterminatePairingLedgerStatus "machine owner is no longer held"
  | None =>
      statusAt (readPairingLedgerSnapshot (le_read env) file (UTC (le_now env))
                  ledgerInstance).1 (UTC (le_now env))
  end.

Definition CampaignStatus (env : ledger_env) (file : journal) : HardNATCampaignStatus :=
  match holdOwner (le_owner env) (le_ownerInstance env) ledgerInstance with
  | Some _ => indeterminateHardNATCampaignStatus "machine owner is no longer held"
  | None =>
      hardNATCampaignStatusAt (readPairingLedgerSnapshot (le_read env) file
        (UTC (le_now env)) ledgerInstance).1 (UTC (le_now env))
  end.

(** ** Runs of the journal

    [ledger_step]: one operation with any arguments, any clock and any outcome
    of its system calls. *)
Inductive ledger_step : journal -> journal -> Prop :=
| ls_Admit env request file : ledger_step file (Admit env request file).1
| ls_Finish env receipt reason file : ledger_step file (Finish env receipt reason file).1
| ls_ResetCircuit env expected note file :
    ledger_step file (ResetCircuit env expected note file).1
| ls_ResetCampaign env expected note file :
    ledger_step file (ResetHardNATCampaignCircuit env expected note file).1.
End operations.

(** The journals a machine can hold: created once, then any sequence of
    operations of any owner instances. *)
Inductive ledger_reachable {C : LedgerCodec} : journal -> Prop :=
| lr_create now rebuild data :
    createPairingLedgerFile now rebuild = Ok data -> ledger_reachable (Some data)
| lr_step owner file file' :
    ledger_reachable file -> ledger_step owner file file' -> ledger_reachable file'.
