(* ===== verification/LedgerReplay.v ===== *)
(** * Framing of the pairing admission journal

    The decoder of the journal recognises exactly the concatenations of valid
    frames: an append of an encoded frame adds exactly its record, a torn
    append makes the whole journal undecodable, and the loop always has enough
    fuel. *)
From S2P Require Import Prelude GoStd Limits SafetyTrip Governor Ledger LedgerSnapshot LedgerOps.

Section framing.
Context {C : LedgerCodec}.

(** [framed data records]: [data] is a sequence of frames that decode to
    [records]. *)
Inductive framed : list Z -> list pairingJournalRecord -> Prop :=
| framed_nil : framed [] []
| framed_cons header payload rest record records :
    length header = 4%nat -> be_decode header = blen payload ->
    0 < blen payload <= maxPairingLedgerFrameBytes ->
    decodePairingJournalFrame payload = Ok record -> framed rest records ->
    framed (header ++ payload ++ rest) (record :: records).

Lemma blen_nil_inv (data : list Z) : blen data = 0 -> data = [].
Proof. unfold blen. destruct data; simpl; [done|lia]. Qed.

Lemma decode_loop_framed fuel data acc records :
  decode_loop fuel data acc = Ok records ->
  exists new, records = acc ++ new /\ framed data new /\
    (new <> [] -> Z.of_nat (length records) <= maxPairingLedgerRecords).
Proof.
  revert data acc. induction fuel as [|fuel IH]; intros data acc; simpl;
    (destruct (Z.eqb_spec (blen data) 0) as [E|E];
     [intros [= <-]; exists []; rewrite app_nil_r; apply blen_nil_inv in E as ->;
      split_and!; [done|constructor|done]|]); [done|].
  destruct (Z.ltb_spec (blen data) 4); [done|].
  set (n := be_decode (take 4 data)).
  destruct (Z.leb_spec n 0); [done|]. destruct (Z.ltb_spec maxPairingLedgerFrameBytes n); [done|].
  simpl. destruct (Z.ltb_spec (blen (drop 4 data)) n); [done|].
  destruct (decodePairingJournalFrame _) as [record|] eqn:Hrec; [|done].
  destruct (Z.ltb_spec maxPairingLedgerRecords (Z.of_nat (length (acc ++ [record])))); [done|].
  intros Hrun. destruct (IH _ _ Hrun) as (new & -> & Hframed & Hlen).
  exists (record :: new). split_and!.
  - by rewrite <-app_assoc.
  - assert (Hp : blen (take (Z.to_nat n) (drop 4 data)) = n).
    { unfold blen in *. rewrite length_take. lia. }
    rewrite <-(take_drop 4 data) at 1. rewrite <-(take_drop (Z.to_nat n) (drop 4 data)) at 1.
    apply framed_cons; rewrite ?Hp; try done; rewrite ?length_take; unfold blen in *; lia.
  - intros _. destruct new; [by rewrite app_nil_r | by apply Hlen].
Qed.

Lemma framed_decode_loop data new :
  framed data new -> forall fuel acc, (length data <= fuel)%nat ->
  Z.of_nat (length (acc ++ new)) <= maxPairingLedgerRecords ->
  decode_loop fuel data acc = Ok (acc ++ new).
Proof.
  induction 1 as [|header payload rest record records Hh Hb Hp Hr _ IH]; intros fuel acc Hf Hn.
  - rewrite app_nil_r. by destruct fuel.
  - rewrite !length_app in Hf. unfold blen in Hp.
    destruct fuel as [|fuel]; [lia|]. simpl.
    assert (Hlen : blen (header ++ payload ++ rest) = 4 + blen payload + blen rest).
    { rewrite !blen_app. unfold blen at 1. rewrite Hh. lia. }
    assert (Ht : take 4 (header ++ payload ++ rest) = header) by (by apply take_app_length').
    assert (Hd : drop 4 (header ++ payload ++ rest) = payload ++ rest) by (by apply drop_app_length').
    rewrite Hlen, Ht, Hd, Hb, blen_app. unfold blen.
    destruct (Z.eqb_spec (4 + Z.of_nat (length payload) + Z.of_nat (length rest)) 0); [lia|].
    destruct (Z.ltb_spec (4 + Z.of_nat (length payload) + Z.of_nat (length rest)) 4); [lia|].
    destruct (Z.leb_spec (Z.of_nat (length payload)) 0); [lia|].
    destruct (Z.ltb_spec maxPairingLedgerFrameBytes (Z.of_nat (length payload))); [lia|].
    simpl. destruct (Z.ltb_spec (Z.of_nat (length payload) + Z.of_nat (length rest))
      (Z.of_nat (length payload))); [lia|].
    rewrite Nat2Z.id, take_app_length, drop_app_length, Hr.
    rewrite length_app in Hn. simpl in Hn.
    destruct (Z.ltb_spec maxPairingLedgerRecords (Z.of_nat (length (acc ++ [record]))));
      [rewrite length_app in *; simpl in *; lia|].
    rewrite IH; [by rewrite <-app_assoc|lia|]. rewrite !length_app in *. simpl in *. lia.
Qed.

(** What it means that a journal decodes. *)
Lemma decodePairingJournal_Ok data records :
  decodePairingJournal data = Ok records <->
  data <> [] /\ framed data records /\ Z.of_nat (length records) <= maxPairingLedgerRecords.
Proof.
  unfold decodePairingJournal. destruct (Z.eqb_spec (blen data) 0) as [E|E].
  - apply blen_nil_inv in E as ->. naive_solver.
  - split.
    + intros Hrun. destruct (decode_loop_framed _ _ _ _ Hrun) as (new & -> & Hf & Hn).
      split_and!; [by intros ->|done|]. simpl. destruct new; [|by apply Hn].
      inversion Hf; subst. by destruct E.
    + intros (_ & Hf & Hn). by apply (framed_decode_loop data records Hf (length data) []).
Qed.

Lemma framed_app d1 r1 d2 r2 : framed d1 r1 -> framed d2 r2 -> framed (d1 ++ d2) (r1 ++ r2).
Proof.
  induction 1 as [|header payload rest record records Hh Hb Hp Hr _ IH]; [done|].
  intros H2. rewrite <-!app_assoc. simpl. constructor; auto.
Qed.

Lemma framed_functional d r1 r2 : framed d r1 -> framed d r2 -> r1 = r2.
Proof.
  intros H1. revert r2. induction H1 as [|header payload rest record records Hh Hb Hp Hr _ IH];
    intros r2 H2.
  - inversion H2 as [|h p r x xs Hh2 Hb2 Hp2 _ _ Heq]; [done|]. by destruct h.
  - inversion H2 as [Heq|h p r x xs Hh2 Hb2 Hp2 Hr2 Hf2 Heq]; subst; [by destruct header|].
    assert (h = header /\ p ++ r = payload ++ rest) as [-> Heq'] by (apply app_inj_1; congruence).
    assert (Hl : length p = length payload) by (unfold blen in *; lia).
    apply app_inj_1 in Heq' as [-> ->]; [|done].
    f_equal; [congruence|]. by apply IH.
Qed.

(** *** Encoding *)

Context {L : LedgerCodecLaws C}.

Lemma encode_frame record frame :
  encodePairingJournalFrame record = Ok frame ->
  validatePairingJournalRecord record = None /\
  exists payload, frame = be_encode 4 (blen payload) ++ payload /\
    0 < blen payload <= maxPairingLedgerFrameBytes /\
    decodePairingJournalFrame payload = Ok record.
Proof.
  unfold encodePairingJournalFrame. intros H.
  destruct (validatePairingJournalRecord record) eqn:Hv; [done|].
  destruct (ledger_marshal_record record) as [rp|] eqn:Hm; [|done].
  destruct (ledger_marshal_frame record _) as [payload|] eqn:Hf; [|done].
  destruct ((blen payload =? 0) || (maxPairingLedgerFrameBytes <? blen payload)) eqn:Hsz; [done|].
  injection H as <-. split; [done|]. exists payload. split; [done|]. split.
  { assert (0 <= blen payload) by (unfold blen; lia). lia. }
  unfold decodePairingJournalFrame. rewrite (ledger_decode_marshal _ _ _ Hv Hf), Hv, Hm.
  destruct (ledger_sum256_bytes rp) as [H32 Hb]. rewrite hex_decode_encode by done.
  unfold blen. rewrite H32. simpl. by rewrite (proj2 (bytes_eqb_eq _ _) eq_refl).
Qed.

Lemma encode_framed record frame :
  encodePairingJournalFrame record = Ok frame -> framed frame [record].
Proof.
  intros H. destruct (encode_frame record frame H) as (_ & payload & -> & Hp & Hd).
  rewrite <-(app_nil_r payload) at 2. apply framed_cons; try done; [|constructor].
  apply be_decode_encode_small. unfold maxPairingLedgerFrameBytes in Hp. simpl. lia.
Qed.

(** An append of an encoded frame adds exactly its record. *)
Lemma decode_append data records record frame :
  decodePairingJournal data = Ok records -> encodePairingJournalFrame record = Ok frame ->
  Z.of_nat (length records) + 1 <= maxPairingLedgerRecords ->
  decodePairingJournal (data ++ frame) = Ok (records ++ [record]).
Proof.
  rewrite !decodePairingJournal_Ok. intros (Hne & Hf & Hn) He Hc. split_and!.
  - by destruct data.
  - apply framed_app; [done|]. by apply encode_framed.
  - rewrite length_app. simpl. lia.
Qed.

(** A part of a frame is not a sequence of frames. *)
Lemma torn_not_framed record frame n records :
  encodePairingJournalFrame record = Ok frame -> (0 < n < length frame)%nat ->
  ~ framed (take n frame) records.
Proof.
  intros He Hn Hf. destruct (encode_frame record frame He) as (_ & payload & -> & Hp & _).
  assert (Hh : length (be_encode 4 (blen payload)) = 4%nat) by apply be_encode_length.
  assert (Hb : be_decode (be_encode 4 (blen payload)) = blen payload).
  { apply be_decode_encode_small. unfold maxPairingLedgerFrameBytes in Hp. simpl. lia. }
  revert Hn Hf Hh Hb. generalize (be_encode 4 (blen payload)). intros h Hn Hf Hh Hb.
  rewrite length_app in Hn.
  inversion Hf as [Heq|h' p r x xs Hh2 Hb2 Hp2 _ _ Heq].
  - assert (length (take n (h ++ payload)) = 0%nat) as E by by rewrite <-Heq.
    rewrite length_take, length_app in E. lia.
  - assert (Hl : length (h' ++ p ++ r) = n).
    { rewrite Heq, length_take, length_app. lia. }
    rewrite !length_app in Hl.
    rewrite take_app_ge in Heq by lia. rewrite Hh in Heq.
    apply app_inj_1 in Heq as [-> _]; [|congruence]. unfold blen in *. lia.
Qed.

(** A torn append leaves a journal that no longer decodes. *)
Lemma decode_torn data records record frame n :
  decodePairingJournal data = Ok records -> encodePairingJournalFrame record = Ok frame ->
  (0 < n < length frame)%nat ->
  forall r, decodePairingJournal (data ++ take n frame) <> Ok r.
Proof.
  rewrite decodePairingJournal_Ok. intros (_ & Hf & _) He Hn r.
  rewrite decodePairingJournal_Ok. intros (_ & Hf2 & _). clear -Hf Hf2 He Hn L.
  revert r Hf2. induction Hf as [|header payload rest rec recs Hh Hb Hp Hr _ IH]; intros r Hf2.
  - by eapply torn_not_framed.
  - inversion Hf2 as [Heq|h p r' x xs Hh2 Hb2 Hp2 Hr2 Hf3 Heq]; [by destruct header|].
    rewrite <-!app_assoc in Heq. apply app_inj_1 in Heq as [-> Heq]; [|congruence].
    assert (Hl : length p = length payload) by (unfold blen in *; lia).
    apply app_inj_1 in Heq as [-> ->]; [|done]. by eapply IH.
Qed.
End framing.

(** The fuel of [decodePairingJournal] is enough: more never changes the result. *)
Lemma decode_loop_fuel `{C : LedgerCodec} data acc fuel extra :
  (length data <= fuel)%nat -> decode_loop (fuel + extra) data acc = decode_loop fuel data acc.
Proof.
  revert data acc extra. induction fuel as [|fuel IH]; intros data acc extra Hf.
  - destruct data; [|simpl in Hf; lia]. by destruct extra.
  - simpl. destruct (Z.eqb_spec (blen data) 0); [done|].
    destruct (Z.ltb_spec (blen data) 4); [done|].
    destruct ((be_decode (take 4 data) <=? 0) || _); [done|].
    destruct (Z.ltb_spec (blen (drop 4 data)) (be_decode (take 4 data))); [done|].
    destruct (decodePairingJournalFrame _); [|done]. destruct (_ <? _); [done|].
    apply IH. rewrite !length_drop. unfold blen in *. lia.
Qed.

(** * Replay of the pairing admission journal

    [replayed s] relates a snapshot to the records it was built from: the
    admission order lists the burn records, both maps point into it, the
    sequence numbers are consecutive, the time stamps are sorted and bounded
    by the high-watermark.  [statusAt] and [admissionError] are then
    characterised on the records themselves. *)

Definition is_burn (r : pairingJournalRecord) : bool :=
  bool_decide (jr_Type r = pairingRecordBurnAndAdmit).

Definition time_of (r : pairingJournalRecord) : Z := instant (jr_RecordedAt r).

Record replayed (s : pairingLedgerSnapshot) : Prop := {
  rp_order : map en_record (sn_order s) = List.filter is_burn (sn_records s);
  rp_admissions : forall c i, sn_admissions s !! c = Some i <->
    exists e, sn_order s !! i = Some e /\ jr_CredentialID (en_record e) = c;
  rp_attempts : forall c i, sn_attempts s !! c = Some i <->
    exists e, sn_order s !! i = Some e /\ jr_AttemptID (en_record e) = c;
  rp_sequence : forall i r, sn_records s !! i = Some r -> jr_Sequence r = Z.of_nat i + 1;
  rp_sorted : forall i j q r, (i <= j)%nat -> sn_records s !! i = Some q ->
    sn_records s !! j = Some r -> time_of q <= time_of r;
  rp_high : forall r, r ∈ sn_records s -> time_of r <= instant (sn_highWatermark s);
  rp_high_from : sn_highWatermark s = time_zero \/
    exists r, r ∈ sn_records s /\ sn_highWatermark s = jr_RecordedAt r;
}.

Lemma replayed_start bytes owner : replayed (snapshot_start bytes owner).
Proof.
  split; simpl; try done; [| | |by left].
  - intros c i. rewrite lookup_empty. split; [done|]. by intros (e & He & _).
  - intros c i. rewrite lookup_empty. split; [done|]. by intros (e & He & _).
  - by intros r Hr%not_elem_of_nil.
Qed.

(** What a replayed record keeps. *)
Record step_frame (s s' : pairingLedgerSnapshot) (r : pairingJournalRecord) : Prop := {
  fr_records : sn_records s' = sn_records s ++ [r];
  fr_status : sn_status s' = sn_status s;
  fr_owner : sn_owner s' = sn_owner s;
  fr_bytes : sn_bytes s' = sn_bytes s;
}.

Lemma replay_record_frame index r s s' :
  replay_record index r s = Ok s' ->
  sn_records s' = sn_records s /\ sn_status s' = sn_status s /\ sn_owner s' = sn_owner s /\
  sn_bytes s' = sn_bytes s /\ sn_highWatermark s' = sn_highWatermark s.
Proof. unfold replay_record. intros H. repeat case_match; simplify_eq/=; done. Qed.

Lemma replay_step_frame s r s' : replay_step s r = Ok s' -> step_frame s s' r.
Proof.
  unfold replay_step. intros H.
  destruct (negb _); [done|]. destruct (match last (sn_records s) with Some _ => _ | None => _ end);
    [done|].
  set (s1 := if After _ _ then _ else s) in *.
  assert (sn_records s1 = sn_records s /\ sn_status s1 = sn_status s /\ sn_owner s1 = sn_owner s /\
    sn_bytes s1 = sn_bytes s) as (E1 & E2 & E3 & E4) by (unfold s1; by destruct (After _ _)).
  destruct (replay_record _ r s1) as [s2|] eqn:Hr; [|done]. injection H as <-.
  apply replay_record_frame in Hr as (F1 & F2 & F3 & F4 & _).
  split; simpl; congruence.
Qed.

Lemma lookup_unique_app {A} (l : list A) x i y :
  (l ++ [x]) !! i = Some y <-> l !! i = Some y \/ (i = length l /\ y = x).
Proof.
  rewrite lookup_app_Some, list_lookup_singleton_Some. split.
  - intros [?|[? [? <-]]]; [by left|right]. split; [lia|done].
  - intros [?|[-> ->]]; [by left|right]. split; [lia|]. split; [lia|done].
Qed.

(** The maps after a new entry. *)
Lemma index_add (key : pairingJournalRecord -> string) (m : gmap string nat)
    (order : list pairingAdmissionEntry) r :
  (forall c i, m !! c = Some i <-> exists e, order !! i = Some e /\ key (en_record e) = c) ->
  m !! key r = None ->
  forall c i, <[key r := length order]> m !! c = Some i <->
    exists e, (order ++ [mkEntry r None]) !! i = Some e /\ key (en_record e) = c.
Proof.
  intros Hm Hn c i. rewrite lookup_insert_Some. split.
  - intros [[<- <-]|[Hne Hc]].
    + exists (mkEntry r None). split; [|done]. by apply lookup_unique_app; right.
    + apply Hm in Hc as (e & He & Hk). exists e. split; [|done]. by apply lookup_unique_app; left.
  - intros (e & He & Hk). apply lookup_unique_app in He as [He|[-> ->]].
    + right. assert (Hc : m !! c = Some i) by (apply Hm; eauto). split; [|done].
      intros E. rewrite E in Hn. congruence.
    + by left.
Qed.

(** The maps after a terminal record. *)
Lemma index_finish (key : pairingJournalRecord -> string) (m : gmap string nat)
    (order : list pairingAdmissionEntry) i0 e0 f :
  (forall c i, m !! c = Some i <-> exists e, order !! i = Some e /\ key (en_record e) = c) ->
  order !! i0 = Some e0 ->
  forall c i, m !! c = Some i <->
    exists e, <[i0 := mkEntry (en_record e0) f]> order !! i = Some e /\ key (en_record e) = c.
Proof.
  intros Hm H0 c i. rewrite Hm.
  assert (Hlt : (i0 < length order)%nat) by by eapply lookup_lt_Some.
  destruct (decide (i0 = i)) as [->|Hne].
  - rewrite list_lookup_insert_eq by done. split.
    + intros (e & He & Hk). assert (e = e0) as -> by congruence. by eexists.
    + intros (e & [= <-] & Hk). by exists e0.
  - by rewrite list_lookup_insert_ne.
Qed.

Lemma map_record_insert (order : list pairingAdmissionEntry) i0 e0 f :
  order !! i0 = Some e0 ->
  map en_record (<[i0 := mkEntry (en_record e0) f]> order) = map en_record order.
Proof.
  intros H0. change (en_record <$> <[i0:=mkEntry (en_record e0) f]> order = en_record <$> order).
  rewrite list_fmap_insert. simpl. apply list_insert_id. by rewrite list_lookup_fmap, H0.
Qed.

(** The part of [replayed] the switch maintains. *)
Definition maps_ok (s : pairingLedgerSnapshot) (records : list pairingJournalRecord) : Prop :=
  map en_record (sn_order s) = List.filter is_burn records /\
  (forall c i, sn_admissions s !! c = Some i <->
    exists e, sn_order s !! i = Some e /\ jr_CredentialID (en_record e) = c) /\
  (forall c i, sn_attempts s !! c = Some i <->
    exists e, sn_order s !! i = Some e /\ jr_AttemptID (en_record e) = c).

Lemma replay_record_maps index r s s' :
  maps_ok s (sn_records s) -> replay_record index r s = Ok s' ->
  maps_ok s' (sn_records s ++ [r]).
Proof.
  unfold maps_ok. intros (Ho & Ha & Ht) H. rewrite List.filter_app, <-Ho. simpl.
  unfold replay_record in H. unfold is_burn.
  destruct (jr_Type r) eqn:Hty; simpl.
  - destruct (negb _); [done|]. simplify_eq. by rewrite app_nil_r.
  - destruct (negb _); [done|]. simplify_eq. by rewrite app_nil_r.
  - destruct (Nat.eqb index 0); [done|].
    destruct (sn_admissions s !! jr_CredentialID r) eqn:Hc; [done|].
    destruct (sn_attempts s !! jr_AttemptID r) eqn:Hat; [done|]. simplify_eq. simpl.
    rewrite map_app. split; [done|]. split; by apply index_add.
  - destruct (sn_admissions s !! jr_CredentialID r) as [i0|] eqn:Hc; [|done].
    destruct (sn_order s !! i0) as [e0|] eqn:He; [|done].
    destruct (_ || _); [done|]. destruct (en_finish e0); [done|]. simplify_eq. simpl.
    rewrite app_nil_r, map_record_insert by done. split; [done|]. split; by apply index_finish.
  - destruct (Nat.eqb index 0); [done|]. repeat case_match; simplify_eq; by rewrite app_nil_r.
  - done.
Qed.

Lemma replayed_step s r s' : replayed s -> replay_step s r = Ok s' -> replayed s'.
Proof.
  intros R H. pose proof (replay_step_frame s r s' H) as [Hrec _ _ _].
  unfold replay_step in H. destruct (Z.eqb_spec (jr_Sequence r) (Z.of_nat (length (sn_records s)) + 1))
    as [Hseq|]; [|done]. simpl in H.
  destruct (match last (sn_records s) with Some _ => _ | None => _ end) eqn:Hreg; [done|].
  set (s1 := if After _ _ then _ else s) in *.
  assert (R1 : sn_records s1 = sn_records s /\ sn_order s1 = sn_order s /\
    sn_admissions s1 = sn_admissions s /\ sn_attempts s1 = sn_attempts s)
    by (unfold s1; by destruct (After _ _)).
  destruct R1 as (E1 & E2 & E3 & E4).
  destruct (replay_record _ r s1) as [s2|] eqn:Hrr; [|done].
  pose proof (replay_record_frame _ _ _ _ Hrr) as (_ & _ & _ & _ & Hhigh).
  assert (Hh : instant (sn_highWatermark s1) = Z.max (instant (sn_highWatermark s)) (time_of r)
    /\ (sn_highWatermark s1 = sn_highWatermark s \/ sn_highWatermark s1 = jr_RecordedAt r)).
  { unfold s1, After, time_of.
    destruct (Z.ltb_spec (instant (sn_highWatermark s)) (instant (jr_RecordedAt r))); simpl; split;
      auto; lia. }
  destruct Hh as [Hmax Hcase].
  assert (Hlast : forall q, q ∈ sn_records s -> time_of q <= time_of r).
  { intros q Hq. destruct (last (sn_records s)) as [p|] eqn:Hl.
    - unfold Before in Hreg. apply Z.ltb_ge in Hreg.
      apply list_elem_of_lookup in Hq as [i Hi]. rewrite last_lookup in Hl.
      assert (time_of q <= time_of p).
      { eapply (rp_sorted s R i (pred (length (sn_records s)))); [|done|done].
        apply lookup_lt_Some in Hi. lia. }
      unfold time_of in *. lia.
    - apply last_None in Hl. rewrite Hl in Hq. by apply not_elem_of_nil in Hq. }
  assert (M1 : maps_ok s1 (sn_records s1)).
  { unfold maps_ok. rewrite E1, E2, E3, E4. split_and!; apply R. }
  destruct (replay_record_maps _ _ _ _ M1 Hrr) as (M2 & M3 & M4). rewrite E1 in M2.
  injection H as <-. simpl in Hrec. split; simpl; rewrite ?Hrec; try done.
  - intros i q Hi. apply lookup_unique_app in Hi as [Hi|[-> ->]]; [by apply R|done].
  - intros i j q x Hij Hi Hj.
    apply lookup_unique_app in Hi, Hj. destruct Hi as [Hi|[-> ->]], Hj as [Hj|[-> ->]].
    + by eapply (rp_sorted s R i j).
    + apply Hlast. by eapply list_elem_of_lookup_2.
    + apply lookup_lt_Some in Hj. lia.
    + lia.
  - intros q Hq. rewrite Hhigh, Hmax. apply elem_of_app in Hq as [Hq|Hq%list_elem_of_singleton].
    + apply (rp_high s R) in Hq. lia.
    + subst q. lia.
  - rewrite Hhigh. destruct Hcase as [->| ->].
    + destruct (rp_high_from s R) as [->|(q & Hq & ->)]; [by left|]. right. exists q.
      split; [|done]. apply elem_of_app. by left.
    + right. exists r. split; [|done]. apply elem_of_app. right. by apply list_elem_of_singleton.
Qed.

Lemma replay_app l1 l2 s :
  replay (l1 ++ l2) s =
  match replay l1 s with Err e => Err e | Ok s' => replay l2 s' end.
Proof.
  revert s. induction l1 as [|r l1 IH]; intros s; simpl; [done|].
  destruct (replay_step s r); [apply IH|done].
Qed.

Lemma replay_spec records s s' :
  replay records s = Ok s' -> replayed s ->
  replayed s' /\ sn_records s' = sn_records s ++ records /\ sn_status s' = sn_status s /\
  sn_owner s' = sn_owner s /\ sn_bytes s' = sn_bytes s.
Proof.
  revert s. induction records as [|r records IH]; intros s; simpl.
  - intros [= <-] R. by rewrite app_nil_r.
  - destruct (replay_step s r) as [s1|] eqn:Hs; [|done]. intros Hr R.
    destruct (replay_step_frame s r s1 Hs) as [F1 F2 F3 F4].
    destruct (IH s1 Hr (replayed_step s r s1 R Hs)) as (R' & G1 & G2 & G3 & G4).
    split_and!; [done| |congruence..]. rewrite G1, F1. by rewrite <-app_assoc.
Qed.

(** A snapshot as [buildPairingLedgerSnapshot] returns it, up to its status. *)
Lemma build_spec records bytes owner s :
  buildPairingLedgerSnapshot records bytes owner = Ok s ->
  replayed s /\ sn_records s = records /\ records <> [] /\ sn_owner s = owner /\
  sn_bytes s = bytes /\ sn_sequence s = Z.of_nat (length records) /\
  ps_State (sn_status s) = PairingLedgerReady /\
  ps_Records (sn_status s) = Z.of_nat (length records) /\ ps_Bytes (sn_status s) = bytes /\
  ps_LastAdmissionAt (sn_status s) = time_zero.
Proof.
  unfold buildPairingLedgerSnapshot. destruct records as [|r0 records]; [done|]. simpl.
  intros H. change (match replay_step (snapshot_start bytes owner) r0 with
    | Ok s' => replay records s' | Err e => Err e end)
    with (replay (r0 :: records) (snapshot_start bytes owner)) in H.
  destruct (replay (r0 :: records) _) as [s1|] eqn:Hr; [|done]. injection H as <-.
  destruct (replay_spec _ _ _ Hr (replayed_start bytes owner)) as (R & G1 & G2 & G3 & G4).
  split; [destruct R; by split|]. by split_and!.
Qed.

(** ** The rolling windows on records *)

Definition of_class (c : PairingLedgerRecordClass) (r : pairingJournalRecord) : bool :=
  bool_decide (jr_RecordClass r = c).

(** The admissions of one class. *)
Definition class_burns (c : PairingLedgerRecordClass) (records : list pairingJournalRecord) :=
  List.filter (of_class c) (List.filter is_burn records).

Definition count_after (cutoff : Z) (rs : list pairingJournalRecord) : Z :=
  Z.of_nat (length (List.filter (fun r => cutoff <? time_of r) rs)).

Fixpoint packets_after (cutoff : Z) (rs : list pairingJournalRecord) : Z :=
  match rs with
  | [] => 0
  | r :: rs => (if cutoff <? time_of r then env_Packets (jr_Envelope r) else 0)
               + packets_after cutoff rs
  end.

Lemma window_fold c hc dc order acc :
  let w := fold_left (window_step c hc dc) order acc in
  let rs := List.filter (of_class c) (map en_record order) in
  wa_hour w = wa_hour acc + count_after (instant hc) rs /\
  wa_day w = wa_day acc + count_after (instant dc) rs /\
  wa_packets w = wa_packets acc + packets_after (instant dc) rs /\
  instant (wa_last acc) <= instant (wa_last w) /\
  (forall r, r ∈ rs -> time_of r <= instant (wa_last w)).
Proof.
  revert acc. induction order as [|e order IH]; intros acc; simpl.
  - unfold count_after. simpl. split_and!; try lia. by intros r Hr%not_elem_of_nil.
  - destruct (IH (window_step c hc dc acc e)) as (H1 & H2 & H3 & H4 & H5).
    unfold window_step in *.
    change (bool_decide (jr_RecordClass (en_record e) = c)) with (of_class c (en_record e)) in *.
    destruct (of_class c (en_record e)); simpl in *.
    + unfold count_after in *. simpl. unfold After in *.
      fold (time_of (en_record e)) in *.
      set (t := time_of (en_record e)) in *.
      destruct (instant dc <? t); simpl in *;
        (destruct (instant hc <? t); simpl in *);
        (destruct (Z.ltb_spec (instant (wa_last acc)) t); simpl in * );
        (split_and!; [lia|lia|lia|unfold t, time_of in *; lia|]);
        (intros r [->|Hr]%elem_of_cons; [unfold t, time_of in *; lia|by apply H5]).
    + by split_and!.
Qed.

Lemma effectiveNow_Ok s n now :
  effectiveNow s n = Ok now ->
  not_usable (ps_State (sn_status s)) = false /\
  instant (sn_highWatermark s) <= instant now /\ instant n <= instant now /\
  (utc_loc (sn_highWatermark s) = true -> utc_loc now = true /\ effectiveNow s now = Ok now).
Proof.
  unfold effectiveNow. intros H. destruct (not_usable _); [done|].
  unfold Before, TAdd, UTC in *. simpl in *.
  destruct (Z.ltb_spec (instant n + pairingLedgerClockRollbackSkew) (instant (sn_highWatermark s)));
    [done|].
  destruct (Z.ltb_spec (instant n) (instant (sn_highWatermark s))); simplify_eq/=.
  - split_and!; [done|lia|lia|]. intros Hu. split; [done|].
    unfold pairingLedgerClockRollbackSkew, Minute, Second, Millisecond in *.
    destruct (Z.ltb_spec (instant (sn_highWatermark s) + 2 * (60 * (1000 * 1000000)))
      (instant (sn_highWatermark s))); [lia|].
    by rewrite Z.ltb_irrefl; destruct (sn_highWatermark s); simpl in *; subst.
  - split_and!; [done|lia|lia|]. intros _. split; [done|].
    unfold pairingLedgerClockRollbackSkew, Minute, Second, Millisecond in *.
    destruct (Z.ltb_spec (instant n + 2 * (60 * (1000 * 1000000)))
      (instant (sn_highWatermark s))); [lia|].
    by destruct (Z.ltb_spec (instant n) (instant (sn_highWatermark s))); [lia|].
Qed.

(** The fields of the status at a time that is not behind. *)
Lemma statusAt_fields s now (w := ordinary_window s now) :
  effectiveNow s now = Ok now ->
  ps_OneHourAdmissions (statusAt s now) = wa_hour w /\
  ps_TwentyFourHourAdmissions (statusAt s now) = wa_day w /\
  ps_TwentyFourHourPackets (statusAt s now) = wa_packets w /\
  ps_NextAdmissionAt (statusAt s now) =
    (if IsZero (wa_last w) then time_zero
     else TAdd (wa_last w) pairingAdmissionMinimumInterval) /\
  (ps_CircuitOpenedAt (statusAt s now), ps_ConsecutiveFailures (statusAt s now)) =
    ((failureState s PairingRecordClassOrdinary).2, (failureState s PairingRecordClassOrdinary).1) /\
  (ps_State (statusAt s now) = PairingLedgerCircuitOpen <->
    IsZero (failureState s PairingRecordClassOrdinary).2 = false) /\
  not_usable (ps_State (statusAt s now)) = false /\
  ps_Records (statusAt s now) = ps_Records (sn_status s) /\
  ps_Bytes (statusAt s now) = ps_Bytes (sn_status s) /\
  ps_ExplicitResetRequired (statusAt s now) =
    negb (IsZero (failureState s PairingRecordClassOrdinary).2).
Proof.
  intros He. destruct (effectiveNow_Ok s now now He) as (Hu & _).
  unfold statusAt. rewrite Hu, He. fold w.
  destruct (failureState s PairingRecordClassOrdinary) as [failures openedAt]. simpl.
  destruct (IsZero openedAt); simpl; [|split_and!; done].
  destruct (_ || _); [split_and!; done|]. destruct (_ || _ || _ || _); split_and!; done.
Qed.

Lemma statusAt_usable s now :
  not_usable (ps_State (sn_status s)) = false -> not_usable (ps_State (statusAt s now)) = false.
Proof.
  intros Hu. unfold statusAt. rewrite Hu. unfold effectiveNow. rewrite Hu.
  destruct (Before (TAdd _ _) _); [done|].
  destruct (Before (UTC now) (sn_highWatermark s));
    (destruct (failureState s PairingRecordClassOrdinary) as [failures openedAt]);
    (destruct (negb (IsZero openedAt)); [done|]);
    (destruct ((maxPairingLedgerRecords <=? _) || _); [done|]);
    by destruct (_ || _ || _ || _).
Qed.

(** *** Admission of an ordinary request *)
Lemma admissionError_ordinary s now envelope c :
  c <> PairingRecordClassHardNATCampaign -> effectiveNow s now = Ok now ->
  admissionError s now envelope c = None ->
  let w := ordinary_window s now in
  wa_hour w + 1 <= pairingAdmissionOneHourLimit /\
  wa_day w + 1 <= pairingAdmissionDayLimit /\
  wa_packets w + env_Packets envelope <= pairingAdmissionDayPackets /\
  (0 < instant (wa_last w) ->
    instant (wa_last w) + pairingAdmissionMinimumInterval <= instant now) /\
  IsZero (failureState s PairingRecordClassOrdinary).2 = true.
Proof.
  intros Hc He H w. unfold admissionError in H.
  destruct (bool_decide_reflect (c = PairingRecordClassHardNATCampaign)); [done|].
  destruct (statusAt_fields s now He) as (F1 & F2 & F3 & F4 & _ & Fo & _).
  fold w in F1, F2, F3, F4. cbv zeta in H.
  assert (Hopen : IsZero (failureState s PairingRecordClassOrdinary).2 = true).
  { apply not_false_iff_true. intros Hz. apply Fo in Hz. by rewrite Hz in H. }
  rewrite F1, F2, F3, F4 in H.
  assert (Hb : (negb (IsZero (if IsZero (wa_last w) then time_zero
     else TAdd (wa_last w) pairingAdmissionMinimumInterval)) &&
     Before now (if IsZero (wa_last w) then time_zero
       else TAdd (wa_last w) pairingAdmissionMinimumInterval))
    || (pairingAdmissionOneHourLimit <? wa_hour w + 1)
    || (pairingAdmissionDayLimit <? wa_day w + 1)
    || (pairingAdmissionDayPackets <? wa_packets w + env_Packets envelope) = false).
  { destruct (ps_State (statusAt s now)); try done; by destruct (_ || _ || _ || _). }
  apply orb_false_iff in Hb as [[[Hn Hh]%orb_false_iff Hd]%orb_false_iff Hp].
  split_and!; [lia|lia|lia| |done]. intros Hpos.
  unfold IsZero, Before, TAdd in Hn. simpl in Hn.
  destruct (Z.eqb_spec (instant (wa_last w)) 0); [lia|]. simpl in Hn.
  unfold pairingAdmissionMinimumInterval, Second, Millisecond in *.
  destruct (Z.eqb_spec (instant (wa_last w) + 60 * (1000 * 1000000)) 0); [lia|]. simpl in Hn. lia.
Qed.

(** *** Admission of a campaign *)
Lemma admissionError_campaign s now envelope :
  effectiveNow s now = Ok now ->
  admissionError s now envelope PairingRecordClassHardNATCampaign = None ->
  let w := campaign_window s now in
  wa_day w + 1 <= hardNATCampaignAdmissions /\
  wa_packets w + env_Packets envelope <= hardNATCampaignPackets /\
  IsZero (failureState s PairingRecordClassHardNATCampaign).2 = true.
Proof.
  intros He H w. unfold admissionError in H.
  destruct (bool_decide_reflect (PairingRecordClassHardNATCampaign = PairingRecordClassHardNATCampaign));
    [|done].
  destruct (effectiveNow_Ok s now now He) as (Hu & _).
  unfold hardNATCampaignAdmissionError in H.
  assert (Hs : hs_TwentyFourHourAdmissions (hardNATCampaignStatusAt s now) = wa_day w /\
    hs_TwentyFourHourPackets (hardNATCampaignStatusAt s now) = wa_packets w /\
    (hs_State (hardNATCampaignStatusAt s now) = PairingLedgerCircuitOpen \/
     IsZero (failureState s PairingRecordClassHardNATCampaign).2 = true)).
  { unfold hardNATCampaignStatusAt. rewrite Hu, He. fold w.
    destruct (failureState s PairingRecordClassHardNATCampaign) as [failures openedAt].
    destruct (IsZero openedAt) eqn:Hz; simpl; [|by split_and!; [..|left]].
    split_and!; [repeat case_match; done..|by right]. }
  destruct Hs as (F1 & F2 & F3). cbv zeta in H. rewrite F1, F2 in H.
  destruct (hs_State (hardNATCampaignStatusAt s now)) eqn:Hst; try done.
  all: try (by destruct (bool_decide _)).
  all: destruct (negb _); [done|];
    destruct ((hardNATCampaignAdmissions <? wa_day w + 1)
      || (hardNATCampaignPackets <? wa_packets w + env_Packets envelope)) eqn:Hb; [done|];
    destruct F3 as [|F3]; [done|]; split_and!; [lia|lia|done].
Qed.
