(* ===== verification/LedgerEffects.v ===== *)
(** * What one operation does to the journal file

    Every operation leaves the file alone or appends (a part of) one encoded
    frame whose record extends the journal consistently with the policy
    ([appendable]); over a whole run the admission windows are therefore
    respected by the records themselves ([journal_inv]). *)
From S2P Require Import Prelude GoStd Limits SafetyTrip Governor Ledger LedgerSnapshot LedgerOps LedgerReplay.

(** The policy on the records: [r] may follow [pre]. *)
Definition within_windows (pre : list pairingJournalRecord) (r : pairingJournalRecord) : Prop :=
  if of_class PairingRecordClassHardNATCampaign r then
    let burns := class_burns PairingRecordClassHardNATCampaign pre in
    count_after (time_of r - hardNATCampaignWindow) burns + 1 <= hardNATCampaignAdmissions /\
    packets_after (time_of r - hardNATCampaignWindow) burns + env_Packets (jr_Envelope r)
      <= hardNATCampaignPackets
  else
    let burns := class_burns PairingRecordClassOrdinary pre in
    count_after (time_of r - pairingAdmissionOneHourWindow) burns + 1
      <= pairingAdmissionOneHourLimit /\
    count_after (time_of r - pairingAdmissionDayWindow) burns + 1
      <= pairingAdmissionDayLimit /\
    packets_after (time_of r - pairingAdmissionDayWindow) burns + env_Packets (jr_Envelope r)
      <= pairingAdmissionDayPackets /\
    (forall q, q ∈ burns -> 0 < time_of q ->
       time_of q + pairingAdmissionMinimumInterval <= time_of r).

(** The burns of [pre] name neither the credential nor the attempt of [r]. *)
Definition fresh_burn (pre : list pairingJournalRecord) (r : pairingJournalRecord) : Prop :=
  forall q, q ∈ List.filter is_burn pre ->
    jr_CredentialID q <> jr_CredentialID r /\ jr_AttemptID q <> jr_AttemptID r.

Record appendable (pre : list pairingJournalRecord) (r : pairingJournalRecord) : Prop := {
  ap_time : forall q, q ∈ pre -> time_of q <= time_of r;
  ap_windows : is_burn r = true -> within_windows pre r /\ fresh_burn pre r;
}.

Definition journal_inv (records : list pairingJournalRecord) : Prop :=
  forall pre r post, records = pre ++ r :: post -> appendable pre r.

Lemma snoc_split {A} (l : list A) x pre y post :
  l ++ [x] = pre ++ y :: post ->
  (pre = l /\ y = x /\ post = []) \/ exists post', post = post' ++ [x] /\ l = pre ++ y :: post'.
Proof.
  destruct post as [|z post _] using rev_ind.
  - intros E. apply app_inj_2 in E as [-> E]; [|done]. by simplify_eq; left.
  - intros E. rewrite app_comm_cons, app_assoc in E. apply app_inj_2 in E as [-> E]; [|done].
    simplify_eq. right. by exists post.
Qed.

Lemma journal_inv_snoc records r :
  journal_inv records -> appendable records r -> journal_inv (records ++ [r]).
Proof.
  intros Hinv Ha pre x post Hs. apply snoc_split in Hs as [(-> & -> & _)|(post' & _ & ->)]; [done|].
  by eapply Hinv.
Qed.

Section effects.
Context {C : LedgerCodec} {L : LedgerCodecLaws C}.
Variable ledgerInstance : string.

Lemma framed_valid data records :
  framed data records -> Forall (fun r => validatePairingJournalRecord r = None) records.
Proof.
  induction 1 as [|header payload rest record records _ _ _ Hr _ IH]; constructor; [|done].
  unfold decodePairingJournalFrame in Hr. repeat case_match; simplify_eq; done.
Qed.

Lemma valid_utc r :
  validatePairingJournalRecord r = None ->
  utc_loc (jr_RecordedAt r) = true /\ IsZero (jr_RecordedAt r) = false.
Proof.
  unfold validatePairingJournalRecord. intros H. destruct (negb _); [done|].
  destruct (_ =? 0); [done|]. destruct (IsZero (jr_RecordedAt r)); [done|].
  by destruct (utc_loc (jr_RecordedAt r)).
Qed.

(** A snapshot that was read from the journal. *)
Record snapshot_of (data : list Z) (s : pairingLedgerSnapshot)
    (records : list pairingJournalRecord) : Prop := {
  so_decode : decodePairingJournal data = Ok records;
  so_size : blen data <= maxPairingLedgerBytes;
  so_replayed : replayed s;
  so_records : sn_records s = records;
  so_bytes : sn_bytes s = blen data;
  so_sequence : sn_sequence s = Z.of_nat (length records);
  so_utc : utc_loc (sn_highWatermark s) = true;
  so_build : buildPairingLedgerSnapshot records (blen data) ledgerInstance =
             Ok (set_sn_status (ledger_status PairingLedgerReady false
                  (sn_sequence s) (sn_sequence s) (blen data) (sn_highWatermark s)
                  PairingAdmissionHardLimits "") s);
}.

(** A read that failed has no usable snapshot. *)
Ltac bad_read H Hu := injection H as <- _; vm_compute in Hu; discriminate.

Lemma read_validated_snapshot io data now s err :
  readValidatedPairingLedgerSnapshot io data now ledgerInstance = (s, err) ->
  not_usable (ps_State (sn_status s)) = false -> exists records, snapshot_of data s records.
Proof.
  unfold readValidatedPairingLedgerSnapshot. intros H Hu.
  destruct (rio_open io); simpl in H; [|bad_read H Hu]. destruct (rio_read io); simpl in H;
    [|bad_read H Hu].
  destruct (Z.ltb_spec maxPairingLedgerBytes (blen (take (Z.to_nat (maxPairingLedgerBytes + 1)) data)))
    as [|Hsz]; [bad_read H Hu|].
  assert (Hlen : blen data <= maxPairingLedgerBytes).
  { unfold blen in *. rewrite length_take in Hsz. unfold maxPairingLedgerBytes in *. lia. }
  assert (Ht : take (Z.to_nat (maxPairingLedgerBytes + 1)) data = data).
  { apply take_ge. unfold blen in Hlen. lia. }
  rewrite Ht in H. destruct (decodePairingJournal data) as [records|] eqn:Hd; [|bad_read H Hu].
  destruct (buildPairingLedgerSnapshot records (blen data) ledgerInstance) as [s0|] eqn:Hb;
    [|bad_read H Hu].
  destruct (build_spec records (blen data) ledgerInstance s0 Hb)
    as (R & E1 & _ & E2 & E3 & E4 & E5 & E6 & E7 & E8).
  assert (s = set_sn_status (statusAt s0 now) s0) as -> by (destruct (bool_decide _); by simplify_eq).
  pose proof Hd as Hd'. apply decodePairingJournal_Ok in Hd' as (_ & Hf & _).
  exists records. split; simpl; try done.
  - destruct R. by split.
  - destruct (rp_high_from s0 R) as [->|(r & Hr & ->)]; [done|].
    apply framed_valid in Hf. rewrite E1 in Hr. rewrite Forall_forall in Hf.
    by apply Hf, valid_utc in Hr as [? _].
  - rewrite Hb. f_equal. unfold buildPairingLedgerSnapshot in Hb.
    destruct (Nat.eqb _ _); [done|]. destruct (replay records _) as [s1|]; [|done].
    injection Hb as <-. done.
Qed.

Lemma open_snapshot_Ok env file s :
  open_snapshot ledgerInstance env file = Ok s ->
  exists data records, file = Some data /\ snapshot_of data s records.
Proof.
  unfold open_snapshot. intros H. destruct (holdOwner _ _ _); [done|].
  unfold readPairingLedgerSnapshot in H. destruct file as [data|]; [|done].
  destruct (rio_trusted (le_read env)); simpl in H; [|done].
  destruct (readValidatedPairingLedgerSnapshot _ _ _ _) as [s0 err] eqn:Hr.
  assert (s0 = s) as -> by (destruct err; [destruct (not_usable _)|]; by simplify_eq).
  exists data. destruct (not_usable (ps_State (sn_status s))) eqn:Hu.
  - exfalso. destruct err; [done|]. clear H.
    unfold readValidatedPairingLedgerSnapshot in Hr.
    destruct (negb (rio_open _)); [done|]. destruct (negb (rio_read _)); [done|].
    destruct (_ <? _); [done|]. destruct (decodePairingJournal _) as [rs|]; [|done].
    destruct (buildPairingLedgerSnapshot _ _ _) as [s1|] eqn:Hb; [|done].
    apply build_spec in Hb as (_ & _ & _ & _ & _ & _ & Hst & _).
    destruct (bool_decide _); [done|]. injection Hr as <-. simpl in Hu.
    rewrite statusAt_usable in Hu; [done|]. by rewrite Hst.
  - destruct (read_validated_snapshot _ _ _ _ _ Hr Hu) as [records ?]. by exists records.
Qed.

(** ** The admission checks *)

Lemma snapshot_burns data s records :
  snapshot_of data s records -> map en_record (sn_order s) = List.filter is_burn records.
Proof. intros S. rewrite <-(so_records _ _ _ S). apply (rp_order s), S. Qed.

Lemma snapshot_time data s records q :
  snapshot_of data s records -> q ∈ records -> time_of q <= instant (sn_highWatermark s).
Proof. intros S Hq. apply (rp_high s); [apply S|]. by rewrite (so_records _ _ _ S). Qed.

Lemma window_start_nonneg s now :
  let w := rebuild_window s now in 0 <= wa_hour w /\ 0 <= wa_day w /\ 0 <= wa_packets w.
Proof.
  unfold rebuild_window. destruct (IsZero _); simpl; [lia|].
  destruct (Before _ _), (Before _ _); split_and!; done.
Qed.

Lemma ordinary_within data s records now envelope c r :
  snapshot_of data s records -> effectiveNow s now = Ok now ->
  c <> PairingRecordClassHardNATCampaign -> admissionError s now envelope c = None ->
  jr_RecordedAt r = now -> jr_RecordClass r = c -> jr_Envelope r = envelope ->
  within_windows records r.
Proof.
  intros S He Hc Ha <- Hrc <-. unfold within_windows, of_class.
  rewrite bool_decide_false by congruence.
  destruct (admissionError_ordinary _ _ _ _ Hc He Ha) as (H1 & H2 & H3 & H4 & _).
  unfold ordinary_window in *.
  destruct (window_fold PairingRecordClassOrdinary
    (TAdd (jr_RecordedAt r) (- pairingAdmissionOneHourWindow))
    (TAdd (jr_RecordedAt r) (- pairingAdmissionDayWindow)) (sn_order s)
    (rebuild_window s (jr_RecordedAt r))) as (F1 & F2 & F3 & _ & F5).
  destruct (window_start_nonneg s (jr_RecordedAt r)) as (N1 & N2 & N3).
  set (w := fold_left _ _ _) in *. rewrite (snapshot_burns data s records S) in *.
  unfold class_burns, TAdd in *. simpl in *. unfold time_of at 1 2 3.
  change (instant (jr_RecordedAt r) + - pairingAdmissionOneHourWindow)
    with (instant (jr_RecordedAt r) - pairingAdmissionOneHourWindow) in *.
  change (instant (jr_RecordedAt r) + - pairingAdmissionDayWindow)
    with (instant (jr_RecordedAt r) - pairingAdmissionDayWindow) in *.
  split_and!; [lia|lia|lia|]. intros q Hq Hpos. specialize (F5 q Hq).
  assert (0 < instant (wa_last w)) as Hl by lia. apply H4 in Hl.
  unfold time_of at 2. lia.
Qed.

Lemma campaign_within data s records now envelope r :
  snapshot_of data s records -> effectiveNow s now = Ok now ->
  admissionError s now envelope PairingRecordClassHardNATCampaign = None ->
  jr_RecordedAt r = now -> jr_RecordClass r = PairingRecordClassHardNATCampaign ->
  jr_Envelope r = envelope -> within_windows records r.
Proof.
  intros S He Ha <- Hrc <-. unfold within_windows, of_class.
  rewrite bool_decide_true by congruence.
  destruct (admissionError_campaign _ _ _ He Ha) as (H1 & H2 & _).
  unfold campaign_window in *. set (acc := campaign_start s _) in *.
  assert (N : 0 <= wa_day acc /\ 0 <= wa_packets acc)
    by (unfold acc, campaign_start; destruct (_ && _); done).
  destruct (window_fold PairingRecordClassHardNATCampaign
    (TAdd (jr_RecordedAt r) (- hardNATCampaignWindow))
    (TAdd (jr_RecordedAt r) (- hardNATCampaignWindow)) (sn_order s) acc) as (_ & F2 & F3 & _).
  set (w := fold_left _ _ _) in *. rewrite (snapshot_burns data s records S) in *.
  unfold class_burns, TAdd in *. simpl in *. unfold time_of at 1 2.
  change (instant (jr_RecordedAt r) + - hardNATCampaignWindow)
    with (instant (jr_RecordedAt r) - hardNATCampaignWindow) in *. lia.
Qed.

Lemma snapshot_fresh data s records r :
  snapshot_of data s records ->
  sn_admissions s !! jr_CredentialID r = None -> sn_attempts s !! jr_AttemptID r = None ->
  fresh_burn records r.
Proof.
  intros S Hc Ha q Hq. rewrite <-(snapshot_burns data s records S) in Hq.
  apply list_elem_of_fmap in Hq as (e & -> & He). apply list_elem_of_lookup in He as [i Hi].
  split; intros E.
  - assert (sn_admissions s !! jr_CredentialID r = Some i); [|congruence].
    apply (rp_admissions s); [apply S|]. by exists e.
  - assert (sn_attempts s !! jr_AttemptID r = Some i); [|congruence].
    apply (rp_attempts s); [apply S|]. by exists e.
Qed.

(** Sequence numbers stay far below their width. *)
Lemma snapshot_next data s records :
  snapshot_of data s records -> u64_add (sn_sequence s) 1 = Z.of_nat (length records) + 1.
Proof.
  intros S. rewrite (so_sequence _ _ _ S). apply u64_add_small.
  pose proof (so_decode _ _ _ S) as Hd. apply decodePairingJournal_Ok in Hd as (_ & _ & Hn).
  unfold maxPairingLedgerRecords, u64_max in *. lia.
Qed.

(** What the checks of [Admit] establish. *)
Lemma admission_checks_Ok env request data s records now record frame :
  snapshot_of data s records ->
  admission_checks ledgerInstance env request s = Ok (now, record, frame) ->
  record = burn_record ledgerInstance s now request /\
  effectiveNow s (UTC (le_now env)) = Ok now /\ effectiveNow s now = Ok now /\
  admissionError s now (par_Envelope request) (par_RecordClass request) = None /\
  encodePairingJournalFrame record = Ok frame /\
  Z.of_nat (length records) + 2 <= maxPairingLedgerRecords /\
  blen data + blen frame + 4 + maxPairingLedgerFrameBytes <= maxPairingLedgerBytes /\
  appendable records record /\ Before now (par_ExpiresAt request) = true.
Proof.
  intros S H. unfold admission_checks in H.
  destruct (effectiveNow s (UTC (le_now env))) as [now0|] eqn:He; [|done]. simpl in H.
  destruct (Before now0 (par_ExpiresAt request)) eqn:Hexp; [|done]. simpl in H.
  destruct (sn_admissions s !! par_CredentialID request) eqn:Hc; [done|].
  destruct (sn_attempts s !! par_AttemptID request) eqn:Hat; [done|].
  destruct (admissionError s now0 _ _) eqn:Hae; [done|]. simpl in H.
  destruct (encodePairingJournalFrame _) as [frame0|] eqn:Hen; [|done]. simpl in H.
  unfold ensureAdmissionCapacity in H.
  destruct (_ || _) eqn:Hcap; [done|]. simpl in H. injection H as <- <- <-.
  rewrite (so_records _ _ _ S), (so_bytes _ _ _ S) in Hcap.
  destruct (effectiveNow_Ok s _ now0 He) as (_ & Hhigh & _ & Hidem).
  destruct (Hidem (so_utc _ _ _ S)) as [_ Hnow].
  apply orb_false_iff in Hcap as [Hc1 Hc2].
  split_and!; try done; [lia|lia|]. split.
  - intros q Hq. pose proof (snapshot_time data s records q S Hq). unfold time_of at 2. simpl. lia.
  - intros _. split; [|by eapply snapshot_fresh].
    destruct (decide (par_RecordClass request = PairingRecordClassHardNATCampaign)) as [E|E].
    + rewrite E in Hae. by eapply campaign_within.
    + by eapply ordinary_within.
Qed.

(** ** The effect of the operations *)

Lemma appendAndSync_effect io data frame file' err :
  appendAndSync io (Some data) frame = (file', err) ->
  (exists n, file' = Some (data ++ take n frame)) /\
  (err = None -> file' = Some (data ++ frame)).
Proof.
  unfold appendAndSync, appendPairingJournalFrame. intros H.
  assert (H0 : exists n, Some data = Some (data ++ take n frame)).
  { exists 0%nat. by rewrite take_0, app_nil_r. }
  assert (H1 : exists n, Some (data ++ frame) = Some (data ++ take n frame)).
  { exists (length frame). by rewrite take_ge. }
  destruct (aio_trusted io); simpl in H; [|by simplify_eq; split].
  destruct (aio_open io); simpl in H; [|by simplify_eq; split].
  destruct (aio_written io) as [n|]; [by simplify_eq; split; [eexists|]|].
  destruct (aio_beforeSync io); simpl in H; [|by simplify_eq; split].
  destruct (aio_sync io); simpl in H; [|by simplify_eq; split].
  destruct (aio_afterSync io); simpl in H; [|by simplify_eq; split].
  destruct (aio_close io); simpl in H; by simplify_eq; split.
Qed.

(** [file'] is [file], or [file] with (a part of) one more frame. *)
Definition extends (file file' : journal) : Prop :=
  file' = file \/
  exists data records record frame n, file = Some data /\
    decodePairingJournal data = Ok records /\ encodePairingJournalFrame record = Ok frame /\
    Z.of_nat (length records) + 1 <= maxPairingLedgerRecords /\ appendable records record /\
    file' = Some (data ++ take n frame).

Lemma extends_refl file : extends file file.
Proof. by left. Qed.

Lemma extends_append io data s records record frame file' err :
  snapshot_of data s records -> encodePairingJournalFrame record = Ok frame ->
  Z.of_nat (length records) + 1 <= maxPairingLedgerRecords -> appendable records record ->
  appendAndSync io (Some data) frame = (file', err) -> extends (Some data) file'.
Proof.
  intros S He Hn Ha Hrun. destruct (appendAndSync_effect _ _ _ _ _ Hrun) as [[n ->] _].
  right. exists data, records, record, frame, n. split_and!; try done. apply S.
Qed.

(** A record that is not an admission may follow at any later time. *)
Lemma appendable_plain data s records n now record :
  snapshot_of data s records -> effectiveNow s n = Ok now -> jr_RecordedAt record = now ->
  is_burn record = false -> appendable records record.
Proof.
  intros S He Ht Hb. split; [|by rewrite Hb]. intros q Hq.
  pose proof (snapshot_time data s records q S Hq).
  destruct (effectiveNow_Ok s n now He) as (_ & Hh & _). unfold time_of at 2. rewrite Ht. lia.
Qed.

Lemma ensureRecordCapacity_None data s records k :
  snapshot_of data s records -> ensureRecordCapacity s k = None ->
  Z.of_nat (length records) + 1 <= maxPairingLedgerRecords /\
  blen data + k <= maxPairingLedgerBytes.
Proof.
  intros S. unfold ensureRecordCapacity. rewrite (so_records _ _ _ S), (so_bytes _ _ _ S).
  destruct (_ || _) eqn:E; [done|]. intros _. lia.
Qed.

Lemma Admit_extends env request file :
  extends file (Admit ledgerInstance env request file).1.
Proof.
  unfold Admit. destruct (validatePairingAdmissionRequest request); [apply extends_refl|].
  destruct (open_snapshot ledgerInstance env file) as [s|] eqn:Ho; [|apply extends_refl].
  destruct (open_snapshot_Ok env file s Ho) as (data & records & -> & S).
  destruct (admission_checks ledgerInstance env request s) as [[[now record] frame]|] eqn:Hc;
    [|apply extends_refl].
  destruct (admission_checks_Ok _ _ _ _ _ _ _ _ S Hc)
    as (_ & _ & _ & _ & He & Hn & _ & Ha & _).
  destruct (appendAndSync (le_append env) (Some data) frame) as [file' err] eqn:Hrun.
  assert (Hx : extends (Some data) file') by (eapply extends_append; eauto; lia).
  destruct err; [done|]. destruct (readPairingLedgerSnapshot _ _ _ _) as [v ve].
  destruct ve; [done|]. by destruct (match sn_admissions v !! _ with Some _ => _ | None => _ end).
Qed.

Lemma Finish_extends env receipt reason file :
  extends file (Finish ledgerInstance env receipt reason file).1.
Proof.
  unfold Finish. destruct (negb _); [apply extends_refl|].
  destruct (holdOwner _ _ _); [apply extends_refl|]. destruct (negb _); [apply extends_refl|].
  destruct (open_snapshot ledgerInstance env file) as [s|] eqn:Ho; [|apply extends_refl].
  destruct (open_snapshot_Ok env file s Ho) as (data & records & -> & S).
  destruct (effectiveNow s (UTC (le_now env))) as [now|] eqn:Hnow; [|apply extends_refl].
  destruct (receipt_entry s receipt) as [entry|]; [|apply extends_refl].
  destruct (en_finish entry); [destruct (bool_decide _); apply extends_refl|].
  destruct (encodePairingJournalFrame _) as [frame|] eqn:He; [|apply extends_refl].
  destruct (ensureRecordCapacity s (blen frame)) eqn:Hcap; [apply extends_refl|].
  destruct (ensureRecordCapacity_None _ _ _ _ S Hcap) as [Hn _].
  destruct (appendAndSync _ _ _) as [file' err] eqn:Hrun.
  eapply extends_append; eauto. by eapply appendable_plain.
Qed.

Lemma append_reset_extends env data s records n now c note :
  snapshot_of data s records -> effectiveNow s n = Ok now ->
  extends (Some data) (append_reset env s (reset_journal_record s now c note) (Some data)).1.
Proof.
  intros S Hnow. unfold append_reset.
  destruct (encodePairingJournalFrame _) as [frame|] eqn:He; [|apply extends_refl].
  destruct (ensureRecordCapacity s (blen frame)) eqn:Hcap; [apply extends_refl|].
  destruct (ensureRecordCapacity_None _ _ _ _ S Hcap) as [Hn _].
  destruct (appendAndSync _ _ _) as [file' err] eqn:Hrun.
  eapply extends_append; eauto. by eapply appendable_plain.
Qed.

(** The read of the two resets. *)
Lemma reset_snapshot env file s err :
  readPairingLedgerSnapshot (le_read env) file (UTC (le_now env)) ledgerInstance = (s, err) ->
  (if match err with Some _ => not_usable (ps_State (sn_status s)) | None => false end
   then true else false) = false ->
  holdOwner (le_owner env) (le_ownerInstance env) ledgerInstance = None ->
  exists data records, file = Some data /\ snapshot_of data s records.
Proof.
  intros Hr Hu Hh. apply (open_snapshot_Ok env file s). unfold open_snapshot.
  rewrite Hh, Hr. destruct err; [|done]. by destruct (not_usable _).
Qed.

Lemma ResetCircuit_extends env expected note file :
  extends file (ResetCircuit ledgerInstance env expected note file).1.
Proof.
  unfold ResetCircuit. destruct (_ || _); [apply extends_refl|].
  destruct (holdOwner _ _ _) eqn:Hh; [apply extends_refl|].
  destruct (readPairingLedgerSnapshot (le_read env) file _ _) as [s err] eqn:Hr.
  destruct (match err with Some _ => _ | None => _ end) eqn:Hu; [apply extends_refl|].
  destruct (reset_snapshot env file s err Hr) as (data & records & -> & S); [by rewrite Hu|done|].
  destruct (effectiveNow s (UTC (le_now env))) as [now|] eqn:Hnow; [|apply extends_refl].
  destruct (negb _); [apply extends_refl|]. destruct (_ || _); [apply extends_refl|].
  destruct (Before _ _); [apply extends_refl|].
  pose proof (append_reset_extends env data s records _ now PairingRecordClassOrdinary note S Hnow) as Hx.
  destruct (append_reset _ _ _ _) as [file' e]. destruct e; [done|].
  destruct (readPairingLedgerSnapshot _ file' _ _) as [v ve]. by destruct ve.
Qed.

Lemma ResetCampaign_extends env expected note file :
  extends file (ResetHardNATCampaignCircuit ledgerInstance env expected note file).1.
Proof.
  unfold ResetHardNATCampaignCircuit. destruct (_ || _); [apply extends_refl|].
  destruct (holdOwner _ _ _) eqn:Hh; [apply extends_refl|].
  destruct (readPairingLedgerSnapshot (le_read env) file _ _) as [s err] eqn:Hr.
  destruct (match err with Some _ => _ | None => _ end) eqn:Hu; [apply extends_refl|].
  destruct (reset_snapshot env file s err Hr) as (data & records & -> & S); [by rewrite Hu|done|].
  destruct (effectiveNow s (UTC (le_now env))) as [now|] eqn:Hnow; [|apply extends_refl].
  destruct (_ || _ || _); [apply extends_refl|].
  pose proof (append_reset_extends env data s records _ now PairingRecordClassHardNATCampaign note S Hnow) as Hx.
  destruct (append_reset _ _ _ _) as [file' e]. destruct e; [done|].
  by destruct (readPairingLedgerSnapshot _ file' _ _) as [v ve].
Qed.

Lemma ledger_step_extends file file' : ledger_step ledgerInstance file file' -> extends file file'.
Proof.
  destruct 1; [apply Admit_extends|apply Finish_extends|apply ResetCircuit_extends|
    apply ResetCampaign_extends].
Qed.
End effects.

(** ** Every reachable journal *)

Section reachable.
Context {C : LedgerCodec} {L : LedgerCodecLaws C}.

(** Either the journal decodes, to records that respect the policy, or it
    never will again. *)
Definition file_inv (file : journal) : Prop :=
  forall data records, file = Some data -> decodePairingJournal data = Ok records ->
    journal_inv records.

Lemma extends_inv file file' : extends file file' -> file_inv file -> file_inv file'.
Proof.
  intros [->|(data & records & record & frame & n & -> & Hd & He & Hn & Ha & ->)] Hinv; [done|].
  intros data' records' [= <-] Hd'. destruct (decide (n < length frame)%nat) as [Hlt|Hge].
  - destruct n as [|n].
    + rewrite take_0, app_nil_r in Hd'. by eapply Hinv.
    + exfalso. eapply (decode_torn data records record frame (S n)); [done..|lia|exact Hd'].
  - rewrite take_ge in Hd' by lia. rewrite (decode_append data records record frame) in Hd' by done.
    injection Hd' as <-. apply journal_inv_snoc; [by eapply Hinv|done].
Qed.

Lemma ledger_reachable_inv file : ledger_reachable file -> file_inv file.
Proof.
  induction 1 as [now rebuild data Hc|owner file file' _ IH Hst].
  - intros data' records [= <-] Hd. unfold createPairingLedgerFile in Hc.
    apply decodePairingJournal_Ok in Hd as (_ & Hf & _). apply encode_framed in Hc.
    rewrite (framed_functional _ _ _ Hf Hc). intros pre r post E.
    destruct pre as [|? []]; simplify_eq/=. split; [by intros q Hq%not_elem_of_nil|].
    by destruct rebuild.
  - eapply extends_inv; [by eapply ledger_step_extends | done].
Qed.
End reachable.
