(* ===== verification/LedgerThms.v ===== *)
(** * What the pairing admission journal guarantees

    The theorems hold for every journal a machine can hold: any sequence of
    operations by any owner instances, any wall clock readings (forwards or
    backwards) and any failures of the file system. *)
From S2P Require Import Prelude GoStd Limits SafetyTrip Governor Ledger LedgerSnapshot LedgerOps LedgerReplay LedgerEffects.

(** ** Sums over windows *)

Fixpoint sum_if (p : pairingJournalRecord -> bool) (m : pairingJournalRecord -> Z)
    (rs : list pairingJournalRecord) : Z :=
  match rs with [] => 0 | r :: rs => (if p r then m r else 0) + sum_if p m rs end.

(** Recorded in the window that ends at [T]. *)
Definition in_window (W T : Z) (r : pairingJournalRecord) : bool :=
  (T - W <? time_of r) && (time_of r <=? T).

Definition admissions_in (W T : Z) (rs : list pairingJournalRecord) : Z :=
  Z.of_nat (length (List.filter (in_window W T) rs)).
Definition packets_in (W T : Z) (rs : list pairingJournalRecord) : Z :=
  sum_if (in_window W T) (fun r => env_Packets (jr_Envelope r)) rs.

Lemma sum_if_app p m l1 l2 : sum_if p m (l1 ++ l2) = sum_if p m l1 + sum_if p m l2.
Proof. induction l1; simpl; lia. Qed.

Lemma sum_if_mono p q m rs :
  (forall r, r ∈ rs -> p r = true -> q r = true) -> (forall r, r ∈ rs -> 0 <= m r) ->
  sum_if p m rs <= sum_if q m rs.
Proof.
  induction rs as [|r rs IH]; intros Hpq Hm; simpl; [done|].
  assert (sum_if p m rs <= sum_if q m rs) by (apply IH; intros; [apply Hpq|apply Hm]; auto; by right).
  pose proof (Hm r ltac:(by left)). pose proof (Hpq r ltac:(by left)) as Hr.
  destruct (p r); [rewrite Hr by done|destruct (q r)]; lia.
Qed.

Lemma count_after_sum cutoff rs :
  count_after cutoff rs = sum_if (fun r => cutoff <? time_of r) (fun _ => 1) rs.
Proof.
  unfold count_after. induction rs as [|r rs IH]; simpl; [done|].
  destruct (cutoff <? time_of r); simpl; lia.
Qed.

Lemma packets_after_sum cutoff rs :
  packets_after cutoff rs =
  sum_if (fun r => cutoff <? time_of r) (fun r => env_Packets (jr_Envelope r)) rs.
Proof. induction rs as [|r rs IH]; simpl; [done|]. by rewrite IH. Qed.

Lemma admissions_in_sum W T rs : admissions_in W T rs = sum_if (in_window W T) (fun _ => 1) rs.
Proof.
  unfold admissions_in. induction rs as [|r rs IH]; simpl; [done|].
  destruct (in_window W T r); simpl; lia.
Qed.

(** A bound that every element meets when it is added bounds every window. *)
Lemma window_bound (m : pairingJournalRecord -> Z) W limit rs T :
  0 <= limit -> (forall r, r ∈ rs -> 0 <= m r) ->
  (forall pre r post, rs = pre ++ r :: post ->
    sum_if (fun q => time_of r - W <? time_of q) m pre + m r <= limit) ->
  sum_if (in_window W T) m rs <= limit.
Proof.
  intros Hl. induction rs as [|r rs IH] using rev_ind; intros Hm Hs; [done|].
  rewrite sum_if_app. simpl. destruct (in_window W T r) eqn:Hw.
  - unfold in_window in Hw.
    assert (Hm' : forall q, q ∈ rs -> 0 <= m q) by (intros q Hq; apply Hm, elem_of_app; by left).
    pose proof (Hs rs r [] eq_refl).
    pose proof (sum_if_mono (in_window W T) (fun q => time_of r - W <? time_of q) m rs) as Hmono.
    assert (sum_if (in_window W T) m rs <= sum_if (fun q => time_of r - W <? time_of q) m rs).
    { apply Hmono; [|done]. intros q _. unfold in_window. lia. }
    lia.
  - assert (sum_if (in_window W T) m rs <= limit); [|lia]. apply IH.
    + intros q Hq. apply Hm, elem_of_app. by left.
    + intros pre q post ->. apply (Hs pre q (post ++ [r])). by rewrite <-app_assoc.
Qed.

Lemma filter_split {A} (f : A -> bool) l pre x post :
  List.filter f l = pre ++ x :: post ->
  exists l1 l2, l = l1 ++ x :: l2 /\ List.filter f l1 = pre /\ f x = true.
Proof.
  revert pre. induction l as [|y l IH]; intros pre; simpl; [by destruct pre|].
  destruct (f y) eqn:Hy.
  - destruct pre as [|z pre]; intros E; injection E as -> E.
    + by exists [], l.
    + destruct (IH pre E) as (l1 & l2 & -> & <- & ?). exists (z :: l1), l2. simpl. by rewrite Hy.
  - intros E. destruct (IH pre E) as (l1 & l2 & -> & <- & ?). exists (y :: l1), l2. simpl.
    by rewrite Hy.
Qed.

Lemma class_burns_split c records pre r post :
  class_burns c records = pre ++ r :: post ->
  exists p q, records = p ++ r :: q /\ class_burns c p = pre /\ is_burn r = true /\
    jr_RecordClass r = c.
Proof.
  unfold class_burns. intros H.
  destruct (filter_split _ _ _ _ _ H) as (l1 & l2 & E1 & <- & Hc).
  destruct (filter_split _ _ _ _ _ E1) as (p & q & -> & <- & Hb).
  exists p, q. split_and!; try done. by apply bool_decide_eq_true in Hc.
Qed.

Lemma class_burns_elem c records r :
  r ∈ class_burns c records <-> r ∈ records /\ is_burn r = true /\ jr_RecordClass r = c.
Proof.
  unfold class_burns, of_class.
  rewrite !list_elem_of_In, !List.filter_In, bool_decide_eq_true. tauto.
Qed.

(** Admissions reserve packets. *)
Lemma burn_packets r :
  validatePairingJournalRecord r = None -> is_burn r = true ->
  0 < env_Packets (jr_Envelope r).
Proof.
  intros Hv Hb. unfold is_burn in Hb. apply bool_decide_eq_true in Hb.
  unfold validatePairingJournalRecord in Hv. rewrite Hb in Hv.
  destruct (negb (_ =? _)); [done|]. destruct (_ =? 0); [done|]. destruct (_ || _); [done|].
  apply err_then_None in Hv as [Hreq _]. unfold validatePairingAdmissionRequest in Hreq.
  destruct (negb (RecordClass_valid _)); [done|]. destruct (negb (bool_decide _)); [done|].
  apply err_then_None in Hreq as [_ Hreq]. apply err_then_None in Hreq as [_ Hreq]. simpl in Hreq.
  destruct (bool_decide (jr_CredentialID r = _)); [done|]. destruct (negb _); [done|].
  destruct (_ || _); [done|]. destruct (bool_decide (jr_RecordClass r = _)).
  - destruct (bool_decide_reflect (jr_Envelope r = hardNATCampaignEnvelope)) as [->|]; done.
  - unfold validatePairingEnvelope in Hreq. destruct (validateNonNegative _); [done|].
    destruct (bool_decide _); [done|].
    destruct (Z.leb_spec (env_Packets (jr_Envelope r)) 0); [done|lia].
Qed.

Section theorems.
Context {C : LedgerCodec} {L : LedgerCodecLaws C}.

Lemma reachable_records data records :
  ledger_reachable (Some data) -> decodePairingJournal data = Ok records ->
  journal_inv records /\ Forall (fun r => validatePairingJournalRecord r = None) records.
Proof.
  intros Hr Hd. split; [by eapply ledger_reachable_inv|].
  apply decodePairingJournal_Ok in Hd as (_ & Hf & _). by eapply framed_valid.
Qed.

Lemma class_packets_nonneg c records r :
  Forall (fun r => validatePairingJournalRecord r = None) records ->
  r ∈ class_burns c records -> 0 <= env_Packets (jr_Envelope r).
Proof.
  rewrite Forall_forall. intros Hv Hr. apply class_burns_elem in Hr as (Hin & Hb & _).
  pose proof (burn_packets r (Hv r Hin) Hb). lia.
Qed.

(** C2: The journal never admits more than the persistent budget: in every
    window of one hour there are at most 4 ordinary admissions, in every window
    of 24 hours at most 12, reserving at most 2048 packets, and at most one
    hard-NAT campaign, reserving at most 16432 packets.  The windows are all
    windows of the recorded times, not only those that end now. *)
Theorem admission_windows data records T :
  ledger_reachable (Some data) -> decodePairingJournal data = Ok records ->
  let ordinary := class_burns PairingRecordClassOrdinary records in
  let campaign := class_burns PairingRecordClassHardNATCampaign records in
  admissions_in pairingAdmissionOneHourWindow T ordinary <= 4 /\
  admissions_in pairingAdmissionDayWindow T ordinary <= 12 /\
  packets_in pairingAdmissionDayWindow T ordinary <= 2048 /\
  admissions_in hardNATCampaignWindow T campaign <= 1 /\
  packets_in hardNATCampaignWindow T campaign <= 16432.
Proof.
  intros Hr Hd ordinary campaign. destruct (reachable_records data records Hr Hd) as [Hinv Hval].
  assert (Hsplit : forall c pre r post, class_burns c records = pre ++ r :: post ->
    exists p, class_burns c p = pre /\ within_windows p r /\ jr_RecordClass r = c).
  { intros c pre r post E. destruct (class_burns_split c records pre r post E)
      as (p & q & -> & Hp & Hb & Hc).
    destruct (Hinv p r q eq_refl) as [_ Hw]. destruct (Hw Hb) as [? _]. by exists p. }
  rewrite !admissions_in_sum. unfold packets_in.
  split_and!; apply window_bound; try done; try (intros; lia);
    try (intros r; by apply class_packets_nonneg);
    intros pre r post E; destruct (Hsplit _ _ _ _ E) as (p & <- & Hw & Hc);
    unfold within_windows, of_class in Hw; rewrite Hc in Hw; simpl in Hw;
    rewrite ?count_after_sum, ?packets_after_sum in Hw; tauto.
Qed.

(** Two ordinary admissions are at least 60 seconds apart (for time stamps
    after year 1). *)
Theorem admission_spacing data records i j q r :
  ledger_reachable (Some data) -> decodePairingJournal data = Ok records ->
  class_burns PairingRecordClassOrdinary records !! i = Some q ->
  class_burns PairingRecordClassOrdinary records !! j = Some r ->
  (i < j)%nat -> 0 < time_of q -> time_of q + 60 * Second <= time_of r.
Proof.
  intros Hr Hd Hi Hj Hij Hpos. destruct (reachable_records data records Hr Hd) as [Hinv _].
  apply list_elem_of_split_length in Hj as (pre & post & E & Hlen).
  destruct (class_burns_split _ _ _ _ _ E) as (p & x & -> & Hp & Hb & Hc).
  destruct (Hinv p r x eq_refl) as [_ Hw]. destruct (Hw Hb) as [Hw' _].
  unfold within_windows, of_class in Hw'. rewrite Hc in Hw'. simpl in Hw'.
  destruct Hw' as (_ & _ & _ & Hsp). apply Hsp; [|done]. rewrite Hp.
  rewrite E in Hi. rewrite lookup_app_l in Hi by lia. by eapply list_elem_of_lookup_2.
Qed.

(** A credential and an attempt identifier are burned at most once. *)
Theorem burns_are_unique data records :
  ledger_reachable (Some data) -> decodePairingJournal data = Ok records ->
  let burns := List.filter is_burn records in
  NoDup (jr_CredentialID <$> burns) /\ NoDup (jr_AttemptID <$> burns).
Proof.
  intros Hr Hd. destruct (reachable_records data records Hr Hd) as [Hinv _].
  assert (Hgen : forall key : pairingJournalRecord -> string,
    (forall pre r post, List.filter is_burn records = pre ++ r :: post ->
      forall q, q ∈ pre -> key q <> key r) -> NoDup (key <$> List.filter is_burn records)).
  { intros key. generalize (List.filter is_burn records). intros rs.
    induction rs as [|r rs IH] using rev_ind; intros Hk; [constructor|].
    rewrite fmap_app. apply NoDup_app. split_and!.
    - apply IH. intros pre x post -> q. eapply (Hk pre x (post ++ [r])). by rewrite <-app_assoc.
    - intros k Hk1 Hk2%list_elem_of_singleton. apply list_elem_of_fmap in Hk1 as (q & -> & Hq).
      by apply (Hk rs r [] eq_refl q Hq).
    - apply NoDup_singleton. }
  split; apply Hgen; intros pre r post E q Hq;
    destruct (filter_split _ _ _ _ _ E) as (p & x & -> & Hp & Hb);
    destruct (Hinv p r x eq_refl) as [_ Hw]; destruct (Hw Hb) as [_ Hf];
    rewrite <-Hp in Hq; by apply Hf.
Qed.

(** ** Admission *)

(** What a successful [Admit] did. *)
Lemma Admit_Ok ledgerInstance env request file file' receipt :
  Admit ledgerInstance env request file = (file', Ok receipt) ->
  exists data s records frame now,
    let record := burn_record ledgerInstance s now request in
    file = Some data /\ snapshot_of ledgerInstance data s records /\
    effectiveNow s (UTC (le_now env)) = Ok now /\
    admissionError s now (par_Envelope request) (par_RecordClass request) = None /\
    encodePairingJournalFrame record = Ok frame /\ appendable records record /\
    Z.of_nat (length records) + 2 <= maxPairingLedgerRecords /\
    blen data + blen frame + 4 + maxPairingLedgerFrameBytes <= maxPairingLedgerBytes /\
    file' = Some (data ++ frame) /\
    holdOwner (le_owner env) (le_ownerInstance env) ledgerInstance = None /\
    (exists v, readPairingLedgerSnapshot (le_verify env) file' now ledgerInstance = (v, None)) /\
    receipt = mkReceipt (Z.of_nat (length records) + 1) (par_RecordClass request)
      (par_CredentialID request) (par_AttemptID request) (par_ContextDigest request)
      ledgerInstance now.
Proof.
  unfold Admit. intros H. destruct (validatePairingAdmissionRequest request); [done|].
  destruct (open_snapshot ledgerInstance env file) as [s|] eqn:Ho; [|done].
  destruct (open_snapshot_Ok ledgerInstance env file s Ho) as (data & records & -> & S).
  destruct (admission_checks ledgerInstance env request s) as [[[now record] frame]|] eqn:Hc;
    [|done].
  destruct (admission_checks_Ok _ _ _ _ _ _ _ _ _ S Hc)
    as (-> & Hn & _ & Ha & He & H1 & H2 & Hap & _).
  destruct (appendAndSync (le_append env) (Some data) frame) as [f1 err] eqn:Hrun.
  destruct err; [done|].
  destruct (appendAndSync_effect _ _ _ _ _ Hrun) as [_ Hf]. rewrite (Hf eq_refl) in *. clear Hf.
  destruct (readPairingLedgerSnapshot _ _ _ _) as [v ve] eqn:Hv. destruct ve; [done|].
  assert (Hh : holdOwner (le_owner env) (le_ownerInstance env) ledgerInstance = None).
  { unfold open_snapshot in Ho. by destruct (holdOwner _ _ _). }
  destruct (match sn_admissions v !! _ with Some _ => _ | None => _ end); [|done].
  injection H as <- <-. exists data, s, records, frame, now. split_and!; try done; [by exists v|].
  simpl. by rewrite (snapshot_next ledgerInstance data s records S).
Qed.

(** [Admit] succeeds only by appending exactly one frame that decodes to
    the burn record of this request, under the next sequence number, recorded
    at the receipt's commit time, at or after every earlier record; neither the
    credential nor the attempt had been burned before. *)
Theorem Admit_appends ledgerInstance env request file file' receipt :
  Admit ledgerInstance env request file = (file', Ok receipt) ->
  exists data data' records record, file = Some data /\ file' = Some data' /\
    decodePairingJournal data = Ok records /\
    decodePairingJournal data' = Ok (records ++ [record]) /\
    record = mkRecord pairingLedgerSchemaVersion (rc_sequence receipt) pairingRecordBurnAndAdmit
      (rc_committedAt receipt) (par_RecordClass request) (par_CredentialID request)
      (par_AttemptID request) (par_ContextDigest request) ledgerInstance ScopeMachine
      (UTC (par_ExpiresAt request)) (par_Envelope request) no_terminal "" /\
    rc_sequence receipt = Z.of_nat (length records) + 1 /\
    (forall q, q ∈ records -> time_of q <= time_of record) /\ fresh_burn records record.
Proof.
  intros H. destruct (Admit_Ok _ _ _ _ _ _ H) as (data & s & records & frame & now & -> & S &
    _ & _ & He & Hap & Hn & _ & -> & _ & _ & ->).
  exists data, (data ++ frame), records, (burn_record ledgerInstance s now request).
  destruct Hap as [Ht Hw]. split_and!; try done.
  - apply S.
  - apply decode_append; [apply S|done|lia].
  - unfold burn_record. by rewrite (snapshot_next _ _ _ _ S).
  - by apply Hw.
Qed.

(** [r] is in the journal for as long as the journal decodes. *)
Definition holds_record (r : pairingJournalRecord) (file : journal) : Prop :=
  forall data records, file = Some data -> decodePairingJournal data = Ok records -> r ∈ records.

Lemma extends_holds r file file' : extends file file' -> holds_record r file -> holds_record r file'.
Proof.
  intros [->|(data & records & record & frame & n & -> & Hd & He & Hn & _ & ->)] Hh; [done|].
  intros data' records' [= <-] Hd'. destruct (decide (n < length frame)%nat) as [Hlt|Hge].
  - destruct n as [|n].
    + rewrite take_0, app_nil_r in Hd'. by eapply Hh.
    + exfalso. eapply (decode_torn data records record frame (S n)); [done..|lia|exact Hd'].
  - rewrite take_ge in Hd' by lia. rewrite (decode_append data records record frame) in Hd' by done.
    injection Hd' as <-. apply elem_of_app. left. by eapply Hh.
Qed.

(** Any operations of any owner instances. *)
Definition any_step (file file' : journal) : Prop :=
  exists owner, ledger_step owner file file'.

Lemma steps_hold r file file' :
  rtc any_step file file' -> holds_record r file -> holds_record r file'.
Proof.
  induction 1 as [|f1 f2 f3 [owner Hs] _ IH]; [done|]. intros Hh.
  apply IH. eapply extends_holds; [by eapply ledger_step_extends|done].
Qed.

(** A credential that has been burned is never admitted again, whatever
    happens to the journal afterwards (other operations, other owners, torn
    writes, clock changes). *)
Theorem credential_burned_forever ledgerInstance env request file file1 receipt file2
    ledgerInstance' env' request' :
  Admit ledgerInstance env request file = (file1, Ok receipt) ->
  rtc any_step file1 file2 -> par_CredentialID request' = par_CredentialID request ->
  forall receipt', (Admit ledgerInstance' env' request' file2).2 <> Ok receipt'.
Proof.
  intros H Hst Hcred receipt' H2.
  destruct (Admit_Ok _ _ _ _ _ _ H) as (data & s & records & frame & now & -> & S &
    _ & _ & He & _ & Hn & _ & -> & _).
  set (r := burn_record ledgerInstance s now request) in *.
  assert (Hh : holds_record r (Some (data ++ frame))).
  { intros d rs [= <-] Hd. rewrite (decode_append data records r frame) in Hd; [|apply S|done|lia].
    injection Hd as <-. apply elem_of_app. right. by apply list_elem_of_singleton. }
  pose proof (steps_hold r _ _ Hst Hh) as Hh2.
  destruct (Admit ledgerInstance' env' request' file2) as [file3 res] eqn:E. simpl in H2. subst res.
  destruct (Admit_Ok _ _ _ _ _ _ E) as (data2 & s2 & records2 & frame2 & now2 & -> & S2 &
    _ & _ & _ & [_ Hw] & _).
  destruct (Hw eq_refl) as [_ Hf].
  assert (Hin : r ∈ List.filter is_burn records2).
  { apply list_elem_of_In, List.filter_In. split; [|done]. apply list_elem_of_In.
    eapply Hh2; [done|]. apply S2. }
  destruct (Hf r Hin) as [Hne _]. by apply Hne.
Qed.

(** ** Torn appends *)

Lemma undecodable_open ledgerInstance env data :
  (forall r, decodePairingJournal data <> Ok r) ->
  exists e, open_snapshot ledgerInstance env (Some data) = Err e.
Proof.
  intros Hd. destruct (open_snapshot ledgerInstance env (Some data)) as [s|e] eqn:Ho; [|by exists e].
  destruct (open_snapshot_Ok ledgerInstance env _ s Ho) as (d & rs & [= <-] & S).
  by destruct (Hd rs (so_decode _ _ _ _ S)).
Qed.

(** C30: A torn append fails closed.  If a write leaves a proper part of the
    frame behind, no later operation of any owner admits or records anything:
    every [Preflight], [Admit] and [Finish] returns an error and leaves the
    file as it is. *)
Theorem torn_append_fails_closed data records record frame n io :
  decodePairingJournal data = Ok records -> encodePairingJournalFrame record = Ok frame ->
  aio_trusted io = true -> aio_open io = true -> aio_written io = Some n ->
  (0 < n < length frame)%nat ->
  let file := (appendAndSync io (Some data) frame).1 in
  (appendAndSync io (Some data) frame).2 <> None /\
  forall ledgerInstance env request receipt reason,
    Preflight ledgerInstance env request file <> None /\
    (exists e, Admit ledgerInstance env request file = (file, Err e)) /\
    (exists e, Finish ledgerInstance env receipt reason file = (file, Some e)).
Proof.
  intros Hd He Ht Ho Hw Hn file.
  assert (Hfile : file = Some (data ++ take n frame)).
  { unfold file, appendAndSync, appendPairingJournalFrame. by rewrite Ht, Ho, Hw. }
  split; [unfold appendAndSync, appendPairingJournalFrame; by rewrite Ht, Ho, Hw|].
  clearbody file. subst file. intros ledgerInstance env request receipt reason.
  destruct (undecodable_open ledgerInstance env (data ++ take n frame)) as [e Hopen].
  { by eapply decode_torn. }
  split_and!.
  - unfold Preflight. destruct (validatePairingAdmissionRequest request); [done|].
    by rewrite Hopen.
  - unfold Admit. destruct (validatePairingAdmissionRequest request); [by eexists|].
    rewrite Hopen. by eexists.
  - unfold Finish. destruct (negb _); [by eexists|]. destruct (holdOwner _ _ _); [by eexists|].
    destruct (negb _); [by eexists|]. rewrite Hopen. by eexists.
Qed.

(** ** The reserved terminal slot *)

Lemma build_snoc_burn records r bytes owner s :
  buildPairingLedgerSnapshot (records ++ [r]) bytes owner = Ok s -> is_burn r = true ->
  exists order, sn_order s = order ++ [mkEntry r None] /\
    sn_admissions s !! jr_CredentialID r = Some (length order).
Proof.
  intros H Hb. apply bool_decide_eq_true in Hb. unfold buildPairingLedgerSnapshot in H.
  destruct (Nat.eqb _ _); [done|]. rewrite replay_app in H.
  destruct (replay records (snapshot_start bytes owner)) as [s1|]; [|done]. cbn [replay] in H.
  destruct (replay_step s1 r) as [s2|] eqn:Hst; [|done]. injection H as <-. simpl.
  unfold replay_step in Hst. destruct (negb _); [done|].
  destruct (match last (sn_records s1) with Some _ => _ | None => _ end); [done|].
  set (s1' := if After _ _ then _ else s1) in *.
  assert (E : sn_order s1' = sn_order s1) by (unfold s1'; by destruct (After _ _)).
  unfold replay_record in Hst. rewrite Hb in Hst. destruct (Nat.eqb _ _); [done|].
  destruct (sn_admissions s1' !! _); [done|]. destruct (sn_attempts s1' !! _); [done|].
  injection Hst as <-. exists (sn_order s1). simpl. rewrite E. split; [done|].
  by rewrite lookup_insert_eq.
Qed.

(** A journal that was read once can be read again at any time. *)
Lemma reopen ledgerInstance io now v env data :
  readPairingLedgerSnapshot io (Some data) now ledgerInstance = (v, None) ->
  le_read env = read_ok ->
  holdOwner (le_owner env) (le_ownerInstance env) ledgerInstance = None ->
  exists records s0, decodePairingJournal data = Ok records /\
    buildPairingLedgerSnapshot records (blen data) ledgerInstance = Ok s0 /\
    open_snapshot ledgerInstance env (Some data) =
      Ok (set_sn_status (statusAt s0 (UTC (le_now env))) s0).
Proof.
  unfold readPairingLedgerSnapshot, open_snapshot. intros Hr Hio Hh. rewrite Hh.
  destruct (rio_trusted io); simpl in Hr; [|done]. unfold readValidatedPairingLedgerSnapshot in *.
  destruct (rio_open io); simpl in Hr; [|done]. destruct (rio_read io); simpl in Hr; [|done].
  destruct (Z.ltb_spec maxPairingLedgerBytes (blen (take (Z.to_nat (maxPairingLedgerBytes + 1)) data)))
    as [|Hsz]; [done|].
  assert (Hlen : blen data <= maxPairingLedgerBytes).
  { unfold blen in *. rewrite length_take in Hsz. unfold maxPairingLedgerBytes in *. lia. }
  assert (Ht : take (Z.to_nat (maxPairingLedgerBytes + 1)) data = data).
  { apply take_ge. unfold blen in Hlen. lia. }
  rewrite Ht in *. destruct (decodePairingJournal data) as [records|] eqn:Hd; [|done].
  destruct (buildPairingLedgerSnapshot records (blen data) ledgerInstance) as [s0|] eqn:Hb; [|done].
  exists records, s0. split_and!; [done..|].
  unfold readPairingLedgerSnapshot, readValidatedPairingLedgerSnapshot. rewrite Hio. simpl rio_trusted. simpl rio_open. simpl rio_read. cbn [negb].
  cbv zeta. rewrite Ht, Hd, Hb.
  destruct (Z.ltb_spec maxPairingLedgerBytes (blen data)); [lia|].
  assert (Hu : not_usable (ps_State (statusAt s0 (UTC (le_now env)))) = false).
  { apply statusAt_usable. apply build_spec in Hb as (_ & _ & _ & _ & _ & _ & -> & _). done. }
  cbn [sn_status set_sn_status].
  destruct (bool_decide (ps_State (statusAt s0 (UTC (le_now env))) = PairingLedgerClockRollback));
    [|done]. cbn [sn_status set_sn_status]. by rewrite Hu.
Qed.

(** The high-watermark right after an append is the time of the new record. *)
Lemma high_after_append ledgerInstance data s records r :
  snapshot_of ledgerInstance data s (records ++ [r]) -> appendable records r ->
  utc_loc (jr_RecordedAt r) = true -> 0 < time_of r -> sn_highWatermark s = jr_RecordedAt r.
Proof.
  intros S Ha Hu Hpos.
  assert (Hle : time_of r <= instant (sn_highWatermark s)).
  { eapply snapshot_time; [done|]. apply elem_of_app. right. by apply list_elem_of_singleton. }
  assert (Heq : instant (sn_highWatermark s) = time_of r).
  { destruct (rp_high_from s (so_replayed _ _ _ _ S)) as [E|(q & Hq & E)].
    - rewrite E in *. simpl in *. lia.
    - rewrite (so_records _ _ _ _ S) in Hq. apply elem_of_app in Hq as [Hq|Hq%list_elem_of_singleton].
      + apply (ap_time _ _ Ha) in Hq. rewrite E in *. unfold time_of in *. lia.
      + by rewrite E, Hq. }
  pose proof (so_utc _ _ _ _ S) as Hu'. unfold time_of in Heq.
  destruct (sn_highWatermark s), (jr_RecordedAt r). simpl in *. congruence.
Qed.

Lemma build_snapshot_of ledgerInstance data records s0 status :
  decodePairingJournal data = Ok records -> blen data <= maxPairingLedgerBytes ->
  buildPairingLedgerSnapshot records (blen data) ledgerInstance = Ok s0 ->
  snapshot_of ledgerInstance data (set_sn_status status s0) records.
Proof.
  intros Hd Hsz Hb. destruct (build_spec records (blen data) ledgerInstance s0 Hb)
    as (R & E1 & _ & _ & E3 & E4 & _).
  pose proof Hd as Hd'. apply decodePairingJournal_Ok in Hd' as (_ & Hf & _).
  split; simpl; try done.
  - destruct R. by split.
  - destruct (rp_high_from s0 R) as [->|(r & Hr & ->)]; [done|].
    apply framed_valid in Hf. rewrite E1 in Hr. rewrite Forall_forall in Hf.
    by apply Hf, valid_utc in Hr as [? _].
  - rewrite Hb. f_equal. unfold buildPairingLedgerSnapshot in Hb.
    destruct (Nat.eqb _ _); [done|]. destruct (replay records _) as [s1|]; [|done].
    injection Hb as <-. done.
Qed.

Lemma encode_length record frame :
  encodePairingJournalFrame record = Ok frame -> blen frame <= 4 + maxPairingLedgerFrameBytes.
Proof.
  intros H. destruct (encode_frame record frame H) as (_ & payload & -> & Hp & _).
  rewrite blen_app. unfold blen at 1. rewrite be_encode_length. lia.
Qed.

(** A successful admission reserves room for its terminal record: if the
    same owner finishes it next, with working storage and a clock that is not
    more than two minutes behind, [Finish] records exactly the reason, at the
    later of the clock and the commit time. *)
Theorem Finish_after_Admit ledgerInstance env request file file1 receipt env' reason :
  Admit ledgerInstance env request file = (file1, Ok receipt) ->
  0 < instant (rc_committedAt receipt) -> TerminalReason_valid reason = true ->
  holdOwner (le_owner env') (le_ownerInstance env') ledgerInstance = None ->
  le_read env' = read_ok -> le_append env' = append_ok ->
  instant (rc_committedAt receipt) <= instant (le_now env') + pairingLedgerClockRollbackSkew ->
  let when := if Before (UTC (le_now env')) (rc_committedAt receipt)
              then rc_committedAt receipt else UTC (le_now env') in
  let record := mkRecord pairingLedgerSchemaVersion (rc_sequence receipt + 1) pairingRecordFinish
    when (rc_recordClass receipt) (rc_credentialID receipt) (rc_attemptID receipt) "" "" no_scope
    time_zero envelope_zero reason "" in
  is_ok (encodePairingJournalFrame record) = true ->
  exists data1 data2 records,
    file1 = Some data1 /\ decodePairingJournal data1 = Ok records /\
    Finish ledgerInstance env' receipt reason file1 = (Some data2, None) /\
    decodePairingJournal data2 = Ok (records ++ [record]).
Proof.
  intros HA Hpos Hreason Hh Hread Happ Hclock when record Henc.
  destruct (Admit_Ok _ _ _ _ _ _ HA) as (data & s & records & frame & now & -> & S &
    Hnow & _ & He & Hap & Hn & Hbytes & -> & _ & [v Hv] & ->). simpl in *.
  set (burn := burn_record ledgerInstance s now request) in *.
  destruct (reopen ledgerInstance _ now v env' (data ++ frame) Hv Hread Hh)
    as (records1 & s0 & Hd1 & Hb1 & Hopen).
  rewrite (decode_append data records burn frame) in Hd1; [|apply S|done|lia].
  injection Hd1 as <-.
  assert (Hsz : blen (data ++ frame) <= maxPairingLedgerBytes).
  { rewrite blen_app. unfold maxPairingLedgerFrameBytes in *. lia. }
  assert (Hd1 : decodePairingJournal (data ++ frame) = Ok (records ++ [burn])).
  { apply decode_append; [apply S|done|lia]. }
  set (s1 := set_sn_status (statusAt s0 (UTC (le_now env'))) s0) in *.
  pose proof (build_snapshot_of ledgerInstance _ _ s0 (statusAt s0 (UTC (le_now env'))) Hd1 Hsz Hb1)
    as S1. fold s1 in S1.
  destruct (effectiveNow_Ok _ _ _ Hnow) as (_ & _ & _ & Hu).
  destruct (Hu (so_utc _ _ _ _ S)) as [Hutc _].
  pose proof (high_after_append _ _ _ _ _ S1 Hap Hutc Hpos) as Hhigh. simpl in Hhigh.
  assert (Heff : effectiveNow s1 (UTC (le_now env')) = Ok when).
  { unfold effectiveNow. simpl. rewrite statusAt_usable.
    2: { apply build_spec in Hb1 as (_ & _ & _ & _ & _ & _ & -> & _). done. }
    rewrite Hhigh.
    unfold Before at 1. simpl.
    destruct (Z.ltb_spec (instant (le_now env') + pairingLedgerClockRollbackSkew) (instant now));
      [lia|]. unfold when, Before. simpl. by destruct (instant (le_now env') <? instant now). }
  destruct (build_snoc_burn records burn _ _ s0 Hb1 eq_refl) as (order & Hord & Hadm).
  assert (Hseq1 : u64_add (sn_sequence s1) 1 = Z.of_nat (length records) + 1 + 1).
  { rewrite (snapshot_next _ _ _ _ S1), length_app. simpl. lia. }
  assert (Hentry : receipt_entry s1 (mkReceipt (Z.of_nat (length records) + 1)
    (par_RecordClass request) (par_CredentialID request) (par_AttemptID request)
    (par_ContextDigest request) ledgerInstance now) = Some (mkEntry burn None)).
  { unfold receipt_entry. simpl. unfold burn in Hadm. simpl in Hadm. rewrite Hadm, Hord.
    rewrite lookup_app_r, Nat.sub_diag by lia. simpl. rewrite !bool_decide_true by done.
    rewrite (snapshot_next _ _ _ _ S), Z.eqb_refl. done. }
  destruct (encodePairingJournalFrame record) as [ff|] eqn:Hff; [|done].
  exists (data ++ frame), ((data ++ frame) ++ ff), (records ++ [burn]). split_and!; [done..| |].
  - unfold Finish. rewrite Hreason, Hh. simpl. rewrite bool_decide_true by done. simpl.
    rewrite Hopen. fold s1. rewrite Heff, Hentry. simpl.
    unfold finish_record. simpl. simpl in Hseq1. rewrite Hseq1. fold record. rewrite Hff.
    pose proof (encode_length record ff Hff) as Hl. unfold ensureRecordCapacity.
    rewrite (so_records _ _ _ _ S1), (so_bytes _ _ _ _ S1).
    assert (Hcap : (maxPairingLedgerRecords <? Z.of_nat (length (records ++ [burn])) + 1)
      || (maxPairingLedgerBytes <? blen (data ++ frame) + blen ff) = false).
    { rewrite length_app, blen_app. simpl length.
      apply orb_false_iff; split; apply Z.ltb_ge; lia. }
    rewrite Hcap. unfold appendAndSync. by rewrite Happ.
  - apply decode_append; [done|done|]. rewrite length_app. simpl. lia.
Qed.
End theorems.

(** * The failure circuit of the pairing admission journal

    Three ordinary terminal failures with no success and no reset in between
    open the circuit, which no passage of time closes; only the explicit
    compare-and-set reset does, not before its minimum horizon. *)

Definition is_finish (r : pairingJournalRecord) : bool :=
  bool_decide (jr_Type r = pairingRecordFinish).

(** Every terminal record is attached to an admission of its class. *)
Definition finishes_attached (s : pairingLedgerSnapshot) : Prop :=
  (forall r, r ∈ sn_records s -> is_finish r = true ->
    exists e, e ∈ sn_order s /\ en_finish e = Some r /\
      jr_RecordClass (en_record e) = jr_RecordClass r) /\
  (forall e r, e ∈ sn_order s -> en_finish e = Some r -> r ∈ sn_records s).

Lemma replay_step_finishes s r s' :
  replay_step s r = Ok s' -> finishes_attached s -> finishes_attached s'.
Proof.
  intros H [F1 F2]. pose proof (replay_step_frame s r s' H) as [Hrec _ _ _].
  unfold replay_step in H. destruct (negb _); [done|].
  destruct (match last (sn_records s) with Some _ => _ | None => _ end); [done|].
  set (s1 := if After _ _ then _ else s) in *.
  assert (E : sn_order s1 = sn_order s) by (unfold s1; by destruct (After _ _)).
  destruct (replay_record _ r s1) as [s2|] eqn:Hr; [|done]. injection H as <-. simpl in *.
  unfold finishes_attached. simpl. rewrite Hrec.
  assert (Hsame : sn_order s2 = sn_order s -> is_finish r = false -> finishes_attached
    (set_sn_records (sn_records s2 ++ [r]) s2)).
  { intros Ho Hf. unfold finishes_attached. simpl. rewrite Hrec, Ho. split.
    - intros q [Hq|Hq%list_elem_of_singleton]%elem_of_app Hqf; [by apply F1|]. congruence.
    - intros e q He Hq. apply elem_of_app. left. by eapply F2. }
  unfold finishes_attached in Hsame. simpl in Hsame. rewrite Hrec in Hsame.
  unfold replay_record in Hr. unfold is_finish in Hsame |- *. destruct (jr_Type r) eqn:Hty.
  - destruct (negb _); [done|]. simplify_eq. by apply Hsame.
  - destruct (negb _); [done|]. simplify_eq. by apply Hsame.
  - destruct (Nat.eqb _ _); [done|]. destruct (sn_admissions s1 !! _); [done|].
    destruct (sn_attempts s1 !! _); [done|]. simplify_eq. simpl. rewrite E. split.
    + intros q [Hq|Hq%list_elem_of_singleton]%elem_of_app Hqf.
      * destruct (F1 q Hq Hqf) as (e & He & ?). exists e. split; [|done]. apply elem_of_app. by left.
      * subst q. rewrite Hty in Hqf. done.
    + intros e q [He|He%list_elem_of_singleton]%elem_of_app Hq; [|by subst e].
      apply elem_of_app. left. by eapply F2.
  - destruct (sn_admissions s1 !! _) as [i|]; [|done].
    destruct (sn_order s1 !! i) as [e0|] eqn:He0; [|done].
    destruct (_ || _) eqn:Hm; [done|]. destruct (en_finish e0) eqn:Hf0; [done|].
    apply orb_false_iff in Hm as [_ Hcl%negb_false_iff]. apply bool_decide_eq_true in Hcl.
    simplify_eq. simpl. rewrite E in *.
    assert (Hlt : (i < length (sn_order s))%nat) by by eapply lookup_lt_Some.
    split.
    + intros q [Hq|Hq%list_elem_of_singleton]%elem_of_app Hqf.
      * destruct (F1 q Hq Hqf) as (e & He & Hef & Hec). exists e. split; [|done].
        apply list_elem_of_lookup in He as [j Hj]. apply list_elem_of_lookup. exists j.
        rewrite list_lookup_insert_ne; [done|]. intros <-. congruence.
      * subst q. exists (mkEntry (en_record e0) (Some r)). split; [|done].
        apply list_elem_of_lookup. exists i. by apply list_lookup_insert_eq.
    + intros e q He Hq. apply elem_of_app. apply list_elem_of_lookup in He as [j Hj].
      destruct (decide (i = j)) as [<-|Hne].
      * rewrite list_lookup_insert_eq in Hj by done. simplify_eq/=. right.
        by apply list_elem_of_singleton.
      * rewrite list_lookup_insert_ne in Hj by done. left. eapply F2; [|done].
        by eapply list_elem_of_lookup_2.
  - destruct (Nat.eqb _ _); [done|]. repeat case_match; simplify_eq; by apply Hsame.
  - done.
Qed.

Lemma replay_finishes records s s' :
  replay records s = Ok s' -> finishes_attached s -> finishes_attached s'.
Proof.
  revert s. induction records as [|r records IH]; intros s; simpl; [by intros [= <-]|].
  destruct (replay_step s r) as [s1|] eqn:Hs; [|done]. intros Hr Hf.
  eapply IH; [done|]. by eapply replay_step_finishes.
Qed.

Lemma build_finishes records bytes owner s :
  buildPairingLedgerSnapshot records bytes owner = Ok s -> finishes_attached s.
Proof.
  unfold buildPairingLedgerSnapshot. destruct (Nat.eqb _ _); [done|].
  destruct (replay records _) as [s1|] eqn:Hr; [|done]. intros [= <-].
  apply replay_finishes in Hr; [done|].
  split; simpl; [by intros r Hr'%not_elem_of_nil|by intros e r He%not_elem_of_nil].
Qed.

Lemma finishBySequence_snoc c order e :
  finishBySequence c (order ++ [e]) =
  match en_finish e with
  | Some finish =>
      if bool_decide (jr_RecordClass (en_record e) = c)
      then <[jr_Sequence finish := finish]> (finishBySequence c order)
      else finishBySequence c order
  | None => finishBySequence c order
  end.
Proof. unfold finishBySequence. by rewrite fold_left_app. Qed.

(** The map of terminal records finds each of them. *)
Lemma finishBySequence_lookup c order r :
  (exists e, e ∈ order /\ en_finish e = Some r /\ jr_RecordClass (en_record e) = c) ->
  (forall e q, e ∈ order -> en_finish e = Some q -> jr_Sequence q = jr_Sequence r -> q = r) ->
  finishBySequence c order !! jr_Sequence r = Some r.
Proof.
  induction order as [|e order IH] using rev_ind.
  - by intros (e & He%not_elem_of_nil & _).
  - intros (e0 & He0 & Hf0 & Hc0) Huniq. rewrite finishBySequence_snoc.
    assert (Hu : forall q, en_finish e = Some q -> jr_Sequence q = jr_Sequence r -> q = r).
    { intros q. apply Huniq, elem_of_app. right. by apply list_elem_of_singleton. }
    assert (Hrest : e0 ∈ order -> finishBySequence c order !! jr_Sequence r = Some r).
    { intros Hin. apply IH; [by exists e0|]. intros e' q He'. apply Huniq, elem_of_app. by left. }
    apply elem_of_app in He0 as [Hin|Hin%list_elem_of_singleton].
    + specialize (Hrest Hin). destruct (en_finish e) as [f|]; [|done].
      destruct (bool_decide _); [|done].
      destruct (decide (jr_Sequence f = jr_Sequence r)) as [Eq|Ne].
      * rewrite (Hu f eq_refl Eq). apply lookup_insert_eq.
      * by rewrite lookup_insert_ne.
    + subst e0. rewrite Hf0, bool_decide_true by done. apply lookup_insert_eq.
Qed.

(** ** Failures *)

(** A terminal failure of class [c]. *)
Definition is_failure (c : PairingLedgerRecordClass) (r : pairingJournalRecord) : bool :=
  is_finish r && of_class c r && negb (bool_decide (jr_Reason r = PairingTerminalSuccess)).

(** What ends a streak: a success or a reset of class [c]. *)
Definition ends_streak (c : PairingLedgerRecordClass) (r : pairingJournalRecord) : bool :=
  of_class c r &&
  ((is_finish r && bool_decide (jr_Reason r = PairingTerminalSuccess))
   || bool_decide (jr_Type r = pairingRecordCircuitReset)).

Definition failures (c : PairingLedgerRecordClass) (rs : list pairingJournalRecord) : Z :=
  Z.of_nat (length (List.filter (is_failure c) rs)).

Lemma failure_fold s c finishes rs acc :
  (forall r, r ∈ rs -> is_finish r = true -> jr_RecordClass r = c ->
     finishes !! jr_Sequence r = Some r) ->
  (forall r, r ∈ rs -> IsZero (jr_RecordedAt r) = false) ->
  (forall r, r ∈ rs -> ends_streak c r = false) ->
  let acc' := fold_left (failure_step s c finishes) rs acc in
  fa_streak acc' = fa_streak acc + failures c rs /\
  (IsZero (fa_openedAt acc) = false -> IsZero (fa_openedAt acc') = false) /\
  (0 < failures c rs -> failureLimit c <= fa_streak acc' -> IsZero (fa_openedAt acc') = false).
Proof.
  revert acc. induction rs as [|r rs IH]; intros acc Hfin Hz Hend; simpl.
  - unfold failures. simpl. split_and!; [lia|done|lia].
  - assert (Hstep : let a1 := failure_step s c finishes acc r in
      fa_streak a1 = fa_streak acc + (if is_failure c r then 1 else 0) /\
      (IsZero (fa_openedAt acc) = false -> IsZero (fa_openedAt a1) = false) /\
      (is_failure c r = true -> failureLimit c <= fa_streak a1 ->
         IsZero (fa_openedAt a1) = false)).
    { pose proof (Hfin r ltac:(by left)) as Hf. pose proof (Hz r ltac:(by left)) as Hzr.
      pose proof (Hend r ltac:(by left)) as He.
      unfold failure_step, is_failure, ends_streak, of_class, is_finish in *.
      destruct (bool_decide_reflect (jr_RecordClass r = c)) as [Hc|Hc]; simpl in *.
      2: { rewrite andb_false_r. simpl. split_and!; [lia|done|done]. }
      destruct (jr_Type r); simpl in *; try (split_and!; [lia|done|done]).
      - destruct (sn_admissions s !! _); [|split_and!; [lia|done|done]].
        destruct (sn_order s !! _) as [e|]; [|split_and!; [lia|done|done]].
        destruct (en_finish e); split_and!; simpl; try lia; done.
      - rewrite (Hf eq_refl Hc).
        destruct (bool_decide (jr_Reason r = PairingTerminalSuccess)); [done|]. simpl.
        split_and!; [lia| |].
        + intros Ho. rewrite Ho. by rewrite andb_false_r.
        + intros _ Hlim. destruct (Z.leb_spec (failureLimit c) (fa_streak acc + 1)); [|lia].
          simpl. by destruct (IsZero (fa_openedAt acc)) eqn:E. }
    destruct Hstep as (S1 & S2 & S3).
    destruct (IH (failure_step s c finishes acc r)) as (I1 & I2 & I3).
    { intros q Hq. apply Hfin. by right. }
    { intros q Hq. apply Hz. by right. }
    { intros q Hq. apply Hend. by right. }
    unfold failures in *. simpl. destruct (is_failure c r) eqn:Hif; simpl.
    + split_and!; [lia|auto|]. intros _ Hlim.
      destruct (decide (Z.of_nat (length (List.filter (is_failure c) rs)) = 0)) as [E|E].
      * apply I2, S3; [done|]. lia.
      * apply I3; lia.
    + split_and!; [lia|auto|]. intros ? ?. apply I3; lia.
Qed.

Lemma pending_fold owner c es acc :
  IsZero acc.2 = false -> IsZero (fold_left (pending_step owner c) es acc).2 = false.
Proof.
  revert acc. induction es as [|e es IH]; intros [streak openedAt] Hz; [done|].
  apply IH. unfold pending_step. simpl in *.
  destruct (_ && _); [done|]. simpl. by rewrite Hz, andb_false_r.
Qed.

Lemma failureLimit_pos c : 1 <= failureLimit c.
Proof. unfold failureLimit. by destruct (bool_decide _). Qed.

(** Enough failures with no success and no reset after [l1]. *)
Lemma failures_open l1 l2 bytes owner s c :
  buildPairingLedgerSnapshot (l1 ++ l2) bytes owner = Ok s ->
  Forall (fun r => validatePairingJournalRecord r = None) (l1 ++ l2) ->
  (forall r, r ∈ l2 -> ends_streak c r = false) -> failureLimit c <= failures c l2 ->
  IsZero (failureState s c).2 = false.
Proof.
  intros Hb Hv Hend Hn. destruct (build_spec _ _ _ _ Hb) as (R & Hrec & _).
  destruct (build_finishes _ _ _ _ Hb) as [F1 F2]. rewrite Hrec in F1, F2.
  unfold failureState. rewrite Hrec, fold_left_app.
  set (finishes := finishBySequence c (sn_order s)).
  set (acc := fold_left _ l1 _).
  assert (Hacc : 0 <= fa_streak acc).
  { unfold acc. clear. generalize (mkFailure [] 0 time_zero) (Z.le_refl 0 : 0 <= fa_streak (mkFailure [] 0 time_zero)).
    induction l1 as [|r l IH]; intros a Ha; [done|]. simpl. apply IH.
    unfold failure_step. repeat case_match; simpl; try done; lia. }
  destruct (failure_fold s c finishes l2 acc) as (I1 & _ & I3).
  - intros r Hr Hfin Hc.
    assert (Hin : r ∈ l1 ++ l2) by (apply elem_of_app; by right).
    apply finishBySequence_lookup.
    + destruct (F1 r Hin Hfin) as (e & He & Hef & Hec). exists e. split_and!; [done..|congruence].
    + intros e q He Hq Hs. apply F2 in Hq; [|done].
      apply list_elem_of_lookup in Hq as [i Hi], Hin as [j Hj].
      rewrite <-Hrec in Hi, Hj.
      pose proof (rp_sequence s R i q Hi). pose proof (rp_sequence s R j r Hj).
      assert (i = j) as -> by lia. congruence.
  - intros r Hr. rewrite Forall_forall in Hv.
    assert (Hin : r ∈ l1 ++ l2) by (apply elem_of_app; by right).
    by apply Hv, valid_utc in Hin as [_ ?].
  - done.
  - apply pending_fold. simpl. apply I3; pose proof (failureLimit_pos c); lia.
Qed.

(** The circuit blocks both classes. *)
Lemma open_circuit_blocks s now envelope c :
  effectiveNow s now = Ok now -> IsZero (failureState s PairingRecordClassOrdinary).2 = false ->
  exists status, admissionError s now envelope c =
    Some (EPairingLedger status ErrPairingAdmissionCircuitOpen).
Proof.
  intros He Hz. destruct (statusAt_fields s now He) as (_ & _ & _ & _ & _ & Hst & _).
  apply Hst in Hz. clear Hst. unfold admissionError.
  destruct (bool_decide (c = PairingRecordClassHardNATCampaign)).
  - unfold hardNATCampaignAdmissionError. exists (statusAt s now).
    assert (Hc : hs_State (hardNATCampaignStatusAt s now) = PairingLedgerCircuitOpen).
    { destruct (effectiveNow_Ok s now now He) as (Hu & _).
      unfold hardNATCampaignStatusAt. rewrite Hu, He.
      destruct (failureState s PairingRecordClassHardNATCampaign) as [? openedAt].
      destruct (IsZero openedAt); simpl; [|done]. by rewrite Hz. }
    rewrite Hc. by rewrite bool_decide_true.
  - exists (statusAt s now). by rewrite Hz.
Qed.

Section theorems.
Context {C : LedgerCodec} {L : LedgerCodecLaws C}.

(** Three ordinary terminal failures with no ordinary success and no reset
    in between block every later admission, ordinary or campaign, by any owner
    and at any time: the journal refuses with the circuit error and is left
    unchanged. *)
Theorem circuit_blocks_admission ledgerInstance env request data l1 l2 s now :
  decodePairingJournal data = Ok (l1 ++ l2) ->
  open_snapshot ledgerInstance env (Some data) = Ok s ->
  effectiveNow s (UTC (le_now env)) = Ok now ->
  (forall r, r ∈ l2 -> ends_streak PairingRecordClassOrdinary r = false) ->
  3 <= failures PairingRecordClassOrdinary l2 ->
  (exists status, admissionError s now (par_Envelope request) (par_RecordClass request) =
    Some (EPairingLedger status ErrPairingAdmissionCircuitOpen)) /\
  exists e, Admit ledgerInstance env request (Some data) = (Some data, Err e).
Proof.
  intros Hd Ho Hnow Hend Hn.
  destruct (open_snapshot_Ok ledgerInstance env _ s Ho) as (d & rs & [= <-] & S).
  assert (rs = l1 ++ l2) as -> by (pose proof (so_decode _ _ _ _ S); congruence).
  destruct (effectiveNow_Ok _ _ _ Hnow) as (_ & _ & _ & Hu).
  destruct (Hu (so_utc _ _ _ _ S)) as [_ Hidem].
  assert (Hz : IsZero (failureState s PairingRecordClassOrdinary).2 = false).
  { eapply (failures_open l1 l2) in Hend; [|exact (so_build _ _ _ _ S)| |exact Hn].
    - unfold failureState in *. exact Hend.
    - apply decodePairingJournal_Ok in Hd as (_ & Hf & _). by eapply framed_valid. }
  destruct (open_circuit_blocks s now (par_Envelope request) (par_RecordClass request) Hidem Hz)
    as [status Hst].
  split; [by exists status|]. unfold Admit.
  destruct (validatePairingAdmissionRequest request); [by eexists|]. rewrite Ho.
  destruct (admission_checks ledgerInstance env request s) as [[[n r] f]|e] eqn:Hc; [|by eexists].
  destruct (admission_checks_Ok _ _ _ _ _ _ _ _ _ S Hc) as (_ & Hn' & _ & Ha & _).
  assert (n = now) as -> by congruence. congruence.
Qed.

(** [ResetCircuit] succeeds only as a compare-and-set on the current
    sequence, on an open circuit, at least six hours after it opened; it
    appends exactly one reset record. *)
Theorem ResetCircuit_horizon ledgerInstance env expected note file file' status :
  ResetCircuit ledgerInstance env expected note file = (file', (status, None)) ->
  exists data data' s records now, file = Some data /\ file' = Some data' /\
    snapshot_of ledgerInstance data s records /\
    effectiveNow s (UTC (le_now env)) = Ok now /\
    expected = Z.of_nat (length records) /\
    IsZero (failureState s PairingRecordClassOrdinary).2 = false /\
    instant (failureState s PairingRecordClassOrdinary).2 + 6 * Hour <= instant now /\
    decodePairingJournal data' = Ok (records ++
      [mkRecord pairingLedgerSchemaVersion (expected + 1) pairingRecordCircuitReset now
         PairingRecordClassOrdinary "" "" "" "" no_scope time_zero envelope_zero no_terminal
         note]).
Proof.
  unfold ResetCircuit. intros H. destruct (_ || _); [done|].
  destruct (holdOwner _ _ _) eqn:Hh; [done|].
  destruct (readPairingLedgerSnapshot (le_read env) file _ _) as [s err] eqn:Hr.
  destruct (match err with Some _ => _ | None => _ end) eqn:Hu.
  { destruct err; [|done]. done. }
  destruct (reset_snapshot ledgerInstance env file s err Hr) as (data & records & -> & S);
    [by rewrite Hu|done|].
  destruct (effectiveNow s (UTC (le_now env))) as [now|] eqn:Hnow; [|done].
  destruct (effectiveNow_Ok _ _ _ Hnow) as (_ & _ & _ & Hi).
  destruct (Hi (so_utc _ _ _ _ S)) as [_ Hidem].
  destruct (statusAt_fields s now Hidem) as (_ & _ & _ & _ & Hop & _ & _ & _ & _ & Hex).
  injection Hop as Hop _.
  destruct (Z.eqb_spec expected (sn_sequence s)) as [Hseq|]; [|done]. simpl in H.
  destruct (negb (ps_ExplicitResetRequired (statusAt s now)) || _) eqn:Hopen; [done|].
  apply orb_false_iff in Hopen as [_ Hz]. rewrite Hop in Hz.
  destruct (Before now (ps_CircuitResetEligibleAt (statusAt s now))) eqn:Hel; [done|].
  assert (Hhor : instant (failureState s PairingRecordClassOrdinary).2 + 6 * Hour <= instant now).
  { destruct (effectiveNow_Ok s now now Hidem) as (Hus & _).
    unfold statusAt in Hel. rewrite Hus, Hidem in Hel.
    destruct (failureState s PairingRecordClassOrdinary) as [n openedAt]. simpl in *.
    rewrite Hz in Hel. simpl in Hel. unfold Before, TAdd, pairingAdmissionCircuitHorizon in Hel.
    simpl in Hel. lia. }
  unfold append_reset in H.
  set (record := reset_journal_record s now PairingRecordClassOrdinary note) in *.
  destruct (encodePairingJournalFrame record) as [frame|] eqn:Hen; [|done].
  destruct (ensureRecordCapacity s (blen frame)) eqn:Hcap; [done|].
  destruct (ensureRecordCapacity_None _ _ _ _ _ S Hcap) as [Hn _].
  destruct (appendAndSync (le_append env) (Some data) frame) as [f1 e1] eqn:Hrun.
  destruct e1; [done|]. destruct (appendAndSync_effect _ _ _ _ _ Hrun) as [_ Hf].
  rewrite (Hf eq_refl) in *.
  destruct (readPairingLedgerSnapshot (le_verify env) _ now _) as [v ve]. destruct ve; [done|].
  injection H as <- <-. exists data, (data ++ frame), s, records, now.
  pose proof (so_sequence _ _ _ _ S) as Hsn. split_and!; try done; [by rewrite Hseq|].
  rewrite (decode_append data records record frame); [|apply S|done|done].
  unfold record, reset_journal_record. rewrite (snapshot_next _ _ _ _ S). by rewrite Hseq, Hsn.
Qed.
End theorems.
