(* ===== verification/LedgerRuns.v ===== *)
(** * Concrete runs of the pairing admission journal

    A codec that satisfies the laws (one token per field), and runs with it:
    an admission and its terminal record, three failures, a refused fourth
    admission and a reset.  They are the witnesses of the journal's theorems. *)
From S2P Require Import Prelude GoStd Limits SafetyTrip Governor Ledger LedgerSnapshot LedgerOps LedgerReplay LedgerEffects LedgerThms.

(** ** The sample codec *)

Definition put {A} `{Countable A} (x : A) : Z := Z.pos (encode x).
Definition get {A} `{Countable A} (z : Z) : option A :=
  match z with Z.pos p => decode p | _ => None end.

Lemma get_put {A} `{Countable A} (x : A) : get (put x) = Some x.
Proof. apply decode_encode. Qed.

Definition tokens (r : pairingJournalRecord) : list Z :=
  [ put (jr_SchemaVersion r); put (jr_Sequence r); put (jr_Type r); put (jr_RecordedAt r);
    put (jr_RecordClass r); put (jr_CredentialID r); put (jr_AttemptID r);
    put (jr_ContextDigest r); put (jr_OwnerInstanceID r); put (jr_Scope r);
    put (jr_ExpiresAt r); put (jr_Envelope r); put (jr_Reason r); put (jr_ResetNote r) ].

Definition untokens (data : list Z) : option (pairingJournalRecord * list Z) :=
  match data with
  | a :: b :: c :: d :: e :: f :: g :: h :: i :: j :: k :: l :: m :: n :: rest =>
      match get a, get b, get c, get d, get e, get f, get g with
      | Some a, Some b, Some c, Some d, Some e, Some f, Some g =>
          match get h, get i, get j, get k, get l, get m, get n with
          | Some h, Some i, Some j, Some k, Some l, Some m, Some n =>
              Some (mkRecord a b c d e f g h i j k l m n, rest)
          | _, _, _, _, _, _, _ => None
          end
      | _, _, _, _, _, _, _ => None
      end
  | _ => None
  end.

Lemma untokens_tokens r rest : untokens (tokens r ++ rest) = Some (r, rest).
Proof. unfold untokens, tokens. cbn [app]. rewrite !get_put. by destruct r. Qed.

#[export] Instance token_codec : LedgerCodec := {|
  ledger_marshal_record r := Some (tokens r);
  ledger_marshal_frame r checksum := Some (tokens r ++ checksum);
  ledger_decode_frame := untokens;
  ledger_sum256 data := replicate 32 (blen data mod 256) |}.

#[export] Instance token_codec_laws : LedgerCodecLaws token_codec.
Proof.
  split.
  - intros r checksum payload _ [= <-]. apply untokens_tokens.
  - intros data. split; [done|]. apply Forall_replicate. unfold is_byte.
    apply Z.mod_pos_bound. lia.
Qed.

(** ** A run *)

Definition owner_id : string := "00000000000000000000000000000001".
Definition machine_owner : Owner := mkOwner ScopeMachine "v1" true false true.
Definition day0 : Z := 63113904000 * Second.

(** All system calls succeed, [seconds] after the start. *)
Definition at_time (seconds : Z) : ledger_env :=
  mkEnv (Some machine_owner) owner_id (mkTime (day0 + seconds * Second) true) read_ok append_ok
    read_ok.

Definition request_at (seconds : Z) (credential attempt : string) : PairingAdmissionRequest :=
  mkAdmissionRequest PairingRecordClassOrdinary credential attempt
    "0000000000000000000000000000000000000000000000000000000000000000" ScopeMachine
    (mkTime (day0 + (seconds + 300) * Second) true) (mkEnvelope 1 1 1 100 1 5000 false).

Definition created : journal :=
  match createPairingLedgerFile (mkTime day0 true) false with Ok d => Some d | Err _ => None end.

Definition no_receipt : PairingAdmissionReceipt :=
  mkReceipt 0 PairingRecordClassOrdinary "" "" "" "" time_zero.

Definition admit_at (seconds : Z) (credential attempt : string) (file : journal) :=
  Admit owner_id (at_time seconds) (request_at seconds credential attempt) file.

Definition receipt_of (r : journal * res ledgererr PairingAdmissionReceipt) :=
  match r.2 with Ok rc => rc | Err _ => no_receipt end.

(** Admit at [seconds], fail five seconds later. *)
Definition fail_at (seconds : Z) (credential attempt : string) (file : journal) : journal :=
  let r := admit_at seconds credential attempt file in
  (Finish owner_id (at_time (seconds + 5)) (receipt_of r) PairingTerminalCarrierError r.1).1.

Definition cred (c : string) : string := c +:+ "AAAAAAAAAAAAAAAAAAAAA".

Definition admitted_1 := admit_at 10 (cred "A") (cred "B") created.
Definition failed_1 : journal := fail_at 10 (cred "A") (cred "B") created.
Definition failed_2 : journal := fail_at 100 (cred "C") (cred "D") failed_1.
Definition failed_3 : journal := fail_at 200 (cred "E") (cred "F") failed_2.
Definition reset_env : ledger_env := at_time (7 * 3600).

Definition bytes_of (file : journal) : list Z := match file with Some d => d | None => [] end.
Definition records_of (file : journal) : list pairingJournalRecord :=
  match decodePairingJournal (bytes_of file) with Ok rs => rs | Err _ => [] end.

Lemma created_reachable : ledger_reachable created.
Proof.
  destruct (createPairingLedgerFile (mkTime day0 true) false) as [d|] eqn:E;
    [|vm_compute in E; discriminate].
  unfold created. rewrite E. by eapply lr_create.
Qed.

Lemma admit_reachable seconds c a file :
  ledger_reachable file -> ledger_reachable (admit_at seconds c a file).1.
Proof. intros H. eapply lr_step; [exact H|]. apply ls_Admit. Qed.

Lemma fail_reachable seconds c a file :
  ledger_reachable file -> ledger_reachable (fail_at seconds c a file).
Proof.
  intros H. eapply lr_step; [by apply (admit_reachable seconds c a)|]. apply ls_Finish.
Qed.

Lemma failed_3_reachable : ledger_reachable failed_3.
Proof. repeat apply fail_reachable. apply created_reachable. Qed.

Lemma failed_3_bytes : failed_3 = Some (bytes_of failed_3).
Proof. vm_compute. reflexivity. Qed.

Lemma failed_3_decodes : decodePairingJournal (bytes_of failed_3) = Ok (records_of failed_3).
Proof. vm_compute. reflexivity. Qed.

(** ** Witnesses *)

Lemma admission_windows_witness :
  length (class_burns PairingRecordClassOrdinary (records_of failed_3)) = 3%nat /\
  admissions_in pairingAdmissionOneHourWindow (day0 + 3600 * Second)
    (class_burns PairingRecordClassOrdinary (records_of failed_3)) <= 4.
Proof.
  split; [vm_compute; reflexivity|].
  refine (proj1 (admission_windows (bytes_of failed_3) (records_of failed_3)
    (day0 + 3600 * Second) _ failed_3_decodes)).
  rewrite <-failed_3_bytes. exact failed_3_reachable.
Defined.

Definition nth_burn (i : nat) : pairingJournalRecord :=
  match class_burns PairingRecordClassOrdinary (records_of failed_3) !! i with
  | Some r => r
  | None => mkRecord 0 0 pairingRecordInitialize time_zero PairingRecordClassOrdinary "" "" "" ""
              no_scope time_zero envelope_zero no_terminal ""
  end.

Lemma admission_spacing_witness : time_of (nth_burn 0) + 60 * Second <= time_of (nth_burn 1).
Proof.
  refine (admission_spacing (bytes_of failed_3) (records_of failed_3) 0 1 (nth_burn 0) (nth_burn 1)
    _ failed_3_decodes _ _ _ _);
    [rewrite <-failed_3_bytes; exact failed_3_reachable|vm_compute; reflexivity..|lia|
     vm_compute; reflexivity].
Defined.

Lemma burns_are_unique_witness :
  NoDup (jr_CredentialID <$> List.filter is_burn (records_of failed_3)).
Proof.
  refine (proj1 (burns_are_unique (bytes_of failed_3) (records_of failed_3) _ failed_3_decodes)).
  rewrite <-failed_3_bytes. exact failed_3_reachable.
Defined.

Lemma admitted_1_eq : admitted_1 = (admitted_1.1, Ok (receipt_of admitted_1)).
Proof. vm_compute. reflexivity. Qed.

Lemma Admit_appends_witness : rc_sequence (receipt_of admitted_1) = 2.
Proof.
  destruct (Admit_appends owner_id (at_time 10) (request_at 10 (cred "A") (cred "B")) created
    admitted_1.1 (receipt_of admitted_1) admitted_1_eq)
    as (data & data' & records & record & Hf & _ & Hd & _ & _ & Hs & _).
  rewrite Hs. assert (records = records_of created) as ->.
  { unfold records_of. rewrite Hf. simpl. by rewrite Hd. }
  vm_compute. reflexivity.
Defined.

Lemma credential_burned_forever_witness :
  is_ok (admit_at 300 (cred "A") (cred "G") (admit_at 100 (cred "C") (cred "D") admitted_1.1).1).2
  = false.
Proof.
  destruct (admit_at 300 (cred "A") (cred "G")
    (admit_at 100 (cred "C") (cred "D") admitted_1.1).1).2 as [receipt'|e] eqn:E; [|reflexivity].
  exfalso. refine (credential_burned_forever owner_id (at_time 10)
    (request_at 10 (cred "A") (cred "B")) created admitted_1.1 (receipt_of admitted_1) _ owner_id
    (at_time 300) (request_at 300 (cred "A") (cred "G")) admitted_1_eq _ eq_refl receipt' E).
  apply rtc_once. exists owner_id. apply ls_Admit.
Defined.

Definition sample_record : pairingJournalRecord := nth_burn 0.
Definition sample_frame : list Z :=
  match encodePairingJournalFrame sample_record with Ok f => f | Err _ => [] end.

Lemma torn_append_fails_closed_witness :
  (appendAndSync (mkAppendIO true true (Some 7%nat) true true true true)
     (Some (bytes_of created)) sample_frame).2 <> None.
Proof.
  refine (proj1 (torn_append_fails_closed (bytes_of created) (records_of created) sample_record
    sample_frame 7 (mkAppendIO true true (Some 7%nat) true true true true) _ _ _ _ _ _));
    try (vm_compute; reflexivity).
  vm_compute. lia.
Defined.

Lemma Finish_after_Admit_witness :
  exists data2, Finish owner_id (at_time 15) (receipt_of admitted_1) PairingTerminalSuccess
    admitted_1.1 = (Some data2, None).
Proof.
  destruct (Finish_after_Admit owner_id (at_time 10) (request_at 10 (cred "A") (cred "B")) created
    admitted_1.1 (receipt_of admitted_1) (at_time 15) PairingTerminalSuccess admitted_1_eq)
    as (data1 & data2 & records & _ & _ & Hfin & _); try (vm_compute; reflexivity).
  - vm_compute. discriminate.
  - exists data2. exact Hfin.
Defined.

Definition opened : pairingLedgerSnapshot :=
  match open_snapshot owner_id (at_time 1000) failed_3 with
  | Ok s => s | Err _ => status_only ledger_status_zero end.

Lemma circuit_blocks_admission_witness :
  exists e, Admit owner_id (at_time 1000) (request_at 1000 (cred "G") (cred "H"))
    (Some (bytes_of failed_3)) = (Some (bytes_of failed_3), Err e).
Proof.
  refine (proj2 (circuit_blocks_admission owner_id (at_time 1000)
    (request_at 1000 (cred "G") (cred "H")) (bytes_of failed_3) (take 1 (records_of failed_3))
    (drop 1 (records_of failed_3)) opened (mkTime (day0 + 1000 * Second) true) _ _ _ _ _)).
  - rewrite take_drop. exact failed_3_decodes.
  - vm_compute. reflexivity.
  - vm_compute. reflexivity.
  - intros r Hr. apply negb_true_iff.
    refine (proj1 (forallb_forall (fun r => negb (ends_streak PairingRecordClassOrdinary r)) _)
      _ r (proj1 (list_elem_of_In _ _) Hr)).
    vm_compute. reflexivity.
  - vm_compute. discriminate.
Defined.

Definition reset_run := ResetCircuit owner_id reset_env 7 "operator reset" failed_3.

Lemma reset_run_eq :
  ResetCircuit owner_id reset_env 7 "operator reset" failed_3 =
  (reset_run.1, (reset_run.2.1, None)).
Proof. vm_compute. reflexivity. Qed.

Lemma ResetCircuit_horizon_witness :
  7 = Z.of_nat (length (records_of failed_3)).
Proof.
  destruct (ResetCircuit_horizon owner_id reset_env 7 "operator reset" failed_3 reset_run.1
    reset_run.2.1 reset_run_eq) as (data & data' & s & records & now & Hf & _ & S & _ & Hn & _).
  rewrite Hn. f_equal. f_equal. unfold records_of. rewrite Hf. simpl.
  by rewrite (so_decode _ _ _ _ S).
Defined.
