(* ===== verification/PairingGate.v ===== *)
(** * The pairing admission gate (src/internal/governor/pairing_gate.go and the
    loopback half of its terminal record in loopback_termination.go)

    [Commit] combines a live attempt lease of the governor (Governor.v) with
    the durable journal (LedgerOps.v); [CommittedAttempt] and
    [CommittedCarrierAuthorization] are the one-time tokens it hands out.  A
    [Machine] is a governor, the journal, the tokens and the calls in progress;
    every critical section of a call is one function on machines. *)
From S2P Require Import Prelude GoStd Limits SafetyTrip Governor GovernorSteps Ledger LedgerSnapshot LedgerOps.

Definition pairingAdmissionGateDrainName : string := "pairing-admission-gate".

(** ** Errors *)

Inductive ctxerr := Canceled | DeadlineExceeded.
#[export] Instance ctxerr_eq_dec : EqDecision ctxerr.
Proof. solve_decision. Defined.

(** [GGov] and [GLedger] embed the errors of the governor and of the journal,
    [GContext] is an error of a caller's context, [GHook] one of a hook,
    [GJoin] is [errors.Join] and [GDurable] is [durablePairingTerminalError]. *)
Inductive gateerr :=
| ErrPairingAdmissionRejected (msg : string)
| ErrCommittedAttemptConsumed
| ErrCommittedAttemptInvalid (msg : string)
| ErrFirstEmissionAlreadyAuthorized
| ErrPairingCredentialExpired
| GContext (e : ctxerr)
| GGov (e : goerr)
| GLedger (e : ledgererr)
| GHook (msg : string)
| GJoin (errs : list gateerr)
| GDurable (cause : gateerr) (attempt : ptr).

Definition invalid : gateerr := ErrCommittedAttemptInvalid "".
Definition rejected : gateerr := ErrPairingAdmissionRejected "".

(** [errors.Join]. *)
Definition gate_join (errs : list (option gateerr)) : option gateerr :=
  match omap id errs with [] => None | l => Some (GJoin l) end.

(** Join with a first error that is not nil. *)
Definition join1 (e : gateerr) (errs : list (option gateerr)) : gateerr :=
  GJoin (e :: omap id errs).

(** [errors.Is] for a sentinel recognised by [p] (on gate errors) and [q] (on
    governor errors). *)
Fixpoint gov_is (q : goerr -> bool) (e : goerr) : bool :=
  q e || match e with EJoin errs => existsb (gov_is q) errs | _ => false end.

Fixpoint errors_Is (p : gateerr -> bool) (q : goerr -> bool) (e : gateerr) : bool :=
  p e || match e with
         | GJoin errs => existsb (errors_Is p q) errs
         | GDurable cause _ => errors_Is p q cause
         | GGov e => gov_is q e
         | GLedger (EGovernor e) => gov_is q e
         | _ => false
         end.

Definition no_gov (e : goerr) : bool := false.
Definition no_gate (e : gateerr) : bool := false.

Definition is_expired : gateerr -> bool :=
  errors_Is (fun e => match e with
                      | GContext DeadlineExceeded | ErrPairingCredentialExpired => true
                      | _ => false end) no_gov.
Definition is_cancelled : gateerr -> bool :=
  errors_Is (fun e => match e with GContext Canceled => true | _ => false end)
    (fun e => match e with ErrLeaseClosed | ESafetyTrip _ => true | _ => false end).
Definition is_scope_changed : gateerr -> bool :=
  errors_Is (fun e => match e with
                      | GLedger (ErrPairingMachineScopeRequired _)
                      | ErrCommittedAttemptInvalid _ => true
                      | _ => false end) no_gov.

Definition pairingTerminalReasonForGateError (err : gateerr) : PairingTerminalReason :=
  if is_expired err then PairingTerminalExpired
  else if is_cancelled err then PairingTerminalCancelled
  else if is_scope_changed err then PairingTerminalScopeChanged
  else PairingTerminalProtocolError.

(** [errors.Is(err, ErrPairingLedgerIndeterminate)]. *)
Definition is_indeterminate (e : ledgererr) : bool :=
  match e with EPairingLedger _ ErrPairingLedgerIndeterminate => true | _ => false end.

(** How an error of the journal reaches the governor. *)
Definition ledger_goerr (e : ledgererr) : goerr :=
  match e with EGovernor e => e | _ => EText "pairing ledger" end.

Definition pairingFailureAfterFinish (attempt : ptr) (cause : gateerr)
    (finishErr : option gateerr) : gateerr :=
  match finishErr with
  | Some _ => join1 cause [finishErr]
  | None => GDurable (GJoin [cause]) attempt
  end.

(** [errors.As] into a [durablePairingTerminalError]: the first one of the
    chain, depth first. *)
Fixpoint durable_of (e : gateerr) : option ptr :=
  match e with
  | GDurable _ attempt => Some attempt
  | GJoin errs =>
      (fix first (l : list gateerr) : option ptr :=
         match l with
         | [] => None
         | x :: l' => match durable_of x with Some a => Some a | None => first l' end
         end) errs
  | _ => None
  end.

Definition PairingTerminalRecordedForAttempt (err : option gateerr) (attempt : ptr) : bool :=
  match err with
  | None => false
  | Some e => bool_decide (durable_of e = Some attempt)
  end.

(** ** The state *)

(** Position of the winning call of [finish]: the ordinary path, or the caller
    of [finishLoopback] waiting for the verdict. *)
Inductive finish_phase :=
| FIdle
| FWrite
| FComplete (err : option gateerr)
| FPublish (err : option gateerr)
| FBegin
| FVerdict
| FWriter (result : option goerr)
| FDone.

(** Position of the writer goroutine of [finishLoopback]. *)
Inductive writer_phase :=
| WNone
| WHook
| WNetwork (hookErr : option gateerr)
| WAwait (hookErr : option gateerr)
| WFinish (hookErr : option gateerr) (networkErr : option goerr)
| WRecord (hookErr : option gateerr) (networkErr : option goerr) (finishErr : option ledgererr)
| WPublish (hookErr : option gateerr) (networkErr : option goerr) (finishErr : option ledgererr)
| WComplete
| WEnd.

Record CommittedAttempt := mkCommitted {
  ca_attempt : ptr;
  ca_receipt : PairingAdmissionReceipt;
  ca_request : PairingAdmissionRequest;
  ca_ownerInstanceID : string;
  ca_drain : Z;
  ca_hasContext : bool;
  ca_consumed : bool;
  ca_terminalChosen : bool;
  ca_terminalReason : PairingTerminalReason;
  ca_terminalErr : option gateerr;
  ca_finished : nat;
  ca_preFinishHook : bool;
  ca_writerDone : nat;
  ca_writerErr : option gateerr;
  ca_finish : finish_phase;
  ca_writer : writer_phase;
}.

Record CommittedCarrierAuthorization := mkAuthorization {
  au_committed : ptr;
  au_first : bool;
  au_locked : bool;
}.

(** *** Calls in progress *)

(** [Commit]. *)
Inductive commit_phase :=
| CRegister (ownerID : string)
| CAdmit (ownerID : string) (drain : Z)
| CPost (again : bool) (ownerID : string) (drain : Z) (receipt : PairingAdmissionReceipt)
| CFail (drain : Z) (receipt : PairingAdmissionReceipt) (primary : gateerr)
| CFailWait (c : ptr) (primary : gateerr)
| CRecord (drain : Z) (err : ledgererr)
| CComplete (drain : Z) (err : gateerr)
| CDone (result : res gateerr ptr).

Record commit_call := mkCommit {
  cc_attempt : ptr;
  cc_request : PairingAdmissionRequest;
  cc_phase : commit_phase;
}.

(** The methods of the two tokens. *)
Inductive token_method :=
| ConsumeForCarrier (c : ptr)
| BeforeFirstEmission (u : ptr)
| CheckActive (u : ptr)
| AuthFinish (u : ptr) (reason : PairingTerminalReason).

Inductive token_phase :=
| PRefused
| PValidate
| PTerminal
| PInspect
| PFailed (err : gateerr)
| PWait (reason : PairingTerminalReason) (err : option gateerr)
| PDone (result : res gateerr (option ptr)).

Record token_call := mkToken {
  tc_method : token_method;
  tc_committed : ptr;
  tc_phase : token_phase;
}.

Record Machine := mkMachine {
  m_owner : string;
  m_gov : Governor;
  m_journal : journal;
  m_committed : gmap ptr CommittedAttempt;
  m_auths : gmap ptr CommittedCarrierAuthorization;
  m_commits : gmap nat commit_call;
  m_tokens : gmap nat token_call;
  m_next : nat;
}.

(** *** Updates *)

Definition with_gov (g : Governor) (m : Machine) : Machine :=
  mkMachine (m_owner m) g (m_journal m) (m_committed m) (m_auths m) (m_commits m) (m_tokens m)
    (m_next m).
Definition with_journal (f : journal) (m : Machine) : Machine :=
  mkMachine (m_owner m) (m_gov m) f (m_committed m) (m_auths m) (m_commits m) (m_tokens m)
    (m_next m).
Definition put_committed (c : ptr) (x : CommittedAttempt) (m : Machine) : Machine :=
  mkMachine (m_owner m) (m_gov m) (m_journal m) (<[c := x]> (m_committed m)) (m_auths m)
    (m_commits m) (m_tokens m) (m_next m).
Definition put_auth (u : ptr) (x : CommittedCarrierAuthorization) (m : Machine) : Machine :=
  mkMachine (m_owner m) (m_gov m) (m_journal m) (m_committed m) (<[u := x]> (m_auths m))
    (m_commits m) (m_tokens m) (m_next m).
Definition put_commit (t : nat) (x : commit_call) (m : Machine) : Machine :=
  mkMachine (m_owner m) (m_gov m) (m_journal m) (m_committed m) (m_auths m)
    (<[t := x]> (m_commits m)) (m_tokens m) (m_next m).
Definition put_token (t : nat) (x : token_call) (m : Machine) : Machine :=
  mkMachine (m_owner m) (m_gov m) (m_journal m) (m_committed m) (m_auths m) (m_commits m)
    (<[t := x]> (m_tokens m)) (m_next m).
Definition fresh_next (m : Machine) : Machine :=
  mkMachine (m_owner m) (m_gov m) (m_journal m) (m_committed m) (m_auths m) (m_commits m)
    (m_tokens m) (S (m_next m)).

Definition set_ca_consumed (v : bool) (x : CommittedAttempt) : CommittedAttempt :=
  mkCommitted (ca_attempt x) (ca_receipt x) (ca_request x) (ca_ownerInstanceID x) (ca_drain x)
    (ca_hasContext x) v (ca_terminalChosen x) (ca_terminalReason x) (ca_terminalErr x)
    (ca_finished x) (ca_preFinishHook x) (ca_writerDone x) (ca_writerErr x) (ca_finish x)
    (ca_writer x).
Definition set_ca_chosen (reason : PairingTerminalReason) (x : CommittedAttempt)
    : CommittedAttempt :=
  mkCommitted (ca_attempt x) (ca_receipt x) (ca_request x) (ca_ownerInstanceID x) (ca_drain x)
    (ca_hasContext x) (ca_consumed x) true reason (ca_terminalErr x) (ca_finished x)
    (ca_preFinishHook x) (ca_writerDone x) (ca_writerErr x) (ca_finish x) (ca_writer x).
Definition set_ca_published (err : option gateerr) (x : CommittedAttempt) : CommittedAttempt :=
  mkCommitted (ca_attempt x) (ca_receipt x) (ca_request x) (ca_ownerInstanceID x) (ca_drain x)
    (ca_hasContext x) (ca_consumed x) (ca_terminalChosen x) (ca_terminalReason x) err
    (S (ca_finished x)) (ca_preFinishHook x) (ca_writerDone x) (ca_writerErr x) (ca_finish x)
    (ca_writer x).
Definition set_ca_preFinishHook (v : bool) (x : CommittedAttempt) : CommittedAttempt :=
  mkCommitted (ca_attempt x) (ca_receipt x) (ca_request x) (ca_ownerInstanceID x) (ca_drain x)
    (ca_hasContext x) (ca_consumed x) (ca_terminalChosen x) (ca_terminalReason x)
    (ca_terminalErr x) (ca_finished x) v (ca_writerDone x) (ca_writerErr x) (ca_finish x)
    (ca_writer x).
Definition set_ca_writerErr (closes : bool) (err : option gateerr) (x : CommittedAttempt)
    : CommittedAttempt :=
  mkCommitted (ca_attempt x) (ca_receipt x) (ca_request x) (ca_ownerInstanceID x) (ca_drain x)
    (ca_hasContext x) (ca_consumed x) (ca_terminalChosen x) (ca_terminalReason x)
    (ca_terminalErr x) (ca_finished x) (ca_preFinishHook x)
    (if closes then S (ca_writerDone x) else ca_writerDone x) err (ca_finish x) (ca_writer x).
Definition set_ca_finish (v : finish_phase) (x : CommittedAttempt) : CommittedAttempt :=
  mkCommitted (ca_attempt x) (ca_receipt x) (ca_request x) (ca_ownerInstanceID x) (ca_drain x)
    (ca_hasContext x) (ca_consumed x) (ca_terminalChosen x) (ca_terminalReason x)
    (ca_terminalErr x) (ca_finished x) (ca_preFinishHook x) (ca_writerDone x) (ca_writerErr x)
    v (ca_writer x).
Definition set_ca_writer (v : writer_phase) (x : CommittedAttempt) : CommittedAttempt :=
  mkCommitted (ca_attempt x) (ca_receipt x) (ca_request x) (ca_ownerInstanceID x) (ca_drain x)
    (ca_hasContext x) (ca_consumed x) (ca_terminalChosen x) (ca_terminalReason x)
    (ca_terminalErr x) (ca_finished x) (ca_preFinishHook x) (ca_writerDone x) (ca_writerErr x)
    (ca_finish x) v.

(** ** Checks *)

Definition pairingOperationAllowed (profile : Profile) (operation : Operation) : bool :=
  (bool_decide (profile = ProfilePhase1Machine) && bool_decide (operation = OperationConnectTest))
  || (bool_decide (profile = ProfilePhase1ManualTraversal)
      && (bool_decide (operation = OperationPrediction)
          || bool_decide (operation = OperationBirthday)))
  || (bool_decide (profile = ProfilePhase1HardNATCampaign)
      && bool_decide (operation = OperationBirthday)).

Definition scope_required : gateerr := GLedger (ErrPairingMachineScopeRequired "").

(** The governor's [scope] and [ownerInfo.Scope] are the scope of its profile. *)
Definition machine_scope (g : Governor) : bool :=
  match Profile_Scope (g_profile g) with
  | Ok scope => bool_decide (scope = ScopeMachine)
  | Err _ => false
  end.

(** [ctx] is [None] for a nil context, else its [Err()]; [owner] the instance
    identifier of the held owner; [fresh] what the safety-trip store answers. *)
Definition inspectPairingAttempt (ctx : option (option ctxerr)) (attempt : ptr)
    (expectedOwnerID : string) (expiresAt now : Time) (fresh : SafetyTripStatus)
    (owner : string) (g : Governor) : Governor * res gateerr string :=
  match ctx with
  | None => (g, Err (GGov (ErrInvalidRequest "context is nil")))
  | Some (Some e) => (g, Err (GContext e))
  | Some None =>
      match g_aheap g !! attempt with
      | None => (g, Err (GGov ErrLeaseClosed))
      | Some l =>
          if negb (Before (UTC now) expiresAt) then
            (g, Err (GJoin [invalid; ErrPairingCredentialExpired]))
          else if negb (machine_scope g)
                  || negb (pairingOperationAllowed (g_profile g) (req_Operation (al_request l)))
          then (g, Err scope_required)
          else if ts_BlocksActiveWork (g_trip g) then (g, Err (GGov (ESafetyTrip (g_trip g))))
          else if ts_BlocksActiveWork fresh then
            (refreshTrip fresh g, Err (GGov (ESafetyTrip fresh)))
          else if g_closed g || g_closing g || al_closed l || al_stoppingStarted l
                  || negb (bool_decide (g_attempts g !! req_ID (al_request l) = Some attempt))
          then (g, Err (GGov ErrLeaseClosed))
          else if bool_decide (owner = "") then (g, Err scope_required)
          else if negb (bool_decide (expectedOwnerID = ""))
                  && negb (bool_decide (owner = expectedOwnerID))
          then (g, Err (ErrCommittedAttemptInvalid "machine owner instance changed"))
          else (g, Ok owner)
      end
  end.

Definition precheckPairingAdmission (ctx : option (option ctxerr)) (attempt : ptr)
    (request : PairingAdmissionRequest) (now : Time) (fresh : SafetyTripStatus)
    (owner : string) (g : Governor) : Governor * res gateerr string :=
  match g_aheap g !! attempt with
  | None => (g, Err (GGov ErrLeaseClosed))
  | Some l =>
      if negb (bool_decide (par_AttemptID request = req_ID (al_request l))) then
        (g, Err (GLedger (ErrPairingLedgerInvalidRequest
                   "journal attempt id does not match the live lease")))
      else if negb (bool_decide (par_Envelope request =
                      PairingEnvelopeFromAttemptCost (req_Cost (al_request l)))) then
        (g, Err (GLedger (ErrPairingLedgerInvalidRequest
                   "journal envelope does not match the reserved lease cost")))
      else if negb (pairingOperationAllowed (g_profile g) (req_Operation (al_request l))) then
        (g, Err (GGov ErrNotAllowed))
      else inspectPairingAttempt ctx attempt "" (par_ExpiresAt request) now fresh owner g
  end.

Definition postcheckPairingAdmission (ctx : option (option ctxerr)) (attempt : ptr)
    (request : PairingAdmissionRequest) (ownerID : string) (now : Time)
    (fresh : SafetyTripStatus) (owner : string) (g : Governor) : Governor * option gateerr :=
  let '(g', r) := inspectPairingAttempt ctx attempt ownerID (par_ExpiresAt request) now fresh
                    owner g in
  (g', match r with Ok _ => None | Err e => Some e end).

#[global] Arguments inspectPairingAttempt : simpl never.
#[global] Arguments precheckPairingAdmission : simpl never.
#[global] Arguments postcheckPairingAdmission : simpl never.

(** [attempt.terminal != nil]. *)
Definition is_loopback (g : Governor) (a : ptr) : bool :=
  match lease_terminal g a with Some _ => true | None => false end.

(** ** [Commit] *)

Definition set_commit (t : nat) (call : commit_call) (phase : commit_phase) (m : Machine)
    : Machine :=
  put_commit t (mkCommit (cc_attempt call) (cc_request call) phase) m.

(** A new call: request validation, the journal handle ([ledgerErr]), the
    pre-check and the hook after it. *)
Definition commit_start (attempt : ptr) (request : PairingAdmissionRequest)
    (ctx : option (option ctxerr)) (now : Time) (fresh : SafetyTripStatus)
    (ledgerErr : option ledgererr) (hook : option string) (m : Machine) : Machine :=
  let call (phase : commit_phase) (m' : Machine) :=
    fresh_next (put_commit (m_next m) (mkCommit attempt request phase) m') in
  let refuse (e : gateerr) := call (CDone (Err (GJoin [rejected; e]))) in
  match validatePairingAdmissionRequest request with
  | Some e => refuse (GLedger e) m
  | None =>
      match g_aheap (m_gov m) !! attempt with
      | None => refuse (GGov ErrLeaseClosed) m
      | Some _ =>
          match ledgerErr with
          | Some e => refuse (GLedger e) m
          | None =>
              let '(g, r) := precheckPairingAdmission ctx attempt request now fresh (m_owner m)
                               (m_gov m) in
              match r with
              | Err e => refuse e (with_gov g m)
              | Ok ownerID =>
                  match hook with
                  | Some h => refuse (GHook h) (with_gov g m)
                  | None => call (CRegister ownerID) (with_gov g m)
                  end
              end
          end
      end
  end.

(** [registerPairingDrain]. *)
Definition commit_register (t : nat) (call : commit_call) (ownerID : string) (m : Machine)
    : Machine :=
  let a := cc_attempt call in
  match registerDrain a pairingAdmissionGateDrainName (is_loopback (m_gov m) a) (m_gov m) with
  | (g, Err e) => set_commit t call (CDone (Err (GJoin [rejected; GGov e]))) (with_gov g m)
  | (g, Ok drain) => set_commit t call (CAdmit ownerID drain) (with_gov g m)
  end.

Section gate.
Context {C : LedgerCodec}.

(** [ledger.Admit]. *)
Definition commit_admit (t : nat) (call : commit_call) (ownerID : string) (drain : Z)
    (env : ledger_env) (m : Machine) : Machine :=
  match Admit (m_owner m) env (cc_request call) (m_journal m) with
  | (file, Err e) => set_commit t call (CRecord drain e) (with_journal file m)
  | (file, Ok receipt) =>
      set_commit t call (CPost false ownerID drain receipt) (with_journal file m)
  end.

(** The refused admission of a loopback attempt. *)
Definition commit_record (t : nat) (call : commit_call) (drain : Z) (e : ledgererr)
    (m : Machine) : Machine :=
  let g := if is_loopback (m_gov m) (cc_attempt call) && is_indeterminate e
           then recordLoopbackFinishError (cc_attempt call) (ledger_goerr e) (m_gov m)
           else m_gov m in
  set_commit t call (CComplete drain (GJoin [rejected; GLedger e])) (with_gov g m).

(** [finish] of a token that has not chosen a terminal reason yet. *)
Definition finish_choose (reason : PairingTerminalReason) (loopback : bool)
    (x : CommittedAttempt) : CommittedAttempt :=
  set_ca_writer (if loopback then WHook else WNone)
    (set_ca_finish (if loopback then FBegin else FWrite) (set_ca_chosen reason x)).

Definition no_request : PairingAdmissionRequest :=
  mkAdmissionRequest PairingRecordClassOrdinary "" "" "" no_scope time_zero envelope_zero.

(** One post-check with the two hooks before it; [again] for the second. *)
Definition commit_post (t : nat) (call : commit_call) (again : bool) (ownerID : string)
    (drain : Z) (receipt : PairingAdmissionReceipt) (hook : option string)
    (ctx : option (option ctxerr)) (now : Time) (fresh : SafetyTripStatus) (m : Machine)
    : Machine :=
  match hook with
  | Some h => set_commit t call (CFail drain receipt (GHook h)) m
  | None =>
      let '(g, err) := postcheckPairingAdmission ctx (cc_attempt call) (cc_request call) ownerID
                         now fresh (m_owner m) (m_gov m) in
      let m := with_gov g m in
      match err with
      | Some e => set_commit t call (CFail drain receipt e) m
      | None =>
          if again then
            let c := m_next m in
            fresh_next (set_commit t call (CDone (Ok c))
              (put_committed c (mkCommitted (cc_attempt call) receipt (cc_request call) ownerID
                 drain true false false no_terminal None 0 false 0 None FIdle WNone) m))
          else set_commit t call (CPost true ownerID drain receipt) m
      end
  end.

(** [failAfterCommit]. *)
Definition commit_fail (t : nat) (call : commit_call) (drain : Z)
    (receipt : PairingAdmissionReceipt) (primary : gateerr) (env : ledger_env) (m : Machine)
    : Machine :=
  let reason := pairingTerminalReasonForGateError primary in
  if is_loopback (m_gov m) (cc_attempt call) then
    let c := m_next m in
    fresh_next (set_commit t call (CFailWait c primary)
      (put_committed c (finish_choose reason true
         (mkCommitted (cc_attempt call) receipt no_request "" drain false false false no_terminal
            None 0 false 0 None FIdle WNone)) m))
  else
    let '(file, err) := Finish (m_owner m) env receipt reason (m_journal m) in
    set_commit t call
      (CComplete drain (pairingFailureAfterFinish (cc_attempt call) (GJoin [rejected; primary])
         (GLedger <$> err))) (with_journal file m).

Definition commit_fail_return (t : nat) (call : commit_call) (x : CommittedAttempt)
    (primary : gateerr) (m : Machine) : Machine :=
  set_commit t call
    (CDone (Err (pairingFailureAfterFinish (cc_attempt call) (GJoin [rejected; primary])
       (ca_terminalErr x)))) m.

(** The deferred [drain.Complete]. *)
Definition commit_complete (t : nat) (call : commit_call) (drain : Z) (err : gateerr)
    (m : Machine) : Machine :=
  set_commit t call (CDone (Err err))
    (with_gov (Complete (cc_attempt call) drain (m_gov m)) m).

(** ** [CommittedAttempt.finish] *)

Definition finish_start (c : ptr) (reason : PairingTerminalReason) (m : Machine) : Machine :=
  match m_committed m !! c with
  | None => m
  | Some x =>
      if ca_terminalChosen x then m
      else put_committed c (finish_choose reason (is_loopback (m_gov m) (ca_attempt x)) x) m
  end.

Definition fin_write (c : ptr) (x : CommittedAttempt) (env : ledger_env) (m : Machine)
    : Machine :=
  let '(file, err) := Finish (m_owner m) env (ca_receipt x) (ca_terminalReason x)
                        (m_journal m) in
  put_committed c (set_ca_finish (FComplete (GLedger <$> err)) x) (with_journal file m).

Definition fin_complete (c : ptr) (x : CommittedAttempt) (err : option gateerr) (m : Machine)
    : Machine :=
  put_committed c (set_ca_finish (FPublish (gate_join [err])) x)
    (with_gov (Complete (ca_attempt x) (ca_drain x) (m_gov m)) m).

Definition fin_publish (c : ptr) (x : CommittedAttempt) (err : option gateerr) (m : Machine)
    : Machine :=
  put_committed c (set_ca_finish FDone (set_ca_published err x)) m.

(** *** [finishLoopback]: the caller *)

Definition fin_begin (c : ptr) (x : CommittedAttempt) (m : Machine) : Machine :=
  put_committed c (set_ca_finish FVerdict x)
    (with_gov (beginAttemptStoppingLocked (m_gov m) (ca_attempt x)) m).

Definition fin_verdict (c : ptr) (x : CommittedAttempt) (m : Machine) : Machine :=
  let result := match lease_terminal (m_gov m) (ca_attempt x) with
                | Some t => lt_result t | None => None end in
  put_committed c (set_ca_finish (FWriter result) x) m.

Definition fin_loopback_publish (c : ptr) (x : CommittedAttempt) (result : option goerr)
    (m : Machine) : Machine :=
  fin_publish c x (gate_join [GGov <$> result; ca_writerErr x]) m.

(** *** [finishLoopback]: the writer goroutine *)

Definition writer_hook (c : ptr) (x : CommittedAttempt) (hook : option string) (m : Machine)
    : Machine :=
  let hookErr := if ca_preFinishHook x then GHook <$> hook else None in
  put_committed c (set_ca_writer (WNetwork hookErr) (set_ca_writerErr false hookErr x)) m.

(** [awaitLoopbackNetwork], before and after its wait. *)
Definition writer_network (c : ptr) (x : CommittedAttempt) (hookErr : option gateerr)
    (m : Machine) : Machine :=
  put_committed c (set_ca_writer (WAwait hookErr) x)
    (with_gov (beginAttemptStoppingLocked (m_gov m) (ca_attempt x)) m).

Definition writer_await (c : ptr) (x : CommittedAttempt) (hookErr : option gateerr)
    (t : loopbackTerminal) (m : Machine) : Machine :=
  put_committed c (set_ca_writer (WFinish hookErr (lt_networkErr t)) x) m.

Definition writer_finish (c : ptr) (x : CommittedAttempt) (hookErr : option gateerr)
    (networkErr : option goerr) (env : ledger_env) (m : Machine) : Machine :=
  let '(file, err) := Finish (m_owner m) env (ca_receipt x) (ca_terminalReason x)
                        (m_journal m) in
  put_committed c (set_ca_writer (WRecord hookErr networkErr err) x) (with_journal file m).

Definition writer_record (c : ptr) (x : CommittedAttempt) (hookErr : option gateerr)
    (networkErr : option goerr) (finishErr : option ledgererr) (m : Machine) : Machine :=
  let g := match finishErr with
           | Some e => recordLoopbackFinishError (ca_attempt x) (ledger_goerr e) (m_gov m)
           | None => m_gov m
           end in
  put_committed c (set_ca_writer (WPublish hookErr networkErr finishErr) x) (with_gov g m).

Definition writer_publish (c : ptr) (x : CommittedAttempt) (hookErr : option gateerr)
    (networkErr : option goerr) (finishErr : option ledgererr) (m : Machine) : Machine :=
  put_committed c (set_ca_writer WComplete
    (set_ca_writerErr true (gate_join [hookErr; GGov <$> networkErr; GLedger <$> finishErr]) x))
    m.

Definition writer_complete (c : ptr) (x : CommittedAttempt) (m : Machine) : Machine :=
  put_committed c (set_ca_writer WEnd x)
    (with_gov (Complete (ca_attempt x) (ca_drain x) (m_gov m)) m).

(** ** The methods of the tokens *)

Definition set_token (t : nat) (call : token_call) (phase : token_phase) (m : Machine)
    : Machine :=
  put_token t (mkToken (tc_method call) (tc_committed call) phase) m.

Definition auth_ready (u : ptr) (m : Machine) : option CommittedCarrierAuthorization :=
  match m_auths m !! u with
  | Some x => if au_locked x then None else Some x
  | None => None
  end.

(** A new call up to its first wait; [None] while the authorization is locked
    by another call, or for a token that does not exist. *)
Definition token_start (method : token_method) (m : Machine) : option Machine :=
  let call (c : ptr) (phase : token_phase) (m' : Machine) :=
    fresh_next (put_token (m_next m) (mkToken method c phase) m') in
  match method with
  | ConsumeForCarrier c =>
      match m_committed m !! c with
      | None => None
      | Some x =>
          Some (if ca_consumed x then call c (PDone (Err ErrCommittedAttemptConsumed)) m
                else if ca_terminalChosen x then call c PRefused m
                else call c PValidate (put_committed c (set_ca_consumed true x) m))
      end
  | BeforeFirstEmission u =>
      match auth_ready u m with
      | None => None
      | Some x =>
          Some (if au_first x
                then call (au_committed x) (PDone (Err ErrFirstEmissionAlreadyAuthorized)) m
                else call (au_committed x) PValidate
                       (put_auth u (mkAuthorization (au_committed x) false true) m))
      end
  | CheckActive u =>
      match auth_ready u m with
      | None => None
      | Some x =>
          Some (if au_first x then call (au_committed x) PValidate m
                else call (au_committed x) (PDone (Err invalid)) m)
      end
  | AuthFinish u reason =>
      match auth_ready u m with
      | None => None
      | Some x =>
          Some (if bool_decide (reason = PairingTerminalSuccess) && negb (au_first x) then
                  call (au_committed x) (PDone (Err (ErrCommittedAttemptInvalid
                    "success requires first-emission authorization"))) m
                else if negb (TerminalReason_valid reason) then
                  call (au_committed x) (PDone (Err (GLedger (ErrPairingLedgerInvalidRequest
                    "invalid terminal reason")))) m
                else call (au_committed x) (PWait reason None)
                       (finish_start (au_committed x) reason m))
      end
  end.

(** [validate]: the look at [terminalChosen]. *)
Definition token_validate (t : nat) (call : token_call) (x : CommittedAttempt) (m : Machine)
    : Machine :=
  set_token t call (if ca_terminalChosen x then PTerminal else PInspect) m.

(** [validate] found a chosen terminal reason and waited for it. *)
Definition token_terminal (t : nat) (call : token_call) (x : CommittedAttempt) (m : Machine)
    : Machine :=
  set_token t call (PFailed (join1 invalid [ca_terminalErr x])) m.

(** [ConsumeForCarrier] found a chosen terminal reason and waited for it. *)
Definition token_refused (t : nat) (call : token_call) (x : CommittedAttempt) (m : Machine)
    : Machine :=
  set_token t call
    (PDone (Err (pairingFailureAfterFinish (ca_attempt x) invalid (ca_terminalErr x)))) m.

Definition unlock (method : token_method) (first : bool) (m : Machine) : Machine :=
  match method with
  | BeforeFirstEmission u =>
      match m_auths m !! u with
      | Some x => put_auth u (mkAuthorization (au_committed x) (first || au_first x) false) m
      | None => m
      end
  | _ => m
  end.

(** What a successful [validate] leads to. *)
Definition token_granted (t : nat) (call : token_call) (m : Machine) : Machine :=
  match tc_method call with
  | ConsumeForCarrier c =>
      let u := m_next m in
      fresh_next (set_token t call (PDone (Ok (Some u)))
        (put_auth u (mkAuthorization c false false) m))
  | BeforeFirstEmission _ =>
      set_token t call (PDone (Ok None)) (unlock (tc_method call) true m)
  | _ => set_token t call (PDone (Ok None)) m
  end.

(** The rest of [validate]; [held] is [Err()] of the context the token was
    committed under. *)
Definition token_inspect (t : nat) (call : token_call) (x : CommittedAttempt)
    (ctx : option (option ctxerr)) (held : option ctxerr) (now : Time)
    (fresh : SafetyTripStatus) (m : Machine) : Machine :=
  match ctx with
  | None => set_token t call (PFailed (GGov (ErrInvalidRequest "context is nil"))) m
  | Some _ =>
      match (if ca_hasContext x then held else None) with
      | Some e => set_token t call (PFailed (GContext e)) m
      | None =>
          let '(g, r) := inspectPairingAttempt ctx (ca_attempt x) (ca_ownerInstanceID x)
                           (par_ExpiresAt (ca_request x)) now fresh (m_owner m) (m_gov m) in
          match r with
          | Err e => set_token t call (PFailed e) (with_gov g m)
          | Ok _ => token_granted t call (with_gov g m)
          end
      end
  end.

(** A failed [validate] finishes the attempt. *)
Definition token_failed (t : nat) (call : token_call) (err : gateerr) (m : Machine) : Machine :=
  let reason := pairingTerminalReasonForGateError err in
  set_token t call (PWait reason (Some err)) (finish_start (tc_committed call) reason m).

(** The end of [finish], for the call that won and for those that waited. *)
Definition finish_result (reason : PairingTerminalReason) (x : CommittedAttempt)
    : option gateerr :=
  if bool_decide (ca_terminalReason x = reason) then ca_terminalErr x
  else gate_join [Some invalid; ca_terminalErr x].

Definition token_return (t : nat) (call : token_call) (x : CommittedAttempt)
    (reason : PairingTerminalReason) (err : option gateerr) (m : Machine) : Machine :=
  let finishErr := finish_result reason x in
  let result :=
    match tc_method call with
    | ConsumeForCarrier _ =>
        Err (pairingFailureAfterFinish (ca_attempt x) (join1 invalid [err]) finishErr)
    | AuthFinish _ _ => match finishErr with None => Ok None | Some e => Err e end
    | _ => Err (join1 invalid [err; finishErr])
    end in
  set_token t call (PDone result) (unlock (tc_method call) false m).

(** [RegisterLoopbackPreFinish]. *)
Definition RegisterLoopbackPreFinish (a : CommittedCarrierAuthorization) (m : Machine)
    : Machine * option gateerr :=
  match m_committed m !! au_committed a with
  | None => (m, Some invalid)
  | Some x =>
      if negb (is_loopback (m_gov m) (ca_attempt x)) || ca_terminalChosen x
         || ca_preFinishHook x || au_first a
      then (m, Some invalid)
      else (put_committed (au_committed a) (set_ca_preFinishHook true x) m, None)
  end.

(** ** Transitions *)

Context {St : TripStore} {F : Sprintf}.

(** The governor and the journal may do anything else in between. *)
Inductive machine_step : Machine -> Machine -> Prop :=
| ms_governor g m : gstep (m_gov m) g -> machine_step m (with_gov g m)
| ms_journal owner f m : ledger_step owner (m_journal m) f -> machine_step m (with_journal f m)
| ms_commit_start a request ctx now fresh ledgerErr hook m :
    machine_step m (commit_start a request ctx now fresh ledgerErr hook m)
| ms_commit_register t call ownerID m :
    m_commits m !! t = Some call -> cc_phase call = CRegister ownerID ->
    machine_step m (commit_register t call ownerID m)
| ms_commit_admit t call ownerID drain env m :
    m_commits m !! t = Some call -> cc_phase call = CAdmit ownerID drain ->
    machine_step m (commit_admit t call ownerID drain env m)
| ms_commit_record t call drain e m :
    m_commits m !! t = Some call -> cc_phase call = CRecord drain e ->
    machine_step m (commit_record t call drain e m)
| ms_commit_post t call again ownerID drain receipt hook ctx now fresh m :
    m_commits m !! t = Some call -> cc_phase call = CPost again ownerID drain receipt ->
    machine_step m (commit_post t call again ownerID drain receipt hook ctx now fresh m)
| ms_commit_fail t call drain receipt primary env m :
    m_commits m !! t = Some call -> cc_phase call = CFail drain receipt primary ->
    machine_step m (commit_fail t call drain receipt primary env m)
| ms_commit_fail_return t call c x primary m :
    m_commits m !! t = Some call -> cc_phase call = CFailWait c primary ->
    m_committed m !! c = Some x -> closed_chan (ca_finished x) = true ->
    machine_step m (commit_fail_return t call x primary m)
| ms_commit_complete t call drain err m :
    m_commits m !! t = Some call -> cc_phase call = CComplete drain err ->
    machine_step m (commit_complete t call drain err m)
| ms_fin_write c x env m :
    m_committed m !! c = Some x -> ca_finish x = FWrite -> machine_step m (fin_write c x env m)
| ms_fin_complete c x err m :
    m_committed m !! c = Some x -> ca_finish x = FComplete err ->
    machine_step m (fin_complete c x err m)
| ms_fin_publish c x err m :
    m_committed m !! c = Some x -> ca_finish x = FPublish err ->
    machine_step m (fin_publish c x err m)
| ms_fin_begin c x m :
    m_committed m !! c = Some x -> ca_finish x = FBegin -> machine_step m (fin_begin c x m)
| ms_fin_verdict c x m :
    m_committed m !! c = Some x -> ca_finish x = FVerdict ->
    verdict_known (m_gov m) (ca_attempt x) = true -> machine_step m (fin_verdict c x m)
| ms_fin_loopback_publish c x result m :
    m_committed m !! c = Some x -> ca_finish x = FWriter result ->
    (result = None -> closed_chan (ca_writerDone x) = true) ->
    machine_step m (fin_loopback_publish c x result m)
| ms_writer_hook c x hook m :
    m_committed m !! c = Some x -> ca_writer x = WHook ->
    machine_step m (writer_hook c x hook m)
| ms_writer_network c x hookErr m :
    m_committed m !! c = Some x -> ca_writer x = WNetwork hookErr ->
    machine_step m (writer_network c x hookErr m)
| ms_writer_await c x hookErr t m :
    m_committed m !! c = Some x -> ca_writer x = WAwait hookErr ->
    lease_terminal (m_gov m) (ca_attempt x) = Some t -> closed_chan (lt_networkDone t) = true ->
    machine_step m (writer_await c x hookErr t m)
| ms_writer_finish c x hookErr networkErr env m :
    m_committed m !! c = Some x -> ca_writer x = WFinish hookErr networkErr ->
    machine_step m (writer_finish c x hookErr networkErr env m)
| ms_writer_record c x hookErr networkErr finishErr m :
    m_committed m !! c = Some x -> ca_writer x = WRecord hookErr networkErr finishErr ->
    machine_step m (writer_record c x hookErr networkErr finishErr m)
| ms_writer_publish c x hookErr networkErr finishErr m :
    m_committed m !! c = Some x -> ca_writer x = WPublish hookErr networkErr finishErr ->
    machine_step m (writer_publish c x hookErr networkErr finishErr m)
| ms_writer_complete c x m :
    m_committed m !! c = Some x -> ca_writer x = WComplete ->
    machine_step m (writer_complete c x m)
| ms_token_start method m m' :
    token_start method m = Some m' -> machine_step m m'
| ms_token_validate t call x m :
    m_tokens m !! t = Some call -> tc_phase call = PValidate ->
    m_committed m !! tc_committed call = Some x -> machine_step m (token_validate t call x m)
| ms_token_terminal t call x m :
    m_tokens m !! t = Some call -> tc_phase call = PTerminal ->
    m_committed m !! tc_committed call = Some x -> closed_chan (ca_finished x) = true ->
    machine_step m (token_terminal t call x m)
| ms_token_refused t call x m :
    m_tokens m !! t = Some call -> tc_phase call = PRefused ->
    m_committed m !! tc_committed call = Some x -> closed_chan (ca_finished x) = true ->
    machine_step m (token_refused t call x m)
| ms_token_inspect t call x ctx held now fresh m :
    m_tokens m !! t = Some call -> tc_phase call = PInspect ->
    m_committed m !! tc_committed call = Some x ->
    machine_step m (token_inspect t call x ctx held now fresh m)
| ms_token_failed t call err m :
    m_tokens m !! t = Some call -> tc_phase call = PFailed err ->
    machine_step m (token_failed t call err m)
| ms_token_return t call x reason err m :
    m_tokens m !! t = Some call -> tc_phase call = PWait reason err ->
    m_committed m !! tc_committed call = Some x -> closed_chan (ca_finished x) = true ->
    machine_step m (token_return t call x reason err m)
(* [watchInvalidation]: the lease is stopping, its context is done, or the timer fired *)
| ms_watch c reason m :
    reason = PairingTerminalCancelled \/ reason = PairingTerminalExpired ->
    machine_step m (finish_start c reason m)
| ms_preFinish u a m :
    auth_ready u m = Some a -> machine_step m (RegisterLoopbackPreFinish a m).1.

(** A machine in which no pairing attempt has begun. *)
Definition machine_initial (m : Machine) : Prop :=
  reachable (m_gov m) /\ ledger_reachable (m_journal m) /\ m_committed m = ∅ /\ m_auths m = ∅ /\
  m_commits m = ∅ /\ m_tokens m = ∅.

Definition machine_reachable (m : Machine) : Prop :=
  exists m0, machine_initial m0 /\ rtc machine_step m0 m.
End gate.
