(* ===== verification/PairingGateInv.v ===== *)
(** * Invariants of the pairing admission gate

    Every transition of a [Machine] is a run of the governor and of the
    journal; the tokens keep the discipline of PairingGate.v. *)
From S2P Require Import Prelude GoStd Limits SafetyTrip Governor GovernorSteps GovernorInv GovernorMicro GovernorLocal GovernorThms Ledger LedgerSnapshot LedgerOps LedgerReplay LedgerEffects LedgerThms PairingGate.

(** ** Terminal selection *)

Definition ordinary_finish (p : finish_phase) : bool :=
  match p with FWrite | FComplete _ | FPublish _ => true | _ => false end.
Definition loopback_finish (p : finish_phase) : bool :=
  match p with FBegin | FVerdict | FWriter _ => true | _ => false end.
Definition writing (p : writer_phase) : bool := match p with WNone => false | _ => true end.
Definition written (p : writer_phase) : bool :=
  match p with WComplete | WEnd => true | _ => false end.
Definition is_done (p : finish_phase) : bool := match p with FDone => true | _ => false end.
Definition is_idle (p : finish_phase) : bool := match p with FIdle => true | _ => false end.

(** What holds of a token: a terminal reason is chosen exactly when [finish]
    has been entered, its channels are closed once, and only a loopback
    attempt has a writer. *)
Record token_ok (x : CommittedAttempt) : Prop := {
  to_idle : ca_terminalChosen x = negb (is_idle (ca_finish x));
  to_finished : ca_finished x = bool_nat (is_done (ca_finish x));
  to_writerDone : ca_writerDone x = bool_nat (written (ca_writer x));
  to_ordinary : ordinary_finish (ca_finish x) || is_idle (ca_finish x) = true ->
                ca_writer x = WNone;
  to_loopback : loopback_finish (ca_finish x) = true -> writing (ca_writer x) = true;
}.

Lemma new_token_ok a r q o d h :
  token_ok (mkCommitted a r q o d h false false no_terminal None 0 false 0 None FIdle WNone).
Proof. by split. Qed.

Lemma choose_ok reason loopback x :
  token_ok x -> ca_terminalChosen x = false -> token_ok (finish_choose reason loopback x).
Proof.
  intros [Hi Hf Hw Ho Hl] Hc. rewrite Hc in Hi. symmetry in Hi. apply negb_false_iff in Hi.
  assert (ca_finish x = FIdle) as Hx by (by destruct (ca_finish x)).
  rewrite Hx in *. specialize (Ho eq_refl). rewrite Ho in *.
  destruct loopback; split; simpl; try done; by rewrite Hf || rewrite Hw.
Qed.

#[export] Hint Resolve new_token_ok choose_ok : winkyou.

(** ** Frames *)

(** The tokens of a machine satisfy [P]. *)
Definition all_tokens (P : CommittedAttempt -> Prop) (m : Machine) : Prop :=
  forall c x, m_committed m !! c = Some x -> P x.

Lemma all_tokens_put P c x m :
  all_tokens P m -> P x -> all_tokens P (put_committed c x m).
Proof.
  intros H Hx d y. unfold put_committed. simpl.
  destruct (decide (c = d)) as [->|]; [rewrite lookup_insert_eq|rewrite lookup_insert_ne by done];
    [by intros [= <-]|apply H].
Qed.

(** Opens one transition into its branches; the new machine is then an explicit
    sequence of updates. *)
Ltac machine_unfold :=
  unfold commit_start, commit_register, commit_admit, commit_record, commit_post, commit_fail,
    commit_fail_return, commit_complete, fin_write, fin_complete, fin_loopback_publish,
    fin_publish, fin_begin, fin_verdict, writer_hook, writer_network, writer_await, writer_finish,
    writer_record, writer_publish, writer_complete, token_validate, token_terminal,
    token_refused, token_inspect, token_granted, token_failed, token_return,
    RegisterLoopbackPreFinish, set_commit, set_token, unlock in *.

Ltac break_machine :=
  repeat match goal with
  | |- context [match ?x with _ => _ end] =>
      lazymatch x with
      | context [match _ with _ => _ end] => fail
      | _ => let E := fresh "E" in destruct x eqn:E
      end
  end.

Ltac machine_cases Hs :=
  destruct Hs;
  try match goal with H : token_start _ _ = Some _ |- _ =>
    unfold token_start, auth_ready in H; break_matches_in H end;
  machine_unfold; break_machine.

Section inv.
Context {C : LedgerCodec} {St : TripStore} {F : Sprintf}.

(** What one transition does to the map of tokens: nothing, a new token, or a
    change of one of them that keeps what identifies it. *)
Definition same_identity (x y : CommittedAttempt) : Prop :=
  ca_attempt y = ca_attempt x /\ ca_receipt y = ca_receipt x /\ ca_request y = ca_request x /\
  ca_ownerInstanceID y = ca_ownerInstanceID x /\ ca_drain y = ca_drain x /\
  ca_hasContext y = ca_hasContext x /\
  (ca_terminalChosen x = true -> ca_terminalChosen y = true /\
     ca_terminalReason y = ca_terminalReason x) /\
  (ca_consumed x = true -> ca_consumed y = true).

#[export] Instance same_identity_preorder : PreOrder same_identity.
Proof.
  split; [intros x; by split_and!|].
  intros x y z (? & ? & ? & ? & ? & ? & Hxy & ?) (? & ? & ? & ? & ? & ? & Hyz & ?).
  split_and!; try congruence; auto. intros Hc. destruct (Hxy Hc) as [Hy ?].
  destruct (Hyz Hy). split; [done|congruence].
Qed.

(** ** The governor and the journal of a machine *)

Lemma loopback_step g g' a :
  reachable g -> gstep g g' -> is_loopback g a = true -> is_loopback g' a = true.
Proof.
  intros Hr Hst. pose proof (reachable_inv g Hr) as I.
  pose proof (gstep_inv_micros g g' Hst I) as Hm. unfold is_loopback, lease_terminal.
  destruct (g_aheap g !! a) as [l|] eqn:Hl; [|done].
  destruct (micros_grow g g' a l Hm (proj2 I) Hl) as (l' & -> & _ & _ & _ & _ & _ & Ht).
  destruct (al_terminal l); [|done]. intros _. by destruct (proj1 Ht) as [? ->].
Qed.

Lemma begin_step g a : is_loopback g a = true -> gstep g (beginAttemptStoppingLocked g a).
Proof.
  unfold is_loopback, lease_terminal. intros Hl.
  assert (beginAttemptStoppingLocked g a = AttemptLease_Close a g) as ->;
    [|apply step_AttemptLease_Close].
  unfold AttemptLease_Close. destruct (g_aheap g !! a) as [l|]; [|done].
  by destruct (al_terminal l).
Qed.

(** A transition moves the governor by at most one of its own steps. *)
Definition gov_move (g g' : Governor) : Prop := g' = g \/ gstep g g'.

Lemma inspect_move ctx a o e now fresh owner g :
  gov_move g (inspectPairingAttempt ctx a o e now fresh owner g).1.
Proof.
  unfold inspectPairingAttempt. repeat case_match; try (by left). right. apply step_refreshTrip.
Qed.

Lemma precheck_move ctx a q now fresh owner g :
  gov_move g (precheckPairingAdmission ctx a q now fresh owner g).1.
Proof. unfold precheckPairingAdmission. repeat case_match; try (by left). apply inspect_move. Qed.

Lemma postcheck_move ctx a q o now fresh owner g :
  gov_move g (postcheckPairingAdmission ctx a q o now fresh owner g).1.
Proof.
  unfold postcheckPairingAdmission.
  pose proof (inspect_move ctx a o (par_ExpiresAt q) now fresh owner g) as H.
  by destruct (inspectPairingAttempt _ _ _ _ _ _ _ _).
Qed.

Definition journal_move (f f' : journal) : Prop := f' = f \/ any_step f f'.

Lemma Admit_move owner env q f f' r : Admit owner env q f = (f', r) -> journal_move f f'.
Proof.
  intros H. right. exists owner. replace f' with (Admit owner env q f).1 by (by rewrite H).
  apply ls_Admit.
Qed.

Lemma Finish_move owner env rc reason f f' r :
  Finish owner env rc reason f = (f', r) -> journal_move f f'.
Proof.
  intros H. right. exists owner.
  replace f' with (Finish owner env rc reason f).1 by (by rewrite H). apply ls_Finish.
Qed.

Lemma finish_start_frame c reason m :
  let m' := finish_start c reason m in
  m_gov m' = m_gov m /\ m_journal m' = m_journal m /\ m_auths m' = m_auths m /\
  m_commits m' = m_commits m /\ m_tokens m' = m_tokens m /\ m_next m' = m_next m /\
  m_owner m' = m_owner m.
Proof.
  unfold finish_start. destruct (m_committed m !! c); [|done]. by destruct (ca_terminalChosen _).
Qed.

Record base (m : Machine) : Prop := {
  b_gov : reachable (m_gov m);
  b_journal : ledger_reachable (m_journal m);
  b_tokens : all_tokens token_ok m;
  b_writers : forall c x, m_committed m !! c = Some x -> writing (ca_writer x) = true ->
    is_loopback (m_gov m) (ca_attempt x) = true;
}.

(** Closes a goal about the result of a call from the lemma on its first
    component. *)
Ltac from_call lem :=
  match goal with E : ?f = (?g', _) |- _ ?g ?g' =>
    replace g' with f.1 by (by rewrite E); apply lem end.

Lemma step_gov m m' : machine_step m m' -> base m -> gov_move (m_gov m) (m_gov m').
Proof.
  intros Hs B. machine_cases Hs; simplify_eq; simpl; try (by left); try (by right);
    try (from_call precheck_move); try (from_call postcheck_move); try (from_call inspect_move);
    try (right; apply step_Complete); try (right; apply step_recordLoopbackFinishError);
    try (left; apply finish_start_frame).
  - right. from_call step_registerDrain.
  - right. from_call step_registerDrain.
  - right. apply begin_step. eapply b_writers; [done..|]. eapply to_loopback; [by eapply b_tokens|].
    by rewrite H0.
  - right. apply begin_step. eapply b_writers; [done..|]. by rewrite H0.
Qed.

Lemma step_journal m m' : machine_step m m' -> journal_move (m_journal m) (m_journal m').
Proof.
  intros Hs. machine_cases Hs; simplify_eq; simpl; try (by left); try (by eapply Admit_move);
    try (by eapply Finish_move); try (left; apply finish_start_frame).
  right. by exists owner.
Qed.

(** *** The tokens *)

(** One transition changes a token only along [same_identity]. *)
Lemma step_committed m m' c x :
  machine_step m m' -> (forall d, m_committed m !! d <> None -> (d < m_next m)%nat) ->
  m_committed m !! c = Some x ->
  exists y, m_committed m' !! c = Some y /\ same_identity x y.
Proof.
  intros Hs Hfresh Hx.
  assert (Hput : forall d z z', m_committed m !! d = Some z -> same_identity z z' ->
    exists y, <[d := z']> (m_committed m) !! c = Some y /\ same_identity x y).
  { intros d z z' Hd Hi. destruct (decide (d = c)) as [->|].
    - exists z'. rewrite lookup_insert_eq. split; [done|]. congruence.
    - exists x. by rewrite lookup_insert_ne. }
  assert (Hnew : forall z, exists y, <[m_next m := z]> (m_committed m) !! c = Some y /\
    same_identity x y).
  { intros z. exists x. rewrite lookup_insert_ne; [done|]. intros E.
    specialize (Hfresh c). rewrite Hx in Hfresh. specialize (Hfresh ltac:(done)). lia. }
  assert (Hfin : forall d reason, exists y,
    m_committed (finish_start d reason m) !! c = Some y /\ same_identity x y).
  { intros d reason. unfold finish_start. destruct (m_committed m !! d) as [z|] eqn:Hd;
      [|by exists x]. destruct (ca_terminalChosen z) eqn:Hc; [by exists x|]. simpl.
    eapply Hput; [done|]. split_and!; try done. by rewrite Hc. }
  machine_cases Hs; simplify_eq; simpl; try (by exists x); try apply Hnew; try apply Hfin;
    try (eapply Hput; [done|]; by split_and!).
Qed.

Lemma finish_start_all (P : CommittedAttempt -> Prop) c reason m :
  all_tokens P m ->
  (forall x l, m_committed m !! c = Some x -> ca_terminalChosen x = false -> P x ->
    P (finish_choose reason l x)) ->
  all_tokens P (finish_start c reason m).
Proof.
  intros H Hc. unfold finish_start. destruct (m_committed m !! c) as [x|] eqn:Hx; [|done].
  destruct (ca_terminalChosen x) eqn:Ht; [done|]. apply all_tokens_put; [done|].
  apply Hc; eauto.
Qed.

(** A token whose updates leave its phase alone. *)
Ltac ok_fields x B Hx :=
  pose proof (b_tokens _ B _ _ Hx) as []; split; simpl in *; congruence.

Lemma step_tokens m m' : machine_step m m' -> base m -> all_tokens token_ok m'.
Proof.
  intros Hs B. pose proof (b_tokens m B) as T.
  assert (Hfin : forall d reason, all_tokens token_ok (finish_start d reason m)).
  { intros d reason. apply finish_start_all; [done|]. intros. by apply choose_ok. }
  machine_cases Hs; simplify_eq; try done; try apply Hfin;
    try (refine (all_tokens_put _ _ _ m T _));
    try (match goal with H : m_committed m !! _ = Some ?y |- token_ok _ =>
      destruct (T _ _ H) as [Ti Tf Tw To Tl] end);
    try (match goal with H : ca_finish _ = _ |- _ => rewrite H in * end);
    try (match goal with H : ca_writer _ = _ |- _ => rewrite H in * end);
    try (apply new_token_ok); try (apply choose_ok; [apply new_token_ok|done]).
  all: try (split; simpl in *; try done; try congruence; try (rewrite ?Tf, ?Tw; done); fail).
  all: split; simpl in *; rewrite ?Tw; try done; intros Ho; by specialize (To Ho).
Qed.

Lemma gov_move_reachable g g' : gov_move g g' -> reachable g -> reachable g'.
Proof.
  intros [->|Hst]; [done|]. intros (g0 & Hi & Hr). exists g0. split; [done|]. by eapply rtc_r.
Qed.

Lemma gov_move_loopback g g' a :
  reachable g -> gov_move g g' -> is_loopback g a = true -> is_loopback g' a = true.
Proof. intros Hr [->|Hst]; [done|]. by eapply loopback_step. Qed.

Lemma step_writers m m' : machine_step m m' -> base m ->
  forall c x, m_committed m' !! c = Some x -> writing (ca_writer x) = true ->
  is_loopback (m_gov m') (ca_attempt x) = true.
Proof.
  intros Hs B. pose proof (step_gov m m' Hs B) as Hg.
  assert (W : forall c x, m_committed m !! c = Some x -> writing (ca_writer x) = true ->
    is_loopback (m_gov m') (ca_attempt x) = true).
  { intros c x Hx Hw. eapply gov_move_loopback; [apply B|done|]. by eapply b_writers. }
  assert (L : forall a, is_loopback (m_gov m) a = true -> is_loopback (m_gov m') a = true).
  { intros a. eapply gov_move_loopback; [apply B|done]. }
  assert (Hput : forall d z, (writing (ca_writer z) = true ->
      is_loopback (m_gov m') (ca_attempt z) = true) ->
    forall c x, <[d := z]> (m_committed m) !! c = Some x -> writing (ca_writer x) = true ->
    is_loopback (m_gov m') (ca_attempt x) = true).
  { intros d z Hz c x. destruct (decide (d = c)) as [->|].
    - rewrite lookup_insert_eq. by intros [= <-].
    - rewrite lookup_insert_ne by done. apply W. }
  assert (Hfin : forall d reason c x, m_committed (finish_start d reason m) !! c = Some x ->
    writing (ca_writer x) = true -> is_loopback (m_gov m') (ca_attempt x) = true).
  { intros d reason. unfold finish_start. destruct (m_committed m !! d) as [z|] eqn:Hd;
      [|apply W]. destruct (ca_terminalChosen z); [apply W|]. apply Hput. simpl.
    destruct (is_loopback (m_gov m) (ca_attempt z)) eqn:E; [|done]. intros _. by apply L. }
  clear Hg. machine_cases Hs; simplify_eq; simpl in *; try apply W; try apply Hfin; try apply Hput;
    simpl; try done; try (by eapply W); try (by intros _; apply L);
    intros _; eapply W; try done;
    match goal with H : ca_writer _ = _ |- _ => by rewrite H end.
Qed.

Lemma step_base m m' : machine_step m m' -> base m -> base m'.
Proof.
  intros Hs B. split.
  - eapply gov_move_reachable; [by apply step_gov|apply B].
  - destruct (step_journal m m' Hs) as [->|[owner Hj]]; [apply B|].
    eapply lr_step; [apply B|done].
  - by eapply step_tokens.
  - by eapply step_writers.
Qed.

(** ** Fresh identifiers *)

Definition below {A} (n : nat) (M : gmap nat A) : Prop := forall k, is_Some (M !! k) -> (k < n)%nat.

Lemma below_insert {A} n n' (M : gmap nat A) k v :
  below n M -> (n <= n')%nat -> (k < n')%nat -> below n' (<[k := v]> M).
Proof.
  intros H Hn Hk j. destruct (decide (k = j)) as [->|]; [done|].
  rewrite lookup_insert_ne by done. intros Hj. specialize (H j Hj). lia.
Qed.

Lemma below_le {A} n n' (M : gmap nat A) : below n M -> (n <= n')%nat -> below n' M.
Proof. intros H Hn k Hk. specialize (H k Hk). lia. Qed.

Record fresh_at (n : nat) (m : Machine) : Prop := {
  fi_committed : below n (m_committed m);
  fi_auths : below n (m_auths m);
  fi_commits : below n (m_commits m);
  fi_tokens : below n (m_tokens m);
}.
Definition fresh_ids (m : Machine) : Prop := fresh_at (m_next m) m.

Lemma fresh_le n n' m : fresh_at n m -> (n <= n')%nat -> fresh_at n' m.
Proof. intros []. split; by eapply below_le. Qed.

Lemma fresh_committed n c x m : fresh_at n m -> (c < n)%nat -> fresh_at n (put_committed c x m).
Proof. intros []. split; try done. by eapply below_insert. Qed.
Lemma fresh_auth n c x m : fresh_at n m -> (c < n)%nat -> fresh_at n (put_auth c x m).
Proof. intros []. split; try done. by eapply below_insert. Qed.
Lemma fresh_commit n c x m : fresh_at n m -> (c < n)%nat -> fresh_at n (put_commit c x m).
Proof. intros []. split; try done. by eapply below_insert. Qed.
Lemma fresh_token n c x m : fresh_at n m -> (c < n)%nat -> fresh_at n (put_token c x m).
Proof. intros []. split; try done. by eapply below_insert. Qed.
Lemma fresh_keep n m m' : fresh_at n m -> m_committed m' = m_committed m ->
  m_auths m' = m_auths m -> m_commits m' = m_commits m -> m_tokens m' = m_tokens m ->
  fresh_at n m'.
Proof. intros [] E1 E2 E3 E4. split; by rewrite ?E1, ?E2, ?E3, ?E4. Qed.

Lemma below_lookup {A} n (M : gmap nat A) k v : below n M -> M !! k = Some v -> (k < n)%nat.
Proof. intros H Hk. apply H. by exists v. Qed.

Lemma fresh_finish n c reason m : fresh_at n m -> fresh_at n (finish_start c reason m).
Proof.
  intros H. unfold finish_start. destruct (m_committed m !! c) eqn:E; [|done].
  destruct (ca_terminalChosen _); [done|]. apply fresh_committed; [done|].
  eapply below_lookup; [apply H|done].
Qed.

Lemma step_fresh m m' : machine_step m m' -> fresh_ids m -> fresh_ids m'.
Proof.
  intros Hs Hf. pose proof Hf as [H1 H2 H3 H4]. unfold fresh_ids in Hf.
  pose proof (fresh_le _ (S (m_next m)) _ Hf ltac:(lia)) as Hf'.
  pose proof (fun A => @below_lookup A (m_next m)) as Hin.
  assert (Hnx : forall c reason, m_next (finish_start c reason m) = m_next m)
    by (intros; apply finish_start_frame).
  machine_cases Hs; simplify_eq; unfold fresh_ids; simpl; rewrite ?Hnx;
    repeat first
      [ exact Hf | exact Hf'
      | apply fresh_committed | apply fresh_auth | apply fresh_commit | apply fresh_token
      | apply fresh_finish
      | match goal with |- fresh_at _ (fresh_next ?n) => apply (fresh_keep _ n); [|done..] end
      | match goal with |- fresh_at _ (with_gov _ ?n) => apply (fresh_keep _ n); [|done..] end
      | match goal with |- fresh_at _ (with_journal _ ?n) =>
          apply (fresh_keep _ n); [|done..] end ];
    try lia; try (eapply Hin; [|eassumption]; assumption);
    apply Nat.lt_lt_succ_r; (eapply Hin; [|eassumption]; assumption).
Qed.

(** ** Durable admissions behind the tokens *)

Context {CL : LedgerCodecLaws C}.

(** The journal holds the burn record of [request] that [rc] is the receipt of. *)
Definition burned (owner : string) (request : PairingAdmissionRequest)
    (rc : PairingAdmissionReceipt) (f : journal) : Prop :=
  holds_record (mkRecord pairingLedgerSchemaVersion (rc_sequence rc) pairingRecordBurnAndAdmit
    (rc_committedAt rc) (par_RecordClass request) (par_CredentialID request)
    (par_AttemptID request) (par_ContextDigest request) owner ScopeMachine
    (UTC (par_ExpiresAt request)) (par_Envelope request) no_terminal "") f /\
  rc_credentialID rc = par_CredentialID request /\ rc_attemptID rc = par_AttemptID request /\
  rc_ownerInstanceID rc = owner.

Lemma journal_move_holds r f f' : journal_move f f' -> holds_record r f -> holds_record r f'.
Proof.
  intros [->|Hs]; [done|]. apply steps_hold. by apply rtc_once.
Qed.

Lemma journal_move_burned owner q rc f f' :
  journal_move f f' -> burned owner q rc f -> burned owner q rc f'.
Proof. intros Hm [H ?]. split; [|done]. by eapply journal_move_holds. Qed.

Lemma Admit_burned owner env q f f' rc :
  Admit owner env q f = (f', Ok rc) ->
  burned owner q rc f' /\
  forall owner' q' rc', burned owner' q' rc' f -> rc_credentialID rc' <> rc_credentialID rc.
Proof.
  intros H. destruct (Admit_Ok _ _ _ _ _ _ H) as (data & s & records & frame & now & -> & S &
    _ & _ & He & [_ Hw] & Hn & _ & -> & _ & _ & ->). simpl.
  destruct (Hw eq_refl) as [_ Hfresh]. split.
  - split; [|done]. intros d rs [= <-] Hd. simpl.
    rewrite (decode_append data records (burn_record owner s now q) frame) in Hd;
      [|apply S|done|lia].
    injection Hd as <-. apply elem_of_app. right. apply list_elem_of_singleton.
    unfold burn_record. by rewrite (snapshot_next _ _ _ _ S).
  - intros owner' q' rc' (Hh & -> & _). set (r := mkRecord _ _ _ _ _ _ _ _ _ _ _ _ _ _) in Hh.
    assert (Hin : r ∈ List.filter is_burn records).
    { apply list_elem_of_In, List.filter_In. split; [|done]. apply list_elem_of_In.
      eapply Hh; [done|]. apply S. }
    destruct (Hfresh r Hin) as [Hne _]. simpl in Hne. congruence.
Qed.

(** The lease the gate was given carries the request's identifier and cost. *)
Definition lease_matches (g : Governor) (a : ptr) (q : PairingAdmissionRequest) : Prop :=
  exists l, g_aheap g !! a = Some l /\ par_AttemptID q = req_ID (al_request l) /\
    par_Envelope q = PairingEnvelopeFromAttemptCost (req_Cost (al_request l)).

Lemma gov_move_matches g g' a q :
  reachable g -> gov_move g g' -> lease_matches g a q -> lease_matches g' a q.
Proof.
  intros Hr [->|Hst]; [done|]. intros (l & Hl & H1 & H2). pose proof (reachable_inv g Hr) as I.
  destruct (micros_grow g g' a l (gstep_inv_micros g g' Hst I) (proj2 I) Hl)
    as (l' & Hl' & Hreq & _). exists l'. by rewrite Hreq.
Qed.

Lemma precheck_matches ctx a q now fresh owner g o g' :
  precheckPairingAdmission ctx a q now fresh owner g = (g', Ok o) -> lease_matches g a q.
Proof.
  unfold precheckPairingAdmission. destruct (g_aheap g !! a) as [l|] eqn:Hl; [|done].
  destruct (negb (bool_decide (par_AttemptID q = _))) eqn:H1; [done|].
  destruct (negb (bool_decide (par_Envelope q = _))) eqn:H2; [done|]. intros _.
  apply negb_false_iff, bool_decide_eq_true in H1, H2. by exists l.
Qed.

Definition call_receipt (p : commit_phase) : option PairingAdmissionReceipt :=
  match p with CPost _ _ _ rc | CFail _ rc _ => Some rc | _ => None end.
Definition call_live (p : commit_phase) : bool :=
  match p with CRegister _ | CAdmit _ _ | CPost _ _ _ _ => true | _ => false end.

Record call_ok (m : Machine) (call : commit_call) : Prop := {
  co_live : call_live (cc_phase call) = true ->
    lease_matches (m_gov m) (cc_attempt call) (cc_request call);
  co_burned : forall rc, call_receipt (cc_phase call) = Some rc ->
    burned (m_owner m) (cc_request call) rc (m_journal m);
}.

Definition backed (m : Machine) (x : CommittedAttempt) : Prop :=
  exists q, burned (m_owner m) q (ca_receipt x) (m_journal m) /\
    (ca_hasContext x = true -> q = ca_request x /\ lease_matches (m_gov m) (ca_attempt x) q).

Record durable (m : Machine) : Prop := {
  du_calls : forall t call, m_commits m !! t = Some call -> call_ok m call;
  du_tokens : forall c x, m_committed m !! c = Some x -> backed m x;
}.

Lemma step_owner m m' : machine_step m m' -> m_owner m' = m_owner m.
Proof.
  intros Hs. machine_cases Hs; simplify_eq; try done; simpl; apply finish_start_frame.
Qed.

Lemma step_durable_tokens m m' : machine_step m m' -> base m -> fresh_ids m -> durable m ->
  forall c x, m_committed m' !! c = Some x -> backed m' x.
Proof.
  intros Hs B Hf D.
  pose proof (step_gov m m' Hs B) as Hg. pose proof (step_journal m m' Hs) as Hj.
  pose proof (step_owner m m' Hs) as Ho.
  assert (W : forall c x, m_committed m !! c = Some x -> backed m' x).
  { intros c x Hx. destruct (du_tokens m D c x Hx) as (q & Hb & Hq). exists q.
    rewrite Ho. split; [by eapply journal_move_burned|]. intros Hc. destruct (Hq Hc). split; [done|].
    eapply gov_move_matches; [apply B|done|done]. }
  assert (Hput : forall d y z, m_committed m !! d = Some y -> same_identity y z ->
    forall c x, <[d := z]> (m_committed m) !! c = Some x -> backed m' x).
  { intros d y z Hd (E1 & E2 & E3 & E4 & E5 & E6 & _) c x. destruct (decide (d = c)) as [->|].
    - rewrite lookup_insert_eq. intros [= <-]. destruct (W c y Hd) as (q & Hb & Hq). exists q.
      by rewrite E1, E2, E3, E6.
    - rewrite lookup_insert_ne by done. apply W. }
  assert (Hfin : forall d reason c x, m_committed (finish_start d reason m) !! c = Some x ->
    backed m' x).
  { intros d reason. unfold finish_start. destruct (m_committed m !! d) as [z|] eqn:Hd;
      [|apply W]. destruct (ca_terminalChosen z) eqn:Hc; [apply W|]. eapply Hput; [done|].
    split_and!; try done. by rewrite Hc. }
  assert (Hnew : forall t call rc d z, m_commits m !! t = Some call ->
    call_receipt (cc_phase call) = Some rc -> ca_receipt z = rc ->
    (ca_hasContext z = true -> call_live (cc_phase call) = true /\
       ca_request z = cc_request call /\ ca_attempt z = cc_attempt call) ->
    forall c x, <[d := z]> (m_committed m) !! c = Some x -> backed m' x).
  { intros t call rc d z Ht Hrc Ez Hz c x. destruct (decide (d = c)) as [->|].
    - rewrite lookup_insert_eq. intros [= <-]. destruct (du_calls m D t call Ht) as [Hl Hb].
      exists (cc_request call). rewrite Ho, Ez. split.
      + eapply journal_move_burned; [done|]. by apply Hb.
      + intros Hc. destruct (Hz Hc) as (H1 & H2 & H3). split; [done|]. rewrite H3.
        eapply gov_move_matches; [apply B|done|by apply Hl].
    - rewrite lookup_insert_ne by done. apply W. }
  clear Hg Hj Ho.
  machine_cases Hs; simplify_eq; simpl in *; try apply W; try apply Hfin;
    try (eapply Hput; [eassumption|]; by split_and!).
  - eapply Hnew; [eassumption|by rewrite H0|done|]. intros _. by rewrite H0.
  - by eapply Hnew; [eassumption|by rewrite H0|done|].
Qed.

Lemma call_ok_move m m' call :
  base m -> gov_move (m_gov m) (m_gov m') -> journal_move (m_journal m) (m_journal m') ->
  m_owner m' = m_owner m -> call_ok m call -> call_ok m' call.
Proof.
  intros B Hg Hj Ho [Hl Hb]. split.
  - intros Hc. eapply gov_move_matches; [apply B|done|by apply Hl].
  - intros rc Hc. rewrite Ho. eapply journal_move_burned; [done|by apply Hb].
Qed.

Lemma step_durable_calls m m' : machine_step m m' -> base m -> fresh_ids m -> durable m ->
  forall t call, m_commits m' !! t = Some call -> call_ok m' call.
Proof.
  intros Hs B Hf D.
  pose proof (step_gov m m' Hs B) as Hg. pose proof (step_journal m m' Hs) as Hj.
  pose proof (step_owner m m' Hs) as Ho.
  assert (W : forall t call, m_commits m !! t = Some call -> call_ok m' call).
  { intros t call Ht. eapply call_ok_move; [done..|]. by eapply du_calls. }
  assert (Hput : forall t z, call_ok m' z ->
    forall t' call, <[t := z]> (m_commits m) !! t' = Some call -> call_ok m' call).
  { intros t z Hz t' call. destruct (decide (t = t')) as [->|].
    - rewrite lookup_insert_eq. by intros [= <-].
    - rewrite lookup_insert_ne by done. apply W. }
  assert (Hold : forall t call p, m_commits m !! t = Some call ->
    (call_live p = true -> call_live (cc_phase call) = true) ->
    (forall rc, call_receipt p = Some rc -> call_receipt (cc_phase call) = Some rc) ->
    call_ok m' (mkCommit (cc_attempt call) (cc_request call) p)).
  { intros t call p Ht H1 H2. destruct (W t call Ht) as [Hl Hb]. split; simpl; auto. }
  assert (Hdead : forall a q p, call_live p = false -> call_receipt p = None ->
    call_ok m' (mkCommit a q p)).
  { intros a q p H1 H2. split; simpl; congruence. }
  assert (L : forall a q, lease_matches (m_gov m) a q -> lease_matches (m_gov m') a q).
  { intros a q. eapply gov_move_matches; [apply B|done]. }
  clear Hg Hj Ho.
  machine_cases Hs; simplify_eq; simpl in *;
    try (destruct (finish_start_frame c reason m) as (_ & _ & _ & -> & _));
    try (destruct (finish_start_frame (au_committed c) reason m) as (_ & _ & _ & -> & _));
    try (destruct (finish_start_frame (tc_committed call)
      (pairingTerminalReasonForGateError err) m) as (_ & _ & _ & -> & _));
    try exact W; apply Hput; try (by apply Hdead);
    try (eapply Hold; [eassumption|rewrite H0; by simpl|rewrite H0; by simpl]).
  - split; simpl; [|done]. intros _. apply L. by eapply precheck_matches.
  - destruct (W t call H) as [Hl Hb]. rewrite H0 in Hl. split; simpl; [auto|].
    intros rc [= <-]. by apply (Admit_burned _ _ _ _ _ _ E).
Qed.

Lemma step_durable m m' : machine_step m m' -> base m -> fresh_ids m -> durable m -> durable m'.
Proof. intros. split; [by eapply step_durable_calls|by eapply step_durable_tokens]. Qed.

(** ** One holder per credential *)

(** The calls of [Commit] and the tokens that hold a receipt. *)
Definition holder (m : Machine) (k : nat + ptr) (rc : PairingAdmissionReceipt) : Prop :=
  match k with
  | inl t => exists call, m_commits m !! t = Some call /\ call_receipt (cc_phase call) = Some rc
  | inr c => exists x, m_committed m !! c = Some x /\ ca_receipt x = rc
  end.

Definition unique_holders (m : Machine) : Prop :=
  forall k k' rc rc', holder m k rc -> holder m k' rc' ->
    rc_credentialID rc = rc_credentialID rc' -> k = k'.

(** How a transition changes the holders: it adds none, [Admit] adds one, or a
    call hands its receipt to a new token. *)
Inductive holders_move (m m' : Machine) : Prop :=
| hm_same : (forall k rc, holder m' k rc -> holder m k rc) -> holders_move m m'
| hm_admit t env q rc :
    Admit (m_owner m) env q (m_journal m) = (m_journal m', Ok rc) ->
    (forall k rc', holder m' k rc' -> holder m k rc' \/ k = inl t /\ rc' = rc) ->
    holders_move m m'
| hm_mint t c rc :
    holder m (inl t) rc ->
    (forall k rc', holder m' k rc' -> k <> inl t /\ holder m k rc' \/ k = inr c /\ rc' = rc) ->
    holders_move m m'.

Lemma holder_put_commit m m' t call p :
  m_commits m' = <[t := mkCommit (cc_attempt call) (cc_request call) p]> (m_commits m) ->
  m_committed m' = m_committed m -> m_commits m !! t = Some call ->
  call_receipt p = None \/ call_receipt p = call_receipt (cc_phase call) ->
  forall k rc, holder m' k rc -> holder m k rc.
Proof.
  intros Hc Hd Ht Hp [u|c] rc; simpl; [|by rewrite Hd]. rewrite Hc. intros (call' & Hl & Hr).
  destruct (decide (t = u)) as [->|]; [|rewrite lookup_insert_ne in Hl by done; eauto].
  rewrite lookup_insert_eq in Hl. injection Hl as <-. simpl in Hr. exists call.
  split; [done|]. destruct Hp; congruence.
Qed.

Lemma holder_new_commit m m' t a q p :
  m_commits m' = <[t := mkCommit a q p]> (m_commits m) ->
  m_committed m' = m_committed m -> call_receipt p = None ->
  forall k rc, holder m' k rc -> holder m k rc.
Proof.
  intros Hc Hd Hp [u|c] rc; simpl; [|by rewrite Hd]. rewrite Hc. intros (call' & Hl & Hr).
  destruct (decide (t = u)) as [->|]; [|rewrite lookup_insert_ne in Hl by done; eauto].
  rewrite lookup_insert_eq in Hl. injection Hl as <-. simpl in Hr. congruence.
Qed.

Lemma holder_put_committed m m' c x y :
  m_commits m' = m_commits m -> m_committed m' = <[c := y]> (m_committed m) ->
  m_committed m !! c = Some x -> ca_receipt y = ca_receipt x ->
  forall k rc, holder m' k rc -> holder m k rc.
Proof.
  intros Hc Hd Hx Hp [u|d] rc; simpl; [by rewrite Hc|]. rewrite Hd. intros (z & Hl & Hr).
  destruct (decide (c = d)) as [->|]; [|rewrite lookup_insert_ne in Hl by done; eauto].
  rewrite lookup_insert_eq in Hl. injection Hl as <-. exists x. split; [done|congruence].
Qed.

Lemma holder_same m m' :
  m_commits m' = m_commits m -> m_committed m' = m_committed m ->
  forall k rc, holder m' k rc -> holder m k rc.
Proof. intros Hc Hd [u|d] rc; simpl; by rewrite ?Hc, ?Hd. Qed.

Lemma holder_finish c reason m k rc : holder (finish_start c reason m) k rc -> holder m k rc.
Proof.
  unfold finish_start. destruct (m_committed m !! c) as [x|] eqn:Hx; [|done].
  destruct (ca_terminalChosen x); [done|]. by eapply holder_put_committed.
Qed.

Lemma holder_mint m m' t call rc p c y :
  m_commits m' = <[t := mkCommit (cc_attempt call) (cc_request call) p]> (m_commits m) ->
  m_committed m' = <[c := y]> (m_committed m) -> m_commits m !! t = Some call ->
  call_receipt (cc_phase call) = Some rc -> call_receipt p = None -> ca_receipt y = rc ->
  holders_move m m'.
Proof.
  intros Hc Hd Ht Hrc Hp Hy. apply (hm_mint _ _ t c rc); [by exists call|].
  intros [u|d] rc'; simpl; rewrite ?Hc, ?Hd; intros (z & Hl & Hr).
  - left. destruct (decide (t = u)) as [->|].
    + rewrite lookup_insert_eq in Hl. injection Hl as <-. simpl in Hr. congruence.
    + rewrite lookup_insert_ne in Hl by done. split; [congruence|]. by exists z.
  - destruct (decide (c = d)) as [->|].
    + right. rewrite lookup_insert_eq in Hl. injection Hl as <-. split; [done|congruence].
    + left. rewrite lookup_insert_ne in Hl by done. split; [done|]. by exists z.
Qed.

Lemma step_holders m m' : machine_step m m' -> holders_move m m'.
Proof.
  intros Hs. machine_cases Hs; simplify_eq;
    try (apply hm_same; by apply holder_same);
    try (apply hm_same; eapply holder_put_committed; [done|done|eassumption|done]; fail);
    try (apply hm_same; eapply holder_put_commit;
         [done|done|eassumption|first [by left|right; by rewrite H0]]; fail);
    try (apply hm_same; by eapply holder_new_commit);
    try (eapply holder_mint; [done|done|eassumption|by rewrite H0|done|done]; fail);
    try (apply hm_same; intros k rc Hh; eapply holder_finish, Hh).
  eapply (hm_admit _ _ t); [simpl; eassumption|].
  intros [u|d] rc'; simpl; intros (z & Hl & Hr); [|left; by exists z].
  destruct (decide (t = u)) as [->|].
  - rewrite lookup_insert_eq in Hl. injection Hl as <-. simpl in Hr. right. split; congruence.
  - rewrite lookup_insert_ne in Hl by done. left. by exists z.
Qed.

Lemma holder_burned m k rc : durable m -> holder m k rc ->
  exists q, burned (m_owner m) q rc (m_journal m).
Proof.
  intros D. destruct k as [t|c]; simpl.
  - intros (call & Ht & Hr). exists (cc_request call). by eapply (co_burned m), Hr; eapply du_calls.
  - intros (x & Hx & <-). destruct (du_tokens m D c x Hx) as (q & Hb & _). by exists q.
Qed.

Lemma step_unique m m' :
  machine_step m m' -> durable m -> unique_holders m -> unique_holders m'.
Proof.
  intros Hs D U k k' rc rc' H1 H2 Hc.
  destruct (step_holders m m' Hs) as [Hsame|t env q r Ha Hadd|t c r Ht Hmint].
  - by eapply U; eauto.
  - destruct (Admit_burned _ _ _ _ _ _ Ha) as [_ Hne].
    assert (Hno : forall k x, holder m k x -> rc_credentialID x <> rc_credentialID r).
    { intros j x Hx. destruct (holder_burned m j x D Hx) as [q' Hb]. by eapply Hne. }
    destruct (Hadd k rc H1) as [H1'|[-> ->]], (Hadd k' rc' H2) as [H2'|[-> ->]].
    + by eapply U; eauto.
    + by destruct (Hno k rc H1').
    + by destruct (Hno k' rc' H2').
    + done.
  - destruct (Hmint k rc H1) as [[Hk H1']|[-> ->]], (Hmint k' rc' H2) as [[Hk' H2']|[-> ->]].
    + by eapply U; eauto.
    + destruct Hk. by eapply U.
    + destruct Hk'. by eapply U; eauto.
    + done.
Qed.

(** ** One authorization per token *)

(** The token a call of [ConsumeForCarrier] may still turn into an
    authorization. *)
Definition consuming (call : token_call) : option ptr :=
  match tc_method call, tc_phase call with
  | ConsumeForCarrier c, (PValidate | PTerminal | PInspect) => Some c
  | _, _ => None
  end.

Definition consumer (m : Machine) (k : nat + ptr) (c : ptr) : Prop :=
  match k with
  | inl t => exists call, m_tokens m !! t = Some call /\ consuming call = Some c
  | inr u => exists x, m_auths m !! u = Some x /\ au_committed x = c
  end.

Definition is_consumed (m : Machine) (c : ptr) : Prop :=
  exists x, m_committed m !! c = Some x /\ ca_consumed x = true.

Record consumers_ok (m : Machine) : Prop := {
  cs_unique : forall k k' c, consumer m k c -> consumer m k' c -> k = k';
  cs_consumed : forall k c, consumer m k c -> is_consumed m c;
}.

Inductive consumers_move (m m' : Machine) : Prop :=
| cm_same : (forall k c, consumer m' k c -> consumer m k c) -> consumers_move m m'
| cm_start t c : ~ is_consumed m c -> is_consumed m' c ->
    (forall k c', consumer m' k c' -> consumer m k c' \/ k = inl t /\ c' = c) ->
    consumers_move m m'
| cm_grant t u c : consumer m (inl t) c ->
    (forall k c', consumer m' k c' -> k <> inl t /\ consumer m k c' \/ k = inr u /\ c' = c) ->
    consumers_move m m'.

Lemma consumer_same m m' :
  m_tokens m' = m_tokens m -> m_auths m' = m_auths m ->
  forall k c, consumer m' k c -> consumer m k c.
Proof. intros Hc Hd [u|d] c; simpl; by rewrite ?Hc, ?Hd. Qed.

Lemma consumer_put_token m m' t call p :
  m_tokens m' = <[t := mkToken (tc_method call) (tc_committed call) p]> (m_tokens m) ->
  m_auths m' = m_auths m -> m_tokens m !! t = Some call ->
  (forall c, consuming (mkToken (tc_method call) (tc_committed call) p) = Some c ->
     consuming call = Some c) ->
  forall k c, consumer m' k c -> consumer m k c.
Proof.
  intros Hc Hd Ht Hp [u|d] c; simpl; [|by rewrite Hd]. rewrite Hc. intros (z & Hl & Hr).
  destruct (decide (t = u)) as [->|]; [|rewrite lookup_insert_ne in Hl by done; eauto].
  rewrite lookup_insert_eq in Hl. injection Hl as <-. exists call. eauto.
Qed.

Lemma consumer_new_token m m' t call :
  m_tokens m' = <[t := call]> (m_tokens m) -> m_auths m' = m_auths m -> consuming call = None ->
  forall k c, consumer m' k c -> consumer m k c.
Proof.
  intros Hc Hd Hp [u|d] c; simpl; [|by rewrite Hd]. rewrite Hc. intros (z & Hl & Hr).
  destruct (decide (t = u)) as [->|]; [|rewrite lookup_insert_ne in Hl by done; eauto].
  rewrite lookup_insert_eq in Hl. injection Hl as <-. congruence.
Qed.

Lemma consumer_token_auth m m' t call u x y :
  m_tokens m' = <[t := call]> (m_tokens m) -> m_auths m' = <[u := y]> (m_auths m) ->
  consuming call = None -> m_auths m !! u = Some x -> au_committed y = au_committed x ->
  forall k c, consumer m' k c -> consumer m k c.
Proof.
  intros Hc Hd Hp Hx Hy [v|d] c; simpl; rewrite ?Hc, ?Hd; intros (z & Hl & Hr).
  - destruct (decide (t = v)) as [->|]; [|rewrite lookup_insert_ne in Hl by done; eauto].
    rewrite lookup_insert_eq in Hl. injection Hl as <-. congruence.
  - destruct (decide (u = d)) as [->|]; [|rewrite lookup_insert_ne in Hl by done; eauto].
    rewrite lookup_insert_eq in Hl. injection Hl as <-. exists x. split; [done|congruence].
Qed.

Lemma consumer_grant m m' t call c p u b b' :
  m_tokens m !! t = Some call -> tc_method call = ConsumeForCarrier c ->
  tc_phase call = PInspect ->
  m_tokens m' = <[t := mkToken (ConsumeForCarrier c) (tc_committed call) (PDone p)]>
    (m_tokens m) ->
  m_auths m' = <[u := mkAuthorization c b b']> (m_auths m) ->
  consumers_move m m'.
Proof.
  intros Ht Hm Hp Hc Hd. apply (cm_grant _ _ t u c).
  { exists call. split; [done|]. unfold consuming. by rewrite Hm, Hp. }
  intros [v|d] c'; simpl; rewrite ?Hc, ?Hd; intros (z & Hl & Hr).
  - destruct (decide (t = v)) as [->|].
    + rewrite lookup_insert_eq in Hl. injection Hl as <-. done.
    + rewrite lookup_insert_ne in Hl by done. left. split; [congruence|]. by exists z.
  - destruct (decide (u = d)) as [->|].
    + right. rewrite lookup_insert_eq in Hl. injection Hl as <-. by split.
    + left. rewrite lookup_insert_ne in Hl by done. split; [done|]. by exists z.
Qed.

Lemma step_consumers m m' : machine_step m m' -> consumers_move m m'.
Proof.
  intros Hs.
  assert (Ff : forall c reason, m_tokens (finish_start c reason m) = m_tokens m /\
    m_auths (finish_start c reason m) = m_auths m)
    by (intros; split; apply finish_start_frame).
  machine_cases Hs; simplify_eq;
    try (apply cm_same; by apply consumer_same);
    try (apply cm_same; apply consumer_same; simpl; apply Ff);
    try (apply cm_same; by eapply consumer_new_token);
    try (apply cm_same; eapply consumer_new_token; simpl; [by rewrite (proj1 (Ff _ _))|
           by apply Ff|done]; fail);
    try (apply cm_same; eapply consumer_put_token; simpl;
      [done|done|eassumption|unfold consuming; simpl; rewrite ?H0; by simpl]; fail);
    try (apply cm_same; eapply consumer_new_token; simpl;
      [done|done|unfold consuming; simpl; by destruct (tc_method call)]; fail);
    try (eapply consumer_grant; simpl; done);
    try (apply cm_same; eapply consumer_token_auth; simpl; [done|done|done|eassumption|done]).
  - apply (cm_start _ _ (m_next m) c).
    + intros (x & Hx & Hc). congruence.
    + eexists. simpl. rewrite lookup_insert_eq. by split.
    + intros [v|d] c'; simpl; intros (z & Hl & Hr); [|left; by exists z].
      destruct (decide (m_next m = v)) as [<-|].
      * rewrite lookup_insert_eq in Hl. injection Hl as <-. right. split; [done|].
        unfold consuming in Hr. simpl in Hr. congruence.
      * rewrite lookup_insert_ne in Hl by done. left. by exists z.
  - apply cm_same. eapply consumer_new_token; simpl; [by rewrite (proj1 (Ff _ _))|by apply Ff|].
    unfold consuming. simpl. by destruct (tc_method call).
Qed.

Lemma fresh_committed_lt m d : fresh_ids m -> m_committed m !! d <> None -> (d < m_next m)%nat.
Proof. intros Hf Hd. apply (fi_committed _ m Hf). by apply not_eq_None_Some. Qed.

Lemma consumed_move m m' c : machine_step m m' -> fresh_ids m -> is_consumed m c -> is_consumed m' c.
Proof.
  intros Hs Hf (x & Hx & Hc).
  destruct (step_committed m m' c x Hs (fun d => fresh_committed_lt m d Hf) Hx)
    as (y & Hy & _ & _ & _ & _ & _ & _ & _ & Hi). exists y. auto.
Qed.

Lemma step_consumers_ok m m' :
  machine_step m m' -> fresh_ids m -> consumers_ok m -> consumers_ok m'.
Proof.
  intros Hs Hf [U W]. pose proof (fun c => consumed_move m m' c Hs Hf) as Hmv.
  destruct (step_consumers m m' Hs) as [Hsame|t c Hno Hyes Hadd|t u c Ht Hgr]; split.
  - intros; by eapply U; eauto.
  - intros; eauto.
  - intros k k' c' H1 H2.
    destruct (Hadd k c' H1) as [H1'|[-> ->]], (Hadd k' _ H2) as [H2'|[-> Hc]]; subst; try done.
    + by eapply U.
    + destruct Hno. by eapply W.
    + destruct Hno. by eapply W.
  - intros k c' H1. destruct (Hadd k c' H1) as [H1'|[-> ->]]; eauto.
  - intros k k' c' H1 H2.
    destruct (Hgr k c' H1) as [[Hk H1']|[-> ->]], (Hgr k' _ H2) as [[Hk' H2']|[-> Hc]]; subst;
      try done.
    + by eapply U.
    + destruct Hk. by eapply U.
    + destruct Hk'. by eapply U.
  - intros k c' H1. destruct (Hgr k c' H1) as [[Hk H1']|[-> ->]]; eauto.
Qed.

(** ** Success needs a first emission *)

Definition emitted (m : Machine) (c : ptr) : Prop :=
  exists u a, m_auths m !! u = Some a /\ au_committed a = c /\ au_first a = true.

Definition success_ok (m : Machine) : Prop :=
  forall c x, m_committed m !! c = Some x -> ca_terminalChosen x = true ->
    ca_terminalReason x = PairingTerminalSuccess -> emitted m c.

Lemma gate_reason_not_success e : pairingTerminalReasonForGateError e <> PairingTerminalSuccess.
Proof. unfold pairingTerminalReasonForGateError. by repeat case_match. Qed.

Lemma emitted_put m m' c u y :
  m_auths m' = <[u := y]> (m_auths m) ->
  (forall a, m_auths m !! u = Some a -> au_committed y = au_committed a /\
     (au_first a = true -> au_first y = true)) ->
  emitted m c -> emitted m' c.
Proof.
  intros Hm Hy (v & a & Ha & Hc & Hf). destruct (decide (u = v)) as [->|].
  - destruct (Hy a Ha) as [E1 E2]. exists v, y. rewrite Hm, lookup_insert_eq.
    split_and!; [done|congruence|auto].
  - exists v, a. by rewrite Hm, lookup_insert_ne.
Qed.

Lemma emitted_same m m' c : m_auths m' = m_auths m -> emitted m c -> emitted m' c.
Proof. unfold emitted. by intros ->. Qed.

(** First emissions are never taken back. *)
Lemma step_emitted m m' c : machine_step m m' -> fresh_ids m -> emitted m c -> emitted m' c.
Proof.
  intros Hs Hf. assert (Hnew : forall a, m_auths m !! m_next m = Some a -> False).
  { intros a Ha. pose proof (below_lookup _ _ _ _ (fi_auths _ m Hf) Ha). lia. }
  machine_cases Hs; simplify_eq; try (by apply emitted_same);
    try (apply emitted_same; simpl; apply finish_start_frame);
    (eapply emitted_put; [done|]); simpl; intros b Hb; simpl in *; simplify_eq;
    first [by destruct (Hnew b)|by split; [|congruence]].
Qed.

Lemma success_finish c reason m :
  (reason = PairingTerminalSuccess -> emitted m c) -> success_ok m ->
  forall d x, m_committed (finish_start c reason m) !! d = Some x ->
    ca_terminalChosen x = true -> ca_terminalReason x = PairingTerminalSuccess -> emitted m d.
Proof.
  intros Hr H d x. unfold finish_start. destruct (m_committed m !! c) as [y|] eqn:Hy; [|apply H].
  destruct (ca_terminalChosen y); [apply H|]. simpl. destruct (decide (c = d)) as [->|].
  - rewrite lookup_insert_eq. intros [= <-] _. simpl. exact Hr.
  - rewrite lookup_insert_ne by done. apply H.
Qed.

Lemma step_success m m' : machine_step m m' -> fresh_ids m -> success_ok m -> success_ok m'.
Proof.
  intros Hs Hf S. pose proof (fun c => step_emitted m m' c Hs Hf) as Hem.
  assert (Hput : forall d y z, m_committed m !! d = Some y ->
    ca_terminalChosen z = ca_terminalChosen y -> ca_terminalReason z = ca_terminalReason y ->
    forall c x, <[d := z]> (m_committed m) !! c = Some x -> ca_terminalChosen x = true ->
    ca_terminalReason x = PairingTerminalSuccess -> emitted m' c).
  { intros d y z Hd E1 E2 c x. destruct (decide (d = c)) as [->|].
    - rewrite lookup_insert_eq. intros [= <-]. rewrite E1, E2. intros. apply Hem. by eapply S.
    - rewrite lookup_insert_ne by done. intros. apply Hem. by eapply S. }
  assert (Hnew : forall d z, (ca_terminalReason z <> PairingTerminalSuccess) ->
    forall c x, <[d := z]> (m_committed m) !! c = Some x -> ca_terminalChosen x = true ->
    ca_terminalReason x = PairingTerminalSuccess -> emitted m' c).
  { intros d z Hz c x. destruct (decide (d = c)) as [->|].
    - rewrite lookup_insert_eq. by intros [= <-].
    - rewrite lookup_insert_ne by done. intros. apply Hem. by eapply S. }
  assert (W : forall c x, m_committed m !! c = Some x -> ca_terminalChosen x = true ->
    ca_terminalReason x = PairingTerminalSuccess -> emitted m' c).
  { intros c x Hx H1 H2. by eapply Hem, S. }
  assert (Hfin : forall d reason, (reason = PairingTerminalSuccess -> emitted m d) ->
    forall c x, m_committed (finish_start d reason m) !! c = Some x ->
    ca_terminalChosen x = true -> ca_terminalReason x = PairingTerminalSuccess -> emitted m' c).
  { intros d reason Hr c x Hx H1 H2. by eapply Hem, success_finish. }
  unfold success_ok. clear Hem.
  machine_cases Hs; simplify_eq; simpl in *; try exact W;
    try (eapply Hput; [eassumption|done|done]; fail);
    try (apply Hnew; simpl; first [done|apply gate_reason_not_success]).
  - apply Hfin. intros ->. exists u, c. split_and!; try done.
    by destruct (au_first c).
  - apply Hfin. intros E. by destruct (gate_reason_not_success err).
  - apply Hfin. intros ->. by destruct H.
Qed.
End inv.
