(* ===== verification/PairingGateFinish.v ===== *)
(** * The durable terminal witness of the pairing admission gate

    [PairingTerminalRecordedForAttempt] reports true only for an attempt whose
    FINISH record is in the journal. *)
From S2P Require Import Prelude GoStd Limits SafetyTrip Governor GovernorSteps GovernorInv GovernorMicro GovernorLocal GovernorThms Ledger LedgerSnapshot LedgerOps LedgerReplay LedgerEffects LedgerThms PairingGate PairingGateInv.

(** ** Terminal records of the journal *)

(** A terminal record names the admission it is attached to. *)
Definition entries_match (s : pairingLedgerSnapshot) : Prop :=
  forall e r, e ∈ sn_order s -> en_finish e = Some r ->
    is_finish r = true /\ jr_CredentialID r = jr_CredentialID (en_record e) /\
    jr_AttemptID r = jr_AttemptID (en_record e).

Lemma replay_step_entries s r s' :
  replay_step s r = Ok s' -> replayed s -> entries_match s -> entries_match s'.
Proof.
  intros H R M. unfold replay_step in H. destruct (negb _); [done|].
  destruct (match last (sn_records s) with Some _ => _ | None => _ end); [done|].
  set (s1 := if After _ _ then _ else s) in *.
  assert (sn_order s1 = sn_order s /\ sn_admissions s1 = sn_admissions s) as [E Ea]
    by (unfold s1; by destruct (After _ _)).
  destruct (replay_record _ r s1) as [s2|] eqn:Hr; [|done]. injection H as <-.
  unfold entries_match. simpl.
  assert (Hsame : sn_order s2 = sn_order s -> forall e q, e ∈ sn_order s2 ->
    en_finish e = Some q -> is_finish q = true /\
    jr_CredentialID q = jr_CredentialID (en_record e) /\
    jr_AttemptID q = jr_AttemptID (en_record e)) by (intros ->; exact M).
  unfold replay_record in Hr. destruct (jr_Type r) eqn:Hty.
  - destruct (negb _); [done|]. simplify_eq. by apply Hsame.
  - destruct (negb _); [done|]. simplify_eq. by apply Hsame.
  - destruct (Nat.eqb _ _); [done|]. destruct (sn_admissions s1 !! _); [done|].
    destruct (sn_attempts s1 !! _); [done|]. simplify_eq. simpl. rewrite E.
    intros e q [He|He%list_elem_of_singleton]%elem_of_app Hq; [by apply M|by subst e].
  - destruct (sn_admissions s1 !! _) as [i|] eqn:Hi; [|done].
    destruct (sn_order s1 !! i) as [e0|] eqn:He0; [|done].
    destruct (_ || _) eqn:Hm; [done|]. destruct (en_finish e0); [done|].
    apply orb_false_iff in Hm as [Hat%negb_false_iff _]. apply bool_decide_eq_true in Hat.
    simplify_eq. simpl. rewrite E, Ea in *.
    apply (rp_admissions s R) in Hi as (e1 & He1 & Hcred). simplify_eq.
    intros e q He Hq. apply list_elem_of_lookup in He as [j Hj].
    destruct (decide (i = j)) as [<-|Hne].
    + rewrite list_lookup_insert_eq in Hj by by eapply lookup_lt_Some.
      simplify_eq/=. split; [unfold is_finish; by rewrite Hty|done].
    + rewrite list_lookup_insert_ne in Hj by done. apply M; [|done].
      by eapply list_elem_of_lookup_2.
  - destruct (Nat.eqb _ _); [done|]. repeat case_match; simplify_eq; by apply Hsame.
  - done.
Qed.

Lemma build_entries records bytes owner s :
  buildPairingLedgerSnapshot records bytes owner = Ok s -> entries_match s.
Proof.
  unfold buildPairingLedgerSnapshot. destruct (Nat.eqb _ _); [done|].
  destruct (replay records _) as [s1|] eqn:Hr; [|done]. intros [= <-].
  change (entries_match s1).
  assert (H0 : entries_match (snapshot_start bytes owner)) by (by intros e r He%not_elem_of_nil).
  pose proof (replayed_start bytes owner) as R0. revert Hr R0 H0.
  generalize (snapshot_start bytes owner). induction records as [|r records IH]; intros s; simpl.
  - by intros [= <-].
  - destruct (replay_step s r) as [s2|] eqn:Hs; [|done]. intros Hr R0 H0.
    eapply IH; [done|by eapply replayed_step|by eapply replay_step_entries].
Qed.

Section finish.
Context {C : LedgerCodec} {L : LedgerCodecLaws C} {St : TripStore} {F : Sprintf}.

(** The journal holds a FINISH record for the receipt. *)
Definition finished (rc : PairingAdmissionReceipt) (f : journal) : Prop :=
  exists r, holds_record r f /\ is_finish r = true /\
    jr_CredentialID r = rc_credentialID rc /\ jr_AttemptID r = rc_attemptID rc.

Lemma journal_move_finished rc f f' : journal_move f f' -> finished rc f -> finished rc f'.
Proof.
  intros Hm (r & Hh & Hr). exists r. split; [|done]. by eapply journal_move_holds.
Qed.

(** [Finish] returns nil only with its record in the journal. *)
Lemma Finish_finished owner env rc reason f f' :
  Finish owner env rc reason f = (f', None) -> finished rc f'.
Proof.
  unfold Finish. destruct (negb _); [done|]. destruct (holdOwner _ _ _); [done|].
  destruct (negb _); [done|]. destruct (open_snapshot owner env f) as [s|] eqn:Ho; [|done].
  destruct (open_snapshot_Ok owner env f s Ho) as (data & records & -> & S).
  destruct (effectiveNow s _) as [now|]; [|done].
  destruct (receipt_entry s rc) as [e|] eqn:He; [|done].
  unfold receipt_entry in He. destruct (sn_admissions s !! _) as [i|] eqn:Hi; [|done].
  destruct (sn_order s !! i) as [e0|] eqn:He0; [|done].
  destruct (_ && _) eqn:Hm; [|done]. injection He as Heq. subst e0.
  apply andb_true_iff in Hm as [[[_ _]%andb_true_iff Hatt]%andb_true_iff _].
  apply bool_decide_eq_true in Hatt.
  apply (rp_admissions s (so_replayed _ _ _ _ S)) in Hi as (e1 & He1 & Hcred).
  assert (e1 = e) as -> by congruence.
  destruct (en_finish e) as [fin|] eqn:Hfin.
  - destruct (bool_decide _); [|done]. intros [= <-].
    pose proof (build_finishes _ _ _ _ (so_build _ _ _ _ S)) as [_ Hin].
    destruct (build_entries _ _ _ _ (so_build _ _ _ _ S) e fin) as (Hf & Hc & Ha);
      [by eapply list_elem_of_lookup_2|done|].
    exists fin. split_and!; [|done|congruence|congruence].
    intros d rs [= <-] Hd. rewrite (so_decode _ _ _ _ S) in Hd. injection Hd as <-.
    rewrite <-(so_records _ _ _ _ S). apply (Hin e); [by eapply list_elem_of_lookup_2|done].
  - destruct (encodePairingJournalFrame _) as [frame|] eqn:Henc; [|done].
    destruct (ensureRecordCapacity s (blen frame)) eqn:Hcap; [done|].
    destruct (ensureRecordCapacity_None _ _ _ _ _ S Hcap) as [Hn _]. intros Hrun.
    destruct (appendAndSync_effect _ _ _ _ _ Hrun) as [_ Hf']. rewrite (Hf' eq_refl).
    exists (finish_record s now rc reason). split_and!; try done.
    intros d rs [= <-] Hd.
    rewrite (decode_append data records (finish_record s now rc reason) frame) in Hd;
      [|apply S|done|lia].
    injection Hd as <-. apply elem_of_app. right. by apply list_elem_of_singleton.
Qed.

(** ** Errors that attest nothing *)

Definition plain (e : gateerr) : Prop := durable_of e = None.
Definition plain_opt (e : option gateerr) : Prop := forall x, e = Some x -> plain x.

Lemma plain_join errs : Forall plain errs -> plain (GJoin errs).
Proof.
  unfold plain at 2. simpl. induction 1 as [|e errs He _ IH]; [done|]. rewrite He. exact IH.
Qed.

Lemma plain_omap errs : Forall plain_opt errs -> Forall plain (omap id errs).
Proof.
  induction 1 as [|[e|] errs He _ IH]; simpl; [done| |done]. constructor; [by apply He|done].
Qed.

Lemma plain_gate_join errs : Forall plain_opt errs -> plain_opt (gate_join errs).
Proof.
  intros H x Hx. unfold gate_join in Hx.
  assert (x = GJoin (omap id errs)) as ->; [|by apply plain_join, plain_omap].
  destruct (omap id errs); simplify_eq. done.
Qed.

Lemma plain_join1 e errs : plain e -> Forall plain_opt errs -> plain (join1 e errs).
Proof. intros He H. apply plain_join. constructor; [done|by apply plain_omap]. Qed.

Lemma plain_None : plain_opt None.
Proof. by intros x. Qed.
Lemma plain_Some e : plain e -> plain_opt (Some e).
Proof. by intros He x [= <-]. Qed.
Lemma plain_ledger (e : option ledgererr) : plain_opt (GLedger <$> e).
Proof. destruct e; [by apply plain_Some|apply plain_None]. Qed.
Lemma plain_gov (e : option goerr) : plain_opt (GGov <$> e).
Proof. destruct e; [by apply plain_Some|apply plain_None]. Qed.
Lemma plain_hook (e : option string) : plain_opt (GHook <$> e).
Proof. destruct e; [by apply plain_Some|apply plain_None]. Qed.
#[local] Hint Resolve plain_None plain_Some plain_ledger plain_gov plain_hook : winkyou.

Ltac plain_lists :=
  repeat first
    [ assumption | reflexivity
    | apply plain_join1 | apply plain_gate_join | apply plain_join
    | apply plain_None | apply plain_ledger | apply plain_gov | apply plain_hook
    | apply plain_Some | apply Forall_nil; exact I | apply Forall_cons; split ].

Lemma gate_join_None (errs : list (option gateerr)) : gate_join errs = None -> forall e, e ∈ errs -> e = None.
Proof.
  unfold gate_join. intros H e He. destruct e as [x|]; [|done]. exfalso.
  assert (Hx : x ∈ omap id errs) by (apply list_elem_of_omap; by exists (Some x)).
  destruct (omap id errs); [by apply not_elem_of_nil in Hx|done].
Qed.

Lemma failure_durable a cause finishErr b :
  plain cause -> plain_opt finishErr ->
  durable_of (pairingFailureAfterFinish a cause finishErr) = Some b ->
  b = a /\ finishErr = None.
Proof.
  intros Hc Hf. unfold pairingFailureAfterFinish. destruct finishErr as [e|].
  - assert (plain (join1 cause [Some e])) as E; [|unfold plain in E; congruence].
    plain_lists.
  - simpl. intros [= ->]. done.
Qed.

Lemma inspect_plain ctx a o ex now fresh owner g g' e :
  inspectPairingAttempt ctx a o ex now fresh owner g = (g', Err e) -> plain e.
Proof. unfold inspectPairingAttempt. intros H. repeat case_match; simplify_eq; done. Qed.

Lemma precheck_plain ctx a q now fresh owner g g' e :
  precheckPairingAdmission ctx a q now fresh owner g = (g', Err e) -> plain e.
Proof.
  unfold precheckPairingAdmission. intros H. repeat case_match; simplify_eq; try done.
  by eapply inspect_plain.
Qed.

Lemma postcheck_plain ctx a q o now fresh owner g g' e :
  postcheckPairingAdmission ctx a q o now fresh owner g = (g', Some e) -> plain e.
Proof.
  unfold postcheckPairingAdmission.
  destruct (inspectPairingAttempt _ _ _ _ _ _ _ _) as [g1 [?|e1]] eqn:E; [done|].
  intros [= <- <-]. by eapply inspect_plain.
Qed.

(** ** What the phases of a terminal record say *)

Record terminal_ok (f : journal) (x : CommittedAttempt) : Prop := {
  tm_finish :
    match ca_finish x with
    | FComplete err | FPublish err => plain_opt err /\ (err = None -> finished (ca_receipt x) f)
    | FDone => plain_opt (ca_terminalErr x) /\
               (ca_terminalErr x = None -> finished (ca_receipt x) f)
    | _ => True
    end;
  tm_writerErr : plain_opt (ca_writerErr x);
  tm_writer :
    match ca_writer x with
    | WNetwork h | WAwait h | WFinish h _ => plain_opt h
    | WRecord h _ e | WPublish h _ e => plain_opt h /\ (e = None -> finished (ca_receipt x) f)
    | WComplete | WEnd => ca_writerErr x = None -> finished (ca_receipt x) f
    | _ => True
    end;
}.

Lemma terminal_ok_move f f' x : journal_move f f' -> terminal_ok f x -> terminal_ok f' x.
Proof.
  intros Hm [H1 H2 H3]. pose proof (journal_move_finished (ca_receipt x) f f' Hm) as Hf.
  split; [|done|].
  - destruct (ca_finish x); naive_solver.
  - destruct (ca_writer x); naive_solver.
Qed.

Lemma terminal_ok_choose f reason b x :
  ca_terminalChosen x = false -> terminal_ok f x -> terminal_ok f (finish_choose reason b x).
Proof. intros _ [_ H _]. destruct b; by split. Qed.

Lemma step_terminal m m' :
  machine_step m m' -> base m -> all_tokens (terminal_ok (m_journal m)) m ->
  all_tokens (terminal_ok (m_journal m')) m'.
Proof.
  intros Hs B T0. pose proof (step_journal m m' Hs) as Hj.
  assert (T : all_tokens (terminal_ok (m_journal m')) m).
  { intros c x Hx. eapply terminal_ok_move; [done|]. by eapply T0. }
  assert (Hfin : forall d reason, all_tokens (terminal_ok (m_journal m')) (finish_start d reason m)).
  { intros d reason. apply finish_start_all; [done|]. intros. by apply terminal_ok_choose. }
  clear Hj T0.
  machine_cases Hs; simplify_eq; simpl in *; try done; try apply Hfin;
    try (refine (all_tokens_put _ _ _ m T _));
    try (match goal with H : m_committed m !! _ = Some ?y |- terminal_ok _ _ =>
      destruct (T _ _ H) as [Tf Te Tw]; pose proof (b_tokens m B _ _ H) as K end);
    try (match goal with H : ca_finish _ = _ |- _ => rewrite H in * end);
    try (match goal with H : ca_writer _ = _ |- _ => rewrite H in * end);
    try (by split).
  - split; [|done..]. split; [apply plain_ledger|]. destruct o0; [done|]. intros _.
    by eapply Finish_finished.
  - destruct Tf as [Tp Tn]. split; [|done..]. split; [plain_lists|]. intros Hn. apply Tn.
    apply (gate_join_None _ Hn), list_elem_of_here.
  - split; [|done..]. split; [plain_lists|]. intros Hn.
    assert (result = None) as ->.
    { destruct result; [|done]. by pose proof (gate_join_None _ Hn _ (list_elem_of_here _ _)). }
    pose proof (gate_join_None _ Hn _ (list_elem_of_further _ _ _ (list_elem_of_here _ _))) as Hw.
    specialize (H1 eq_refl). rewrite (to_writerDone x K) in H1.
    destruct (ca_writer x); try done; by apply Tw.
  - split; [done|apply plain_hook..].
  - split; [done..|]. split; [done|]. destruct o0; [done|]. intros _. by eapply Finish_finished.
  - destruct Tw as [Tp Tn]. split; [done|plain_lists|]. simpl. intros Hn. apply Tn.
    destruct finishErr; [|done].
    by pose proof (gate_join_None _ Hn _ (list_elem_of_further _ _ _
      (list_elem_of_further _ _ _ (list_elem_of_here _ _)))).
Qed.

(** ** What the results of the calls attest *)

(** The result of a [Commit] that attests a terminal record names its own
    lease, and the record is that of its request. *)
Definition commit_attests (f : journal) (call : commit_call) (err : gateerr) : Prop :=
  forall a, durable_of err = Some a -> a = cc_attempt call /\
    exists rc, finished rc f /\ rc_credentialID rc = par_CredentialID (cc_request call) /\
      rc_attemptID rc = par_AttemptID (cc_request call).

Definition commit_result_ok (m : Machine) (call : commit_call) : Prop :=
  match cc_phase call with
  | CFail _ _ primary => plain primary
  | CFailWait c primary => plain primary /\
      exists x, m_committed m !! c = Some x /\
        rc_credentialID (ca_receipt x) = par_CredentialID (cc_request call) /\
        rc_attemptID (ca_receipt x) = par_AttemptID (cc_request call)
  | CComplete _ err | CDone (Err err) => commit_attests (m_journal m) call err
  | _ => True
  end.

Definition token_result_ok (m : Machine) (call : token_call) : Prop :=
  match tc_phase call with
  | PFailed err => plain err
  | PWait _ err => plain_opt err
  | PDone (Err err) => forall a, durable_of err = Some a ->
      exists x, m_committed m !! tc_committed call = Some x /\ ca_attempt x = a /\
        finished (ca_receipt x) (m_journal m)
  | _ => True
  end.

Record results_ok (m : Machine) : Prop := {
  rs_tokens : all_tokens (terminal_ok (m_journal m)) m;
  rs_commits : forall t call, m_commits m !! t = Some call -> commit_result_ok m call;
  rs_calls : forall t call, m_tokens m !! t = Some call -> token_result_ok m call;
}.

Lemma commit_attests_plain f call err : plain err -> commit_attests f call err.
Proof. intros Hp a Ha. unfold plain in Hp. congruence. Qed.

(** A token whose [finished] channel is closed has published its result. *)
Lemma published_result m c x : base m -> results_ok m -> m_committed m !! c = Some x ->
  closed_chan (ca_finished x) = true ->
  plain_opt (ca_terminalErr x) /\
  (ca_terminalErr x = None -> finished (ca_receipt x) (m_journal m)).
Proof.
  intros B R Hx Hc. pose proof (b_tokens m B c x Hx) as K.
  rewrite (to_finished x K) in Hc. destruct (rs_tokens m R c x Hx) as [Tf _ _].
  by destruct (ca_finish x).
Qed.

Lemma step_commit_results m m' : machine_step m m' -> base m -> fresh_ids m -> durable m ->
  results_ok m ->
  forall t call, m_commits m' !! t = Some call -> commit_result_ok m' call.
Proof.
  intros Hs B Hf D R. pose proof R as [RT RC _]. pose proof (step_journal m m' Hs) as Hj.
  pose proof (fun c x => step_committed m m' c x Hs (fun d => fresh_committed_lt m d Hf)) as Hc.
  assert (A : forall call err, commit_attests (m_journal m) call err ->
    commit_attests (m_journal m') call err).
  { intros call err H a Ha. destruct (H a Ha) as (? & rc & Hfin & ?). split; [done|].
    exists rc. split; [|done]. by eapply journal_move_finished. }
  assert (W : forall t call, m_commits m !! t = Some call -> commit_result_ok m' call).
  { intros t call Ht. specialize (RC t call Ht). unfold commit_result_ok in *.
    destruct (cc_phase call) as [| | | | | | |[]]; try done; try (by apply A).
    destruct RC as (Hp & x & Hx & E1 & E2). split; [done|].
    destruct (Hc c x Hx) as (y & Hy & _ & Er & _). exists y. by rewrite Er. }
  assert (Hput : forall t z, commit_result_ok m' z ->
    forall t' call, <[t := z]> (m_commits m) !! t' = Some call -> commit_result_ok m' call).
  { intros t z Hz t' call. destruct (decide (t = t')) as [->|].
    - rewrite lookup_insert_eq. by intros [= <-].
    - rewrite lookup_insert_ne by done. apply W. }
  clear Hc.
  machine_cases Hs; simplify_eq; simpl in *;
    try (destruct (finish_start_frame c reason m) as (_ & _ & _ & -> & _));
    try (destruct (finish_start_frame (au_committed c) reason m) as (_ & _ & _ & -> & _));
    try (destruct (finish_start_frame (tc_committed call)
      (pairingTerminalReasonForGateError err) m) as (_ & _ & _ & -> & _));
    try exact W; apply Hput; unfold commit_result_ok; simpl; try done;
    try (apply commit_attests_plain; plain_lists; fail).
  - apply commit_attests_plain. apply precheck_plain in E2. plain_lists.
  - by eapply postcheck_plain.
  - specialize (RC t call H). unfold commit_result_ok in RC. rewrite H0 in RC. split; [done|].
    eexists. rewrite lookup_insert_eq. split; [done|]. simpl.
    destruct (co_burned m call (du_calls m D t call H) receipt) as (_ & -> & -> & _);
      [by rewrite H0|done].
  - specialize (RC t call H). unfold commit_result_ok in RC. rewrite H0 in RC. intros a Ha.
    apply failure_durable in Ha as [-> Ho]; [|plain_lists..]. split; [done|].
    destruct o0; [done|]. exists receipt. split; [by eapply Finish_finished|]. simpl.
    destruct (co_burned m call (du_calls m D t call H) receipt) as (_ & -> & -> & _);
      [by rewrite H0|done].
  - specialize (RC t call H). unfold commit_result_ok in RC. rewrite H0 in RC.
    destruct RC as (Hp & y & Hy & E1 & E2). simplify_eq.
    destruct (published_result m c x B R H1 H2) as [Tp Tn].
    intros a Ha. apply failure_durable in Ha as [-> Ho]; [|plain_lists..]. split; [done|].
    exists (ca_receipt x). auto.
  - specialize (RC t call H). unfold commit_result_ok in RC. rewrite H0 in RC. exact RC.
Qed.

Lemma finish_result_plain reason x :
  plain_opt (ca_terminalErr x) -> plain_opt (finish_result reason x).
Proof. intros H. unfold finish_result. destruct (bool_decide _); plain_lists. Qed.

Lemma finish_result_None reason x : finish_result reason x = None -> ca_terminalErr x = None.
Proof.
  unfold finish_result. destruct (bool_decide _); [done|]. intros H.
  apply (gate_join_None _ H), list_elem_of_further, list_elem_of_here.
Qed.

Lemma step_token_results m m' : machine_step m m' -> base m -> fresh_ids m -> results_ok m ->
  forall t call, m_tokens m' !! t = Some call -> token_result_ok m' call.
Proof.
  intros Hs B Hf R. pose proof R as [RT _ RK]. pose proof (step_journal m m' Hs) as Hj.
  pose proof (fun c x => step_committed m m' c x Hs (fun d => fresh_committed_lt m d Hf)) as Hc.
  assert (A : forall c a, (exists x, m_committed m !! c = Some x /\ ca_attempt x = a /\
    finished (ca_receipt x) (m_journal m)) -> exists x, m_committed m' !! c = Some x /\
    ca_attempt x = a /\ finished (ca_receipt x) (m_journal m')).
  { intros c a (x & Hx & Ha & Hfin). destruct (Hc c x Hx) as (y & Hy & Ea & Er & _).
    exists y. rewrite Ea, Er. split_and!; [done|done|]. by eapply journal_move_finished. }
  assert (W : forall t call, m_tokens m !! t = Some call -> token_result_ok m' call).
  { intros t call Ht. specialize (RK t call Ht). unfold token_result_ok in *.
    destruct (tc_phase call) as [| | | | | |[]]; try done. intros a Ha. apply A, RK, Ha. }
  assert (Hput : forall t z, token_result_ok m' z ->
    forall t' call, <[t := z]> (m_tokens m) !! t' = Some call -> token_result_ok m' call).
  { intros t z Hz t' call. destruct (decide (t = t')) as [->|].
    - rewrite lookup_insert_eq. by intros [= <-].
    - rewrite lookup_insert_ne by done. apply W. }
  clear Hc.
  machine_cases Hs; simplify_eq; simpl in *;
    try (destruct (finish_start_frame c reason m) as (_ & _ & _ & _ & -> & _));
    try (destruct (finish_start_frame (au_committed c) reason m) as (_ & _ & _ & _ & -> & _));
    try (destruct (finish_start_frame (tc_committed call)
      (pairingTerminalReasonForGateError err) m) as (_ & _ & _ & _ & -> & _));
    try exact W; apply Hput; unfold token_result_ok; cbn [tc_phase tc_committed]; try done;
    try (plain_lists; fail).
  all: try (match goal with
    H1 : m_committed ?m !! _ = Some ?x, H : closed_chan (ca_finished ?x) = true |- _ =>
    destruct (published_result m _ x B R H1 H) as [Tp Tn] end).
  all: try (match goal with H0 : m_tokens _ !! _ = Some ?call, H : tc_phase ?call = _ |- _ =>
    specialize (RK _ call H0); unfold token_result_ok in RK; rewrite H in RK end).
  - plain_lists.
  - intros a Ha. apply failure_durable in Ha as [-> Ho]; [|plain_lists..]. exists x. auto.
  - by eapply inspect_plain.
  - by eapply inspect_plain.
  - by apply plain_Some.
  - pose proof (finish_result_plain reason x Tp) as Hp. intros a Ha.
    apply failure_durable in Ha as [-> Ho]; [|plain_lists..].
    exists x. eauto using finish_result_None.
  - pose proof (finish_result_plain reason x Tp) as Hp. intros a Ha.
    assert (plain (join1 invalid [err; finish_result reason x])) as K by plain_lists.
    unfold plain in K. congruence.
  - pose proof (finish_result_plain reason x Tp) as Hp. intros a Ha.
    assert (plain (join1 invalid [err; finish_result reason x])) as K by plain_lists.
    unfold plain in K. congruence.
  - pose proof (finish_result_plain reason x Tp) as Hp. intros a Ha.
    assert (plain (join1 invalid [err; finish_result reason x])) as K by plain_lists.
    unfold plain in K. congruence.
  - pose proof (finish_result_plain reason x Tp) as Hp. intros a Ha.
    rewrite E0 in Hp. specialize (Hp g eq_refl). unfold plain in Hp. congruence.
Qed.

Lemma step_results m m' : machine_step m m' -> base m -> fresh_ids m -> durable m ->
  results_ok m -> results_ok m'.
Proof.
  intros Hs B Hf D R. split.
  - eapply step_terminal; [done..|]. apply R.
  - by eapply step_commit_results.
  - by eapply step_token_results.
Qed.
End finish.
