(* ===== verification/PairingGateThms.v ===== *)
(** * Correctness of the pairing admission gate

    Authority to emit exists only behind a durable admission, at most once per
    credential; a terminal reason is chosen once and never changes. *)
From S2P Require Import Prelude GoStd Limits SafetyTrip Governor GovernorSteps GovernorInv GovernorMicro GovernorLocal GovernorThms Ledger LedgerSnapshot LedgerOps LedgerReplay LedgerEffects LedgerThms PairingGate PairingGateInv PairingGateFinish.

(** ** Tokens without a context

    [failAfterCommit] builds a token only to finish it: it cannot be consumed. *)
Definition context_ok (x : CommittedAttempt) : Prop :=
  (ca_hasContext x = false -> ca_terminalChosen x = true) /\
  (ca_consumed x = true -> ca_hasContext x = true).

Section theorems.
Context {C : LedgerCodec} {L : LedgerCodecLaws C} {St : TripStore} {F : Sprintf}.

Lemma step_context m m' : machine_step m m' -> all_tokens context_ok m -> all_tokens context_ok m'.
Proof.
  intros Hs T.
  assert (Hfin : forall d reason, all_tokens context_ok (finish_start d reason m)).
  { intros d reason. apply finish_start_all; [done|]. intros x l Hx Hc [H1 H2]. by split. }
  machine_cases Hs; simplify_eq; try done; try apply Hfin;
    try (refine (all_tokens_put _ _ _ m T _));
    try (match goal with H : m_committed m !! _ = Some ?y |- context_ok _ =>
      destruct (T _ _ H) as [T1 T2] end); try (by split).
  split; simpl; [done|]. intros _. destruct (ca_hasContext c0); [done|].
  specialize (T1 eq_refl). congruence.
Qed.

(** ** Authorizations keep their token *)

Definition auth_grows (a a' : CommittedCarrierAuthorization) : Prop :=
  au_committed a' = au_committed a /\ (au_first a = true -> au_first a' = true).

Lemma step_auths m m' u a : machine_step m m' -> fresh_ids m -> m_auths m !! u = Some a ->
  exists a', m_auths m' !! u = Some a' /\ auth_grows a a'.
Proof.
  intros Hs Hf Ha.
  assert (Hput : forall v b b', m_auths m !! v = Some b -> auth_grows b b' ->
    exists a', <[v := b']> (m_auths m) !! u = Some a' /\ auth_grows a a').
  { intros v b b' Hv Hg. destruct (decide (v = u)) as [->|].
    - exists b'. rewrite lookup_insert_eq. split; [done|]. congruence.
    - exists a. by rewrite lookup_insert_ne. }
  assert (Hnew : forall b, exists a', <[m_next m := b]> (m_auths m) !! u = Some a' /\
    auth_grows a a').
  { intros b. exists a. rewrite lookup_insert_ne; [done|].
    pose proof (below_lookup _ _ _ _ (fi_auths _ m Hf) Ha). lia. }
  assert (Hsame : forall M, M = m_auths m -> exists a', M !! u = Some a' /\ auth_grows a a')
    by (intros M ->; by exists a).
  machine_cases Hs; simplify_eq; simpl in *; try (by apply Hsame); try apply Hnew;
    try (apply Hsame, finish_start_frame);
    (eapply Hput; [eassumption|]); split; simpl; [done|congruence|done..].
Qed.

(** A call of [BeforeFirstEmission] works on the token of its authorization. *)
Definition targets_ok (m : Machine) : Prop :=
  forall t call u, m_tokens m !! t = Some call -> tc_method call = BeforeFirstEmission u ->
    exists a, m_auths m !! u = Some a /\ au_committed a = tc_committed call.

Lemma step_targets m m' : machine_step m m' -> fresh_ids m -> targets_ok m -> targets_ok m'.
Proof.
  intros Hs Hf T.
  pose proof (fun u a => step_auths m m' u a Hs Hf) as Hau.
  assert (W : forall t call u, m_tokens m !! t = Some call -> tc_method call = BeforeFirstEmission u ->
    exists a, m_auths m' !! u = Some a /\ au_committed a = tc_committed call).
  { intros t call u Ht Hm. destruct (T t call u Ht Hm) as (a & Ha & E).
    destruct (Hau u a Ha) as (a' & Ha' & E' & _). exists a'. split; [done|congruence]. }
  assert (Hput : forall t z, (forall u, tc_method z = BeforeFirstEmission u ->
      exists a, m_auths m' !! u = Some a /\ au_committed a = tc_committed z) ->
    forall t' call u, <[t := z]> (m_tokens m) !! t' = Some call ->
    tc_method call = BeforeFirstEmission u ->
    exists a, m_auths m' !! u = Some a /\ au_committed a = tc_committed call).
  { intros t z Hz t' call u. destruct (decide (t = t')) as [->|].
    - rewrite lookup_insert_eq. intros [= <-]. apply Hz.
    - rewrite lookup_insert_ne by done. apply W. }
  assert (Hold : forall t call mth p, m_tokens m !! t = Some call -> tc_method call = mth ->
    forall t' call' u, <[t := mkToken mth (tc_committed call) p]> (m_tokens m) !! t'
      = Some call' -> tc_method call' = BeforeFirstEmission u ->
    exists a, m_auths m' !! u = Some a /\ au_committed a = tc_committed call').
  { intros t call mth p Ht <-. apply Hput. intros u. simpl. by apply (W t). }
  unfold targets_ok. clear Hau.
  machine_cases Hs; simplify_eq; simpl in *;
    try (destruct (finish_start_frame c reason m) as (_ & _ & _ & _ & Et & _); rewrite ?Et);
    try (destruct (finish_start_frame (au_committed c) reason m) as (_ & _ & _ & _ & Et & _);
      rewrite ?Et);
    try (destruct (finish_start_frame (tc_committed call)
      (pairingTerminalReasonForGateError err) m) as (_ & _ & _ & _ & Et & _); rewrite ?Et);
    try exact W; try (apply Hput; by intros ?); try (eapply Hold; [eassumption|first [reflexivity|eassumption]]).
  - apply Hput. intros v [= <-]. by exists c.
  - apply Hput. intros v [= <-]. eexists. by rewrite lookup_insert_eq.
Qed.

Lemma inspect_Ok ctx a o ex now fresh owner g g' r :
  inspectPairingAttempt ctx a o ex now fresh owner g = (g', Ok r) ->
  g' = g /\ Before (UTC now) ex = true /\ ts_BlocksActiveWork (g_trip g) = false /\
  ts_BlocksActiveWork fresh = false /\ g_closed g = false /\ g_closing g = false /\
  ctx = Some None /\ machine_scope g = true /\ owner <> "" /\ (o = "" \/ o = owner) /\
  exists l, g_aheap g !! a = Some l /\ al_closed l = false /\ al_stoppingStarted l = false /\
    g_attempts g !! req_ID (al_request l) = Some a /\
    pairingOperationAllowed (g_profile g) (req_Operation (al_request l)) = true.
Proof.
  unfold inspectPairingAttempt. destruct ctx as [[?|]|]; [done| |done].
  destruct (g_aheap g !! a) as [l|]; [|done].
  destruct (Before (UTC now) ex); [|done]. simpl.
  destruct (machine_scope g) eqn:Hms; [|done]. simpl.
  destruct (pairingOperationAllowed _ _) eqn:Hop; [|done]. simpl.
  destruct (ts_BlocksActiveWork (g_trip g)); [done|].
  destruct (ts_BlocksActiveWork fresh); [done|].
  destruct (g_closed g); [done|]. destruct (g_closing g); [done|].
  destruct (al_closed l) eqn:?; [done|]. destruct (al_stoppingStarted l) eqn:?; [done|]. simpl.
  destruct (bool_decide (g_attempts g !! _ = Some a)) eqn:Hat; [|done]. simpl.
  apply bool_decide_eq_true in Hat. case_bool_decide as Ho; [done|].
  destruct (_ && _) eqn:He; [done|]. intros [= <- _]. split_and!; try done; [|by exists l].
  apply andb_false_iff in He as [He%negb_false_iff%bool_decide_eq_true|He%negb_false_iff%bool_decide_eq_true];
    [by left|by right].
Qed.

Record gate_inv (m : Machine) : Prop := {
  gi_base : base m;
  gi_fresh : fresh_ids m;
  gi_durable : durable m;
  gi_unique : unique_holders m;
  gi_consumers : consumers_ok m;
  gi_success : success_ok m;
  gi_results : results_ok m;
  gi_context : all_tokens context_ok m;
  gi_targets : targets_ok m;
}.

Lemma initial_gate_inv m : machine_initial m -> gate_inv m.
Proof.
  intros (Hg & Hj & Hc & Ha & Ht & Hk).
  assert (E : forall A (M : gmap nat A) k v, M = ∅ -> M !! k = Some v -> False)
    by (intros A M k v -> H; by rewrite lookup_empty in H).
  assert (B : forall A n (M : gmap nat A), M = ∅ -> below n M)
    by (intros A n M HM k [v Hv]; by destruct (E A M k v HM Hv)).
  split.
  - split; try done; intros c x Hx; by destruct (E _ _ _ _ Hc Hx).
  - split; by apply B.
  - split; intros k v Hv; [by destruct (E _ _ _ _ Ht Hv)|by destruct (E _ _ _ _ Hc Hv)].
  - intros [t|c] k' rc rc' (v & Hv & _); [by destruct (E _ _ _ _ Ht Hv)|
      by destruct (E _ _ _ _ Hc Hv)].
  - split; [intros [t|u] k' c (v & Hv & _)|intros [t|u] c (v & Hv & _)];
      first [by destruct (E _ _ _ _ Hk Hv)|by destruct (E _ _ _ _ Ha Hv)].
  - intros c x Hx. by destruct (E _ _ _ _ Hc Hx).
  - split; intros k v Hv; first [by destruct (E _ _ _ _ Hc Hv)|by destruct (E _ _ _ _ Ht Hv)|
      by destruct (E _ _ _ _ Hk Hv)].
  - intros c x Hx. by destruct (E _ _ _ _ Hc Hx).
  - intros t call u Ht'. by destruct (E _ _ _ _ Hk Ht').
Qed.

Lemma step_gate_inv m m' : machine_step m m' -> gate_inv m -> gate_inv m'.
Proof.
  intros Hs [B Hf D U K S R X T]. split.
  - by eapply step_base.
  - by eapply step_fresh.
  - by eapply step_durable.
  - by eapply step_unique.
  - by eapply step_consumers_ok.
  - by eapply step_success.
  - by eapply step_results.
  - by eapply step_context.
  - by eapply step_targets.
Qed.

Lemma reachable_gate_inv m : machine_reachable m -> gate_inv m.
Proof.
  intros (m0 & Hi & Hst). apply initial_gate_inv in Hi.
  induction Hst as [|m1 m2 m3 Hs _ IH]; [done|]. apply IH. by eapply step_gate_inv.
Qed.

Lemma steps_gate_inv m m' : gate_inv m -> rtc machine_step m m' -> gate_inv m'.
Proof. intros I Hst. revert I. induction Hst; eauto using step_gate_inv. Qed.

(** The gate refines its two components: in every reachable machine the
    governor is a reachable governor and the journal a reachable journal, so
    every theorem on them holds while pairing attempts run. *)
Theorem gate_refines m :
  machine_reachable m -> reachable (m_gov m) /\ ledger_reachable (m_journal m).
Proof. intros Hr. destruct (gi_base m (reachable_gate_inv m Hr)). by split. Qed.

(** C3: A credential authorizes one carrier at most: two authorizations whose
    tokens were admitted for the same credential are the same authorization. *)
Theorem one_authorization_per_credential m u1 u2 a1 a2 x1 x2 :
  machine_reachable m -> m_auths m !! u1 = Some a1 -> m_auths m !! u2 = Some a2 ->
  m_committed m !! au_committed a1 = Some x1 -> m_committed m !! au_committed a2 = Some x2 ->
  rc_credentialID (ca_receipt x1) = rc_credentialID (ca_receipt x2) -> u1 = u2.
Proof.
  intros Hr Ha1 Ha2 Hx1 Hx2 Hc. pose proof (reachable_gate_inv m Hr) as I.
  assert (inr (A := nat) (au_committed a1) = inr (au_committed a2)) as [= E].
  { eapply (gi_unique m I); [by exists x1|by exists x2|done]. }
  assert (inr (A := nat) u1 = inr u2) as [= ?]; [|done].
  apply (cs_unique m (gi_consumers m I) _ _ (au_committed a1)); [by exists a1|by exists a2].
Qed.

(** Every authorization is backed by a durable admission of its own
    request: its token is consumed, the journal holds the burn record of the
    request (as long as the journal decodes), and the request is that of the
    attempt lease, with the lease's identifier and its reserved cost. *)
Theorem authorization_is_backed m u a :
  machine_reachable m -> m_auths m !! u = Some a ->
  exists x l, m_committed m !! au_committed a = Some x /\ ca_consumed x = true /\
    g_aheap (m_gov m) !! ca_attempt x = Some l /\
    par_AttemptID (ca_request x) = req_ID (al_request l) /\
    par_Envelope (ca_request x) = PairingEnvelopeFromAttemptCost (req_Cost (al_request l)) /\
    burned (m_owner m) (ca_request x) (ca_receipt x) (m_journal m).
Proof.
  intros Hr Ha. pose proof (reachable_gate_inv m Hr) as I.
  destruct (cs_consumed m (gi_consumers m I) (inr u) (au_committed a)) as (x & Hx & Hc);
    [by exists a|].
  destruct (du_tokens m (gi_durable m I) _ x Hx) as (q & Hb & Hq).
  destruct (gi_context m I _ x Hx) as [_ Hctx]. destruct (Hq (Hctx Hc)) as [-> (l & Hl & H1 & H2)].
  by exists x, l.
Qed.

(** A granted inspection: the call that emits first found everything in order. *)
Lemma token_inspect_flips t call x ctx held now fresh m u a a' :
  m_auths m !! u = Some a -> au_first a = false ->
  m_auths (token_inspect t call x ctx held now fresh m) !! u = Some a' -> au_first a' = true ->
  tc_method call = BeforeFirstEmission u /\ (ca_hasContext x = true -> held = None) /\
  exists r, inspectPairingAttempt ctx (ca_attempt x) (ca_ownerInstanceID x)
    (par_ExpiresAt (ca_request x)) now fresh (m_owner m) (m_gov m) = (m_gov m, Ok r).
Proof.
  intros Ha Hf. unfold token_inspect. destruct ctx as [ctx|]; [|simpl; congruence].
  destruct (if ca_hasContext x then held else None) eqn:Hh; [simpl; congruence|].
  destruct (inspectPairingAttempt _ _ _ _ _ _ _ _) as [g [r|e]] eqn:Hi; [|simpl; congruence].
  destruct (inspect_Ok _ _ _ _ _ _ _ _ _ _ Hi) as [-> _].
  assert (Hheld : ca_hasContext x = true -> held = None) by (intros E; by rewrite E in Hh).
  unfold token_granted. destruct (tc_method call) as [c|v|v|v e]; simpl.
  - intros E Ht. destruct (decide (m_next m = u)) as [Eu|].
    + rewrite Eu, lookup_insert_eq in E. injection E as <-. done.
    + rewrite lookup_insert_ne in E by done. congruence.
  - destruct (m_auths m !! v) as [b|] eqn:Hv; simpl; [|congruence].
    intros E Ht. destruct (decide (v = u)) as [->|]; [by eauto|].
    rewrite lookup_insert_ne in E by done. congruence.
  - congruence.
  - congruence.
Qed.

(** Only [token_inspect] marks a first emission. *)
Lemma emission_step m m' u a a' :
  machine_step m m' -> m_auths m !! u = Some a -> au_first a = false ->
  m_auths m' !! u = Some a' -> au_first a' = true ->
  exists t call x ctx held now fresh, m_tokens m !! t = Some call /\ tc_phase call = PInspect /\
    m_committed m !! tc_committed call = Some x /\
    m' = token_inspect t call x ctx held now fresh m.
Proof.
  intros Hs Ha Hf Ha' Hf'.
  assert (Hno : forall v b, <[v := b]> (m_auths m) !! u = Some a' ->
    (v = u -> au_first b = false) -> False).
  { intros v b Hv Hb. destruct (decide (v = u)) as [->|].
    - rewrite lookup_insert_eq in Hv. injection Hv as <-. rewrite Hb in Hf'; done.
    - rewrite lookup_insert_ne in Hv by done. congruence. }
  assert (K : m_auths m' <> m_auths m) by congruence.
  revert Ha' K. destruct Hs; try match goal with H : token_start _ _ = Some _ |- _ =>
    unfold token_start, auth_ready in H; break_matches_in H end.
  all: try (match goal with H : tc_phase _ = PInspect |- _ => idtac end; intros; by eauto 12).
  all: intros Ha' K; exfalso; revert Ha' K; machine_unfold; break_machine; intros Ha' K; simplify_eq; simpl in *; try done;
    try (destruct K; apply finish_start_frame);
    try (destruct (Hno _ _ Ha'); by simpl);
    try (destruct (Hno _ _ Ha'); intros ->; simpl; congruence).
Qed.

(** C6: the last check before a first emission.  A transition that marks the
    first emission of an authorization is the inspection of the token call that
    asked for it.  At that moment the lease is registered, not stopping and not
    closed, its operation is allowed, the governor is open and of machine scope,
    its trip status does not block, and the machine owner is held, is the one
    of the admission's receipt and the one the token names, if it names one.
    Whatever the inspection was given (context, clock reading, trip status read
    afresh from the store), the context is live, so is the one the token was
    committed under, the status read afresh does not block, and the credential
    has not expired at that reading. *)
Theorem first_emission_checked m m' u a a' :
  machine_reachable m -> machine_step m m' ->
  m_auths m !! u = Some a -> au_first a = false ->
  m_auths m' !! u = Some a' -> au_first a' = true ->
  exists t call x l, m_tokens m !! t = Some call /\ tc_method call = BeforeFirstEmission u /\
    tc_phase call = PInspect /\ tc_committed call = au_committed a /\
    m_committed m !! au_committed a = Some x /\
    g_aheap (m_gov m) !! ca_attempt x = Some l /\
    g_attempts (m_gov m) !! req_ID (al_request l) = Some (ca_attempt x) /\
    al_stoppingStarted l = false /\ al_closed l = false /\
    pairingOperationAllowed (g_profile (m_gov m)) (req_Operation (al_request l)) = true /\
    machine_scope (m_gov m) = true /\
    g_closed (m_gov m) = false /\ g_closing (m_gov m) = false /\
    ts_BlocksActiveWork (g_trip (m_gov m)) = false /\
    m_owner m <> "" /\ rc_ownerInstanceID (ca_receipt x) = m_owner m /\
    (ca_ownerInstanceID x = "" \/ ca_ownerInstanceID x = m_owner m) /\
    (exists ctx held now fresh, m' = token_inspect t call x ctx held now fresh m) /\
    (forall ctx held now fresh, m' = token_inspect t call x ctx held now fresh m ->
       ctx = Some None /\ (ca_hasContext x = true -> held = None) /\
       ts_BlocksActiveWork fresh = false /\ Before (UTC now) (par_ExpiresAt (ca_request x)) = true).
Proof.
  intros Hr Hs Ha Hf Ha' Hf'. pose proof (reachable_gate_inv m Hr) as I.
  destruct (emission_step m m' u a a' Hs Ha Hf Ha' Hf')
    as (t & call & x & ctx & held & now & fresh & Ht & Hp & Hx & ->).
  destruct (token_inspect_flips _ _ _ _ _ _ _ _ _ _ _ Ha Hf Ha' Hf') as (Hm & _ & r & Hi).
  destruct (gi_targets m I _ call _ Ht Hm) as (b & Hb & Hc). simplify_eq. rewrite <-Hc in Hx.
  destruct (inspect_Ok _ _ _ _ _ _ _ _ _ _ Hi)
    as (_ & _ & H1 & _ & H2 & H3 & _ & H4 & H5 & H6 & l & H7 & H8 & H9 & H10 & H11).
  destruct (du_tokens m (gi_durable m I) _ x Hx) as (q & (_ & _ & _ & Ho) & _).
  exists t, call, x, l. split_and!; try done; [by eauto|].
  intros ctx' held' now' fresh' E. rewrite E in Ha'.
  destruct (token_inspect_flips _ _ _ _ _ _ _ _ _ _ _ Ha Hf Ha' Hf') as (_ & Hh & r' & Hi').
  destruct (inspect_Ok _ _ _ _ _ _ _ _ _ _ Hi') as (_ & ? & _ & ? & _ & _ & ? & _). done.
Qed.

Lemma steps_committed m m' c x : gate_inv m -> rtc machine_step m m' ->
  m_committed m !! c = Some x -> exists y, m_committed m' !! c = Some y /\ same_identity x y.
Proof.
  intros I Hst. revert x I. induction Hst as [m|m1 m2 m3 Hs _ IH]; intros x I Hx; [by exists x|].
  destruct (step_committed m1 m2 c x Hs (fun d => fresh_committed_lt m1 d (gi_fresh m1 I)) Hx)
    as (y & Hy & Hxy).
  destruct (IH y (step_gate_inv _ _ Hs I) Hy) as (z & Hz & Hyz). exists z. split; [done|].
  by etrans.
Qed.

Lemma steps_auths m m' u a : gate_inv m -> rtc machine_step m m' ->
  m_auths m !! u = Some a -> exists b, m_auths m' !! u = Some b /\ auth_grows a b.
Proof.
  intros I Hst. revert a I. induction Hst as [m|m1 m2 m3 Hs _ IH]; intros a I Ha; [by exists a|].
  destruct (step_auths m1 m2 u a Hs (gi_fresh m1 I) Ha) as (b & Hb & E1 & E2).
  destruct (IH b (step_gate_inv _ _ Hs I) Hb) as (d & Hd & E3 & E4). exists d.
  split; [done|]. split; [congruence|auto].
Qed.

(** A terminal reason is chosen once: whatever calls race, a token keeps the
    reason it has chosen, it never becomes unconsumed, and neither its
    [finished] nor its [writerDone] channel is closed twice. *)
Theorem terminal_chosen_once m m' c x :
  machine_reachable m -> rtc machine_step m m' -> m_committed m !! c = Some x ->
  exists y, m_committed m' !! c = Some y /\
    (ca_terminalChosen x = true ->
       ca_terminalChosen y = true /\ ca_terminalReason y = ca_terminalReason x) /\
    (ca_consumed x = true -> ca_consumed y = true) /\
    ca_receipt y = ca_receipt x /\ (ca_finished y <= 1)%nat /\ (ca_writerDone y <= 1)%nat.
Proof.
  intros Hr Hst Hx. pose proof (reachable_gate_inv m Hr) as I.
  destruct (steps_committed m m' c x I Hst Hx) as (y & Hy & _ & Er & _ & _ & _ & _ & Hch & Hco).
  exists y. split; [done|]. pose proof (steps_gate_inv m m' I Hst) as I'.
  pose proof (b_tokens m' (gi_base m' I') c y Hy) as K. split_and!; try done.
  - rewrite (to_finished y K). destruct (is_done _); simpl; lia.
  - rewrite (to_writerDone y K). destruct (written _); simpl; lia.
Qed.

(** A success is recorded only for an attempt that was authorized to emit:
    a token whose chosen terminal reason is success has an authorization whose
    first emission was granted. *)
Theorem success_requires_emission m c x :
  machine_reachable m -> m_committed m !! c = Some x -> ca_terminalChosen x = true ->
  ca_terminalReason x = PairingTerminalSuccess ->
  exists u a, m_auths m !! u = Some a /\ au_committed a = c /\ au_first a = true.
Proof. intros Hr. apply (gi_success m (reachable_gate_inv m Hr)). Qed.

(** The terminal witness is sound.  If the error a [Commit] or a token call
    returned attests a recorded terminal for an attempt, the journal holds a
    FINISH record of the admission behind that call, and the attempt is the one
    the call was given. *)
Theorem terminal_witness_sound m attempt :
  machine_reachable m ->
  (forall t call e, m_commits m !! t = Some call -> cc_phase call = CDone (Err e) ->
    PairingTerminalRecordedForAttempt (Some e) attempt = true ->
    attempt = cc_attempt call /\
    exists r, holds_record r (m_journal m) /\ is_finish r = true /\
      jr_CredentialID r = par_CredentialID (cc_request call) /\
      jr_AttemptID r = par_AttemptID (cc_request call)) /\
  (forall t call e, m_tokens m !! t = Some call -> tc_phase call = PDone (Err e) ->
    PairingTerminalRecordedForAttempt (Some e) attempt = true ->
    exists x r, m_committed m !! tc_committed call = Some x /\ attempt = ca_attempt x /\
      holds_record r (m_journal m) /\ is_finish r = true /\
      jr_CredentialID r = rc_credentialID (ca_receipt x) /\
      jr_AttemptID r = rc_attemptID (ca_receipt x)).
Proof.
  intros Hr. pose proof (reachable_gate_inv m Hr) as I. split.
  - intros t call e Ht Hp Hd. apply bool_decide_eq_true in Hd.
    pose proof (rs_commits m (gi_results m I) t call Ht) as R. unfold commit_result_ok in R.
    rewrite Hp in R. destruct (R _ Hd) as (-> & rc & (r & H1 & H2 & H3 & H4) & E1 & E2).
    split; [done|]. exists r. split_and!; [done|done|congruence|congruence].
  - intros t call e Ht Hp Hd. apply bool_decide_eq_true in Hd.
    pose proof (rs_calls m (gi_results m I) t call Ht) as R. unfold token_result_ok in R.
    rewrite Hp in R. destruct (R _ Hd) as (x & Hx & <- & r & H1 & H2 & H3 & H4). by exists x, r.
Qed.
End theorems.
