(* ===== verification/PairingGateRuns.v ===== *)
(** * Concrete runs of the pairing admission gate

    One attempt that is committed, consumed, authorized to emit and finished,
    and one that fails its post-check after the durable admission. *)
From S2P Require Import Prelude GoStd Limits SafetyTrip Governor GovernorSteps GovernorInv GovernorMicro GovernorLocal GovernorThms GovernorRuns Ledger LedgerSnapshot LedgerOps LedgerReplay LedgerEffects LedgerThms LedgerRuns PairingGate PairingGateInv PairingGateFinish PairingGateThms.

Section reach.
Context {C : LedgerCodec} {St : TripStore} {F : Sprintf}.

Lemma machine_reach m m' : machine_step m m' -> machine_reachable m -> machine_reachable m'.
Proof. intros Hs (m0 & Hi & Hst). exists m0. split; [done|]. by eapply rtc_r. Qed.
End reach.

(** ** The attempt *)

Definition gate_cost : AttemptCost := mkCost (mkResources 1 1 1 10 1) (5 * Second) false.
Definition gate_gov_1 : Governor := (AcquirePeer "p1" machine_start).1.
Definition gate_gov : Governor :=
  (acquireAttempt 0 (Some None) (mkRequest (cred "B") OperationConnectTest gate_cost) false
     no_reply gate_gov_1).1.

Lemma gate_gov_reachable : reachable gate_gov.
Proof.
  eapply (reach_acquire 0 (mkPeer "p1" ∅ false)); [vm_compute; reflexivity..|].
  apply reach_step with machine_start; [apply step_AcquirePeer|]. apply machine_start_reachable.
Qed.

Definition gate_request : PairingAdmissionRequest :=
  mkAdmissionRequest PairingRecordClassOrdinary (cred "A") (cred "B")
    "0000000000000000000000000000000000000000000000000000000000000000" ScopeMachine
    (mkTime (day0 + 310 * Second) true) (PairingEnvelopeFromAttemptCost gate_cost).

Definition gate_time (seconds : Z) : Time := mkTime (day0 + seconds * Second) true.
Definition live : option (option ctxerr) := Some None.

Definition run_0 : Machine := mkMachine owner_id gate_gov created ∅ ∅ ∅ ∅ 0.

Definition call_of (m : Machine) (t : nat) : commit_call :=
  match m_commits m !! t with
  | Some c => c | None => mkCommit 0 gate_request (CDone (Ok 0%nat)) end.
Definition tok_of (m : Machine) (t : nat) : token_call :=
  match m_tokens m !! t with
  | Some c => c | None => mkToken (ConsumeForCarrier 0) 0 (PDone (Ok None)) end.
Definition committed_of (m : Machine) (c : ptr) : CommittedAttempt :=
  match m_committed m !! c with
  | Some x => x
  | None => mkCommitted 0 no_receipt gate_request "" 0 false false false no_terminal None 0 false
              0 None FIdle WNone end.

Definition run_1 := commit_start 1 gate_request live (gate_time 10) clear_status None None run_0.
Definition run_2 := commit_register 0 (call_of run_1 0) owner_id run_1.
Definition run_3 := commit_admit 0 (call_of run_2 0) owner_id 1 (at_time 10) run_2.
Definition gate_receipt : PairingAdmissionReceipt :=
  match cc_phase (call_of run_3 0) with CPost _ _ _ rc => rc | _ => no_receipt end.
Definition run_4 := commit_post 0 (call_of run_3 0) false owner_id 1 gate_receipt None live
  (gate_time 11) clear_status run_3.
Definition run_5 := commit_post 0 (call_of run_4 0) true owner_id 1 gate_receipt None live
  (gate_time 12) clear_status run_4.

Lemma call_of_phase m t p :
  cc_phase <$> m_commits m !! t = Some p ->
  m_commits m !! t = Some (call_of m t) /\ cc_phase (call_of m t) = p.
Proof. unfold call_of. destruct (m_commits m !! t); naive_solver. Qed.
Lemma tok_of_phase m t p :
  tc_phase <$> m_tokens m !! t = Some p ->
  m_tokens m !! t = Some (tok_of m t) /\ tc_phase (tok_of m t) = p.
Proof. unfold tok_of. destruct (m_tokens m !! t); naive_solver. Qed.
Lemma committed_of_lookup m c :
  (if m_committed m !! c then true else false) = true ->
  m_committed m !! c = Some (committed_of m c).
Proof. unfold committed_of. by destruct (m_committed m !! c). Qed.

Lemma run_3_reachable : machine_reachable run_3.
Proof.
  destruct (call_of_phase run_1 0 (CRegister owner_id)) as [H1 P1]; [vm_compute; reflexivity|].
  destruct (call_of_phase run_2 0 (CAdmit owner_id 1)) as [H2 P2]; [vm_compute; reflexivity|].
  apply machine_reach with run_2.
  { exact (ms_commit_admit 0 _ owner_id 1 (at_time 10) run_2 H2 P2). }
  apply machine_reach with run_1; [exact (ms_commit_register 0 _ owner_id run_1 H1 P1)|].
  apply machine_reach with run_0; [apply ms_commit_start|].
  exists run_0. split; [|apply rtc_refl]. split; [exact gate_gov_reachable|].
  split; [exact created_reachable|]. repeat split.
Qed.

Lemma run_5_reachable : machine_reachable run_5.
Proof.
  destruct (call_of_phase run_3 0 (CPost false owner_id 1 gate_receipt)) as [H3 P3];
    [vm_compute; reflexivity|].
  destruct (call_of_phase run_4 0 (CPost true owner_id 1 gate_receipt)) as [H4 P4];
    [vm_compute; reflexivity|].
  apply machine_reach with run_4.
  { exact (ms_commit_post 0 _ true owner_id 1 gate_receipt None live (gate_time 12) clear_status
             run_4 H4 P4). }
  apply machine_reach with run_3; [|exact run_3_reachable].
  exact (ms_commit_post 0 _ false owner_id 1 gate_receipt None live (gate_time 11) clear_status
           run_3 H3 P3).
Qed.

(** The token is [run_5]'s first, at the identifier 1. *)
Definition run_6 : Machine :=
  match token_start (ConsumeForCarrier 1) run_5 with Some m => m | None => run_5 end.
Definition run_7 := token_validate 2 (tok_of run_6 2) (committed_of run_6 1) run_6.
Definition run_8 := token_inspect 2 (tok_of run_7 2) (committed_of run_7 1) live None
  (gate_time 13) clear_status run_7.
(** The authorization is 3. *)
Definition run_9 : Machine :=
  match token_start (BeforeFirstEmission 3) run_8 with Some m => m | None => run_8 end.
Definition run_10 := token_validate 4 (tok_of run_9 4) (committed_of run_9 1) run_9.
Definition run_11 := token_inspect 4 (tok_of run_10 4) (committed_of run_10 1) live None
  (gate_time 14) clear_status run_10.

Lemma start_step method m :
  (if token_start method m then true else false) = true ->
  token_start method m = Some (match token_start method m with Some m' => m' | None => m end).
Proof. by destruct (token_start method m). Qed.

Lemma run_10_reachable : machine_reachable run_10.
Proof.
  destruct (tok_of_phase run_6 2 PValidate) as [H6 P6]; [vm_compute; reflexivity|].
  destruct (tok_of_phase run_7 2 PInspect) as [H7 P7]; [vm_compute; reflexivity|].
  destruct (tok_of_phase run_9 4 PValidate) as [H9 P9]; [vm_compute; reflexivity|].
  assert (C6 : m_committed run_6 !! tc_committed (tok_of run_6 2) = Some (committed_of run_6 1))
    by (vm_compute; reflexivity).
  assert (C7 : m_committed run_7 !! tc_committed (tok_of run_7 2) = Some (committed_of run_7 1))
    by (vm_compute; reflexivity).
  assert (C9 : m_committed run_9 !! tc_committed (tok_of run_9 4) = Some (committed_of run_9 1))
    by (vm_compute; reflexivity).
  assert (S5 : token_start (ConsumeForCarrier 1) run_5 = Some run_6)
    by (apply start_step; vm_compute; reflexivity).
  assert (S8 : token_start (BeforeFirstEmission 3) run_8 = Some run_9)
    by (apply start_step; vm_compute; reflexivity).
  apply machine_reach with run_9; [exact (ms_token_validate 4 _ _ run_9 H9 P9 C9)|].
  apply machine_reach with run_8; [exact (ms_token_start _ run_8 run_9 S8)|].
  apply machine_reach with run_7.
  { exact (ms_token_inspect 2 _ _ live None (gate_time 13) clear_status run_7 H7 P7 C7). }
  apply machine_reach with run_6; [exact (ms_token_validate 2 _ _ run_6 H6 P6 C6)|].
  apply machine_reach with run_5; [exact (ms_token_start _ run_5 run_6 S5)|].
  exact run_5_reachable.
Qed.

Lemma run_11_step : machine_step run_10 run_11.
Proof.
  destruct (tok_of_phase run_10 4 PInspect) as [H P]; [vm_compute; reflexivity|].
  assert (K : m_committed run_10 !! tc_committed (tok_of run_10 4) = Some (committed_of run_10 1))
    by (vm_compute; reflexivity).
  exact (ms_token_inspect 4 _ _ live None (gate_time 14) clear_status run_10 H P K).
Qed.

Lemma run_11_reachable : machine_reachable run_11.
Proof. exact (machine_reach _ _ run_11_step run_10_reachable). Qed.

(** The attempt finishes successfully. *)
Definition run_12 : Machine :=
  match token_start (AuthFinish 3 PairingTerminalSuccess) run_11 with
  | Some m => m | None => run_11 end.
Definition run_13 := fin_write 1 (committed_of run_12 1) (at_time 20) run_12.

Lemma run_12_reachable : machine_reachable run_12.
Proof.
  assert (S : token_start (AuthFinish 3 PairingTerminalSuccess) run_11 = Some run_12)
    by (apply start_step; vm_compute; reflexivity).
  exact (machine_reach _ _ (ms_token_start _ run_11 run_12 S) run_11_reachable).
Qed.

Lemma run_13_step : machine_step run_12 run_13.
Proof.
  assert (K : m_committed run_12 !! 1%nat = Some (committed_of run_12 1))
    by (vm_compute; reflexivity).
  assert (P : ca_finish (committed_of run_12 1) = FWrite) by (vm_compute; reflexivity).
  exact (ms_fin_write 1 _ (at_time 20) run_12 K P).
Qed.

(** A trip of the governor is noticed by the post-check after the admission. *)
Definition blocked : SafetyTripStatus := indeterminateSafetyTripStatus "unreadable".
Definition bad_4 := commit_post 0 (call_of run_3 0) false owner_id 1 gate_receipt None live
  (gate_time 11) blocked run_3.
Definition bad_error : gateerr := GGov (ESafetyTrip blocked).
Definition bad_5 := commit_fail 0 (call_of bad_4 0) 1 gate_receipt bad_error (at_time 12) bad_4.
Definition bad_result : gateerr := GDurable (GJoin [GJoin [rejected; bad_error]]) 1.
Definition bad_6 := commit_complete 0 (call_of bad_5 0) 1 bad_result bad_5.

Lemma bad_6_reachable : machine_reachable bad_6.
Proof.
  destruct (call_of_phase run_3 0 (CPost false owner_id 1 gate_receipt)) as [H3 P3];
    [vm_compute; reflexivity|].
  destruct (call_of_phase bad_4 0 (CFail 1 gate_receipt bad_error)) as [H4 P4];
    [vm_compute; reflexivity|].
  destruct (call_of_phase bad_5 0 (CComplete 1 bad_result)) as [H5 P5];
    [vm_compute; reflexivity|].
  apply machine_reach with bad_5; [exact (ms_commit_complete 0 _ 1 bad_result bad_5 H5 P5)|].
  apply machine_reach with bad_4.
  { exact (ms_commit_fail 0 _ 1 gate_receipt bad_error (at_time 12) bad_4 H4 P4). }
  apply machine_reach with run_3; [|exact run_3_reachable].
  exact (ms_commit_post 0 _ false owner_id 1 gate_receipt None live (gate_time 11) blocked
           run_3 H3 P3).
Qed.

(** ** Witnesses *)

Definition auth_3 : CommittedCarrierAuthorization := mkAuthorization 1 true false.

Lemma run_11_auth : m_auths run_11 !! 3%nat = Some auth_3.
Proof. vm_compute. reflexivity. Qed.

Lemma run_11_token : m_committed run_11 !! au_committed auth_3 = Some (committed_of run_11 1).
Proof. vm_compute. reflexivity. Qed.

Lemma gate_refines_witness : reachable (m_gov run_11) /\ ledger_reachable (m_journal run_11).
Proof. exact (gate_refines run_11 run_11_reachable). Defined.

Lemma one_authorization_witness :
  rc_credentialID (ca_receipt (committed_of run_11 1)) = cred "A" /\ (3 = 3)%nat.
Proof.
  split; [vm_compute; reflexivity|].
  exact (one_authorization_per_credential run_11 3 3 auth_3 auth_3 _ _ run_11_reachable
    run_11_auth run_11_auth run_11_token run_11_token eq_refl).
Defined.

Lemma authorization_is_backed_witness :
  par_CredentialID (ca_request (committed_of run_11 1)) = cred "A" /\
  burned (m_owner run_11) (ca_request (committed_of run_11 1))
    (ca_receipt (committed_of run_11 1)) (m_journal run_11).
Proof.
  split; [vm_compute; reflexivity|].
  destruct (authorization_is_backed run_11 3 auth_3 run_11_reachable run_11_auth)
    as (x & l & Hx & _ & _ & _ & _ & Hb).
  pose proof (Some_inj _ _ (eq_trans (eq_sym run_11_token) Hx)) as E. rewrite E. exact Hb.
Defined.

Lemma first_emission_checked_witness :
  ts_BlocksActiveWork (g_trip (m_gov run_10)) = false /\ m_owner run_10 <> "".
Proof.
  assert (Ha : m_auths run_10 !! 3%nat = Some (mkAuthorization 1 false true))
    by (vm_compute; reflexivity).
  destruct (first_emission_checked run_10 run_11 3 _ auth_3 run_10_reachable run_11_step Ha
    eq_refl run_11_auth eq_refl)
    as (t & call & x & l & _ & _ & _ & _ & _ & _ & _ & _ & _ & _ & _ & _ & _ & Ht & Ho & _).
  split; [exact Ht|exact Ho].
Defined.

Lemma run_12_token : m_committed run_12 !! 1%nat = Some (committed_of run_12 1) /\
  ca_terminalChosen (committed_of run_12 1) = true /\
  ca_terminalReason (committed_of run_12 1) = PairingTerminalSuccess.
Proof. split_and!; vm_compute; reflexivity. Qed.

Lemma terminal_chosen_once_witness :
  exists y, m_committed run_13 !! 1%nat = Some y /\
    ca_terminalReason y = PairingTerminalSuccess.
Proof.
  destruct run_12_token as (Hx & Hc & Hr).
  destruct (terminal_chosen_once run_12 run_13 1 (committed_of run_12 1) run_12_reachable
    (rtc_once _ _ run_13_step) Hx) as (y & Hy & Hch & _).
  exists y. split; [exact Hy|]. rewrite (proj2 (Hch Hc)). exact Hr.
Defined.

Lemma success_requires_emission_witness :
  exists u a, m_auths run_12 !! u = Some a /\ au_committed a = 1%nat /\ au_first a = true.
Proof.
  destruct run_12_token as (Hx & Hc & Hr).
  exact (success_requires_emission run_12 1 (committed_of run_12 1) run_12_reachable Hx Hc Hr).
Defined.

Lemma terminal_witness_sound_witness :
  exists r, holds_record r (m_journal bad_6) /\ is_finish r = true.
Proof.
  destruct (call_of_phase bad_6 0 (CDone (Err bad_result))) as [H P]; [vm_compute; reflexivity|].
  destruct (proj1 (terminal_witness_sound bad_6 1 bad_6_reachable) 0%nat _ bad_result H P)
    as (_ & r & Hr & Hf & _); [vm_compute; reflexivity|].
  exists r. split; [exact Hr|exact Hf].
Defined.
