(* ===== verification/LivenessWire.v ===== *)
(** * In-tunnel control packets (src/internal/v2/gatecorchestrator/echo.go,
    liveness_wire.go; roles of src/internal/v2/directattempt/protocol.go)

    The echo and liveness datagrams of a session are complete IPv4/UDP packets
    bound to the attempt, the context and the role of their sender.  A packet
    is a byte list; the builder assigns its fields one after the other, as the
    source does. *)
From S2P Require Import Prelude GoStd.

(** ** Errors and roles *)
Inductive lerr :=
| errLivenessProtocol
| errLivenessTimeout
| errLivenessClock
| errLivenessBudget
| errLivenessUnavailable
| ErrEchoInvalid
| ErrSessionDrain
| ContextCanceled
| ContextDeadlineExceeded.

#[export] Instance lerr_eq_dec : EqDecision lerr.
Proof. solve_decision. Defined.

Inductive Role :=
| RoleInitiator
| RoleResponder
| RoleOther (s : string).

#[export] Instance Role_eq_dec : EqDecision Role.
Proof. solve_decision. Defined.

Definition Role_Valid (r : Role) : bool :=
  match r with RoleInitiator | RoleResponder => true | RoleOther _ => false end.

Definition Peer (r : Role) : Role :=
  match r with
  | RoleInitiator => RoleResponder
  | RoleResponder => RoleInitiator
  | RoleOther _ => RoleOther ""
  end.

Definition encodeEchoRole (r : Role) : Z :=
  match r with RoleInitiator => 1 | RoleResponder => 2 | RoleOther _ => 0 end.

(** ** [netip.Addr] *)
Inductive Addr :=
| AddrZero
| Addr4 (a b c d : Z)
| Addr6 (bytes : list Z) (zone : string).

#[export] Instance Addr_eq_dec : EqDecision Addr.
Proof. solve_decision. Defined.

Definition Is4 (a : Addr) : bool := match a with Addr4 _ _ _ _ => true | _ => false end.

(** [As4] of an address that satisfies [Is4]. *)
Definition As4 (a : Addr) : list Z :=
  match a with Addr4 a b c d => [a; b; c; d] | _ => [0; 0; 0; 0] end.

(** [IsGlobalUnicast] of an address that satisfies [Is4]: not the unspecified
    or the limited broadcast address, not loopback, multicast or link-local. *)
Definition IsGlobalUnicast4 (x : Addr) : bool :=
  match x with
  | Addr4 a b c d =>
      negb (bool_decide (x = Addr4 0 0 0 0)) && negb (bool_decide (x = Addr4 255 255 255 255))
      && negb (a =? 127) && negb (Z.land a 240 =? 224) && negb ((a =? 169) && (b =? 254))
  | _ => false
  end.

Record echoBinding := mkBinding {
  eb_Role : Role;
  eb_Local : Addr;
  eb_Remote : Addr;
  eb_AttemptID : string;
  eb_ContextDigest : list Z;
}.

Definition validEchoBinding (b : echoBinding) : bool :=
  Role_Valid (eb_Role b) && Is4 (eb_Local b) && Is4 (eb_Remote b)
  && negb (bool_decide (eb_Local b = eb_Remote b))
  && IsGlobalUnicast4 (eb_Local b) && IsGlobalUnicast4 (eb_Remote b)
  && negb (bool_decide (eb_AttemptID b = "")).

(** ** Buffers and checksums *)

Definition make_bytes (n : nat) : list Z := replicate n 0.

(** [copy(b[i:], src)] where [src] fits. *)
Definition copy_at (i : nat) (src b : list Z) : list Z :=
  take i b ++ src ++ drop (i + length src) b.

(** [binary.BigEndian.PutUint16(b[i:i+2], v)] and [PutUint64]. *)
Definition put16 (i : nat) (v : Z) (b : list Z) : list Z := copy_at i (be_encode 2 v) b.
Definition put64 (i : nat) (v : Z) (b : list Z) : list Z := copy_at i (be_encode 8 v) b.
Definition get16 (i : Z) (b : list Z) : Z := be_decode (slice i (i + 2) b).

Definition u16 (x : Z) : Z := x mod 2 ^ 16.
Definition u32 (x : Z) : Z := x mod 2 ^ 32.

(** [for i...; i+1 < len; i += 2 { sum += uint32(Uint16(b[i:i+2])) }]. *)
Fixpoint add_words (sum : Z) (b : list Z) : Z :=
  match b with
  | hi :: lo :: b' => add_words (u32 (sum + be_decode [hi; lo])) b'
  | _ => sum
  end.

(** [for sum > 0xffff { sum = sum&0xffff + sum>>16 }]: two rounds are enough
    for a 32-bit sum ([fold16_range]). *)
Fixpoint fold16 (fuel : nat) (sum : Z) : Z :=
  match fuel with
  | O => sum
  | S fuel' =>
      if 65535 <? sum then fold16 fuel' (u32 (Z.land sum 65535 + Z.shiftr sum 16)) else sum
  end.

(** [^uint16(sum)] after the carries are folded in. *)
Definition finish_checksum (sum : Z) : Z := Z.lxor (u16 (fold16 2 sum)) 65535.

Definition ipv4Checksum (header : list Z) : Z := finish_checksum (add_words 0 header).

Definition livenessUDPChecksum (b : list Z) : Z :=
  finish_checksum
    (add_words (u32 (add_words 0 (slice 12 20 b) + (17 + (blen b - 20)))) (drop 20 b)).

Fixpoint equal_loop (difference : Z) (left right : list Z) : Z :=
  match left, right with
  | l :: left', r :: right' => equal_loop (Z.lor difference (Z.lxor l r)) left' right'
  | _, _ => difference
  end.

Definition equalBytes (left right : list Z) : bool :=
  if negb (blen left =? blen right) then false else equal_loop 0 left right =? 0.

(** ** SHA-256 *)
Class Sha256 := sum256 : list Z -> list Z.

Class Sha256Laws (H : Sha256) :=
  sum256_bytes : forall data, length (sum256 data) = 32%nat /\ Forall is_byte (sum256 data).

(** ** Messages *)
Definition echoPort : Z := 32112.
Definition echoPayloadSize : Z := 48.
Definition echoPacketSize : Z := 20 + 8 + echoPayloadSize.
Definition echoRequest : Z := 1.
Definition echoResponse : Z := 2.
Definition echoClose : Z := 3.
Definition livenessPort : Z := 32113.
Definition livenessPayloadSize : Z := 64.
Definition livenessPacketSize : Z := 20 + 8 + livenessPayloadSize.
Definition livenessPing : Z := 1.
Definition livenessPong : Z := 2.

Definition validEchoKind (kind : Z) : bool :=
  (kind =? echoRequest) || (kind =? echoResponse) || (kind =? echoClose).

Record echoMessage := mkEcho { em_Kind : Z; em_Role : Role; em_Nonce : list Z }.

Record livenessMessage := mkMessage { lm_kind : Z; lm_sequence : Z; lm_nonce : list Z }.

#[export] Instance livenessMessage_eq_dec : EqDecision livenessMessage.
Proof. solve_decision. Defined.

Section codecs.
Context {H : Sha256}.

Definition echo_attempt_digest (binding : echoBinding) : list Z :=
  sum256 (string_bytes "winkyou-gate-c-attempt/1" ++ [0]
          ++ string_bytes (eb_AttemptID binding)).

Definition liveness_attempt_digest (binding : echoBinding) : list Z :=
  sum256 (string_bytes "winkyou-gate-c-liveness-attempt/1" ++ [0]
          ++ string_bytes (eb_AttemptID binding)).

Definition buildEchoPacket (binding : echoBinding) (kind : Z) (nonce : list Z)
    : res lerr (list Z) :=
  if negb (validEchoBinding binding) || negb (validEchoKind kind) then Err ErrEchoInvalid else
  let p := make_bytes (Z.to_nat echoPayloadSize) in
  let p := copy_at 0 (string_bytes "WYCE") p in
  let p := copy_at 4 [1; kind; encodeEchoRole (eb_Role binding); 0] p in
  let p := copy_at 8 (take 16 (echo_attempt_digest binding)) p in
  let p := copy_at 24 (take 16 (eb_ContextDigest binding)) p in
  let p := copy_at 40 nonce p in
  let b := make_bytes (Z.to_nat echoPacketSize) in
  let b := copy_at 0 [69] b in
  let b := put16 2 (blen b) b in
  let b := copy_at 8 [64; 17] b in
  let b := copy_at 12 (As4 (eb_Local binding)) b in
  let b := copy_at 16 (As4 (eb_Remote binding)) b in
  let b := put16 10 (ipv4Checksum (take 20 b)) b in
  let b := put16 20 echoPort b in
  let b := put16 22 echoPort b in
  let b := put16 24 (u16 (8 + blen p)) b in
  Ok (copy_at 28 p b).

Definition parseEchoPacket (b : list Z) (binding : echoBinding) (wantKind : Z)
    (wantNonce : option (list Z)) : res lerr echoMessage :=
  if negb (validEchoBinding binding) || negb (validEchoKind wantKind)
     || negb (blen b =? echoPacketSize) || negb (byte_at 0 b =? 69)
     || negb (get16 2 b =? echoPacketSize) || negb (byte_at 9 b =? 17)
     || negb (ipv4Checksum (take 20 b) =? 0) || negb (get16 20 b =? echoPort)
     || negb (get16 22 b =? echoPort) || negb (get16 24 b =? 8 + echoPayloadSize)
  then Err ErrEchoInvalid else
  let source := Addr4 (byte_at 12 b) (byte_at 13 b) (byte_at 14 b) (byte_at 15 b) in
  let destination := Addr4 (byte_at 16 b) (byte_at 17 b) (byte_at 18 b) (byte_at 19 b) in
  if negb (bool_decide (source = eb_Remote binding))
     || negb (bool_decide (destination = eb_Local binding)) then Err ErrEchoInvalid else
  let p := drop 28 b in
  let peerRole := Peer (eb_Role binding) in
  if negb (bytes_eqb (slice 0 4 p) (string_bytes "WYCE")) || negb (byte_at 4 p =? 1)
     || negb (byte_at 5 p =? wantKind) || negb (byte_at 6 p =? encodeEchoRole peerRole)
     || negb (byte_at 7 p =? 0) then Err ErrEchoInvalid else
  if negb (equalBytes (slice 8 24 p) (take 16 (echo_attempt_digest binding))
           && equalBytes (slice 24 40 p) (take 16 (eb_ContextDigest binding)))
  then Err ErrEchoInvalid else
  let nonce := slice 40 48 p in
  match wantNonce with
  | Some want => if negb (bytes_eqb nonce want) then Err ErrEchoInvalid
                 else Ok (mkEcho wantKind peerRole nonce)
  | None => Ok (mkEcho wantKind peerRole nonce)
  end.

Definition buildLivenessPacket (binding : echoBinding) (message : livenessMessage)
    : res lerr (list Z) :=
  if negb (validEchoBinding binding) || (lm_sequence message =? 0)
     || (negb (lm_kind message =? livenessPing) && negb (lm_kind message =? livenessPong))
  then Err errLivenessProtocol else
  let b := make_bytes (Z.to_nat livenessPacketSize) in
  let b := copy_at 0 [69] b in
  let b := copy_at 8 [64; 17] b in
  let b := put16 2 livenessPacketSize b in
  let b := copy_at 12 (As4 (eb_Local binding)) b in
  let b := copy_at 16 (As4 (eb_Remote binding)) b in
  let b := put16 10 (ipv4Checksum (take 20 b)) b in
  let b := put16 20 livenessPort b in
  let b := put16 22 livenessPort b in
  let b := put16 24 (8 + livenessPayloadSize) b in
  let b := copy_at 28 (string_bytes "WYCL") b in
  let b := copy_at 32 [1; lm_kind message; encodeEchoRole (eb_Role binding)] b in
  let b := copy_at 36 (take 16 (liveness_attempt_digest binding)) b in
  let b := copy_at 52 (take 16 (eb_ContextDigest binding)) b in
  let b := put64 68 (lm_sequence message) b in
  let b := copy_at 76 (lm_nonce message) b in
  let checksum := livenessUDPChecksum b in
  let checksum := if checksum =? 0 then 65535 else checksum in
  Ok (put16 26 checksum b).

Definition parseLivenessPacket (b : list Z) (binding : echoBinding)
    : res lerr livenessMessage :=
  if negb (validEchoBinding binding) || negb (blen b =? livenessPacketSize)
     || negb (byte_at 0 b =? 69) || negb (byte_at 9 b =? 17)
     || negb (get16 2 b =? livenessPacketSize) || negb (Z.land (get16 6 b) 49151 =? 0)
     || negb (ipv4Checksum (take 20 b) =? 0) || negb (get16 20 b =? livenessPort)
     || negb (get16 22 b =? livenessPort) || negb (get16 24 b =? 8 + livenessPayloadSize)
     || (get16 26 b =? 0) || negb (livenessUDPChecksum b =? 0)
  then Err errLivenessProtocol else
  let p := drop 28 b in
  if negb (equalBytes (slice 12 16 b) (As4 (eb_Remote binding)))
     || negb (equalBytes (slice 16 20 b) (As4 (eb_Local binding)))
     || negb (bytes_eqb (slice 0 4 p) (string_bytes "WYCL")) || negb (byte_at 4 p =? 1)
     || (negb (byte_at 5 p =? livenessPing) && negb (byte_at 5 p =? livenessPong))
     || negb (byte_at 6 p =? encodeEchoRole (Peer (eb_Role binding)))
     || negb (byte_at 7 p =? 0)
     || negb (equalBytes (slice 8 24 p) (take 16 (liveness_attempt_digest binding)))
     || negb (equalBytes (slice 24 40 p) (take 16 (eb_ContextDigest binding)))
  then Err errLivenessProtocol else
  let m := mkMessage (byte_at 5 p) (be_decode (slice 40 48 p)) (slice 48 64 p) in
  if lm_sequence m =? 0 then Err errLivenessProtocol else Ok m.
End codecs.
