(* ===== verification/LivenessWireThms.v ===== *)
(** * Correctness of the in-tunnel control packets

    Internet checksums verify after they are written, what one side builds the
    other side parses, and a parsed packet carries exactly the binding of the
    peer. *)
From S2P Require Import Prelude GoStd LivenessWire.

(** ** Ones'-complement sums *)

Lemma lxor_16 x : 0 <= x < 65536 -> Z.lxor x 65535 = 65535 - x.
Proof.
  intros Hx.
  assert (E : Z.land x (Z.lxor x 65535) = 0).
  { apply Z.bits_inj'. intros i Hi.
    rewrite Z.land_spec, Z.lxor_spec, Z.bits_0.
    change 65535 with (Z.ones 16). destruct (decide (i < 16)).
    - rewrite Z.ones_spec_low by lia. by destruct (Z.testbit x i).
    - rewrite <-(Z.mod_small x (2 ^ 16)) by (simpl; lia).
      by rewrite Z.mod_pow2_bits_high by lia. }
  apply Z.add_nocarry_lxor in E.
  rewrite <-Z.lxor_assoc, Z.lxor_nilpotent, Z.lxor_0_l in E. lia.
Qed.

Lemma fold16_step x :
  0 <= x < 2 ^ 32 ->
  u32 (Z.land x 65535 + Z.shiftr x 16) = x mod 65536 + x / 65536.
Proof.
  intros Hx. unfold u32. change 65535 with (Z.ones 16).
  rewrite Z.land_ones, Z.shiftr_div_pow2 by lia. change (2 ^ 16) with 65536.
  apply Z.mod_small. pose proof (Z.mod_pos_bound x 65536).
  assert (x / 65536 < 65536) by (apply Z.div_lt_upper_bound; lia).
  assert (0 <= x / 65536) by (apply Z.div_pos; lia). lia.
Qed.

(** Two rounds suffice, keep the residue modulo 65535 and never reach zero. *)
Lemma fold16_range x :
  0 < x < 2 ^ 32 ->
  0 < fold16 2 x <= 65535 /\ (65535 | fold16 2 x - x).
Proof.
  intros Hx. assert (Hstep : forall y, 65535 < y < 2 ^ 32 ->
    0 < y mod 65536 + y / 65536 /\ (65535 | (y mod 65536 + y / 65536) - y)).
  { intros y Hy. pose proof (Z.div_mod y 65536). pose proof (Z.mod_pos_bound y 65536).
    assert (0 < y / 65536) by (apply Z.div_str_pos; lia).
    split; [lia|]. exists (- (y / 65536)). lia. }
  unfold fold16. destruct (Z.ltb_spec 65535 x) as [H1|]; [|split; [lia | exists 0; lia]].
  rewrite fold16_step by lia. destruct (Hstep x ltac:(lia)) as [Hp1 Hd1].
  assert (Hb : x mod 65536 + x / 65536 <= 131070).
  { pose proof (Z.mod_pos_bound x 65536). assert (x / 65536 < 65536).
    { apply Z.div_lt_upper_bound; lia. } lia. }
  set (y := x mod 65536 + x / 65536) in *. clearbody y.
  destruct (Z.ltb_spec 65535 y) as [H2|]; [|done].
  rewrite fold16_step by lia. destruct (Hstep y ltac:(lia)) as [Hp2 Hd2].
  assert (y / 65536 = 1) by (symmetry; apply Z.div_unique with (y - 65536); lia).
  pose proof (Z.div_mod y 65536). split; [lia|].
  replace (_ - x) with ((y mod 65536 + y / 65536 - y) + (y - x)) by lia.
  by apply Z.divide_add_r.
Qed.

Lemma finish_checksum_range x : 0 <= finish_checksum x < 65536.
Proof.
  unfold finish_checksum, u16. pose proof (Z.mod_pos_bound (fold16 2 x) (2 ^ 16) eq_refl).
  rewrite lxor_16 by lia. lia.
Qed.

Lemma finish_checksum_eq x : 0 < x < 2 ^ 32 -> finish_checksum x = 65535 - fold16 2 x.
Proof.
  intros Hx. destruct (fold16_range x Hx) as [Hr _]. unfold finish_checksum, u16.
  rewrite Z.mod_small, lxor_16 by lia. done.
Qed.

(** A sum to which its checksum (or its ones'-complement twin) has been added
    verifies. *)
Lemma checksum_verifies s c :
  0 < s < 2 ^ 31 -> c = finish_checksum s \/ (c = 65535 /\ finish_checksum s = 0) ->
  finish_checksum (s + c) = 0.
Proof.
  intros Hs Hc. destruct (fold16_range s ltac:(lia)) as [Hr [k Hk]].
  rewrite (finish_checksum_eq s) in Hc by lia.
  assert (0 <= c <= 65535) by lia.
  destruct (fold16_range (s + c) ltac:(lia)) as [Hr' [k' Hk']].
  rewrite finish_checksum_eq by lia.
  assert (exists j, fold16 2 (s + c) = 65535 * j) as [j Hj]; [|nia].
  destruct Hc as [->|[-> Hz]].
  - exists (k' + 1 - k). lia.
  - assert (fold16 2 s = 65535) by lia. exists (k' + 1 + (1 - k)). lia.
Qed.

(** ** Sums of words *)

Lemma be_decode2 a b : be_decode [a; b] = a * 256 + b.
Proof. unfold be_decode. simpl. lia. Qed.

(** The exact sum, without wrap-around. *)
Fixpoint words (b : list Z) : Z :=
  match b with hi :: lo :: b' => (hi * 256 + lo) + words b' | _ => 0 end.

Lemma words_range b :
  Forall is_byte b -> 0 <= words b <= 32768 * Z.of_nat (length b).
Proof.
  revert b. fix IH 1. intros [|x [|y b]] Hb; [simpl; lia..|].
  apply Forall_cons in Hb as [Hx [Hy Hb]%Forall_cons]. specialize (IH b Hb).
  unfold is_byte in *. simpl length. cbn [words]. lia.
Qed.

Lemma add_words_words b s :
  Forall is_byte b -> 0 <= s -> s + 32768 * Z.of_nat (length b) < 2 ^ 32 ->
  add_words s b = s + words b.
Proof.
  revert b s. fix IH 1. intros [|x [|y b]] s Hb Hs Hl; [simpl; lia..|].
  apply Forall_cons in Hb as [Hx [Hy Hb]%Forall_cons]. unfold is_byte in *.
  cbn [add_words words]. rewrite be_decode2. unfold u32. simpl length in Hl.
  rewrite Z.mod_small by lia. rewrite IH; [lia|done|lia|lia].
Qed.

Lemma words_app a b : Nat.even (length a) = true -> words (a ++ b) = words a + words b.
Proof.
  revert a. fix IH 1. intros [|x [|y a]] Hev; [done|done|].
  cbn [app words]. rewrite IH by done. lia.
Qed.

Lemma words_be16 v : 0 <= v < 65536 -> words (be_encode 2 v) = v.
Proof.
  intros Hv. simpl. rewrite Z.div_1_r.
  pose proof (Z.div_mod v 256). pose proof (Z.mod_pos_bound v 256).
  rewrite (Z.mod_small (v / 256)); [lia|].
  split; [apply Z.div_pos; lia | apply Z.div_lt_upper_bound; lia].
Qed.

(** ** Constant-time comparison *)

Lemma equal_loop_zero d l r :
  length l = length r -> equal_loop d l r = 0 <-> d = 0 /\ l = r.
Proof.
  revert d r. induction l as [|x l IH]; intros d [|y r] Hl; try done; simpl.
  - naive_solver.
  - rewrite IH by (simpl in Hl; lia). rewrite Z.lor_eq_0_iff, Z.lxor_eq_0_iff.
    naive_solver.
Qed.

Lemma equalBytes_eq l r : equalBytes l r = true <-> l = r.
Proof.
  unfold equalBytes, blen. destruct (Z.eqb_spec (Z.of_nat (length l)) (Z.of_nat (length r)));
    simpl.
  - rewrite Z.eqb_eq, equal_loop_zero by lia. naive_solver.
  - split; [done|]. intros ->. done.
Qed.

(** ** Typing

    The Go types bound what a model value may hold: [netip.Addr] has bytes,
    [[32]byte] and [[16]byte] have their lengths, [uint64] its range. *)
Definition bytes_of (n : nat) (l : list Z) : Prop := length l = n /\ Forall is_byte l.

Definition addr_wf (a : Addr) : Prop := Forall is_byte (As4 a).

Record binding_wf (b : echoBinding) : Prop := {
  bw_local : addr_wf (eb_Local b);
  bw_remote : addr_wf (eb_Remote b);
  bw_digest : bytes_of 32 (eb_ContextDigest b);
}.

Record message_wf (m : livenessMessage) : Prop := {
  mw_kind : is_byte (lm_kind m);
  mw_sequence : 0 <= lm_sequence m < 2 ^ 64;
  mw_nonce : bytes_of 16 (lm_nonce m);
}.

(** The binding of the other side of the session. *)
Definition peer_binding (b : echoBinding) : echoBinding :=
  mkBinding (Peer (eb_Role b)) (eb_Remote b) (eb_Local b) (eb_AttemptID b) (eb_ContextDigest b).

Lemma peer_binding_involutive b :
  validEchoBinding b = true -> peer_binding (peer_binding b) = b.
Proof. destruct b as [[] ????]; done. Qed.

Lemma peer_binding_valid b :
  validEchoBinding b = true -> validEchoBinding (peer_binding b) = true.
Proof.
  unfold validEchoBinding. destruct b as [r l r' a d]; simpl. intros Hv.
  repeat (apply andb_true_iff in Hv as [Hv ?]). destruct r; try done;
  rewrite !andb_true_iff; split_and!; try done;
  rewrite negb_true_iff, bool_decide_eq_false in *; naive_solver.
Qed.

Lemma take_bytes n k l : (n <= k)%nat -> bytes_of k l -> bytes_of n (take n l).
Proof.
  intros Hn [Hl Hb]. split; [rewrite length_take; lia | by apply Forall_take].
Qed.

Lemma be_encode_bytes n v : bytes_of n (be_encode n v).
Proof. split; [apply be_encode_length | apply be_encode_is_byte]. Qed.

(** ** Layout of a packet *)

Definition ip_header (size : Z) (src dst : list Z) (c : Z) : list Z :=
  [69; 0] ++ be_encode 2 size ++ [0; 0; 0; 0; 64; 17] ++ be_encode 2 c ++ src ++ dst.

Definition udp_header (port size c : Z) : list Z :=
  be_encode 2 port ++ be_encode 2 port ++ be_encode 2 size ++ be_encode 2 c.

Definition control_payload (magic : string) (kind : Z) (role : Role)
    (digest context rest : list Z) : list Z :=
  string_bytes magic ++ [1; kind; encodeEchoRole role; 0] ++ digest ++ context ++ rest.

(** [explode L n] replaces a list of length [n] by its elements. *)
Ltac explode L :=
  repeat match goal with
  | Hl : length L = S _ |- _ =>
      let x := fresh "x" in destruct L as [|x L]; [discriminate Hl|]; simpl in Hl;
      apply Nat.succ_inj in Hl
  | Hl : length L = O |- _ => apply nil_length_inv in Hl; subst L
  end.

(** The two bytes of a 16-bit field. *)
Lemma be_encode_2 v : be_encode 2 v = [(v / 256) mod 256; v mod 256].
Proof. simpl. by rewrite Z.div_1_r. Qed.

(** [run_copies] performs the assignments of a builder, the first one first,
    once every source is an explicit list. *)
Ltac run_copies :=
  repeat match goal with
  | |- context [copy_at ?i ?src ?b] =>
      lazymatch b with context [copy_at] => fail | _ =>
        let r := eval cbv [copy_at take drop app length Nat.add make_bytes replicate
          string_bytes echoPacketSize echoPayloadSize livenessPacketSize livenessPayloadSize
          Z.to_nat Pos.to_nat Pos.iter_op Z.add Pos.add Pos.succ Ascii.N_of_ascii
          Ascii.N_of_digits N.add N.mul Pos.mul Z.of_N] in (copy_at i src b) in
        change (copy_at i src b) with r
      end
  end.

Section layout.
Context {H : Sha256} `{!Sha256Laws H}.

Definition liveness_payload (b : echoBinding) (m : livenessMessage) : list Z :=
  control_payload "WYCL" (lm_kind m) (eb_Role b) (take 16 (liveness_attempt_digest b))
    (take 16 (eb_ContextDigest b)) (be_encode 8 (lm_sequence m) ++ lm_nonce m).

Definition liveness_ip (b : echoBinding) (c : Z) : list Z :=
  ip_header livenessPacketSize (As4 (eb_Local b)) (As4 (eb_Remote b)) c.

Definition liveness_packet (b : echoBinding) (m : livenessMessage) (c c' : Z) : list Z :=
  liveness_ip b c ++ udp_header livenessPort 72 c' ++ liveness_payload b m.

Lemma attempt_digest_bytes b : bytes_of 16 (take 16 (liveness_attempt_digest b)).
Proof. apply (take_bytes 16 32); [lia|]. apply sum256_bytes. Qed.

Lemma liveness_packet_length b m c c' :
  Is4 (eb_Local b) = true -> Is4 (eb_Remote b) = true -> binding_wf b -> message_wf m ->
  length (liveness_packet b m c c') = 92%nat.
Proof.
  intros Hl Hr Hb Hm. destruct (eb_Local b), (eb_Remote b); try done.
  unfold liveness_packet, liveness_ip, ip_header, udp_header, liveness_payload, control_payload.
  rewrite !length_app, !be_encode_length, (proj1 (attempt_digest_bytes b)).
  rewrite (proj1 (take_bytes 16 32 _ ltac:(lia) (bw_digest _ Hb))), (proj1 (mw_nonce _ Hm)).
  destruct (eb_Local b), (eb_Remote b); try done.
Qed.

Definition ip_checksum (b : echoBinding) : Z := ipv4Checksum (liveness_ip b 0).
Definition udp_checksum (b : echoBinding) (m : livenessMessage) : Z :=
  livenessUDPChecksum (liveness_packet b m (ip_checksum b) 0).
Definition udp_field (b : echoBinding) (m : livenessMessage) : Z :=
  if udp_checksum b m =? 0 then 65535 else udp_checksum b m.

Definition sendable (b : echoBinding) (m : livenessMessage) : bool :=
  validEchoBinding b && negb (lm_sequence m =? 0)
  && ((lm_kind m =? livenessPing) || (lm_kind m =? livenessPong)).

(** The assignments of the builder produce the layout. *)
Lemma build_layout b m :
  sendable b m = true -> binding_wf b -> message_wf m ->
  buildLivenessPacket b m = Ok (liveness_packet b m (ip_checksum b) (udp_field b m)).
Proof.
  unfold sendable. rewrite !andb_true_iff, negb_true_iff. intros [[Hv Hs] Hk] Hb Hm.
  unfold buildLivenessPacket. rewrite Hv, Hs. simpl (negb true || false).
  replace (negb (lm_kind m =? livenessPing) && negb (lm_kind m =? livenessPong)) with false
    by (by destruct (lm_kind m =? livenessPing), (lm_kind m =? livenessPong)).
  cbv zeta. simpl orb. f_equal.
  assert (Is4 (eb_Local b) = true /\ Is4 (eb_Remote b) = true) as [H1 H2].
  { unfold validEchoBinding in Hv. by repeat (apply andb_true_iff in Hv as [Hv ?]). }
  unfold udp_field, udp_checksum, ip_checksum.
  unfold liveness_packet, liveness_payload, liveness_ip.
  destruct (attempt_digest_bytes b) as [HD _].
  destruct (take_bytes 16 32 _ ltac:(lia) (bw_digest _ Hb)) as [HC _].
  destruct (mw_nonce _ Hm) as [HN _].
  set (D := take 16 (liveness_attempt_digest b)) in *. clearbody D.
  set (C := take 16 (eb_ContextDigest b)) in *. clearbody C.
  set (N := lm_nonce m) in *. clearbody N.
  unfold put64. pose proof (be_encode_length 8 (lm_sequence m)) as HS.
  set (Sq := be_encode 8 (lm_sequence m)) in *. clearbody Sq.
  destruct (eb_Local b) as [|a1 a2 a3 a4|], (eb_Remote b) as [|b1 b2 b3 b4|]; try done.
  explode D. explode C. explode N. explode Sq.
  unfold put16, ip_header, udp_header, control_payload. simpl As4. rewrite !be_encode_2.
  run_copies. reflexivity.
Qed.

(** The builder fails on nothing else. *)
Lemma build_total b m : sendable b m = true -> exists p, buildLivenessPacket b m = Ok p.
Proof.
  intros Hs. unfold buildLivenessPacket.
  replace (negb (validEchoBinding b) || (lm_sequence m =? 0)
     || (negb (lm_kind m =? livenessPing) && negb (lm_kind m =? livenessPong))) with false.
  - eexists. reflexivity.
  - unfold sendable in Hs. destruct (validEchoBinding b), (lm_sequence m =? 0),
      (lm_kind m =? livenessPing), (lm_kind m =? livenessPong); done.
Qed.

Lemma ip_checksum_range b : 0 <= ip_checksum b < 65536.
Proof. apply finish_checksum_range. Qed.

Lemma udp_field_range b m : 0 < udp_field b m < 65536.
Proof.
  unfold udp_field. pose proof (finish_checksum_range : forall x, _) as Hr.
  assert (0 <= udp_checksum b m < 65536) by apply Hr.
  destruct (Z.eqb_spec (udp_checksum b m) 0); lia.
Qed.

(** The exact sum behind the checksum of an IPv4 header with four address
    bytes at each end. *)
Lemma ip_sum size src dst c :
  bytes_of 4 src -> bytes_of 4 dst -> 0 <= c < 65536 ->
  ipv4Checksum (ip_header size src dst c) = finish_checksum (words (ip_header size src dst 0) + c)
  /\ 0 < words (ip_header size src dst 0) < 2 ^ 30.
Proof.
  intros [Hs Hsb] [Hd Hdb] Hc. unfold ip_header.
  assert (E : forall v, 0 <= v < 65536 ->
    words ([69; 0] ++ be_encode 2 size ++ [0; 0; 0; 0; 64; 17] ++ be_encode 2 v ++ src ++ dst)
    = 17664 + words (be_encode 2 size) + 16401 + v + (words src + words dst)).
  { intros v Hv. rewrite !words_app by (rewrite ?be_encode_length, ?Hs; done).
    rewrite (words_be16 v) by done. cbn [words]. lia. }
  assert (Hb : forall v, Forall is_byte
    ([69; 0] ++ be_encode 2 size ++ [0; 0; 0; 0; 64; 17] ++ be_encode 2 v ++ src ++ dst)).
  { intros v. repeat (apply Forall_app; split); try apply be_encode_is_byte; try done;
      repeat constructor; unfold is_byte; lia. }
  assert (Hl : forall v, length
    ([69; 0] ++ be_encode 2 size ++ [0; 0; 0; 0; 64; 17] ++ be_encode 2 v ++ src ++ dst) = 20%nat).
  { intros v. by rewrite !length_app, !be_encode_length, Hs, Hd. }
  unfold ipv4Checksum. rewrite add_words_words; [|done|lia|rewrite Hl; lia].
  rewrite !E by lia. split; [f_equal; lia|].
  pose proof (words_range (be_encode 2 size) (be_encode_is_byte _ _)) as R1.
  pose proof (words_range src Hsb) as R2. pose proof (words_range dst Hdb) as R3.
  rewrite be_encode_length in R1. rewrite Hs in R2. rewrite Hd in R3. lia.
Qed.

Lemma As4_bytes a : addr_wf a -> bytes_of 4 (As4 a).
Proof. intros Ha. split; [by destruct a | done]. Qed.

Lemma ip_verifies b :
  binding_wf b -> ipv4Checksum (liveness_ip b (ip_checksum b)) = 0.
Proof.
  intros [Hl Hr _]. unfold ip_checksum, liveness_ip.
  destruct (ip_sum livenessPacketSize _ _ 0 (As4_bytes _ Hl) (As4_bytes _ Hr) ltac:(lia))
    as [E0 Hp].
  destruct (ip_sum livenessPacketSize _ _ (ip_checksum b) (As4_bytes _ Hl) (As4_bytes _ Hr)
    (ip_checksum_range b)) as [E1 _].
  unfold ip_checksum, liveness_ip in E1. rewrite E1, E0, Z.add_0_r.
  apply checksum_verifies; [lia | by left].
Qed.

Lemma valid_Is4 b :
  validEchoBinding b = true -> Is4 (eb_Local b) = true /\ Is4 (eb_Remote b) = true.
Proof. unfold validEchoBinding. rewrite !andb_true_iff. naive_solver. Qed.

Lemma liveness_payload_bytes b m :
  binding_wf b -> message_wf m -> bytes_of 64 (liveness_payload b m).
Proof.
  intros Hb Hm. destruct (attempt_digest_bytes b) as [D1 D2].
  destruct (take_bytes 16 32 _ ltac:(lia) (bw_digest _ Hb)) as [C1 C2].
  destruct (mw_nonce _ Hm) as [N1 N2]. pose proof (mw_kind _ Hm) as Hk.
  unfold liveness_payload, control_payload. split.
  - by rewrite !length_app, be_encode_length, D1, C1, N1.
  - repeat (apply Forall_app; split); try done; try apply be_encode_is_byte.
    + apply string_bytes_is_byte.
    + repeat (apply Forall_cons; split); [..|by apply Forall_nil];
        unfold is_byte in *; destruct (eb_Role b); simpl; lia.
Qed.

(** The exact sum behind the checksum of a liveness packet. *)
Lemma udp_sum b m c c' :
  validEchoBinding b = true -> binding_wf b -> message_wf m -> 0 <= c' < 65536 ->
  exists s, 0 < s < 2 ^ 31 /\ forall v, 0 <= v < 65536 ->
    livenessUDPChecksum (liveness_packet b m c v) = finish_checksum (s + v).
Proof.
  intros Hv Hb Hm Hc'. destruct (valid_Is4 b Hv) as [H1 H2].
  destruct (As4_bytes _ (bw_local _ Hb)) as [L1 L2].
  destruct (As4_bytes _ (bw_remote _ Hb)) as [R1 R2].
  destruct (liveness_payload_bytes b m Hb Hm) as [P1 P2].
  exists (words (As4 (eb_Local b)) + words (As4 (eb_Remote b)) + (17 + 72)
          + (32113 + 32113 + 72 + words (liveness_payload b m))).
  pose proof (words_range _ L2) as WL. pose proof (words_range _ R2) as WR.
  pose proof (words_range _ P2) as WP. rewrite L1 in WL. rewrite R1 in WR. rewrite P1 in WP.
  split; [lia|]. intros v Hv'. unfold livenessUDPChecksum. f_equal.
  unfold blen. rewrite liveness_packet_length by done.
  assert (E1 : slice 12 20 (liveness_packet b m c v) = As4 (eb_Local b) ++ As4 (eb_Remote b)).
  { unfold liveness_packet, liveness_ip, ip_header.
    by destruct (eb_Local b), (eb_Remote b). }
  assert (E2 : drop 20 (liveness_packet b m c v) =
    udp_header livenessPort 72 v ++ liveness_payload b m).
  { unfold liveness_packet, liveness_ip. apply drop_app_length'.
    unfold ip_header. by rewrite !length_app, !be_encode_length, L1, R1. }
  assert (Hu : Forall is_byte (udp_header livenessPort 72 v)).
  { unfold udp_header. repeat (apply Forall_app; split); apply be_encode_is_byte. }
  assert (Ul : length (udp_header livenessPort 72 v) = 8%nat).
  { unfold udp_header. by rewrite !length_app, !be_encode_length. }
  rewrite E1, E2, (add_words_words (As4 (eb_Local b) ++ As4 (eb_Remote b)));
    [|by apply Forall_app|lia|rewrite length_app, L1, R1; lia].
  rewrite (words_app (As4 (eb_Local b))) by (by rewrite L1). unfold u32. rewrite Z.mod_small by lia.
  rewrite add_words_words; [|by apply Forall_app|lia|rewrite length_app, Ul, P1; lia].
  rewrite words_app by (by rewrite Ul). unfold udp_header.
  rewrite !words_app, (words_be16 v) by (rewrite ?be_encode_length; done).
  change (words (be_encode 2 livenessPort)) with 32113.
  change (words (be_encode 2 72)) with 72. lia.
Qed.

Lemma udp_verifies b m :
  validEchoBinding b = true -> binding_wf b -> message_wf m ->
  livenessUDPChecksum (liveness_packet b m (ip_checksum b) (udp_field b m)) = 0.
Proof.
  intros Hv Hb Hm.
  destruct (udp_sum b m (ip_checksum b) 0 Hv Hb Hm ltac:(lia)) as (s & Hs & E).
  pose proof (udp_field_range b m) as Hf. rewrite E by lia.
  apply checksum_verifies; [done|].
  unfold udp_field, udp_checksum. rewrite (E 0), Z.add_0_r by lia.
  destruct (Z.eqb_spec (finish_checksum s) 0); [by right | by left].
Qed.

(** What [parseLivenessPacket] accepts. *)
Record accepts (p : list Z) (b : echoBinding) (m : livenessMessage) : Prop := {
  ac_binding : validEchoBinding b = true;
  ac_length : length p = 92%nat;
  ac_ip : byte_at 0 p = 69 /\ byte_at 9 p = 17 /\ get16 2 p = 92 /\
    Z.land (get16 6 p) 49151 = 0 /\ ipv4Checksum (take 20 p) = 0;
  ac_udp : get16 20 p = livenessPort /\ get16 22 p = livenessPort /\ get16 24 p = 72 /\
    get16 26 p <> 0 /\ livenessUDPChecksum p = 0;
  ac_addresses : slice 12 16 p = As4 (eb_Remote b) /\ slice 16 20 p = As4 (eb_Local b);
  ac_kind : lm_kind m = livenessPing \/ lm_kind m = livenessPong;
  ac_header : slice 0 8 (drop 28 p) = string_bytes "WYCL" ++
    [1; lm_kind m; encodeEchoRole (Peer (eb_Role b)); 0];
  ac_digest : slice 8 24 (drop 28 p) = take 16 (liveness_attempt_digest b);
  ac_context : slice 24 40 (drop 28 p) = take 16 (eb_ContextDigest b);
  ac_sequence : be_decode (slice 40 48 (drop 28 p)) = lm_sequence m;
  ac_nonce : slice 48 64 (drop 28 p) = lm_nonce m;
  ac_nonzero : lm_sequence m <> 0;
}.

Lemma if_err_Ok {A} (g : bool) (e : lerr) (k : res lerr A) (a : A) :
  (if g then Err e else k) = Ok a <-> g = false /\ k = Ok a.
Proof. destruct g; naive_solver. Qed.

Lemma if_err_Err {A} (g : bool) (e e' : lerr) (k : res lerr A) :
  (if g then Err e else k) = Err e' -> e' = e \/ k = Err e'.
Proof. destruct g; naive_solver. Qed.

Lemma parse_err packet b e : parseLivenessPacket packet b = Err e -> e = errLivenessProtocol.
Proof.
  unfold parseLivenessPacket. cbv zeta.
  intros [?|[?|[?|?]%if_err_Err]%if_err_Err]%if_err_Err; done.
Qed.

Lemma blen_eq (p : list Z) n : blen p = Z.of_nat n <-> length p = n.
Proof. unfold blen. lia. Qed.

Lemma header_8 (q : list Z) k r :
  length q = 64%nat ->
  (slice 0 4 q = string_bytes "WYCL" /\ byte_at 4 q = 1 /\ byte_at 5 q = k /\
   byte_at 6 q = r /\ byte_at 7 q = 0) <->
  slice 0 8 q = string_bytes "WYCL" ++ [1; k; r; 0].
Proof.
  intros Hq. do 8 (destruct q as [|? q]; [done|]). unfold slice, byte_at. simpl.
  naive_solver.
Qed.

Lemma parse_spec p b m : parseLivenessPacket p b = Ok m <-> accepts p b m.
Proof.
  unfold parseLivenessPacket. cbv zeta. rewrite !if_err_Ok, !orb_false_iff, andb_false_iff,
    !negb_false_iff, !equalBytes_eq, bytes_eqb_eq, !Z.eqb_eq, !Z.eqb_neq.
  change livenessPacketSize with (Z.of_nat 92) at 1. rewrite blen_eq. simpl lm_sequence.
  split.
  - intros (Hg & Hp & Hz & [= <-]). destruct_and!.
    split; simpl; try done; try (split_and!; done).
    apply header_8; [rewrite length_drop; lia | split_and!; done].
  - intros A. pose proof (ac_header _ _ _ A) as Hh. apply header_8 in Hh as (? & ? & ? & ? & ?);
      [|rewrite length_drop, (ac_length _ _ _ A); done].
    destruct A. destruct m as [k sq n]; simpl in *. destruct_and!. subst. split_and!; done.
Qed.

Lemma slice_mid {A} (a b c : list A) i j :
  Z.of_nat (length a) = i -> Z.of_nat (length b) = j - i -> slice i j (a ++ b ++ c) = b.
Proof.
  intros Ha Hb. unfold slice. rewrite drop_app_length' by lia. by apply take_app_length'; lia.
Qed.

(** The fields of the payload of a layout. *)
Lemma payload_fields b m :
  binding_wf b -> message_wf m -> let q := liveness_payload b m in
  slice 0 8 q = string_bytes "WYCL" ++ [1; lm_kind m; encodeEchoRole (eb_Role b); 0] /\
  slice 8 24 q = take 16 (liveness_attempt_digest b) /\
  slice 24 40 q = take 16 (eb_ContextDigest b) /\
  slice 40 48 q = be_encode 8 (lm_sequence m) /\ slice 48 64 q = lm_nonce m.
Proof.
  intros Hb Hm. destruct (attempt_digest_bytes b) as [LD _].
  destruct (take_bytes 16 32 _ ltac:(lia) (bw_digest _ Hb)) as [LC _].
  destruct (mw_nonce _ Hm) as [LN _]. pose proof (be_encode_length 8 (lm_sequence m)) as LS.
  unfold liveness_payload, control_payload. cbv zeta.
  set (h := string_bytes "WYCL"). set (k := [1; _; _; _]). assert (length h = 4%nat) by done.
  set (D := take 16 _) in *. set (C := take 16 (eb_ContextDigest b)) in *.
  set (Q := be_encode 8 _) in *. set (N := lm_nonce m) in *.
  split_and!.
  - rewrite (app_assoc h k). by apply (slice_mid [] (h ++ k)).
  - rewrite (app_assoc h k). apply slice_mid; rewrite ?length_app; simpl; lia.
  - rewrite (app_assoc h k), (app_assoc _ D).
    apply slice_mid; rewrite ?length_app; simpl; lia.
  - rewrite (app_assoc h k), (app_assoc _ D), (app_assoc _ C).
    apply slice_mid; rewrite ?length_app; simpl; lia.
  - replace (h ++ k ++ D ++ C ++ Q ++ N) with ((h ++ k ++ D ++ C ++ Q) ++ N ++ [])
      by (rewrite app_nil_r; by rewrite <-!app_assoc).
    apply slice_mid; rewrite ?length_app; simpl; lia.
Qed.

Lemma layout_accepted b m :
  sendable b m = true -> binding_wf b -> message_wf m ->
  accepts (liveness_packet b m (ip_checksum b) (udp_field b m)) (peer_binding b) m.
Proof.
  unfold sendable. rewrite !andb_true_iff, negb_true_iff, orb_true_iff, !Z.eqb_eq, Z.eqb_neq.
  intros [[Hv Hs] Hk] Hb Hm. destruct (valid_Is4 b Hv) as [H1 H2].
  pose proof (ip_verifies b Hb) as Hip. pose proof (udp_verifies b m Hv Hb Hm) as Hudp.
  assert (Hc' : be_decode (be_encode 2 (udp_field b m)) <> 0).
  { pose proof (udp_field_range b m). rewrite be_decode_encode_small; simpl; lia. }
  assert (Hseq : be_decode (be_encode 8 (lm_sequence m)) = lm_sequence m).
  { apply be_decode_encode_small. pose proof (mw_sequence _ Hm). simpl. lia. }
  assert (Er : Peer (eb_Role (peer_binding b)) = eb_Role b).
  { by rewrite <-(peer_binding_involutive b Hv) at 2. }
  pose proof (liveness_packet_length b m (ip_checksum b) (udp_field b m) H1 H2 Hb Hm) as L0.
  destruct (payload_fields b m Hb Hm) as (F1 & F2 & F3 & F4 & F5).
  assert (E28 : drop 28 (liveness_packet b m (ip_checksum b) (udp_field b m)) =
    liveness_payload b m).
  { unfold liveness_packet. rewrite app_assoc. apply drop_app_length'.
    unfold liveness_ip, ip_header, udp_header. rewrite !length_app, !be_encode_length.
    by destruct (eb_Local b), (eb_Remote b). }
  split; rewrite ?E28, ?Er; try done; [by apply peer_binding_valid | | | | by rewrite F4];
    clear E28 F1 F2 F3 F4 F5 L0; unfold liveness_packet, liveness_ip, ip_header, udp_header in *;
    simpl eb_Remote; simpl eb_Local;
    destruct (eb_Local b), (eb_Remote b); try done; rewrite !be_encode_2 in *; split_and!; done.
Qed.

(** What one side of a session sends, the other side accepts as the same
    message: for every valid binding and every ping or pong with a non-zero
    sequence number, the builder produces a 92-byte packet, both of its
    checksums verify, and the parser of the peer (swapped addresses, opposite
    role, same attempt and context) returns the message. *)
Theorem liveness_roundtrip b m :
  sendable b m = true -> binding_wf b -> message_wf m ->
  exists p, buildLivenessPacket b m = Ok p /\ length p = 92%nat /\
    ipv4Checksum (take 20 p) = 0 /\ livenessUDPChecksum p = 0 /\
    parseLivenessPacket p (peer_binding b) = Ok m.
Proof.
  intros Hs Hb Hm. pose proof (layout_accepted b m Hs Hb Hm) as A.
  exists (liveness_packet b m (ip_checksum b) (udp_field b m)).
  split; [by apply build_layout|]. split; [apply (ac_length _ _ _ A)|].
  split; [apply (ac_ip _ _ _ A)|]. split; [apply (ac_udp _ _ _ A)|]. by apply parse_spec.
Qed.

(** A payload is determined by its fields. *)
Lemma payload_of_fields (q : list Z) :
  length q = 64%nat ->
  q = slice 0 8 q ++ slice 8 24 q ++ slice 24 40 q ++ slice 40 48 q ++ slice 48 64 q.
Proof.
  intros Hq. unfold slice. simpl Z.to_nat. rewrite drop_0.
  rewrite <-(take_drop 8 q) at 1. f_equal.
  rewrite <-(take_drop 16 (drop 8 q)) at 1. f_equal. rewrite drop_drop.
  rewrite <-(take_drop 16 (drop _ q)) at 1. f_equal. rewrite drop_drop.
  rewrite <-(take_drop 8 (drop _ q)) at 1. f_equal. rewrite drop_drop.
  rewrite take_ge; [done|]. rewrite length_drop. simpl. lia.
Qed.

Lemma slice_bytes (p : list Z) i j n :
  Forall is_byte p -> 0 <= i -> j - i = Z.of_nat n -> j <= blen p -> bytes_of n (slice i j p).
Proof.
  intros Hp Hi Hn Hj. unfold slice, blen in *. split.
  - rewrite length_take, length_drop. lia.
  - by apply Forall_take, Forall_drop.
Qed.

Lemma slice_split {A} (p : list A) i j k :
  0 <= i <= j -> j <= k -> slice i j p ++ slice j k p = slice i k p.
Proof.
  intros Hi Hk. unfold slice.
  replace (Z.to_nat (k - i)) with (Z.to_nat (j - i) + Z.to_nat (k - j))%nat by lia.
  rewrite <-take_take_drop, drop_drop. do 3 f_equal. lia.
Qed.

(** A packet built by one side is never accepted by that side. *)
Lemma reflection_rejected b m m' p :
  binding_wf b -> message_wf m -> buildLivenessPacket b m = Ok p ->
  parseLivenessPacket p b <> Ok m'.
Proof.
  intros Hb Hm Hbuild Hparse. apply parse_spec in Hparse.
  assert (Hv := ac_binding _ _ _ Hparse).
  assert (Hs : sendable b m = true).
  { unfold buildLivenessPacket in Hbuild. rewrite if_err_Ok in Hbuild.
    destruct Hbuild as [Hg _]. unfold sendable.
    destruct (validEchoBinding b), (lm_sequence m =? 0), (lm_kind m =? livenessPing),
      (lm_kind m =? livenessPong); done. }
  pose proof (layout_accepted b m Hs Hb Hm) as A.
  rewrite (build_layout b m Hs Hb Hm) in Hbuild. injection Hbuild as <-.
  destruct (ac_addresses _ _ _ A) as [E1 _]. destruct (ac_addresses _ _ _ Hparse) as [E2 _].
  rewrite E1 in E2. simpl in E2. unfold validEchoBinding in Hv.
  destruct (eb_Local b), (eb_Remote b); simpl in *; simplify_eq;
    rewrite ?bool_decide_eq_true_2, ?andb_false_r in Hv by done; done.
Qed.

Lemma accepted_wf p b m : Forall is_byte p -> accepts p b m -> message_wf m.
Proof.
  intros Hp A.
  assert (Hq : length (drop 28 p) = 64%nat) by (rewrite length_drop, (ac_length _ _ _ A); done).
  assert (Hqb : Forall is_byte (drop 28 p)) by (by apply Forall_drop).
  destruct (slice_bytes (drop 28 p) 40 48 8 Hqb) as [S1 S2]; [unfold blen; lia..|].
  destruct (slice_bytes (drop 28 p) 48 64 16 Hqb) as [N1 N2]; [unfold blen; lia..|].
  split.
  - unfold is_byte. destruct (ac_kind _ _ _ A) as [->| ->]; unfold livenessPing, livenessPong; lia.
  - rewrite <-(ac_sequence _ _ _ A). pose proof (be_decode_range _ S2) as R.
    rewrite S1 in R. simpl in R. lia.
  - by rewrite <-(ac_nonce _ _ _ A).
Qed.

(** A liveness packet is accepted only if it carries the session's
    binding: the addresses are the peer's and the own one, and the 64 payload
    bytes are exactly those the peer's builder writes for the returned message
    (magic, version, kind, the peer's role, the digests of this attempt and
    this context, sequence and nonce).  The message is one the peer may send,
    and no side accepts a packet it has built itself. *)
Theorem liveness_authentic p b m :
  Forall is_byte p -> binding_wf b -> parseLivenessPacket p b = Ok m ->
  message_wf m /\ sendable (peer_binding b) m = true /\
  slice 12 20 p = As4 (eb_Remote b) ++ As4 (eb_Local b) /\
  drop 28 p = liveness_payload (peer_binding b) m /\
  forall own, message_wf own -> buildLivenessPacket b own <> Ok p.
Proof.
  intros Hp Hb Hparse. pose proof Hparse as A. apply parse_spec in A.
  assert (Hq : length (drop 28 p) = 64%nat) by (rewrite length_drop, (ac_length _ _ _ A); done).
  assert (Hqb : Forall is_byte (drop 28 p)) by (by apply Forall_drop).
  destruct (slice_bytes (drop 28 p) 40 48 8 Hqb) as [S1 S2]; [unfold blen; lia..|].
  pose proof (accepted_wf p b m Hp A) as Hm.
  split_and!; [done| | | |].
  - unfold sendable. rewrite peer_binding_valid by apply A.
    rewrite (proj2 (Z.eqb_neq _ _) (ac_nonzero _ _ _ A)). simpl.
    by destruct (ac_kind _ _ _ A) as [->| ->].
  - destruct (ac_addresses _ _ _ A) as [<- <-]. symmetry. apply slice_split; lia.
  - rewrite (payload_of_fields _ Hq). unfold liveness_payload, control_payload.
    rewrite (ac_header _ _ _ A), (ac_digest _ _ _ A), (ac_context _ _ _ A),
      (ac_nonce _ _ _ A), <-(ac_sequence _ _ _ A), be_encode_decode by done.
    by rewrite <-!app_assoc.
  - intros own Ho Hbuild. by apply (reflection_rejected b own m p Hb Ho Hbuild).
Qed.

(** ** Echo packets *)

Definition echo_payload (b : echoBinding) (kind : Z) (nonce : list Z) : list Z :=
  control_payload "WYCE" kind (eb_Role b) (take 16 (echo_attempt_digest b))
    (take 16 (eb_ContextDigest b)) nonce.

Definition echo_ip (b : echoBinding) (c : Z) : list Z :=
  ip_header echoPacketSize (As4 (eb_Local b)) (As4 (eb_Remote b)) c.

Definition echo_packet (b : echoBinding) (kind : Z) (nonce : list Z) : list Z :=
  echo_ip b (ipv4Checksum (echo_ip b 0)) ++ udp_header echoPort 56 0 ++ echo_payload b kind nonce.

Lemma echo_digest_bytes b : bytes_of 16 (take 16 (echo_attempt_digest b)).
Proof. apply (take_bytes 16 32); [lia|]. apply sum256_bytes. Qed.

Lemma build_echo_layout b kind nonce :
  validEchoBinding b = true -> validEchoKind kind = true -> binding_wf b -> bytes_of 8 nonce ->
  buildEchoPacket b kind nonce = Ok (echo_packet b kind nonce).
Proof.
  intros Hv Hk Hb [HN _]. unfold buildEchoPacket. rewrite Hv, Hk. simpl orb. cbv zeta.
  unfold echo_packet, echo_payload, echo_ip. f_equal.
  destruct (valid_Is4 b Hv) as [H1 H2]. destruct (echo_digest_bytes b) as [HD _].
  destruct (take_bytes 16 32 _ ltac:(lia) (bw_digest _ Hb)) as [HC _].
  set (D := take 16 (echo_attempt_digest b)) in *. clearbody D.
  set (C := take 16 (eb_ContextDigest b)) in *. clearbody C.
  destruct (eb_Local b) as [|a1 a2 a3 a4|], (eb_Remote b) as [|b1 b2 b3 b4|]; try done.
  explode D. explode C. explode nonce.
  unfold put16, ip_header, udp_header, control_payload. simpl As4. rewrite !be_encode_2.
  run_copies. reflexivity.
Qed.

Lemma echo_ip_verifies b :
  binding_wf b -> ipv4Checksum (echo_ip b (ipv4Checksum (echo_ip b 0))) = 0.
Proof.
  intros [Hl Hr _]. unfold echo_ip.
  destruct (ip_sum echoPacketSize _ _ 0 (As4_bytes _ Hl) (As4_bytes _ Hr) ltac:(lia)) as [E0 Hp].
  destruct (ip_sum echoPacketSize _ _ (ipv4Checksum (echo_ip b 0)) (As4_bytes _ Hl)
    (As4_bytes _ Hr) (finish_checksum_range _)) as [E1 _].
  unfold echo_ip in E1. rewrite E1, E0, Z.add_0_r. apply checksum_verifies; [lia | by left].
Qed.

(** A control datagram of one side is accepted by the other with its kind, its
    nonce and the role of its sender. *)
Lemma echo_roundtrip b kind nonce :
  validEchoBinding b = true -> validEchoKind kind = true -> binding_wf b -> bytes_of 8 nonce ->
  exists p, buildEchoPacket b kind nonce = Ok p /\ length p = 76%nat /\ get16 22 p = echoPort /\
    forall want, want = None \/ want = Some nonce ->
      parseEchoPacket p (peer_binding b) kind want = Ok (mkEcho kind (eb_Role b) nonce).
Proof.
  intros Hv Hk Hb HN. pose proof HN as [LN _]. exists (echo_packet b kind nonce).
  split; [by apply build_echo_layout|].
  pose proof (echo_ip_verifies b Hb) as Hip. destruct (valid_Is4 b Hv) as [H1 H2].
  destruct (echo_digest_bytes b) as [LD _].
  destruct (take_bytes 16 32 _ ltac:(lia) (bw_digest _ Hb)) as [LC _].
  pose proof (peer_binding_valid b Hv) as Hpv.
  assert (Er : Peer (eb_Role (peer_binding b)) = eb_Role b).
  { by rewrite <-(peer_binding_involutive b Hv) at 2. }
  unfold parseEchoPacket. rewrite Hpv, Hk, Er. clear Hpv.
  change (echo_attempt_digest (peer_binding b)) with (echo_attempt_digest b).
  simpl eb_Remote. simpl eb_Local. simpl eb_ContextDigest. cbv zeta.
  unfold echo_packet, echo_payload, echo_ip in *.
  set (c := ipv4Checksum (ip_header _ _ _ 0)) in *. clearbody c.
  set (D := take 16 (echo_attempt_digest b)) in *. clearbody D.
  set (C := take 16 (eb_ContextDigest b)) in *. clearbody C.
  destruct (eb_Local b) as [|a1 a2 a3 a4|], (eb_Remote b) as [|b1 b2 b3 b4|]; try done.
  explode D. explode C. explode nonce.
  unfold ip_header, udp_header, control_payload in *. rewrite !be_encode_2 in *.
  cbv [app As4] in Hip. cbv [app As4 string_bytes take]. rewrite Hip.
  split; [done|]. split; [done|]. intros want Hw.
  unfold slice, byte_at. simpl. rewrite !Z.eqb_refl, !bool_decide_eq_true_2 by done.
  rewrite (proj2 (equalBytes_eq _ _) eq_refl), (proj2 (equalBytes_eq _ _) eq_refl). simpl.
  destruct Hw as [-> | ->]; [done|]. by rewrite (proj2 (bytes_eqb_eq _ _) eq_refl).
Qed.
End layout.

(** ** A digest function: the last 32 bytes of the data, padded *)
#[export] Instance tail_digest : Sha256 := fun data =>
  take 32 (map (fun x => x mod 256) (rev data) ++ make_bytes 32).

#[export] Instance tail_digest_laws : Sha256Laws tail_digest.
Proof.
  intros data. unfold sum256, tail_digest, make_bytes. split.
  - rewrite length_take, length_app, length_replicate. lia.
  - apply Forall_take, Forall_app. split.
    + apply Forall_forall. intros x (y & -> & _)%list_elem_of_fmap. apply Z.mod_pos_bound. lia.
    + apply Forall_replicate. done.
Qed.
