(* ===== verification/Liveness.v ===== *)
(** * The session liveness model (src/internal/v2/gatecorchestrator/liveness_clock.go,
    liveness_model.go)

    Both ends of a session prove to each other that they are alive with a
    bounded number of pings and pongs.  [livenessModel] is the state behind one
    mutex; each method is one critical section and a function here.  A method
    that reads the clock takes the reading as an argument.  An emission is a
    shared pointer of the source and an identifier into [m_heap] here. *)
From S2P Require Import Prelude GoStd LivenessWire.

(** ** The clock guard *)
Definition livenessInterval : Z := 20 * Second.
Definition livenessResponseWindow : Z := 5 * Second.
Definition livenessWriteWindow : Z := Second.
Definition livenessClockTolerance : Z := 2 * Second.

(** One reading of [LivenessClock]: [Mono()] and [UTC().Round(0)]. *)
Record reading := mkReading { rd_mono : Z; rd_utc : Time }.

Record livenessClockGuard := mkGuard {
  cg_mono0 : Z;
  cg_lastMono : Z;
  cg_utc0 : Time;
  cg_lastUTC : Time;
  cg_rollbacks : Z;
}.

Record livenessInstant := mkInstant { li_mono : Z; li_utc : Time }.

Definition clock_instant (c : livenessClockGuard) : livenessInstant :=
  mkInstant (cg_lastMono c - cg_mono0 c) (cg_lastUTC c).

Definition clock_age (c : livenessClockGuard) (sent : livenessInstant) : res lerr Z :=
  let now := clock_instant c in
  if (li_mono sent <? 0) || (li_mono now <? li_mono sent) || IsZero (li_utc sent)
  then Err errLivenessClock else
  let mono := li_mono now - li_mono sent in
  let utc := TSub (li_utc now) (li_utc sent) in
  if negb (TEqual (TAdd (li_utc sent) utc) (li_utc now)) then Err errLivenessClock
  else Ok (Z.max mono utc).

(** [None] is a nil clock, [Some r] a clock whose first reading is [r]. *)
Definition newLivenessClock (clock : option reading) : res lerr livenessClockGuard :=
  match clock with
  | None => Err errLivenessUnavailable
  | Some r =>
      if (rd_mono r <? 0) || IsZero (rd_utc r) then Err errLivenessClock
      else Ok (mkGuard (rd_mono r) (rd_mono r) (rd_utc r) (rd_utc r) 0)
  end.

Definition incr (x : Z) : Z := u64_add x 1.

Definition clock_read (c : livenessClockGuard) (r : reading) : livenessClockGuard * res lerr Z :=
  if (rd_mono r <? cg_lastMono c) || (rd_mono r <? cg_mono0 c) || IsZero (rd_utc r)
  then (c, Err errLivenessClock) else
  let mono := rd_mono r - cg_mono0 c in
  let utc := TSub (rd_utc r) (cg_utc0 c) in
  if (mono <? 0) || negb (TEqual (TAdd (cg_utc0 c) utc) (rd_utc r))
     || (i64_max - livenessClockTolerance <? mono)
     || (utc <? mono - livenessClockTolerance) || (mono + livenessClockTolerance <? utc)
  then (c, Err errLivenessClock) else
  let rollbacks := if Before (rd_utc r) (cg_lastUTC c) then incr (cg_rollbacks c)
                   else cg_rollbacks c in
  (mkGuard (cg_mono0 c) (rd_mono r) (cg_utc0 c) (rd_utc r) rollbacks,
   Ok (if mono <? utc then utc else mono)).

Record livenessBudget := mkBudget {
  bu_ceiling : Z;
  bu_lease : Z;
  bu_pings : Z;
  bu_pongs : Z;
  bu_total : Z;
}.

Definition freezeLivenessBudget (ceiling rounds : Z) : res lerr livenessBudget :=
  if (ceiling <? 5 * Second) || (24 * Hour <? ceiling) || (negb (rounds =? 2) && negb (rounds =? 3))
  then Err errLivenessUnavailable else
  let n := Z.quot ceiling livenessInterval in
  let n := if negb (Z.rem ceiling livenessInterval =? 0) then n + 1 else n in
  Ok (mkBudget ceiling (rounds * livenessInterval + livenessResponseWindow) n (n + 1) (2 * n + 1)).

(** ** State *)
Record LivenessWitness := mkWitness {
  w_PingAdmitted : Z;
  w_PongAdmitted : Z;
  w_PongValidated : Z;
  w_LivenessAdmissionRejected : Z;
  w_PingAdmissionRejected : Z;
  w_PongAdmissionRejected : Z;
  w_PendingExpired : Z;
  w_ReplayDropped : Z;
  w_PongDropped : Z;
  w_InboundDropped : Z;
  w_OutboundDropped : Z;
  w_OutboundExpired : Z;
  w_InnerInjected : Z;
  w_CloseAdmitted : Z;
  w_CloseInnerInjected : Z;
  w_AdmissionBypass : Z;
  w_WriterFailures : Z;
  w_UTCRollbacks : Z;
  w_ElapsedNS : Z;
  w_BindingVerified : bool;
  w_Drained : bool;
}.

Definition set_w_PingAdmitted (v : Z) (w : LivenessWitness) : LivenessWitness := mkWitness v
  (w_PongAdmitted w) (w_PongValidated w) (w_LivenessAdmissionRejected w)
  (w_PingAdmissionRejected w) (w_PongAdmissionRejected w) (w_PendingExpired w)
  (w_ReplayDropped w) (w_PongDropped w) (w_InboundDropped w) (w_OutboundDropped w)
  (w_OutboundExpired w) (w_InnerInjected w) (w_CloseAdmitted w) (w_CloseInnerInjected w)
  (w_AdmissionBypass w) (w_WriterFailures w) (w_UTCRollbacks w) (w_ElapsedNS w)
  (w_BindingVerified w) (w_Drained w).
Definition set_w_PongAdmitted (v : Z) (w : LivenessWitness) : LivenessWitness := mkWitness
  (w_PingAdmitted w) v (w_PongValidated w) (w_LivenessAdmissionRejected w)
  (w_PingAdmissionRejected w) (w_PongAdmissionRejected w) (w_PendingExpired w)
  (w_ReplayDropped w) (w_PongDropped w) (w_InboundDropped w) (w_OutboundDropped w)
  (w_OutboundExpired w) (w_InnerInjected w) (w_CloseAdmitted w) (w_CloseInnerInjected w)
  (w_AdmissionBypass w) (w_WriterFailures w) (w_UTCRollbacks w) (w_ElapsedNS w)
  (w_BindingVerified w) (w_Drained w).
Definition set_w_PongValidated (v : Z) (w : LivenessWitness) : LivenessWitness := mkWitness
  (w_PingAdmitted w) (w_PongAdmitted w) v (w_LivenessAdmissionRejected w)
  (w_PingAdmissionRejected w) (w_PongAdmissionRejected w) (w_PendingExpired w)
  (w_ReplayDropped w) (w_PongDropped w) (w_InboundDropped w) (w_OutboundDropped w)
  (w_OutboundExpired w) (w_InnerInjected w) (w_CloseAdmitted w) (w_CloseInnerInjected w)
  (w_AdmissionBypass w) (w_WriterFailures w) (w_UTCRollbacks w) (w_ElapsedNS w)
  (w_BindingVerified w) (w_Drained w).
Definition set_w_LivenessAdmissionRejected (v : Z) (w : LivenessWitness) : LivenessWitness
  := mkWitness (w_PingAdmitted w) (w_PongAdmitted w) (w_PongValidated w) v
  (w_PingAdmissionRejected w) (w_PongAdmissionRejected w) (w_PendingExpired w)
  (w_ReplayDropped w) (w_PongDropped w) (w_InboundDropped w) (w_OutboundDropped w)
  (w_OutboundExpired w) (w_InnerInjected w) (w_CloseAdmitted w) (w_CloseInnerInjected w)
  (w_AdmissionBypass w) (w_WriterFailures w) (w_UTCRollbacks w) (w_ElapsedNS w)
  (w_BindingVerified w) (w_Drained w).
Definition set_w_PingAdmissionRejected (v : Z) (w : LivenessWitness) : LivenessWitness :=
  mkWitness (w_PingAdmitted w) (w_PongAdmitted w) (w_PongValidated w)
  (w_LivenessAdmissionRejected w) v (w_PongAdmissionRejected w) (w_PendingExpired w)
  (w_ReplayDropped w) (w_PongDropped w) (w_InboundDropped w) (w_OutboundDropped w)
  (w_OutboundExpired w) (w_InnerInjected w) (w_CloseAdmitted w) (w_CloseInnerInjected w)
  (w_AdmissionBypass w) (w_WriterFailures w) (w_UTCRollbacks w) (w_ElapsedNS w)
  (w_BindingVerified w) (w_Drained w).
Definition set_w_PongAdmissionRejected (v : Z) (w : LivenessWitness) : LivenessWitness :=
  mkWitness (w_PingAdmitted w) (w_PongAdmitted w) (w_PongValidated w)
  (w_LivenessAdmissionRejected w) (w_PingAdmissionRejected w) v (w_PendingExpired w)
  (w_ReplayDropped w) (w_PongDropped w) (w_InboundDropped w) (w_OutboundDropped w)
  (w_OutboundExpired w) (w_InnerInjected w) (w_CloseAdmitted w) (w_CloseInnerInjected w)
  (w_AdmissionBypass w) (w_WriterFailures w) (w_UTCRollbacks w) (w_ElapsedNS w)
  (w_BindingVerified w) (w_Drained w).
Definition set_w_PendingExpired (v : Z) (w : LivenessWitness) : LivenessWitness := mkWitness
  (w_PingAdmitted w) (w_PongAdmitted w) (w_PongValidated w) (w_LivenessAdmissionRejected w)
  (w_PingAdmissionRejected w) (w_PongAdmissionRejected w) v (w_ReplayDropped w)
  (w_PongDropped w) (w_InboundDropped w) (w_OutboundDropped w) (w_OutboundExpired w)
  (w_InnerInjected w) (w_CloseAdmitted w) (w_CloseInnerInjected w) (w_AdmissionBypass w)
  (w_WriterFailures w) (w_UTCRollbacks w) (w_ElapsedNS w) (w_BindingVerified w) (w_Drained
  w).
Definition set_w_ReplayDropped (v : Z) (w : LivenessWitness) : LivenessWitness := mkWitness
  (w_PingAdmitted w) (w_PongAdmitted w) (w_PongValidated w) (w_LivenessAdmissionRejected w)
  (w_PingAdmissionRejected w) (w_PongAdmissionRejected w) (w_PendingExpired w) v
  (w_PongDropped w) (w_InboundDropped w) (w_OutboundDropped w) (w_OutboundExpired w)
  (w_InnerInjected w) (w_CloseAdmitted w) (w_CloseInnerInjected w) (w_AdmissionBypass w)
  (w_WriterFailures w) (w_UTCRollbacks w) (w_ElapsedNS w) (w_BindingVerified w) (w_Drained
  w).
Definition set_w_PongDropped (v : Z) (w : LivenessWitness) : LivenessWitness := mkWitness
  (w_PingAdmitted w) (w_PongAdmitted w) (w_PongValidated w) (w_LivenessAdmissionRejected w)
  (w_PingAdmissionRejected w) (w_PongAdmissionRejected w) (w_PendingExpired w)
  (w_ReplayDropped w) v (w_InboundDropped w) (w_OutboundDropped w) (w_OutboundExpired w)
  (w_InnerInjected w) (w_CloseAdmitted w) (w_CloseInnerInjected w) (w_AdmissionBypass w)
  (w_WriterFailures w) (w_UTCRollbacks w) (w_ElapsedNS w) (w_BindingVerified w) (w_Drained
  w).
Definition set_w_InboundDropped (v : Z) (w : LivenessWitness) : LivenessWitness := mkWitness
  (w_PingAdmitted w) (w_PongAdmitted w) (w_PongValidated w) (w_LivenessAdmissionRejected w)
  (w_PingAdmissionRejected w) (w_PongAdmissionRejected w) (w_PendingExpired w)
  (w_ReplayDropped w) (w_PongDropped w) v (w_OutboundDropped w) (w_OutboundExpired w)
  (w_InnerInjected w) (w_CloseAdmitted w) (w_CloseInnerInjected w) (w_AdmissionBypass w)
  (w_WriterFailures w) (w_UTCRollbacks w) (w_ElapsedNS w) (w_BindingVerified w) (w_Drained
  w).
Definition set_w_OutboundDropped (v : Z) (w : LivenessWitness) : LivenessWitness :=
  mkWitness (w_PingAdmitted w) (w_PongAdmitted w) (w_PongValidated w)
  (w_LivenessAdmissionRejected w) (w_PingAdmissionRejected w) (w_PongAdmissionRejected w)
  (w_PendingExpired w) (w_ReplayDropped w) (w_PongDropped w) (w_InboundDropped w) v
  (w_OutboundExpired w) (w_InnerInjected w) (w_CloseAdmitted w) (w_CloseInnerInjected w)
  (w_AdmissionBypass w) (w_WriterFailures w) (w_UTCRollbacks w) (w_ElapsedNS w)
  (w_BindingVerified w) (w_Drained w).
Definition set_w_OutboundExpired (v : Z) (w : LivenessWitness) : LivenessWitness :=
  mkWitness (w_PingAdmitted w) (w_PongAdmitted w) (w_PongValidated w)
  (w_LivenessAdmissionRejected w) (w_PingAdmissionRejected w) (w_PongAdmissionRejected w)
  (w_PendingExpired w) (w_ReplayDropped w) (w_PongDropped w) (w_InboundDropped w)
  (w_OutboundDropped w) v (w_InnerInjected w) (w_CloseAdmitted w) (w_CloseInnerInjected w)
  (w_AdmissionBypass w) (w_WriterFailures w) (w_UTCRollbacks w) (w_ElapsedNS w)
  (w_BindingVerified w) (w_Drained w).
Definition set_w_InnerInjected (v : Z) (w : LivenessWitness) : LivenessWitness := mkWitness
  (w_PingAdmitted w) (w_PongAdmitted w) (w_PongValidated w) (w_LivenessAdmissionRejected w)
  (w_PingAdmissionRejected w) (w_PongAdmissionRejected w) (w_PendingExpired w)
  (w_ReplayDropped w) (w_PongDropped w) (w_InboundDropped w) (w_OutboundDropped w)
  (w_OutboundExpired w) v (w_CloseAdmitted w) (w_CloseInnerInjected w) (w_AdmissionBypass w)
  (w_WriterFailures w) (w_UTCRollbacks w) (w_ElapsedNS w) (w_BindingVerified w) (w_Drained
  w).
Definition set_w_CloseAdmitted (v : Z) (w : LivenessWitness) : LivenessWitness := mkWitness
  (w_PingAdmitted w) (w_PongAdmitted w) (w_PongValidated w) (w_LivenessAdmissionRejected w)
  (w_PingAdmissionRejected w) (w_PongAdmissionRejected w) (w_PendingExpired w)
  (w_ReplayDropped w) (w_PongDropped w) (w_InboundDropped w) (w_OutboundDropped w)
  (w_OutboundExpired w) (w_InnerInjected w) v (w_CloseInnerInjected w) (w_AdmissionBypass w)
  (w_WriterFailures w) (w_UTCRollbacks w) (w_ElapsedNS w) (w_BindingVerified w) (w_Drained
  w).
Definition set_w_CloseInnerInjected (v : Z) (w : LivenessWitness) : LivenessWitness :=
  mkWitness (w_PingAdmitted w) (w_PongAdmitted w) (w_PongValidated w)
  (w_LivenessAdmissionRejected w) (w_PingAdmissionRejected w) (w_PongAdmissionRejected w)
  (w_PendingExpired w) (w_ReplayDropped w) (w_PongDropped w) (w_InboundDropped w)
  (w_OutboundDropped w) (w_OutboundExpired w) (w_InnerInjected w) (w_CloseAdmitted w) v
  (w_AdmissionBypass w) (w_WriterFailures w) (w_UTCRollbacks w) (w_ElapsedNS w)
  (w_BindingVerified w) (w_Drained w).
Definition set_w_AdmissionBypass (v : Z) (w : LivenessWitness) : LivenessWitness :=
  mkWitness (w_PingAdmitted w) (w_PongAdmitted w) (w_PongValidated w)
  (w_LivenessAdmissionRejected w) (w_PingAdmissionRejected w) (w_PongAdmissionRejected w)
  (w_PendingExpired w) (w_ReplayDropped w) (w_PongDropped w) (w_InboundDropped w)
  (w_OutboundDropped w) (w_OutboundExpired w) (w_InnerInjected w) (w_CloseAdmitted w)
  (w_CloseInnerInjected w) v (w_WriterFailures w) (w_UTCRollbacks w) (w_ElapsedNS w)
  (w_BindingVerified w) (w_Drained w).
Definition set_w_WriterFailures (v : Z) (w : LivenessWitness) : LivenessWitness := mkWitness
  (w_PingAdmitted w) (w_PongAdmitted w) (w_PongValidated w) (w_LivenessAdmissionRejected w)
  (w_PingAdmissionRejected w) (w_PongAdmissionRejected w) (w_PendingExpired w)
  (w_ReplayDropped w) (w_PongDropped w) (w_InboundDropped w) (w_OutboundDropped w)
  (w_OutboundExpired w) (w_InnerInjected w) (w_CloseAdmitted w) (w_CloseInnerInjected w)
  (w_AdmissionBypass w) v (w_UTCRollbacks w) (w_ElapsedNS w) (w_BindingVerified w)
  (w_Drained w).
Definition set_w_UTCRollbacks (v : Z) (w : LivenessWitness) : LivenessWitness := mkWitness
  (w_PingAdmitted w) (w_PongAdmitted w) (w_PongValidated w) (w_LivenessAdmissionRejected w)
  (w_PingAdmissionRejected w) (w_PongAdmissionRejected w) (w_PendingExpired w)
  (w_ReplayDropped w) (w_PongDropped w) (w_InboundDropped w) (w_OutboundDropped w)
  (w_OutboundExpired w) (w_InnerInjected w) (w_CloseAdmitted w) (w_CloseInnerInjected w)
  (w_AdmissionBypass w) (w_WriterFailures w) v (w_ElapsedNS w) (w_BindingVerified w)
  (w_Drained w).
Definition set_w_ElapsedNS (v : Z) (w : LivenessWitness) : LivenessWitness := mkWitness
  (w_PingAdmitted w) (w_PongAdmitted w) (w_PongValidated w) (w_LivenessAdmissionRejected w)
  (w_PingAdmissionRejected w) (w_PongAdmissionRejected w) (w_PendingExpired w)
  (w_ReplayDropped w) (w_PongDropped w) (w_InboundDropped w) (w_OutboundDropped w)
  (w_OutboundExpired w) (w_InnerInjected w) (w_CloseAdmitted w) (w_CloseInnerInjected w)
  (w_AdmissionBypass w) (w_WriterFailures w) (w_UTCRollbacks w) v (w_BindingVerified w)
  (w_Drained w).
Definition set_w_Drained (v : bool) (w : LivenessWitness) : LivenessWitness := mkWitness
  (w_PingAdmitted w) (w_PongAdmitted w) (w_PongValidated w) (w_LivenessAdmissionRejected w)
  (w_PingAdmissionRejected w) (w_PongAdmissionRejected w) (w_PendingExpired w)
  (w_ReplayDropped w) (w_PongDropped w) (w_InboundDropped w) (w_OutboundDropped w)
  (w_OutboundExpired w) (w_InnerInjected w) (w_CloseAdmitted w) (w_CloseInnerInjected w)
  (w_AdmissionBypass w) (w_WriterFailures w) (w_UTCRollbacks w) (w_ElapsedNS w)
  (w_BindingVerified w) v.

Definition witness_zero : LivenessWitness :=
  mkWitness 0 0 0 0 0 0 0 0 0 0 0 0 0 0 0 0 0 0 0 false false.

Record pendingLiveness := mkPending { pe_message : livenessMessage; pe_sent : livenessInstant }.

Record livenessEmissionWindow := mkWindow { ew_sent : livenessInstant; ew_proofSent : livenessInstant }.

Record livenessEmission := mkEmission {
  em_packet : list Z;
  em_window : livenessEmissionWindow;
  em_teardown : bool;
}.

(** [m_pending] is [pending] with its [valid] flag, [m_window] the used part of
    [window], [m_writing] the flag [writing] with [writeWindow]. *)
Record livenessModel := mkModel {
  m_clock : livenessClockGuard;
  m_budget : livenessBudget;
  m_binding : echoBinding;
  m_absUntil : Z;
  m_nextSlot : Z;
  m_elapsed : Z;
  m_proofSent : livenessInstant;
  m_sequence : Z;
  m_peerHigh : Z;
  m_pending : option pendingLiveness;
  m_window : list Z;
  m_intents : list (option nat);
  m_writing : option livenessEmissionWindow;
  m_closed : bool;
  m_terminal : option lerr;
  m_witness : LivenessWitness;
  m_heap : gmap nat livenessEmission;
  m_next : nat;
}.

Definition set_m_clock (v : livenessClockGuard) (m : livenessModel) : livenessModel :=
  mkModel v (m_budget m) (m_binding m) (m_absUntil m) (m_nextSlot m) (m_elapsed m)
  (m_proofSent m) (m_sequence m) (m_peerHigh m) (m_pending m) (m_window m) (m_intents m)
  (m_writing m) (m_closed m) (m_terminal m) (m_witness m) (m_heap m) (m_next m).
Definition set_m_nextSlot (v : Z) (m : livenessModel) : livenessModel := mkModel (m_clock m)
  (m_budget m) (m_binding m) (m_absUntil m) v (m_elapsed m) (m_proofSent m) (m_sequence m)
  (m_peerHigh m) (m_pending m) (m_window m) (m_intents m) (m_writing m) (m_closed m)
  (m_terminal m) (m_witness m) (m_heap m) (m_next m).
Definition set_m_elapsed (v : Z) (m : livenessModel) : livenessModel := mkModel (m_clock m)
  (m_budget m) (m_binding m) (m_absUntil m) (m_nextSlot m) v (m_proofSent m) (m_sequence m)
  (m_peerHigh m) (m_pending m) (m_window m) (m_intents m) (m_writing m) (m_closed m)
  (m_terminal m) (m_witness m) (m_heap m) (m_next m).
Definition set_m_proofSent (v : livenessInstant) (m : livenessModel) : livenessModel :=
  mkModel (m_clock m) (m_budget m) (m_binding m) (m_absUntil m) (m_nextSlot m) (m_elapsed m)
  v (m_sequence m) (m_peerHigh m) (m_pending m) (m_window m) (m_intents m) (m_writing m)
  (m_closed m) (m_terminal m) (m_witness m) (m_heap m) (m_next m).
Definition set_m_sequence (v : Z) (m : livenessModel) : livenessModel := mkModel (m_clock m)
  (m_budget m) (m_binding m) (m_absUntil m) (m_nextSlot m) (m_elapsed m) (m_proofSent m) v
  (m_peerHigh m) (m_pending m) (m_window m) (m_intents m) (m_writing m) (m_closed m)
  (m_terminal m) (m_witness m) (m_heap m) (m_next m).
Definition set_m_peerHigh (v : Z) (m : livenessModel) : livenessModel := mkModel (m_clock m)
  (m_budget m) (m_binding m) (m_absUntil m) (m_nextSlot m) (m_elapsed m) (m_proofSent m)
  (m_sequence m) v (m_pending m) (m_window m) (m_intents m) (m_writing m) (m_closed m)
  (m_terminal m) (m_witness m) (m_heap m) (m_next m).
Definition set_m_pending (v : option pendingLiveness) (m : livenessModel) : livenessModel :=
  mkModel (m_clock m) (m_budget m) (m_binding m) (m_absUntil m) (m_nextSlot m) (m_elapsed m)
  (m_proofSent m) (m_sequence m) (m_peerHigh m) v (m_window m) (m_intents m) (m_writing m)
  (m_closed m) (m_terminal m) (m_witness m) (m_heap m) (m_next m).
Definition set_m_window (v : list Z) (m : livenessModel) : livenessModel := mkModel (m_clock
  m) (m_budget m) (m_binding m) (m_absUntil m) (m_nextSlot m) (m_elapsed m) (m_proofSent m)
  (m_sequence m) (m_peerHigh m) (m_pending m) v (m_intents m) (m_writing m) (m_closed m)
  (m_terminal m) (m_witness m) (m_heap m) (m_next m).
Definition set_m_intents (v : list (option nat)) (m : livenessModel) : livenessModel :=
  mkModel (m_clock m) (m_budget m) (m_binding m) (m_absUntil m) (m_nextSlot m) (m_elapsed m)
  (m_proofSent m) (m_sequence m) (m_peerHigh m) (m_pending m) (m_window m) v (m_writing m)
  (m_closed m) (m_terminal m) (m_witness m) (m_heap m) (m_next m).
Definition set_m_writing (v : option livenessEmissionWindow) (m : livenessModel) :
  livenessModel := mkModel (m_clock m) (m_budget m) (m_binding m) (m_absUntil m) (m_nextSlot
  m) (m_elapsed m) (m_proofSent m) (m_sequence m) (m_peerHigh m) (m_pending m) (m_window m)
  (m_intents m) v (m_closed m) (m_terminal m) (m_witness m) (m_heap m) (m_next m).
Definition set_m_closed (v : bool) (m : livenessModel) : livenessModel := mkModel (m_clock
  m) (m_budget m) (m_binding m) (m_absUntil m) (m_nextSlot m) (m_elapsed m) (m_proofSent m)
  (m_sequence m) (m_peerHigh m) (m_pending m) (m_window m) (m_intents m) (m_writing m) v
  (m_terminal m) (m_witness m) (m_heap m) (m_next m).
Definition set_m_terminal (v : option lerr) (m : livenessModel) : livenessModel := mkModel
  (m_clock m) (m_budget m) (m_binding m) (m_absUntil m) (m_nextSlot m) (m_elapsed m)
  (m_proofSent m) (m_sequence m) (m_peerHigh m) (m_pending m) (m_window m) (m_intents m)
  (m_writing m) (m_closed m) v (m_witness m) (m_heap m) (m_next m).
Definition set_m_witness (v : LivenessWitness) (m : livenessModel) : livenessModel :=
  mkModel (m_clock m) (m_budget m) (m_binding m) (m_absUntil m) (m_nextSlot m) (m_elapsed m)
  (m_proofSent m) (m_sequence m) (m_peerHigh m) (m_pending m) (m_window m) (m_intents m)
  (m_writing m) (m_closed m) (m_terminal m) v (m_heap m) (m_next m).
Definition set_m_heap (v : gmap nat livenessEmission) (m : livenessModel) : livenessModel :=
  mkModel (m_clock m) (m_budget m) (m_binding m) (m_absUntil m) (m_nextSlot m) (m_elapsed m)
  (m_proofSent m) (m_sequence m) (m_peerHigh m) (m_pending m) (m_window m) (m_intents m)
  (m_writing m) (m_closed m) (m_terminal m) (m_witness m) v (m_next m).
Definition set_m_next (v : nat) (m : livenessModel) : livenessModel := mkModel (m_clock m)
  (m_budget m) (m_binding m) (m_absUntil m) (m_nextSlot m) (m_elapsed m) (m_proofSent m)
  (m_sequence m) (m_peerHigh m) (m_pending m) (m_window m) (m_intents m) (m_writing m)
  (m_closed m) (m_terminal m) (m_witness m) (m_heap m) v.

Definition upd_witness (f : LivenessWitness -> LivenessWitness) (m : livenessModel)
    : livenessModel := set_m_witness (f (m_witness m)) m.

(** [m.witness.C++]. *)
Notation bump set get := (upd_witness (fun w => set (incr (get w)) w)).

(** ** Operations *)

Definition newLivenessModel (binding : echoBinding) (budget : livenessBudget) (clock : option reading)
    (absolute : Time) : res lerr livenessModel :=
  res_bind (newLivenessClock clock) (fun guard =>
  let remaining := TSub absolute (cg_utc0 guard) in
  if negb (validEchoBinding binding) || (remaining <=? 0) || (bu_ceiling budget <? remaining)
     || (bu_pings budget =? 0) then Err errLivenessUnavailable else
  Ok (mkModel guard budget binding remaining livenessInterval 0 (clock_instant guard) 0 0 None
        [] [None; None; None] None false None
        (mkWitness 0 0 0 0 0 0 0 0 0 0 0 0 0 0 0 0 0 0 0 true false) ∅ 0)).

Definition set_terminal (e : lerr) : livenessModel -> livenessModel := set_m_terminal (Some e).

Definition eventAgeLocked (sent : livenessInstant) (m : livenessModel)
    : livenessModel * res lerr Z :=
  match clock_age (m_clock m) sent with
  | Ok age => (m, Ok age)
  | Err e => (set_terminal e m, Err e)
  end.

(** The part of [checkLocked] after the clock has been read. *)
Definition check_pending (m : livenessModel) : livenessModel * option lerr :=
  match m_pending m with
  | None => (m, None)
  | Some p =>
      match eventAgeLocked (pe_sent p) m with
      | (m, Err e) => (m, Some e)
      | (m, Ok age) =>
          if livenessResponseWindow <=? age
          then (bump set_w_PendingExpired w_PendingExpired (set_m_pending None m), None)
          else (m, None)
      end
  end.

Definition check_ages (now : Z) (m : livenessModel) : livenessModel * option lerr :=
  let m := set_m_elapsed now m in
  let m := upd_witness (set_w_ElapsedNS now) m in
  if m_absUntil m <=? now
  then (set_terminal ContextDeadlineExceeded m, Some ContextDeadlineExceeded) else
  match eventAgeLocked (m_proofSent m) m with
  | (m, Err e) => (m, Some e)
  | (m, Ok proofAge) =>
      if bu_lease (m_budget m) <=? proofAge
      then (set_terminal errLivenessTimeout m, Some errLivenessTimeout)
      else check_pending m
  end.

Definition checkLocked (r : reading) (m : livenessModel) : livenessModel * option lerr :=
  match m_terminal m with
  | Some e => (m, Some e)
  | None =>
      if m_closed m then (m, Some ContextCanceled) else
      let '(clock, now) := clock_read (m_clock m) r in
      let m := set_m_clock clock m in
      let m := upd_witness (set_w_UTCRollbacks (cg_rollbacks clock)) m in
      match now with
      | Err e => (set_terminal e m, Some e)
      | Ok now => check_ages now m
      end
  end.

Definition model_permit : reading -> livenessModel -> livenessModel * option lerr := checkLocked.

Definition windowExpiredLocked (w : livenessEmissionWindow) (m : livenessModel)
    : livenessModel * (bool * option lerr) :=
  match eventAgeLocked (ew_sent w) m with
  | (m, Err e) => (m, (true, Some e))
  | (m, Ok age) =>
      let '(m, proof) := eventAgeLocked (ew_proofSent w) m in
      let proofAge := match proof with Ok a => a | Err _ => 0 end in
      (m, ((livenessWriteWindow <=? age) || (bu_lease (m_budget m) <=? proofAge)
           || (m_absUntil m <=? m_elapsed m),
           match proof with Ok _ => None | Err e => Some e end))
  end.

(** The entries of the rolling window that are younger than the interval. *)
Definition kept_window (m : livenessModel) : list Z :=
  List.filter (fun t => li_mono (clock_instant (m_clock m)) - t <? livenessInterval) (m_window m).

Definition admit_full (kind : Z) (m : livenessModel) : bool :=
  let w := m_witness m in
  (Z.of_nat (length (m_window m)) =? 4)
  || (bu_total (m_budget m) <=? u64_add (w_PingAdmitted w) (w_PongAdmitted w))
  || ((kind =? livenessPing) && (bu_pings (m_budget m) <=? w_PingAdmitted w))
  || ((kind =? livenessPong) && (bu_pongs (m_budget m) <=? w_PongAdmitted w)).

Definition admitLocked (kind : Z) (m : livenessModel) : livenessModel * bool :=
  let now := li_mono (clock_instant (m_clock m)) in
  let m := set_m_window (kept_window m) m in
  if admit_full kind m then
    let m := bump set_w_LivenessAdmissionRejected w_LivenessAdmissionRejected m in
    (if kind =? livenessPing then bump set_w_PingAdmissionRejected w_PingAdmissionRejected m
     else bump set_w_PongAdmissionRejected w_PongAdmissionRejected m, false)
  else
    let m := set_m_window (m_window m ++ [now]) m in
    (if kind =? livenessPing then bump set_w_PingAdmitted w_PingAdmitted m
     else bump set_w_PongAdmitted w_PongAdmitted m, true).

Definition preparePing (r : reading) (m : livenessModel) : livenessModel * res lerr Z :=
  match checkLocked r m with
  | (m, Some e) => (m, Err e)
  | (m, None) =>
      if m_elapsed m <? m_nextSlot m then (m, Ok 0) else
      let m := set_m_nextSlot
        ((Z.quot (m_elapsed m) livenessInterval + 1) * livenessInterval) m in
      match eventAgeLocked (m_proofSent m) m with
      | (m, Err e) => (m, Err e)
      | (m, Ok proofAge) =>
          if bool_decide (is_Some (m_pending m))
             || (Z.min (m_absUntil m - m_elapsed m) (bu_lease (m_budget m) - proofAge)
                 <? livenessResponseWindow)
          then (m, Ok 0) else
          if (m_sequence m =? u64_max) || (bu_pings (m_budget m) <=? m_sequence m)
          then (set_terminal errLivenessProtocol m, Err errLivenessProtocol) else
          let m := set_m_sequence (incr (m_sequence m)) m in
          (m, Ok (m_sequence m))
      end
  end.

(** The index of the first slot that satisfies [f]. *)
Fixpoint find_slot (f : option nat -> bool) (l : list (option nat)) : option nat :=
  match l with
  | [] => None
  | x :: l' => if f x then Some O else option_map S (find_slot f l')
  end.

Definition free_slot : list (option nat) -> option nat :=
  find_slot (fun x => bool_decide (x = None)).
Definition slot_of (e : nat) : list (option nat) -> option nat :=
  find_slot (fun x => bool_decide (x = Some e)).

(** [&livenessEmission{...}], stored in slot [i]. *)
Definition place_emission (i : nat) (e : livenessEmission) (m : livenessModel)
    : livenessModel * nat :=
  let id := m_next m in
  (set_m_next (S id) (set_m_heap (<[id := e]> (m_heap m))
     (set_m_intents (<[i := Some id]> (m_intents m)) m)), id).

Definition current_window (m : livenessModel) : livenessEmissionWindow :=
  mkWindow (clock_instant (m_clock m)) (m_proofSent m).

(** [clear(e.packet)]. *)
Definition clear_packet (id : nat) (m : livenessModel) : livenessModel :=
  set_m_heap (alter (fun e => mkEmission (make_bytes (length (em_packet e))) (em_window e)
    (em_teardown e)) id (m_heap m)) m.

Section messages.
Context {H : Sha256}.

Definition intentLocked (message : livenessMessage) (m : livenessModel)
    : livenessModel * res lerr (option nat) :=
  match buildLivenessPacket (m_binding m) message with
  | Err e => (m, Err e)
  | Ok packet =>
      match free_slot (m_intents m) with
      | Some i =>
          let '(m, id) := place_emission i (mkEmission packet (current_window m) false) m in
          (m, Ok (Some id))
      | None => (bump set_w_OutboundDropped w_OutboundDropped m, Ok None)
      end
  end.

Definition ping (r : reading) (sequence : Z) (nonce : list Z) (m : livenessModel)
    : livenessModel * res lerr (option nat) :=
  match checkLocked r m with
  | (m, Some e) => (m, Err e)
  | (m, None) =>
      if negb (sequence =? m_sequence m) || (sequence =? 0) || bool_decide (is_Some (m_pending m))
      then (m, Err errLivenessBudget) else
      let message := mkMessage livenessPing sequence nonce in
      match admitLocked livenessPing m with
      | (m, false) => (m, Ok None)
      | (m, true) =>
          match intentLocked message m with
          | (m, Ok (Some id)) =>
              (set_m_pending (Some (mkPending message (clock_instant (m_clock m)))) m, Ok (Some id))
          | r => r
          end
      end
  end.

Definition receive_pong (message : livenessMessage) (m : livenessModel) : livenessModel :=
  match m_pending m with
  | Some p =>
      if negb (lm_sequence message =? lm_sequence (pe_message p))
         || negb (bytes_eqb (lm_nonce message) (lm_nonce (pe_message p)))
      then bump set_w_PongDropped w_PongDropped m
      else bump set_w_PongValidated w_PongValidated
             (set_m_pending None (set_m_proofSent (pe_sent p) m))
  | None => bump set_w_PongDropped w_PongDropped m
  end.

Definition receive_ping (message : livenessMessage) (m : livenessModel)
    : livenessModel * res lerr (option nat) :=
  if bu_pongs (m_budget m) <? lm_sequence message
  then (set_terminal errLivenessProtocol m, Err errLivenessProtocol) else
  if lm_sequence message <=? m_peerHigh m
  then (bump set_w_ReplayDropped w_ReplayDropped m, Ok None) else
  let m := set_m_peerHigh (lm_sequence message) m in
  match admitLocked livenessPong m with
  | (m, false) => (m, Ok None)
  | (m, true) => intentLocked (mkMessage livenessPong (lm_sequence message) (lm_nonce message)) m
  end.

Definition receive (r : reading) (packet : list Z) (m : livenessModel)
    : livenessModel * res lerr (option nat) :=
  match checkLocked r m with
  | (m, Some e) => (m, Err e)
  | (m, None) =>
      match parseLivenessPacket packet (m_binding m) with
      | Err e => (set_terminal e m, Err e)
      | Ok message =>
          if lm_kind message =? livenessPong then (receive_pong message m, Ok None)
          else receive_ping message m
      end
  end.
End messages.

Definition discard (e : nat) (m : livenessModel) : livenessModel :=
  match slot_of e (m_intents m) with
  | Some i => bump set_w_OutboundDropped w_OutboundDropped
                (clear_packet e (set_m_intents (<[i := None]> (m_intents m)) m))
  | None => m
  end.

(** [e.window] of the emission; [e] is never nil. *)
Definition emission_window (e : nat) (m : livenessModel) : livenessEmissionWindow :=
  match m_heap m !! e with
  | Some x => em_window x
  | None => mkWindow (mkInstant 0 time_zero) (mkInstant 0 time_zero)
  end.

Definition beginWrite (r : reading) (e : nat) (m : livenessModel) : livenessModel * res lerr bool :=
  match checkLocked r m with
  | (m, Some x) => (m, Err x)
  | (m, None) =>
      match slot_of e (m_intents m), m_writing m with
      | Some i, None =>
          let m := set_m_intents (<[i := None]> (m_intents m)) m in
          let w := emission_window e m in
          match windowExpiredLocked w m with
          | (m, (_, Some x)) => (m, Err x)
          | (m, (true, None)) => (bump set_w_OutboundExpired w_OutboundExpired m, Ok false)
          | (m, (false, None)) => (set_m_writing (Some w) m, Ok true)
          end
      | _, _ =>
          let m := bump set_w_AdmissionBypass w_AdmissionBypass m in
          (set_terminal errLivenessBudget m, Err errLivenessBudget)
      end
  end.

Definition endWrite (injected : bool) (m : livenessModel) : livenessModel :=
  let m := set_m_writing None m in
  if injected then bump set_w_InnerInjected w_InnerInjected m else m.
