(* ===== verification/LivenessInv.v ===== *)
(** * Invariants of the session liveness model

    Checking the clock only moves the clock, the terminal error and the pending
    ping ([quiet]); every other change of the model is one of a few elementary
    ones.  [model_inv] is preserved by all of them. *)
From S2P Require Import Prelude GoStd LivenessWire LivenessWireThms Liveness.

Definition mono_now (m : livenessModel) : Z := li_mono (clock_instant (m_clock m)).

(** ** Quiet changes *)

Definition passive (e : lerr) : bool :=
  match e with
  | errLivenessClock | errLivenessTimeout | errLivenessUnavailable | ContextDeadlineExceeded => true
  | _ => false
  end.

Record quiet (m m' : livenessModel) : Prop := {
  q_budget : m_budget m' = m_budget m;
  q_binding : m_binding m' = m_binding m;
  q_absUntil : m_absUntil m' = m_absUntil m;
  q_nextSlot : m_nextSlot m' = m_nextSlot m;
  q_proofSent : m_proofSent m' = m_proofSent m;
  q_sequence : m_sequence m' = m_sequence m;
  q_peerHigh : m_peerHigh m' = m_peerHigh m;
  q_window : m_window m' = m_window m;
  q_intents : m_intents m' = m_intents m;
  q_writing : m_writing m' = m_writing m;
  q_closed : m_closed m' = m_closed m;
  q_heap : m_heap m' = m_heap m;
  q_next : m_next m' = m_next m;
  q_pings : w_PingAdmitted (m_witness m') = w_PingAdmitted (m_witness m);
  q_pongs : w_PongAdmitted (m_witness m') = w_PongAdmitted (m_witness m);
  q_validated : w_PongValidated (m_witness m') = w_PongValidated (m_witness m);
  q_bypass : w_AdmissionBypass (m_witness m') = w_AdmissionBypass (m_witness m);
  q_drained : w_Drained (m_witness m') = w_Drained (m_witness m);
  q_clock : cg_mono0 (m_clock m') = cg_mono0 (m_clock m) /\
    cg_lastMono (m_clock m) <= cg_lastMono (m_clock m');
  q_elapsed : 0 <= m_elapsed m -> cg_mono0 (m_clock m) <= cg_lastMono (m_clock m) ->
    0 <= m_elapsed m';
  q_pending : m_pending m' = m_pending m \/ m_pending m' = None;
  q_terminal : m_terminal m' = m_terminal m \/
    exists e, m_terminal m = None /\ m_terminal m' = Some e /\ passive e = true;
}.

Ltac solve_quiet := split; try done; simpl; try lia; try (by left); try (by right).

#[export] Instance quiet_refl : Reflexive quiet.
Proof. intros m. solve_quiet. Qed.

#[export] Instance quiet_trans : Transitive quiet.
Proof.
  intros m1 m2 m3 Q1 Q2. destruct Q1, Q2. destruct_and!.
  split; try congruence; try lia.
  - destruct q_pending0, q_pending1; (left; congruence) || (right; congruence).
  - destruct q_terminal0 as [E0|(e & E1 & E2 & E3)], q_terminal1 as [E4|(e' & E5 & E6 & E7)];
      [left; congruence | right; exists e'; naive_solver congruence
      | right; exists e; naive_solver congruence | congruence].
Qed.

Lemma quiet_terminal m e :
  m_terminal m = None -> passive e = true -> quiet m (set_terminal e m).
Proof. intros Ht He. solve_quiet. right. by exists e. Qed.

Lemma clock_age_err c s e : clock_age c s = Err e -> e = errLivenessClock.
Proof. unfold clock_age. repeat case_match; naive_solver. Qed.

(** The event age is at least the monotonic age. *)
Lemma clock_age_Ok c s a :
  clock_age c s = Ok a ->
  0 <= li_mono s <= li_mono (clock_instant c) /\ li_mono (clock_instant c) - li_mono s <= a.
Proof.
  unfold clock_age. cbv zeta. destruct (_ || _) eqn:Hg; [done|]. case_match; [done|].
  intros [= <-]. rewrite !orb_false_iff, !Z.ltb_ge in Hg. unfold clock_instant in *. simpl in *. lia.
Qed.

Lemma eventAgeLocked_quiet s m :
  m_terminal m = None -> quiet m (eventAgeLocked s m).1 /\
  ((eventAgeLocked s m).1 = m /\ eventAgeLocked s m = (m, clock_age (m_clock m) s) \/
   (eventAgeLocked s m).2 = Err errLivenessClock).
Proof.
  intros Ht. unfold eventAgeLocked. destruct (clock_age (m_clock m) s) as [a|e] eqn:E.
  - by split; [|left].
  - apply clock_age_err in E as ->. split; [by apply quiet_terminal | by right].
Qed.

Lemma clock_read_spec c r :
  let '(c', o) := clock_read c r in
  cg_mono0 c' = cg_mono0 c /\ cg_lastMono c <= cg_lastMono c' /\
  match o with
  | Ok now => cg_lastMono c' - cg_mono0 c' <= now /\ 0 <= cg_lastMono c' - cg_mono0 c'
  | Err e => e = errLivenessClock /\ c' = c
  end.
Proof.
  unfold clock_read. cbv zeta. destruct (_ || _) eqn:Hg; [split_and!; done|].
  rewrite !orb_false_iff, !Z.ltb_ge in Hg.
  destruct (_ || negb _ || _ || _ || _) eqn:Hh; [split_and!; done|]. simpl.
  rewrite !orb_false_iff, !Z.ltb_ge in Hh. split_and!; try lia.
  destruct (Z.ltb_spec (rd_mono r - cg_mono0 c) (TSub (rd_utc r) (cg_utc0 c))); lia.
Qed.

Lemma check_pending_quiet m :
  m_terminal m = None -> quiet m (check_pending m).1 /\
  ((check_pending m).2 = None ->
   m_terminal (check_pending m).1 = None /\ m_clock (check_pending m).1 = m_clock m /\
   m_elapsed (check_pending m).1 = m_elapsed m).
Proof.
  intros Ht. unfold check_pending. destruct (m_pending m) as [p|]; [|done].
  destruct (eventAgeLocked_quiet (pe_sent p) m Ht) as [Q C].
  destruct (eventAgeLocked (pe_sent p) m) as [m' [a|e]]; simpl in *; [|done].
  destruct C as [[-> _]|C]; [|done].
  destruct (_ <=? _); [|done]. simpl. split; [|done]. solve_quiet.
Qed.

(** What holds after a check that did not fail. *)
Record fresh (m : livenessModel) : Prop := {
  fr_terminal : m_terminal m = None;
  fr_closed : m_closed m = false;
  fr_elapsed : mono_now m <= m_elapsed m < m_absUntil m;
  fr_mono : 0 <= mono_now m;
  fr_proof : exists age, clock_age (m_clock m) (m_proofSent m) = Ok age /\
    age < bu_lease (m_budget m);
}.

Lemma check_ages_quiet now m :
  m_terminal m = None -> m_closed m = false -> 0 <= mono_now m <= now ->
  quiet m (check_ages now m).1 /\
  ((check_ages now m).2 = None -> fresh (check_ages now m).1).
Proof.
  intros Ht Hc Hnow. unfold check_ages. cbv zeta.
  set (m1 := upd_witness (set_w_ElapsedNS now) (set_m_elapsed now m)).
  assert (Q1 : quiet m m1) by (solve_quiet).
  assert (Ht1 : m_terminal m1 = None) by done.
  assert (Hx : forall e, passive e = true -> quiet m (set_terminal e m1))
    by (intros; etrans; [exact Q1 | by apply quiet_terminal]).
  change (m_absUntil m1) with (m_absUntil m).
  destruct (Z.leb_spec (m_absUntil m) now) as [|Hu]; [by split; [apply Hx|]|].
  destruct (eventAgeLocked_quiet (m_proofSent m1) m1 Ht1) as [Q2 C].
  destruct (eventAgeLocked (m_proofSent m1) m1) as [m2 [a|e]] eqn:E; simpl in *;
    [|split; [by etrans | done]].
  destruct C as [[-> C]|C]; [|done]. injection C as C.
  change (m_budget m1) with (m_budget m).
  destruct (Z.leb_spec (bu_lease (m_budget m)) a) as [|Hl]; [by split; [apply Hx|]|].
  destruct (check_pending_quiet m1 Ht1) as [Q3 F]. split; [by etrans|].
  intros Hn. destruct (F Hn) as (F1 & F2 & F3).
  assert (Em : mono_now (check_pending m1).1 = mono_now m) by (unfold mono_now; by rewrite F2).
  split; rewrite ?Em, ?F2, ?F3, ?(q_closed _ _ Q3), ?(q_absUntil _ _ Q3), ?(q_proofSent _ _ Q3),
    ?(q_budget _ _ Q3); simpl; try done; try lia.
  exists a. by split.
Qed.

Lemma checkLocked_quiet r m :
  quiet m (checkLocked r m).1 /\
  ((checkLocked r m).2 = None -> fresh (checkLocked r m).1).
Proof.
  unfold checkLocked. destruct (m_terminal m) as [e|] eqn:Ht; [done|].
  destruct (m_closed m) eqn:Hc; [done|].
  pose proof (clock_read_spec (m_clock m) r) as R.
  destruct (clock_read (m_clock m) r) as [c [now|e]]; destruct R as (R1 & R2 & R3).
  - set (m1 := upd_witness _ _).
    assert (Q1 : quiet m m1) by (solve_quiet).
    destruct (check_ages_quiet now m1) as [Q2 F]; [done|done|unfold mono_now; simpl; lia|].
    split; [by etrans|exact F].
  - destruct R3 as [-> ->]. split; [|done]. etrans; [|by apply quiet_terminal].
    solve_quiet.
Qed.

Lemma windowExpiredLocked_quiet w m :
  m_terminal m = None -> quiet m (windowExpiredLocked w m).1 /\
  ((windowExpiredLocked w m).2 = (false, None) ->
   (windowExpiredLocked w m).1 = m /\ mono_now m - li_mono (ew_sent w) < livenessWriteWindow /\
   mono_now m - li_mono (ew_proofSent w) < bu_lease (m_budget m) /\ m_elapsed m < m_absUntil m) /\
  (forall b e, (windowExpiredLocked w m).2 = (b, Some e) -> e = errLivenessClock).
Proof.
  intros Ht. unfold windowExpiredLocked.
  destruct (eventAgeLocked_quiet (ew_sent w) m Ht) as [Q1 C1].
  destruct (eventAgeLocked (ew_sent w) m) as [m1 [a1|e1]]; simpl in *.
  2: { destruct C1 as [[-> C]|C1]; [|naive_solver]. injection C as C.
       symmetry in C. apply clock_age_err in C. naive_solver. }
  destruct C1 as [[-> C1]|]; [|done]. injection C1 as C1.
  destruct (eventAgeLocked_quiet (ew_proofSent w) m Ht) as [Q2 C2].
  destruct (eventAgeLocked (ew_proofSent w) m) as [m2 [a2|e2]]; simpl in *.
  - destruct C2 as [[-> C2]|]; [|done]. injection C2 as C2. split; [done|]. split; [|naive_solver].
    intros [= Hb]. rewrite !orb_false_iff, !Z.leb_gt in Hb.
    symmetry in C1, C2. apply clock_age_Ok in C1, C2. unfold mono_now. split_and!; try lia; done.
  - split; [done|]. split; [naive_solver|]. intros b e [= _ <-].
    destruct C2 as [[-> C]|C2]; [|naive_solver]. injection C as C. symmetry in C.
    by apply clock_age_err in C.
Qed.
