(* ===== verification/LivenessController.v ===== *)
(** * The session liveness controller
    (src/internal/v2/gatecorchestrator/liveness_controller.go)

    The foreground loop [run] with its teardown [drain], the [writer] and the
    [watchdog] goroutines, the decrypt callback [Deliver] and the callbacks of
    the session gate share one [livenessModel], two buffered channels and a
    stop channel.  Each goroutine is a phase; one transition is one critical
    section, one channel operation or one call into another component, whose
    result is an argument.  A transition records what it did as [event]s. *)
From S2P Require Import Prelude GoStd LivenessWire Liveness.

(** [probeio.SessionViolation]. *)
Inductive SessionViolation :=
| SessionAdmissionBypass
| SessionControlLimit
| SessionControlInvalid
| SessionWriterFailure
| SessionDrainFailure
| SessionViolationOther (v : Z).

#[export] Instance SessionViolation_eq_dec : EqDecision SessionViolation.
Proof. solve_decision. Defined.

Inductive session_end :=
| liveness_timeout
| absolute_ceiling
| canceled
| liveness_failed
| authenticated_close.

Definition livenessEnd (err : option lerr) : session_end * option lerr :=
  match err with
  | Some errLivenessTimeout => (liveness_timeout, err)
  | Some ContextDeadlineExceeded => (absolute_ceiling, None)
  | Some ContextCanceled | None => (canceled, None)
  | Some _ => (liveness_failed, err)
  end.

Definition outcome : Type := session_end * option lerr.

(** ** Phases *)

(** What follows an emission that has been queued. *)
Inductive enqueue_next := ToTop | ToCloseLoop (e : nat).

Inductive front_phase :=
(* run *)
| FTop
| FSelect
| FEvent (packet : list Z) (length : Z)
| FReceive (packet : list Z)
| FTick
| FPing (sequence : Z)
| FEnqueue (e : nat) (next : enqueue_next)
| FViolation (v : SessionViolation)
| FEnd (err : option lerr) (out : outcome)
| FStop (out : outcome)
(* bestEffortClose *)
| FClosePermit
| FCloseBuild
| FCloseLoop (e : nat)
| FCloseCheck (e : nat)
| FCloseWait (e : nat)
| FCloseViolation
| FCloseEnd (err : option lerr)
| FCloseStop
(* the end of a cancelled run *)
| FCancelEnd
| FCancelStop
| FCancelRead
| FReturned (out : outcome)
(* drain *)
| FDrainStop
| FDrainWriter
| FDrainWatchdog
| FDrainViolation
| FDrainFailEnd (err : option lerr)
| FDrainFailStop
| FDrainLock
| FDrainInbound
| FDrainOutbound
| FDrainFinal
| FDrained
| FDrainFailed.

Inductive writer_phase :=
| WSelect
| WPermit (e : nat)
| WBegin (e : nat)
| WInject (e : nat)
| WEndWrite (e : nat) (ok : bool)
| WCloseCount (e : nat)
| WClear (e : nat) (ok : bool)
| WFailSelect
| WFailCount
| WViolation (v : SessionViolation)
| WEnd (err : option lerr)
| WStop
| WDone.

Inductive watchdog_phase :=
| DSelect
| DPermit
| DCheck
| DViolation
| DEnd (err : option lerr)
| DStop
| DDone.

(** Who holds the [ingress] mutex. *)
Inductive ingress_holder :=
| DeliverCheck (packet : list Z)
| DeliverSend (packet : list Z)
| HeldByDrain.

Record controlEvent := mkControlEvent { ce_packet : list Z; ce_length : Z }.

Record controller := mkController {
  k_model : livenessModel;
  k_stop : bool;
  k_inbound : list controlEvent;
  k_outbound : list nat;
  k_inboundDrops : Z;
  k_ingress : option ingress_holder;
  k_front : front_phase;
  k_writer : writer_phase;
  k_watchdog : watchdog_phase;
  k_closeReads : Z;
  k_external : nat;
}.

Definition set_k_model (v : livenessModel) (k : controller) : controller := mkController v
  (k_stop k) (k_inbound k) (k_outbound k) (k_inboundDrops k) (k_ingress k) (k_front k)
  (k_writer k) (k_watchdog k) (k_closeReads k) (k_external k).
Definition set_k_stop (v : bool) (k : controller) : controller := mkController (k_model k) v
  (k_inbound k) (k_outbound k) (k_inboundDrops k) (k_ingress k) (k_front k) (k_writer k)
  (k_watchdog k) (k_closeReads k) (k_external k).
Definition set_k_inbound (v : list controlEvent) (k : controller) : controller :=
  mkController (k_model k) (k_stop k) v (k_outbound k) (k_inboundDrops k) (k_ingress k)
  (k_front k) (k_writer k) (k_watchdog k) (k_closeReads k) (k_external k).
Definition set_k_outbound (v : list nat) (k : controller) : controller := mkController
  (k_model k) (k_stop k) (k_inbound k) v (k_inboundDrops k) (k_ingress k) (k_front k)
  (k_writer k) (k_watchdog k) (k_closeReads k) (k_external k).
Definition set_k_inboundDrops (v : Z) (k : controller) : controller := mkController (k_model
  k) (k_stop k) (k_inbound k) (k_outbound k) v (k_ingress k) (k_front k) (k_writer k)
  (k_watchdog k) (k_closeReads k) (k_external k).
Definition set_k_ingress (v : option ingress_holder) (k : controller) : controller :=
  mkController (k_model k) (k_stop k) (k_inbound k) (k_outbound k) (k_inboundDrops k) v
  (k_front k) (k_writer k) (k_watchdog k) (k_closeReads k) (k_external k).
Definition set_k_front (v : front_phase) (k : controller) : controller := mkController
  (k_model k) (k_stop k) (k_inbound k) (k_outbound k) (k_inboundDrops k) (k_ingress k) v
  (k_writer k) (k_watchdog k) (k_closeReads k) (k_external k).
Definition set_k_writer (v : writer_phase) (k : controller) : controller := mkController
  (k_model k) (k_stop k) (k_inbound k) (k_outbound k) (k_inboundDrops k) (k_ingress k)
  (k_front k) v (k_watchdog k) (k_closeReads k) (k_external k).
Definition set_k_watchdog (v : watchdog_phase) (k : controller) : controller := mkController
  (k_model k) (k_stop k) (k_inbound k) (k_outbound k) (k_inboundDrops k) (k_ingress k)
  (k_front k) (k_writer k) v (k_closeReads k) (k_external k).
Definition set_k_closeReads (v : Z) (k : controller) : controller := mkController (k_model
  k) (k_stop k) (k_inbound k) (k_outbound k) (k_inboundDrops k) (k_ingress k) (k_front k)
  (k_writer k) (k_watchdog k) v (k_external k).
Definition set_k_external (v : nat) (k : controller) : controller := mkController (k_model
  k) (k_stop k) (k_inbound k) (k_outbound k) (k_inboundDrops k) (k_ingress k) (k_front k)
  (k_writer k) (k_watchdog k) (k_closeReads k) v.

Definition upd_model (f : livenessModel -> livenessModel) (k : controller) : controller :=
  set_k_model (f (k_model k)) k.

(** ** Calls shared by the goroutines *)

(** [permit]; [available] says whether [ownerAvailable] returned nil. *)
Definition permit (available : bool) (r : reading) (m : livenessModel)
    : livenessModel * option lerr :=
  if available then model_permit r m else
  (match m_terminal m with None => set_terminal errLivenessUnavailable m | Some _ => m end,
   Some errLivenessUnavailable).

(** The critical section of [end]. *)
Definition end_locked (err : option lerr) (m : livenessModel) : livenessModel :=
  let m := match m_terminal m, err with None, Some e => set_terminal e m | _, _ => m end in
  set_m_closed true m.

(** The error [hardViolation] ends the session with; [reported] says whether
    [reportViolation] returned nil. *)
Definition hardViolation (v : SessionViolation) (reported : bool) : lerr :=
  if negb reported then errLivenessUnavailable else
  match v with
  | SessionAdmissionBypass | SessionControlLimit => errLivenessBudget
  | SessionControlInvalid => errLivenessProtocol
  | _ => ErrSessionDrain
  end.

Definition chan_cap : nat := 2.

Definition push_inbound (e : controlEvent) (k : controller) : controller :=
  if bool_decide (length (k_inbound k) < chan_cap)%nat
  then set_k_inbound (k_inbound k ++ [e]) k
  else set_k_inboundDrops (incr (k_inboundDrops k)) k.

(** The event [Deliver] makes of a packet. *)
Definition control_event (packet : list Z) : controlEvent :=
  mkControlEvent
    (if blen packet <=? livenessPacketSize
     then copy_at 0 packet (make_bytes (Z.to_nat livenessPacketSize))
     else make_bytes (Z.to_nat livenessPacketSize))
    (blen packet).

(** ** Events *)
Inductive event :=
| EvAdmit (kind mono : Z)
| EvPing (message : livenessMessage) (sent : livenessInstant)
| EvPong (packet : list Z) (message : livenessMessage)
| EvPlace (e : nat) (packet : list Z) (window : livenessEmissionWindow)
| EvWrite (e : nat) (at_ : livenessInstant)
| EvInject (e : nat) (packet : list Z)
| EvBadPacket (packet : list Z)
| EvBadLength (length : Z)
| EvRandomFailed
| EvGateViolation (v : SessionViolation)
(* [reportViolation] was called, and whether it returned nil *)
| EvReport (v : SessionViolation) (reported : bool).

(** The admission an operation made, seen from the counters. *)
Definition admitted (m m' : livenessModel) : list event :=
  let now := li_mono (clock_instant (m_clock m')) in
  (if bool_decide (w_PingAdmitted (m_witness m) = w_PingAdmitted (m_witness m')) then []
   else [EvAdmit livenessPing now]) ++
  (if bool_decide (w_PongAdmitted (m_witness m) = w_PongAdmitted (m_witness m')) then []
   else [EvAdmit livenessPong now]).

(** The emission an operation placed. *)
Definition placed (m' : livenessModel) (e : option nat) : list event :=
  match e with
  | Some id => match m_heap m' !! id with
               | Some x => [EvPlace id (em_packet x) (em_window x)]
               | None => [] end
  | None => []
  end.

Section controller.
Context {H : Sha256}.

(** The message an accepted pong answers, if it answers one. *)
Definition answered (m m' : livenessModel) (packet : list Z) : list event :=
  match parseLivenessPacket packet (m_binding m) with
  | Ok message =>
      if bool_decide (w_PongValidated (m_witness m) = w_PongValidated (m_witness m')) then []
      else [EvPong packet message]
  | Err _ => []
  end.

(** ** The foreground *)

Definition after_enqueue (e : option nat) (next : enqueue_next) : front_phase :=
  match e with Some id => FEnqueue id next | None => FTop end.

(** A [permit] followed by [then_] or by the end of the session. *)
Definition front_permit (available : bool) (r : reading) (then_ : front_phase) (k : controller)
    : controller :=
  match permit available r (k_model k) with
  | (m, None) => set_k_front then_ (set_k_model m k)
  | (m, Some e) => set_k_front (FEnd (Some e) (livenessEnd (Some e))) (set_k_model m k)
  end.

Definition front_event (packet : list Z) (length : Z) (k : controller) : controller * list event :=
  if (length =? echoPacketSize) && (get16 22 packet =? echoPort) then
    match parseEchoPacket (take (Z.to_nat length) packet) (m_binding (k_model k)) echoClose None with
    | Ok _ =>
        (set_k_front (FEnd None (authenticated_close, None))
           (set_k_closeReads (k_closeReads k + 1) k), [])
    | Err _ => (set_k_front FTop k, [])
    end
  else if negb (length =? livenessPacketSize) then
    (set_k_front (FEnd (Some errLivenessProtocol) (liveness_failed, Some errLivenessProtocol)) k,
     [EvBadLength length])
  else (set_k_front (FReceive packet) k, []).

Definition front_receive (r : reading) (packet : list Z) (k : controller)
    : controller * list event :=
  let m := k_model k in
  let '(m', result) := receive r packet m in
  let k := set_k_model m' k in
  match result with
  | Err e =>
      (set_k_front (FEnd (Some e) (livenessEnd (Some e))) k,
       if bool_decide (m_terminal m = None) && bool_decide (e = errLivenessProtocol)
       then [EvBadPacket packet] else [])
  | Ok e =>
      (set_k_front (after_enqueue e ToTop) k,
       answered m m' packet ++ admitted m m' ++ placed m' e)
  end.

Definition front_tick (r : reading) (k : controller) : controller :=
  let '(m', result) := preparePing r (k_model k) in
  let k := set_k_model m' k in
  match result with
  | Err e => set_k_front (FEnd (Some e) (livenessEnd (Some e))) k
  | Ok sequence => if sequence =? 0 then set_k_front FTop k else set_k_front (FPing sequence) k
  end.

(** [nonce] is what [io.ReadFull] delivered. *)
Definition front_ping (r : reading) (sequence : Z) (nonce : option (list Z)) (k : controller)
    : controller * list event :=
  match nonce with
  | None =>
      (set_k_front (FEnd (Some errLivenessProtocol) (liveness_failed, Some errLivenessProtocol)) k,
       [EvRandomFailed])
  | Some nonce =>
      let m := k_model k in
      let '(m', result) := ping r sequence nonce m in
      let k := set_k_model m' k in
      match result with
      | Err e =>
          (if bool_decide (e = errLivenessBudget)
           then set_k_front (FViolation SessionAdmissionBypass) k
           else set_k_front (FEnd (Some e) (livenessEnd (Some e))) k, [])
      | Ok e =>
          (set_k_front (after_enqueue e ToTop) k,
           admitted m m' ++ placed m' e
             ++ (if e then [EvPing (mkMessage livenessPing sequence nonce)
                              (clock_instant (m_clock m'))] else []))
      end
  end.

Definition enqueue_done (next : enqueue_next) : front_phase :=
  match next with ToTop => FTop | ToCloseLoop e => FCloseLoop e end.

(** [enqueue]: send when there is room, discard otherwise; with the stop
    channel closed and room in the queue the choice is free. *)
Definition enqueue_send (e : nat) (next : enqueue_next) (k : controller) : controller :=
  set_k_front (enqueue_done next) (set_k_outbound (k_outbound k ++ [e]) k).
Definition enqueue_discard (e : nat) (next : enqueue_next) (k : controller) : controller :=
  set_k_front (enqueue_done next) (upd_model (discard e) k).

(** The first half of [bestEffortClose]: the packet, the check and the slot. *)
Definition close_build (r : reading) (nonce : option (list Z)) (k : controller)
    : controller * list event :=
  match nonce with
  | None => (set_k_front FCancelEnd k, [])
  | Some nonce =>
      match buildEchoPacket (m_binding (k_model k)) echoClose nonce with
      | Err _ => (set_k_front FCancelEnd k, [])
      | Ok packet =>
          match checkLocked r (k_model k) with
          | (m, Some _) => (set_k_front FCancelEnd (set_k_model m k), [])
          | (m, None) =>
              match free_slot (m_intents m) with
              | None => (set_k_front FCancelEnd (set_k_model m k), [])
              | Some i =>
                  let '(m, id) := place_emission i (mkEmission packet (current_window m) true) m in
                  let m := bump set_w_CloseAdmitted w_CloseAdmitted m in
                  (set_k_front (FEnqueue id (ToCloseLoop id)) (set_k_model m k), placed m (Some id))
              end
          end
      end
  end.

Definition close_permit (available : bool) (r : reading) (then_ : front_phase) (k : controller)
    : controller :=
  match permit available r (k_model k) with
  | (m, None) => set_k_front then_ (set_k_model m k)
  | (m, Some _) => set_k_front FCancelEnd (set_k_model m k)
  end.

Definition close_check (e : nat) (k : controller) : controller :=
  let m := k_model k in
  let writing := bool_decide (is_Some (m_writing m)) in
  let '(m', (expired, err)) := windowExpiredLocked (emission_window e m) m in
  let k := set_k_model m' k in
  if expired || bool_decide (is_Some err) then
    if expired && bool_decide (err = None) && writing then set_k_front FCloseViolation k
    else set_k_front FCancelEnd k
  else set_k_front (FCloseWait e) k.

(** The last section of [drain]. *)
Definition drain_final (k : controller) : controller :=
  let m := k_model k in
  let m := fold_left (fun m e => match e with Some id => clear_packet id m | None => m end)
             (m_intents m) m in
  let m := set_m_intents [None; None; None] m in
  let m := set_m_pending None m in
  let m := upd_witness (fun w => set_w_Drained true (set_w_InboundDropped (k_inboundDrops k) w)) m in
  set_k_ingress None (set_k_front FDrained (set_k_model m k)).

Definition drain_outbound (k : controller) : controller :=
  match k_outbound k with
  | [] => set_k_front FDrainFinal k
  | e :: rest => set_k_outbound rest (upd_model (discard e) k)
  end.

(** One transition of the foreground. *)
Inductive front_step : controller -> list event -> controller -> Prop :=
| front_top available r k :
    k_front k = FTop -> front_step k [] (front_permit available r FSelect k)
| front_select_stop k :
    k_front k = FSelect -> k_stop k = true ->
    front_step k [] (set_k_front (FReturned (livenessEnd (m_terminal (k_model k)))) k)
| front_select_session err k :
    k_front k = FSelect -> err = ContextCanceled \/ err = ContextDeadlineExceeded ->
    front_step k [] (set_k_front (FEnd (Some err) (absolute_ceiling, None)) k)
| front_select_ctx k :
    k_front k = FSelect -> front_step k [] (set_k_front FClosePermit k)
| front_select_inbound e rest k :
    k_front k = FSelect -> k_inbound k = e :: rest ->
    front_step k []
      (set_k_front (FEvent (ce_packet e) (ce_length e)) (set_k_inbound rest k))
| front_select_timer k :
    k_front k = FSelect -> front_step k [] (set_k_front FTick k)
| front_event_refused packet length available r m e k :
    k_front k = FEvent packet length -> permit available r (k_model k) = (m, Some e) ->
    front_step k [] (set_k_front (FEnd (Some e) (livenessEnd (Some e))) (set_k_model m k))
| front_event_handled packet length available r m k :
    k_front k = FEvent packet length -> permit available r (k_model k) = (m, None) ->
    front_step k (front_event packet length (set_k_model m k)).2
      (front_event packet length (set_k_model m k)).1
| front_received packet r k :
    k_front k = FReceive packet ->
    front_step k (front_receive r packet k).2 (front_receive r packet k).1
| front_ticked r k : k_front k = FTick -> front_step k [] (front_tick r k)
| front_pinged sequence r nonce k :
    k_front k = FPing sequence ->
    match nonce with Some n => length n = 16%nat /\ Forall is_byte n | None => True end ->
    front_step k (front_ping r sequence nonce k).2 (front_ping r sequence nonce k).1
| front_enqueue_send e next k :
    k_front k = FEnqueue e next -> (length (k_outbound k) < chan_cap)%nat ->
    front_step k [] (enqueue_send e next k)
| front_enqueue_discard e next k :
    k_front k = FEnqueue e next -> k_stop k = true \/ length (k_outbound k) = chan_cap ->
    front_step k [] (enqueue_discard e next k)
| front_violation v reported k :
    k_front k = FViolation v ->
    front_step k [EvReport v reported] (set_k_front (FEnd (Some (hardViolation v reported))
      (livenessEnd (Some (hardViolation v reported)))) k)
| front_end err out k :
    k_front k = FEnd err out ->
    front_step k [] (set_k_front (FStop out) (upd_model (end_locked err) k))
| front_stop out k :
    k_front k = FStop out ->
    front_step k [] (set_k_front (FReturned out) (set_k_stop true k))
| front_close_permit available r k :
    k_front k = FClosePermit -> front_step k [] (close_permit available r FCloseBuild k)
| front_close_build r nonce k :
    k_front k = FCloseBuild ->
    match nonce with Some n => length n = 8%nat /\ Forall is_byte n | None => True end ->
    front_step k (close_build r nonce k).2 (close_build r nonce k).1
| front_close_loop e available r k :
    k_front k = FCloseLoop e -> front_step k [] (close_permit available r (FCloseCheck e) k)
| front_close_check e k : k_front k = FCloseCheck e -> front_step k [] (close_check e k)
| front_close_wait_stop e k :
    k_front k = FCloseWait e -> k_stop k = true -> front_step k [] (set_k_front FCancelEnd k)
| front_close_wait_tick e k :
    k_front k = FCloseWait e -> front_step k [] (set_k_front (FCloseLoop e) k)
| front_close_violation reported k :
    k_front k = FCloseViolation ->
    front_step k [EvReport SessionWriterFailure reported] (set_k_front
      (FCloseEnd (Some (hardViolation SessionWriterFailure reported))) k)
| front_close_end err k :
    k_front k = FCloseEnd err ->
    front_step k [] (set_k_front FCloseStop (upd_model (end_locked err) k))
| front_close_stop k :
    k_front k = FCloseStop -> front_step k [] (set_k_front FCancelEnd (set_k_stop true k))
| front_cancel_end k :
    k_front k = FCancelEnd ->
    front_step k [] (set_k_front FCancelStop (upd_model (end_locked None) k))
| front_cancel_stop k :
    k_front k = FCancelStop -> front_step k [] (set_k_front FCancelRead (set_k_stop true k))
| front_cancel_read k :
    k_front k = FCancelRead ->
    front_step k [] (set_k_front (FReturned (livenessEnd (m_terminal (k_model k)))) k)
| front_drain_end out k :
    k_front k = FReturned out ->
    front_step k [] (set_k_front FDrainStop (upd_model (end_locked None) k))
| front_drain_stop k :
    k_front k = FDrainStop -> front_step k [] (set_k_front FDrainWriter (set_k_stop true k))
| front_drain_writer k :
    k_front k = FDrainWriter -> k_writer k = WDone ->
    front_step k [] (set_k_front FDrainWatchdog k)
| front_drain_watchdog k :
    k_front k = FDrainWatchdog -> k_watchdog k = DDone ->
    front_step k [] (set_k_front FDrainLock k)
| front_drain_timeout k :
    k_front k = FDrainWriter \/ k_front k = FDrainWatchdog ->
    front_step k [] (set_k_front FDrainViolation k)
| front_drain_violation reported k :
    k_front k = FDrainViolation ->
    front_step k [EvReport SessionDrainFailure reported] (set_k_front
      (FDrainFailEnd (Some (hardViolation SessionDrainFailure reported))) k)
| front_drain_fail_end err k :
    k_front k = FDrainFailEnd err ->
    front_step k [] (set_k_front FDrainFailStop (upd_model (end_locked err) k))
| front_drain_fail_stop k :
    k_front k = FDrainFailStop -> front_step k [] (set_k_front FDrainFailed (set_k_stop true k))
| front_drain_lock k :
    k_front k = FDrainLock -> k_ingress k = None ->
    front_step k [] (set_k_front FDrainInbound (set_k_ingress (Some HeldByDrain) k))
| front_drain_inbound k :
    k_front k = FDrainInbound ->
    front_step k [] (set_k_front FDrainOutbound (set_k_inbound [] k))
| front_drain_outbound k :
    k_front k = FDrainOutbound -> front_step k [] (drain_outbound k)
| front_drain_final k : k_front k = FDrainFinal -> front_step k [] (drain_final k).

(** ** The writer *)

Definition writer_begin (r : reading) (e : nat) (k : controller) : controller * list event :=
  let '(m', result) := beginWrite r e (k_model k) in
  let k := set_k_model m' k in
  match result with
  | Err x =>
      (if bool_decide (x = errLivenessBudget)
       then set_k_writer (WViolation SessionAdmissionBypass) k
       else set_k_writer (WEnd (Some x)) k, [])
  | Ok false => (set_k_writer WSelect (upd_model (clear_packet e) k), [])
  | Ok true => (set_k_writer (WInject e) k, [EvWrite e (clock_instant (m_clock m'))])
  end.

Definition emission_packet (e : nat) (m : livenessModel) : list Z :=
  match m_heap m !! e with Some x => em_packet x | None => [] end.
Definition emission_teardown (e : nat) (m : livenessModel) : bool :=
  match m_heap m !! e with Some x => em_teardown x | None => false end.

Definition writer_end_write (e : nat) (ok : bool) (k : controller) : controller :=
  let teardown := emission_teardown e (k_model k) in
  set_k_writer (if ok && teardown then WCloseCount e else WClear e ok)
    (upd_model (endWrite (ok && negb teardown)) k).

Inductive writer_step : controller -> list event -> controller -> Prop :=
| writer_stopped k :
    k_writer k = WSelect -> k_stop k = true -> writer_step k [] (set_k_writer WDone k)
| writer_take e rest k :
    k_writer k = WSelect -> k_outbound k = e :: rest ->
    writer_step k [] (set_k_writer (WPermit e) (set_k_outbound rest k))
| writer_permitted e available r m k :
    k_writer k = WPermit e -> permit available r (k_model k) = (m, None) ->
    writer_step k [] (set_k_writer (WBegin e) (set_k_model m k))
| writer_refused e available r m x k :
    k_writer k = WPermit e -> permit available r (k_model k) = (m, Some x) ->
    writer_step k [] (set_k_writer (WEnd (Some x)) (set_k_model m k))
| writer_begun e r k :
    k_writer k = WBegin e -> writer_step k (writer_begin r e k).2 (writer_begin r e k).1
| writer_inject e ok k :
    k_writer k = WInject e ->
    writer_step k [EvInject e (emission_packet e (k_model k))]
      (set_k_writer (WEndWrite e ok) k)
| writer_ended e ok k :
    k_writer k = WEndWrite e ok -> writer_step k [] (writer_end_write e ok k)
| writer_close_count e k :
    k_writer k = WCloseCount e ->
    writer_step k [] (set_k_writer (WClear e true)
      (upd_model (bump set_w_CloseInnerInjected w_CloseInnerInjected) k))
| writer_clear e ok k :
    k_writer k = WClear e ok ->
    writer_step k [] (set_k_writer (if ok then WSelect else WFailSelect)
      (upd_model (clear_packet e) k))
| writer_fail_stopped k :
    k_writer k = WFailSelect -> k_stop k = true -> writer_step k [] (set_k_writer WDone k)
| writer_fail k :
    k_writer k = WFailSelect -> k_stop k = false ->
    writer_step k [] (set_k_writer WFailCount k)
| writer_fail_count k :
    k_writer k = WFailCount ->
    writer_step k [] (set_k_writer (WViolation SessionWriterFailure)
      (upd_model (bump set_w_WriterFailures w_WriterFailures) k))
| writer_violation v reported k :
    k_writer k = WViolation v ->
    writer_step k [EvReport v reported] (set_k_writer (WEnd (Some (hardViolation v reported))) k)
| writer_end err k :
    k_writer k = WEnd err ->
    writer_step k [] (set_k_writer WStop (upd_model (end_locked err) k))
| writer_stop k :
    k_writer k = WStop -> writer_step k [] (set_k_writer WDone (set_k_stop true k)).

(** ** The watchdog *)

Definition watchdog_check (k : controller) : controller :=
  let m := k_model k in
  match m_writing m with
  | None => set_k_watchdog DSelect k
  | Some w =>
      let '(m', (stalled, clockErr)) := windowExpiredLocked w m in
      let k := set_k_model m' k in
      match clockErr with
      | Some e => set_k_watchdog (DEnd (Some e)) k
      | None => if stalled then set_k_watchdog DViolation k else set_k_watchdog DSelect k
      end
  end.

Inductive watchdog_step : controller -> list event -> controller -> Prop :=
| watchdog_stopped k :
    k_watchdog k = DSelect -> k_stop k = true -> watchdog_step k [] (set_k_watchdog DDone k)
| watchdog_tick k :
    k_watchdog k = DSelect -> watchdog_step k [] (set_k_watchdog DPermit k)
| watchdog_permitted available r m k :
    k_watchdog k = DPermit -> permit available r (k_model k) = (m, None) ->
    watchdog_step k [] (set_k_watchdog DCheck (set_k_model m k))
| watchdog_refused available r m e k :
    k_watchdog k = DPermit -> permit available r (k_model k) = (m, Some e) ->
    watchdog_step k [] (set_k_watchdog (DEnd (Some e)) (set_k_model m k))
| watchdog_checked k : k_watchdog k = DCheck -> watchdog_step k [] (watchdog_check k)
| watchdog_violation reported k :
    k_watchdog k = DViolation ->
    watchdog_step k [EvReport SessionWriterFailure reported]
      (set_k_watchdog (DEnd (Some (hardViolation SessionWriterFailure reported))) k)
| watchdog_end err k :
    k_watchdog k = DEnd err ->
    watchdog_step k [] (set_k_watchdog DStop (upd_model (end_locked err) k))
| watchdog_stop k :
    k_watchdog k = DStop -> watchdog_step k [] (set_k_watchdog DDone (set_k_stop true k)).

(** ** Callbacks: [Deliver] and the policy of the session gate *)

Inductive callback_step : controller -> list event -> controller -> Prop :=
| deliver_busy k :
    k_ingress k <> None ->
    callback_step k [] (set_k_inboundDrops (incr (k_inboundDrops k)) k)
| deliver_start packet k :
    Forall is_byte packet -> k_ingress k = None ->
    callback_step k [] (set_k_ingress (Some (DeliverCheck packet)) k)
| deliver_stopped packet k :
    k_ingress k = Some (DeliverCheck packet) -> k_stop k = true ->
    callback_step k [] (set_k_ingress None k)
| deliver_checked packet k :
    k_ingress k = Some (DeliverCheck packet) -> k_stop k = false ->
    callback_step k [] (set_k_ingress (Some (DeliverSend packet)) k)
| deliver_send packet k :
    k_ingress k = Some (DeliverSend packet) ->
    callback_step k [] (set_k_ingress None (push_inbound (control_event packet) k))
| gate_permit available r k :
    callback_step k [] (set_k_model (permit available r (k_model k)).1 k)
| gate_violation v reported k :
    callback_step k [EvGateViolation v; EvReport v reported]
      (set_k_external (S (k_external k))
         (upd_model (end_locked (Some (hardViolation v reported))) k))
| gate_stop n k :
    k_external k = S n -> callback_step k [] (set_k_external n (set_k_stop true k)).

Inductive controller_step (k : controller) (tr : list event) (k' : controller) : Prop :=
| step_front : front_step k tr k' -> controller_step k tr k'
| step_writer : writer_step k tr k' -> controller_step k tr k'
| step_watchdog : watchdog_step k tr k' -> controller_step k tr k'
| step_callback : callback_step k tr k' -> controller_step k tr k'.

(** [armLiveness]; [wired] says whether the tunnel registers taps and no argument
    is nil, [armed] and [tapped] say whether the gate and the tunnel
    accepted the policy and the tap. *)
Definition armLiveness (wired available : bool) (r : reading) (armed tapped : bool)
    (m : livenessModel) : res lerr controller :=
  if negb wired then Err errLivenessUnavailable else
  match permit available r m with
  | (_, Some e) => Err e
  | (m, None) =>
      if negb armed then Err errLivenessUnavailable else
      if negb tapped then Err errLivenessUnavailable else
      Ok (mkController m false [] [] 0 None FTop WSelect DSelect 0 0)
  end.

(** Runs of a session: a frozen budget, an armed controller, any transitions. *)
Inductive session_run : list event -> controller -> Prop :=
| run_arm ceiling rounds budget binding r0 absolute m wired available r armed tapped k :
    freezeLivenessBudget ceiling rounds = Ok budget ->
    newLivenessModel binding budget r0 absolute = Ok m ->
    armLiveness wired available r armed tapped m = Ok k ->
    session_run [] k
| run_step tr k ev k' :
    session_run tr k -> controller_step k ev k' -> session_run (tr ++ ev) k'.
End controller.
