(* ===== verification/LivenessChanges.v ===== *)
(** * Elementary changes of the liveness model

    Every transition of the controller changes its model by a sequence of the
    elementary [change]s below, and records the same events
    ([controller_changes]).  Facts about the model and the trace are proved
    once per change. *)
From S2P Require Import Prelude GoStd LivenessWire LivenessWireThms Liveness LivenessInv LivenessController.

(** The counters the invariants speak of. *)
Definition key_counters (w : LivenessWitness) : Z * Z * Z * Z :=
  (w_PingAdmitted w, w_PongAdmitted w, w_PongValidated w, w_AdmissionBypass w).

(** The slot that follows the current one. *)
Definition next_slot (m : livenessModel) : Z :=
  (Z.quot (m_elapsed m) livenessInterval + 1) * livenessInterval.

Definition count_admit (kind : Z) : livenessModel -> livenessModel :=
  if kind =? livenessPing then bump set_w_PingAdmitted w_PingAdmitted
  else bump set_w_PongAdmitted w_PongAdmitted.

#[local] Opaque parseLivenessPacket buildLivenessPacket parseEchoPacket buildEchoPacket.

Lemma incr_neq x : x <> incr x.
Proof.
  unfold incr, u64_add, wrap. intros E.
  pose proof (Z.div_mod (x + 1) (2 ^ 64)). lia.
Qed.

Section changes.
Context {H : Sha256}.

(** What the session may put on the wire: a liveness message or its CLOSE. *)
Definition wire_packet (b : echoBinding) (packet : list Z) : Prop :=
  (exists message, message_wf message /\ sendable b message = true /\
     buildLivenessPacket b message = Ok packet) \/
  (exists nonce, bytes_of 8 nonce /\ buildEchoPacket b echoClose nonce = Ok packet).

(** A packet the protocol refuses: it does not parse, or its ping is out of
    range. *)
Definition bad_packet (packet : list Z) (m : livenessModel) : Prop :=
  match parseLivenessPacket packet (m_binding m) with
  | Ok message => lm_kind message <> livenessPong /\ bu_pongs (m_budget m) < lm_sequence message
  | Err _ => True
  end.

(** The errors a goroutine may end the session with. *)
Variable allowed : lerr -> Prop.

Inductive change : livenessModel -> list event -> livenessModel -> Prop :=
| ch_quiet m m' : quiet m m' -> change m [] m'
| ch_protocol packet m :
    bad_packet packet m -> change m [EvBadPacket packet] (set_terminal errLivenessProtocol m)
| ch_clock m : change m [] (set_terminal errLivenessClock m)
| ch_end err m :
    match err with Some e => allowed e | None => True end -> change m [] (end_locked err m)
| ch_gate v reported m :
    change m [EvGateViolation v; EvReport v reported] (end_locked (Some (hardViolation v reported)) m)
| ch_note ev m :
    ev = EvRandomFailed \/ (exists n, ev = EvBadLength n /\ n <> livenessPacketSize) \/
    (exists v reported, ev = EvReport v reported) ->
    change m [ev] m
| ch_count f m :
    key_counters (f (m_witness m)) = key_counters (m_witness m) -> change m [] (upd_witness f m)
| ch_slot m :
    fresh m -> m_nextSlot m <= m_elapsed m -> change m [] (set_m_nextSlot (next_slot m) m)
| ch_sequence m :
    fresh m -> m_nextSlot m <= m_elapsed m ->
    change m [] (set_m_sequence (incr (m_sequence m)) (set_m_nextSlot (next_slot m) m))
| ch_trim m : change m [] (set_m_window (kept_window m) m)
| ch_admit kind m :
    kind = livenessPing \/ kind = livenessPong -> m_window m = kept_window m ->
    admit_full kind m = false ->
    change m [EvAdmit kind (mono_now m)]
      (count_admit kind (set_m_window (m_window m ++ [mono_now m]) m))
| ch_place i packet teardown m :
    fresh m -> free_slot (m_intents m) = Some i -> wire_packet (m_binding m) packet ->
    change m [EvPlace (m_next m) packet (current_window m)]
      (place_emission i (mkEmission packet (current_window m) teardown) m).1
| ch_pending message m :
    change m [EvPing message (clock_instant (m_clock m))]
      (set_m_pending (Some (mkPending message (clock_instant (m_clock m)))) m)
| ch_pong packet message p m :
    parseLivenessPacket packet (m_binding m) = Ok message -> lm_kind message = livenessPong ->
    m_pending m = Some p -> lm_sequence message = lm_sequence (pe_message p) ->
    lm_nonce message = lm_nonce (pe_message p) ->
    change m [EvPong packet message]
      (bump set_w_PongValidated w_PongValidated
         (set_m_pending None (set_m_proofSent (pe_sent p) m)))
| ch_peerHigh h m : change m [] (set_m_peerHigh h m)
| ch_free e i m :
    slot_of e (m_intents m) = Some i -> change m [] (set_m_intents (<[i := None]> (m_intents m)) m)
| ch_write e m :
    fresh m -> m_writing m = None -> is_Some (m_heap m !! e) ->
    mono_now m - li_mono (ew_sent (emission_window e m)) < livenessWriteWindow ->
    mono_now m - li_mono (ew_proofSent (emission_window e m)) < bu_lease (m_budget m) ->
    change m [EvWrite e (clock_instant (m_clock m))]
      (set_m_writing (Some (emission_window e m)) m)
| ch_inject e m : change m [EvInject e (emission_packet e m)] m
| ch_endwrite m : change m [] (set_m_writing None m)
| ch_clear e m : change m [] (clear_packet e m)
| ch_empty m : change m [] (set_m_pending None (set_m_intents [None; None; None] m)).

Inductive changes : livenessModel -> list event -> livenessModel -> Prop :=
| chs_nil m : changes m [] m
| chs_cons m ev m1 evs m2 :
    change m ev m1 -> changes m1 evs m2 -> changes m (ev ++ evs) m2.

Lemma changes_one m ev m' : change m ev m' -> changes m ev m'.
Proof. intros C. rewrite <-(app_nil_r ev). by eapply chs_cons, chs_nil. Qed.

Lemma changes_app m ev1 m1 ev2 m2 :
  changes m ev1 m1 -> changes m1 ev2 m2 -> changes m (ev1 ++ ev2) m2.
Proof.
  induction 1 as [|m ev m1' evs m1 C _ IH]; [done|]. intros C2. rewrite <-app_assoc.
  eapply chs_cons; [exact C|]. by apply IH.
Qed.

Lemma changes_quiet m m' : quiet m m' -> changes m [] m'.
Proof. intros Q. by apply changes_one, ch_quiet. Qed.

(** A silent change in front of recorded ones. *)
Lemma changes_then m m1 ev m2 : change m [] m1 -> changes m1 ev m2 -> changes m ev m2.
Proof. intros C1 C2. change ev with ([] ++ ev). by eapply chs_cons. Qed.

Lemma changes_after m ev m1 m2 : changes m ev m1 -> change m1 [] m2 -> changes m ev m2.
Proof.
  intros C1 C2. rewrite <-(app_nil_r ev). eapply changes_app; [exact C1|]. by apply changes_one.
Qed.

(** ** The invariant of the model *)

Lemma freezeLivenessBudget_spec ceiling rounds b :
  freezeLivenessBudget ceiling rounds = Ok b ->
  bu_ceiling b = ceiling /\ 1 <= bu_pings b <= 4320 /\
  ceiling <= bu_pings b * livenessInterval < ceiling + livenessInterval /\
  bu_pongs b = bu_pings b + 1 /\ bu_total b = 2 * bu_pings b + 1 /\
  bu_lease b = rounds * livenessInterval + livenessResponseWindow /\ 2 <= rounds <= 3.
Proof.
  unfold freezeLivenessBudget. destruct (_ || _) eqn:Hg; [done|]. intros [= <-].
  rewrite !orb_false_iff, !Z.ltb_ge, andb_false_iff, !negb_false_iff, !Z.eqb_eq in Hg.
  simpl. assert (Hc : 5 * Second <= ceiling <= 24 * Hour) by lia.
  pose proof (Z.quot_rem' ceiling livenessInterval) as Hd.
  pose proof (Z.rem_bound_pos ceiling livenessInterval) as Hr.
  unfold livenessInterval, livenessResponseWindow, Hour, Minute, Second, Millisecond in *.
  destruct (Z.eqb_spec (Z.rem ceiling (20 * (1000 * 1000000))) 0); simpl; split_and!; lia.
Qed.

Record model_inv (m : livenessModel) : Prop := {
  mi_mono : 0 <= cg_mono0 (m_clock m) <= cg_lastMono (m_clock m);
  mi_budget : exists ceiling rounds, freezeLivenessBudget ceiling rounds = Ok (m_budget m);
  mi_absUntil : 0 < m_absUntil m <= bu_ceiling (m_budget m);
  mi_elapsed : 0 <= m_elapsed m;
  mi_slot : exists k, m_nextSlot m = (k + 1) * livenessInterval /\ 0 <= m_sequence m <= k /\
    k * livenessInterval < m_absUntil m;
  mi_pings : 0 <= w_PingAdmitted (m_witness m) <= bu_pings (m_budget m);
  mi_pongs : 0 <= w_PongAdmitted (m_witness m) <= bu_pongs (m_budget m);
  mi_window : (length (m_window m) <= 4)%nat;
  mi_times : Forall (fun t => 0 <= t <= mono_now m) (m_window m);
  mi_binding : validEchoBinding (m_binding m) = true;
  mi_intents : length (m_intents m) = 3%nat;
}.

Lemma model_inv_budget m :
  model_inv m -> 1 <= bu_pings (m_budget m) <= 4320 /\
  bu_ceiling (m_budget m) <= bu_pings (m_budget m) * livenessInterval /\
  bu_pongs (m_budget m) = bu_pings (m_budget m) + 1 /\
  bu_total (m_budget m) = 2 * bu_pings (m_budget m) + 1 /\ 0 < bu_lease (m_budget m).
Proof.
  intros I. destruct (mi_budget m I) as (c & r & E).
  pose proof (freezeLivenessBudget_spec _ _ _ E). unfold livenessInterval,
    livenessResponseWindow, Second, Millisecond in *. lia.
Qed.

Lemma mono_now_range m : model_inv m -> 0 <= mono_now m.
Proof. intros I. pose proof (mi_mono m I). unfold mono_now. simpl. lia. Qed.

Lemma quiet_inv m m' : quiet m m' -> model_inv m -> model_inv m'.
Proof.
  intros Q I. destruct (q_clock _ _ Q) as [Qc1 Qc2]. pose proof (mi_mono m I) as Hm.
  split; rewrite ?(q_budget _ _ Q), ?(q_absUntil _ _ Q), ?(q_nextSlot _ _ Q), ?(q_sequence _ _ Q),
    ?(q_pings _ _ Q), ?(q_pongs _ _ Q), ?(q_window _ _ Q), ?(q_binding _ _ Q), ?(q_intents _ _ Q);
    try apply I; try lia.
  - apply (q_elapsed _ _ Q); [apply I | lia].
  - eapply Forall_impl; [apply I|]. intros t. unfold mono_now. simpl. lia.
Qed.

(** The guard of the sequence number never fires: one ping per slot. *)
Lemma slot_sequence m :
  model_inv m -> fresh m -> m_nextSlot m <= m_elapsed m ->
  exists k, next_slot m = (k + 1) * livenessInterval /\ m_sequence m + 1 <= k /\
    k * livenessInterval < m_absUntil m /\ k < bu_pings (m_budget m).
Proof.
  intros I F Hs. destruct (mi_slot m I) as (k & Hk & Hseq & _). pose proof (fr_elapsed _ F) as He.
  pose proof (mi_elapsed m I). pose proof (mi_absUntil m I). destruct (model_inv_budget m I)
    as (_ & Hb & _). exists (Z.quot (m_elapsed m) livenessInterval). split; [done|].
  pose proof (Z.quot_rem' (m_elapsed m) livenessInterval) as Hd.
  pose proof (Z.rem_bound_pos (m_elapsed m) livenessInterval) as Hr.
  assert (0 < livenessInterval) by done. split_and!; nia.
Qed.

Lemma kept_window_sub m t : t ∈ kept_window m -> t ∈ m_window m.
Proof. unfold kept_window. rewrite !list_elem_of_In, filter_In. naive_solver. Qed.

Lemma incr_small x : 0 <= x < u64_max -> incr x = x + 1.
Proof. intros Hx. apply u64_add_small. lia. Qed.

Lemma change_inv m ev m' : change m ev m' -> model_inv m -> model_inv m'.
Proof.
  intros C I. pose proof (model_inv_budget m I) as (Hb1 & Hb2 & Hb3 & Hb4 & _).
  pose proof (mono_now_range m I) as Hn.
  destruct C as [m m' Q| | | | | |f m Hf|m F Hs|m F Hs| |kind m Hk Hw Hfull| | | | |e i m| | | | |];
    try (by eapply quiet_inv); try done;
    try (destruct I; split; simpl; done).
  - destruct I. unfold end_locked. destruct (m_terminal m), err; split; done.
  - destruct I. unfold end_locked. destruct (m_terminal m); split; done.
  - unfold key_counters in Hf. simplify_eq. destruct I. split; simpl; try done; congruence.
  - destruct (slot_sequence m I F Hs) as (k & E1 & E2 & E3 & E4). pose proof (mi_slot m I).
    destruct I. split; simpl; try done. exists k. split_and!; try done; [naive_solver | lia].
  - destruct (slot_sequence m I F Hs) as (k & E1 & E2 & E3 & E4).
    destruct (mi_slot m I) as (k0 & _ & Hseq & _).
    destruct I. split; simpl; try done. exists k. rewrite incr_small by (unfold u64_max; lia).
    split_and!; try done; lia.
  - destruct I. split; simpl; try done.
    + etrans; [|exact mi_window0]. apply filter_length_le.
    + apply Forall_forall. intros t Ht%kept_window_sub. rewrite Forall_forall in mi_times0.
      by apply mi_times0.
  - unfold admit_full in Hfull. rewrite !orb_false_iff, !andb_false_iff, Z.eqb_neq in Hfull.
    destruct Hfull as [[[Hl _] Hp] Hq].
    assert (Hlen : (length (m_window m ++ [mono_now m]) <= 4)%nat).
    { rewrite length_app. simpl. pose proof (mi_window m I). lia. }
    assert (Ht : Forall (fun t => 0 <= t <= mono_now m) (m_window m ++ [mono_now m])).
    { apply Forall_app. split; [apply I|]. repeat constructor; lia. }
    pose proof (mi_pings m I). pose proof (mi_pongs m I). unfold count_admit.
    destruct I, Hk as [-> | ->]; split; simpl in *; try done;
      rewrite incr_small by (unfold u64_max; lia); lia.
  - destruct I. split; simpl; try done. by rewrite length_insert.
  - destruct I. split; simpl; try done. by rewrite length_insert.
Qed.

Lemma changes_inv m ev m' : changes m ev m' -> model_inv m -> model_inv m'.
Proof. induction 1; [done|]. intros. by eauto using change_inv. Qed.

(** ** The operations of the model *)

Lemma filter_idem {A} (f : A -> bool) l : List.filter f (List.filter f l) = List.filter f l.
Proof.
  induction l as [|x l IH]; [done|]. simpl. destruct (f x) eqn:E; simpl; rewrite ?E; congruence.
Qed.

Lemma admitLocked_changes kind m m' ok :
  kind = livenessPing \/ kind = livenessPong -> admitLocked kind m = (m', ok) ->
  0 <= w_PingAdmitted (m_witness m) < u64_max -> 0 <= w_PongAdmitted (m_witness m) < u64_max ->
  changes m (admitted m m') m' /\ (ok = false -> admitted m m' = []).
Proof.
  intros Hk. unfold admitLocked. set (m1 := set_m_window (kept_window m) m).
  assert (Hkept : m_window m1 = kept_window m1).
  { symmetry. apply filter_idem. }
  cbv zeta. intros E Hp Hq.
  destruct (admit_full kind m1) eqn:Hfull; injection E as <- <-.
  - assert (Ea : admitted m (if kind =? livenessPing
      then bump set_w_PingAdmissionRejected w_PingAdmissionRejected
        (bump set_w_LivenessAdmissionRejected w_LivenessAdmissionRejected m1)
      else bump set_w_PongAdmissionRejected w_PongAdmissionRejected
        (bump set_w_LivenessAdmissionRejected w_LivenessAdmissionRejected m1)) = []).
    { unfold admitted. destruct (kind =? livenessPing); simpl; by rewrite !bool_decide_eq_true_2. }
    rewrite Ea. split; [|done]. apply (changes_then _ m1); [apply ch_trim|].
    apply (changes_then _ (bump set_w_LivenessAdmissionRejected w_LivenessAdmissionRejected m1));
      [by apply ch_count|].
    destruct (kind =? livenessPing); by apply changes_one, ch_count.
  - assert (Ei : forall x, 0 <= x < u64_max -> incr x = x + 1).
    { intros x Hx. apply u64_add_small. lia. }
    split; [|done]. apply (changes_then _ m1); [apply ch_trim|]. apply changes_one.
    pose proof (ch_admit kind m1 Hk Hkept Hfull) as C. unfold count_admit in C.
    destruct Hk as [-> | ->]; simpl in *; unfold admitted; simpl.
    + rewrite bool_decide_eq_false_2 by (rewrite Ei by done; lia).
      by rewrite bool_decide_eq_true_2.
    + rewrite bool_decide_eq_true_2 by done.
      by rewrite bool_decide_eq_false_2 by (rewrite Ei by done; lia).
Qed.

(** The error an operation returned is the terminal error of the model, or the
    model was closed. *)
Definition stops (m : livenessModel) (e : lerr) : Prop :=
  m_terminal m = Some e \/ e = ContextCanceled.

Lemma eventAge_stops s m e : (eventAgeLocked s m).2 = Err e -> stops (eventAgeLocked s m).1 e.
Proof. unfold eventAgeLocked. case_match; [done|]. intros [= ->]. by left. Qed.

Lemma checkLocked_stops r m e : (checkLocked r m).2 = Some e -> stops (checkLocked r m).1 e.
Proof.
  unfold checkLocked, check_ages, check_pending.
  destruct (m_terminal m) as [t|] eqn:Ht; [intros [= ->]; by left|].
  destruct (m_closed m); [intros [= <-]; by right|].
  destruct (clock_read (m_clock m) r) as [c [now|x]]; [|intros [= ->]; by left].
  cbv zeta. destruct (_ <=? now); [intros [= <-]; by left|].
  set (m1 := upd_witness _ _). pose proof (eventAge_stops (m_proofSent m1) m1) as S1.
  destruct (eventAgeLocked (m_proofSent m1) m1) as [m2 [a|x]];
    [|intros [= ->]; by apply S1].
  destruct (_ <=? a); [intros [= <-]; by left|].
  destruct (m_pending m2) as [p|]; [|done]. pose proof (eventAge_stops (pe_sent p) m2) as S2.
  destruct (eventAgeLocked (pe_sent p) m2) as [m3 [b|x]]; [|intros [= ->]; by apply S2].
  by destruct (_ <=? b).
Qed.

Lemma permit_quiet available r m : quiet m (permit available r m).1.
Proof.
  unfold permit, model_permit. destruct available; [apply checkLocked_quiet|]. simpl.
  destruct (m_terminal m) eqn:E; [done|]. by apply quiet_terminal.
Qed.

Lemma permit_stops available r m e :
  (permit available r m).2 = Some e -> stops (permit available r m).1 e \/ passive e = true.
Proof.
  unfold permit, model_permit. destruct available.
  - intros E. left. by apply checkLocked_stops.
  - intros [= <-]. by right.
Qed.

(** [check_then] opens an operation that starts with a check: [m1] is the model
    after the check, either with its error or fresh. *)
Lemma check_then r m :
  exists m1 o, checkLocked r m = (m1, o) /\ quiet m m1 /\
    match o with Some e => stops m1 e | None => fresh m1 end.
Proof.
  destruct (checkLocked_quiet r m) as [Q F]. pose proof (checkLocked_stops r m) as S.
  exists (checkLocked r m).1, (checkLocked r m).2.
  split; [by destruct (checkLocked r m)|]. split; [done|].
  destruct (checkLocked r m) as [m1 [e|]]; simpl in *; auto.
Qed.

Lemma preparePing_changes r m m' o :
  model_inv m -> preparePing r m = (m', o) ->
  changes m [] m' /\ match o with
    | Err e => stops m' e
    | Ok s => s <> 0 -> s = m_sequence m' /\ m_pending m' = None end.
Proof.
  intros I. unfold preparePing. destruct (check_then r m) as (m1 & [e|] & -> & Q & F).
  { intros [= <- <-]. split; [by apply changes_quiet | done]. }
  pose proof (quiet_inv _ _ Q I) as I1. apply ch_quiet in Q.
  destruct (Z.ltb_spec (m_elapsed m1) (m_nextSlot m1)) as [|Hs].
  { intros [= <- <-]. split; [by apply changes_one | done]. }
  destruct (slot_sequence m1 I1 F Hs) as (k & Ek & Hk1 & Hk2 & Hk3).
  destruct (model_inv_budget m1 I1) as (Hb & _).
  cbv zeta. fold (next_slot m1). set (m2 := set_m_nextSlot (next_slot m1) m1).
  assert (Ht2 : m_terminal m2 = None) by apply F.
  destruct (eventAgeLocked_quiet (m_proofSent m2) m2 Ht2) as [Q2 C2].
  pose proof (eventAge_stops (m_proofSent m2) m2) as S2.
  destruct (eventAgeLocked (m_proofSent m2) m2) as [m3 [a|x]]; simpl in Q2, C2, S2.
  2: { intros [= <- <-]. split; [|by apply S2]. eapply changes_then; [done|].
       eapply changes_then; [by apply ch_slot|]. by apply changes_quiet. }
  destruct C2 as [[-> C2]|]; [|done]. destruct (_ || _) eqn:Hp.
  { intros [= <- <-]. split; [|done]. eapply changes_then; [done|].
    by apply changes_one, ch_slot. }
  apply orb_false_iff in Hp as [Hp _]. apply bool_decide_eq_false in Hp.
  destruct (_ || _) eqn:Hx.
  { exfalso. apply orb_true_iff in Hx as [Hx%Z.eqb_eq|Hx%Z.leb_le]; simpl in Hx;
      unfold u64_max in *; lia. }
  intros [= <- <-]. split.
  - eapply changes_then; [done|]. by apply changes_one, ch_sequence.
  - intros _. split; [done|]. by apply eq_None_not_Some in Hp.
Qed.

Lemma admitted_ext m m1 m2 :
  m_clock m2 = m_clock m1 -> w_PingAdmitted (m_witness m2) = w_PingAdmitted (m_witness m1) ->
  w_PongAdmitted (m_witness m2) = w_PongAdmitted (m_witness m1) -> admitted m m2 = admitted m m1.
Proof. unfold admitted. by intros -> -> ->. Qed.

Lemma admitted_quiet m m1 m2 : quiet m m1 -> admitted m m2 = admitted m1 m2.
Proof. intros Q. unfold admitted. by rewrite (q_pings _ _ Q), (q_pongs _ _ Q). Qed.

Lemma admitLocked_frame kind m m' ok :
  admitLocked kind m = (m', ok) ->
  m_clock m' = m_clock m /\ m_intents m' = m_intents m /\ m_heap m' = m_heap m /\
  m_next m' = m_next m /\ m_writing m' = m_writing m /\ m_binding m' = m_binding m /\
  m_terminal m' = m_terminal m /\ m_closed m' = m_closed m /\ m_pending m' = m_pending m /\
  m_proofSent m' = m_proofSent m /\ m_sequence m' = m_sequence m /\
  (fresh m -> fresh m') /\ m_budget m' = m_budget m /\
  w_PongValidated (m_witness m') = w_PongValidated (m_witness m) /\
  w_AdmissionBypass (m_witness m') = w_AdmissionBypass (m_witness m).
Proof.
  unfold admitLocked. cbv zeta. destruct (admit_full _ _), (kind =? livenessPing);
    intros [= <- <-]; simpl; split_and!; try done; intros []; split; done.
Qed.

Lemma intentLocked_changes message m m' o :
  sendable (m_binding m) message = true -> message_wf message -> fresh m ->
  intentLocked message m = (m', o) ->
  exists e, o = Ok e /\ changes m (placed m' e) m' /\ m_clock m' = m_clock m /\
    key_counters (m_witness m') = key_counters (m_witness m) /\ m_pending m' = m_pending m /\
    m_binding m' = m_binding m /\ m_sequence m' = m_sequence m.
Proof.
  intros Hs Hw F. unfold intentLocked. destruct (build_total _ _ Hs) as [packet Hb]. rewrite Hb.
  destruct (free_slot (m_intents m)) as [i|] eqn:Hi.
  - set (x := mkEmission packet (current_window m) false).
    destruct (place_emission i x m) as [m1 id] eqn:Hp. intros [= <- <-].
    exists (Some id). unfold place_emission in Hp. injection Hp as <- <-. split; [done|].
    split; [|done]. simpl. rewrite lookup_insert_eq. simpl.
    apply changes_one. apply (ch_place i packet false m F Hi). left. eauto.
  - intros [= <- <-]. exists None. split_and!; try done. simpl. by apply changes_one, ch_count.
Qed.

Lemma ping_changes r sequence nonce m m' o :
  model_inv m -> bytes_of 16 nonce -> 0 <= sequence < 2 ^ 64 -> ping r sequence nonce m = (m', o) ->
  match o with
  | Err e => changes m [] m' /\
      (stops m' e \/ (e = errLivenessBudget /\
        ~ (sequence = m_sequence m /\ sequence <> 0 /\ m_pending m = None)))
  | Ok e => changes m (admitted m m' ++ placed m' e
      ++ (if e then [EvPing (mkMessage livenessPing sequence nonce)
                       (clock_instant (m_clock m'))] else [])) m'
  end.
Proof.
  intros I Hn Hq. unfold ping. destruct (check_then r m) as (m1 & [e|] & -> & Q & F).
  { intros [= <- <-]. split; [by apply changes_quiet | by left]. }
  pose proof (quiet_inv _ _ Q I) as I1.
  destruct (_ || _) eqn:Hg.
  { intros [= <- <-]. split; [by apply changes_quiet|]. right. split; [done|].
    intros (H1 & H2 & H3). rewrite (q_sequence _ _ Q), <-H1, Z.eqb_refl in Hg.
    rewrite (proj2 (Z.eqb_neq _ _) H2) in Hg. apply bool_decide_eq_true in Hg as [p Hg].
    destruct (q_pending _ _ Q); congruence. }
  rewrite !orb_false_iff, negb_false_iff, Z.eqb_neq in Hg. destruct Hg as [[_ Hz] _].
  destruct (model_inv_budget m1 I1) as (Hb & _ & Hb' & _).
  destruct (admitLocked livenessPing m1) as [m2 ok] eqn:Ha.
  destruct (admitLocked_changes livenessPing m1 m2 ok) as [C2 C2']; [by left | done | | |].
  1,2: pose proof (mi_pings _ I1); pose proof (mi_pongs _ I1); unfold u64_max; lia.
  destruct (admitLocked_frame _ _ _ _ Ha) as
    (A1 & A2 & A3 & A4 & A5 & A6 & A7 & A8 & A9 & A10 & A11 & A12 & A13 & A14 & A15).
  rewrite <-(admitted_quiet _ _ _ Q) in C2, C2'. destruct ok.
  2: { intros [= <- <-]. simpl. rewrite app_nil_r. eapply changes_then; [by apply ch_quiet | done]. }
  set (msg := mkMessage livenessPing sequence nonce).
  assert (Hw : message_wf msg) by (split; [unfold is_byte; simpl; unfold livenessPing; lia | done..]).
  assert (Hs : sendable (m_binding m2) msg = true).
  { unfold sendable. rewrite A6, (mi_binding _ I1). simpl.
    by rewrite (proj2 (Z.eqb_neq _ _) Hz). }
  destruct (intentLocked msg m2) as [m3 o3] eqn:Hi.
  destruct (intentLocked_changes msg m2 m3 o3 Hs Hw ltac:(auto) Hi)
    as (e & -> & C3 & E1 & E2 & E3 & _).
  unfold key_counters in E2. simplify_eq. destruct e as [id|]; intros [= <- <-].
  - rewrite (admitted_ext m m2) by done.
    eapply changes_then; [by apply ch_quiet|]. apply (changes_app _ _ m2); [exact C2|].
    apply (changes_app _ (placed m3 (Some id)) m3); [exact C3|].
    exact (changes_one _ _ _ (ch_pending msg m3)).
  - rewrite (admitted_ext m m2) by done. eapply changes_then; [by apply ch_quiet|].
    by apply (changes_app _ (admitted m m2) m2 []).
Qed.

Lemma answered_none m m' packet :
  w_PongValidated (m_witness m') = w_PongValidated (m_witness m) -> answered m m' packet = [].
Proof.
  intros E. unfold answered. case_match; [|done]. by rewrite E, bool_decide_eq_true_2.
Qed.

(** The error branches of [receive]. *)
Lemma receive_bad packet m m1 :
  quiet m m1 -> fresh m1 -> bad_packet packet m1 ->
  changes m (if bool_decide (m_terminal m = None)
               && bool_decide (errLivenessProtocol = errLivenessProtocol)
             then [EvBadPacket packet] else []) (set_terminal errLivenessProtocol m1) /\
  stops (set_terminal errLivenessProtocol m1) errLivenessProtocol.
Proof.
  intros Q F Hb. split; [|by left]. rewrite bool_decide_eq_true_2.
  - rewrite bool_decide_eq_true_2 by done.
    eapply changes_then; [by apply ch_quiet|]. by apply changes_one, ch_protocol.
  - destruct (q_terminal _ _ Q) as [E|(? & ? & ? & _)]; [|done].
    rewrite <-E. apply F.
Qed.

Lemma receive_changes r packet m m' o :
  model_inv m -> Forall is_byte packet -> receive r packet m = (m', o) ->
  match o with
  | Err e => changes m (if bool_decide (m_terminal m = None)
                          && bool_decide (e = errLivenessProtocol)
                        then [EvBadPacket packet] else []) m' /\ stops m' e
  | Ok e => changes m (answered m m' packet ++ admitted m m' ++ placed m' e) m'
  end.
Proof.
  intros I Hpk. unfold receive. destruct (check_then r m) as (m1 & [e|] & -> & Q & F).
  { intros [= <- <-]. split; [|done].
    destruct (bool_decide_reflect (m_terminal m = None)) as [Ht|]; simpl;
      [|by apply changes_quiet].
    destruct (bool_decide_reflect (e = errLivenessProtocol)) as [->|];
      [exfalso | by apply changes_quiet].
    destruct F as [F|]; [|done]. destruct (q_terminal _ _ Q) as [E|(x & _ & E & Hx)];
      [congruence|]. rewrite F in E. injection E as <-. done. }
  pose proof (quiet_inv _ _ Q I) as I1.
  destruct (parseLivenessPacket packet (m_binding m1)) as [message|e] eqn:Hparse.
  2: { intros [= <- <-]. pose proof (parse_err _ _ _ Hparse) as ->.
       apply receive_bad; try done. unfold bad_packet. by rewrite Hparse. }
  pose proof Hparse as A. apply parse_spec in A.
  assert (Hparse' : parseLivenessPacket packet (m_binding m) = Ok message).
  { by rewrite <-(q_binding _ _ Q). }
  destruct (Z.eqb_spec (lm_kind message) livenessPong) as [Hk|Hk].
  { intros [= <- <-]. unfold receive_pong.
    assert (Hdrop : changes m (answered m (bump set_w_PongDropped w_PongDropped m1) packet ++
      admitted m (bump set_w_PongDropped w_PongDropped m1) ++
      placed (bump set_w_PongDropped w_PongDropped m1) None)
      (bump set_w_PongDropped w_PongDropped m1)).
    { rewrite answered_none by apply Q. unfold admitted. simpl.
      rewrite (q_pings _ _ Q), (q_pongs _ _ Q), !bool_decide_eq_true_2 by done. simpl.
      eapply changes_then; [by apply ch_quiet|]. by apply changes_one, ch_count. }
    destruct (m_pending m1) as [p|] eqn:Hp; [|done].
    destruct (_ || _) eqn:Hg; [done|]. clear Hdrop.
    apply orb_false_iff in Hg as [Hg1%negb_false_iff Hg2%negb_false_iff].
    apply Z.eqb_eq in Hg1. apply bytes_eqb_eq in Hg2.
    pose proof (ch_pong packet message p m1 Hparse Hk Hp Hg1 Hg2) as C.
    set (m2 := bump set_w_PongValidated w_PongValidated _) in *.
    assert (admitted m m2 = []) as ->.
    { unfold admitted, m2. simpl.
      by rewrite (q_pings _ _ Q), (q_pongs _ _ Q), !bool_decide_eq_true_2 by done. }
    unfold answered. rewrite Hparse'. case_bool_decide as Hv.
    - destruct (incr_neq (w_PongValidated (m_witness m))).
      unfold m2 in Hv. simpl in Hv. by rewrite (q_validated _ _ Q) in Hv.
    - eapply changes_then; [by apply ch_quiet|]. by apply changes_one. }
  destruct (ac_kind _ _ _ A) as [Hk'|]; [|done].
  unfold receive_ping. destruct (Z.ltb_spec (bu_pongs (m_budget m1)) (lm_sequence message)).
  { intros [= <- <-]. apply receive_bad; try done. unfold bad_packet. by rewrite Hparse. }
  apply ch_quiet in Q as C1.
  destruct (_ <=? _).
  { intros [= <- <-]. rewrite answered_none by apply Q. unfold admitted. simpl.
    rewrite (q_pings _ _ Q), (q_pongs _ _ Q), !bool_decide_eq_true_2 by done. simpl.
    eapply changes_then; [done|]. by apply changes_one, ch_count. }
  cbv zeta. set (m2 := set_m_peerHigh (lm_sequence message) m1).
  pose proof (ch_peerHigh (lm_sequence message) m1) as C2.
  pose proof (change_inv _ _ _ C2 I1) as I2. fold m2 in C2, I2.
  assert (F2 : fresh m2) by (destruct F; by split).
  destruct (model_inv_budget m2 I2) as (Hb & _ & Hb' & _).
  destruct (admitLocked livenessPong m2) as [m3 ok] eqn:Ha.
  destruct (admitLocked_changes livenessPong m2 m3 ok) as [C3 C3']; [by right | done | | |].
  1,2: pose proof (mi_pings _ I2); pose proof (mi_pongs _ I2); unfold u64_max; lia.
  destruct (admitLocked_frame _ _ _ _ Ha) as
    (A1 & A2 & A3 & A4 & A5 & A6 & A7 & A8 & A9 & A10 & A11 & A12 & A13 & A14 & A15).
  change (admitted m2 m3) with (admitted m1 m3) in C3, C3'.
  rewrite <-(admitted_quiet _ _ _ Q) in C3, C3'.
  assert (Hv : w_PongValidated (m_witness m3) = w_PongValidated (m_witness m)).
  { rewrite A14. apply Q. }
  destruct ok.
  2: { intros [= <- <-]. rewrite answered_none by done. simpl. rewrite app_nil_r.
       eapply changes_then; [done|]. eapply changes_then; [exact C2 | done]. }
  set (msg := mkMessage livenessPong (lm_sequence message) (lm_nonce message)).
  pose proof (accepted_wf _ _ _ Hpk A) as W.
  assert (Hw : message_wf msg).
  { destruct W. split; done. }
  assert (Hs : sendable (m_binding m3) msg = true).
  { unfold sendable. rewrite A6. change (m_binding m2) with (m_binding m1).
    rewrite (mi_binding _ I1). simpl. by rewrite (proj2 (Z.eqb_neq _ _) (ac_nonzero _ _ _ A)). }
  intros Hi. destruct (intentLocked_changes msg m3 m' o Hs Hw (A12 F2) Hi)
    as (e & -> & C4 & E1 & E2 & _).
  unfold key_counters in E2. simplify_eq.
  rewrite answered_none by congruence. rewrite (admitted_ext m m3) by done.
  eapply changes_then; [done|]. eapply changes_then; [exact C2|].
  by apply (changes_app _ (admitted m m3) m3).
Qed.

Lemma fresh_intents l m : fresh m -> fresh (set_m_intents l m).
Proof. intros []; by split. Qed.

(** [beginWrite] of an emission that is registered, with no write in progress. *)
Lemma beginWrite_changes r e m m' o :
  slot_of e (m_intents m) <> None -> m_writing m = None -> is_Some (m_heap m !! e) ->
  beginWrite r e m = (m', o) ->
  match o with
  | Err x => changes m [] m' /\ stops m' x
  | Ok true => changes m [EvWrite e (clock_instant (m_clock m'))] m' /\
      m_writing m' = Some (emission_window e m)
  | Ok false => changes m [] m' /\ m_writing m' = None
  end.
Proof.
  intros Hs Hw Hh. unfold beginWrite. destruct (check_then r m) as (m1 & [x|] & -> & Q & F).
  { intros [= <- <-]. split; [by apply changes_quiet | done]. }
  rewrite (q_intents _ _ Q), (q_writing _ _ Q), Hw.
  destruct (slot_of e (m_intents m)) as [i|] eqn:Hi; [|done].
  rewrite <-(q_intents _ _ Q) in *. cbv zeta.
  set (m2 := set_m_intents _ m1). apply ch_quiet in Q as C1.
  pose proof (ch_free e i m1 Hi) as C2. fold m2 in C2. pose proof (fresh_intents (<[i:=None]> (m_intents m1)) m1 F) as F2.
  fold m2 in F2.
  assert (Ew : emission_window e m2 = emission_window e m).
  { unfold emission_window. simpl. by rewrite (q_heap _ _ Q). }
  destruct (windowExpiredLocked_quiet (emission_window e m2) m2 (fr_terminal _ F2))
    as (Q3 & W3 & X3).
  assert (S3 : forall b x, (windowExpiredLocked (emission_window e m2) m2).2 = (b, Some x) ->
    stops (windowExpiredLocked (emission_window e m2) m2).1 x).
  { intros b x. unfold windowExpiredLocked.
    pose proof (eventAge_stops (ew_sent (emission_window e m2)) m2) as S1.
    destruct (eventAgeLocked (ew_sent (emission_window e m2)) m2) as [m3 [a|y]];
      [|intros [= _ ->]; by apply S1].
    pose proof (eventAge_stops (ew_proofSent (emission_window e m2)) m3) as S2.
    destruct (eventAgeLocked (ew_proofSent (emission_window e m2)) m3) as [m4 [a'|y]]; [done|].
    intros [= _ ->]. by apply S2. }
  destruct (windowExpiredLocked (emission_window e m2) m2) as [m3 [[] [x|]]]; simpl in *.
  - intros [= <- <-]. split; [|by eapply S3]. eapply changes_then; [done|].
    eapply changes_then; [done|]. by apply changes_quiet.
  - intros [= <- <-]. split; [|simpl; by rewrite (q_writing _ _ Q3); simpl; rewrite (q_writing _ _ Q)].
    eapply changes_then; [done|].
    eapply changes_then; [done|]. eapply changes_then; [by apply ch_quiet|].
    by apply changes_one, ch_count.
  - intros [= <- <-]. split; [|by eapply S3]. eapply changes_then; [done|].
    eapply changes_then; [done|]. by apply changes_quiet.
  - destruct (W3 eq_refl) as (-> & H1 & H2 & H3). intros [= <- <-]. split; [|by rewrite <-Ew].
    eapply changes_then; [done|]. eapply changes_then; [done|].
    apply changes_one. apply (ch_write e m2); try done; simpl;
      [by rewrite (q_writing _ _ Q) | by rewrite (q_heap _ _ Q)].
Qed.
End changes.
