(* ===== verification/LivenessPhases.v ===== *)
(** * Emission slots of the liveness controller

    An emission is registered in one slot of the model from its admission until
    the writer takes it or it is discarded.  The queue, the foreground and the
    writer only ever hold registered emissions, each of them once, so the
    writer never meets an unregistered one. *)
From S2P Require Import Prelude GoStd LivenessWire LivenessWireThms Liveness LivenessInv LivenessController LivenessChanges.

#[local] Opaque parseLivenessPacket buildLivenessPacket parseEchoPacket buildEchoPacket.

(** ** Slots *)

Lemma find_slot_Some f l i : find_slot f l = Some i -> exists x, l !! i = Some x /\ f x = true.
Proof.
  revert i. induction l as [|x l IH]; intros i; simpl; [done|].
  destruct (f x) eqn:E; [intros [= <-]; by exists x|].
  destruct (find_slot f l) as [j|]; [|done]. intros [= <-]. by apply IH.
Qed.

Lemma find_slot_None f l x : find_slot f l = None -> x ∈ l -> f x = false.
Proof.
  induction l as [|y l IH]; simpl; intros Hn Hx; [by apply not_elem_of_nil in Hx|].
  destruct (f y) eqn:E; [done|]. destruct (find_slot f l); [done|].
  apply elem_of_cons in Hx as [->|Hx]; auto.
Qed.

Lemma slot_of_Some e l i : slot_of e l = Some i -> l !! i = Some (Some e).
Proof.
  intros (x & Hx & ->%bool_decide_eq_true)%find_slot_Some. done.
Qed.

Lemma slot_of_None e l : slot_of e l = None -> Some e ∉ l.
Proof.
  intros Hn Hx. pose proof (find_slot_None _ _ _ Hn Hx) as E.
  by apply bool_decide_eq_false in E.
Qed.

Lemma free_slot_Some l i : free_slot l = Some i -> l !! i = Some None.
Proof.
  intros (x & Hx & ->%bool_decide_eq_true)%find_slot_Some. done.
Qed.

(** Each identifier occupies one slot. *)
Definition slots_unique (l : list (option nat)) : Prop :=
  forall i j e, l !! i = Some (Some e) -> l !! j = Some (Some e) -> i = j.

Lemma free_elem (l : list (option nat)) i e x :
  slots_unique l -> l !! i = Some (Some e) -> (Some x ∈ <[i := None]> l <-> Some x ∈ l /\ x <> e).
Proof.
  intros U Hi. rewrite !list_elem_of_lookup. split.
  - intros [j Hj]. destruct (decide (i = j)) as [->|Hne].
    + rewrite list_lookup_insert_eq in Hj by (by eapply lookup_lt_Some). done.
    + rewrite list_lookup_insert_ne in Hj by done. split; [by exists j|].
      intros ->. by apply Hne, (U i j e).
  - intros [[j Hj] Hne]. exists j. rewrite list_lookup_insert_ne; [done|]. intros ->. congruence.
Qed.

Lemma place_elem (l : list (option nat)) i id x :
  l !! i = Some None -> (Some x ∈ <[i := Some id]> l <-> x = id \/ Some x ∈ l).
Proof.
  intros Hi. rewrite !list_elem_of_lookup. split.
  - intros [j Hj]. destruct (decide (i = j)) as [->|Hne].
    + rewrite list_lookup_insert_eq in Hj by (by eapply lookup_lt_Some). left. congruence.
    + rewrite list_lookup_insert_ne in Hj by done. right. by exists j.
  - intros [->|[j Hj]].
    + exists i. apply list_lookup_insert_eq. by eapply lookup_lt_Some.
    + exists j. rewrite list_lookup_insert_ne; [done|]. intros ->. congruence.
Qed.

Lemma free_unique l i : slots_unique l -> slots_unique (<[i := None]> l).
Proof.
  intros U j1 j2 e. rewrite !list_lookup_insert_Some. naive_solver.
Qed.

Lemma place_unique l i id :
  slots_unique l -> Some id ∉ l -> slots_unique (<[i := Some id]> l).
Proof.
  intros U Hn j1 j2 e. rewrite !list_lookup_insert_Some.
  assert (Hx : forall j, l !! j <> Some (Some id)).
  { intros j Hj. apply Hn. apply list_elem_of_lookup. eauto. }
  intros [(? & ? & _)|[? ?]] [(? & ? & _)|[? ?]]; simplify_eq; try done;
    try (by edestruct Hx). by apply (U j1 j2 e).
Qed.

(** ** What the operations do to the slots *)

(** The part of the model that holds emissions. *)
Record vsame (m m' : livenessModel) : Prop := {
  vs_intents : m_intents m' = m_intents m;
  vs_heap : m_heap m' = m_heap m;
  vs_next : m_next m' = m_next m;
  vs_writing : m_writing m' = m_writing m;
  vs_closed : m_closed m' = m_closed m;
}.

#[export] Instance vsame_refl : Reflexive vsame.
Proof. by split. Qed.
#[export] Instance vsame_trans : Transitive vsame.
Proof. intros ??? [] []. split; congruence. Qed.

Lemma vsame_quiet m m' : quiet m m' -> vsame m m'.
Proof. intros []; by split. Qed.

Record vplaced (m : livenessModel) (id : nat) (m' : livenessModel) : Prop := {
  vp_slot : exists i, m_intents m !! i = Some None /\ m_intents m' = <[i := Some id]> (m_intents m);
  vp_heap : exists x, m_heap m' = <[id := x]> (m_heap m);
  vp_id : id = m_next m;
  vp_next : m_next m' = S id;
  vp_writing : m_writing m' = m_writing m;
  vp_closed : m_closed m' = m_closed m;
}.

Definition vresult (m : livenessModel) (o : res lerr (option nat)) (m' : livenessModel) : Prop :=
  match o with Ok (Some id) => vplaced m id m' | _ => vsame m m' end.

Lemma vresult_before m m1 o m' : vsame m m1 -> vresult m1 o m' -> vresult m o m'.
Proof.
  intros V. unfold vresult. assert (vsame m1 m' -> vsame m m') by (intros; by etrans).
  destruct o as [[id|]|]; auto. intros [(i & E1 & E2) [x Ex] E3 E4 E5 E6]. destruct V.
  split; try congruence; [|exists x; congruence]. exists i. split; congruence.
Qed.

Section ops.
Context {H : Sha256}.

Lemma intentLocked_view message m :
  vresult m (intentLocked message m).2 (intentLocked message m).1.
Proof.
  unfold intentLocked. destruct (buildLivenessPacket _ _); [|done].
  destruct (free_slot (m_intents m)) as [i|] eqn:Hi; [|done]. simpl.
  split; try done; [|by eexists]. exists i. split; [by apply free_slot_Some | done].
Qed.

Lemma admitLocked_view kind m : vsame m (admitLocked kind m).1.
Proof.
  unfold admitLocked. cbv zeta. by destruct (admit_full _ _), (kind =? livenessPing).
Qed.

Lemma checkLocked_view r m : vsame m (checkLocked r m).1.
Proof. apply vsame_quiet, checkLocked_quiet. Qed.

Lemma ping_view r s n m : vresult m (ping r s n m).2 (ping r s n m).1.
Proof.
  unfold ping. pose proof (checkLocked_view r m) as V1.
  destruct (checkLocked r m) as [m1 [e|]]; [done|]. simpl in V1.
  apply (vresult_before m m1); [done|].
  destruct (_ || _ || _); [done|]. pose proof (admitLocked_view livenessPing m1) as V2.
  destruct (admitLocked livenessPing m1) as [m2 [|]]; [|done].
  simpl in V2. apply (vresult_before m1 m2); [done|].
  pose proof (intentLocked_view (mkMessage livenessPing s n) m2) as V3.
  destruct (intentLocked _ m2) as [m3 [[id|]|]]; simpl in *; try done.
  destruct V3; by split.
Qed.

Lemma receive_view r p m : vresult m (receive r p m).2 (receive r p m).1.
Proof.
  unfold receive. pose proof (checkLocked_view r m) as V1.
  destruct (checkLocked r m) as [m1 [e|]]; [done|]. simpl in V1.
  apply (vresult_before m m1); [done|].
  destruct (parseLivenessPacket p (m_binding m1)) as [message|]; [|done].
  destruct (_ =? _).
  { unfold receive_pong. destruct (m_pending m1); [|done]. by destruct (_ || _). }
  unfold receive_ping. destruct (_ <? _); [done|]. destruct (_ <=? _); [done|]. cbv zeta.
  set (m2 := set_m_peerHigh _ m1). pose proof (admitLocked_view livenessPong m2) as V2.
  destruct (admitLocked livenessPong m2) as [m3 [|]]; simpl in V2; [|by apply vsame_trans with m2].
  apply (vresult_before m1 m3); [by apply vsame_trans with m2|]. apply intentLocked_view.
Qed.

Lemma preparePing_view r m : vsame m (preparePing r m).1.
Proof.
  unfold preparePing. pose proof (checkLocked_view r m) as V1.
  destruct (checkLocked r m) as [m1 [e|]]; [done|]. simpl in V1.
  apply (vsame_trans m m1); [done|]. destruct (_ <? _); [done|]. cbv zeta.
  unfold eventAgeLocked. destruct (clock_age _ _); [|done].
  destruct (_ || _); [done|]. by destruct (_ || _).
Qed.

Lemma windowExpired_view w m : vsame m (windowExpiredLocked w m).1.
Proof.
  unfold windowExpiredLocked, eventAgeLocked. destruct (clock_age _ (ew_sent w)); [|done].
  by destruct (clock_age _ _).
Qed.

Lemma permit_view available r m : vsame m (permit available r m).1.
Proof. apply vsame_quiet, permit_quiet. Qed.

Lemma end_locked_view err m :
  m_intents (end_locked err m) = m_intents m /\ m_heap (end_locked err m) = m_heap m /\
  m_next (end_locked err m) = m_next m /\ m_writing (end_locked err m) = m_writing m /\
  m_closed (end_locked err m) = true.
Proof. unfold end_locked. by destruct (m_terminal m), err. Qed.
End ops.

(** ** The slot discipline *)

Record slots_ok (m : livenessModel) (q c : list nat) (w : bool) : Prop := {
  so_nodup : NoDup (q ++ c);
  so_queue : forall e, e ∈ q -> Some e ∈ m_intents m;
  so_unique : slots_unique (m_intents m);
  so_heap : forall e, Some e ∈ m_intents m -> is_Some (m_heap m !! e);
  so_next : forall e, is_Some (m_heap m !! e) -> (e < m_next m)%nat;
  so_current : forall e, e ∈ c -> Some e ∉ m_intents m /\ is_Some (m_heap m !! e);
  so_writing : is_Some (m_writing m) <-> w = true;
}.

Section discipline.
Context {H : Sha256}.
Implicit Types (m : livenessModel) (q c : list nat) (w : bool).

Lemma slots_same m m' q c w : vsame m m' -> slots_ok m q c w -> slots_ok m' q c w.
Proof. intros [E1 E2 E3 E4 _] []. split; rewrite ?E1, ?E2, ?E3, ?E4; done. Qed.

Lemma slots_perm m q q' c w : q ≡ₚ q' -> slots_ok m q c w -> slots_ok m q' c w.
Proof.
  intros P []. split; try done; [by rewrite <-P|]. intros e. rewrite <-P. auto.
Qed.

Lemma slots_place m id m' q c w :
  vplaced m id m' -> slots_ok m q c w -> slots_ok m' (id :: q) c w.
Proof.
  intros [(i & Hi & Ei) [x Ex] -> En Ew _] S.
  assert (Hfresh : m_heap m !! m_next m = None).
  { apply eq_None_not_Some. intros Hx%(so_next _ _ _ _ S). lia. }
  assert (Hnot : Some (m_next m) ∉ m_intents m).
  { intros Hx%(so_heap _ _ _ _ S). rewrite Hfresh in Hx. by destruct Hx. }
  split; rewrite ?Ei, ?Ex, ?En, ?Ew; try apply S.
  - simpl. apply NoDup_cons. split; [|apply S]. intros [Hq|Hc]%elem_of_app.
    + by apply Hnot, S.
    + apply S in Hc as [_ Hc]. rewrite Hfresh in Hc. by destruct Hc.
  - intros e He. apply place_elem; [done|]. apply elem_of_cons in He as [->|He]; [by left|].
    right. by apply S.
  - by apply place_unique; [apply S|].
  - intros e He. apply place_elem in He as [->|He]; [by rewrite lookup_insert_eq | |done].
    apply lookup_insert_is_Some'. right. by apply S.
  - intros e [<-|He]%lookup_insert_is_Some'; [lia|]. apply (so_next _ _ _ _ S) in He. lia.
  - intros e He. destruct (so_current _ _ _ _ S e He) as [H1 H2]. split.
    + intros [->|Hx]%place_elem; [|done..]. rewrite Hfresh in H2. by destruct H2.
    + apply lookup_insert_is_Some'. by right.
Qed.

Lemma slots_drop m e q c w : slots_ok m (e :: q) c w -> slots_ok m q c w.
Proof.
  intros []. split; try done.
  - by apply NoDup_cons in so_nodup0 as [_ ?].
  - intros x Hx. apply so_queue0. by right.
Qed.

(** Freeing the slot of an emission that is nowhere else. *)
Lemma slots_free m e i q c w :
  slot_of e (m_intents m) = Some i -> slots_ok m (e :: q) c w ->
  slots_ok (set_m_intents (<[i := None]> (m_intents m)) m) q c w.
Proof.
  intros Hi%slot_of_Some S. pose proof (so_unique _ _ _ _ S) as U.
  pose proof (so_nodup _ _ _ _ S) as Hn. apply NoDup_cons in Hn as [Hne Hn].
  split; simpl; try apply S; try done.
  - intros x Hx. apply (free_elem _ _ e); try done. split; [apply S; by right|].
    intros ->. apply Hne, elem_of_app. by left.
  - by apply free_unique.
  - intros x [Hx _]%(free_elem _ _ e); try done. by apply S.
  - intros x Hx. destruct (so_current _ _ _ _ S x Hx) as [H1 H2]. split; [|done].
    by intros [Hx' _]%(free_elem _ _ e).
Qed.

Lemma slots_clear m e q c w : slots_ok m q c w -> slots_ok (clear_packet e m) q c w.
Proof.
  intros []. assert (E : forall x, is_Some (m_heap (clear_packet e m) !! x) <-> is_Some (m_heap m !! x)).
  { intros x. simpl. destruct (decide (e = x)) as [->|].
    - rewrite lookup_alter_eq. by rewrite fmap_is_Some.
    - by rewrite lookup_alter_ne. }
  split; try done.
  - intros x Hx. rewrite E. auto.
  - intros x Hx. rewrite E in Hx. by apply so_next0.
  - intros x Hx. rewrite E. auto.
Qed.

Lemma slots_witness f m q c w : slots_ok m q c w -> slots_ok (upd_witness f m) q c w.
Proof. by intros []. Qed.

Lemma slots_discard m e q c w :
  slots_ok m (e :: q) c w -> slots_ok (discard e m) q c w.
Proof.
  intros S. unfold discard. destruct (slot_of e (m_intents m)) as [i|] eqn:Hi.
  - apply slots_witness, slots_clear. by apply (slots_free _ e).
  - by eapply slots_drop.
Qed.

Lemma slots_end err m q c w : slots_ok m q c w -> slots_ok (end_locked err m) q c w.
Proof.
  destruct (end_locked_view err m) as (E1 & E2 & E3 & E4 & _). intros [].
  split; rewrite ?E1, ?E2, ?E3, ?E4; done.
Qed.

Lemma slots_endWrite b m q c w : slots_ok m q c w -> slots_ok (endWrite b m) q c false.
Proof.
  intros []. unfold endWrite. destruct b; split; simpl; try done; split; try done; by intros [].
Qed.

Lemma slots_finish m q e w : slots_ok m q [e] w -> slots_ok m q [] w.
Proof.
  intros []. split; try done; [|by intros ? ?%not_elem_of_nil].
  rewrite app_nil_r. by apply NoDup_app in so_nodup0 as [? _].
Qed.

Lemma slot_registered m e q c w :
  slots_ok m (e :: q) c w -> slot_of e (m_intents m) <> None.
Proof.
  intros S Hn%slot_of_None. apply Hn, S. by left.
Qed.

(** [beginWrite] of the first emission of the queue. *)
Lemma slots_begin r e m q :
  slots_ok m (e :: q) [] false ->
  match (beginWrite r e m).2 with
  | Ok true => slots_ok (beginWrite r e m).1 q [e] true
  | _ => slots_ok (beginWrite r e m).1 q [] false
  end.
Proof.
  intros S. pose proof (slot_registered _ _ _ _ _ S) as Hreg. unfold beginWrite.
  pose proof (checkLocked_view r m) as V. destruct (checkLocked r m) as [m1 [x|]]; simpl in V.
  { eapply slots_drop, slots_same; done. }
  rewrite (vs_intents _ _ V), (vs_writing _ _ V).
  destruct (slot_of e (m_intents m)) as [i|] eqn:Hi; [|done].
  pose proof (slots_same _ _ _ _ _ V S) as S1. rewrite <-(vs_intents _ _ V) in Hi |- *.
  destruct (m_writing m) as [w0|] eqn:Hw.
  { assert (false = true); [|done]. apply (so_writing _ _ _ _ S). by rewrite Hw. }
  cbv zeta. set (m2 := set_m_intents _ m1).
  pose proof (slots_free _ e i q [] false Hi S1) as S2. fold m2 in S2.
  pose proof (windowExpired_view (emission_window e m2) m2) as V3.
  pose proof (slots_same _ _ _ _ _ V3 S2) as S3.
  assert (He1 : Some e ∉ m_intents m2).
  { intros [_ Hx]%(free_elem _ _ e); [done|apply S1|by apply slot_of_Some]. }
  assert (He2 : is_Some (m_heap m2 !! e)).
  { apply (so_heap _ _ _ _ S1), S1. by left. }
  destruct (windowExpiredLocked (emission_window e m2) m2) as [m3 [[] [x|]]]; simpl in *;
    try (by apply slots_witness); try done.
  pose proof (so_nodup _ _ _ _ S1) as Hn. rewrite app_nil_r in Hn.
  apply NoDup_cons in Hn as [Hne Hn]. destruct S3. split; simpl; try done.
  - apply NoDup_app. split_and!; [done| |apply NoDup_singleton].
    intros x Hx ->%list_elem_of_singleton. done.
  - intros x ->%list_elem_of_singleton. by rewrite (vs_intents _ _ V3), (vs_heap _ _ V3).
Qed.

Lemma fold_clear l m q c w :
  slots_ok m q c w ->
  slots_ok (fold_left (fun m e => match e with Some id => clear_packet id m | None => m end) l m)
    q c w.
Proof.
  revert m. induction l as [|[e|] l IH]; intros m S; [done| |]; simpl; apply IH; [|done].
  by apply slots_clear.
Qed.

Lemma slots_empty m c w :
  slots_ok m [] c w ->
  slots_ok (set_m_pending None (set_m_intents [None; None; None] m)) [] c w.
Proof.
  intros []. assert (E : forall x : nat, Some x ∉ [@None nat; None; None]) by set_solver.
  split; simpl; try done; try (by intros e ?%E).
  - by intros e ?%not_elem_of_nil.
  - intros i j e Hi. destruct (E e). apply list_elem_of_lookup. eauto.
  - intros e He. split; [apply E | by apply so_current0].
Qed.
End discipline.

(** * Phases of the liveness controller

    [stage_inv] relates the phases of the goroutines to the stop flag and to
    what the teardown has emptied; [slots_inv] says that the queue, the
    foreground and the writer hold registered emissions, each once;
    [front_inv] is what the foreground knows at each of its phases. *)

#[local] Opaque parseLivenessPacket buildLivenessPacket parseEchoPacket buildEchoPacket.

(** ** Stages of the teardown *)

Definition stopped (k : controller) : Prop := k_stop k = true /\ m_closed (k_model k) = true.
Definition workers_done (k : controller) : Prop := k_writer k = WDone /\ k_watchdog k = DDone.

Definition front_stage (k : controller) : Prop :=
  match k_front k with
  | FStop _ | FCloseStop | FCancelStop | FCancelRead | FReturned _ | FDrainStop =>
      m_closed (k_model k) = true
  | FDrainWriter | FDrainViolation | FDrainFailEnd _ | FDrainFailStop | FDrainFailed => stopped k
  | FDrainWatchdog => stopped k /\ k_writer k = WDone
  | FDrainLock => stopped k /\ workers_done k
  | FDrainInbound => stopped k /\ workers_done k /\ k_ingress k = Some HeldByDrain
  | FDrainOutbound =>
      stopped k /\ workers_done k /\ k_ingress k = Some HeldByDrain /\ k_inbound k = []
  | FDrainFinal =>
      stopped k /\ workers_done k /\ k_ingress k = Some HeldByDrain /\ k_inbound k = [] /\
      k_outbound k = []
  | FDrained =>
      stopped k /\ workers_done k /\ k_inbound k = [] /\ k_outbound k = [] /\
      m_intents (k_model k) = [None; None; None] /\ m_pending (k_model k) = None /\
      (k_ingress k = None \/ exists packet, k_ingress k = Some (DeliverCheck packet))
  | _ => True
  end.

Definition held_by_drain (f : front_phase) : bool :=
  match f with FDrainInbound | FDrainOutbound | FDrainFinal => true | _ => false end.

Record stage_inv (k : controller) : Prop := {
  st_stop : k_stop k = true -> m_closed (k_model k) = true;
  st_front : front_stage k;
  st_writer : match k_writer k with WStop | WDone => m_closed (k_model k) = true | _ => True end;
  st_watchdog : match k_watchdog k with DStop | DDone => m_closed (k_model k) = true | _ => True end;
  st_external : k_external k <> O -> m_closed (k_model k) = true;
  st_ingress : k_ingress k = Some HeldByDrain -> held_by_drain (k_front k) = true;
}.

(** Replacing the model by one that keeps the slots, the closed flag and an
    absent pending ping. *)
Record msame (m m' : livenessModel) : Prop := {
  ms_intents : m_intents m' = m_intents m;
  ms_closed : m_closed m = true -> m_closed m' = true;
  ms_pending : m_pending m = None -> m_pending m' = None;
}.

Lemma msame_quiet m m' : quiet m m' -> msame m m'.
Proof.
  intros Q. split; [apply Q | by rewrite (q_closed _ _ Q) |].
  intros E. destruct (q_pending _ _ Q); congruence.
Qed.

Lemma msame_end err m : msame m (end_locked err m).
Proof. unfold end_locked. destruct (m_terminal m), err; by split. Qed.

Lemma stage_model k m : msame (k_model k) m -> stage_inv k -> stage_inv (set_k_model m k).
Proof.
  intros [E1 E2 E3] [S1 S2 S3 S4 S5 S6]. split; simpl; auto.
  - unfold front_stage, stopped, workers_done in *. simpl. rewrite E1.
    destruct (k_front k); naive_solver.
  - destruct (k_writer k); auto.
  - destruct (k_watchdog k); auto.
Qed.

Section steps.
Context {H : Sha256}.

Lemma stage_permit available r k :
  stage_inv k -> stage_inv (set_k_model (permit available r (k_model k)).1 k).
Proof. apply stage_model, msame_quiet, permit_quiet. Qed.

(** Phases that carry no obligation. *)
Definition free_phase (f : front_phase) : bool :=
  match f with
  | FTop | FSelect | FEvent _ _ | FReceive _ | FTick | FPing _ | FEnqueue _ _ | FViolation _
  | FEnd _ _ | FClosePermit | FCloseBuild | FCloseLoop _ | FCloseCheck _ | FCloseWait _
  | FCloseViolation | FCloseEnd _ | FCancelEnd => true
  | _ => false
  end.

Lemma stage_free k k' :
  free_phase (k_front k') = true -> held_by_drain (k_front k) = false ->
  k_stop k' = k_stop k -> k_writer k' = k_writer k -> k_watchdog k' = k_watchdog k ->
  k_external k' = k_external k -> k_ingress k' = k_ingress k ->
  (m_closed (k_model k) = true -> m_closed (k_model k') = true) ->
  stage_inv k -> stage_inv k'.
Proof.
  intros Hf Hh E1 E2 E3 E4 E5 Hc [S1 S2 S3 S4 S5 S6].
  split; rewrite ?E1, ?E2, ?E3, ?E4, ?E5; auto.
  - unfold front_stage. by destruct (k_front k').
  - destruct (k_writer k); auto.
  - destruct (k_watchdog k); auto.
  - intros Hx%S6. congruence.
Qed.

Lemma discard_closed e m : m_closed (discard e m) = m_closed m.
Proof. unfold discard. by destruct (slot_of e (m_intents m)). Qed.
Lemma discard_pending e m : m_pending (discard e m) = m_pending m.
Proof. unfold discard. by destruct (slot_of e (m_intents m)). Qed.

Lemma fold_clear_frame l m :
  let m' := fold_left (fun m e => match e with Some id => clear_packet id m | None => m end) l m in
  m_closed m' = m_closed m /\ m_intents m' = m_intents m /\ m_pending m' = m_pending m /\
  m_writing m' = m_writing m /\ m_witness m' = m_witness m /\ m_terminal m' = m_terminal m.
Proof.
  revert m. induction l as [|[e|] l IH]; intros m; [done|..];
    [exact (IH (clear_packet e m)) | exact (IH m)].
Qed.

Lemma vresult_closed m o m' : vresult m o m' -> m_closed m' = m_closed m.
Proof. unfold vresult. destruct o as [[?|]|]; by intros []. Qed.

(** A step of the foreground that only moves to another phase of [run]. *)
Record moves (k k' : controller) : Prop := {
  mv_front : free_phase (k_front k') = true;
  mv_stop : k_stop k' = k_stop k;
  mv_writer : k_writer k' = k_writer k;
  mv_watchdog : k_watchdog k' = k_watchdog k;
  mv_external : k_external k' = k_external k;
  mv_ingress : k_ingress k' = k_ingress k;
  mv_closed : m_closed (k_model k') = m_closed (k_model k);
}.

Lemma stage_moves k k' :
  moves k k' -> held_by_drain (k_front k) = false -> stage_inv k -> stage_inv k'.
Proof. intros [] Hh. apply stage_free; try done. congruence. Qed.

Lemma permit_closed available r m : m_closed (permit available r m).1 = m_closed m.
Proof. apply (q_closed _ _ (permit_quiet available r m)). Qed.

Lemma front_permit_moves available r f k :
  free_phase f = true -> moves k (front_permit available r f k).
Proof.
  intros Hf. unfold front_permit. pose proof (permit_closed available r (k_model k)) as E.
  destruct (permit available r (k_model k)) as [m [e|]]; by split.
Qed.

Lemma close_permit_moves available r f k :
  free_phase f = true -> moves k (close_permit available r f k).
Proof.
  intros Hf. unfold close_permit. pose proof (permit_closed available r (k_model k)) as E.
  destruct (permit available r (k_model k)) as [m [e|]]; by split.
Qed.

Lemma front_event_moves packet length m k :
  m_closed m = m_closed (k_model k) -> moves k (front_event packet length (set_k_model m k)).1.
Proof.
  intros E. unfold front_event. destruct (_ && _); [destruct (parseEchoPacket _ _ _ _); by split|].
  destruct (negb _); by split.
Qed.

Lemma after_enqueue_free e next : free_phase (after_enqueue e next) = true.
Proof. by destruct e. Qed.

Lemma front_receive_moves r packet k : moves k (front_receive r packet k).1.
Proof.
  unfold front_receive. pose proof (vresult_closed _ _ _ (receive_view r packet (k_model k))) as E.
  destruct (receive r packet (k_model k)) as [m [e|x]]; split; try done. apply after_enqueue_free.
Qed.

Lemma front_ping_moves r s nonce k : moves k (front_ping r s nonce k).1.
Proof.
  unfold front_ping. destruct nonce as [nonce|]; [|by split].
  pose proof (vresult_closed _ _ _ (ping_view r s nonce (k_model k))) as E.
  destruct (ping r s nonce (k_model k)) as [m [e|x]].
  - split; try done. apply after_enqueue_free.
  - simpl. case_bool_decide; by split.
Qed.

Lemma front_tick_moves r k : moves k (front_tick r k).
Proof.
  unfold front_tick. pose proof (vs_closed _ _ (preparePing_view r (k_model k))) as E.
  destruct (preparePing r (k_model k)) as [m [s|x]]; [|by split]. destruct (s =? 0); by split.
Qed.

Lemma close_build_moves r nonce k : moves k (close_build r nonce k).1.
Proof.
  unfold close_build. destruct nonce as [nonce|]; [|by split].
  destruct (buildEchoPacket _ _ _); [|by split].
  pose proof (vs_closed _ _ (checkLocked_view r (k_model k))) as E.
  destruct (checkLocked r (k_model k)) as [m [x|]]; [by split|].
  destruct (free_slot _); by split.
Qed.

Lemma close_check_moves e k : moves k (close_check e k).
Proof.
  unfold close_check.
  pose proof (vs_closed _ _ (windowExpired_view (emission_window e (k_model k)) (k_model k))) as E.
  destruct (windowExpiredLocked _ _) as [m [expired err]].
  destruct (expired || _); [|by split]. destruct (_ && _ && _); by split.
Qed.

Lemma enqueue_moves e next k :
  moves k (enqueue_send e next k) /\ moves k (enqueue_discard e next k).
Proof.
  split; split; try done; try (by destruct next). apply discard_closed.
Qed.

Lemma end_locked_closed err m : m_closed (end_locked err m) = true.
Proof. apply end_locked_view. Qed.

(** Replacing the phase of the foreground and closing or stopping. *)
Lemma stage_phase f (k k' : controller) :
  k_front k' = f -> held_by_drain f = false -> held_by_drain (k_front k) = false ->
  k_writer k' = k_writer k -> k_watchdog k' = k_watchdog k -> k_ingress k' = k_ingress k ->
  m_closed (k_model k') = true -> front_stage k' -> stage_inv k -> stage_inv k'.
Proof.
  intros Ef Hf Hh E2 E3 E5 Hc Hs [S1 S2 S3 S4 S5 S6].
  split; rewrite ?E2, ?E3, ?E5; auto.
  - by destruct (k_writer k).
  - by destruct (k_watchdog k).
  - intros Hx%S6. congruence.
Qed.

Ltac front_known :=
  match goal with E : k_front _ = _ |- held_by_drain _ = _ => by rewrite E end.

Lemma front_step_stage k1 ev k2 : front_step k1 ev k2 -> stage_inv k1 -> stage_inv k2.
Proof.
  destruct 1; intros S; pose proof S as [S1 S2 S3 S4 S5 S6]; unfold front_stage in S2;
    repeat match goal with E : k_front _ = _ |- _ => rewrite E in S2; revert E end; intros;
    try (match goal with S : stage_inv ?k |- _ => eapply (stage_free k) end; try done; front_known);
    try (eapply stage_moves; [|front_known|done]; first
      [ by apply front_permit_moves | by apply close_permit_moves | apply front_receive_moves
      | apply front_ping_moves | apply front_tick_moves | apply close_build_moves
      | apply close_check_moves | apply enqueue_moves
      | apply front_event_moves;
        match goal with E : permit ?a ?r ?m = _ |- _ =>
          pose proof (permit_closed a r m) as Ec; by rewrite E in Ec end
      | match goal with E : permit ?a ?r ?m = _ |- _ =>
          pose proof (permit_closed a r m) as Ec; rewrite E in Ec; by split end ]).
  all: try (eapply stage_phase; [done|done|front_known|done|done|done| |
           unfold front_stage, stopped; simpl; rewrite ?end_locked_closed |done];
         simpl; rewrite ?end_locked_closed; unfold stopped in *; destruct_and?; auto; fail).
  - destruct S2 as [[] ?]. apply (stage_phase FDrainLock k); try done. front_known.
  - assert (Hs : stopped k) by (destruct H0 as [E|E]; rewrite E in S2; [done | apply S2]).
    assert (held_by_drain (k_front k) = false) by (by destruct H0 as [E|E]; rewrite E).
    destruct Hs. by apply (stage_phase FDrainViolation k).
  - destruct S2 as [[] []]. split; simpl; try done.
  - destruct S2 as ([] & [] & ?). split; simpl; try done.
  - unfold drain_outbound. destruct (k_outbound k) as [|e rest] eqn:Eo.
    + destruct S2 as ([] & [] & ? & ?). split; simpl; try done.
    + destruct S2 as ([] & [] & ? & ?). split; simpl; rewrite ?discard_closed; try done.
      unfold front_stage, stopped, workers_done. simpl. by rewrite H0, discard_closed.
  - destruct S2 as ([E1 E2] & [E3 E4] & E5 & E6 & E7).
    destruct (fold_clear_frame (m_intents (k_model k)) (k_model k)) as (F1 & _).
    unfold drain_final. split; simpl; rewrite ?F1, ?E3, ?E4; try done.
    unfold front_stage, stopped, workers_done. simpl. rewrite F1. split_and!; auto.
Qed.

(** ** The other goroutines *)

Lemma stage_same k k' :
  k_stop k' = k_stop k -> k_front k' = k_front k -> k_external k' = k_external k ->
  k_watchdog k' = k_watchdog k -> k_ingress k' = k_ingress k -> k_inbound k' = k_inbound k ->
  (k_outbound k = [] -> k_outbound k' = []) -> k_writer k <> WDone ->
  (m_closed (k_model k) = true -> m_closed (k_model k') = true) ->
  match k_writer k' with WStop | WDone => m_closed (k_model k') = true | _ => True end ->
  stage_inv k -> stage_inv k'.
Proof.
  intros E1 E2 E3 E4 E5 E6 E7 Hw Hc Hw' [S1 S2 S3 S4 S5 S6].
  split; rewrite ?E1, ?E3, ?E4, ?E5; auto.
  - unfold front_stage, stopped, workers_done in *. rewrite E1, E2.
    destruct (k_front k); try done; destruct_and?; auto; done.
  - destruct (k_watchdog k); auto.
  - by rewrite E2.
Qed.

Lemma begin_closed r e m : m_closed (beginWrite r e m).1 = m_closed m.
Proof.
  unfold beginWrite. pose proof (vs_closed _ _ (checkLocked_view r m)) as E.
  destruct (checkLocked r m) as [m1 [x|]]; [done|]. simpl in E.
  destruct (slot_of e (m_intents m1)), (m_writing m1); try done. cbv zeta.
  pose proof (vs_closed _ _ (windowExpired_view
    (emission_window e (set_m_intents (<[n:=None]> (m_intents m1)) m1))
    (set_m_intents (<[n:=None]> (m_intents m1)) m1))) as E2.
  destruct (windowExpiredLocked _ _) as [m2 [[] [x|]]]; simpl in *; congruence.
Qed.

Lemma writer_step_stage k1 ev k2 : writer_step k1 ev k2 -> stage_inv k1 -> stage_inv k2.
Proof.
  destruct 1; intros S; pose proof S as [S1 S2 S3 S4 S5 S6];
    match goal with E : k_writer ?k = _ |- _ => rewrite E in S3;
      assert (k_writer k <> WDone) by (rewrite E; done) end;
    try match goal with E : permit ?a ?r ?m = _ |- _ =>
      pose proof (permit_closed a r m) as Ec; rewrite E in Ec; simpl in Ec end;
    match goal with S : stage_inv ?k |- _ => try (apply (stage_same k); simpl; rewrite ?end_locked_closed;
      try done; auto; congruence) end.
  - (* writer_begun *) unfold writer_begin. pose proof (begin_closed r e (k_model k)) as Ec.
    destruct (beginWrite r e (k_model k)) as [m [[]|x]]; simpl in Ec.
    + apply (stage_same k); simpl; try done. congruence.
    + apply (stage_same k); simpl; try done. congruence.
    + case_bool_decide; apply (stage_same k); simpl; try done; congruence.
  - (* writer_ended *) unfold writer_end_write, endWrite. apply (stage_same k); simpl; try done.
    + by destruct (_ && _).
    + by destruct (_ && emission_teardown _ _).
  - destruct ok; by apply (stage_same k).
  - (* writer_stop *) split; simpl; try done.
    unfold front_stage, stopped, workers_done in *. simpl.
    destruct (k_front k); try done; destruct_and?; auto; congruence.
Qed.

Lemma stage_same_dog k k' :
  k_stop k' = k_stop k -> k_front k' = k_front k -> k_external k' = k_external k ->
  k_writer k' = k_writer k -> k_ingress k' = k_ingress k -> k_inbound k' = k_inbound k ->
  k_outbound k' = k_outbound k -> k_watchdog k <> DDone -> 
  (m_closed (k_model k) = true -> m_closed (k_model k') = true) ->
  match k_watchdog k' with DStop | DDone => m_closed (k_model k') = true | _ => True end ->
  stage_inv k -> stage_inv k'.
Proof.
  intros E1 E2 E3 E4 E5 E6 E7 Hw Hc Hw' [S1 S2 S3 S4 S5 S6].
  split; rewrite ?E1, ?E3, ?E4, ?E5; auto.
  - unfold front_stage, stopped, workers_done in *. rewrite E1, E2, E4.
    destruct (k_front k); try done; destruct_and?; auto; done.
  - destruct (k_writer k); auto.
  - by rewrite E2.
Qed.

Lemma watchdog_step_stage k1 ev k2 : watchdog_step k1 ev k2 -> stage_inv k1 -> stage_inv k2.
Proof.
  destruct 1; intros S; pose proof S as [S1 S2 S3 S4 S5 S6];
    match goal with E : k_watchdog ?k = _ |- _ => rewrite E in S4;
      assert (k_watchdog k <> DDone) by (rewrite E; done) end;
    try match goal with E : permit ?a ?r ?m = _ |- _ =>
      pose proof (permit_closed a r m) as Ec; rewrite E in Ec; simpl in Ec end;
    match goal with S : stage_inv ?k |- _ =>
      try (apply (stage_same_dog k); simpl; rewrite ?end_locked_closed;
      try done; auto; congruence) end.
  - unfold watchdog_check. destruct (m_writing (k_model k)) as [w|]; [|by apply (stage_same_dog k)].
    pose proof (vs_closed _ _ (windowExpired_view w (k_model k))) as Ec.
    destruct (windowExpiredLocked w (k_model k)) as [m [[] [x|]]]; simpl in Ec;
      apply (stage_same_dog k); simpl; try done; congruence.
  - split; simpl; try done.
    unfold front_stage, stopped, workers_done in *. simpl.
    destruct (k_front k); try done; destruct_and?; auto; congruence.
Qed.

Lemma callback_step_stage k1 ev k2 : callback_step k1 ev k2 -> stage_inv k1 -> stage_inv k2.
Proof.
  destruct 1; intros S; pose proof S as [S1 S2 S3 S4 S5 S6].
  - split; simpl; done.
  - split; simpl; try done. unfold front_stage, stopped, workers_done in *. simpl in *.
    destruct (k_front k); try done; destruct_and?; try congruence; split_and!; eauto.
  - split; simpl; try done. unfold front_stage, stopped, workers_done in *. simpl in *.
    destruct (k_front k); try done; destruct_and?; try congruence; split_and!; eauto.
  - split; simpl; try done. unfold front_stage, stopped, workers_done in *. simpl in *.
    destruct (k_front k); try done; destruct_and?; try congruence; split_and!; eauto.
  - unfold push_inbound. case_bool_decide; split; simpl; try done;
      unfold front_stage, stopped, workers_done in *; simpl in *;
      destruct (k_front k); try done; destruct_and?; try congruence; split_and!; naive_solver.
  - by apply stage_permit.
  - pose proof (stage_model k _ (msame_end (Some (hardViolation v reported)) (k_model k)) S)
      as [T1 T2 T3 T4 T5 T6]. split; simpl; try done; intros _; apply end_locked_closed.
  - assert (m_closed (k_model k) = true) by (apply S5; rewrite H0; done).
    split; simpl; try done. unfold front_stage, stopped, workers_done in *. simpl.
    destruct (k_front k); try done; destruct_and?; split_and!; eauto.
Qed.

Lemma controller_step_stage k1 ev k2 : controller_step k1 ev k2 -> stage_inv k1 -> stage_inv k2.
Proof.
  destruct 1; [by eapply front_step_stage | by eapply writer_step_stage
    | by eapply watchdog_step_stage | by eapply callback_step_stage].
Qed.
End steps.

(** * The emission queue of the liveness controller

    [slots_inv]: whatever the foreground, the queue and the writer hold is
    registered, each emission once, and the model is writing exactly when the
    writer is.  [front_inv]: what the foreground has established in each phase. *)

#[local] Opaque parseLivenessPacket buildLivenessPacket parseEchoPacket buildEchoPacket.

Definition front_held (f : front_phase) : list nat :=
  match f with FEnqueue e _ => [e] | _ => [] end.
Definition writer_held (w : writer_phase) : list nat :=
  match w with WPermit e | WBegin e => [e] | _ => [] end.
Definition writer_current (w : writer_phase) : list nat :=
  match w with WInject e | WEndWrite e _ | WCloseCount e | WClear e _ => [e] | _ => [] end.
Definition is_writing (w : writer_phase) : bool :=
  match w with WInject _ | WEndWrite _ _ => true | _ => false end.

Definition queue (k : controller) : list nat :=
  front_held (k_front k) ++ k_outbound k ++ writer_held (k_writer k).

Definition slots_inv (k : controller) : Prop :=
  slots_ok (k_model k) (queue k) (writer_current (k_writer k)) (is_writing (k_writer k)).

Section steps.
Context {H : Sha256}.

Lemma slots_result m o m' q c w f next :
  vresult m o m' -> slots_ok m q c w ->
  match o with
  | Ok e => slots_ok m' (front_held (after_enqueue e next) ++ q) c w
  | Err _ => front_held f = [] -> slots_ok m' (front_held f ++ q) c w
  end.
Proof.
  unfold vresult. destruct o as [[id|]|x]; simpl; intros V S.
  - by eapply slots_place.
  - by eapply slots_same.
  - intros ->. by eapply slots_same.
Qed.

Lemma slots_permit available r m q c w :
  slots_ok m q c w -> slots_ok (permit available r m).1 q c w.
Proof. apply slots_same, permit_view. Qed.

Lemma front_step_slots k1 ev k2 :
  front_step k1 ev k2 -> stage_inv k1 -> slots_inv k1 -> slots_inv k2.
Proof.
  destruct 1; intros St S; unfold slots_inv, queue in *;
    try match goal with E : k_front _ = _ |- _ => rewrite E in S end;
    simpl; try (simpl in S; by auto using slots_end);
    try match goal with E : permit ?a ?r ?m = _ |- _ =>
      pose proof (slots_permit a r m _ _ _ S) as S'; rewrite E in S'; simpl in S' end;
    try done.
  - unfold front_permit. pose proof (slots_permit available r _ _ _ _ S) as S'.
    by destruct (permit available r (k_model k)) as [m [x|]].
  - unfold front_event. destruct (_ && _); [by destruct (parseEchoPacket _ _ _ _)|].
    by destruct (negb _).
  - unfold front_receive.
    pose proof (slots_result _ _ _ _ _ _ FTop ToTop (receive_view r packet (k_model k)) S) as R.
    destruct (receive r packet (k_model k)) as [m [e|x]]; simpl in *; auto.
  - unfold front_tick. pose proof (slots_same _ _ _ _ _ (preparePing_view r (k_model k)) S) as R.
    destruct (preparePing r (k_model k)) as [m [s|x]]; [|done]. by destruct (s =? 0).
  - unfold front_ping. destruct nonce as [nonce|]; [|done].
    pose proof (slots_result _ _ _ _ _ _ FTop ToTop (ping_view r sequence nonce (k_model k)) S) as R.
    destruct (ping r sequence nonce (k_model k)) as [m [e|x]]; simpl in *; [done|].
    case_bool_decide; auto.
  - replace (front_held (enqueue_done next)) with (@nil nat) by (by destruct next).
    eapply slots_perm; [|exact S]. simpl. rewrite <-app_assoc. apply Permutation_middle.
  - replace (front_held (enqueue_done next)) with (@nil nat) by (by destruct next).
    simpl. by apply slots_discard.
  - unfold close_permit. pose proof (slots_permit available r _ _ _ _ S) as S'.
    by destruct (permit available r (k_model k)) as [m [x|]].
  - unfold close_build. destruct nonce as [nonce|]; [|done].
    destruct (buildEchoPacket _ _ _) as [packet|]; [|done].
    pose proof (slots_same _ _ _ _ _ (checkLocked_view r (k_model k)) S) as S'.
    destruct (checkLocked r (k_model k)) as [m [x|]]; [done|].
    destruct (free_slot (m_intents m)) as [i|] eqn:Hi; [|done]. simpl in *.
    apply slots_witness. eapply slots_place; [|exact S'].
    split; try done; [|by eexists]. exists i. split; [by apply free_slot_Some | done].
  - unfold close_permit. pose proof (slots_permit available r _ _ _ _ S) as S'.
    by destruct (permit available r (k_model k)) as [m [x|]].
  - unfold close_check. pose proof (slots_same _ _ _ _ _
      (windowExpired_view (emission_window e (k_model k)) (k_model k)) S) as S'.
    destruct (windowExpiredLocked _ _) as [m [expired err]].
    destruct (expired || _); [|done]. by destruct (_ && _ && _).
  - by destruct H0 as [E|E]; rewrite E in S.
  - unfold drain_outbound. destruct (k_outbound k) as [|e rest] eqn:Eo; simpl; [by rewrite Eo|].
    rewrite H0. simpl. by apply slots_discard.
  - pose proof (st_front _ St) as F. unfold front_stage in F. rewrite H0 in F.
    destruct F as (_ & [Ew _] & _ & _ & Eo). rewrite Ew, Eo in *. simpl in *.
    apply slots_witness, slots_empty, fold_clear, S.
Qed.

Lemma held_last (f o : list nat) e : f ++ o ++ [e] ≡ₚ e :: f ++ o ++ [].
Proof.
  rewrite app_nil_r, (app_assoc f o). symmetry. apply Permutation_cons_append.
Qed.

Lemma writer_step_slots k1 ev k2 : writer_step k1 ev k2 -> slots_inv k1 -> slots_inv k2.
Proof.
  destruct 1; intros S; unfold slots_inv, queue in *;
    match goal with E : k_writer _ = _ |- _ => rewrite E in S end;
    simpl; try (simpl in S; by auto using slots_end);
    try match goal with E : permit ?a ?r ?m = _ |- _ =>
      pose proof (slots_permit a r m _ _ _ S) as S'; rewrite E in S'; simpl in S' end;
    try done.
  - rewrite H1 in S. simpl in S. eapply slots_perm; [|exact S].
    rewrite app_nil_r. apply Permutation_app_head. apply Permutation_cons_append.
  - eapply slots_drop, slots_perm; [apply held_last | exact S'].
  - simpl in S. eapply slots_perm in S; [|apply held_last].
    pose proof (slots_begin r e (k_model k) _ S) as R. unfold writer_begin.
    destruct (beginWrite r e (k_model k)) as [m [[]|x]]; simpl in *.
    + done.
    + by apply slots_clear.
    + by case_bool_decide.
  - destruct (ok && emission_teardown e (k_model k)); simpl; by eapply slots_endWrite.
  - by apply slots_witness.
  - destruct ok; simpl; by eapply slots_finish, slots_clear.
  - by apply slots_witness.
Qed.

Lemma watchdog_step_slots k1 ev k2 : watchdog_step k1 ev k2 -> slots_inv k1 -> slots_inv k2.
Proof.
  destruct 1; intros S; unfold slots_inv, queue in *; simpl;
    try (by auto using slots_end);
    try match goal with E : permit ?a ?r ?m = _ |- _ =>
      pose proof (slots_permit a r m _ _ _ S) as S'; rewrite E in S'; simpl in S' end;
    try done.
  unfold watchdog_check. destruct (m_writing (k_model k)) as [w|] eqn:Ew; [|done].
  pose proof (slots_same _ _ _ _ _ (windowExpired_view w (k_model k)) S) as S'.
  destruct (windowExpiredLocked w (k_model k)) as [m [[] [x|]]]; done.
Qed.

Lemma callback_step_slots k1 ev k2 : callback_step k1 ev k2 -> slots_inv k1 -> slots_inv k2.
Proof.
  destruct 1; intros S; unfold slots_inv, queue in *; simpl; try done.
  - unfold push_inbound. by case_bool_decide.
  - by apply slots_permit.
  - by apply slots_end.
Qed.

Lemma controller_step_slots k1 ev k2 :
  controller_step k1 ev k2 -> stage_inv k1 -> slots_inv k1 -> slots_inv k2.
Proof.
  destruct 1; intros; [by eapply front_step_slots | by eapply writer_step_slots
    | by eapply watchdog_step_slots | by eapply callback_step_slots].
Qed.
End steps.
