(* ===== verification/LivenessTrace.v ===== *)
(** * Runs of the liveness controller

    [session_inv] collects the invariants of a run; every transition changes the
    model by elementary [changes] with the same events. *)
From S2P Require Import Prelude GoStd LivenessWire LivenessWireThms Liveness LivenessInv LivenessController LivenessChanges LivenessPhases.

#[local] Opaque parseLivenessPacket buildLivenessPacket parseEchoPacket buildEchoPacket.

(** ** What the foreground knows *)

Definition event_bytes (e : controlEvent) : Prop := Forall is_byte (ce_packet e).

Record front_inv (k : controller) : Prop := {
  fi_front : match k_front k with
    | FPing s => s = m_sequence (k_model k) /\ s <> 0 /\ m_pending (k_model k) = None
    | FEvent p _ | FReceive p => Forall is_byte p
    | _ => True
    end;
  fi_inbound : Forall event_bytes (k_inbound k);
  fi_ingress : match k_ingress k with
    | Some (DeliverCheck p) | Some (DeliverSend p) => Forall is_byte p
    | _ => True
    end;
}.

(** The rest of the model may change while a ping is being prepared. *)
Record psame (m m' : livenessModel) : Prop := {
  ps_sequence : m_sequence m' = m_sequence m;
  ps_pending : m_pending m = None -> m_pending m' = None;
}.

#[export] Instance psame_trans : Transitive psame.
Proof. intros ??? [] []. split; [congruence | auto]. Qed.

Lemma psame_quiet m m' : quiet m m' -> psame m m'.
Proof.
  intros Q. split; [apply Q|]. intros E. destruct (q_pending _ _ Q); congruence.
Qed.

Section steps.
Context {H : Sha256}.

Lemma psame_end err m : psame m (end_locked err m).
Proof. unfold end_locked. by destruct (m_terminal m), err. Qed.

Lemma psame_begin r e m : psame m (beginWrite r e m).1.
Proof.
  unfold beginWrite. pose proof (psame_quiet _ _ (proj1 (checkLocked_quiet r m))) as P1.
  destruct (checkLocked_quiet r m) as [_ F].
  destruct (checkLocked r m) as [m1 [x|]]; [done|]. simpl in P1, F.
  etrans; [exact P1|]. destruct (slot_of e (m_intents m1)) as [i|], (m_writing m1); try done.
  cbv zeta. set (m2 := set_m_intents _ m1).
  assert (Ht : m_terminal m2 = None) by (by apply (fr_terminal _ (F eq_refl))).
  destruct (windowExpiredLocked_quiet (emission_window e m2) m2 Ht) as [Q _].
  apply psame_quiet in Q as P2. apply (psame_trans _ m2); [done|].
  destruct (windowExpiredLocked (emission_window e m2) m2) as [m3 [[] [x|]]]; simpl in *;
    destruct P2; by split.
Qed.

Lemma psame_window w m : psame m (windowExpiredLocked w m).1.
Proof.
  unfold windowExpiredLocked, eventAgeLocked.
  destruct (clock_age _ (ew_sent w)); [|done]. by destruct (clock_age _ _).
Qed.

Lemma front_inv_model k k' :
  psame (k_model k) (k_model k') -> k_front k' = k_front k -> k_inbound k' = k_inbound k ->
  k_ingress k' = k_ingress k -> front_inv k -> front_inv k'.
Proof.
  intros [P1 P2] E1 E2 E3 [F1 F2 F3]. split; rewrite ?E1, ?E2, ?E3; try done.
  destruct (k_front k); try done. rewrite P1. naive_solver.
Qed.

Lemma writer_step_front k1 ev k2 : writer_step k1 ev k2 -> front_inv k1 -> front_inv k2.
Proof.
  destruct 1; intros F; eapply front_inv_model; try exact F; simpl; try done;
    try (apply psame_end);
    try match goal with E : permit ?a ?r ?m = _ |- _ =>
      pose proof (psame_quiet _ _ (permit_quiet a r m)) as P; by rewrite E in P end.
  1-4: unfold writer_begin; pose proof (psame_begin r e (k_model k)) as P;
    destruct (beginWrite r e (k_model k)) as [m [[]|x]]; simpl in *;
    first [done | by destruct P; split | by case_bool_decide].
  unfold endWrite. by destruct (_ && _).
Qed.

Lemma watchdog_step_front k1 ev k2 : watchdog_step k1 ev k2 -> front_inv k1 -> front_inv k2.
Proof.
  destruct 1; intros F; eapply front_inv_model; try exact F; simpl; try done;
    try (apply psame_end);
    try match goal with E : permit ?a ?r ?m = _ |- _ =>
      pose proof (psame_quiet _ _ (permit_quiet a r m)) as P; by rewrite E in P end.
  all: unfold watchdog_check; destruct (m_writing (k_model k)) as [w|]; try done;
    pose proof (psame_window w (k_model k)) as P;
    by destruct (windowExpiredLocked w (k_model k)) as [m [[] [x|]]].
Qed.

Lemma control_event_bytes packet : Forall is_byte packet -> event_bytes (control_event packet).
Proof.
  intros Hp. unfold event_bytes, control_event, copy_at. simpl.
  assert (Hz : forall n, Forall is_byte (make_bytes n)).
  { intros n. apply Forall_replicate. unfold is_byte. lia. }
  destruct (_ <=? _); [|apply Hz]. simpl.
  apply Forall_app. split; [done|]. by apply Forall_drop.
Qed.

Lemma callback_step_front k1 ev k2 : callback_step k1 ev k2 -> front_inv k1 -> front_inv k2.
Proof.
  destruct 1; intros F; try (eapply front_inv_model; [..|exact F]; done).
  - destruct F as [F1 F2 F3]. by split.
  - destruct F as [F1 F2 F3]. by split.
  - destruct F as [F1 F2 F3]. rewrite H0 in F3. by split.
  - destruct F as [F1 F2 F3]. rewrite H0 in F3. unfold push_inbound.
    case_bool_decide; split; simpl; try done. apply Forall_app. split; [done|].
    constructor; [|done]. by apply control_event_bytes.
  - eapply front_inv_model; [apply psame_quiet, permit_quiet|done..].
  - eapply front_inv_model; [apply psame_end|done..].
Qed.

Lemma front_step_front k1 ev k2 :
  front_step k1 ev k2 -> model_inv (k_model k1) -> front_inv k1 -> front_inv k2.
Proof.
  destruct 1; intros I F; pose proof F as [F1 F2 F3]; try (split; simpl; done);
    try match goal with E : k_front _ = _ |- _ => rewrite E in F1 end.
  - unfold front_permit. by destruct (permit available r (k_model k)) as [m [x|]].
  - rewrite H1 in F2. apply Forall_cons in F2 as [Fe Fr]. by split.
  - unfold front_event. destruct (_ && _); [by destruct (parseEchoPacket _ _ _ _)|].
    by destruct (negb _).
  - unfold front_receive. destruct (receive r packet (k_model k)) as [m [[e|]|x]]; by split.
  - unfold front_tick. destruct (preparePing r (k_model k)) as [m [s|x]] eqn:Ep; [|by split].
    destruct (preparePing_changes (fun _ => True) r _ _ _ I Ep) as [_ Hs].
    destruct (Z.eqb_spec s 0) as [|Hz]; [by split|]. destruct (Hs Hz) as [-> Hp].
    by split.
  - unfold front_ping. destruct nonce as [nonce|]; [|by split].
    destruct (ping r sequence nonce (k_model k)) as [m [[e|]|x]]; [by split..|].
    simpl. case_bool_decide; by split.
  - destruct next; by split.
  - destruct next; by split.
  - unfold close_permit. by destruct (permit available r (k_model k)) as [m [x|]].
  - unfold close_build. destruct nonce as [nonce|]; [|by split].
    destruct (buildEchoPacket _ _ _); [|by split].
    destruct (checkLocked r (k_model k)) as [m [x|]]; [by split|].
    destruct (free_slot _); by split.
  - unfold close_permit. by destruct (permit available r (k_model k)) as [m [x|]].
  - unfold close_check. destruct (windowExpiredLocked _ _) as [m [expired err]].
    destruct (expired || _); [|by split]. destruct (_ && _ && _); by split.
  - unfold drain_outbound. destruct (k_outbound k); split; simpl; try done. by rewrite H0.
Qed.

Lemma controller_step_front k1 ev k2 :
  controller_step k1 ev k2 -> model_inv (k_model k1) -> front_inv k1 -> front_inv k2.
Proof.
  destruct 1; intros; [by eapply front_step_front | by eapply writer_step_front
    | by eapply watchdog_step_front | by eapply callback_step_front].
Qed.
End steps.

(** ** Blame: who may have caused an error *)

Definition blame (tr : list event) (e : lerr) : Prop :=
  match e with
  | errLivenessBudget =>
      (EvGateViolation SessionAdmissionBypass ∈ tr \/ EvGateViolation SessionControlLimit ∈ tr) /\
      exists v, EvReport v true ∈ tr
  | ErrSessionDrain => exists v, EvReport v true ∈ tr
  | errLivenessProtocol =>
      (exists packet, EvBadPacket packet ∈ tr) \/ (exists n, EvBadLength n ∈ tr) \/
      EvRandomFailed ∈ tr \/ EvGateViolation SessionControlInvalid ∈ tr
  | ErrEchoInvalid => False
  | _ => True
  end.

Lemma blame_more tr ev e : blame tr e -> blame (tr ++ ev) e.
Proof.
  destruct e; simpl; try done; setoid_rewrite elem_of_app; naive_solver.
Qed.

Lemma blame_passive tr e : passive e = true -> blame tr e.
Proof. by destruct e. Qed.

Lemma blame_gate tr v reported :
  blame (tr ++ [EvGateViolation v; EvReport v reported]) (hardViolation v reported).
Proof.
  unfold hardViolation. destruct reported; [|done].
  assert (R : EvReport v true ∈ tr ++ [EvGateViolation v; EvReport v true])
    by (rewrite elem_of_app; set_solver).
  destruct v; simpl; eauto; (split; [|by eauto]) || (right; right; right); set_solver.
Qed.

Definition blame_opt (tr : list event) (err : option lerr) : Prop :=
  match err with Some e => blame tr e | None => True end.

Record ends_inv (tr : list event) (k : controller) : Prop := {
  en_terminal : blame_opt tr (m_terminal (k_model k));
  en_front : match k_front k with
    | FEnd err _ | FCloseEnd err | FDrainFailEnd err => blame_opt tr err
    | FViolation v => v = SessionAdmissionBypass /\ blame tr errLivenessBudget
    | _ => True end;
  en_writer : match k_writer k with
    | WEnd err => blame_opt tr err
    | WViolation v => v = SessionWriterFailure \/
        (v = SessionAdmissionBypass /\ blame tr errLivenessBudget)
    | _ => True end;
  en_watchdog : match k_watchdog k with DEnd err => blame_opt tr err | _ => True end;
}.

Lemma blame_opt_more tr ev err : blame_opt tr err -> blame_opt (tr ++ ev) err.
Proof. destruct err; [apply blame_more | done]. Qed.

Lemma ends_more tr ev k : ends_inv tr k -> ends_inv (tr ++ ev) k.
Proof.
  intros [E1 E2 E3 E4]. split; try (by apply blame_opt_more).
  - destruct (k_front k); try done; try (by apply blame_opt_more). destruct E2. split; [done|].
    by apply blame_more.
  - destruct (k_writer k); try done; try (by apply blame_opt_more).
    destruct E3 as [|[]]; [by left | right; split; [done | by apply blame_more]].
  - destruct (k_watchdog k); try done; by apply blame_opt_more.
Qed.

Section blame.
Context {H : Sha256}.

(** Elementary changes keep the terminal error blamed. *)
Lemma change_blame tr m ev m' :
  change (blame tr) m ev m' -> blame_opt tr (m_terminal m) -> blame_opt (tr ++ ev) (m_terminal m').
Proof.
  destruct 1; intros B; try (by apply blame_opt_more).
  - rewrite app_nil_r. destruct (q_terminal _ _ H0) as [->|(e & _ & -> & Hp)]; [done|].
    by apply blame_passive.
  - left. exists packet. rewrite elem_of_app, list_elem_of_singleton. by right.
  - rewrite app_nil_r. unfold end_locked.
    destruct (m_terminal m) eqn:E, err; simpl in *; rewrite ?E; auto.
  - unfold end_locked. destruct (m_terminal m) eqn:E; simpl in *; rewrite ?E; [by apply blame_more | apply blame_gate].
  - unfold count_admit. destruct (kind =? livenessPing); by apply blame_opt_more.
Qed.

Lemma change_mono (P Q : lerr -> Prop) m ev m' :
  (forall e, P e -> Q e) -> change P m ev m' -> change Q m ev m'.
Proof.
  intros HPQ C. destruct C; try (apply ch_end; destruct err; by auto);
    first [by apply ch_quiet | by apply ch_protocol | by apply ch_gate | by apply ch_note
      | by apply ch_count | by apply ch_slot | by apply ch_sequence | by apply ch_trim
      | by apply ch_admit | by apply ch_place | by apply ch_pending | by eapply ch_pong
      | by apply ch_peerHigh | by eapply ch_free | by apply ch_write | by apply ch_inject
      | by apply ch_clock | by apply ch_endwrite | by apply ch_clear | by apply ch_empty].
Qed.

Lemma changes_mono (P Q : lerr -> Prop) m ev m' :
  (forall e, P e -> Q e) -> changes P m ev m' -> changes Q m ev m'.
Proof.
  intros HPQ. induction 1; [constructor|]. econstructor; [by eapply change_mono|done].
Qed.

Lemma changes_blame (P : lerr -> Prop) tr m ev m' :
  (forall e, P e -> blame tr e) -> changes P m ev m' -> blame_opt tr (m_terminal m) ->
  blame_opt (tr ++ ev) (m_terminal m').
Proof.
  intros Hb C. revert tr Hb.
  induction C as [m|m ev m1 evs m2 C1 C2 IH]; intros tr Hb B; [by rewrite app_nil_r|].
  rewrite app_assoc. apply IH; [intros e ?; by apply blame_more, Hb|].
  eapply change_blame; [|done]. by eapply change_mono.
Qed.
End blame.

(** ** Transitions as changes *)

Lemma sequence_range m s :
  model_inv m -> s = m_sequence m /\ s <> 0 /\ m_pending m = None -> 0 <= s < 2 ^ 64.
Proof.
  intros I [-> _]. destruct (mi_slot _ I) as (k & _ & ? & ?).
  pose proof (mi_absUntil _ I). destruct (model_inv_budget _ I) as (? & ? & _).
  unfold livenessInterval, Second, Millisecond in *. lia.
Qed.

Lemma window_stops w m b e :
  (windowExpiredLocked w m).2 = (b, Some e) -> e = errLivenessClock.
Proof.
  unfold windowExpiredLocked, eventAgeLocked.
  destruct (clock_age (m_clock m) (ew_sent w)) as [a|x] eqn:E1.
  - destruct (clock_age (m_clock m) (ew_proofSent w)) as [a'|x'] eqn:E2; [done|].
    apply clock_age_err in E2 as ->. naive_solver.
  - apply clock_age_err in E1 as ->. naive_solver.
Qed.

Section transitions.
Context {H : Sha256}.
Variable P : lerr -> Prop.

Lemma discard_changes e m : changes P m [] (discard e m).
Proof.
  unfold discard. destruct (slot_of e (m_intents m)) as [i|] eqn:Hi; [|apply chs_nil].
  eapply changes_then; [by apply (ch_free _ e i)|]. eapply changes_then; [apply (ch_clear _ e)|].
  by apply changes_one, ch_count.
Qed.

Lemma endWrite_changes b m : changes P m [] (endWrite b m).
Proof.
  unfold endWrite. eapply changes_then; [apply ch_endwrite|].
  destruct b; [by apply changes_one, ch_count | apply chs_nil].
Qed.

Lemma fold_clear_changes l m :
  changes P m []
    (fold_left (fun m e => match e with Some id => clear_packet id m | None => m end) l m).
Proof.
  revert m. induction l as [|[e|] l IH]; intros m; simpl; [apply chs_nil| |apply IH].
  eapply changes_then; [apply (ch_clear _ e) | apply IH].
Qed.

Lemma permit_changes available r m : changes P m [] (permit available r m).1.
Proof. apply changes_quiet, permit_quiet. Qed.

Lemma report_changes v reported m : changes P m [EvReport v reported] m.
Proof. apply changes_one, ch_note. eauto. Qed.

Lemma eventAge_changes s m : changes P m [] (eventAgeLocked s m).1.
Proof.
  unfold eventAgeLocked. destruct (clock_age (m_clock m) s) as [a|e] eqn:E; [apply chs_nil|].
  apply clock_age_err in E as ->. apply changes_one, ch_clock.
Qed.

Lemma window_changes w m : changes P m [] (windowExpiredLocked w m).1.
Proof.
  unfold windowExpiredLocked. pose proof (eventAge_changes (ew_sent w) m) as C1.
  destruct (eventAgeLocked (ew_sent w) m) as [m1 [a|x]]; [|done]. simpl in C1.
  pose proof (eventAge_changes (ew_proofSent w) m1) as C2.
  destruct (eventAgeLocked (ew_proofSent w) m1) as [m2 o]. simpl in *.
  by apply (changes_app _ _ [] m1).
Qed.

Lemma front_step_changes k1 ev k2 :
  front_step k1 ev k2 -> model_inv (k_model k1) -> front_inv k1 ->
  (forall err, match k_front k1 with
     | FEnd e _ | FCloseEnd e | FDrainFailEnd e => e = Some err | _ => False end -> P err) ->
  changes P (k_model k1) ev (k_model k2).
Proof.
  destruct 1; intros I F HP; pose proof (fi_front _ F) as Ff;
    try match goal with E : k_front _ = _ |- _ => rewrite E in HP, Ff end; simpl;
    try (apply chs_nil); try (apply report_changes);
    try (apply changes_one, ch_end; first [done | destruct err; [by apply HP | done]]);
    try match goal with E : permit ?a ?r ?m = _ |- _ =>
      pose proof (permit_changes a r m) as C; rewrite E in C; simpl in C end; try done.
  - unfold front_permit. pose proof (permit_changes available r (k_model k)) as C.
    by destruct (permit available r (k_model k)) as [m [x|]].
  - unfold front_event. destruct (_ && _); [by destruct (parseEchoPacket _ _ _ _)|].
    destruct (Z.eqb_spec length livenessPacketSize); simpl; [done|].
    apply (changes_app _ _ [] m); [done|]. apply changes_one, ch_note. eauto.
  - unfold front_receive. destruct (receive r packet (k_model k)) as [m o] eqn:E.
    pose proof (receive_changes P r packet _ _ _ I Ff E) as C. destruct o; [done | apply C].
  - unfold front_tick. destruct (preparePing r (k_model k)) as [m o] eqn:E.
    destruct (preparePing_changes P r _ _ _ I E) as [C _]. destruct o as [s|]; [|done].
    by destruct (s =? 0).
  - unfold front_ping. destruct nonce as [nonce|].
    + destruct (ping r sequence nonce (k_model k)) as [m o] eqn:E.
      assert (Hseq : 0 <= sequence < 2 ^ 64) by (by eapply sequence_range).
      pose proof (ping_changes P r sequence nonce _ _ _ I H1 Hseq E) as C.
      destruct o as [e|x]; [done|]. destruct C as [C _]. simpl. by case_bool_decide.
    + simpl. apply changes_one, ch_note. by left.
  - apply discard_changes.
  - unfold close_permit. pose proof (permit_changes available r (k_model k)) as C.
    by destruct (permit available r (k_model k)) as [m [x|]].
  - unfold close_build. destruct nonce as [nonce|]; [|apply chs_nil].
    destruct (buildEchoPacket _ _ _) as [packet|] eqn:Eb; [|apply chs_nil].
    destruct (check_then r (k_model k)) as (m1 & [x|] & -> & Q & Fr);
      [by apply changes_quiet|].
    destruct (free_slot (m_intents m1)) as [i|] eqn:Hi; [|by apply changes_quiet].
    simpl. rewrite lookup_insert_eq. simpl. eapply changes_then; [by apply ch_quiet|].
    eapply changes_after; [|by apply ch_count]. apply changes_one.
    apply (ch_place P i packet true m1); try done. right. exists nonce.
    by rewrite (q_binding _ _ Q).
  - unfold close_permit. pose proof (permit_changes available r (k_model k)) as C.
    by destruct (permit available r (k_model k)) as [m [x|]].
  - unfold close_check. pose proof (window_changes (emission_window e (k_model k)) (k_model k)) as C.
    destruct (windowExpiredLocked _ _) as [m [expired err]].
    destruct (expired || _); [|done]. by destruct (_ && _ && _).
  - unfold drain_outbound. destruct (k_outbound k); [apply chs_nil | apply discard_changes].
  - eapply changes_after; [|by apply ch_count]. eapply changes_after; [|apply ch_empty].
    apply fold_clear_changes.
Qed.

Lemma writer_step_changes k1 ev k2 :
  writer_step k1 ev k2 -> slots_inv k1 ->
  (forall err, match k_writer k1 with WEnd e => e = Some err | _ => False end -> P err) ->
  changes P (k_model k1) ev (k_model k2).
Proof.
  destruct 1; intros S HP;
    match goal with E : k_writer _ = _ |- _ => rewrite E in HP end; simpl;
    try (apply chs_nil); try (apply report_changes);
    try (apply changes_one, ch_end; destruct err; [by apply HP | done]);
    try (by apply changes_one, ch_count); try (apply changes_one, ch_clear);
    try match goal with E : permit ?a ?r ?m = _ |- _ =>
      pose proof (permit_changes a r m) as C; rewrite E in C; simpl in C end; try done.
  - unfold slots_inv, queue in S. rewrite H0 in S. simpl in S.
    eapply slots_perm in S; [|apply held_last].
    pose proof (slot_registered _ _ _ _ _ S) as Hr.
    assert (Hw : m_writing (k_model k) = None).
    { apply eq_None_not_Some. intros Hx. by apply (so_writing _ _ _ _ S) in Hx. }
    assert (Hh : is_Some (m_heap (k_model k) !! e)).
    { apply (so_heap _ _ _ _ S), S. by left. }
    unfold writer_begin. destruct (beginWrite r e (k_model k)) as [m o] eqn:E.
    pose proof (beginWrite_changes P r e _ _ _ Hr Hw Hh E) as C.
    destruct o as [[]|x]; simpl; [apply C | |].
    + eapply changes_after; [apply C | apply ch_clear].
    + destruct C as [C _]. by case_bool_decide.
  - apply changes_one, ch_inject.
  - apply endWrite_changes.
Qed.

Lemma watchdog_step_changes k1 ev k2 :
  watchdog_step k1 ev k2 ->
  (forall err, match k_watchdog k1 with DEnd e => e = Some err | _ => False end -> P err) ->
  changes P (k_model k1) ev (k_model k2).
Proof.
  destruct 1; intros HP;
    match goal with E : k_watchdog _ = _ |- _ => rewrite E in HP end; simpl;
    try (apply chs_nil); try (apply report_changes);
    try (apply changes_one, ch_end; destruct err; [by apply HP | done]);
    try match goal with E : permit ?a ?r ?m = _ |- _ =>
      pose proof (permit_changes a r m) as C; rewrite E in C; simpl in C end; try done.
  unfold watchdog_check. destruct (m_writing (k_model k)) as [w|]; [|apply chs_nil].
  pose proof (window_changes w (k_model k)) as C.
  by destruct (windowExpiredLocked w (k_model k)) as [m [[] [x|]]].
Qed.

Lemma callback_step_changes k1 ev k2 :
  callback_step k1 ev k2 -> changes P (k_model k1) ev (k_model k2).
Proof.
  destruct 1; simpl; try (apply chs_nil).
  - unfold push_inbound. case_bool_decide; apply chs_nil.
  - apply permit_changes.
  - apply changes_one, ch_gate.
Qed.
End transitions.

(** ** The invariant of a run *)

Lemma stops_blame tr m e : stops m e -> blame_opt tr (m_terminal m) -> blame tr e.
Proof. intros [E| ->]; [by rewrite E | done]. Qed.

Section session.
Context {H : Sha256}.

(** The foreground ends the session only with a blamed error. *)
Definition front_blamed (tr : list event) (f : front_phase) : Prop :=
  match f with
  | FEnd err _ | FCloseEnd err | FDrainFailEnd err => blame_opt tr err
  | FViolation v => v = SessionAdmissionBypass /\ blame tr errLivenessBudget
  | _ => True
  end.

Lemma permit_blame tr available r m e :
  (permit available r m).2 = Some e -> blame_opt tr (m_terminal (permit available r m).1) ->
  blame tr e.
Proof.
  intros E B. destruct (permit_stops available r m e E); [by eapply stops_blame|].
  by apply blame_passive.
Qed.

Lemma hardViolation_blame tr v reported :
  (v = SessionAdmissionBypass -> blame tr errLivenessBudget) ->
  v = SessionAdmissionBypass \/ v = SessionWriterFailure \/ v = SessionDrainFailure ->
  blame (tr ++ [EvReport v reported]) (hardViolation v reported).
Proof.
  intros Hb Hv. unfold hardViolation. destruct reported; [|done].
  assert (R : EvReport v true ∈ tr ++ [EvReport v true]) by (rewrite elem_of_app; set_solver).
  destruct Hv as [->|[->| ->]]; simpl; [apply (blame_more _ _ errLivenessBudget), Hb; done|eauto..].
Qed.

Lemma front_step_blamed tr k1 ev k2 :
  front_step k1 ev k2 -> model_inv (k_model k1) -> front_inv k1 ->
  front_blamed tr (k_front k1) -> blame_opt (tr ++ ev) (m_terminal (k_model k2)) ->
  front_blamed (tr ++ ev) (k_front k2).
Proof.
  destruct 1; intros I F B T; pose proof (fi_front _ F) as Ff;
    try match goal with E : k_front _ = _ |- _ => rewrite E in B, Ff end; simpl in *; try done;
    try match goal with E : permit ?a ?r ?m = (?m', Some ?e) |- _ =>
      pose proof (permit_blame (tr ++ []) a r m e) as C; rewrite E in C; simpl in C; auto; fail end.
  - unfold front_permit in *. pose proof (permit_blame (tr ++ []) available r (k_model k)) as C.
    destruct (permit available r (k_model k)) as [m [x|]]; simpl in *; auto.
  - by destruct H1 as [-> | ->].
  - unfold front_event. destruct (_ && _); [by destruct (parseEchoPacket _ _ _ _)|].
    destruct (negb _); [|done]. simpl. right. left. exists length.
    rewrite elem_of_app, list_elem_of_singleton. by right.
  - unfold front_receive in *. destruct (receive r packet (k_model k)) as [m o] eqn:E.
    pose proof (receive_changes (fun _ => True) r packet _ _ _ I Ff E) as C.
    destruct o as [[e|]|x]; simpl in *; [done..|]. destruct C as [_ C]. by eapply stops_blame.
  - unfold front_tick in *. destruct (preparePing r (k_model k)) as [m o] eqn:E.
    destruct (preparePing_changes (fun _ => True) r _ _ _ I E) as [_ C].
    destruct o as [s|x]; simpl in *; [by destruct (s =? 0) | by eapply stops_blame].
  - unfold front_ping in *. destruct nonce as [nonce|]; simpl in *.
    + destruct (ping r sequence nonce (k_model k)) as [m o] eqn:E.
      assert (Hseq : 0 <= sequence < 2 ^ 64) by (by eapply sequence_range).
      pose proof (ping_changes (fun _ => True) r sequence nonce _ _ _ I H1 Hseq E) as C.
      destruct o as [[e|]|x]; simpl in *; [done..|]. destruct C as [_ [C|[-> C]]].
      * case_bool_decide as Ex; simpl in *; [subst; split; [done|]|]; exact (stops_blame _ _ _ C T).
      * destruct C. naive_solver.
    + right. right. left. rewrite elem_of_app, list_elem_of_singleton. by right.
  - by destruct next.
  - by destruct next.
  - destruct B as [-> B]. apply hardViolation_blame; solve [done | auto].
  - unfold close_permit in *. by destruct (permit available r (k_model k)) as [m [x|]].
  - unfold close_build in *. destruct nonce as [nonce|]; [|done].
    destruct (buildEchoPacket _ _ _); [|done].
    destruct (checkLocked r (k_model k)) as [m [x|]]; [done|]. by destruct (free_slot _).
  - unfold close_permit in *. by destruct (permit available r (k_model k)) as [m [x|]].
  - unfold close_check in *. destruct (windowExpiredLocked _ _) as [m [expired err]].
    destruct (expired || _); [|done]. by destruct (_ && _ && _).
  - apply hardViolation_blame; solve [done | auto].
  - apply hardViolation_blame; solve [done | auto].
  - unfold drain_outbound. destruct (k_outbound k); [done|]. simpl. by rewrite H0.
Qed.

Definition writer_blamed (tr : list event) (w : writer_phase) : Prop :=
  match w with
  | WEnd err => blame_opt tr err
  | WViolation v => v = SessionWriterFailure \/
      (v = SessionAdmissionBypass /\ blame tr errLivenessBudget)
  | _ => True
  end.

Lemma writer_step_blamed tr k1 ev k2 :
  writer_step k1 ev k2 -> slots_inv k1 -> writer_blamed tr (k_writer k1) ->
  blame_opt (tr ++ ev) (m_terminal (k_model k2)) -> writer_blamed (tr ++ ev) (k_writer k2).
Proof.
  destruct 1; intros S B T;
    match goal with E : k_writer _ = _ |- _ => rewrite E in B end; simpl in *; try done;
    try match goal with E : permit ?a ?r ?m = (?m', Some ?e) |- _ =>
      pose proof (permit_blame (tr ++ []) a r m e) as C; rewrite E in C; simpl in C; auto; fail end.
  - unfold writer_begin in *. unfold slots_inv, queue in S. rewrite H0 in S. simpl in S.
    eapply slots_perm in S; [|apply held_last]. pose proof (slot_registered _ _ _ _ _ S) as Hr.
    assert (Hw : m_writing (k_model k) = None).
    { apply eq_None_not_Some. intros Hx. by apply (so_writing _ _ _ _ S) in Hx. }
    assert (Hh : is_Some (m_heap (k_model k) !! e)).
    { apply (so_heap _ _ _ _ S), S. by left. }
    destruct (beginWrite r e (k_model k)) as [m o] eqn:E.
    pose proof (beginWrite_changes (fun _ => True) r e _ _ _ Hr Hw Hh E) as C.
    destruct o as [[]|x]; simpl in *; [done..|]. destruct C as [_ C].
    case_bool_decide; simpl in *; [subst; right; split; [done|]|]; exact (stops_blame _ _ _ C T).
  - by destruct (ok && emission_teardown e (k_model k)).
  - by destruct ok.
  - by left.
  - destruct B as [->|[-> B]].
    + apply hardViolation_blame; solve [done | auto].
    + apply hardViolation_blame; solve [done | auto].
Qed.

Lemma watchdog_step_blamed tr k1 ev k2 :
  watchdog_step k1 ev k2 ->
  match k_watchdog k1 with DEnd err => blame_opt tr err | _ => True end ->
  blame_opt (tr ++ ev) (m_terminal (k_model k2)) ->
  match k_watchdog k2 with DEnd err => blame_opt (tr ++ ev) err | _ => True end.
Proof.
  destruct 1; intros B T;
    match goal with E : k_watchdog _ = _ |- _ => rewrite E in B end; simpl in *; try done;
    try match goal with E : permit ?a ?r ?m = (?m', Some ?e) |- _ =>
      pose proof (permit_blame (tr ++ []) a r m e) as C; rewrite E in C; simpl in C; auto; fail end.
  - unfold watchdog_check. destruct (m_writing (k_model k)) as [w|]; [|done].
    pose proof (window_stops w (k_model k)) as C.
    destruct (windowExpiredLocked w (k_model k)) as [m [[] [x|]]]; simpl in *; try done;
      by rewrite (C _ _ eq_refl).
  - apply hardViolation_blame; solve [done | auto].
Qed.

Record session_inv (tr : list event) (k : controller) : Prop := {
  si_model : model_inv (k_model k);
  si_stage : stage_inv k;
  si_slots : slots_inv k;
  si_front : front_inv k;
  si_ends : ends_inv tr k;
}.

(** What the other goroutines are about to do does not change. *)
Lemma front_step_others k1 ev k2 :
  front_step k1 ev k2 -> k_writer k2 = k_writer k1 /\ k_watchdog k2 = k_watchdog k1.
Proof.
  destruct 1; try done.
  - unfold front_permit. by destruct (permit _ _ _) as [? [?|]].
  - unfold front_event. destruct (_ && _); [by destruct (parseEchoPacket _ _ _ _)|].
    by destruct (negb _).
  - destruct (front_receive_moves r packet k); done.
  - destruct (front_tick_moves r k); done.
  - destruct (front_ping_moves r sequence nonce k); done.
  - destruct (close_permit_moves available r FCloseBuild k); done.
  - destruct (close_build_moves r nonce k); done.
  - destruct (close_permit_moves available r (FCloseCheck e) k); done.
  - destruct (close_check_moves e k); done.
  - unfold drain_outbound. by destruct (k_outbound k).
Qed.

Lemma writer_step_others k1 ev k2 :
  writer_step k1 ev k2 -> k_front k2 = k_front k1 /\ k_watchdog k2 = k_watchdog k1.
Proof.
  destruct 1; try done. unfold writer_begin.
  destruct (beginWrite r e (k_model k)) as [m [[]|x]]; try done. simpl. by case_bool_decide.
Qed.

Lemma watchdog_step_others k1 ev k2 :
  watchdog_step k1 ev k2 -> k_front k2 = k_front k1 /\ k_writer k2 = k_writer k1.
Proof.
  destruct 1; try done. unfold watchdog_check. destruct (m_writing (k_model k)); [|done].
  by destruct (windowExpiredLocked _ _) as [m [[] [x|]]].
Qed.

Lemma callback_step_others k1 ev k2 :
  callback_step k1 ev k2 ->
  k_front k2 = k_front k1 /\ k_writer k2 = k_writer k1 /\ k_watchdog k2 = k_watchdog k1.
Proof. destruct 1; try done. unfold push_inbound. by case_bool_decide. Qed.

(** Every transition is a sequence of elementary changes. *)
Lemma step_changes tr k ev k' :
  controller_step k ev k' -> session_inv tr k -> changes (blame tr) (k_model k) ev (k_model k').
Proof.
  intros St [I _ S F [E1 E2 E3 E4]]. destruct St.
  - eapply front_step_changes; try done. intros err.
    destruct (k_front k); try done; by intros ->.
  - eapply writer_step_changes; try done. intros err. destruct (k_writer k); try done; by intros ->.
  - eapply watchdog_step_changes; try done. intros err.
    destruct (k_watchdog k); try done; by intros ->.
  - by apply callback_step_changes.
Qed.

Lemma step_ends tr k ev k' :
  controller_step k ev k' -> session_inv tr k -> ends_inv (tr ++ ev) k'.
Proof.
  intros St Inv. pose proof (step_changes tr k ev k' St Inv) as C.
  destruct Inv as [I _ S F E]. pose proof (ends_more tr ev k E) as [_ M2 M3 M4].
  assert (T : blame_opt (tr ++ ev) (m_terminal (k_model k'))).
  { eapply changes_blame; [|exact C|apply E]; done. }
  destruct E as [_ E2 E3 E4]. destruct St as [St|St|St|St].
  - destruct (front_step_others _ _ _ St) as [Ew Ed]. split; rewrite ?Ew, ?Ed; try done.
    exact (front_step_blamed tr _ _ _ St I F E2 T).
  - destruct (writer_step_others _ _ _ St) as [Ef Ed]. split; rewrite ?Ef, ?Ed; try done.
    exact (writer_step_blamed tr _ _ _ St S E3 T).
  - destruct (watchdog_step_others _ _ _ St) as [Ef Ew]. split; rewrite ?Ef, ?Ew; try done.
    exact (watchdog_step_blamed tr _ _ _ St E4 T).
  - destruct (callback_step_others _ _ _ St) as (Ef & Ew & Ed).
    split; rewrite ?Ef, ?Ew, ?Ed; done.
Qed.

Lemma step_session tr k ev k' :
  controller_step k ev k' -> session_inv tr k -> session_inv (tr ++ ev) k'.
Proof.
  intros St Inv. pose proof (step_ends tr k ev k' St Inv) as E.
  pose proof (step_changes tr k ev k' St Inv) as C. destruct Inv as [I T S F _].
  split; try done; [by eapply changes_inv | by eapply controller_step_stage
    | by eapply controller_step_slots | by eapply controller_step_front].
Qed.

(** ** The first state *)

Lemma newLivenessModel_inv ceiling rounds budget binding r absolute m :
  freezeLivenessBudget ceiling rounds = Ok budget ->
  newLivenessModel binding budget r absolute = Ok m ->
  model_inv m /\ m_intents m = [None; None; None] /\ m_heap m = ∅ /\ m_next m = O /\
  m_writing m = None /\ m_terminal m = None /\ m_pending m = None /\ m_window m = [] /\
  m_closed m = false /\ w_AdmissionBypass (m_witness m) = 0 /\ m_binding m = binding /\
  li_mono (m_proofSent m) = 0.
Proof.
  intros Hb. unfold newLivenessModel, newLivenessClock. destruct r as [r|]; [|done].
  destruct (_ || _) eqn:Hr; [done|]. simpl.
  apply orb_false_iff in Hr as [Hr _]. apply Z.ltb_ge in Hr.
  destruct (_ || _ || _ || _) eqn:Hg; [done|]. intros [= <-].
  rewrite !orb_false_iff, negb_false_iff, Z.leb_gt, Z.ltb_ge in Hg. destruct_and!.
  split; [|simpl; split_and!; try done; lia].
  pose proof (freezeLivenessBudget_spec _ _ _ Hb). destruct_and!.
  split; simpl; try done; try lia.
  - eauto.
  - exists 0. unfold livenessInterval. lia.
Qed.

Lemma arm_inv wired available r armed tapped m k :
  armLiveness wired available r armed tapped m = Ok k ->
  model_inv m -> m_intents m = [None; None; None] -> m_heap m = ∅ -> m_writing m = None ->
  m_terminal m = None -> session_inv [] k /\ quiet m (k_model k).
Proof.
  intros Ha I E1 E2 E3 E4. unfold armLiveness in Ha. destruct wired; [|done]. simpl in Ha.
  pose proof (permit_quiet available r m) as Q. destruct (permit available r m) as [m1 [x|]]; [done|].
  destruct (negb armed); [done|]. destruct (negb tapped); [done|]. injection Ha as <-.
  simpl in *. split; [|done]. split; simpl.
  - by eapply quiet_inv.
  - split; simpl; try done.
  - unfold slots_inv, queue. simpl.
    split; rewrite ?(q_intents _ _ Q), ?(q_heap _ _ Q), ?(q_writing _ _ Q), ?E1, ?E2, ?E3;
      try done.
    + constructor.
    + by intros e ?%not_elem_of_nil.
    + intros i j e Hi%list_elem_of_lookup_2. set_solver.
    + intros e He. set_solver.
    + intros e [y Hy]. by rewrite lookup_empty in Hy.
    + by intros e ?%not_elem_of_nil.
  - split; simpl; try done.
  - split; simpl; try done. destruct (q_terminal _ _ Q) as [->|(e & _ & -> & He)]; [by rewrite E4|].
    by apply blame_passive.
Qed.

Lemma session_run_inv tr k : session_run tr k -> session_inv tr k.
Proof.
  induction 1 as [ceiling rounds budget binding r0 absolute m wired available r armed tapped k Hb Hm Ha
    |tr k ev k' _ IH St]; [|by eapply step_session].
  destruct (newLivenessModel_inv _ _ _ _ _ _ _ Hb Hm) as (I & E1 & E2 & _ & E3 & E4 & _).
  by apply (arm_inv _ _ _ _ _ _ _ Ha I E1 E2 E3 E4).
Qed.

(** Induction over a run, through the elementary changes of its model. *)
Lemma session_run_ind_changes (Q : list event -> livenessModel -> Prop) :
  (forall binding budget r0 absolute m m' ceiling rounds,
     freezeLivenessBudget ceiling rounds = Ok budget ->
     newLivenessModel binding budget r0 absolute = Ok m -> quiet m m' -> Q [] m') ->
  (forall P tr m ev m', change P m ev m' -> model_inv m -> Q tr m -> Q (tr ++ ev) m') ->
  forall tr k, session_run tr k -> Q tr (k_model k).
Proof.
  intros Hinit Hstep tr k Hrun.
  induction Hrun as [ceiling rounds budget binding r0 absolute m wired available r armed tapped k Hb Hm Ha
    |tr k ev k' Hrun IH St].
  - destruct (newLivenessModel_inv _ _ _ _ _ _ _ Hb Hm) as (I & E1 & E2 & _ & E3 & E4 & _).
    eapply Hinit; [done|done|]. apply (arm_inv _ _ _ _ _ _ _ Ha I E1 E2 E3 E4).
  - pose proof (session_run_inv tr k Hrun) as Inv.
    pose proof (step_changes tr k ev k' St Inv) as C.
    pose proof (si_model _ _ Inv) as I. clear -Hstep C I IH. revert C I IH. generalize (blame tr).
    intros P C. revert tr. induction C as [m|m ev m1 evs m2 C1 C2 IHc]; intros tr I IH.
    + by rewrite app_nil_r.
    + rewrite app_assoc. apply IHc; [by eapply change_inv|]. by eapply Hstep.
Qed.
End session.
