(* ===== verification/LivenessThms.v ===== *)
(** * What a session of the liveness controller guarantees

    The theorems hold for every interleaving of the foreground, the writer, the
    watchdog, the decrypt callback and the gate's callbacks, and for any
    readings of the two clocks. *)
From S2P Require Import Prelude GoStd LivenessWire LivenessWireThms Liveness LivenessInv LivenessController LivenessChanges LivenessPhases LivenessTrace.

#[local] Opaque parseLivenessPacket buildLivenessPacket parseEchoPacket buildEchoPacket.

(** ** Rate of admissions *)

(** The monotonic times of the admissions of a trace, and how many of them were
    of one kind. *)
Definition admissions (tr : list event) : list Z :=
  omap (fun ev => match ev with EvAdmit _ t => Some t | _ => None end) tr.
Definition admitted_kind (kind : Z) (tr : list event) : Z :=
  Z.of_nat (length
    (List.filter (fun ev => match ev with EvAdmit k _ => k =? kind | _ => false end) tr)).

Definition ascending (l : list Z) : Prop :=
  forall i j t u, (i <= j)%nat -> l !! i = Some t -> l !! j = Some u -> t <= u.

(** Five consecutive admissions span an interval. *)
Definition spaced (l : list Z) : Prop :=
  forall i t u, l !! i = Some t -> l !! (i + 4)%nat = Some u -> livenessInterval <= u - t.

(** On an ascending list the trimmed window is a suffix. *)
Lemma young_suffix now l :
  ascending l ->
  exists old, l = old ++ List.filter (fun t => now - t <? livenessInterval) l /\
    Forall (fun t => livenessInterval <= now - t) old.
Proof.
  induction l as [|x l IH]; intros Ha; [by exists []|].
  assert (Hl : ascending l).
  { intros i j t u Hij Hi Hj. by apply (Ha (S i) (S j)); [lia|..]. }
  simpl. destruct (Z.ltb_spec (now - x) livenessInterval) as [Hx|Hx].
  - exists []. split; [|done]. simpl. f_equal. symmetry.
    rewrite forallb_filter_id; [done|]. apply forallb_forall. intros t Ht.
    apply Z.ltb_lt. apply list_elem_of_In, list_elem_of_lookup in Ht as [j Hj].
    assert (x <= t) by (by apply (Ha O (S j)); [lia|..]). lia.
  - destruct (IH Hl) as (old & E & Ho). exists (x :: old). split; [by rewrite E at 1|].
    by constructor.
Qed.

Lemma ascending_suffix old l : ascending (old ++ l) -> ascending l.
Proof.
  intros Ha i j t u Hij Hi Hj.
  assert (Hs : forall n, (old ++ l) !! (length old + n)%nat = l !! n).
  { intros n. rewrite lookup_app_r by lia. f_equal. lia. }
  apply (Ha (length old + i)%nat (length old + j)%nat); [lia|by rewrite Hs..].
Qed.

Record rate_inv (tr : list event) (m : livenessModel) : Prop := {
  ri_log : exists old, admissions tr = old ++ m_window m /\
    Forall (fun t => livenessInterval <= mono_now m - t) old;
  ri_now : Forall (fun t => t <= mono_now m) (admissions tr);
  ri_ascending : ascending (admissions tr);
  ri_spaced : spaced (admissions tr);
  ri_pings : w_PingAdmitted (m_witness m) = admitted_kind livenessPing tr;
  ri_pongs : w_PongAdmitted (m_witness m) = admitted_kind livenessPong tr;
}.

Lemma admissions_app tr ev : admissions (tr ++ ev) = admissions tr ++ admissions ev.
Proof. apply omap_app. Qed.

Lemma admitted_kind_app kind tr ev :
  admitted_kind kind (tr ++ ev) = admitted_kind kind tr + admitted_kind kind ev.
Proof. unfold admitted_kind. rewrite List.filter_app, length_app. lia. Qed.

(** A change that admits nothing. *)
Lemma rate_same tr ev m m' :
  admissions ev = [] -> admitted_kind livenessPing ev = 0 -> admitted_kind livenessPong ev = 0 ->
  m_window m' = m_window m -> mono_now m <= mono_now m' ->
  w_PingAdmitted (m_witness m') = w_PingAdmitted (m_witness m) ->
  w_PongAdmitted (m_witness m') = w_PongAdmitted (m_witness m) ->
  rate_inv tr m -> rate_inv (tr ++ ev) m'.
Proof.
  intros Ha Hp Hq Hw Hn E1 E2 [(old & L1 & L2) R2 R3 R4 R5 R6].
  split; rewrite ?admissions_app, ?admitted_kind_app, ?Ha, ?app_nil_r, ?Hp, ?Hq, ?Hw, ?E1, ?E2;
    try done; try lia.
  - exists old. split; [done|]. eapply Forall_impl; [exact L2|]. simpl. lia.
  - eapply Forall_impl; [exact R2|]. simpl. lia.
Qed.

Lemma rate_trim tr m : rate_inv tr m -> rate_inv (tr ++ []) (set_m_window (kept_window m) m).
Proof.
  intros [(old & L1 & L2) R2 R3 R4 R5 R6]. rewrite app_nil_r.
  assert (Hw : ascending (m_window m)) by (rewrite L1 in R3; by eapply ascending_suffix).
  destruct (young_suffix (mono_now m) (m_window m) Hw) as (d & Ed & Hd).
  split; try done. exists (old ++ d). split; [|by apply Forall_app].
  rewrite L1, Ed at 1. by rewrite app_assoc.
Qed.

Lemma rate_admit tr kind m :
  kind = livenessPing \/ kind = livenessPong -> m_window m = kept_window m ->
  admit_full kind m = false -> model_inv m -> rate_inv tr m ->
  rate_inv (tr ++ [EvAdmit kind (mono_now m)])
    (count_admit kind (set_m_window (m_window m ++ [mono_now m]) m)).
Proof.
  intros Hk Hw Hf I [(old & L1 & L2) R2 R3 R4 R5 R6].
  unfold admit_full in Hf. rewrite !orb_false_iff, Z.eqb_neq in Hf. destruct Hf as [[[Hl _] _] _].
  pose proof (mi_window _ I) as Hmax. pose proof (model_inv_budget _ I) as (Hb1 & _ & Hb3 & _).
  assert (En : mono_now (count_admit kind (set_m_window (m_window m ++ [mono_now m]) m))
    = mono_now m) by (unfold count_admit; by destruct (kind =? livenessPing)).
  assert (Ew : m_window (count_admit kind (set_m_window (m_window m ++ [mono_now m]) m))
    = m_window m ++ [mono_now m]) by (unfold count_admit; by destruct (kind =? livenessPing)).
  assert (Ea : admissions (tr ++ [EvAdmit kind (mono_now m)]) = admissions tr ++ [mono_now m])
    by apply admissions_app.
  rewrite Forall_forall in R2. split; rewrite ?En, ?Ew, ?Ea.
  - exists old. split; [by rewrite L1, app_assoc | done].
  - apply Forall_app. split; [by apply Forall_forall | by repeat constructor].
  - intros i j t u Hij Hi Hj. rewrite lookup_app in Hi, Hj.
    destruct (admissions tr !! i) as [t'|] eqn:Ei, (admissions tr !! j) as [u'|] eqn:Ej;
      simplify_eq.
    + by apply (R3 i j).
    + apply list_lookup_singleton_Some in Hj as [_ <-]. by apply R2, list_elem_of_lookup_2 with i.
    + apply lookup_ge_None in Ei. apply lookup_lt_Some in Ej. lia.
    + apply list_lookup_singleton_Some in Hi as [_ <-].
      by apply list_lookup_singleton_Some in Hj as [_ <-].
  - intros i t u Hi Hj. rewrite lookup_app in Hj.
    destruct (admissions tr !! (i + 4)%nat) as [u'|] eqn:Ej; simplify_eq.
    + apply lookup_lt_Some in Ej as Hlt. rewrite lookup_app_l in Hi by lia. by apply (R4 i).
    + apply list_lookup_singleton_Some in Hj as [Hi0 <-].
      rewrite lookup_app_l in Hi by lia. rewrite L1 in Hi, Hi0. rewrite length_app in Hi0.
      rewrite lookup_app_l in Hi by lia.
      rewrite Forall_forall in L2. apply L2. by eapply list_elem_of_lookup_2.
  - rewrite admitted_kind_app, <-R5. unfold count_admit.
    pose proof (mi_pings _ I). destruct Hk as [-> | ->]; simpl; [|unfold admitted_kind; simpl; lia].
    rewrite incr_small by (unfold u64_max; lia). done.
  - rewrite admitted_kind_app, <-R6. unfold count_admit.
    pose proof (mi_pongs _ I). destruct Hk as [-> | ->]; simpl; [unfold admitted_kind; simpl; lia|].
    rewrite incr_small by (unfold u64_max; lia). done.
Qed.

Section theorems.
Context {H : Sha256}.

Lemma change_rate P tr m ev m' :
  change P m ev m' -> model_inv m -> rate_inv tr m -> rate_inv (tr ++ ev) m'.
Proof.
  intros C I R. destruct C;
    try (eapply (rate_same _ _ m); [done|done|done|done|unfold mono_now; simpl; lia|done|done|done]).
  - eapply (rate_same _ _ m); try done; try apply H0. destruct (q_clock _ _ H0).
    unfold mono_now. simpl. lia.
  - unfold end_locked. eapply (rate_same _ _ m); try done; destruct (m_terminal m), err; done.
  - unfold end_locked. eapply (rate_same _ _ m); try done; destruct (m_terminal m); done.
  - destruct H0 as [->|[(n & -> & _)|(v & b & ->)]]; by eapply (rate_same _ _ m).
  - unfold key_counters in H0. simplify_eq. eapply (rate_same _ _ m); try done; simpl; congruence.
  - by apply rate_trim.
  - by apply rate_admit.
Qed.

Lemma session_rate tr k : session_run tr k -> rate_inv tr (k_model k).
Proof.
  apply (session_run_ind_changes rate_inv); [|by eauto using change_rate].
  intros binding budget r0 absolute m m' ceiling rounds Hb Hm Q.
  assert (R : rate_inv [] m).
  { destruct (newLivenessModel_inv _ _ _ _ _ _ _ Hb Hm)
      as (I & _ & _ & _ & _ & _ & _ & Ew & _).
    unfold newLivenessModel in Hm. apply res_bind_Ok in Hm as (g & _ & Hm).
    destruct (_ || _ || _ || _); [done|]. injection Hm as <-.
    split; try done. by exists []. }
  apply (change_rate (fun _ => True) [] m [] m'); [by apply ch_quiet | | done].
  by destruct (newLivenessModel_inv _ _ _ _ _ _ _ Hb Hm).
Qed.

(** C38: A session never floods its peer.  In every run, whatever the peer and
    the clocks do, any five consecutive admissions of pings and pongs span at
    least one 20-second interval of the monotonic clock, and the admissions
    never exceed the frozen budget: one ping per interval of the ceiling, one
    pong more, and their sum. *)
Theorem liveness_rate tr k :
  session_run tr k ->
  spaced (admissions tr) /\ ascending (admissions tr) /\
  let budget := m_budget (k_model k) in
  admitted_kind livenessPing tr <= bu_pings budget /\
  admitted_kind livenessPong tr <= bu_pings budget + 1 /\
  (bu_pings budget - 1) * livenessInterval < bu_ceiling budget.
Proof.
  intros Hr. pose proof (session_rate tr k Hr) as R.
  pose proof (si_model _ _ (session_run_inv tr k Hr)) as I.
  destruct (mi_budget _ I) as (c & n & Hb). pose proof (freezeLivenessBudget_spec _ _ _ Hb).
  pose proof (mi_pings _ I). pose proof (mi_pongs _ I). destruct_and!.
  split; [apply R|]. split; [apply R|]. cbv zeta.
  rewrite <-(ri_pings _ _ R), <-(ri_pongs _ _ R). split_and!; lia.
Qed.

(** ** Proof of liveness *)

Record proof_inv (tr : list event) (m : livenessModel) : Prop := {
  pi_pending : forall p, m_pending m = Some p -> EvPing (pe_message p) (pe_sent p) ∈ tr;
  pi_proof : li_mono (m_proofSent m) = 0 \/
    exists message packet pong, EvPing message (m_proofSent m) ∈ tr /\ EvPong packet pong ∈ tr /\
      lm_sequence pong = lm_sequence message /\ lm_nonce pong = lm_nonce message;
  pi_pongs : forall packet pong, EvPong packet pong ∈ tr ->
    parseLivenessPacket packet (m_binding m) = Ok pong /\ lm_kind pong = livenessPong;
}.

Lemma proof_same tr ev m m' :
  (forall p, m_pending m' = Some p -> m_pending m = Some p \/ EvPing (pe_message p) (pe_sent p) ∈ ev) ->
  m_proofSent m' = m_proofSent m -> m_binding m' = m_binding m ->
  (forall packet pong, EvPong packet pong ∉ ev) ->
  proof_inv tr m -> proof_inv (tr ++ ev) m'.
Proof.
  intros Hp E1 E2 Hn [P1 P2 P3]. split; setoid_rewrite elem_of_app.
  - intros p [Hx|Hx]%Hp; auto.
  - rewrite E1. naive_solver.
  - rewrite E2. intros packet pong [Hx|Hx]; [by apply P3 | by destruct (Hn packet pong)].
Qed.

Lemma change_proof P tr m ev m' :
  change P m ev m' -> proof_inv tr m -> proof_inv (tr ++ ev) m'.
Proof.
  intros C R. destruct C;
    try (eapply (proof_same _ _ m); [by left|done|done|set_solver|done]);
    try (eapply (proof_same _ _ m); [done|done|done|set_solver|done]).
  - eapply (proof_same _ _ m); try apply H0; try done; [|set_solver].
    intros p Hp. destruct (q_pending _ _ H0) as [E|E]; [left|]; congruence.
  - unfold end_locked. eapply (proof_same _ _ m); try done; [|destruct (m_terminal m), err..|set_solver];
      try done. intros p. destruct (m_terminal m), err; by left.
  - unfold end_locked. eapply (proof_same _ _ m); try done; [|destruct (m_terminal m)..|set_solver];
      try done. intros p. destruct (m_terminal m); by left.
  - unfold count_admit. destruct (kind =? livenessPing);
      (eapply (proof_same _ _ m); [by left|done|done|set_solver|done]).
  - eapply (proof_same _ _ m); try done; [|set_solver].
    intros p [= <-]. right. simpl. set_solver.
  - destruct R as [P1 P2 P3]. split; simpl.
    + done.
    + right. exists (pe_message p), packet, message. setoid_rewrite elem_of_app.
      split_and!; try done; [left; by apply P1 | right; set_solver].
    + intros packet' pong [Hx|Hx]%elem_of_app; [by apply P3|].
      apply list_elem_of_singleton in Hx. by simplify_eq.
Qed.

Lemma session_proof tr k : session_run tr k -> proof_inv tr (k_model k).
Proof.
  apply (session_run_ind_changes proof_inv); [|by eauto using change_proof].
  intros binding budget r0 absolute m m' ceiling rounds Hb Hm Q.
  destruct (newLivenessModel_inv _ _ _ _ _ _ _ Hb Hm)
    as (_ & _ & _ & _ & _ & _ & Ep & _ & _ & _ & _ & Eo).
  apply (change_proof (fun _ => True) [] m [] m'); [by apply ch_quiet|].
  split; [by rewrite Ep | by left | by intros ?? ?%not_elem_of_nil].
Qed.

(** C37: The permit of a session is backed by a recent proof that the peer is
    alive.  Whenever [permit] succeeds, the session is neither closed nor
    failed, its elapsed time is below the absolute deadline, and less than one
    lease of monotonic time has passed since either the session was armed or a
    ping was sent which the peer has answered: a packet with the peer's
    binding and the sequence number and nonce of that very ping was accepted. *)
Theorem permit_needs_proof tr k available r m' :
  session_run tr k -> permit available r (k_model k) = (m', None) ->
  available = true /\ m_terminal m' = None /\ m_closed m' = false /\
  mono_now m' <= m_elapsed m' < m_absUntil (k_model k) /\
  exists sent, mono_now m' - li_mono sent < bu_lease (m_budget (k_model k)) /\
    (li_mono sent = 0 \/
     exists message packet pong, EvPing message sent ∈ tr /\ EvPong packet pong ∈ tr /\
       parseLivenessPacket packet (m_binding (k_model k)) = Ok pong /\
       lm_kind pong = livenessPong /\ lm_sequence pong = lm_sequence message /\
       lm_nonce pong = lm_nonce message).
Proof.
  intros Hr Hp. pose proof (session_proof tr k Hr) as [_ P2 P3].
  unfold permit, model_permit in Hp. destruct available; [|done]. split; [done|].
  destruct (checkLocked_quiet r (k_model k)) as [Q F]. rewrite Hp in Q, F. simpl in *.
  destruct (F eq_refl) as [F1 F2 F3 F4 (age & F5 & F6)].
  rewrite (q_absUntil _ _ Q) in F3. rewrite (q_budget _ _ Q) in F6.
  rewrite (q_proofSent _ _ Q) in F5. apply clock_age_Ok in F5.
  split_and!; try done; try apply F3. exists (m_proofSent (k_model k)). split.
  - unfold mono_now. lia.
  - destruct P2 as [P2|(message & packet & pong & ? & Hpong & ? & ?)]; [by left|right].
    exists message, packet, pong. destruct (P3 _ _ Hpong). done.
Qed.

(** ** Blame *)

Record cause_inv (tr : list event) (m : livenessModel) : Prop := {
  ci_bypass : w_AdmissionBypass (m_witness m) = 0;
  ci_bad : forall packet, EvBadPacket packet ∈ tr -> bad_packet packet m;
  ci_length : forall n, EvBadLength n ∈ tr -> n <> livenessPacketSize;
}.

Lemma cause_same tr ev m m' :
  w_AdmissionBypass (m_witness m') = w_AdmissionBypass (m_witness m) ->
  m_binding m' = m_binding m -> m_budget m' = m_budget m ->
  (forall packet, EvBadPacket packet ∈ ev -> bad_packet packet m) ->
  (forall n, EvBadLength n ∈ ev -> n <> livenessPacketSize) ->
  cause_inv tr m -> cause_inv (tr ++ ev) m'.
Proof.
  intros E1 E2 E3 Hb Hl [C1 C2 C3]. split; [congruence| |].
  - intros packet Hx. unfold bad_packet. rewrite E2, E3. apply elem_of_app in Hx as [?|?];
      [by apply C2 | by apply Hb].
  - intros n [?|?]%elem_of_app; eauto.
Qed.

Lemma change_cause P tr m ev m' :
  change P m ev m' -> cause_inv tr m -> cause_inv (tr ++ ev) m'.
Proof.
  intros C R. destruct C;
    try (eapply (cause_same _ _ m); [done|done|done|set_solver|set_solver|done]).
  - eapply (cause_same _ _ m); try apply H0; try done; set_solver.
  - unfold end_locked. eapply (cause_same _ _ m); try done; try set_solver;
      by destruct (m_terminal m), err.
  - unfold end_locked. eapply (cause_same _ _ m); try done; try set_solver;
      by destruct (m_terminal m).
  - unfold key_counters in H0. simplify_eq. eapply (cause_same _ _ m); try done; set_solver.
  - unfold count_admit. eapply (cause_same _ _ m); try done; try set_solver;
      by destruct (kind =? livenessPing).
Qed.

Lemma session_cause tr k : session_run tr k -> cause_inv tr (k_model k).
Proof.
  apply (session_run_ind_changes cause_inv); [|by eauto using change_cause].
  intros binding budget r0 absolute m m' ceiling rounds Hb Hm Q.
  destruct (newLivenessModel_inv _ _ _ _ _ _ _ Hb Hm)
    as (_ & _ & _ & _ & _ & _ & _ & _ & _ & Ey & _).
  apply (change_cause (fun _ => True) [] m [] m'); [by apply ch_quiet|].
  by split; [|intros ? ?%not_elem_of_nil..].
Qed.

(** C9: A session does not fail by its own doing.  The writer never meets an
    unregistered emission or a second write (the admission-bypass counter stays
    zero), the session ends with a budget error only after the session gate
    reported a violation, and with a protocol error only after a packet that
    the protocol refuses, a delivery of the wrong length, a failure of the
    random source, or an invalid control packet reported by the gate; in
    particular neither the sequence number nor the preparation of a ping ever
    trips its own guard. *)
Theorem session_blame tr k :
  session_run tr k ->
  w_AdmissionBypass (m_witness (k_model k)) = 0 /\
  (m_terminal (k_model k) = Some errLivenessBudget ->
     EvGateViolation SessionAdmissionBypass ∈ tr \/ EvGateViolation SessionControlLimit ∈ tr) /\
  (m_terminal (k_model k) = Some errLivenessProtocol ->
     (exists packet, EvBadPacket packet ∈ tr /\ bad_packet packet (k_model k)) \/
     (exists n, EvBadLength n ∈ tr /\ n <> livenessPacketSize) \/
     EvRandomFailed ∈ tr \/ EvGateViolation SessionControlInvalid ∈ tr).
Proof.
  intros Hr. pose proof (session_cause tr k Hr) as [C1 C2 C3].
  pose proof (en_terminal _ _ (si_ends _ _ (session_run_inv tr k Hr))) as E.
  split_and!; [done|intros Ht; rewrite Ht in E; exact (proj1 E)|].
  intros Ht. rewrite Ht in E. destruct E as [[p Hp]|[[n Hn]|E]]; [left|right; left|by right; right];
    eauto.
Qed.
End theorems.
