(* ===== verification/LivenessEmission.v ===== *)
(** * What the controller puts on the wire

    An emission keeps its packet from its admission until it is injected; it is
    injected at most once, and only after a write that began within its
    window. *)
From S2P Require Import Prelude GoStd LivenessWire LivenessWireThms Liveness LivenessInv LivenessController LivenessChanges LivenessPhases LivenessTrace LivenessThms.

#[local] Opaque parseLivenessPacket buildLivenessPacket parseEchoPacket buildEchoPacket.

Definition injecting (w : writer_phase) : list nat := match w with WInject e => [e] | _ => [] end.

(** The emissions whose packet will still be read. *)
Definition live (m : livenessModel) (w : writer_phase) (e : nat) : Prop :=
  Some e ∈ m_intents m \/ e ∈ injecting w.

Definition new_emission (m : livenessModel) (ev : list event) (m' : livenessModel) (e : nat) : Prop :=
  e = m_next m /\ exists x, m_heap m' !! e = Some x /\ EvPlace e (em_packet x) (em_window x) ∈ ev.

(** Between two states, live emissions keep their entry, or are new. *)
Definition kept (m : livenessModel) (w : writer_phase) (ev : list event)
    (m' : livenessModel) (w' : writer_phase) : Prop :=
  forall e, live m' w' e ->
    (live m w e /\ m_heap m' !! e = m_heap m !! e) \/ new_emission m ev m' e.

Section steps.
Context {H : Sha256}.

Lemma kept_refl m w ev : kept m w ev m w.
Proof. intros e He. by left. Qed.

Lemma kept_less m w w' ev : (forall e, e ∈ injecting w' -> live m w e) -> kept m w ev m w'.
Proof. intros Hw e [He|He]; left; split; try done; [by left | auto]. Qed.

Lemma kept_same m w ev m' w' :
  m_intents m' = m_intents m -> m_heap m' = m_heap m ->
  (forall e, e ∈ injecting w' -> live m w e) -> kept m w ev m' w'.
Proof.
  intros E1 E2 Hw e. unfold live. rewrite E1, E2. intros [He|He]; left; split; try done;
    [by left | by apply Hw].
Qed.

Lemma kept_view m w ev m' w' :
  vsame m m' -> (forall e, e ∈ injecting w' -> live m w e) -> kept m w ev m' w'.
Proof. intros []. by apply kept_same. Qed.

Lemma kept_end err m w ev w' :
  (forall e, e ∈ injecting w' -> live m w e) -> kept m w ev (end_locked err m) w'.
Proof.
  intros Hw e. unfold live. destruct (end_locked_view err m) as (-> & -> & _).
  intros [He|He]; left; split; try done; [by left | by apply Hw].
Qed.

Lemma kept_result m o m' w ev1 :
  vresult m o m' ->
  kept m w (ev1 ++ match o with Ok e => placed m' e | Err _ => [] end) m' w.
Proof.
  intros V e. unfold vresult in V. destruct o as [[id|]|x];
    [|by apply kept_view; [done|right]..].
  destruct V as [(i & Hi & Ei) [x Ex] -> _ _ _].
  destruct (decide (e = m_next m)) as [->|Hne].
  - intros _. right. split; [done|]. exists x. simpl. rewrite Ex, lookup_insert_eq.
    split; [done|]. set_solver.
  - unfold live. rewrite Ei, Ex, place_elem by done. rewrite lookup_insert_ne by done.
    intros [[?|He]|He]; [done|left..]; split; try done; [by left | by right].
Qed.

Lemma kept_more m w ev ev' m' w' :
  (forall x, x ∈ ev -> x ∈ ev') -> kept m w ev m' w' -> kept m w ev' m' w'.
Proof.
  intros Hs K e He. destruct (K e He) as [?|(? & x & ? & ?)]; [by left|].
  right. split; [done|]. exists x. auto.
Qed.

(** [place_emission] in a free slot. *)
Lemma place_view i x m :
  free_slot (m_intents m) = Some i ->
  vresult m (Ok (Some (m_next m))) (place_emission i x m).1.
Proof.
  intros Hi. split; try done; [|by eexists]. exists i. split; [by apply free_slot_Some | done].
Qed.

(** Clearing an emission that is no longer live. *)
Lemma kept_clear m w ev m' w' e0 :
  kept m w ev m' w' -> ~ live m' w' e0 -> kept m w ev (clear_packet e0 m') w'.
Proof.
  intros K Hn e He. assert (e <> e0) by (intros ->; by destruct Hn).
  destruct (K e He) as [[H1 H2]|(H1 & x & H2 & H3)]; [left|right].
  - split; [done|]. simpl. by rewrite lookup_alter_ne.
  - split; [done|]. exists x. simpl. by rewrite lookup_alter_ne.
Qed.

Lemma kept_free m w ev e0 i :
  slot_of e0 (m_intents m) = Some i -> slots_unique (m_intents m) ->
  kept m w ev (set_m_intents (<[i := None]> (m_intents m)) m) w.
Proof.
  intros Hi%slot_of_Some U e [He|He]; left; split; try done; [left|by right].
  by apply (free_elem _ _ e0) in He as [He _].
Qed.

Lemma kept_discard m w ev e0 q c wr :
  slots_ok m (e0 :: q) c wr -> (forall e, e ∈ injecting w -> e ∈ c) -> kept m w ev (discard e0 m) w.
Proof.
  intros S Hc. unfold discard. destruct (slot_of e0 (m_intents m)) as [i|] eqn:Hi;
    [|apply kept_refl].
  assert (K : kept m w ev (clear_packet e0 (set_m_intents (<[i:=None]> (m_intents m)) m)) w).
  { apply kept_clear.
    - apply (kept_free _ _ _ e0); [done | apply S].
    - intros [He|He].
      + apply (free_elem _ _ e0) in He as [_ He]; [done | apply S | by apply slot_of_Some].
      + apply Hc in He. pose proof (so_nodup _ _ _ _ S) as Hn. simpl in Hn.
        apply NoDup_cons in Hn as [Hn _]. apply Hn, elem_of_app. by right. }
  intros e He. exact (K e He).
Qed.

Lemma injecting_current w e : e ∈ injecting w -> e ∈ writer_current w.
Proof. destruct w; simpl; set_solver. Qed.

Lemma kept_witness f m w ev m' w' : kept m w ev m' w' -> kept m w ev (upd_witness f m') w'.
Proof. intros K e He. exact (K e He). Qed.

Lemma front_step_kept k1 ev k2 :
  front_step k1 ev k2 -> stage_inv k1 -> slots_inv k1 ->
  kept (k_model k1) (k_writer k1) ev (k_model k2) (k_writer k2).
Proof.
  assert (Hr : forall m w e, e ∈ injecting w -> live m w e) by (intros; by right).
  destruct 1; intros St S; simpl; try (apply kept_refl); try (apply kept_end; by auto);
    try match goal with E : permit ?a ?r ?m = _ |- _ =>
      pose proof (permit_view a r m) as V; rewrite E in V; simpl in V;
      try (by apply kept_view; auto) end.
  - unfold front_permit. pose proof (permit_view available r (k_model k)) as V.
    destruct (permit available r (k_model k)) as [m [x|]]; apply kept_view; auto.
  - unfold front_event. destruct (_ && _); [destruct (parseEchoPacket _ _ _ _); apply kept_view; auto|].
    destruct (negb _); apply kept_view; auto.
  - unfold front_receive. pose proof (receive_view r packet (k_model k)) as V.
    destruct (receive r packet (k_model k)) as [m [e|x]]; simpl in *; [|by apply kept_view; auto].
    rewrite app_assoc. by apply (kept_result _ (Ok e)).
  - unfold front_tick. pose proof (preparePing_view r (k_model k)) as V.
    destruct (preparePing r (k_model k)) as [m [s|x]]; [destruct (s =? 0)|]; apply kept_view; auto.
  - unfold front_ping. destruct nonce as [nonce|]; [|apply kept_refl].
    pose proof (ping_view r sequence nonce (k_model k)) as V.
    destruct (ping r sequence nonce (k_model k)) as [m [e|x]]; simpl in *.
    + eapply kept_more; [|by apply (kept_result _ (Ok e) _ _ [])]. set_solver.
    + case_bool_decide; by apply kept_view; auto.
  - unfold slots_inv, queue in S. rewrite H0 in S. simpl in S.
    eapply kept_discard; [exact S | apply injecting_current].
  - unfold close_permit. pose proof (permit_view available r (k_model k)) as V.
    destruct (permit available r (k_model k)) as [m [x|]]; apply kept_view; auto.
  - unfold close_build. destruct nonce as [nonce|]; [|apply kept_refl].
    destruct (buildEchoPacket _ _ _) as [packet|]; [|apply kept_refl].
    pose proof (checkLocked_view r (k_model k)) as V.
    destruct (checkLocked r (k_model k)) as [m [x|]]; [by apply kept_view; auto|].
    destruct (free_slot (m_intents m)) as [i|] eqn:Hi; [|by apply kept_view; auto].
    apply kept_witness.
    pose proof (place_view i (mkEmission packet (current_window m) true) m Hi) as Vp.
    pose proof (vresult_before _ _ _ _ V Vp) as V'.
    exact (kept_result _ _ _ (k_writer k) [] V').
  - unfold close_permit. pose proof (permit_view available r (k_model k)) as V.
    destruct (permit available r (k_model k)) as [m [x|]]; apply kept_view; auto.
  - unfold close_check.
    pose proof (windowExpired_view (emission_window e (k_model k)) (k_model k)) as V.
    destruct (windowExpiredLocked _ _) as [m [expired err]]. simpl in V.
    destruct (expired || _); [destruct (_ && _ && _)|]; by apply kept_view; auto.
  - unfold drain_outbound. destruct (k_outbound k) as [|e rest] eqn:Eo; [apply kept_refl|].
    unfold slots_inv, queue in S. rewrite H0, Eo in S. simpl in S.
    eapply kept_discard; [exact S | apply injecting_current].
  - pose proof (st_front _ St) as F. unfold front_stage in F. rewrite H0 in F.
    destruct F as (_ & [Ew _] & _). rewrite Ew. intros e [He|He]; set_solver.
Qed.

Lemma writer_step_kept k1 ev k2 :
  writer_step k1 ev k2 -> slots_inv k1 ->
  kept (k_model k1) (k_writer k1) ev (k_model k2) (k_writer k2).
Proof.
  assert (Hr : forall m w e, e ∈ injecting w -> live m w e) by (intros; by right).
  assert (Hn : forall m w e, e ∈ @nil nat -> live m w e) by (intros; set_solver).
  destruct 1; intros S; simpl; try (apply kept_refl); try (apply kept_less; by apply Hn);
    try (apply kept_end; by apply Hn);
    try match goal with E : permit ?a ?r ?m = _ |- _ =>
      pose proof (permit_view a r m) as V; rewrite E in V; simpl in V;
      try (by apply kept_view; [done|apply Hn]) end;
    try (apply kept_witness, kept_less; by apply Hn).
  - unfold slots_inv, queue in S. rewrite H0 in S. simpl in S.
    eapply slots_perm in S; [|apply held_last]. rewrite H0. unfold writer_begin, beginWrite.
    pose proof (checkLocked_view r (k_model k)) as V.
    destruct (checkLocked r (k_model k)) as [m1 [x|]]; simpl in V.
    { simpl. case_bool_decide; by apply kept_view; [done|apply Hn]. }
    pose proof (slot_registered _ _ _ _ _ S) as Hreg. rewrite <-(vs_intents _ _ V) in Hreg.
    destruct (slot_of e (m_intents m1)) as [i|] eqn:Hi; [|done].
    assert (Hw : m_writing m1 = None).
    { rewrite (vs_writing _ _ V). apply eq_None_not_Some. intros Hx.
      by apply (so_writing _ _ _ _ S) in Hx. }
    rewrite Hw. cbv zeta. set (m2 := set_m_intents _ m1).
    assert (U : slots_unique (m_intents m1)) by (rewrite (vs_intents _ _ V); apply S).
    pose proof (windowExpired_view (emission_window e m2) m2) as V2.
    assert (K : forall w', (forall y, y ∈ injecting w' -> y = e) ->
      kept (k_model k) (WBegin e) [] (windowExpiredLocked (emission_window e m2) m2).1 w').
    { intros w' Hw' y. unfold live.
      rewrite (vs_intents _ _ V2), (vs_heap _ _ V2). simpl. rewrite (vs_heap _ _ V).
      intros [Hy|Hy]; left; (split; [left|done]).
      - apply (free_elem _ _ e) in Hy as [Hy _]; [|done|by apply slot_of_Some].
        by rewrite <-(vs_intents _ _ V).
      - rewrite (Hw' _ Hy). apply S. by left. }
    assert (He : Some e ∉ m_intents (windowExpiredLocked (emission_window e m2) m2).1).
    { rewrite (vs_intents _ _ V2). simpl. intros Hx.
      apply (free_elem _ _ e) in Hx as [_ Hx]; [done|done|by apply slot_of_Some]. }
    destruct (windowExpiredLocked (emission_window e m2) m2) as [m3 [[] [x|]]]; simpl in *.
    + case_bool_decide; by apply (K (WEnd None)); set_solver.
    + apply kept_clear; [by apply kept_witness, (K WSelect); set_solver|].
      intros [Hx|Hx]; [done | set_solver].
    + case_bool_decide; by apply (K (WEnd None)); set_solver.
    + intros y Hy. destruct (K (WInject e) ltac:(simpl; set_solver) y Hy) as [?|(? & ? & ? & ?)];
        [by left | set_solver].
  - rewrite H0. unfold endWrite. simpl. apply kept_same; [by destruct (ok && negb _)..|].
    intros y. destruct (ok && emission_teardown e (k_model k)); simpl; set_solver.
  - apply kept_clear.
    + apply kept_less. intros y. destruct ok; simpl; set_solver.
    + intros [Hx|Hx]; [|destruct ok; simpl in Hx; set_solver].
      unfold slots_inv in S. rewrite H0 in S. simpl in S.
      destruct (so_current _ _ _ _ S e ltac:(set_solver)) as [Hc _]. done.
Qed.

Lemma watchdog_step_kept k1 ev k2 :
  watchdog_step k1 ev k2 -> kept (k_model k1) (k_writer k1) ev (k_model k2) (k_writer k2).
Proof.
  assert (Hr : forall m w e, e ∈ injecting w -> live m w e) by (intros; by right).
  destruct 1; simpl; try (apply kept_refl); try (apply kept_end; by auto);
    try match goal with E : permit ?a ?r ?m = _ |- _ =>
      pose proof (permit_view a r m) as V; rewrite E in V; by apply kept_view; auto end.
  unfold watchdog_check. destruct (m_writing (k_model k)) as [w|]; [|apply kept_refl].
  pose proof (windowExpired_view w (k_model k)) as V.
  destruct (windowExpiredLocked w (k_model k)) as [m [[] [x|]]]; by apply kept_view; auto.
Qed.

Lemma callback_step_kept k1 ev k2 :
  callback_step k1 ev k2 -> kept (k_model k1) (k_writer k1) ev (k_model k2) (k_writer k2).
Proof.
  assert (Hr : forall m w e, e ∈ injecting w -> live m w e) by (intros; by right).
  destruct 1; simpl; try (apply kept_refl).
  - unfold push_inbound. case_bool_decide; apply kept_refl.
  - apply kept_view; [apply permit_view | auto].
  - apply kept_end; auto.
Qed.

Lemma step_kept k1 ev k2 :
  controller_step k1 ev k2 -> stage_inv k1 -> slots_inv k1 ->
  kept (k_model k1) (k_writer k1) ev (k_model k2) (k_writer k2).
Proof.
  destruct 1; intros; [by apply front_step_kept | by apply writer_step_kept
    | by apply watchdog_step_kept | by apply callback_step_kept].
Qed.

(** ** Placements and writes of a trace *)

(** A write that began within the window of an emission. *)
Definition in_window (lease : Z) (w : livenessEmissionWindow) (at_ : livenessInstant) : Prop :=
  li_mono at_ - li_mono (ew_sent w) < livenessWriteWindow /\
  li_mono at_ - li_mono (ew_proofSent w) < lease.

Record place_inv (tr : list event) (m : livenessModel) : Prop := {
  pl_wire : forall e p w, EvPlace e p w ∈ tr -> (e < m_next m)%nat /\ wire_packet (m_binding m) p;
  pl_unique : forall e p w p' w', EvPlace e p w ∈ tr -> EvPlace e p' w' ∈ tr -> p = p' /\ w = w';
  pl_heap : forall e x, m_heap m !! e = Some x -> exists p, EvPlace e p (em_window x) ∈ tr;
  pl_write : forall e at_, EvWrite e at_ ∈ tr ->
    exists p w, EvPlace e p w ∈ tr /\ in_window (bu_lease (m_budget m)) w at_;
}.

Lemma place_same tr ev m m' :
  m_next m' = m_next m -> m_binding m' = m_binding m -> m_budget m' = m_budget m ->
  (forall e x, m_heap m' !! e = Some x -> exists y, m_heap m !! e = Some y /\ em_window y = em_window x) ->
  (forall e p w, EvPlace e p w ∉ ev) -> (forall e at_, EvWrite e at_ ∉ ev) ->
  place_inv tr m -> place_inv (tr ++ ev) m'.
Proof.
  intros E1 E2 E3 Eh Hp Hw [P1 P2 P3 P4].
  assert (Hin : forall e p w, EvPlace e p w ∈ tr ++ ev <-> EvPlace e p w ∈ tr).
  { intros e p w. rewrite elem_of_app. pose proof (Hp e p w). tauto. }
  split.
  - intros e p w Hx%Hin. rewrite E1, E2. by eapply P1.
  - intros e p w p' w' Hx%Hin Hy%Hin. by eapply P2.
  - intros e x Hx. destruct (Eh e x Hx) as (y & Hy & <-). destruct (P3 e y Hy) as [p ?].
    exists p. by apply Hin.
  - intros e at_ [Hx|Hx]%elem_of_app; [|by destruct (Hw e at_)].
    destruct (P4 e at_ Hx) as (p & w & ? & ?). exists p, w. rewrite E3. split; [by apply Hin | done].
Qed.

Lemma change_place P tr m ev m' :
  change P m ev m' -> place_inv tr m -> place_inv (tr ++ ev) m'.
Proof.
  intros C R. destruct C;
    try (eapply (place_same _ _ m); [done|done|done|by eauto|set_solver|set_solver|done]).
  - eapply (place_same _ _ m); try apply H0; try done; try set_solver.
    rewrite (q_heap _ _ H0). eauto.
  - unfold end_locked. eapply (place_same _ _ m); try done; try set_solver;
      destruct (m_terminal m), err; try done; eauto.
  - unfold end_locked. eapply (place_same _ _ m); try done; try set_solver;
      destruct (m_terminal m); try done; eauto.
  - unfold count_admit. eapply (place_same _ _ m); try done; try set_solver;
      destruct (kind =? livenessPing); try done; eauto.
  - destruct R as [P1 P2 P3 P4]. simpl.
    assert (Hin : forall e p w, EvPlace e p w ∈ tr ++ [EvPlace (m_next m) packet (current_window m)]
      <-> EvPlace e p w ∈ tr \/ (e = m_next m /\ p = packet /\ w = current_window m)).
    { intros e p w. rewrite elem_of_app, list_elem_of_singleton. naive_solver. }
    split.
    + intros e p w [Hx|(-> & -> & ->)]%Hin; simpl; [|split; [lia|done]].
      destruct (P1 e p w Hx). split; [lia | done].
    + intros e p w p' w' [Hx|(-> & -> & ->)]%Hin [Hy|(? & -> & ->)]%Hin; subst; try done.
      * by eapply P2.
      * destruct (P1 _ _ _ Hx). lia.
      * destruct (P1 _ _ _ Hy). lia.
    + intros e x Hx. simpl in Hx. apply lookup_insert_Some in Hx as [[<- <-]|[_ Hx]].
      * exists packet. apply Hin. by right.
      * destruct (P3 e x Hx) as [p ?]. exists p. apply Hin. by left.
    + intros e at_ [Hx|Hx%list_elem_of_singleton]%elem_of_app; [|done].
      destruct (P4 e at_ Hx) as (p & w & ? & ?). exists p, w. split; [by apply Hin; left | done].
  - destruct R as [P1 P2 P3 P4].
    assert (Hin : forall e' p w, EvPlace e' p w ∈ tr ++ [EvWrite e (clock_instant (m_clock m))]
      <-> EvPlace e' p w ∈ tr) by (intros; rewrite elem_of_app, list_elem_of_singleton; naive_solver).
    split.
    + intros e' p w Hx%Hin. by eapply P1.
    + intros e' p w p' w' Hx%Hin Hy%Hin. by eapply P2.
    + intros e' x Hx. destruct (P3 e' x Hx) as [p ?]. exists p. by apply Hin.
    + intros e' at_ [Hx|Hx%list_elem_of_singleton]%elem_of_app.
      * destruct (P4 e' at_ Hx) as (p & w & ? & ?). exists p, w. split; [by apply Hin | done].
      * simplify_eq. destruct H2 as [x Hx]. destruct (P3 e x Hx) as [p Hp].
        exists p, (em_window x). split; [by apply Hin|].
        assert (Ew : emission_window e m = em_window x) by (unfold emission_window; by rewrite Hx).
        rewrite Ew in *. done.
  - eapply (place_same _ _ m); try done; try set_solver. intros e' x. simpl.
    destruct (decide (e = e')) as [->|]; [|rewrite lookup_alter_ne by done; eauto].
    rewrite lookup_alter_eq. destruct (m_heap m !! e') as [y|]; [|done].
    intros [= <-]. eauto.
Qed.

Lemma session_place tr k : session_run tr k -> place_inv tr (k_model k).
Proof.
  apply (session_run_ind_changes place_inv); [|by eauto using change_place].
  intros binding budget r0 absolute m m' ceiling rounds Hb Hm Q.
  destruct (newLivenessModel_inv _ _ _ _ _ _ _ Hb Hm) as (_ & _ & Eh & _).
  apply (change_place (fun _ => True) [] m [] m'); [by apply ch_quiet|].
  split; try (by intros; set_solver). intros e x. by rewrite Eh, lookup_empty.
Qed.

(** ** Injections *)

Definition injected (tr : list event) : list nat :=
  omap (fun ev => match ev with EvInject e _ => Some e | _ => None end) tr.

Lemma injected_app tr ev : injected (tr ++ ev) = injected tr ++ injected ev.
Proof. apply omap_app. Qed.

Lemma injected_elem e tr : e ∈ injected tr <-> exists p, EvInject e p ∈ tr.
Proof.
  unfold injected. rewrite list_elem_of_omap. split.
  - intros (ev & Hev & E). destruct ev; try done. injection E as ->. eauto.
  - intros [p Hp]. eauto.
Qed.

Lemma injected_quiet m m' packet o :
  injected (answered m m' packet) = [] /\ injected (admitted m m') = [] /\ injected (placed m' o) = [].
Proof.
  split_and!.
  - unfold answered. case_match; [|done]. by case_bool_decide.
  - unfold admitted. by repeat case_bool_decide.
  - unfold placed. destruct o as [id|]; [|done]. by destruct (m_heap m' !! id).
Qed.

Definition injects (k : controller) (ev : list event) (k' : controller) : Prop :=
  exists e ok, ev = [EvInject e (emission_packet e (k_model k))] /\ k_writer k = WInject e /\
    k_writer k' = WEndWrite e ok /\ k_model k' = k_model k.

Lemma front_step_injected k1 ev k2 : front_step k1 ev k2 -> injected ev = [].
Proof.
  destruct 1; try done.
  - unfold front_event. destruct (_ && _); [by destruct (parseEchoPacket _ _ _ _)|].
    by destruct (negb _).
  - unfold front_receive. destruct (receive r packet (k_model k)) as [m [e|x]]; simpl.
    + destruct (injected_quiet (k_model k) m packet e) as (E1 & E2 & E3).
      by rewrite !injected_app, E1, E2, E3.
    + by destruct (_ && _).
  - unfold front_ping. destruct nonce as [nonce|]; [|done].
    destruct (ping r sequence nonce (k_model k)) as [m [e|x]]; simpl; [|done].
    destruct (injected_quiet (k_model k) m [] e) as (_ & E2 & E3).
    rewrite !injected_app, E2, E3. by destruct e.
  - unfold close_build. destruct nonce as [nonce|]; [|done].
    destruct (buildEchoPacket _ _ _); [|done].
    destruct (checkLocked r (k_model k)) as [m [x|]]; [done|].
    destruct (free_slot _); [|done]. simpl. by rewrite lookup_insert_eq.
Qed.

Lemma step_injected k1 ev k2 :
  controller_step k1 ev k2 -> injected ev = [] \/ injects k1 ev k2.
Proof.
  destruct 1 as [St|St|St|St].
  - left. by eapply front_step_injected.
  - destruct St; try (by left).
    + unfold writer_begin. left.
      by destruct (beginWrite r e (k_model k)) as [m [[]|x]].
    + right. by exists e, ok.
  - left. by destruct St.
  - left. by destruct St.
Qed.

Lemma step_write k1 ev k2 e :
  controller_step k1 ev k2 -> k_writer k2 = WInject e ->
  k_writer k1 = WInject e \/ exists at_, EvWrite e at_ ∈ ev.
Proof.
  destruct 1 as [St|St|St|St]; intros Hw.
  - left. by destruct (front_step_others _ _ _ St) as [<- _].
  - destruct St; simpl in Hw; try done.
    + right. unfold writer_begin in *.
      destruct (beginWrite r e0 (k_model k)) as [m [[]|x]]; simpl in *.
      * injection Hw as ->. eexists. by apply list_elem_of_singleton.
      * done.
      * by case_bool_decide.
    + by destruct (ok && emission_teardown e0 (k_model k)).
    + by destruct ok.
  - left. by destruct (watchdog_step_others _ _ _ St) as [_ <-].
  - left. by destruct (callback_step_others _ _ _ St) as (_ & <- & _).
Qed.

Record emission_inv (tr : list event) (k : controller) : Prop := {
  ei_intact : forall e, live (k_model k) (k_writer k) e ->
    exists x, m_heap (k_model k) !! e = Some x /\ EvPlace e (em_packet x) (em_window x) ∈ tr;
  ei_done : forall e, e ∈ injected tr ->
    ~ live (k_model k) (k_writer k) e /\ (e < m_next (k_model k))%nat;
  ei_once : NoDup (injected tr);
  ei_packet : forall e p, EvInject e p ∈ tr ->
    (exists w, EvPlace e p w ∈ tr) /\ exists at_, EvWrite e at_ ∈ tr;
  ei_write : forall e, k_writer k = WInject e -> exists at_, EvWrite e at_ ∈ tr;
}.

Lemma changes_next (P : lerr -> Prop) m ev m' : changes P m ev m' -> (m_next m <= m_next m')%nat.
Proof.
  induction 1 as [|m ev m1 evs m2 C _ IH]; [done|]. etrans; [|exact IH]. clear -C.
  destruct C; simpl; try lia.
  - by rewrite (q_next _ _ H0).
  - unfold end_locked. by destruct (m_terminal m), err.
  - unfold end_locked. by destruct (m_terminal m).
  - unfold count_admit. by destruct (kind =? livenessPing).
Qed.

Lemma step_emission tr k ev k' :
  controller_step k ev k' -> session_inv tr k -> emission_inv tr k -> emission_inv (tr ++ ev) k'.
Proof.
  intros St Inv [E1 E2 E3 E4 E5].
  pose proof (step_kept k ev k' St (si_stage _ _ Inv) (si_slots _ _ Inv)) as K.
  pose proof (changes_next _ _ _ _ (step_changes tr k ev k' St Inv)) as Hn.
  assert (F1 : forall e, live (k_model k') (k_writer k') e ->
    exists x, m_heap (k_model k') !! e = Some x /\ EvPlace e (em_packet x) (em_window x) ∈ tr ++ ev).
  { intros e He. setoid_rewrite elem_of_app. destruct (K e He) as [[Hl Eh]|(_ & x & Hx & Hp)].
    - destruct (E1 e Hl) as (x & Hx & Hp). exists x. rewrite Eh. auto.
    - eauto. }
  assert (F5 : forall e, k_writer k' = WInject e -> exists at_, EvWrite e at_ ∈ tr ++ ev).
  { intros e He. setoid_rewrite elem_of_app. destruct (step_write k ev k' e St He) as [Hw|[at_ ?]];
      [destruct (E5 e Hw)|]; eauto. }
  assert (Fd : forall e, e ∈ injected tr -> ~ live (k_model k') (k_writer k') e /\
    (e < m_next (k_model k'))%nat).
  { intros e He. destruct (E2 e He) as [Hl Hlt]. split; [|lia].
    intros Hx. destruct (K e Hx) as [[? _]|[? _]]; [done | lia]. }
  destruct (step_injected k ev k' St) as [Hi|(e0 & ok & -> & Hw & Hw' & Hm)].
  - split; try done; rewrite ?injected_app, ?Hi, ?app_nil_r; try done.
    intros e p [Hp|Hp]%elem_of_app.
    + setoid_rewrite elem_of_app. destruct (E4 e p Hp) as [[w ?] [at_ ?]].
      split; [exists w | exists at_]; by left.
    + assert (Hx : e ∈ injected ev) by (apply injected_elem; eauto). rewrite Hi in Hx. set_solver.
  - assert (Hl0 : live (k_model k) (k_writer k) e0) by (right; rewrite Hw; simpl; set_solver).
    destruct (E1 e0 Hl0) as (x & Hx & Hp0).
    assert (Ep : emission_packet e0 (k_model k) = em_packet x)
      by (unfold emission_packet; by rewrite Hx).
    split; try done; rewrite ?injected_app.
    + intros e [He|He]%elem_of_app; [by apply Fd|].
      simpl in He. apply list_elem_of_singleton in He as ->. split.
      * intros [Hl|Hl]; [|rewrite Hw' in Hl; simpl in Hl; set_solver].
        rewrite Hm in Hl. pose proof (si_slots _ _ Inv) as S. unfold slots_inv in S.
        rewrite Hw in S. by destruct (so_current _ _ _ _ S e0 ltac:(simpl; set_solver)).
      * rewrite Hm. pose proof (si_slots _ _ Inv) as S. apply (so_next _ _ _ _ S). by exists x.
    + apply NoDup_app. split_and!; [done| |apply NoDup_singleton].
      intros e He ->%list_elem_of_singleton. by destruct (E2 _ He).
    + intros e p [Hp|Hp%list_elem_of_singleton]%elem_of_app; setoid_rewrite elem_of_app.
      * destruct (E4 e p Hp) as [[w ?] [at_ ?]].
      split; [exists w | exists at_]; by left.
      * simplify_eq. rewrite Ep. destruct (E5 e0 Hw) as [at_ ?].
        split; [exists (em_window x) | exists at_]; by left.
Qed.

Lemma session_emission tr k : session_run tr k -> emission_inv tr k.
Proof.
  induction 1 as [ceiling rounds budget binding r0 absolute m wired available r armed tapped k Hb Hm Ha
    |tr k ev k' Hrun IH St]; [|by eapply step_emission; [|apply session_run_inv|]].
  destruct (newLivenessModel_inv _ _ _ _ _ _ _ Hb Hm) as (I & E1 & E2 & _ & E3 & E4 & _).
  destruct (arm_inv _ _ _ _ _ _ _ Ha I E1 E2 E3 E4) as [_ Q].
  unfold armLiveness in Ha. destruct wired; [|done]. simpl in Ha. destruct (permit available r m) as [m1 [x|]]; [done|].
  destruct (negb armed); [done|]. destruct (negb tapped); [done|]. injection Ha as <-. simpl in *.
  split; simpl; try done; try (intros; set_solver).
  - intros e [He|He]; [|set_solver]. simpl in He. rewrite (q_intents _ _ Q), E1 in He. set_solver.
  - constructor.
Qed.

(** C10: Every packet a session injects is injected once, intact and in time.
    An emission reaches the interface at most once; the bytes are those built
    at its admission (nothing clears or changes them in between), which the
    peer's parser accepts as a ping, a pong or the session's CLOSE; and the
    write began less than a second after the admission and less than a lease
    after the proof it was admitted under. *)
Theorem injected_once_and_intact `{!Sha256Laws H} tr k e p :
  session_run tr k -> binding_wf (m_binding (k_model k)) -> EvInject e p ∈ tr ->
  NoDup (injected tr) /\
  (exists w at_, EvPlace e p w ∈ tr /\ EvWrite e at_ ∈ tr /\
     in_window (bu_lease (m_budget (k_model k))) w at_) /\
  let peer := peer_binding (m_binding (k_model k)) in
  (exists message, parseLivenessPacket p peer = Ok message) \/
  (exists message, parseEchoPacket p peer echoClose None = Ok message /\
     em_Kind message = echoClose).
Proof.
  intros Hr Hb Hp. pose proof (session_emission tr k Hr) as E. pose proof (session_place tr k Hr) as Pl.
  destruct (ei_packet _ _ E e p Hp) as [[w Hw] [at_ Hat]].
  split; [apply E|]. split.
  - exists w, at_. split_and!; try done.
    destruct (pl_write _ _ Pl e at_ Hat) as (p' & w' & Hp' & Hin').
    destruct (pl_unique _ _ Pl _ _ _ _ _ Hw Hp') as [_ ->]. done.
  - pose proof (mi_binding _ (si_model _ _ (session_run_inv tr k Hr))) as Hv.
    destruct (pl_wire _ _ Pl e p w Hw) as [_ [(message & Hm & Hs & Hbld)|(nonce & Hn & Hbld)]].
    + left. exists message. rewrite (build_layout _ _ Hs Hb Hm) in Hbld. injection Hbld as <-.
      by apply parse_spec, layout_accepted.
    + right. destruct (echo_roundtrip _ echoClose nonce Hv eq_refl Hb Hn) as (p' & E1 & _ & _ & E2).
      rewrite E1 in Hbld. injection Hbld as ->. eexists. split; [apply E2; by left | done].
Qed.
End steps.

(** * The end of a session

    Once the stop channel is closed, the workers finish within a bounded number
    of their own steps; once [drain] has returned, nothing of the session is
    left and nothing is emitted any more. *)

#[local] Opaque parseLivenessPacket buildLivenessPacket parseEchoPacket buildEchoPacket.

(** Steps a worker of a stopped session still has to make, at most. *)
Definition writer_rank (w : writer_phase) : nat :=
  match w with
  | WDone => 0 | WStop => 1 | WEnd _ => 2 | WViolation _ => 3 | WFailCount => 4
  | WBegin _ => 4 | WPermit _ => 5 | WFailSelect => 5 | WSelect => 6
  | WClear _ _ => 7 | WCloseCount _ => 8 | WEndWrite _ _ => 9 | WInject _ => 10
  end.

Definition watchdog_rank (d : watchdog_phase) : nat :=
  match d with
  | DDone => 0 | DStop => 1 | DEnd _ => 2 | DViolation => 3 | DPermit => 3
  | DSelect => 4 | DCheck => 5
  end.

(** Several transitions. *)
Inductive controller_steps `{Sha256} : controller -> list event -> controller -> Prop :=
| steps_refl k : controller_steps k [] k
| steps_more k ev k1 tr k2 :
    controller_step k ev k1 -> controller_steps k1 tr k2 -> controller_steps k (ev ++ tr) k2.

Section teardown.
Context {H : Sha256}.

Lemma closed_check r m : m_closed m = true -> exists e, (checkLocked r m).2 = Some e.
Proof.
  intros Hc. destruct (checkLocked_quiet r m) as [Q F].
  destruct (checkLocked r m) as [m' [e|]] eqn:E; [by exists e|].
  pose proof (fr_closed _ (F eq_refl)) as Hx. simpl in *. rewrite (q_closed _ _ Q) in Hx. congruence.
Qed.

Lemma closed_permit available r m m' : m_closed m = true -> permit available r m <> (m', None).
Proof.
  intros Hc. unfold permit, model_permit. destruct available; [|done].
  destruct (closed_check r m Hc) as [e He]. intros E. by rewrite E in He.
Qed.

Lemma closed_begin r e m : m_closed m = true -> exists x, (beginWrite r e m).2 = Err x.
Proof.
  intros Hc. destruct (closed_check r m Hc) as [x Hx]. unfold beginWrite.
  destruct (checkLocked r m) as [m' [y|]]; [by exists y | done].
Qed.

Lemma writer_descends k ev k' :
  writer_step k ev k' -> k_stop k = true -> m_closed (k_model k) = true ->
  (writer_rank (k_writer k') < writer_rank (k_writer k))%nat.
Proof.
  destruct 1; intros Hs Hc; match goal with E : k_writer _ = _ |- _ => rewrite E end;
    simpl; try lia; try congruence.
  - unfold writer_begin. destruct (closed_begin r e (k_model k) Hc) as [x Hx].
    destruct (beginWrite r e (k_model k)) as [m [?|y]]; [done|]. simpl.
    case_bool_decide; simpl; lia.
  - destruct (ok && emission_teardown e (k_model k)); simpl; lia.
  - destruct ok; simpl; lia.
Qed.

Lemma watchdog_descends k ev k' :
  watchdog_step k ev k' -> m_closed (k_model k) = true ->
  (watchdog_rank (k_watchdog k') < watchdog_rank (k_watchdog k))%nat.
Proof.
  destruct 1; intros Hc; match goal with E : k_watchdog _ = _ |- _ => rewrite E end;
    simpl; try lia; try congruence.
  - match goal with Hp : permit _ _ _ = _ |- _ => by destruct (closed_permit _ _ _ _ Hc Hp) end.
  - unfold watchdog_check. destruct (m_writing (k_model k)) as [w|]; [|simpl; lia].
    destruct (windowExpiredLocked w (k_model k)) as [m [[] [x|]]]; simpl; lia.
Qed.

Lemma closed_permit_err k r :
  m_closed (k_model k) = true -> exists m x, permit true r (k_model k) = (m, Some x).
Proof.
  intros Hc. destruct (permit true r (k_model k)) as [m [x|]] eqn:E; [by exists m, x|].
  by destruct (closed_permit _ _ _ _ Hc E).
Qed.

Lemma writer_progress k :
  k_stop k = true -> m_closed (k_model k) = true -> k_writer k <> WDone ->
  exists ev k', writer_step k ev k'.
Proof.
  intros Hs Hc Hw. pose (r := mkReading 0 time_zero).
  destruct (closed_permit_err k r Hc) as (m & x & Hp).
  destruct (k_writer k) eqn:E; try done; do 2 eexists.
  - by apply writer_stopped.
  - by eapply (writer_refused e true r).
  - by apply (writer_begun e r).
  - by apply (writer_inject e true).
  - by apply (writer_ended e ok).
  - by apply (writer_close_count e).
  - by apply (writer_clear e ok).
  - by apply writer_fail_stopped.
  - by apply writer_fail_count.
  - by apply (writer_violation v true).
  - by apply (writer_end err).
  - by apply writer_stop.
Qed.

Lemma watchdog_progress k :
  k_stop k = true -> m_closed (k_model k) = true -> k_watchdog k <> DDone ->
  exists ev k', watchdog_step k ev k'.
Proof.
  intros Hs Hc Hw. pose (r := mkReading 0 time_zero).
  destruct (closed_permit_err k r Hc) as (m & x & Hp).
  destruct (k_watchdog k) eqn:E; try done; do 2 eexists.
  - by apply watchdog_stopped.
  - by eapply (watchdog_refused true r).
  - by apply watchdog_checked.
  - by apply (watchdog_violation true).
  - by apply (watchdog_end err).
  - by apply watchdog_stop.
Qed.

(** The stop channel stays closed. *)
Lemma step_stop k ev k' : controller_step k ev k' -> k_stop k = true -> k_stop k' = true.
Proof.
  destruct 1 as [St|St|St|St]; intros Hs.
  - destruct St; try done.
    + destruct (front_permit_moves available r FSelect k); [done|]; congruence.
    + unfold front_event. destruct (_ && _); [by destruct (parseEchoPacket _ _ _ _)|].
      by destruct (negb _).
    + destruct (front_receive_moves r packet k); congruence.
    + destruct (front_tick_moves r k); congruence.
    + destruct (front_ping_moves r sequence nonce k); congruence.
    + destruct (close_permit_moves available r FCloseBuild k); [done|]; congruence.
    + destruct (close_build_moves r nonce k); congruence.
    + destruct (close_permit_moves available r (FCloseCheck e) k); [done|]; congruence.
    + destruct (close_check_moves e k); congruence.
    + unfold drain_outbound. by destruct (k_outbound k).
  - destruct St; try done. unfold writer_begin.
    destruct (beginWrite r e (k_model k)) as [m [[]|x]]; try done. simpl. by case_bool_decide.
  - destruct St; try done. unfold watchdog_check. destruct (m_writing (k_model k)) as [w|]; [|done].
    by destruct (windowExpiredLocked w (k_model k)) as [m [[] [x|]]].
  - destruct St; try done. unfold push_inbound. by case_bool_decide.
Qed.

(** Teardown terminates.  Once the stop channel of a session is closed, a
    worker that is not done can always take a step, whichever way the other
    goroutines, the clocks and the interface behave, and each of its steps
    strictly lowers its rank: the writer is done after at most ten of its own
    steps and the watchdog after at most five, so the wait in [drain] ends as
    soon as the injection in progress returns. *)
Theorem workers_terminate tr k :
  session_run tr k -> k_stop k = true ->
  (forall ev k', writer_step k ev k' ->
     (writer_rank (k_writer k') < writer_rank (k_writer k) <= 10)%nat) /\
  (k_writer k <> WDone -> exists ev k', writer_step k ev k') /\
  (forall ev k', watchdog_step k ev k' ->
     (watchdog_rank (k_watchdog k') < watchdog_rank (k_watchdog k) <= 5)%nat) /\
  (k_watchdog k <> DDone -> exists ev k', watchdog_step k ev k') /\
  (forall ev k', controller_step k ev k' -> k_stop k' = true).
Proof.
  intros Hr Hs. pose proof (si_stage _ _ (session_run_inv tr k Hr)) as St.
  pose proof (st_stop _ St Hs) as Hc. split_and!.
  - intros ev k' Hk. split; [by eapply writer_descends | by destruct (k_writer k); simpl; lia].
  - by apply writer_progress.
  - intros ev k' Hk. split; [by eapply watchdog_descends | by destruct (k_watchdog k); simpl; lia].
  - by apply watchdog_progress.
  - intros ev k' Hk. by eapply step_stop.
Qed.

(** ** After [drain] *)

Lemma drained_step k ev k' :
  controller_step k ev k' -> stage_inv k -> k_front k = FDrained ->
  k_front k' = FDrained /\ injected ev = [] /\ admissions ev = [].
Proof.
  intros St S Hf. pose proof (st_front _ S) as F. unfold front_stage in F. rewrite Hf in F.
  destruct F as (_ & [Ew Ed] & _). destruct St as [St|St|St|St].
  - destruct St; try congruence. destruct H0; congruence.
  - destruct St; congruence.
  - destruct St; congruence.
  - destruct (callback_step_others _ _ _ St) as (-> & _). by destruct St.
Qed.

(** A drained session is over.  When [drain] has returned nil, both workers
    have exited, no write is in progress, every slot, both queues and the
    pending ping are empty and the session is closed; and no later transition
    (late deliveries, callbacks of the gate) injects a packet or admits a
    message. *)
Theorem drained_is_quiet tr k tr' k' :
  session_run tr k -> k_front k = FDrained -> controller_steps k tr' k' ->
  k_front k' = FDrained /\ k_writer k' = WDone /\ k_watchdog k' = DDone /\
  k_inbound k' = [] /\ k_outbound k' = [] /\
  m_intents (k_model k') = [None; None; None] /\ m_pending (k_model k') = None /\
  m_writing (k_model k') = None /\ m_closed (k_model k') = true /\
  injected tr' = [] /\ admissions tr' = [].
Proof.
  intros Hr Hf Hs.
  assert (Hx : session_run (tr ++ tr') k' /\ k_front k' = FDrained /\ injected tr' = [] /\
    admissions tr' = []).
  { clear -Hr Hf Hs. revert tr Hr Hf.
    induction Hs as [k|k ev k1 tr' k2 St Hs IH]; intros tr Hr Hf; [by rewrite app_nil_r|].
    destruct (drained_step k ev k1 St (si_stage _ _ (session_run_inv tr k Hr)) Hf)
      as (Hf1 & Hi & Ha).
    destruct (IH (tr ++ ev) (run_step tr k ev k1 Hr St) Hf1) as (R1 & R2 & R3 & R4).
    rewrite app_assoc, injected_app, admissions_app, Hi, Ha. done. }
  destruct Hx as (Hr' & Hf' & Hi & Ha). pose proof (session_run_inv _ _ Hr') as Inv.
  pose proof (st_front _ (si_stage _ _ Inv)) as F. unfold front_stage in F. rewrite Hf' in F.
  destruct F as ([_ Hc] & [Ew Ed] & Ei & Eo & Es & Ep & _). split_and!; try done.
  pose proof (si_slots _ _ Inv) as S. unfold slots_inv in S. rewrite Ew in S.
  apply eq_None_not_Some. intros Hx. by apply (so_writing _ _ _ _ S) in Hx.
Qed.
End teardown.
