(* ===== verification/LivenessReporter.v ===== *)
(** * The violation reporter of a session
    (src/internal/v2/gatecorchestrator/liveness_controller.go, [livenessReporter])

    The reporter joins a session to the governor: a hard violation of the
    session trips the machine's safety latch, and a latched or closed machine
    refuses the session its permit.  [guarded_step] runs a session, its
    reporter and the governor side by side. *)
From S2P Require Import Prelude GoStd Limits SafetyTrip Governor GovernorSteps GovernorInv GovernorMicro GovernorLocal GovernorThms LivenessWire LivenessWireThms Liveness LivenessInv LivenessController LivenessChanges LivenessPhases LivenessTrace.

(** [r_machine] says whether the machine pointer is set; it is always the
    governor of the session's attempt. *)
Record livenessReporter := mkReporter {
  r_machine : bool;
  r_attempt : string;
  r_build : string;
  r_closed : bool;
  r_tripped : bool;
}.

Definition newReporter (attempt build : string) : livenessReporter :=
  mkReporter true attempt build false false.

(** Reason and detail of a violation; [None] is the default branch. *)
Definition violation_reason (v : SessionViolation) : option (SafetyTripReason * string) :=
  match v with
  | SessionAdmissionBypass => Some (SafetyTripHardLimit, "Gate C active session admission bypass")
  | SessionControlLimit =>
      Some (SafetyTripHardLimit, "Gate C active automatic control limit exceeded")
  | SessionControlInvalid => Some (SafetyTripHardLimit, "Gate C invalid automatic control packet")
  | SessionWriterFailure => Some (SafetyTripWriteFailures, "Gate C active session writer failed")
  | SessionDrainFailure => Some (SafetyTripCancellation, "Gate C active session drain failed")
  | SessionViolationOther _ => None
  end%string.

Definition violation_event (r : livenessReporter) (v : SessionViolation) : option SafetyTripEvent :=
  match violation_reason v with
  | Some (reason, detail) => Some (mkEvent reason detail "" (r_attempt r) (r_build r) time_zero)
  | None => None
  end.

(** [report]; [reply] is the answer of the safety store, if it is asked. *)
Definition report (v : SessionViolation) (reply : trip_reply) (r : livenessReporter) (g : Governor)
    : livenessReporter * Governor * option lerr :=
  if r_closed r || negb (r_machine r) then (r, g, Some errLivenessUnavailable) else
  if r_tripped r then (r, g, None) else
  match violation_event r v with
  | None => (r, g, Some errLivenessUnavailable)
  | Some event =>
      let '(g', (status, err)) := Governor_Trip event reply g in
      if bool_decide (is_Some err) || negb (ts_BlocksActiveWork status)
         || negb (bool_decide (ts_State status = SafetyTripTripped))
      then (r, g', Some errLivenessUnavailable)
      else (mkReporter (r_machine r) (r_attempt r) (r_build r) (r_closed r) true, g', None)
  end.

Definition reporter_close (r : livenessReporter) : livenessReporter :=
  mkReporter false (r_attempt r) (r_build r) true (r_tripped r).

(** [available], with the two fields of [Governor.Snapshot] it reads. *)
Definition reporter_available (r : livenessReporter) (g : Governor) : option lerr :=
  if r_closed r || negb (r_machine r) then Some errLivenessUnavailable else
  if r_tripped r then None else
  if (g_closed g || g_closing g) || ts_BlocksActiveWork (g_trip g)
  then Some errLivenessUnavailable else None.

(** ** A session, its reporter and the governor *)
Record Guarded := mkGuarded {
  gd_reporter : livenessReporter;
  gd_machine : Governor;
  gd_session : controller;
}.

(** The reports made by a transition. *)
Definition reports (tr : list event) : list (SessionViolation * bool) :=
  omap (fun ev => match ev with EvReport v b => Some (v, b) | _ => None end) tr.

Section guarded.
Context {H : Sha256} {St : TripStore} {F : Sprintf}.

Inductive guarded_step : Guarded -> list event -> Guarded -> Prop :=
| guarded_governor g' s :
    gstep (gd_machine s) g' ->
    guarded_step s [] (mkGuarded (gd_reporter s) g' (gd_session s))
| guarded_session ev k' s :
    controller_step (gd_session s) ev k' -> reports ev = [] ->
    guarded_step s ev (mkGuarded (gd_reporter s) (gd_machine s) k')
| guarded_report ev k' v reply r' g' result s :
    controller_step (gd_session s) ev k' ->
    (forall event, violation_event (gd_reporter s) v = Some event -> store_reply event reply) ->
    report v reply (gd_reporter s) (gd_machine s) = (r', g', result) ->
    reports ev = [(v, bool_decide (result = None))] ->
    guarded_step s ev (mkGuarded r' g' k')
| guarded_close s :
    guarded_step s [] (mkGuarded (reporter_close (gd_reporter s)) (gd_machine s) (gd_session s)).

Inductive guarded_run : list event -> Guarded -> Prop :=
| guarded_arm attempt build g k :
    reachable g -> session_run [] k ->
    guarded_run [] (mkGuarded (newReporter attempt build) g k)
| guarded_more tr s ev s' :
    guarded_run tr s -> guarded_step s ev s' -> guarded_run (tr ++ ev) s'.

(** ** Every run is a run of its parts *)

(** A report is a step of the governor or leaves it alone. *)
Lemma report_steps v reply r g :
  (forall event, violation_event r v = Some event -> store_reply event reply) ->
  (report v reply r g).1.2 = g \/ gstep g (report v reply r g).1.2.
Proof.
  intros Hreply. unfold report. destruct (r_closed r || negb (r_machine r)); [by left|].
  destruct (r_tripped r); [by left|].
  destruct (violation_event r v) as [event|] eqn:E; [|by left]. right.
  pose proof (step_Governor_Trip event reply g (Hreply _ eq_refl)) as S.
  destruct (Governor_Trip event reply g) as [g' [status err]]. simpl in S. by destruct (_ || _).
Qed.

(** A report that succeeds leaves the latch blocking. *)
Lemma report_latches v reply r g r' g' :
  (r_tripped r = true -> latched g) -> report v reply r g = (r', g', None) ->
  r_tripped r' = true /\ latched g'.
Proof.
  intros Hl E. unfold report in E. destruct (r_closed r || negb (r_machine r)); [done|].
  destruct (r_tripped r) eqn:Ht; [simplify_eq; by auto|].
  destruct (violation_event r v) as [event|]; [|done].
  unfold Governor_Trip in E. destruct (validateSafetyTripEvent event); [done|].
  pose proof (tripLocked_blocks reply g) as B. unfold tripLocked in *.
  destruct (g_closed g); [done|]. specialize (B eq_refl).
  match type of E with (let '(_, _) := ?x in _) = _ => destruct x as [g1 [status err]] end.
  simpl in B. destruct (_ || _); simplify_eq. split; [done|by left].
Qed.

Lemma report_tripped v reply r g r' g' result :
  report v reply r g = (r', g', result) -> result <> None -> r_tripped r' = r_tripped r.
Proof.
  unfold report. intros E Hn. destruct (r_closed r || _); [by simplify_eq|].
  destruct (r_tripped r) eqn:Ht; [by simplify_eq|].
  destruct (violation_event r v); [|by simplify_eq].
  destruct (Governor_Trip _ _ _) as [? [? ?]]. destruct (_ || _); by simplify_eq.
Qed.

Record guarded_inv (tr : list event) (s : Guarded) : Prop := {
  gi_machine : reachable (gd_machine s);
  gi_session : session_run tr (gd_session s);
  gi_latched : r_tripped (gd_reporter s) = true -> latched (gd_machine s);
  gi_reported v : EvReport v true ∈ tr -> r_tripped (gd_reporter s) = true;
}.

Lemma latched_step g g' : reachable g -> gstep g g' -> latched g -> latched g'.
Proof.
  intros Hr Hs Hl. apply (latched_micros g g'); [|done].
  by apply (steps_inv g g' (reachable_inv g Hr)), rtc_once.
Qed.

Lemma reachable_more g g' : reachable g -> gstep g g' -> reachable g'.
Proof. intros (g0 & Hi & Hst) Hs. exists g0. split; [done|]. by eapply rtc_r. Qed.

Lemma reports_elem v b tr : EvReport v b ∈ tr -> (v, b) ∈ reports tr.
Proof. intros He. apply list_elem_of_omap. by exists (EvReport v b). Qed.

Lemma guarded_run_inv tr s : guarded_run tr s -> guarded_inv tr s.
Proof.
  induction 1 as [attempt build g k Hg Hk|tr s ev s' _ [I1 I2 I3 I4] Hs].
  { split; simpl; try done. intros v He. by apply elem_of_nil in He. }
  destruct Hs as [g' s Hs|ev k' s Hs Hq|ev k' v reply r' g' result s Hs Hreply Er Hev|s];
    simpl in *; rewrite ?app_nil_r.
  - split; simpl; eauto using reachable_more, latched_step.
  - split; simpl; [done|by eapply run_step|done|]. intros v [He|He]%elem_of_app; [by eauto|].
    apply reports_elem in He. rewrite Hq in He. by apply elem_of_nil in He.
  - pose proof (report_steps v reply _ (gd_machine s) Hreply) as Hst. rewrite Er in Hst. simpl in Hst.
    assert (Hg : reachable g') by (destruct Hst as [->|]; eauto using reachable_more).
    assert (Ht : r_tripped r' = true -> latched g').
    { destruct result as [e|].
      - rewrite (report_tripped _ _ _ _ _ _ _ Er) by done. intros ?%I3.
        destruct Hst as [->|]; eauto using latched_step.
      - intros _. apply (report_latches _ _ _ _ _ _ I3 Er). }
    split; simpl; [done|by eapply run_step|done|].
    intros w [He|He]%elem_of_app.
    + destruct result as [e|]; [rewrite (report_tripped _ _ _ _ _ _ _ Er) by done; by eauto|].
      apply (report_latches _ _ _ _ _ _ I3 Er).
    + apply reports_elem in He. rewrite Hev in He. apply list_elem_of_singleton in He as [= -> Hb].
      symmetry in Hb. apply bool_decide_eq_true_1 in Hb as ->. apply (report_latches _ _ _ _ _ _ I3 Er).
  - split; simpl; done.
Qed.

(** The session's terminal error stands for a successful report. *)
Lemma terminal_reported tr k e :
  session_run tr k -> m_terminal (k_model k) = Some e -> e = errLivenessBudget \/ e = ErrSessionDrain ->
  exists v, EvReport v true ∈ tr.
Proof.
  intros Hr Ht He. pose proof (en_terminal _ _ (si_ends _ _ (session_run_inv tr k Hr))) as E.
  rewrite Ht in E. destruct He as [-> | ->]; [apply E|exact E].
Qed.

(** A hard violation of a session latches the machine.  In every run of a
    session beside the governor, once a session has ended with a budget or
    drain error, or a report of it has returned nil, the governor is latched
    and stays so: no continuation creates or registers a lease.  A session
    whose reporter has not tripped gets its permit only while the governor is
    open and its latch is clear. *)
Theorem violation_latches tr s :
  guarded_run tr s ->
  (m_terminal (k_model (gd_session s)) = Some errLivenessBudget \/
   m_terminal (k_model (gd_session s)) = Some ErrSessionDrain \/
   (exists v, EvReport v true ∈ tr) ->
   forall g', rtc gstep (gd_machine s) g' -> latched g' /\ no_new_leases (gd_machine s) g') /\
  (forall r m', permit (bool_decide (reporter_available (gd_reporter s) (gd_machine s) = None)) r
                  (k_model (gd_session s)) = (m', None) ->
   r_tripped (gd_reporter s) = true \/
   (g_closed (gd_machine s) = false /\ ts_BlocksActiveWork (g_trip (gd_machine s)) = false)).
Proof.
  intros Hr. destruct (guarded_run_inv tr s Hr) as [I1 I2 I3 I4]. split.
  - intros Hv g' Hst. apply latched_micros; [by apply (steps_inv _ _ (reachable_inv _ I1))|].
    apply I3. assert (exists v, EvReport v true ∈ tr) as [v Hw]; [|by eapply I4].
    destruct Hv as [Hv|[Hv|Hv]]; eauto using terminal_reported.
  - intros r m' Hp. unfold reporter_available in Hp.
    destruct (r_closed (gd_reporter s) || _); [done|].
    destruct (r_tripped (gd_reporter s)); [by left|right].
    destruct (g_closed (gd_machine s)); [done|]. destruct (g_closing (gd_machine s)); [done|].
    by destruct (ts_BlocksActiveWork (g_trip (gd_machine s))).
Qed.
End guarded.
