(* ===== verification/LivenessRuns.v ===== *)
(** * Concrete liveness sessions

    A script of transitions is executed and shown to be a run ([play_run]).
    The scripts cover a ping that is admitted, written and answered, a violation
    reported by the session gate (also beside the governor it latches), and the
    teardown that follows. *)
From S2P Require Import Prelude GoStd Limits SafetyTrip Governor GovernorSteps GovernorInv GovernorMicro GovernorLocal GovernorThms GovernorRuns LivenessWire LivenessWireThms Liveness LivenessInv LivenessController LivenessChanges LivenessPhases LivenessTrace LivenessThms LivenessEmission LivenessReporter.

(** ** Scripts *)
Inductive move :=
| FrontTop (r : reading) | FrontTimer | FrontTick (r : reading)
| FrontPing (r : reading) (nonce : list Z) | FrontEnqueue
| FrontInbound | FrontPacket (r : reading) | FrontReceive (r : reading)
| FrontFinish | FrontDrain
| WriterTake | WriterPermit (r : reading) | WriterBegin (r : reading)
| WriterInject (ok : bool) | WriterEnded | WriterClear | WriterStopped
| WatchdogStopped
| DeliverStart (packet : list Z) | DeliverNext
| GateViolation (v : SessionViolation) (reported : bool) | GateStop.

Definition nonce_ok (n : list Z) : bool :=
  bool_decide (length n = 16%nat) && forallb (fun x => (0 <=? x) && (x <? 256)) n.

Definition bytes_ok (p : list Z) : bool := forallb (fun x => (0 <=? x) && (x <? 256)) p.

(** The transition a move stands for, when it is enabled. *)
Definition play_move (mv : move) (k : controller) : option (list event * controller) :=
  match mv with
  | FrontTop r =>
      match k_front k with FTop => Some ([], front_permit true r FSelect k) | _ => None end
  | FrontTimer => match k_front k with FSelect => Some ([], set_k_front FTick k) | _ => None end
  | FrontTick r => match k_front k with FTick => Some ([], front_tick r k) | _ => None end
  | FrontPing r nonce =>
      match k_front k with
      | FPing sequence =>
          if nonce_ok nonce
          then Some ((front_ping r sequence (Some nonce) k).2,
                     (front_ping r sequence (Some nonce) k).1) else None
      | _ => None
      end
  | FrontEnqueue =>
      match k_front k with
      | FEnqueue e next =>
          if bool_decide (length (k_outbound k) < chan_cap)%nat
          then Some ([], enqueue_send e next k) else None
      | _ => None
      end
  | FrontInbound =>
      match k_front k, k_inbound k with
      | FSelect, e :: rest =>
          Some ([], set_k_front (FEvent (ce_packet e) (ce_length e)) (set_k_inbound rest k))
      | _, _ => None
      end
  | FrontPacket r =>
      match k_front k with
      | FEvent packet length =>
          match permit true r (k_model k) with
          | (m, None) => Some ((front_event packet length (set_k_model m k)).2,
                               (front_event packet length (set_k_model m k)).1)
          | (m, Some e) =>
              Some ([], set_k_front (FEnd (Some e) (livenessEnd (Some e))) (set_k_model m k))
          end
      | _ => None
      end
  | FrontReceive r =>
      match k_front k with
      | FReceive packet => Some ((front_receive r packet k).2, (front_receive r packet k).1)
      | _ => None
      end
  | FrontFinish =>
      match k_front k with
      | FEnd err out => Some ([], set_k_front (FStop out) (upd_model (end_locked err) k))
      | FStop out => Some ([], set_k_front (FReturned out) (set_k_stop true k))
      | FReturned _ => Some ([], set_k_front FDrainStop (upd_model (end_locked None) k))
      | _ => None
      end
  | FrontDrain =>
      match k_front k with
      | FDrainStop => Some ([], set_k_front FDrainWriter (set_k_stop true k))
      | FDrainWriter =>
          match k_writer k with WDone => Some ([], set_k_front FDrainWatchdog k) | _ => None end
      | FDrainWatchdog =>
          match k_watchdog k with DDone => Some ([], set_k_front FDrainLock k) | _ => None end
      | FDrainLock =>
          match k_ingress k with
          | None => Some ([], set_k_front FDrainInbound (set_k_ingress (Some HeldByDrain) k))
          | Some _ => None
          end
      | FDrainInbound => Some ([], set_k_front FDrainOutbound (set_k_inbound [] k))
      | FDrainOutbound => Some ([], drain_outbound k)
      | FDrainFinal => Some ([], drain_final k)
      | _ => None
      end
  | WriterTake =>
      match k_writer k, k_outbound k with
      | WSelect, e :: rest => Some ([], set_k_writer (WPermit e) (set_k_outbound rest k))
      | _, _ => None
      end
  | WriterPermit r =>
      match k_writer k with
      | WPermit e =>
          match permit true r (k_model k) with
          | (m, None) => Some ([], set_k_writer (WBegin e) (set_k_model m k))
          | (m, Some x) => Some ([], set_k_writer (WEnd (Some x)) (set_k_model m k))
          end
      | _ => None
      end
  | WriterBegin r =>
      match k_writer k with
      | WBegin e => Some ((writer_begin r e k).2, (writer_begin r e k).1) | _ => None end
  | WriterInject ok =>
      match k_writer k with
      | WInject e => Some ([EvInject e (emission_packet e (k_model k))],
                           set_k_writer (WEndWrite e ok) k)
      | _ => None
      end
  | WriterEnded =>
      match k_writer k with WEndWrite e ok => Some ([], writer_end_write e ok k) | _ => None end
  | WriterClear =>
      match k_writer k with
      | WClear e ok => Some ([], set_k_writer (if ok then WSelect else WFailSelect)
                                   (upd_model (clear_packet e) k))
      | _ => None
      end
  | WriterStopped =>
      match k_writer k, k_stop k with
      | WSelect, true => Some ([], set_k_writer WDone k) | _, _ => None end
  | WatchdogStopped =>
      match k_watchdog k, k_stop k with
      | DSelect, true => Some ([], set_k_watchdog DDone k) | _, _ => None end
  | DeliverStart packet =>
      match k_ingress k with
      | None => if bytes_ok packet
                then Some ([], set_k_ingress (Some (DeliverCheck packet)) k) else None
      | Some _ => Some ([], set_k_inboundDrops (incr (k_inboundDrops k)) k)
      end
  | DeliverNext =>
      match k_ingress k, k_stop k with
      | Some (DeliverCheck _), true => Some ([], set_k_ingress None k)
      | Some (DeliverCheck packet), false =>
          Some ([], set_k_ingress (Some (DeliverSend packet)) k)
      | Some (DeliverSend packet), _ =>
          Some ([], set_k_ingress None (push_inbound (control_event packet) k))
      | _, _ => None
      end
  | GateViolation v reported =>
      Some ([EvGateViolation v; EvReport v reported],
            set_k_external (S (k_external k))
              (upd_model (end_locked (Some (hardViolation v reported))) k))
  | GateStop =>
      match k_external k with
      | S n => Some ([], set_k_external n (set_k_stop true k)) | O => None end
  end.

Lemma bytes_ok_spec p : bytes_ok p = true -> Forall is_byte p.
Proof.
  intros Hb. apply Forall_forall. intros x Hx%list_elem_of_In.
  unfold bytes_ok in Hb. rewrite forallb_forall in Hb. specialize (Hb x Hx).
  unfold is_byte. lia.
Qed.

Lemma nonce_ok_spec n : nonce_ok n = true -> length n = 16%nat /\ Forall is_byte n.
Proof. intros [?%bool_decide_eq_true_1 Hb]%andb_true_iff. split; [done|by apply bytes_ok_spec]. Qed.

(** The transitions of each goroutine, tried in turn. *)
Ltac enabled :=
  solve [ apply step_front; econstructor; eauto
        | apply step_writer; econstructor; eauto
        | apply step_watchdog; econstructor; eauto
        | apply step_callback; econstructor; eauto ].

Lemma play_move_sound mv k ev k' : play_move mv k = Some (ev, k') -> controller_step k ev k'.
Proof.
  intros E. destruct mv; cbn [play_move] in E;
    repeat case_match; simplify_eq; try (by enabled).
  - apply step_front. apply (front_pinged _ r (Some nonce)); [done|by apply nonce_ok_spec].
  - apply step_front, front_enqueue_send; [done|by eapply bool_decide_eq_true_1].
  - apply step_writer, (writer_clear e true). done.
  - apply step_writer, (writer_clear e false). done.
  - apply step_callback, deliver_busy. congruence.
  - apply step_callback, deliver_start; [by apply bytes_ok_spec|done].
Qed.

Fixpoint play (l : list move) (k : controller) : option (list event * controller) :=
  match l with
  | [] => Some ([], k)
  | mv :: l' =>
      match play_move mv k with
      | Some (ev, k1) =>
          match play l' k1 with Some (tr, k2) => Some (ev ++ tr, k2) | None => None end
      | None => None
      end
  end.

Lemma play_steps l k tr k' : play l k = Some (tr, k') -> controller_steps k tr k'.
Proof.
  revert k tr k'. induction l as [|mv l IH]; intros k tr k' E; simpl in E.
  - simplify_eq. apply steps_refl.
  - repeat case_match; simplify_eq. eapply steps_more; [by eapply play_move_sound|by apply IH].
Qed.

Lemma steps_run k tr' k' :
  controller_steps k tr' k' -> forall tr, session_run tr k -> session_run (tr ++ tr') k'.
Proof.
  induction 1 as [k|k ev k1 tr1 k2 Hs _ IH]; intros tr Hr; [by rewrite app_nil_r|].
  rewrite app_assoc. apply IH. by apply run_step with k.
Qed.

(** ** The session *)
Definition demo_binding : echoBinding :=
  mkBinding RoleInitiator (Addr4 10 77 0 1) (Addr4 10 77 0 2) "attempt-1" (replicate 32 7).

Definition demo_at (ms : Z) : reading :=
  mkReading (ms * Millisecond) (mkTime (10 ^ 18 + ms * Millisecond) true).

Definition demo_budget : livenessBudget :=
  match freezeLivenessBudget (10 * Minute) 2 with
  | Ok b => b | Err _ => mkBudget 0 0 0 0 0 end.

Definition demo_absolute : Time := TAdd (rd_utc (demo_at 0)) (5 * Minute).

Definition demo_armed : res lerr controller :=
  res_bind (newLivenessModel demo_binding demo_budget (Some (demo_at 0)) demo_absolute)
    (armLiveness true true (demo_at 1) true true).

(** What a script produces on the armed session. *)
Definition demo (l : list move) : option (list event * controller) :=
  match demo_armed with Ok k => play l k | Err _ => None end.

Lemma demo_run l tr k : demo l = Some (tr, k) -> session_run tr k.
Proof.
  unfold demo, demo_armed. intros E.
  destruct (newLivenessModel _ _ _ _) as [m|] eqn:Em; [|done]. cbn [res_bind] in E.
  destruct (armLiveness _ _ _ _ _ m) as [k0|] eqn:Ek; [|done].
  apply (steps_run k0 tr k (play_steps l k0 tr k E) []).
  eapply (run_arm (10 * Minute) 2); [reflexivity|done|done].
Qed.

Definition demo_nonce : list Z := replicate 16 9.

(** The first ping, at its slot after 20 seconds, reaches the interface. *)
Definition script_ping : list move :=
  [FrontTop (demo_at 20000); FrontTimer; FrontTick (demo_at 20001);
   FrontPing (demo_at 20002) demo_nonce; FrontEnqueue;
   WriterTake; WriterPermit (demo_at 20003); WriterBegin (demo_at 20004); WriterInject true;
   WriterEnded; WriterClear].

Definition demo_pong : livenessMessage := mkMessage livenessPong 1 demo_nonce.
Definition demo_pong_packet : list Z :=
  match buildLivenessPacket (peer_binding demo_binding) demo_pong with Ok p => p | Err _ => [] end.

(** The peer answers it. *)
Definition script_pong : list move :=
  script_ping ++
  [DeliverStart demo_pong_packet; DeliverNext; DeliverNext;
   FrontTop (demo_at 20100); FrontInbound; FrontPacket (demo_at 20101);
   FrontReceive (demo_at 20102)].

(** The gate reports a violation and stops the session. *)
Definition script_violation : list move :=
  script_pong ++ [GateViolation SessionControlLimit true; GateStop].

(** The workers leave and the foreground drains the session. *)
Definition script_drain : list move :=
  script_violation ++
  [WriterStopped; WatchdogStopped; FrontTop (demo_at 20200); FrontFinish; FrontFinish; FrontFinish;
   FrontDrain; FrontDrain; FrontDrain; FrontDrain; FrontDrain; FrontDrain; FrontDrain].

Definition demo_trace (l : list move) : list event :=
  match demo l with Some (tr, _) => tr | None => [] end.
Definition demo_state (l : list move) : controller :=
  match demo l with
  | Some (_, k) => k
  | None => match demo_armed with
            | Ok k => k
            | Err _ => mkController (mkModel (mkGuard 0 0 time_zero time_zero 0) demo_budget
                demo_binding 0 0 0 (mkInstant 0 time_zero) 0 0 None [] [] None true None witness_zero
                ∅ 0) true [] [] 0 None FDrainFailed WDone DDone 0 0
            end
  end.

Lemma demo_state_run l :
  (if demo l then true else false) = true -> session_run (demo_trace l) (demo_state l).
Proof.
  unfold demo_trace, demo_state. destruct (demo l) as [[tr k]|] eqn:E; [|done].
  intros _. by apply (demo_run l).
Qed.

Lemma ping_run : session_run (demo_trace script_ping) (demo_state script_ping).
Proof. apply demo_state_run. vm_compute. reflexivity. Qed.
Lemma pong_run : session_run (demo_trace script_pong) (demo_state script_pong).
Proof. apply demo_state_run. vm_compute. reflexivity. Qed.
Lemma violation_run : session_run (demo_trace script_violation) (demo_state script_violation).
Proof. apply demo_state_run. vm_compute. reflexivity. Qed.
Lemma drain_run : session_run (demo_trace script_drain) (demo_state script_drain).
Proof. apply demo_state_run. vm_compute. reflexivity. Qed.

Lemma demo_binding_wf : binding_wf demo_binding.
Proof. split; [apply bytes_ok_spec; reflexivity..|split; [reflexivity|by apply bytes_ok_spec]]. Qed.

Definition demo_ping : livenessMessage := mkMessage livenessPing 1 demo_nonce.
Definition demo_ping_packet : list Z :=
  match buildLivenessPacket demo_binding demo_ping with Ok p => p | Err _ => [] end.

Lemma demo_message_wf kind : is_byte kind -> message_wf (mkMessage kind 1 demo_nonce).
Proof.
  intros Hk. split; [done|simpl; lia|]. split; [reflexivity|by apply bytes_ok_spec].
Qed.

(** ** Witnesses *)

Lemma liveness_roundtrip_witness :
  exists p, buildLivenessPacket demo_binding demo_ping = Ok p /\ length p = 92%nat /\
    ipv4Checksum (take 20 p) = 0 /\ livenessUDPChecksum p = 0 /\
    parseLivenessPacket p (peer_binding demo_binding) = Ok demo_ping.
Proof.
  apply (liveness_roundtrip demo_binding demo_ping); [vm_compute; reflexivity|exact demo_binding_wf|].
  apply demo_message_wf. done.
Defined.

Lemma liveness_authentic_witness :
  drop 28 demo_pong_packet = liveness_payload (peer_binding demo_binding) demo_pong /\
  forall own, message_wf own -> buildLivenessPacket demo_binding own <> Ok demo_pong_packet.
Proof.
  destruct (liveness_authentic demo_pong_packet demo_binding demo_pong) as (_ & _ & _ & W);
    [apply bytes_ok_spec; vm_compute; reflexivity|exact demo_binding_wf|vm_compute; reflexivity|].
  exact W.
Defined.

Lemma liveness_rate_witness :
  admissions (demo_trace script_pong) = [20002000000] /\
  admitted_kind livenessPing (demo_trace script_pong) <=
    bu_pings (m_budget (k_model (demo_state script_pong))).
Proof.
  destruct (liveness_rate _ _ pong_run) as (_ & _ & W & _). split; [vm_compute; reflexivity|exact W].
Defined.

(** After sixty seconds only the answered ping keeps the session permitted: the
    lease of 45 seconds that began when it was armed is over. *)
Definition demo_permit : livenessModel * option lerr :=
  permit true (demo_at 60000) (k_model (demo_state script_pong)).

Lemma permit_needs_proof_witness :
  (permit true (demo_at 60000) (k_model (demo_state script_ping))).2 = Some errLivenessTimeout /\
  demo_permit.2 = None /\
  exists sent, mono_now demo_permit.1 - li_mono sent
                 < bu_lease (m_budget (k_model (demo_state script_pong))) /\
    (li_mono sent = 0 \/
     exists message packet pong, EvPing message sent ∈ demo_trace script_pong /\
       EvPong packet pong ∈ demo_trace script_pong /\
       parseLivenessPacket packet (m_binding (k_model (demo_state script_pong))) = Ok pong /\
       lm_kind pong = livenessPong /\ lm_sequence pong = lm_sequence message /\
       lm_nonce pong = lm_nonce message).
Proof.
  split; [vm_compute; reflexivity|]. split; [vm_compute; reflexivity|].
  destruct (permit_needs_proof (demo_trace script_pong) (demo_state script_pong) true
    (demo_at 60000) demo_permit.1 pong_run) as (_ & _ & _ & _ & W); [vm_compute; reflexivity|].
  exact W.
Defined.

Lemma session_blame_witness :
  m_terminal (k_model (demo_state script_violation)) = Some errLivenessBudget /\
  (EvGateViolation SessionAdmissionBypass ∈ demo_trace script_violation \/
   EvGateViolation SessionControlLimit ∈ demo_trace script_violation).
Proof.
  destruct (session_blame _ _ violation_run) as (_ & W & _).
  split; [vm_compute; reflexivity|]. apply W. vm_compute. reflexivity.
Defined.

Lemma injected_once_and_intact_witness :
  EvInject 0 demo_ping_packet ∈ demo_trace script_ping /\ NoDup (injected (demo_trace script_ping)).
Proof.
  assert (I : EvInject 0 demo_ping_packet ∈ demo_trace script_ping).
  { replace (demo_trace script_ping) with
      (take 4 (demo_trace script_ping) ++ [EvInject 0 demo_ping_packet]) by (vm_compute; reflexivity).
    apply elem_of_app. right. by apply list_elem_of_singleton. }
  split; [exact I|].
  destruct (injected_once_and_intact (demo_trace script_ping) (demo_state script_ping) 0
    demo_ping_packet ping_run) as [W _]; [|exact I|exact W].
  replace (m_binding (k_model (demo_state script_ping))) with demo_binding
    by (vm_compute; reflexivity).
  exact demo_binding_wf.
Defined.

Lemma workers_terminate_witness :
  k_writer (demo_state script_violation) = WSelect /\
  exists ev k', writer_step (demo_state script_violation) ev k'.
Proof.
  split; [vm_compute; reflexivity|].
  destruct (workers_terminate _ _ violation_run) as (_ & W & _); [vm_compute; reflexivity|].
  apply W. vm_compute. discriminate.
Defined.

(** A delivery after the drain. *)
Definition demo_late : option (list event * controller) :=
  play [DeliverStart demo_pong_packet; DeliverNext] (demo_state script_drain).
Definition demo_late_state : controller :=
  match demo_late with Some (_, k) => k | None => demo_state script_drain end.

Lemma drained_is_quiet_witness :
  k_front (demo_state script_drain) = FDrained /\
  controller_steps (demo_state script_drain) [] demo_late_state /\
  k_inbound demo_late_state = [] /\ m_writing (k_model demo_late_state) = None.
Proof.
  assert (S : controller_steps (demo_state script_drain) [] demo_late_state).
  { apply (play_steps [DeliverStart demo_pong_packet; DeliverNext]). vm_compute. reflexivity. }
  split; [vm_compute; reflexivity|]. split; [exact S|].
  destruct (drained_is_quiet _ _ _ _ drain_run ltac:(vm_compute; reflexivity) S)
    as (_ & _ & _ & W1 & _ & _ & _ & W2 & _).
  split; [exact W1|exact W2].
Defined.

(** ** The violation beside a governor *)

(** A store whose trips always persist. *)
Definition working_reply (event : SafetyTripEvent) : trip_reply :=
  (mkTripStatus SafetyTripTripped true (trip_record (mkTime 2 true) event clear_status) "",
   None, true).
#[local] Instance working_store : TripStore := fun event reply => reply = working_reply event.
#[local] Instance working_store_laws : TripStoreLaws working_store.
Proof. intros event status err called E _. injection E as -> -> ->. done. Qed.

Definition demo_machine : Governor := (AcquirePeer "p1" machine_start).1.
Lemma demo_machine_reachable : reachable demo_machine.
Proof.
  exists machine_start. split; [exact machine_start_initial|].
  apply rtc_once, step_AcquirePeer.
Qed.

Definition demo_reporter : livenessReporter := newReporter "attempt-1" "v1".
Definition demo_reply : trip_reply :=
  match violation_event demo_reporter SessionControlLimit with
  | Some event => working_reply event | None => no_reply end.

Definition demo_reported : livenessReporter * Governor * option lerr :=
  report SessionControlLimit demo_reply demo_reporter demo_machine.

Definition demo_violated : list event * controller :=
  match play_move (GateViolation SessionControlLimit true) (demo_state []) with
  | Some x => x | None => ([], demo_state []) end.

Definition demo_guarded : Guarded :=
  mkGuarded demo_reported.1.1 demo_reported.1.2 demo_violated.2.

Lemma demo_guarded_run : guarded_run demo_violated.1 demo_guarded.
Proof.
  apply (guarded_more [] (mkGuarded demo_reporter demo_machine (demo_state []))).
  - apply guarded_arm; [exact demo_machine_reachable|]. apply (demo_run []). vm_compute. reflexivity.
  - apply (guarded_report _ _ SessionControlLimit demo_reply _ _ None).
    + apply (play_move_sound (GateViolation SessionControlLimit true)). reflexivity.
    + intros event E. unfold store_reply, working_store, demo_reply. cbn in E. by simplify_eq.
    + vm_compute. reflexivity.
    + vm_compute. reflexivity.
Qed.

Lemma violation_latches_witness :
  ts_BlocksActiveWork (g_trip demo_machine) = false /\
  m_terminal (k_model (gd_session demo_guarded)) = Some errLivenessBudget /\
  latched (gd_machine demo_guarded).
Proof.
  split; [vm_compute; reflexivity|]. split; [vm_compute; reflexivity|].
  destruct (violation_latches demo_violated.1 demo_guarded demo_guarded_run) as [W _].
  refine (proj1 (W _ (gd_machine demo_guarded) (rtc_refl _ (gd_machine demo_guarded)))).
  left. vm_compute. reflexivity.
Defined.
