(* ===== verification/MeshTopology.v ===== *)
(** * Mesh topology (src/pkg/mesh/topology.go; records of
    src/pkg/peercontrol/message.go)

    Every node keeps the flooded member and link-state records and computes its
    routes from the edges both ends advertise.  Go ranges over a map in any
    order and [sort.Slice] is not stable: both are interfaces here, with the
    laws their documentation gives, and each range of a computation may use a
    different order. *)
From S2P Require Import Prelude GoStd.
From Stdlib Require Import Sorted.

(** ** Records *)
Record MemberRecord := mkMember {
  mr_NodeID : string;
  mr_Revision : Z;
  mr_LeaseMillis : Z;
  mr_VirtualIP : string;
  mr_Endpoints : list string;
  mr_Capabilities : list string;
  mr_NATProfile : string;
}.

Record LinkStateLink := mkLink {
  lk_PeerID : string;
  lk_RTTMillis : Z;
  lk_ControlOnly : bool;
}.

#[export] Instance LinkStateLink_eq_dec : EqDecision LinkStateLink.
Proof. solve_decision. Defined.

Record LinkStateAdvertisement := mkLSA {
  ls_NodeID : string;
  ls_Revision : Z;
  ls_LeaseMillis : Z;
  ls_TransitAllowed : bool;
  ls_Links : list LinkStateLink;
}.

Record Route := mkRoute {
  rt_Destination : string;
  rt_NextHop : string;
  rt_HopCount : Z;
  rt_RTT : Z;
  rt_Path : list string;
}.

Record memberState := mkMemberState {
  ms_record : MemberRecord;
  ms_expiresAt : Time;
  ms_local : bool;
}.

Record linkState := mkLinkState {
  lst_record : LinkStateAdvertisement;
  lst_expiresAt : Time;
  lst_local : bool;
}.

Record Topology := mkTopology {
  tp_localID : string;
  tp_members : gmap string memberState;
  tp_lsas : gmap string linkState;
  tp_routes : gmap string Route;
  tp_dataRoutes : gmap string Route;
}.

Inductive merr :=
| MText (text : string)
| ErrRevisionConflict
| ErrClosed
| ErrHopLimitExceeded
| ErrNoRoute
| ErrUnknownNeighbor
| ErrDataChannelUnavailable
| ErrSend
| ErrDuplicate
| ErrLoopDetected.

#[export] Instance merr_eq_dec : EqDecision merr.
Proof. solve_decision. Defined.

(** ** Ranges over maps, sorting *)
Record graphEdge := mkEdge { ge_to : string; ge_rtt : Z }.

(** [for k, v := range m]: the order of the [i]-th range of a computation. *)
Class MapRange := map_range : forall A : Type, nat -> gmap string A -> list (string * A).
Arguments map_range {_ A}.

Class MapRangeLaws (R : MapRange) :=
  map_range_perm : forall A i (m : gmap string A), map_range i m ≡ₚ map_to_list m.

(** [sort.Slice] of a slice of edges by [to]. *)
Class SortEdges := sort_edges : list graphEdge -> list graphEdge.

Class SortEdgesLaws (S : SortEdges) := {
  sort_edges_perm : forall l, sort_edges l ≡ₚ l;
  sort_edges_sorted : forall l, Sorted (fun a b => String.ltb (ge_to b) (ge_to a) = false)
                                  (sort_edges l);
}.

(** ** Costs *)
Record pathCost := mkCostOf { pc_hops : Z; pc_rtt : Z }.

#[export] Instance pathCost_eq_dec : EqDecision pathCost.
Proof. solve_decision. Defined.

(** [time.Duration] addition wraps at 64 bits. *)
Definition duration_add (x y : Z) : Z := (x + y - i64_min) mod 2 ^ 64 + i64_min.

Definition costLess (left right : pathCost) : bool :=
  if negb (pc_hops left =? pc_hops right) then pc_hops left <? pc_hops right
  else pc_rtt left <? pc_rtt right.

Fixpoint pathLess (left right : list string) : bool :=
  match left, right with
  | x :: left', y :: right' =>
      if negb (bool_decide (x = y)) then String.ltb x y else pathLess left' right'
  | [], _ :: _ => true
  | _, [] => false
  end.

Definition combinedRTT (left right : Z) : Z :=
  if (left =? 0) && (right =? 0) then Millisecond
  else if left =? 0 then right * Millisecond
  else if right =? 0 then left * Millisecond
  else (left + right) / 2 * Millisecond.

Fixpoint findLink (links : list LinkStateLink) (peerID : string) : option LinkStateLink :=
  match links with
  | [] => None
  | link :: links' => if bool_decide (lk_PeerID link = peerID) then Some link
                      else findLink links' peerID
  end.

(** ** Route computation *)

(** The edge a link of [origin] contributes, if it contributes one. *)
Definition link_edge (t : Topology) (excluded : gset string) (dataOnly : bool) (origin : string)
    (link : LinkStateLink) : option graphEdge :=
  let peer := lk_PeerID link in
  if (bool_decide (origin = tp_localID t) && bool_decide (peer ∈ excluded))
     || (bool_decide (peer = tp_localID t) && bool_decide (origin ∈ excluded)) then None else
  match tp_members t !! peer with
  | None => None
  | Some _ =>
      match tp_lsas t !! peer with
      | None => None
      | Some reverseState =>
          match findLink (ls_Links (lst_record reverseState)) origin with
          | None => None
          | Some reverse =>
              if dataOnly && (lk_ControlOnly link || lk_ControlOnly reverse) then None
              else Some (mkEdge peer (combinedRTT (lk_RTTMillis link) (lk_RTTMillis reverse)))
          end
      end
  end.

Definition add_edge (origin : string) (adjacency : gmap string (list graphEdge)) (e : graphEdge)
    : gmap string (list graphEdge) :=
  <[origin := default [] (adjacency !! origin) ++ [e]]> adjacency.

Definition add_links (t : Topology) (excluded : gset string) (dataOnly : bool)
    (adjacency : gmap string (list graphEdge)) (entry : string * linkState)
    : gmap string (list graphEdge) :=
  let '(origin, state) := entry in
  match tp_members t !! origin with
  | None => adjacency
  | Some _ =>
      fold_left (fun adjacency link =>
        match link_edge t excluded dataOnly origin link with
        | Some e => add_edge origin adjacency e
        | None => adjacency
        end) (ls_Links (lst_record state)) adjacency
  end.

Section routes.
Context {R : MapRange} {SE : SortEdges}.

Definition adjacency_of (t : Topology) (excluded : gset string) (dataOnly : bool)
    : gmap string (list graphEdge) :=
  sort_edges <$> fold_left (add_links t excluded dataOnly) (map_range 0 (tp_lsas t)) ∅.

Record search := mkSearch {
  se_dist : gmap string pathCost;
  se_paths : gmap string (list string);
  se_visited : gset string;
}.

Definition dist_of (st : search) (node : string) : pathCost :=
  default (mkCostOf 0 0) (se_dist st !! node).

Definition path_of (st : search) (node : string) : list string :=
  default [] (se_paths st !! node).

(** The candidate the inner loop settles on; the empty string is none. *)
Definition better_candidate (st : search) (current : string) (entry : string * pathCost) : string :=
  let candidate := entry.1 in
  if bool_decide (candidate ∈ se_visited st) then current
  else if bool_decide (current = "") || costLess (dist_of st candidate) (dist_of st current)
          || (bool_decide (dist_of st candidate = dist_of st current)
              && String.ltb candidate current)
  then candidate else current.

Definition next_candidate (i : nat) (st : search) : string :=
  fold_left (better_candidate st) (map_range i (se_dist st)) "".

Definition relax (current : string) (st : search) (edge : graphEdge) : search :=
  if bool_decide (ge_to edge ∈ se_visited st) then st else
  let candidateCost := mkCostOf (pc_hops (dist_of st current) + 1)
                         (duration_add (pc_rtt (dist_of st current)) (ge_rtt edge)) in
  let candidatePath := path_of st current ++ [ge_to edge] in
  if match se_dist st !! ge_to edge with
     | None => true
     | Some knownCost =>
         costLess candidateCost knownCost
         || (bool_decide (candidateCost = knownCost)
             && pathLess candidatePath (path_of st (ge_to edge)))
     end
  then mkSearch (<[ge_to edge := candidateCost]> (se_dist st))
         (<[ge_to edge := candidatePath]> (se_paths st)) (se_visited st)
  else st.

(** Whether the edges of a visited node are followed. *)
Definition expands (t : Topology) (node : string) : bool :=
  bool_decide (node = tp_localID t)
  || match tp_lsas t !! node with
     | Some state => ls_TransitAllowed (lst_record state)
     | None => false
     end.

Definition visit (t : Topology) (adjacency : gmap string (list graphEdge)) (current : string)
    (st : search) : search :=
  let st := mkSearch (se_dist st) (se_paths st) ({[current]} ∪ se_visited st) in
  if expands t current
  then fold_left (relax current) (default [] (adjacency !! current)) st else st.

(** The main loop; [None] when the fuel runs out. *)
Fixpoint search_loop (t : Topology) (adjacency : gmap string (list graphEdge)) (fuel i : nat)
    (st : search) : option search :=
  match fuel with
  | O => None
  | S fuel' =>
      let current := next_candidate i st in
      if bool_decide (current = "") then Some st
      else search_loop t adjacency fuel' (S i) (visit t adjacency current st)
  end.

Definition search_start (t : Topology) : search :=
  mkSearch {[tp_localID t := mkCostOf 0 0]} {[tp_localID t := [tp_localID t]]} ∅.

Definition route_to (st : search) (localID destination : string) (path : list string)
    : option Route :=
  match path with
  | _ :: nextHop :: _ =>
      if bool_decide (destination = localID) then None else
      Some (mkRoute destination nextHop (pc_hops (dist_of st destination))
              (pc_rtt (dist_of st destination)) path)
  | _ => None
  end.

(** Every node is visited at most once, the local one included, and the last
    round finds no candidate ([search_terminates]). *)
Definition search_fuel (t : Topology) : nat := S (S (size (tp_members t))).

Definition computeRoutesLocked (t : Topology) (excluded : gset string) (dataOnly : bool)
    : gmap string Route :=
  match search_loop t (adjacency_of t excluded dataOnly) (search_fuel t) 0 (search_start t) with
  | Some st => map_imap (route_to st (tp_localID t)) (se_paths st)
  | None => ∅
  end.

Definition recomputeLocked (t : Topology) : Topology :=
  mkTopology (tp_localID t) (tp_members t) (tp_lsas t)
    (computeRoutesLocked t ∅ false) (computeRoutesLocked t ∅ true).

(** ** Operations *)
Definition set_members (m : gmap string memberState) (t : Topology) : Topology :=
  mkTopology (tp_localID t) m (tp_lsas t) (tp_routes t) (tp_dataRoutes t).
Definition set_lsas (l : gmap string linkState) (t : Topology) : Topology :=
  mkTopology (tp_localID t) (tp_members t) l (tp_routes t) (tp_dataRoutes t).

Definition NewTopology (localID : string) : res merr Topology :=
  let localID := TrimSpace localID in
  if bool_decide (localID = "") then Err (MText "topology local node id is required")
  else Ok (mkTopology localID ∅ ∅ ∅ ∅).

Definition SetLocalMember (record : MemberRecord) (t : Topology) : Topology * option merr :=
  if negb (bool_decide (mr_NodeID record = tp_localID t))
  then (t, Some (MText "local member id does not match")) else
  if mr_Revision record =? 0 then (t, Some (MText "local member revision is required")) else
  (recomputeLocked (set_members
     (<[tp_localID t := mkMemberState record time_zero true]> (tp_members t)) t), None).

Definition SetLocalLinkState (record : LinkStateAdvertisement) (t : Topology)
    : Topology * option merr :=
  if negb (bool_decide (ls_NodeID record = tp_localID t))
  then (t, Some (MText "local link-state id does not match")) else
  if ls_Revision record =? 0 then (t, Some (MText "local link-state revision is required")) else
  (recomputeLocked (set_lsas
     (<[tp_localID t := mkLinkState record time_zero true]> (tp_lsas t)) t), None).

Definition memberRecordsEqual (left right : MemberRecord) : bool :=
  bool_decide (mr_NodeID left = mr_NodeID right) && (mr_Revision left =? mr_Revision right)
  && (mr_LeaseMillis left =? mr_LeaseMillis right)
  && bool_decide (mr_VirtualIP left = mr_VirtualIP right)
  && bool_decide (mr_NATProfile left = mr_NATProfile right)
  && bool_decide (mr_Endpoints left = mr_Endpoints right)
  && bool_decide (mr_Capabilities left = mr_Capabilities right).

Definition linkStatesEqual (left right : LinkStateAdvertisement) : bool :=
  bool_decide (ls_NodeID left = ls_NodeID right) && (ls_Revision left =? ls_Revision right)
  && (ls_LeaseMillis left =? ls_LeaseMillis right)
  && eqb (ls_TransitAllowed left) (ls_TransitAllowed right)
  && bool_decide (ls_Links left = ls_Links right).

(** [now] is what [time.Now()] returns. *)
Definition received (receivedAt now : Time) : Time := if IsZero receivedAt then now else receivedAt.

Definition ApplyMember (record : MemberRecord) (receivedAt now : Time) (t : Topology)
    : Topology * res merr bool :=
  if bool_decide (TrimSpace (mr_NodeID record) = "") || (mr_Revision record =? 0)
     || (mr_LeaseMillis record =? 0) then (t, Err (MText "invalid member record")) else
  if bool_decide (mr_NodeID record = tp_localID t) then (t, Ok false) else
  let expiresAt := TAdd (received receivedAt now) (mr_LeaseMillis record * Millisecond) in
  let install changed :=
    let t' := set_members
      (<[mr_NodeID record := mkMemberState record expiresAt false]> (tp_members t)) t in
    (if changed : bool then recomputeLocked t' else t', Ok changed) in
  match tp_members t !! mr_NodeID record with
  | None => install true
  | Some current =>
      if ms_local current then (t, Ok false) else
      if mr_Revision record <? mr_Revision (ms_record current) then (t, Ok false) else
      if (mr_Revision record =? mr_Revision (ms_record current))
         && negb (memberRecordsEqual (ms_record current) record)
      then (t, Err ErrRevisionConflict) else
      install ((mr_Revision (ms_record current) <? mr_Revision record)
               || negb (memberRecordsEqual (ms_record current) record))
  end.

Definition ApplyLinkState (record : LinkStateAdvertisement) (receivedAt now : Time) (t : Topology)
    : Topology * res merr bool :=
  if bool_decide (TrimSpace (ls_NodeID record) = "") || (ls_Revision record =? 0)
     || (ls_LeaseMillis record =? 0) then (t, Err (MText "invalid link-state record")) else
  if bool_decide (ls_NodeID record = tp_localID t) then (t, Ok false) else
  let expiresAt := TAdd (received receivedAt now) (ls_LeaseMillis record * Millisecond) in
  let install changed :=
    let t' := set_lsas
      (<[ls_NodeID record := mkLinkState record expiresAt false]> (tp_lsas t)) t in
    (if changed : bool then recomputeLocked t' else t', Ok changed) in
  match tp_lsas t !! ls_NodeID record with
  | None => install true
  | Some current =>
      if lst_local current then (t, Ok false) else
      if ls_Revision record <? ls_Revision (lst_record current) then (t, Ok false) else
      if (ls_Revision record =? ls_Revision (lst_record current))
         && negb (linkStatesEqual (lst_record current) record)
      then (t, Err ErrRevisionConflict) else
      install ((ls_Revision (lst_record current) <? ls_Revision record)
               || negb (linkStatesEqual (lst_record current) record))
  end.

Definition expire_member (now : Time) (acc : Topology * bool) (entry : string * memberState)
    : Topology * bool :=
  let '(nodeID, member) := entry in
  if negb (ms_local member) && negb (After (ms_expiresAt member) now)
  then (set_lsas (delete nodeID (tp_lsas acc.1)) (set_members (delete nodeID (tp_members acc.1)) acc.1),
        true)
  else acc.

Definition expire_lsa (now : Time) (acc : Topology * bool) (entry : string * linkState)
    : Topology * bool :=
  let '(nodeID, lsa) := entry in
  if negb (lst_local lsa) && negb (After (lst_expiresAt lsa) now)
  then (set_lsas (delete nodeID (tp_lsas acc.1)) acc.1, true) else acc.

Definition Expire (at_ now : Time) (t : Topology) : Topology * bool :=
  let now := received at_ now in
  let acc := fold_left (expire_member now) (map_range 0 (tp_members t)) (t, false) in
  let acc := fold_left (expire_lsa now) (map_range 1 (tp_lsas acc.1)) acc in
  (if acc.2 then recomputeLocked acc.1 else acc.1, acc.2).

Definition AlternateRoute (destination : string) (t : Topology) : option Route :=
  let destination := TrimSpace destination in
  if bool_decide (destination = "") || bool_decide (destination = tp_localID t) then None else
  computeRoutesLocked t {[destination]} false !! destination.

Definition NextHops (t : Topology) : gmap string string := rt_NextHop <$> tp_routes t.
Definition DataNextHops (t : Topology) : gmap string string := rt_NextHop <$> tp_dataRoutes t.
End routes.
