(* ===== verification/MeshSearch.v ===== *)
(** * The order of routes

    Routes are compared by hops, then by round-trip time, then by the names
    along the path.  This file has the order of strings and paths the source
    uses, and the order of whole routes with its properties. *)
From S2P Require Import Prelude GoStd MeshTopology.

(** ** Strings *)
Lemma ascii_compare_trans a b c :
  Ascii.compare a b = Lt -> Ascii.compare b c = Lt -> Ascii.compare a c = Lt.
Proof.
  unfold Ascii.compare. rewrite !N.compare_lt_iff. apply N.lt_trans.
Qed.

Lemma ascii_compare_refl a : Ascii.compare a a = Eq.
Proof. unfold Ascii.compare. apply N.compare_refl. Qed.

Lemma string_compare_trans a b c :
  String.compare a b = Lt -> String.compare b c = Lt -> String.compare a c = Lt.
Proof.
  revert b c. induction a as [|x a IH]; intros [|y b] [|z c]; simpl; try done.
  destruct (Ascii.compare x y) eqn:E1, (Ascii.compare y z) eqn:E2; try done; intros H1 H2.
  - apply Ascii.compare_eq_iff in E1, E2. subst. rewrite ascii_compare_refl. by eapply IH.
  - apply Ascii.compare_eq_iff in E1. subst. by rewrite E2.
  - apply Ascii.compare_eq_iff in E2. subst. by rewrite E1.
  - by rewrite (ascii_compare_trans x y z).
Qed.

Lemma string_ltb_spec a b : String.ltb a b = true <-> String.compare a b = Lt.
Proof. unfold String.ltb. by destruct (String.compare a b). Qed.

Lemma string_compare_refl a : String.compare a a = Eq.
Proof. induction a as [|x a IH]; simpl; [done|]. by rewrite ascii_compare_refl. Qed.

Lemma string_ltb_irrefl a : String.ltb a a = false.
Proof. unfold String.ltb. by rewrite string_compare_refl. Qed.

Lemma string_ltb_trans a b c :
  String.ltb a b = true -> String.ltb b c = true -> String.ltb a c = true.
Proof. rewrite !string_ltb_spec. apply string_compare_trans. Qed.

Lemma string_ltb_total a b : a <> b -> String.ltb a b = true \/ String.ltb b a = true.
Proof.
  intros Hne. rewrite !string_ltb_spec, (String.compare_antisym b a).
  destruct (String.compare a b) eqn:E; simpl; auto.
  by apply String.compare_eq_iff in E.
Qed.

(** ** Paths *)
Lemma pathLess_irrefl p : pathLess p p = false.
Proof. induction p as [|x p IH]; simpl; [done|]. by rewrite bool_decide_true by done. Qed.

Lemma pathLess_trans p q r :
  pathLess p q = true -> pathLess q r = true -> pathLess p r = true.
Proof.
  revert q r. induction p as [|x p IH]; intros [|y q] [|z r]; simpl; try done.
  destruct (decide (x = y)) as [->|Hxy], (decide (y = z)) as [->|Hyz];
    rewrite ?(bool_decide_true (z = z)), ?(bool_decide_true (y = y)) by done; simpl.
  - apply IH.
  - by rewrite bool_decide_false by done.
  - by rewrite bool_decide_false by done.
  - rewrite !bool_decide_false by done. simpl. intros H1 H2.
    pose proof (string_ltb_trans _ _ _ H1 H2) as H3. rewrite bool_decide_false; [done|].
    intros ->. by rewrite string_ltb_irrefl in H3.
Qed.

Lemma pathLess_total p q : p <> q -> pathLess p q = true \/ pathLess q p = true.
Proof.
  revert q. induction p as [|x p IH]; intros [|y q] Hne; simpl; try (by auto).
  destruct (decide (x = y)) as [->|Hxy].
  - rewrite bool_decide_true by done. simpl. apply IH. congruence.
  - rewrite !bool_decide_false by done. simpl. by apply string_ltb_total.
Qed.

Lemma pathLess_app p q l :
  length p = length q -> pathLess p q = true -> pathLess (p ++ l) (q ++ l) = true.
Proof.
  revert q. induction p as [|x p IH]; intros [|y q]; simpl; try done.
  intros Hl. case_bool_decide; simpl; [|done]. apply IH. lia.
Qed.

Lemma pathLess_cons x p q : pathLess (x :: p) (x :: q) = pathLess p q.
Proof. simpl. by rewrite bool_decide_true by done. Qed.

(** ** Routes *)
Definition key : Type := list string * Z.

Definition key_lt (k k' : key) : Prop :=
  (length k.1 < length k'.1)%nat \/
  (length k.1 = length k'.1 /\ (k.2 < k'.2 \/ (k.2 = k'.2 /\ pathLess k.1 k'.1 = true))).

Definition key_le (k k' : key) : Prop := k = k' \/ key_lt k k'.

Lemma key_lt_irrefl k : ~ key_lt k k.
Proof. unfold key_lt. rewrite pathLess_irrefl. lia. Qed.

Lemma key_lt_trans k1 k2 k3 : key_lt k1 k2 -> key_lt k2 k3 -> key_lt k1 k3.
Proof.
  unfold key_lt. intros [H1|[E1 [H1|[F1 H1]]]] [H2|[E2 [H2|[F2 H2]]]]; try (left; lia);
    right; (split; [lia|]); try (left; lia). right. split; [lia|]. by eapply pathLess_trans.
Qed.

#[export] Instance key_le_preorder : PreOrder key_le.
Proof.
  split; [by left|]. intros k1 k2 k3 [->|H1] [->|H2]; try (by right); [by left|].
  right. by eapply key_lt_trans.
Qed.

#[export] Instance key_le_antisym : AntiSymm (=) key_le.
Proof.
  intros k k' [->|H1] [E|H2]; [done|done|done|].
  exfalso. apply (key_lt_irrefl k). by eapply key_lt_trans.
Qed.

Lemma key_total k k' : key_le k k' \/ key_lt k' k.
Proof.
  destruct (decide (k = k')) as [->|Hne]; [by left; left|].
  destruct k as [p r], k' as [p' r']. unfold key_le, key_lt. simpl.
  destruct (lt_eq_lt_dec (length p) (length p')) as [[?|?]|?]; [by left; right; left| |by right; left].
  destruct (Z.lt_total r r') as [?|[->|?]]; [left; right; right; by auto| |right; right; by auto].
  assert (p <> p') as Hp by congruence.
  destruct (pathLess_total _ _ Hp); [left; right; right|right; right]; auto.
Qed.

Lemma key_le_extend p r p' r' v w :
  key_le (p, r) (p', r') -> key_le (p ++ [v], r + w) (p' ++ [v], r' + w).
Proof.
  intros [[= -> ->]|H]; [by left|]. right. unfold key_lt in *. simpl in *. rewrite !length_app.
  destruct H as [H|[E [H|[F H]]]]; [left; lia|right..]; (split; [lia|]); [left; lia|right].
  split; [lia|]. by apply pathLess_app.
Qed.

Lemma key_le_cons x p r p' r' w :
  key_le (x :: p, w + r) (x :: p', w + r') <-> key_le (p, r) (p', r').
Proof.
  unfold key_le, key_lt. cbn [fst snd length]. rewrite pathLess_cons. split.
  - intros [[= -> ?]|H]; [left; f_equal; lia|right]. destruct H as [?|[? [?|[? ?]]]].
    + left. lia.
    + right. split; [lia|]. left. lia.
    + right. split; [lia|]. right. split; [lia|done].
  - intros [[= -> ->]|H]; [by left|right]. destruct H as [?|[? [?|[? ?]]]].
    + left. lia.
    + right. split; [lia|]. left. lia.
    + right. split; [lia|]. right. split; [lia|done].
Qed.

Lemma key_le_hops k k' : key_le k k' -> (length k.1 <= length k'.1)%nat.
Proof. intros [->|[?|[? _]]]; lia. Qed.

(** The comparison of the source is the order of routes. *)
Lemma costLess_key p r p' r' :
  (costLess (mkCostOf (Z.of_nat (length p) - 1) r) (mkCostOf (Z.of_nat (length p') - 1) r')
   || (bool_decide (mkCostOf (Z.of_nat (length p) - 1) r = mkCostOf (Z.of_nat (length p') - 1) r')
       && pathLess p p')) = true <-> key_lt (p, r) (p', r').
Proof.
  unfold costLess, key_lt. simpl. rewrite orb_true_iff, andb_true_iff, bool_decide_eq_true.
  destruct (Z.eqb_spec (Z.of_nat (length p) - 1) (Z.of_nat (length p') - 1)) as [E|E]; simpl;
    rewrite Z.ltb_lt.
  - split; [intros [H|[[= H1 H2] H]]; right; (split; [lia|]); auto with lia|].
    intros [?|[? [?|[-> ?]]]]; [lia|by left|right]. split; [|done]. f_equal. lia.
  - split; [intros [H|[[= H1 H2] H]]; [left; lia|lia]|]. intros [?|[? _]]; [left; lia|lia].
Qed.

(** * The route search computes the best routes

    [walk] says which routes exist in a graph; [best] is the least of them.  The
    loop of [computeRoutesLocked] settles one node at a time: the routes of
    settled nodes are best, and every edge out of them has been considered. *)

(** ** Routes of a graph *)
Section graph.
Context (edge : string -> string -> Z -> Prop) (passes : string -> Prop) (source : string).

(** [walk p v r]: [p] leads from the source to [v] in time [r], and every node
    before the last one may be passed. *)
Inductive walk : list string -> string -> Z -> Prop :=
| walk_start : walk [source] source 0
| walk_step p u r v w : walk p u r -> passes u -> edge u v w -> walk (p ++ [v]) v (r + w).

Definition best (v : string) (p : list string) (r : Z) : Prop :=
  walk p v r /\ forall p' r', walk p' v r' -> key_le (p, r) (p', r').

Lemma walk_length p v r : walk p v r -> (1 <= length p)%nat.
Proof. destruct 1; simpl; rewrite ?length_app; simpl; lia. Qed.

Lemma walk_one p v r : walk p v r -> length p = 1%nat -> p = [source] /\ v = source /\ r = 0.
Proof.
  intros Hw. destruct Hw as [|p u r v w Hw _ _]; [done|]. pose proof (walk_length _ _ _ Hw).
  rewrite length_app. simpl. lia.
Qed.

Lemma best_unique v p r p' r' : best v p r -> best v p' r' -> p = p' /\ r = r'.
Proof.
  intros [W1 B1] [W2 B2]. assert (E : (p, r) = (p', r')); [|by simplify_eq].
  apply (anti_symm key_le); auto.
Qed.

(** Where a walk leaves a set of nodes. *)
Lemma walk_leaves (V : gset string) p v r :
  walk p v r -> v ∉ V ->
  source ∉ V \/
  exists p0 x r0 y w, walk p0 x r0 /\ x ∈ V /\ passes x /\ edge x y w /\ y ∉ V /\
    ((y = v /\ p = p0 ++ [y] /\ r = r0 + w) \/ (length p0 + 1 < length p)%nat).
Proof.
  induction 1 as [|p u r v w Hw IH Hp He]; intros Hv; [by left|].
  destruct (decide (u ∈ V)) as [Hu|Hu].
  - right. exists p, u, r, v, w. split_and!; try done. by left.
  - destruct (IH Hu) as [?|(p0 & x & r0 & y & w0 & ? & ? & ? & ? & ? & C)]; [by left|right].
    exists p0, x, r0, y, w0. split_and!; try done. right. rewrite length_app. simpl.
    destruct C as [(_ & -> & _)|C]; rewrite ?length_app; simpl; lia.
Qed.
End graph.

(** ** The search *)
Section search.
Context {R : MapRange} `{!MapRangeLaws R} (t : Topology) (adjacency : gmap string (list graphEdge)).
Context (nodes : gset string) (maxw : Z).

Definition edge_in (u v : string) (w : Z) : Prop :=
  mkEdge v w ∈ default [] (adjacency !! u).
Definition expanding (u : string) : Prop := expands t u = true.

Notation source := (tp_localID t).
Notation walk := (walk edge_in expanding source).
Notation best := (best edge_in expanding source).

Context (source_in : source ∈ nodes) (no_empty : "" ∉ nodes).
Context (edges_ok : forall u v w, edge_in u v w -> v ∈ nodes /\ 0 <= w <= maxw).
Context (no_overflow : Z.of_nat (size nodes) * maxw <= i64_max).

(** What is known about a node. *)
Definition known (st : search) (v : string) (p : list string) (r : Z) : Prop :=
  se_dist st !! v = Some (mkCostOf (Z.of_nat (length p) - 1) r) /\ se_paths st !! v = Some p.

Record search_inv (st : search) : Prop := {
  sv_dist v c : se_dist st !! v = Some c -> exists p, known st v p (pc_rtt c);
  sv_walk v p r : known st v p r -> walk p v r;
  sv_paths v p : se_paths st !! v = Some p -> exists r, known st v p r;
  sv_nodes v p r : known st v p r -> v ∈ nodes;
  sv_range v p r : known st v p r -> 0 <= r <= (Z.of_nat (length p) - 1) * maxw;
  sv_hops v p r : known st v p r -> (length p <= 1 + size (se_visited st))%nat;
  sv_source : known st source [source] 0;
  sv_visited v : v ∈ se_visited st -> exists p r, known st v p r /\ best v p r;
}.

(** The edge to [v] of weight [w] out of a node known by [p] and [r] has been
    considered. *)
Definition considered (st : search) (p : list string) (r : Z) (v : string) (w : Z) : Prop :=
  exists p' r', known st v p' r' /\ key_le (p', r') (p ++ [v], r + w).

Definition frontier (st : search) (V : gset string) : Prop :=
  forall u p r v w, u ∈ V -> known st u p r -> expanding u -> edge_in u v w ->
    considered st p r v w.

(** A relaxation improves the unsettled nodes and leaves the settled ones. *)
Record improves (st st' : search) : Prop := {
  im_visited : se_visited st' = se_visited st;
  im_settled v p r : v ∈ se_visited st -> known st' v p r <-> known st v p r;
  im_known v p r : known st v p r ->
    exists p' r', known st' v p' r' /\ key_le (p', r') (p, r);
}.

Lemma known_unique st v p r p' r' : known st v p r -> known st v p' r' -> p = p' /\ r = r'.
Proof. intros [H1 H2] [H3 H4]. by simplify_eq. Qed.

Lemma known_insert st v p r v' :
  let st' := mkSearch (<[v := mkCostOf (Z.of_nat (length p) - 1) r]> (se_dist st))
               (<[v := p]> (se_paths st)) (se_visited st) in
  forall p' r', known st' v' p' r' <-> (v' = v /\ p' = p /\ r' = r) \/ (v' <> v /\ known st v' p' r').
Proof.
  intros st' p' r'. unfold known, st'. simpl. destruct (decide (v' = v)) as [->|Hne].
  - rewrite !lookup_insert_eq. split.
    + intros [[= E1 E2] [= ->]]. left. split_and!; try done.
    + intros [(_ & -> & ->)|[? _]]; done.
  - rewrite !lookup_insert_ne by done. naive_solver.
Qed.

#[export] Instance improves_preorder : PreOrder improves.
Proof.
  split.
  - intros st. split; [done|done|]. intros v p r K. exists p, r. split; [done|reflexivity].
  - intros s1 s2 s3 [A1 A2 A3] [B1 B2 B3]. split.
    + congruence.
    + intros v p r Hv. rewrite B2 by congruence. by apply A2.
    + intros v p r K. destruct (A3 v p r K) as (p2 & r2 & K2 & L2).
      destruct (B3 v p2 r2 K2) as (p3 & r3 & K3 & L3). exists p3, r3. split; [done|]. by etrans.
Qed.

Lemma considered_improves st st' p r v w :
  improves st st' -> considered st p r v w -> considered st' p r v w.
Proof.
  intros I (p' & r' & K & L). destruct (im_known _ _ I _ _ _ K) as (p2 & r2 & K2 & L2).
  exists p2, r2. split; [done|]. by etrans.
Qed.

Lemma frontier_improves st st' V :
  V ⊆ se_visited st -> improves st st' -> frontier st V -> frontier st' V.
Proof.
  intros HV I Fr u p r v w Hu K He Hw. apply (considered_improves st); [done|].
  apply (Fr u); try done. apply (im_settled _ _ I); [set_solver|done].
Qed.

(** Sums of round-trip times do not wrap. *)
Lemma duration_add_small x y : 0 <= x -> 0 <= y -> x + y <= i64_max -> duration_add x y = x + y.
Proof.
  intros ? ? Hm. unfold duration_add. rewrite Z.mod_small; [lia|].
  unfold i64_min, i64_max in *. lia.
Qed.

(** *** The next candidate *)
Lemma costLess_hops a b : costLess a b = false -> pc_hops b <= pc_hops a.
Proof. unfold costLess. case (Z.eqb_spec (pc_hops a) (pc_hops b)); simpl; lia. Qed.

Lemma costLess_hops_true a b : costLess a b = true -> pc_hops a <= pc_hops b.
Proof. unfold costLess. case (Z.eqb_spec (pc_hops a) (pc_hops b)); simpl; lia. Qed.

Lemma better_candidate_spec st cur c x :
  x <> "" -> let cur' := better_candidate st cur (x, c) in
  (cur' = cur \/ (cur' = x /\ x ∉ se_visited st)) /\
  (cur <> "" -> cur' <> "" /\ pc_hops (dist_of st cur') <= pc_hops (dist_of st cur)) /\
  (x ∉ se_visited st -> cur' <> "" /\ pc_hops (dist_of st cur') <= pc_hops (dist_of st x)).
Proof.
  intros Hx cur'. unfold cur', better_candidate. simpl.
  case_bool_decide as Hv; [split_and!; [by left|done|done]|].
  destruct (bool_decide (cur = "")) eqn:Ec; simpl.
  { apply bool_decide_eq_true_1 in Ec. split_and!; [by right|done|done]. }
  apply bool_decide_eq_false_1 in Ec.
  destruct (costLess (dist_of st x) (dist_of st cur)) eqn:El; simpl.
  { apply costLess_hops_true in El. split_and!; [by right|done|done]. }
  apply costLess_hops in El.
  case_bool_decide as Ed; simpl; [|split_and!; [by left|done|done]].
  destruct (String.ltb x cur); simpl; [|split_and!; [by left|done|done]].
  rewrite Ed in *. split_and!; [by right|done|done].
Qed.

Lemma candidates_spec st l cur :
  (forall x c, (x, c) ∈ l -> x <> "") ->
  let cur' := fold_left (better_candidate st) l cur in
  (cur' = cur \/ exists c, (cur', c) ∈ l /\ cur' ∉ se_visited st) /\
  (cur <> "" -> cur' <> "" /\ pc_hops (dist_of st cur') <= pc_hops (dist_of st cur)) /\
  (forall x c, (x, c) ∈ l -> x ∉ se_visited st ->
     cur' <> "" /\ pc_hops (dist_of st cur') <= pc_hops (dist_of st x)).
Proof.
  revert cur. induction l as [|[x c] l IH]; intros cur Hne; simpl.
  { split_and!; [by left|done|]. intros x c Hx. by apply elem_of_nil in Hx. }
  destruct (better_candidate_spec st cur c x) as (A1 & A2 & A3); [by eapply Hne, list_elem_of_here|].
  destruct (IH (better_candidate st cur (x, c))) as (B1 & B2 & B3).
  { intros y d Hy. eapply Hne. by apply list_elem_of_further. }
  set (cur1 := better_candidate st cur (x, c)) in *.
  set (cur' := fold_left (better_candidate st) l cur1) in *. split_and!.
  - destruct B1 as [->|(d & Hd & Hv)]; [|right; exists d; split; [by apply list_elem_of_further|done]].
    destruct A1 as [->|[-> Hv]]; [by left|right]. exists c. split; [by apply list_elem_of_here|done].
  - intros Hc. destruct (A2 Hc) as [? ?]. destruct (B2 ltac:(done)) as [? ?]. split; [done|lia].
  - intros y d [[= -> ->]|Hy]%elem_of_cons Hv; [|by eapply B3].
    destruct (A3 Hv) as [? ?]. destruct (B2 ltac:(done)) as [? ?]. split; [done|lia].
Qed.

Lemma next_candidate_spec i st :
  search_inv st ->
  let c := next_candidate i st in
  (c = "" -> forall v p r, known st v p r -> v ∈ se_visited st) /\
  (c <> "" -> c ∉ se_visited st /\ exists p r, known st c p r /\
     forall v p' r', known st v p' r' -> v ∉ se_visited st -> (length p <= length p')%nat).
Proof.
  intros I c. assert (Hl : forall x d, (x, d) ∈ map_range i (se_dist st) <-> se_dist st !! x = Some d).
  { intros x d. rewrite (map_range_perm _ i). apply elem_of_map_to_list. }
  destruct (candidates_spec st (map_range i (se_dist st)) "") as (A & _ & B).
  { intros x d Hx%Hl ->. apply (sv_dist _ I) in Hx as [p Hp].
    by apply no_empty, (sv_nodes _ I _ _ _ Hp). }
  fold (next_candidate i st) in A, B. fold c in A, B. split.
  - intros Hc v p r [K1 K2]. destruct (decide (v ∈ se_visited st)); [done|].
    destruct (B v _ (proj2 (Hl _ _) K1)) as [? _]; done.
  - intros Hc. destruct A as [?|(d & Hd & Hv)]; [done|]. split; [done|].
    apply Hl, (sv_dist _ I) in Hd as [p K]. exists p, (pc_rtt d). split; [done|].
    intros v p' r' K' Hv'. destruct (B v _ (proj2 (Hl _ _) (proj1 K')) Hv') as [_ Hh].
    unfold dist_of in Hh. rewrite (proj1 K), (proj1 K') in Hh. simpl in Hh. lia.
Qed.

(** *** The candidate is settled *)
Lemma candidate_best st c p r :
  search_inv st -> frontier st (se_visited st) -> known st c p r -> c ∉ se_visited st ->
  (forall v p' r', known st v p' r' -> v ∉ se_visited st -> (length p <= length p')%nat) ->
  best c p r.
Proof.
  intros I Fr K Hc Hmin. split; [by apply (sv_walk _ I)|]. intros q s Hw.
  destruct (walk_leaves _ _ _ _ _ _ _ Hw Hc)
    as [Hs|(p0 & x & r0 & y & w & Hw0 & Hx & Hpx & He & Hy & C)].
  - pose proof (Hmin _ _ _ (sv_source _ I) Hs) as Hl. simpl in Hl.
    pose proof (walk_length _ _ _ _ _ _ (sv_walk _ I _ _ _ K)).
    pose proof (walk_length _ _ _ _ _ _ Hw).
    destruct (walk_one _ _ _ _ _ _ (sv_walk _ I _ _ _ K)) as (-> & -> & ->); [lia|].
    destruct (decide (length q = 1%nat)) as [Hq|Hq].
    + destruct (walk_one _ _ _ _ _ _ Hw Hq) as (-> & _ & ->). by left.
    + right. left. simpl. lia.
  - destruct (sv_visited _ I x Hx) as (px & rx & Kx & [_ Bx]).
    destruct (Fr x px rx y w Hx Kx Hpx He) as (py & ry & Ky & Ly).
    assert (L : key_le (py, ry) (p0 ++ [y], r0 + w)).
    { etrans; [exact Ly|]. by apply key_le_extend, Bx. }
    destruct C as [(-> & -> & ->)|C].
    + destruct (known_unique _ _ _ _ _ _ K Ky) as [-> ->]. done.
    + right. left. simpl. apply key_le_hops in L. simpl in L. rewrite length_app in L.
      pose proof (Hmin _ _ _ Ky Hy). simpl in *. lia.
Qed.

(** *** Relaxation *)
Lemma visited_nodes st : search_inv st -> (size (se_visited st) <= size nodes)%nat.
Proof.
  intros I. apply subseteq_size. intros v Hv. destruct (sv_visited _ I v Hv) as (p & r & K & _).
  by apply (sv_nodes _ I _ _ _ K).
Qed.

Lemma relax_cost st c p r v w :
  search_inv st -> known st c p r -> edge_in c v w -> (length p <= size (se_visited st))%nat ->
  duration_add r w = r + w /\ 0 <= r + w <= Z.of_nat (length p) * maxw.
Proof.
  intros I K He Hl. destruct (edges_ok _ _ _ He) as [_ Hw]. pose proof (sv_range _ I _ _ _ K).
  pose proof (visited_nodes _ I). split; [apply duration_add_small|]; nia.
Qed.

(** Replacing what is known of an unsettled node by a better route. *)
Lemma update_inv st v p r :
  search_inv st -> v ∉ se_visited st -> walk p v r -> v ∈ nodes ->
  0 <= r <= (Z.of_nat (length p) - 1) * maxw -> (length p <= 1 + size (se_visited st))%nat ->
  v <> source ->
  let st' := mkSearch (<[v := mkCostOf (Z.of_nat (length p) - 1) r]> (se_dist st))
               (<[v := p]> (se_paths st)) (se_visited st) in
  search_inv st'.
Proof.
  intros I Hv Hw Hn Hr Hl Hs st'. assert (K' : forall v' p' r', known st' v' p' r' <-> _)
    by (intros v' p' r'; apply (known_insert st v p r v' p' r')).
  split; simpl.
  - intros u c. destruct (decide (u = v)) as [->|Hne].
    + rewrite lookup_insert_eq. intros [= <-]. exists p. apply K'. by left.
    + rewrite lookup_insert_ne by done. intros [q Hq]%(sv_dist _ I). exists q. apply K'. by right.
  - intros u q s [(-> & -> & ->)|[_ ?]]%K'; [done|]. by apply (sv_walk _ I).
  - intros u q. destruct (decide (u = v)) as [->|Hne].
    + rewrite lookup_insert_eq. intros [= <-]. exists r. apply K'. by left.
    + rewrite lookup_insert_ne by done. intros [s Hq]%(sv_paths _ I). exists s. apply K'. by right.
  - intros u q s [(-> & -> & ->)|[_ ?]]%K'; [done|]. by eapply (sv_nodes _ I).
  - intros u q s [(-> & -> & ->)|[_ ?]]%K'; [done|]. by eapply (sv_range _ I).
  - intros u q s [(-> & -> & ->)|[_ ?]]%K'; [done|]. by eapply (sv_hops _ I).
  - apply K'. right. split; [done|]. apply I.
  - intros u Hu. destruct (sv_visited _ I u Hu) as (q & s & Kq & B). exists q, s. split; [|done].
    apply K'. right. split; [set_solver|done].
Qed.

Lemma update_improves st v p r :
  v ∉ se_visited st -> (forall p' r', known st v p' r' -> key_le (p, r) (p', r')) ->
  improves st (mkSearch (<[v := mkCostOf (Z.of_nat (length p) - 1) r]> (se_dist st))
                 (<[v := p]> (se_paths st)) (se_visited st)).
Proof.
  intros Hv Hle. split; [done| |].
  - intros u q s Hu. rewrite known_insert. split; [|intros ?; right; split; [set_solver|done]].
    intros [(-> & _)|[_ ?]]; done.
  - intros u q s K. destruct (decide (u = v)) as [->|Hne].
    + exists p, r. rewrite known_insert. split; [by left|by apply Hle].
    + exists q, s. rewrite known_insert. split; [by right|reflexivity].
Qed.

Lemma relax_spec st c p r v w :
  search_inv st -> known st c p r -> expanding c -> edge_in c v w -> c ∈ se_visited st ->
  (length p <= size (se_visited st))%nat ->
  let st' := relax c st (mkEdge v w) in
  search_inv st' /\ improves st st' /\ considered st' p r v w.
Proof.
  intros I K Hc He Hv Hl. destruct (relax_cost _ _ _ _ _ _ I K He Hl) as [Ed Hr].
  assert (Hw : walk (p ++ [v]) v (r + w)) by (econstructor; [by apply (sv_walk _ I)|done..]).
  unfold relax. simpl ge_to. simpl ge_rtt. case_bool_decide as Hvis.
  { split; [done|]. split; [reflexivity|].
    destruct (sv_visited _ I v Hvis) as (q & s & Kq & [_ B]). exists q, s. split; [done|]. by apply B. }
  unfold dist_of, path_of. rewrite (proj1 K), (proj2 K). simpl. rewrite Ed.
  replace (Z.of_nat (length p) - 1 + 1) with (Z.of_nat (length (p ++ [v])) - 1)
    by (rewrite length_app; simpl; lia).
  assert (Hup : (forall p' r', known st v p' r' -> key_le (p ++ [v], r + w) (p', r')) ->
    let st' := mkSearch (<[v := mkCostOf (Z.of_nat (length (p ++ [v])) - 1) (r + w)]> (se_dist st))
      (<[v := p ++ [v]]> (se_paths st)) (se_visited st) in
    search_inv st' /\ improves st st' /\ considered st' p r v w).
  { intros Hle st'. split_and!.
    - apply update_inv; try done.
      + by apply (edges_ok _ _ _ He).
      + rewrite length_app. simpl. nia.
      + rewrite length_app. simpl. lia.
      + intros ->. pose proof (Hle _ _ (sv_source _ I)) as Hk%key_le_hops. simpl in Hk.
        rewrite length_app in Hk. simpl in Hk.
        pose proof (walk_length _ _ _ _ _ _ (sv_walk _ I _ _ _ K)). lia.
    - by apply update_improves.
    - exists (p ++ [v]), (r + w). split; [|reflexivity]. apply known_insert. by left. }
  destruct (se_dist st !! v) as [k|] eqn:Ek.
  - destruct (sv_dist _ I _ _ Ek) as [q Kq]. destruct k as [h s]. simpl in Kq.
    assert (h = Z.of_nat (length q) - 1) as -> by (destruct Kq; congruence).
    rewrite (proj2 Kq). simpl. set (b := _ || _). destruct b eqn:Eb; unfold b in Eb.
    + apply Hup. intros p' r' K'. destruct (known_unique _ _ _ _ _ _ Kq K') as [-> <-].
      right. by apply costLess_key in Eb.
    + split; [done|]. split; [reflexivity|]. exists q, s. split; [done|].
      destruct (key_total (q, s) (p ++ [v], r + w)) as [?|Hlt]; [done|].
      exfalso. apply costLess_key in Hlt. congruence.
  - apply Hup. intros p' r' [K' _]. congruence.
Qed.

Lemma relax_all st c p r l :
  search_inv st -> known st c p r -> expanding c -> c ∈ se_visited st ->
  (length p <= size (se_visited st))%nat -> (forall e, e ∈ l -> edge_in c (ge_to e) (ge_rtt e)) ->
  let st' := fold_left (relax c) l st in
  search_inv st' /\ improves st st' /\
  forall e, e ∈ l -> considered st' p r (ge_to e) (ge_rtt e).
Proof.
  revert st. induction l as [|[v w] l IH]; intros st I K Hc Hv Hl He; simpl.
  { split; [done|]. split; [reflexivity|]. intros e Hx. by apply elem_of_nil in Hx. }
  destruct (relax_spec st c p r v w) as (I1 & M1 & C1); try done.
  { apply (He (mkEdge v w)). by apply list_elem_of_here. }
  destruct (IH (relax c st (mkEdge v w))) as (I2 & M2 & C2); try done.
  - by apply (im_settled _ _ M1).
  - by rewrite (im_visited _ _ M1).
  - by rewrite (im_visited _ _ M1).
  - intros e Hx. apply He. by apply list_elem_of_further.
  - split; [done|]. split; [by etrans|]. intros e [->|Hx]%elem_of_cons; [|by apply C2].
    by eapply considered_improves.
Qed.

Lemma mark_inv st c p r :
  search_inv st -> known st c p r -> best c p r -> c ∉ se_visited st ->
  search_inv (mkSearch (se_dist st) (se_paths st) ({[c]} ∪ se_visited st)).
Proof.
  intros I K B Hc. split; simpl; try apply I.
  - intros v q s Kq. etrans; [by apply (sv_hops _ I _ _ _ Kq)|].
    rewrite size_union by set_solver. lia.
  - intros v [->%elem_of_singleton|Hv]%elem_of_union; [by exists p, r|by apply (sv_visited _ I)].
Qed.

Lemma visit_spec st c p r :
  search_inv st -> frontier st (se_visited st) -> known st c p r -> c ∉ se_visited st -> best c p r ->
  let st' := visit t adjacency c st in
  search_inv st' /\ frontier st' (se_visited st') /\ se_visited st' = {[c]} ∪ se_visited st.
Proof.
  intros I Fr K Hc B. pose proof (mark_inv st c p r I K B Hc) as I1. unfold visit.
  set (st1 := mkSearch (se_dist st) (se_paths st) ({[c]} ∪ se_visited st)) in *.
  assert (K1 : known st1 c p r) by done.
  assert (Fr1 : frontier st1 (se_visited st)) by done.
  destruct (expands t c) eqn:He.
  - destruct (relax_all st1 c p r (default [] (adjacency !! c))) as (I2 & M2 & C2); try done.
    + simpl. set_solver.
    + simpl. rewrite size_union by set_solver. rewrite size_singleton.
      apply (sv_hops _ I _ _ _ K).
    + intros [v w] Hx. exact Hx.
    + split; [done|]. split; [|by rewrite (im_visited _ _ M2)].
      rewrite (im_visited _ _ M2). simpl.
      intros u q s v w [->%elem_of_singleton|Hu]%elem_of_union Kq Hx Hw.
      * assert (known st1 c q s) as K2 by (apply (im_settled _ _ M2); [simpl; set_solver|done]).
        destruct (known_unique _ _ _ _ _ _ K1 K2) as [<- <-]. by apply (C2 (mkEdge v w)).
      * by apply (frontier_improves st1 _ (se_visited st) ltac:(simpl; set_solver) M2 Fr1 u).
  - split; [done|]. split; [|done]. intros u q s v w [->%elem_of_singleton|Hu]%elem_of_union Kq Hx Hw.
    + unfold expanding in Hx. congruence.
    + by apply (Fr1 u).
Qed.

Lemma search_loop_spec fuel i st :
  search_inv st -> frontier st (se_visited st) -> (size nodes < fuel + size (se_visited st))%nat ->
  exists st', search_loop t adjacency fuel i st = Some st' /\ search_inv st' /\
    frontier st' (se_visited st') /\ forall v p r, known st' v p r -> v ∈ se_visited st'.
Proof.
  revert i st. induction fuel as [|fuel IH]; intros i st I Fr Hf.
  { pose proof (visited_nodes st I). lia. }
  simpl. destruct (next_candidate_spec i st I) as [N1 N2].
  case_bool_decide as Hc; [exists st; split_and!; [done..|exact (N1 Hc)]|].
  destruct (N2 Hc) as (Hv & p & r & K & Hmin).
  destruct (visit_spec st (next_candidate i st) p r) as (I' & Fr' & E); try done.
  { by eapply candidate_best. }
  apply IH; try done. rewrite E, size_union by set_solver. rewrite size_singleton. lia.
Qed.

Lemma start_inv : search_inv (search_start t).
Proof.
  assert (K : forall v p r, known (search_start t) v p r <-> v = source /\ p = [source] /\ r = 0).
  { intros v p r. unfold known, search_start. simpl. rewrite !lookup_singleton_Some. split.
    - intros [[<- [= ? <-]] [_ <-]]. done.
    - intros (-> & -> & ->). done. }
  split.
  - intros v c. unfold search_start. simpl. rewrite lookup_singleton_Some. intros [<- <-].
    exists [source]. by apply K.
  - intros v p r (-> & -> & ->)%K. constructor.
  - intros v p. unfold search_start. simpl. rewrite lookup_singleton_Some. intros [<- <-].
    exists 0. by apply K.
  - intros v p r (-> & -> & ->)%K. done.
  - intros v p r (-> & -> & ->)%K. simpl. lia.
  - intros v p r (-> & -> & ->)%K. simpl. lia.
  - by apply K.
  - intros v Hv. simpl in Hv. set_solver.
Qed.

(** The search ends, and knows exactly the best routes. *)
Lemma search_complete fuel :
  (size nodes < fuel)%nat ->
  exists st, search_loop t adjacency fuel 0 (search_start t) = Some st /\ search_inv st /\
    (forall v p r, known st v p r <-> best v p r) /\
    (forall v p r, walk p v r -> exists p' r', best v p' r').
Proof.
  intros Hf. destruct (search_loop_spec fuel 0 (search_start t)) as (st & E & I & Fr & Hall).
  { exact start_inv. }
  { intros u p r v w Hu. simpl in Hu. set_solver. }
  { lia. }
  assert (K1 : forall v p r, known st v p r -> best v p r).
  { intros v p r K. destruct (sv_visited _ I v (Hall _ _ _ K)) as (q & s & Kq & B).
    by destruct (known_unique _ _ _ _ _ _ K Kq) as [-> ->]. }
  assert (K2 : forall v p r, walk p v r -> exists p' r', known st v p' r').
  { induction 1 as [|p u r v w _ (q & s & Kq) Hp He].
    - exists [source], 0. apply I.
    - destruct (Fr u q s v w) as (p' & r' & K' & _); eauto. }
  exists st. split_and!; [done|done| |].
  - intros v p r. split; [apply K1|]. intros B. destruct (K2 v p r (proj1 B)) as (q & s & Kq).
    by destruct (best_unique _ _ _ _ _ _ _ _ (K1 _ _ _ Kq) B) as [-> ->].
  - intros v p r Hw. destruct (K2 v p r Hw) as (q & s & Kq). eauto.
Qed.
End search.
