(* ===== verification/MeshRoutes.v ===== *)
(** * Route tables hold the best routes

    [advertised] is the graph the records describe: an edge needs both ends to
    be members and to advertise each other.  [reference_route] is the route a
    table should hold; [computeRoutesLocked] computes exactly these, and the
    operations of [Topology] keep both tables in step with the records. *)
From S2P Require Import Prelude GoStd MeshTopology MeshSearch.

(** ** The advertised graph

    An edge needs two members that advertise each other (of several links of one
    node to the same peer the first answers); edges between the local node and an
    excluded one do not count, nor, for data, those that either end keeps for
    control.  A path may pass through the local node and through nodes that
    allow transit. *)
Definition answers (links : list LinkStateLink) (peer : string) (link : LinkStateLink) : Prop :=
  exists before after, links = before ++ link :: after /\ lk_PeerID link = peer /\
    Forall (fun l => lk_PeerID l <> peer) before.

Definition advertised (t : Topology) (excluded : gset string) (dataOnly : bool)
    (u v : string) (w : Z) : Prop :=
  is_Some (tp_members t !! u) /\ is_Some (tp_members t !! v) /\
  ~ (u = tp_localID t /\ v ∈ excluded) /\ ~ (v = tp_localID t /\ u ∈ excluded) /\
  exists state link state' link',
    tp_lsas t !! u = Some state /\ link ∈ ls_Links (lst_record state) /\ lk_PeerID link = v /\
    tp_lsas t !! v = Some state' /\ answers (ls_Links (lst_record state')) u link' /\
    (dataOnly = true -> lk_ControlOnly link = false /\ lk_ControlOnly link' = false) /\
    w = combinedRTT (lk_RTTMillis link) (lk_RTTMillis link').

Definition allows_transit (t : Topology) (u : string) : Prop :=
  exists s, tp_lsas t !! u = Some s /\ ls_TransitAllowed (lst_record s) = true.
Definition transits (t : Topology) (u : string) : Prop := u = tp_localID t \/ allows_transit t u.

Lemma findLink_answers links peer link : findLink links peer = Some link <-> answers links peer link.
Proof.
  unfold answers. induction links as [|l links IH]; cbn [findLink].
  { split; [done|]. by intros ([|] & ? & ? & _). }
  case_bool_decide as Hp.
  - split.
    + intros [= <-]. exists [], links. by split_and!.
    + intros ([|b before] & after & E & Hl & Hb); injection E as -> _; [done|].
      apply Forall_cons in Hb as [? _]. done.
  - rewrite IH. split.
    + intros (before & after & -> & Hl & Hb). exists (l :: before), after. by split_and!; [|done|constructor].
    + intros ([|b before] & after & E & Hl & Hb); injection E as -> E; [done|].
      apply Forall_cons in Hb as [_ Hb]. eauto 6.
Qed.

(** The edges of the code are the advertised ones. *)
Lemma advertised_edge t excluded dataOnly u v w :
  advertised t excluded dataOnly u v w <->
  is_Some (tp_members t !! u) /\
  exists state link, tp_lsas t !! u = Some state /\ link ∈ ls_Links (lst_record state) /\
    link_edge t excluded dataOnly u link = Some (mkEdge v w).
Proof.
  unfold advertised, link_edge. split.
  - intros (Hu & [m Hv] & H1 & H2 & s & l & s' & l' & Hs & Hl & <- & Hs' & Ha & Hd & ->). split; [done|].
    exists s, l. split_and!; [done..|]. rewrite Hv, Hs', (proj2 (findLink_answers _ _ _) Ha).
    destruct (_ || _) eqn:E.
    { apply orb_true_iff in E as [[?%bool_decide_eq_true ?%bool_decide_eq_true]%andb_true_iff
        |[?%bool_decide_eq_true ?%bool_decide_eq_true]%andb_true_iff]; naive_solver. }
    destruct dataOnly; [|done]. by destruct (Hd eq_refl) as [-> ->].
  - intros (Hu & s & l & Hs & Hl & E).
    destruct (_ || _) eqn:Ex; [done|]. destruct (tp_members t !! lk_PeerID l) as [m|] eqn:Em; [|done].
    destruct (tp_lsas t !! lk_PeerID l) as [s'|] eqn:Er; [|done].
    destruct (findLink _ u) as [l'|] eqn:Ef; [|done]. destruct (dataOnly && _) eqn:Ed; [done|].
    injection E as <- <-. rewrite Em. apply orb_false_iff in Ex as [E1 E2].
    rewrite andb_false_iff, !bool_decide_eq_false in E1, E2. split_and!; [done|done|tauto|tauto|].
    exists s, l, s', l'. split_and!; try done; [by apply findLink_answers|]. intros ->.
    apply orb_false_iff. done.
Qed.

Lemma transits_expands t u : transits t u <-> expands t u = true.
Proof.
  unfold transits, expands, allows_transit. rewrite orb_true_iff, bool_decide_eq_true. f_equiv.
  destruct (tp_lsas t !! u) as [s|]; naive_solver.
Qed.

(** The route from the local node: least in hops, then in round-trip time, then
    in the names along the path. *)
Definition reference_route (t : Topology) (excluded : gset string) (dataOnly : bool)
    (destination : string) (route : Route) : Prop :=
  destination <> tp_localID t /\
  exists path rtt nextHop,
    best (advertised t excluded dataOnly) (transits t) (tp_localID t) destination path rtt /\
    path !! 1%nat = Some nextHop /\
    route = mkRoute destination nextHop (Z.of_nat (length path) - 1) rtt path.

(** ** Well-formed databases *)
Definition max_members : Z := 2000.

Definition rtt_ok (record : LinkStateAdvertisement) : Prop :=
  Forall (fun link => 0 <= lk_RTTMillis link < 2 ^ 32) (ls_Links record).

Record topology_wf (t : Topology) : Prop := {
  tw_local : tp_localID t <> "";
  tw_members : tp_members t !! "" = None;
  tw_rtt id state : tp_lsas t !! id = Some state -> rtt_ok (lst_record state);
}.

Definition small (t : Topology) : Prop := Z.of_nat (size (tp_members t)) <= max_members.

(** ** Adjacency lists *)
Lemma findLink_elem links peer link :
  findLink links peer = Some link -> link ∈ links /\ lk_PeerID link = peer.
Proof.
  induction links as [|l links IH]; simpl; [done|]. case_bool_decide as E.
  - intros [= <-]. split; [by apply list_elem_of_here|done].
  - intros H%IH. split; [apply list_elem_of_further|]; apply H.
Qed.

Lemma combinedRTT_range l r :
  0 <= l < 2 ^ 32 -> 0 <= r < 2 ^ 32 -> 0 <= combinedRTT l r <= (2 ^ 32 - 1) * Millisecond.
Proof.
  intros Hl Hr. unfold combinedRTT, Millisecond.
  destruct (Z.eqb_spec l 0), (Z.eqb_spec r 0); simpl; try lia.
  pose proof (Z.div_pos (l + r) 2). pose proof (Z.div_lt_upper_bound (l + r) 2 (2 ^ 32)). lia.
Qed.

Lemma combinedRTT_comm l r : combinedRTT l r = combinedRTT r l.
Proof.
  unfold combinedRTT. rewrite (Z.add_comm r l).
  destruct (Z.eqb_spec l 0), (Z.eqb_spec r 0); subst; done.
Qed.

Lemma advertised_ok t excluded dataOnly u v w :
  topology_wf t -> advertised t excluded dataOnly u v w ->
  v ∈ dom (tp_members t) /\ 0 <= w <= (2 ^ 32 - 1) * Millisecond.
Proof.
  intros W (_ & state & link & Hs & Hl & He)%advertised_edge. unfold link_edge in He.
  destruct (_ || _); [done|]. destruct (tp_members t !! lk_PeerID link) eqn:Em; [|done].
  destruct (tp_lsas t !! lk_PeerID link) as [rs|] eqn:Er; [|done].
  destruct (findLink _ u) as [reverse|] eqn:Ef; [|done]. destruct (dataOnly && _); [done|].
  injection He as <- <-. split; [by apply elem_of_dom|].
  apply findLink_elem in Ef as [Hr _].
  pose proof (tw_rtt _ W _ _ Hs) as F1. pose proof (tw_rtt _ W _ _ Er) as F2.
  unfold rtt_ok in *. rewrite Forall_forall in F1, F2. auto using combinedRTT_range.
Qed.

Lemma add_edge_elem origin adjacency e u x :
  x ∈ default [] (add_edge origin adjacency e !! u) <->
  x ∈ default [] (adjacency !! u) \/ (u = origin /\ x = e).
Proof.
  unfold add_edge. destruct (decide (u = origin)) as [->|Hne].
  - rewrite lookup_insert_eq. simpl. rewrite elem_of_app, list_elem_of_singleton. naive_solver.
  - rewrite lookup_insert_ne by done. naive_solver.
Qed.

Lemma add_links_elem t excluded dataOnly adjacency origin state u x :
  x ∈ default [] (add_links t excluded dataOnly adjacency (origin, state) !! u) <->
  x ∈ default [] (adjacency !! u) \/
  (u = origin /\ is_Some (tp_members t !! origin) /\
   exists link, link ∈ ls_Links (lst_record state) /\
     link_edge t excluded dataOnly origin link = Some x).
Proof.
  simpl. destruct (tp_members t !! origin) as [m|] eqn:Em;
    [|split; [by left|intros [?|(_ & [? ?] & _)]; done]].
  generalize (ls_Links (lst_record state)). intros links. revert adjacency.
  induction links as [|link links IH]; intros adjacency; simpl.
  { split; [by left|]. intros [?|(_ & _ & link & Hl & _)]; [done|]. by apply elem_of_nil in Hl. }
  rewrite IH. setoid_rewrite elem_of_cons.
  destruct (link_edge t excluded dataOnly origin link) as [e|] eqn:E;
    [rewrite add_edge_elem|]; naive_solver.
Qed.

Section routes.
Context {R : MapRange} `{!MapRangeLaws R} {SE : SortEdges} `{!SortEdgesLaws SE}.

Lemma adjacency_elem t excluded dataOnly u v w :
  edge_in (adjacency_of t excluded dataOnly) u v w <-> advertised t excluded dataOnly u v w.
Proof.
  rewrite advertised_edge. unfold edge_in, adjacency_of. rewrite lookup_fmap.
  set (adj := fold_left _ _ _).
  assert (E : mkEdge v w ∈ default [] (sort_edges <$> (adj !! u))
              <-> mkEdge v w ∈ default [] (adj !! u)).
  { destruct (adj !! u) as [l|]; simpl; [|done]. by rewrite sort_edges_perm. }
  rewrite E. clear E. unfold adj. clear adj.
  assert (P : forall l adj, mkEdge v w ∈ default [] (fold_left (add_links t excluded dataOnly) l adj !! u)
    <-> mkEdge v w ∈ default [] (adj !! u) \/ exists state, (u, state) ∈ l /\
          is_Some (tp_members t !! u) /\ exists link, link ∈ ls_Links (lst_record state) /\
          link_edge t excluded dataOnly u link = Some (mkEdge v w)).
  { induction l as [|[origin state] l IH]; intros adj; cbn [fold_left].
    - split; [by left|]. intros [?|(? & Hx & _)]; [done|]. by apply elem_of_nil in Hx.
    - rewrite IH, add_links_elem. setoid_rewrite elem_of_cons. naive_solver. }
  rewrite P. setoid_rewrite (map_range_perm _ 0). setoid_rewrite elem_of_map_to_list.
  rewrite lookup_empty. simpl. rewrite elem_of_nil. naive_solver.
Qed.

Lemma walk_iff (edge edge' : string -> string -> Z -> Prop) (pass pass' : string -> Prop) source p v r :
  (forall u v w, edge u v w -> edge' u v w) -> (forall u, pass u -> pass' u) ->
  walk edge pass source p v r -> walk edge' pass' source p v r.
Proof. intros He Hp. induction 1; econstructor; eauto. Qed.

Lemma best_iff (edge edge' : string -> string -> Z -> Prop) (pass pass' : string -> Prop) source v p r :
  (forall u v w, edge u v w <-> edge' u v w) -> (forall u, pass u <-> pass' u) ->
  best edge pass source v p r <-> best edge' pass' source v p r.
Proof.
  intros He Hp. unfold best. split; intros [W B]; (split; [|intros q s Hw; apply B]);
    (eapply walk_iff; [| |done]); naive_solver.
Qed.

(** The nodes of a database. *)
Definition node_set (t : Topology) : gset string := {[tp_localID t]} ∪ dom (tp_members t).

Lemma node_set_size t : (size (node_set t) <= S (size (tp_members t)))%nat.
Proof.
  unfold node_set. rewrite size_union_alt, size_singleton.
  assert (size (dom (tp_members t) ∖ {[tp_localID t]} : gset string) <= size (tp_members t))%nat; [|lia].
  rewrite <-size_dom. apply subseteq_size. set_solver.
Qed.

(** The search with its fuel ends and knows the best routes. *)
Lemma search_terminates t excluded dataOnly :
  topology_wf t -> small t ->
  exists st, search_loop t (adjacency_of t excluded dataOnly) (search_fuel t) 0 (search_start t)
               = Some st /\
    (forall v p r, known st v p r <->
       best (advertised t excluded dataOnly) (transits t) (tp_localID t) v p r) /\
    (forall v p, se_paths st !! v = Some p -> exists r, known st v p r) /\
    (forall v p r, walk (advertised t excluded dataOnly) (transits t) (tp_localID t) p v r ->
       exists p' r', known st v p' r').
Proof.
  intros W Hs. pose proof (node_set_size t).
  destruct (search_complete t (adjacency_of t excluded dataOnly) (node_set t)
    ((2 ^ 32 - 1) * Millisecond)) with (fuel := search_fuel t) as (st & E & I & K & C).
  - unfold node_set. set_solver.
  - unfold node_set. rewrite elem_of_union, elem_of_singleton, elem_of_dom, (tw_members _ W).
    intros [Hx|[? ?]]; [by destruct (tw_local _ W)|done].
  - intros u v w He%adjacency_elem. apply advertised_ok in He as [? ?]; [|done].
    split; [unfold node_set; set_solver|done].
  - unfold small, max_members in Hs. unfold Millisecond, i64_max. lia.
  - unfold search_fuel. lia.
  - exists st. assert (Hb : forall v p r,
      best (edge_in (adjacency_of t excluded dataOnly)) (expanding t) (tp_localID t) v p r
      <-> best (advertised t excluded dataOnly) (transits t) (tp_localID t) v p r).
    { intros v p r. apply best_iff; intros; [apply adjacency_elem|symmetry; apply transits_expands]. }
    split_and!; [done|intros; by rewrite K, Hb|apply I|].
    intros v p r Hw. destruct (C v p r) as (q & s & B).
    { eapply walk_iff; [| |done]; [intros ???; by rewrite adjacency_elem|intros ?; apply transits_expands]. }
    exists q, s. by apply K.
Qed.

Lemma computeRoutes_best t excluded dataOnly destination route :
  topology_wf t -> small t ->
  computeRoutesLocked t excluded dataOnly !! destination = Some route <->
  reference_route t excluded dataOnly destination route.
Proof.
  intros W Hs. unfold computeRoutesLocked, reference_route.
  destruct (search_terminates t excluded dataOnly W Hs) as (st & -> & K & Kp & _).
  rewrite map_lookup_imap. split.
  - destruct (se_paths st !! destination) as [path|] eqn:Ep; simpl; [|done].
    destruct (Kp _ _ Ep) as [r Kr]. unfold route_to.
    destruct path as [|x [|nextHop path]]; [done|done|]. case_bool_decide; [done|].
    intros [= <-]. split; [done|]. exists (x :: nextHop :: path), r, nextHop.
    split; [by apply K|]. split; [done|]. unfold dist_of. by rewrite (proj1 Kr).
  - intros (Hne & path & r & nextHop & [Kd Kp']%K & Hn & ->). rewrite Kp'. simpl. unfold route_to.
    destruct path as [|x [|y path]]; [done|done|]. simpl in Hn. simplify_eq.
    rewrite bool_decide_false by done. unfold dist_of. by rewrite Kd.
Qed.

Lemma computeRoutes_reaches t excluded dataOnly path destination rtt :
  topology_wf t -> small t -> destination <> tp_localID t ->
  walk (advertised t excluded dataOnly) (transits t) (tp_localID t) path destination rtt ->
  is_Some (computeRoutesLocked t excluded dataOnly !! destination).
Proof.
  intros W Hs Hne Hw.
  destruct (search_terminates t excluded dataOnly W Hs) as (st & _ & K & _ & C).
  destruct (C _ _ _ Hw) as (p & r & B%K).
  assert (exists n, p !! 1%nat = Some n) as [n Hn].
  { destruct p as [|x [|n p]]; [..|by exists n].
    - pose proof (walk_length _ _ _ _ _ _ (proj1 B)). simpl in *. lia.
    - by destruct (walk_one _ _ _ _ _ _ (proj1 B) eq_refl) as (_ & ? & _). }
  exists (mkRoute destination n (Z.of_nat (length p) - 1) r p).
  apply computeRoutes_best; [done..|]. split; [done|]. by exists p, r, n.
Qed.
End routes.

(** C27: The route table is the table of best routes.  For every database of at
    most 2000 members the search terminates, and it installs a route to a
    destination exactly when both ends of every edge advertise it and every
    intermediate node allows transit; the route is the unique least one in
    hops, then round-trip time, then the names along the path.  Neither the
    order in which Go ranges over its maps nor the unstable sort of the
    adjacency lists can change the table. *)
Theorem routes_are_best `{!MapRangeLaws R} `{!SortEdgesLaws SE} t excluded dataOnly :
  topology_wf t -> small t ->
  (forall destination route,
     computeRoutesLocked t excluded dataOnly !! destination = Some route <->
     reference_route t excluded dataOnly destination route) /\
  (forall path destination rtt,
     walk (advertised t excluded dataOnly) (transits t) (tp_localID t) path destination rtt ->
     destination <> tp_localID t ->
     is_Some (computeRoutesLocked t excluded dataOnly !! destination)) /\
  (forall (R' : MapRange) (SE' : SortEdges), MapRangeLaws R' -> SortEdgesLaws SE' ->
     @computeRoutesLocked R' SE' t excluded dataOnly = computeRoutesLocked t excluded dataOnly).
Proof.
  intros W Hs. split_and!.
  - intros. by apply computeRoutes_best.
  - intros path destination rtt Hw Hne. by eapply computeRoutes_reaches.
  - intros R' SE' L1 L2. apply map_eq. intros destination. apply option_eq. intros route.
    by rewrite !computeRoutes_best.
Qed.

(** ** Operations keep the tables in step *)

(** The calls a node makes; every call may range over the maps in another
    order.  [RTTMillis] is a [uint32]. *)
Inductive topology_step : Topology -> Topology -> Prop :=
| ts_SetLocalMember `{!MapRangeLaws R} `{!SortEdgesLaws SE} record t :
    topology_step t (SetLocalMember record t).1
| ts_SetLocalLinkState `{!MapRangeLaws R} `{!SortEdgesLaws SE} record t :
    rtt_ok record -> topology_step t (SetLocalLinkState record t).1
| ts_ApplyMember `{!MapRangeLaws R} `{!SortEdgesLaws SE} record receivedAt now t :
    topology_step t (ApplyMember record receivedAt now t).1
| ts_ApplyLinkState `{!MapRangeLaws R} `{!SortEdgesLaws SE} record receivedAt now t :
    rtt_ok record -> topology_step t (ApplyLinkState record receivedAt now t).1
| ts_Expire `{!MapRangeLaws R} `{!SortEdgesLaws SE} at_ now t :
    topology_step t (Expire at_ now t).1.

Definition topology_reachable (t : Topology) : Prop :=
  exists id t0, NewTopology id = Ok t0 /\ rtc topology_step t0 t.

Definition in_sync (t : Topology) : Prop :=
  small t -> forall destination route,
    (tp_routes t !! destination = Some route <-> reference_route t ∅ false destination route) /\
    (tp_dataRoutes t !! destination = Some route <-> reference_route t ∅ true destination route).

(** Who a stored record belongs to. *)
Record records_ok (t : Topology) : Prop := {
  ro_member id m : tp_members t !! id = Some m ->
    mr_NodeID (ms_record m) = id /\ (ms_local m = true <-> id = tp_localID t);
  ro_lsa id s : tp_lsas t !! id = Some s ->
    ls_NodeID (lst_record s) = id /\ (lst_local s = true <-> id = tp_localID t);
}.

Record topology_inv (t : Topology) : Prop := {
  ti_wf : topology_wf t;
  ti_records : records_ok t;
  ti_sync : in_sync t;
}.

(** What the routes depend on. *)
Record same_db (t t' : Topology) : Prop := {
  sd_local : tp_localID t' = tp_localID t;
  sd_members : dom (tp_members t') = dom (tp_members t);
  sd_lsas id : lst_record <$> tp_lsas t' !! id = lst_record <$> tp_lsas t !! id;
}.

Lemma same_db_sym t t' : same_db t t' -> same_db t' t.
Proof. intros [A B C]. split; congruence. Qed.

Lemma link_edge_same t t' excluded dataOnly u link :
  same_db t t' -> link_edge t' excluded dataOnly u link = link_edge t excluded dataOnly u link.
Proof.
  intros [A B C]. unfold link_edge. rewrite A.
  assert (M : is_Some (tp_members t' !! lk_PeerID link) <-> is_Some (tp_members t !! lk_PeerID link))
    by (rewrite <-!elem_of_dom, B; done).
  pose proof (C (lk_PeerID link)) as L. destruct (_ || _); [done|].
  destruct (tp_members t' !! lk_PeerID link), (tp_members t !! lk_PeerID link);
    try (by destruct M as [M1 M2]; (destruct M1 + destruct M2); eauto); [|done].
  destruct (tp_lsas t' !! lk_PeerID link) as [s'|], (tp_lsas t !! lk_PeerID link) as [s|];
    simpl in L; try done. injection L as ->. done.
Qed.

Lemma advertised_same t t' excluded dataOnly u v w :
  same_db t t' -> advertised t excluded dataOnly u v w -> advertised t' excluded dataOnly u v w.
Proof.
  intros D (Hu & state & link & Hs & Hl & He)%advertised_edge. apply advertised_edge. split.
  { apply elem_of_dom. rewrite (sd_members _ _ D). by apply elem_of_dom. }
  pose proof (sd_lsas _ _ D u) as E. rewrite Hs in E.
  destruct (tp_lsas t' !! u) as [state'|] eqn:Hs'; [|done]. simpl in E. injection E as E.
  exists state', link. rewrite E, (link_edge_same t t') by done. done.
Qed.

Lemma transits_same t t' u : same_db t t' -> transits t u -> transits t' u.
Proof.
  intros D. rewrite !transits_expands. unfold expands. rewrite (sd_local _ _ D).
  pose proof (sd_lsas _ _ D u) as E.
  destruct (tp_lsas t' !! u), (tp_lsas t !! u); simpl in E; try done. by injection E as ->.
Qed.

Lemma reference_same t t' excluded dataOnly destination route :
  same_db t t' ->
  reference_route t' excluded dataOnly destination route <->
  reference_route t excluded dataOnly destination route.
Proof.
  intros D. pose proof (same_db_sym _ _ D) as D'. unfold reference_route.
  rewrite (sd_local _ _ D). f_equiv.
  setoid_rewrite (best_iff (advertised t' excluded dataOnly) (advertised t excluded dataOnly)
    (transits t') (transits t)); [done|split; by apply advertised_same|split; by apply transits_same].
Qed.

Lemma small_same t t' : same_db t t' -> small t' -> small t.
Proof.
  intros D. unfold small. rewrite <-!(size_dom (D := gset string)), (sd_members _ _ D). done.
Qed.

Lemma sync_same t t' :
  same_db t t' -> tp_routes t' = tp_routes t -> tp_dataRoutes t' = tp_dataRoutes t ->
  in_sync t -> in_sync t'.
Proof.
  intros D E1 E2 S Hs destination route. rewrite E1, E2, !(reference_same t t') by done.
  by apply S, (small_same t t').
Qed.

Section operations.
Context {R : MapRange} `{!MapRangeLaws R} {SE : SortEdges} `{!SortEdgesLaws SE}.

Lemma recompute_inv t : topology_wf t -> records_ok t -> topology_inv (recomputeLocked t).
Proof.
  intros W O. split; [by split; apply W|by split; apply O|].
  intros Hs destination route. split; simpl; rewrite computeRoutes_best by done; done.
Qed.

Lemma memberRecordsEqual_spec a b : memberRecordsEqual a b = true -> a = b.
Proof.
  destruct a, b. unfold memberRecordsEqual. simpl.
  rewrite !andb_true_iff, !bool_decide_eq_true, !Z.eqb_eq. naive_solver.
Qed.

Lemma linkStatesEqual_spec a b : linkStatesEqual a b = true -> a = b.
Proof.
  destruct a, b. unfold linkStatesEqual. simpl.
  rewrite !andb_true_iff, !bool_decide_eq_true, !Z.eqb_eq, eqb_true_iff. naive_solver.
Qed.

Lemma nonblank id : bool_decide (TrimSpace id = "") = false -> id <> "".
Proof. intros E%bool_decide_eq_false_1 ->. by apply E. Qed.

(** Storing a record. *)
Lemma insert_member_wf t record expires local :
  topology_wf t -> mr_NodeID record <> "" ->
  topology_wf (set_members (<[mr_NodeID record := mkMemberState record expires local]>
    (tp_members t)) t).
Proof. intros [A B C] Hid. split; simpl; try done. by rewrite lookup_insert_ne. Qed.

Lemma insert_member_records t record expires local :
  records_ok t -> (local = true <-> mr_NodeID record = tp_localID t) ->
  records_ok (set_members (<[mr_NodeID record := mkMemberState record expires local]>
    (tp_members t)) t).
Proof.
  intros [A B] Hl. split; simpl; [|done]. intros id m. rewrite lookup_insert_Some.
  intros [[<- <-]|[_ ?]]; [done|by apply A].
Qed.

Lemma insert_lsa_wf t record expires local :
  topology_wf t -> rtt_ok record ->
  topology_wf (set_lsas (<[ls_NodeID record := mkLinkState record expires local]> (tp_lsas t)) t).
Proof.
  intros [A B C] Hr. split; simpl; try done. intros id s. rewrite lookup_insert_Some.
  intros [[<- <-]|[_ ?]]; [done|by eapply C].
Qed.

Lemma insert_lsa_records t record expires local :
  records_ok t -> (local = true <-> ls_NodeID record = tp_localID t) ->
  records_ok (set_lsas (<[ls_NodeID record := mkLinkState record expires local]> (tp_lsas t)) t).
Proof.
  intros [A B] Hl. split; simpl; [done|]. intros id s. rewrite lookup_insert_Some.
  intros [[<- <-]|[_ ?]]; [done|by apply B].
Qed.

Lemma SetLocalMember_inv record t : topology_inv t -> topology_inv (SetLocalMember record t).1.
Proof.
  intros I. unfold SetLocalMember. case_bool_decide as E; [simpl|done].
  destruct (mr_Revision record =? 0); [done|]. simpl. rewrite <-E.
  apply recompute_inv.
  - apply insert_member_wf; [apply I|]. rewrite E. apply I.
  - by apply insert_member_records; [apply I|].
Qed.

Lemma SetLocalLinkState_inv record t :
  rtt_ok record -> topology_inv t -> topology_inv (SetLocalLinkState record t).1.
Proof.
  intros Hr I. unfold SetLocalLinkState. case_bool_decide as E; [simpl|done].
  destruct (ls_Revision record =? 0); [done|]. simpl. rewrite <-E.
  apply recompute_inv; [apply insert_lsa_wf; [apply I|done]|].
  by apply insert_lsa_records; [apply I|].
Qed.

Lemma ApplyMember_inv record receivedAt now t :
  topology_inv t -> topology_inv (ApplyMember record receivedAt now t).1.
Proof.
  intros I. unfold ApplyMember.
  destruct (bool_decide (TrimSpace (mr_NodeID record) = "")) eqn:Et; [done|]. apply nonblank in Et.
  destruct (mr_Revision record =? 0), (mr_LeaseMillis record =? 0); try done. simpl orb.
  cbn match. case_bool_decide as El; [done|].
  set (expires := TAdd _ _).
  assert (W : topology_wf (set_members (<[mr_NodeID record := mkMemberState record expires false]>
    (tp_members t)) t)) by (apply insert_member_wf; [apply I|done]).
  assert (O : records_ok (set_members (<[mr_NodeID record := mkMemberState record expires false]>
    (tp_members t)) t)) by (apply insert_member_records; [apply I|done]).
  destruct (tp_members t !! mr_NodeID record) as [current|] eqn:Ec; [|by apply recompute_inv].
  destruct (ms_local current); [done|]. destruct (_ <? _) eqn:Ev; [done|].
  destruct (_ && _) eqn:Eq; [done|]. destruct (_ || _) eqn:Eo; [by apply recompute_inv|].
  simpl. split; [done|done|]. apply (sync_same t); [|done|done|apply I].
  split; [done| |done]. simpl. rewrite dom_insert_L.
  assert (mr_NodeID record ∈ dom (tp_members t)) by (by apply elem_of_dom). set_solver.
Qed.

Lemma ApplyLinkState_inv record receivedAt now t :
  rtt_ok record -> topology_inv t -> topology_inv (ApplyLinkState record receivedAt now t).1.
Proof.
  intros Hr I. unfold ApplyLinkState.
  destruct (bool_decide (TrimSpace (ls_NodeID record) = "")); [done|].
  destruct (ls_Revision record =? 0), (ls_LeaseMillis record =? 0); try done. simpl orb.
  cbn match. case_bool_decide as El; [done|].
  set (expires := TAdd _ _).
  assert (W : topology_wf (set_lsas (<[ls_NodeID record := mkLinkState record expires false]>
    (tp_lsas t)) t)) by (apply insert_lsa_wf; [apply I|done]).
  assert (O : records_ok (set_lsas (<[ls_NodeID record := mkLinkState record expires false]>
    (tp_lsas t)) t)) by (apply insert_lsa_records; [apply I|done]).
  destruct (tp_lsas t !! ls_NodeID record) as [current|] eqn:Ec; [|by apply recompute_inv].
  destruct (lst_local current); [done|]. destruct (_ <? _) eqn:Ev; [done|].
  destruct (_ && _) eqn:Eq; [done|]. destruct (_ || _) eqn:Eo; [by apply recompute_inv|].
  simpl. split; [done|done|]. apply (sync_same t); [|done|done|apply I].
  apply orb_false_iff in Eo as [_ Eo%negb_false_iff%linkStatesEqual_spec].
  split; [done|done|]. intros id. simpl. destruct (decide (id = ls_NodeID record)) as [->|Hne].
  - by rewrite lookup_insert_eq, Ec, <-Eo.
  - by rewrite lookup_insert_ne.
Qed.

(** Removing records. *)
Record shrunk (t t' : Topology) : Prop := {
  sh_local : tp_localID t' = tp_localID t;
  sh_members : tp_members t' ⊆ tp_members t;
  sh_lsas : tp_lsas t' ⊆ tp_lsas t;
}.

Lemma shrunk_wf t t' : shrunk t t' -> topology_wf t -> topology_wf t'.
Proof.
  intros [E A B] [W1 W2 W3]. split; [by rewrite E| |].
  - apply eq_None_not_Some. intros [m Hm]. apply (lookup_weaken _ _ _ _ Hm) in A. congruence.
  - intros id s Hs. by eapply W3, lookup_weaken.
Qed.

Lemma shrunk_records t t' : shrunk t t' -> records_ok t -> records_ok t'.
Proof.
  intros [E A B] [O1 O2]. split; rewrite E.
  - intros id m Hm. by eapply O1, lookup_weaken.
  - intros id s Hs. by eapply O2, lookup_weaken.
Qed.

(** A pass over the records removes some of them, and reports whether it did. *)
Definition removing (t : Topology) (acc : Topology * bool) : Prop :=
  shrunk t acc.1 /\ (acc.2 = false -> acc.1 = t).

Lemma expire_member_removing t now acc entry :
  removing t acc -> removing t (expire_member now acc entry).
Proof.
  intros [[E A B] H]. destruct entry as [id m]. unfold expire_member.
  destruct (_ && _); [|by split]. split; [|done].
  split; simpl; [done|etrans; [apply delete_subseteq|done]..].
Qed.

Lemma expire_lsa_removing t now acc entry :
  removing t acc -> removing t (expire_lsa now acc entry).
Proof.
  intros [[E A B] H]. destruct entry as [id m]. unfold expire_lsa.
  destruct (_ && _); [|by split]. split; [|done].
  split; simpl; [done|done|etrans; [apply delete_subseteq|done]].
Qed.

Lemma fold_removing {A} (f : Topology * bool -> A -> Topology * bool) t l acc :
  (forall acc x, removing t acc -> removing t (f acc x)) ->
  removing t acc -> removing t (fold_left f l acc).
Proof. intros Hf. revert acc. induction l; simpl; auto. Qed.

Lemma Expire_inv at_ now t : topology_inv t -> topology_inv (Expire at_ now t).1.
Proof.
  intros I. unfold Expire. set (acc1 := fold_left (expire_member _) _ _).
  set (acc2 := fold_left (expire_lsa _) _ _). simpl.
  assert (Rm : removing t acc2).
  { apply fold_removing; [intros; by apply expire_lsa_removing|].
    apply fold_removing; [intros; by apply expire_member_removing|]. by split. }
  destruct Rm as [Sh E]. destruct acc2 as [t2 []]; simpl in *; [|by rewrite E].
  apply recompute_inv; [by eapply shrunk_wf, I|by eapply shrunk_records, I].
Qed.
End operations.

Lemma topology_step_inv t t' : topology_step t t' -> topology_inv t -> topology_inv t'.
Proof.
  destruct 1; eauto using SetLocalMember_inv, SetLocalLinkState_inv, ApplyMember_inv,
    ApplyLinkState_inv, Expire_inv.
Qed.

Lemma NewTopology_inv id t : NewTopology id = Ok t -> topology_inv t.
Proof.
  unfold NewTopology. case_bool_decide as E; [done|]. intros [= <-]. split.
  - split; simpl; [done|by apply lookup_empty|]. intros ? ?. by rewrite lookup_empty.
  - split; intros ? ?; simpl; by rewrite lookup_empty.
  - intros _ destination route. simpl. rewrite !lookup_empty.
    assert (N : forall d, ~ reference_route (mkTopology (TrimSpace id) ∅ ∅ ∅ ∅) ∅ d destination route).
    { intros d (Hne & p & r & n & [Hw _] & _). simpl in *.
      destruct Hw as [|p u r v w _ _ [[? Hu] _]]; [done|]. done. }
    naive_solver.
Qed.

Lemma topology_reachable_inv t : topology_reachable t -> topology_inv t.
Proof.
  intros (id & t0 & E & Hs). apply NewTopology_inv in E. revert E.
  induction Hs as [|t1 t2 t3 H12 _ IH]; eauto using topology_step_inv.
Qed.

(** C39: The tables never lag behind the records.  In a database of at most 2000
    members, after any sequence of local updates, received records (fresh, stale, repeated or conflicting) and
    expirations, the control and the data table hold exactly the best routes of
    the records now stored, refreshed leases included; every record is stored
    under its own node, and only the node itself stores its own as local. *)
Theorem tables_in_sync t :
  topology_reachable t -> small t ->
  (forall destination route,
     (tp_routes t !! destination = Some route <-> reference_route t ∅ false destination route) /\
     (tp_dataRoutes t !! destination = Some route <-> reference_route t ∅ true destination route)) /\
  (forall id m, tp_members t !! id = Some m ->
     mr_NodeID (ms_record m) = id /\ (ms_local m = true <-> id = tp_localID t)) /\
  (forall id s, tp_lsas t !! id = Some s ->
     ls_NodeID (lst_record s) = id /\ (lst_local s = true <-> id = tp_localID t)).
Proof.
  intros [W [O1 O2] S]%topology_reachable_inv Hs. split_and!; auto.
Qed.
