(* ===== verification/MeshMessage.v ===== *)
(** * Control messages (src/pkg/peercontrol/message.go)

    Messages with their constructors and validation.  The JSON codec is an
    interface: on a message JSON can represent it round-trips. *)
From S2P Require Import Prelude GoStd MeshTopology.
Open Scope go_scope.

Definition Version : Z := 1.
Definition BroadcastNodeID : string := "*".
Definition DefaultHopLimit : Z := 16.
Definition MaxHopLimit : Z := 64.
Definition MaxPathVectorLength : Z := 64.
Definition MaxLeaseMillis : Z := 24 * 60 * 60 * 1000.

Definition TypeHeartbeat : string := "heartbeat".
Definition TypePathHealth : string := "path_health".
Definition TypeEndpointUpdate : string := "endpoint_update".
Definition TypeCapabilityRefresh : string := "capability_refresh".
Definition TypeReICERequest : string := "re_ice_request".
Definition TypeSessionSignal : string := "session_signal".
Definition TypeControlEchoRequest : string := "control_echo_request".
Definition TypeControlEchoReply : string := "control_echo_reply".
Definition TypeMemberAnnounce : string := "member_announce".
Definition TypeLinkState : string := "link_state".

(** ** Payloads *)
Record Heartbeat := mkHeartbeat {
  hb_ControlState : string;
  hb_DataState : string;
  hb_LastPathID : string;
}.

Record PathHealth := mkPathHealth {
  ph_PathID : string;
  ph_Strategy : string;
  ph_ConnectionType : string;
  ph_Endpoint : string;
  ph_LastHandshake : Time;
  ph_TransportTxPackets : Z;
  ph_TransportRxPackets : Z;
  ph_LastError : string;
}.

Record EndpointUpdate := mkEndpointUpdate {
  eu_PathID : string;
  eu_Endpoint : string;
  eu_Reason : string;
}.

Record CapabilityRefresh := mkCapabilityRefresh {
  cr_Strategies : list string;
  cr_Reason : string;
}.

Record ReICERequest := mkReICERequest {
  ri_PathID : string;
  ri_Reason : string;
}.

Record SessionSignal := mkSessionSignal {
  sg_Kind : string;
  sg_Namespace : string;
  sg_Type : string;
  sg_Payload : list Z;
}.

Record ControlEcho := mkControlEcho {
  ce_ID : string;
  ce_Payload : list Z;
  ce_RequestPath : list string;
}.

(** The payload pointers of a message; nil is [None]. *)
Record Payloads := mkPayloads {
  pl_Heartbeat : option Heartbeat;
  pl_PathHealth : option PathHealth;
  pl_EndpointUpdate : option EndpointUpdate;
  pl_CapabilityRefresh : option CapabilityRefresh;
  pl_ReICERequest : option ReICERequest;
  pl_SessionSignal : option SessionSignal;
  pl_ControlEcho : option ControlEcho;
  pl_MemberRecord : option MemberRecord;
  pl_LinkState : option LinkStateAdvertisement;
}.

Record Message := mkMessage {
  mg_Version : Z;
  mg_Type : string;
  mg_From : string;
  mg_To : string;
  mg_Seq : Z;
  mg_SentAt : Time;
  mg_HopLimit : Z;
  mg_PathVector : list string;
  mg_payload : Payloads;
}.

Definition no_payload : Payloads := mkPayloads None None None None None None None None None.

Definition set_From (x : string) (m : Message) : Message :=
  mkMessage (mg_Version m) (mg_Type m) x (mg_To m) (mg_Seq m) (mg_SentAt m) (mg_HopLimit m)
    (mg_PathVector m) (mg_payload m).
Definition set_Seq (x : Z) (m : Message) : Message :=
  mkMessage (mg_Version m) (mg_Type m) (mg_From m) (mg_To m) x (mg_SentAt m) (mg_HopLimit m)
    (mg_PathVector m) (mg_payload m).
Definition set_hops (x : Z) (m : Message) : Message :=
  mkMessage (mg_Version m) (mg_Type m) (mg_From m) (mg_To m) (mg_Seq m) (mg_SentAt m) x
    (mg_PathVector m) (mg_payload m).
Definition set_PathVector (x : list string) (m : Message) : Message :=
  mkMessage (mg_Version m) (mg_Type m) (mg_From m) (mg_To m) (mg_Seq m) (mg_SentAt m)
    (mg_HopLimit m) x (mg_payload m).

(** ** Constructors; [now] is what [time.Now()] returns *)
Definition baseMessage (now : Time) (msgType from to : string) (payload : Payloads) : Message :=
  mkMessage Version msgType from to 0 (UTC now) 0 [] payload.

Definition NewHeartbeat (now : Time) (from to : string) (heartbeat : Heartbeat) : Message :=
  baseMessage now TypeHeartbeat from to
    (mkPayloads (Some heartbeat) None None None None None None None None).

Definition NewPathHealth (now : Time) (from to : string) (health : PathHealth) : Message :=
  baseMessage now TypePathHealth from to
    (mkPayloads None (Some health) None None None None None None None).

Definition NewEndpointUpdate (now : Time) (from to : string) (update : EndpointUpdate) : Message :=
  baseMessage now TypeEndpointUpdate from to
    (mkPayloads None None (Some update) None None None None None None).

Definition NewCapabilityRefresh (now : Time) (from to : string) (refresh : CapabilityRefresh)
    : Message :=
  baseMessage now TypeCapabilityRefresh from to
    (mkPayloads None None None (Some refresh) None None None None None).

Definition NewReICERequest (now : Time) (from to : string) (request : ReICERequest) : Message :=
  baseMessage now TypeReICERequest from to
    (mkPayloads None None None None (Some request) None None None None).

Definition NewSessionSignal (now : Time) (from to : string) (signal : SessionSignal) : Message :=
  baseMessage now TypeSessionSignal from to
    (mkPayloads None None None None None (Some signal) None None None).

(** A routed message: its hop limit, and a path that starts at its origin. *)
Definition routed (hopLimit : Z) (from : string) (m : Message) : Message :=
  set_PathVector [from] (set_hops (if hopLimit =? 0 then DefaultHopLimit else hopLimit) m).

Definition NewControlEchoRequest (now : Time) (from to id : string) (payload : list Z)
    (hopLimit : Z) : Message :=
  routed hopLimit from (baseMessage now TypeControlEchoRequest from to
    (mkPayloads None None None None None None (Some (mkControlEcho id payload [])) None None)).

Definition NewControlEchoReply (now : Time) (from to id : string) (payload : list Z)
    (requestPath : list string) (hopLimit : Z) : Message :=
  routed hopLimit from (baseMessage now TypeControlEchoReply from to
    (mkPayloads None None None None None None (Some (mkControlEcho id payload requestPath))
       None None)).

Definition NewMemberAnnounce (now : Time) (from : string) (record : MemberRecord) (hopLimit : Z)
    : Message :=
  let record := mkMember from (mr_Revision record) (mr_LeaseMillis record) (mr_VirtualIP record)
    (mr_Endpoints record) (mr_Capabilities record) (mr_NATProfile record) in
  routed hopLimit from (baseMessage now TypeMemberAnnounce from BroadcastNodeID
    (mkPayloads None None None None None None None (Some record) None)).

Definition NewLinkState (now : Time) (from : string) (state : LinkStateAdvertisement)
    (hopLimit : Z) : Message :=
  let state := mkLSA from (ls_Revision state) (ls_LeaseMillis state) (ls_TransitAllowed state)
    (ls_Links state) in
  routed hopLimit from (baseMessage now TypeLinkState from BroadcastNodeID
    (mkPayloads None None None None None None None None (Some state))).

(** ** Validation *)
Definition fails (b : bool) (text : string) : option merr := if b then Some (MText text) else None.

Definition blank (s : string) : bool := bool_decide (TrimSpace s = "").

Definition requirePayload {A} (payload : option A) (name : string) : option merr :=
  fails (negb (bool_decide (is_Some payload))) name.

Definition validateFloodHeader (m : Message) : option merr :=
  fails (negb (bool_decide (mg_To m = BroadcastNodeID))) "must be addressed to broadcast" &then
  fails (mg_HopLimit m =? 0) "requires hop_limit".

Definition validateLease (leaseMillis : Z) : option merr :=
  fails (leaseMillis =? 0) "lease_millis is required" &then
  fails (MaxLeaseMillis <? leaseMillis) "lease_millis exceeds maximum".

Definition validateMemberRecord (origin : string) (record : MemberRecord) : option merr :=
  fails (negb (bool_decide (mr_NodeID record = origin))) "node_id does not match origin" &then
  fails (mr_Revision record =? 0) "revision is required" &then
  validateLease (mr_LeaseMillis record) &then
  fails (existsb blank (mr_Endpoints record)) "endpoint is empty" &then
  fails (existsb blank (mr_Capabilities record)) "capability is empty".

Fixpoint validate_links (origin : string) (seen : gset string) (links : list LinkStateLink)
    : option merr :=
  match links with
  | [] => None
  | link :: links' =>
      let peerID := TrimSpace (lk_PeerID link) in
      if bool_decide (peerID = "") then Some (MText "peer_id is empty") else
      if bool_decide (peerID = origin) then Some (MText "self link") else
      if bool_decide (peerID ∈ seen) then Some (MText "repeated peer") else
      validate_links origin ({[peerID]} ∪ seen) links'
  end.

Definition validateLinkState (origin : string) (state : LinkStateAdvertisement) : option merr :=
  fails (negb (bool_decide (ls_NodeID state = origin))) "node_id does not match origin" &then
  fails (ls_Revision state =? 0) "revision is required" &then
  validateLease (ls_LeaseMillis state) &then
  validate_links origin ∅ (ls_Links state).

Definition validateRouteHeader (m : Message) : option merr :=
  fails (MaxHopLimit <? mg_HopLimit m) "hop_limit exceeds maximum" &then
  fails (MaxPathVectorLength <? Z.of_nat (length (mg_PathVector m))) "path_vector too long" &then
  fails ((0 <? Z.of_nat (length (mg_PathVector m))) && (mg_HopLimit m =? 0))
    "path_vector requires hop_limit" &then
  fails (existsb blank (mg_PathVector m)) "path_vector entry is empty" &then
  match mg_PathVector m with
  | first :: _ => fails (negb (bool_decide (first = mg_From m))) "path_vector must start with origin"
  | [] => None
  end.

Definition validate_payload (m : Message) : option merr :=
  let p := mg_payload m in
  let type := mg_Type m in
  if bool_decide (type = TypeHeartbeat) then requirePayload (pl_Heartbeat p) "heartbeat" else
  if bool_decide (type = TypePathHealth) then requirePayload (pl_PathHealth p) "path_health" else
  if bool_decide (type = TypeEndpointUpdate) then
    match pl_EndpointUpdate p with
    | None => Some (MText "endpoint_update")
    | Some u => fails (blank (eu_Endpoint u)) "endpoint is required"
    end else
  if bool_decide (type = TypeCapabilityRefresh)
  then requirePayload (pl_CapabilityRefresh p) "capability_refresh" else
  if bool_decide (type = TypeReICERequest) then requirePayload (pl_ReICERequest p) "re_ice_request" else
  if bool_decide (type = TypeSessionSignal) then
    match pl_SessionSignal p with
    | None => Some (MText "session_signal")
    | Some g => fails (blank (sg_Kind g)) "kind is required" &then
                fails (blank (sg_Namespace g)) "namespace is required" &then
                fails (blank (sg_Type g)) "type is required"
    end else
  if bool_decide (type = TypeControlEchoRequest) || bool_decide (type = TypeControlEchoReply) then
    match pl_ControlEcho p with
    | None => Some (MText "control_echo")
    | Some e => fails (blank (ce_ID e)) "id is required" &then
                fails (mg_HopLimit m =? 0) "control echo requires hop_limit"
    end else
  if bool_decide (type = TypeMemberAnnounce) then
    match pl_MemberRecord p with
    | None => Some (MText "member_record")
    | Some r => validateFloodHeader m &then validateMemberRecord (mg_From m) r
    end else
  if bool_decide (type = TypeLinkState) then
    match pl_LinkState p with
    | None => Some (MText "link_state")
    | Some l => validateFloodHeader m &then validateLinkState (mg_From m) l
    end else
  Some (MText "unsupported message type").

Definition Validate (m : Message) : option merr :=
  fails (negb (mg_Version m =? Version)) "unsupported version" &then
  fails (blank (mg_From m)) "from is required" &then
  fails (blank (mg_To m)) "to is required" &then
  fails (IsZero (mg_SentAt m)) "sent_at is required" &then
  validateRouteHeader m &then
  validate_payload m.

(** ** JSON *)
Class MessageCodec := {
  json_Marshal : Message -> res merr (list Z);
  json_Unmarshal : list Z -> res merr Message;
}.

Section codec.
Context {J : MessageCodec}.

Definition Marshal (m : Message) : res merr (list Z) :=
  check! Validate m in json_Marshal m.

Definition Unmarshal (raw : list Z) : res merr Message :=
  let! m := json_Unmarshal raw in
  check! Validate m in Ok m.

(** A copy over the codec; a message it refuses is copied as it is. *)
Definition cloneMessage (m : Message) : Message :=
  match Marshal m with
  | Ok raw => match Unmarshal raw with Ok clone => clone | Err _ => m end
  | Err _ => m
  end.
End codec.

(** What JSON represents exactly: valid UTF-8, unsigned integers of their
    width, times in UTC before the year 10000, bytes. *)
Definition wire_time (t : Time) : bool :=
  utc_loc t && (0 <=? instant t) && (instant t <? 315537897600 * Second).
Definition wire_uint (w x : Z) : bool := (0 <=? x) && (x <? 2 ^ w).
Definition wire_bytes (bs : list Z) : bool := forallb (wire_uint 8) bs.

Definition wire_link (l : LinkStateLink) : bool :=
  valid_utf8 (lk_PeerID l) && wire_uint 32 (lk_RTTMillis l).

Definition wire_payload (p : Payloads) : bool :=
  match pl_Heartbeat p with
  | Some h => valid_utf8 (hb_ControlState h) && valid_utf8 (hb_DataState h)
              && valid_utf8 (hb_LastPathID h)
  | None => true end
  && match pl_PathHealth p with
     | Some h => forallb valid_utf8 [ph_PathID h; ph_Strategy h; ph_ConnectionType h; ph_Endpoint h;
                   ph_LastError h] && wire_time (ph_LastHandshake h)
                 && wire_uint 64 (ph_TransportTxPackets h) && wire_uint 64 (ph_TransportRxPackets h)
     | None => true end
  && match pl_EndpointUpdate p with
     | Some u => valid_utf8 (eu_PathID u) && valid_utf8 (eu_Endpoint u) && valid_utf8 (eu_Reason u)
     | None => true end
  && match pl_CapabilityRefresh p with
     | Some r => forallb valid_utf8 (cr_Strategies r) && valid_utf8 (cr_Reason r)
     | None => true end
  && match pl_ReICERequest p with
     | Some r => valid_utf8 (ri_PathID r) && valid_utf8 (ri_Reason r)
     | None => true end
  && match pl_SessionSignal p with
     | Some g => valid_utf8 (sg_Kind g) && valid_utf8 (sg_Namespace g) && valid_utf8 (sg_Type g)
                 && wire_bytes (sg_Payload g)
     | None => true end
  && match pl_ControlEcho p with
     | Some e => valid_utf8 (ce_ID e) && wire_bytes (ce_Payload e)
                 && forallb valid_utf8 (ce_RequestPath e)
     | None => true end
  && match pl_MemberRecord p with
     | Some r => valid_utf8 (mr_NodeID r) && wire_uint 64 (mr_Revision r)
                 && wire_uint 32 (mr_LeaseMillis r) && valid_utf8 (mr_VirtualIP r)
                 && forallb valid_utf8 (mr_Endpoints r) && forallb valid_utf8 (mr_Capabilities r)
                 && valid_utf8 (mr_NATProfile r)
     | None => true end
  && match pl_LinkState p with
     | Some l => valid_utf8 (ls_NodeID l) && wire_uint 64 (ls_Revision l)
                 && wire_uint 32 (ls_LeaseMillis l) && forallb wire_link (ls_Links l)
     | None => true end.

Definition wire_ok (m : Message) : bool :=
  valid_utf8 (mg_Type m) && valid_utf8 (mg_From m) && valid_utf8 (mg_To m)
  && wire_uint 64 (mg_Seq m) && wire_time (mg_SentAt m) && wire_uint 8 (mg_HopLimit m)
  && forallb valid_utf8 (mg_PathVector m) && wire_payload (mg_payload m).

Class MessageCodecLaws (J : MessageCodec) :=
  json_roundtrip : forall m, wire_ok m = true ->
    exists raw, json_Marshal m = Ok raw /\ json_Unmarshal raw = Ok m.

Section laws.
Context {J : MessageCodec} {L : MessageCodecLaws J}.

Lemma cloneMessage_id m : wire_ok m = true -> cloneMessage m = m.
Proof.
  intros W. destruct (json_roundtrip m W) as (raw & E1 & E2).
  unfold cloneMessage, Marshal, Unmarshal, guard_err.
  destruct (Validate m) eqn:V; [done|]. rewrite E1, E2. simpl. by rewrite V.
Qed.
End laws.

Lemma fails_None b text : fails b text = None <-> b = false.
Proof. by destruct b. Qed.
