(* ===== verification/MeshRouter.v ===== *)
(** * The mesh router (src/pkg/mesh/router.go, data_router.go, data_frame.go)
    and the route installation of a node (node.go)

    The router keeps the attached neighbors and two next-hop tables.  A neighbor
    session is a transport behind an interface: an entry has its identity, the
    kind of its session and whether it carries data, and the outcome of a send is an
    argument.  Handlers and events are the actions a call returns. *)
From S2P Require Import Prelude GoStd MeshTopology MeshMessage.

(** ** Data frames *)
Definition DataFrameVersion : Z := 1.
Definition MaxDataNodeIDLength : Z := 1024.
Definition MaxDataPayloadSize : Z := 262144.
Definition dataFrameHeaderSize : Z := 32.
Definition MaxEncodedDataFrame : Z :=
  dataFrameHeaderSize + 2 * MaxDataNodeIDLength + MaxDataPayloadSize.

(** Frame types are bytes; 1 to 8 are the known ones. *)
Definition DataTypePacket : Z := 1.
Definition DataTypeStreamOpen : Z := 2.
Definition DataTypeStreamOpenOK : Z := 3.
Definition DataTypeStreamOpenError : Z := 4.
Definition DataTypeStreamData : Z := 5.
Definition DataTypeStreamFIN : Z := 6.
Definition DataTypeStreamReset : Z := 7.
Definition DataTypeStreamACK : Z := 8.

Record DataFrame := mkFrame {
  df_Version : Z;
  df_Type : Z;
  df_Flags : Z;
  df_HopLimit : Z;
  df_Source : string;
  df_Destination : string;
  df_FlowID : Z;
  df_Sequence : Z;
  df_Payload : list Z;
}.

Definition set_HopLimit (h : Z) (f : DataFrame) : DataFrame :=
  mkFrame (df_Version f) (df_Type f) (df_Flags f) h (df_Source f) (df_Destination f)
    (df_FlowID f) (df_Sequence f) (df_Payload f).

Definition valid_type (t : Z) : bool :=
  (t =? DataTypePacket) || (t =? DataTypeStreamOpen) || (t =? DataTypeStreamOpenOK)
  || (t =? DataTypeStreamOpenError) || (t =? DataTypeStreamData) || (t =? DataTypeStreamFIN)
  || (t =? DataTypeStreamReset) || (t =? DataTypeStreamACK).

Definition ValidateDataFrame (f : DataFrame) : option merr :=
  if negb (df_Version f =? DataFrameVersion) then Some (MText "unsupported version") else
  if negb (valid_type (df_Type f)) then Some (MText "unsupported type") else
  if negb (df_Flags f =? 0) then Some (MText "unsupported flags") else
  if (df_HopLimit f =? 0) || (MaxHopLimit <? df_HopLimit f)
  then Some (MText "hop limit out of range") else
  if bool_decide (TrimSpace (df_Source f) = "")
     || (MaxDataNodeIDLength <? blen (string_bytes (df_Source f)))
  then Some (MText "invalid source") else
  if bool_decide (TrimSpace (df_Destination f) = "")
     || (MaxDataNodeIDLength <? blen (string_bytes (df_Destination f)))
  then Some (MText "invalid destination") else
  if df_FlowID f =? 0 then Some (MText "flow id is required") else
  if MaxDataPayloadSize <? blen (df_Payload f) then Some (MText "payload too large") else
  if (df_Type f =? DataTypePacket) || (df_Type f =? DataTypeStreamData) then
    if blen (df_Payload f) =? 0 then Some (MText "payload required") else None
  else if (df_Type f =? DataTypeStreamOpen) || (df_Type f =? DataTypeStreamOpenOK)
          || (df_Type f =? DataTypeStreamFIN) || (df_Type f =? DataTypeStreamACK) then
    if negb (blen (df_Payload f) =? 0) then Some (MText "payload not accepted") else None
  else None.

(** The writes into the frame's buffer, in the order of the source; the slices
    they fill are adjacent. *)
Definition MarshalDataFrame (f : DataFrame) : res merr (list Z) :=
  match ValidateDataFrame f with
  | Some e => Err e
  | None =>
      let source := string_bytes (df_Source f) in
      let destination := string_bytes (df_Destination f) in
      Ok ([87; 75; 68; 49] ++ [df_Version f; df_Type f; df_Flags f; df_HopLimit f]
          ++ be_encode 2 (blen source) ++ be_encode 2 (blen destination)
          ++ be_encode 4 (blen (df_Payload f)) ++ be_encode 8 (df_FlowID f)
          ++ be_encode 8 (df_Sequence f) ++ source ++ destination ++ df_Payload f)
  end.

Definition UnmarshalDataFrame (raw : list Z) : res merr DataFrame :=
  if blen raw <? dataFrameHeaderSize then Err (MText "too short") else
  if negb (bytes_eqb (take 4 raw) [87; 75; 68; 49]) then Err (MText "invalid magic") else
  let sourceLength := be_decode (slice 8 10 raw) in
  let destinationLength := be_decode (slice 10 12 raw) in
  let payloadLength := be_decode (slice 12 16 raw) in
  let wantLength := dataFrameHeaderSize + sourceLength + destinationLength + payloadLength in
  if negb (wantLength =? blen raw) || (MaxEncodedDataFrame <? wantLength)
  then Err (MText "length mismatch") else
  let offset := dataFrameHeaderSize in
  let f := mkFrame (byte_at 4 raw) (byte_at 5 raw) (byte_at 6 raw) (byte_at 7 raw)
    (bytes_string (slice offset (offset + sourceLength) raw))
    (bytes_string (slice (offset + sourceLength) (offset + sourceLength + destinationLength) raw))
    (be_decode (slice 16 24 raw)) (be_decode (slice 24 32 raw))
    (drop (Z.to_nat (offset + sourceLength + destinationLength)) raw) in
  match ValidateDataFrame f with
  | Some e => Err e
  | None => Ok f
  end.

(** ** The router *)

(** [ne_id] is the identity of the entry, its address. *)
Record neighborEntry := mkNeighbor {
  ne_id : nat;
  ne_kind : string;
  ne_data : bool;
  ne_advertised : bool;
}.

Record Router := mkRouter {
  rr_nodeID : string;
  rr_seenTTL : Z;
  rr_seq : Z;
  rr_closed : bool;
  rr_neighbors : gmap string neighborEntry;
  rr_routes : gmap string string;
  rr_dataRoutes : gmap string string;
  rr_dataRoutesAuthoritative : bool;
  rr_seen : gmap (string * Z) Time;
}.

Definition set_rr_seq (x : Z) (r : Router) : Router :=
  mkRouter (rr_nodeID r) (rr_seenTTL r) x (rr_closed r) (rr_neighbors r) (rr_routes r)
    (rr_dataRoutes r) (rr_dataRoutesAuthoritative r) (rr_seen r).
Definition set_rr_closed (x : bool) (r : Router) : Router :=
  mkRouter (rr_nodeID r) (rr_seenTTL r) (rr_seq r) x (rr_neighbors r) (rr_routes r)
    (rr_dataRoutes r) (rr_dataRoutesAuthoritative r) (rr_seen r).
Definition set_rr_neighbors (x : gmap string neighborEntry) (r : Router) : Router :=
  mkRouter (rr_nodeID r) (rr_seenTTL r) (rr_seq r) (rr_closed r) x (rr_routes r)
    (rr_dataRoutes r) (rr_dataRoutesAuthoritative r) (rr_seen r).
Definition set_rr_tables (routes dataRoutes : gmap string string) (r : Router) : Router :=
  mkRouter (rr_nodeID r) (rr_seenTTL r) (rr_seq r) (rr_closed r) (rr_neighbors r) routes
    dataRoutes (rr_dataRoutesAuthoritative r) (rr_seen r).
Definition set_rr_authoritative (x : bool) (r : Router) : Router :=
  mkRouter (rr_nodeID r) (rr_seenTTL r) (rr_seq r) (rr_closed r) (rr_neighbors r) (rr_routes r)
    (rr_dataRoutes r) x (rr_seen r).
Definition set_rr_seen (x : gmap (string * Z) Time) (r : Router) : Router :=
  mkRouter (rr_nodeID r) (rr_seenTTL r) (rr_seq r) (rr_closed r) (rr_neighbors r) (rr_routes r)
    (rr_dataRoutes r) (rr_dataRoutesAuthoritative r) x.

Definition defaultSeenTTL : Z := 2 * Minute.

(** [base] is what [nextBootCounterBase()] returns. *)
Definition NewRouter (nodeID : string) (seenTTL base : Z) : res merr Router :=
  let nodeID := TrimSpace nodeID in
  if bool_decide (nodeID = "") then Err (MText "node id is required") else
  let seenTTL := if seenTTL <=? 0 then defaultSeenTTL else seenTTL in
  Ok (mkRouter nodeID seenTTL base false ∅ ∅ ∅ false ∅).

Definition NeighborKindStream : string := "stream".
Definition NeighborKindPacket : string := "packet".
Definition NeighborKindUnknown : string := "unknown".

(** [provided] is the session's own kind, if it has the method. *)
Definition kindOfNeighbor (provided : option string) : string :=
  match provided with
  | Some kind => if bool_decide (kind = NeighborKindStream) || bool_decide (kind = NeighborKindPacket)
                 then kind else NeighborKindUnknown
  | None => NeighborKindUnknown
  end.

(** [session.PeerID()] is [peer], [id] the address of the new entry.  The
    handle returned names the entry; a [NeighborEvent] follows. *)
Definition addNeighborWithAdvertisement (peer : string) (id : nat) (kind : option string)
    (data advertised : bool) (r : Router) : Router * option merr :=
  let peerID := TrimSpace peer in
  if bool_decide (peerID = "") then (r, Some (MText "neighbor peer id is required")) else
  if bool_decide (peerID = rr_nodeID r) then (r, Some (MText "cannot be its own neighbor")) else
  if rr_closed r then (r, Some ErrClosed) else
  match rr_neighbors r !! peerID with
  | Some _ => (r, Some (MText "already attached"))
  | None =>
      (set_rr_neighbors (<[peerID := mkNeighbor id (kindOfNeighbor kind) data advertised]>
         (rr_neighbors r)) r, None)
  end.

(** The part of [RemoveNeighbor] and of [detachNeighborHandle] that changes the
    tables. *)
Definition detach (peerID : string) (r : Router) : Router :=
  set_rr_tables (filter (fun kv => kv.2 <> peerID) (rr_routes r))
    (filter (fun kv => kv.2 <> peerID) (rr_dataRoutes r))
    (set_rr_neighbors (delete peerID (rr_neighbors r)) r).

(** [closeErr] is what closing the session returned. *)
Definition RemoveNeighbor (peer : string) (closeErr : option merr) (r : Router)
    : Router * option merr :=
  let peerID := TrimSpace peer in
  if rr_closed r then (r, Some ErrClosed) else
  match rr_neighbors r !! peerID with
  | None => (r, Some ErrUnknownNeighbor)
  | Some _ => (detach peerID r, closeErr)
  end.

(** A handle: the peer and the address of the entry. *)
Definition NeighborHandle : Type := string * nat.

(** [r.neighbors[handle.peerID]] is still the entry of the handle. *)
Definition handle_current (h : NeighborHandle) (r : Router) : bool :=
  match rr_neighbors r !! h.1 with
  | Some e => Nat.eqb (ne_id e) h.2
  | None => false
  end.

Definition detachNeighborHandle (h : NeighborHandle) (r : Router) : Router * bool :=
  if rr_closed r || negb (handle_current h r) then (r, false) else (detach h.1 r, true).

Definition RemoveNeighborHandle (h : NeighborHandle) (closeErr : option merr) (r : Router)
    : Router * option merr :=
  let '(r', removed) := detachNeighborHandle h r in
  if removed then (r', closeErr) else (r, None).

Definition withdrawNeighborHandle (h : NeighborHandle) (r : Router) : Router :=
  (detachNeighborHandle h r).1.

Definition PromoteNeighborHandle (h : NeighborHandle) (r : Router) : Router * bool :=
  if rr_closed r || negb (handle_current h r) then (r, false) else
  (set_rr_neighbors (alter (fun e => mkNeighbor (ne_id e) (ne_kind e) (ne_data e) true) h.1
     (rr_neighbors r)) r, true).

Record NeighborInfo := mkNeighborInfo {
  ni_PeerID : string;
  ni_Kind : string;
  ni_DataCapable : bool;
  ni_Advertised : bool;
  ni_Handle : NeighborHandle;
}.

(** [Router.neighbor]. *)
Definition neighbor (peer : string) (r : Router) : option NeighborInfo :=
  let peerID := TrimSpace peer in
  if rr_closed r then None else
  match rr_neighbors r !! peerID with
  | None => None
  | Some e => Some (mkNeighborInfo peerID (ne_kind e) (ne_data e) (ne_advertised e) (peerID, ne_id e))
  end.

Definition SetRoute (destination nextHop : string) (r : Router) : Router * option merr :=
  let destination := TrimSpace destination in
  let nextHop := TrimSpace nextHop in
  if bool_decide (destination = "") || bool_decide (nextHop = "")
  then (r, Some (MText "destination and next hop are required")) else
  if bool_decide (destination = rr_nodeID r) then (r, Some (MText "local destination")) else
  if rr_closed r then (r, Some ErrClosed) else
  (set_rr_tables (<[destination := nextHop]> (rr_routes r))
     (<[destination := nextHop]> (rr_dataRoutes r)) r, None).

Definition RemoveRoute (destination : string) (r : Router) : Router :=
  let destination := TrimSpace destination in
  set_rr_tables (delete destination (rr_routes r)) (delete destination (rr_dataRoutes r)) r.

(** [closeErrs] are the results of closing the sessions. *)
Definition Close (closeErrs : list (option merr)) (r : Router) : Router * list merr :=
  if rr_closed r then (r, []) else
  (set_rr_tables ∅ ∅ (set_rr_neighbors ∅ (set_rr_closed true r)), omap id closeErrs).

Section range.
Context {R : MapRange}.

Definition normalize_hop (nodeID : string) (next : gmap string string) (entry : string * string)
    : gmap string string :=
  let destination := TrimSpace entry.1 in
  let nextHop := TrimSpace entry.2 in
  if bool_decide (destination = "") || bool_decide (nextHop = "") || bool_decide (destination = nodeID)
  then next else <[destination := nextHop]> next.

Definition normalizedNextHops (i : nat) (nodeID : string) (routes : gmap string string)
    : gmap string string :=
  fold_left (normalize_hop nodeID) (map_range i routes) ∅.

Definition replaceRouteTables (routes dataRoutes : gmap string string) (r : Router)
    : Router * option merr :=
  if rr_closed r then (r, Some ErrClosed) else
  (set_rr_authoritative true (set_rr_tables (normalizedNextHops 0 (rr_nodeID r) routes)
     (normalizedNextHops 1 (rr_nodeID r) dataRoutes) r), None).

Definition ReplaceRoutes (routes : gmap string string) (r : Router) : Router * option merr :=
  replaceRouteTables routes routes r.

(** [neighborDataCapabilities]; nil when the router is closed. *)
Definition neighborDataCapabilities (r : Router) : gmap string bool :=
  if rr_closed r then ∅ else ne_data <$> rr_neighbors r.

Definition syncRoutes (t : Topology) (r : Router) : Router :=
  let capabilities := neighborDataCapabilities r in
  let dataRoutes := filter (fun kv => default false (capabilities !! kv.2) = true) (DataNextHops t) in
  (replaceRouteTables (NextHops t) dataRoutes r).1.
End range.

Definition hasNeighbor (peerID : string) (r : Router) : bool :=
  negb (bool_decide (peerID = ""))
  && (negb (rr_closed r) && bool_decide (is_Some (rr_neighbors r !! peerID))).

Definition lookup_next (destination : string) (r : Router) : res merr (string * neighborEntry) :=
  if rr_closed r then Err ErrClosed else
  match rr_neighbors r !! destination with
  | Some direct => Ok (destination, direct)
  | None =>
      let nextHop := default "" (rr_routes r !! destination) in
      if bool_decide (nextHop = "") then Err ErrNoRoute else
      match rr_neighbors r !! nextHop with
      | None => Err ErrUnknownNeighbor
      | Some entry => Ok (nextHop, entry)
      end
  end.

Definition lookupData_table (destination : string) (r : Router) : res merr (string * neighborEntry) :=
  let nextHop := default "" (rr_dataRoutes r !! destination) in
  if bool_decide (nextHop = "") then
    match rr_neighbors r !! destination with
    | Some _ => Err ErrDataChannelUnavailable
    | None => Err ErrNoRoute
    end
  else
    match rr_neighbors r !! nextHop with
    | None => Err ErrUnknownNeighbor
    | Some entry => if ne_data entry then Ok (nextHop, entry) else Err ErrDataChannelUnavailable
    end.

Definition lookupData (destination : string) (r : Router) : res merr (string * neighborEntry) :=
  if rr_closed r then Err ErrClosed else
  if rr_dataRoutesAuthoritative r then lookupData_table destination r else
  match rr_neighbors r !! destination with
  | Some direct => if ne_data direct then Ok (destination, direct)
                   else lookupData_table destination r
  | None => lookupData_table destination r
  end.

Definition dataRouteAvailable (destination : string) (r : Router) : bool :=
  match lookupData destination r with Ok _ => true | Err _ => false end.

(** What a call does with a frame. *)
Inductive data_action :=
| DataDelivered (f : DataFrame)
| DataForwarded (nextHop : string) (f : DataFrame)
| DataDropped (f : DataFrame) (err : merr)
| DataRejected (err : merr).

(** [sent] says whether the session accepted the frame. *)
Definition forwardData (sent : bool) (f : DataFrame) (r : Router) : data_action :=
  match lookupData (df_Destination f) r with
  | Err e => DataDropped f e
  | Ok (nextHop, _) => if sent then DataForwarded nextHop f else DataDropped f ErrSend
  end.

Definition prepare_frame (f : DataFrame) (r : Router) : DataFrame :=
  let f := if df_Version f =? 0 then mkFrame DataFrameVersion (df_Type f) (df_Flags f)
             (df_HopLimit f) (df_Source f) (df_Destination f) (df_FlowID f) (df_Sequence f)
             (df_Payload f) else f in
  let f := if bool_decide (TrimSpace (df_Source f) = "") then mkFrame (df_Version f) (df_Type f)
             (df_Flags f) (df_HopLimit f) (rr_nodeID r) (df_Destination f) (df_FlowID f)
             (df_Sequence f) (df_Payload f) else f in
  f.

Definition SendData (sent : bool) (f : DataFrame) (r : Router) : data_action :=
  let f := prepare_frame f r in
  if negb (bool_decide (df_Source f = rr_nodeID r)) then DataRejected (MText "cannot originate") else
  let f := if df_HopLimit f =? 0 then set_HopLimit 16 f else f in
  match ValidateDataFrame f with
  | Some e => DataRejected e
  | None =>
      if bool_decide (df_Destination f = rr_nodeID r) then DataDelivered f
      else forwardData sent f r
  end.

Definition HandleInboundData (sent : bool) (inbound : string) (f : DataFrame) (r : Router)
    : data_action :=
  let inboundPeer := TrimSpace inbound in
  if negb (hasNeighbor inboundPeer r) then DataDropped f ErrUnknownNeighbor else
  match ValidateDataFrame f with
  | Some e => DataDropped f e
  | None =>
      if bool_decide (df_Destination f = rr_nodeID r) then DataDelivered f else
      if df_HopLimit f <=? 1 then DataDropped f ErrHopLimitExceeded else
      forwardData sent (set_HopLimit (df_HopLimit f - 1) f) r
  end.
