(* ===== verification/MeshForward.v ===== *)
(** * Forwarding across the mesh

    A frame travels from router to router.  Whatever the tables say it comes to
    rest after at most its hop limit ([carry_terminates]); when the records of
    all nodes agree it follows the best route of its source to the
    destination. *)
From S2P Require Import Prelude GoStd MeshTopology MeshSearch MeshRoutes MeshMessage MeshRouter.

(** ** The rest of a best route is a best route *)
Section tails.
Context (edge : string -> string -> Z -> Prop).

Lemma walk_uncons pass s p d r :
  walk edge pass s p d r ->
  (p = [s] /\ d = s /\ r = 0) \/
  exists n q w r', p = s :: n :: q /\ pass s /\ edge s n w /\ r = w + r' /\
    walk edge pass n (n :: q) d r'.
Proof.
  induction 1 as [|p u r v w Hw IH Hp He]; [by left|right].
  destruct IH as [(-> & -> & ->)|(n & q & w' & r' & -> & Hs & He' & -> & Hw')].
  - exists v, [], w, 0. split_and!; try done; [lia|constructor].
  - exists n, (q ++ [v]), w', (r' + w). split_and!; try done; [lia|].
    by apply (walk_step _ _ _ (n :: q) u).
Qed.

Lemma walk_cons (pass : string -> Prop) s n w p d r :
  pass s -> edge s n w -> walk edge pass n p d r -> walk edge pass s (s :: p) d (w + r).
Proof.
  intros Hs He. induction 1 as [|p u r v w' Hw IH Hp Hx].
  - rewrite Z.add_comm. apply (walk_step _ _ _ [s] s 0); [constructor|done..].
  - rewrite Z.add_assoc. by apply (walk_step _ _ _ (s :: p) u).
Qed.

Lemma walk_last pass s p d r : walk edge pass s p d r -> last p = Some d.
Proof. destruct 1; [done|]. by rewrite last_snoc. Qed.

(** A walk that meets [x] has a rest that starts there. *)
Lemma walk_from pass s p d r x :
  walk edge pass s p d r -> x ∈ p ->
  exists p' r', walk edge pass x p' d r' /\ (length p' <= length p)%nat.
Proof.
  intros Hw. remember (length p) as n eqn:Hn. revert s p r Hn Hw.
  induction n as [|n IH]; intros s p r Hn Hw Hx.
  { pose proof (walk_length _ _ _ _ _ _ Hw). lia. }
  destruct (decide (x = s)) as [->|Hne]; [exists p, r; split; [done|lia]|].
  destruct (walk_uncons _ _ _ _ _ Hw) as [(-> & _)|(m & q & w & r' & -> & _ & _ & _ & Hw')].
  - apply list_elem_of_singleton in Hx. done.
  - apply elem_of_cons in Hx as [?|Hx]; [done|]. simpl in Hn.
    destruct (IH m (m :: q) r') as (p' & s' & ? & ?); [simpl; lia|done|done|].
    exists p', s'. split; [done|lia].
Qed.

Lemma walk_pass (pass pass' : string -> Prop) s p d r :
  (forall u, u ∈ p -> pass u -> pass' u) -> walk edge pass s p d r -> walk edge pass' s p d r.
Proof.
  intros Hp Hw. induction Hw as [|p u r v w Hw IH Hu He]; [constructor|].
  apply (walk_step _ _ _ p u); [|apply Hp; [|done]|done].
  - apply IH. intros x Hx. apply Hp. apply elem_of_app. by left.
  - apply elem_of_app. left. apply walk_last in Hw. by apply last_Some_elem_of.
Qed.

Context (transit : string -> Prop).
Notation passes_from s := (fun u => u = s \/ transit u).
Notation best_from s := (best edge (passes_from s) s).

Lemma best_self s : best_from s s [s] 0.
Proof.
  split; [constructor|]. intros p r Hw. pose proof (walk_length _ _ _ _ _ _ Hw).
  destruct (decide (length p = 1%nat)) as [E|E].
  - destruct (walk_one _ _ _ _ _ _ Hw E) as (-> & _ & ->). by left.
  - right. left. simpl. lia.
Qed.

Lemma best_tail s d n q r :
  best_from s d (s :: n :: q) r ->
  exists w r', edge s n w /\ r = w + r' /\ best_from n d (n :: q) r' /\
    (n = d \/ transit n).
Proof.
  intros [Hw B].
  destruct (walk_uncons _ _ _ _ _ Hw) as [[[=] _]|(n' & q' & w & r' & [= <- <-] & _ & He & -> & Hw')].
  assert (Hs : s ∉ n :: q).
  { intros Hin. destruct (walk_from _ _ _ _ _ _ Hw' Hin) as (p' & s' & Hp & Hl).
    apply B, key_le_hops in Hp. simpl in *. lia. }
  exists w, r'. split; [done|]. split; [done|].
  destruct (walk_uncons _ _ _ _ _ Hw')
    as [([= ->] & -> & ->)|(m & q2 & w2 & r2 & Eq & Hn & _ & _ & _)].
  { split; [apply best_self|by left]. }
  assert (Ht : transit n). { destruct Hn as [->|?]; [|done]. destruct Hs. by apply list_elem_of_here. }
  split; [|by right]. split.
  - apply (walk_pass (passes_from s)); [|done]. intros u Hu [->|?]; [done|by right].
  - intros p2 s2 Hp. apply key_le_cons with (x := s) (w := w). apply B.
    apply (walk_cons _ s n w); [by left|done|].
    apply (walk_pass (passes_from n)); [|done]. intros u _ [->|?]; by right.
Qed.
End tails.

(** ** A frame on its way *)
Notation network := (gmap string (Topology * Router)).

(** The nodes a frame visits from [node], where it arrives from [inbound], and
    what becomes of it; [up n] says whether a send of [n] succeeds. *)
Fixpoint carry (fuel : nat) (net : network) (up : string -> bool) (inbound node : string)
    (f : DataFrame) : option (list string * data_action) :=
  match fuel with
  | O => None
  | S fuel' =>
      match net !! node with
      | None => Some ([node], DataDropped f ErrClosed)
      | Some (_, router) =>
          match HandleInboundData (up node) inbound f router with
          | DataForwarded nextHop f' =>
              match carry fuel' net up node nextHop f' with
              | Some (visited, action) => Some (node :: visited, action)
              | None => None
              end
          | action => Some ([node], action)
          end
      end
  end.

(** A frame originated at [node]. *)
Definition originate (fuel : nat) (net : network) (up : string -> bool) (node : string)
    (f : DataFrame) : option (list string * data_action) :=
  match net !! node with
  | None => None
  | Some (_, router) =>
      match SendData (up node) f router with
      | DataForwarded nextHop f' =>
          match carry fuel net up node nextHop f' with
          | Some (visited, action) => Some (node :: visited, action)
          | None => None
          end
      | action => Some ([node], action)
      end
  end.

Definition at_rest (a : data_action) : Prop :=
  match a with DataForwarded _ _ => False | _ => True end.

Lemma HandleInboundData_hops sent inbound f r nextHop f' :
  HandleInboundData sent inbound f r = DataForwarded nextHop f' ->
  1 < df_HopLimit f /\ df_HopLimit f' = df_HopLimit f - 1.
Proof.
  unfold HandleInboundData, forwardData. destruct (negb _); [done|].
  destruct (ValidateDataFrame f); [done|]. case_bool_decide; [done|].
  destruct (Z.leb_spec (df_HopLimit f) 1); [done|].
  destruct (lookupData _ r) as [[n e]|]; [|done]. destruct sent; [|done]. intros [= _ <-].
  split; [lia|done].
Qed.

Lemma carry_terminates fuel net up inbound node f :
  df_HopLimit f <= Z.of_nat fuel -> (0 < fuel)%nat ->
  exists visited action, carry fuel net up inbound node f = Some (visited, action) /\
    at_rest action /\ (length visited <= Nat.max 1 (Z.to_nat (df_HopLimit f)))%nat.
Proof.
  revert inbound node f. induction fuel as [|fuel IH]; intros inbound node f Hf Hpos; [lia|].
  simpl. destruct (net !! node) as [[t r]|]; [|eexists _, _; split; [done|]; split; [done|simpl; lia]].
  destruct (HandleInboundData (up node) inbound f r) as [g|n g|g e|e] eqn:E;
    try (eexists _, _; split; [done|]; split; [done|simpl; lia]).
  apply HandleInboundData_hops in E as [Hl Eg].
  destruct (IH node n g) as (v & a & -> & Ha & Hv); [lia|lia|].
  eexists _, _. split; [done|]. split; [done|]. simpl. lia.
Qed.

(** ** Installed tables *)
Section tables.
Context {R : MapRange} `{!MapRangeLaws R}.

Lemma fold_normalize nodeID l m :
  NoDup l.*1 ->
  (forall k v, (k, v) ∈ l -> TrimSpace k = k /\ k <> "" /\ TrimSpace v = v /\ v <> "" /\ k <> nodeID) ->
  forall k v, fold_left (normalize_hop nodeID) l m !! k = Some v <->
    (k, v) ∈ l \/ (k ∉ l.*1 /\ m !! k = Some v).
Proof.
  revert m. induction l as [|[x y] l IH]; intros m Hnd Hok k v; simpl.
  { split; [intros ?; right; split; [apply not_elem_of_nil|done]|].
    intros [Hx|[_ ?]]; [by apply elem_of_nil in Hx|done]. }
  apply NoDup_cons in Hnd as [Hx Hnd].
  rewrite IH; [|done|intros k' v' Hin; apply Hok; by apply list_elem_of_further].
  destruct (Hok x y) as (E1 & N1 & E2 & N2 & N3); [by apply list_elem_of_here|].
  unfold normalize_hop. simpl. rewrite E1, E2, !bool_decide_false by done. simpl.
  rewrite lookup_insert_Some, !elem_of_cons.
  split.
  - intros [?|[Hn [[-> ->]|[? ?]]]]; [by left; right|by left; left|].
    right. split; [|done]. naive_solver.
  - intros [[[= -> ->]|?]|[Hn ?]]; [right; by auto|by left|right].
    split; [naive_solver|]. right. naive_solver.
Qed.

Lemma normalized_same i nodeID routes :
  (forall k v, routes !! k = Some v ->
     TrimSpace k = k /\ k <> "" /\ TrimSpace v = v /\ v <> "" /\ k <> nodeID) ->
  normalizedNextHops i nodeID routes = routes.
Proof.
  intros Hok. apply map_eq. intros k. apply option_eq. intros v. unfold normalizedNextHops.
  rewrite fold_normalize.
  - rewrite (map_range_perm _ i), elem_of_map_to_list, lookup_empty. naive_solver.
  - rewrite (map_range_perm _ i). apply NoDup_fst_map_to_list.
  - intros k' v' Hin. apply Hok. rewrite (map_range_perm _ i) in Hin.
    by apply elem_of_map_to_list in Hin.
Qed.
End tables.

(** ** Agreeing nodes *)

(** A node that has installed the routes of its topology. *)
Record node_ok (n : string) (t : Topology) (r : Router) : Prop := {
  no_topology : topology_reachable t;
  no_local : tp_localID t = n;
  no_small : small t;
  no_open : rr_closed r = false;
  no_id : rr_nodeID r = n;
  no_synced : exists (R : MapRange) (r0 : Router), MapRangeLaws R /\ r = syncRoutes t r0;
}.

(** All nodes hold the same records, and the sessions behind the advertised
    data edges are attached. *)
Record converged (net : network) : Prop := {
  cv_node n t r : net !! n = Some (t, r) -> node_ok n t r;
  cv_records n t r n' t' r' : net !! n = Some (t, r) -> net !! n' = Some (t', r') ->
    dom (tp_members t') = dom (tp_members t) /\
    forall id, lst_record <$> tp_lsas t' !! id = lst_record <$> tp_lsas t !! id;
  cv_members n t r id : net !! n = Some (t, r) -> id ∈ dom (tp_members t) ->
    is_Some (net !! id) /\ TrimSpace id = id;
  cv_sessions n t r m w t' r' : net !! n = Some (t, r) -> net !! m = Some (t', r') ->
    advertised t ∅ true n m w ->
    (exists e, rr_neighbors r !! m = Some e /\ ne_data e = true) /\
    is_Some (rr_neighbors r' !! n);
}.

(** With no exclusion the graph does not depend on the node that looks at it. *)
Lemma link_edge_view t t' dataOnly u link :
  dom (tp_members t') = dom (tp_members t) ->
  (forall id, lst_record <$> tp_lsas t' !! id = lst_record <$> tp_lsas t !! id) ->
  link_edge t' ∅ dataOnly u link = link_edge t ∅ dataOnly u link.
Proof.
  intros Hd Hl. set (x := mkTopology (tp_localID t) (tp_members t') (tp_lsas t') ∅ ∅).
  transitivity (link_edge x ∅ dataOnly u link); [|by apply link_edge_same].
  unfold link_edge. simpl. rewrite !(bool_decide_false (_ ∈ ∅)), !andb_false_r by set_solver. done.
Qed.

Lemma advertised_view t t' dataOnly u v w :
  dom (tp_members t') = dom (tp_members t) ->
  (forall id, lst_record <$> tp_lsas t' !! id = lst_record <$> tp_lsas t !! id) ->
  advertised t ∅ dataOnly u v w -> advertised t' ∅ dataOnly u v w.
Proof.
  intros Hd Hl (Hu & s & link & Hs & Hin & He)%advertised_edge. apply advertised_edge. split.
  { apply elem_of_dom. rewrite Hd. by apply elem_of_dom. }
  pose proof (Hl u) as E. rewrite Hs in E.
  destruct (tp_lsas t' !! u) as [s'|] eqn:Es; [|done]. simpl in E. injection E as E.
  exists s', link. rewrite E, (link_edge_view t t') by done. done.
Qed.

(** The best route of a node, seen by the node that looks at the records of
    [t]. *)
Definition best_at (t : Topology) (n d : string) (p : list string) (r : Z) : Prop :=
  best (advertised t ∅ true) (fun u => u = n \/ allows_transit t u) n d p r.

Lemma best_at_view t t' n d p r :
  dom (tp_members t') = dom (tp_members t) ->
  (forall id, lst_record <$> tp_lsas t' !! id = lst_record <$> tp_lsas t !! id) ->
  best_at t n d p r -> best_at t' n d p r.
Proof.
  intros Hd Hl. unfold best_at. apply best_iff.
  - intros u v w. split; apply advertised_view; try done; congruence.
  - intros u. unfold allows_transit. pose proof (Hl u) as E.
    destruct (tp_lsas t' !! u), (tp_lsas t !! u); simpl in E; try done.
    injection E as E.
    split; (intros [?|(s & [= <-] & ?)]; [by left|right; eexists; split; [done|congruence]]).
Qed.

Lemma best_at_local t d p r :
  best (advertised t ∅ true) (transits t) (tp_localID t) d p r <-> best_at t (tp_localID t) d p r.
Proof. by apply best_iff. Qed.

Lemma best_at_ne t n d m q r : best_at t n d (n :: m :: q) r -> d <> n.
Proof.
  intros B ->. destruct (best_unique _ _ _ _ _ _ _ _ B (best_self _ (allows_transit t) n)).
  done.
Qed.

Lemma route_members t k route :
  topology_wf t -> reference_route t ∅ true k route ->
  k ∈ dom (tp_members t) /\ rt_NextHop route ∈ dom (tp_members t).
Proof.
  intros W (Hne & p & r & n & [Hw _] & Hn & ->). simpl. split.
  - destruct Hw as [|p u r v w _ _ He]; [done|]. by apply advertised_ok in He as [? _].
  - destruct (walk_uncons _ _ _ _ _ _ Hw)
      as [(-> & _)|(m & q & w & r' & -> & _ & He & _)]; [done|].
    simpl in Hn. simplify_eq. by apply advertised_ok in He as [? _].
Qed.

Section delivery.
Context (net : network) (C : converged net).

Lemma member_id n t r id :
  net !! n = Some (t, r) -> id ∈ dom (tp_members t) -> TrimSpace id = id /\ id <> "".
Proof.
  intros Hn Hid. destruct (cv_members _ C n t r id Hn Hid) as [_ E]. split; [done|]. intros ->.
  pose proof (ti_wf _ (topology_reachable_inv _ (no_topology _ _ _ (cv_node _ C _ _ _ Hn)))) as W.
  apply elem_of_dom in Hid as [m Hm]. by rewrite (tw_members _ W) in Hm.
Qed.

(** The installed table holds the next hop of the best route. *)
Lemma installed_next n t r d m q rtt :
  net !! n = Some (t, r) -> best_at t n d (n :: m :: q) rtt ->
  exists e, lookupData d r = Ok (m, e).
Proof.
  intros Hn B. destruct (cv_node _ C _ _ _ Hn) as [Ht El Hs Ho Eid (R & r0 & L & Er)].
  pose proof (topology_reachable_inv _ Ht) as [W _ Sy].
  destruct (best_tail _ (allows_transit t) _ _ _ _ _ B) as (w & r' & He & _ & _ & _).
  destruct (advertised_ok _ _ _ _ _ _ W He) as [Hm _].
  destruct (cv_members _ C _ _ _ _ Hn Hm) as [[[t' rm] Hnet] _].
  destruct (cv_sessions _ C _ _ _ _ _ _ _ Hn Hnet He) as [(e & Hx & Hd) _].
  assert (Hc0 : rr_closed r0 = false).
  { rewrite Er in Ho. unfold syncRoutes, replaceRouteTables in Ho.
    destruct (rr_closed r0) eqn:E0; [simpl in Ho; congruence|done]. }
  assert (Hroute : tp_dataRoutes t !! d
    = Some (mkRoute d m (Z.of_nat (length (n :: m :: q)) - 1) rtt (n :: m :: q))).
  { apply (Sy Hs d). split; [rewrite El; by eapply best_at_ne|].
    exists (n :: m :: q), rtt, m. split; [|done]. rewrite best_at_local, El. done. }
  unfold syncRoutes, replaceRouteTables, neighborDataCapabilities in Er. rewrite Hc0 in Er.
  simpl in Er.
  assert (Hnext : rr_dataRoutes r !! d = Some m).
  { rewrite Er. simpl. rewrite normalized_same.
    - apply map_lookup_filter_Some. unfold DataNextHops. rewrite lookup_fmap, Hroute. split; [done|].
      simpl. rewrite lookup_fmap. rewrite Er in Hx. simpl in Hx. by rewrite Hx.
    - intros k v [Hk _]%map_lookup_filter_Some. unfold DataNextHops in Hk.
      rewrite lookup_fmap in Hk. destruct (tp_dataRoutes t !! k) as [rt|] eqn:Ek; [|done].
      injection Hk as <-. apply (Sy Hs) in Ek. pose proof (proj1 Ek) as Hne.
      apply route_members in Ek as [Hk Hv]; [|done].
      destruct (member_id _ _ _ _ Hn Hk), (member_id _ _ _ _ Hn Hv).
      split_and!; try done. rewrite Er in Eid. simpl in Eid. rewrite Eid. congruence. }
  exists e. unfold lookupData. rewrite Ho, Er. cbn [rr_dataRoutesAuthoritative set_rr_authoritative].
  rewrite <-Er. unfold lookupData_table. rewrite Hnext. simpl.
  destruct (member_id _ _ _ _ Hn Hm) as [_ Hne].
  rewrite bool_decide_false by done. by rewrite Hx, Hd.
Qed.

Lemma validate_hops f h :
  ValidateDataFrame f = None -> 1 <= h <= df_HopLimit f ->
  1 <= df_HopLimit f <= MaxHopLimit /\ ValidateDataFrame (set_HopLimit h f) = None.
Proof.
  unfold ValidateDataFrame. destruct f as [v ty fl hop src dst flow seq pay]. simpl.
  destruct (negb (v =? _)); [done|]. destruct (negb (valid_type ty)); [done|].
  destruct (negb (fl =? 0)); [done|].
  destruct (Z.eqb_spec hop 0), (Z.ltb_spec MaxHopLimit hop); try done. simpl. intros Hv Hh.
  split; [lia|]. destruct (Z.eqb_spec h 0), (Z.ltb_spec MaxHopLimit h); try lia. done.
Qed.

Lemma valid_hops f : ValidateDataFrame f = None -> 0 <= df_HopLimit f -> 1 <= df_HopLimit f <= MaxHopLimit.
Proof.
  unfold ValidateDataFrame. repeat (destruct (negb _); [done|]).
  destruct (Z.eqb_spec (df_HopLimit f) 0), (Z.ltb_spec MaxHopLimit (df_HopLimit f)); try done. lia.
Qed.

Context (up : string -> bool) (all_up : forall n, up n = true).

(** What happens to a frame that still has [q] ahead of it. *)
Definition rest (f : DataFrame) (path : list string) : list string * data_action :=
  if decide (Z.of_nat (length path) <= df_HopLimit f)
  then (path, DataDelivered (set_HopLimit (df_HopLimit f - (Z.of_nat (length path) - 1)) f))
  else (take (Z.to_nat (df_HopLimit f)) path, DataDropped (set_HopLimit 1 f) ErrHopLimitExceeded).

Lemma rest_cons f n m q :
  1 < df_HopLimit f ->
  rest f (n :: m :: q)
  = (n :: (rest (set_HopLimit (df_HopLimit f - 1) f) (m :: q)).1,
     (rest (set_HopLimit (df_HopLimit f - 1) f) (m :: q)).2).
Proof.
  intros Hh. unfold rest. cbn [set_HopLimit df_HopLimit]. cbn [length].
  destruct (decide (Z.of_nat (S (S (length q))) <= df_HopLimit f)) as [Hl|Hl];
    rewrite ?decide_True, ?decide_False by lia; cbn [fst snd].
  - replace (df_HopLimit f - 1 - (Z.of_nat (S (length q)) - 1))
      with (df_HopLimit f - (Z.of_nat (S (S (length q))) - 1)) by lia. done.
  - replace (Z.to_nat (df_HopLimit f)) with (S (Z.to_nat (df_HopLimit f - 1))) by lia. done.
Qed.

Lemma rest_one f n : 1 <= df_HopLimit f -> rest f [n] = ([n], DataDelivered f).
Proof.
  intros Hh. unfold rest. cbn [length]. rewrite decide_True by lia.
  replace (df_HopLimit f - (Z.of_nat 1 - 1)) with (df_HopLimit f) by lia. by destruct f.
Qed.

Lemma next_node n t r d m q rtt :
  net !! n = Some (t, r) -> best_at t n d (n :: m :: q) rtt ->
  exists t' r' rtt', net !! m = Some (t', r') /\ best_at t' m d (m :: q) rtt' /\
    hasNeighbor (TrimSpace n) r' = true.
Proof.
  intros Hn B. pose proof (cv_node _ C _ _ _ Hn) as [Ht El Hs Ho Eid _].
  pose proof (ti_wf _ (topology_reachable_inv _ Ht)) as W.
  destruct (best_tail _ (allows_transit t) _ _ _ _ _ B) as (w & rtt' & He & _ & B' & _).
  destruct (advertised_ok _ _ _ _ _ _ W He) as [Hm _].
  destruct (cv_members _ C _ _ _ _ Hn Hm) as [[[t' r'] Hnet] _].
  destruct (cv_records _ C _ _ _ _ _ _ Hn Hnet) as [V1 V2].
  destruct (cv_sessions _ C _ _ _ _ _ _ _ Hn Hnet He) as [_ Hback].
  exists t', r', rtt'. split; [done|]. split; [by apply (best_at_view t)|].
  destruct (member_id _ _ _ n Hn) as [-> Hne]; [by apply elem_of_dom, He|].
  unfold hasNeighbor. rewrite bool_decide_false by done.
  rewrite (no_open _ _ _ (cv_node _ C _ _ _ Hnet)). simpl. by apply bool_decide_true.
Qed.

Lemma carry_follows q n t r inbound f rtt fuel :
  net !! n = Some (t, r) -> best_at t n (df_Destination f) (n :: q) rtt ->
  hasNeighbor (TrimSpace inbound) r = true -> ValidateDataFrame f = None -> 1 <= df_HopLimit f ->
  df_HopLimit f <= Z.of_nat fuel ->
  carry fuel net up inbound n f = Some (rest f (n :: q)).
Proof.
  revert n t r inbound f rtt fuel.
  induction q as [|m q IH]; intros n t r inbound f rtt fuel Hn B Hin Hv Hh Hf;
    (destruct fuel as [|fuel]; [lia|]); simpl; rewrite Hn; unfold HandleInboundData;
    rewrite Hin, Hv; simpl; pose proof (cv_node _ C _ _ _ Hn) as Hok; rewrite (no_id _ _ _ Hok).
  - rewrite bool_decide_true by (pose proof (walk_last _ _ _ _ _ _ (proj1 B)) as E; by injection E).
    by rewrite rest_one.
  - rewrite bool_decide_false by (by eapply best_at_ne).
    destruct (Z.leb_spec (df_HopLimit f) 1) as [Hl|Hl].
    { unfold rest. simpl length. rewrite decide_False by lia.
      replace (df_HopLimit f) with 1 by lia. simpl. do 2 f_equal.
      destruct f; simpl in *. f_equal. unfold set_HopLimit. simpl. f_equal. lia. }
    destruct (installed_next _ _ _ _ _ _ _ Hn B) as [e El].
    unfold forwardData. cbn [set_HopLimit df_Destination]. rewrite El, all_up.
    destruct (next_node _ _ _ _ _ _ _ Hn B) as (t' & r' & rtt' & Hm & B' & Hb).
    rewrite (IH m t' r' n (set_HopLimit (df_HopLimit f - 1) f) rtt' fuel); try done.
    + rewrite rest_cons by lia. by destruct (rest _ _).
    + apply validate_hops; [done|lia].
    + simpl. lia.
    + simpl. lia.
Qed.
End delivery.

(** C18: in a converged mesh a frame follows the best data route of its source.
    Converged means: the nodes hold the same records, for at most 2000 members,
    their tables are computed from them, and the sessions behind all advertised
    data edges are attached; every send succeeds.  The frame visits exactly the
    nodes of the route's path and is delivered at its destination, with its hop
    limit reduced by one for each router that passed it on (the hop count minus
    one); if the limit is smaller than the hop count, it is dropped where the
    limit is used up.  No forwarding loop exists: every node's own next hop is
    the next node of the source's path. *)
Theorem frames_follow_routes net up node t r f route :
  converged net -> (forall n, up n = true) -> net !! node = Some (t, r) ->
  df_Source f = node -> ValidateDataFrame f = None -> 0 <= df_HopLimit f ->
  tp_dataRoutes t !! df_Destination f = Some route ->
  originate (Z.to_nat MaxHopLimit) net up node f =
  Some (if decide (rt_HopCount route <= df_HopLimit f)
        then (rt_Path route, DataDelivered (set_HopLimit (df_HopLimit f - (rt_HopCount route - 1)) f))
        else (take (S (Z.to_nat (df_HopLimit f))) (rt_Path route),
              DataDropped (set_HopLimit 1 f) ErrHopLimitExceeded)).
Proof.
  intros C Hup Hn Hsrc Hv Hh Hroute. pose proof (cv_node _ C _ _ _ Hn) as Hok.
  pose proof (topology_reachable_inv _ (no_topology _ _ _ Hok)) as [W _ Sy].
  apply (Sy (no_small _ _ _ Hok)) in Hroute.
  destruct Hroute as (Hne & path & rtt & m & B & Hm & ->). cbn [rt_HopCount rt_Path].
  rewrite best_at_local, (no_local _ _ _ Hok) in B. rewrite (no_local _ _ _ Hok) in Hne.
  destruct (walk_uncons _ _ _ _ _ _ (proj1 B)) as [(-> & _)|(n' & q & ? & ? & -> & _)]; [done|].
  injection Hm as ->. pose proof (valid_hops f Hv Hh) as Hl.
  destruct (installed_next _ C _ _ _ _ _ _ _ Hn B) as [e El].
  destruct (next_node _ C _ _ _ _ _ _ _ Hn B) as (t' & r' & rtt' & Hm & B' & Hb).
  unfold originate. rewrite Hn. unfold SendData, prepare_frame.
  rewrite (no_id _ _ _ Hok).
  assert (Ev : df_Version f =? 0 = false).
  { unfold ValidateDataFrame in Hv. destruct (Z.eqb_spec (df_Version f) 0) as [E|]; [|done].
    by rewrite E in Hv. }
  rewrite Ev. assert (Es : bool_decide (TrimSpace (df_Source f) = "") = false).
  { destruct (bool_decide (TrimSpace (df_Source f) = "")) eqn:E; [|done].
    unfold ValidateDataFrame in Hv. rewrite E in Hv. repeat (destruct (negb _); [done|]).
    by destruct ((df_HopLimit f =? 0) || _). }
  rewrite Es, bool_decide_true by done. cbn [negb].
  replace (df_HopLimit f =? 0) with false by lia. rewrite Hv, bool_decide_false by done.
  unfold forwardData. rewrite El, Hup.
  rewrite (carry_follows _ C _ Hup q m t' r' node f rtt'); try done; [|lia|unfold MaxHopLimit in *; lia].
  unfold rest. cbn [length].
  destruct (decide (Z.of_nat (S (length q)) <= df_HopLimit f));
    rewrite ?decide_True, ?decide_False by lia; [|done].
  replace (Z.of_nat (S (S (length q))) - 1 - 1) with (Z.of_nat (S (length q)) - 1) by lia. done.
Qed.

(** C40: no frame circulates.  Whatever the tables of the routers say, however
    they disagree, and whichever sends fail, a frame that a node originates
    comes to rest (delivered, dropped or rejected) after at most as many hops
    as its limit (16 where the sender leaves it zero), and never more than 64. *)
Theorem frames_come_to_rest net up node f :
  is_Some (net !! node) -> 0 <= df_HopLimit f ->
  exists visited action,
    originate (Z.to_nat MaxHopLimit) net up node f = Some (visited, action) /\ at_rest action /\
    Z.of_nat (length visited) - 1 <= (if df_HopLimit f =? 0 then 16 else df_HopLimit f) /\
    Z.of_nat (length visited) - 1 <= 64.
Proof.
  intros [[t r] Hn] Hh. unfold originate. rewrite Hn. unfold SendData.
  set (g := prepare_frame f r). set (limit := if df_HopLimit f =? 0 then 16 else df_HopLimit f).
  assert (Hlim : 0 <= limit) by (unfold limit; destruct (df_HopLimit f =? 0); lia).
  assert (Eg : df_HopLimit g = df_HopLimit f).
  { unfold g, prepare_frame. destruct (df_Version f =? 0); simpl; by case_bool_decide. }
  destruct (negb _); [eexists _, _; split; [done|]; split; [done|simpl; lia]|].
  set (h := if df_HopLimit g =? 0 then set_HopLimit 16 g else g).
  destruct (ValidateDataFrame h) as [e|] eqn:Ev;
    [eexists _, _; split; [done|]; split; [done|simpl; lia]|].
  assert (Hr : 1 <= df_HopLimit h <= MaxHopLimit /\ df_HopLimit h = limit).
  { unfold h, limit in *. rewrite <-Eg. destruct (Z.eqb_spec (df_HopLimit g) 0); simpl in *.
    - split; [unfold MaxHopLimit; lia|lia].
    - split; [apply valid_hops; [done|lia]|lia]. }
  case_bool_decide; [eexists _, _; split; [done|]; split; [done|simpl; lia]|].
  unfold forwardData. destruct (lookupData _ r) as [[n e]|];
    [|eexists _, _; split; [done|]; split; [done|simpl; lia]].
  destruct (up node); [|eexists _, _; split; [done|]; split; [done|simpl; lia]].
  unfold MaxHopLimit in *.
  destruct (carry_terminates (Z.to_nat 64) net up node n h) as (v & a & -> & Ha & Hl); [lia|lia|].
  eexists _, _. split; [done|]. split; [done|]. simpl. lia.
Qed.
