(* ===== verification/MeshRuns.v ===== *)
(** * The data frame codec (src/pkg/mesh/data_frame.go)

    Encoding and decoding are inverse to each other on valid frames. *)
From stdpp Require Import sorting.
From S2P Require Import Prelude GoStd MeshTopology MeshMessage MeshRouter MeshSearch MeshRoutes MeshForward.

(** The ranges of the Go types. *)
Record frame_wf (f : DataFrame) : Prop := {
  fw_version : is_byte (df_Version f);
  fw_type : is_byte (df_Type f);
  fw_flags : is_byte (df_Flags f);
  fw_hops : is_byte (df_HopLimit f);
  fw_flow : 0 <= df_FlowID f < 2 ^ 64;
  fw_sequence : 0 <= df_Sequence f < 2 ^ 64;
  fw_payload : Forall is_byte (df_Payload f);
}.

Definition frame_bytes (f : DataFrame) : list Z :=
  [87; 75; 68; 49] ++ [df_Version f; df_Type f; df_Flags f; df_HopLimit f]
  ++ be_encode 2 (blen (string_bytes (df_Source f)))
  ++ be_encode 2 (blen (string_bytes (df_Destination f)))
  ++ be_encode 4 (blen (df_Payload f)) ++ be_encode 8 (df_FlowID f) ++ be_encode 8 (df_Sequence f)
  ++ string_bytes (df_Source f) ++ string_bytes (df_Destination f) ++ df_Payload f.

Lemma validate_sizes f :
  ValidateDataFrame f = None ->
  blen (string_bytes (df_Source f)) <= MaxDataNodeIDLength /\
  blen (string_bytes (df_Destination f)) <= MaxDataNodeIDLength /\
  blen (df_Payload f) <= MaxDataPayloadSize.
Proof.
  unfold ValidateDataFrame. repeat (destruct (negb _); [done|]).
  destruct ((df_HopLimit f =? 0) || _); [done|].
  destruct (Z.ltb_spec MaxDataNodeIDLength (blen (string_bytes (df_Source f))));
    [by rewrite orb_true_r|].
  rewrite orb_false_r. destruct (bool_decide (TrimSpace (df_Source f) = "")); [done|].
  destruct (Z.ltb_spec MaxDataNodeIDLength (blen (string_bytes (df_Destination f))));
    [by rewrite orb_true_r|].
  rewrite orb_false_r. destruct (bool_decide (TrimSpace (df_Destination f) = "")); [done|].
  destruct (df_FlowID f =? 0); [done|].
  destruct (Z.ltb_spec MaxDataPayloadSize (blen (df_Payload f))); [done|]. done.
Qed.

Lemma take_app_at {A} (a b : list A) n : n = length a -> take n (a ++ b) = a.
Proof. intros ->. by rewrite take_app_length. Qed.
Lemma drop_app_at {A} (a b : list A) n : n = length a -> drop n (a ++ b) = b.
Proof. intros ->. by rewrite drop_app_length. Qed.

Lemma frame_bytes_length f :
  blen (frame_bytes f) = dataFrameHeaderSize + blen (string_bytes (df_Source f))
    + blen (string_bytes (df_Destination f)) + blen (df_Payload f).
Proof.
  unfold frame_bytes, blen, dataFrameHeaderSize. rewrite !length_app, !be_encode_length. simpl. lia.
Qed.

Lemma frame_bytes_bytes f : frame_wf f -> Forall is_byte (frame_bytes f).
Proof.
  intros [? ? ? ? _ _ ?]. unfold frame_bytes.
  repeat (apply Forall_app; split); auto using be_encode_is_byte, string_bytes_is_byte.
  by repeat constructor.
Qed.

(** Decoding what was encoded. *)
Lemma unmarshal_frame_bytes f :
  frame_wf f -> ValidateDataFrame f = None -> UnmarshalDataFrame (frame_bytes f) = Ok f.
Proof.
  intros W Hv. destruct (validate_sizes f Hv) as (Hs & Hd & Hp).
  set (source := string_bytes (df_Source f)) in *.
  set (destination := string_bytes (df_Destination f)) in *.
  assert (Hbig : 0 <= blen source /\ 0 <= blen destination /\ 0 <= blen (df_Payload f))
    by (unfold blen; lia).
  unfold MaxDataNodeIDLength, MaxDataPayloadSize in *.
  assert (E1 : be_decode (slice 8 10 (frame_bytes f)) = blen source).
  { change (slice 8 10 (frame_bytes f)) with (be_encode 2 (blen source)).
    apply be_decode_encode_small. lia. }
  assert (E2 : be_decode (slice 10 12 (frame_bytes f)) = blen destination).
  { change (slice 10 12 (frame_bytes f)) with (be_encode 2 (blen destination)).
    apply be_decode_encode_small. lia. }
  assert (E3 : be_decode (slice 12 16 (frame_bytes f)) = blen (df_Payload f)).
  { change (slice 12 16 (frame_bytes f)) with (be_encode 4 (blen (df_Payload f))).
    apply be_decode_encode_small. lia. }
  assert (E4 : be_decode (slice 16 24 (frame_bytes f)) = df_FlowID f).
  { change (slice 16 24 (frame_bytes f)) with (be_encode 8 (df_FlowID f)).
    apply be_decode_encode_small, W. }
  assert (E5 : be_decode (slice 24 32 (frame_bytes f)) = df_Sequence f).
  { change (slice 24 32 (frame_bytes f)) with (be_encode 8 (df_Sequence f)).
    apply be_decode_encode_small, W. }
  assert (D : drop 32 (frame_bytes f) = source ++ destination ++ df_Payload f) by reflexivity.
  assert (S1 : slice dataFrameHeaderSize (dataFrameHeaderSize + blen source) (frame_bytes f) = source).
  { unfold slice, dataFrameHeaderSize. change (Z.to_nat 32) with 32%nat. rewrite D.
    apply take_app_at. unfold blen. lia. }
  assert (S2 : slice (dataFrameHeaderSize + blen source)
    (dataFrameHeaderSize + blen source + blen destination) (frame_bytes f) = destination).
  { unfold slice, dataFrameHeaderSize.
    replace (Z.to_nat (32 + blen source)) with (32 + length source)%nat by (unfold blen; lia).
    rewrite <-drop_drop, D, drop_app_at by done. apply take_app_at. unfold blen. lia. }
  assert (S3 : drop (Z.to_nat (dataFrameHeaderSize + blen source + blen destination)) (frame_bytes f)
    = df_Payload f).
  { unfold dataFrameHeaderSize.
    replace (Z.to_nat (32 + blen source + blen destination))
      with (32 + (length source + length destination))%nat by (unfold blen; lia).
    by rewrite <-drop_drop, D, <-drop_drop, !drop_app_at by done. }
  unfold UnmarshalDataFrame. rewrite frame_bytes_length. fold source destination.
  replace (_ <? dataFrameHeaderSize) with false by (unfold dataFrameHeaderSize; lia).
  change (bytes_eqb (take 4 (frame_bytes f)) [87; 75; 68; 49]) with true. cbn [negb].
  rewrite E1, E2, E3, Z.eqb_refl. cbn [negb orb].
  replace (MaxEncodedDataFrame <? _) with false
    by (unfold MaxEncodedDataFrame, dataFrameHeaderSize, MaxDataNodeIDLength, MaxDataPayloadSize; lia).
  rewrite S1, S2, S3, E4, E5. unfold source, destination. rewrite !bytes_string_bytes.
  change (byte_at 4 (frame_bytes f)) with (df_Version f).
  change (byte_at 5 (frame_bytes f)) with (df_Type f).
  change (byte_at 6 (frame_bytes f)) with (df_Flags f).
  change (byte_at 7 (frame_bytes f)) with (df_HopLimit f).
  destruct f as [v ty fl hop src dst flow seq pay]. cbn [df_Version df_Type df_Flags df_HopLimit
    df_Source df_Destination df_FlowID df_Sequence df_Payload]. by rewrite Hv.
Qed.

(** The three parts after the header. *)
Lemma body_slices (h body : list Z) sl dl :
  length h = 32%nat -> 0 <= sl -> 0 <= dl ->
  slice dataFrameHeaderSize (dataFrameHeaderSize + sl) (h ++ body) = take (Z.to_nat sl) body /\
  slice (dataFrameHeaderSize + sl) (dataFrameHeaderSize + sl + dl) (h ++ body)
    = take (Z.to_nat dl) (drop (Z.to_nat sl) body) /\
  drop (Z.to_nat (dataFrameHeaderSize + sl + dl)) (h ++ body)
    = drop (Z.to_nat dl) (drop (Z.to_nat sl) body).
Proof.
  intros Hh ? ?. unfold slice, dataFrameHeaderSize.
  replace (Z.to_nat (32 + sl + dl)) with (length h + (Z.to_nat sl + Z.to_nat dl))%nat by lia.
  replace (Z.to_nat (32 + sl)) with (length h + Z.to_nat sl)%nat by lia.
  replace (Z.to_nat 32) with (length h) by lia.
  rewrite drop_app_length, !drop_app_add, drop_drop. split_and!; [f_equal; lia|f_equal; lia|done].
Qed.

Lemma body_parts body sl dl pl :
  Forall is_byte body -> 0 <= sl -> 0 <= dl -> 0 <= pl -> sl + dl + pl = blen body ->
  let src := take (Z.to_nat sl) body in
  let dst := take (Z.to_nat dl) (drop (Z.to_nat sl) body) in
  let pay := drop (Z.to_nat dl) (drop (Z.to_nat sl) body) in
  string_bytes (bytes_string src) = src /\ string_bytes (bytes_string dst) = dst /\
  Forall is_byte pay /\ blen src = sl /\ blen dst = dl /\ blen pay = pl /\ src ++ dst ++ pay = body.
Proof.
  intros Hb ? ? ? Hl src dst pay. unfold blen in *. unfold src, dst, pay.
  split_and!; try (apply string_bytes_string); auto using Forall_take, Forall_drop.
  - rewrite length_take. lia.
  - rewrite length_take, length_drop. lia.
  - rewrite !length_drop. lia.
  - by rewrite !take_drop.
Qed.

(** The fields of a header, as the decoder reads them. *)
Lemma header_fields (raw : list Z) :
  Forall is_byte raw -> 32 <= blen raw ->
  exists h body, raw = h ++ body /\ length h = 32%nat /\ Forall is_byte body /\
    h = take 4 raw ++ [byte_at 4 raw; byte_at 5 raw; byte_at 6 raw; byte_at 7 raw]
        ++ slice 8 10 raw ++ slice 10 12 raw ++ slice 12 16 raw ++ slice 16 24 raw ++ slice 24 32 raw /\
    Forall is_byte [byte_at 4 raw; byte_at 5 raw; byte_at 6 raw; byte_at 7 raw] /\
    Forall (fun part => Forall is_byte part.1 /\ length part.1 = part.2)
      [(slice 8 10 raw, 2%nat); (slice 10 12 raw, 2%nat); (slice 12 16 raw, 4%nat);
       (slice 16 24 raw, 8%nat); (slice 24 32 raw, 8%nat)].
Proof.
  intros Hb Hl. exists (take 32 raw), (drop 32 raw).
  assert (Hh : length (take 32 raw) = 32%nat) by (rewrite length_take; unfold blen in Hl; lia).
  pose proof (take_drop 32 raw) as E. pose proof (Forall_take _ 32 _ Hb) as H32.
  split; [done|]. split; [done|]. split; [by apply Forall_drop|].
  revert Hh E H32. generalize (take 32 raw), (drop 32 raw). intros h body Hh <- H32. clear -Hh H32.
  do 32 (destruct h as [|? h]; [done|]). destruct h; [|done]. split; [done|].
  pose proof (Forall_drop _ 4 _ H32) as H4.
  split; [exact (Forall_take _ 4 _ H4)|].
  repeat (apply Forall_cons; split); try apply Forall_nil; try done; (split; [|done]);
    cbn -[is_byte].
  - exact (Forall_take _ 2 _ (Forall_drop _ 8 _ H32)).
  - exact (Forall_take _ 2 _ (Forall_drop _ 10 _ H32)).
  - exact (Forall_take _ 4 _ (Forall_drop _ 12 _ H32)).
  - exact (Forall_take _ 8 _ (Forall_drop _ 16 _ H32)).
  - exact (Forall_take _ 8 _ (Forall_drop _ 24 _ H32)).
Qed.

(** Encoding what was decoded. *)
Lemma frame_bytes_unmarshal raw f :
  Forall is_byte raw -> UnmarshalDataFrame raw = Ok f ->
  frame_wf f /\ ValidateDataFrame f = None /\ frame_bytes f = raw.
Proof.
  intros Hb. unfold UnmarshalDataFrame.
  destruct (Z.ltb_spec (blen raw) dataFrameHeaderSize) as [|Hl]; [done|].
  destruct (header_fields raw Hb Hl) as (h & body & Er & Hh & Hbody & Eh & F4 & Fs).
  destruct (bytes_eqb _ _) eqn:Em; [|done]. cbn [negb]. apply bytes_eqb_eq in Em. rewrite Em in Eh.
  rewrite !Forall_cons in Fs. destruct Fs as ([F8 N8] & [F10 N10] & [F12 N12] & [F16 N16] & [F24 N24] & _).
  cbn [fst snd] in *.
  pose proof (be_decode_range _ F8) as R8. pose proof (be_decode_range _ F10) as R10.
  pose proof (be_decode_range _ F12) as R12. pose proof (be_decode_range _ F16) as R16.
  pose proof (be_decode_range _ F24) as R24.
  rewrite <-(be_encode_decode _ _ N8 F8), <-(be_encode_decode _ _ N10 F10),
    <-(be_encode_decode _ _ N12 F12), <-(be_encode_decode _ _ N16 F16),
    <-(be_encode_decode _ _ N24 F24) in Eh.
  rewrite N16 in R16. rewrite N24 in R24.
  set (sl := be_decode (slice 8 10 raw)) in *. set (dl := be_decode (slice 10 12 raw)) in *.
  set (pl := be_decode (slice 12 16 raw)) in *.
  destruct (Z.eqb_spec (dataFrameHeaderSize + sl + dl + pl) (blen raw)) as [El|]; [|done].
  destruct (MaxEncodedDataFrame <? _); [done|]. cbn [negb orb].
  assert (Hlen : sl + dl + pl = blen body).
  { rewrite Er in El. unfold blen, dataFrameHeaderSize in *. rewrite length_app, Hh in El. lia. }
  destruct (body_slices h body sl dl Hh) as (S1 & S2 & S3); [lia|lia|].
  rewrite <-Er in S1, S2, S3. rewrite S1, S2, S3.
  destruct (body_parts body sl dl pl Hbody) as (Es & Ed & Fp & L1 & L2 & L3 & Eb); try lia.
  destruct (ValidateDataFrame _) eqn:Ev; [done|]. intros [= <-]. split_and!; [|done|].
  - rewrite !Forall_cons in F4. destruct F4 as (? & ? & ? & ? & _). by split.
  - unfold frame_bytes. cbn [df_Version df_Type df_Flags df_HopLimit df_Source df_Destination
      df_FlowID df_Sequence df_Payload].
    rewrite Es, Ed, L1, L2, L3, Eb. etrans; [|symmetry; exact Er]. by rewrite Eh, <-!app_assoc.
Qed.

(** The data frame codec is a bijection.  Every frame the encoder accepts is
    decoded to itself, in at most 264,224 bytes; and every byte string the
    decoder accepts is the encoding of the frame it returns, so no frame has two
    encodings and nothing trails it. *)
Theorem data_frame_roundtrip f raw :
  frame_wf f -> Forall is_byte raw ->
  (MarshalDataFrame f = Ok raw <-> UnmarshalDataFrame raw = Ok f) /\
  (MarshalDataFrame f = Ok raw -> dataFrameHeaderSize < blen raw <= MaxEncodedDataFrame).
Proof.
  intros W Hb. change (MarshalDataFrame f)
    with (match ValidateDataFrame f with Some e => Err e | None => Ok (frame_bytes f) end).
  split; [split|].
  - destruct (ValidateDataFrame f) eqn:Ev; [done|]. intros [= <-]. by apply unmarshal_frame_bytes.
  - intros (_ & -> & ->)%frame_bytes_unmarshal; done.
  - destruct (ValidateDataFrame f) eqn:Ev; [done|]. intros [= <-].
    destruct (validate_sizes f Ev) as (? & ? & ?). rewrite frame_bytes_length.
    unfold MaxEncodedDataFrame, dataFrameHeaderSize, blen in *. split; [|lia].
    destruct (string_bytes (df_Source f)) eqn:Es; [|simpl; lia]. exfalso.
    assert (df_Source f = "") as E by (by apply string_bytes_inj).
    unfold ValidateDataFrame in Ev. rewrite E in Ev. repeat (destruct (negb _); [done|]).
    by destruct ((df_HopLimit f =? 0) || _).
Qed.

(** * A concrete mesh

    Three nodes: [a] and [c] reach each other over [b], and also over a direct
    link that carries only control messages. *)

(** ** A range order and a sort *)
#[export] Instance list_range : MapRange := fun A _ m => map_to_list m.
#[export] Instance list_range_laws : MapRangeLaws list_range.
Proof. intros A i m. done. Qed.

Definition edge_le (a b : graphEdge) : Prop := String.ltb (ge_to b) (ge_to a) = false.
#[export] Instance edge_le_dec a b : Decision (edge_le a b).
Proof. unfold edge_le. apply _. Defined.
#[export] Instance edge_le_total : Total edge_le.
Proof.
  intros a b. unfold edge_le. destruct (String.ltb (ge_to b) (ge_to a)) eqn:E1; [right|by left].
  destruct (String.ltb (ge_to a) (ge_to b)) eqn:E2; [|done].
  pose proof (string_ltb_trans _ _ _ E1 E2) as E3. by rewrite string_ltb_irrefl in E3.
Qed.

#[export] Instance merge_edges : SortEdges := merge_sort edge_le.
#[export] Instance merge_edges_laws : SortEdgesLaws merge_edges.
Proof. split; intros l; [apply merge_sort_Permutation|apply (Sorted_merge_sort edge_le)]. Qed.

(** ** Records *)
Definition mesh_member (id : string) : MemberRecord := mkMember id 1 30000 "" [] [] "".
Definition mesh_lsa (id : string) (transit : bool) (links : list LinkStateLink)
    : LinkStateAdvertisement := mkLSA id 1 30000 transit links.

Definition lsa_a := mesh_lsa "a" false [mkLink "b" 1 false; mkLink "c" 1 true].
Definition lsa_b := mesh_lsa "b" true [mkLink "a" 3 false; mkLink "c" 2 false].
Definition lsa_c := mesh_lsa "c" false [mkLink "b" 2 false; mkLink "a" 1 false].

Definition at0 : Time := mkTime 1000 true.

(** The topology of [id] after it has heard from the two others. *)
Definition mesh_start (id : string) : Topology :=
  match NewTopology id with Ok t => t | Err _ => mkTopology "" ∅ ∅ ∅ ∅ end.
Definition mesh_topology (id : string) (own other1 other2 : LinkStateAdvertisement) : Topology :=
  let t := mesh_start id in
  let t := (SetLocalMember (mesh_member id) t).1 in
  let t := (ApplyMember (mesh_member (ls_NodeID other1)) at0 at0 t).1 in
  let t := (ApplyMember (mesh_member (ls_NodeID other2)) at0 at0 t).1 in
  let t := (ApplyLinkState other1 at0 at0 t).1 in
  let t := (ApplyLinkState other2 at0 at0 t).1 in
  (SetLocalLinkState own t).1.

Definition top_a := mesh_topology "a" lsa_a lsa_b lsa_c.
Definition top_b := mesh_topology "b" lsa_b lsa_a lsa_c.
Definition top_c := mesh_topology "c" lsa_c lsa_a lsa_b.

Lemma mesh_topology_reachable id own other1 other2 :
  bool_decide (TrimSpace id = "") = false -> rtt_ok own -> rtt_ok other1 -> rtt_ok other2 ->
  topology_reachable (mesh_topology id own other1 other2).
Proof.
  intros Hid H0 H1 H2. exists id, (mesh_start id). split.
  { unfold mesh_start, NewTopology. by rewrite Hid. }
  unfold mesh_topology. do 6 (eapply rtc_r; [|first [by apply ts_SetLocalLinkState | by apply ts_ApplyLinkState
    | by apply ts_ApplyMember | by apply ts_SetLocalMember]]). apply rtc_refl.
Qed.

Lemma lsa_rtt_ok lsa :
  forallb (fun l => (0 <=? lk_RTTMillis l) && (lk_RTTMillis l <? 2 ^ 32)) (ls_Links lsa) = true ->
  rtt_ok lsa.
Proof.
  intros Hl. unfold rtt_ok. apply Forall_forall. intros l Hin%list_elem_of_In.
  rewrite forallb_forall in Hl. specialize (Hl l Hin). lia.
Qed.

Lemma top_reachable :
  topology_reachable top_a /\ topology_reachable top_b /\ topology_reachable top_c.
Proof.
  split_and!; apply mesh_topology_reachable; try (by apply lsa_rtt_ok); reflexivity.
Qed.

(** ** Routers *)
Definition mesh_router (id : string) (peers : list (string * bool)) : Router :=
  mkRouter id defaultSeenTTL 1 false
    (list_to_map ((fun p => (p.1, mkNeighbor 0 NeighborKindPacket p.2 true)) <$> peers)) ∅ ∅ false ∅.

Definition router_a := syncRoutes top_a (mesh_router "a" [("b", true); ("c", false)]).
Definition router_b := syncRoutes top_b (mesh_router "b" [("a", true); ("c", true)]).
Definition router_c := syncRoutes top_c (mesh_router "c" [("b", true); ("a", false)]).

Definition mesh : network :=
  {[ "a" := (top_a, router_a); "b" := (top_b, router_b); "c" := (top_c, router_c) ]}.

#[local] Opaque top_a top_b top_c router_a router_b router_c.

Lemma mesh_nodes :
  mesh !! "a" = Some (top_a, router_a) /\ mesh !! "b" = Some (top_b, router_b) /\
  mesh !! "c" = Some (top_c, router_c).
Proof.
  unfold mesh. split_and!; simplify_map_eq; reflexivity.
Qed.

(** ** The nodes agree *)
Lemma mesh_cases n t r :
  mesh !! n = Some (t, r) ->
  (n = "a" /\ t = top_a /\ r = router_a) \/ (n = "b" /\ t = top_b /\ r = router_b) \/
  (n = "c" /\ t = top_c /\ r = router_c).
Proof.
  unfold mesh. generalize top_a router_a top_b router_b top_c router_c. intros ta ra tb rb tc rc.
  rewrite !lookup_insert_Some, lookup_singleton_Some. naive_solver.
Qed.

Definition lsa_records (t : Topology) : gmap string LinkStateAdvertisement := lst_record <$> tp_lsas t.

Definition mesh_ids : gset string := {["a"; "b"; "c"]}.

Lemma mesh_db :
  (dom (tp_members top_a) = mesh_ids /\ dom (tp_members top_b) = mesh_ids /\
   dom (tp_members top_c) = mesh_ids) /\
  lsa_records top_b = lsa_records top_a /\ lsa_records top_c = lsa_records top_a.
Proof.
  split_and!; first [apply (bool_decide_unpack _); vm_compute; exact I | vm_cast_no_check (eq_refl (lsa_records top_a))].
Qed.

Lemma node_ok_a : node_ok "a" top_a router_a.
Proof.
  split; [apply top_reachable|vm_compute; reflexivity|vm_compute; discriminate
    |vm_compute; reflexivity..|].
  exists list_range, (mesh_router "a" [("b", true); ("c", false)]).
  split; [apply _|reflexivity].
Qed.
Lemma node_ok_b : node_ok "b" top_b router_b.
Proof.
  split; [apply top_reachable|vm_compute; reflexivity|vm_compute; discriminate
    |vm_compute; reflexivity..|].
  exists list_range, (mesh_router "b" [("a", true); ("c", true)]).
  split; [apply _|reflexivity].
Qed.
Lemma node_ok_c : node_ok "c" top_c router_c.
Proof.
  split; [apply top_reachable|vm_compute; reflexivity|vm_compute; discriminate
    |vm_compute; reflexivity..|].
  exists list_range, (mesh_router "c" [("b", true); ("a", false)]).
  split; [apply _|reflexivity].
Qed.

(** The data edges, computed. *)
Lemma data_edge t u v w :
  advertised t ∅ true u v w -> v ∈ ge_to <$> default [] (adjacency_of t ∅ true !! u).
Proof.
  intros He%adjacency_elem. apply list_elem_of_fmap. by exists (mkEdge v w).
Qed.

Lemma mesh_sessions n t r m w t' r' :
  mesh !! n = Some (t, r) -> mesh !! m = Some (t', r') -> advertised t ∅ true n m w ->
  (exists e, rr_neighbors r !! m = Some e /\ ne_data e = true) /\ is_Some (rr_neighbors r' !! n).
Proof.
  intros Hn Hm He%data_edge.
  assert (D : (if bool_decide (m ∈ ge_to <$> default [] (adjacency_of t ∅ true !! n))
    then (match rr_neighbors r !! m with Some e => ne_data e | None => false end)
         && bool_decide (is_Some (rr_neighbors r' !! n)) else true) = true).
  { clear He.
    destruct (mesh_cases _ _ _ Hn) as [(-> & -> & ->)|[(-> & -> & ->)|(-> & -> & ->)]],
      (mesh_cases _ _ _ Hm) as [(-> & -> & ->)|[(-> & -> & ->)|(-> & -> & ->)]];
      vm_compute; reflexivity. }
  rewrite bool_decide_true in D by done. apply andb_true_iff in D as [D1 D2%bool_decide_eq_true_1].
  split; [|done]. destruct (rr_neighbors r !! m) as [e|]; [by exists e|done].
Qed.

Lemma mesh_converged : converged mesh.
Proof.
  destruct mesh_db as [(Da & Db & Dc) [Lb Lc]].
  assert (V : forall n t r, mesh !! n = Some (t, r) ->
    node_ok n t r /\ dom (tp_members t) = mesh_ids /\ lsa_records t = lsa_records top_a).
  { intros n t r [(-> & -> & ->)|[(-> & -> & ->)|(-> & -> & ->)]]%mesh_cases;
      split_and!; auto using node_ok_a, node_ok_b, node_ok_c. }
  split.
  - intros n t r Hn. apply (V _ _ _ Hn).
  - intros n t r n' t' r' Hn Hn'. destruct (V _ _ _ Hn) as (_ & D1 & L1), (V _ _ _ Hn') as (_ & D2 & L2).
    split; [congruence|]. intros id. rewrite <-!lookup_fmap. unfold lsa_records in *. congruence.
  - intros n t r id Hn. destruct (V _ _ _ Hn) as (_ & -> & _). unfold mesh_ids.
    rewrite !elem_of_union, !elem_of_singleton.
    intros [[->| ->]| ->]; (split; [eexists; apply mesh_nodes|reflexivity]).
  - intros n t r m w t' r'. apply mesh_sessions.
Qed.

(** ** Witnesses *)
Lemma routes_are_best_witness :
  reference_route top_a ∅ true "c" (mkRoute "c" "b" 2 4000000 ["a"; "b"; "c"]) /\
  reference_route top_a ∅ false "c" (mkRoute "c" "c" 1 1000000 ["a"; "c"]).
Proof.
  pose proof (ti_wf _ (topology_reachable_inv _ (proj1 top_reachable))) as W.
  assert (Hs : small top_a) by (vm_compute; discriminate).
  split.
  - apply (proj1 (routes_are_best top_a ∅ true W Hs)). vm_compute. reflexivity.
  - apply (proj1 (routes_are_best top_a ∅ false W Hs)). vm_compute. reflexivity.
Defined.

Lemma tables_in_sync_witness :
  reference_route top_a ∅ true "c" (mkRoute "c" "b" 2 4000000 ["a"; "b"; "c"]).
Proof.
  assert (Hs : small top_a) by (vm_compute; discriminate).
  destruct (tables_in_sync top_a (proj1 top_reachable) Hs) as [W _].
  apply (W "c" (mkRoute "c" "b" 2 4000000 ["a"; "b"; "c"])). vm_compute. reflexivity.
Defined.

Definition mesh_frame (hops : Z) : DataFrame :=
  mkFrame 1 DataTypePacket 0 hops "a" "c" 7 1 [1; 2; 3].

(** With two hops the frame arrives; with one it is dropped at [b]. *)
Lemma frames_follow_routes_witness :
  originate 64 mesh (fun _ => true) "a" (mesh_frame 2)
    = Some (["a"; "b"; "c"], DataDelivered (mesh_frame 1)) /\
  originate 64 mesh (fun _ => true) "a" (mesh_frame 1)
    = Some (["a"; "b"], DataDropped (mesh_frame 1) ErrHopLimitExceeded).
Proof.
  split.
  - refine (eq_trans (frames_follow_routes mesh (fun _ => true) "a" top_a router_a (mesh_frame 2)
      (mkRoute "c" "b" 2 4000000 ["a"; "b"; "c"]) mesh_converged (fun _ => eq_refl) eq_refl eq_refl
      _ _ _) _); [vm_compute; reflexivity|vm_compute; discriminate|vm_compute; reflexivity|].
    reflexivity.
  - refine (eq_trans (frames_follow_routes mesh (fun _ => true) "a" top_a router_a (mesh_frame 1)
      (mkRoute "c" "b" 2 4000000 ["a"; "b"; "c"]) mesh_converged (fun _ => eq_refl) eq_refl eq_refl
      _ _ _) _); [vm_compute; reflexivity|vm_compute; discriminate|vm_compute; reflexivity|].
    reflexivity.
Defined.

(** Two routers whose static tables point at each other. *)
Definition looping : network :=
  {[ "a" := (mesh_start "a", (SetRoute "x" "b" (mesh_router "a" [("b", true)])).1);
     "b" := (mesh_start "b", (SetRoute "x" "a" (mesh_router "b" [("a", true)])).1) ]}.

Lemma frames_come_to_rest_witness :
  exists visited action,
    originate (Z.to_nat MaxHopLimit) looping (fun _ => true) "a"
      (mkFrame 1 DataTypePacket 0 5 "a" "x" 7 1 [1]) = Some (visited, action) /\
    at_rest action /\ visited = ["a"; "b"; "a"; "b"; "a"; "b"].
Proof.
  destruct (frames_come_to_rest looping (fun _ => true) "a"
    (mkFrame 1 DataTypePacket 0 5 "a" "x" 7 1 [1])) as (v & a & E & Ha & _);
    [by eexists|vm_compute; discriminate|].
  exists v, a. split; [exact E|]. split; [exact Ha|].
  vm_compute in E. by injection E as <- _.
Defined.

Lemma mesh_frame_wf : frame_wf (mesh_frame 2).
Proof. by repeat constructor. Qed.

Lemma data_frame_roundtrip_witness :
  UnmarshalDataFrame (frame_bytes (mesh_frame 2)) = Ok (mesh_frame 2).
Proof.
  apply (data_frame_roundtrip (mesh_frame 2) (frame_bytes (mesh_frame 2)) mesh_frame_wf).
  - exact (frame_bytes_bytes _ mesh_frame_wf).
  - vm_compute. reflexivity.
Defined.
