(* ===== verification/MeshControl.v ===== *)
(** * The control plane of the mesh router (src/pkg/mesh/router.go)

    A call of [Send] or [HandleInbound] is a sequence of critical sections and
    callbacks: it is accepted (which marks the message as seen), delivered to
    the local handler, and then sent on.  Each of these is a function here;
    [Send] and [HandleInbound] compose them, and the network of MeshFlood
    interleaves them with those of other calls.

    The local handler acts on the router and on a state of its own, and the
    outcome of a send is an argument. *)
From S2P Require Import Prelude GoStd MeshTopology MeshMessage MeshRouter.

Definition containsNode (path : list string) (nodeID : string) : bool :=
  existsb (fun candidate => bool_decide (candidate = nodeID)) path.

Definition seenKey : Type := string * Z.
Definition seen_key (m : Message) : seenKey := (mg_From m, mg_Seq m).

Definition markSeen (m : Message) (now : Time) (r : Router) : Router * option merr :=
  if rr_closed r then (r, Some ErrClosed) else
  let seen := filter (fun kv => After kv.2 now = true) (rr_seen r) in
  match seen !! seen_key m with
  | Some _ => (set_rr_seen seen r, Some ErrDuplicate)
  | None => (set_rr_seen (<[seen_key m := TAdd now (rr_seenTTL r)]> seen) r, None)
  end.

(** What a call reports to the event handler. *)
Inductive control_action :=
| CtlDelivered (inbound : string) (m : Message)
| CtlForwarded (inbound nextHop : string) (m : Message)
| CtlDropped (inbound : string) (m : Message) (err : merr).

(** ** Acceptance *)
Inductive acceptance :=
| Accepted (m : Message)
| Dropped (m : Message) (err : merr)
| Refused (err : merr).

Section control.
Context {J : MessageCodec}.

(** The header [Send] completes: origin, sequence, hop limit and path. *)
Definition complete_from (nodeID : string) (m : Message) : Message :=
  if blank (mg_From m) then set_From nodeID m else m.

Definition complete_seq (m : Message) (r : Router) : Router * Message :=
  if mg_Seq m =? 0
  then let seq := u64_add (rr_seq r) 1 in (set_rr_seq seq r, set_Seq seq m) else (r, m).

Definition complete_hops (m : Message) : Message :=
  if mg_HopLimit m =? 0 then set_hops DefaultHopLimit m else m.

Definition complete_path (nodeID : string) (m : Message) : res merr Message :=
  match last (mg_PathVector m) with
  | None => Ok (set_PathVector [nodeID] m)
  | Some final =>
      if bool_decide (final = nodeID) then Ok m else
      if containsNode (mg_PathVector m) nodeID then Err ErrLoopDetected else
      Ok (set_PathVector (mg_PathVector m ++ [nodeID]) m)
  end.

Definition prepare_message (m : Message) (r : Router) : Router * res merr Message :=
  let m := complete_from (rr_nodeID r) (cloneMessage m) in
  if negb (bool_decide (mg_From m = rr_nodeID r)) then (r, Err (MText "cannot originate")) else
  let '(r, m) := complete_seq m r in
  (r, complete_path (rr_nodeID r) (complete_hops m)).

Definition send_accept (now : Time) (m : Message) (r : Router) : Router * acceptance :=
  match prepare_message m r with
  | (r, Err e) => (r, Refused e)
  | (r, Ok m) =>
      match Validate m with
      | Some e => (r, Refused e)
      | None =>
          match markSeen m now r with
          | (r, Some e) => (r, Refused e)
          | (r, None) => (r, Accepted m)
          end
      end
  end.

Definition inbound_accept (now : Time) (inboundPeer : string) (m : Message) (r : Router)
    : Router * acceptance :=
  if negb (hasNeighbor inboundPeer r) then (r, Dropped m ErrUnknownNeighbor) else
  let m := cloneMessage m in
  if mg_Seq m =? 0 then (r, Dropped m (MText "sequence is required")) else
  if mg_HopLimit m =? 0 then (r, Dropped m ErrHopLimitExceeded) else
  match Validate m with
  | Some e => (r, Dropped m e)
  | None =>
      match markSeen m now r with
      | (r, Some e) => (r, Dropped m e)
      | (r, None) =>
          if containsNode (mg_PathVector m) (rr_nodeID r) then (r, Dropped m ErrLoopDetected) else
          let m := set_PathVector (mg_PathVector m ++ [rr_nodeID r]) m in
          if MaxPathVectorLength <? Z.of_nat (length (mg_PathVector m))
          then (r, Dropped m ErrHopLimitExceeded) else (r, Accepted m)
      end
  end.

(** ** What follows acceptance *)
Inductive phase :=
| PDeliver (inbound : string) (m : Message) (next : option Message)
    (** deliver [m]; if the handler succeeds, flood [next] *)
| PFlood (inbound : string) (m : Message)
| PSending (inbound : string) (m : Message) (todo : list string)
| PForward (inbound : string) (m : Message)
| PDrop (inbound : string) (m : Message) (err : merr).

Definition send_plan (m : Message) (r : Router) : phase :=
  if bool_decide (mg_To m = BroadcastNodeID) then PDeliver "" m (Some m) else
  if bool_decide (mg_To m = rr_nodeID r) then PDeliver "" m None else
  PForward "" m.

Definition inbound_plan (inbound : string) (m : Message) (r : Router) : phase :=
  let onward := set_hops (mg_HopLimit m - 1) m in
  if bool_decide (mg_To m = BroadcastNodeID)
  then PDeliver inbound m (if mg_HopLimit m <=? 1 then None else Some onward) else
  if bool_decide (mg_To m = rr_nodeID r) then PDeliver inbound m None else
  if mg_HopLimit m <=? 1 then PDrop inbound m ErrHopLimitExceeded else PForward inbound onward.

Context {R : MapRange} {S : Type}.
Context (onMessage : Time -> Message -> Router * S -> (Router * S) * option merr).

Definition neighborSnapshot (r : Router) : gmap string neighborEntry :=
  if rr_closed r then ∅ else rr_neighbors r.

(** The neighbors a flood goes to, in the order of the range. *)
Definition flood_targets (i : nat) (inbound : string) (m : Message) (r : Router) : list string :=
  filter (fun peerID => bool_decide (peerID = inbound) || containsNode (mg_PathVector m) peerID = false)
    (map_range i (neighborSnapshot r)).*1.

Definition deliver (now : Time) (inbound : string) (m : Message) (st : Router * S)
    : (Router * S) * list control_action * option merr :=
  let '(st', err) := onMessage now (cloneMessage m) st in
  (st', [CtlDelivered inbound (cloneMessage m)], err).

Definition drop_message (inbound : string) (m : Message) (err : merr) : list control_action :=
  [CtlDropped inbound (cloneMessage m) err].

(** One send of a flood; [sent] says whether the session accepted it. *)
Definition flood_send (sent : bool) (inbound : string) (m : Message) (peerID : string)
    : list control_action * list merr :=
  if sent then ([CtlForwarded inbound peerID (cloneMessage m)], []) else ([], [ErrSend]).

Definition forward (up : string -> bool) (inbound : string) (m : Message) (r : Router)
    : list control_action * list merr :=
  match lookup_next (mg_To m) r with
  | Err e => (drop_message inbound m e, [e])
  | Ok (nextHop, _) =>
      if up nextHop then ([CtlForwarded inbound nextHop (cloneMessage m)], [])
      else (drop_message inbound m ErrSend, [ErrSend])
  end.

Definition flood (i : nat) (up : string -> bool) (inbound : string) (m : Message) (r : Router)
    : list control_action * list merr :=
  let sends := (fun peerID => flood_send (up peerID) inbound m peerID) <$> flood_targets i inbound m r in
  (concat sends.*1, concat sends.*2).

(** ** Whole calls *)

(** The rest of a call, nothing else happening meanwhile.  The errors are the
    ones joined in the result; none is nil. *)
Definition finish_call (i : nat) (up : string -> bool) (now : Time) (p : phase) (st : Router * S)
    : (Router * S) * list control_action * list merr :=
  match p with
  | PDeliver inbound m next =>
      let '(st, events, err) := deliver now inbound m st in
      match err, next with
      | Some e, _ => (st, events, [e])
      | None, None => (st, events, [])
      | None, Some m => let '(more, errs) := flood i up inbound m st.1 in (st, events ++ more, errs)
      end
  | PFlood inbound m => let '(events, errs) := flood i up inbound m st.1 in (st, events, errs)
  | PSending inbound m todo =>
      let sends := (fun peerID => flood_send (up peerID) inbound m peerID) <$> todo in
      (st, concat sends.*1, concat sends.*2)
  | PForward inbound m => let '(events, errs) := forward up inbound m st.1 in (st, events, errs)
  | PDrop inbound m e => (st, drop_message inbound m e, [e])
  end.

Definition Send (i : nat) (up : string -> bool) (now : Time) (m : Message) (st : Router * S)
    : (Router * S) * list control_action * list merr :=
  match send_accept now m st.1 with
  | (r, Accepted m) => finish_call i up now (send_plan m r) (r, st.2)
  | (r, Dropped m e) => ((r, st.2), drop_message "" m e, [e])
  | (r, Refused e) => ((r, st.2), [], [e])
  end.

Definition HandleInbound (i : nat) (up : string -> bool) (now : Time) (peer : string) (m : Message)
    (st : Router * S) : (Router * S) * list control_action * list merr :=
  let inboundPeer := TrimSpace peer in
  match inbound_accept now inboundPeer m st.1 with
  | (r, Accepted m) => finish_call i up now (inbound_plan inboundPeer m r) (r, st.2)
  | (r, Dropped m e) => ((r, st.2), drop_message inboundPeer m e, [e])
  | (r, Refused e) => ((r, st.2), [], [e])
  end.
End control.
