(* ===== verification/MeshNode.v ===== *)
(** * A mesh node (src/pkg/mesh/node.go, generation.go)

    The node joins a router and a topology: it announces its own records,
    applies those of others, and installs the routes they give.  [time.Now()],
    the outcome of sends and the application's handlers are arguments. *)
From S2P Require Import Prelude GoStd MeshTopology MeshMessage MeshRouter MeshControl.
From Stdlib Require Import Sorted.

(** ** Boot counters *)
Definition bootCounterStride : Z := 2 ^ 20.

Definition bootCounterCandidate (nowNanos previous : Z) : Z :=
  let candidate := if 0 <? nowNanos then nowNanos else bootCounterStride in
  let minimum := if previous <=? u64_max - bootCounterStride then previous + bootCounterStride
                 else u64_max in
  if candidate <? minimum then minimum else candidate.

(** [last] is the process-wide counter; the new one is also the result. *)
Definition nextBootCounterBase (nowNanos last : Z) : Z := bootCounterCandidate nowNanos last.

(** ** State *)
Record Node := mkNode {
  nd_nodeID : string;
  nd_topology : Topology;
  nd_member : MemberRecord;
  nd_links : gmap string LinkStateLink;
  nd_neighborHandles : gmap string NeighborHandle;
  nd_lsaRevision : Z;
  nd_leaseMillis : Z;
  nd_hopLimit : Z;
  nd_transitAllowed : bool;
  nd_refreshInterval : Z;
  nd_started : bool;
  nd_closing : bool;
}.

Definition set_topology (t : Topology) (n : Node) : Node :=
  mkNode (nd_nodeID n) t (nd_member n) (nd_links n) (nd_neighborHandles n) (nd_lsaRevision n)
    (nd_leaseMillis n) (nd_hopLimit n) (nd_transitAllowed n) (nd_refreshInterval n) (nd_started n)
    (nd_closing n).
Definition set_neighborHandles (h : gmap string NeighborHandle) (n : Node) : Node :=
  mkNode (nd_nodeID n) (nd_topology n) (nd_member n) (nd_links n) h (nd_lsaRevision n)
    (nd_leaseMillis n) (nd_hopLimit n) (nd_transitAllowed n) (nd_refreshInterval n) (nd_started n)
    (nd_closing n).
Definition set_links (l : gmap string LinkStateLink) (revision : Z) (n : Node) : Node :=
  mkNode (nd_nodeID n) (nd_topology n) (nd_member n) l (nd_neighborHandles n) revision
    (nd_leaseMillis n) (nd_hopLimit n) (nd_transitAllowed n) (nd_refreshInterval n) (nd_started n)
    (nd_closing n).
Definition set_started (b : bool) (n : Node) : Node :=
  mkNode (nd_nodeID n) (nd_topology n) (nd_member n) (nd_links n) (nd_neighborHandles n)
    (nd_lsaRevision n) (nd_leaseMillis n) (nd_hopLimit n) (nd_transitAllowed n)
    (nd_refreshInterval n) b (nd_closing n).
Definition set_closing (b : bool) (n : Node) : Node :=
  mkNode (nd_nodeID n) (nd_topology n) (nd_member n) (nd_links n) (nd_neighborHandles n)
    (nd_lsaRevision n) (nd_leaseMillis n) (nd_hopLimit n) (nd_transitAllowed n)
    (nd_refreshInterval n) (nd_started n) b.

(** [sort.Slice] of the links by [PeerID]. *)
Class SortLinks := sort_links : list LinkStateLink -> list LinkStateLink.

Class SortLinksLaws (S : SortLinks) := {
  sort_links_perm : forall l, sort_links l ≡ₚ l;
  sort_links_sorted : forall l,
    Sorted (fun a b => String.ltb (lk_PeerID b) (lk_PeerID a) = false) (sort_links l);
}.

Definition defaultTopologyLease : Z := 30 * Second.
Definition defaultTopologyRefresh : Z := 10 * Second.
Definition defaultLinkRTTMillis : Z := 1.

Section node.
Context {J : MessageCodec} {R : MapRange} {SE : SortEdges} {SL : SortLinks}.

Definition localLinkStateLocked (n : Node) : LinkStateAdvertisement :=
  mkLSA (nd_nodeID n) (nd_lsaRevision n) (nd_leaseMillis n) (nd_transitAllowed n)
    (sort_links (map_range 0 (nd_links n)).*2).

(** ** Construction *)
Record NodeConfig := mkNodeConfig {
  nc_NodeID : string;
  nc_VirtualIP : string;
  nc_Endpoints : list string;
  nc_Capabilities : list string;
  nc_NATProfile : string;
  nc_Lease : Z;
  nc_RefreshInterval : Z;
  nc_HopLimit : Z;
  nc_DisableTransit : bool;
}.

Definition refresh_interval (configured lease : Z) : Z :=
  let refresh := if configured <=? 0 then defaultTopologyRefresh else configured in
  if lease <=? refresh then
    let refresh := Z.quot lease 3 in
    if refresh <=? 0 then Millisecond else refresh
  else refresh.

(** [nodeBase] and [routerBase] are the two boot counters, in this order. *)
Definition NewNode (cfg : NodeConfig) (nodeBase routerBase : Z) : res merr (Router * Node) :=
  let nodeID := TrimSpace (nc_NodeID cfg) in
  if bool_decide (nodeID = "") then Err (MText "node id is required") else
  let lease := if nc_Lease cfg <=? 0 then defaultTopologyLease else nc_Lease cfg in
  let leaseMillis := Milliseconds lease in
  if (leaseMillis <=? 0) || (MaxLeaseMillis <? leaseMillis)
  then Err (MText "topology lease out of range") else
  let refresh := refresh_interval (nc_RefreshInterval cfg) lease in
  let hopLimit := if nc_HopLimit cfg =? 0 then DefaultHopLimit else nc_HopLimit cfg in
  if MaxHopLimit <? hopLimit then Err (MText "hop limit exceeds maximum") else
  match NewTopology nodeID with
  | Err e => Err e
  | Ok topology =>
      let member := mkMember nodeID nodeBase leaseMillis (TrimSpace (nc_VirtualIP cfg))
        (nc_Endpoints cfg) (nc_Capabilities cfg) (TrimSpace (nc_NATProfile cfg)) in
      let node := mkNode nodeID topology member ∅ ∅ nodeBase leaseMillis hopLimit
        (negb (nc_DisableTransit cfg)) refresh false false in
      match NewRouter nodeID 0 routerBase with
      | Err e => Err e
      | Ok router =>
          match SetLocalMember member topology with
          | (_, Some e) => Err e
          | (topology, None) =>
              match SetLocalLinkState (localLinkStateLocked node) topology with
              | (_, Some e) => Err e
              | (topology, None) => Ok (router, set_topology topology node)
              end
          end
      end
  end.

(** ** Messages *)

(** [app] is what the application's handlers return, joined. *)
Definition handleMessage (app : Message -> option merr) (now : Time) (m : Message)
    (st : Router * Node) : (Router * Node) * option merr :=
  let '(r, n) := st in
  if bool_decide (mg_Type m = TypeMemberAnnounce) then
    match pl_MemberRecord (mg_payload m) with
    | None => (st, Some (MText "member announcement has no record"))
    | Some record =>
        match ApplyMember record now now (nd_topology n) with
        | (_, Err e) => (st, Some e)
        | (t, Ok changed) => ((if changed then syncRoutes t r else r, set_topology t n), None)
        end
    end
  else if bool_decide (mg_Type m = TypeLinkState) then
    match pl_LinkState (mg_payload m) with
    | None => (st, Some (MText "link-state announcement has no record"))
    | Some record =>
        match ApplyLinkState record now now (nd_topology n) with
        | (_, Err e) => (st, Some e)
        | (t, Ok changed) => ((if changed then syncRoutes t r else r, set_topology t n), None)
        end
    end
  else (st, app m).

Context (app : Message -> option merr).

(** The calls of [router.Send] the node makes: the result, the events and the
    joined errors. *)
Definition node_send (i : nat) (up : string -> bool) (now : Time) (m : Message) (st : Router * Node)
    : (Router * Node) * list control_action * list merr :=
  Send (handleMessage app) i up now m st.

Definition publishMember (i : nat) (up : string -> bool) (now : Time) (st : Router * Node)
    : (Router * Node) * list control_action * list merr :=
  node_send i up now (NewMemberAnnounce now (nd_nodeID st.2) (nd_member st.2) (nd_hopLimit st.2)) st.

Definition publishLinkState (i : nat) (up : string -> bool) (now : Time) (st : Router * Node)
    : (Router * Node) * list control_action * list merr :=
  node_send i up now
    (NewLinkState now (nd_nodeID st.2) (localLinkStateLocked st.2) (nd_hopLimit st.2)) st.

(** ** Neighbor changes *)
Definition install_handle (peer : string) (info : option NeighborInfo) (n : Node) : Node :=
  set_neighborHandles
    (match info with
     | Some i => <[peer := ni_Handle i]> (nd_neighborHandles n)
     | None => delete peer (nd_neighborHandles n)
     end) n.

Definition link_of (peer : string) (controlOnly : bool) : LinkStateLink :=
  mkLink peer defaultLinkRTTMillis controlOnly.

Definition handleNeighborChange (i : nat) (up : string -> bool) (now : Time) (peer : string)
    (st : Router * Node) : (Router * Node) * list control_action * list merr :=
  let '(r, n) := st in
  if blank peer then (st, [], []) else
  let info := neighbor peer r in
  if nd_closing n then (st, [], []) else
  let linked := nd_links n !! peer in
  let tracked := nd_neighborHandles n !! peer in
  let identityChanged :=
    match info, tracked with
    | Some x, Some h => negb (bool_decide (h = ni_Handle x))
    | None, None => false
    | _, _ => true
    end in
  let shouldLink := match info with Some x => ni_Advertised x | None => false end in
  let controlOnly := shouldLink && match info with Some x => negb (ni_DataCapable x) | None => false end in
  let capabilityChanged :=
    shouldLink && match linked with Some l => negb (eqb (lk_ControlOnly l) controlOnly) | None => false end in
  let changed := negb (eqb shouldLink (bool_decide (is_Some linked)))
                 || (shouldLink && (identityChanged || capabilityChanged)) in
  if negb changed then
    let n := install_handle peer info n in
    ((syncRoutes (nd_topology n) r, n), [], [])
  else
    let links := if shouldLink then <[peer := link_of peer controlOnly]> (nd_links n)
                 else delete peer (nd_links n) in
    let n := set_links links (u64_add (nd_lsaRevision n) 1) (install_handle peer info n) in
    let state := localLinkStateLocked n in
    match SetLocalLinkState state (nd_topology n) with
    | (_, Some _) => ((r, n), [], [])
    | (t, None) =>
        let n := set_topology t n in
        let r := syncRoutes t r in
        if nd_started n
        then node_send i up now (NewLinkState now (nd_nodeID n) state (nd_hopLimit n)) (r, n)
        else ((r, n), [], [])
    end.

(** ** Life cycle *)

(** [Start] with a live context; the two announcements read the clock again. *)
Definition Start (i j : nat) (up : string -> bool) (now now' : Time) (st : Router * Node)
    : (Router * Node) * list control_action * list merr :=
  if nd_closing st.2 then (st, [], [ErrClosed]) else
  if nd_started st.2 then (st, [], [MText "already started"]) else
  let st := (st.1, set_started true st.2) in
  match publishMember i up now st with
  | (st, events, []) =>
      match publishLinkState j up now' st with
      | (st, more, []) => (st, events ++ more, [])
      | (st, more, errs) => ((st.1, set_started false st.2), events ++ more, errs)
      end
  | (st, events, errs) => ((st.1, set_started false st.2), events, errs)
  end.

(** One tick of [runMaintenance], which carries the time [tick]. *)
Definition maintenance (i j : nat) (up : string -> bool) (tick now now' : Time) (st : Router * Node)
    : (Router * Node) * list control_action :=
  let '(st, events, _) := publishMember i up now st in
  let '(st, more, _) := publishLinkState j up now' st in
  let '(t, changed) := Expire tick now' (nd_topology st.2) in
  ((if changed then syncRoutes t st.1 else st.1, set_topology t st.2), events ++ more).

Definition node_Close (closeErrs : list (option merr)) (st : Router * Node)
    : (Router * Node) * list merr :=
  if nd_closing st.2 then (st, []) else
  let '(r, errs) := Close closeErrs st.1 in ((r, set_closing true st.2), errs).
End node.
