(* ===== verification/MeshNetwork.v ===== *)
(** * Routers that exchange control messages

    A world has the nodes, the jobs under way (a message in flight on a session,
    or a call at one of its phases) and the log of reported events.  Any job may
    move next, so the critical sections of calls at one router interleave in
    any order, and messages overtake each other.  [up u v] says whether sends
    from [u] to [v] succeed; a session delivers a message as it was sent. *)
From S2P Require Import Prelude GoStd MeshTopology MeshMessage MeshRouter MeshControl.

Inductive job :=
| JPacket (to from : string) (m : Message)
| JRun (node : string) (p : phase).

Definition job_node (j : job) : string :=
  match j with JPacket to _ _ => to | JRun node _ => node end.

Definition phase_message (p : phase) : Message :=
  match p with
  | PDeliver _ m _ | PFlood _ m | PSending _ m _ | PForward _ m | PDrop _ m _ => m
  end.
Definition job_message (j : job) : Message :=
  match j with JPacket _ _ m => m | JRun _ p => phase_message p end.
Definition job_key (j : job) : seenKey := seen_key (job_message j).

(** The phase a call continues with. *)
Fixpoint next_phase (js : list job) : option phase :=
  match js with
  | [] => None
  | JRun _ p :: _ => Some p
  | JPacket _ _ _ :: js' => next_phase js'
  end.

Section network.
Context {J : MessageCodec} {R : MapRange} {S : Type}.
Context (onMessage : Time -> Message -> Router * S -> (Router * S) * option merr).
Context (up : string -> string -> bool).

Record world := mkWorld {
  w_nodes : gmap string (Router * S);
  w_jobs : list job;
  w_log : list (string * control_action);
}.

(** One critical section or callback of a call. *)
Definition phase_step (i : nat) (now : Time) (node : string) (p : phase) (st : Router * S)
    : (Router * S) * list job * list control_action :=
  match p with
  | PDeliver inbound m next =>
      let '(st', events, err) := deliver onMessage now inbound m st in
      (st', match err, next with None, Some m' => [JRun node (PFlood inbound m')] | _, _ => [] end,
       events)
  | PFlood inbound m => (st, [JRun node (PSending inbound m (flood_targets i inbound m st.1))], [])
  | PSending inbound m [] => (st, [], [])
  | PSending inbound m (peer :: todo) =>
      (st, (if up node peer then [JPacket peer node m] else []) ++ [JRun node (PSending inbound m todo)],
       (flood_send (up node peer) inbound m peer).1)
  | PForward inbound m =>
      (st, match lookup_next (mg_To m) st.1 with
           | Ok (nextHop, _) => if up node nextHop then [JPacket nextHop node m] else []
           | Err _ => []
           end, (forward (up node) inbound m st.1).1)
  | PDrop inbound m e => (st, [], drop_message inbound m e)
  end.

Definition job_step (i : nat) (now : Time) (j : job) (st : Router * S)
    : (Router * S) * list job * list control_action :=
  match j with
  | JPacket to from m =>
      let inboundPeer := TrimSpace from in
      match inbound_accept now inboundPeer m st.1 with
      | (r, Accepted m') => ((r, st.2), [JRun to (inbound_plan inboundPeer m' r)], [])
      | (r, Dropped m' e) => ((r, st.2), [], drop_message inboundPeer m' e)
      | (r, Refused _) => ((r, st.2), [], [])
      end
  | JRun node p => phase_step i now node p st
  end.

(** [Send] up to and including acceptance. *)
Definition send_step (now : Time) (node : string) (m : Message) (st : Router * S)
    : (Router * S) * list job :=
  match send_accept now m st.1 with
  | (r, Accepted m') => ((r, st.2), [JRun node (send_plan m' r)])
  | (r, _) => ((r, st.2), [])
  end.

(** The label is the job that moved; clocks read times in [window], and the
    messages the application hands to [Send] satisfy [good]. *)
Inductive world_step (window : Time -> Prop) (good : Message -> Prop)
    : world -> option job -> world -> Prop :=
| ws_job w i now j before after st st' js events :
    w_jobs w = before ++ j :: after -> w_nodes w !! job_node j = Some st -> window now ->
    job_step i now j st = (st', js, events) ->
    world_step window good w (Some j)
      (mkWorld (<[job_node j := st']> (w_nodes w)) (before ++ js ++ after)
         (w_log w ++ (pair (job_node j) <$> events)))
| ws_send w now node m st st' js :
    w_nodes w !! node = Some st -> window now -> good m ->
    send_step now node m st = (st', js) ->
    world_step window good w None
      (mkWorld (<[node := st']> (w_nodes w)) (js ++ w_jobs w) (w_log w)).

Inductive world_run (window : Time -> Prop) (good : Message -> Prop)
    : world -> list (option job) -> world -> Prop :=
| wr_nil w : world_run window good w [] w
| wr_step w l w' ls w'' :
    world_run window good w ls w' -> world_step window good w' l w'' ->
    world_run window good w (ls ++ [l]) w''.

(** A whole call is the sequence of its jobs: the jobs of a phase, run to the
    end with nothing in between, leave the state and report the events of
    [finish_call]. *)
Fixpoint run_phase (fuel i : nat) (now : Time) (node : string) (p : phase) (st : Router * S)
    : option ((Router * S) * list control_action) :=
  match fuel with
  | O => None
  | Datatypes.S fuel' =>
      let '(st', js, events) := phase_step i now node p st in
      match next_phase js with
      | Some p' =>
          match run_phase fuel' i now node p' st' with
          | Some (st'', more) => Some (st'', events ++ more)
          | None => None
          end
      | None => Some (st', events)
      end
  end.

Lemma run_phase_next fuel i now node p st st' js p' st'' events more :
  phase_step i now node p st = (st', js, events) -> next_phase js = Some p' ->
  run_phase fuel i now node p' st' = Some (st'', more) ->
  run_phase (Datatypes.S fuel) i now node p st = Some (st'', events ++ more).
Proof. intros E1 E2 E3. simpl. by rewrite E1, E2, E3. Qed.

Lemma run_sending i now node inbound m todo st :
  run_phase (Datatypes.S (length todo)) i now node (PSending inbound m todo) st
  = Some (st, concat ((fun peer => flood_send (up node peer) inbound m peer) <$> todo).*1).
Proof.
  induction todo as [|peer todo IH]; [done|].
  cbn [fmap list_fmap concat]. eapply run_phase_next; [reflexivity|by destruct (up node peer)|done].
Qed.

Lemma run_flood i now node inbound m st :
  exists fuel, run_phase fuel i now node (PFlood inbound m) st
    = Some (st, (flood i (up node) inbound m st.1).1).
Proof.
  eexists. eapply (run_phase_next _ _ _ _ _ _ _ _ _ _ []); [reflexivity|reflexivity|apply run_sending].
Qed.

(** The phases of a call, uninterrupted, are the call. *)
Lemma finish_call_runs i now node p st st' events errs :
  finish_call onMessage i (up node) now p st = (st', events, errs) ->
  exists fuel, run_phase fuel i now node p st = Some (st', events).
Proof.
  destruct p as [inbound m next|inbound m|inbound m todo|inbound m|inbound m e]; simpl.
  - destruct (deliver onMessage now inbound m st) as [[st1 ev] err] eqn:D.
    destruct err as [e|]; [intros [= <- <- <-]; exists 1%nat; simpl; by rewrite D|].
    destruct next as [m'|]; [|intros [= <- <- <-]; exists 1%nat; simpl; by rewrite D].
    intros [= <- <- <-]. destruct (run_flood i now node inbound m' st1) as [fuel Hf].
    eexists. eapply run_phase_next; [simpl; rewrite D; reflexivity|reflexivity|exact Hf].
  - intros [= <- <- <-]. apply run_flood.
  - intros [= <- <- <-]. eexists. apply run_sending.
  - destruct (forward (up node) inbound m st.1) as [ev es] eqn:F. intros [= <- <- <-].
    exists 1%nat. simpl. rewrite F. by repeat case_match.
  - intros [= <- <- <-]. by exists 1%nat.
Qed.
End network.
Arguments world : clear implicits.

(** * Floods

    What acceptance does to a router, copies of a flooded message, and the
    invariant of a flood in a network of routers. *)

(** ** Effects *)
Definition same_core (r r' : Router) : Prop :=
  rr_nodeID r' = rr_nodeID r /\ rr_seenTTL r' = rr_seenTTL r /\ rr_closed r' = rr_closed r /\
  rr_neighbors r' = rr_neighbors r.

Lemma same_core_refl r : same_core r r.
Proof. done. Qed.
Lemma same_core_trans r1 r2 r3 : same_core r1 r2 -> same_core r2 r3 -> same_core r1 r3.
Proof. unfold same_core. intros (?&?&?&?) (?&?&?&?). split_and!; congruence. Qed.
Lemma same_core_seen r x : same_core r (set_rr_seen x r).
Proof. done. Qed.
Lemma same_core_seq r x : same_core r (set_rr_seq x r).
Proof. done. Qed.
#[export] Hint Resolve same_core_refl same_core_seen same_core_seq : winkyou.

(** Marks that are alive at [now] stay; only those in [new] appear. *)
Definition seen_kept (now : Time) (new : seenKey -> Prop) (r r' : Router) : Prop :=
  (forall k t, rr_seen r !! k = Some t -> After t now = true -> rr_seen r' !! k = Some t) /\
  (forall k, rr_seen r !! k = None -> ~ new k -> rr_seen r' !! k = None).

Lemma seen_kept_refl now new r : seen_kept now new r r.
Proof. done. Qed.
#[export] Hint Resolve seen_kept_refl : winkyou.

(** A branch that returns the router as it is. *)
Ltac unchanged :=
  intros [= <- <-]; split; [auto with winkyou|]; split; [auto with winkyou|discriminate].

Lemma markSeen_effect m now r r' e :
  markSeen m now r = (r', e) ->
  same_core r r' /\ seen_kept now (fun k => k = seen_key m /\ e = None) r r' /\
  (e = None -> rr_seen r' !! seen_key m = Some (TAdd now (rr_seenTTL r))).
Proof.
  unfold markSeen. destruct (rr_closed r). { unchanged. }
  assert (F : forall k t, filter (fun kv : string * Z * Time => After kv.2 now = true) (rr_seen r) !! k
    = Some t <-> rr_seen r !! k = Some t /\ After t now = true).
  { intros k t. rewrite map_lookup_filter_Some. done. }
  assert (N : forall k, rr_seen r !! k = None ->
    filter (fun kv : string * Z * Time => After kv.2 now = true) (rr_seen r) !! k = None).
  { intros k Hk. apply map_lookup_filter_None. by left. }
  destruct (filter _ _ !! seen_key m) as [x|] eqn:E; intros [= <- <-].
  - split; [auto with winkyou|]. split; [|done]. split.
    + intros k t Hk Ha. apply F. done.
    + intros k Hk _. by apply N.
  - split; [auto with winkyou|]. split; [split|].
    + intros k t Hk Ha. simpl. rewrite lookup_insert_ne; [by apply F|].
      intros <-. specialize (proj2 (F (seen_key m) t) (conj Hk Ha)). intros Y. pose proof (eq_trans (eq_sym E) Y) as X. discriminate X.
    + intros k Hk Hn. simpl. rewrite lookup_insert_ne; [by apply N|]. naive_solver.
    + intros _. simpl. apply lookup_insert_eq.
Qed.

(** A message already marked is a duplicate; an unmarked one is new. *)
Lemma markSeen_duplicate m now r t :
  rr_closed r = false -> rr_seen r !! seen_key m = Some t -> After t now = true ->
  (markSeen m now r).2 = Some ErrDuplicate.
Proof.
  intros Hc Hs Ha. unfold markSeen. rewrite Hc.
  assert (E : filter (fun kv : string * Z * Time => After kv.2 now = true) (rr_seen r) !! seen_key m = Some t).
  { by apply map_lookup_filter_Some. }
  by rewrite E.
Qed.
Lemma markSeen_fresh m now r :
  rr_closed r = false -> rr_seen r !! seen_key m = None -> (markSeen m now r).2 = None.
Proof.
  intros Hc Hs. unfold markSeen. rewrite Hc.
  assert (E : filter (fun kv : string * Z * Time => After kv.2 now = true) (rr_seen r) !! seen_key m = None).
  { apply map_lookup_filter_None. by left. }
  by rewrite E.
Qed.

Section accept.
Context {J : MessageCodec} {L : MessageCodecLaws J}.

Lemma inbound_accept_effect now inbound m r r' acc :
  wire_ok m = true -> inbound_accept now inbound m r = (r', acc) ->
  same_core r r' /\ seen_kept now (fun k => k = seen_key m) r r' /\
  (forall m', acc = Accepted m' ->
     m' = set_PathVector (mg_PathVector m ++ [rr_nodeID r]) m /\ (mg_HopLimit m =? 0) = false /\
     rr_seen r' !! seen_key m = Some (TAdd now (rr_seenTTL r))).
Proof.
  intros W. unfold inbound_accept. rewrite (cloneMessage_id m W).
  destruct (negb (hasNeighbor inbound r)); [unchanged|].
  destruct (mg_Seq m =? 0); [unchanged|].
  destruct (mg_HopLimit m =? 0) eqn:Eh; [unchanged|].
  destruct (Validate m); [unchanged|].
  destruct (markSeen m now r) as [r1 e] eqn:E. apply markSeen_effect in E as (Hc & [K1 K2] & Hn).
  assert (K : seen_kept now (fun k => k = seen_key m) r r1) by (split; naive_solver).
  destruct e; [by intros [= <- <-]|].
  destruct (containsNode _ _); [by intros [= <- <-]|].
  destruct (MaxPathVectorLength <? _); [by intros [= <- <-]|].
  intros [= <- <-]. split; [done|]. split; [done|]. intros m' [= <-].
  destruct Hc as (-> & _). auto.
Qed.

(** The message [Send] makes of [m] at [nodeID]. *)
Definition sent_as (nodeID : string) (m m' : Message) : Prop :=
  mg_Type m' = mg_Type m /\ mg_To m' = mg_To m /\ mg_payload m' = mg_payload m /\
  mg_From m' = nodeID.

Lemma wire_ok_from x m : wire_ok m = true -> valid_utf8 x = true -> wire_ok (set_From x m) = true.
Proof. unfold wire_ok. simpl. rewrite !andb_true_iff. naive_solver. Qed.
Lemma wire_ok_seq x m : wire_ok m = true -> wire_uint 64 x = true -> wire_ok (set_Seq x m) = true.
Proof. unfold wire_ok. simpl. rewrite !andb_true_iff. naive_solver. Qed.
Lemma wire_ok_hops x m : wire_ok m = true -> wire_uint 8 x = true -> wire_ok (set_hops x m) = true.
Proof. unfold wire_ok. simpl. rewrite !andb_true_iff. naive_solver. Qed.
Lemma wire_ok_path x m :
  wire_ok m = true -> forallb valid_utf8 x = true -> wire_ok (set_PathVector x m) = true.
Proof. unfold wire_ok. simpl. rewrite !andb_true_iff. naive_solver. Qed.
Lemma wire_ok_snoc x m :
  wire_ok m = true -> valid_utf8 x = true ->
  wire_ok (set_PathVector (mg_PathVector m ++ [x]) m) = true.
Proof.
  intros W V. apply wire_ok_path; [done|]. rewrite forallb_app. simpl. rewrite V.
  unfold wire_ok in W. rewrite !andb_true_iff in W. rewrite andb_true_r. naive_solver.
Qed.

Lemma complete_from_ok nodeID m :
  wire_ok m = true -> valid_utf8 nodeID = true ->
  wire_ok (complete_from nodeID m) = true /\
  (mg_From (complete_from nodeID m) = nodeID -> sent_as nodeID m (complete_from nodeID m)).
Proof.
  intros W V. unfold complete_from. destruct (blank (mg_From m)); [|done].
  split; [by apply wire_ok_from|done].
Qed.

Lemma complete_seq_ok m r r' m' :
  wire_ok m = true -> complete_seq m r = (r', m') ->
  same_core r r' /\ rr_seen r' = rr_seen r /\ wire_ok m' = true /\ sent_as (mg_From m) m m'.
Proof.
  intros W. unfold complete_seq. destruct (mg_Seq m =? 0); intros [= <- <-]; [|done].
  split; [auto with winkyou|]. split; [done|]. split; [|done]. apply wire_ok_seq; [done|].
  unfold wire_uint, u64_add, wrap. pose proof (Z.mod_pos_bound (rr_seq r + 1) (2 ^ 64)). lia.
Qed.

Lemma complete_hops_ok m :
  wire_ok m = true -> wire_ok (complete_hops m) = true /\ sent_as (mg_From m) m (complete_hops m).
Proof.
  intros W. unfold complete_hops. destruct (mg_HopLimit m =? 0); [|done].
  split; [by apply wire_ok_hops|done].
Qed.

Lemma complete_path_ok nodeID m m' :
  wire_ok m = true -> valid_utf8 nodeID = true -> complete_path nodeID m = Ok m' ->
  wire_ok m' = true /\ sent_as (mg_From m) m m'.
Proof.
  intros W V. unfold complete_path. repeat case_match; intros [= <-]; try done.
  - split; [by apply wire_ok_snoc|done].
  - split; [|done]. apply wire_ok_path; [done|]. simpl. by rewrite V.
Qed.

Lemma sent_as_trans a b m1 m2 m3 : sent_as a m1 m2 -> sent_as b m2 m3 -> sent_as b m1 m3.
Proof. unfold sent_as. intros (?&?&?&?) (?&?&?&?). split_and!; congruence. Qed.

Lemma prepare_effect m r r' res :
  wire_ok m = true -> valid_utf8 (rr_nodeID r) = true -> prepare_message m r = (r', res) ->
  same_core r r' /\ rr_seen r' = rr_seen r /\
  (forall m', res = Ok m' -> wire_ok m' = true /\ sent_as (rr_nodeID r) m m').
Proof.
  intros W V. unfold prepare_message. rewrite (cloneMessage_id m W).
  destruct (complete_from_ok _ _ W V) as [W1 S1].
  destruct (bool_decide _) eqn:Ef; [apply bool_decide_eq_true in Ef|by intros [= <- <-]].
  cbn [negb]. destruct (complete_seq _ _) as [r2 m2] eqn:E2.
  destruct (complete_seq_ok _ _ _ _ W1 E2) as (C2 & K2 & W2 & S2).
  intros [= <- <-]. split; [done|]. split; [done|]. intros m' E.
  destruct (complete_hops_ok _ W2) as [W3 S3]. destruct C2 as [C2 _].
  rewrite C2 in E. destruct (complete_path_ok _ _ _ W3 V E) as [W4 S4].
  split; [done|]. rewrite Ef in S2. destruct S2 as (?&?&?&F2), S3 as (?&?&?&F3), S4 as (?&?&?&F4).
  destruct (S1 Ef) as (?&?&?&?). unfold sent_as. split_and!; congruence.
Qed.

Lemma send_accept_effect now m r r' acc :
  wire_ok m = true -> valid_utf8 (rr_nodeID r) = true -> send_accept now m r = (r', acc) ->
  same_core r r' /\ seen_kept now (fun k => exists m', acc = Accepted m' /\ k = seen_key m') r r' /\
  (forall m', acc = Accepted m' ->
     wire_ok m' = true /\ sent_as (rr_nodeID r) m m' /\ Validate m' = None /\
     rr_seen r' !! seen_key m' = Some (TAdd now (rr_seenTTL r))).
Proof.
  intros W V. unfold send_accept. destruct (prepare_message m r) as [r1 p] eqn:E.
  destruct (prepare_effect _ _ _ _ W V E) as (C1 & K1 & S1).
  assert (D : forall e, same_core r r1 /\ seen_kept now
    (fun k => exists m', Refused e = Accepted m' /\ k = seen_key m') r r1 /\
    (forall m', Refused e = Accepted m' -> wire_ok m' = true /\ sent_as (rr_nodeID r) m m' /\
      Validate m' = None /\ rr_seen r1 !! seen_key m' = Some (TAdd now (rr_seenTTL r)))).
  { intros e. split; [done|]. split; [|done]. unfold seen_kept. rewrite K1. naive_solver. }
  destruct p as [m1|e]; [|intros [= <- <-]; apply D].
  destruct (Validate m1) eqn:Ev; [intros [= <- <-]; apply D|].
  destruct (markSeen m1 now r1) as [r2 e] eqn:E2.
  destruct (markSeen_effect _ _ _ _ _ E2) as (C2 & [M1 M2] & M3).
  pose proof (same_core_trans _ _ _ C1 C2) as C. rewrite K1 in M1, M2.
  destruct e as [e|]; intros [= <- <-].
  - split; [done|]. split; [|done]. split; [done|]. intros k Hk _. apply M2; naive_solver.
  - split; [done|]. split.
    { split; [done|]. intros k Hk Hn. apply M2; naive_solver. }
    intros m' [= <-]. destruct (S1 m1 eq_refl), C1 as (_ & <- & _). auto.
Qed.

(** [Send] accepts nothing that is marked. *)
Lemma send_accept_fresh now m r r' m' t :
  wire_ok m = true -> valid_utf8 (rr_nodeID r) = true -> rr_closed r = false ->
  send_accept now m r = (r', Accepted m') ->
  rr_seen r !! seen_key m' = Some t -> After t now = false.
Proof.
  intros W V Hc. unfold send_accept. destruct (prepare_message m r) as [r1 p] eqn:E.
  destruct (prepare_effect _ _ _ _ W V E) as ((_ & _ & C1 & _) & K1 & _).
  destruct p as [m1|e]; [|done]. destruct (Validate m1); [done|].
  destruct (markSeen m1 now r1) as [r2 [e|]] eqn:E2; [done|]. intros [= <- <-] Ht.
  destruct (After t now) eqn:Ea; [|done]. rewrite <-K1 in Ht.
  pose proof (markSeen_duplicate m1 now r1 t ltac:(congruence) Ht Ea) as D.
  by rewrite E2 in D.
Qed.
End accept.

(** ** Copies of a flooded message *)
Lemma containsNode_spec path x : containsNode path x = true <-> x ∈ path.
Proof.
  unfold containsNode. rewrite existsb_exists. setoid_rewrite bool_decide_eq_true.
  setoid_rewrite <-list_elem_of_In. naive_solver.
Qed.
Lemma containsNode_false path x : containsNode path x = false <-> x ∉ path.
Proof. rewrite <-containsNode_spec. by destruct (containsNode path x). Qed.

(** A name a node may have. *)
Definition good_name (x : string) : Prop :=
  TrimSpace x = x /\ x <> "" /\ valid_utf8 x = true.

Lemma good_not_blank x : good_name x -> blank x = false.
Proof. intros (E & N & _). unfold blank. rewrite E. by apply bool_decide_false. Qed.

Lemma validate_payload_hops p h m :
  (h =? 0) = (mg_HopLimit m =? 0) ->
  validate_payload (set_PathVector p (set_hops h m)) = validate_payload m.
Proof. intros E. unfold validate_payload, validateFloodHeader. simpl. by rewrite E. Qed.

Record flooded (s : string) (m0 : Message) : Prop := {
  fl_valid : Validate m0 = None;
  fl_wire : wire_ok m0 = true;
  fl_from : mg_From m0 = s;
  fl_to : mg_To m0 = BroadcastNodeID;
  fl_path : mg_PathVector m0 = [s];
  fl_seq : mg_Seq m0 <> 0;
}.

(** The copy with path [p]: every hop after the origin takes one from the
    limit. *)
Definition copy (m0 : Message) (p : list string) : Message :=
  set_PathVector p (set_hops (mg_HopLimit m0 + 1 - Z.of_nat (length p)) m0).

Definition path_from (s : string) (p : list string) : Prop := head p = Some s.

Section copies.
Context (s : string) (m0 : Message) (F : flooded s m0).

Lemma hop_bounds : 1 <= mg_HopLimit m0 <= 64.
Proof.
  pose proof (fl_valid _ _ F) as V. pose proof (fl_wire _ _ F) as W. unfold Validate in V.
  rewrite !err_then_None, !fails_None in V. destruct V as (_ & _ & _ & _ & V & _).
  unfold validateRouteHeader in V. rewrite !err_then_None, !fails_None in V.
  destruct V as (V1 & _ & V2 & _). rewrite (fl_path _ _ F) in V2. simpl in V2.
  unfold wire_ok in W. rewrite !andb_true_iff in W. unfold wire_uint, MaxHopLimit in *. lia.
Qed.

Lemma copy_valid p :
  path_from s p -> Forall good_name p -> Z.of_nat (length p) <= mg_HopLimit m0 ->
  Z.of_nat (length p) <= 64 -> Validate (copy m0 p) = None.
Proof.
  intros Hs Hg Hh Hl. pose proof hop_bounds as HB. pose proof (fl_valid _ _ F) as V.
  unfold Validate in *. rewrite !err_then_None, !fails_None in *.
  destruct V as (V1 & V2 & V3 & V4 & V5 & V6). split_and!; try done.
  - unfold validateRouteHeader. rewrite !err_then_None, !fails_None.
    cbn [copy set_PathVector set_hops mg_HopLimit mg_PathVector mg_From].
    destruct p as [|x p]; [done|]. injection Hs as ->. cbn [length] in *. split_and!.
    + unfold MaxHopLimit. apply Z.ltb_ge. lia.
    + unfold MaxPathVectorLength. apply Z.ltb_ge. lia.
    + apply andb_false_intro2, Z.eqb_neq. lia.
    + apply not_true_iff_false. rewrite existsb_exists. intros (y & Hy%list_elem_of_In & Hb).
      rewrite Forall_forall in Hg. specialize (Hg y Hy). rewrite good_not_blank in Hb; done.
    + rewrite bool_decide_true; [done|]. by rewrite (fl_from _ _ F).
  - unfold copy. rewrite validate_payload_hops; [done|]. lia.
Qed.

Lemma copy_wire p :
  Forall good_name p -> p <> [] -> Z.of_nat (length p) <= mg_HopLimit m0 + 1 ->
  wire_ok (copy m0 p) = true.
Proof.
  intros Hg Hne Hh. pose proof hop_bounds. destruct p as [|x p]; [done|].
  apply wire_ok_path; [apply wire_ok_hops; [apply F|]|].
  - unfold wire_uint. cbn [length] in *. rewrite andb_true_iff, Z.leb_le, Z.ltb_lt. lia.
  - apply forallb_forall. intros y Hy%list_elem_of_In. rewrite Forall_forall in Hg. by apply Hg.
Qed.

Context {J : MessageCodec} {L : MessageCodecLaws J}.

(** A node that has not seen the message accepts a copy of it. *)
Lemma accept_copy now u v p r :
  rr_nodeID r = v -> rr_closed r = false -> is_Some (rr_neighbors r !! u) -> good_name u ->
  rr_seen r !! seen_key m0 = None ->
  path_from s p -> Forall good_name p -> v ∉ p -> Z.of_nat (length p) <= mg_HopLimit m0 ->
  (length p < 64)%nat ->
  (inbound_accept now u (copy m0 p) r).2 = Accepted (set_PathVector (p ++ [v]) (copy m0 p)).
Proof.
  intros Ev Hc Hu (_ & Nu & _) Hs Hp Hg Hv Hh Hl. unfold inbound_accept, hasNeighbor.
  rewrite !bool_decide_false, bool_decide_true, Hc by done. cbn [negb andb].
  assert (Hne : p <> []) by (by destruct p).
  rewrite cloneMessage_id by (apply copy_wire; [done|done|lia]).
  rewrite copy_valid by (done || lia).
  assert (E1 : (mg_Seq (copy m0 p) =? 0) = false) by (apply Z.eqb_neq, F).
  assert (E2 : (mg_HopLimit (copy m0 p) =? 0) = false) by (apply Z.eqb_neq; simpl; lia).
  rewrite E1, E2. cbv zeta.
  pose proof (markSeen_fresh (copy m0 p) now r Hc Hs) as E3.
  destruct (markSeen (copy m0 p) now r) as [r' e] eqn:E4. simpl in E3. subst e.
  destruct (markSeen_effect _ _ _ _ _ E4) as ((En & _) & _).
  assert (E5 : containsNode (mg_PathVector (copy m0 p)) (rr_nodeID r') = false).
  { apply containsNode_false. by rewrite En, Ev. }
  rewrite E5, En, Ev. cbn [copy set_PathVector mg_PathVector].
  assert (E6 : (MaxPathVectorLength <? Z.of_nat (length (p ++ [v]))) = false).
  { apply Z.ltb_ge. rewrite length_app. unfold MaxPathVectorLength. simpl. lia. }
  by rewrite E6.
Qed.

Lemma plan_copy u v p r :
  inbound_plan u (set_PathVector (p ++ [v]) (copy m0 p)) r
  = PDeliver u (set_PathVector (p ++ [v]) (copy m0 p))
      (if mg_HopLimit m0 <=? Z.of_nat (length p) then None else Some (copy m0 (p ++ [v]))).
Proof.
  unfold inbound_plan. cbn [set_PathVector copy set_hops mg_To mg_HopLimit].
  rewrite (fl_to _ _ F), bool_decide_true by done.
  replace (mg_HopLimit m0 + 1 - Z.of_nat (length p) <=? 1)
    with (mg_HopLimit m0 <=? Z.of_nat (length p)).
  2:{ apply eq_true_iff_eq. rewrite !Z.leb_le. lia. }
  destruct (mg_HopLimit m0 <=? Z.of_nat (length p)); [done|].
  unfold copy, set_PathVector, set_hops. simpl. rewrite length_app. simpl.
  do 3 f_equal. lia.
Qed.
End copies.

(** A node that has seen the message drops it. *)
Lemma accept_seen `{J : MessageCodec} {L : MessageCodecLaws J} now u m r t :
  wire_ok m = true -> rr_seen r !! seen_key m = Some t -> After t now = true ->
  exists m' e, (inbound_accept now u m r).2 = Dropped m' e.
Proof.
  intros W Hs Ha. unfold inbound_accept. rewrite cloneMessage_id by done.
  destruct (negb (hasNeighbor u r)) eqn:Eh; [by eauto|].
  destruct (mg_Seq m =? 0); [by eauto|]. destruct (mg_HopLimit m =? 0); [by eauto|].
  destruct (Validate m); [by eauto|].
  assert (Hc : rr_closed r = false).
  { unfold hasNeighbor in Eh. apply negb_false_iff, andb_true_iff in Eh as [_ Eh].
    by apply andb_true_iff in Eh as [Eh%negb_true_iff _]. }
  pose proof (markSeen_duplicate m now r t Hc Hs Ha) as E.
  destruct (markSeen m now r) as [r' e]. simpl in E. rewrite E. by eauto.
Qed.
