(* ===== verification/MeshFloodInv.v ===== *)
(** * The invariant of a flood

    One flooded message among any other traffic: which nodes are marked, where
    its copies are, and what is still to be done. *)
From S2P Require Import Prelude GoStd MeshTopology MeshMessage MeshRouter MeshControl MeshNetwork.

(** ** Sums over lists *)
Definition lsum {A} (f : A -> Z) (l : list A) : Z := foldr (fun x acc => f x + acc) 0 l.

Lemma lsum_app {A} (f : A -> Z) l1 l2 : lsum f (l1 ++ l2) = lsum f l1 + lsum f l2.
Proof. induction l1; simpl; lia. Qed.
Lemma lsum_perm {A} (f : A -> Z) l1 l2 : l1 ≡ₚ l2 -> lsum f l1 = lsum f l2.
Proof. induction 1; simpl; lia. Qed.
Lemma lsum_nonneg {A} (f : A -> Z) l : (forall x, 0 <= f x) -> 0 <= lsum f l.
Proof. intros Hf. induction l as [|x l IH]; simpl; [lia|]. specialize (Hf x). lia. Qed.
Lemma lsum_zero {A} (f : A -> Z) l : (forall x, x ∈ l -> f x = 0) -> lsum f l = 0.
Proof.
  intros Hf. induction l as [|x l IH]; [done|]. simpl. rewrite IH, Hf; [done|left|].
  intros y Hy. apply Hf. by right.
Qed.
Lemma lsum_member {A} (f : A -> Z) l x : (forall x, 0 <= f x) -> x ∈ l -> f x <= lsum f l.
Proof.
  intros Hf. induction 1 as [x l|x y l Hx IH]; simpl.
  - pose proof (lsum_nonneg f l Hf). lia.
  - specialize (Hf y). lia.
Qed.

Lemma nodup_length (l : list string) (X : gset string) :
  NoDup l -> (forall y, y ∈ l -> y ∈ X) -> (length l <= size X)%nat.
Proof.
  intros Hl Hx. rewrite <-(size_list_to_set (C := gset string) l Hl).
  apply subseteq_size. intros y Hy%elem_of_list_to_set. auto.
Qed.
Lemma nodup_covers (l : list string) (X : gset string) :
  NoDup l -> (forall y, y ∈ l -> y ∈ X) -> (size X <= length l)%nat -> forall y, y ∈ X -> y ∈ l.
Proof.
  intros Hl Hx Hs y Hy. destruct (decide (y ∈ l)) as [?|Hn]; [done|].
  assert (Hd : (length (y :: l) <= size X)%nat).
  { apply nodup_length; [by constructor|]. intros z [->|Hz]%elem_of_cons; auto. }
  simpl in Hd. lia.
Qed.

(** ** The handlers of the nodes

    [hInv] is an invariant of the handler's state at a node, kept by every
    message with [hGood]. *)
Section handlers.
Context {S : Type} (onMessage : Time -> Message -> Router * S -> (Router * S) * option merr).

Class Handler (hInv : string -> S -> Prop) (hGood : Message -> Prop) : Prop := {
  handler_core now m r s r' s' e :
    onMessage now m (r, s) = ((r', s'), e) -> same_core r r' /\ rr_seen r' = rr_seen r;
  handler_inv now m r s r' s' e :
    hInv (rr_nodeID r) s -> hGood m -> onMessage now m (r, s) = ((r', s'), e) ->
    hInv (rr_nodeID r) s';
  handler_body m m' :
    mg_Type m = mg_Type m' -> mg_payload m = mg_payload m' -> hGood m -> hGood m';
}.

(** [post] holds of a node's state once it has handled [m0]. *)
Record handles (hInv : string -> S -> Prop) (hGood : Message -> Prop) (m0 : Message)
    (post : string -> S -> Prop) : Prop := {
  hd_accepts now m r s :
    hInv (rr_nodeID r) s -> mg_Type m = mg_Type m0 -> mg_payload m = mg_payload m0 ->
    (onMessage now m (r, s)).2 = None /\ post (rr_nodeID r) (onMessage now m (r, s)).1.2;
  hd_keeps now m r s :
    hInv (rr_nodeID r) s -> hGood m -> post (rr_nodeID r) s ->
    post (rr_nodeID r) (onMessage now m (r, s)).1.2;
}.
End handlers.

Section flood.
Context {J : MessageCodec} {L : MessageCodecLaws J} {R : MapRange} {LR : MapRangeLaws R} {S : Type}.
Context (onMessage : Time -> Message -> Router * S -> (Router * S) * option merr).
Context (up : string -> string -> bool).
Context (hInv : string -> S -> Prop) (hGood : Message -> Prop) {HD : Handler onMessage hInv hGood}.
Context (window : Time -> Prop).

(** ** The graph *)
Context (V : gset string) (G : string -> gset string).

Record graph_ok : Prop := {
  gr_names u : u ∈ V -> good_name u;
  gr_edges u v : u ∈ V -> v ∈ G u -> v ∈ V /\ u ∈ G v /\ up u v = true;
  gr_size : (size V <= 64)%nat;
}.

Record node_shape (u : string) (r : Router) (x : S) : Prop := {
  ns_id : rr_nodeID r = u;
  ns_open : rr_closed r = false;
  ns_neighbors : dom (rr_neighbors r) = G u;
  ns_ttl t1 t2 : window t1 -> window t2 -> After (TAdd t1 (rr_seenTTL r)) t2 = true;
  ns_inv : hInv u x;
}.

(** ** The flood *)
Context (s : string) (m0 : Message) (post : string -> S -> Prop).
Context (HP : handles onMessage hInv hGood m0 post).
Notation k := (seen_key m0).
Notation world := (world S).

Definition marked (w : world) (v : string) : bool :=
  match w_nodes w !! v with
  | Some (r, _) => bool_decide (is_Some (rr_seen r !! k))
  | None => false
  end.

Definition path_ok (w : world) (p : list string) (u : string) : Prop :=
  path_from s p /\ last p = Some u /\ NoDup p /\ (forall x, x ∈ p -> marked w x = true) /\
  Z.of_nat (length p) <= mg_HopLimit m0.

Definition inbound_ok (w : world) (inbound : string) : Prop := inbound = "" \/ marked w inbound = true.

Definition job_ok (w : world) (j : job) : Prop :=
  match j with
  | JPacket v u m => exists p, m = copy m0 p /\ path_ok w p u /\ v ∈ G u
  | JRun v (PDeliver inbound m next) =>
      mg_Type m = mg_Type m0 /\ mg_payload m = mg_payload m0 /\ marked w v = true /\
      match next with
      | Some m' => (exists p, m' = copy m0 p /\ path_ok w p v) /\ inbound_ok w inbound
      | None => forall x, x ∈ V -> marked w x = true
      end
  | JRun v (PFlood inbound m) => (exists p, m = copy m0 p /\ path_ok w p v) /\ inbound_ok w inbound
  | JRun v (PSending inbound m todo) =>
      (exists p, m = copy m0 p /\ path_ok w p v) /\ (forall x, x ∈ todo -> x ∈ G v)
  | _ => False
  end.

Definition message_sane (m : Message) : Prop := wire_ok m = true /\ hGood m.

Definition job_sane (j : job) : Prop :=
  message_sane (job_message j) /\
  match j with
  | JRun _ (PDeliver _ m (Some m')) => message_sane m' /\ seen_key m' = seen_key m
  | _ => True
  end.

(** A job of [u] that will send to [v], or a copy on its way to [v]. *)
Definition covers (u v : string) (j : job) : Prop :=
  job_key j = k /\
  match j with
  | JPacket v' _ _ => v' = v
  | JRun u' (PDeliver _ _ (Some _)) | JRun u' (PFlood _ _) => u' = u
  | JRun u' (PSending _ _ todo) => u' = u /\ v ∈ todo
  | _ => False
  end.

(** A delivery still to come, a delivery reported. *)
Definition awaiting (v : string) (j : job) : Z :=
  match j with
  | JRun v' (PDeliver _ m _) => bool_Z (bool_decide (v' = v) && bool_decide (seen_key m = k))
  | _ => 0
  end.
Definition delivery (v : string) (e : string * control_action) : Z :=
  match e with
  | (v', CtlDelivered _ m) => bool_Z (bool_decide (v' = v) && bool_decide (seen_key m = k))
  | _ => 0
  end.

Record flood_inv (w : world) : Prop := {
  fi_dom u : u ∈ V <-> is_Some (w_nodes w !! u);
  fi_shape u r x : w_nodes w !! u = Some (r, x) -> node_shape u r x;
  fi_sane j : j ∈ w_jobs w -> job_sane j;
  fi_alive u r x t now :
    w_nodes w !! u = Some (r, x) -> rr_seen r !! k = Some t -> window now -> After t now = true;
  fi_origin : marked w s = true;
  fi_reached v : marked w v = true -> rtc (fun a b => a ∈ V /\ b ∈ G a) s v;
  fi_jobs j : j ∈ w_jobs w -> job_key j = k -> job_ok w j;
  fi_cover u v : marked w u = true -> v ∈ G u ->
    marked w v = true \/ exists j, j ∈ w_jobs w /\ covers u v j;
  fi_log v : lsum (delivery v) (w_log w) + lsum (awaiting v) (w_jobs w) = bool_Z (marked w v);
  fi_post v r x : w_nodes w !! v = Some (r, x) -> marked w v = true ->
    lsum (awaiting v) (w_jobs w) = 0 -> post v x;
}.

Lemma awaiting_nonneg v j : 0 <= awaiting v j.
Proof. unfold awaiting, bool_Z. repeat case_match; lia. Qed.

Lemma job_ok_mono w w' j :
  (forall x, marked w x = true -> marked w' x = true) -> job_ok w j -> job_ok w' j.
Proof.
  intros M. assert (P : forall p u, path_ok w p u -> path_ok w' p u) by (unfold path_ok; naive_solver).
  assert (I : forall i, inbound_ok w i -> inbound_ok w' i) by (unfold inbound_ok; naive_solver).
  destruct j as [v u m|v [inb m [m'|]|inb m|inb m todo|inb m|inb m e]]; simpl; naive_solver.
Qed.

(** ** What any job does *)
Lemma message_sane_hops h m : wire_uint 8 h = true -> message_sane m -> message_sane (set_hops h m).
Proof. intros Hh [W Hg]. split; [by apply wire_ok_hops|by apply (handler_body _ m)]. Qed.

Lemma inbound_plan_sane v inbound m r :
  message_sane m -> (mg_HopLimit m =? 0) = false -> job_sane (JRun v (inbound_plan inbound m r)) /\
  job_key (JRun v (inbound_plan inbound m r)) = seen_key m.
Proof.
  intros Hm Hh. assert (Hn : message_sane (set_hops (mg_HopLimit m - 1) m)).
  { apply message_sane_hops; [|done]. destruct Hm as [W _]. unfold wire_ok in W.
    rewrite !andb_true_iff in W. unfold wire_uint in *. lia. }
  unfold inbound_plan, job_sane. repeat case_match; simplify_eq; by split_and!.
Qed.

Lemma send_plan_sane v m r :
  message_sane m -> job_sane (JRun v (send_plan m r)) /\ job_key (JRun v (send_plan m r)) = seen_key m.
Proof. intros Hm. unfold send_plan, job_sane. repeat case_match; simplify_eq; by split_and!. Qed.

Record job_effect (now : Time) (key : seenKey) (u : string) (r : Router) (x : S) (r' : Router) (x' : S)
    (js : list job) (events : list control_action) : Prop := {
  je_core : same_core r r';
  je_seen : seen_kept now (fun k' => k' = key) r r';
  je_inv : hInv u x';
  je_post : post u x -> post u x';
  je_jobs j : j ∈ js -> job_sane j /\ job_key j = key;
  je_events e : e ∈ events -> match e with CtlDelivered _ m => seen_key m = key | _ => True end;
}.

Lemma packet_effect now i v u m r x r' x' js events :
  job_sane (JPacket v u m) -> node_shape v r x -> good_name v ->
  job_step onMessage up i now (JPacket v u m) (r, x) = ((r', x'), js, events) ->
  job_effect now (seen_key m) v r x r' x' js events /\ x' = x.
Proof.
  intros [[W Hg] _] N (_ & _ & Vv). simpl.
  destruct (inbound_accept now (TrimSpace u) m r) as [r1 acc] eqn:E.
  destruct (inbound_accept_effect _ _ _ _ _ _ W E) as (C & K & A).
  assert (D : forall js0 ev0, (forall j, j ∈ js0 -> job_sane j /\ job_key j = seen_key m) ->
    (forall e, e ∈ ev0 -> match e with CtlDelivered _ m' => seen_key m' = seen_key m | _ => True end) ->
    job_effect now (seen_key m) v r x r1 x js0 ev0 /\ x = x).
  { intros js0 ev0 H1 H2. split; [|done]. split; [done|done|apply N|done|done|done]. }
  destruct acc as [m'|m' e|e]; intros [= <- <- <- <-]; apply D.
  - intros j ->%list_elem_of_singleton. destruct (A m' eq_refl) as (-> & Hh & _).
    apply (inbound_plan_sane v (TrimSpace u) (set_PathVector _ m)); [|done].
    rewrite (ns_id _ _ _ N). split; [by apply wire_ok_snoc|by apply (handler_body _ m)].
  - by intros e ?%elem_of_nil.
  - by intros j ?%elem_of_nil.
  - unfold drop_message. by intros ? ->%list_elem_of_singleton.
  - by intros j ?%elem_of_nil.
  - by intros e0 ?%elem_of_nil.
Qed.

Lemma still_effect now key u r x js events :
  node_shape u r x -> (forall j, j ∈ js -> job_sane j /\ job_key j = key) ->
  (forall e, e ∈ events -> match e with CtlDelivered _ m => seen_key m = key | _ => True end) ->
  job_effect now key u r x r x js events.
Proof. intros N H1 H2. split; [done|done|apply N|done|done|done]. Qed.

Lemma phase_effect now i u p r x r' x' js events :
  job_sane (JRun u p) -> node_shape u r x ->
  phase_step onMessage up i now u p (r, x) = ((r', x'), js, events) ->
  job_effect now (seen_key (phase_message p)) u r x r' x' js events.
Proof.
  intros [[W Hg] Hn] N. simpl in W, Hg.
  destruct p as [inb m next|inb m|inb m [|peer todo]|inb m|inb m e]; simpl in *.
  - unfold deliver. rewrite cloneMessage_id by done.
    destruct (onMessage now m (r, x)) as [[r1 x1] err] eqn:E. intros [= <- <- <- <-].
    destruct (handler_core (Handler := HD) onMessage _ _ _ _ _ _ _ E) as [C K]. split; [done|split|..].
    + intros k' t Hk _. by rewrite K.
    + intros k' Hk _. by rewrite K.
    + rewrite <-(ns_id _ _ _ N). apply (handler_inv (Handler := HD) onMessage now m r x r1 x1 err); [|exact Hg|exact E].
      rewrite (ns_id _ _ _ N). apply N.
    + pose proof (hd_keeps _ _ _ _ _ HP now m r x) as P. rewrite E, (ns_id _ _ _ N) in P.
      intros Hx. apply P; [apply N|done|done].
    + intros j Hj. destruct err as [|], next as [m'|]; try by apply elem_of_nil in Hj.
      apply list_elem_of_singleton in Hj as ->. destruct Hn as [Hs Hk]. by split_and!.
    + by intros e ->%list_elem_of_singleton.
  - intros [= <- <- <- <-]. apply still_effect; [done| |by intros e ?%elem_of_nil].
    by intros j ->%list_elem_of_singleton.
  - intros [= <- <- <- <-]. apply still_effect; [done|by intros j ?%elem_of_nil|by intros e ?%elem_of_nil].
  - intros [= <- <- <- <-]. apply still_effect; [done|..].
    + intros j Hj. apply elem_of_app in Hj as [Hj|Hj].
      * destruct (up u peer); [|by apply elem_of_nil in Hj]. by apply list_elem_of_singleton in Hj as ->.
      * by apply list_elem_of_singleton in Hj as ->.
    + unfold flood_send. destruct (up u peer); simpl.
      * by intros e ->%list_elem_of_singleton.
      * by intros e ?%elem_of_nil.
  - intros [= <- <- <- <-]. apply still_effect; [done|..].
    + intros j Hj. destruct (lookup_next (mg_To m) r) as [[nextHop e]|]; [|by apply elem_of_nil in Hj].
      destruct (up u nextHop); [|by apply elem_of_nil in Hj]. by apply list_elem_of_singleton in Hj as ->.
    + unfold forward, drop_message. destruct (lookup_next (mg_To m) r) as [[nextHop e]|];
        [destruct (up u nextHop)|]; by intros ? ->%list_elem_of_singleton.
  - intros [= <- <- <- <-]. apply still_effect; [done|by intros j ?%elem_of_nil|].
    unfold drop_message. by intros ? ->%list_elem_of_singleton.
Qed.

Lemma any_job_effect now i j r x r' x' js events :
  job_sane j -> node_shape (job_node j) r x -> good_name (job_node j) ->
  job_step onMessage up i now j (r, x) = ((r', x'), js, events) ->
  job_effect now (job_key j) (job_node j) r x r' x' js events.
Proof.
  intros Hs N Hv E. destruct j as [v u m|u p]; [|by apply (phase_effect _ i)].
  by apply (packet_effect _ i v u m r x).
Qed.

Lemma send_effect now u m r x r' x' js :
  message_sane m -> node_shape u r x -> good_name u ->
  send_step now u m (r, x) = ((r', x'), js) ->
  x' = x /\ same_core r r' /\ (forall j, j ∈ js -> job_sane j /\ (job_key j).1 = u) /\
  seen_kept now (fun k' => exists j, j ∈ js /\ job_key j = k') r r' /\
  (forall j t, j ∈ js -> rr_seen r !! job_key j = Some t -> After t now = false).
Proof.
  intros [W Hg] N (_ & _ & Vu) E. unfold send_step in E. cbn [fst snd] in E.
  pose proof (ns_id _ _ _ N) as Eu. rewrite <-Eu in Vu.
  destruct (send_accept now m r) as [r1 acc] eqn:Ea.
  destruct (send_accept_effect _ _ _ _ _ W Vu Ea) as (C & [K1 K2] & A).
  destruct acc as [m'|m' e|e]; injection E as <- <- <-.
  - destruct (A m' eq_refl) as (W' & (Ht & _ & Hp & Hf) & _ & _).
    assert (Sm : message_sane m') by (split; [done|by apply (handler_body onMessage m)]).
    destruct (send_plan_sane u m' r1 Sm) as [Hs Hk].
    split; [done|]. split; [done|]. split; [|split; [split|]].
    + intros j ->%list_elem_of_singleton. split; [done|]. rewrite Hk. simpl. congruence.
    + done.
    + intros k' Hk' Hn. apply K2; [done|]. intros (m1 & [= <-] & ->). apply Hn.
      eexists. split; [by apply list_elem_of_singleton|done].
    + intros j t ->%list_elem_of_singleton. rewrite Hk.
      by apply (send_accept_fresh now m r r1); [| |apply N|].
  - split; [done|]. split; [done|]. split; [by intros j ?%elem_of_nil|].
    split; [|by intros j t ?%elem_of_nil]. split; [done|]. intros k' Hk' _. apply K2; naive_solver.
  - split; [done|]. split; [done|]. split; [by intros j ?%elem_of_nil|].
    split; [|by intros j t ?%elem_of_nil]. split; [done|]. intros k' Hk' _. apply K2; naive_solver.
Qed.

(** ** One node moves *)
Section update.
Context (w : world) (n : string) (r : Router) (x : S) (r' : Router) (x' : S).
Context (old rest js jobs' : list job) (events : list control_action).
Notation w' := (mkWorld (<[n := (r', x')]> (w_nodes w)) jobs' (w_log w ++ (pair n <$> events))).

Record update_ok : Prop := {
  uo_old : w_jobs w ≡ₚ old ++ rest;
  uo_new : jobs' ≡ₚ js ++ rest;
  uo_node : w_nodes w !! n = Some (r, x);
  uo_core : same_core r r';
  uo_inv : hInv n x';
  uo_kept t : rr_seen r !! k = Some t -> rr_seen r' !! k = Some t;
  uo_fresh t : marked w n = false -> rr_seen r' !! k = Some t ->
    (forall now, window now -> After t now = true) /\ (exists u, marked w u = true /\ n ∈ G u) /\
    (forall v, v ∈ G n -> marked w' v = true \/ exists j, j ∈ js ++ rest /\ covers n v j);
  uo_sane j : j ∈ js -> job_sane j;
  uo_jobs j : j ∈ js -> job_key j = k -> job_ok w' j;
  uo_covers u v j : marked w u = true -> v ∈ G u -> j ∈ old -> covers u v j ->
    marked w' v = true \/ exists j', j' ∈ js ++ rest /\ covers u v j';
  uo_log v : lsum (delivery v) (pair n <$> events) + lsum (awaiting v) js
    = lsum (awaiting v) old + (bool_Z (marked w' v) - bool_Z (marked w v));
  uo_post : marked w' n = true -> lsum (awaiting n) js = 0 ->
    (marked w n = true -> lsum (awaiting n) old = 0 -> post n x) -> post n x';
}.

Lemma marked_other v : v <> n -> marked w' v = marked w v.
Proof. intros Hv. unfold marked. simpl. by rewrite lookup_insert_ne. Qed.

Lemma marked_here : marked w' n = bool_decide (is_Some (rr_seen r' !! k)).
Proof. unfold marked. simpl. by rewrite lookup_insert_eq. Qed.

Lemma marked_grows v : update_ok -> marked w v = true -> marked w' v = true.
Proof.
  intros U Hm. destruct (decide (v = n)) as [->|Hv]; [|by rewrite marked_other].
  rewrite marked_here. unfold marked in Hm. rewrite (uo_node U) in Hm.
  apply bool_decide_eq_true in Hm as [t Ht]. apply bool_decide_eq_true. exists t. by apply U.
Qed.

Lemma delivery_other v : v <> n -> lsum (delivery v) (pair n <$> events) = 0.
Proof.
  intros Hv. apply lsum_zero. intros e (a & -> & _)%list_elem_of_fmap. simpl.
  destruct a; try done. by rewrite bool_decide_false.
Qed.

Lemma topology_update_inv : graph_ok -> update_ok -> flood_inv w -> flood_inv w'.
Proof.
  intros GO U I. pose proof (fun v => marked_grows v U) as MG.
  assert (EJ : forall f : job -> Z, lsum f (w_jobs w) = lsum f old + lsum f rest).
  { intros f. rewrite (lsum_perm _ _ _ (uo_old U)). apply lsum_app. }
  assert (EJ' : forall f : job -> Z, lsum f jobs' = lsum f js + lsum f rest).
  { intros f. rewrite (lsum_perm _ _ _ (uo_new U)). apply lsum_app. }
  pose proof (fun v => lsum_nonneg (awaiting v) rest (awaiting_nonneg v)) as NR.
  pose proof (fun v => lsum_nonneg (awaiting v) js (awaiting_nonneg v)) as NJ.
  pose proof (fun v => lsum_nonneg (awaiting v) old (awaiting_nonneg v)) as NO.
  assert (New : forall v, marked w' v = true -> marked w v = false ->
    v = n /\ exists t, rr_seen r' !! k = Some t).
  { intros v H1 H2. destruct (decide (v = n)) as [->|Hv].
    - rewrite marked_here in H1. apply bool_decide_eq_true in H1 as [t Ht]. by eauto.
    - rewrite marked_other in H1 by done. congruence. }
  split; simpl.
  - intros u. rewrite (fi_dom _ I u). destruct (decide (u = n)) as [->|Hu].
    + rewrite lookup_insert_eq, (uo_node U). split; by eauto.
    + by rewrite lookup_insert_ne.
  - intros u r0 x0. rewrite lookup_insert_Some. intros [[<- [= <- <-]]|[_ Hu]]; [|by apply (fi_shape _ I)].
    destruct (fi_shape _ I _ _ _ (uo_node U)) as [N1 N2 N3 N4 N5], (uo_core U) as (C1 & C2 & C3 & C4).
    split; [congruence|congruence|congruence|by rewrite C2|apply U].
  - intros j Hj. rewrite (uo_new U), elem_of_app in Hj. destruct Hj as [Hj|Hj]; [by apply (uo_sane U)|].
    apply (fi_sane _ I). rewrite (uo_old U). set_solver.
  - intros u r0 x0 t now. rewrite lookup_insert_Some. intros [[<- [= <- <-]]|[_ Hu]] Ht Hw.
    + destruct (marked w n) eqn:Em; [|by eapply (uo_fresh U)].
      unfold marked in Em. rewrite (uo_node U) in Em. apply bool_decide_eq_true in Em as [t' Ht'].
      pose proof (uo_kept U _ Ht') as Ht2. rewrite Ht in Ht2. injection Ht2 as <-.
      by apply (fi_alive _ I _ _ _ _ _ (uo_node U) Ht').
    + by apply (fi_alive _ I _ _ _ _ _ Hu Ht).
  - apply MG, I.
  - intros v Hv. destruct (marked w v) eqn:Em; [by apply (fi_reached _ I)|].
    destruct (New v Hv Em) as (-> & t & Ht).
    destruct (uo_fresh U t Em Ht) as (_ & (u & Hu & He) & _).
    eapply rtc_r; [by apply (fi_reached _ I)|]. split; [|done]. apply (fi_dom _ I).
    unfold marked in Hu. by destruct (w_nodes w !! u).
  - intros j Hj Hk. rewrite (uo_new U), elem_of_app in Hj. destruct Hj as [Hj|Hj]; [by apply (uo_jobs U)|].
    apply (job_ok_mono w); [done|]. apply (fi_jobs _ I); [|done]. rewrite (uo_old U). set_solver.
  - intros u v Hu Hv.
    assert (D : (marked w' v = true \/ exists j, j ∈ js ++ rest /\ covers u v j) ->
      marked w' v = true \/ exists j, j ∈ jobs' /\ covers u v j).
    { intros [?|(j & Hj & Hc)]; [by left|right]. exists j. by rewrite (uo_new U). }
    apply D. destruct (marked w u) eqn:Em.
    + destruct (fi_cover _ I u v Em Hv) as [H|(j & Hj & Hc)]; [by left; apply MG|].
      rewrite (uo_old U), elem_of_app in Hj. destruct Hj as [Hj|Hj]; [by eapply (uo_covers U)|].
      right. exists j. set_solver.
    + destruct (New u Hu Em) as (-> & t & Ht). by apply (uo_fresh U t Em Ht).
  - intros v. rewrite lsum_app, EJ'. pose proof (fi_log _ I v) as E1. pose proof (uo_log U v) as E2.
    rewrite EJ in E1. lia.
  - intros v r0 x0. rewrite EJ'. rewrite lookup_insert_Some. intros [[<- [= <- <-]]|[Hne Hv]] Hm Hz.
    + apply (uo_post U); [done|specialize (NJ n); specialize (NR n); lia|].
      intros Hm0 Ho. apply (fi_post _ I n r x); [apply U|done|]. rewrite EJ.
      specialize (NJ n). specialize (NR n). lia.
    + rewrite marked_other in Hm by done. apply (fi_post _ I v r0 x0); [done|done|].
      rewrite EJ. pose proof (uo_log U v) as E. rewrite delivery_other, marked_other in E by done.
      specialize (NJ v). specialize (NR v). lia.
Qed.
End update.

(** ** The steps of the flood *)
Definition node_weight (st : Router * S) : Z :=
  if decide (is_Some (rr_seen st.1 !! k)) then 0 else 3 + 2 * Z.of_nat (size (rr_neighbors st.1)).

Definition job_weight (j : job) : Z :=
  if decide (job_key j = k) then
    match j with
    | JPacket _ _ _ => 1
    | JRun v (PDeliver _ _ _) => 3 + 2 * Z.of_nat (size (G v))
    | JRun v (PFlood _ _) => 2 + 2 * Z.of_nat (size (G v))
    | JRun _ (PSending _ _ todo) => 1 + 2 * Z.of_nat (length todo)
    | JRun _ _ => 1
    end
  else 0.

Definition potential (w : world) : Z := map_sum node_weight (w_nodes w) + lsum job_weight (w_jobs w).

Lemma job_weight_nonneg j : 0 <= job_weight j.
Proof. unfold job_weight. repeat case_match; lia. Qed.

Lemma potential_nonneg w : 0 <= potential w.
Proof.
  unfold potential. pose proof (lsum_nonneg job_weight (w_jobs w) job_weight_nonneg).
  assert (0 <= map_sum node_weight (w_nodes w)); [|lia].
  apply map_sum_nonneg. intros u st _. unfold node_weight. case_decide; lia.
Qed.

Lemma potential_update w n st st' old rest js jobs' log' :
  w_nodes w !! n = Some st -> w_jobs w ≡ₚ old ++ rest -> jobs' ≡ₚ js ++ rest ->
  potential (mkWorld (<[n := st']> (w_nodes w)) jobs' log') - potential w
  = node_weight st' + lsum job_weight js - (node_weight st + lsum job_weight old).
Proof.
  intros Hn Ho Hj. unfold potential. simpl.
  rewrite (lsum_perm _ _ _ Ho), (lsum_perm _ _ _ Hj), !lsum_app.
  rewrite (map_sum_delete _ (w_nodes w) n st Hn).
  rewrite <-insert_delete_eq, map_sum_insert by apply lookup_delete_eq. lia.
Qed.

Lemma quiet_update w n r x r' x' old rest js jobs' events :
  flood_inv w -> w_jobs w ≡ₚ old ++ rest -> jobs' ≡ₚ js ++ rest ->
  w_nodes w !! n = Some (r, x) -> same_core r r' -> hInv n x' ->
  rr_seen r' !! k = rr_seen r !! k -> (forall j, j ∈ js -> job_sane j) ->
  (forall j, j ∈ js -> job_key j = k -> job_ok w j) ->
  (forall u v j, marked w u = true -> v ∈ G u -> j ∈ old -> covers u v j ->
    marked w v = true \/ exists j', j' ∈ js /\ covers u v j') ->
  (forall v, lsum (delivery v) (pair n <$> events) + lsum (awaiting v) js = lsum (awaiting v) old) ->
  (marked w n = true -> (lsum (awaiting n) old = 0 -> post n x) -> post n x') ->
  update_ok w n r x r' x' old rest js jobs' events.
Proof.
  intros I Ho Hj Hn Hc Hi Hs Hsane Hok Hcov Hlog Hpost.
  assert (Em : forall v, marked (mkWorld (<[n := (r', x')]> (w_nodes w)) jobs'
    (w_log w ++ (pair n <$> events))) v = marked w v).
  { intros v. unfold marked. simpl. destruct (decide (v = n)) as [->|Hv].
    - by rewrite lookup_insert_eq, Hn, Hs.
    - by rewrite lookup_insert_ne. }
  split; try done.
  - intros t Ht. congruence.
  - intros t Hm Ht. unfold marked in Hm. rewrite Hn, <-Hs, Ht in Hm. by rewrite bool_decide_true in Hm by eauto.
  - intros j Hjs Hk. apply (job_ok_mono w); [|by apply Hok]. intros v. by rewrite Em.
  - intros u v j Hu Hv Hjo Hcj. rewrite Em. destruct (Hcov u v j) as [?|(j' & ? & ?)]; [done..|by left|].
    right. exists j'. rewrite elem_of_app. auto.
  - intros v. rewrite Em, Hlog. lia.
  - rewrite Em. intros Hm _ Hp. apply Hpost; auto.
Qed.

(** *** Other traffic *)
Lemma seen_same w n r x r' now new :
  flood_inv w -> w_nodes w !! n = Some (r, x) -> window now -> seen_kept now new r r' -> ~ new k ->
  rr_seen r' !! k = rr_seen r !! k.
Proof.
  intros I Hn Hw [K1 K2] Hne. destruct (rr_seen r !! k) as [t|] eqn:E; [|by apply K2].
  apply K1; [done|]. by apply (fi_alive _ I n r x).
Qed.

Lemma awaiting_other v js : (forall j, j ∈ js -> job_key j <> k) -> lsum (awaiting v) js = 0.
Proof.
  intros Hj. apply lsum_zero. intros j Hin. specialize (Hj j Hin). unfold awaiting.
  destruct j as [|u [inb m next| | | |]]; try done. by rewrite (bool_decide_false (seen_key m = k)), andb_false_r.
Qed.
Lemma weight_other js : (forall j, j ∈ js -> job_key j <> k) -> lsum job_weight js = 0.
Proof.
  intros Hj. apply lsum_zero. intros j Hin. unfold job_weight. by rewrite decide_False by by apply Hj.
Qed.
Lemma delivery_none v n events :
  (forall e, e ∈ events -> match e with CtlDelivered _ m => seen_key m <> k | _ => True end) ->
  lsum (delivery v) (pair n <$> events) = 0.
Proof.
  intros He. apply lsum_zero. intros e (a & -> & Ha)%list_elem_of_fmap. specialize (He a Ha).
  destruct a as [inb m| |]; simpl in *; [|done..]. by rewrite (bool_decide_false (seen_key m = k)), andb_false_r.
Qed.
Lemma node_weight_same r x r' x' :
  same_core r r' -> rr_seen r' !! k = rr_seen r !! k -> node_weight (r', x') = node_weight (r, x).
Proof. intros (_ & _ & _ & C) E. unfold node_weight. simpl. by rewrite E, C. Qed.

Lemma other_job_update w i now j rest r x r' x' js jobs' events :
  graph_ok -> flood_inv w -> w_jobs w ≡ₚ [j] ++ rest -> jobs' ≡ₚ js ++ rest ->
  w_nodes w !! job_node j = Some (r, x) -> window now -> job_key j <> k ->
  job_step onMessage up i now j (r, x) = ((r', x'), js, events) ->
  update_ok w (job_node j) r x r' x' [j] rest js jobs' events /\
  node_weight (r', x') + lsum job_weight js <= node_weight (r, x) + lsum job_weight [j].
Proof.
  intros GO I Ho Hj Hn Hw Hk E.
  assert (Sj : job_sane j) by (apply (fi_sane _ I); rewrite Ho; set_solver).
  assert (Hv : job_node j ∈ V) by (apply (fi_dom _ I); by eauto).
  destruct (any_job_effect _ _ _ _ _ _ _ _ _ Sj (fi_shape _ I _ _ _ Hn) (gr_names GO _ Hv) E)
    as [C K Hi Hp Hjs Hev].
  assert (Es : rr_seen r' !! k = rr_seen r !! k) by (apply (seen_same _ _ _ x _ _ _ I Hn Hw K); congruence).
  assert (Ojs : forall j', j' ∈ js -> job_key j' <> k) by (intros j' Hin; destruct (Hjs j' Hin); congruence).
  split.
  - apply quiet_update; try done.
    + intros j' Hin. by apply Hjs.
    + intros j' Hin Hk'. by destruct (Ojs j' Hin).
    + intros u v j' _ _ ->%list_elem_of_singleton [? _]. done.
    + intros v. rewrite (awaiting_other v js) by done. rewrite delivery_none.
      * rewrite (awaiting_other v [j]); [done|]. by intros ? ->%list_elem_of_singleton.
      * intros e He. specialize (Hev e He). destruct e; congruence.
    + intros Hm Hpost. apply Hp, Hpost. apply awaiting_other. by intros ? ->%list_elem_of_singleton.
  - rewrite (node_weight_same _ x _ x' C Es), weight_other by done.
    pose proof (lsum_nonneg job_weight [j] job_weight_nonneg). lia.
Qed.

Lemma send_update w now u m r x r' x' js :
  graph_ok -> flood_inv w -> w_nodes w !! u = Some (r, x) -> window now -> message_sane m ->
  mg_From m0 = s ->
  send_step now u m (r, x) = ((r', x'), js) ->
  update_ok w u r x r' x' [] (w_jobs w) js (js ++ w_jobs w) [] /\
  node_weight (r', x') + lsum job_weight js <= node_weight (r, x) + lsum job_weight [].
Proof.
  intros GO I Hn Hw Sm Hf E.
  assert (Hv : u ∈ V) by (apply (fi_dom _ I); by eauto).
  pose proof (fi_shape _ I _ _ _ Hn) as N.
  destruct (send_effect _ _ _ _ _ _ _ _ Sm N (gr_names GO _ Hv) E) as (-> & C & Hjs & K & Hold).
  assert (Ojs : forall j', j' ∈ js -> job_key j' <> k).
  { intros j' Hin Hk. destruct (Hjs j' Hin) as [_ Eu]. rewrite Hk in Eu. simpl in Eu.
    pose proof (fi_origin _ I) as Ho. rewrite <-Hf, Eu in Ho. unfold marked in Ho. rewrite Hn in Ho.
    apply bool_decide_eq_true in Ho as [t Ht].
    pose proof (fi_alive _ I _ _ _ _ _ Hn Ht Hw) as Ha. rewrite <-Hk in Ht.
    rewrite (Hold j' t Hin Ht) in Ha. done. }
  assert (Es : rr_seen r' !! k = rr_seen r !! k).
  { apply (seen_same _ _ _ x _ _ _ I Hn Hw K). intros (j & Hin & Hk). by destruct (Ojs j Hin). }
  split.
  - apply quiet_update; try done.
    + apply N.
    + intros j' Hin. by apply Hjs.
    + intros j' Hin Hk'. by destruct (Ojs j' Hin).
    + intros u' v j' _ _ Hin. by apply elem_of_nil in Hin.
    + intros v. simpl. by rewrite awaiting_other.
    + intros Hm Hpost. by apply Hpost.
  - rewrite (node_weight_same _ x _ x C Es), weight_other by done. simpl. lia.
Qed.

(** *** Jobs of the flood *)
Context (GO : graph_ok) (F : flooded s m0) (HH : Z.of_nat (size V) <= mg_HopLimit m0 + 1).

(** What a move of job [j] at its node must give. *)
Definition moves (w : world) (j : job) (rest : list job) (r : Router) (x : S) (r' : Router) (x' : S)
    (js : list job) (events : list control_action) : Prop :=
  (forall jobs', jobs' ≡ₚ js ++ rest ->
     update_ok w (job_node j) r x r' x' [j] rest js jobs' events) /\
  node_weight (r', x') + lsum job_weight js < node_weight (r, x) + lsum job_weight [j].

Lemma marked_in w v : flood_inv w -> marked w v = true -> v ∈ V.
Proof. intros I Hm. apply (fi_dom _ I). unfold marked in Hm. by destruct (w_nodes w !! v). Qed.

Lemma path_good w p u : flood_inv w -> path_ok w p u -> Forall good_name p.
Proof.
  intros I (_ & _ & _ & Hm & _). apply Forall_forall. intros y Hy.
  apply (gr_names GO), (marked_in w); auto.
Qed.

Lemma copy_sane w p u : flood_inv w -> hGood m0 -> path_ok w p u -> message_sane (copy m0 p).
Proof.
  intros I Hg P. split; [|by apply (handler_body onMessage m0)].
  apply (copy_wire s); [done|by eapply path_good|by destruct P as [P _], p|destruct P as (_ & _ & _ & _ & ?); lia].
Qed.

Lemma copy_key p : seen_key (copy m0 p) = k.
Proof. done. Qed.

Section moving.
Context (w : world) (I : flood_inv w) (Hg0 : hGood m0).
Context (j : job) (rest : list job) (Hjobs : w_jobs w ≡ₚ [j] ++ rest) (Hkey : job_key j = k).
Context (r : Router) (x : S) (Hnode : w_nodes w !! job_node j = Some (r, x)).

Lemma moving_ok : job_ok w j.
Proof. apply (fi_jobs _ I); [|done]. rewrite Hjobs. set_solver. Qed.
Lemma moving_sane : job_sane j.
Proof. apply (fi_sane _ I). rewrite Hjobs. set_solver. Qed.

Lemma moves_sending u inb m todo i now r' x' js events :
  j = JRun u (PSending inb m todo) -> job_step onMessage up i now j (r, x) = ((r', x'), js, events) ->
  moves w j rest r x r' x' js events.
Proof.
  intros Ej. pose proof moving_ok as Ok. pose proof moving_sane as Sn. subst j. simpl in *.
  destruct Ok as ((p & -> & P) & Ht). destruct todo as [|peer todo]; intros [= <- <- <- <-].
  - split; [|simpl; unfold job_weight; simpl; rewrite decide_True by done; lia].
    intros jobs' Hj. apply quiet_update; try done.
    + apply (fi_shape _ I _ _ _ Hnode).
    + by intros ? ?%elem_of_nil.
    + by intros ? ?%elem_of_nil.
    + intros u' v j' _ _ ->%list_elem_of_singleton [_ [_ Hin]]. by apply elem_of_nil in Hin.
    + intros Hm Hpost. by apply Hpost.
  - destruct (gr_edges GO u peer) as (_ & _ & ->); [apply (fi_dom _ I); by eauto|apply Ht; left|].
    split; [|simpl; unfold job_weight; simpl; rewrite !decide_True by done; lia].
    intros jobs' Hj. apply quiet_update; try done.
    + apply (fi_shape _ I _ _ _ Hnode).
    + destruct Sn as [Sn _]. intros j' [->|[->|?%elem_of_nil]%elem_of_cons]%elem_of_cons; done.
    + intros j' [->|[->|?%elem_of_nil]%elem_of_cons]%elem_of_cons _; [| |done]; simpl.
      * exists p. split; [done|]. split; [done|]. apply Ht. left.
      * split; [by exists p|]. intros y Hy. apply Ht. by right.
    + intros u' v j' _ _ ->%list_elem_of_singleton [_ [<- [->|Hin]%elem_of_cons]]; right.
      * exists (JPacket peer u (copy m0 p)). split; [left|done].
      * exists (JRun u (PSending inb (copy m0 p) todo)). split; [right; left|done].
    + intros Hm Hpost. by apply Hpost.
Qed.

Lemma flood_targets_spec i inb m v :
  v ∈ flood_targets i inb m r <-> v ∈ G (job_node j) /\ v <> inb /\ v ∉ mg_PathVector m.
Proof.
  pose proof (fi_shape _ I _ _ _ Hnode) as N. unfold flood_targets, neighborSnapshot.
  rewrite (ns_open _ _ _ N), list_elem_of_filter.
  rewrite (fmap_Permutation fst _ _ (map_range_perm _ i (rr_neighbors r))).
  rewrite <-(ns_neighbors _ _ _ N), elem_of_dom. unfold is_Some. rewrite list_elem_of_fmap.
  setoid_rewrite <-elem_of_map_to_list. rewrite orb_false_iff, bool_decide_eq_false, containsNode_false.
  split.
  - intros [? ([v' e] & -> & Hin)]. split; [by exists e|done].
  - intros [[e He] ?]. split; [done|]. by exists (v, e).
Qed.

Lemma flood_targets_length i inb m : (length (flood_targets i inb m r) <= size (G (job_node j)))%nat.
Proof.
  pose proof (fi_shape _ I _ _ _ Hnode) as N.
  rewrite <-(ns_neighbors _ _ _ N), size_dom. unfold flood_targets, neighborSnapshot.
  rewrite (ns_open _ _ _ N). etrans; [apply length_filter|]. rewrite length_fmap.
  by rewrite (map_range_perm _ i (rr_neighbors r)), length_map_to_list.
Qed.

Lemma moves_flood u inb m i now r' x' js events :
  j = JRun u (PFlood inb m) -> job_step onMessage up i now j (r, x) = ((r', x'), js, events) ->
  moves w j rest r x r' x' js events.
Proof.
  intros Ej. pose proof moving_ok as Ok. pose proof moving_sane as Sn.
  pose proof (flood_targets_spec i inb m) as TS. pose proof (flood_targets_length i inb m) as TL.
  rewrite Ej in *. simpl in *. destruct Ok as ((p & -> & P) & Hinb). intros [= <- <- <- <-].
  split; [|simpl; unfold job_weight; simpl; rewrite !decide_True by done; lia].
  intros jobs' Hj. apply quiet_update; try done.
  - apply (fi_shape _ I _ _ _ Hnode).
  - by intros ? ->%list_elem_of_singleton.
  - intros ? ->%list_elem_of_singleton _. simpl. split; [by exists p|]. intros y Hy. by apply TS in Hy as [? _].
  - intros u' v j' Hu Hv ->%list_elem_of_singleton [_ <-].
    destruct (decide (v ∈ flood_targets i inb (copy m0 p) r)) as [Hin|Hn].
    + right. eexists. split; [by apply list_elem_of_singleton|done].
    + left. rewrite TS in Hn. destruct P as (_ & _ & _ & Pm & _).
      destruct (decide (v ∈ p)) as [?|Hp]; [by apply Pm|]. destruct (decide (v = inb)) as [->|Hne].
      * destruct Hinb as [->|?]; [|done]. destruct (gr_edges GO u "") as [Hv' _]; [|done|].
        { by apply (marked_in w). }
        by destruct (gr_names GO _ Hv') as (_ & ? & _).
      * destruct Hn. by split_and!.
  - intros Hm Hpost. by apply Hpost.
Qed.

Lemma awaiting_here v inb m next :
  seen_key m = k -> awaiting v (JRun v (PDeliver inb m next)) = 1.
Proof. intros Hm. simpl. by rewrite !bool_decide_true. Qed.
Lemma awaiting_elsewhere v u inb m next : u <> v -> awaiting v (JRun u (PDeliver inb m next)) = 0.
Proof. intros Hm. simpl. by rewrite bool_decide_false. Qed.

Lemma moves_deliver u inb m next i now r' x' js events :
  j = JRun u (PDeliver inb m next) -> job_step onMessage up i now j (r, x) = ((r', x'), js, events) ->
  moves w j rest r x r' x' js events.
Proof.
  intros Ej. pose proof moving_ok as Ok. pose proof moving_sane as Sn.
  pose proof (fi_shape _ I _ _ _ Hnode) as N. rewrite Ej in *. simpl in *.
  destruct Ok as (Et & Ep & Hm & Hn), Sn as [[W Hg] Sn]. simpl in W.
  unfold deliver. rewrite cloneMessage_id by done.
  destruct (hd_accepts _ _ _ _ _ HP now m r x) as [Ha Hp]; [|done..|].
  { rewrite (ns_id _ _ _ N). apply N. }
  destruct (onMessage now m (r, x)) as [[r1 x1] err] eqn:E. simpl in Ha, Hp. subst err.
  rewrite (ns_id _ _ _ N) in Hp. intros [= <- <- <- <-].
  destruct (handler_core (Handler := HD) onMessage _ _ _ _ _ _ _ E) as [C K].
  assert (Hi : hInv u x1).
  { rewrite <-(ns_id _ _ _ N). apply (handler_inv (Handler := HD) onMessage now m r x r1 x1 None); [|done..].
    rewrite (ns_id _ _ _ N). apply N. }
  assert (Es : rr_seen r1 !! k = rr_seen r !! k) by (by rewrite K).
  split.
  - intros jobs' Hj. apply quiet_update; try done.
    + intros j' Hj'. destruct next as [m'|]; [|by apply elem_of_nil in Hj'].
      apply list_elem_of_singleton in Hj' as ->. by destruct Sn.
    + intros j' Hj' _. destruct next as [m'|]; [|by apply elem_of_nil in Hj'].
      by apply list_elem_of_singleton in Hj' as ->.
    + intros u' v j' _ _ ->%list_elem_of_singleton [_ Hc]. destruct next as [m'|]; [subst u'|done].
      right. eexists. split; [by apply list_elem_of_singleton|]. destruct Sn as [_ Sn]. split; [|done].
      unfold job_key in *. simpl in *. congruence.
    + intros v. assert (Ez : lsum (awaiting v) (match next with Some m' => [JRun u (PFlood inb m')] | None => [] end) = 0)
        by (by destruct next).
      rewrite Ez. simpl. lia.
  - simpl. rewrite (node_weight_same r x r1 x1 C Es).
    assert (Ek : seen_key m = k) by done. unfold job_weight at 2. simpl. rewrite decide_True by done.
    destruct next as [m'|]; simpl; [|lia]. destruct Sn as [_ Sn].
    unfold job_weight. simpl. rewrite decide_True by (unfold job_key; simpl; congruence). lia.
Qed.

Lemma moves_duplicate v u m i now r' x' js events :
  window now -> j = JPacket v u m -> marked w v = true ->
  job_step onMessage up i now j (r, x) = ((r', x'), js, events) ->
  moves w j rest r x r' x' js events.
Proof.
  intros Hw Ej Hm E. pose proof moving_sane as Sn. pose proof (fi_shape _ I _ _ _ Hnode) as N.
  rewrite Ej in *. simpl in Hnode, Hkey, N. pose proof Sn as [[W _] _]. simpl in W.
  unfold marked in Hm. rewrite Hnode in Hm. apply bool_decide_eq_true in Hm as [t Ht].
  pose proof (fi_alive _ I _ _ _ _ _ Hnode Ht Hw) as Ha.
  assert (Hv : v ∈ V) by (apply (fi_dom _ I); by eauto).
  destruct (packet_effect _ _ _ _ _ _ _ _ _ _ _ Sn N (gr_names GO _ Hv) E) as [[C [K _] Hi _ Hjs _] ->].
  assert (Es : rr_seen r' !! k = rr_seen r !! k) by (rewrite Ht; by apply K).
  unfold job_key in Hkey. simpl in Hkey. rewrite <-Hkey in Ht.
  destruct (accept_seen now (TrimSpace u) m r t W Ht Ha) as (m' & e & Ea).
  simpl in E. destruct (inbound_accept now (TrimSpace u) m r) as [r1 acc]. simpl in Ea. subst acc.
  injection E as <- <- <-.
  split; [|simpl; rewrite (node_weight_same r x r1 x C Es); unfold job_weight; simpl;
    rewrite decide_True by done; lia].
  intros jobs' Hj. apply quiet_update; try done.
  - by intros ? ?%elem_of_nil.
  - by intros ? ?%elem_of_nil.
  - intros u' v' j' _ _ ->%list_elem_of_singleton [_ <-]. left. unfold marked. rewrite Hnode.
    apply bool_decide_eq_true. rewrite Hkey in Ht. by exists t.
  - intros Hm Hpost. by apply Hpost.
Qed.

(** The path of a copy that reaches an unmarked node. *)
Lemma fresh_path p u v :
  path_ok w p u -> v ∈ V -> marked w v = false ->
  NoDup (p ++ [v]) /\ (forall y, y ∈ p ++ [v] -> y ∈ V) /\ v ∉ p /\ (length p < size V)%nat.
Proof.
  intros (_ & _ & Pn & Pm & _) Vv Hm.
  assert (Hvp : v ∉ p) by (intros Hin; rewrite (Pm v Hin) in Hm; done).
  assert (Pn' : NoDup (p ++ [v])).
  { apply NoDup_app. split; [done|]. split; [|apply NoDup_singleton].
    intros y Hy ->%list_elem_of_singleton. done. }
  assert (Pv : forall y, y ∈ p ++ [v] -> y ∈ V).
  { intros y [Hy|Hy%list_elem_of_singleton]%elem_of_app; [|by subst]. by apply (marked_in w), Pm. }
  pose proof (nodup_length _ _ Pn' Pv) as Hlen. rewrite length_app in Hlen. simpl in Hlen.
  split_and!; [done..|lia].
Qed.

Definition onward (p : list string) (v : string) : option Message :=
  if mg_HopLimit m0 <=? Z.of_nat (length p) then None else Some (copy m0 (p ++ [v])).

Lemma accept_step v u p i now r' x' js events :
  j = JPacket v u (copy m0 p) -> path_ok w p u -> v ∈ G u -> marked w v = false ->
  job_step onMessage up i now j (r, x) = ((r', x'), js, events) ->
  same_core r r' /\ rr_seen r' !! k = Some (TAdd now (rr_seenTTL r)) /\ x' = x /\ events = [] /\
  js = [JRun v (PDeliver u (set_PathVector (p ++ [v]) (copy m0 p)) (onward p v))].
Proof.
  intros Ej P He Hm E. pose proof moving_sane as Sn. pose proof (fi_shape _ I _ _ _ Hnode) as N.
  rewrite Ej in *. simpl in Hnode, N. destruct Sn as [[W _] _]. simpl in W.
  assert (Vu : u ∈ V). { apply (marked_in w); [done|]. apply P, last_Some_elem_of, P. }
  destruct (gr_edges GO u v Vu He) as (Vv & Hback & _).
  destruct (fresh_path p u v P Vv Hm) as (_ & _ & Hvp & Hlen).
  assert (Hs : rr_seen r !! k = None).
  { unfold marked in Hm. rewrite Hnode in Hm. apply bool_decide_eq_false in Hm. by apply eq_None_not_Some. }
  pose proof (gr_names GO u Vu) as Gu. destruct Gu as (Tu & Nu & Uu). simpl in E. rewrite Tu in E.
  assert (A : (inbound_accept now u (copy m0 p) r).2 = Accepted (set_PathVector (p ++ [v]) (copy m0 p))).
  { destruct P as (Ps & _ & _ & Pm & Ph). apply (accept_copy s); try done.
    - apply N.
    - apply N.
    - apply elem_of_dom. by rewrite (ns_neighbors _ _ _ N).
    - apply Forall_forall. intros y Hy. by apply (gr_names GO), (marked_in w), Pm.
    - pose proof (gr_size GO). lia. }
  destruct (inbound_accept now u (copy m0 p) r) as [r1 acc] eqn:Ea. simpl in A. subst acc.
  destruct (inbound_accept_effect _ _ _ _ _ _ W Ea) as (C & _ & A2).
  destruct (A2 _ eq_refl) as (_ & _ & A3). rewrite (plan_copy s m0 F) in E.
  injection E as <- <- <- <-. by split_and!.
Qed.

(** The marks after an acceptance, and the job it leaves. *)
Section accepted.
Context (v u : string) (p : list string) (P : path_ok w p u) (He : v ∈ G u) (Hm : marked w v = false).
Context (r' : Router) (Hs : is_Some (rr_seen r' !! k)).
Context (jobs' : list job) (log' : list (string * control_action)).
Notation w' := (mkWorld (<[v := (r', x)]> (w_nodes w)) jobs' log').

Lemma accepted_marks y : marked w y = true -> marked w' y = true.
Proof.
  intros Hy. unfold marked. simpl. destruct (decide (y = v)) as [->|Hne]; [congruence|].
  by rewrite lookup_insert_ne.
Qed.
Lemma accepted_here : marked w' v = true.
Proof. unfold marked. simpl. rewrite lookup_insert_eq. by apply bool_decide_eq_true. Qed.
Lemma accepted_other y : y <> v -> marked w' y = marked w y.
Proof. intros Hy. unfold marked. simpl. by rewrite lookup_insert_ne. Qed.

Lemma accepted_job :
  job_ok w' (JRun v (PDeliver u (set_PathVector (p ++ [v]) (copy m0 p)) (onward p v))).
Proof.
  assert (Mu : marked w u = true) by (apply P, last_Some_elem_of, P).
  destruct (gr_edges GO u v (marked_in _ _ I Mu) He) as (Vv & _ & _).
  destruct (fresh_path p u v P Vv Hm) as (Pn & Pv & Hvp & Hlen).
  assert (Mp : forall y, y ∈ p ++ [v] -> marked w' y = true).
  { intros y [Hy|Hy%list_elem_of_singleton]%elem_of_app; [by apply accepted_marks, P|].
    subst y. apply accepted_here. }
  split; [done|]. split; [done|]. split; [apply accepted_here|]. unfold onward.
  destruct (mg_HopLimit m0 <=? Z.of_nat (length p)) eqn:Eh.
  - apply Z.leb_le in Eh. intros y Hy. apply Mp, (nodup_covers _ V Pn Pv); [|done].
    rewrite length_app. simpl. lia.
  - apply Z.leb_gt in Eh. split.
    + exists (p ++ [v]). split; [done|]. destruct P as (Ps & _).
      split_and!; [by destruct p|by rewrite last_snoc|done|done|rewrite length_app; simpl; lia].
    + right. by apply accepted_marks.
Qed.
End accepted.

Lemma moves_accept v u m i now r' x' js events :
  window now -> j = JPacket v u m -> marked w v = false ->
  job_step onMessage up i now j (r, x) = ((r', x'), js, events) ->
  moves w j rest r x r' x' js events.
Proof.
  intros Hw Ej Hm E. pose proof moving_ok as Ok. pose proof moving_sane as Sn.
  pose proof (fi_shape _ I _ _ _ Hnode) as N. rewrite Ej in Ok. destruct Ok as (p & -> & P & He).
  assert (Mu : marked w u = true) by (apply P, last_Some_elem_of, P).
  assert (Hv : v ∈ V) by (apply (fi_dom _ I); rewrite Ej in Hnode; by eauto).
  pose proof (gr_names GO _ Hv) as Gv.
  destruct (accept_step _ _ _ _ _ _ _ _ _ Ej P He Hm E) as (C & Hs & -> & -> & ->).
  rewrite Ej in E, Sn. rewrite Ej in Hnode, N. simpl in Hnode, N.
  destruct (packet_effect _ _ _ _ _ _ _ _ _ _ _ Sn N Gv E) as [[_ _ _ _ Hjs _] _].
  assert (Hs' : is_Some (rr_seen r' !! k)) by by eauto.
  assert (Hs0 : rr_seen r !! k = None).
  { unfold marked in Hm. rewrite Hnode in Hm. apply bool_decide_eq_false in Hm. by apply eq_None_not_Some. }
  rewrite Ej. split.
  - intros jobs' Hj. pose proof (accepted_job v u p P He Hm r' Hs' jobs' (w_log w ++ [])) as OkJ.
    split; simpl job_node; simpl fmap; try done.
    + rewrite <-Ej. exact Hjobs.
    + apply N.
    + intros t Ht. congruence.
    + intros t _ Ht. rewrite Hs in Ht. injection Ht as <-. split; [intros now' Hw'; by apply N|].
      split; [by exists u|]. intros v' Hv'. destruct OkJ as (_ & _ & _ & OkJ).
      destruct (onward p v) as [m'|]; [right|left].
      * eexists. split; [left|]. by split.
      * apply OkJ. by apply (gr_edges GO v v').
    + intros j' Hj'. by apply Hjs.
    + by intros j' ->%list_elem_of_singleton.
    + intros u' v' j' _ _ ->%list_elem_of_singleton [_ <-]. left. by apply accepted_here.
    + intros v'. simpl lsum. destruct (decide (v' = v)) as [->|Hne].
      * rewrite accepted_here, Hm by done. simpl. rewrite !bool_decide_true by done. simpl. lia.
      * rewrite accepted_other by done. simpl. rewrite bool_decide_false by done. simpl. lia.
    + intros _ Hz. simpl in Hz. rewrite !bool_decide_true in Hz by done. done.
  - simpl. unfold node_weight, job_weight. simpl. destruct C as (_ & _ & _ & ->).
    rewrite (decide_True (P := is_Some (rr_seen r' !! k))) by done.
    rewrite (decide_False (P := is_Some (rr_seen r !! k))) by (rewrite Hs0; by intros [? ?]).
    rewrite !decide_True by done. rewrite <-(ns_neighbors _ _ _ N), size_dom. lia.
Qed.
End moving.
End flood.
