(* ===== verification/MeshFloodThms.v ===== *)
(** * A flood reaches every node *)
From S2P Require Import Prelude GoStd MeshTopology MeshMessage MeshRouter MeshControl MeshNetwork MeshFloodInv.

Section flood.
Context {J : MessageCodec} {L : MessageCodecLaws J} {R : MapRange} {LR : MapRangeLaws R} {S : Type}.
Context (onMessage : Time -> Message -> Router * S -> (Router * S) * option merr).
Context (up : string -> string -> bool).
Context (hInv : string -> S -> Prop) (hGood : Message -> Prop) {HD : Handler onMessage hInv hGood}.
Context (window : Time -> Prop) (V : gset string) (G : string -> gset string).
Notation world_step := (world_step onMessage up window (message_sane hGood)).
Notation world_run := (world_run onMessage up window (message_sane hGood)).

Section steps.
Context (s : string) (m0 : Message) (post : string -> S -> Prop).
Context (HP : handles onMessage hInv hGood m0 post) (GO : graph_ok up V G) (F : flooded s m0).
Context (HH : Z.of_nat (size V) <= mg_HopLimit m0 + 1) (Hg0 : hGood m0).
Notation inv := (flood_inv hInv hGood window V G s m0 post).

(** One for a step of the flood, none for a step of other traffic. *)
Definition own_step (l : option job) : Z :=
  match l with Some j => bool_Z (bool_decide (job_key j = seen_key m0)) | None => 0 end.

Lemma flood_job_moves w i now j rest r x r' x' js events :
  inv w -> w_jobs w ≡ₚ [j] ++ rest -> job_key j = seen_key m0 -> window now ->
  w_nodes w !! job_node j = Some (r, x) ->
  job_step onMessage up i now j (r, x) = ((r', x'), js, events) ->
  moves hInv hGood window V G s m0 post w j rest r x r' x' js events.
Proof.
  intros I Hj Hk Hw Hn E. destruct j as [v u m|u [inb m next|inb m|inb m todo|inb m|inb m e]].
  - destruct (marked m0 w v) eqn:Em; [by eapply moves_duplicate|by eapply moves_accept].
  - by eapply moves_deliver.
  - by eapply moves_flood.
  - by eapply moves_sending.
  - exfalso. eapply (fi_jobs _ _ _ _ _ _ _ _ _ I (JRun u (PForward inb m))); [rewrite Hj; set_solver|done].
  - exfalso. eapply (fi_jobs _ _ _ _ _ _ _ _ _ I (JRun u (PDrop inb m e))); [rewrite Hj; set_solver|done].
Qed.

Lemma flood_step w l w' :
  inv w -> world_step w l w' ->
  inv w' /\ potential G m0 w' + own_step l <= potential G m0 w.
Proof.
  intros I Hs. revert I.
  destruct Hs as [w0 i now j before after [r x] [r' x'] js events Hj Hn Hw E
    |w0 now u m [r x] [r' x'] js Hn Hw Hm E]; intros I.
  - assert (P1 : w_jobs w0 ≡ₚ [j] ++ (before ++ after)) by (rewrite Hj; solve_Permutation).
    assert (P2 : before ++ js ++ after ≡ₚ js ++ (before ++ after)) by solve_Permutation.
    pose proof (potential_update G m0 w0 _ (r, x) (r', x') [j] _ js _
      (w_log w0 ++ (pair (job_node j) <$> events)) Hn P1 P2) as PU.
    unfold own_step. destruct (decide (job_key j = seen_key m0)) as [Hk|Hk].
    + destruct (flood_job_moves _ _ _ _ _ _ _ _ _ _ _ I P1 Hk Hw Hn E) as [U Hlt].
      split; [by apply (topology_update_inv onMessage up _ _ _ _ _ _ _ _ HP _ _ _ _ _ _ _ _ _ _ _ GO (U _ P2))|].
      rewrite bool_decide_true by done. simpl in *. lia.
    + destruct (other_job_update onMessage up hInv hGood window V G s m0 post HP w0 i now j
        (before ++ after) r x r' x' js _ events GO I P1 P2 Hn Hw Hk E) as [U Hle].
      split; [by apply (topology_update_inv onMessage up _ _ _ _ _ _ _ _ HP _ _ _ _ _ _ _ _ _ _ _ GO U)|].
      rewrite bool_decide_false by done. simpl in *. lia.
  - destruct (send_update onMessage up hInv hGood window V G s m0 post w0 now u m r x r' x' js
      GO I Hn Hw Hm (fl_from _ _ F) E) as [U Hle].
    pose proof (potential_update G m0 w0 _ (r, x) (r', x') [] (w_jobs w0) js _ (w_log w0) Hn
      (Permutation_refl _) (Permutation_refl _)) as PU.
    split; [|simpl in *; lia].
    rewrite <-(app_nil_r (w_log w0)). by apply (topology_update_inv onMessage up _ _ _ _ _ _ _ _ HP _ _ _ _ _ _ _ _ _ _ [] GO U).
Qed.

Lemma flood_run w ls w' :
  inv w -> world_run w ls w' ->
  inv w' /\ potential G m0 w' + lsum own_step ls <= potential G m0 w.
Proof.
  intros I. induction 1 as [|w l w1 ls w2 Hr IH Hs]; [simpl; split; [done|lia]|].
  destruct (IH I) as [I1 H1]. destruct (flood_step _ _ _ I1 Hs) as [I2 H2].
  split; [done|]. rewrite lsum_app. simpl. lia.
Qed.

Lemma flood_job_node w j :
  inv w -> j ∈ w_jobs w -> job_key j = seen_key m0 -> is_Some (w_nodes w !! job_node j).
Proof.
  intros I Hj Hk. apply (fi_dom _ _ _ _ _ _ _ _ _ I).
  assert (M : forall v, marked m0 w v = true -> v ∈ V) by (intros v; by eapply marked_in).
  pose proof (fi_jobs _ _ _ _ _ _ _ _ _ I j Hj Hk) as Ok.
  destruct j as [v u m|u [inb m next|inb m|inb m todo|inb m|inb m e]]; simpl in *; try done.
  - destruct Ok as (p & _ & P & He). apply (gr_edges _ _ _ GO u v); [|done].
    apply M, P, last_Some_elem_of, P.
  - by apply M, Ok.
  - destruct Ok as [(p & _ & P) _]. apply M, P, last_Some_elem_of, P.
  - destruct Ok as [(p & _ & P) _]. apply M, P, last_Some_elem_of, P.
Qed.

Lemma flood_progress w j now :
  inv w -> j ∈ w_jobs w -> job_key j = seen_key m0 -> window now ->
  exists w', world_step w (Some j) w'.
Proof.
  intros I Hj Hk Hw. destruct (flood_job_node w j I Hj Hk) as [st Hn].
  apply list_elem_of_split in Hj as (before & after & Hj).
  destruct (job_step onMessage up 0 now j st) as [[st' js] events] eqn:E.
  eexists. by eapply ws_job.
Qed.

Lemma flood_done w v :
  inv w -> (forall j, j ∈ w_jobs w -> job_key j <> seen_key m0) ->
  marked m0 w v = true <-> rtc (fun a b => a ∈ V /\ b ∈ G a) s v.
Proof.
  intros I Hq. split; [apply (fi_reached _ _ _ _ _ _ _ _ _ I)|]. intros Hr.
  refine (rtc_ind_r (fun y => marked m0 w y = true) s _ _ v Hr); [apply I|].
  intros u v' _ [Hv He] IH.
  destruct (fi_cover _ _ _ _ _ _ _ _ _ I u v' IH He) as [?|(j & Hj & Hc & _)]; [done|].
  by destruct (Hq j Hj).
Qed.
End steps.

(** ** Before the flood *)

(** A network of open routers in which nobody has met the message. *)
Record flood_ready (m0 : Message) (w : world S) : Prop := {
  fr_dom u : u ∈ V <-> is_Some (w_nodes w !! u);
  fr_shape u r x : w_nodes w !! u = Some (r, x) -> node_shape hInv window G u r x;
  fr_jobs j : j ∈ w_jobs w -> job_sane hGood j /\ job_key j <> seen_key m0;
  fr_unseen u r x : w_nodes w !! u = Some (r, x) -> rr_seen r !! seen_key m0 = None;
  fr_log v : lsum (delivery m0 v) (w_log w) = 0;
}.

(** The world in which the [Send] of [m] at [s] has just been accepted. *)
Definition after_send (s : string) (r : Router) (x : S) (m0 : Message) (w : world S) : world S :=
  mkWorld (<[s := (r, x)]> (w_nodes w)) (JRun s (PDeliver "" m0 (Some m0)) :: w_jobs w) (w_log w).

Definition deliveries (m0 : Message) (v : string) (w : world S) : Z := lsum (delivery m0 v) (w_log w).

(** Steps a flood can take in all: at every node the acceptance, the delivery,
    the snapshot, and two for every neighbor. *)
Definition flood_bound (w : world S) : Z :=
  map_sum (fun st => 3 + 2 * Z.of_nat (size (rr_neighbors st.1))) (w_nodes w).

Section start.
Context (s : string) (m m0 : Message) (post : string -> S -> Prop).
Context (w : world S) (now : Time) (r r' : Router) (x : S).
Context (GO : graph_ok up V G) (FR : flood_ready m0 w).
Context (Hs : w_nodes w !! s = Some (r, x)) (Hw : window now) (Hm : message_sane hGood m).
Context (Hacc : send_accept now m r = (r', Accepted m0)).
Context (Hto : mg_To m0 = BroadcastNodeID) (Hpath : mg_PathVector m0 = [s]) (Hseq : mg_Seq m0 <> 0).

Lemma origin_valid : s ∈ V.
Proof. apply FR. by eauto. Qed.
Lemma origin_utf8 : valid_utf8 (rr_nodeID r) = true.
Proof. rewrite (ns_id _ _ _ _ _ _ (fr_shape _ _ FR _ _ _ Hs)). apply (gr_names _ _ _ GO), origin_valid. Qed.

Lemma origin_flooded : flooded s m0.
Proof.
  destruct (send_accept_effect _ _ _ _ _ (proj1 Hm) origin_utf8 Hacc) as (_ & _ & A).
  destruct (A m0 eq_refl) as (W & (_ & _ & _ & Hf) & Hv & _).
  split; try done. by rewrite Hf, (ns_id _ _ _ _ _ _ (fr_shape _ _ FR _ _ _ Hs)).
Qed.

Lemma origin_good : hGood m0.
Proof.
  destruct (send_accept_effect _ _ _ _ _ (proj1 Hm) origin_utf8 Hacc) as (_ & _ & A).
  destruct (A m0 eq_refl) as (_ & (Ht & _ & Hp & _) & _). by apply (handler_body onMessage m), Hm.
Qed.

Lemma copy_origin : copy m0 [s] = m0.
Proof.
  unfold copy. rewrite <-Hpath. destruct m0. unfold set_PathVector, set_hops. simpl in *. subst.
  f_equal. simpl. lia.
Qed.

Notation w1 := (after_send s r' x m0 w).

Lemma marked_after v : marked m0 w1 v = bool_decide (v = s).
Proof.
  destruct (send_accept_effect _ _ _ _ _ (proj1 Hm) origin_utf8 Hacc) as (_ & _ & A).
  destruct (A m0 eq_refl) as (_ & _ & _ & Hin). unfold marked. simpl.
  destruct (decide (v = s)) as [->|Hne].
  - rewrite lookup_insert_eq, Hin, !bool_decide_true; by eauto.
  - rewrite lookup_insert_ne, (bool_decide_false (v = s)) by done.
    destruct (w_nodes w !! v) as [[rv xv]|] eqn:E; [|done]. rewrite (fr_unseen _ _ FR _ _ _ E).
    apply bool_decide_false. by intros [? ?].
Qed.

Lemma jobs_after v : lsum (awaiting m0 v) (w_jobs w1) = bool_Z (bool_decide (v = s)).
Proof.
  simpl lsum. rewrite (awaiting_other m0 v (w_jobs w)) by (intros j Hj; by apply FR).
  unfold awaiting. rewrite (bool_decide_true (seen_key m0 = seen_key m0)), andb_true_r by done.
  rewrite Z.add_0_r. f_equal. apply bool_decide_ext. done.
Qed.

Lemma flood_start : flood_inv hInv hGood window V G s m0 post w1.
Proof.
  pose proof origin_flooded as F. pose proof origin_good as Hg.
  destruct (send_accept_effect _ _ _ _ _ (proj1 Hm) origin_utf8 Hacc) as (C & _ & A).
  destruct (A m0 eq_refl) as (W & _ & _ & Hin).
  pose proof (fr_shape _ _ FR _ _ _ Hs) as [N1 N2 N3 N4 N5].
  split; simpl.
  - intros u. rewrite (fr_dom _ _ FR u). destruct (decide (u = s)) as [->|Hu].
    + rewrite lookup_insert_eq, Hs. split; by eauto.
    + by rewrite lookup_insert_ne.
  - intros u r0 x0. rewrite lookup_insert_Some. intros [[<- [= <- <-]]|[_ Hu]]; [|by apply FR].
    destruct C as (C1 & C2 & C3 & C4). split; [congruence|congruence|congruence|by rewrite C2|done].
  - intros j [->|Hj]%elem_of_cons; [by repeat split|by apply FR].
  - intros u r0 x0 t now'. rewrite lookup_insert_Some. intros [[<- [= <- <-]]|[_ Hu]] Ht Hw'.
    + rewrite Hin in Ht. injection Ht as <-. by apply N4.
    + by rewrite (fr_unseen _ _ FR _ _ _ Hu) in Ht.
  - by rewrite marked_after, bool_decide_true.
  - intros v. rewrite marked_after. intros ->%bool_decide_eq_true. apply rtc_refl.
  - intros j [->|Hj]%elem_of_cons Hk; [|by destruct (fr_jobs _ _ FR j Hj)].
    split; [done|]. split; [done|]. rewrite marked_after, bool_decide_true by done. split; [done|].
    split; [|by left]. exists [s]. rewrite copy_origin. split; [done|].
    split_and!; [done|done|apply NoDup_singleton| |].
    + intros y ->%list_elem_of_singleton. by rewrite marked_after, bool_decide_true.
    + pose proof (hop_bounds _ _ F). simpl. lia.
  - intros u v. rewrite marked_after. intros ->%bool_decide_eq_true Hv. right.
    eexists. split; [left|]. by split.
  - intros v. pose proof (jobs_after v) as E. simpl in E. rewrite (fr_log _ _ FR), marked_after. lia.
  - intros v r0 x0 _. rewrite marked_after. intros ->%bool_decide_eq_true Hz.
    pose proof (jobs_after s) as E. simpl in E. rewrite Hz, bool_decide_true in E by done. done.
Qed.

Lemma start_potential : potential G m0 w1 = flood_bound w.
Proof.
  unfold potential, flood_bound. simpl.
  rewrite (weight_other G m0 (w_jobs w)) by (intros j Hj; by apply FR).
  unfold job_weight. rewrite decide_True by done.
  rewrite (map_sum_delete _ (w_nodes w) s _ Hs).
  rewrite <-insert_delete_eq, map_sum_insert by apply lookup_delete_eq.
  destruct (send_accept_effect _ _ _ _ _ (proj1 Hm) origin_utf8 Hacc) as (_ & _ & A).
  destruct (A m0 eq_refl) as (_ & _ & _ & Hin).
  unfold node_weight at 1. simpl. rewrite decide_True by (rewrite Hin; by eauto).
  rewrite (map_sum_ext (node_weight m0) (fun st => 3 + 2 * Z.of_nat (size (rr_neighbors st.1)))).
  - rewrite <-(ns_neighbors _ _ _ _ _ _ (fr_shape _ _ FR _ _ _ Hs)), size_dom. lia.
  - intros u [ru xu] Hu. apply lookup_delete_Some in Hu as [_ Hu]. unfold node_weight. simpl.
    rewrite decide_False; [done|]. rewrite (fr_unseen _ _ FR _ _ _ Hu). by intros [? ?].
Qed.

Lemma flood_end ls w' :
  handles onMessage hInv hGood m0 post -> Z.of_nat (size V) <= mg_HopLimit m0 + 1 ->
  world_run w1 ls w' ->
  flood_inv hInv hGood window V G s m0 post w' /\ lsum (own_step m0) ls <= flood_bound w.
Proof.
  intros HP HH Hrun.
  destruct (flood_run s m0 post HP GO origin_flooded HH origin_good _ _ _ flood_start Hrun) as [I HB].
  rewrite start_potential in HB. split; [done|]. pose proof (potential_nonneg G m0 w'). lia.
Qed.

(** When nothing of the flood is left, the marked nodes are the connected ones. *)
Lemma flood_settled w' v :
  flood_inv hInv hGood window V G s m0 post w' -> (forall j, j ∈ w_jobs w' -> job_key j <> seen_key m0) ->
  rtc (fun a b => a ∈ V /\ b ∈ G a) s v ->
  deliveries m0 v w' = 1 /\ forall rv xv, w_nodes w' !! v = Some (rv, xv) -> post v xv.
Proof.
  intros I Hq Hr. apply (flood_done s m0 post w' v I Hq) in Hr.
  pose proof (fi_log _ _ _ _ _ _ _ _ _ I v) as E. rewrite (awaiting_other m0 v _ Hq), Hr in E.
  simpl in E. split; [unfold deliveries; lia|].
  intros rv xv Hv. apply (fi_post _ _ _ _ _ _ _ _ _ I v rv xv Hv Hr). by apply awaiting_other.
Qed.
End start.

(** ** The theorem *)

(** C19: A flood reaches every node once.  Take a network of at most 64 open
    routers whose neighbor relation is symmetric and does not change during the
    run and whose sessions always deliver; let every clock reading of the run fall
    in a window shorter than the [seenTTL] of every router; let the handler never
    fail on this message and let no other message undo its effect; and let no
    router have met the message.  Let a node's [Send] accept a broadcast with a hop
    limit of at least the number of other nodes.  Then, however the calls of all
    routers interleave, whatever other messages travel, and in whichever order
    copies arrive, the flood takes at most three steps per node and two per
    neighbor; as long as a copy or a call of it is left, it can go on; and when none
    is left, every node connected to the origin has delivered the message exactly
    once and its handler has taken effect, and no other node has delivered it. *)
Theorem flood_reaches_everyone s m m0 post w now r r' x ls w' :
  handles onMessage hInv hGood m0 post -> graph_ok up V G -> flood_ready m0 w ->
  w_nodes w !! s = Some (r, x) -> window now -> message_sane hGood m ->
  send_accept now m r = (r', Accepted m0) ->
  mg_To m0 = BroadcastNodeID -> mg_PathVector m0 = [s] -> mg_Seq m0 <> 0 ->
  Z.of_nat (size V) <= mg_HopLimit m0 + 1 ->
  world_run (after_send s r' x m0 w) ls w' ->
  lsum (own_step m0) ls <= flood_bound w /\
  (forall j, j ∈ w_jobs w' -> job_key j = seen_key m0 -> exists w2, world_step w' (Some j) w2) /\
  ((forall j, j ∈ w_jobs w' -> job_key j <> seen_key m0) ->
   forall v, v ∈ V ->
     (rtc (fun a b => a ∈ V /\ b ∈ G a) s v ->
        deliveries m0 v w' = 1 /\ forall rv xv, w_nodes w' !! v = Some (rv, xv) -> post v xv) /\
     (~ rtc (fun a b => a ∈ V /\ b ∈ G a) s v -> deliveries m0 v w' = 0)).
Proof.
  intros HP GO FR Hs Hw Hm Hacc Hto Hpath Hseq HH Hrun.
  destruct (flood_end s m m0 post w now r r' x GO FR Hs Hw Hm Hacc Hto Hpath Hseq ls w' HP HH Hrun)
    as [I HB].
  split; [done|]. split; [intros j Hj Hk; by apply (flood_progress s m0 post GO w' j now)|].
  intros Hq v _. split; [by apply flood_settled|]. intros Hr.
  pose proof (fi_log _ _ _ _ _ _ _ _ _ I v) as E. rewrite (awaiting_other m0 v _ Hq) in E.
  unfold deliveries. destruct (marked m0 w' v) eqn:Em; [|simpl in E; lia].
  destruct Hr. by apply (flood_done s m0 post w' v I Hq).
Qed.
End flood.
