(* ===== verification/MeshAnnounce.v ===== *)
(** * Announcements reach every node

    The handler of a node (node.go) behind the routers of a flood: every record
    a node publishes is installed at every node it is connected to. *)
From S2P Require Import Prelude GoStd MeshTopology MeshMessage MeshRouter MeshControl MeshNode MeshNetwork MeshFloodInv MeshFloodThms.

Section announce.
Context {R : MapRange} {SE : SortEdges}.
Context (app : Message -> option merr).
Notation handler := (handleMessage app).

(** ** What nodes publish

    A node never publishes two records under one revision. *)
Context (pubM : MemberRecord -> Prop) (pubL : LinkStateAdvertisement -> Prop).

Record published_ok : Prop := {
  po_member a : pubM a ->
    bool_decide (TrimSpace (mr_NodeID a) = "") = false /\ mr_Revision a <> 0 /\ mr_LeaseMillis a <> 0;
  po_link a : pubL a ->
    bool_decide (TrimSpace (ls_NodeID a) = "") = false /\ ls_Revision a <> 0 /\ ls_LeaseMillis a <> 0;
  po_member_once a b : pubM a -> pubM b -> mr_NodeID a = mr_NodeID b ->
    mr_Revision a = mr_Revision b -> a = b;
  po_link_once a b : pubL a -> pubL b -> ls_NodeID a = ls_NodeID b ->
    ls_Revision a = ls_Revision b -> a = b;
}.

(** Records a node stores: its own, or published ones. *)
Record stores_published (v : string) (n : Node) : Prop := {
  sp_local : tp_localID (nd_topology n) = v;
  sp_members id st : tp_members (nd_topology n) !! id = Some st ->
    if ms_local st then id = v else pubM (ms_record st) /\ mr_NodeID (ms_record st) = id;
  sp_links id st : tp_lsas (nd_topology n) !! id = Some st ->
    if lst_local st then id = v else pubL (lst_record st) /\ ls_NodeID (lst_record st) = id;
}.

Definition announces (m : Message) : Prop :=
  (mg_Type m = TypeMemberAnnounce -> exists a, pl_MemberRecord (mg_payload m) = Some a /\ pubM a) /\
  (mg_Type m = TypeLinkState -> exists a, pl_LinkState (mg_payload m) = Some a /\ pubL a).

(** [v] has the link state of another node, in this revision or a later one. *)
Definition has_link_state (record : LinkStateAdvertisement) (v : string) (n : Node) : Prop :=
  v = ls_NodeID record \/
  exists st, tp_lsas (nd_topology n) !! ls_NodeID record = Some st /\
    ls_Revision record <= ls_Revision (lst_record st) /\
    (ls_Revision (lst_record st) = ls_Revision record -> lst_record st = record).

Context (PO : published_ok).

(** ** Applying a published record *)
Lemma linkStatesEqual_refl a : linkStatesEqual a a = true.
Proof.
  unfold linkStatesEqual. rewrite !bool_decide_true, !Z.eqb_refl by done. by destruct (ls_TransitAllowed a).
Qed.
Lemma memberRecordsEqual_refl a : memberRecordsEqual a a = true.
Proof. unfold memberRecordsEqual. by rewrite !bool_decide_true, !Z.eqb_refl by done. Qed.

(** The two outcomes of applying a published link state. *)
Lemma apply_link_cases v n record now :
  stores_published v n -> pubL record ->
  (ApplyLinkState record now now (nd_topology n) = (nd_topology n, Ok false) /\
   has_link_state record v n) \/
  exists st changed,
    ls_NodeID record <> v /\
    lst_record st = record /\ lst_local st = false /\
    (forall old, tp_lsas (nd_topology n) !! ls_NodeID record = Some old ->
       ls_Revision (lst_record old) <= ls_Revision record) /\
    let t := set_lsas (<[ls_NodeID record := st]> (tp_lsas (nd_topology n))) (nd_topology n) in
    ApplyLinkState record now now (nd_topology n) = (if changed : bool then recomputeLocked t else t, Ok changed).
Proof.
  intros [El _ Sl] Hp. destruct (po_link PO _ Hp) as (Hb & Hr & Hl). unfold ApplyLinkState.
  rewrite Hb, (proj2 (Z.eqb_neq _ _) Hr), (proj2 (Z.eqb_neq _ _) Hl). cbn [orb].
  destruct (bool_decide (ls_NodeID record = tp_localID (nd_topology n))) eqn:Eid.
  { apply bool_decide_eq_true in Eid. left. split; [done|]. left. congruence. }
  apply bool_decide_eq_false in Eid. rewrite El in Eid.
  destruct (tp_lsas (nd_topology n) !! ls_NodeID record) as [old|] eqn:Eo.
  2:{ right. eexists (mkLinkState record _ false), true. split_and!; by eauto. }
  specialize (Sl _ _ Eo). destruct (lst_local old); [done|]. destruct Sl as [Po Eold].
  destruct (ls_Revision record <? ls_Revision (lst_record old)) eqn:Elt.
  { left. split; [done|]. right. exists old. split; [done|]. split; [lia|]. intros ?. lia. }
  assert (Eq : ls_Revision record = ls_Revision (lst_record old) -> lst_record old = record).
  { intros E. by apply (po_link_once PO). }
  destruct (ls_Revision record =? ls_Revision (lst_record old)) eqn:Ee.
  - apply Z.eqb_eq in Ee. rewrite (Eq Ee), linkStatesEqual_refl. cbn [negb andb orb].
    right. eexists (mkLinkState record _ false), _. split_and!; [done..| |].
    + intros old' [= <-]. lia.
    + rewrite orb_false_r. done.
  - cbn [andb]. right. eexists (mkLinkState record _ false), _. split_and!; [done..| |done].
    intros old' [= <-]. lia.
Qed.

(** Applying any member record touches only its own entry. *)
Lemma apply_member_effect record now t t' res :
  ApplyMember record now now t = (t', res) ->
  tp_localID t' = tp_localID t /\ tp_lsas t' = tp_lsas t /\
  forall id st, tp_members t' !! id = Some st ->
    tp_members t !! id = Some st \/ (id = mr_NodeID record /\ ms_record st = record /\ ms_local st = false).
Proof.
  unfold ApplyMember. intros E.
  assert (D : forall x, tp_members x = tp_members t -> tp_localID x = tp_localID t -> tp_lsas x = tp_lsas t ->
    tp_localID x = tp_localID t /\ tp_lsas x = tp_lsas t /\ forall id st, tp_members x !! id = Some st ->
    tp_members t !! id = Some st \/ (id = mr_NodeID record /\ ms_record st = record /\ ms_local st = false)).
  { intros x E1 E2 E3. rewrite E1. auto. }
  assert (K : forall (b : bool) e x, x = set_members (<[mr_NodeID record := mkMemberState record e false]>
      (tp_members t)) t ->
    let y := if b then recomputeLocked x else x in
    tp_localID y = tp_localID t /\ tp_lsas y = tp_lsas t /\ forall id st, tp_members y !! id = Some st ->
    tp_members t !! id = Some st \/ (id = mr_NodeID record /\ ms_record st = record /\ ms_local st = false)).
  { intros b e x -> y. assert (Ey : tp_members y = <[mr_NodeID record := mkMemberState record e false]> (tp_members t))
      by (unfold y; by destruct b).
    split; [unfold y; by destruct b|]. split; [unfold y; by destruct b|]. intros id st. rewrite Ey.
    rewrite lookup_insert_Some. intros [[<- <-]|[_ ?]]; auto. }
  repeat case_match; simplify_eq; first [by apply D | by eapply K | by eapply (K true)
    | by eapply (K false)].
Qed.

Lemma syncRoutes_core t r : same_core r (syncRoutes t r) /\ rr_seen (syncRoutes t r) = rr_seen r.
Proof. unfold syncRoutes, replaceRouteTables. by destruct (rr_closed r). Qed.

Lemma announce_core now m r n r' n' e :
  handler now m (r, n) = ((r', n'), e) -> same_core r r' /\ rr_seen r' = rr_seen r.
Proof.
  unfold handleMessage. intros E. repeat case_match; simplify_eq; try done;
    apply syncRoutes_core.
Qed.

Lemma recompute_fields (b : bool) t :
  tp_localID (if b then recomputeLocked t else t) = tp_localID t /\
  tp_members (if b then recomputeLocked t else t) = tp_members t /\
  tp_lsas (if b then recomputeLocked t else t) = tp_lsas t.
Proof. by destruct b. Qed.

(** What handling an announcement does to a node that stores published
    records. *)
Lemma announce_effect v now m r n r' n' e :
  stores_published v n -> announces m -> handler now m (r, n) = ((r', n'), e) ->
  stores_published v n' /\ (forall record, has_link_state record v n -> has_link_state record v n').
Proof.
  intros Sp [Am Al] E. unfold handleMessage in E.
  destruct (bool_decide (mg_Type m = TypeMemberAnnounce)) eqn:E1.
  - apply bool_decide_eq_true in E1. destruct (Am E1) as (a & Ea & Ha). rewrite Ea in E.
    destruct (ApplyMember a now now (nd_topology n)) as [t res] eqn:EA.
    destruct (apply_member_effect _ _ _ _ _ EA) as (F1 & F2 & F3).
    destruct res as [changed|err]; [|injection E as <- <- <-; by split].
    injection E as <- <- <-. split; [|unfold has_link_state; simpl; by rewrite F2].
    destruct Sp as [S1 S2 S3]. split; simpl; [congruence| |by rewrite F2].
    intros id st [Hst|(-> & <- & Hl)]%F3; [by apply S2|]. by rewrite Hl.
  - destruct (bool_decide (mg_Type m = TypeLinkState)) eqn:E2; [|injection E as <- <- <-; by split].
    apply bool_decide_eq_true in E2. destruct (Al E2) as (a & Ea & Ha). rewrite Ea in E.
    destruct (apply_link_cases v n a now Sp Ha) as [[EA _]|(st & changed & Hne & Hr & Hl & Hold & EA)];
      cbv zeta in EA; rewrite EA in E; injection E as <- <- <-.
    + split; [by destruct Sp|done].
    + destruct (recompute_fields changed (set_lsas (<[ls_NodeID a := st]> (tp_lsas (nd_topology n)))
        (nd_topology n))) as (F1 & F2 & F3).
      destruct Sp as [S1 S2 S3]. split.
      * split; simpl; [by rewrite F1|by rewrite F2|]. rewrite F3. simpl. intros id st'.
        rewrite lookup_insert_Some. intros [[<- <-]|[_ Hst]]; [|by apply S3]. by rewrite Hl, Hr.
      * intros record [?|(st' & Hst & Hle & Heq)]; [by left|right]. simpl. rewrite F3. simpl.
        destruct (decide (ls_NodeID record = ls_NodeID a)) as [Eq|Ne].
        -- exists st. rewrite Eq, lookup_insert_eq. split; [done|]. rewrite Eq in Hst.
           pose proof (Hold _ Hst) as Ho. rewrite Hr. split; [lia|]. intros Er.
           specialize (S3 _ _ Hst). destruct (lst_local st'); [done|]. destruct S3 as [P3 N3].
           rewrite <-Heq by lia. symmetry. by apply (po_link_once PO); [| |done|lia].
        -- exists st'. by rewrite lookup_insert_ne.
Qed.

#[export] Instance announce_handler : Handler handler stores_published announces.
Proof.
  split.
  - apply announce_core.
  - intros now m r n r' n' e Hs Ha E. by apply (announce_effect _ _ _ _ _ _ _ _ Hs Ha E).
  - intros m m' Et Ep [H1 H2]. split; rewrite <-Et, <-Ep; done.
Qed.

Lemma announce_handles m0 record :
  mg_Type m0 = TypeLinkState -> pl_LinkState (mg_payload m0) = Some record -> pubL record ->
  handles handler stores_published announces m0 (has_link_state record).
Proof.
  intros Et Ep Hp. split.
  - intros now m r n Sp Et' Ep'. unfold handleMessage.
    rewrite Et', Et, bool_decide_false, bool_decide_true, Ep', Ep by done.
    destruct (apply_link_cases _ n record now Sp Hp) as [[EA Hh]|(st & changed & Hne & Hr & Hl & Hold & EA)];
      cbv zeta in EA; rewrite EA; simpl; [by split; [|destruct Hh; [by left|by right]]|].
    split; [done|]. right. exists st.
    destruct changed; simpl; rewrite lookup_insert_eq, Hr; (split; [done|split; [lia|done]]).
  - intros now m r n Sp Ha Hh. destruct (handler now m (r, n)) as [[r' n'] e] eqn:E.
    by apply (announce_effect _ _ _ _ _ _ _ _ Sp Ha E).
Qed.

(** ** The theorem *)
Context {J : MessageCodec} {L : MessageCodecLaws J} {LR : MapRangeLaws R}.
Context (up : string -> string -> bool) (window : Time -> Prop) (V : gset string) (G : string -> gset string).

Lemma link_state_origin m record :
  Validate m = None -> mg_Type m = TypeLinkState -> pl_LinkState (mg_payload m) = Some record ->
  ls_NodeID record = mg_From m.
Proof.
  unfold Validate. rewrite !err_then_None. intros (_ & _ & _ & _ & _ & Hv) Et Ep.
  unfold validate_payload in Hv. rewrite Et in Hv. rewrite !bool_decide_false in Hv by done.
  cbn [orb] in Hv. rewrite bool_decide_true, Ep in Hv by done.
  rewrite err_then_None in Hv. destruct Hv as [_ Hv]. unfold validateLinkState in Hv.
  rewrite err_then_None, fails_None, negb_false_iff in Hv. destruct Hv as [Hv _].
  by apply bool_decide_eq_true in Hv.
Qed.

(** C22: Announced link states are installed everywhere.  Take a network of at most
    64 open nodes whose neighbor relation is symmetric and does not change during
    the run and whose sessions always deliver; let every clock reading of the run
    fall in a window shorter than the [seenTTL] of every router, let no stored
    record expire meanwhile, and let every node publish only well-formed records,
    one per revision.  Let a node announce its link state with a hop limit of at
    least the number of other nodes (a smaller one can lose nodes, as
    [hop_limit_loses_nodes] shows).  Once no copy of the announcement is left, every
    other node connected to the announcing one stores that link state, or a later
    revision of it, whatever was announced by others meanwhile. *)
Theorem announcements_installed s m m0 record w now r r' x ls w' :
  graph_ok up V G -> flood_ready stores_published announces window V G m0 w ->
  w_nodes w !! s = Some (r, x) -> window now -> message_sane announces m ->
  send_accept now m r = (r', Accepted m0) ->
  mg_To m0 = BroadcastNodeID -> mg_PathVector m0 = [s] -> mg_Seq m0 <> 0 ->
  Z.of_nat (size V) <= mg_HopLimit m0 + 1 ->
  mg_Type m0 = TypeLinkState -> pl_LinkState (mg_payload m0) = Some record ->
  world_run handler up window (message_sane announces) (after_send s r' x m0 w) ls w' ->
  (forall j, j ∈ w_jobs w' -> job_key j <> seen_key m0) ->
  forall v, v <> s -> rtc (fun a b => a ∈ V /\ b ∈ G a) s v -> v ∈ V ->
  exists rv nv st, w_nodes w' !! v = Some (rv, nv) /\
    tp_lsas (nd_topology nv) !! s = Some st /\
    ls_Revision record <= ls_Revision (lst_record st) /\
    (ls_Revision (lst_record st) = ls_Revision record -> lst_record st = record).
Proof.
  intros GO FR Hs Hw Hm Hacc Hto Hpath Hseq HH Et Ep Hrun Hq v Hne Hr Hv.
  pose proof (origin_flooded up _ _ window V G s m m0 w now r r' x GO FR Hs Hm Hacc Hto Hpath Hseq) as F.
  destruct (origin_good handler up _ _ window V G s m m0 w now r r' x GO FR Hs Hm Hacc) as [_ Hg].
  destruct (Hg Et) as (record' & Ep' & Hp). rewrite Ep in Ep'. injection Ep' as <-.
  destruct (flood_end handler up _ _ window V G s m m0 (has_link_state record) w now r r' x GO FR Hs Hw Hm
    Hacc Hto Hpath Hseq ls w' (announce_handles m0 record Et Ep Hp) HH Hrun) as [I _].
  destruct (flood_settled _ _ _ _ _ s m0 _ w' v I Hq Hr) as [_ Hpost].
  destruct (proj1 (fi_dom _ _ _ _ _ _ _ _ _ I v) Hv) as [[rv nv] Hnv].
  pose proof (link_state_origin m0 record (fl_valid _ _ F) Et Ep) as Es. rewrite (fl_from _ _ F) in Es.
  destruct (Hpost rv nv Hnv) as [->|(st & Hst & Hrev)]; [done|]. rewrite Es in Hst.
  by exists rv, nv, st.
Qed.
End announce.
