(* ===== verification/MeshFloodRuns.v ===== *)
(** * A flood in a concrete mesh

    Three nodes in a line, [a] - [b] - [c]; [a] announces its link state. *)
From stdpp Require Import sorting.
From S2P Require Import Prelude GoStd MeshTopology MeshMessage MeshRouter MeshRuns MeshControl MeshNode MeshNetwork MeshFloodInv MeshFloodThms MeshAnnounce.

(** ** A codec *)
Ltac by_tuple f g := refine (inj_countable' f g _); by intros [].

#[export] Instance Heartbeat_eq_dec : EqDecision Heartbeat. Proof. solve_decision. Defined.
#[export] Instance Heartbeat_countable : Countable Heartbeat.
Proof.
  by_tuple (fun h => (hb_ControlState h, hb_DataState h, hb_LastPathID h))
    (fun '(a, b, c) => mkHeartbeat a b c).
Defined.
#[export] Instance PathHealth_eq_dec : EqDecision PathHealth. Proof. solve_decision. Defined.
#[export] Instance PathHealth_countable : Countable PathHealth.
Proof.
  by_tuple (fun h => (ph_PathID h, ph_Strategy h, ph_ConnectionType h, ph_Endpoint h,
      ph_LastHandshake h, ph_TransportTxPackets h, ph_TransportRxPackets h, ph_LastError h))
    (fun '(a, b, c, d, e, f, g, h) => mkPathHealth a b c d e f g h).
Defined.
#[export] Instance EndpointUpdate_eq_dec : EqDecision EndpointUpdate. Proof. solve_decision. Defined.
#[export] Instance EndpointUpdate_countable : Countable EndpointUpdate.
Proof.
  by_tuple (fun h => (eu_PathID h, eu_Endpoint h, eu_Reason h)) (fun '(a, b, c) => mkEndpointUpdate a b c).
Defined.
#[export] Instance CapabilityRefresh_eq_dec : EqDecision CapabilityRefresh. Proof. solve_decision. Defined.
#[export] Instance CapabilityRefresh_countable : Countable CapabilityRefresh.
Proof. by_tuple (fun h => (cr_Strategies h, cr_Reason h)) (fun '(a, b) => mkCapabilityRefresh a b). Defined.
#[export] Instance ReICERequest_eq_dec : EqDecision ReICERequest. Proof. solve_decision. Defined.
#[export] Instance ReICERequest_countable : Countable ReICERequest.
Proof. by_tuple (fun h => (ri_PathID h, ri_Reason h)) (fun '(a, b) => mkReICERequest a b). Defined.
#[export] Instance SessionSignal_eq_dec : EqDecision SessionSignal. Proof. solve_decision. Defined.
#[export] Instance SessionSignal_countable : Countable SessionSignal.
Proof.
  by_tuple (fun h => (sg_Kind h, sg_Namespace h, sg_Type h, sg_Payload h))
    (fun '(a, b, c, d) => mkSessionSignal a b c d).
Defined.
#[export] Instance ControlEcho_eq_dec : EqDecision ControlEcho. Proof. solve_decision. Defined.
#[export] Instance ControlEcho_countable : Countable ControlEcho.
Proof.
  by_tuple (fun h => (ce_ID h, ce_Payload h, ce_RequestPath h)) (fun '(a, b, c) => mkControlEcho a b c).
Defined.
#[export] Instance MemberRecord_eq_dec : EqDecision MemberRecord. Proof. solve_decision. Defined.
#[export] Instance MemberRecord_countable : Countable MemberRecord.
Proof.
  by_tuple (fun h => (mr_NodeID h, mr_Revision h, mr_LeaseMillis h, mr_VirtualIP h, mr_Endpoints h,
      mr_Capabilities h, mr_NATProfile h))
    (fun '(a, b, c, d, e, f, g) => mkMember a b c d e f g).
Defined.
#[export] Instance LinkStateLink_countable : Countable LinkStateLink.
Proof.
  by_tuple (fun h => (lk_PeerID h, lk_RTTMillis h, lk_ControlOnly h)) (fun '(a, b, c) => mkLink a b c).
Defined.
#[export] Instance LSA_eq_dec : EqDecision LinkStateAdvertisement. Proof. solve_decision. Defined.
#[export] Instance LSA_countable : Countable LinkStateAdvertisement.
Proof.
  by_tuple (fun h => (ls_NodeID h, ls_Revision h, ls_LeaseMillis h, ls_TransitAllowed h, ls_Links h))
    (fun '(a, b, c, d, e) => mkLSA a b c d e).
Defined.
#[export] Instance Payloads_eq_dec : EqDecision Payloads. Proof. solve_decision. Defined.
#[export] Instance Payloads_countable : Countable Payloads.
Proof.
  by_tuple (fun h => (pl_Heartbeat h, pl_PathHealth h, pl_EndpointUpdate h, pl_CapabilityRefresh h,
      pl_ReICERequest h, pl_SessionSignal h, pl_ControlEcho h, pl_MemberRecord h, pl_LinkState h))
    (fun '(a, b, c, d, e, f, g, h, i) => mkPayloads a b c d e f g h i).
Defined.
#[export] Instance Message_eq_dec : EqDecision Message. Proof. solve_decision. Defined.
#[export] Instance Message_countable : Countable Message.
Proof.
  by_tuple (fun h => (mg_Version h, mg_Type h, mg_From h, mg_To h, mg_Seq h, mg_SentAt h, mg_HopLimit h,
      mg_PathVector h, mg_payload h))
    (fun '(a, b, c, d, e, f, g, h, i) => mkMessage a b c d e f g h i).
Defined.

#[export] Instance demo_codec : MessageCodec := {
  json_Marshal m := Ok (any_marshal m);
  json_Unmarshal raw := match any_decode raw with Some m => Ok m | None => Err (MText "json") end;
}.
#[export] Instance demo_codec_laws : MessageCodecLaws demo_codec.
Proof.
  intros m _. exists (any_marshal m). split; [done|].
  unfold json_Unmarshal, demo_codec. by rewrite any_decode_marshal.
Qed.

Definition link_le (a b : LinkStateLink) : Prop := String.ltb (lk_PeerID b) (lk_PeerID a) = false.
#[export] Instance link_le_dec a b : Decision (link_le a b).
Proof. unfold link_le. apply _. Defined.
#[export] Instance merge_links : SortLinks := merge_sort link_le.

(** ** The nodes *)
Definition no_app (m : Message) : option merr := None.
Definition line_up (u v : string) : bool := true.

Definition demo_node (id : string) (peers : list string) : Router * Node :=
  match NewNode (mkNodeConfig id "" [] [] "" 0 0 0 false) 1 1 with
  | Ok st =>
      fold_left (fun st peer =>
        let r := (addNeighborWithAdvertisement peer 0 (Some NeighborKindPacket) true true st.1).1 in
        (handleNeighborChange no_app 0 (fun _ => true) at0 peer (r, st.2)).1.1) peers st
  | Err _ => (mkRouter "" 0 0 false ∅ ∅ ∅ false ∅,
              mkNode "" (mesh_start "") (mesh_member "") ∅ ∅ 0 0 0 false 0 false false)
  end.

Definition demo_a := Eval vm_compute in demo_node "a" ["b"].
Definition demo_b := Eval vm_compute in demo_node "b" ["a"; "c"].
Definition demo_c := Eval vm_compute in demo_node "c" ["b"].

(** ** A scheduler

    The first job that is not delayed moves, or the first one if all are. *)
Fixpoint pick (delayed : job -> bool) (jobs : list job) : option (list job * job * list job) :=
  match jobs with
  | [] => None
  | j :: jobs' =>
      if delayed j then
        match pick delayed jobs' with
        | Some (before, j', after) => Some (j :: before, j', after)
        | None => None
        end
      else Some ([], j, jobs')
  end.
Definition pick_any (delayed : job -> bool) (jobs : list job) : option (list job * job * list job) :=
  match pick delayed jobs, jobs with
  | Some x, _ => Some x
  | None, j :: jobs' => Some ([], j, jobs')
  | None, [] => None
  end.

Lemma pick_split delayed jobs before j after :
  pick delayed jobs = Some (before, j, after) -> jobs = before ++ j :: after.
Proof.
  revert before. induction jobs as [|j' jobs IH]; intros before; simpl; [done|].
  destruct (delayed j'); [|by intros [= <- <- <-]].
  destruct (pick delayed jobs) as [[[b x] c]|]; [|done]. intros [= <- <- <-]. simpl. f_equal. by apply IH.
Qed.
Lemma pick_any_split delayed jobs before j after :
  pick_any delayed jobs = Some (before, j, after) -> jobs = before ++ j :: after.
Proof.
  unfold pick_any. destruct (pick delayed jobs) as [[[b x] c]|] eqn:E.
  - intros [= <- <- <-]. by apply pick_split in E.
  - destruct jobs; [done|]. by intros [= <- <- <-].
Qed.

Section play.
Context {S : Type} (onMessage : Time -> Message -> Router * S -> (Router * S) * option merr).
Context (up : string -> string -> bool) (delayed : job -> bool).

Fixpoint play (fuel : nat) (now : Time) (w : world S) : list (option job) * world S :=
  match fuel, pick_any delayed (w_jobs w) with
  | Datatypes.S fuel', Some (before, j, after) =>
      match w_nodes w !! job_node j with
      | Some st =>
          let '(st', js, events) := job_step onMessage up 0 now j st in
          let w' := mkWorld (<[job_node j := st']> (w_nodes w)) (before ++ js ++ after)
            (w_log w ++ (pair (job_node j) <$> events)) in
          let '(ls, w'') := play fuel' now w' in (Some j :: ls, w'')
      | None => ([], w)
      end
  | _, _ => ([], w)
  end.

Lemma world_run_cons window good w l w' ls w'' :
  world_step onMessage up window good w l w' -> world_run onMessage up window good w' ls w'' ->
  world_run onMessage up window good w (l :: ls) w''.
Proof.
  intros Hs. induction 1 as [|w1 l1 w2 ls w3 Hr IH H1].
  - apply (wr_step _ _ _ _ w l w []); [constructor|done].
  - apply (wr_step _ _ _ _ w l1 w2 (l :: ls)); [by apply IH|done].
Qed.

Lemma play_runs fuel (now : Time) (window : Time -> Prop) good w ls w' :
  window now -> play fuel now w = (ls, w') -> world_run onMessage up window good w ls w'.
Proof.
  intros Hw. revert w ls. induction fuel as [|fuel IH]; intros w ls; simpl; [intros [= <- <-]; constructor|].
  destruct (pick_any delayed (w_jobs w)) as [[[before j] after]|] eqn:Ej; [|intros [= <- <-]; constructor].
  destruct (w_nodes w !! job_node j) as [st|] eqn:En; [|intros [= <- <-]; constructor].
  destruct (job_step onMessage up 0 now j st) as [[st' js] events] eqn:Es.
  destruct (play fuel now _) as [ls1 w1] eqn:Ep. intros [= <- <-].
  eapply world_run_cons; [|by apply IH]. by apply (ws_job _ _ _ _ w 0 now j before after st); [apply pick_any_split in Ej|..].
Qed.
End play.

Definition line : world Node := mkWorld {[ "a" := demo_a; "b" := demo_b; "c" := demo_c ]} [] [].
Definition line_ids : gset string := {["a"; "b"; "c"]}.
Definition line_graph (u : string) : gset string :=
  if bool_decide (u = "b") then {["a"; "c"]} else {["b"]}.

Definition announcement : Message :=
  NewLinkState at0 "a" (localLinkStateLocked demo_a.2) (nd_hopLimit demo_a.2).
Definition accepted : Router * acceptance := send_accept at0 announcement demo_a.1.
Definition flooded_message : Message :=
  Eval vm_compute in match accepted.2 with Accepted m => m | _ => announcement end.
Definition record_a : LinkStateAdvertisement := Eval vm_compute in localLinkStateLocked demo_a.2.

Definition line_sent : world Node := after_send "a" accepted.1 demo_a.2 flooded_message line.
Definition line_end : list (option job) * world Node :=
  play (handleMessage no_app) line_up (fun _ => false) 40 at0 line_sent.

Example line_quiet : length line_end.1 = 13%nat /\ w_jobs line_end.2 = [].
Proof. vm_compute. split; reflexivity. Qed.

(** ** The hypotheses of the theorems *)
Definition only_time (t : Time) : Prop := t = at0.
Definition pub_members (a : MemberRecord) : Prop := False.
Definition pub_links (a : LinkStateAdvertisement) : Prop := a = record_a.

Lemma line_published : published_ok pub_members pub_links.
Proof.
  split; try done.
  - intros a ->. vm_compute. done.
  - intros a b -> ->. done.
Qed.

Lemma line_graph_ok : graph_ok line_up line_ids line_graph.
Proof.
  split.
  - intros u. unfold line_ids. rewrite !elem_of_union, !elem_of_singleton.
    intros [[->| ->]| ->]; vm_compute; done.
  - intros u v. unfold line_ids, line_graph. rewrite !elem_of_union, !elem_of_singleton.
    intros [[->| ->]| ->]; simpl; set_solver.
  - vm_compute. lia.
Qed.

Lemma line_nodes n st :
  w_nodes line !! n = Some st ->
  (n = "a" /\ st = demo_a) \/ (n = "b" /\ st = demo_b) \/ (n = "c" /\ st = demo_c).
Proof.
  simpl. generalize demo_a demo_b demo_c. intros da db dc.
  rewrite !lookup_insert_Some, lookup_singleton_Some. naive_solver.
Qed.

(** What [node_shape] asks of a node that stores only its own records, as a
    computation. *)
Definition shape_check (u : string) (st : Router * Node) : bool :=
  bool_decide (rr_nodeID st.1 = u) && negb (rr_closed st.1)
  && bool_decide (dom (rr_neighbors st.1) = line_graph u) && (0 <? rr_seenTTL st.1)
  && bool_decide (tp_localID (nd_topology st.2) = u)
  && bool_decide (dom (tp_members (nd_topology st.2)) = {[u]})
  && bool_decide (dom (tp_lsas (nd_topology st.2)) = {[u]})
  && forallb (fun kv => ms_local kv.2) (map_to_list (tp_members (nd_topology st.2)))
  && forallb (fun kv => lst_local kv.2) (map_to_list (tp_lsas (nd_topology st.2)))
  && bool_decide (rr_seen st.1 !! seen_key flooded_message = None).

Lemma shape_check_ok u r x :
  shape_check u (r, x) = true ->
  node_shape (stores_published pub_members pub_links) only_time line_graph u r x /\
  rr_seen r !! seen_key flooded_message = None.
Proof.
  unfold shape_check. rewrite !andb_true_iff, !bool_decide_eq_true, !forallb_forall, negb_true_iff, Z.ltb_lt.
  cbn [fst snd]. intros (((((((((H1 & H2) & H3) & H4) & H5) & H6) & H7) & H8) & H9) & H10).
  split; [|done]. split; [done|done|done| |].
  - intros t1 t2 -> ->. unfold After, TAdd. simpl. lia.
  - split; [done| |].
    + intros id st Hst. specialize (H8 (id, st) (proj1 (list_elem_of_In _ _) (proj2 (elem_of_map_to_list _ _ _) Hst))).
      simpl in H8. rewrite H8. apply (elem_of_dom_2 (D := gset string)) in Hst. set_solver.
    + intros id st Hst. specialize (H9 (id, st) (proj1 (list_elem_of_In _ _) (proj2 (elem_of_map_to_list _ _ _) Hst))).
      simpl in H9. rewrite H9. apply (elem_of_dom_2 (D := gset string)) in Hst. set_solver.
Qed.

Lemma line_shapes u r x :
  w_nodes line !! u = Some (r, x) -> shape_check u (r, x) = true.
Proof.
  intros [[-> E]|[[-> E]|[-> E]]]%line_nodes; rewrite E; vm_compute; reflexivity.
Qed.

Lemma line_ready :
  flood_ready (stores_published pub_members pub_links) (announces pub_members pub_links) only_time
    line_ids line_graph flooded_message line.
Proof.
  split.
  - intros u. unfold line_ids. rewrite !elem_of_union, !elem_of_singleton. split.
    + intros [[->| ->]| ->]; eexists; vm_compute; reflexivity.
    + intros [st Hst]. apply line_nodes in Hst. naive_solver.
  - intros u r x Hu. by apply shape_check_ok, line_shapes.
  - by intros j ?%elem_of_nil.
  - intros u r x Hu. by apply (shape_check_ok u r x), line_shapes.
  - done.
Qed.

Lemma announcement_sane : message_sane (announces pub_members pub_links) announcement.
Proof.
  split; [vm_compute; reflexivity|]. split; [done|]. intros _.
  exists record_a. split; [vm_compute; reflexivity|done].
Qed.

Lemma line_accepted : send_accept at0 announcement demo_a.1 = (accepted.1, Accepted flooded_message).
Proof. vm_compute. reflexivity. Qed.

Lemma line_run :
  world_run (handleMessage no_app) line_up only_time (message_sane (announces pub_members pub_links))
    line_sent line_end.1 line_end.2.
Proof. apply (play_runs _ _ (fun _ => false) 40 at0); [done|]. unfold line_end. by destruct (play _ _ _ _ _ _). Qed.

Lemma line_connected v : v ∈ line_ids -> rtc (fun a b => a ∈ line_ids /\ b ∈ line_graph a) "a" v.
Proof.
  assert (Eab : "a" ∈ line_ids /\ "b" ∈ line_graph "a") by (split; by apply (bool_decide_unpack _)).
  assert (Ebc : "b" ∈ line_ids /\ "c" ∈ line_graph "b") by (split; by apply (bool_decide_unpack _)).
  unfold line_ids. rewrite !elem_of_union, !elem_of_singleton. intros [[->| ->]| ->].
  - apply rtc_refl.
  - by apply rtc_once.
  - by apply (rtc_l _ _ "b"), rtc_once.
Qed.

Lemma line_settled j : j ∈ w_jobs line_end.2 -> job_key j <> seen_key flooded_message.
Proof. rewrite (proj2 line_quiet). by intros ?%elem_of_nil. Qed.

Lemma record_a_sent : pl_LinkState (mg_payload flooded_message) = Some record_a.
Proof. vm_compute. reflexivity. Qed.

(** All three nodes deliver the announcement once; 13 steps, 17 allowed. *)
Lemma flood_reaches_everyone_witness :
  flood_bound line = 17 /\ lsum (own_step flooded_message) line_end.1 = 13 /\
  forall v, v ∈ line_ids -> deliveries flooded_message v line_end.2 = 1.
Proof.
  split; [vm_compute; reflexivity|]. split; [vm_compute; reflexivity|]. intros v Hv.
  apply (flood_reaches_everyone (handleMessage no_app) line_up
    (stores_published pub_members pub_links) (announces pub_members pub_links)
    (HD := announce_handler no_app pub_members pub_links line_published)
    only_time line_ids line_graph "a" announcement flooded_message
    (has_link_state record_a) line at0 demo_a.1 accepted.1 demo_a.2 line_end.1 line_end.2
    (announce_handles no_app pub_members pub_links line_published flooded_message record_a
       eq_refl record_a_sent eq_refl)
    line_graph_ok line_ready eq_refl eq_refl announcement_sane line_accepted eq_refl eq_refl
    ltac:(discriminate) ltac:(vm_compute; discriminate) line_run).
  - exact line_settled.
  - exact Hv.
  - apply line_connected, Hv.
Defined.

Lemma announcements_installed_witness :
  exists rv nv st, w_nodes line_end.2 !! "c" = Some (rv, nv) /\
    tp_lsas (nd_topology nv) !! "a" = Some st /\
    ls_Revision record_a <= ls_Revision (lst_record st) /\
    (ls_Revision (lst_record st) = ls_Revision record_a -> lst_record st = record_a).
Proof.
  apply (announcements_installed no_app pub_members pub_links line_published line_up only_time
    line_ids line_graph "a" announcement flooded_message record_a line at0 demo_a.1 accepted.1
    demo_a.2 line_end.1 line_end.2 line_graph_ok line_ready eq_refl eq_refl announcement_sane
    line_accepted eq_refl eq_refl ltac:(discriminate) ltac:(vm_compute; discriminate) eq_refl
    record_a_sent line_run line_settled "c"); [discriminate| |].
  - apply line_connected. by apply (bool_decide_unpack _).
  - by apply (bool_decide_unpack _).
Defined.

(** ** A hop limit that is too small

    [a] reaches [d] over [b] in two hops, and [b] also over [c].  When the copy
    over [c] is the faster one, [b] uses up its hop limit of two, and the direct
    copy comes too late. *)
Definition kite : world Node :=
  mkWorld {[ "a" := demo_node "a" ["b"; "c"]; "b" := demo_node "b" ["a"; "c"; "d"];
             "c" := demo_node "c" ["a"; "b"]; "d" := demo_node "d" ["b"] ]} [] [].

Definition kite_announcement : Message :=
  NewLinkState at0 "a" (localLinkStateLocked (demo_node "a" ["b"; "c"]).2) 2.
Definition kite_accepted : Router * acceptance :=
  send_accept at0 kite_announcement (demo_node "a" ["b"; "c"]).1.
Definition kite_message : Message :=
  match kite_accepted.2 with Accepted m => m | _ => kite_announcement end.

(** The direct copy from [a] to [b] is slow. *)
Definition slow (j : job) : bool :=
  match j with JPacket "b" "a" _ => true | _ => false end.
Definition kite_end : list (option job) * world Node :=
  play (handleMessage no_app) line_up slow 60 at0
    (after_send "a" kite_accepted.1 (demo_node "a" ["b"; "c"]).2 kite_message kite).

(** Hop limit and duplicate suppression together lose nodes within the limit: in
    this run a broadcast with a hop limit of two ends without having been
    delivered at [d], which is two hops from the origin, although every send
    succeeded.  So the hop limit of a flood must be as large as the number of
    the other nodes, not as the diameter of the network. *)
Theorem hop_limit_loses_nodes :
  kite_accepted.2 = Accepted kite_message /\ mg_HopLimit kite_message = 2 /\
  world_run (handleMessage no_app) line_up only_time (fun _ => True)
    (after_send "a" kite_accepted.1 (demo_node "a" ["b"; "c"]).2 kite_message kite)
    kite_end.1 kite_end.2 /\
  w_jobs kite_end.2 = [] /\
  (fun v => deliveries kite_message v kite_end.2) <$> ["a"; "b"; "c"; "d"] = [1; 1; 1; 0].
Proof.
  split; [vm_compute; reflexivity|]. split; [vm_compute; reflexivity|]. split.
  { apply (play_runs _ _ slow 60 at0); [done|]. unfold kite_end. by destruct (play _ _ _ _ _ _). }
  split; vm_compute; reflexivity.
Qed.
