(* ===== verification/SelectionWire.v ===== *)
(** * The selection messages (src/pkg/session/selection_wire.go,
    src/pkg/solver/capability.go, src/pkg/rendezvous/proto/envelope.go)

    Two peers that want a connection agree on the strategy to try.  This file
    holds the messages they exchange, their validation, the strict JSON
    decoder, the digests and the joint value both sides compute.  JSON itself
    is the class [SelectionJSON]: a byte string is a stream of tokens, and a
    value survives encoding and decoding. *)
From Stdlib Require Import Ascii.
From stdpp Require Import sorting pretty.
From S2P Require Import Prelude GoStd LivenessWire.
Open Scope go_scope.

Definition selectionVersion : string := "winkyou.legacy-selection/1".
Definition selectionProposalType : string := "selection_proposal".
Definition selectionConfirmType : string := "selection_confirm".
Definition MsgTypeCapability : string := "capability".
Definition selectionEnvelopeLimit : Z := 8192.
Definition selectionPayloadLimit : Z := 4096.
Definition selectionStrategyLimit : Z := 8.
Definition selectionFeatureLimit : Z := 32.
Definition selectionTokenLimit : Z := 64.
Definition selectionReceiveLimit : Z := 16.

(** ** Errors *)
Inductive ctx_err := ContextDeadline | ContextCancel.

(** An error is a [selectionError] or comes from elsewhere; the latter may wrap
    an error of a context. *)
Inductive sel_err :=
| SelectionError (class : string) (cause : option ctx_err)
| ForeignError (wraps : option ctx_err).

#[export] Instance ctx_err_eq_dec : EqDecision ctx_err. Proof. solve_decision. Defined.
#[export] Instance sel_err_eq_dec : EqDecision sel_err. Proof. solve_decision. Defined.

Definition selectionFailure (class : string) : sel_err := SelectionError class None.
Definition selectionDeadline (class : string) : sel_err :=
  SelectionError class (Some ContextDeadline).
Definition IsSelectionError (e : sel_err) : bool :=
  match e with SelectionError _ _ => true | ForeignError _ => false end.

(** [errors.Is(err, context.DeadlineExceeded)], [errors.Is(err, context.Canceled)]. *)
Definition errors_is (e : sel_err) (target : ctx_err) : bool :=
  match e with
  | SelectionError _ cause => bool_decide (cause = Some target)
  | ForeignError wraps => bool_decide (wraps = Some target)
  end.

(** ** Messages *)
Record Capability := mkCapability {
  cp_Strategies : list string;
  cp_Features : list string;
}.

Record selectionCapability := mkSelectionCapability {
  sc_Strategies : list string;
  sc_Features : list string;
  sc_Version : string;
  sc_Epoch : string;
}.

Definition domainWire (c : selectionCapability) : Capability :=
  mkCapability (sc_Strategies c) (sc_Features c).

Record selectionBinding := mkBinding {
  bd_Version : string;
  bd_FromEpoch : string;
  bd_ToEpoch : string;
  bd_Ordinal : string;
  bd_SenderCapability : string;
  bd_ReceiverCapability : string;
  bd_Previous : string;
  bd_PreviousClosed : bool;
}.

Record selectionProposal := mkProposal {
  pr_binding : selectionBinding;
  pr_Strategies : list string;
}.

Record selectionConfirmation := mkConfirmation {
  cf_binding : selectionBinding;
  cf_Strategy : string;
  cf_Digest : string;
}.

Record SessionEnvelope := mkEnvelope {
  en_SessionID : string;
  en_FromNode : string;
  en_ToNode : string;
  en_MsgType : string;
  en_Seq : Z;
  en_Ack : Z;
  en_Payload : list Z;
}.

Record selectionJoint := mkJoint {
  jt_Version : string;
  jt_SessionID : string;
  jt_InitiatorNode : string;
  jt_ResponderNode : string;
  jt_InitiatorCapability : Capability;
  jt_ResponderCapability : Capability;
  jt_Initiator : selectionProposal;
  jt_Responder : selectionProposal;
  jt_Order : list string;
}.

#[export] Instance Capability_eq_dec : EqDecision Capability. Proof. solve_decision. Defined.
#[export] Instance selectionCapability_eq_dec : EqDecision selectionCapability.
Proof. solve_decision. Defined.
#[export] Instance selectionBinding_eq_dec : EqDecision selectionBinding.
Proof. solve_decision. Defined.
#[export] Instance selectionProposal_eq_dec : EqDecision selectionProposal.
Proof. solve_decision. Defined.
#[export] Instance selectionConfirmation_eq_dec : EqDecision selectionConfirmation.
Proof. solve_decision. Defined.
#[export] Instance SessionEnvelope_eq_dec : EqDecision SessionEnvelope.
Proof. solve_decision. Defined.
#[export] Instance selectionJoint_eq_dec : EqDecision selectionJoint.
Proof. solve_decision. Defined.

(** ** Validation *)
Definition identifier_byte (ch : Z) : bool :=
  in_range 97 122 ch || in_range 65 90 ch || in_range 48 57 ch || (ch =? 95) || (ch =? 45)
  || (ch =? 46) || (ch =? 47) || (ch =? 58).

Definition selectionIdentifier (value : string) (limit : Z) : bool :=
  if (slen value =? 0) || (limit <? slen value) then false
  else forallb identifier_byte (string_bytes value).

Definition selectionHex (value : string) (size : Z) : bool :=
  if negb (slen value =? size * 2) then false
  else forallb (fun ch => in_range 48 57 ch || in_range 97 102 ch) (string_bytes value).

(** The loop of [selectionList] with its [seen] map. *)
Fixpoint distinct_identifiers (seen : gset string) (values : list string) : bool :=
  match values with
  | [] => true
  | value :: values' =>
      if negb (selectionIdentifier value selectionTokenLimit) || bool_decide (value ∈ seen)
      then false else distinct_identifiers ({[value]} ∪ seen) values'
  end.

Definition selectionList (values : list string) (limit : Z) (nonempty : bool) : bool :=
  if (limit <? Z.of_nat (length values)) || nonempty && (Z.of_nat (length values) =? 0)
  then false else distinct_identifiers ∅ values.

Definition validateSelectionCapability (value : selectionCapability) : option sel_err :=
  if negb (bool_decide (sc_Version value = selectionVersion))
  then Some (selectionFailure "selection_unsupported")
  else if negb (selectionHex (sc_Epoch value) 16)
          || negb (selectionList (sc_Strategies value) selectionStrategyLimit true)
          || negb (selectionList (sc_Features value) selectionFeatureLimit false)
  then Some (selectionFailure "selection_invalid") else None.

(** [strconv.FormatUint(n, 10)] and [strconv.ParseUint(s, 10, 64)]. *)
Definition FormatUint (n : Z) : string := pretty (Z.to_N n).

Fixpoint parse_digits (acc : Z) (bs : list Z) : option Z :=
  match bs with
  | [] => Some acc
  | b :: bs' =>
      if in_range 48 57 b then
        let n := acc * 10 + (b - 48) in
        if u64_max <? n then None else parse_digits n bs'
      else None
  end.
Definition ParseUint (s : string) : option Z :=
  match string_bytes s with [] => None | bs => parse_digits 0 bs end.

Definition selectionOrdinal (value : string) : res sel_err Z :=
  match ParseUint value with
  | Some ordinal =>
      if bool_decide (FormatUint ordinal = value) then Ok ordinal
      else Err (selectionFailure "selection_invalid")
  | None => Err (selectionFailure "selection_invalid")
  end.

Definition validateSelectionBinding (value : selectionBinding) : option sel_err :=
  if negb (bool_decide (bd_Version value = selectionVersion))
     || negb (selectionHex (bd_FromEpoch value) 16) || negb (selectionHex (bd_ToEpoch value) 16)
     || negb (selectionHex (bd_SenderCapability value) 32)
     || negb (selectionHex (bd_ReceiverCapability value) 32)
     || negb (bd_PreviousClosed value)
  then Some (selectionFailure "selection_invalid")
  else match selectionOrdinal (bd_Ordinal value) with
       | Err e => Some e
       | Ok ordinal =>
           if (ordinal =? 0) && negb (bool_decide (bd_Previous value = ""%string))
              || (0 <? ordinal) && negb (selectionHex (bd_Previous value) 32)
           then Some (selectionFailure "selection_invalid") else None
       end.

(** ** Capabilities *)

(** [normalizeCapabilityValues] of capability.go. *)
Fixpoint drop_repeated (seen : gset string) (values : list string) : list string :=
  match values with
  | [] => []
  | value :: values' =>
      if bool_decide (value = ""%string) || bool_decide (value ∈ seen) then drop_repeated seen values'
      else value :: drop_repeated ({[value]} ∪ seen) values'
  end.
Definition normalizeCapabilityValues (values : list string) : list string :=
  merge_sort String.le (drop_repeated ∅ values).

Definition NormalizeCapability (c : Capability) : Capability :=
  mkCapability (normalizeCapabilityValues (cp_Strategies c))
    (normalizeCapabilityValues (cp_Features c)).

(** [capabilityToWire(capabilityFromWire(c))]; the two types have the same fields. *)
Definition normalizeCapability (c : Capability) : Capability :=
  NormalizeCapability (NormalizeCapability c).

(** ** JSON *)
Inductive json_token :=
| TokDelim (c : Ascii.ascii)
| TokString (s : string)
| TokScalar
| TokError.

Class SelectionJSON := {
  json_tokens : list Z -> list json_token;
  marshal_selectionCapability : selectionCapability -> list Z;
  marshal_proposal : selectionProposal -> list Z;
  marshal_confirmation : selectionConfirmation -> list Z;
  marshal_envelope : SessionEnvelope -> list Z;
  marshal_capability : Capability -> list Z;
  marshal_joint : selectionJoint -> list Z;
  (* a decoder that refuses unknown fields *)
  strict_selectionCapability : list Z -> option selectionCapability;
  strict_proposal : list Z -> option selectionProposal;
  strict_confirmation : list Z -> option selectionConfirmation;
  strict_envelope : list Z -> option SessionEnvelope;
  unmarshal_envelope : list Z -> option SessionEnvelope;
}.

(** *** The scan of [decodeSelectionJSONBound]

    [check.More] on the rest of the stream; [check.Token] is the head of the
    list, and an empty list is the end of the input. *)
Definition json_more (ts : list json_token) : bool :=
  match ts with
  | [] => false
  | TokDelim c :: _ => negb (bool_decide (c = "]"%char) || bool_decide (c = "}"%char))
  | _ => true
  end.

(** The closing [check.Token] of an object or an array. *)
Definition json_close (ts : list json_token) : option (list json_token) :=
  match ts with [] | TokError :: _ => None | _ :: ts' => Some ts' end.

Fixpoint scan (fuel : nat) (depth : Z) (ts : list json_token) : option (list json_token) :=
  match fuel with
  | O => None
  | S fuel' =>
      if 4 <? depth then None
      else match ts with
           | [] | TokError :: _ => None
           | TokDelim delim :: ts' =>
               if bool_decide (delim = "{"%char) then scan_object fuel' depth ∅ ts' ≫= json_close
               else if bool_decide (delim = "["%char) then scan_array fuel' depth ts' ≫= json_close
               else None
           | _ :: ts' => Some ts'
           end
  end
with scan_object (fuel : nat) (depth : Z) (seen : gset string) (ts : list json_token)
    : option (list json_token) :=
  match fuel with
  | O => None
  | S fuel' =>
      if json_more ts then
        match ts with
        | TokString key :: ts' =>
            if bool_decide (key ∈ seen) then None
            else scan fuel' (depth + 1) ts' ≫= scan_object fuel' depth ({[key]} ∪ seen)
        | _ => None
        end
      else Some ts
  end
with scan_array (fuel : nat) (depth : Z) (ts : list json_token) : option (list json_token) :=
  match fuel with
  | O => None
  | S fuel' =>
      if json_more ts then scan fuel' (depth + 1) ts ≫= scan_array fuel' depth else Some ts
  end.

(** Two units for every token: [scan_enough]. *)
Definition scan_fuel (ts : list json_token) : nat := S (S (2 * length ts)).

Section wire.
Context {J : SelectionJSON} {H : Sha256}.

Definition decodeSelectionJSONBound {A} (data : list Z) (decode : list Z -> option A) (limit : Z)
    : res sel_err A :=
  if (blen data =? 0) || (limit <? blen data) then Err (selectionFailure "selection_invalid")
  else match scan (scan_fuel (json_tokens data)) 0 (json_tokens data) with
       | Some [] =>
           match decode data with
           | Some v => Ok v
           | None => Err (selectionFailure "selection_invalid")
           end
       | _ => Err (selectionFailure "selection_invalid")
       end.
Definition decodeSelectionJSON {A} (data : list Z) (decode : list Z -> option A) : res sel_err A :=
  decodeSelectionJSONBound data decode selectionPayloadLimit.

(** ** Digests *)
Definition selectionHash (encoded : list Z) : string :=
  bytes_string (hex_encode (sum256 encoded)).
Definition selectionCapabilityDigest (value : Capability) : string :=
  selectionHash (marshal_capability (normalizeCapability value)).
Definition joint_digest (joint : selectionJoint) : string := selectionHash (marshal_joint joint).

Definition equalProposal (a b : option selectionProposal) : bool :=
  match a, b with
  | Some a, Some b =>
      bool_decide (pr_binding a = pr_binding b) && bool_decide (pr_Strategies a = pr_Strategies b)
  | _, _ => false
  end.

(** ** The envelope *)
Definition MarshalEnvelope (e : SessionEnvelope) : option (list Z) :=
  if bool_decide (en_SessionID e = ""%string) then None
  else if bool_decide (en_MsgType e = ""%string) then None
  else Some (marshal_envelope e).

Definition UnmarshalEnvelope (data : list Z) : option SessionEnvelope :=
  match unmarshal_envelope data with
  | None => None
  | Some e =>
      if bool_decide (en_SessionID e = ""%string) then None
      else if bool_decide (en_MsgType e = ""%string) then None
      else Some e
  end.
End wire.

(** ** The joint value *)
Record Config := mkConfig {
  cfg_SessionID : string;
  cfg_LocalNodeID : string;
  cfg_PeerID : string;
  cfg_Initiator : bool;
  cfg_RunTimeout : Z;
  cfg_CapabilityWaitTimeout : Z;
}.

Definition contains (values : list string) (value : string) : bool := bool_decide (value ∈ values).

Definition jointSelection (cfg : Config) (localCap remoteCap : Capability)
    (local remote : selectionProposal) : res sel_err selectionJoint :=
  let '(initiatorNode, responderNode) :=
    if cfg_Initiator cfg then (cfg_LocalNodeID cfg, cfg_PeerID cfg)
    else (cfg_PeerID cfg, cfg_LocalNodeID cfg) in
  let '(initiatorCap, responderCap) :=
    if cfg_Initiator cfg then (normalizeCapability localCap, normalizeCapability remoteCap)
    else (normalizeCapability remoteCap, normalizeCapability localCap) in
  let '(initiator, responder) := if cfg_Initiator cfg then (local, remote) else (remote, local) in
  let order := List.filter (contains (pr_Strategies responder)) (pr_Strategies initiator) in
  if Z.of_nat (length order) =? 0 then Err (selectionFailure "selection_conflict")
  else Ok (mkJoint selectionVersion (cfg_SessionID cfg) initiatorNode responderNode
             initiatorCap responderCap initiator responder order).
