(* ===== verification/SelectionWireThms.v ===== *)
(** * The selection messages: the scan, the digests, the round trips *)
From Stdlib Require Import Ascii.
From stdpp Require Import sorting pretty.
From S2P Require Import Prelude GoStd LivenessWire SelectionWire.
Open Scope go_scope.

(** ** JSON values

    The reference for the scan: a value, its tokens, and the values the strict
    decoder is meant to accept, those without a repeated key in any object and
    with at most four levels of nesting. *)
Inductive json_tree :=
| JString (s : string)
| JScalar
| JArray (l : list json_tree)
| JObject (l : list (string * json_tree)).

Section json_tree_ind'.
Context (P : json_tree -> Prop).
Hypothesis PString : forall s, P (JString s).
Hypothesis PScalar : P JScalar.
Hypothesis PArray : forall l, Forall P l -> P (JArray l).
Hypothesis PObject : forall l, Forall P l.*2 -> P (JObject l).
Fixpoint json_tree_ind' (t : json_tree) : P t :=
  match t with
  | JString s => PString s
  | JScalar => PScalar
  | JArray l =>
      PArray l ((fix go l : Forall P l := match l with
        | [] => Forall_nil_2 P
        | t :: l' => Forall_cons_2 P t l' (json_tree_ind' t) (go l') end) l)
  | JObject l =>
      PObject l ((fix go (l : list (string * json_tree)) : Forall P l.*2 := match l with
        | [] => Forall_nil_2 P
        | kt :: l' => Forall_cons_2 P kt.2 l'.*2 (json_tree_ind' kt.2) (go l') end) l)
  end.
End json_tree_ind'.

Fixpoint tree_tokens (t : json_tree) : list json_token :=
  match t with
  | JString s => [TokString s]
  | JScalar => [TokScalar]
  | JArray l => TokDelim "[" :: concat (map tree_tokens l) ++ [TokDelim "]"]
  | JObject l =>
      TokDelim "{" :: concat (map (fun kt => TokString kt.1 :: tree_tokens kt.2) l) ++ [TokDelim "}"]
  end.

Fixpoint tree_accepted (depth : Z) (t : json_tree) : bool :=
  (depth <=? 4) &&
  match t with
  | JString _ | JScalar => true
  | JArray l => forallb (tree_accepted (depth + 1)) l
  | JObject l =>
      bool_decide (NoDup l.*1) && forallb (fun kt => tree_accepted (depth + 1) kt.2) l
  end.

Definition array_tokens (l : list json_tree) : list json_token := concat (map tree_tokens l).
Definition object_tokens (l : list (string * json_tree)) : list json_token :=
  concat (map (fun kt => TokString kt.1 :: tree_tokens kt.2) l).

Lemma json_more_tree t ts : json_more (tree_tokens t ++ ts) = true.
Proof. by destruct t. Qed.

Lemma tree_tokens_nonempty t : (1 <= length (tree_tokens t))%nat.
Proof. destruct t; simpl; lia. Qed.

Lemma scan_array_exact l depth rest fuel :
  Forall (fun t => forall depth rest fuel, (2 * length (tree_tokens t) <= fuel)%nat ->
     scan fuel depth (tree_tokens t ++ rest) = if tree_accepted depth t then Some rest else None) l ->
  json_more rest = false -> (2 * length (array_tokens l) < fuel)%nat ->
  scan_array fuel depth (array_tokens l ++ rest)
  = if forallb (tree_accepted (depth + 1)) l then Some rest else None.
Proof.
  intros Hl Hrest. revert fuel. induction Hl as [|t l Ht _ IH]; intros [|fuel] Hf; try (simpl in Hf; lia).
  - simpl. by rewrite Hrest.
  - unfold array_tokens in *. cbn [map concat forallb] in *. rewrite length_app in Hf.
    pose proof (tree_tokens_nonempty t). rewrite <-app_assoc. simpl.
    rewrite json_more_tree, Ht by lia. destruct (tree_accepted _ t); simpl; [|done].
    apply IH. lia.
Qed.

Lemma scan_object_exact l depth rest fuel seen :
  Forall (fun t => forall depth rest fuel, (2 * length (tree_tokens t) <= fuel)%nat ->
     scan fuel depth (tree_tokens t ++ rest) = if tree_accepted depth t then Some rest else None) l.*2 ->
  json_more rest = false -> (2 * length (object_tokens l) < fuel)%nat ->
  scan_object fuel depth seen (object_tokens l ++ rest)
  = if bool_decide (NoDup l.*1 /\ Forall (.∉ seen) l.*1)
       && forallb (fun kt => tree_accepted (depth + 1) kt.2) l then Some rest else None.
Proof.
  intros Hl Hrest. revert fuel seen.
  induction l as [|[k t] l IH]; intros [|fuel] seen Hf; try (simpl in Hf; lia).
  - rewrite bool_decide_true by (split; constructor). simpl. by rewrite Hrest.
  - apply Forall_cons in Hl as [Ht Hl]. unfold object_tokens in *.
    cbn [map concat forallb fst snd fmap list_fmap] in *. rewrite length_app in Hf. simpl in Hf.
    pose proof (tree_tokens_nonempty t). rewrite <-app_assoc. simpl.
    case_bool_decide as Hk.
    { rewrite bool_decide_false; [done|]. intros [_ ?%Forall_cons]. naive_solver. }
    rewrite Ht by lia. destruct (tree_accepted _ t); simpl; [|by rewrite andb_false_r].
    rewrite IH by (done || lia).
    erewrite bool_decide_ext; [reflexivity|]. rewrite NoDup_cons, Forall_cons. split.
    + intros [Hd Hs]. rewrite Forall_forall in Hs. split; [split; [|done]|split; [done|]].
      * intros Hin. specialize (Hs k Hin). set_solver.
      * apply Forall_forall. intros x Hx. specialize (Hs x Hx). set_solver.
    + intros [[Hn Hd] [_ Hs]]. split; [done|]. rewrite Forall_forall in Hs |- *.
      intros x Hx. specialize (Hs x Hx). assert (x <> k) by congruence. set_solver.
Qed.

(** The scan accepts exactly the values of the reference, and stops right after
    the value. *)
Lemma scan_exact t depth rest fuel :
  (2 * length (tree_tokens t) <= fuel)%nat ->
  scan fuel depth (tree_tokens t ++ rest) = if tree_accepted depth t then Some rest else None.
Proof.
  revert depth rest fuel.
  induction t as [s| |l IH|l IH] using json_tree_ind'; intros depth rest fuel Hf;
    (destruct fuel as [|fuel]; [simpl in Hf; lia|]); simpl;
    destruct (4 <? depth) eqn:Ed;
    (replace (depth <=? 4) with (negb (4 <? depth)) by (rewrite Z.leb_antisym; done));
    rewrite Ed; try done.
  - rewrite <-app_assoc. fold (array_tokens l). simpl in Hf. rewrite length_app in Hf. simpl in Hf.
    fold (array_tokens l) in Hf. rewrite scan_array_exact; [|done|done|lia]. simpl.
    by destruct (forallb _ l).
  - rewrite <-app_assoc. fold (object_tokens l). simpl in Hf. rewrite length_app in Hf. simpl in Hf.
    fold (object_tokens l) in Hf. rewrite scan_object_exact; [|done|done|lia]. simpl.
    replace (bool_decide (NoDup l.*1 /\ Forall (.∉ (∅ : gset string)) l.*1)) with (bool_decide (NoDup l.*1)).
    2:{ apply bool_decide_ext. split; [|naive_solver]. intros. split; [done|].
        apply Forall_forall. set_solver. }
    by destruct (bool_decide _ && forallb _ l).
Qed.

(** ** The fuel of the scan is enough *)
Lemma json_close_length ts r : json_close ts = Some r -> (length r < length ts)%nat.
Proof. destruct ts as [|[] ts]; simpl; intros; simplify_eq; lia. Qed.

Lemma scan_consumes fuel :
  (forall depth ts r, scan fuel depth ts = Some r -> (length r < length ts)%nat) /\
  (forall depth seen ts r, scan_object fuel depth seen ts = Some r -> (length r <= length ts)%nat) /\
  (forall depth ts r, scan_array fuel depth ts = Some r -> (length r <= length ts)%nat).
Proof.
  induction fuel as [|fuel (IH1 & IH2 & IH3)]; [done|]. split; [|split].
  - intros depth ts r E. simpl in E. destruct (4 <? depth); [done|].
    destruct ts as [|[] ts]; simplify_eq/=; try lia.
    case_bool_decide; [|case_bool_decide; [|done]];
      apply bind_Some in E as (ts' & E & C%json_close_length);
      [apply IH2 in E|apply IH3 in E]; lia.
  - intros depth seen ts r E. simpl in E. destruct (json_more ts); [|by simplify_eq].
    destruct ts as [|[] ts]; simplify_eq/=. case_bool_decide; [done|].
    apply bind_Some in E as (ts' & ?%IH1 & ?%IH2). lia.
  - intros depth ts r E. simpl in E. destruct (json_more ts); [|by simplify_eq].
    apply bind_Some in E as (ts' & ?%IH1 & ?%IH3). lia.
Qed.

Lemma scan_stable f1 :
  (forall f2 depth ts, (2 * length ts + 1 <= f1)%nat -> (2 * length ts + 1 <= f2)%nat ->
     scan f1 depth ts = scan f2 depth ts) /\
  (forall f2 depth seen ts, (2 * length ts + 2 <= f1)%nat -> (2 * length ts + 2 <= f2)%nat ->
     scan_object f1 depth seen ts = scan_object f2 depth seen ts) /\
  (forall f2 depth ts, (2 * length ts + 2 <= f1)%nat -> (2 * length ts + 2 <= f2)%nat ->
     scan_array f1 depth ts = scan_array f2 depth ts).
Proof.
  induction f1 as [|f1 (IH1 & IH2 & IH3)]; [split; [|split]; intros; lia|].
  split; [|split]; intros [|f2]; intros; try lia; simpl.
  - destruct (4 <? depth); [done|]. destruct ts as [|[] ts]; try done. simpl in *.
    by rewrite (IH2 f2), (IH3 f2) by lia.
  - destruct (json_more ts); [|done]. destruct ts as [|[] ts]; try done. simpl in *.
    case_bool_decide; [done|]. rewrite (IH1 f2) by lia.
    destruct (scan f2 _ ts) as [r|] eqn:E; [|done]. simpl.
    apply (proj1 (scan_consumes _)) in E. apply IH2; lia.
  - destruct (json_more ts); [|done]. rewrite (IH1 f2) by lia.
    destruct (scan f2 _ ts) as [r|] eqn:E; [|done]. simpl.
    apply (proj1 (scan_consumes _)) in E. apply IH3; lia.
Qed.

Lemma scan_enough fuel depth ts :
  (scan_fuel ts <= fuel)%nat -> scan fuel depth ts = scan (scan_fuel ts) depth ts.
Proof. intros. apply scan_stable; unfold scan_fuel in *; lia. Qed.

(** ** Numbers *)
Lemma string_bytes_cons c s :
  string_bytes (String c s) = Z.of_N (Ascii.N_of_ascii c) :: string_bytes s.
Proof. reflexivity. Qed.

Lemma pretty_char_digit x :
  (x < 10)%N -> Z.of_N (Ascii.N_of_ascii (pretty_N_char x)) = 48 + Z.of_N x.
Proof.
  intros Hx.
  assert (x = 0 \/ x = 1 \/ x = 2 \/ x = 3 \/ x = 4 \/ x = 5 \/ x = 6 \/ x = 7 \/ x = 8 \/ x = 9)%N
    as Hc by lia.
  destruct Hc as [->|[->|[->|[->|[->|[->|[->|[->|[->| ->]]]]]]]]]; reflexivity.
Qed.

Lemma parse_pretty_go x s :
  Z.of_N x <= u64_max ->
  parse_digits 0 (string_bytes (pretty_N_go x s)) = parse_digits (Z.of_N x) (string_bytes s).
Proof.
  revert s. induction (N.lt_wf_0 x) as [x _ IH]. intros s Hx.
  destruct (decide (x = 0)%N) as [->|Hne]; [done|].
  rewrite pretty_N_go_step by lia.
  rewrite IH; [|apply N.div_lt; lia|].
  2:{ pose proof (N.Div0.div_le_mono x x 10). pose proof (N.Div0.div_le_upper_bound x 10 x). lia. }
  rewrite string_bytes_cons, pretty_char_digit by (apply N.mod_lt; lia). cbn [parse_digits].
  unfold in_range. pose proof (N.mod_lt x 10 ltac:(lia)) as Hm.
  pose proof (N.div_mod x 10 ltac:(lia)) as Hd.
  generalize dependent (x `mod` 10)%N. generalize dependent (x `div` 10)%N. intros q r Hm Hd.
  rewrite (proj2 (Z.leb_le 48 _)), (proj2 (Z.leb_le _ 57)) by lia. cbn [andb]. cbv zeta.
  replace (Z.of_N q * 10 + (48 + Z.of_N r - 48)) with (Z.of_N x) by lia.
  by rewrite (proj2 (Z.ltb_ge _ _)) by lia.
Qed.

Lemma ParseUint_FormatUint n : 0 <= n <= u64_max -> ParseUint (FormatUint n) = Some n.
Proof.
  intros Hn. unfold FormatUint, pretty, pretty_N.
  case_decide as E; [by replace n with 0 by lia|].
  pose proof (parse_pretty_go (Z.to_N n) "" ltac:(lia)) as P. rewrite Z2N.id in P by lia.
  unfold ParseUint. destruct (string_bytes _) eqn:B; [|done]. simpl in P. simplify_eq; lia.
Qed.

Lemma FormatUint_inj m n : 0 <= m -> 0 <= n -> FormatUint m = FormatUint n -> m = n.
Proof. unfold FormatUint. intros ?? E%(inj pretty). lia. Qed.

Lemma selectionOrdinal_FormatUint n : 0 <= n <= u64_max -> selectionOrdinal (FormatUint n) = Ok n.
Proof.
  intros Hn. unfold selectionOrdinal. by rewrite ParseUint_FormatUint, bool_decide_true.
Qed.

Lemma parse_digits_range bs : forall acc n, 0 <= acc <= u64_max -> parse_digits acc bs = Some n -> 0 <= n <= u64_max.
Proof.
  induction bs as [|b bs IH]; intros acc n Ha E; simplify_eq/=; [done|].
  unfold in_range in E.
  destruct (48 <=? b) eqn:E1, (b <=? 57) eqn:E2; try done. simpl in E.
  destruct (u64_max <? _) eqn:E3; [done|]. apply IH in E; [done|].
  apply Z.leb_le in E1, E2. apply Z.ltb_ge in E3. lia.
Qed.

Lemma selectionOrdinal_Ok s n : selectionOrdinal s = Ok n -> s = FormatUint n /\ 0 <= n <= u64_max.
Proof.
  unfold selectionOrdinal, ParseUint. intros E. destruct (string_bytes s) as [|b bs]; [done|].
  destruct (parse_digits 0 _) as [m|] eqn:P; [|done]. case_bool_decide as F; simplify_eq.
  split; [done|]. by apply parse_digits_range in P.
Qed.

(** ** Capabilities *)
Lemma drop_repeated_elem seen values x :
  x ∈ drop_repeated seen values <-> x ∈ values /\ x <> ""%string /\ x ∉ seen.
Proof.
  revert seen. induction values as [|v values IH]; intros seen; simpl; [set_solver|].
  rewrite (elem_of_cons values). case_bool_decide as E1; [|case_bool_decide as E2]; simpl;
    rewrite ?elem_of_cons, IH, ?not_elem_of_union, ?not_elem_of_singleton; [naive_solver..|].
  destruct (decide (x = v)); naive_solver.
Qed.

Lemma drop_repeated_nodup seen values : NoDup (drop_repeated seen values).
Proof.
  revert seen. induction values as [|v values IH]; intros seen; simpl; [constructor|].
  case_bool_decide; [|case_bool_decide]; simpl; try done.
  constructor; [rewrite drop_repeated_elem; set_solver|done].
Qed.

Lemma drop_repeated_id seen values :
  NoDup values -> (forall x, x ∈ values -> x <> ""%string /\ x ∉ seen) -> drop_repeated seen values = values.
Proof.
  revert seen. induction values as [|v values IH]; intros seen Hd Hs; simpl; [done|].
  apply NoDup_cons in Hd as [Hv Hd]. destruct (Hs v) as [H1 H2]; [set_solver|].
  rewrite !bool_decide_false by done. simpl. f_equal. apply IH; [done|].
  intros x Hx. split; [set_solver|]. assert (x <> v) by congruence. set_solver.
Qed.

Lemma normalize_elem values x :
  x ∈ normalizeCapabilityValues values <-> x ∈ values /\ x <> ""%string.
Proof.
  unfold normalizeCapabilityValues. rewrite merge_sort_Permutation, drop_repeated_elem. set_solver.
Qed.

Lemma normalize_nodup values : NoDup (normalizeCapabilityValues values).
Proof. unfold normalizeCapabilityValues. rewrite merge_sort_Permutation. apply drop_repeated_nodup. Qed.

Lemma normalize_idem values :
  normalizeCapabilityValues (normalizeCapabilityValues values) = normalizeCapabilityValues values.
Proof.
  apply (Sorted_unique String.le); [apply (Sorted_merge_sort String.le)..|].
  unfold normalizeCapabilityValues at 1. rewrite merge_sort_Permutation, drop_repeated_id; [done|apply normalize_nodup|].
  intros x Hx%normalize_elem. set_solver.
Qed.

Lemma normalizeCapability_single c : normalizeCapability c = NormalizeCapability c.
Proof. unfold normalizeCapability, NormalizeCapability. simpl. by rewrite !normalize_idem. Qed.

Lemma normalizeCapability_idem c : normalizeCapability (normalizeCapability c) = normalizeCapability c.
Proof. rewrite !normalizeCapability_single. unfold NormalizeCapability. simpl. by rewrite !normalize_idem. Qed.

(** ** Texts

    The strings of the messages consist of letters, digits and five marks, which
    JSON writes as they are. *)
Definition text (s : string) : Prop := Forall (fun b => identifier_byte b = true) (string_bytes s).

Lemma text_check s : forallb identifier_byte (string_bytes s) = true -> text s.
Proof. intros E. apply Forall_forall. intros b Hb. rewrite forallb_forall in E. by apply E, list_elem_of_In. Qed.

Lemma identifier_text s limit : selectionIdentifier s limit = true -> text s.
Proof.
  unfold selectionIdentifier. intros E. destruct (_ || _); [done|by apply text_check].
Qed.

Lemma hex_text s size : selectionHex s size = true -> text s.
Proof.
  unfold selectionHex. intros E. destruct (negb _); [done|].
  apply Forall_forall. intros b Hb. rewrite forallb_forall in E.
  specialize (E b (proj1 (list_elem_of_In _ _) Hb)). unfold identifier_byte, in_range in *. lia.
Qed.

Lemma distinct_identifiers_spec seen values :
  distinct_identifiers seen values = true <->
  NoDup values /\ Forall (fun v => selectionIdentifier v selectionTokenLimit = true /\ v ∉ seen) values.
Proof.
  revert seen. induction values as [|v values IH]; intros seen; simpl.
  - split; [by repeat constructor|done].
  - rewrite NoDup_cons, Forall_cons. destruct (selectionIdentifier v _) eqn:Ev; simpl; [|naive_solver].
    case_bool_decide as Hs; [naive_solver|]. rewrite IH. rewrite !Forall_forall. split.
    + intros [Hd Hv]. split; [split|split]; [|done|done|].
      * intros Hin. destruct (Hv v Hin). set_solver.
      * intros x Hx. destruct (Hv x Hx). set_solver.
    + intros [[Hn Hd] [_ Hv]]. split; [done|]. intros x Hx. destruct (Hv x Hx).
      split; [done|]. assert (x <> v) by congruence. set_solver.
Qed.

Lemma selectionList_spec values limit nonempty :
  selectionList values limit nonempty = true <->
  Z.of_nat (length values) <= limit /\ (nonempty = true -> values <> []) /\
  NoDup values /\ Forall (fun v => selectionIdentifier v selectionTokenLimit = true) values.
Proof.
  unfold selectionList.
  assert (distinct_identifiers ∅ values = true <->
    NoDup values /\ Forall (fun v => selectionIdentifier v selectionTokenLimit = true) values) as D.
  { rewrite distinct_identifiers_spec, !Forall_forall. set_solver. }
  destruct (limit <? _) eqn:E1; [apply Z.ltb_lt in E1; split; [done|lia]|]. apply Z.ltb_ge in E1.
  destruct values, nonempty; simpl in *; rewrite ?D; naive_solver.
Qed.

(** ** The JSON of the messages

    An empty slice of these types is nil, which encodes as [null]. *)
Definition strings_tree (l : list string) : json_tree :=
  match l with [] => JScalar | _ => JArray (map JString l) end.

Definition capability_tree (c : selectionCapability) : json_tree :=
  JObject [("strategies", strings_tree (sc_Strategies c)); ("features", strings_tree (sc_Features c));
           ("selection_version", JString (sc_Version c)); ("selection_epoch", JString (sc_Epoch c))]%string.
Definition binding_members (b : selectionBinding) : list (string * json_tree) :=
  [("version", JString (bd_Version b)); ("from_epoch", JString (bd_FromEpoch b));
   ("to_epoch", JString (bd_ToEpoch b)); ("ordinal", JString (bd_Ordinal b));
   ("sender_capability", JString (bd_SenderCapability b));
   ("receiver_capability", JString (bd_ReceiverCapability b));
   ("previous", JString (bd_Previous b)); ("previous_closed", JScalar)]%string.
Definition proposal_tree (p : selectionProposal) : json_tree :=
  JObject (binding_members (pr_binding p) ++ [("strategies"%string, strings_tree (pr_Strategies p))]).
Definition confirmation_tree (c : selectionConfirmation) : json_tree :=
  JObject (binding_members (cf_binding c)
    ++ [("strategy", JString (cf_Strategy c)); ("digest", JString (cf_Digest c))]%string).
Definition envelope_tree (e : SessionEnvelope) (payload : json_tree) : json_tree :=
  JObject [("session_id", JString (en_SessionID e)); ("from_node", JString (en_FromNode e));
           ("to_node", JString (en_ToNode e)); ("msg_type", JString (en_MsgType e));
           ("seq", JScalar); ("ack", JScalar); ("payload", payload)]%string.

Definition capability_text (c : selectionCapability) : Prop :=
  Forall text (sc_Version c :: sc_Epoch c :: sc_Strategies c ++ sc_Features c).
Definition binding_text (b : selectionBinding) : Prop :=
  Forall text [bd_Version b; bd_FromEpoch b; bd_ToEpoch b; bd_Ordinal b; bd_SenderCapability b;
               bd_ReceiverCapability b; bd_Previous b].
Definition proposal_text (p : selectionProposal) : Prop :=
  binding_text (pr_binding p) /\ Forall text (pr_Strategies p).
Definition confirmation_text (c : selectionConfirmation) : Prop :=
  binding_text (cf_binding c) /\ text (cf_Strategy c) /\ text (cf_Digest c).
Definition envelope_text (e : SessionEnvelope) : Prop :=
  Forall text [en_SessionID e; en_FromNode e; en_ToNode e; en_MsgType e] /\
  0 <= en_Seq e <= u64_max /\ 0 <= en_Ack e <= u64_max.

(** The payloads of selection envelopes. *)
Inductive selection_payload {J : SelectionJSON} : list Z -> json_tree -> Prop :=
| payload_capability c : capability_text c ->
    selection_payload (marshal_selectionCapability c) (capability_tree c)
| payload_proposal p : proposal_text p -> selection_payload (marshal_proposal p) (proposal_tree p)
| payload_confirmation c : confirmation_text c ->
    selection_payload (marshal_confirmation c) (confirmation_tree c).

(** A value whose strings are texts encodes to the tokens of its fields and
    decodes to itself. *)
Definition encodes {A} {J : SelectionJSON} (marshal : A -> list Z) (strict : list Z -> option A)
    (a : A) (t : json_tree) : Prop :=
  strict (marshal a) = Some a /\ json_tokens (marshal a) = tree_tokens t /\ marshal a <> [].

Class SelectionJSONLaws (J : SelectionJSON) := {
  capability_json c : capability_text c ->
    encodes marshal_selectionCapability strict_selectionCapability c (capability_tree c);
  proposal_json p : proposal_text p -> encodes marshal_proposal strict_proposal p (proposal_tree p);
  confirmation_json c : confirmation_text c ->
    encodes marshal_confirmation strict_confirmation c (confirmation_tree c);
  envelope_json e t : envelope_text e -> selection_payload (en_Payload e) t ->
    encodes marshal_envelope strict_envelope e (envelope_tree e t) /\
    unmarshal_envelope (marshal_envelope e) = Some e;
}.

Lemma strings_tree_accepted depth l : depth + 1 <= 4 -> tree_accepted depth (strings_tree l) = true.
Proof.
  intros Hd. destruct l as [|s l]; simpl; rewrite (proj2 (Z.leb_le depth 4)), ?(proj2 (Z.leb_le (depth + 1) 4)) by lia;
    [done|]. simpl. apply forallb_forall. intros t (x & <- & _)%in_map_iff. simpl. lia.
Qed.

Lemma capability_tree_accepted depth c : depth + 2 <= 4 -> tree_accepted depth (capability_tree c) = true.
Proof.
  intros Hd. cbn [tree_accepted capability_tree forallb snd]. rewrite !strings_tree_accepted by lia.
  cbn [tree_accepted]. rewrite !(proj2 (Z.leb_le _ 4)) by lia. done.
Qed.

Lemma proposal_tree_accepted depth p : depth + 2 <= 4 -> tree_accepted depth (proposal_tree p) = true.
Proof.
  intros Hd. cbn [tree_accepted proposal_tree binding_members app forallb snd].
  rewrite !strings_tree_accepted by lia. cbn [tree_accepted]. rewrite !(proj2 (Z.leb_le _ 4)) by lia. done.
Qed.

Lemma confirmation_tree_accepted depth c : depth + 2 <= 4 -> tree_accepted depth (confirmation_tree c) = true.
Proof.
  intros Hd. cbn [tree_accepted confirmation_tree binding_members app forallb snd].
  rewrite !(proj2 (Z.leb_le _ 4)) by lia. done.
Qed.

Lemma envelope_tree_accepted e t : tree_accepted 1 t = true -> tree_accepted 0 (envelope_tree e t) = true.
Proof. intros Ht. cbn [tree_accepted envelope_tree forallb snd]. change (0 + 1) with 1. by rewrite Ht. Qed.

Section decode.
Context {J : SelectionJSON}.

(** The strict decoder accepts exactly what it promises: input within the
    size limit, no object with a repeated key, at most four levels of nesting,
    nothing after the value, and a value the typed decoder accepts. *)
Theorem strict_decode_exact {A} (data : list Z) (decode : list Z -> option A) limit t rest :
  json_tokens data = tree_tokens t ++ rest ->
  decodeSelectionJSONBound data decode limit
  = match decode data with
    | Some v =>
        if (0 <? blen data) && (blen data <=? limit) && tree_accepted 0 t && bool_decide (rest = [])
        then Ok v else Err (selectionFailure "selection_invalid")
    | None => Err (selectionFailure "selection_invalid")
    end.
Proof.
  intros Ht. unfold decodeSelectionJSONBound. rewrite Ht, scan_exact by (unfold scan_fuel; rewrite length_app; lia).
  pose proof (Zle_0_nat (length data)). unfold blen.
  destruct (Z.of_nat (length data) =? 0) eqn:E0.
  { apply Z.eqb_eq in E0. rewrite E0. by destruct (decode data). }
  apply Z.eqb_neq in E0. rewrite (proj2 (Z.ltb_lt 0 _)) by lia. rewrite Z.leb_antisym. simpl.
  destruct (limit <? _); simpl; [by destruct (decode data)|].
  destruct (tree_accepted 0 t); [|by destruct (decode data)].
  destruct rest; simpl; by destruct (decode data).
Qed.

Lemma decode_encoded {A} (marshal : A -> list Z) strict a t limit :
  encodes marshal strict a t -> tree_accepted 0 t = true -> blen (marshal a) <= limit ->
  decodeSelectionJSONBound (marshal a) strict limit = Ok a.
Proof.
  intros (Hs & Ht & Hn) Hok Hl. unfold decodeSelectionJSONBound.
  assert (blen (marshal a) <> 0) by (unfold blen; destruct (marshal a); [done|simpl; lia]).
  rewrite (proj2 (Z.eqb_neq _ _)), (proj2 (Z.ltb_ge _ _)) by lia. cbn [orb].
  rewrite Ht. pose proof (scan_exact t 0 [] (scan_fuel (tree_tokens t))) as E.
  rewrite app_nil_r, Hok in E. rewrite E by (unfold scan_fuel; lia). by rewrite Hs.
Qed.

Lemma selection_payload_accepted raw t : selection_payload raw t -> tree_accepted 1 t = true.
Proof.
  destruct 1; [apply capability_tree_accepted|apply proposal_tree_accepted|apply confirmation_tree_accepted]; lia.
Qed.
End decode.
