(* ===== verification/Selection.v ===== *)
(** * The selection agreement of a session
    (src/pkg/session/selection_agreement.go, with the parts of envelope.go,
    session.go and lifecycle.go it uses)

    The state of a session built by [NewConverging] and one function per
    critical section.  A clock reading, the error of a context and the result of
    a send are arguments.  A session of this kind always has an agreement, so
    the branches for [s.agreement == nil] do not occur. *)
From stdpp Require Import sorting pretty.
From S2P Require Import Prelude GoStd LivenessWire SelectionWire.
Open Scope go_scope.

Definition defaultCapabilityWaitTimeout : Z := 2 * Second.

Definition MessageKindEnvelope : string := "session_envelope".
Definition MessageKindStrategy : string := "strategy_message".
Definition envelopeNamespace : string := "rendezvous.v2".

(** ** Data *)

(** A [solver.Strategy] is a reference; [sy_factory] says whether it is a
    [solver.ExecutorFactory]. *)
Record Strategy := mkStrategy { sy_ref : nat; sy_Name : string; sy_factory : bool }.
#[export] Instance Strategy_eq_dec : EqDecision Strategy. Proof. solve_decision. Defined.

Record StrategyCandidate := mkCandidate {
  cd_Name : string;
  cd_Strategy : Strategy;
  cd_StrategyName : string;
  cd_Negotiated : bool;
  cd_Reason : string;
}.

Record Message := mkMessage {
  ms_Kind : string;
  ms_Namespace : string;
  ms_Type : string;
  ms_Payload : list Z;
  ms_ReceivedAt : Time;
}.

Record selectionInbox := mkInbox {
  ib_proposal : option selectionProposal;
  ib_confirm : option selectionConfirmation;
  ib_received : Z;
}.
Definition empty_inbox : selectionInbox := mkInbox None None 0.

Record selectionRound := mkRound {
  rd_ordinal : Z;
  rd_local : selectionProposal;
  rd_remote : selectionInbox;
  rd_digest : string;
  rd_strategy : string;
  rd_confirmed : bool;
  rd_entered : bool;
  rd_deadline : Time;
  rd_budgetStart : Time;
}.

Record selectionAgreement := mkAgreement {
  ag_changed : bool;              (* the buffered channel holds a token *)
  ag_cancelled : bool;            (* [a.ctx] is cancelled *)
  ag_local : selectionCapability;
  ag_remote : option selectionCapability;
  ag_current : option selectionRound;
  ag_future : selectionInbox;
  ag_err : option sel_err;
  ag_passStart : Time;
  ag_capabilityDeadline : Time;
  ag_capabilityReceivedAt : Time;
  ag_confirmDeadline : Time;
  ag_cleanupErr : option sel_err;
  ag_strategyClosed : bool;
  ag_previous : option Strategy;
  ag_activeExecutors : gset nat;
  ag_budgetUsed : bool;
}.

(** The fields of [Session.meta] the agreement writes. *)
Record Meta := mkMeta {
  mt_LocalCapability : Capability;
  mt_RemoteCapability : Capability;
  mt_CapabilityExchangeAt : Time;
  mt_LastEnvelopeType : string;
  mt_LastEnvelopeAt : Time;
  mt_SelectionDigest : string;
  mt_SelectionOrdinal : Z;
}.

Record Session := mkSession {
  s_cfg : Config;
  s_seq : Z;
  s_agreement : selectionAgreement;
  s_meta : Meta;
}.

(** ** Updates *)
Definition set_remote_inbox (ib : selectionInbox) (r : selectionRound) : selectionRound :=
  mkRound (rd_ordinal r) (rd_local r) ib (rd_digest r) (rd_strategy r) (rd_confirmed r)
    (rd_entered r) (rd_deadline r) (rd_budgetStart r).
Definition set_confirmed (digest strategy : string) (r : selectionRound) : selectionRound :=
  mkRound (rd_ordinal r) (rd_local r) (rd_remote r) digest strategy true
    (rd_entered r) (rd_deadline r) (rd_budgetStart r).
Definition set_entered (r : selectionRound) : selectionRound :=
  mkRound (rd_ordinal r) (rd_local r) (rd_remote r) (rd_digest r) (rd_strategy r) (rd_confirmed r)
    true (rd_deadline r) (rd_budgetStart r).

Definition set_agreement (a : selectionAgreement) (s : Session) : Session :=
  mkSession (s_cfg s) (s_seq s) a (s_meta s).
Definition set_meta (m : Meta) (s : Session) : Session :=
  mkSession (s_cfg s) (s_seq s) (s_agreement s) m.

Definition set_changed (b : bool) (a : selectionAgreement) : selectionAgreement :=
  mkAgreement b (ag_cancelled a) (ag_local a) (ag_remote a) (ag_current a) (ag_future a) (ag_err a)
    (ag_passStart a) (ag_capabilityDeadline a) (ag_capabilityReceivedAt a) (ag_confirmDeadline a)
    (ag_cleanupErr a) (ag_strategyClosed a) (ag_previous a) (ag_activeExecutors a) (ag_budgetUsed a).
Definition set_current (r : option selectionRound) (a : selectionAgreement) : selectionAgreement :=
  mkAgreement (ag_changed a) (ag_cancelled a) (ag_local a) (ag_remote a) r (ag_future a) (ag_err a)
    (ag_passStart a) (ag_capabilityDeadline a) (ag_capabilityReceivedAt a) (ag_confirmDeadline a)
    (ag_cleanupErr a) (ag_strategyClosed a) (ag_previous a) (ag_activeExecutors a) (ag_budgetUsed a).
Definition set_future (ib : selectionInbox) (a : selectionAgreement) : selectionAgreement :=
  mkAgreement (ag_changed a) (ag_cancelled a) (ag_local a) (ag_remote a) (ag_current a) ib (ag_err a)
    (ag_passStart a) (ag_capabilityDeadline a) (ag_capabilityReceivedAt a) (ag_confirmDeadline a)
    (ag_cleanupErr a) (ag_strategyClosed a) (ag_previous a) (ag_activeExecutors a) (ag_budgetUsed a).
Definition set_remote (c : selectionCapability) (a : selectionAgreement) : selectionAgreement :=
  mkAgreement (ag_changed a) (ag_cancelled a) (ag_local a) (Some c) (ag_current a) (ag_future a) (ag_err a)
    (ag_passStart a) (ag_capabilityDeadline a) (ag_capabilityReceivedAt a) (ag_confirmDeadline a)
    (ag_cleanupErr a) (ag_strategyClosed a) (ag_previous a) (ag_activeExecutors a) (ag_budgetUsed a).
Definition set_windows (passStart capabilityDeadline capabilityReceivedAt confirmDeadline : Time)
    (a : selectionAgreement) : selectionAgreement :=
  mkAgreement (ag_changed a) (ag_cancelled a) (ag_local a) (ag_remote a) (ag_current a) (ag_future a)
    (ag_err a) passStart capabilityDeadline capabilityReceivedAt confirmDeadline
    (ag_cleanupErr a) (ag_strategyClosed a) (ag_previous a) (ag_activeExecutors a) (ag_budgetUsed a).
Definition set_cleanup (cleanupErr : option sel_err) (closed : bool) (previous : option Strategy)
    (executors : gset nat) (a : selectionAgreement) : selectionAgreement :=
  mkAgreement (ag_changed a) (ag_cancelled a) (ag_local a) (ag_remote a) (ag_current a) (ag_future a)
    (ag_err a) (ag_passStart a) (ag_capabilityDeadline a) (ag_capabilityReceivedAt a)
    (ag_confirmDeadline a) cleanupErr closed previous executors (ag_budgetUsed a).
Definition set_budgetUsed (b : bool) (a : selectionAgreement) : selectionAgreement :=
  mkAgreement (ag_changed a) (ag_cancelled a) (ag_local a) (ag_remote a) (ag_current a) (ag_future a)
    (ag_err a) (ag_passStart a) (ag_capabilityDeadline a) (ag_capabilityReceivedAt a)
    (ag_confirmDeadline a) (ag_cleanupErr a) (ag_strategyClosed a) (ag_previous a)
    (ag_activeExecutors a) b.

(** ** Construction *)
Definition cloneCapability (c : Capability) : Capability := c.

(** [New]: the resolver and the sender are present. *)
Definition New (cfg : Config) (resolver : Capability) : option Meta :=
  if bool_decide (cfg_SessionID cfg = ""%string) || bool_decide (cfg_PeerID cfg = ""%string) then None
  else
    let localCapability := normalizeCapability resolver in
    if Z.of_nat (length (cp_Strategies localCapability)) =? 0 then None
    else Some (mkMeta localCapability (mkCapability [] []) time_zero "" time_zero "" 0).

(** [random] is the outcome of reading 16 random bytes. *)
Definition NewConverging (cfg : Config) (resolver : Capability) (random : option (list Z))
    : res sel_err Session :=
  if negb (selectionIdentifier (cfg_LocalNodeID cfg) 128)
     || negb (selectionIdentifier (cfg_PeerID cfg) 128)
     || negb (selectionIdentifier (cfg_SessionID cfg) 512)
     || bool_decide (cfg_LocalNodeID cfg = cfg_PeerID cfg)
     || negb (Bool.eqb (cfg_Initiator cfg) (String.ltb (cfg_LocalNodeID cfg) (cfg_PeerID cfg)))
     || (cfg_RunTimeout cfg <=? 0)
  then Err (selectionFailure "selection_invalid")
  else match New cfg resolver with
       | None => Err (ForeignError None)
       | Some meta =>
           match random with
           | None => Err (selectionFailure "selection_invalid")
           | Some epoch =>
               let capability := cloneCapability (mt_LocalCapability meta) in
               let local := mkSelectionCapability (cp_Strategies capability) (cp_Features capability)
                              selectionVersion (bytes_string (hex_encode epoch)) in
               check! validateSelectionCapability local in
               Ok (mkSession cfg 0
                     (mkAgreement false false local None None empty_inbox None time_zero time_zero
                        time_zero time_zero None true None ∅ false) meta)
           end
       end.

(** ** Stopping *)
Definition wake (a : selectionAgreement) : selectionAgreement := set_changed true a.

(** The error [stopLocked] records. *)
Definition terminal_error (err : sel_err) : sel_err :=
  if IsSelectionError err then err
  else if errors_is err ContextDeadline then selectionDeadline "selection_timeout"
  else if errors_is err ContextCancel then SelectionError "selection_closed" (Some ContextCancel)
  else selectionFailure "selection_closed".

Definition stopLocked (err : sel_err) (a : selectionAgreement) : selectionAgreement * sel_err :=
  match ag_err a with
  | Some e => (a, e)
  | None =>
      let err := terminal_error err in
      (mkAgreement true true (ag_local a) (ag_remote a)
         (set_remote_inbox empty_inbox <$> ag_current a) empty_inbox (Some err)
         (ag_passStart a) (ag_capabilityDeadline a) (ag_capabilityReceivedAt a)
         (ag_confirmDeadline a) (ag_cleanupErr a) (ag_strategyClosed a) (ag_previous a)
         (ag_activeExecutors a) (ag_budgetUsed a), err)
  end.

Definition stopSelection (err : sel_err) (s : Session) : Session * sel_err :=
  let '(a, e) := stopLocked err (s_agreement s) in (set_agreement a s, e).

(** A handler that stops the agreement and returns the error. *)
Definition stop_with (err : sel_err) (s : Session) : Session * option sel_err :=
  let '(s', e) := stopSelection err s in (s', Some e).

(** ** Windows *)
Definition executionTimeout (s : Session) : Z := cfg_RunTimeout (s_cfg s).
Definition capabilityWaitTimeout (s : Session) : Z :=
  if 0 <? cfg_CapabilityWaitTimeout (s_cfg s) then cfg_CapabilityWaitTimeout (s_cfg s)
  else defaultCapabilityWaitTimeout.

Definition firstSelectionConfirmDeadline (passStart receivedAt : Time) (window runTimeout : Z) : Time :=
  let anchor := if Before receivedAt passStart then passStart else receivedAt in
  let remaining := TSub (TAdd passStart runTimeout) anchor in
  TAdd anchor (Z.min window (Z.min defaultCapabilityWaitTimeout remaining)).

Definition beginSelectionPass (now : Time) (s : Session) : Session * option sel_err :=
  let a := s_agreement s in
  match ag_err a with
  | Some e => (s, Some e)
  | None =>
      let window := Z.min (capabilityWaitTimeout s) defaultCapabilityWaitTimeout in
      let confirmDeadline :=
        if bool_decide (ag_current a = None) && negb (IsZero (ag_capabilityReceivedAt a))
        then firstSelectionConfirmDeadline now (ag_capabilityReceivedAt a) window (executionTimeout s)
        else ag_confirmDeadline a in
      (set_agreement (set_windows now (TAdd now window) (ag_capabilityReceivedAt a) confirmDeadline a) s,
       None)
  end.

(** One turn of the loop of [waitForSelectionCapability]: the critical section,
    with the error [waitErr] of the waiting context, and the two later readings
    of [ctx.Err()].  [WaitStop] is followed by [stopSelection], a critical
    section of its own. *)
Inductive wait_result :=
| WaitReturn (r : res sel_err Capability)
| WaitStop (err : sel_err)
| WaitBlock.

Definition capability_turn (waitErr ctx1 ctx2 : option ctx_err) (s : Session) : wait_result :=
  let a := s_agreement s in
  match ag_err a with
  | Some e => WaitReturn (Err e)
  | None =>
      match ctx1 with
      | Some e => WaitStop (ForeignError (Some e))
      | None =>
          if bool_decide (waitErr <> None)
             && (bool_decide (ag_remote a = None) || negb (bool_decide (ag_current a = None)))
          then match ctx2 with
               | Some e => WaitStop (ForeignError (Some e))
               | None => WaitStop (selectionDeadline "capability_missing")
               end
          else match ag_remote a with
               | Some remote => WaitReturn (Ok (cloneCapability (domainWire remote)))
               | None => WaitBlock
               end
      end
  end.

Definition setRemoteCapability (c : Capability) (at_ : Time) (s : Session) : Session :=
  let m := s_meta s in
  set_meta (mkMeta (mt_LocalCapability m) (normalizeCapability c)
              (if IsZero at_ then mt_CapabilityExchangeAt m else at_)
              (mt_LastEnvelopeType m) (mt_LastEnvelopeAt m) (mt_SelectionDigest m)
              (mt_SelectionOrdinal m)) s.

Section agreement.
Context {J : SelectionJSON} {H : Sha256}.

Definition digest_of (c : selectionCapability) : string := selectionCapabilityDigest (domainWire c).

(** ** Receiving *)

(** The critical section of [receiveSelectionCapability]; the flag says whether
    the diagnostic snapshot is updated after it. *)
Definition accept_capability (now : Time) (capability : selectionCapability) (s : Session)
    : Session * option sel_err * bool :=
  let a := s_agreement s in
  match ag_err a with
  | Some _ => (s, None, true)
  | None =>
      if match ag_remote a with
         | Some r => negb (bool_decide (sc_Epoch r = sc_Epoch capability))
                     || negb (bool_decide (digest_of r = digest_of capability))
         | None => false
         end
      then (stop_with (selectionFailure "selection_conflict") s, false)
      else if bool_decide (ag_remote a = None) && negb (IsZero (ag_capabilityDeadline a))
              && negb (Before now (ag_capabilityDeadline a))
      then (stop_with (selectionDeadline "capability_missing") s, true)
      else
        let a' :=
          if bool_decide (ag_remote a = None) then
            let window := Z.min (capabilityWaitTimeout s) defaultCapabilityWaitTimeout in
            let confirmDeadline :=
              if IsZero (ag_passStart a) then ag_confirmDeadline a
              else firstSelectionConfirmDeadline (ag_passStart a) now window (executionTimeout s) in
            set_windows (ag_passStart a) (ag_capabilityDeadline a) now confirmDeadline a
          else a in
        (set_agreement (wake (set_remote capability a')) s, None, true)
  end.

Definition normalized_capability (c : selectionCapability) : selectionCapability :=
  let n := normalizeCapability (domainWire c) in
  mkSelectionCapability (cp_Strategies n)
    (cp_Features (normalizeCapability (mkCapability (cp_Strategies n) (sc_Features c))))
    (sc_Version c) (sc_Epoch c).

Definition receiveSelectionCapability (payload : list Z) (at_ now : Time) (s : Session)
    : Session * option sel_err :=
  match decodeSelectionJSON payload strict_selectionCapability with
  | Err e => stop_with e s
  | Ok capability =>
      match validateSelectionCapability capability with
      | Some e => stop_with e s
      | None =>
          let capability := normalized_capability capability in
          let '(s', err, snapshot) := accept_capability now capability s in
          (if snapshot then setRemoteCapability (domainWire capability) at_ s' else s', err)
      end
  end.

(** The proposal or the confirmation of a control message. *)
Definition control : Type := selectionProposal + selectionConfirmation.
Definition control_binding (m : control) : selectionBinding :=
  match m with inl p => pr_binding p | inr c => cf_binding c end.

Definition decode_control (kind : string) (payload : list Z) : res sel_err control :=
  let! m :=
    if bool_decide (kind = selectionProposalType) then
      let! p := decodeSelectionJSON payload strict_proposal in
      if selectionList (pr_Strategies p) selectionStrategyLimit true then Ok (inl p)
      else Err (selectionFailure "selection_invalid")
    else
      let! c := decodeSelectionJSON payload strict_confirmation in
      if selectionIdentifier (cf_Strategy c) selectionTokenLimit && selectionHex (cf_Digest c) 32
      then Ok (inr c) else Err (selectionFailure "selection_invalid") in
  check! validateSelectionBinding (control_binding m) in Ok m.

(** An inbox takes a message, or the error it stops with. *)
Definition inbox_accept (m : control) (ib : selectionInbox) : res sel_err selectionInbox :=
  let received := ib_received ib + 1 in
  if selectionReceiveLimit <? received then Err (selectionFailure "selection_invalid")
  else match m with
       | inl p =>
           if negb (bool_decide (ib_proposal ib = None)) && negb (equalProposal (ib_proposal ib) (Some p))
           then Err (selectionFailure "selection_conflict")
           else Ok (mkInbox (Some p) (ib_confirm ib) received)
       | inr c =>
           if negb (bool_decide (ib_confirm ib = None)) && negb (bool_decide (ib_confirm ib = Some c))
           then Err (selectionFailure "selection_conflict")
           else Ok (mkInbox (ib_proposal ib) (Some c) received)
       end.

(** A message for the current round; after the commitment a conflicting
    confirmation is terminal. *)
Definition round_accept (m : control) (r : selectionRound) : res sel_err selectionRound :=
  let! ib := inbox_accept m (rd_remote r) in
  if rd_confirmed r
     && match ib_confirm ib with
        | None => true
        | Some c => negb (bool_decide (cf_Digest c = rd_digest r))
                    || negb (bool_decide (cf_Strategy c = rd_strategy r))
        end
  then Err (selectionFailure "selection_conflict")
  else Ok (set_remote_inbox ib r).

(** The critical section of [receiveSelectionControl]. *)
Definition accept_control (m : control) (s : Session) : Session * option sel_err :=
  let a := s_agreement s in
  let binding := control_binding m in
  let ordinal := match selectionOrdinal (bd_Ordinal binding) with Ok n => n | Err _ => 0 end in
  let conflict := stop_with (selectionFailure "selection_conflict") s in
  let into_future :=
    match inbox_accept m (ag_future a) with
    | Err e => stop_with e s
    | Ok ib => (set_agreement (wake (set_future ib a)) s, None)
    end in
  match ag_err a with
  | Some _ => (s, None)
  | None =>
      if negb (bool_decide (bd_ToEpoch binding = sc_Epoch (ag_local a)))
         || negb (bool_decide (bd_ReceiverCapability binding = digest_of (ag_local a)))
         || match ag_remote a with
            | Some r => negb (bool_decide (bd_FromEpoch binding = sc_Epoch r))
                        || negb (bool_decide (bd_SenderCapability binding = digest_of r))
            | None => false
            end
      then conflict
      else match ag_current a with
           | None => if ordinal =? 0 then into_future else conflict
           | Some r =>
               if ordinal <? rd_ordinal r then (s, None)
               else if ordinal =? rd_ordinal r then
                 match round_accept m r with
                 | Err e => stop_with e s
                 | Ok r' => (set_agreement (wake (set_current (Some r') a)) s, None)
                 end
               else if (rd_ordinal r =? u64_max) || negb (ordinal =? rd_ordinal r + 1) then conflict
               else into_future
           end
  end.

Definition receiveSelectionControl (kind : string) (payload : list Z) (s : Session)
    : Session * option sel_err :=
  match decode_control kind payload with
  | Err e => stop_with e s
  | Ok m => accept_control m s
  end.

Definition selection_type (t : string) : bool :=
  bool_decide (t = MsgTypeCapability) || bool_decide (t = selectionProposalType)
  || bool_decide (t = selectionConfirmType).

Definition set_last_envelope (t : string) (at_ : Time) (s : Session) : Session :=
  let m := s_meta s in
  set_meta (mkMeta (mt_LocalCapability m) (mt_RemoteCapability m) (mt_CapabilityExchangeAt m) t at_
              (mt_SelectionDigest m) (mt_SelectionOrdinal m)) s.

(** [handleEnvelopeMessage]; the envelopes of other types (path commits,
    observations, probes) leave the modelled state as it is. *)
Definition handleEnvelopeMessage (now : Time) (msg : Message) (s : Session)
    : Session * option sel_err :=
  let invalid := selectionFailure "selection_invalid" in
  if selection_type (ms_Type msg) && (selectionEnvelopeLimit <? blen (ms_Payload msg))
  then stop_with invalid s
  else match UnmarshalEnvelope (ms_Payload msg) with
  | None => stop_with invalid s
  | Some envelope =>
      if negb (bool_decide (en_SessionID envelope = cfg_SessionID (s_cfg s))) then stop_with invalid s
      else if negb (bool_decide (en_FromNode envelope = cfg_PeerID (s_cfg s)))
              || negb (bool_decide (en_ToNode envelope = cfg_LocalNodeID (s_cfg s)))
              || negb (bool_decide (ms_Type msg = en_MsgType envelope))
      then stop_with invalid s
      else
        match (if selection_type (en_MsgType envelope)
               then decodeSelectionJSONBound (ms_Payload msg) strict_envelope selectionEnvelopeLimit
               else Ok envelope) with
        | Err e => stop_with e s
        | Ok envelope =>
            let receivedAt := if IsZero (ms_ReceivedAt msg) then now else ms_ReceivedAt msg in
            let s := set_last_envelope (en_MsgType envelope) receivedAt s in
            if bool_decide (en_MsgType envelope = MsgTypeCapability)
            then receiveSelectionCapability (en_Payload envelope) receivedAt now s
            else if bool_decide (en_MsgType envelope = selectionProposalType)
                    || bool_decide (en_MsgType envelope = selectionConfirmType)
            then receiveSelectionControl (en_MsgType envelope) (en_Payload envelope) s
            else (s, None)
        end
  end.

(** [HandleMessage]; strategy messages go to the strategy. *)
Definition HandleMessage (now : Time) (msg : Message) (s : Session) : Session * option sel_err :=
  if bool_decide (ms_Kind msg = MessageKindEnvelope) then
    if negb (bool_decide (ms_Namespace msg = ""%string))
       && negb (bool_decide (ms_Namespace msg = envelopeNamespace)) then (s, None)
    else handleEnvelopeMessage now msg s
  else (s, None).

Definition HandleMessageFrom (now : Time) (peerID : string) (msg : Message) (s : Session)
    : Session * option sel_err :=
  if negb (bool_decide (peerID = cfg_PeerID (s_cfg s)))
  then stop_with (selectionFailure "selection_invalid") s
  else HandleMessage now msg s.

(** ** Sending *)

(** [newEnvelope]. *)
Definition newEnvelope (msgType : string) (payload : list Z) (s : Session) : Session * SessionEnvelope :=
  let seq := u64_add (s_seq s) 1 in
  (mkSession (s_cfg s) seq (s_agreement s) (s_meta s),
   mkEnvelope (cfg_SessionID (s_cfg s)) (cfg_LocalNodeID (s_cfg s)) (cfg_PeerID (s_cfg s)) msgType seq 0
     payload).

Definition envelope_message (kind : string) (payload : list Z) (now : Time) : Message :=
  mkMessage MessageKindEnvelope envelopeNamespace kind payload now.

(** An error of the transport, with the context error it wraps, if any. *)
Definition transport_error (e : option (option ctx_err)) : option sel_err := ForeignError <$> e.

(** [sendSelection]: [ctxErr] is the error of the context before the send and
    [sendErr] the result of the send.  The message that reaches the sender is
    returned even if the send reports an error. *)
Definition sendSelection (now : Time) (ctxErr : option ctx_err) (sendErr : option (option ctx_err))
    (kind : string) (encoded : list Z) (s : Session) : Session * option Message * option sel_err :=
  let invalid := selectionFailure "selection_invalid" in
  if selectionPayloadLimit <? blen encoded then (s, None, Some invalid)
  else
    let '(s, envelope) := newEnvelope kind encoded s in
    match MarshalEnvelope envelope with
    | None => (s, None, Some invalid)
    | Some payload =>
        if selectionEnvelopeLimit <? blen payload then (s, None, Some invalid)
        else match ctxErr with
             | Some e => (s, None, Some (ForeignError (Some e)))
             | None => (s, Some (envelope_message kind payload now), transport_error sendErr)
             end
    end.

(** [sendCapability] up to its callers, which stop the selection on an error. *)
Definition sendCapability (now : Time) (sendErr : option (option ctx_err)) (s : Session)
    : Session * option Message * option sel_err :=
  let '(s, envelope) := newEnvelope MsgTypeCapability (marshal_selectionCapability (ag_local (s_agreement s))) s in
  match MarshalEnvelope envelope with
  | None => (s, None, Some (ForeignError None))
  | Some payload =>
      if (selectionPayloadLimit <? blen (en_Payload envelope)) || (selectionEnvelopeLimit <? blen payload)
      then let '(s, e) := stopSelection (selectionFailure "selection_invalid") s in (s, None, Some e)
      else (s, Some (envelope_message MsgTypeCapability payload now), transport_error sendErr)
  end.

(** ** Agreeing *)
Definition requirePreviousSelectionClosed (s : Session) : option sel_err :=
  let a := s_agreement s in
  match ag_err a with
  | Some e => Some e
  | None =>
      if negb (bool_decide (ag_cleanupErr a = None)) || negb (bool_decide (ag_activeExecutors a = ∅))
      then Some (selectionFailure "selection_previous_active")
      else match ag_previous a with
           | None => None
           | Some previous =>
               if ag_strategyClosed a then None
               else if sy_factory previous then None
               else Some (selectionFailure "selection_previous_active")
           end
  end.

(** What [agreeCandidates] keeps in its local variables. *)
Record agreeing := mkAgreeing {
  g_candidates : list StrategyCandidate;
  g_ordinal : Z;
  g_localCap : Capability;
  g_remoteCap : Capability;
  g_proposal : selectionProposal;
  g_deadline : Time;
}.

Inductive begin_result :=
| BeginReturn (err : sel_err)
| BeginStop (err : sel_err)
| BeginRound (s : Session) (g : agreeing).

(** The critical section of [agreeCandidates] that opens the round. *)
Definition agree_begin (start : Time) (candidates : list StrategyCandidate) (newPass : bool) (s : Session)
    : begin_result :=
  let a := s_agreement s in
  match ag_err a, ag_remote a with
  | Some e, _ => BeginReturn e
  | None, None => BeginStop (selectionFailure "capability_missing")
  | None, Some remote =>
      if match ag_current a with Some r => rd_ordinal r =? u64_max | None => false end
      then BeginStop (selectionFailure "selection_invalid")
      else
        let '(ordinal, previous) :=
          match ag_current a with
          | Some r => (rd_ordinal r + 1, rd_digest r)
          | None => (0, ""%string)
          end in
        let localCap := domainWire (ag_local a) in
        let remoteCap := domainWire remote in
        let names := cd_Name <$> candidates in
        let proposal := mkProposal
          (mkBinding selectionVersion (sc_Epoch (ag_local a)) (sc_Epoch remote) (FormatUint ordinal)
             (selectionCapabilityDigest localCap) (selectionCapabilityDigest remoteCap) previous true)
          names in
        if negb (forallb (fun name => contains (cp_Strategies localCap) name
                                      && contains (cp_Strategies remoteCap) name) names)
        then BeginStop (selectionFailure "selection_conflict")
        else if negb (selectionList names selectionStrategyLimit true)
        then BeginStop (selectionFailure "selection_invalid")
        else
          let deadline := TAdd start (Z.min (capabilityWaitTimeout s) defaultCapabilityWaitTimeout) in
          let '(start, deadline) :=
            if newPass then (ag_passStart a, ag_capabilityDeadline a) else (start, deadline) in
          let '(start, deadline) :=
            if ordinal =? 0 then (ag_passStart a, ag_confirmDeadline a) else (start, deadline) in
          let timeout := executionTimeout s in
          let deadline :=
            if negb (ordinal =? 0) && (0 <? timeout) && Before (TAdd start timeout) deadline
            then TAdd start timeout else deadline in
          let round := mkRound ordinal proposal (ag_future a) "" "" false false deadline start in
          let a' := set_budgetUsed false (set_future empty_inbox (set_current (Some round) a)) in
          BeginRound (set_agreement a' s)
            (mkAgreeing candidates ordinal localCap remoteCap proposal deadline)
  end.

Definition expected_binding (b : selectionBinding) : selectionBinding :=
  mkBinding (bd_Version b) (bd_ToEpoch b) (bd_FromEpoch b) (bd_Ordinal b) (bd_ReceiverCapability b)
    (bd_SenderCapability b) (bd_Previous b) (bd_PreviousClosed b).

(** The checks of the remote proposal and the joint value. *)
Definition check_proposal (cfg : Config) (g : agreeing) (remote : selectionProposal)
    : res sel_err selectionJoint :=
  if negb (bool_decide (pr_binding remote = expected_binding (pr_binding (g_proposal g))))
  then Err (selectionFailure "selection_conflict")
  else if negb (forallb (fun name => contains (cp_Strategies (g_remoteCap g)) name
                                     && contains (cp_Strategies (g_localCap g)) name)
                  (pr_Strategies remote))
  then Err (selectionFailure "selection_conflict")
  else jointSelection cfg (g_localCap g) (g_remoteCap g) (g_proposal g) remote.

(** [joint.Order[0]]; the order is not empty. *)
Definition joint_strategy (joint : selectionJoint) : string := hd ""%string (jt_Order joint).

Definition own_confirmation (g : agreeing) (joint : selectionJoint) : selectionConfirmation :=
  mkConfirmation (pr_binding (g_proposal g)) (joint_strategy joint) (joint_digest joint).

Definition check_confirmation (g : agreeing) (joint : selectionJoint) (c : selectionConfirmation) : bool :=
  bool_decide (cf_binding c = expected_binding (pr_binding (g_proposal g)))
  && bool_decide (cf_Digest c = joint_digest joint) && bool_decide (cf_Strategy c = joint_strategy joint).

(** The error [failed] stops the selection with. *)
Definition failed_error (err : sel_err) : sel_err :=
  if errors_is err ContextDeadline then selectionDeadline "selection_timeout" else err.

(** The candidates in the agreed order. *)
Definition negotiated (c : StrategyCandidate) : StrategyCandidate :=
  mkCandidate (cd_Name c) (cd_Strategy c) (cd_StrategyName c) true (cd_Reason c).
Definition ordered_candidates (order : list string) (candidates : list StrategyCandidate)
    : list StrategyCandidate :=
  omap (fun name => negotiated <$> List.find (fun c => bool_decide (cd_Name c = name)) candidates) order.

(** The last critical section of [agreeCandidates]. *)
Definition agree_commit (now : Time) (ctxErr : option ctx_err) (g : agreeing) (joint : selectionJoint)
    (s : Session) : begin_result + Session :=
  let a := s_agreement s in
  match ag_err a with
  | Some e => inl (BeginReturn e)
  | None =>
      if bool_decide (ctxErr <> None) || negb (Before now (g_deadline g))
      then inl (BeginStop (selectionDeadline "selection_timeout"))
      else
        let digest := joint_digest joint in
        let a' := set_current (set_confirmed digest (joint_strategy joint) <$> ag_current a) a in
        let m := s_meta s in
        inr (set_meta (mkMeta (mt_LocalCapability m) (mt_RemoteCapability m) (mt_CapabilityExchangeAt m)
                         (mt_LastEnvelopeType m) (mt_LastEnvelopeAt m) digest (g_ordinal g))
               (set_agreement a' s))
  end.

(** [prepareCandidateAgreement]: whether the current round is for the candidate
    and has not been entered. *)
Definition prepare_ready (candidate : StrategyCandidate) (s : Session) : bool :=
  let a := s_agreement s in
  bool_decide (ag_err a = None) &&
  match ag_current a with
  | None => false
  | Some r => rd_confirmed r && negb (rd_entered r) && bool_decide (rd_strategy r = cd_Name candidate)
  end.

(** ** Executing *)
Definition enterSelection (now : Time) (ctxErr : option ctx_err) (strategy : Strategy) (s : Session)
    : Session * option sel_err :=
  let a := s_agreement s in
  match ag_err a with
  | Some e => (s, Some e)
  | None =>
      match ag_current a with
      | None => stop_with (selectionFailure "selection_conflict") s
      | Some round =>
          if negb (rd_confirmed round) || rd_entered round
             || negb (bool_decide (rd_strategy round = sy_Name strategy))
          then stop_with (selectionFailure "selection_conflict") s
          else match ctxErr with
               | Some e => stop_with (ForeignError (Some e)) s
               | None =>
                   if negb (Before now (rd_deadline round))
                   then stop_with (selectionDeadline "selection_timeout") s
                   else (set_agreement
                           (set_cleanup (ag_cleanupErr a) false (Some strategy) (ag_activeExecutors a)
                              (set_current (Some (set_entered round)) a)) s, None)
               end
      end
  end.

(** [selectionCleanup] with the result [err] of the cleanup function. *)
Definition selectionCleanup (err : option sel_err) (s : Session) : Session :=
  match err with
  | None => s
  | Some e =>
      let a := s_agreement s in
      let a' := set_cleanup (Some e) (ag_strategyClosed a) (ag_previous a) (ag_activeExecutors a) a in
      set_agreement (stopLocked (selectionFailure "selection_previous_active") a').1 s
  end.

Definition closeSelectionStrategy (strategy : Strategy) (err : option sel_err) (s : Session) : Session :=
  let s := selectionCleanup err s in
  let a := s_agreement s in
  if bool_decide (ag_previous a = Some strategy) && bool_decide (err = None)
  then set_agreement (set_cleanup (ag_cleanupErr a) true (ag_previous a) (ag_activeExecutors a) a) s
  else s.

Definition openSelectionExecutor (executor : nat) (s : Session) : Session :=
  let a := s_agreement s in
  set_agreement (set_cleanup (ag_cleanupErr a) (ag_strategyClosed a) (ag_previous a)
                   ({[executor]} ∪ ag_activeExecutors a) a) s.

Definition closeSelectionExecutor (executor : nat) (err : option sel_err) (s : Session) : Session :=
  let s := selectionCleanup err s in
  let a := s_agreement s in
  if bool_decide (err = None)
  then set_agreement (set_cleanup (ag_cleanupErr a) (ag_strategyClosed a) (ag_previous a)
                        (ag_activeExecutors a ∖ {[executor]}) a) s
  else s.

(** [selectionExecutionContext]: the deadline of the execution, if any; only the
    first plan of a round is charged for the time of the agreement. *)
Definition selectionExecutionContext (now : Time) (timeout : Z) (s : Session) : Session * option Time :=
  let a := s_agreement s in
  let charged := negb (ag_budgetUsed a) && negb (bool_decide (ag_current a = None)) in
  let start := match ag_current a with
               | Some r => if ag_budgetUsed a then time_zero else rd_budgetStart r
               | None => time_zero
               end in
  let s := if charged then set_agreement (set_budgetUsed true a) s else s in
  (s, if timeout <=? 0 then None
      else if IsZero start then Some (TAdd now timeout) else Some (TAdd start timeout)).

Definition subtractSelectionTime (now : Time) (budget : Z) (s : Session) : Z :=
  let start := match ag_current (s_agreement s) with Some r => rd_budgetStart r | None => time_zero end in
  if IsZero start then budget
  else let budget := budget - TSub now start in if budget <=? 0 then 1 else budget.
End agreement.
