(* ===== verification/SelectionNet.v ===== *)
(** * Sessions that agree over a network

    The goroutine that selects and executes strategies (it holds [executeMu], so
    a session has one) is a phase; one transition is one critical section, one
    channel operation or one send.  Any number of sessions, on any nodes and
    created at any time, run together; the network keeps every message ever sent
    and may deliver it at any time, any number of times or never. *)
From stdpp Require Import sorting pretty.
From S2P Require Import Prelude GoStd LivenessWire SelectionWire Selection.

(** ** The selecting goroutine *)
Inductive sel_phase :=
| FIdle
| FStop (err : sel_err)
(* waitForSelectionCapability *)
| FCapability
| FCapabilityWait
(* agreeCandidates *)
| FBegin (start : Time) (candidates : list StrategyCandidate) (newPass : bool)
| FSendProposal (g : agreeing)
| FProposal (g : agreeing)
| FProposalWait (g : agreeing)
| FSendConfirm (g : agreeing) (joint : selectionJoint)
| FConfirm (g : agreeing) (joint : selectionJoint)
| FConfirmWait (g : agreeing) (joint : selectionJoint)
| FCommit (g : agreeing) (joint : selectionJoint).

(** A call of the session's own code, or the next step of the call under way. *)
Inductive sel_input :=
| CallBeginPass (now : Time)
| CallSendCapability (now : Time) (sendErr : option (option ctx_err))
| CallWaitCapability
| CallAgree (candidates : list StrategyCandidate) (newPass : bool) (start : Time)
| CallPrepare (candidate : StrategyCandidate) (start : Time)
| CallEnter (strategy : Strategy) (ctxErr : option ctx_err) (now : Time)
| CallOpenExecutor (executor : nat)
| CallCloseExecutor (executor : nat) (err : option sel_err)
| CallCloseStrategy (strategy : Strategy) (err : option sel_err)
| CallExecutionContext (now : Time) (timeout : Z)
| StepStop
| StepCapability (waitErr ctx1 ctx2 : option ctx_err)
| StepBegin
| StepSend (now : Time) (ctxErr : option ctx_err) (sendErr : option (option ctx_err))
| StepPoll
| StepChanged
| StepDone (err : ctx_err)
| StepCommit (now : Time) (ctxErr : option ctx_err).

Inductive sel_event :=
| EvProposed (g : agreeing)
| EvConfirming (g : agreeing) (joint : selectionJoint)
| EvConfirmed (g : agreeing) (joint : selectionJoint) (ordered : list StrategyCandidate)
| EvEntered (ordinal : Z) (strategy : Strategy).

Section net.
Context {J : SelectionJSON} {H : Sha256}.

(** [agreeCandidates] up to the reading of the clock. *)
Definition start_agree (candidates : list StrategyCandidate) (newPass : bool) (start : Time) (s : Session)
    : sel_phase :=
  match requirePreviousSelectionClosed s with
  | Some e => FStop e
  | None => FBegin start candidates newPass
  end.

Definition remote_inbox (s : Session) : selectionInbox :=
  match ag_current (s_agreement s) with Some r => rd_remote r | None => empty_inbox end.

(** The receive from [a.changed]. *)
Definition take_changed (s : Session) : option Session :=
  if ag_changed (s_agreement s) then Some (set_agreement (set_changed false (s_agreement s)) s) else None.

Definition step_result : Type := Session * sel_phase * list Message * list sel_event.

Definition quiet (s : Session) (p : sel_phase) : option step_result := Some (s, p, [], []).

Definition step_send (kind : string) (encoded : list Z) (now : Time) (ctxErr : option ctx_err)
    (sendErr : option (option ctx_err)) (next : sel_phase) (event : sel_event) (s : Session) : option step_result :=
  let '(s', sent, err) := sendSelection now ctxErr sendErr kind encoded s in
  Some (s', match err with Some e => FStop (failed_error e) | None => next end,
        option_list sent, match sent with Some _ => [event] | None => [] end).

Definition front_call (i : sel_input) (s : Session) : option step_result :=
  match i with
  | CallBeginPass now => quiet (beginSelectionPass now s).1 FIdle
  | CallSendCapability now sendErr =>
      let '(s', sent, err) := sendCapability now sendErr s in
      Some (s', match err with Some e => FStop e | None => FIdle end, option_list sent, [])
  | CallWaitCapability => quiet s FCapability
  | CallAgree candidates newPass start => quiet s (start_agree candidates newPass start s)
  | CallPrepare candidate start =>
      quiet s (if prepare_ready candidate s then FIdle else start_agree [candidate] false start s)
  | CallEnter strategy ctxErr now =>
      let '(s', err) := enterSelection now ctxErr strategy s in
      Some (s', FIdle, [],
            match err, ag_current (s_agreement s) with
            | None, Some r => [EvEntered (rd_ordinal r) strategy]
            | _, _ => []
            end)
  | CallOpenExecutor executor => quiet (openSelectionExecutor executor s) FIdle
  | CallCloseExecutor executor err => quiet (closeSelectionExecutor executor err s) FIdle
  | CallCloseStrategy strategy err => quiet (closeSelectionStrategy strategy err s) FIdle
  | CallExecutionContext now timeout => quiet (selectionExecutionContext now timeout s).1 FIdle
  | _ => None
  end.

Definition front_step (i : sel_input) (s : Session) (p : sel_phase) : option step_result :=
  match p, i with
  | FIdle, _ => front_call i s
  | FStop err, StepStop => quiet (stopSelection err s).1 FIdle
  | FCapability, StepCapability waitErr ctx1 ctx2 =>
      match capability_turn waitErr ctx1 ctx2 s with
      | WaitReturn _ => quiet s FIdle
      | WaitStop e => quiet s (FStop e)
      | WaitBlock => quiet s FCapabilityWait
      end
  | FCapabilityWait, StepChanged => take_changed s ≫= fun s' => quiet s' FCapability
  | FCapabilityWait, StepDone _ => quiet s FCapability
  | FBegin start candidates newPass, StepBegin =>
      match agree_begin start candidates newPass s with
      | BeginReturn _ => quiet s FIdle
      | BeginStop e => quiet s (FStop e)
      | BeginRound s' g => quiet s' (FSendProposal g)
      end
  | FSendProposal g, StepSend now ctxErr sendErr =>
      step_send selectionProposalType (marshal_proposal (g_proposal g)) now ctxErr sendErr (FProposal g)
        (EvProposed g) s
  | FProposal g, StepPoll =>
      match ag_err (s_agreement s), ib_proposal (remote_inbox s) with
      | Some _, _ => quiet s FIdle
      | None, None => quiet s (FProposalWait g)
      | None, Some remote =>
          match check_proposal (s_cfg s) g remote with
          | Err e => quiet s (FStop (failed_error e))
          | Ok joint => quiet s (FSendConfirm g joint)
          end
      end
  | FProposalWait g, StepChanged => take_changed s ≫= fun s' => quiet s' (FProposal g)
  | FProposalWait _, StepDone e => quiet s (FStop (failed_error (ForeignError (Some e))))
  | FSendConfirm g joint, StepSend now ctxErr sendErr =>
      step_send selectionConfirmType (marshal_confirmation (own_confirmation g joint)) now ctxErr sendErr
        (FConfirm g joint) (EvConfirming g joint) s
  | FConfirm g joint, StepPoll =>
      match ag_err (s_agreement s), ib_confirm (remote_inbox s) with
      | Some _, _ => quiet s FIdle
      | None, None => quiet s (FConfirmWait g joint)
      | None, Some c =>
          quiet s (if check_confirmation g joint c then FCommit g joint
                   else FStop (failed_error (selectionFailure "selection_conflict")))
      end
  | FConfirmWait g joint, StepChanged => take_changed s ≫= fun s' => quiet s' (FConfirm g joint)
  | FConfirmWait _ _, StepDone e => quiet s (FStop (failed_error (ForeignError (Some e))))
  | FCommit g joint, StepCommit now ctxErr =>
      match agree_commit now ctxErr g joint s with
      | inl (BeginReturn _) => quiet s FIdle
      | inl (BeginStop e) => quiet s (FStop (failed_error e))
      | inl (BeginRound _ _) => None
      | inr s' =>
          Some (s', FIdle, [],
                [EvConfirmed g joint (ordered_candidates (jt_Order joint) (g_candidates g))])
      end
  | _, _ => None
  end.

(** ** The world

    Sessions are named by their epochs.  The transport knows the node a message
    comes from. *)
Record packet := mkPacket { pk_from : string; pk_to : string; pk_msg : Message }.

Record sel_world := mkSelWorld {
  sw_sessions : gmap string (Session * sel_phase);
  sw_net : list packet;
  sw_log : list (string * sel_event);
}.

Definition received_at (at_ : Time) (m : Message) : Message :=
  mkMessage (ms_Kind m) (ms_Namespace m) (ms_Type m) (ms_Payload m) at_.

(** [allowed] restricts the calls of the session's own code. *)
Inductive sel_step (allowed : Session -> sel_input -> Prop) : sel_world -> sel_world -> Prop :=
| ss_new w cfg resolver random s :
    NewConverging cfg resolver random = Ok s ->
    sw_sessions w !! sc_Epoch (ag_local (s_agreement s)) = None ->
    sel_step allowed w
      (mkSelWorld (<[sc_Epoch (ag_local (s_agreement s)) := (s, FIdle)]> (sw_sessions w)) (sw_net w) (sw_log w))
| ss_front w e i s p s' p' msgs evs :
    sw_sessions w !! e = Some (s, p) -> (p = FIdle -> allowed s i) ->
    front_step i s p = Some (s', p', msgs, evs) ->
    sel_step allowed w
      (mkSelWorld (<[e := (s', p')]> (sw_sessions w))
         (sw_net w ++ (mkPacket (cfg_LocalNodeID (s_cfg s)) (cfg_PeerID (s_cfg s)) <$> msgs))
         (sw_log w ++ (pair e <$> evs)))
| ss_deliver w e s p pk now at_ :
    sw_sessions w !! e = Some (s, p) -> pk ∈ sw_net w -> pk_to pk = cfg_LocalNodeID (s_cfg s) ->
    sel_step allowed w
      (mkSelWorld (<[e := ((HandleMessageFrom now (pk_from pk) (received_at at_ (pk_msg pk)) s).1, p)]>
                     (sw_sessions w)) (sw_net w) (sw_log w))
| ss_close w e s p :
    sw_sessions w !! e = Some (s, p) ->
    sel_step allowed w
      (mkSelWorld (<[e := ((stopSelection (selectionFailure "selection_closed") s).1, p)]> (sw_sessions w))
         (sw_net w) (sw_log w))
| ss_other w pk :
    selection_type (ms_Type (pk_msg pk)) = false ->
    sel_step allowed w (mkSelWorld (sw_sessions w) (pk :: sw_net w) (sw_log w)).

Definition sel_init : sel_world := mkSelWorld ∅ [] [].
Definition sel_reachable (allowed : Session -> sel_input -> Prop) : sel_world -> Prop :=
  rtc (sel_step allowed) sel_init.
End net.
