(* ===== verification/SelectionInv.v ===== *)
(** * The selection agreement: what every operation changes *)
From stdpp Require Import sorting pretty.
From S2P Require Import Prelude GoStd MeshSearch LivenessWire SelectionWire SelectionWireThms Selection SelectionNet.
Open Scope go_scope.

(** ** What never changes in a session *)
Definition static : Type := Config * selectionCapability.
Definition session_static (s : Session) : static := (s_cfg s, ag_local (s_agreement s)).

Record static_ok (e : string) (c : static) : Prop := {
  so_nodes : cfg_LocalNodeID c.1 <> cfg_PeerID c.1;
  so_local : selectionIdentifier (cfg_LocalNodeID c.1) 128 = true;
  so_peer : selectionIdentifier (cfg_PeerID c.1) 128 = true;
  so_session : selectionIdentifier (cfg_SessionID c.1) 512 = true;
  so_initiator : cfg_Initiator c.1 = String.ltb (cfg_LocalNodeID c.1) (cfg_PeerID c.1);
  so_capability : validateSelectionCapability c.2 = None;
  so_normal : normalizeCapability (domainWire c.2) = domainWire c.2;
  so_epoch : sc_Epoch c.2 = e;
}.

Lemma NewConverging_Ok cfg resolver random s :
  NewConverging cfg resolver random = Ok s ->
  static_ok (sc_Epoch (ag_local (s_agreement s))) (session_static s) /\
  s_cfg s = cfg /\ s_seq s = 0 /\
  ag_remote (s_agreement s) = None /\ ag_current (s_agreement s) = None /\
  ag_future (s_agreement s) = empty_inbox /\ ag_err (s_agreement s) = None.
Proof.
  unfold NewConverging, New. intros E.
  destruct (_ || (cfg_RunTimeout cfg <=? 0)) eqn:G; [done|].
  destruct (bool_decide _ || bool_decide _); [done|].
  destruct (Z.of_nat _ =? 0); [done|]. destruct random as [epoch|]; [|done].
  apply guard_err_Ok in E as [V E]. simplify_eq.
  rewrite !orb_false_iff, !negb_false_iff in G. destruct G as [[[[[H1 H2] H3] H4] H5] _].
  apply bool_decide_eq_false in H4. apply Bool.eqb_prop in H5.
  split; [|done]. split; simpl in *; try done.
  unfold domainWire. simpl. apply normalizeCapability_idem.
Qed.

(** Two sessions on the two ends of one connection. *)
Definition mirror (c d : Config) : Prop :=
  cfg_SessionID d = cfg_SessionID c /\ cfg_LocalNodeID d = cfg_PeerID c /\ cfg_PeerID d = cfg_LocalNodeID c.

Lemma mirror_sym c d : mirror c d -> mirror d c.
Proof. unfold mirror. naive_solver. Qed.

Lemma mirror_initiator e f c d :
  static_ok e c -> static_ok f d -> mirror c.1 d.1 -> cfg_Initiator d.1 = negb (cfg_Initiator c.1).
Proof.
  intros Hc Hd (_ & E1 & E2). rewrite (so_initiator _ _ Hc), (so_initiator _ _ Hd), E1, E2.
  pose proof (so_nodes _ _ Hc) as N.
  destruct (String.ltb (cfg_LocalNodeID c.1) (cfg_PeerID c.1)) eqn:E.
  - destruct (String.ltb (cfg_PeerID c.1) (cfg_LocalNodeID c.1)) eqn:E'; [|done].
    pose proof (string_ltb_trans _ _ _ E E') as C. by rewrite string_ltb_irrefl in C.
  - destruct (string_ltb_total _ _ N) as [C|C]; simpl; congruence.
Qed.

(** The joint value does not depend on the side that computes it. *)
Lemma jointSelection_mirror e f c d A B p q :
  static_ok e c -> static_ok f d -> mirror c.1 d.1 ->
  jointSelection d.1 B A q p = jointSelection c.1 A B p q.
Proof.
  intros Hc Hd M. unfold jointSelection.
  rewrite (mirror_initiator _ _ _ _ Hc Hd M). destruct M as (-> & -> & ->).
  by destruct (cfg_Initiator c.1).
Qed.

Lemma jointSelection_Ok cfg A B p q j :
  jointSelection cfg A B p q = Ok j ->
  jt_Order j <> [] /\
  (forall n, n ∈ jt_Order j <-> n ∈ pr_Strategies p /\ n ∈ pr_Strategies q) /\
  jt_Order j = List.filter (contains (pr_Strategies (jt_Responder j))) (pr_Strategies (jt_Initiator j)) /\
  (jt_Initiator j, jt_Responder j) = if cfg_Initiator cfg then (p, q) else (q, p).
Proof.
  unfold jointSelection. intros E.
  set (P := if cfg_Initiator cfg then (p, q) else (q, p)).
  assert (forall n, n ∈ List.filter (contains (pr_Strategies P.2)) (pr_Strategies P.1)
    <-> n ∈ pr_Strategies p /\ n ∈ pr_Strategies q) as HF.
  { intros n. rewrite !list_elem_of_In, filter_In, <-!list_elem_of_In. unfold contains.
    rewrite bool_decide_eq_true. unfold P. destruct (cfg_Initiator cfg); simpl; naive_solver. }
  assert (forall l : list string, Z.of_nat (length l) =? 0 = false -> l <> []) as HN by (by intros [|]).
  unfold P in *. clear P. destruct (cfg_Initiator cfg); simpl in *;
    (destruct (Z.of_nat _ =? 0) eqn:Z0; [done|]); apply HN in Z0; simplify_eq/=; auto.
Qed.

Section effects.
Context {J : SelectionJSON} {H : Sha256}.

(** ** Stopping *)
Lemma stopLocked_some e a e' : ag_err a = Some e' -> stopLocked e a = (a, e').
Proof. unfold stopLocked. by intros ->. Qed.

Lemma stopLocked_err e a : is_Some (ag_err (stopLocked e a).1).
Proof. unfold stopLocked. destruct (ag_err a) eqn:E; simpl; rewrite ?E; eauto. Qed.

(** What the execution of strategies left behind. *)
Definition same_cleanup (a a' : selectionAgreement) : Prop :=
  ag_cleanupErr a' = ag_cleanupErr a /\ ag_strategyClosed a' = ag_strategyClosed a /\
  ag_previous a' = ag_previous a /\ ag_activeExecutors a' = ag_activeExecutors a.

(** The agreement after a stop, whether it was the first or not. *)
Record stopped (a a' : selectionAgreement) : Prop := {
  st_local : ag_local a' = ag_local a;
  st_remote : ag_remote a' = ag_remote a;
  st_err : is_Some (ag_err a');
  st_current : ag_current a' = ag_current a \/
    ag_err a = None /\ ag_current a' = set_remote_inbox empty_inbox <$> ag_current a;
  st_future : ag_future a' = ag_future a \/ ag_future a' = empty_inbox;
  st_keep : is_Some (ag_err a) -> a' = a;
  st_cleanup : same_cleanup a a';
}.

Lemma stopLocked_stopped e a : stopped a (stopLocked e a).1.
Proof.
  unfold stopLocked. destruct (ag_err a) as [e'|] eqn:E; simpl.
  - split; rewrite ?E; eauto. done.
  - split; simpl; rewrite ?E; eauto; [by intros []|done].
Qed.

Lemma stop_with_stopped e s :
  s_cfg (stop_with e s).1 = s_cfg s /\ s_seq (stop_with e s).1 = s_seq s /\
  stopped (s_agreement s) (s_agreement (stop_with e s).1).
Proof.
  unfold stop_with, stopSelection. pose proof (stopLocked_stopped e (s_agreement s)) as S.
  destruct (stopLocked e (s_agreement s)) as [a e']. done.
Qed.

Lemma stopSelection_stopped e s :
  s_cfg (stopSelection e s).1 = s_cfg s /\ s_seq (stopSelection e s).1 = s_seq s /\
  stopped (s_agreement s) (s_agreement (stopSelection e s).1).
Proof.
  unfold stopSelection. pose proof (stopLocked_stopped e (s_agreement s)) as S.
  destruct (stopLocked e (s_agreement s)) as [a e']. done.
Qed.

(** ** Receiving *)
Definition control_ordinal (m : control) : Z :=
  match selectionOrdinal (bd_Ordinal (control_binding m)) with Ok n => n | Err _ => 0 end.

(** The ordinal of the messages [ag_future] is for. *)
Definition next_ordinal (a : selectionAgreement) : Z :=
  match ag_current a with Some r => rd_ordinal r + 1 | None => 0 end.

(** The message is addressed to this session by the peer it knows. *)
Definition bound_to (m : control) (a : selectionAgreement) : Prop :=
  bd_ToEpoch (control_binding m) = sc_Epoch (ag_local a) /\
  bd_ReceiverCapability (control_binding m) = digest_of (ag_local a) /\
  forall r, ag_remote a = Some r ->
    bd_FromEpoch (control_binding m) = sc_Epoch r /\ bd_SenderCapability (control_binding m) = digest_of r.

Inductive control_effect (m : control) (a : selectionAgreement) : selectionAgreement -> Prop :=
| ce_same : control_effect m a a
| ce_stop a' : stopped a a' -> control_effect m a a'
| ce_future ib :
    ag_err a = None -> bound_to m a -> control_ordinal m = next_ordinal a ->
    inbox_accept m (ag_future a) = Ok ib -> control_effect m a (wake (set_future ib a))
| ce_current r r' :
    ag_err a = None -> bound_to m a -> ag_current a = Some r -> control_ordinal m = rd_ordinal r ->
    round_accept m r = Ok r' -> control_effect m a (wake (set_current (Some r') a)).

Lemma accept_control_effect m s :
  s_cfg (accept_control m s).1 = s_cfg s /\ s_seq (accept_control m s).1 = s_seq s /\
  control_effect m (s_agreement s) (s_agreement (accept_control m s).1).
Proof.
  pose proof (fun e => stop_with_stopped e s) as S.
  assert (forall e, s_cfg (stop_with e s).1 = s_cfg s /\ s_seq (stop_with e s).1 = s_seq s /\
    control_effect m (s_agreement s) (s_agreement (stop_with e s).1)) as S'.
  { intros e. destruct (S e) as (? & ? & ?). eauto using ce_stop. }
  clear S. unfold accept_control. destruct (ag_err (s_agreement s)) eqn:E; [eauto using ce_same|].
  destruct (_ || _) eqn:G; [apply S'|].
  assert (bound_to m (s_agreement s)) as Hb.
  { rewrite !orb_false_iff, !negb_false_iff, !bool_decide_eq_true in G. destruct G as [[G1 G2] G3].
    split; [done|]. split; [done|]. intros r Hr. rewrite Hr in G3.
    rewrite orb_false_iff, !negb_false_iff, !bool_decide_eq_true in G3. done. }
  clear G. fold (control_ordinal m). unfold control_ordinal in *. fold (control_ordinal m).
  assert (control_ordinal m = next_ordinal (s_agreement s) ->
    s_cfg (match inbox_accept m (ag_future (s_agreement s)) with
           | Ok ib => (set_agreement (wake (set_future ib (s_agreement s))) s, None)
           | Err e => stop_with e s end).1 = s_cfg s /\
    s_seq (match inbox_accept m (ag_future (s_agreement s)) with
           | Ok ib => (set_agreement (wake (set_future ib (s_agreement s))) s, None)
           | Err e => stop_with e s end).1 = s_seq s /\
    control_effect m (s_agreement s) (s_agreement
      (match inbox_accept m (ag_future (s_agreement s)) with
           | Ok ib => (set_agreement (wake (set_future ib (s_agreement s))) s, None)
           | Err e => stop_with e s end).1)) as F.
  { intros Ho. destruct (inbox_accept _ _) eqn:I; [by split_and!; [..|eapply ce_future]|apply S']. }
  unfold next_ordinal in F. destruct (ag_current (s_agreement s)) as [r|] eqn:C.
  - destruct (control_ordinal m <? rd_ordinal r) eqn:L; [eauto using ce_same|].
    destruct (control_ordinal m =? rd_ordinal r) eqn:Q.
    + apply Z.eqb_eq in Q. destruct (round_accept m r) eqn:R; [by split_and!; [..|eapply ce_current]|apply S'].
    + destruct (_ || _) eqn:X; [apply S'|]. rewrite orb_false_iff, negb_false_iff, Z.eqb_eq in X.
      apply F. naive_solver.
  - destruct (control_ordinal m =? 0) eqn:Q; [|apply S']. apply F. by apply Z.eqb_eq in Q.
Qed.

(** A capability is taken, or the agreement stops, or nothing happens. *)
Inductive capability_effect (c : selectionCapability) (a : selectionAgreement) : selectionAgreement -> Prop :=
| pe_same : capability_effect c a a
| pe_stop a' : stopped a a' -> capability_effect c a a'
| pe_taken a' :
    ag_err a = None ->
    (forall r, ag_remote a = Some r -> sc_Epoch r = sc_Epoch c /\ digest_of r = digest_of c) ->
    ag_local a' = ag_local a -> ag_remote a' = Some c -> ag_current a' = ag_current a ->
    ag_future a' = ag_future a -> ag_err a' = None -> ag_changed a' = true -> same_cleanup a a' ->
    capability_effect c a a'.

Lemma accept_capability_effect now c s :
  s_cfg (accept_capability now c s).1.1 = s_cfg s /\ s_seq (accept_capability now c s).1.1 = s_seq s /\
  capability_effect c (s_agreement s) (s_agreement (accept_capability now c s).1.1).
Proof.
  assert (forall e, s_cfg (stop_with e s).1 = s_cfg s /\ s_seq (stop_with e s).1 = s_seq s /\
    capability_effect c (s_agreement s) (s_agreement (stop_with e s).1)) as S'.
  { intros e. destruct (stop_with_stopped e s) as (? & ? & ?). eauto using pe_stop. }
  unfold accept_capability. destruct (ag_err (s_agreement s)) eqn:E; [eauto using pe_same|].
  destruct (match ag_remote _ with Some _ => _ | None => _ end) eqn:G; [apply S'|].
  destruct (_ && _ && _); [apply S'|]. simpl. split; [done|]. split; [done|].
  apply pe_taken; try done; try (destruct (bool_decide _); done).
  intros r Hr. rewrite Hr in G. by rewrite orb_false_iff, !negb_false_iff, !bool_decide_eq_true in G.
Qed.
End effects.

(** * The selection agreement: the invariant of the sessions *)

Section state.
Context {J : SelectionJSON} {H : Sha256}.

Notation registry := (gmap string static).
Notation event_log := (list (string * sel_event)).

(** ** Rounds *)
Definition g_peer (g : agreeing) : string := bd_ToEpoch (pr_binding (g_proposal g)).
Definition g_previous (g : agreeing) : string := bd_Previous (pr_binding (g_proposal g)).

(** A round session [x] (with static part [c]) opened: the peer is a session of
    the other node, and the proposal names strategies both sides support. *)
Record agreeing_ok (st : registry) (x : string) (c : static) (g : agreeing) : Prop := {
  go_range : 0 <= g_ordinal g <= u64_max;
  go_names : pr_Strategies (g_proposal g) = cd_Name <$> g_candidates g;
  go_list : selectionList (pr_Strategies (g_proposal g)) selectionStrategyLimit true = true;
  go_subset : forall n, n ∈ pr_Strategies (g_proposal g) ->
    n ∈ cp_Strategies (g_localCap g) /\ n ∈ cp_Strategies (g_remoteCap g);
  go_previous : if g_ordinal g =? 0 then g_previous g = ""%string else selectionHex (g_previous g) 32 = true;
  go_local : g_localCap g = domainWire c.2;
  go_peer : exists d : static, st !! g_peer g = Some d /\ mirror c.1 d.1 /\ g_remoteCap g = domainWire d.2 /\
    pr_binding (g_proposal g) = mkBinding selectionVersion x (g_peer g) (FormatUint (g_ordinal g))
      (digest_of c.2) (digest_of d.2) (g_previous g) true;
}.

(** [j] is the joint value of [g] and of a proposal that was sent. *)
Definition joint_ok (log : event_log) (cfg : Config) (g : agreeing) (j : selectionJoint) : Prop :=
  exists y g', (y, EvProposed g') ∈ log /\ check_proposal cfg g (g_proposal g') = Ok j.

(** The confirmation of [g] and [j] was answered by a matching one. *)
Definition answered (log : event_log) (g : agreeing) (j : selectionJoint) : Prop :=
  exists y g' j', (y, EvConfirming g' j') ∈ log /\ check_confirmation g j (own_confirmation g' j') = true.

(** ** Inboxes hold what was sent *)
Record inbox_ok (log : event_log) (x : string) (n : Z) (ib : selectionInbox) : Prop := {
  io_proposal : forall p, ib_proposal ib = Some p ->
    exists y g, (y, EvProposed g) ∈ log /\ p = g_proposal g /\ g_ordinal g = n /\ g_peer g = x;
  io_confirm : forall c, ib_confirm ib = Some c ->
    exists y g j, (y, EvConfirming g j) ∈ log /\ c = own_confirmation g j /\ g_ordinal g = n /\ g_peer g = x;
  io_received : 0 <= ib_received ib <= selectionReceiveLimit;
}.

Lemma empty_inbox_ok log x n : inbox_ok log x n empty_inbox.
Proof. split; simpl; [done|done|]. unfold selectionReceiveLimit. lia. Qed.

(** ** Phases *)
Definition opened (st : registry) (x : string) (s : Session) (g : agreeing) : Prop :=
  agreeing_ok st x (session_static s) g /\
  exists r, ag_current (s_agreement s) = Some r /\ rd_ordinal r = g_ordinal g /\
    rd_local r = g_proposal g /\ rd_confirmed r = false /\ rd_deadline r = g_deadline g.

Definition no_proposal_yet (log : event_log) (x : string) (g : agreeing) : Prop :=
  forall g', (x, EvProposed g') ∈ log -> g_ordinal g' < g_ordinal g.
Definition no_confirmation_yet (log : event_log) (x : string) (g : agreeing) : Prop :=
  forall g' j', (x, EvConfirming g' j') ∈ log -> g_ordinal g' < g_ordinal g.

Definition settled (a : selectionAgreement) : Prop :=
  ag_err a = None -> forall r, ag_current a = Some r -> rd_confirmed r = true.

Definition phase_ok (st : registry) (log : event_log) (x : string) (s : Session) (p : sel_phase) : Prop :=
  match p with
  | FIdle | FCapability | FCapabilityWait | FBegin _ _ _ => settled (s_agreement s)
  | FStop _ => True
  | FSendProposal g => opened st x s g /\ no_proposal_yet log x g
  | FProposal g | FProposalWait g =>
      opened st x s g /\ (x, EvProposed g) ∈ log /\ no_confirmation_yet log x g
  | FSendConfirm g j =>
      opened st x s g /\ (x, EvProposed g) ∈ log /\ no_confirmation_yet log x g /\
      joint_ok log (s_cfg s) g j
  | FConfirm g j | FConfirmWait g j => opened st x s g /\ (x, EvConfirming g j) ∈ log
  | FCommit g j => opened st x s g /\ (x, EvConfirming g j) ∈ log /\ answered log g j
  end.

(** ** Sessions *)
Definition round_backed (log : event_log) (x : string) (r : selectionRound) : Prop :=
  exists g j o, (x, EvConfirmed g j o) ∈ log /\ g_ordinal g = rd_ordinal r /\
    rd_digest r = joint_digest j /\ rd_strategy r = joint_strategy j.

Record session_inv (st : registry) (log : event_log) (x : string) (s : Session) (p : sel_phase) : Prop := {
  si_static : st !! x = Some (session_static s);
  si_seq : 0 <= s_seq s <= u64_max;
  si_remote : forall c, ag_remote (s_agreement s) = Some c ->
    exists cfg, st !! sc_Epoch c = Some (cfg, c) /\ mirror (s_cfg s) cfg;
  si_future : inbox_ok log x (next_ordinal (s_agreement s)) (ag_future (s_agreement s));
  si_current : forall r, ag_current (s_agreement s) = Some r ->
    0 <= rd_ordinal r <= u64_max /\ inbox_ok log x (rd_ordinal r) (rd_remote r) /\
    (rd_confirmed r = true -> round_backed log x r);
  si_proposed : forall g, (x, EvProposed g) ∈ log ->
    agreeing_ok st x (session_static s) g /\ g_ordinal g < next_ordinal (s_agreement s);
  si_proposed_once : forall g g', (x, EvProposed g) ∈ log -> (x, EvProposed g') ∈ log ->
    g_ordinal g = g_ordinal g' -> g = g';
  si_confirming : forall g j, (x, EvConfirming g j) ∈ log ->
    (x, EvProposed g) ∈ log /\ joint_ok log (s_cfg s) g j;
  si_confirming_once : forall g j g' j', (x, EvConfirming g j) ∈ log -> (x, EvConfirming g' j') ∈ log ->
    g_ordinal g = g_ordinal g' -> g = g' /\ j = j';
  si_confirmed : forall g j o, (x, EvConfirmed g j o) ∈ log ->
    (x, EvConfirming g j) ∈ log /\ answered log g j /\
    o = ordered_candidates (jt_Order j) (g_candidates g);
  si_phase : phase_ok st log x s p;
}.

(** ** Monotonicity *)
Section mono.
Context (log : event_log) (e : string) (evs : list sel_event).
Let log' := log ++ (pair e <$> evs).

Lemma log_mono x ev : (x, ev) ∈ log -> (x, ev) ∈ log'.
Proof. unfold log'. set_solver. Qed.

Lemma log_other x ev : x <> e -> (x, ev) ∈ log' -> (x, ev) ∈ log.
Proof.
  unfold log'. intros Hne [?|Hin]%elem_of_app; [done|].
  apply list_elem_of_fmap in Hin as (? & ? & _). naive_solver.
Qed.

Lemma log_own ev : (e, ev) ∈ log' <-> (e, ev) ∈ log \/ ev ∈ evs.
Proof. unfold log'. rewrite elem_of_app, list_elem_of_fmap. naive_solver. Qed.

Lemma joint_ok_mono cfg g j : joint_ok log cfg g j -> joint_ok log' cfg g j.
Proof. intros (y & g' & ? & ?). exists y, g'. auto using log_mono. Qed.

Lemma answered_mono g j : answered log g j -> answered log' g j.
Proof. intros (y & g' & j' & ? & ?). exists y, g', j'. auto using log_mono. Qed.

Lemma inbox_ok_mono x n ib : inbox_ok log x n ib -> inbox_ok log' x n ib.
Proof.
  intros [Hp Hc ?]. split; [| |done].
  - intros p (y & g & ? & ? & ? & ?)%Hp. exists y, g. auto using log_mono.
  - intros c (y & g & j & ? & ? & ? & ?)%Hc. exists y, g, j. auto using log_mono.
Qed.

Lemma round_backed_mono x r : round_backed log x r -> round_backed log' x r.
Proof. intros (g & j & o & ? & ?). exists g, j, o. auto using log_mono. Qed.

Context (st st' : registry).
Hypothesis Hst : st ⊆ st'.

Lemma agreeing_ok_mono x c g : agreeing_ok st x c g -> agreeing_ok st' x c g.
Proof.
  intros [? ? ? ? ? ? (d & Hd & ?)]. split; try done. exists d. split; [|done].
  by eapply lookup_weaken.
Qed.

Lemma opened_mono x s g : opened st x s g -> opened st' x s g.
Proof. intros [? ?]. split; [by apply agreeing_ok_mono|done]. Qed.

Lemma phase_ok_mono x s p : x <> e -> phase_ok st log x s p -> phase_ok st' log' x s p.
Proof.
  intros Hne. unfold no_proposal_yet, no_confirmation_yet.
  destruct p; simpl; unfold no_proposal_yet, no_confirmation_yet;
    naive_solver eauto using opened_mono, log_mono, log_other, joint_ok_mono, answered_mono.
Qed.

(** A session is not disturbed by what others do. *)
Lemma session_inv_mono x s p : x <> e -> session_inv st log x s p -> session_inv st' log' x s p.
Proof.
  intros Hne [S1 S2 S3 S4 S5 S6 S7 S8 S9 S10 S11]. split.
  - by eapply lookup_weaken.
  - done.
  - intros c (cfg & ? & ?)%S3. exists cfg. split; [by eapply lookup_weaken|done].
  - by apply inbox_ok_mono.
  - intros r (? & ? & ?)%S5. auto using inbox_ok_mono, round_backed_mono.
  - intros g Hg%log_other; [|done]. destruct (S6 g Hg). auto using agreeing_ok_mono.
  - intros g g' ?%log_other ?%log_other; auto.
  - intros g j Hg%log_other; [|done]. destruct (S8 g j Hg). auto using log_mono, joint_ok_mono.
  - intros g j g' j' ?%log_other ?%log_other; auto.
  - intros g j o Hg%log_other; [|done]. destruct (S10 g j o Hg) as (? & ? & ?).
    auto using log_mono, answered_mono.
  - by apply phase_ok_mono.
Qed.
End mono.
End state.
