(* ===== verification/SelectionDeliver.v ===== *)
(** * The selection agreement: what a delivered message does *)
From stdpp Require Import sorting pretty.
From S2P Require Import Prelude GoStd LivenessWire SelectionWire SelectionWireThms Selection SelectionNet SelectionInv.
Open Scope go_scope.

Section deliver.
Context {J : SelectionJSON} {JL : SelectionJSONLaws J} {H : Sha256} {HL : Sha256Laws H}.

(** ** Texts of the messages *)
Lemma hex_char_range v : 0 <= v < 16 -> in_range 48 57 (hex_char v) || in_range 97 102 (hex_char v) = true.
Proof. unfold hex_char, in_range. intros. destruct (v <? 10) eqn:E; [apply Z.ltb_lt in E|apply Z.ltb_ge in E]; lia. Qed.

Lemma hex_char_byte v : 0 <= v < 16 -> is_byte (hex_char v).
Proof. unfold hex_char, is_byte. intros. destruct (v <? 10); lia. Qed.

Lemma hex_encode_spec bs : Forall is_byte bs ->
  length (hex_encode bs) = (2 * length bs)%nat /\ Forall is_byte (hex_encode bs) /\
  forallb (fun ch => in_range 48 57 ch || in_range 97 102 ch) (hex_encode bs) = true.
Proof.
  induction 1 as [|b bs Hb _ (IH1 & IH2 & IH3)]; [done|]. unfold is_byte in Hb.
  assert (0 <= b / 16 < 16) by (split; [apply Z.div_pos; lia|apply Z.div_lt_upper_bound; lia]).
  assert (0 <= b mod 16 < 16) by (apply Z.mod_pos_bound; lia).
  cbn [hex_encode length forallb]. rewrite IH1, IH3, !hex_char_range by done.
  split; [lia|]. split; [|done]. by repeat constructor; try apply hex_char_byte.
Qed.

Lemma string_bytes_length s : length (string_bytes s) = String.length s.
Proof. induction s; simpl; congruence. Qed.

Lemma selectionHash_hex bs : selectionHex (selectionHash bs) 32 = true.
Proof.
  destruct (sum256_bytes bs) as [L B]. destruct (hex_encode_spec _ B) as (E1 & E2 & E3).
  unfold selectionHex, selectionHash, slen. rewrite <-string_bytes_length, string_bytes_string, E1, L by done.
  simpl. done.
Qed.

Lemma digest_hex c : selectionHex (digest_of c) 32 = true.
Proof. apply selectionHash_hex. Qed.

Lemma epoch_hex e c : static_ok e c -> selectionHex e 16 = true.
Proof.
  intros S. pose proof (so_capability _ _ S) as V. rewrite <-(so_epoch _ _ S).
  unfold validateSelectionCapability in V. destruct (negb _); [done|].
  by destruct (selectionHex (sc_Epoch c.2) 16).
Qed.

Lemma static_capability_text e c : static_ok e c -> capability_text c.2.
Proof.
  intros S. pose proof (so_capability _ _ S) as V. unfold validateSelectionCapability in V.
  destruct (negb (bool_decide _)) eqn:Ev; [done|]. apply negb_false_iff, bool_decide_eq_true in Ev.
  destruct (selectionHex (sc_Epoch c.2) 16) eqn:E1; [|done].
  destruct (selectionList (sc_Strategies c.2) _ _) eqn:E2; [|done].
  destruct (selectionList (sc_Features c.2) _ _) eqn:E3; [|done].
  apply selectionList_spec in E2 as (_ & _ & _ & E2). apply selectionList_spec in E3 as (_ & _ & _ & E3).
  unfold capability_text. rewrite Ev. constructor; [by apply text_check|].
  constructor; [by eapply hex_text|]. apply Forall_app.
  split; (eapply Forall_impl; [eassumption|]); intros v Hv; exact (identifier_text _ _ Hv).
Qed.

Lemma digits_text n : text (FormatUint n).
Proof.
  unfold FormatUint, pretty, pretty_N. case_decide; [by repeat constructor|].
  assert (forall x s, text s -> text (pretty_N_go x s)) as G; [|by apply G; constructor].
  intros x. induction (N.lt_wf_0 x) as [x _ IH]. intros s Hs.
  destruct (decide (x = 0)%N) as [->|Hne]; [done|]. rewrite pretty_N_go_step by lia.
  apply IH; [apply N.div_lt; lia|]. unfold text. rewrite string_bytes_cons.
  pose proof (N.mod_lt x 10 ltac:(lia)). constructor; [|done].
  rewrite pretty_char_digit by done. generalize dependent (x `mod` 10)%N. intros.
  unfold identifier_byte, in_range. lia.
Qed.

Section round.
Context (st : gmap string static) (x : string) (c : static) (g : agreeing).
Hypothesis Hst : forall y d, st !! y = Some d -> static_ok y d.
Hypothesis Hc : static_ok x c.
Hypothesis Hg : agreeing_ok st x c g.

Lemma round_binding_valid : validateSelectionBinding (pr_binding (g_proposal g)) = None.
Proof.
  destruct (go_peer _ _ _ _ Hg) as (d & Hd & _ & _ & E). rewrite E. unfold validateSelectionBinding. simpl.
  rewrite (epoch_hex _ _ Hc), (epoch_hex _ _ (Hst _ _ Hd)), !digest_hex. simpl.
  rewrite selectionOrdinal_FormatUint by apply Hg. pose proof (go_previous _ _ _ _ Hg) as Hp.
  pose proof (go_range _ _ _ _ Hg). destruct (g_ordinal g =? 0) eqn:E0.
  - apply Z.eqb_eq in E0. rewrite Hp, E0. done.
  - apply Z.eqb_neq in E0. rewrite Hp. simpl. by rewrite andb_false_r.
Qed.

Lemma round_binding_text : binding_text (pr_binding (g_proposal g)).
Proof.
  destruct (go_peer _ _ _ _ Hg) as (d & Hd & _ & _ & E). rewrite E. unfold binding_text. simpl.
  pose proof (go_previous _ _ _ _ Hg) as Hp.
  pose proof hex_text as T.
  rewrite !Forall_cons, Forall_nil. split_and!; try done; try (by eapply T; eauto using epoch_hex, digest_hex).
  - by apply text_check.
  - apply digits_text.
  - destruct (g_ordinal g =? 0); [rewrite Hp; constructor|by eapply T].
Qed.

Lemma round_names n : n ∈ pr_Strategies (g_proposal g) -> selectionIdentifier n selectionTokenLimit = true.
Proof.
  pose proof (go_list _ _ _ _ Hg) as (_ & _ & _ & L)%selectionList_spec.
  rewrite Forall_forall in L. apply L.
Qed.

Lemma proposal_texts : proposal_text (g_proposal g).
Proof.
  split; [apply round_binding_text|]. apply Forall_forall. intros n Hn%round_names.
  by eapply identifier_text.
Qed.

Lemma decode_proposal :
  blen (marshal_proposal (g_proposal g)) <= selectionPayloadLimit ->
  decode_control selectionProposalType (marshal_proposal (g_proposal g)) = Ok (inl (g_proposal g)).
Proof.
  intros Hb. unfold decode_control. simpl. unfold decodeSelectionJSON.
  rewrite (decode_encoded _ _ _ _ _ (proposal_json _ proposal_texts)); [|apply proposal_tree_accepted; lia|done].
  simpl. rewrite (go_list _ _ _ _ Hg). simpl. by rewrite round_binding_valid.
Qed.

Context (cfg : Config) (q : selectionProposal) (j : selectionJoint).
Hypothesis Hj : check_proposal cfg g q = Ok j.

Lemma check_proposal_joint :
  pr_binding q = expected_binding (pr_binding (g_proposal g)) /\
  jointSelection cfg (g_localCap g) (g_remoteCap g) (g_proposal g) q = Ok j.
Proof.
  unfold check_proposal in Hj. destruct (negb (bool_decide _)) eqn:E; [done|].
  apply negb_false_iff, bool_decide_eq_true in E. destruct (negb _); done.
Qed.

Lemma joint_strategy_named : joint_strategy j ∈ jt_Order j /\ joint_strategy j ∈ pr_Strategies (g_proposal g).
Proof.
  destruct check_proposal_joint as [_ E]. apply jointSelection_Ok in E as (N & S & _).
  unfold joint_strategy. destruct (jt_Order j) as [|n l]; [done|]. simpl. split; [set_solver|].
  apply S. set_solver.
Qed.

Lemma confirmation_texts : confirmation_text (own_confirmation g j).
Proof.
  split; [apply round_binding_text|]. simpl. split.
  - eapply identifier_text, round_names, joint_strategy_named.
  - eapply hex_text, selectionHash_hex.
Qed.

Lemma decode_confirmation :
  blen (marshal_confirmation (own_confirmation g j)) <= selectionPayloadLimit ->
  decode_control selectionConfirmType (marshal_confirmation (own_confirmation g j))
  = Ok (inr (own_confirmation g j)).
Proof.
  intros Hb. unfold decode_control. simpl. unfold decodeSelectionJSON.
  rewrite (decode_encoded _ _ _ _ _ (confirmation_json _ confirmation_texts));
    [|apply confirmation_tree_accepted; lia|done].
  simpl. unfold joint_digest. rewrite selectionHash_hex, (round_names _ (proj2 joint_strategy_named)). simpl.
  by rewrite round_binding_valid.
Qed.
End round.

(** ** Packets *)

(** The payloads session [y] sends: its capability, or a control message. *)
Inductive payload_of (log : list (string * sel_event)) (y : string) (d : static)
    : string -> list Z -> option control -> Prop :=
| po_capability : payload_of log y d MsgTypeCapability (marshal_selectionCapability d.2) None
| po_proposal g : (y, EvProposed g) ∈ log ->
    payload_of log y d selectionProposalType (marshal_proposal (g_proposal g)) (Some (inl (g_proposal g)))
| po_confirm g j : (y, EvConfirming g j) ∈ log ->
    payload_of log y d selectionConfirmType (marshal_confirmation (own_confirmation g j))
      (Some (inr (own_confirmation g j))).

Definition packet_envelope (d : static) (kind : string) (raw : list Z) (seq : Z) : SessionEnvelope :=
  mkEnvelope (cfg_SessionID d.1) (cfg_LocalNodeID d.1) (cfg_PeerID d.1) kind seq 0 raw.

Record packet_of (log : list (string * sel_event)) (y : string) (d : static) (m : option control)
    (pk : packet) : Prop := {
  pf_from : pk_from pk = cfg_LocalNodeID d.1;
  pf_to : pk_to pk = cfg_PeerID d.1;
  pf_msg : exists kind raw seq at_,
    pk_msg pk = envelope_message kind (marshal_envelope (packet_envelope d kind raw seq)) at_ /\
    payload_of log y d kind raw m /\ 0 <= seq <= u64_max /\
    blen raw <= selectionPayloadLimit /\
    blen (marshal_envelope (packet_envelope d kind raw seq)) <= selectionEnvelopeLimit;
}.

Definition packet_ok (st : gmap string static) (log : list (string * sel_event)) (pk : packet) : Prop :=
  selection_type (ms_Type (pk_msg pk)) = false \/
  exists y d m, st !! y = Some d /\ packet_of log y d m pk.

(** What the log says about the sessions that wrote it. *)
Record log_ok (st : gmap string static) (log : list (string * sel_event)) : Prop := {
  lo_proposed : forall y g, (y, EvProposed g) ∈ log ->
    exists d : static, st !! y = Some d /\ agreeing_ok st y d g;
  lo_confirming : forall y g j, (y, EvConfirming g j) ∈ log ->
    (y, EvProposed g) ∈ log /\ exists d : static, st !! y = Some d /\ joint_ok log d.1 g j;
}.

Lemma normalized_id e c : static_ok e c -> normalized_capability c.2 = c.2.
Proof.
  intros S. pose proof (so_normal _ _ S) as N. unfold normalized_capability. rewrite N. cbv zeta.
  change (mkCapability (cp_Strategies (domainWire c.2)) (sc_Features c.2)) with (domainWire c.2).
  rewrite N. by destruct c.2.
Qed.

(** What a session does with the packet of a peer. *)
Definition take_packet (now at_ : Time) (d : static) (m : option control) (s : Session)
    : Session * option sel_err :=
  match m with
  | None =>
      let '(s', err, snapshot) := accept_capability now d.2 s in
      (if snapshot then setRemoteCapability (domainWire d.2) at_ s' else s', err)
  | Some m => accept_control m s
  end.

Lemma payload_of_selection log y d kind raw m st :
  (forall y d, st !! y = Some d -> static_ok y d) -> log_ok st log -> st !! y = Some d ->
  payload_of log y d kind raw m ->
  selection_type kind = true /\ kind <> ""%string /\ text kind /\ exists t, selection_payload raw t.
Proof.
  intros Hst Hlog Hd [|g Hg|g j Hg]; (split; [done|]); (split; [done|]); (split; [by apply text_check|]).
  - eexists. constructor. eapply static_capability_text. eauto.
  - eexists. constructor. destruct (lo_proposed _ _ Hlog _ _ Hg) as (d' & ? & ?). simplify_eq.
    eapply (proposal_texts st y); eauto.
  - eexists. constructor. destruct (lo_confirming _ _ Hlog _ _ _ Hg) as (Hp & d' & ? & y' & g' & ? & ?).
    destruct (lo_proposed _ _ Hlog _ _ Hp) as (? & ? & ?). simplify_eq.
    eapply (confirmation_texts st y); eauto.
Qed.

Lemma receive_payload st log y d kind raw m now at_ s :
  (forall y d, st !! y = Some d -> static_ok y d) -> log_ok st log -> st !! y = Some d ->
  payload_of log y d kind raw m -> blen raw <= selectionPayloadLimit ->
  (if bool_decide (kind = MsgTypeCapability) then receiveSelectionCapability raw at_ now s
   else if bool_decide (kind = selectionProposalType) || bool_decide (kind = selectionConfirmType)
   then receiveSelectionControl kind raw s else (s, None)) = take_packet now at_ d m s.
Proof.
  intros Hst Hlog Hd Hp Hb. pose proof (Hst _ _ Hd) as Sd. destruct Hp as [|g Hg|g j Hg].
  - rewrite bool_decide_true by done. unfold receiveSelectionCapability, decodeSelectionJSON.
    rewrite (decode_encoded _ _ _ _ _ (capability_json _ (static_capability_text _ _ Sd)));
      [|apply capability_tree_accepted; lia|done].
    rewrite (so_capability _ _ Sd). by rewrite (normalized_id _ _ Sd).
  - destruct (lo_proposed _ _ Hlog _ _ Hg) as (d' & ? & ?). simplify_eq.
    rewrite bool_decide_false, bool_decide_true by done. simpl. unfold receiveSelectionControl.
    by rewrite (decode_proposal st y d g) by eauto.
  - destruct (lo_confirming _ _ Hlog _ _ _ Hg) as (Hp & d' & ? & y' & g' & ? & HJ).
    destruct (lo_proposed _ _ Hlog _ _ Hp) as (? & ? & HA). simplify_eq.
    rewrite bool_decide_false, bool_decide_false, bool_decide_true by done. simpl.
    unfold receiveSelectionControl. by rewrite (decode_confirmation st y _ g Hst Sd HA _ _ _ HJ).
Qed.

Lemma handle_packet st log y d m pk x s now at_ :
  (forall y d, st !! y = Some d -> static_ok y d) -> log_ok st log -> st !! y = Some d ->
  packet_of log y d m pk -> static_ok x (session_static s) ->
  HandleMessageFrom now (pk_from pk) (received_at at_ (pk_msg pk)) s
  = stop_with (selectionFailure "selection_invalid") s \/
  (mirror (s_cfg s) d.1 /\ exists at' t,
     HandleMessageFrom now (pk_from pk) (received_at at_ (pk_msg pk)) s
     = take_packet now at' d m (set_last_envelope t at' s)).
Proof.
  intros Hst Hlog Hd [Pf Pt (kind & raw & seq & at0 & E & Hp & Hs & Hb & He)] Hx.
  destruct (payload_of_selection _ _ _ _ _ _ _ Hst Hlog Hd Hp) as (Kt & Kn & Kx & t & Ht).
  pose proof (Hst _ _ Hd) as Sd.
  assert (forall s limit, selectionIdentifier s limit = true -> text s) as TI.
  { intros i l Hi. by eapply identifier_text. }
  destruct (envelope_json (packet_envelope d kind raw seq) t) as [HE HU]; [|done|].
  { split; [|done]. rewrite !Forall_cons, Forall_nil. simpl.
    split_and!; try done; eapply TI; [apply Sd|apply Sd|apply Sd]. }
  unfold HandleMessageFrom. destruct (negb _) eqn:E1; [by left|].
  apply negb_false_iff, bool_decide_eq_true in E1. rewrite E. unfold HandleMessage. simpl.
  unfold handleEnvelopeMessage. simpl. rewrite Kt. simpl. rewrite (proj2 (Z.ltb_ge _ _)) by done.
  unfold UnmarshalEnvelope. rewrite HU. simpl.
  rewrite bool_decide_false by (intros C; pose proof (so_session _ _ Sd) as X; by rewrite C in X).
  rewrite bool_decide_false by done.
  change (en_SessionID (packet_envelope d kind raw seq)) with (cfg_SessionID d.1).
  change (en_FromNode (packet_envelope d kind raw seq)) with (cfg_LocalNodeID d.1).
  change (en_ToNode (packet_envelope d kind raw seq)) with (cfg_PeerID d.1).
  change (en_MsgType (packet_envelope d kind raw seq)) with kind.
  destruct (negb (bool_decide (cfg_SessionID d.1 = cfg_SessionID (s_cfg s)))) eqn:E2; [by left|].
  destruct (_ || _ || _) eqn:E3; [by left|]. rewrite Kt.
  rewrite (decode_encoded _ _ _ _ _ HE);
    [|eapply envelope_tree_accepted, selection_payload_accepted; eauto|done].
  right. rewrite !orb_false_iff, !negb_false_iff, !bool_decide_eq_true in E3.
  apply negb_false_iff, bool_decide_eq_true in E2. split; [unfold mirror; naive_solver|].
  do 2 eexists. simpl. by eapply receive_payload.
Qed.

(** A message of another kind stops the agreement or leaves it alone. *)
Lemma handle_other now from at_ msg s :
  selection_type (ms_Type msg) = false ->
  HandleMessageFrom now from (received_at at_ msg) s = stop_with (selectionFailure "selection_invalid") s \/
  s_agreement (HandleMessageFrom now from (received_at at_ msg) s).1 = s_agreement s /\
  s_cfg (HandleMessageFrom now from (received_at at_ msg) s).1 = s_cfg s /\
  s_seq (HandleMessageFrom now from (received_at at_ msg) s).1 = s_seq s.
Proof.
  intros Ht. unfold HandleMessageFrom, HandleMessage, handleEnvelopeMessage. simpl. rewrite Ht. simpl.
  destruct (negb _); [eauto|]. destruct (bool_decide (ms_Kind msg = MessageKindEnvelope)); [|eauto].
  destruct (_ && _); [eauto|].
  destruct (UnmarshalEnvelope _) as [env|]; [|eauto].
  destruct (negb (bool_decide _)); [eauto|]. destruct (_ || _ || _) eqn:E; [eauto|].
  rewrite !orb_false_iff, !negb_false_iff, !bool_decide_eq_true in E. destruct E as [_ E].
  rewrite <-E, Ht, <-E. unfold selection_type in Ht. rewrite !orb_false_iff in Ht. destruct Ht as [[-> ->] ->].
  simpl. eauto.
Qed.
End deliver.
