(* ===== verification/SelectionPres.v ===== *)
(** * The selection agreement: the invariant is preserved *)
From stdpp Require Import sorting pretty.
From S2P Require Import Prelude GoStd LivenessWire SelectionWire SelectionWireThms Selection SelectionNet SelectionInv SelectionDeliver.
Open Scope go_scope.

Section pres.
Context {J : SelectionJSON} {JL : SelectionJSONLaws J} {H : Sha256} {HL : Sha256Laws H}.

(** ** Changes that keep the rounds *)
Definition same_round (r r' : selectionRound) : Prop :=
  rd_ordinal r' = rd_ordinal r /\ rd_local r' = rd_local r /\ rd_digest r' = rd_digest r /\
  rd_strategy r' = rd_strategy r /\ rd_confirmed r' = rd_confirmed r /\ rd_deadline r' = rd_deadline r.

Record quiet_change (a a' : selectionAgreement) : Prop := {
  qc_local : ag_local a' = ag_local a;
  qc_err : ag_err a' = None -> ag_err a = None;
  qc_current : option_Forall2 same_round (ag_current a) (ag_current a');
}.

Lemma same_round_refl r : same_round r r. Proof. done. Qed.
Lemma same_rounds_refl o : option_Forall2 same_round o o.
Proof. destruct o; constructor. apply same_round_refl. Qed.

Lemma quiet_next a a' : quiet_change a a' -> next_ordinal a' = next_ordinal a.
Proof. intros [_ _ C]. unfold next_ordinal. destruct C as [r r' (E & _)|]; [by rewrite E|done]. Qed.

Lemma session_inv_quiet st log x s s' p :
  session_inv st log x s p -> s_cfg s' = s_cfg s -> 0 <= s_seq s' <= u64_max ->
  quiet_change (s_agreement s) (s_agreement s') ->
  (forall c, ag_remote (s_agreement s') = Some c ->
    exists cfg, st !! sc_Epoch c = Some (cfg, c) /\ mirror (s_cfg s) cfg) ->
  inbox_ok log x (next_ordinal (s_agreement s)) (ag_future (s_agreement s')) ->
  (forall r, ag_current (s_agreement s') = Some r -> inbox_ok log x (rd_ordinal r) (rd_remote r)) ->
  session_inv st log x s' p.
Proof.
  intros [S1 S2 S3 S4 S5 S6 S7 S8 S9 S10 S11] Ec Es Q R F C.
  pose proof (quiet_next _ _ Q) as En. destruct Q as [Q1 Q2 Q3].
  assert (session_static s' = session_static s) as Est by (unfold session_static; congruence).
  assert (forall g, opened st x s g -> opened st x s' g) as Ho.
  { intros g [Hg (r & Hr & E1 & E2 & E3 & E4)]. unfold opened. rewrite Est. split; [done|].
    rewrite Hr in Q3. inversion Q3 as [? r' (A1 & A2 & A3 & A4 & A5 & A6)|]; simplify_eq.
    exists r'. split_and!; try done; congruence. }
  split; rewrite ?Est, ?Ec, ?En; try done.
  - intros r' Hr'. pose proof (C _ Hr') as Hi. rewrite Hr' in Q3.
    inversion Q3 as [r ? (A1 & A2 & A3 & A4 & A5 & A6) Hr|]; simplify_eq. symmetry in Hr.
    destruct (S5 _ Hr) as (X1 & X2 & X3). rewrite A1 in *. split_and!; try done; try lia.
    rewrite A5. intros (g & j & o & ? & ? & ? & ?)%X3. exists g, j, o. split_and!; congruence.
  - destruct p; simpl in *; rewrite ?Ec; try (destruct S11 as [? ?]; split; [by apply Ho|done]); try done;
      intros En' r' Hr'; rewrite Hr' in Q3; inversion Q3 as [r ? (A1 & A2 & A3 & A4 & A5 & A6) Hr|];
      simplify_eq; rewrite A5; eauto.
Qed.

(** The agreement is the same up to what the invariant does not mention. *)
Definition same_core (a a' : selectionAgreement) : Prop :=
  ag_local a' = ag_local a /\ ag_remote a' = ag_remote a /\ ag_current a' = ag_current a /\
  ag_future a' = ag_future a /\ ag_err a' = ag_err a.

Lemma session_inv_core st log x s s' p :
  session_inv st log x s p -> s_cfg s' = s_cfg s -> 0 <= s_seq s' <= u64_max ->
  same_core (s_agreement s) (s_agreement s') -> session_inv st log x s' p.
Proof.
  intros I Ec Es (E1 & E2 & E3 & E4 & E5). eapply session_inv_quiet; eauto.
  - split; [done|congruence|]. rewrite E3. apply same_rounds_refl.
  - rewrite E2. apply I.
  - rewrite E4. apply I.
  - rewrite E3. intros r Hr. by apply (si_current _ _ _ _ _ I).
Qed.

Lemma stopped_quiet a a' : stopped a a' -> quiet_change a a'.
Proof.
  intros [S1 S2 S3 S4 S5 S6 _]. split; [done| |].
  - intros E. destruct (ag_err a) eqn:Ea; [|done]. rewrite (S6 ltac:(eauto)) in E. congruence.
  - destruct S4 as [->|[_ ->]]; [apply same_rounds_refl|]. destruct (ag_current a); by constructor.
Qed.

Lemma session_inv_stopped st log x s s' p :
  session_inv st log x s p -> s_cfg s' = s_cfg s -> s_seq s' = s_seq s ->
  stopped (s_agreement s) (s_agreement s') -> session_inv st log x s' p.
Proof.
  intros I Ec Es S. pose proof (stopped_quiet _ _ S) as Q. destruct S as [S1 S2 S3 S4 S5 S6 _].
  eapply session_inv_quiet; eauto.
  - rewrite Es. apply I.
  - rewrite S2. apply I.
  - destruct S5 as [-> | ->]; [apply I|apply empty_inbox_ok].
  - intros r Hr. destruct S4 as [E|[_ E]]; rewrite E in Hr; [by apply (si_current _ _ _ _ _ I)|].
    destruct (ag_current (s_agreement s)); simplify_eq/=. apply empty_inbox_ok.
Qed.

(** ** Delivery *)
Definition sent_control (log : list (string * sel_event)) (m : control) : Prop :=
  match m with
  | inl p => exists y g, (y, EvProposed g) ∈ log /\ p = g_proposal g /\ g_ordinal g = control_ordinal m
  | inr c => exists y g j, (y, EvConfirming g j) ∈ log /\ c = own_confirmation g j /\
      g_ordinal g = control_ordinal m
  end.

Lemma inbox_accept_ok log x m n ib ib' :
  inbox_ok log x n ib -> sent_control log m -> control_ordinal m = n ->
  bd_ToEpoch (control_binding m) = x -> inbox_accept m ib = Ok ib' -> inbox_ok log x n ib'.
Proof.
  intros [I1 I2 I3] Hm Ho Hx. unfold inbox_accept. destruct (_ <? _) eqn:L; [done|].
  apply Z.ltb_ge in L. destruct m as [p|c]; (destruct (_ && _); [done|]); intros; simplify_eq;
    split; simpl; try done; try lia; unfold g_peer; naive_solver.
Qed.

Lemma inv_epoch st log x s p :
  (forall y d, st !! y = Some d -> static_ok y d) -> session_inv st log x s p ->
  x = sc_Epoch (ag_local (s_agreement s)).
Proof. intros Hst I. symmetry. apply (so_epoch _ _ (Hst _ _ (si_static _ _ _ _ _ I))). Qed.

Lemma session_inv_control st log x s s' p m :
  (forall y d, st !! y = Some d -> static_ok y d) -> session_inv st log x s p -> s_cfg s' = s_cfg s -> s_seq s' = s_seq s -> sent_control log m ->
  control_effect m (s_agreement s) (s_agreement s') -> session_inv st log x s' p.
Proof.
  intros Hst I Ec Es Hm E. inversion E as [Ea|a' S Ea|ib E1 E2 E3 E4 Ea|r r' E1 E2 E3 E4 E5 Ea]; clear E.
  - eapply session_inv_core; eauto; [rewrite Es; apply I|by rewrite <-Ea].
  - by eapply session_inv_stopped.
  - eapply session_inv_quiet; eauto; rewrite <-?Ea; simpl; try (by apply I).
    + rewrite Es; apply I.
    + split; [done|done|apply same_rounds_refl].
    + eapply inbox_accept_ok; eauto; [apply I|]. destruct E2 as [-> _]. by rewrite <-(inv_epoch _ _ _ _ _ Hst I).
  - unfold round_accept in E5. apply res_bind_Ok in E5 as (ib & Hib & E5).
    destruct (_ && _); [done|]. simplify_eq.
    eapply session_inv_quiet; eauto; rewrite <-?Ea; simpl; try (by apply I).
    + rewrite Es; apply I.
    + split; [done|done|]. simpl. rewrite E3. by constructor.
    + intros r' Hr'. simplify_eq. simpl. destruct (si_current _ _ _ _ _ I _ E3) as (_ & ? & _).
      eapply inbox_accept_ok; eauto. destruct E2 as [-> _]. by rewrite <-(inv_epoch _ _ _ _ _ Hst I).
Qed.

Lemma session_inv_capability st log x s s' p y d :
  (forall y d, st !! y = Some d -> static_ok y d) -> st !! y = Some d -> mirror (s_cfg s) d.1 ->
  session_inv st log x s p -> s_cfg s' = s_cfg s -> s_seq s' = s_seq s ->
  capability_effect d.2 (s_agreement s) (s_agreement s') -> session_inv st log x s' p.
Proof.
  intros Hst Hd M I Ec Es E. inversion E as [Ea|a' S Ea|a' E1 E2 E3 E4 E5 E6 E7 E8 E9 Ea]; clear E; subst.
  - eapply session_inv_core; eauto; [rewrite Es; apply I|by rewrite <-Ea].
  - by eapply session_inv_stopped.
  - eapply session_inv_quiet; eauto.
    + rewrite Es; apply I.
    + split; [done|done|]. rewrite E5. apply same_rounds_refl.
    + rewrite E4. intros c ?. simplify_eq. rewrite (so_epoch _ _ (Hst _ _ Hd)). exists d.1.
      split; [|done]. rewrite Hd. by destruct d.
    + rewrite E6. apply I.
    + rewrite E5. intros r Hr. by apply (si_current _ _ _ _ _ I).
Qed.

(** ** Sending *)
Lemma newEnvelope_spec kind raw s :
  (newEnvelope kind raw s).2 = packet_envelope (session_static s) kind raw (s_seq (newEnvelope kind raw s).1) /\
  s_cfg (newEnvelope kind raw s).1 = s_cfg s /\ s_agreement (newEnvelope kind raw s).1 = s_agreement s /\
  0 <= s_seq (newEnvelope kind raw s).1 <= u64_max.
Proof.
  unfold newEnvelope. simpl. split_and!; try done; unfold u64_add;
    pose proof (wrap_range 64 (s_seq s + 1)) as W; unfold u64_max; lia.
Qed.

(** The packets session [x] may send. *)
Definition packet_from (log : list (string * sel_event)) (x : string) (s : Session) (m : option control)
    (msg : Message) : Prop :=
  packet_of log x (session_static s) m
    (mkPacket (cfg_LocalNodeID (s_cfg s)) (cfg_PeerID (s_cfg s)) msg).

Lemma sendSelection_spec now ctxErr sendErr kind raw s s' sent err :
  sendSelection now ctxErr sendErr kind raw s = (s', sent, err) -> 0 <= s_seq s <= u64_max ->
  s_cfg s' = s_cfg s /\ s_agreement s' = s_agreement s /\ 0 <= s_seq s' <= u64_max /\
  match sent with
  | None => err <> None
  | Some msg => forall log x m, payload_of log x (session_static s) kind raw m -> packet_from log x s m msg
  end.
Proof.
  unfold sendSelection. intros E Hs. destruct (_ <? blen raw) eqn:L1; [by simplify_eq|].
  apply Z.ltb_ge in L1. pose proof (newEnvelope_spec kind raw s) as (N1 & N2 & N3 & N4).
  destruct (newEnvelope kind raw s) as [s1 env] eqn:En. simpl in *. subst env.
  unfold MarshalEnvelope in E.
  destruct (bool_decide _); [by simplify_eq|]. destruct (bool_decide _); [by simplify_eq|].
  destruct (_ <? blen _) eqn:L2; [by simplify_eq|]. apply Z.ltb_ge in L2.
  destruct ctxErr; simplify_eq; [done|]. split; [done|]. split; [done|]. split; [done|].
  intros log x m Hp. split; [done|done|]. simpl. eauto 10.
Qed.

Lemma sendCapability_spec now sendErr s s' sent err :
  sendCapability now sendErr s = (s', sent, err) -> 0 <= s_seq s <= u64_max ->
  s_cfg s' = s_cfg s /\ 0 <= s_seq s' <= u64_max /\
  (s_agreement s' = s_agreement s \/ stopped (s_agreement s) (s_agreement s')) /\
  match sent with
  | None => True
  | Some msg => forall log x, packet_from log x s None msg
  end.
Proof.
  unfold sendCapability. intros E Hs.
  pose proof (newEnvelope_spec MsgTypeCapability (marshal_selectionCapability (ag_local (s_agreement s))) s)
    as (N1 & N2 & N3 & N4).
  destruct (newEnvelope _ _ s) as [s1 env] eqn:En. simpl in *. subst env.
  unfold MarshalEnvelope in E.
  destruct (bool_decide _); [by simplify_eq; auto|].
  destruct (bool_decide _); [by simplify_eq; auto|].
  destruct (_ || _) eqn:L.
  - pose proof (stopSelection_stopped (selectionFailure "selection_invalid") s1) as (X1 & X2 & X3).
    destruct (stopSelection _ s1) as [s2 e]. simplify_eq/=. rewrite N3 in X3.
    split; [congruence|]. split; [lia|]. auto.
  - rewrite orb_false_iff, !Z.ltb_ge in L. destruct L as [L1 L2]. simplify_eq.
    split; [done|]. split; [lia|]. split; [auto|]. intros log x. split; [done|done|]. simpl. do 4 eexists. split; [done|].
    split; [apply po_capability|]. done.
Qed.

(** ** Events of the session itself *)
Lemma session_inv_phase st log x s p p' :
  session_inv st log x s p -> phase_ok st log x s p' -> session_inv st log x s p'.
Proof. intros [? ? ? ? ? ? ? ? ? ? _] Hp. by split. Qed.

Section own.
Context (st : gmap string static) (log : list (string * sel_event)) (x : string) (s : Session).
Let add ev : list (string * sel_event) := log ++ (pair x <$> [ev]).

Lemma session_inv_proposed g :
  session_inv st log x s (FSendProposal g) -> session_inv st (add (EvProposed g)) x s (FProposal g).
Proof.
  intros [S1 S2 S3 S4 S5 S6 S7 S8 S9 S10 [So Sn]]. unfold add.
  pose proof (log_own log x [EvProposed g]) as L.
  pose proof (inbox_ok_mono log x [EvProposed g]) as MI.
  pose proof (joint_ok_mono log x [EvProposed g]) as MJ.
  pose proof (answered_mono log x [EvProposed g]) as MA.
  pose proof (round_backed_mono log x [EvProposed g]) as MR.
  assert (g_ordinal g < next_ordinal (s_agreement s)) as Hn.
  { destruct So as [_ (r & Hr & E & _)]. unfold next_ordinal. rewrite Hr. lia. }
  split; try done; auto.
  - intros r (? & ? & ?)%S5. auto.
  - intros g' [Hg|Hg]%L; [by apply S6|]. apply list_elem_of_singleton in Hg. simplify_eq.
    split; [apply So|done].
  - intros g1 g2 [H1|H1]%L [H2|H2]%L E; rewrite ?list_elem_of_singleton in *; simplify_eq; auto;
      [apply Sn in H1|apply Sn in H2]; lia.
  - intros g' j' [Hg|Hg]%L; [|by apply list_elem_of_singleton in Hg].
    destruct (S8 _ _ Hg). split; [apply L; auto|auto].
  - intros g1 j1 g2 j2 [H1|H1]%L [H2|H2]%L; rewrite ?list_elem_of_singleton in *; simplify_eq; eauto.
  - intros g' j' o [Hg|Hg]%L; [|by apply list_elem_of_singleton in Hg].
    destruct (S10 _ _ _ Hg) as (? & ? & ?). split; [apply L; auto|auto].
  - simpl. split_and!; [done|apply L; set_solver|].
    intros g' j' [Hg|Hg]%L; [|by apply list_elem_of_singleton in Hg].
    apply S8 in Hg as [Hg _]. by apply Sn.
Qed.

Lemma session_inv_confirming g j :
  session_inv st log x s (FSendConfirm g j) ->
  session_inv st (add (EvConfirming g j)) x s (FConfirm g j).
Proof.
  intros [S1 S2 S3 S4 S5 S6 S7 S8 S9 S10 (So & Sp & Sn & Sj)]. unfold add.
  pose proof (log_own log x [EvConfirming g j]) as L.
  pose proof (inbox_ok_mono log x [EvConfirming g j]) as MI.
  pose proof (joint_ok_mono log x [EvConfirming g j]) as MJ.
  pose proof (answered_mono log x [EvConfirming g j]) as MA.
  pose proof (round_backed_mono log x [EvConfirming g j]) as MR.
  split; try done; auto.
  - intros r (? & ? & ?)%S5. auto.
  - intros g' [Hg|Hg]%L; [by apply S6|by apply list_elem_of_singleton in Hg].
  - intros g1 g2 [H1|H1]%L [H2|H2]%L E; rewrite ?list_elem_of_singleton in *; simplify_eq; auto.
  - intros g' j' [Hg|Hg]%L.
    + destruct (S8 _ _ Hg). split; [apply L; auto|auto].
    + apply list_elem_of_singleton in Hg. simplify_eq. split; [apply L; auto|auto].
  - intros g1 j1 g2 j2 [H1|H1]%L [H2|H2]%L E; rewrite ?list_elem_of_singleton in *; simplify_eq; eauto;
      [apply Sn in H1|apply Sn in H2]; lia.
  - intros g' j' o [Hg|Hg]%L; [|by apply list_elem_of_singleton in Hg].
    destruct (S10 _ _ _ Hg) as (? & ? & ?). split; [apply L; auto|auto].
  - simpl. split; [done|]. apply L; set_solver.
Qed.

Lemma session_inv_commit g j now ctxErr s' :
  session_inv st log x s (FCommit g j) -> agree_commit now ctxErr g j s = inr s' ->
  session_inv st (add (EvConfirmed g j (ordered_candidates (jt_Order j) (g_candidates g)))) x s' FIdle.
Proof.
  intros [S1 S2 S3 S4 S5 S6 S7 S8 S9 S10 (So & Sc & Sa)] E. unfold add.
  set (ev := EvConfirmed _ _ _).
  pose proof (log_own log x [ev]) as L. pose proof (inbox_ok_mono log x [ev]) as MI.
  pose proof (joint_ok_mono log x [ev]) as MJ. pose proof (answered_mono log x [ev]) as MA.
  unfold agree_commit in E. destruct (ag_err (s_agreement s)) eqn:Ee; [done|].
  destruct (_ || _); [done|]. simplify_eq.
  destruct So as [Hg (r & Hr & R1 & R2 & R3 & R4)]. destruct (S5 _ Hr) as (X1 & X2 & X3).
  assert (forall a, next_ordinal (set_current (set_confirmed (joint_digest j) (joint_strategy j) <$> ag_current a) a)
    = next_ordinal a) as En by (intros a; unfold next_ordinal; simpl; by destruct (ag_current a)).
  split; simpl; rewrite ?En; auto.
  - intros r' Hr'. rewrite Hr in Hr'. simplify_eq/=. split_and!; auto; try lia.
    intros _. exists g, j, (ordered_candidates (jt_Order j) (g_candidates g)).
    split_and!; try done. apply L. set_solver.
  - intros g' [Hg'|Hg']%L; [by apply S6|by apply list_elem_of_singleton in Hg'].
  - intros g1 g2 [H1|H1]%L [H2|H2]%L E; rewrite ?list_elem_of_singleton in *; simplify_eq; auto.
  - intros g' j' [Hg'|Hg']%L; [|by apply list_elem_of_singleton in Hg'].
    destruct (S8 _ _ Hg'). split; [apply L; auto|auto].
  - intros g1 j1 g2 j2 [H1|H1]%L [H2|H2]%L E; rewrite ?list_elem_of_singleton in *; simplify_eq; eauto.
  - intros g' j' o [Hg'|Hg']%L.
    + destruct (S10 _ _ _ Hg') as (? & ? & ?). split; [apply L; auto|auto].
    + apply list_elem_of_singleton in Hg'. unfold ev in Hg'. simplify_eq. split; [apply L; auto|auto].
  - intros _ r' Hr'. simpl in Hr'. rewrite Hr in Hr'. by simplify_eq/=.
Qed.

Lemma session_inv_entered n y :
  session_inv st log x s FIdle -> session_inv st (add (EvEntered n y)) x s FIdle.
Proof.
  intros [S1 S2 S3 S4 S5 S6 S7 S8 S9 S10 S11]. unfold add. set (ev := EvEntered n y).
  pose proof (log_own log x [ev]) as L. pose proof (inbox_ok_mono log x [ev]) as MI.
  pose proof (joint_ok_mono log x [ev]) as MJ. pose proof (answered_mono log x [ev]) as MA.
  pose proof (round_backed_mono log x [ev]) as MR.
  assert (forall ev', (x, ev') ∈ log ++ (pair x <$> [ev]) -> ev' = ev \/ (x, ev') ∈ log) as L'.
  { intros ev' [?|?%list_elem_of_singleton]%L; auto. }
  split; auto.
  - intros r (? & ? & ?)%S5. auto.
  - intros g [?|Hg]%L'; [done|]. by apply S6.
  - intros g1 g2 [?|H1]%L' [?|H2]%L'; auto; done.
  - intros g j [?|Hg]%L'; [done|]. destruct (S8 _ _ Hg). split; [apply L; auto|auto].
  - intros g1 j1 g2 j2 [?|H1]%L' [?|H2]%L'; eauto; done.
  - intros g j o [?|Hg]%L'; [done|]. destruct (S10 _ _ _ Hg) as (? & ? & ?). split; [apply L; auto|auto].
Qed.

Lemma session_inv_begin start candidates newPass s' g :
  (forall y d, st !! y = Some d -> static_ok y d) ->
  session_inv st log x s (FBegin start candidates newPass) ->
  agree_begin start candidates newPass s = BeginRound s' g ->
  session_inv st log x s' (FSendProposal g).
Proof.
  intros Hst [S1 S2 S3 S4 S5 S6 S7 S8 S9 S10 S11] E. unfold agree_begin in E.
  destruct (ag_err (s_agreement s)) eqn:Ee; [done|].
  destruct (ag_remote (s_agreement s)) as [c|] eqn:Er; [|done].
  destruct (match ag_current _ with Some _ => _ | None => _ end) eqn:Em; [done|].
  set (prev := match ag_current (s_agreement s) with Some r => rd_digest r | None => ""%string end).
  replace (match ag_current (s_agreement s) with
           | Some r => (rd_ordinal r + 1, rd_digest r) | None => (0, ""%string) end)
    with (next_ordinal (s_agreement s), prev) in E
    by (unfold next_ordinal, prev; by destruct (ag_current (s_agreement s))).
  destruct (negb (forallb _ _)) eqn:Ef; [done|]. apply negb_false_iff in Ef. rewrite forallb_forall in Ef.
  destruct (negb (selectionList _ _ _)) eqn:El; [done|]. apply negb_false_iff in El.
  destruct (S3 _ eq_refl) as (cfg & Hc & M).
  assert (0 <= next_ordinal (s_agreement s) <= u64_max) as Hn.
  { unfold next_ordinal. destruct (ag_current (s_agreement s)) as [r|] eqn:Hr.
    - destruct (S5 _ eq_refl) as (? & _). apply Z.eqb_neq in Em. lia.
    - unfold u64_max. lia. }
  assert (if next_ordinal (s_agreement s) =? 0 then prev = ""%string else selectionHex prev 32 = true) as Hp.
  { unfold next_ordinal, prev. destruct (ag_current (s_agreement s)) as [r|] eqn:Hr; [|done].
    destruct (S5 _ eq_refl) as (? & _ & B). rewrite (proj2 (Z.eqb_neq _ _)) by lia.
    destruct (B (S11 Ee _ Hr)) as (g0 & j0 & o0 & _ & _ & -> & _). apply selectionHash_hex. }
  destruct (if newPass then _ else _) as [st1 dl1]. destruct (if next_ordinal _ =? 0 then _ else _) as [st2 dl2].
  pose proof (so_epoch _ _ (Hst _ _ S1)) as Ex. simpl in Ex.
  simplify_eq. split; simpl; auto.
  - by rewrite Er.
  - apply empty_inbox_ok.
  - intros r ?. simplify_eq/=. done.
  - intros g Hg. destruct (S6 g Hg). split; [done|]. unfold next_ordinal at 1. simpl. lia.
  - split; [|intros g' Hg'; by apply S6]. split.
    + split; simpl; try done.
      * intros n Hn'. specialize (Ef n (proj1 (list_elem_of_In _ _) Hn')).
        apply andb_true_iff in Ef as [F1 F2]. unfold contains in F1, F2. by rewrite !bool_decide_eq_true in F1, F2.
      * by exists (cfg, c).
    + simpl. eexists. split_and!; done.
Qed.
End own.

(** ** The steps of the session itself *)
Section front.
Context (st : gmap string static) (log : list (string * sel_event)) (x : string) (s : Session).
Hypothesis Hst : forall y d, st !! y = Some d -> static_ok y d.

(** What a step promises: the invariant, the static part, and its packets. *)
Definition kept (r : step_result) : Prop :=
  let '(s', p', msgs, evs) := r in
  session_inv st (log ++ (pair x <$> evs)) x s' p' /\ session_static s' = session_static s /\
  Forall (fun msg => exists m, packet_from (log ++ (pair x <$> evs)) x s m msg) msgs.

Lemma kept_quiet s' p' :
  session_inv st log x s' p' -> session_static s' = session_static s -> kept (s', p', [], []).
Proof. intros I E. simpl. rewrite app_nil_r. auto. Qed.

Lemma kept_core p s' :
  session_inv st log x s p -> s_cfg s' = s_cfg s -> s_seq s' = s_seq s ->
  same_core (s_agreement s) (s_agreement s') -> kept (s', p, [], []).
Proof.
  intros I E1 E2 C. apply kept_quiet.
  - eapply session_inv_core; eauto. rewrite E2. apply I.
  - unfold session_static. destruct C as (-> & _). by rewrite E1.
Qed.

Lemma kept_stopped p s' :
  session_inv st log x s p -> s_cfg s' = s_cfg s -> s_seq s' = s_seq s ->
  stopped (s_agreement s) (s_agreement s') -> kept (s', FIdle, [], []).
Proof.
  intros I E1 E2 S. apply kept_quiet.
  - eapply session_inv_phase; [by eapply session_inv_stopped|]. simpl. intros E.
    destruct S as [_ _ [e He] _ _ _ _]. congruence.
  - unfold session_static. destruct S as [-> _ _ _ _ _ _]. by rewrite E1.
Qed.

Lemma kept_phase p p' : session_inv st log x s p -> phase_ok st log x s p' -> kept (s, p', [], []).
Proof. intros I P. apply kept_quiet; [by eapply session_inv_phase|done]. Qed.

Lemma kept_returned p : session_inv st log x s p -> is_Some (ag_err (s_agreement s)) -> kept (s, FIdle, [], []).
Proof. intros I [e E]. eapply kept_phase; [done|]. simpl. intros E'. congruence. Qed.

Lemma kept_cleanup p err s' :
  session_inv st log x s p -> p = FIdle -> s_cfg s' = s_cfg s -> s_seq s' = s_seq s ->
  same_core (s_agreement (selectionCleanup err s)) (s_agreement s') -> kept (s', FIdle, [], []).
Proof.
  intros I -> E1 E2 C. destruct err as [e|]; simpl in C; [|by eapply kept_core].
  set (a' := set_cleanup (Some e) (ag_strategyClosed (s_agreement s)) (ag_previous (s_agreement s))
    (ag_activeExecutors (s_agreement s)) (s_agreement s)) in *.
  set (s1 := set_agreement a' s). assert (session_inv st log x s1 FIdle) as I1.
  { eapply session_inv_core; [apply I|done|apply I|done]. }
  assert (session_inv st log x s' FIdle) as I2.
  { set (s2 := set_agreement (stopLocked (selectionFailure "selection_previous_active") a').1 s).
    assert (session_inv st log x s2 FIdle) as I2.
    { eapply session_inv_stopped; [apply I1|done|done|]. apply stopLocked_stopped. }
    eapply session_inv_core; [apply I2|done|rewrite E2; apply I|done]. }
  apply kept_quiet; [done|]. unfold session_static. rewrite E1. destruct C as (-> & _).
  by rewrite (st_local _ _ (stopLocked_stopped _ a')).
Qed.

Lemma selectionCleanup_cfg err :
  s_cfg (selectionCleanup err s) = s_cfg s /\ s_seq (selectionCleanup err s) = s_seq s.
Proof. by destruct err. Qed.

Lemma kept_enter strategy ctxErr now r :
  session_inv st log x s FIdle -> front_call (CallEnter strategy ctxErr now) s = Some r -> kept r.
Proof.
  intros I E. simpl in E. destruct (enterSelection now ctxErr strategy s) as [s' err] eqn:Es.
  simplify_eq. unfold enterSelection in Es.
  assert (forall e, stop_with e s = (s', err) -> is_Some err /\ kept (s', FIdle, [], [])) as Stop.
  { intros e Ee. destruct (stop_with_stopped e s) as (X1 & X2 & X3). rewrite Ee in X1, X2, X3.
    unfold stop_with in Ee. destruct (stopSelection e s). simplify_eq. split; [eauto|].
    by eapply kept_stopped. }
  destruct (ag_err (s_agreement s)) eqn:Ee; [simplify_eq; by eapply kept_core|].
  destruct (ag_current (s_agreement s)) as [round|] eqn:Er; [|destruct (Stop _ Es) as [[? ->] ?]; done].
  destruct (_ || _); [destruct (Stop _ Es) as [[? ->] ?]; done|].
  destruct ctxErr; [destruct (Stop _ Es) as [[? ->] ?]; done|].
  destruct (negb _); [destruct (Stop _ Es) as [[? ->] ?]; done|].
  simplify_eq. split; [|split; [done|constructor]]. apply session_inv_entered.
  eapply session_inv_quiet; eauto; simpl; try (by apply I).
  - split; simpl; [done|done|]. rewrite Er. by constructor.
  - intros r ?. simplify_eq/=. destruct (si_current _ _ _ _ _ I _ Er) as (_ & ? & _). done.
Qed.

Lemma kept_call i r : session_inv st log x s FIdle -> front_call i s = Some r -> kept r.
Proof.
  intros I E. destruct i; simpl in E; try done; unfold quiet in E.
  - simplify_eq. eapply kept_core; eauto; unfold beginSelectionPass;
      destruct (ag_err (s_agreement s)) eqn:Ee; simpl; try done.
  - destruct (sendCapability now sendErr s) as [[s' sent] err] eqn:Es. simplify_eq.
    apply sendCapability_spec in Es as (E1 & E2 & E3 & E4); [|apply I]. simpl. rewrite app_nil_r.
    assert (session_inv st log x s' FIdle) as I'.
    { destruct E3 as [E3|E3]; [eapply session_inv_core; eauto; by rewrite E3|].
      set (s1 := set_agreement (s_agreement s') s).
      eapply (session_inv_core _ _ _ s1); try done.
      eapply session_inv_stopped; eauto. }
    split; [|split].
    + destruct err; [by eapply session_inv_phase|done].
    + unfold session_static. rewrite E1. destruct E3 as [-> |[-> _ _ _ _ _ _]]; done.
    + destruct sent; constructor; [|constructor]. eauto.
  - simplify_eq. eapply kept_phase; [done|apply I].
  - simplify_eq. eapply kept_phase; [done|]. unfold start_agree.
    destruct (requirePreviousSelectionClosed s); [done|apply I].
  - simplify_eq. eapply kept_phase; [done|]. destruct (prepare_ready candidate s); [apply I|].
    unfold start_agree. destruct (requirePreviousSelectionClosed s); [done|apply I].
  - by eapply kept_enter.
  - simplify_eq. by eapply kept_core.
  - simplify_eq. eapply kept_cleanup; [done|done|..]; unfold closeSelectionExecutor; simpl;
      destruct (bool_decide (err = None)); simpl; try apply selectionCleanup_cfg; done.
  - simplify_eq. eapply kept_cleanup; [done|done|..]; unfold closeSelectionStrategy; simpl;
      destruct (_ && _); simpl; try apply selectionCleanup_cfg; done.
  - simplify_eq. eapply kept_core; eauto; unfold selectionExecutionContext; simpl; by destruct (_ && _).
Qed.

Lemma take_changed_core s' :
  take_changed s = Some s' ->
  s_cfg s' = s_cfg s /\ s_seq s' = s_seq s /\ same_core (s_agreement s) (s_agreement s').
Proof. unfold take_changed. destruct (ag_changed _); [|done]. intros. by simplify_eq. Qed.

Lemma kept_taken p p' r :
  session_inv st log x s p ->
  (forall s', session_inv st log x s' p -> session_inv st log x s' p') ->
  take_changed s ≫= (fun s' => quiet s' p') = Some r -> kept r.
Proof.
  intros I Hp E. apply bind_Some in E as (s' & (E1 & E2 & E3)%take_changed_core & E).
  unfold quiet in E. simplify_eq.
  pose proof (kept_core _ _ I E1 E2 E3) as (I' & ? & _). rewrite app_nil_r in I'.
  apply kept_quiet; auto.
Qed.

Lemma kept_send p kind raw now ctxErr sendErr next ev m r :
  session_inv st log x s p -> step_send kind raw now ctxErr sendErr next ev s = Some r ->
  (forall s', session_inv st log x s' p -> session_inv st (log ++ (pair x <$> [ev])) x s' next) ->
  payload_of (log ++ (pair x <$> [ev])) x (session_static s) kind raw m -> kept r.
Proof.
  intros I E Hn Hp. unfold step_send in E.
  destruct (sendSelection now ctxErr sendErr kind raw s) as [[s' sent] err] eqn:Es. simplify_eq.
  apply sendSelection_spec in Es as (E1 & E2 & E3 & E4); [|apply I].
  assert (session_inv st log x s' p) as I'.
  { eapply session_inv_core; eauto. by rewrite E2. }
  assert (session_static s' = session_static s) as Ess by (unfold session_static; congruence).
  destruct sent as [msg|]; simpl.
  - split; [|split; [done|]].
    + destruct err; [by eapply session_inv_phase; [apply Hn|]|by apply Hn].
    + constructor; [eauto|constructor].
  - destruct err; [|done]. apply kept_quiet; [by eapply session_inv_phase|done].
Qed.

Lemma kept_step i p r : session_inv st log x s p -> front_step i s p = Some r -> kept r.
Proof.
  intros I E. destruct p; simpl in E; [by eapply kept_call|..]; destruct i; try done; unfold quiet in E.
  - simplify_eq. destruct (stopSelection_stopped err s) as (X1 & X2 & X3). by eapply kept_stopped.
  - unfold capability_turn in E. destruct (ag_err (s_agreement s)) eqn:Ee;
      [simplify_eq; eapply kept_returned; eauto|].
    assert (forall p', phase_ok st log x s p' -> kept (s, p', [], [])) as K by (intros; by eapply kept_phase).
    pose proof (si_phase _ _ _ _ _ I) as P. simpl in P.
    destruct ctx1; [simplify_eq; by apply K|].
    destruct (_ && _); [destruct ctx2; simplify_eq; by apply K|].
    destruct (ag_remote (s_agreement s)); simplify_eq; by apply K.
  - eapply kept_taken; [done| |done]. intros s' I'. eapply session_inv_phase; [done|apply I'].
  - simplify_eq. eapply kept_phase; [done|apply I].
  - destruct (agree_begin start candidates newPass s) as [e|e|s' g] eqn:Eb; simplify_eq.
    + eapply kept_phase; [done|apply I].
    + by eapply kept_phase.
    + apply kept_quiet; [by eapply session_inv_begin|].
      pose proof (si_static _ _ _ _ _ (session_inv_begin _ _ _ _ _ _ _ _ _ Hst I Eb)) as X.
      rewrite (si_static _ _ _ _ _ I) in X. congruence.
  - eapply kept_send; [done|done| |].
    + intros s' I'. by apply session_inv_proposed.
    + apply po_proposal. apply log_own. set_solver.
  - destruct (ag_err (s_agreement s)) eqn:Ee; [simplify_eq; eapply kept_returned; eauto|].
    destruct (si_phase _ _ _ _ _ I) as (So & Sp & Sn).
    destruct (ib_proposal (remote_inbox s)) as [q|] eqn:Eq; [|simplify_eq; by eapply kept_phase].
    destruct (check_proposal _ g q) as [j|e] eqn:Ej; simplify_eq; [|by eapply kept_phase].
    eapply kept_phase; [done|]. simpl. split_and!; try done.
    destruct So as [_ (r & Hr & _)]. unfold remote_inbox in Eq. rewrite Hr in Eq.
    destruct (si_current _ _ _ _ _ I _ Hr) as (_ & Io & _).
    destruct (io_proposal _ _ _ _ Io _ Eq) as (y & g' & ? & -> & _). exists y, g'. done.
  - eapply kept_taken; [done| |done]. intros s' I'. eapply session_inv_phase; [done|apply I'].
  - simplify_eq. by eapply kept_phase.
  - eapply kept_send; [done|done| |].
    + intros s' I'. by apply session_inv_confirming.
    + apply po_confirm. apply log_own. set_solver.
  - destruct (ag_err (s_agreement s)) eqn:Ee; [simplify_eq; eapply kept_returned; eauto|].
    destruct (si_phase _ _ _ _ _ I) as (So & Sc).
    destruct (ib_confirm (remote_inbox s)) as [q|] eqn:Eq; [|simplify_eq; by eapply kept_phase].
    destruct (check_confirmation g joint q) eqn:Ej; simplify_eq; [|by eapply kept_phase].
    eapply kept_phase; [done|]. simpl. split_and!; try done.
    destruct So as [_ (r & Hr & _)]. unfold remote_inbox in Eq. rewrite Hr in Eq.
    destruct (si_current _ _ _ _ _ I _ Hr) as (_ & Io & _).
    destruct (io_confirm _ _ _ _ Io _ Eq) as (y & g' & j' & ? & -> & _). exists y, g', j'. done.
  - eapply kept_taken; [done| |done]. intros s' I'. eapply session_inv_phase; [done|apply I'].
  - simplify_eq. by eapply kept_phase.
  - destruct (agree_commit now ctxErr g joint s) as [[e|e|]|s'] eqn:Ec; simplify_eq.
    + eapply kept_returned; [done|]. unfold agree_commit in Ec.
      destruct (ag_err (s_agreement s)); [eauto|]. destruct (_ || _); by simplify_eq.
    + by eapply kept_phase.
    + pose proof (session_inv_commit _ _ _ _ _ _ _ _ _ I Ec) as I'.
      split; [done|]. split; [|constructor]. pose proof (si_static _ _ _ _ _ I') as X.
      rewrite (si_static _ _ _ _ _ I) in X. congruence.
Qed.
End front.
End pres.
