(* ===== verification/SelectionThms.v ===== *)
(** * The selection agreement: the theorems *)
From stdpp Require Import sorting pretty.
From S2P Require Import Prelude GoStd LivenessWire SelectionWire SelectionWireThms Selection SelectionNet SelectionInv SelectionDeliver SelectionPres.
Open Scope go_scope.

Section thms.
Context {J : SelectionJSON} {JL : SelectionJSONLaws J} {H : Sha256} {HL : Sha256Laws H}.
Context (allowed : Session -> sel_input -> Prop).

(** ** Worlds *)
Definition statics (w : sel_world) : gmap string static := (fun sp => session_static sp.1) <$> sw_sessions w.

Lemma statics_lookup w x s p : sw_sessions w !! x = Some (s, p) -> statics w !! x = Some (session_static s).
Proof. intros E. unfold statics. by rewrite lookup_fmap, E. Qed.

Lemma statics_Some w x c :
  statics w !! x = Some c -> exists s p, sw_sessions w !! x = Some (s, p) /\ c = session_static s.
Proof.
  unfold statics. rewrite lookup_fmap. intros ([s p] & E & ->)%fmap_Some. eauto.
Qed.

Record world_inv (w : sel_world) : Prop := {
  wi_static : forall x c, statics w !! x = Some c -> static_ok x c;
  wi_session : forall x s p, sw_sessions w !! x = Some (s, p) ->
    session_inv (statics w) (sw_log w) x s p;
  wi_owner : forall x ev, (x, ev) ∈ sw_log w -> is_Some (sw_sessions w !! x);
  wi_net : Forall (packet_ok (statics w) (sw_log w)) (sw_net w);
}.

Lemma world_log_ok w : world_inv w -> log_ok (statics w) (sw_log w).
Proof.
  intros W. split.
  - intros y g Hg. destruct (wi_owner _ W _ _ Hg) as [[s p] E].
    pose proof (wi_session _ W _ _ _ E) as I. exists (session_static s). split; [by apply statics_lookup in E|].
    by apply (si_proposed _ _ _ _ _ I).
  - intros y g j Hg. destruct (wi_owner _ W _ _ Hg) as [[s p] E].
    pose proof (wi_session _ W _ _ _ E) as I. destruct (si_confirming _ _ _ _ _ I _ _ Hg).
    split; [done|]. exists (session_static s). split; [by apply statics_lookup in E|done].
Qed.

Lemma payload_of_mono log e evs y d kind raw m :
  payload_of log y d kind raw m -> payload_of (log ++ (pair e <$> evs)) y d kind raw m.
Proof. intros [|g ?|g j ?]; constructor; set_solver. Qed.

Lemma packet_ok_mono st st' log e evs pk :
  st ⊆ st' -> packet_ok st log pk -> packet_ok st' (log ++ (pair e <$> evs)) pk.
Proof.
  intros Hs [?|(y & d & m & Hd & [P1 P2 (k & raw & seq & at_ & P3 & P4 & P5)])]; [by left|].
  right. exists y, d, m. split; [by eapply lookup_weaken|]. split; try done.
  exists k, raw, seq, at_. split; [done|]. split; [by apply payload_of_mono|done].
Qed.

(** A session changes, with its own events and packets. *)
Lemma world_inv_update w e s p s' p' evs pks :
  world_inv w -> sw_sessions w !! e = Some (s, p) -> session_static s' = session_static s ->
  session_inv (statics w) (sw_log w ++ (pair e <$> evs)) e s' p' ->
  Forall (packet_ok (statics w) (sw_log w ++ (pair e <$> evs))) pks ->
  world_inv (mkSelWorld (<[e := (s', p')]> (sw_sessions w)) (sw_net w ++ pks) (sw_log w ++ (pair e <$> evs))).
Proof.
  intros W E Es I P.
  assert (statics (mkSelWorld (<[e := (s', p')]> (sw_sessions w)) (sw_net w ++ pks)
    (sw_log w ++ (pair e <$> evs))) = statics w) as Est.
  { unfold statics. simpl. rewrite fmap_insert. simpl. apply insert_id. rewrite lookup_fmap, E. simpl.
    by rewrite Es. }
  split; rewrite ?Est; simpl.
  - apply W.
  - intros x sx px [[<- Ex]|[Hne Ex]]%lookup_insert_Some; [by simplify_eq|].
    eapply session_inv_mono; [done|done|by apply W].
  - intros x ev [Hx|Hx]%elem_of_app.
    + destruct (decide (x = e)) as [->|]; [rewrite lookup_insert_eq; eauto|].
      rewrite lookup_insert_ne by done. by eapply wi_owner.
    + apply list_elem_of_fmap in Hx as (? & ? & _). simplify_eq. rewrite lookup_insert_eq; eauto.
  - apply Forall_app. split; [|done]. eapply Forall_impl; [apply W|]. intros pk. by apply packet_ok_mono.
Qed.

Lemma world_inv_init : world_inv sel_init.
Proof.
  split; simpl; set_solver.
Qed.

Lemma sent_payload w y d kind raw m :
  world_inv w -> payload_of (sw_log w) y d kind raw (Some m) -> sent_control (sw_log w) m.
Proof.
  intros W Hp. pose proof (world_log_ok _ W) as L. unfold sent_control.
  inversion Hp as [|g Hg|g j Hg]; subst; unfold control_ordinal; simpl.
  - destruct (lo_proposed _ _ L _ _ Hg) as (d' & _ & Ag). exists y, g. split_and!; [done..|].
    destruct (go_peer _ _ _ _ Ag) as (? & _ & _ & _ & ->). simpl.
    by rewrite selectionOrdinal_FormatUint by apply Ag.
  - destruct (lo_confirming _ _ L _ _ _ Hg) as (Hg' & _).
    destruct (lo_proposed _ _ L _ _ Hg') as (d' & _ & Ag). exists y, g, j. split_and!; [done..|].
    destruct (go_peer _ _ _ _ Ag) as (? & _ & _ & _ & ->). simpl.
    by rewrite selectionOrdinal_FormatUint by apply Ag.
Qed.

(** What a delivery does to the agreement of a session. *)
Inductive delivered (w : sel_world) (s : Session) (a' : selectionAgreement) : Prop :=
| dl_same : a' = s_agreement s -> delivered w s a'
| dl_stop : stopped (s_agreement s) a' -> delivered w s a'
| dl_capability y d :
    statics w !! y = Some d -> mirror (s_cfg s) d.1 ->
    capability_effect d.2 (s_agreement s) a' -> delivered w s a'
| dl_control m :
    sent_control (sw_log w) m -> control_effect m (s_agreement s) a' -> delivered w s a'.

Lemma deliver_effect w e s p pk now at_ :
  world_inv w -> sw_sessions w !! e = Some (s, p) -> pk ∈ sw_net w ->
  let s' := (HandleMessageFrom now (pk_from pk) (received_at at_ (pk_msg pk)) s).1 in
  s_cfg s' = s_cfg s /\ s_seq s' = s_seq s /\ delivered w s (s_agreement s').
Proof.
  intros W E Hpk s'. pose proof (world_log_ok _ W) as L. pose proof (statics_lookup _ _ _ _ E) as Es.
  assert (forall e0, s_cfg (stop_with e0 s).1 = s_cfg s /\ s_seq (stop_with e0 s).1 = s_seq s /\
    delivered w s (s_agreement (stop_with e0 s).1)) as Stop.
  { intros e0. destruct (stop_with_stopped e0 s) as (X1 & X2 & X3). split_and!; [done..|by apply dl_stop]. }
  pose proof (proj1 (Forall_forall _ _) (wi_net _ W) _ Hpk) as [Ht|(y & d & m & Hd & Pk)].
  - unfold s'. destruct (handle_other now (pk_from pk) at_ _ s Ht) as [-> |(X1 & X2 & X3)]; [apply Stop|].
    split_and!; [done..|by apply dl_same].
  - unfold s'. destruct (handle_packet _ _ _ _ _ _ _ s now at_ (wi_static _ W) L Hd Pk (wi_static _ W _ _ Es))
      as [-> |(M & at' & t & ->)]; [apply Stop|]. clear s'.
    destruct Pk as [_ _ (kind & raw & seq & at0 & _ & Hp & _)]. destruct m as [m|]; simpl.
    + destruct (accept_control_effect m (set_last_envelope t at' s)) as (X1 & X2 & X3).
      split_and!; [done..|]. eapply dl_control; [by eapply sent_payload|done].
    + destruct (accept_capability_effect now d.2 (set_last_envelope t at' s)) as (X1 & X2 & X3).
      destruct (accept_capability now d.2 (set_last_envelope t at' s)) as [[s2 err] snap]. simpl in *.
      assert (delivered w s (s_agreement s2)) by by eapply dl_capability.
      by destruct snap.
Qed.

Lemma delivered_local w s a' : delivered w s a' -> ag_local a' = ag_local (s_agreement s).
Proof.
  intros [-> |S|y d _ _ [|a1 S|a1]|m _ [|a1 S| |]]; try done; by rewrite (st_local _ _ S).
Qed.

Lemma deliver_inv w e s p pk now at_ :
  world_inv w -> sw_sessions w !! e = Some (s, p) -> pk ∈ sw_net w ->
  let s' := (HandleMessageFrom now (pk_from pk) (received_at at_ (pk_msg pk)) s).1 in
  session_inv (statics w) (sw_log w) e s' p /\ session_static s' = session_static s.
Proof.
  intros W E Hpk s'. pose proof (wi_session _ W _ _ _ E) as I.
  destruct (deliver_effect _ _ _ _ _ now at_ W E Hpk) as (X1 & X2 & D). fold s' in X1, X2, D.
  split; [|unfold session_static; by rewrite X1, (delivered_local _ _ _ D)].
  destruct D as [Ea|S|y d Hd M C|m Hm C].
  - eapply session_inv_core; eauto; [rewrite X2; apply I|by rewrite Ea].
  - by eapply session_inv_stopped.
  - eapply session_inv_capability; eauto. apply W.
  - eapply session_inv_control; eauto. apply W.
Qed.

Lemma world_inv_step w w' : world_inv w -> sel_step allowed w w' -> world_inv w'.
Proof.
  intros W S. destruct S as [w cfg resolver random s E Hn|w e i s p s' p' msgs evs E _ F|
    w e s p pk now at_ E Hpk Hto|w e s p E|w pk Ht].
  - apply NewConverging_Ok in E as (So & _ & Eq & Er & Ec & Ef & Ee).
    set (e := sc_Epoch (ag_local (s_agreement s))) in *.
    assert (statics w !! e = None) as Hs by (unfold statics; by rewrite lookup_fmap, Hn).
    assert (statics (mkSelWorld (<[e := (s, FIdle)]> (sw_sessions w)) (sw_net w) (sw_log w))
      = <[e := session_static s]> (statics w)) as Est by (unfold statics; simpl; by rewrite fmap_insert).
    assert (statics w ⊆ <[e := session_static s]> (statics w)) as Hsub by by apply insert_subseteq.
    assert (forall ev, (e, ev) ∉ sw_log w) as Hno.
    { intros ev Hin. destruct (wi_owner _ W _ _ Hin). congruence. }
    split; rewrite ?Est; simpl.
    + intros x c [[<- <-]|[_ ?]]%lookup_insert_Some; [done|by apply W].
    + intros x sx px [[<- Ex]|[Hne Ex]]%lookup_insert_Some.
      * simplify_eq. split; try (by rewrite lookup_insert_eq); try (by intros; exfalso; eapply Hno).
        -- rewrite Eq. unfold u64_max. lia.
        -- by rewrite Er.
        -- rewrite Ef. apply empty_inbox_ok.
        -- by rewrite Ec.
        -- simpl. intros _. by rewrite Ec.
      * rewrite <-(app_nil_r (sw_log w)). eapply (session_inv_mono _ e []); [done|done|by apply W].
    + intros x ev Hx. destruct (decide (x = e)) as [->|]; [rewrite lookup_insert_eq; eauto|].
      rewrite lookup_insert_ne by done. by eapply wi_owner.
    + rewrite <-(app_nil_r (sw_log w)). eapply Forall_impl; [apply W|]. intros pk.
      by apply (packet_ok_mono _ _ _ e []).
  - pose proof (wi_session _ W _ _ _ E) as I.
    destruct (kept_step _ _ _ _ (wi_static _ W) _ _ _ I F) as (I' & Es & Hm).
    eapply world_inv_update; eauto. apply Forall_fmap. eapply Forall_impl; [exact Hm|].
    intros msg (m & Hp). right. exists e, (session_static s), m. split; [by eapply statics_lookup|done].
  - destruct (deliver_inv _ _ _ _ _ now at_ W E Hpk) as [I' Es].
    pose proof (world_inv_update w e s p _ p [] [] W E Es) as U. rewrite !app_nil_r in U.
    apply U; [done|constructor].
  - destruct (stopSelection_stopped (selectionFailure "selection_closed") s) as (X1 & X2 & X3).
    pose proof (wi_session _ W _ _ _ E) as I.
    pose proof (world_inv_update w e s p (stopSelection (selectionFailure "selection_closed") s).1 p [] [] W E) as U.
    rewrite !app_nil_r in U. apply U; [|by eapply session_inv_stopped|constructor].
    unfold session_static. rewrite X1. by destruct X3 as [-> _ _ _ _ _ _].
  - split; try (by apply W). simpl. constructor; [by left|apply W].
Qed.

Lemma world_inv_reachable w : sel_reachable allowed w -> world_inv w.
Proof.
  intros R. unfold sel_reachable in R.
  assert (forall w0, world_inv w0 -> rtc (sel_step allowed) w0 w -> world_inv w) as G.
  { intros w0 W0 R0. induction R0; eauto using world_inv_step. }
  eapply G; [apply world_inv_init|done].
Qed.

(** ** Agreement *)
Lemma ordered_names order candidates :
  (forall n, n ∈ order -> n ∈ cd_Name <$> candidates) ->
  cd_Name <$> ordered_candidates order candidates = order.
Proof.
  induction order as [|n order IH]; intros Hs; [done|]. unfold ordered_candidates in *. simpl.
  assert (n ∈ cd_Name <$> candidates) as Hn by set_solver.
  apply list_elem_of_fmap in Hn as (c & Ec & Hc).
  destruct (List.find (fun c => bool_decide (cd_Name c = n)) candidates) as [c'|] eqn:Ef; simpl.
  - apply find_some in Ef as [_ Ef]. rewrite bool_decide_eq_true in Ef. f_equal; [done|]. apply IH. set_solver.
  - exfalso. apply list_elem_of_In, (find_none _ _ Ef) in Hc. by rewrite bool_decide_eq_false in Hc.
Qed.

Lemma expected_binding_invol b : expected_binding (expected_binding b) = b.
Proof. by destruct b. Qed.

Section agree.
Context (w : sel_world) (W : world_inv w).

(** The sender of a proposal is the epoch its binding names, and the ordinal of
    its binding is the ordinal of the round. *)
Lemma proposed_binding y g :
  (y, EvProposed g) ∈ sw_log w ->
  bd_FromEpoch (pr_binding (g_proposal g)) = y /\
  bd_Ordinal (pr_binding (g_proposal g)) = FormatUint (g_ordinal g) /\ 0 <= g_ordinal g.
Proof.
  intros Hg. destruct (lo_proposed _ _ (world_log_ok _ W) _ _ Hg) as (d & _ & A).
  pose proof (go_range _ _ _ _ A). destruct (go_peer _ _ _ _ A) as (? & _ & _ & _ & ->). simpl. split_and!; [done|done|lia].
Qed.

Lemma proposed_once y g g' :
  (y, EvProposed g) ∈ sw_log w -> (y, EvProposed g') ∈ sw_log w -> g_ordinal g = g_ordinal g' -> g = g'.
Proof.
  intros Hg. destruct (wi_owner _ W _ _ Hg) as [[s p] E].
  revert Hg. apply (si_proposed_once _ _ _ _ _ (wi_session _ W _ _ _ E)).
Qed.

Lemma confirming_once y g j g' j' :
  (y, EvConfirming g j) ∈ sw_log w -> (y, EvConfirming g' j') ∈ sw_log w -> g_ordinal g = g_ordinal g' ->
  g = g' /\ j = j'.
Proof.
  intros Hg. destruct (wi_owner _ W _ _ Hg) as [[s p] E].
  revert Hg. apply (si_confirming_once _ _ _ _ _ (wi_session _ W _ _ _ E)).
Qed.

(** Two proposals with mirrored bindings are by the two sessions they name. *)
Lemma mirrored_proposal x g y g' :
  (x, EvProposed g) ∈ sw_log w -> (y, EvProposed g') ∈ sw_log w ->
  pr_binding (g_proposal g') = expected_binding (pr_binding (g_proposal g)) ->
  y = g_peer g /\ x = g_peer g' /\ g_ordinal g' = g_ordinal g.
Proof.
  intros Hg Hg' E. destruct (proposed_binding _ _ Hg) as (F & O & P).
  destruct (proposed_binding _ _ Hg') as (F' & O' & P').
  unfold g_peer. rewrite E in F', O' |- *. simpl in *. split_and!; [congruence..|].
  apply FormatUint_inj; congruence.
Qed.

Lemma confirming_joint y g j :
  (y, EvConfirming g j) ∈ sw_log w ->
  exists (d d' : static) g', statics w !! y = Some d /\ statics w !! g_peer g = Some d' /\ mirror d.1 d'.1 /\
    agreeing_ok (statics w) y d g /\
    (g_peer g, EvProposed g') ∈ sw_log w /\ agreeing_ok (statics w) (g_peer g) d' g' /\
    g_ordinal g' = g_ordinal g /\ g_peer g' = y /\
    jointSelection d.1 (domainWire d.2) (domainWire d'.2) (g_proposal g) (g_proposal g') = Ok j.
Proof.
  intros Hg. pose proof (world_log_ok _ W) as L.
  destruct (lo_confirming _ _ L _ _ _ Hg) as (Hp & d & Hd & z & g' & Hg' & C).
  destruct (lo_proposed _ _ L _ _ Hp) as (d0 & ? & A). simplify_eq.
  destruct (lo_proposed _ _ L _ _ Hg') as (d' & Hd' & A').
  apply check_proposal_joint in C as [B C].
  destruct (mirrored_proposal _ _ _ _ Hp Hg' B) as (-> & E & O).
  destruct (go_peer _ _ _ _ A) as (d'' & ? & M & R & _). simplify_eq.
  exists d, d', g'. rewrite (go_local _ _ _ _ A), R in C. done.
Qed.

(** A session that confirmed a round computed the same joint value as its peer,
    which sent its confirmation. *)
Lemma confirmed_peer x g j o :
  (x, EvConfirmed g j o) ∈ sw_log w ->
  (x, EvConfirming g j) ∈ sw_log w /\
  exists g', (g_peer g, EvConfirming g' j) ∈ sw_log w /\ g_ordinal g' = g_ordinal g /\ g_peer g' = x.
Proof.
  intros Hg. destruct (wi_owner _ W _ _ Hg) as [[s p] E].
  destruct (si_confirmed _ _ _ _ _ (wi_session _ W _ _ _ E) _ _ _ Hg) as (Hc & (y & g' & j' & Hc' & C) & _).
  split; [done|]. unfold check_confirmation in C. rewrite !andb_true_iff, !bool_decide_eq_true in C.
  destruct C as [[C _] _]. simpl in C.
  destruct (lo_confirming _ _ (world_log_ok _ W) _ _ _ Hc) as (Hp & _).
  destruct (lo_confirming _ _ (world_log_ok _ W) _ _ _ Hc') as (Hp' & _).
  destruct (mirrored_proposal _ _ _ _ Hp Hp' C) as (-> & Ex & O).
  exists g'. split_and!; try done. enough (j' = j) as -> by done.
  destruct (confirming_joint _ _ _ Hc) as (d & d' & g2 & D1 & D2 & M & A & P2 & A2 & O2 & X2 & J1).
  destruct (confirming_joint _ _ _ Hc') as (e & e' & g3 & E1 & E2 & M' & B & P3 & B3 & O3 & X3 & J2).
  rewrite <-Ex in *. simplify_eq.
  assert (g2 = g') as -> by (eapply proposed_once; eauto; congruence).
  assert (g3 = g) as -> by (eapply proposed_once; eauto; congruence).
  rewrite (jointSelection_mirror _ _ _ _ _ _ _ _ (wi_static _ W _ _ D1) (wi_static _ W _ _ D2) M) in J2.
  congruence.
Qed.
End agree.

(** What a confirmed round returns to the caller. *)
Lemma confirmed_names w : world_inv w -> forall x g j o, (x, EvConfirmed g j o) ∈ sw_log w ->
  cd_Name <$> o = jt_Order j /\ jt_Order j <> [] /\
  forall n, n ∈ jt_Order j -> n ∈ pr_Strategies (g_proposal g).
Proof.
  clear allowed. intros W x g j o Hg. destruct (wi_owner _ W _ _ Hg) as [[s p] E].
  destruct (si_confirmed _ _ _ _ _ (wi_session _ W _ _ _ E) _ _ _ Hg) as (Hc & _ & ->).
  destruct (confirming_joint _ W _ _ _ Hc) as (d & d' & g2 & _ & _ & _ & A & _ & _ & _ & _ & J1).
  apply jointSelection_Ok in J1 as (N & S & _). split_and!; [|done|naive_solver].
  apply ordered_names. rewrite <-(go_names _ _ _ _ A). naive_solver.
Qed.

(** C11: agreement.  Whatever sessions exist (restarted ones included) and
    whatever the network does with their messages, a session [x] that confirms a
    round returns its candidates in an order [jt_Order j] which is not empty and
    names only strategies both sides support; its peer has computed the very same
    joint value and confirmed it to [x]; and if the peer confirms the same round,
    it does so with [x], the same joint value and the same order. *)
Theorem selection_agreement w x g j o :
  sel_reachable allowed w -> (x, EvConfirmed g j o) ∈ sw_log w ->
  cd_Name <$> o = jt_Order j /\ jt_Order j <> [] /\
  (forall n, n ∈ jt_Order j -> n ∈ cp_Strategies (g_localCap g) /\ n ∈ cp_Strategies (g_remoteCap g)) /\
  (exists g', (g_peer g, EvConfirming g' j) ∈ sw_log w /\ g_ordinal g' = g_ordinal g /\ g_peer g' = x) /\
  forall g' j' o', (g_peer g, EvConfirmed g' j' o') ∈ sw_log w -> g_ordinal g' = g_ordinal g ->
    g_peer g' = x /\ j' = j /\ cd_Name <$> o' = cd_Name <$> o.
Proof.
  intros R Hg. pose proof (world_inv_reachable _ R) as W.
  pose proof (confirmed_names _ W) as Names. destruct (Names _ _ _ _ Hg) as (N1 & N2 & N3).
  destruct (confirmed_peer _ W _ _ _ _ Hg) as (Hc & g' & Hg' & O & X).
  split_and!; [done|done| |eauto|].
  - intros n Hn%N3. destruct (lo_confirming _ _ (world_log_ok _ W) _ _ _ Hc) as (Hp & _).
    destruct (lo_proposed _ _ (world_log_ok _ W) _ _ Hp) as (d & _ & A). by apply (go_subset _ _ _ _ A).
  - intros g2 j2 o2 H2 O2. destruct (Names _ _ _ _ H2) as (M1 & _).
    destruct (confirmed_peer _ W _ _ _ _ H2) as (Hc2 & _).
    destruct (confirming_once _ W _ _ _ _ _ Hg' Hc2) as [<- <-]; [congruence|]. split_and!; congruence.
Qed.
End thms.
