(* ===== verification/SelectionRounds.v ===== *)
(** * The selection agreement: the sequence of rounds of a session *)
From stdpp Require Import sorting pretty.
From S2P Require Import Prelude GoStd LivenessWire SelectionWire SelectionWireThms Selection SelectionNet SelectionInv SelectionDeliver SelectionPres SelectionThms.
Open Scope go_scope.

Section rounds.
Context {J : SelectionJSON} {JL : SelectionJSONLaws J} {H : Sha256} {HL : Sha256Laws H}.
Context (allowed : Session -> sel_input -> Prop).
Notation event_log := (list (string * sel_event)).

(** A round continues the one before it, which was confirmed. *)
Definition chained (log : event_log) (x : string) (g : agreeing) : Prop :=
  g_ordinal g = 0 \/
  exists g0 j0 o0, (x, EvConfirmed g0 j0 o0) ∈ log /\ g_ordinal g0 = g_ordinal g - 1 /\
    g_previous g = joint_digest j0.

(** The round a call under way has opened. *)
Definition phase_round (p : sel_phase) : option agreeing :=
  match p with
  | FSendProposal g | FProposal g | FProposalWait g | FSendConfirm g _ | FConfirm g _ | FConfirmWait g _
  | FCommit g _ => Some g
  | _ => None
  end.
Definition committing (p : sel_phase) : bool := match p with FCommit _ _ => true | _ => false end.

(** The selecting goroutine is inside [agreeCandidates], past its first check. *)
Definition in_agreement (p : sel_phase) : bool :=
  match p with FBegin _ _ _ => true | _ => bool_decide (is_Some (phase_round p)) end.

(** Nothing of an earlier strategy is left running. *)
Definition previous_closed (a : selectionAgreement) : Prop :=
  ag_cleanupErr a = None /\ ag_activeExecutors a = ∅ /\
  forall previous, ag_previous a = Some previous -> ag_strategyClosed a = true \/ sy_factory previous = true.

Definition entered_ordinal (x : string) (e : string * sel_event) : option Z :=
  match e with
  | (y, EvEntered n _) => if decide (y = x) then Some n else None
  | _ => None
  end.
Definition entered_ordinals (x : string) (log : event_log) : list Z := omap (entered_ordinal x) log.

Record rounds_inv (log : event_log) (x : string) (s : Session) (p : sel_phase) : Prop := {
  ri_chain : forall g, (x, EvProposed g) ∈ log \/ phase_round p = Some g -> chained log x g;
  ri_heard : ag_err (s_agreement s) = None -> forall r, ag_current (s_agreement s) = Some r ->
    rd_confirmed r || committing p = true -> is_Some (ib_confirm (rd_remote r));
  ri_entered : forall n y, (x, EvEntered n y) ∈ log ->
    (exists r, ag_current (s_agreement s) = Some r /\ n <= rd_ordinal r /\
       (n = rd_ordinal r -> rd_entered r = true)) /\
    exists g j o, (x, EvConfirmed g j o) ∈ log /\ g_ordinal g = n /\ joint_strategy j = sy_Name y;
  ri_once : NoDup (entered_ordinals x log);
  ri_closed : in_agreement p = true -> previous_closed (s_agreement s);
}.

Lemma chained_mono log e evs x g : chained log x g -> chained (log ++ (pair e <$> evs)) x g.
Proof.
  intros [?|(g0 & j0 & o0 & Hg & ?)]; [by left|]. right. exists g0, j0, o0. split; [set_solver|done].
Qed.

Lemma entered_app x log e evs :
  x <> e -> entered_ordinals x (log ++ (pair e <$> evs)) = entered_ordinals x log.
Proof.
  intros Hne. unfold entered_ordinals. rewrite omap_app. rewrite <-(app_nil_r (omap _ log)) at 2. f_equal.
  induction evs as [|ev evs IH]; [done|]. rewrite fmap_cons. cbn [omap list_omap].
  destruct ev; simpl; [apply IH..|]. rewrite decide_False by congruence. apply IH.
Qed.

Lemma rounds_inv_mono log e evs x s p :
  x <> e -> rounds_inv log x s p -> rounds_inv (log ++ (pair e <$> evs)) x s p.
Proof.
  intros Hne [R1 R2 R3 R4 R5]. split; auto.
  - intros g [Hg|Hg]; [apply log_other in Hg; [|done]|]; apply chained_mono; auto.
  - intros n y Hg%log_other; [|done]. destruct (R3 _ _ Hg) as (? & g & j & o & ? & ?).
    split; [done|]. exists g, j, o. split; [set_solver|done].
  - by rewrite entered_app.
Qed.

(** ** Delivery *)
Definition same_entry (r r' : selectionRound) : Prop :=
  rd_ordinal r' = rd_ordinal r /\ rd_confirmed r' = rd_confirmed r /\ rd_entered r' = rd_entered r.

(** The round may hear more, and forgets only when the agreement stops. *)
Record rounds_change (a a' : selectionAgreement) : Prop := {
  rc_err : ag_err a' = None -> ag_err a = None;
  rc_entry : option_Forall2 same_entry (ag_current a) (ag_current a');
  rc_heard : ag_err a' = None -> forall r r', ag_current a = Some r -> ag_current a' = Some r' ->
    is_Some (ib_confirm (rd_remote r)) -> is_Some (ib_confirm (rd_remote r'));
  rc_cleanup : same_cleanup a a';
}.

Lemma same_entries_refl o : option_Forall2 same_entry o o.
Proof. destruct o; by constructor. Qed.

Lemma rounds_change_stopped a a' : stopped a a' -> rounds_change a a'.
Proof.
  intros S. pose proof (qc_err _ _ (stopped_quiet _ _ S)) as Q. destruct S as [S1 S2 [e Se] S4 S5 S6 S7].
  split; [done| |intros; congruence|done].
  destruct S4 as [->|[_ ->]]; [apply same_entries_refl|]. destruct (ag_current a); by constructor.
Qed.

Lemma rounds_change_core a a' : same_core a a' -> same_cleanup a a' -> rounds_change a a'.
Proof.
  intros (E1 & E2 & E3 & E4 & E5) C. split; [congruence|rewrite E3; apply same_entries_refl| |done].
  rewrite E3. intros. by simplify_eq.
Qed.

Lemma rounds_change_delivered w s a' : delivered w s a' -> rounds_change (s_agreement s) a'.
Proof.
  intros [-> |S|y d _ _ [|a1 S|a1 ? ? ? ? Ec ? ? ? ?]|m _ [|a1 S|ib|r r' ? ? Er ? Ea]];
    try (by apply rounds_change_stopped); try (by apply rounds_change_core).
  - split; [done|rewrite Ec; apply same_entries_refl| |done]. rewrite Ec. intros. by simplify_eq.
  - split; simpl; [done|apply same_entries_refl| |done]. intros. by simplify_eq.
  - unfold round_accept in Ea. apply res_bind_Ok in Ea as (ib & Hi & Ea).
    destruct (_ && _); [done|]. simplify_eq. split; simpl; [done| | |done].
    + rewrite Er. by constructor.
    + intros _ r0 r1 E1 E2 Hs. simplify_eq. simpl. unfold inbox_accept in Hi.
      destruct (_ <? _); [done|]. destruct m; (destruct (_ && _); [done|]); by simplify_eq/=.
Qed.

Lemma rounds_inv_change log x s s' p :
  rounds_inv log x s p -> rounds_change (s_agreement s) (s_agreement s') -> rounds_inv log x s' p.
Proof.
  intros [R1 R2 R3 R4 R5] [C1 C2 C3 (K1 & K2 & K3 & K4)]. split; auto.
  - intros E r' Er' Hc. rewrite Er' in C2. inversion C2 as [r ? (A1 & A2 & A3) Er|]; subst. symmetry in Er.
    eapply C3; eauto. apply (R2 (C1 E) _ Er). by rewrite <-A2.
  - intros n y Hn. destruct (R3 _ _ Hn) as ((r & Er & X1 & X2) & ?). split; [|done].
    rewrite Er in C2. inversion C2 as [? r' (A1 & A2 & A3)|]; subst. exists r'.
    rewrite A1, A3. done.
  - intros P. destruct (R5 P) as (P1 & P2 & P3). unfold previous_closed. by rewrite K1, K2, K3, K4.
Qed.

Lemma rounds_inv_phase log x s p p' :
  rounds_inv log x s p -> (phase_round p' = None \/ phase_round p' = phase_round p) ->
  (committing p' = true -> committing p = true) -> (in_agreement p' = true -> in_agreement p = true) ->
  rounds_inv log x s p'.
Proof.
  intros [R1 R2 R3 R4 R5] P1 P2 P3. split; auto.
  - intros g [Hg|Hg]; apply R1; [by left|right]. destruct P1; congruence.
  - intros E r Er Hc. apply (R2 E r Er). rewrite orb_true_iff in *. naive_solver.
Qed.

(** ** The steps of the session itself *)
Lemma rounds_inv_event log x s p ev :
  rounds_inv log x s p -> (forall g, ev = EvProposed g -> phase_round p = Some g) ->
  (forall n y, ev <> EvEntered n y) -> rounds_inv (log ++ (pair x <$> [ev])) x s p.
Proof.
  intros [R1 R2 R3 R4 R5] Hp He. pose proof (log_own log x [ev]) as L. split; auto.
  - intros g [[Hg|Hg%list_elem_of_singleton]%L|Hg]; apply chained_mono; auto.
  - intros n y [Hg|Hg%list_elem_of_singleton]%L; [|by destruct (He n y)].
    destruct (R3 _ _ Hg) as (? & g & j & o & ? & ?). split; [done|]. exists g, j, o. split; [set_solver|done].
  - unfold entered_ordinals. rewrite omap_app. simpl. destruct ev; simpl; rewrite ?app_nil_r; try done.
    by destruct (He ordinal strategy).
Qed.

Lemma rounds_inv_core log x s s' p :
  rounds_inv log x s p -> same_core (s_agreement s) (s_agreement s') ->
  same_cleanup (s_agreement s) (s_agreement s') -> rounds_inv log x s' p.
Proof. intros R C K. eapply rounds_inv_change; [done|]. by apply rounds_change_core. Qed.

(** Calls of an idle session may change what is left of earlier strategies. *)
Lemma rounds_inv_idle log x s s' :
  rounds_inv log x s FIdle -> (ag_err (s_agreement s') = None -> ag_err (s_agreement s) = None) ->
  option_Forall2 same_entry (ag_current (s_agreement s)) (ag_current (s_agreement s')) ->
  (ag_err (s_agreement s') = None -> ag_current (s_agreement s') = ag_current (s_agreement s)) ->
  rounds_inv log x s' FIdle.
Proof.
  intros [R1 R2 R3 R4 R5] E1 E2 E3. split; auto; [| |done].
  - intros E r Er. rewrite (E3 E) in Er. by apply R2; auto.
  - intros n y Hn. destruct (R3 _ _ Hn) as ((r & Er & X1 & X2) & ?). split; [|done].
    rewrite Er in E2. inversion E2 as [? r' (A1 & A2 & A3)|]; subst. exists r'. by rewrite A1, A3.
Qed.

Lemma rounds_inv_stopped log x s s' p :
  rounds_inv log x s p -> stopped (s_agreement s) (s_agreement s') -> rounds_inv log x s' p.
Proof. intros R S. eapply rounds_inv_change; [done|]. by apply rounds_change_stopped. Qed.

Lemma rounds_inv_start log x s candidates newPass start :
  rounds_inv log x s FIdle -> rounds_inv log x s (start_agree candidates newPass start s).
Proof.
  intros R. unfold start_agree, requirePreviousSelectionClosed.
  assert (forall e, rounds_inv log x s (FStop e)) as St by (intros; eapply rounds_inv_phase; eauto).
  destruct (ag_err (s_agreement s)); [apply St|]. destruct (_ || _) eqn:E; [apply St|].
  rewrite orb_false_iff, !negb_false_iff, !bool_decide_eq_true in E. destruct E as [E1 E2].
  assert ((forall previous, ag_previous (s_agreement s) = Some previous ->
      ag_strategyClosed (s_agreement s) = true \/ sy_factory previous = true) ->
    rounds_inv log x s (FBegin start candidates newPass)) as B.
  { intros Hp. destruct R as [R1 R2 R3 R4 _]. split; auto. intros _. by repeat split. }
  destruct (ag_previous (s_agreement s)) as [q|] eqn:Eq; [|by apply B].
  destruct (ag_strategyClosed (s_agreement s)) eqn:Ec; [apply B; auto|].
  destruct (sy_factory q) eqn:Ef; [|apply St]. apply B. intros. simplify_eq. auto.
Qed.

Lemma rounds_inv_cleanup log x s err :
  rounds_inv log x s FIdle -> rounds_inv log x (selectionCleanup err s) FIdle.
Proof.
  intros R. destruct err as [e|]; [|done]. simpl. set (a' := set_cleanup _ _ _ _ _).
  pose proof (stopLocked_stopped (selectionFailure "selection_previous_active") a') as S.
  eapply rounds_inv_idle; [done|..]; simpl.
  - intros E. apply (qc_err _ _ (stopped_quiet _ _ S)) in E. done.
  - apply (rc_entry _ _ (rounds_change_stopped _ _ S)).
  - intros E. destruct (st_err _ _ S). congruence.
Qed.

Lemma rounds_inv_enter st log x s strategy ctxErr now s' p' msgs evs :
  session_inv st log x s FIdle -> rounds_inv log x s FIdle ->
  front_call (CallEnter strategy ctxErr now) s = Some (s', p', msgs, evs) ->
  rounds_inv (log ++ (pair x <$> evs)) x s' p'.
Proof.
  intros I R E. simpl in E. destruct (enterSelection now ctxErr strategy s) as [s1 err] eqn:Es.
  simplify_eq. unfold enterSelection in Es.
  assert (forall e, stop_with e s = (s', err) -> is_Some err /\ rounds_inv log x s' FIdle) as Stop.
  { intros e Ee. destruct (stop_with_stopped e s) as (X1 & X2 & X3). rewrite Ee in X1, X2, X3.
    unfold stop_with in Ee. destruct (stopSelection e s). simplify_eq. split; [eauto|].
    by eapply rounds_inv_stopped. }
  assert (forall e, stop_with e s = (s', err) -> rounds_inv (log ++ (pair x <$>
    match err, ag_current (s_agreement s) with
    | None, Some r => [EvEntered (rd_ordinal r) strategy] | _, _ => [] end)) x s' FIdle) as Stop'.
  { intros e Ee. destruct (Stop e Ee) as [[? ->] ?]. simpl. by rewrite app_nil_r. }
  destruct (ag_err (s_agreement s)) eqn:Ee; [simplify_eq; simpl; by rewrite app_nil_r|].
  destruct (ag_current (s_agreement s)) as [r|] eqn:Er; [|by eapply Stop'].
  destruct (_ || _) eqn:Ec; [by eapply Stop'|].
  destruct ctxErr; [by eapply Stop'|]. destruct (negb (Before _ _)); [by eapply Stop'|].
  simplify_eq. rewrite !orb_false_iff, !negb_false_iff, bool_decide_eq_true in Ec. destruct Ec as [[C1 C2] C3].
  destruct R as [R1 R2 R3 R4 R5]. pose proof (log_own log x [EvEntered (rd_ordinal r) strategy]) as L.
  split; [| | | |done].
  - intros g [[Hg|Hg%list_elem_of_singleton]%L|Hg]; apply chained_mono; auto. done.
  - simpl. intros _ r' ? _. simplify_eq/=. apply (R2 Ee _ Er). by rewrite C1.
  - intros n y [Hg|Hg%list_elem_of_singleton]%L.
    + destruct (R3 _ _ Hg) as ((r0 & E0 & X1 & X2) & g & j & o & ? & ?). simplify_eq.
      split; [eexists; simpl; by split_and!|]. exists g, j, o. split; [set_solver|done].
    + simplify_eq. split; [eexists; simpl; by split_and!; try lia|].
      destruct (si_current _ _ _ _ _ I _ Er) as (_ & _ & B). destruct (B C1) as (g & j & o & X1 & X2 & X3 & X4).
      exists g, j, o. split_and!; [set_solver|done|congruence].
  - unfold entered_ordinals. rewrite omap_app. simpl. rewrite decide_True by done. apply NoDup_app.
    split_and!; [done| |apply NoDup_singleton]. intros n Hn%list_elem_of_omap ->%list_elem_of_singleton.
    destruct Hn as ([y ev] & Hin & Hev). destruct ev; simplify_eq/=. case_decide; simplify_eq.
    destruct (R3 _ _ Hin) as ((r0 & E0 & X1 & X2) & _). simplify_eq. rewrite X2 in C2; done.
Qed.

Lemma rounds_inv_call st log x s i s' p' msgs evs :
  session_inv st log x s FIdle -> rounds_inv log x s FIdle ->
  front_call i s = Some (s', p', msgs, evs) -> rounds_inv (log ++ (pair x <$> evs)) x s' p'.
Proof.
  intros I R E.
  assert (forall p, phase_round p = None -> in_agreement p = false -> rounds_inv log x s p) as P.
  { intros p P1 P2. eapply rounds_inv_phase; eauto; try congruence. by destruct p. }
  destruct i; try (simpl in E; done); [..|].
  - simpl in E. unfold quiet in E. simplify_eq. rewrite app_nil_r. eapply rounds_inv_core; [done|..];
      unfold beginSelectionPass; by destruct (ag_err (s_agreement s)).
  - simpl in E. destruct (sendCapability now sendErr s) as [[s1 sent] err] eqn:Es. simplify_eq. rewrite app_nil_r.
    apply sendCapability_spec in Es as (E1 & E2 & E3 & _); [|apply I].
    assert (rounds_inv log x s' FIdle) as R'.
    { destruct E3 as [E3|E3]; [eapply rounds_inv_core; [done|..]; by rewrite E3|by eapply rounds_inv_stopped]. }
    destruct err; [eapply rounds_inv_phase; eauto|done].
  - simpl in E. unfold quiet in E. simplify_eq. rewrite app_nil_r. by apply P.
  - simpl in E. unfold quiet in E. simplify_eq. rewrite app_nil_r. by apply rounds_inv_start.
  - simpl in E. unfold quiet in E. simplify_eq. rewrite app_nil_r.
    destruct (prepare_ready candidate s'); [done|by apply rounds_inv_start].
  - by eapply rounds_inv_enter.
  - simpl in E. unfold quiet in E. simplify_eq. rewrite app_nil_r.
    eapply rounds_inv_idle; [done|done|apply same_entries_refl|done].
  - simpl in E. unfold quiet in E. simplify_eq. rewrite app_nil_r. unfold closeSelectionExecutor.
    pose proof (rounds_inv_cleanup _ _ _ err R) as R'. destruct (bool_decide _); [|done].
    eapply rounds_inv_idle; [done|done|apply same_entries_refl|done].
  - simpl in E. unfold quiet in E. simplify_eq. rewrite app_nil_r. unfold closeSelectionStrategy.
    pose proof (rounds_inv_cleanup _ _ _ err R) as R'. destruct (_ && _); [|done].
    eapply rounds_inv_idle; [done|done|apply same_entries_refl|done].
  - simpl in E. unfold quiet in E. simplify_eq. rewrite app_nil_r. unfold selectionExecutionContext. simpl.
    destruct (_ && _); [|done]. eapply rounds_inv_idle; [done|done|apply same_entries_refl|done].
Qed.

Lemma rounds_inv_send log x s p kind raw now ctxErr sendErr next ev s' p' msgs evs :
  0 <= s_seq s <= u64_max -> rounds_inv log x s p ->
  step_send kind raw now ctxErr sendErr next ev s = Some (s', p', msgs, evs) ->
  (forall g, ev = EvProposed g -> phase_round p = Some g) -> (forall n y, ev <> EvEntered n y) ->
  phase_round next = phase_round p -> committing next = false -> in_agreement p = true ->
  rounds_inv (log ++ (pair x <$> evs)) x s' p'.
Proof.
  intros Hs R E Hp He Hn Hc Hi. unfold step_send in E.
  destruct (sendSelection now ctxErr sendErr kind raw s) as [[s1 sent] err] eqn:Es. simplify_eq.
  apply sendSelection_spec in Es as (E1 & E2 & E3 & E4); [|done].
  assert (rounds_inv log x s' p) as R' by (eapply rounds_inv_core; [done|..]; by rewrite E2).
  assert (rounds_inv (log ++ (pair x <$> match sent with Some _ => [ev] | None => [] end)) x s' p) as R2.
  { destruct sent; [by apply rounds_inv_event|]. simpl. by rewrite app_nil_r. }
  eapply rounds_inv_phase; [exact R2|..]; destruct err; simpl; try rewrite Hc; auto; done.
Qed.

Lemma rounds_inv_begin st log x s start candidates newPass s' g :
  session_inv st log x s (FBegin start candidates newPass) ->
  rounds_inv log x s (FBegin start candidates newPass) ->
  agree_begin start candidates newPass s = BeginRound s' g -> rounds_inv log x s' (FSendProposal g).
Proof.
  intros I [R1 R2 R3 R4 R5] E. unfold agree_begin in E.
  destruct (ag_err (s_agreement s)) eqn:Ee; [done|].
  destruct (ag_remote (s_agreement s)) as [c|] eqn:Er; [|done].
  destruct (match ag_current _ with Some _ => _ | None => _ end) eqn:Em; [done|].
  destruct (match ag_current (s_agreement s) with
            | Some r => (rd_ordinal r + 1, rd_digest r) | None => (0, ""%string) end) as [n prev] eqn:Ep.
  destruct (negb (forallb _ _)); [done|]. destruct (negb (selectionList _ _ _)); [done|].
  destruct (if newPass then _ else _) as [st1 dl1]. destruct (if n =? 0 then _ else _) as [st2 dl2].
  simplify_eq. split; auto.
  - intros g [Hg|Hg]; [by apply R1; left|]. simplify_eq/=. unfold chained. simpl.
    destruct (ag_current (s_agreement s)) as [r|] eqn:Hr; simplify_eq; [|by left]. right.
    destruct (si_current _ _ _ _ _ I _ Hr) as (_ & _ & B).
    destruct (B (si_phase _ _ _ _ _ I Ee _ Hr)) as (g0 & j0 & o0 & X1 & X2 & X3 & _).
    exists g0, j0, o0. split_and!; [done|simpl; lia|done].
  - simpl. intros _ r ?. by simplify_eq/=.
  - intros m y Hm. destruct (R3 _ _ Hm) as ((r & Hr & X1 & X2) & ?). split; [|done].
    rewrite Hr in Ep. simplify_eq. simpl. eexists. split; [done|]. simpl. split; [lia|].
    intros ->. lia.
Qed.

Lemma rounds_inv_step st log x s p i s' p' msgs evs :
  session_inv st log x s p -> rounds_inv log x s p -> front_step i s p = Some (s', p', msgs, evs) ->
  rounds_inv (log ++ (pair x <$> evs)) x s' p'.
Proof.
  intros I R E.
  assert (forall q, (phase_round q = None \/ phase_round q = phase_round p) ->
    committing q = false -> (in_agreement q = true -> in_agreement p = true) ->
    rounds_inv (log ++ []) x s q) as P.
  { intros q P1 P2 P3. rewrite app_nil_r. eapply rounds_inv_phase; [done|done|congruence|done]. }
  assert (forall q, take_changed s ≫= (fun s' => quiet s' q) = Some (s', p', msgs, evs) ->
    (phase_round q = None \/ phase_round q = phase_round p) -> committing q = false ->
    (in_agreement q = true -> in_agreement p = true) -> rounds_inv (log ++ (pair x <$> evs)) x s' p') as T.
  { intros q Et P1 P2 P3. unfold take_changed in Et. destruct (ag_changed _); [|done].
    simpl in Et. unfold quiet in Et. simplify_eq. rewrite app_nil_r.
    eapply rounds_inv_phase; [by eapply rounds_inv_core|done|congruence|done]. }
  destruct p; [by eapply rounds_inv_call|..]; destruct i; try (simpl in E; done); simpl in E;
    try (by eapply T; eauto); try (unfold quiet in E; simplify_eq; by apply P; auto).
  - unfold quiet in E. simplify_eq. rewrite app_nil_r.
    destruct (stopSelection_stopped err s) as (_ & _ & X3).
    eapply rounds_inv_phase; [by eapply rounds_inv_stopped|by left|done|done].
  - destruct (capability_turn waitErr ctx1 ctx2 s); unfold quiet in E; simplify_eq; by apply P; auto.
  - destruct (agree_begin start candidates newPass s) eqn:Eb; unfold quiet in E; simplify_eq;
      try (by apply P; auto). rewrite app_nil_r. by eapply rounds_inv_begin.
  - eapply rounds_inv_send; [apply I|done|done|by intros ? [= ->]|done..].
  - destruct (ag_err (s_agreement s)); [|destruct (ib_proposal _); [destruct (check_proposal _ _ _)|]];
      unfold quiet in E; simplify_eq; by apply P; auto.
  - eapply rounds_inv_send; [apply I|done..].
  - destruct (ag_err (s_agreement s)) eqn:Ee; [unfold quiet in E; simplify_eq; by apply P; auto|].
    destruct (ib_confirm (remote_inbox s)) as [c|] eqn:Ec; [|unfold quiet in E; simplify_eq; by apply P; auto].
    unfold quiet in E. simplify_eq. destruct (check_confirmation _ _ _); [|by apply P; auto].
    rewrite app_nil_r. destruct R as [R1 R2 R3 R4 R5]. split; auto.
    intros _ r Hr _. unfold remote_inbox in Ec. rewrite Hr in Ec. eauto.
  - destruct (agree_commit now ctxErr g joint s) as [[| |]|s1] eqn:Ec; unfold quiet in E; simplify_eq;
      try (by apply P; auto).
    apply rounds_inv_event; [|done|done]. unfold agree_commit in Ec.
    destruct (ag_err (s_agreement s)) eqn:Ee; [done|]. destruct (_ || _); [done|]. simplify_eq.
    destruct R as [R1 R2 R3 R4 R5]. split; auto; simpl.
    + intros g0 [Hg|Hg]; [|done]. auto.
    + intros _ r' Hr' _. destruct (ag_current (s_agreement s)) as [r|] eqn:Hr; simplify_eq/=.
      apply (R2 Ee _ eq_refl). by rewrite orb_true_r.
    + intros n y Hn. destruct (R3 _ _ Hn) as ((r & Hr & X1 & X2) & ?). split; [|done].
      rewrite Hr. simpl. eexists. by split_and!.
Qed.

(** ** Worlds *)
Definition world_rounds (w : sel_world) : Prop :=
  forall x s p, sw_sessions w !! x = Some (s, p) -> rounds_inv (sw_log w) x s p.

Lemma world_rounds_update w e s p s' p' evs pks :
  world_rounds w -> sw_sessions w !! e = Some (s, p) ->
  rounds_inv (sw_log w ++ (pair e <$> evs)) e s' p' ->
  world_rounds (mkSelWorld (<[e := (s', p')]> (sw_sessions w)) (sw_net w ++ pks) (sw_log w ++ (pair e <$> evs))).
Proof.
  intros W E R x sx px. simpl. intros [[<- Ex]|[Hne Ex]]%lookup_insert_Some; [by simplify_eq|].
  apply rounds_inv_mono; [done|by apply W].
Qed.

Lemma world_rounds_step w w' : world_inv w -> world_rounds w -> sel_step allowed w w' -> world_rounds w'.
Proof.
  intros W R S. destruct S as [w cfg resolver random s E Hn|w e i s p s' p' msgs evs E _ F|
    w e s p pk now at_ E Hpk Hto|w e s p E|w pk Ht].
  - apply NewConverging_Ok in E as (_ & _ & _ & _ & Ec & _ & _).
    set (e := sc_Epoch (ag_local (s_agreement s))) in *.
    assert (forall ev, (e, ev) ∉ sw_log w) as Hno.
    { intros ev Hin. destruct (wi_owner _ W _ _ Hin). congruence. }
    intros x sx px. simpl. intros [[<- Ex]|[Hne Ex]]%lookup_insert_Some; [|by apply R]. simplify_eq.
    split; [|by rewrite Ec| | |done].
    + intros g [?|?]; [by destruct (Hno (EvProposed g))|done].
    + intros n y Hn'. by destruct (Hno (EvEntered n y)).
    + replace (entered_ordinals e (sw_log w)) with (@nil Z); [constructor|]. symmetry.
      apply elem_of_nil_inv. intros n ([y ev] & Hin & Hev)%list_elem_of_omap.
      destruct ev; simplify_eq/=. case_decide; simplify_eq. by apply Hno in Hin.
  - eapply world_rounds_update; [done|done|]. eapply rounds_inv_step; eauto. by apply W.
  - destruct (deliver_effect _ _ _ _ _ now at_ W E Hpk) as (_ & _ & D).
    pose proof (world_rounds_update w e s p (HandleMessageFrom now (pk_from pk) (received_at at_ (pk_msg pk)) s).1
      p [] [] R E) as U. rewrite !app_nil_r in U. apply U.
    eapply rounds_inv_change; [by apply R|by eapply rounds_change_delivered].
  - destruct (stopSelection_stopped (selectionFailure "selection_closed") s) as (_ & _ & X3).
    pose proof (world_rounds_update w e s p (stopSelection (selectionFailure "selection_closed") s).1
      p [] [] R E) as U. rewrite !app_nil_r in U. apply U. eapply rounds_inv_stopped; [by apply R|done].
  - exact R.
Qed.

Lemma selection_rounds_inv w : sel_reachable allowed w -> world_inv w /\ world_rounds w.
Proof.
  intros R. unfold sel_reachable in R.
  assert (forall w0, world_inv w0 -> world_rounds w0 -> rtc (sel_step allowed) w0 w ->
    world_inv w /\ world_rounds w) as G.
  { intros w0 W0 X0 R0. induction R0; eauto using world_inv_step, world_rounds_step. }
  eapply G; [apply world_inv_init| |done]. intros x s p. simpl. by rewrite lookup_empty.
Qed.

(** A session enters a round at most once, and only one it has confirmed;
    the strategy it runs is the agreed one, so if its peer enters the same round,
    both run a strategy of the same name. *)
Theorem entered_strategies_agree w x n strategy :
  sel_reachable allowed w -> (x, EvEntered n strategy) ∈ sw_log w ->
  NoDup (entered_ordinals x (sw_log w)) /\
  exists g j o, (x, EvConfirmed g j o) ∈ sw_log w /\ g_ordinal g = n /\ sy_Name strategy = joint_strategy j /\
    forall strategy', (g_peer g, EvEntered n strategy') ∈ sw_log w -> sy_Name strategy' = sy_Name strategy.
Proof.
  intros Rw Hx. destruct (selection_rounds_inv _ Rw) as [W R].
  assert (forall y ev, (y, ev) ∈ sw_log w -> exists s p, rounds_inv (sw_log w) y s p) as RI.
  { intros y ev Hy. destruct (wi_owner _ W _ _ Hy) as [[s p] E]. exists s, p. by apply R. }
  destruct (RI _ _ Hx) as (s & p & Rx). split; [apply Rx|].
  destruct (ri_entered _ _ _ _ Rx _ _ Hx) as (_ & g & j & o & Hg & On & Sn).
  exists g, j, o. split_and!; [done..|]. intros st' Hy. destruct (RI _ _ Hy) as (s' & p' & Ry).
  destruct (ri_entered _ _ _ _ Ry _ _ Hy) as (_ & g' & j' & o' & Hg' & On' & <-). rewrite <-Sn.
  destruct (confirmed_peer _ W _ _ _ _ Hg) as (_ & g2 & H2 & O2 & _).
  destruct (confirmed_peer _ W _ _ _ _ Hg') as (H3 & _).
  destruct (confirming_once _ W _ _ _ _ _ H2 H3) as [_ ->]; [congruence|done].
Qed.

(** The rounds of a session do not overlap: while it negotiates a round, no
    executor of an earlier strategy is active, no cleanup has failed, and the
    strategy it entered last is closed or owns no work of its own. *)
Theorem rounds_do_not_overlap w x s p :
  sel_reachable allowed w -> sw_sessions w !! x = Some (s, p) -> in_agreement p = true ->
  previous_closed (s_agreement s).
Proof. intros Rw E. destruct (selection_rounds_inv _ Rw) as [_ R]. apply (ri_closed _ _ _ _ (R _ _ _ E)). Qed.
End rounds.

(** * The selection agreement: its end

    The first error is final.  Two sessions that are alone on their connection
    and offer a common strategy never find each other in conflict. *)

Section terminal.
Context {J : SelectionJSON} {JL : SelectionJSONLaws J} {H : Sha256} {HL : Sha256Laws H}.
Context (allowed : Session -> sel_input -> Prop).

Definition announces (ev : sel_event) : bool :=
  match ev with EvProposed _ | EvConfirming _ _ => true | _ => false end.

Lemma agreement_core_refl a : same_core a a. Proof. done. Qed.

Lemma stopped_frozen a a' : is_Some (ag_err a) -> stopped a a' -> same_core a a'.
Proof. intros E S. by rewrite (st_keep _ _ S E). Qed.

Lemma frozen_send kind raw now ctxErr sendErr next ev s s' p' msgs evs :
  0 <= s_seq s <= u64_max ->
  step_send kind raw now ctxErr sendErr next ev s = Some (s', p', msgs, evs) -> announces ev = true ->
  same_core (s_agreement s) (s_agreement s') /\ forallb announces evs = true.
Proof.
  intros Hs E A. unfold step_send in E.
  destruct (sendSelection now ctxErr sendErr kind raw s) as [[s1 sent] err] eqn:Es. simplify_eq.
  apply sendSelection_spec in Es as (E1 & E2 & E3 & E4); [|done]. rewrite E2. split; [done|].
  destruct sent; simpl; [by rewrite A|done].
Qed.

Lemma frozen_cleanup err s :
  is_Some (ag_err (s_agreement s)) -> same_core (s_agreement s) (s_agreement (selectionCleanup err s)).
Proof. intros [e E]. destruct err; [|done]. simpl. unfold stopLocked. simpl. by rewrite E. Qed.

Lemma frozen_call i s s' p' msgs evs :
  0 <= s_seq s <= u64_max -> is_Some (ag_err (s_agreement s)) ->
  front_call i s = Some (s', p', msgs, evs) ->
  same_core (s_agreement s) (s_agreement s') /\ forallb announces evs = true.
Proof.
  intros Hs [e Ee] E. destruct i; simpl in E; try done; unfold quiet in E; simplify_eq; try done.
  - unfold beginSelectionPass. by rewrite Ee.
  - destruct (sendCapability now sendErr s) as [[s1 sent] err] eqn:Es. simplify_eq. split; [|done].
    apply sendCapability_spec in Es as (_ & _ & [-> |S] & _); [done| |done]. apply stopped_frozen; eauto.
  - unfold enterSelection in E. rewrite Ee in E. by simplify_eq.
  - pose proof (frozen_cleanup err s ltac:(eauto)) as F. unfold closeSelectionExecutor.
    by destruct (bool_decide _).
  - pose proof (frozen_cleanup err s ltac:(eauto)) as F. unfold closeSelectionStrategy.
    by destruct (_ && _).
  - unfold selectionExecutionContext. simpl. by destruct (_ && _).
Qed.

Lemma frozen_step i s p s' p' msgs evs :
  0 <= s_seq s <= u64_max -> is_Some (ag_err (s_agreement s)) ->
  front_step i s p = Some (s', p', msgs, evs) ->
  same_core (s_agreement s) (s_agreement s') /\ forallb announces evs = true.
Proof.
  intros Hs Ee E. pose proof Ee as [e Ee'].
  destruct p; [by eapply frozen_call|..]; destruct i; simpl in E; try done; unfold quiet in E;
    try (by eapply frozen_send); rewrite ?Ee' in E; simplify_eq; try done;
    try (unfold take_changed in E; destruct (ag_changed _); by simplify_eq/=).
  - split; [|done]. apply stopped_frozen; [done|]. apply stopSelection_stopped.
  - unfold capability_turn in E. rewrite Ee' in E. by simplify_eq.
  - unfold agree_begin in E. rewrite Ee' in E. by simplify_eq.
  - unfold agree_commit in E. rewrite Ee' in E. by simplify_eq.
Qed.

Lemma frozen_delivered w s a' :
  is_Some (ag_err (s_agreement s)) -> delivered w s a' -> same_core (s_agreement s) a'.
Proof.
  intros Ee [-> |S|y d _ _ [|a1 S|a1 E0]|m _ [|a1 S|ib E0|r r' E0]]; try done;
    try (by apply stopped_frozen); by destruct Ee as [e Ee]; congruence.
Qed.

Lemma world_step_frozen w w' x s p :
  world_inv w -> sel_step allowed w w' -> sw_sessions w !! x = Some (s, p) ->
  is_Some (ag_err (s_agreement s)) ->
  exists s' p', sw_sessions w' !! x = Some (s', p') /\ same_core (s_agreement s) (s_agreement s') /\
    forall ev, (x, ev) ∈ sw_log w' -> announces ev = false -> (x, ev) ∈ sw_log w.
Proof.
  intros W S Hx Ee. destruct S as [w cfg resolver random s0 E Hn|w e i s0 q s' p' msgs evs E _ F|
    w e s0 q pk now at_ E Hpk Hto|w e s0 q E|w pk Ht]; simpl.
  - exists s, p. rewrite lookup_insert_ne by congruence. done.
  - destruct (decide (x = e)) as [->|Hne].
    + simplify_eq. destruct (frozen_step _ _ _ _ _ _ _ (si_seq _ _ _ _ _ (wi_session _ W _ _ _ E)) Ee F)
        as [C A]. exists s', p'. rewrite lookup_insert_eq. split_and!; [done..|].
      intros ev [?|Hev]%log_own Ha; [done|]. rewrite forallb_forall in A.
      specialize (A ev (proj1 (list_elem_of_In _ _) Hev)). congruence.
    + exists s, p. rewrite lookup_insert_ne by done. split_and!; [done..|]. intros ev Hev _.
      by apply log_other in Hev.
  - destruct (decide (x = e)) as [->|Hne]; [|exists s, p; by rewrite lookup_insert_ne].
    simplify_eq. destruct (deliver_effect _ _ _ _ _ now at_ W E Hpk) as (_ & _ & D).
    do 2 eexists. rewrite lookup_insert_eq. split_and!; [done|by eapply frozen_delivered|done].
  - destruct (decide (x = e)) as [->|Hne]; [|exists s, p; by rewrite lookup_insert_ne].
    simplify_eq. do 2 eexists. rewrite lookup_insert_eq. split_and!; [done| |done].
    apply stopped_frozen; [done|]. apply stopSelection_stopped.
  - exists s, p. done.
Qed.

(** The first error is final: a session whose agreement has failed keeps that
    error, its round and its inboxes for ever, whatever arrives and whatever its
    own code calls, and it never again confirms or enters a round. *)
Theorem first_error_is_final w w' x s p e :
  sel_reachable allowed w -> rtc (sel_step allowed) w w' ->
  sw_sessions w !! x = Some (s, p) -> ag_err (s_agreement s) = Some e ->
  exists s' p', sw_sessions w' !! x = Some (s', p') /\ ag_err (s_agreement s') = Some e /\
    ag_remote (s_agreement s') = ag_remote (s_agreement s) /\
    ag_current (s_agreement s') = ag_current (s_agreement s) /\
    ag_future (s_agreement s') = ag_future (s_agreement s) /\
    forall ev, (x, ev) ∈ sw_log w' -> announces ev = false -> (x, ev) ∈ sw_log w.
Proof.
  intros R S. pose proof (world_inv_reachable _ _ R) as W. clear R. revert s p.
  induction S as [w|w w1 w' S1 S IH]; intros s p Hx Ee; [exists s, p; by split_and!|].
  destruct (world_step_frozen _ _ _ _ _ W S1 Hx ltac:(eauto)) as (s1 & p1 & X1 & (C1 & C2 & C3 & C4 & C5) & X3).
  rewrite Ee in C5.
  destruct (IH (world_inv_step _ _ _ W S1) s1 p1 X1 C5) as (s' & p' & Y1 & Y2 & Y3 & Y4 & Y5 & Y6).
  exists s', p'. split_and!; try congruence. auto.
Qed.
End terminal.

(** ** Waiting *)
Section waiting.
Context {J : SelectionJSON} {JL : SelectionJSONLaws J} {H : Sha256} {HL : Sha256Laws H}.
Context (allowed : Session -> sel_input -> Prop).

(** The goroutine is blocked although what it waits for is there. *)
Definition has_work (s : Session) (p : sel_phase) : bool :=
  match p with
  | FCapabilityWait =>
      bool_decide (is_Some (ag_err (s_agreement s))) || bool_decide (is_Some (ag_remote (s_agreement s)))
  | FProposalWait _ =>
      bool_decide (is_Some (ag_err (s_agreement s))) || bool_decide (is_Some (ib_proposal (remote_inbox s)))
  | FConfirmWait _ _ =>
      bool_decide (is_Some (ag_err (s_agreement s))) || bool_decide (is_Some (ib_confirm (remote_inbox s)))
  | _ => false
  end.

Definition awake (s : Session) (p : sel_phase) : Prop :=
  has_work s p = true -> ag_changed (s_agreement s) = true.

Lemma stopLocked_changed e a :
  ag_changed (stopLocked e a).1 = true \/ (stopLocked e a).1 = a.
Proof. unfold stopLocked. destruct (ag_err a); [by right|by left]. Qed.

Lemma awake_agreement s s' p :
  awake s p -> ag_changed (s_agreement s') = true \/ s_agreement s' = s_agreement s -> awake s' p.
Proof.
  intros A [E|E]; [by intros _|]. unfold awake in *.
  assert (has_work s' p = has_work s p) as -> by (unfold has_work, remote_inbox; by rewrite E).
  by rewrite E.
Qed.

Lemma stop_with_awake e s :
  ag_changed (s_agreement (stop_with e s).1) = true \/ s_agreement (stop_with e s).1 = s_agreement s.
Proof.
  unfold stop_with, stopSelection. pose proof (stopLocked_changed e (s_agreement s)) as S.
  destruct (stopLocked e (s_agreement s)). done.
Qed.

Lemma accept_control_awake m s :
  ag_changed (s_agreement (accept_control m s).1) = true \/ s_agreement (accept_control m s).1 = s_agreement s.
Proof.
  pose proof (fun e => stop_with_awake e s) as St. unfold accept_control.
  destruct (ag_err (s_agreement s)); [by right|]. destruct (_ || _); [apply St|].
  destruct (ag_current (s_agreement s)) as [r|].
  - destruct (_ <? _); [by right|]. destruct (_ =? _).
    + destruct (round_accept m r); [by left|apply St].
    + destruct (_ || _); [apply St|]. destruct (inbox_accept m _); [by left|apply St].
  - destruct (_ =? _); [|apply St]. destruct (inbox_accept m _); [by left|apply St].
Qed.

Lemma accept_capability_awake now c s :
  ag_changed (s_agreement (accept_capability now c s).1.1) = true \/
  s_agreement (accept_capability now c s).1.1 = s_agreement s.
Proof.
  pose proof (fun e => stop_with_awake e s) as St. unfold accept_capability.
  destruct (ag_err (s_agreement s)); [by right|].
  destruct (match ag_remote _ with Some _ => _ | None => _ end); [apply St|].
  destruct (_ && _ && _); [apply St|]. by left.
Qed.

(** Every message is handled with a wake-up, or changes nothing. *)
Lemma handle_awake now from msg s :
  ag_changed (s_agreement (HandleMessageFrom now from msg s).1) = true \/
  s_agreement (HandleMessageFrom now from msg s).1 = s_agreement s.
Proof.
  pose proof (fun e => stop_with_awake e s) as St.
  unfold HandleMessageFrom, HandleMessage, handleEnvelopeMessage.
  destruct (negb _); [apply St|]. destruct (bool_decide (ms_Kind msg = MessageKindEnvelope)); [|by right].
  destruct (_ && _); [by right|]. destruct (_ && _); [apply St|].
  destruct (UnmarshalEnvelope _) as [env|]; [|apply St].
  destruct (negb _); [apply St|]. destruct (_ || _ || _); [apply St|].
  destruct (if selection_type (en_MsgType env) then _ else _) as [env'|e]; [|apply St].
  cbv zeta. set (at_ := if IsZero _ then _ else _). set (s1 := set_last_envelope _ _ s).
  pose proof (fun e => stop_with_awake e s1) as St1.
  destruct (bool_decide _).
  - unfold receiveSelectionCapability. destruct (decodeSelectionJSON _ _) as [c|]; [|apply St1].
    destruct (validateSelectionCapability c); [apply St1|]. cbv zeta.
    pose proof (accept_capability_awake now (normalized_capability c) s1) as A.
    destruct (accept_capability _ _ s1) as [[s2 err] snap]. by destruct snap.
  - destruct (_ || _); [|by right]. unfold receiveSelectionControl.
    destruct (decode_control _ _); [exact (accept_control_awake _ s1)|apply St1].
Qed.

Lemma front_step_awake i s p s' p' msgs evs :
  front_step i s p = Some (s', p', msgs, evs) -> awake s' p'.
Proof.
  assert (forall q, match q with FCapabilityWait | FProposalWait _ | FConfirmWait _ _ => False | _ => True end ->
    awake s' q) as N by (intros []; simpl; try done; by intros _).
  intros E. destruct p; simpl in E; [|destruct i; try done; unfold quiet in E..].
  - apply N. destruct i; simpl in E; try done; unfold quiet in E; simplify_eq; try done.
    + destruct (sendCapability _ _ _) as [[? ?] err]. simplify_eq. by destruct err.
    + unfold start_agree. by destruct (requirePreviousSelectionClosed _).
    + unfold start_agree. destruct (prepare_ready _ _); [done|]. by destruct (requirePreviousSelectionClosed _).
    + destruct (enterSelection _ _ _ _). by simplify_eq.
  - simplify_eq. by apply N.
  - unfold capability_turn in E. destruct (ag_err (s_agreement s)) eqn:Ee; [simplify_eq; by apply N|].
    destruct ctx1; [simplify_eq; by apply N|].
    destruct (_ && _); [destruct ctx2; simplify_eq; by apply N|].
    destruct (ag_remote (s_agreement s)) eqn:Er; simplify_eq; [by apply N|].
    unfold awake, has_work. rewrite Ee, Er. by vm_compute.
  - apply bind_Some in E as (? & _ & E). simplify_eq. by apply N.
  - simplify_eq. by apply N.
  - destruct (agree_begin _ _ _ _); simplify_eq; by apply N.
  - unfold step_send in E. destruct (sendSelection _ _ _ _ _ _) as [[? ?] err]. simplify_eq. destruct err; by apply N.
  - destruct (ag_err (s_agreement s)) eqn:Ee; [simplify_eq; by apply N|].
    destruct (ib_proposal (remote_inbox s)) eqn:Ei; [destruct (check_proposal _ _ _); simplify_eq; by apply N|].
    simplify_eq. unfold awake, has_work. rewrite Ee, Ei. by vm_compute.
  - apply bind_Some in E as (? & _ & E). simplify_eq. by apply N.
  - simplify_eq. by apply N.
  - unfold step_send in E. destruct (sendSelection _ _ _ _ _ _) as [[? ?] err]. simplify_eq. destruct err; by apply N.
  - destruct (ag_err (s_agreement s)) eqn:Ee; [simplify_eq; by apply N|].
    destruct (ib_confirm (remote_inbox s)) eqn:Ei.
    { simplify_eq. destruct (check_confirmation _ _ _); by apply N. }
    simplify_eq. unfold awake, has_work. rewrite Ee, Ei. by vm_compute.
  - apply bind_Some in E as (? & _ & E). simplify_eq. by apply N.
  - simplify_eq. by apply N.
  - destruct (agree_commit _ _ _ _ _) as [[]|]; simplify_eq; by apply N.
Qed.

(** C36: no wake-up is lost: whenever the selecting goroutine is blocked although
    the capability, the proposal or the confirmation it waits for has arrived, or
    the agreement has failed, the channel it is blocked on holds a token. *)
Theorem no_lost_wakeup w x s p :
  sel_reachable allowed w -> sw_sessions w !! x = Some (s, p) -> has_work s p = true ->
  ag_changed (s_agreement s) = true.
Proof.
  intros R. assert (forall w0, (forall x s p, sw_sessions w0 !! x = Some (s, p) -> awake s p) ->
    rtc (sel_step allowed) w0 w -> forall x s p, sw_sessions w !! x = Some (s, p) -> awake s p) as G.
  { clear R x s p. intros w0 A0 R0. induction R0 as [|w0 w1 w2 S _ IH]; [done|]. apply IH. clear IH w2.
    intros x s p. destruct S as [w0 cfg resolver random s0 E Hn|w0 e i s0 q s' p' msgs evs E _ F|
      w0 e s0 q pk now at_ E Hpk Hto|w0 e s0 q E|w0 pk Ht]; simpl; [..|by apply A0];
      intros [[<- Ex]|[Hne Ex]]%lookup_insert_Some; try (by eapply A0); simplify_eq; [done|..].
    - by eapply front_step_awake.
    - eapply awake_agreement; [by eapply A0|]. apply handle_awake.
    - eapply awake_agreement; [by eapply A0|].
      pose proof (stop_with_awake (selectionFailure "selection_closed") s0) as X. unfold stop_with in X.
      by destruct (stopSelection _ s0). }
  apply (G sel_init); [|done]. intros y sy py. simpl. by rewrite lookup_empty.
Qed.
End waiting.
