(* ===== verification/SelectionPeace.v ===== *)
(** * The selection agreement: no conflict between two honest sessions

    Two sessions that are alone on their connection, and whose code offers
    strategies both support, with a common one in every round, never stop with a
    conflict, whatever the network does. *)
From stdpp Require Import sorting pretty.
From S2P Require Import Prelude GoStd LivenessWire SelectionWire SelectionWireThms Selection SelectionNet SelectionInv SelectionDeliver SelectionPres SelectionThms SelectionRounds.
Open Scope go_scope.

Definition conflict : sel_err := selectionFailure "selection_conflict".

Definition same_side (c d : Config) : Prop :=
  cfg_SessionID d = cfg_SessionID c /\ cfg_LocalNodeID d = cfg_LocalNodeID c /\ cfg_PeerID d = cfg_PeerID c.

Section peace.
Context {J : SelectionJSON} {JL : SelectionJSONLaws J} {H : Sha256} {HL : Sha256Laws H}.

(** Some node has two sessions for the connection. *)
Definition crowded (st : gmap string static) (c : Config) : Prop :=
  exists z1 z2 (d1 d2 : static), z1 <> z2 /\ st !! z1 = Some d1 /\ st !! z2 = Some d2 /\
    same_side d1.1 d2.1 /\ (same_side c d1.1 \/ mirror c d1.1).

(** ** What the code of a session offers *)
Context (offers : Z -> string).

Definition offered (s : Session) (names : list string) : Prop :=
  ag_err (s_agreement s) = None ->
  exists remote, ag_remote (s_agreement s) = Some remote /\
    offers (next_ordinal (s_agreement s)) ∈ names /\
    forall n, n ∈ names -> n ∈ sc_Strategies (ag_local (s_agreement s)) /\ n ∈ sc_Strategies remote.

(** What a session did, in order. *)
Definition own_events (x : string) (log : list (string * sel_event)) : list sel_event :=
  omap (fun ye => if decide (ye.1 = x) then Some ye.2 else None) log.

(** The session's code executes a strategy only when the last thing it did was an
    agreement, and then the first of the candidates that [agreeCandidates]
    returned to it: the loops of [selectAndExecute], its protected variant and
    [selectAndBindProtectedDirect] prepare a candidate, give up on an error, and
    execute that candidate. *)
Definition disciplined (log : list (string * sel_event)) (s : Session) (i : sel_input) : Prop :=
  match i with
  | CallAgree candidates _ _ => offered s (cd_Name <$> candidates)
  | CallPrepare candidate _ => prepare_ready candidate s = false -> offered s [cd_Name candidate]
  | CallEnter strategy _ _ =>
      exists g j first rest,
        last (own_events (sc_Epoch (ag_local (s_agreement s))) log) = Some (EvConfirmed g j (first :: rest)) /\
        cd_Name first = sy_Name strategy
  | _ => True
  end.

(** Sessions of the connection of [conn], on either side of it. *)
Definition connected (conn d : Config) : Prop := same_side conn d \/ mirror conn d.

(** A run in which the code of the sessions of one connection is disciplined, and
    the code of all other sessions does what it likes. *)
Definition honest_step (conn : Config) (w w' : sel_world) : Prop :=
  sel_step (fun s i => connected conn (s_cfg s) -> disciplined (sw_log w) s i) w w'.
Definition honest_reachable (conn : Config) : sel_world -> Prop := rtc (honest_step conn) sel_init.

Record peaceful (log : list (string * sel_event)) (x : string) (s : Session) (p : sel_phase) : Prop := {
  pc_err : ag_err (s_agreement s) <> Some conflict;
  pc_stop : forall e, p = FStop e -> terminal_error e <> conflict;
  pc_begin : forall start candidates newPass, p = FBegin start candidates newPass ->
    offered s (cd_Name <$> candidates);
  pc_offer : forall g, (x, EvProposed g) ∈ log \/ phase_round p = Some g ->
    offers (g_ordinal g) ∈ pr_Strategies (g_proposal g);
}.

Lemma stop_with_peaceful e s :
  ag_err (s_agreement s) <> Some conflict -> terminal_error e <> conflict ->
  ag_err (s_agreement (stop_with e s).1) <> Some conflict.
Proof.
  intros E T. unfold stop_with, stopSelection, stopLocked.
  destruct (ag_err (s_agreement s)) eqn:Ee; simpl; [by rewrite Ee|congruence].
Qed.

Lemma terminal_foreign e : terminal_error (ForeignError e) <> conflict.
Proof. by destruct e as [[]|]. Qed.

(** ** The round that stands

    When the last thing a session did was an agreement, and no other is under
    way, the agreement's round is the current one and nothing has entered it. *)
Record standing (log : list (string * sel_event)) (x : string) (s : Session) (p : sel_phase) : Prop := {
  sd_last : ag_err (s_agreement s) = None -> phase_round p = None -> (forall e, p <> FStop e) ->
    forall g j o, last (own_events x log) = Some (EvConfirmed g j o) ->
    exists r, ag_current (s_agreement s) = Some r /\ rd_ordinal r = g_ordinal g /\ rd_entered r = false;
  sd_open : is_Some (phase_round p) -> forall r, ag_current (s_agreement s) = Some r -> rd_entered r = false;
}.
Definition world_standing (w : sel_world) : Prop :=
  forall x s p, sw_sessions w !! x = Some (s, p) -> standing (sw_log w) x s p.

Lemma own_events_elem x log ev : ev ∈ own_events x log -> (x, ev) ∈ log.
Proof. intros ([y e] & Hin & E)%list_elem_of_omap. simpl in E. case_decide; by simplify_eq. Qed.

Lemma own_events_own x log evs : own_events x (log ++ (pair x <$> evs)) = own_events x log ++ evs.
Proof.
  unfold own_events. rewrite omap_app. f_equal. induction evs as [|ev evs IH]; [done|].
  rewrite fmap_cons. cbn [omap list_omap]. simpl. by rewrite decide_True, IH by done.
Qed.

Lemma own_events_other x log e evs : x <> e -> own_events x (log ++ (pair e <$> evs)) = own_events x log.
Proof.
  intros Hne. unfold own_events. rewrite omap_app. rewrite <-(app_nil_r (omap _ log)) at 2. f_equal.
  induction evs as [|ev evs IH]; [done|]. rewrite fmap_cons. cbn [omap list_omap]. simpl.
  by rewrite decide_False, IH by done.
Qed.

Lemma standing_change log x s s' p :
  standing log x s p -> rounds_change (s_agreement s) (s_agreement s') -> standing log x s' p.
Proof.
  intros [S1 S2] [C1 C2 _ _]. split.
  - intros Ee Ep Hp g j o El. destruct (S1 (C1 Ee) Ep Hp _ _ _ El) as (r & Er & ? & ?).
    rewrite Er in C2. inversion C2 as [? r' (A1 & A2 & A3)|]; subst. exists r'. by rewrite A1, A3.
  - intros Hp r' Er'. rewrite Er' in C2. inversion C2 as [r ? (A1 & A2 & A3) Er|]; subst.
    rewrite A3. by apply S2.
Qed.

(** Calls other than [enterSelection] leave the current round alone. *)
Lemma call_keeps_round i s s' p' msgs evs :
  0 <= s_seq s <= u64_max -> front_call i s = Some (s', p', msgs, evs) ->
  (forall strategy ctxErr now, i <> CallEnter strategy ctxErr now) ->
  evs = [] /\ (ag_err (s_agreement s') = None ->
    ag_err (s_agreement s) = None /\ ag_current (s_agreement s') = ag_current (s_agreement s)).
Proof.
  intros Hs E Hi.
  assert (forall err, ag_err (s_agreement (selectionCleanup err s)) = None ->
    ag_err (s_agreement s) = None /\ ag_current (s_agreement (selectionCleanup err s)) = ag_current (s_agreement s)) as C.
  { intros [e|]; [|done]. simpl. unfold stopLocked. simpl. destruct (ag_err (s_agreement s)) eqn:Ee; simpl; congruence. }
  destruct i; simpl in E; try done; unfold quiet in E;
    try (by edestruct Hi); try (simplify_eq; split; [done|]; try done).
  - unfold beginSelectionPass. by destruct (ag_err (s_agreement s)) eqn:Ee; simpl; rewrite ?Ee.
  - destruct (sendCapability now sendErr s) as [[s1 sent] err] eqn:Es. simplify_eq. split; [done|].
    apply sendCapability_spec in Es as (_ & _ & [->|S] & _); [done| |done].
    intros E0. destruct (st_err _ _ S). congruence.
  - unfold closeSelectionExecutor. destruct (bool_decide _); apply C.
  - unfold closeSelectionStrategy. destruct (_ && _); apply C.
  - unfold selectionExecutionContext. simpl. by destruct (_ && _).
Qed.

Lemma enter_standing log x s strategy ctxErr now s' p' msgs evs :
  standing log x s FIdle -> front_call (CallEnter strategy ctxErr now) s = Some (s', p', msgs, evs) ->
  standing (log ++ (pair x <$> evs)) x s' p'.
Proof.
  intros S E. simpl in E. destruct (enterSelection now ctxErr strategy s) as [s1 err] eqn:Es. simplify_eq.
  split; [|by intros [? ?]]. rewrite own_events_own. intros Ee Ep Hp g j o El.
  destruct err as [e|].
  - exfalso. unfold enterSelection in Es. destruct (ag_err (s_agreement s)) eqn:E0; [by simplify_eq|].
    assert (forall e', stop_with e' s <> (s', Some e)) as N.
    { intros e' X. destruct (stop_with_stopped e' s) as (_ & _ & X3). rewrite X in X3.
      destruct (st_err _ _ X3). simpl in *. congruence. }
    destruct (ag_current (s_agreement s)); [|by eapply N]. destruct (_ || _); [by eapply N|].
    destruct ctxErr; [by eapply N|]. destruct (negb _); [by eapply N|done].
  - unfold enterSelection in Es. destruct (ag_err (s_agreement s)) eqn:E0; [done|].
    destruct (ag_current (s_agreement s)) as [r|] eqn:Er; [by rewrite last_snoc in El|].
    unfold stop_with in Es. destruct (stopSelection _ _). by simplify_eq.
Qed.

Lemma standing_call log x s i s' p' msgs evs :
  0 <= s_seq s <= u64_max -> standing log x s FIdle -> front_call i s = Some (s', p', msgs, evs) ->
  standing (log ++ (pair x <$> evs)) x s' p'.
Proof.
  intros Hs S E. assert (phase_round p' = None) as Np.
  { destruct i; simpl in E; unfold quiet, start_agree in E; repeat case_match; by simplify_eq. }
  assert ((forall strategy ctxErr now, i <> CallEnter strategy ctxErr now) ->
    standing (log ++ (pair x <$> evs)) x s' p') as O.
  { intros Hi. destruct (call_keeps_round i s s' p' msgs evs Hs E Hi) as [-> K]. rewrite app_nil_r.
    split; [|rewrite Np; by intros [? ?]]. intros Ee _ _. destruct (K Ee) as [Ee' ->]. by apply S. }
  destruct i; try (by apply O). by eapply enter_standing.
Qed.

Lemma begin_not_entered start candidates newPass s s' g r :
  agree_begin start candidates newPass s = BeginRound s' g -> ag_current (s_agreement s') = Some r ->
  rd_entered r = false.
Proof.
  unfold agree_begin. intros E Er. destruct (ag_err (s_agreement s)); [done|].
  destruct (ag_remote (s_agreement s)); [|done]. destruct (match ag_current _ with Some _ => _ | None => _ end); [done|].
  destruct (match ag_current (s_agreement s) with
            | Some r => (rd_ordinal r + 1, rd_digest r) | None => (0, ""%string) end) as [n prev].
  destruct (negb (forallb _ _)); [done|]. destruct (negb (selectionList _ _ _)); [done|].
  destruct (if newPass then _ else _) as [st1 dl1]. destruct (if n =? 0 then _ else _) as [st2 dl2].
  by simplify_eq/=.
Qed.

Lemma standing_step st log x s p i s' p' msgs evs :
  session_inv st log x s p -> standing log x s p -> front_step i s p = Some (s', p', msgs, evs) ->
  standing (log ++ (pair x <$> evs)) x s' p'.
Proof.
  intros I S E.
  assert (forall q, (phase_round q = None -> (forall e, q <> FStop e) -> ag_err (s_agreement s) = None ->
      phase_round p = None /\ forall e, p <> FStop e) -> (is_Some (phase_round q) -> is_Some (phase_round p)) ->
    standing (log ++ []) x s q) as P.
  { intros q Q1 Q2. rewrite app_nil_r. destruct S as [S1 S2]. split; [|auto].
    intros Ee Ep Hp. destruct (Q1 Ep Hp Ee). by apply S1. }
  assert (forall q, take_changed s ≫= (fun s' => quiet s' q) = Some (s', p', msgs, evs) ->
    phase_round q = phase_round p -> (forall e, p <> FStop e) -> standing (log ++ (pair x <$> evs)) x s' p') as T.
  { intros q Et Q1 Q2. unfold take_changed in Et. destruct (ag_changed _); [|done].
    simpl in Et. unfold quiet in Et. simplify_eq. rewrite app_nil_r. destruct S as [S1 S2].
    split; rewrite Q1; [|by apply S2]. intros Ee Ep Hp. by apply S1. }
  assert (forall kind raw now ctxErr sendErr next ev,
    step_send kind raw now ctxErr sendErr next ev s = Some (s', p', msgs, evs) ->
    is_Some (phase_round next) -> is_Some (phase_round p) -> standing (log ++ (pair x <$> evs)) x s' p') as Sd.
  { intros kind raw now ctxErr sendErr next ev Es [g0 N0] N1. unfold step_send in Es.
    destruct (sendSelection now ctxErr sendErr kind raw s) as [[s1 sent] err] eqn:Ess. simplify_eq.
    apply sendSelection_spec in Ess as (_ & E2 & _); [|apply I].
    split; [destruct err; intros _ Ep Hp; [by destruct (Hp _ eq_refl)|congruence]|].
    rewrite E2. intros _. by apply (sd_open _ _ _ _ S). }
  destruct p; [eapply standing_call; [apply I|exact S|exact E]|..]; destruct i; try (simpl in E; done); simpl in E;
    try (by eapply T; eauto); try (by eapply Sd; eauto); unfold quiet in E;
    try (simplify_eq; apply P; naive_solver).
  - simplify_eq. rewrite app_nil_r. destruct (stopSelection_stopped err s) as (_ & _ & X3).
    split; [|by intros [? ?]]. intros Ee. destruct (st_err _ _ X3). congruence.
  - destruct (capability_turn waitErr ctx1 ctx2 s); simplify_eq; apply P; naive_solver.
  - destruct (agree_begin start candidates newPass s) eqn:Eb; simplify_eq;
      try (apply P; naive_solver). rewrite app_nil_r. split; [done|].
    intros _ r Er. by eapply begin_not_entered.
  - destruct (ag_err (s_agreement s)) eqn:Ee; [|destruct (ib_proposal _); [destruct (check_proposal _ _ _)|]];
      simplify_eq; apply P; naive_solver.
  - destruct (ag_err (s_agreement s)) eqn:Ee; [|destruct (ib_confirm _); [destruct (check_confirmation _ _ _)|]];
      simplify_eq; apply P; naive_solver.
  - destruct (agree_commit now ctxErr g joint s) as [[| |]|s1] eqn:Ec; simplify_eq;
      try (apply P; naive_solver).
    + unfold agree_commit in Ec. destruct (ag_err (s_agreement s')) eqn:Ee; [|by destruct (_ || _)].
      apply P; [congruence|by intros [? ?]].
    + unfold agree_commit in Ec. destruct (ag_err (s_agreement s)) eqn:Ee; [done|]. destruct (_ || _); [done|].
      destruct (si_phase _ _ _ _ _ I) as ((_ & r & Er & Or & _) & _). simplify_eq.
      split; [|by intros [? ?]]. rewrite own_events_own, last_snoc. intros _ _ _ g' j' o' [= <- <- <-].
      simpl. rewrite Er. eexists. split_and!; [done|done|]. simpl. apply (sd_open _ _ _ _ S); [done|done].
Qed.

Lemma world_standing_update w e s p s' p' evs pks :
  world_standing w -> sw_sessions w !! e = Some (s, p) ->
  standing (sw_log w ++ (pair e <$> evs)) e s' p' ->
  world_standing (mkSelWorld (<[e := (s', p')]> (sw_sessions w)) (sw_net w ++ pks) (sw_log w ++ (pair e <$> evs))).
Proof.
  intros W E S x sx px. simpl. intros [[<- Ex]|[Hne Ex]]%lookup_insert_Some; [by simplify_eq|].
  destruct (W _ _ _ Ex) as [S1 S2]. split; [|done]. by rewrite own_events_other.
Qed.

Lemma world_standing_step allowed w w' :
  world_inv w -> world_standing w -> sel_step allowed w w' -> world_standing w'.
Proof.
  intros W D S. destruct S as [w cfg resolver random s E Hn|w e i s p s' p' msgs evs E _ F|
    w e s p pk now at_ E Hpk Hto|w e s p E|w pk Ht].
  - intros x sx px. simpl. intros [[<- Ex]|[Hne Ex]]%lookup_insert_Some; [|by apply D]. simplify_eq.
    split; [|by intros [? ?]]. intros _ _ _ g j o El. apply last_Some_elem_of, own_events_elem in El.
    destruct (wi_owner _ W _ _ El). congruence.
  - eapply world_standing_update; [done|done|]. eapply standing_step; eauto. by apply W.
  - destruct (deliver_effect _ _ _ _ _ now at_ W E Hpk) as (_ & _ & C).
    pose proof (world_standing_update w e s p (HandleMessageFrom now (pk_from pk) (received_at at_ (pk_msg pk)) s).1
      p [] [] D E) as U. rewrite !app_nil_r in U. apply U.
    eapply standing_change; [by apply D|by eapply rounds_change_delivered].
  - destruct (stopSelection_stopped (selectionFailure "selection_closed") s) as (_ & _ & X3).
    pose proof (world_standing_update w e s p (stopSelection (selectionFailure "selection_closed") s).1
      p [] [] D E) as U. rewrite !app_nil_r in U. apply U.
    eapply standing_change; [by apply D|by apply rounds_change_stopped].
  - exact D.
Qed.

Section pair.
Context (w : sel_world) (W : world_inv w) (R : world_rounds w).
Context (x : string) (s : Session) (p : sel_phase).
Hypothesis Hx : sw_sessions w !! x = Some (s, p).
Hypothesis Hn : ~ crowded (statics w) (s_cfg s).

Notation st := (statics w).
Lemma st_x : st !! x = Some (session_static s). Proof. by eapply statics_lookup. Qed.

Lemma sole_peer y d z d' :
  st !! y = Some d -> st !! z = Some d' -> mirror (s_cfg s) d.1 -> mirror (s_cfg s) d'.1 -> y = z.
Proof.
  intros Hy Hz M M'. destruct (decide (y = z)) as [|Hne]; [done|]. exfalso. apply Hn.
  exists y, z, d, d'. split_and!; try done; [|by right]. unfold mirror, same_side in *. naive_solver congruence.
Qed.

Lemma sole_self y d z d' :
  st !! y = Some d -> st !! z = Some d' -> mirror (s_cfg s) d.1 -> mirror d.1 d'.1 -> z = x.
Proof.
  intros Hy Hz M M'. destruct (decide (x = z)) as [|Hne]; [done|]. exfalso. apply Hn.
  exists x, z, (session_static s), d'. unfold mirror, same_side in *. simpl.
  split_and!; try done; [apply st_x|naive_solver congruence..|]. by left.
Qed.

(** The peer's rounds are with this session, at most one ahead, and the peer's
    digest of the round before is this session's. *)
Context (y : string) (d : static).
Hypothesis Hy : st !! y = Some d.
Hypothesis Hm : mirror (s_cfg s) d.1.

Lemma peer_round g :
  (y, EvProposed g) ∈ sw_log w ->
  agreeing_ok st y d g /\ g_peer g = x /\
  pr_binding (g_proposal g) = mkBinding selectionVersion y x (FormatUint (g_ordinal g))
    (digest_of d.2) (digest_of (ag_local (s_agreement s))) (g_previous g) true /\
  g_remoteCap g = domainWire (ag_local (s_agreement s)).
Proof.
  intros Hg. destruct (lo_proposed _ _ (world_log_ok _ W) _ _ Hg) as (d' & Hd & A).
  rewrite Hy in Hd. simplify_eq. destruct (go_peer _ _ _ _ A) as (dx & Hdx & M & Rc & B).
  assert (g_peer g = x) as E by exact (sole_self _ _ _ _ Hy Hdx Hm M). rewrite E in Hdx, B. rewrite st_x in Hdx. simplify_eq.
  done.
Qed.

Lemma own_round g :
  agreeing_ok st x (session_static s) g ->
  g_peer g = y /\
  pr_binding (g_proposal g) = mkBinding selectionVersion x y (FormatUint (g_ordinal g))
    (digest_of (ag_local (s_agreement s))) (digest_of d.2) (g_previous g) true /\
  g_remoteCap g = domainWire d.2 /\ g_localCap g = domainWire (ag_local (s_agreement s)).
Proof.
  intros A. destruct (go_peer _ _ _ _ A) as (dy & Hdy & M & Rc & B).
  assert (g_peer g = y) as E by exact (sole_peer _ _ _ _ Hdy Hy M Hm). rewrite E in Hdy, B. rewrite Hy in Hdy. simplify_eq.
  split_and!; try done. apply (go_local _ _ _ _ A).
Qed.

Lemma peer_rounds_inv : exists sy py, sw_sessions w !! y = Some (sy, py) /\ d = session_static sy /\
  rounds_inv (sw_log w) y sy py.
Proof. destruct (statics_Some _ _ _ Hy) as (sy & py & E & ->). exists sy, py. split_and!; [done..|by apply R]. Qed.

(** What the peer confirmed, this session has confirmed or is about to. *)
Lemma peer_confirmed g j o :
  (y, EvConfirmed g j o) ∈ sw_log w ->
  exists g', (x, EvConfirming g' j) ∈ sw_log w /\ g_ordinal g' = g_ordinal g.
Proof.
  intros Hg. destruct (confirmed_peer _ W _ _ _ _ Hg) as (Hc & g' & Hg' & O & _).
  destruct (lo_confirming _ _ (world_log_ok _ W) _ _ _ Hc) as (Hp & _).
  destruct (peer_round _ Hp) as (_ & E & _). rewrite E in Hg'. eauto.
Qed.

Lemma peer_not_ahead g :
  (y, EvProposed g) ∈ sw_log w -> 0 <= g_ordinal g <= u64_max /\ g_ordinal g <= next_ordinal (s_agreement s).
Proof.
  intros Hg. destruct (peer_round _ Hg) as (A & _). pose proof (go_range _ _ _ _ A) as Rg. split; [done|].
  pose proof (wi_session _ W _ _ _ Hx) as I.
  destruct peer_rounds_inv as (sy & py & _ & _ & Ry).
  destruct (ri_chain _ _ _ _ Ry g (or_introl Hg)) as [E|(g0 & j0 & o0 & H0 & O0 & _)].
  - unfold next_ordinal. destruct (ag_current (s_agreement s)) as [r|] eqn:Er; [|lia].
    destruct (si_current _ _ _ _ _ I _ Er). lia.
  - destruct (peer_confirmed _ _ _ H0) as (g' & H' & O').
    apply (si_confirming _ _ _ _ _ I) in H' as [H' _]. apply (si_proposed _ _ _ _ _ I) in H' as [_ H']. lia.
Qed.

Lemma previous_agree g g' :
  (x, EvProposed g) ∈ sw_log w -> (y, EvProposed g') ∈ sw_log w -> g_ordinal g = g_ordinal g' ->
  g_previous g = g_previous g'.
Proof.
  intros Hg Hg' O. destruct (lo_proposed _ _ (world_log_ok _ W) _ _ Hg) as (dx & Ex & A).
  destruct (peer_round _ Hg') as (A' & _).
  pose proof (go_previous _ _ _ _ A) as P. pose proof (go_previous _ _ _ _ A') as P'.
  destruct peer_rounds_inv as (sy & py & _ & _ & Ry).
  destruct (ri_chain _ _ _ _ (R _ _ _ Hx) g (or_introl Hg)) as [E|(g0 & j0 & o0 & H0 & O0 & ->)].
  { rewrite <-O, E in P'. rewrite E in P. simpl in P, P'. congruence. }
  destruct (ri_chain _ _ _ _ Ry g' (or_introl Hg')) as [E|(g1 & j1 & o1 & H1 & O1 & ->)].
  { destruct (confirmed_peer _ W _ _ _ _ H0) as (Hc & _).
    destruct (lo_confirming _ _ (world_log_ok _ W) _ _ _ Hc) as (Hp & _).
    destruct (lo_proposed _ _ (world_log_ok _ W) _ _ Hp) as (? & _ & A0). pose proof (go_range _ _ _ _ A0). lia. }
  f_equal. destruct (peer_confirmed _ _ _ H1) as (g2 & H2 & O2).
  destruct (confirmed_peer _ W _ _ _ _ H0) as (Hc & _).
  destruct (confirming_once _ W _ _ _ _ _ Hc H2) as [_ ->]; [lia|done].
Qed.

Lemma bindings_agree g g' :
  (x, EvProposed g) ∈ sw_log w -> (y, EvProposed g') ∈ sw_log w -> g_ordinal g = g_ordinal g' ->
  pr_binding (g_proposal g') = expected_binding (pr_binding (g_proposal g)).
Proof.
  intros Hg Hg' O. destruct (lo_proposed _ _ (world_log_ok _ W) _ _ Hg) as (dx & Ex & A).
  pose proof st_x as Sx. rewrite Sx in Ex. simplify_eq.
  destruct (own_round _ A) as (_ & -> & _). destruct (peer_round _ Hg') as (_ & _ & -> & _).
  rewrite (previous_agree _ _ Hg Hg' O), O. done.
Qed.

(** Two confirmations of one round carry the same joint value. *)
Lemma joints_agree g j g' j' :
  (x, EvConfirming g j) ∈ sw_log w -> (y, EvConfirming g' j') ∈ sw_log w -> g_ordinal g = g_ordinal g' ->
  j' = j.
Proof.
  intros Hc Hc' O.
  destruct (confirming_joint _ W _ _ _ Hc) as (e & e' & g2 & D1 & D2 & M & A & P2 & A2 & O2 & X2 & J1).
  destruct (confirming_joint _ W _ _ _ Hc') as (f & f' & g3 & E1 & E2 & M' & B & P3 & B3 & O3 & X3 & J2).
  pose proof st_x as Sx. rewrite Sx in D1. injection D1 as <-.
  destruct (own_round _ A) as (Ey & _). rewrite Ey in D2, P2, A2.
  destruct (lo_confirming _ _ (world_log_ok _ W) _ _ _ Hc') as (Hp' & _).
  destruct (peer_round _ Hp') as (_ & Ex & _). rewrite Ex in E2, P3, B3.
  rewrite Hy in D2, E1. injection D2 as <-. injection E1 as <-. rewrite Sx in E2. injection E2 as <-.
  assert (g2 = g') as -> by (eapply (proposed_once _ W); eauto; congruence).
  destruct (lo_confirming _ _ (world_log_ok _ W) _ _ _ Hc) as (Hp & _).
  assert (g3 = g) as -> by (eapply (proposed_once _ W); eauto; congruence).
  rewrite (jointSelection_mirror _ _ _ _ _ _ _ _ (wi_static _ W _ _ Sx) (wi_static _ W _ _ Hy) M) in J2.
  congruence.
Qed.

(** The capability this session knows is the peer's. *)
Lemma known_remote c :
  session_inv st (sw_log w) x s p -> ag_remote (s_agreement s) = Some c -> y = sc_Epoch c /\ d.2 = c.
Proof.
  intros I Er. destruct (si_remote _ _ _ _ _ I _ Er) as (cfg & Hc & M).
  pose proof (sole_peer _ _ _ (cfg, c) Hy Hc Hm M) as E. split; [done|].
  assert (Some d = Some ((cfg, c) : static)) as Ed by (rewrite <-Hy, E; exact Hc). by injection Ed as ->.
Qed.

(** A message of the peer for round [n]. *)
Definition peer_control (m : control) (n : Z) : Prop :=
  (exists g, (y, EvProposed g) ∈ sw_log w /\ m = inl (g_proposal g) /\ g_ordinal g = n) \/
  (exists g j, (y, EvConfirming g j) ∈ sw_log w /\ m = inr (own_confirmation g j) /\ g_ordinal g = n).

Lemma peer_control_round m n :
  peer_control m n ->
  control_ordinal m = n /\
  exists g, (y, EvProposed g) ∈ sw_log w /\ control_binding m = pr_binding (g_proposal g) /\ g_ordinal g = n.
Proof.
  assert (forall g, (y, EvProposed g) ∈ sw_log w ->
    selectionOrdinal (bd_Ordinal (pr_binding (g_proposal g))) = Ok (g_ordinal g)) as O.
  { intros g Hg. destruct (peer_round _ Hg) as (A & _ & -> & _). simpl.
    apply selectionOrdinal_FormatUint, A. }
  unfold control_ordinal. intros [(g & Hg & -> & <-)|(g & j & Hg & -> & <-)]; simpl.
  - rewrite (O _ Hg). eauto.
  - apply (lo_confirming _ _ (world_log_ok _ W)) in Hg as [Hg _]. rewrite (O _ Hg). eauto.
Qed.

(** What an inbox holds, the peer sent. *)
Lemma sender_is_peer z g : (z, EvProposed g) ∈ sw_log w -> g_peer g = x -> z = y.
Proof.
  intros Hz Px. destruct (lo_proposed _ _ (world_log_ok _ W) _ _ Hz) as (dz & Hdz & A).
  destruct (go_peer _ _ _ _ A) as (dx & Hdx & M & _). rewrite Px, st_x in Hdx. injection Hdx as <-.
  exact (sole_peer _ _ _ _ Hdz Hy (mirror_sym _ _ M) Hm).
Qed.

Lemma inbox_proposal_peer n ib q :
  inbox_ok (sw_log w) x n ib -> ib_proposal ib = Some q ->
  exists g, (y, EvProposed g) ∈ sw_log w /\ q = g_proposal g /\ g_ordinal g = n.
Proof.
  intros Io E. destruct (io_proposal _ _ _ _ Io _ E) as (z & g & Hz & -> & O & Px).
  rewrite (sender_is_peer _ _ Hz Px) in Hz. eauto.
Qed.

Lemma inbox_confirm_peer n ib c :
  inbox_ok (sw_log w) x n ib -> ib_confirm ib = Some c ->
  exists g j, (y, EvConfirming g j) ∈ sw_log w /\ c = own_confirmation g j /\ g_ordinal g = n.
Proof.
  intros Io E. destruct (io_confirm _ _ _ _ Io _ E) as (z & g & j & Hz & -> & O & Px).
  destruct (lo_confirming _ _ (world_log_ok _ W) _ _ _ Hz) as [Hz' _].
  rewrite (sender_is_peer _ _ Hz' Px) in Hz. eauto.
Qed.

Lemma inbox_accept_peaceful m n ib e :
  peer_control m n -> inbox_ok (sw_log w) x n ib -> inbox_accept m ib = Err e -> e <> conflict.
Proof.
  intros Hp Io E. unfold inbox_accept in E. destruct (_ <? _); [by simplify_eq|].
  destruct Hp as [(g & Hg & -> & O)|(g & j & Hg & -> & O)];
    (destruct (negb (bool_decide _)) eqn:B; [|done]); simpl in E.
  - destruct (ib_proposal ib) as [q|] eqn:Q; [|done].
    destruct (inbox_proposal_peer _ _ _ Io Q) as (g' & Hg' & -> & O').
    assert (g' = g) as -> by (apply (proposed_once _ W y); auto; lia).
    unfold equalProposal in E. by rewrite !bool_decide_true in E.
  - destruct (ib_confirm ib) as [q|] eqn:Q; [|done].
    destruct (inbox_confirm_peer _ _ _ Io Q) as (g' & j' & Hg' & -> & O').
    destruct (confirming_once _ W y g' j' g j Hg' Hg) as [-> ->]; [lia|].
    by rewrite bool_decide_true in E.
Qed.

(** The inbox of a confirmed round agrees with the commitment. *)
Lemma round_accept_peaceful m n r e :
  peer_control m n -> ag_err (s_agreement s) = None -> ag_current (s_agreement s) = Some r ->
  rd_ordinal r = n -> round_accept m r = Err e -> e <> conflict.
Proof.
  intros Hp Ee Er On E. pose proof (wi_session _ W _ _ _ Hx) as I.
  destruct (si_current _ _ _ _ _ I _ Er) as (_ & Io & B). rewrite On in Io.
  unfold round_accept in E. destruct (inbox_accept m (rd_remote r)) as [ib|e'] eqn:Ei; simpl in E.
  2:{ simplify_eq. by eapply inbox_accept_peaceful. }
  destruct (rd_confirmed r) eqn:Ec; [|done].
  assert (exists c, ib_confirm ib = Some c /\
    exists g j, (y, EvConfirming g j) ∈ sw_log w /\ c = own_confirmation g j /\ g_ordinal g = n) as (c & Eic & Hc).
  { destruct (ri_heard _ _ _ _ (R _ _ _ Hx) Ee _ Er) as [c0 E0]; [by rewrite Ec|].
    unfold inbox_accept in Ei. destruct (_ <? _); [done|].
    destruct Hp as [(g & Hg & -> & O)|(g & j & Hg & -> & O)]; (destruct (_ && _); [done|]); simplify_eq; simpl.
    - exists c0. split; [done|]. by eapply inbox_confirm_peer.
    - eauto 10. }
  rewrite Eic in E. destruct Hc as (g & j & Hg & -> & O).
  destruct (B eq_refl) as (g0 & j0 & o0 & H0 & O0 & D0 & S0).
  destruct (confirmed_peer _ W _ _ _ _ H0) as (Hc0 & _).
  pose proof (joints_agree _ _ _ _ Hc0 Hg ltac:(lia)) as ->.
  simpl in E. by rewrite D0, S0, !bool_decide_true in E.
Qed.

Lemma accept_control_peaceful m n s1 :
  peer_control m n -> s_agreement s1 = s_agreement s -> ag_err (s_agreement s) <> Some conflict ->
  ag_err (s_agreement (accept_control m s1).1) <> Some conflict.
Proof.
  intros Hp E1 Hne. pose proof (wi_session _ W _ _ _ Hx) as I.
  assert (forall e, terminal_error e <> conflict ->
    ag_err (s_agreement (stop_with e s1).1) <> Some conflict) as Stop.
  { intros e T. apply stop_with_peaceful; [by rewrite E1|done]. }
  unfold accept_control. fold (control_ordinal m). rewrite E1.
  destruct (ag_err (s_agreement s)) eqn:Ee; [simpl; by rewrite E1, Ee|].
  destruct (peer_control_round _ _ Hp) as (On & g & Hg & Hb & Og).
  destruct (peer_round _ Hg) as (A & _ & B & _). rewrite Hb, B. simpl.
  pose proof (so_epoch _ _ (wi_static _ W _ _ st_x)) as Ex. simpl in Ex.
  rewrite !bool_decide_true by done. simpl.
  assert (match ag_remote (s_agreement s) with
    | Some r => negb (bool_decide (y = sc_Epoch r)) || negb (bool_decide (digest_of d.2 = digest_of r))
    | None => false end = false) as ->.
  { destruct (ag_remote (s_agreement s)) as [c|] eqn:Er; [|done].
    destruct (known_remote _ I Er) as [-> ->]. by rewrite !bool_decide_true. }
  rewrite On.
  destruct (peer_not_ahead _ Hg) as [Rg Na]. rewrite Og in Rg, Na.
  assert (n = next_ordinal (s_agreement s) ->
    ag_err (s_agreement (match inbox_accept m (ag_future (s_agreement s)) with
      | Ok ib => (set_agreement (wake (set_future ib (s_agreement s))) s1, None)
      | Err e => stop_with e s1 end).1) <> Some conflict) as F.
  { intros ->. destruct (inbox_accept m _) as [ib|e] eqn:Ei; simpl; [by rewrite Ee|].
    apply Stop. pose proof (inbox_accept_peaceful _ _ _ _ Hp (si_future _ _ _ _ _ I) Ei).
    unfold inbox_accept in Ei. destruct (_ <? _); [by simplify_eq|].
    destruct m; (destruct (_ && _); [|done]); by simplify_eq. }
  unfold next_ordinal in Na, F. destruct (ag_current (s_agreement s)) as [r|] eqn:Er.
  - destruct (n <? rd_ordinal r) eqn:L; [simpl; by rewrite E1, Ee|]. apply Z.ltb_ge in L.
    destruct (n =? rd_ordinal r) eqn:Q.
    + apply Z.eqb_eq in Q. destruct (round_accept m r) as [r'|e] eqn:Ra; simpl; [by rewrite Ee|].
      apply Stop. pose proof (round_accept_peaceful _ _ _ _ Hp Ee Er ltac:(done) Ra) as X.
      unfold round_accept, inbox_accept in Ra. destruct (_ <? _); [by simplify_eq/=|].
      destruct m; (destruct (_ && _); simpl in Ra; [by simplify_eq|]); by destruct (_ && _); simplify_eq.
    + apply Z.eqb_neq in Q. rewrite (proj2 (Z.eqb_neq _ u64_max)) by lia.
      replace (n =? rd_ordinal r + 1) with true by (symmetry; apply Z.eqb_eq; lia). simpl. apply F. lia.
  - replace (n =? 0) with true by (symmetry; apply Z.eqb_eq; lia). apply F. lia.
Qed.

Lemma accept_capability_peaceful now s1 :
  s_cfg s1 = s_cfg s -> s_agreement s1 = s_agreement s -> ag_err (s_agreement s) <> Some conflict ->
  ag_err (s_agreement (accept_capability now d.2 s1).1.1) <> Some conflict.
Proof.
  intros _ E1 Hne. pose proof (wi_session _ W _ _ _ Hx) as I. unfold accept_capability. rewrite E1.
  destruct (ag_err (s_agreement s)) eqn:Ee; [simpl; by rewrite E1, Ee|].
  assert (match ag_remote (s_agreement s) with
    | Some r => negb (bool_decide (sc_Epoch r = sc_Epoch d.2)) || negb (bool_decide (digest_of r = digest_of d.2))
    | None => false end = false) as ->.
  { destruct (ag_remote (s_agreement s)) as [c|] eqn:Er; [|done].
    destruct (known_remote _ I Er) as [_ ->]. by rewrite !bool_decide_true. }
  destruct (_ && _ && _); simpl.
  - apply stop_with_peaceful; [by rewrite E1, Ee|done].
  - by destruct (bool_decide _); simpl; rewrite ?Ee.
Qed.
End pair.

(** ** Preservation *)
Section honest.
Context (conn : Config).

Lemma connected_mirror c d : connected conn c -> mirror c d -> connected conn d.
Proof. unfold connected, same_side, mirror. intros [?|?]; [right|left]; naive_solver congruence. Qed.

Lemma terminal_peaceful e : e <> conflict -> terminal_error e <> conflict.
Proof. destruct e; [done|]. intros _. apply terminal_foreign. Qed.

Lemma failed_peaceful e : e <> conflict -> terminal_error (failed_error e) <> conflict.
Proof. intros He. unfold failed_error. destruct (errors_is e _); [done|by apply terminal_peaceful]. Qed.

Lemma crowded_mirror st c d : mirror c d -> crowded st d -> crowded st c.
Proof.
  intros M (z1 & z2 & d1 & d2 & ? & ? & ? & ? & Hs). exists z1, z2, d1, d2. split_and!; [done..|].
  unfold mirror, same_side in *. destruct Hs; [right|left]; naive_solver congruence.
Qed.

Lemma offered_change s s' names :
  offered s names -> ag_local (s_agreement s') = ag_local (s_agreement s) ->
  next_ordinal (s_agreement s') = next_ordinal (s_agreement s) ->
  (ag_err (s_agreement s') = None -> ag_err (s_agreement s) = None) ->
  (ag_err (s_agreement s') = None -> forall c, ag_remote (s_agreement s) = Some c ->
     ag_remote (s_agreement s') = Some c) ->
  offered s' names.
Proof.
  intros Ho El En Ee Er E'. destruct (Ho (Ee E')) as (c & Hc & ? & ?). exists c.
  rewrite El, En. auto.
Qed.

Definition world_peaceful (w : sel_world) : Prop :=
  forall x s p, sw_sessions w !! x = Some (s, p) -> connected conn (s_cfg s) ->
    ~ crowded (statics w) (s_cfg s) -> peaceful (sw_log w) x s p.

Section keep.
Context (w : sel_world) (W : world_inv w) (R : world_rounds w) (Q : world_peaceful w) (Ft : world_standing w).
Context (x : string) (s : Session) (p : sel_phase).
Hypothesis Hx : sw_sessions w !! x = Some (s, p).
Hypothesis Hk : connected conn (s_cfg s).
Hypothesis Hn : ~ crowded (statics w) (s_cfg s).

Lemma delivered_err pk now at_ :
  pk ∈ sw_net w ->
  ag_err (s_agreement (HandleMessageFrom now (pk_from pk) (received_at at_ (pk_msg pk)) s).1) <> Some conflict.
Proof.
  intros Hpk. pose proof (pc_err _ _ _ _ (Q _ _ _ Hx Hk Hn)) as He.
  pose proof (world_log_ok _ W) as L. pose proof (statics_lookup _ _ _ _ Hx) as Es.
  pose proof (proj1 (Forall_forall _ _) (wi_net _ W) _ Hpk) as [Ht|(y & d & m & Hd & Pk)].
  - destruct (handle_other now (pk_from pk) at_ _ s Ht) as [-> |(-> & _)]; [by apply stop_with_peaceful|done].
  - destruct (handle_packet _ _ _ _ _ _ _ s now at_ (wi_static _ W) L Hd Pk (wi_static _ W _ _ Es))
      as [-> |(M & at' & t & ->)]; [by apply stop_with_peaceful|].
    destruct Pk as [_ _ (kind & raw & seq & at0 & _ & Hp & _)]. destruct m as [m|]; simpl.
    + inversion Hp as [|g Hg|g j Hg]; subst.
      * by eapply (accept_control_peaceful w W R x s p Hx Hn y d Hd M _ (g_ordinal g)); [left; eauto|..].
      * by eapply (accept_control_peaceful w W R x s p Hx Hn y d Hd M _ (g_ordinal g)); [right; eauto|..].
    + pose proof (accept_capability_peaceful w W x s p Hx Hn y d Hd M now (set_last_envelope t at' s)) as A.
      destruct (accept_capability now d.2 (set_last_envelope t at' s)) as [[s2 err] snap]. simpl in *.
      destruct snap; simpl; by apply A.
Qed.

Lemma delivered_offered a' names :
  delivered w s a' -> offered s names -> offered (set_agreement a' s) names.
Proof.
  intros D Ho. eapply offered_change; [done|by eapply delivered_local|..]; simpl.
  - apply rounds_change_delivered in D. destruct D as [_ D _ _]. unfold next_ordinal.
    destruct D as [r r' (-> & _)|]; done.
  - apply (rc_err _ _ (rounds_change_delivered _ _ _ D)).
  - intros E' c Hc. destruct D as [-> |S|y d Hd M C|m _ C]; [done|by rewrite (st_remote _ _ S)| |].
    + destruct C as [|a1 S|a1 ? ? ? Hr]; [done|by rewrite (st_remote _ _ S)|]. rewrite Hr.
      destruct (known_remote w x s p Hn y d Hd M c (wi_session _ W _ _ _ Hx) Hc) as [_ ->]. done.
    + destruct C as [|a1 S| |]; try done. by rewrite (st_remote _ _ S).
Qed.

Lemma peaceful_deliver pk now at_ :
  pk ∈ sw_net w ->
  peaceful (sw_log w) x (HandleMessageFrom now (pk_from pk) (received_at at_ (pk_msg pk)) s).1 p.
Proof.
  intros Hpk. destruct (Q _ _ _ Hx Hk Hn) as [P1 P2 P3 P4]. split; [by apply delivered_err|done| |done].
  intros start cands np E. destruct (deliver_effect _ _ _ _ _ now at_ W Hx Hpk) as (_ & _ & D).
  exact (delivered_offered _ _ D (P3 _ _ _ E)).
Qed.

(** The proposal of the peer is accepted. *)
Lemma check_proposal_peaceful g q e :
  (x, EvProposed g) ∈ sw_log w -> ib_proposal (remote_inbox s) = Some q ->
  opened (statics w) x s g -> check_proposal (s_cfg s) g q = Err e -> e <> conflict.
Proof.
  intros Hg Hq [A (r & Hr & Or & _)] E. unfold remote_inbox in Hq. rewrite Hr in Hq.
  destruct (si_current _ _ _ _ _ (wi_session _ W _ _ _ Hx) _ Hr) as (_ & Io & _).
  destruct (io_proposal _ _ _ _ Io _ Hq) as (y & g' & Hy & -> & O & Px).
  destruct (lo_proposed _ _ (world_log_ok _ W) _ _ Hy) as (d & Hd & A').
  assert (mirror (s_cfg s) d.1) as M.
  { destruct (go_peer _ _ _ _ A') as (dx & Hdx & M & _). rewrite Px, (statics_lookup _ _ _ _ Hx) in Hdx.
    injection Hdx as <-. by apply mirror_sym. }
  unfold check_proposal in E.
  rewrite (bindings_agree w W R x s p Hx Hn y d Hd M _ _ Hg Hy), bool_decide_true in E by (done || lia).
  simpl in E. destruct (own_round w x s Hn y d Hd M g A) as (_ & _ & Rc & Lc).
  destruct (peer_round w W x s p Hx Hn y d Hd M g' Hy) as (_ & _ & _ & Rc').
  destruct (negb (forallb _ _)) eqn:F.
  { exfalso. apply negb_true_iff, not_true_iff_false in F. apply F, forallb_forall. intros n Hn'%list_elem_of_In.
    destruct (go_subset _ _ _ _ A' _ Hn') as [X1 X2]. rewrite (go_local _ _ _ _ A') in X1. rewrite Rc' in X2.
    rewrite Rc, Lc. unfold contains. by rewrite !bool_decide_true. }
  destruct (statics_Some _ _ _ Hd) as (sy & py & Ey & ->). simpl in M.
  assert (offers (g_ordinal g) ∈ pr_Strategies (g_proposal g)) as O1.
  { apply (pc_offer _ _ _ _ (Q _ _ _ Hx Hk Hn)). by left. }
  assert (offers (g_ordinal g) ∈ pr_Strategies (g_proposal g')) as O2.
  { replace (g_ordinal g) with (g_ordinal g') by lia. eapply (pc_offer _ _ _ _ (Q _ _ _ Ey (connected_mirror _ _ Hk M) _)). by left.
    Unshelve. intros C. by apply Hn, (crowded_mirror _ _ _ M). }
  unfold jointSelection in E. destruct (cfg_Initiator (s_cfg s)); simpl in E;
    (match type of E with context [List.filter ?f ?l] =>
       assert (In (offers (g_ordinal g)) (List.filter f l)) as Hin
         by (apply filter_In; rewrite <-list_elem_of_In; unfold contains; by rewrite bool_decide_true);
       destruct (List.filter f l); [done|] end); done.
Qed.

Lemma check_confirmation_peaceful g j c :
  (x, EvConfirming g j) ∈ sw_log w -> ib_confirm (remote_inbox s) = Some c ->
  opened (statics w) x s g -> check_confirmation g j c = true.
Proof.
  intros Hg Hq [A (r & Hr & Or & _)]. unfold remote_inbox in Hq. rewrite Hr in Hq.
  destruct (si_current _ _ _ _ _ (wi_session _ W _ _ _ Hx) _ Hr) as (_ & Io & _).
  destruct (io_confirm _ _ _ _ Io _ Hq) as (y & g' & j' & Hy & -> & O & Px).
  destruct (lo_confirming _ _ (world_log_ok _ W) _ _ _ Hy) as (Hy' & _).
  destruct (lo_confirming _ _ (world_log_ok _ W) _ _ _ Hg) as (Hg' & _).
  destruct (lo_proposed _ _ (world_log_ok _ W) _ _ Hy') as (d & Hd & A').
  assert (mirror (s_cfg s) d.1) as M.
  { destruct (go_peer _ _ _ _ A') as (dx & Hdx & M & _). rewrite Px, (statics_lookup _ _ _ _ Hx) in Hdx.
    injection Hdx as <-. by apply mirror_sym. }
  rewrite (joints_agree w W x s p Hx Hn y d Hd M _ _ _ _ Hg Hy) by lia.
  unfold check_confirmation. simpl.
  rewrite (bindings_agree w W R x s p Hx Hn y d Hd M _ _ Hg' Hy') by lia. by rewrite !bool_decide_true.
Qed.

(** *** The session's own steps *)
Lemma peaceful_phase p' :
  (forall e, p' = FStop e -> terminal_error e <> conflict) ->
  (forall start candidates newPass, p' = FBegin start candidates newPass -> offered s (cd_Name <$> candidates)) ->
  (phase_round p' = None \/ phase_round p' = phase_round p) ->
  peaceful (sw_log w ++ (pair x <$> [])) x s p'.
Proof.
  rewrite app_nil_r. intros S1 S2 S3. destruct (Q _ _ _ Hx Hk Hn) as [P1 P2 P3 P4]. split; try done.
  intros g [Hg|Hg]; apply P4; [by left|right]. destruct S3; congruence.
Qed.

(** A change that keeps the errors apart from conflicts, and events that are no
    proposals. *)
Lemma peaceful_idle s' p' evs :
  ag_err (s_agreement s') <> Some conflict -> p = FIdle ->
  (forall e, p' = FStop e -> terminal_error e <> conflict) ->
  (forall start candidates newPass, p' <> FBegin start candidates newPass) -> phase_round p' = None ->
  (forall g, EvProposed g ∉ evs) -> peaceful (sw_log w ++ (pair x <$> evs)) x s' p'.
Proof.
  intros E1 -> E2 E3 E4 E5. destruct (Q _ _ _ Hx Hk Hn) as [P1 P2 P3 P4]. split; [done|done| |].
  - intros start candidates newPass E. by apply E3 in E.
  - intros g [[Hg|Hg]%log_own|Hg]; [apply P4; by left|by apply E5 in Hg|congruence].
Qed.

Lemma require_peaceful e :
  ag_err (s_agreement s) <> Some conflict -> requirePreviousSelectionClosed s = Some e -> e <> conflict.
Proof.
  unfold requirePreviousSelectionClosed. intros He. destruct (ag_err (s_agreement s)) eqn:Ee; [congruence|].
  intros E. destruct (_ || _); [by simplify_eq|]. destruct (ag_previous _); [|done].
  destruct (ag_strategyClosed _); [done|]. destruct (sy_factory _); by simplify_eq.
Qed.

Lemma peaceful_start candidates newPass start :
  p = FIdle -> offered s (cd_Name <$> candidates) ->
  peaceful (sw_log w ++ (pair x <$> [])) x s (start_agree candidates newPass start s).
Proof.
  intros _ Ho. pose proof (pc_err _ _ _ _ (Q _ _ _ Hx Hk Hn)) as He. unfold start_agree.
  destruct (requirePreviousSelectionClosed s) as [e|] eqn:Er; apply peaceful_phase; try done; auto.
  - intros ? [= <-]. apply terminal_peaceful. by eapply require_peaceful.
  - intros ??? [= <- <- <-]. done.
Qed.

Lemma cleanup_peaceful err :
  ag_err (s_agreement s) <> Some conflict -> ag_err (s_agreement (selectionCleanup err s)) <> Some conflict.
Proof.
  intros He. destruct err; [|done]. simpl. unfold stopLocked. simpl.
  by destruct (ag_err (s_agreement s)) eqn:Ee; simpl; rewrite ?Ee.
Qed.

(** What the agreement returned first is what the current round is for. *)
Lemma disciplined_enter strategy ctxErr now :
  p = FIdle -> disciplined (sw_log w) s (CallEnter strategy ctxErr now) -> ag_err (s_agreement s) = None ->
  exists r, ag_current (s_agreement s) = Some r /\ rd_confirmed r = true /\ rd_entered r = false /\
    rd_strategy r = sy_Name strategy.
Proof.
  intros Ep (g & j & first & rest & El & En) Ee. pose proof (wi_session _ W _ _ _ Hx) as I.
  pose proof (so_epoch _ _ (wi_static _ W _ _ (statics_lookup _ _ _ _ Hx))) as Ex. simpl in Ex.
  rewrite Ex in El. subst p. destruct (sd_last _ _ _ _ (Ft _ _ _ Hx) Ee eq_refl ltac:(done) _ _ _ El) as (r & Er & Or & Nr).
  pose proof (si_phase _ _ _ _ _ I Ee _ Er) as Cr. exists r. split_and!; [done..|].
  destruct (si_current _ _ _ _ _ I _ Er) as (_ & _ & B).
  destruct (B Cr) as (g' & j' & o' & H' & O' & _ & ->).
  apply last_Some_elem_of, own_events_elem in El.
  destruct (si_confirmed _ _ _ _ _ I _ _ _ El) as (C & _).
  destruct (si_confirmed _ _ _ _ _ I _ _ _ H') as (C' & _).
  destruct (si_confirming_once _ _ _ _ _ I _ _ _ _ C' C) as [-> ->]; [lia|].
  destruct (confirmed_names _ W _ _ _ _ El) as (N & _). unfold joint_strategy. rewrite <-N. simpl. congruence.
Qed.

Lemma peaceful_enter strategy ctxErr now :
  p = FIdle -> disciplined (sw_log w) s (CallEnter strategy ctxErr now) ->
  ag_err (s_agreement s) <> Some conflict ->
  ag_err (s_agreement (enterSelection now ctxErr strategy s).1) <> Some conflict.
Proof.
  intros Ep D He. unfold enterSelection. destruct (ag_err (s_agreement s)) eqn:Ee; [simpl; by rewrite Ee|].
  destruct (disciplined_enter _ _ _ Ep D Ee) as (r & -> & -> & -> & ->). rewrite bool_decide_true by done. simpl.
  assert (forall e, terminal_error e <> conflict ->
    ag_err (s_agreement (stop_with e s).1) <> Some conflict) as St.
  { intros e T. apply stop_with_peaceful; [by rewrite Ee|done]. }
  destruct ctxErr as [e|]; [apply St, terminal_foreign|].
  destruct (negb _); [by apply St|]. simpl. by rewrite Ee.
Qed.

Lemma peaceful_call i s' p' msgs evs :
  p = FIdle -> disciplined (sw_log w) s i -> front_call i s = Some (s', p', msgs, evs) ->
  peaceful (sw_log w ++ (pair x <$> evs)) x s' p'.
Proof.
  intros Ep D E. pose proof (pc_err _ _ _ _ (Q _ _ _ Hx Hk Hn)) as He.
  pose proof (fun s' p' evs H1 => peaceful_idle s' p' evs H1 Ep) as PI.
  pose proof (fun candidates newPass start => peaceful_start candidates newPass start Ep) as PS.
  pose proof peaceful_phase as PP. pose proof (fun y e n => peaceful_enter y e n Ep) as PE. clear Ep.
  destruct i; simpl in E; try done; unfold quiet in E.
  - simplify_eq. apply PI; try done; [|set_solver]. unfold beginSelectionPass.
    by destruct (ag_err (s_agreement s)) eqn:Ee; simpl; rewrite ?Ee.
  - unfold sendCapability in E.
    pose proof (newEnvelope_spec MsgTypeCapability (marshal_selectionCapability (ag_local (s_agreement s))) s)
      as (_ & _ & N3 & _).
    destruct (newEnvelope _ _ s) as [s1 env]. simpl in N3.
    destruct (MarshalEnvelope env); [|simplify_eq; apply PI; try done; [by rewrite N3|
      intros ? [= <-]; apply terminal_foreign|set_solver]].
    destruct (_ || _).
    + pose proof (stop_with_peaceful (selectionFailure "selection_invalid") s1) as St.
      unfold stop_with in St. destruct (stopSelection _ s1) as [s2 e] eqn:Es. simplify_eq.
      rewrite N3 in St. apply PI; try done; [by apply St| |set_solver].
      intros ? [= <-]. unfold stopSelection in Es. unfold stopLocked in Es.
      destruct (ag_err (s_agreement s1)) eqn:E1; simplify_eq; [|done]. apply terminal_peaceful. congruence.
    + simplify_eq. apply PI; try done; [by rewrite N3|..].
      * destruct sendErr; simpl; [|done]. intros ? [= <-]. apply terminal_foreign.
      * by destruct sendErr.
      * by destruct sendErr.
      * set_solver.
  - simplify_eq. by apply PP; auto.
  - simplify_eq. by apply PS.
  - simpl in D. destruct (prepare_ready candidate s); simplify_eq; [by apply PP; auto|].
    apply PS. by apply D.
  - pose proof (PE _ _ _ D He) as Pe.
    destruct (enterSelection now ctxErr strategy s) as [s1 err]. simplify_eq.
    apply PI; try done. intros g.
    destruct err; [set_solver|]. destruct (ag_current (s_agreement s)); set_solver.
  - simplify_eq. apply PI; try done. set_solver.
  - simplify_eq. apply PI; try done; [|set_solver]. unfold closeSelectionExecutor.
    destruct (bool_decide _); by apply cleanup_peaceful.
  - simplify_eq. apply PI; try done; [|set_solver]. unfold closeSelectionStrategy.
    destruct (_ && _); by apply cleanup_peaceful.
  - simplify_eq. apply PI; try done; [|set_solver]. unfold selectionExecutionContext. simpl.
    by destruct (_ && _).
Qed.

Lemma peaceful_begin start candidates newPass :
  p = FBegin start candidates newPass ->
  match agree_begin start candidates newPass s with
  | BeginReturn _ => True
  | BeginStop e => e <> conflict
  | BeginRound s' g => ag_err (s_agreement s') = None /\ offers (g_ordinal g) ∈ pr_Strategies (g_proposal g)
  end.
Proof.
  intros Ep. pose proof (pc_begin _ _ _ _ (Q _ _ _ Hx Hk Hn) _ _ _ Ep) as Ho. unfold agree_begin.
  destruct (ag_err (s_agreement s)) eqn:Ee; [done|]. destruct (Ho Ee) as (c & -> & Hi & Hs).
  destruct (match ag_current _ with Some _ => _ | None => _ end); [done|].
  replace (match ag_current (s_agreement s) with
           | Some r => (rd_ordinal r + 1, rd_digest r) | None => (0, ""%string) end)
    with (next_ordinal (s_agreement s),
          match ag_current (s_agreement s) with Some r => rd_digest r | None => ""%string end)
    by (unfold next_ordinal; by destruct (ag_current (s_agreement s))).
  destruct (negb (forallb _ _)) eqn:F.
  { exfalso. apply negb_true_iff, not_true_iff_false in F. apply F, forallb_forall.
    intros n Hn'%list_elem_of_In. destruct (Hs _ Hn'). unfold contains. by rewrite !bool_decide_true. }
  destruct (negb (selectionList _ _ _)); [done|].
  destruct (if newPass then _ else _) as [st1 dl1]. destruct (if next_ordinal _ =? 0 then _ else _) as [st2 dl2].
  done.
Qed.

Lemma peaceful_send kind raw now ctxErr sendErr next ev s' p' msgs evs g :
  step_send kind raw now ctxErr sendErr next ev s = Some (s', p', msgs, evs) -> phase_round p = Some g ->
  (forall g', ev = EvProposed g' -> g' = g) -> phase_round next = Some g ->
  peaceful (sw_log w ++ (pair x <$> evs)) x s' p'.
Proof.
  intros E Ep Hev Hn'. pose proof (Q _ _ _ Hx Hk Hn) as [P1 P2 P3 P4]. unfold step_send in E.
  pose proof (si_seq _ _ _ _ _ (wi_session _ W _ _ _ Hx)) as Hs.
  destruct (sendSelection now ctxErr sendErr kind raw s) as [[s1 sent] err] eqn:Es.
  assert (forall e, err = Some e -> e <> conflict) as Herr.
  { unfold sendSelection in Es. intros e ->. destruct (_ <? blen raw); [by simplify_eq|].
    destruct (newEnvelope kind raw s) as [s2 env]. destruct (MarshalEnvelope env); [|by simplify_eq].
    destruct (_ <? blen _); [by simplify_eq|]. destruct ctxErr; [by simplify_eq|].
    destruct sendErr; by simplify_eq/=. }
  apply sendSelection_spec in Es as (_ & Ea & _); [|done]. simplify_eq. split.
  - by rewrite Ea.
  - destruct err; [|by intros e ->; simpl in Hn']. intros ? [= <-]. by apply failed_peaceful, Herr.
  - destruct err; [done|]. intros ??? ->. by simpl in Hn'.
  - intros g' [[Hg|Hg]%log_own|Hg]; [apply P4; by left|..].
    + apply P4. right. rewrite Ep. f_equal. symmetry. apply Hev.
      destruct sent; [by apply list_elem_of_singleton in Hg|set_solver].
    + apply P4. right. destruct err; simpl in Hg; congruence.
Qed.

Lemma peaceful_wait q s' p' msgs evs :
  take_changed s ≫= (fun s1 => quiet s1 q) = Some (s', p', msgs, evs) ->
  (forall e, q <> FStop e) -> (forall start candidates newPass, q <> FBegin start candidates newPass) ->
  (phase_round q = None \/ phase_round q = phase_round p) ->
  peaceful (sw_log w ++ (pair x <$> evs)) x s' p'.
Proof.
  intros E H1 H2 H3. destruct (Q _ _ _ Hx Hk Hn) as [P1 P2 P3 P4].
  apply bind_Some in E as (s1 & Et & E). unfold quiet in E. simplify_eq.
  unfold take_changed in Et. destruct (ag_changed _); [|done]. simplify_eq. rewrite app_nil_r.
  split; try done.
  - intros e ->. by destruct (H1 e).
  - intros ??? ->. by destruct (H2 start candidates newPass).
  - intros g [Hg|Hg]; apply P4; [by left|right]. destruct H3; congruence.
Qed.

Lemma peaceful_step i s' p' msgs evs :
  (p = FIdle -> disciplined (sw_log w) s i) -> front_step i s p = Some (s', p', msgs, evs) ->
  peaceful (sw_log w ++ (pair x <$> evs)) x s' p'.
Proof.
  intros D E. pose proof (Q _ _ _ Hx Hk Hn) as [P1 P2 P3 P4].
  pose proof (wi_session _ W _ _ _ Hx) as I. pose proof (si_phase _ _ _ _ _ I) as Ph.
  pose proof peaceful_phase as PP. pose proof peaceful_wait as PW. pose proof peaceful_send as PS.
  pose proof (fun i s' p' msgs evs Ep => peaceful_call i s' p' msgs evs Ep) as PC.
  pose proof peaceful_begin as PB. pose proof check_proposal_peaceful as CP.
  pose proof check_confirmation_peaceful as CC. clear Hx.
  destruct p; [by eapply PC; eauto|..]; destruct i; simpl in E; try done; unfold quiet in E;
    try (by eapply PW; eauto);
    try (simplify_eq; apply PP; [intros ? [= <-]; by apply failed_peaceful|done|by auto]);
    try (simplify_eq; by apply PP; auto).
  - simplify_eq. rewrite app_nil_r. split; try done.
    pose proof (stop_with_peaceful err s P1 (P2 _ eq_refl)) as X. unfold stop_with in X.
    by destruct (stopSelection err s).
  - unfold capability_turn in E. destruct (ag_err (s_agreement s)); [simplify_eq; by apply PP; auto|].
    destruct ctx1; [simplify_eq; apply PP; [intros ? [= <-]; apply terminal_foreign|done|by auto]|].
    destruct (_ && _).
    + destruct ctx2; simplify_eq; (apply PP; [intros ? [= <-]|done|by auto]); [apply terminal_foreign|done].
    + destruct (ag_remote _); simplify_eq; by apply PP; auto.
  - specialize (PB _ _ _ eq_refl). destruct (agree_begin start candidates newPass s) as [e|e|s1 g] eqn:Eb;
      simplify_eq; try (by apply PP; auto).
    + apply PP; [intros ? [= <-]; by apply terminal_peaceful|done|by auto].
    + destruct PB as [PB1 PB2]. rewrite app_nil_r. split; try done; [by rewrite PB1|].
      intros g' [Hg|[= <-]]; [|done]. apply P4. by left.
  - eapply PS; [done..| |done]. by intros ? [= <-].
  - destruct (ag_err (s_agreement s)) eqn:Ee; [simplify_eq; by apply PP; auto|].
    destruct Ph as (So & Sp & _).
    destruct (ib_proposal (remote_inbox s)) as [q|] eqn:Eq; [|simplify_eq; by apply PP; auto].
    destruct (check_proposal _ g q) as [j|e] eqn:Ej; simplify_eq; [by apply PP; auto|].
    apply PP; [intros ? [= <-]; by eapply failed_peaceful, CP|done|by auto].
  - eapply PS; [done..| |done]. done.
  - destruct (ag_err (s_agreement s)) eqn:Ee; [simplify_eq; by apply PP; auto|].
    destruct Ph as (So & Sp).
    destruct (ib_confirm (remote_inbox s)) as [q|] eqn:Eq; [|simplify_eq; by apply PP; auto].
    rewrite (CC _ _ _ Sp eq_refl So) in E. simplify_eq. by apply PP; auto.
  - destruct (agree_commit now ctxErr g joint s) as [[e|e|]|s1] eqn:Ec; simplify_eq; try (by apply PP; auto).
    + unfold agree_commit in Ec. destruct (ag_err (s_agreement s')); [done|]. destruct (_ || _); simplify_eq.
      apply PP; [intros ? [= <-]; by apply failed_peaceful|done|by auto].
    + unfold agree_commit in Ec. destruct (ag_err (s_agreement s)) eqn:Ee; [done|].
      destruct (_ || _); [done|]. simplify_eq. split; try done; [simpl; by rewrite Ee|].
      intros g' [[Hg|Hg%list_elem_of_singleton]%log_own|Hg]; [apply P4; by left|done|done].
Qed.
End keep.

Lemma crowded_mono st st' c : st ⊆ st' -> crowded st c -> crowded st' c.
Proof.
  intros Hs (z1 & z2 & d1 & d2 & ? & ? & ? & ?). exists z1, z2, d1, d2.
  split; [done|]. split; [by eapply lookup_weaken|]. split; [by eapply lookup_weaken|done].
Qed.

Lemma world_peaceful_update w e s p s' p' evs pks :
  world_peaceful w -> sw_sessions w !! e = Some (s, p) -> session_static s' = session_static s ->
  (connected conn (s_cfg s) -> ~ crowded (statics w) (s_cfg s) ->
     peaceful (sw_log w ++ (pair e <$> evs)) e s' p') ->
  world_peaceful (mkSelWorld (<[e := (s', p')]> (sw_sessions w)) (sw_net w ++ pks) (sw_log w ++ (pair e <$> evs))).
Proof.
  intros Q E Es P x sx px Ex. simpl in Ex.
  assert (statics (mkSelWorld (<[e := (s', p')]> (sw_sessions w)) (sw_net w ++ pks)
    (sw_log w ++ (pair e <$> evs))) = statics w) as ->.
  { unfold statics. simpl. rewrite fmap_insert. simpl. apply insert_id. rewrite lookup_fmap, E. simpl.
    by rewrite Es. }
  simpl. apply lookup_insert_Some in Ex as [[<- Ex]|[Hne Ex]].
  - injection Ex as <- <-. assert (s_cfg s' = s_cfg s) as -> by exact (f_equal fst Es). done.
  - intros Hk Hn. destruct (Q _ _ _ Ex Hk Hn) as [P1 P2 P3 P4]. split; try done.
    intros g [Hg|Hg]; apply P4; [left|by right]. by apply log_other in Hg.
Qed.

Lemma world_peaceful_step (allowed : Session -> sel_input -> Prop) w w' :
  (forall s i, allowed s i -> connected conn (s_cfg s) -> disciplined (sw_log w) s i) ->
  world_inv w -> world_rounds w -> world_standing w -> world_peaceful w -> sel_step allowed w w' ->
  world_peaceful w'.
Proof.
  intros A W R D0 Q S. destruct S as [w cfg resolver random s E Hno|w e i s p s' p' msgs evs E D F|
    w e s p pk now at_ E Hpk Hto|w e s p E|w pk Ht].
  - apply NewConverging_Ok in E as (_ & _ & _ & _ & Ec & _ & Ee).
    set (e := sc_Epoch (ag_local (s_agreement s))) in *. intros x sx px Ex. simpl in Ex.
    assert (statics w ⊆ statics (mkSelWorld (<[e := (s, FIdle)]> (sw_sessions w)) (sw_net w) (sw_log w))) as Hs.
    { unfold statics. simpl. rewrite fmap_insert. apply insert_subseteq. by rewrite lookup_fmap, Hno. }
    intros Hk Hn. apply lookup_insert_Some in Ex as [[<- Ex]|[Hne Ex]].
    + simplify_eq. split; try done; [by rewrite Ee|]. simpl. intros g [Hg|Hg]; [|done].
      destruct (wi_owner _ W _ _ Hg). congruence.
    + apply Q; [done|done|]. intros C. by apply Hn, (crowded_mono _ _ _ Hs).
  - pose proof (kept_step _ _ _ _ (wi_static _ W) _ _ _ (wi_session _ W _ _ _ E) F) as (_ & Es & _).
    eapply world_peaceful_update; [done|done|done|]. intros Hk Hn. eapply peaceful_step; eauto.
  - destruct (deliver_inv _ _ _ _ _ now at_ W E Hpk) as [_ Es].
    pose proof (world_peaceful_update w e s p _ p [] [] Q E Es) as U. rewrite !app_nil_r in U.
    apply U. intros Hk Hn. by apply peaceful_deliver.
  - destruct (stopSelection_stopped (selectionFailure "selection_closed") s) as (X1 & _ & X3).
    assert (session_static (stopSelection (selectionFailure "selection_closed") s).1 = session_static s) as Es.
    { unfold session_static. rewrite X1. by rewrite (st_local _ _ X3). }
    pose proof (world_peaceful_update w e s p _ p [] [] Q E Es) as U. rewrite !app_nil_r in U.
    apply U. intros Hk Hn. destruct (Q _ _ _ E Hk Hn) as [P1 P2 P3 P4]. split; try done.
    + pose proof (stop_with_peaceful (selectionFailure "selection_closed") s P1) as X. unfold stop_with in X.
      destruct (stopSelection _ s). by apply X.
    + intros start cands np Ep. eapply offered_change; [by eapply P3|apply X3|..].
      * apply quiet_next. by apply stopped_quiet.
      * apply (qc_err _ _ (stopped_quiet _ _ X3)).
      * intros _ c. by rewrite (st_remote _ _ X3).
  - exact Q.
Qed.

Lemma honest_inv w :
  honest_reachable conn w -> world_inv w /\ world_rounds w /\ world_standing w /\ world_peaceful w.
Proof.
  intros Rw. unfold honest_reachable in Rw.
  assert (forall w0, world_inv w0 -> world_rounds w0 -> world_standing w0 -> world_peaceful w0 ->
    rtc (honest_step conn) w0 w -> world_inv w /\ world_rounds w /\ world_standing w /\ world_peaceful w) as G.
  { intros w0 W0 X0 D0 Q0 R0. induction R0 as [|w0 w1 w2 S R0 IH]; [done|]. unfold honest_step in S.
    apply IH; eauto using world_inv_step, world_rounds_step, world_standing_step.
    by apply (world_peaceful_step _ w0 w1 (fun s i Hs => Hs)). }
  apply (G sel_init); try done; try (intros y sy py; simpl; by rewrite lookup_empty).
  apply world_inv_init.
Qed.
End honest.

(** C17: no conflict between two honest sessions.  Let the two nodes of a
    connection have at most one session each for it, and let the code of these
    sessions keep two rules.  In each round it offers only strategies of both
    sides' capabilities, among them one that both sides offer in that round; and
    it executes a strategy only when the last thing its session did was to agree
    on a round, and then the first of the candidates which that agreement
    returned.  Then neither session ever stops with [selection_conflict], however
    the network delays, duplicates, reorders or loses messages, and whatever the
    code of the sessions of other connections does. *)
Theorem honest_sessions_never_conflict w x s p :
  honest_reachable (s_cfg s) w -> sw_sessions w !! x = Some (s, p) -> ~ crowded (statics w) (s_cfg s) ->
  ag_err (s_agreement s) <> Some (selectionFailure "selection_conflict").
Proof.
  intros Rw E Hn. destruct (honest_inv _ _ Rw) as (_ & _ & _ & Q).
  apply (pc_err _ _ _ _ (Q _ _ _ E (or_introl (conj eq_refl (conj eq_refl eq_refl))) Hn)).
Qed.
End peace.
