(* ===== verification/SelectionRuns.v ===== *)
(** * A JSON codec for the selection messages

    A concrete instance of [SelectionJSON]: compact JSON of the messages, a
    tokenizer, and decoders that read the fields in the order of the structs. *)
From Stdlib Require Import Ascii.
From stdpp Require Import sorting pretty.
From S2P Require Import Prelude GoStd LivenessWire SelectionWire SelectionWireThms LivenessWireThms Selection SelectionNet SelectionInv SelectionDeliver SelectionPres SelectionThms SelectionRounds SelectionPeace.
Open Scope go_scope.

(** ** Writing *)
Definition quote (s : string) : list Z := 34 :: string_bytes s ++ [34].
Definition key (k : string) : list Z := quote k ++ [58].

Fixpoint render_list (l : list string) : list Z :=
  match l with
  | [] => [93]
  | [s] => quote s ++ [93]
  | s :: l' => quote s ++ 44 :: render_list l'
  end.
Definition null : list Z := string_bytes "null".
Definition render_strings (l : list string) : list Z :=
  match l with [] => null | _ => 91 :: render_list l end.
Definition render_bool (b : bool) : list Z := string_bytes (if b then "true" else "false").
Definition render_number (n : Z) : list Z := string_bytes (FormatUint n).

Fixpoint render_fields (fields : list (string * list Z)) : list Z :=
  match fields with
  | [] => [125]
  | [(k, v)] => key k ++ v ++ [125]
  | (k, v) :: fields' => key k ++ v ++ 44 :: render_fields fields'
  end.
Definition render_object (fields : list (string * list Z)) : list Z := 123 :: render_fields fields.

Definition binding_fields (b : selectionBinding) : list (string * list Z) :=
  [("version", quote (bd_Version b)); ("from_epoch", quote (bd_FromEpoch b));
   ("to_epoch", quote (bd_ToEpoch b)); ("ordinal", quote (bd_Ordinal b));
   ("sender_capability", quote (bd_SenderCapability b));
   ("receiver_capability", quote (bd_ReceiverCapability b));
   ("previous", quote (bd_Previous b)); ("previous_closed", render_bool (bd_PreviousClosed b))]%string.

Definition write_selectionCapability (c : selectionCapability) : list Z :=
  render_object [("strategies", render_strings (sc_Strategies c)); ("features", render_strings (sc_Features c));
    ("selection_version", quote (sc_Version c)); ("selection_epoch", quote (sc_Epoch c))]%string.
Definition write_proposal (p : selectionProposal) : list Z :=
  render_object (binding_fields (pr_binding p) ++ [("strategies"%string, render_strings (pr_Strategies p))]).
Definition write_confirmation (c : selectionConfirmation) : list Z :=
  render_object (binding_fields (cf_binding c)
    ++ [("strategy", quote (cf_Strategy c)); ("digest", quote (cf_Digest c))]%string).
Definition write_envelope (e : SessionEnvelope) : list Z :=
  render_object [("session_id", quote (en_SessionID e)); ("from_node", quote (en_FromNode e));
    ("to_node", quote (en_ToNode e)); ("msg_type", quote (en_MsgType e));
    ("seq", render_number (en_Seq e)); ("ack", render_number (en_Ack e)); ("payload", en_Payload e)]%string.
Definition write_capability (c : Capability) : list Z :=
  render_object [("strategies", render_strings (cp_Strategies c));
    ("features", render_strings (cp_Features c))]%string.
Definition write_joint (j : selectionJoint) : list Z :=
  render_object [("version", quote (jt_Version j)); ("session_id", quote (jt_SessionID j));
    ("initiator_node", quote (jt_InitiatorNode j)); ("responder_node", quote (jt_ResponderNode j));
    ("initiator_capability", write_capability (jt_InitiatorCapability j));
    ("responder_capability", write_capability (jt_ResponderCapability j));
    ("initiator", write_proposal (jt_Initiator j)); ("responder", write_proposal (jt_Responder j));
    ("order", render_strings (jt_Order j))]%string.

(** ** Tokens *)
Inductive token_mode := Outside | InString (acc : list Z) | InScalar.

Definition is_delim (b : Z) : bool := (b =? 123) || (b =? 125) || (b =? 91) || (b =? 93).
Definition is_separator (b : Z) : bool := (b =? 44) || (b =? 58).

Fixpoint tokens_go (mode : token_mode) (bs : list Z) : list json_token :=
  match bs with
  | [] => match mode with Outside => [] | InString _ => [TokError] | InScalar => [TokScalar] end
  | b :: bs' =>
      match mode with
      | InString acc =>
          if b =? 34 then TokString (bytes_string (rev acc)) :: tokens_go Outside bs'
          else tokens_go (InString (b :: acc)) bs'
      | _ =>
          let scalar := match mode with InScalar => [TokScalar] | _ => [] end in
          if b =? 34 then scalar ++ tokens_go (InString []) bs'
          else if is_delim b then scalar ++ TokDelim (Ascii.ascii_of_N (Z.to_N b)) :: tokens_go Outside bs'
          else if is_separator b then scalar ++ tokens_go Outside bs'
          else tokens_go InScalar bs'
      end
  end.
Definition read_tokens (bs : list Z) : list json_token := tokens_go Outside bs.

(** ** Reading *)
Fixpoint expect (l bs : list Z) : option (list Z) :=
  match l, bs with
  | [], _ => Some bs
  | c :: l', b :: bs' => if c =? b then expect l' bs' else None
  | _, [] => None
  end.

Fixpoint until_quote (bs : list Z) : option (list Z * list Z) :=
  match bs with
  | [] => None
  | b :: bs' =>
      if b =? 34 then Some ([], bs')
      else match until_quote bs' with Some (a, r) => Some (b :: a, r) | None => None end
  end.
Definition read_string (bs : list Z) : option (string * list Z) :=
  bs ← expect [34] bs; '(a, r) ← until_quote bs; Some (bytes_string a, r).

Fixpoint read_items (fuel : nat) (bs : list Z) : option (list string * list Z) :=
  match fuel with
  | O => None
  | S fuel' =>
      '(s, bs) ← read_string bs;
      match bs with
      | 44 :: bs' => '(l, r) ← read_items fuel' bs'; Some (s :: l, r)
      | 93 :: bs' => Some ([s], bs')
      | _ => None
      end
  end.
Definition read_strings (bs : list Z) : option (list string * list Z) :=
  match expect [91] bs with
  | Some bs' => read_items (length bs') bs'
  | None => bs' ← expect null bs; Some ([], bs')
  end.
Definition read_bool (bs : list Z) : option (bool * list Z) :=
  match expect (render_bool true) bs with
  | Some r => Some (true, r)
  | None => r ← expect (render_bool false) bs; Some (false, r)
  end.

Fixpoint read_digits (bs : list Z) : list Z * list Z :=
  match bs with
  | b :: bs' => if in_range 48 57 b then let '(a, r) := read_digits bs' in (b :: a, r) else ([], bs)
  | [] => ([], [])
  end.
Definition read_number (bs : list Z) : option (Z * list Z) :=
  let '(a, r) := read_digits bs in n ← ParseUint (bytes_string a); Some (n, r).

(** The rest of the input up to the closing brace. *)
Definition read_rest (bs : list Z) : option (list Z * list Z) :=
  match rev bs with c :: r => Some (rev r, [c]) | [] => None end.

Definition field {A} (read : list Z -> option (A * list Z)) (k : string) (bs : list Z) : option (A * list Z) :=
  bs ← expect (key k) bs; read bs.
Definition comma (bs : list Z) : option (list Z) := expect [44] bs.
Definition finish {A} (a : A) (bs : list Z) : option A :=
  match bs with [125] => Some a | _ => None end.

Definition read_binding (bs : list Z) : option (selectionBinding * list Z) :=
  '(version, bs) ← field read_string "version" bs; bs ← comma bs;
  '(from, bs) ← field read_string "from_epoch" bs; bs ← comma bs;
  '(to, bs) ← field read_string "to_epoch" bs; bs ← comma bs;
  '(ordinal, bs) ← field read_string "ordinal" bs; bs ← comma bs;
  '(sender, bs) ← field read_string "sender_capability" bs; bs ← comma bs;
  '(receiver, bs) ← field read_string "receiver_capability" bs; bs ← comma bs;
  '(previous, bs) ← field read_string "previous" bs; bs ← comma bs;
  '(closed, bs) ← field read_bool "previous_closed" bs; bs ← comma bs;
  Some (mkBinding version from to ordinal sender receiver previous closed, bs).

Definition read_selectionCapability (bs : list Z) : option selectionCapability :=
  bs ← expect [123] bs;
  '(strategies, bs) ← field read_strings "strategies" bs; bs ← comma bs;
  '(features, bs) ← field read_strings "features" bs; bs ← comma bs;
  '(version, bs) ← field read_string "selection_version" bs; bs ← comma bs;
  '(epoch, bs) ← field read_string "selection_epoch" bs;
  finish (mkSelectionCapability strategies features version epoch) bs.
Definition read_proposal (bs : list Z) : option selectionProposal :=
  bs ← expect [123] bs; '(b, bs) ← read_binding bs;
  '(strategies, bs) ← field read_strings "strategies" bs; finish (mkProposal b strategies) bs.
Definition read_confirmation (bs : list Z) : option selectionConfirmation :=
  bs ← expect [123] bs; '(b, bs) ← read_binding bs;
  '(strategy, bs) ← field read_string "strategy" bs; bs ← comma bs;
  '(digest, bs) ← field read_string "digest" bs; finish (mkConfirmation b strategy digest) bs.
Definition read_envelope (bs : list Z) : option SessionEnvelope :=
  bs ← expect [123] bs;
  '(session, bs) ← field read_string "session_id" bs; bs ← comma bs;
  '(from, bs) ← field read_string "from_node" bs; bs ← comma bs;
  '(to, bs) ← field read_string "to_node" bs; bs ← comma bs;
  '(type, bs) ← field read_string "msg_type" bs; bs ← comma bs;
  '(seq, bs) ← field read_number "seq" bs; bs ← comma bs;
  '(ack, bs) ← field read_number "ack" bs; bs ← comma bs;
  '(payload, bs) ← field read_rest "payload" bs;
  finish (mkEnvelope session from to type seq ack payload) bs.

#[export] Instance compact_json : SelectionJSON := {|
  json_tokens := read_tokens;
  marshal_selectionCapability := write_selectionCapability;
  marshal_proposal := write_proposal;
  marshal_confirmation := write_confirmation;
  marshal_envelope := write_envelope;
  marshal_capability := write_capability;
  marshal_joint := write_joint;
  strict_selectionCapability := read_selectionCapability;
  strict_proposal := read_proposal;
  strict_confirmation := read_confirmation;
  strict_envelope := read_envelope;
  unmarshal_envelope := read_envelope;
|}.

(** ** Its laws *)

(** The byte after a value. *)
Definition ends_value (c : Z) : Prop := c = 44 \/ c = 125 \/ c = 93.

Definition parses {A} (read : list Z -> option (A * list Z)) (v : list Z) (a : A) : Prop :=
  forall c r, ends_value c -> read (v ++ c :: r) = Some (a, c :: r).

Lemma expect_app l r : expect l (l ++ r) = Some r.
Proof. induction l; simpl; [by destruct r|]. by rewrite Z.eqb_refl. Qed.

Lemma field_app {A} (read : list Z -> option (A * list Z)) k v a c r :
  parses read v a -> ends_value c -> field read k (key k ++ v ++ c :: r) = Some (a, c :: r).
Proof. intros P E. unfold field. rewrite expect_app. simpl. by apply P. Qed.

Lemma text_byte s b : text s -> b ∈ string_bytes s -> b <> 34 /\ is_delim b = false /\ is_separator b = false \/ b = 58.
Proof.
  intros T Hb. unfold text in T. rewrite Forall_forall in T. specialize (T b Hb).
  unfold identifier_byte, in_range in T. unfold is_delim, is_separator.
  destruct (decide (b = 58)); [by right|left]. lia.
Qed.

Lemma text_no_quote s : text s -> Forall (fun b => b <> 34) (string_bytes s).
Proof.
  intros T. apply Forall_forall. intros b Hb. destruct (text_byte _ _ T Hb) as [[? _]| ->]; done.
Qed.

Lemma until_quote_app l r : Forall (fun b => b <> 34) l -> until_quote (l ++ 34 :: r) = Some (l, r).
Proof.
  induction 1 as [|b l Hb _ IH]; [done|]. simpl. rewrite (proj2 (Z.eqb_neq b 34)) by done. by rewrite IH.
Qed.

Lemma read_string_app s r : text s -> read_string (quote s ++ r) = Some (s, r).
Proof.
  intros T. unfold read_string, quote. simpl. rewrite <-app_assoc. simpl.
  rewrite until_quote_app by by apply text_no_quote. simpl. by rewrite bytes_string_bytes.
Qed.

Lemma parses_string s : text s -> parses read_string (quote s) s.
Proof. intros T c r _. by apply read_string_app. Qed.

Lemma render_list_cons s s' l : render_list (s :: s' :: l) = quote s ++ 44 :: render_list (s' :: l).
Proof. done. Qed.

Lemma render_fields_cons k v kv fields :
  render_fields ((k, v) :: kv :: fields) = key k ++ v ++ 44 :: render_fields (kv :: fields).
Proof. done. Qed.

Lemma read_items_app l r fuel :
  l <> [] -> Forall text l -> (length l <= fuel)%nat -> read_items fuel (render_list l ++ r) = Some (l, r).
Proof.
  revert l. induction fuel as [|fuel IH]; intros [|s l] Hn Hl Hf; cbn [length] in Hf; try done; [lia|].
  apply Forall_cons in Hl as [Hs Hl]. cbn [read_items]. destruct l as [|s' l].
  - cbn [render_list]. rewrite <-app_assoc, read_string_app by done. done.
  - rewrite render_list_cons, <-app_assoc, read_string_app by done. cbn [mbind option_bind app].
    rewrite IH by (done || cbn [length] in *; lia). done.
Qed.

Lemma render_list_length l : (length l <= length (render_list l))%nat.
Proof.
  induction l as [|s [|s' l] IH]; [simpl; lia|simpl; rewrite !length_app; simpl; lia|].
  rewrite render_list_cons, length_app. cbn [length] in *. lia.
Qed.

Lemma parses_strings l : Forall text l -> parses read_strings (render_strings l) l.
Proof.
  intros T c r _. unfold read_strings, render_strings. destruct l as [|s l]; [done|].
  cbn [app expect]. rewrite Z.eqb_refl. destruct (render_list (s :: l) ++ c :: r) eqn:E.
  { pose proof (render_list_length (s :: l)) as L. apply app_eq_nil in E as [E _]. rewrite E in L. simpl in L. lia. }
  rewrite <-E. rewrite read_items_app; [done|done|done|].
  rewrite length_app. pose proof (render_list_length (s :: l)). lia.
Qed.

Lemma parses_bool b : parses read_bool (render_bool b) b.
Proof. intros c r _. by destruct b. Qed.

Lemma digit_bytes n : Forall (fun b => in_range 48 57 b = true) (render_number n).
Proof.
  unfold render_number, FormatUint, pretty, pretty_N. case_decide; [by repeat constructor|].
  assert (forall x s, Forall (fun b => in_range 48 57 b = true) (string_bytes s) ->
    Forall (fun b => in_range 48 57 b = true) (string_bytes (pretty_N_go x s))) as G; [|by apply G; constructor].
  intros x. induction (N.lt_wf_0 x) as [x _ IH]. intros s Hs.
  destruct (decide (x = 0)%N) as [->|Hne]; [done|]. rewrite pretty_N_go_step by lia.
  apply IH; [apply N.div_lt; lia|]. rewrite string_bytes_cons.
  pose proof (N.mod_lt x 10 ltac:(lia)). constructor; [|done].
  rewrite pretty_char_digit by done. generalize dependent (x `mod` 10)%N. intros. unfold in_range. lia.
Qed.

Lemma parses_number n : 0 <= n <= u64_max -> parses read_number (render_number n) n.
Proof.
  intros Hn c r Hc. unfold read_number.
  assert (read_digits (render_number n ++ c :: r) = (render_number n, c :: r)) as ->.
  { induction (digit_bytes n) as [|b l Hb _ IH]; simpl.
    - destruct Hc as [->|[->| ->]]; done.
    - by rewrite Hb, IH. }
  unfold render_number. rewrite bytes_string_bytes, ParseUint_FormatUint by done. done.
Qed.

Lemma read_rest_app v : read_rest (v ++ [125]) = Some (v, [125]).
Proof. unfold read_rest. rewrite rev_app_distr. simpl. by rewrite rev_involutive. Qed.

Lemma field_more {A} (read : list Z -> option (A * list Z)) k v a kv fields :
  parses read v a ->
  field read k (render_fields ((k, v) :: kv :: fields)) = Some (a, 44 :: render_fields (kv :: fields)).
Proof. intros P. rewrite render_fields_cons. apply field_app; [done|by left]. Qed.

Lemma field_last {A} (read : list Z -> option (A * list Z)) k v a :
  parses read v a -> field read k (render_fields [(k, v)]) = Some (a, [125]).
Proof. intros P. cbn [render_fields]. apply field_app; [done|by right; left]. Qed.

Lemma comma_app r : comma (44 :: r) = Some r.
Proof. by destruct r. Qed.

Lemma payload_last v : field read_rest "payload" (render_fields [("payload"%string, v)]) = Some (v, [125]).
Proof. unfold field. cbn [render_fields]. rewrite expect_app. apply read_rest_app. Qed.

(** Read the fields one after the other. *)
Ltac read_fields :=
  repeat (first
    [ rewrite payload_last
    | erewrite field_more by eauto using parses_string, parses_strings, parses_bool, parses_number
    | erewrite field_last by eauto using parses_string, parses_strings, parses_bool, parses_number
    | rewrite comma_app ]; cbn [mbind option_bind]).

Lemma read_fields_binding b kv r :
  binding_text b ->
  read_binding (render_fields (binding_fields b ++ kv :: r)) = Some (b, render_fields (kv :: r)).
Proof.
  unfold binding_text. rewrite !Forall_cons. intros (T1 & T2 & T3 & T4 & T5 & T6 & T7 & _).
  unfold read_binding, binding_fields. cbn [app]. read_fields. by destruct b.
Qed.

Lemma read_object fields : expect [123] (render_object fields) = Some (render_fields fields).
Proof. unfold render_object. apply (expect_app [123]). Qed.

Lemma read_write_capability c : capability_text c -> read_selectionCapability (write_selectionCapability c) = Some c.
Proof.
  unfold capability_text. rewrite !Forall_cons, Forall_app. intros (T1 & T2 & T3 & T4).
  unfold read_selectionCapability, write_selectionCapability. rewrite read_object. cbn [mbind option_bind].
  read_fields. by destruct c.
Qed.

Lemma read_write_proposal p : proposal_text p -> read_proposal (write_proposal p) = Some p.
Proof.
  intros [T1 T2]. unfold read_proposal, write_proposal. rewrite read_object. cbn [mbind option_bind].
  rewrite read_fields_binding by done. cbn [mbind option_bind]. read_fields. by destruct p.
Qed.

Lemma read_write_confirmation c : confirmation_text c -> read_confirmation (write_confirmation c) = Some c.
Proof.
  intros (T1 & T2 & T3). unfold read_confirmation, write_confirmation. rewrite read_object.
  cbn [mbind option_bind]. rewrite read_fields_binding by done. cbn [mbind option_bind]. read_fields.
  by destruct c.
Qed.

Lemma read_write_envelope e : envelope_text e -> read_envelope (write_envelope e) = Some e.
Proof.
  unfold envelope_text. rewrite !Forall_cons. intros ((T1 & T2 & T3 & T4 & _) & H1 & H2).
  unfold read_envelope, write_envelope. rewrite read_object. cbn [mbind option_bind].
  read_fields. by destruct e.
Qed.

(** *** Tokens *)
Definition renders (v : list Z) (t : json_tree) : Prop :=
  forall c r, ends_value c -> tokens_go Outside (v ++ c :: r) = tree_tokens t ++ tokens_go Outside (c :: r).

Lemma tokens_string acc s r :
  Forall (fun b => b <> 34) s ->
  tokens_go (InString acc) (s ++ 34 :: r) = TokString (bytes_string (rev acc ++ s)) :: tokens_go Outside r.
Proof.
  intros Hs. revert acc. induction Hs as [|b s Hb _ IH]; intros acc; simpl; [by rewrite app_nil_r|].
  rewrite (proj2 (Z.eqb_neq b 34)) by done. rewrite IH. simpl. by rewrite <-app_assoc.
Qed.

Lemma tokens_quote s r : text s -> tokens_go Outside (quote s ++ r) = TokString s :: tokens_go Outside r.
Proof.
  intros T. unfold quote. cbn [app]. rewrite <-app_assoc. cbn [app tokens_go]. simpl.
  rewrite tokens_string by by apply text_no_quote. simpl. by rewrite bytes_string_bytes.
Qed.

Lemma renders_string s : text s -> renders (quote s) (JString s).
Proof. intros T c r _. by apply tokens_quote. Qed.

Definition scalar_byte (b : Z) : Prop := b <> 34 /\ is_delim b = false /\ is_separator b = false.

Lemma renders_scalar v : v <> [] -> Forall scalar_byte v -> renders v JScalar.
Proof.
  intros Hv Hs c r Hc.
  assert (forall m, m = InScalar \/ m = Outside /\ v <> [] ->
    tokens_go m (v ++ c :: r) = TokScalar :: tokens_go Outside (c :: r)) as G; [|by apply G; right].
  clear Hv. induction Hs as [|b v (Hb & Hd & Hp) _ IH]; intros m Hm.
  - destruct Hm as [->|[_ []]]; [|done]. by destruct Hc as [->|[->| ->]].
  - cbn [app tokens_go]. rewrite (proj2 (Z.eqb_neq b 34)), Hd, Hp by done. rewrite IH by by left.
    by destruct Hm as [->|[-> _]].
Qed.

Lemma renders_bool b : renders (render_bool b) JScalar.
Proof. apply renders_scalar; [by destruct b|]. destruct b; repeat constructor; done. Qed.

Lemma renders_number n : 0 <= n <= u64_max -> renders (render_number n) JScalar.
Proof.
  intros Hn. apply renders_scalar.
  - unfold render_number. intros E. pose proof (ParseUint_FormatUint n Hn) as P.
    destruct (FormatUint n); [done|by rewrite string_bytes_cons in E].
  - eapply Forall_impl; [apply digit_bytes|]. intros b Hb. unfold in_range in Hb.
    unfold scalar_byte, is_delim, is_separator. lia.
Qed.

Lemma tokens_list l r :
  l <> [] -> Forall text l ->
  tokens_go Outside (render_list l ++ r) = map TokString l ++ TokDelim "]" :: tokens_go Outside r.
Proof.
  intros Hn Hl. induction Hl as [|s l Hs Hl IH]; [done|]. destruct l as [|s' l].
  - cbn [render_list]. rewrite <-app_assoc, tokens_quote by done. done.
  - rewrite render_list_cons, <-app_assoc, tokens_quote by done. cbn [app tokens_go].
    cbn [Z.eqb is_delim is_separator orb Pos.eqb app]. by rewrite IH.
Qed.

Lemma strings_tokens l : array_tokens (map JString l) = map TokString l.
Proof. unfold array_tokens. induction l as [|s l IH]; [done|]. simpl. by rewrite IH. Qed.

Lemma renders_strings l : Forall text l -> renders (render_strings l) (strings_tree l).
Proof.
  intros T. unfold render_strings, strings_tree. destruct l as [|s l].
  { apply renders_scalar; [done|]. repeat constructor; done. }
  intros c r _. cbn [app tokens_go]. cbn [Z.eqb is_delim is_separator orb Pos.eqb app].
  rewrite tokens_list by done. cbn [tree_tokens]. fold (array_tokens (map JString (s :: l))).
  rewrite strings_tokens. cbn [app]. by rewrite <-app_assoc.
Qed.

(** A field and the tree of its value. *)
Definition renders_field (f : string * list Z) (m : string * json_tree) : Prop :=
  f.1 = m.1 /\ text f.1 /\ renders f.2 m.2.

Lemma tokens_fields fields ms r :
  fields <> [] -> Forall2 renders_field fields ms ->
  tokens_go Outside (render_fields fields ++ r) = object_tokens ms ++ TokDelim "}" :: tokens_go Outside r.
Proof.
  intros Hn Hf. induction Hf as [|[k v] [k' t] fields ms (E & T & R) Hf IH]; [done|]. simpl in E, T, R.
  subst k'. unfold object_tokens. cbn [map concat fst snd]. fold (object_tokens ms). destruct fields as [|kv fields].
  - inversion Hf; subst. cbn [render_fields]. unfold key. rewrite <-!app_assoc, tokens_quote by done.
    cbn [app tokens_go]. cbn [Z.eqb is_delim is_separator orb Pos.eqb app].
    rewrite R by (by right; left). unfold object_tokens. simpl. by rewrite ?app_nil_r.
  - rewrite render_fields_cons. unfold key. rewrite <-!app_assoc, tokens_quote by done.
    cbn [app tokens_go]. cbn [Z.eqb is_delim is_separator orb Pos.eqb app].
    rewrite R by (by left). cbn [app tokens_go]. cbn [Z.eqb is_delim is_separator orb Pos.eqb app].
    by rewrite IH.
Qed.

Lemma tokens_object fields ms r :
  fields <> [] -> Forall2 renders_field fields ms ->
  tokens_go Outside (render_object fields ++ r) = tree_tokens (JObject ms) ++ tokens_go Outside r.
Proof.
  intros Hn Hf. unfold render_object. cbn [app tokens_go]. cbn [Z.eqb is_delim is_separator orb Pos.eqb app].
  rewrite (tokens_fields _ _ _ Hn Hf). cbn [tree_tokens app]. fold (object_tokens ms). by rewrite <-app_assoc.
Qed.

Ltac field_tokens :=
  split; [reflexivity|split; [by apply text_check|];
    simpl; first [by apply renders_string|by apply renders_strings|by apply renders_bool
                 |by apply renders_number|done]].

Ltac all_field_tokens := repeat (apply Forall2_cons_2; [field_tokens|]); apply Forall2_nil_2.

Lemma binding_field_tokens b : binding_text b -> Forall2 renders_field (binding_fields b) (binding_members b).
Proof.
  unfold binding_text. rewrite !Forall_cons. intros (T1 & T2 & T3 & T4 & T5 & T6 & T7 & _).
  all_field_tokens.
Qed.

Lemma capability_tokens c r :
  capability_text c ->
  tokens_go Outside (write_selectionCapability c ++ r) = tree_tokens (capability_tree c) ++ tokens_go Outside r.
Proof.
  unfold capability_text. rewrite !Forall_cons, Forall_app. intros (T1 & T2 & T3 & T4).
  apply tokens_object; [done|]. all_field_tokens.
Qed.

Lemma proposal_tokens p r :
  proposal_text p ->
  tokens_go Outside (write_proposal p ++ r) = tree_tokens (proposal_tree p) ++ tokens_go Outside r.
Proof.
  intros [T1 T2]. apply tokens_object; [done|]. apply Forall2_app; [by apply binding_field_tokens|].
  all_field_tokens.
Qed.

Lemma confirmation_tokens c r :
  confirmation_text c ->
  tokens_go Outside (write_confirmation c ++ r) = tree_tokens (confirmation_tree c) ++ tokens_go Outside r.
Proof.
  intros (T1 & T2 & T3). apply tokens_object; [done|]. apply Forall2_app; [by apply binding_field_tokens|].
  all_field_tokens.
Qed.

Lemma payload_renders v t : selection_payload v t -> renders v t.
Proof.
  intros [c T|p T|c T] x r _; [by apply capability_tokens|by apply proposal_tokens|by apply confirmation_tokens].
Qed.

Lemma envelope_tokens e t :
  envelope_text e -> selection_payload (en_Payload e) t ->
  tokens_go Outside (write_envelope e) = tree_tokens (envelope_tree e t).
Proof.
  unfold envelope_text. rewrite !Forall_cons. intros ((T1 & T2 & T3 & T4 & _) & H1 & H2) P%payload_renders.
  rewrite <-(app_nil_r (write_envelope e)), <-(app_nil_r (tree_tokens _)).
  apply tokens_object; [done|]. all_field_tokens.
Qed.

#[export] Instance compact_json_laws : SelectionJSONLaws compact_json.
Proof.
  split.
  - intros c T. split_and!; [by apply read_write_capability| |done].
    pose proof (capability_tokens c [] T) as E. by rewrite !app_nil_r in E.
  - intros p T. split_and!; [by apply read_write_proposal| |done].
    pose proof (proposal_tokens p [] T) as E. by rewrite !app_nil_r in E.
  - intros c T. split_and!; [by apply read_write_confirmation| |done].
    pose proof (confirmation_tokens c [] T) as E. by rewrite !app_nil_r in E.
  - intros e t T P. split; [|by apply read_write_envelope].
    split_and!; [by apply read_write_envelope|by apply envelope_tokens|done].
Qed.

(** * Concrete selections

    A script of transitions is executed and shown to be a run
    ([selection_play_run]), with the compact JSON of above.  The
    scripts cover two sessions that exchange capabilities, agree on a round and
    enter it, the second round, and a session that fails. *)

Inductive selection_move :=
| DoNew (cfg : Config) (resolver : Capability) (random : option (list Z))
| DoFront (e : string) (i : sel_input)
| DoDeliver (e : string) (packet : nat) (at_ : Time)
| DoClose (e : string).

Section play.
Context {J : SelectionJSON} {H : Sha256}.
Context (allowed : list (string * sel_event) -> Session -> sel_input -> Prop).
Context (allowedb : list (string * sel_event) -> Session -> sel_input -> bool).
Hypothesis allowedb_ok : forall log s i, allowedb log s i = true -> allowed log s i.

(** The transition a move stands for, when it is enabled. *)
Definition selection_play_move (mv : selection_move) (w : sel_world) : option sel_world :=
  match mv with
  | DoNew cfg resolver random =>
      match NewConverging cfg resolver random with
      | Ok s =>
          let e := sc_Epoch (ag_local (s_agreement s)) in
          match sw_sessions w !! e with
          | None => Some (mkSelWorld (<[e := (s, FIdle)]> (sw_sessions w)) (sw_net w) (sw_log w))
          | Some _ => None
          end
      | Err _ => None
      end
  | DoFront e i =>
      '(s, p) ← sw_sessions w !! e;
      if match p with FIdle => allowedb (sw_log w) s i | _ => true end then
        '(s', p', msgs, evs) ← front_step i s p;
        Some (mkSelWorld (<[e := (s', p')]> (sw_sessions w))
                (sw_net w ++ (mkPacket (cfg_LocalNodeID (s_cfg s)) (cfg_PeerID (s_cfg s)) <$> msgs))
                (sw_log w ++ (pair e <$> evs)))
      else None
  | DoDeliver e n at_ =>
      '(s, p) ← sw_sessions w !! e;
      pk ← sw_net w !! n;
      if decide (pk_to pk = cfg_LocalNodeID (s_cfg s)) then
        Some (mkSelWorld (<[e := ((HandleMessageFrom at_ (pk_from pk) (received_at at_ (pk_msg pk)) s).1, p)]>
                            (sw_sessions w)) (sw_net w) (sw_log w))
      else None
  | DoClose e =>
      '(s, p) ← sw_sessions w !! e;
      Some (mkSelWorld (<[e := ((stopSelection (selectionFailure "selection_closed") s).1, p)]> (sw_sessions w))
              (sw_net w) (sw_log w))
  end.

Fixpoint selection_play (mvs : list selection_move) (w : sel_world) : option sel_world :=
  match mvs with
  | [] => Some w
  | mv :: mvs' => selection_play_move mv w ≫= selection_play mvs'
  end.

Lemma selection_play_step mv w w' : selection_play_move mv w = Some w' -> sel_step (allowed (sw_log w)) w w'.
Proof.
  destruct mv as [cfg resolver random|e i|e n at_|e]; simpl.
  - destruct (NewConverging _ _ _) eqn:E; [|done]. destruct (sw_sessions w !! _) eqn:L; [done|].
    intros [= <-]. by econstructor.
  - destruct (sw_sessions w !! e) as [[s p]|] eqn:L; [|done]. simpl. destruct (match p with FIdle => _ | _ => _ end) eqn:A; [|done].
    destruct (front_step i s p) as [[[[s' p'] msgs] evs]|] eqn:F; [|done]. intros [= <-].
    econstructor; [done| |done]. intros ->. by apply allowedb_ok.
  - destruct (sw_sessions w !! e) as [[s p]|] eqn:L; [|done]. simpl.
    destruct (sw_net w !! n) as [pk|] eqn:E; [|done]. simpl. case_decide; [|done]. intros [= <-].
    econstructor; [done|by eapply list_elem_of_lookup_2|done].
  - destruct (sw_sessions w !! e) as [[s p]|] eqn:L; [|done]. intros [= <-]. by econstructor.
Qed.

Lemma selection_play_run mvs w w' :
  selection_play mvs w = Some w' -> rtc (fun w1 w2 => sel_step (allowed (sw_log w1)) w1 w2) w w'.
Proof.
  revert w. induction mvs as [|mv mvs IH]; intros w; simpl; [by intros [= ->]|].
  destruct (selection_play_move mv w) as [w1|] eqn:E; [|done]. simpl. intros R.
  eapply rtc_l; [by eapply selection_play_step|by apply IH].
Qed.
End play.

(** ** Two sessions *)
Definition at_ms (n : Z) : Time := mkTime (1000 * Second + n * Millisecond) false.

Definition config_a : Config := mkConfig "session" "node-a" "node-b" true (10 * Second) (2 * Second).
Definition config_b : Config := mkConfig "session" "node-b" "node-a" false (10 * Second) (2 * Second).
Definition capability_a : Capability := mkCapability ["relay"; "direct"; "legacy"]%string ["turn"%string].
Definition capability_b : Capability := mkCapability ["direct"; "relay"]%string [].
Definition random_a : list Z := replicate 16 10.
Definition random_b : list Z := replicate 16 11.
Definition epoch_a : string := bytes_string (hex_encode random_a).
Definition epoch_b : string := bytes_string (hex_encode random_b).

Definition strategy_of (name : string) : Strategy := mkStrategy 1 name false.
Definition candidate_of (name : string) : StrategyCandidate := mkCandidate name (strategy_of name) name false "".

(** What the code of both sessions offers in every round. *)
Definition offers_relay (_ : Z) : string := "relay".

Definition offeredb (s : Session) (names : list string) : bool :=
  match ag_err (s_agreement s), ag_remote (s_agreement s) with
  | Some _, _ => true
  | None, Some remote =>
      bool_decide (offers_relay (next_ordinal (s_agreement s)) ∈ names)
      && forallb (fun n => bool_decide (n ∈ sc_Strategies (ag_local (s_agreement s)))
                           && bool_decide (n ∈ sc_Strategies remote)) names
  | None, None => false
  end.
Definition disciplinedb (log : list (string * sel_event)) (s : Session) (i : sel_input) : bool :=
  match i with
  | CallAgree candidates _ _ => offeredb s (cd_Name <$> candidates)
  | CallPrepare candidate _ => prepare_ready candidate s || offeredb s [cd_Name candidate]
  | CallEnter strategy _ _ =>
      match last (own_events (sc_Epoch (ag_local (s_agreement s))) log) with
      | Some (EvConfirmed _ _ (first :: _)) => bool_decide (cd_Name first = sy_Name strategy)
      | _ => false
      end
  | _ => true
  end.

Lemma offeredb_ok s names : offeredb s names = true -> offered offers_relay s names.
Proof.
  unfold offeredb, offered. intros E He. rewrite He in E. destruct (ag_remote _) as [remote|]; [|done].
  apply andb_true_iff in E as [E1 E2]. apply bool_decide_eq_true in E1. rewrite forallb_forall in E2.
  exists remote. split_and!; [done..|]. intros n Hn%list_elem_of_In.
  specialize (E2 n Hn). apply andb_true_iff in E2 as [A B]. by apply bool_decide_eq_true in A, B.
Qed.

Lemma disciplinedb_ok log s i : disciplinedb log s i = true -> disciplined offers_relay log s i.
Proof.
  destruct i; simpl; try done.
  - apply offeredb_ok.
  - intros E P. rewrite P in E. by apply offeredb_ok.
  - destruct (last _) as [[| |g j [|first rest]|]|]; try done. intros E%bool_decide_eq_true.
    by exists g, j, first, rest.
Qed.

#[local] Notation play := (selection_play disciplinedb).

(** Capabilities are exchanged; [node-a] waits for its peer's before it arrives. *)
Definition script_waiting : list selection_move :=
  [DoNew config_a capability_a (Some random_a); DoNew config_b capability_b (Some random_b);
   DoFront epoch_a (CallBeginPass (at_ms 0)); DoFront epoch_b (CallBeginPass (at_ms 1));
   DoFront epoch_a (CallSendCapability (at_ms 2) None); DoFront epoch_b (CallSendCapability (at_ms 3) None);
   DoFront epoch_a CallWaitCapability; DoFront epoch_a (StepCapability None None None);
   DoDeliver epoch_a 1 (at_ms 10)].

(** The round of one session, up to its confirmation; its peer's proposal and
    confirmation are packets of the network. *)
Definition offer (e : string) (newPass : bool) (now : Z) : list selection_move :=
  [DoFront e (CallAgree [candidate_of "relay"; candidate_of "direct"] newPass (at_ms now));
   DoFront e StepBegin; DoFront e (StepSend (at_ms now) None None)].
Definition confirm (e : string) (proposal : nat) (now : Z) : list selection_move :=
  [DoDeliver e proposal (at_ms now); DoFront e StepPoll; DoFront e (StepSend (at_ms now) None None)].
Definition commit (e : string) (confirmation : nat) (now : Z) : list selection_move :=
  [DoDeliver e confirmation (at_ms now); DoFront e StepPoll; DoFront e (StepCommit (at_ms now) None);
   DoFront e (CallEnter (strategy_of "relay") None (at_ms now))].

Definition script_entered : list selection_move :=
  script_waiting ++
  [DoFront epoch_a StepChanged; DoFront epoch_a (StepCapability None None None); DoDeliver epoch_b 0 (at_ms 12)] ++
  offer epoch_a true 20 ++ offer epoch_b true 21 ++
  confirm epoch_a 3 30 ++ confirm epoch_b 2 31 ++ commit epoch_a 5 40 ++ commit epoch_b 4 41.

(** The next round, after the strategy of the first was closed. *)
Definition script_again : list selection_move :=
  script_entered ++ [DoFront epoch_a (CallCloseStrategy (strategy_of "relay") None)] ++ offer epoch_a false 60.

(** A round asked for while the strategy of the last one still runs. *)
Definition script_failed : list selection_move :=
  script_entered ++
  [DoFront epoch_a (CallAgree [candidate_of "relay"] false (at_ms 50)); DoFront epoch_a StepStop].
Definition script_after : list selection_move :=
  [DoDeliver epoch_a 3 (at_ms 70); DoFront epoch_a (CallBeginPass (at_ms 71)); DoClose epoch_a].

Definition world_of (mvs : list selection_move) : sel_world := default sel_init (play mvs sel_init).

(** Runs in which the code of every session is disciplined. *)
#[local] Notation honest_run := (rtc (fun w1 w2 => sel_step (disciplined offers_relay (sw_log w1)) w1 w2)).

Lemma sel_step_mono (P P' : Session -> sel_input -> Prop) w w' :
  (forall s i, P s i -> P' s i) -> sel_step P w w' -> sel_step P' w w'.
Proof. intros HP S. destruct S; econstructor; eauto. Qed.

Definition any_call (_ : Session) (_ : sel_input) : Prop := True.

Lemma honest_any w w' : honest_run w w' -> rtc (sel_step any_call) w w'.
Proof. apply rtc_subrel. intros w1 w2 S. by eapply sel_step_mono. Qed.

Lemma honest_honest conn w : honest_run sel_init w -> honest_reachable offers_relay conn w.
Proof. apply rtc_subrel. intros w1 w2 S. eapply sel_step_mono; [|done]. by intros s i. Qed.

Lemma world_of_reachable mvs :
  bool_decide (is_Some (play mvs sel_init)) = true -> honest_run sel_init (world_of mvs).
Proof.
  intros E. apply bool_decide_eq_true in E as [w E]. unfold world_of. rewrite E. simpl.
  eapply selection_play_run; [apply disciplinedb_ok|done].
Qed.

Ltac run_ok := apply honest_any, world_of_reachable; vm_compute; reflexivity.

(** The session of an epoch. *)
Definition session_of (mvs : list selection_move) (e : string) : option (Session * sel_phase) :=
  sw_sessions (world_of mvs) !! e.

(** ** Witnesses *)
Lemma selection_agreement_witness :
  exists g j o, (epoch_a, EvConfirmed g j o) ∈ sw_log (world_of script_entered) /\
    jt_Order j = ["relay"; "direct"]%string /\ cd_Name <$> o = jt_Order j /\
    (exists g', (epoch_b, EvConfirming g' j) ∈ sw_log (world_of script_entered)) /\
    exists g' o', (epoch_b, EvConfirmed g' j o') ∈ sw_log (world_of script_entered) /\
      cd_Name <$> o' = cd_Name <$> o.
Proof.
  assert (exists g j o, sw_log (world_of script_entered) !! 4%nat = Some (epoch_a, EvConfirmed g j o) /\
    g_peer g = epoch_b /\ g_ordinal g = 0 /\ jt_Order j = ["relay"; "direct"]%string) as (g & j & o & E & Ep & Eo & Ej).
  { eexists _, _, _. vm_compute. split_and!; reflexivity. }
  assert (exists g j o, sw_log (world_of script_entered) !! 6%nat = Some (epoch_b, EvConfirmed g j o) /\
    g_ordinal g = 0) as (g' & j' & o' & E' & Eo').
  { eexists _, _, _. vm_compute. split; reflexivity. }
  apply list_elem_of_lookup_2 in E, E'.
  destruct (selection_agreement any_call (world_of script_entered) epoch_a g j o)
    as (N1 & _ & _ & (g2 & C & _) & P); [run_ok|done|]. rewrite Ep in C, P.
  destruct (P g' j' o' E') as (_ & -> & N2); [congruence|].
  exists g, j, o. split_and!; eauto.
Defined.

Lemma entered_strategies_agree_witness :
  (epoch_b, EvEntered 0 (strategy_of "relay")) ∈ sw_log (world_of script_entered) /\
  NoDup (entered_ordinals epoch_a (sw_log (world_of script_entered))) /\
  exists g j o, (epoch_a, EvConfirmed g j o) ∈ sw_log (world_of script_entered) /\ joint_strategy j = "relay"%string.
Proof.
  split; [apply (list_elem_of_lookup_2 _ 7); vm_compute; reflexivity|].
  destruct (entered_strategies_agree any_call (world_of script_entered) epoch_a 0 (strategy_of "relay"))
    as (N & g & j & o & E & _ & S & _); [run_ok|apply (list_elem_of_lookup_2 _ 5); vm_compute; reflexivity|].
  split; [done|]. exists g, j, o. by rewrite <-S.
Defined.

Lemma rounds_do_not_overlap_witness :
  exists s g, session_of script_again epoch_a = Some (s, FProposal g) /\ g_ordinal g = 1 /\
    ag_previous (s_agreement s) = Some (strategy_of "relay") /\ previous_closed (s_agreement s).
Proof.
  assert (exists s g, session_of script_again epoch_a = Some (s, FProposal g) /\ g_ordinal g = 1 /\
    ag_previous (s_agreement s) = Some (strategy_of "relay")) as (s & g & E & Eg & Ep).
  { eexists _, _. vm_compute. split_and!; reflexivity. }
  exists s, g. split_and!; [done..|].
  apply (rounds_do_not_overlap any_call (world_of script_again) epoch_a s (FProposal g));
    [run_ok|done|done].
Defined.

Lemma first_error_is_final_witness :
  exists s p, session_of (script_failed ++ script_after) epoch_a = Some (s, p) /\
    ag_err (s_agreement s) = Some (selectionFailure "selection_previous_active").
Proof.
  assert (exists s p, session_of script_failed epoch_a = Some (s, p) /\
    ag_err (s_agreement s) = Some (selectionFailure "selection_previous_active")) as (s & p & E & Ee).
  { eexists _, _. vm_compute. split; reflexivity. }
  destruct (first_error_is_final any_call (world_of script_failed)
    (world_of (script_failed ++ script_after)) epoch_a s p (selectionFailure "selection_previous_active"))
    as (s' & p' & E' & Ee' & _); [run_ok| |done|done|eauto].
  apply honest_any, (selection_play_run _ disciplinedb disciplinedb_ok script_after). vm_compute. reflexivity.
Defined.

Lemma no_lost_wakeup_witness :
  exists s, session_of script_waiting epoch_a = Some (s, FCapabilityWait) /\
    is_Some (ag_remote (s_agreement s)) /\ ag_changed (s_agreement s) = true.
Proof.
  assert (exists s, session_of script_waiting epoch_a = Some (s, FCapabilityWait) /\
    is_Some (ag_remote (s_agreement s)) /\ has_work s FCapabilityWait = true) as (s & E & R & Hw).
  { eexists. vm_compute. split_and!; [reflexivity|by eexists|reflexivity]. }
  exists s. split_and!; [done..|].
  apply (no_lost_wakeup any_call (world_of script_waiting) epoch_a s FCapabilityWait);
    [run_ok|done|done].
Defined.

Lemma strict_decode_exact_witness :
  decodeSelectionJSONBound (render_object [("a", render_strings ["b"]); ("a", quote "c")]%string) Some 100
  = Err (selectionFailure "selection_invalid").
Proof.
  rewrite (strict_decode_exact _ _ 100 (JObject [("a", JArray [JString "b"]); ("a", JString "c")]%string) []);
    vm_compute; reflexivity.
Defined.

Lemma entered_statics z (d : static) :
  statics (world_of script_entered) !! z = Some d ->
  z = epoch_a /\ d.1 = config_a \/ z = epoch_b /\ d.1 = config_b.
Proof.
  intros E%elem_of_map_to_list.
  assert (Forall (fun zd : string * static =>
    zd.1 = epoch_a /\ zd.2.1 = config_a \/ zd.1 = epoch_b /\ zd.2.1 = config_b)
    (map_to_list (statics (world_of script_entered)))) as F.
  { vm_compute. repeat constructor; try (left; split; reflexivity); right; split; reflexivity. }
  rewrite Forall_forall in F. by apply (F (z, d)).
Qed.

Lemma entered_not_crowded : ~ crowded (statics (world_of script_entered)) config_a.
Proof.
  intros (z1 & z2 & d1 & d2 & Hne & E1%entered_statics & E2%entered_statics & (_ & N & _) & _).
  destruct E1 as [[-> D1]|[-> D1]], E2 as [[-> D2]|[-> D2]]; try done; by rewrite D1, D2 in N.
Qed.

Lemma honest_sessions_never_conflict_witness :
  exists s p, session_of script_entered epoch_a = Some (s, p) /\ rd_entered <$> ag_current (s_agreement s) = Some true /\
    ag_err (s_agreement s) <> Some (selectionFailure "selection_conflict").
Proof.
  assert (exists s p, session_of script_entered epoch_a = Some (s, p) /\ s_cfg s = config_a /\
    rd_entered <$> ag_current (s_agreement s) = Some true) as (s & p & E & Ec & Er).
  { eexists _, _. vm_compute. split_and!; reflexivity. }
  exists s, p. split_and!; [done..|].
  apply (honest_sessions_never_conflict offers_relay (world_of script_entered) epoch_a s p);
    [apply honest_honest, world_of_reachable; vm_compute; reflexivity|done|].
  rewrite Ec. apply entered_not_crowded.
Defined.
