(* ===== verification/HardNatArith.v ===== *)
(** * Hard-NAT planning: collision probabilities
    (src/internal/v2/hardnatplan/probability.go)

    The part of math/big the file uses, on integers: a [big.Float] of
    [ProbabilityPrecisionBits] bits is a mantissa and an exponent, and every
    operation is the exact one followed by a rounding; a [big.Rat] is a pair of
    integers.  This file uses the Standard Library only. *)
From Stdlib Require Import ZArith List String Ascii Bool DecimalString DecimalNat DecimalN Lia.
From Stdlib Require Import ZArith QArith Qpower List String Lia Lqa.
Import ListNotations.
Open Scope Z_scope.

Definition ProbabilityPrecisionBits : Z := 512.
Definition ProbabilityScale : Z := 1000000000000.
Definition probabilityDecimalDigits : Z := 50.
Definition exactRationalDrawLimit : Z := 4096.
Definition poissonSeriesTerms : nat := 192.
Definition poissonSaturation : Z := 128.

(** ** [big.Float] *)
Record float := mkFloat { fl_mant : Z; fl_exp : Z }.

Inductive RoundingMode := ToNegativeInf | ToPositiveInf | ToNearestEven.

(** Whether the mantissa is incremented, from its quotient, the part that is cut
    off and the weight of the last place. *)
Definition rounds_up (mode : RoundingMode) (quotient rest unit : Z) : bool :=
  match mode with
  | ToNegativeInf => false
  | ToPositiveInf => negb (rest =? 0)
  | ToNearestEven => (unit <? 2 * rest) || ((unit =? 2 * rest) && Z.odd quotient)
  end.

(** [m * 2^e] to 512 bits. *)
Definition round (mode : RoundingMode) (m e : Z) : float :=
  let extra := Z.log2 (Z.abs m) + 1 - ProbabilityPrecisionBits in
  if extra <=? 0 then mkFloat m e
  else
    let quotient := Z.shiftr m extra in
    let rest := m - Z.shiftl quotient extra in
    mkFloat (if rounds_up mode quotient rest (Z.shiftl 1 extra) then quotient + 1 else quotient) (e + extra).

Definition SetInt (m : Z) : float := mkFloat m 0.
Definition Mul (mode : RoundingMode) (x y : float) : float :=
  round mode (fl_mant x * fl_mant y) (fl_exp x + fl_exp y).
Definition Sub (mode : RoundingMode) (x y : float) : float :=
  let e := Z.min (fl_exp x) (fl_exp y) in
  round mode (Z.shiftl (fl_mant x) (fl_exp x - e) - Z.shiftl (fl_mant y) (fl_exp y - e)) e.

(** A quotient with at least two bits more than the precision and a last bit
    that says whether the division is exact. *)
Definition Quo (mode : RoundingMode) (x y : float) : float :=
  let s := Z.max 0 (ProbabilityPrecisionBits + 1 + Z.log2 (fl_mant y) - Z.log2 (fl_mant x)) in
  let n := Z.shiftl (fl_mant x) s in
  let sticky := if n mod fl_mant y =? 0 then 0 else 1 in
  round mode (2 * (n / fl_mant y) + sticky) (fl_exp x - fl_exp y - s - 1).

(** The fraction a non-negative number stands for. *)
Definition Rat (x : float) : Z * Z :=
  if 0 <=? fl_exp x then (Z.shiftl (fl_mant x) (fl_exp x), 1) else (fl_mant x, Z.shiftl 1 (- fl_exp x)).

(** ** Decimals *)
Definition digits_of (n : Z) : string := NilZero.string_of_uint (N.to_uint (Z.to_N n)).

Fixpoint zeroDigits (count : nat) : string :=
  match count with O => EmptyString | S c => String "0" (zeroDigits c) end.

Definition padded (digits : Z) (n : Z) : string :=
  let text := digits_of n in
  append (zeroDigits (Z.to_nat digits - String.length text)) text.

(** [q / 10^digits] written with that many places. *)
Definition fixed_decimal (digits q : Z) : string :=
  let scale := 10 ^ digits in
  append (digits_of (q / scale)) (append "." (padded digits (q mod scale))).

Definition directed_scaled (value : float) (digits : Z) (upper : bool) : Z :=
  let '(num, den) := Rat value in
  let n := num * 10 ^ digits in
  n / den + (if upper && negb (n mod den =? 0) then 1 else 0).

Definition directedDecimal (value : float) (digits : Z) (upper : bool) : string :=
  if fl_mant value <=? 0 then append "0." (zeroDigits (Z.to_nat digits))
  else fixed_decimal digits (directed_scaled value digits upper).

(** [Int] truncates. *)
Definition floorScaled (value : float) (scale : Z) : Z :=
  if fl_mant value <=? 0 then 0
  else
    let '(num, den) := Rat (Mul ToNegativeInf value (SetInt scale)) in
    Z.min (num / den) scale.

(** ** The collision probability *)
Record Probability := mkProbability {
  pb_Universe : Z;
  pb_LeftDraws : Z;
  pb_RightDraws : Z;
  pb_PrecisionBits : Z;
  pb_LowerDecimal : string;
  pb_UpperDecimal : string;
  pb_FloorPartsPerTrillion : Z;
  pb_ExactRational : string;
}.

(** The loop over the draws, from [ordinal] on. *)
Fixpoint miss_loop (draws : nat) (universe blocked ordinal : Z) (missLower missUpper : float)
    : float * float :=
  match draws with
  | O => (missLower, missUpper)
  | S draws' =>
      let numerator := SetInt (universe - blocked - ordinal) in
      let denominator := SetInt (universe - ordinal) in
      miss_loop draws' universe blocked (ordinal + 1)
        (Mul ToNegativeInf missLower (Quo ToNegativeInf numerator denominator))
        (Mul ToPositiveInf missUpper (Quo ToPositiveInf numerator denominator))
  end.

(** The exact probability of a miss, as a fraction. *)
Fixpoint exact_miss (draws : nat) (universe blocked ordinal : Z) (miss : Z * Z) : Z * Z :=
  match draws with
  | O => miss
  | S draws' =>
      exact_miss draws' universe blocked (ordinal + 1)
        (fst miss * (universe - blocked - ordinal), snd miss * (universe - ordinal))
  end.

Definition RatString (num den : Z) : string :=
  let g := Z.gcd num den in
  if den / g =? 1 then digits_of (num / g)
  else append (digits_of (num / g)) (append "/" (digits_of (den / g))).

Definition exactCollisionRational (universe blocked draws : Z) : string :=
  let '(n, d) := exact_miss (Z.to_nat draws) universe blocked 0 (1, 1) in RatString (d - n) d.

Definition success_interval (universe blocked draws : Z) : float * float :=
  let '(missLower, missUpper) :=
    miss_loop (Z.to_nat draws) universe blocked 0 (SetInt 1) (SetInt 1) in
  let successLower := Sub ToNegativeInf (SetInt 1) missUpper in
  let successUpper := Sub ToPositiveInf (SetInt 1) missLower in
  let '(num, den) := Rat successUpper in
  (if fl_mant successLower <? 0 then SetInt 0 else successLower,
   if den <? num then SetInt 1 else successUpper).

Definition exactBoundaryProbability (universe leftDraws rightDraws : Z) (one : bool) : Probability :=
  let decimal := append (if one then "1." else "0.") (zeroDigits (Z.to_nat probabilityDecimalDigits)) in
  mkProbability universe leftDraws rightDraws ProbabilityPrecisionBits decimal decimal
    (if one then ProbabilityScale else 0) (if one then "1" else "0")%string.

(** [None] is [ErrInvalidProbabilityInput]. *)
Definition CollisionProbabilityWithoutReplacement (universe leftDraws rightDraws : Z) : option Probability :=
  if (universe =? 0) || (universe <? leftDraws) || (universe <? rightDraws) then None
  else if (leftDraws =? 0) || (rightDraws =? 0)
  then Some (exactBoundaryProbability universe leftDraws rightDraws false)
  else if universe - rightDraws <? leftDraws
  then Some (exactBoundaryProbability universe leftDraws rightDraws true)
  else
    let '(blocked, draws) :=
      if leftDraws <? rightDraws then (rightDraws, leftDraws) else (leftDraws, rightDraws) in
    let '(successLower, successUpper) := success_interval universe blocked draws in
    Some (mkProbability universe leftDraws rightDraws ProbabilityPrecisionBits
      (directedDecimal successLower probabilityDecimalDigits false)
      (directedDecimal successUpper probabilityDecimalDigits true)
      (floorScaled successLower ProbabilityScale)
      (if draws <=? exactRationalDrawLimit then exactCollisionRational universe blocked draws else EmptyString)).

(** ** The Poisson approximation *)

(** [FloatString]: rounded half away from zero. *)
Definition FloatString (num den digits : Z) : string :=
  let n := num * 10 ^ digits in
  fixed_decimal digits (n / den + (if den <=? 2 * (n mod den) then 1 else 0)).

(** Halve [a / b] until it is at most one eighth. *)
Fixpoint halvings (fuel : nat) (a b : Z) : nat * Z :=
  match fuel with
  | O => (O, b)
  | S fuel' => if b <? 8 * a then let '(n, b') := halvings fuel' a (2 * b) in (S n, b') else (O, b)
  end.

(** The partial sums of the exponential series of [a / b]: the term and the sum
    over the common denominator. *)
Fixpoint series (terms : nat) (index a b term sum den : Z) : Z * Z :=
  match terms with
  | O => (sum, den)
  | S terms' =>
      series terms' (index + 1) a b (term * a) (sum * (b * index) + term * a) (den * (b * index))
  end.

Fixpoint square_times (n : nat) (num den : Z) : Z * Z :=
  match n with O => (num, den) | S n' => square_times n' (num * num) (den * den) end.

(** At most ten halvings take [x < 128] to one eighth. *)
Definition PoissonApproximation (universe leftDraws rightDraws : Z) : option string :=
  if universe =? 0 then None
  else
    let product := leftDraws * rightDraws in
    if product =? 0 then Some (FloatString 0 1 probabilityDecimalDigits)
    else if poissonSaturation * universe <=? product then Some (FloatString 1 1 probabilityDecimalDigits)
    else
      let a := product / Z.gcd product universe in
      let '(reductions, b) := halvings 10 a (universe / Z.gcd product universe) in
      let '(sum, den) := series poissonSeriesTerms 1 a b 1 1 1 in
      let '(num, den) := square_times reductions den sum in
      let num := den - num in
      Some (if num <? 0 then FloatString 0 1 probabilityDecimalDigits
            else if den <? num then FloatString 1 1 probabilityDecimalDigits
            else FloatString num den probabilityDecimalDigits).

(** *** [big.ParseFloat] on the decimals above *)
Definition digit_value (c : ascii) : option Z :=
  let n := Z.of_N (N_of_ascii c) in if (48 <=? n) && (n <=? 57) then Some (n - 48) else None.

(** The digits of a decimal and the number of places. *)
Fixpoint parse_digits (text : string) (point : bool) (acc places : Z) : option (Z * Z) :=
  match text with
  | EmptyString => Some (acc, places)
  | String c text' =>
      if (Ascii.eqb c "." && negb point)%bool then parse_digits text' true acc places
      else match digit_value c with
           | Some v => parse_digits text' point (10 * acc + v) (if point then places + 1 else places)
           | None => None
           end
  end.
Definition ParseFloat (text : string) (mode : RoundingMode) : option float :=
  match text with
  | EmptyString => None
  | _ =>
      match parse_digits text false 0 0 with
      | None => None
      | Some (mantissa, places) =>
          Some (if mantissa =? 0 then SetInt 0
                else Quo mode (mkFloat mantissa (- places)) (SetInt (5 ^ places)))
      end
  end.

(** *** [Text('e', 20)]: nearest, ties to even *)
Fixpoint scale_up (fuel : nat) (n d k : Z) : Z * Z :=
  match fuel with
  | O => (n, k)
  | S fuel' => if n <? d then scale_up fuel' (10 * n) d (k - 1) else (n, k)
  end.
Fixpoint scale_down (fuel : nat) (n d k : Z) : Z * Z :=
  match fuel with
  | O => (d, k)
  | S fuel' => if 10 * d <=? n then scale_down fuel' n (10 * d) (k + 1) else (d, k)
  end.
Definition exponent_text (k : Z) : string :=
  append (if k <? 0 then "e-" else "e+") (padded 2 (Z.abs k)).
Definition format_e (x : float) (places : Z) : string :=
  if fl_mant x =? 0 then append "0." (append (zeroDigits (Z.to_nat places)) "e+00")
  else
    let '(n, d) := Rat (mkFloat (Z.abs (fl_mant x)) (fl_exp x)) in
    let '(n, k) := scale_up (Z.to_nat (Z.log2 d + 1)) n d 0 in
    let '(d, k) := scale_down (Z.to_nat (Z.log2 n + 1)) n d k in
    let m := n * 10 ^ places in
    let q := m / d in
    let q := if rounds_up ToNearestEven q (m mod d) d then q + 1 else q in
    let '(q, k) := if q =? 10 ^ (places + 1) then (10 ^ places, k + 1) else (q, k) in
    append (if fl_mant x <? 0 then "-" else EmptyString) (append (fixed_decimal places q) (exponent_text k)).

Definition ApproximationDelta (probability : Probability) (approximation : string) : option string :=
  match ParseFloat (pb_LowerDecimal probability) ToNegativeInf with
  | None => None
  | Some lower =>
      match ParseFloat approximation ToNearestEven with
      | None => None
      | Some approximate => Some (format_e (Sub ToNegativeInf lower approximate) 20)
      end
  end.

(** [None] is [ErrProbabilityInputOverflow]. *)
Definition checkedProduct (left right : Z) : option Z :=
  if negb (left =? 0) && ((2 ^ 64 - 1) / left <? right) then None else Some (left * right).

(** * Hard-NAT planning: the probability interval is sound

    Every rounding of probability.go goes in the safe direction: the lower end
    of the interval is at most the exact probability, the upper end at least,
    and the number of parts per trillion used for admission is below it. *)

Definition fval (x : float) : Q := (inject_Z (fl_mant x) * Qpower 2 (fl_exp x))%Q.

Lemma pow2_pos e : (0 < Qpower 2 e)%Q.
Proof. apply Qpower_0_lt. reflexivity. Qed.

Lemma pow2_plus a b : (Qpower 2 (a + b) == Qpower 2 a * Qpower 2 b)%Q.
Proof. apply Qpower_plus. discriminate. Qed.

Lemma pow2_Z n : 0 <= n -> (Qpower 2 n == inject_Z (2 ^ n))%Q.
Proof. intros Hn. rewrite Zpower_Qpower by lia. reflexivity. Qed.

Lemma fval_shift m e k : 0 <= k -> (fval (mkFloat (m * 2 ^ k) e) == fval (mkFloat m (e + k)))%Q.
Proof.
  intros Hk. unfold fval. simpl. rewrite inject_Z_mult, <-pow2_Z, pow2_plus by lia. ring.
Qed.

Lemma fval_le m n e : m <= n -> (fval (mkFloat m e) <= fval (mkFloat n e))%Q.
Proof.
  intros H. unfold fval. simpl. apply Qmult_le_compat_r; [rewrite <-Zle_Qle; lia|].
  apply Qlt_le_weak, pow2_pos.
Qed.

Lemma fval_nonneg x : 0 <= fl_mant x -> (0 <= fval x)%Q.
Proof.
  intros H. unfold fval. apply Qmult_le_0_compat; [|apply Qlt_le_weak, pow2_pos].
  change 0%Q with (inject_Z 0). rewrite <-Zle_Qle. lia.
Qed.

Lemma fval_int n : (fval (SetInt n) == inject_Z n)%Q.
Proof. unfold fval, SetInt. simpl. ring. Qed.

Lemma fval_sign x : (0 <= fval x)%Q -> 0 <= fl_mant x.
Proof.
  intros H. destruct (Z.le_gt_cases 0 (fl_mant x)) as [|N]; [assumption|exfalso].
  assert (fval x < 0)%Q; [|lra]. unfold fval.
  assert (inject_Z (fl_mant x) < 0)%Q by (change 0%Q with (inject_Z 0); rewrite <-Zlt_Qlt; lia).
  pose proof (pow2_pos (fl_exp x)). nra.
Qed.

(** ** Rounding *)
Lemma shift_parts m k : 0 < k -> Z.shiftr m k = m / 2 ^ k /\ m - Z.shiftl (Z.shiftr m k) k = m mod 2 ^ k.
Proof.
  intros Hk. rewrite Z.shiftl_mul_pow2, Z.shiftr_div_pow2 by lia.
  pose proof (Z.div_mod m (2 ^ k) ltac:(lia)). lia.
Qed.

Lemma round_down m e : (fval (round ToNegativeInf m e) <= fval (mkFloat m e))%Q.
Proof.
  unfold round. destruct (_ <=? 0) eqn:E; [apply Qle_refl|]. apply Z.leb_gt in E.
  set (k := Z.log2 (Z.abs m) + 1 - ProbabilityPrecisionBits) in *. simpl. destruct (shift_parts m k E) as [-> _].
  rewrite <-fval_shift by lia. apply fval_le. pose proof (Z.mul_div_le m (2 ^ k)). lia.
Qed.

Lemma round_up m e : (fval (mkFloat m e) <= fval (round ToPositiveInf m e))%Q.
Proof.
  unfold round. destruct (_ <=? 0) eqn:E; [apply Qle_refl|]. apply Z.leb_gt in E.
  set (k := Z.log2 (Z.abs m) + 1 - ProbabilityPrecisionBits) in *. cbv zeta.
  destruct (shift_parts m k E) as [-> ->]. unfold rounds_up.
  rewrite <-fval_shift by lia. apply fval_le.
  pose proof (Z.div_mod m (2 ^ k) ltac:(lia)). pose proof (Z.mod_pos_bound m (2 ^ k) ltac:(lia)).
  destruct (m mod 2 ^ k =? 0) eqn:M; simpl; [apply Z.eqb_eq in M|]; nia.
Qed.

Lemma round_nonneg mode m e : 0 <= m -> 0 <= fl_mant (round mode m e).
Proof.
  intros Hm. unfold round. destruct (_ <=? 0) eqn:E; [assumption|]. apply Z.leb_gt in E. simpl.
  assert (0 <= Z.shiftr m (Z.log2 (Z.abs m) + 1 - ProbabilityPrecisionBits)) by (apply Z.shiftr_nonneg; lia).
  destruct (rounds_up _ _ _ _); lia.
Qed.

Lemma Mul_exact x y : (fval (mkFloat (fl_mant x * fl_mant y) (fl_exp x + fl_exp y)) == fval x * fval y)%Q.
Proof. unfold fval. simpl. rewrite inject_Z_mult, pow2_plus. ring. Qed.

Lemma Mul_down x y : (fval (Mul ToNegativeInf x y) <= fval x * fval y)%Q.
Proof. rewrite <-Mul_exact. apply round_down. Qed.
Lemma Mul_up x y : (fval x * fval y <= fval (Mul ToPositiveInf x y))%Q.
Proof. rewrite <-Mul_exact. apply round_up. Qed.
Lemma Mul_nonneg mode x y : 0 <= fl_mant x -> 0 <= fl_mant y -> 0 <= fl_mant (Mul mode x y).
Proof. intros. apply round_nonneg. nia. Qed.

Lemma Sub_exact x y :
  (fval (mkFloat (Z.shiftl (fl_mant x) (fl_exp x - Z.min (fl_exp x) (fl_exp y))
                  - Z.shiftl (fl_mant y) (fl_exp y - Z.min (fl_exp x) (fl_exp y)))
           (Z.min (fl_exp x) (fl_exp y))) == fval x - fval y)%Q.
Proof.
  set (e := Z.min (fl_exp x) (fl_exp y)). rewrite !Z.shiftl_mul_pow2 by lia.
  assert (forall a, e <= fl_exp a -> (inject_Z (fl_mant a * 2 ^ (fl_exp a - e)) * Qpower 2 e == fval a)%Q) as G.
  { intros a Ha. unfold fval. rewrite inject_Z_mult, <-pow2_Z by lia.
    rewrite <-Qmult_assoc, <-pow2_plus. replace (fl_exp a - e + e) with (fl_exp a) by lia. reflexivity. }
  rewrite <-(G x), <-(G y) by lia. unfold fval. cbn [fl_mant fl_exp].
  generalize (fl_mant x * 2 ^ (fl_exp x - e)), (fl_mant y * 2 ^ (fl_exp y - e)). intros a b.
  change (a - b) with (a + - b). rewrite inject_Z_plus, inject_Z_opp. ring.
Qed.
Lemma Sub_down x y : (fval (Sub ToNegativeInf x y) <= fval x - fval y)%Q.
Proof. rewrite <-Sub_exact. apply round_down. Qed.
Lemma Sub_up x y : (fval x - fval y <= fval (Sub ToPositiveInf x y))%Q.
Proof. rewrite <-Sub_exact. apply round_up. Qed.

(** *** Quotients *)
Lemma quotient_long x y :
  0 < fl_mant x -> 0 < fl_mant y ->
  2 ^ ProbabilityPrecisionBits
  <= Z.shiftl (fl_mant x) (Z.max 0 (ProbabilityPrecisionBits + 1 + Z.log2 (fl_mant y) - Z.log2 (fl_mant x)))
     / fl_mant y.
Proof.
  intros Hx Hy. set (s := Z.max 0 _). rewrite Z.shiftl_mul_pow2 by lia.
  pose proof (Z.log2_spec _ Hx) as [Lx _]. pose proof (Z.log2_spec _ Hy) as [_ Ly].
  pose proof (Z.log2_nonneg (fl_mant x)). pose proof (Z.log2_nonneg (fl_mant y)).
  apply Z.div_le_lower_bound; [lia|].
  transitivity (2 ^ (Z.log2 (fl_mant y) + 1) * 2 ^ ProbabilityPrecisionBits).
  { apply Z.mul_le_mono_nonneg_r; [apply Z.pow_nonneg; lia|]. rewrite Z.add_1_r. lia. }
  rewrite <-Z.pow_add_r by (unfold ProbabilityPrecisionBits; lia).
  transitivity (2 ^ Z.log2 (fl_mant x) * 2 ^ s); [|apply Z.mul_le_mono_nonneg_r; [apply Z.pow_nonneg|]; lia].
  rewrite <-Z.pow_add_r by lia. apply Z.pow_le_mono_r; lia.
Qed.

Lemma quotient_split x y s :
  0 <= s -> 0 < fl_mant y ->
  (inject_Z (2 * (fl_mant x * 2 ^ s)) * Qpower 2 (fl_exp x - fl_exp y - s - 1)
   == fval x / fval y * inject_Z (fl_mant y))%Q.
Proof.
  intros Hs Hy. unfold fval.
  replace (fl_exp x - fl_exp y - s - 1) with (fl_exp x + - (fl_exp y + s + 1)) by lia.
  rewrite pow2_plus, Qpower_opp, !pow2_plus, !inject_Z_mult, <-(pow2_Z s) by lia.
  change (Qpower 2 1) with 2%Q.
  assert (~ inject_Z (fl_mant y) == 0)%Q by (change 0%Q with (inject_Z 0); rewrite inject_Z_injective; lia).
  pose proof (pow2_pos (fl_exp x)). pose proof (pow2_pos (fl_exp y)). pose proof (pow2_pos s).
  change (inject_Z 2) with 2%Q. field. repeat split; lra.
Qed.

Section quotient.
Context (x y : float) (Hx : 0 < fl_mant x) (Hy : 0 < fl_mant y).
Let s := Z.max 0 (ProbabilityPrecisionBits + 1 + Z.log2 (fl_mant y) - Z.log2 (fl_mant x)).
Let n := Z.shiftl (fl_mant x) s.
Let q := n / fl_mant y.
Let r := n mod fl_mant y.
Let m := 2 * q + (if r =? 0 then 0 else 1).
Let e := fl_exp x - fl_exp y - s - 1.

Lemma quotient_value : (inject_Z (2 * n) * Qpower 2 e == fval x / fval y * inject_Z (fl_mant y))%Q.
Proof. unfold n. rewrite Z.shiftl_mul_pow2 by lia. apply quotient_split; lia. Qed.

Lemma quotient_le a : a * fl_mant y <= 2 * n -> (fval (mkFloat a e) <= fval x / fval y)%Q.
Proof.
  intros H. assert (0 < inject_Z (fl_mant y))%Q as P by (change 0%Q with (inject_Z 0); rewrite <-Zlt_Qlt; lia).
  apply (Qmult_le_r _ _ _ P). rewrite <-quotient_value. unfold fval. cbn [fl_mant fl_exp].
  pose proof (pow2_pos e). rewrite Zle_Qle, (inject_Z_mult a) in H. nra.
Qed.
Lemma quotient_ge a : 2 * n <= a * fl_mant y -> (fval x / fval y <= fval (mkFloat a e))%Q.
Proof.
  intros H. assert (0 < inject_Z (fl_mant y))%Q as P by (change 0%Q with (inject_Z 0); rewrite <-Zlt_Qlt; lia).
  apply (Qmult_le_r _ _ _ P). rewrite <-quotient_value. unfold fval. cbn [fl_mant fl_exp].
  pose proof (pow2_pos e). rewrite Zle_Qle, (inject_Z_mult a) in H. nra.
Qed.

Lemma quotient_bits : 0 < Z.log2 (Z.abs m) + 1 - ProbabilityPrecisionBits.
Proof.
  pose proof (quotient_long x y Hx Hy) as L. fold s in L. fold n in L. fold q in L.
  assert (2 ^ ProbabilityPrecisionBits <= Z.abs m) as B by (unfold m; destruct (r =? 0); lia).
  apply Z.log2_le_mono in B. rewrite Z.log2_pow2 in B by (unfold ProbabilityPrecisionBits; lia). lia.
Qed.

Lemma Quo_down : (fval (Quo ToNegativeInf x y) <= fval x / fval y)%Q.
Proof.
  unfold Quo. fold s. fold n. fold q. fold r. fold m. fold e. unfold round.
  pose proof quotient_bits as E. rewrite (proj2 (Z.leb_gt _ _) E).
  set (k := Z.log2 (Z.abs m) + 1 - ProbabilityPrecisionBits) in *. cbn [rounds_up].
  destruct (shift_parts m k E) as [-> _]. rewrite <-fval_shift by lia. apply quotient_le.
  replace k with (1 + (k - 1)) by lia. rewrite Z.pow_add_r by lia. change (2 ^ 1) with 2.
  assert (m / (2 * 2 ^ (k - 1)) = q / 2 ^ (k - 1)) as ->.
  { rewrite <-Z.div_div by lia. f_equal. unfold m. clear. destruct (r =? 0); Z.to_euclidean_division_equations; lia. }
  pose proof (Z.mul_div_le q (2 ^ (k - 1)) ltac:(lia)). pose proof (Z.mul_div_le n (fl_mant y) Hy) as N.
  fold q in N. nia.
Qed.

Lemma Quo_up : (fval x / fval y <= fval (Quo ToPositiveInf x y))%Q.
Proof.
  unfold Quo. fold s. fold n. fold q. fold r. fold m. fold e. unfold round.
  pose proof quotient_bits as E. rewrite (proj2 (Z.leb_gt _ _) E).
  set (k := Z.log2 (Z.abs m) + 1 - ProbabilityPrecisionBits) in *. cbn [rounds_up].
  destruct (shift_parts m k E) as [-> ->]. rewrite <-fval_shift by lia. apply quotient_ge.
  pose proof (Z.div_mod n (fl_mant y) ltac:(lia)) as D. fold q in D. fold r in D.
  pose proof (Z.mod_pos_bound n (fl_mant y) Hy) as R. fold r in R.
  pose proof (Z.div_mod m (2 ^ k) ltac:(lia)) as M. pose proof (Z.mod_pos_bound m (2 ^ k) ltac:(lia)) as B.
  assert (2 ^ k = 2 * 2 ^ (k - 1)) as K by (rewrite <-Z.pow_succ_r by lia; f_equal; lia).
  rewrite K in *. set (P := 2 ^ (k - 1)) in *. set (D' := m / (2 * P)) in *. set (M' := m mod (2 * P)) in *.
  assert (m = 2 * (P * D') + M') as M2 by lia. clearbody P D' M'.
  destruct (M' =? 0) eqn:Z0; cbn [negb].
  - apply Z.eqb_eq in Z0. assert (r = 0) as R0 by (unfold m in M2; destruct (r =? 0) eqn:E0; lia).
    assert (q = P * D') as Hq by (unfold m in M2; destruct (r =? 0) eqn:E0; lia).
    replace (D' * (2 * P) * fl_mant y) with (2 * (fl_mant y * (P * D'))) by ring. rewrite <-Hq. lia.
  - apply Z.eqb_neq in Z0. assert (2 * q + 2 <= (D' + 1) * (2 * P)) as L; [|nia].
    replace ((D' + 1) * (2 * P)) with (2 * (P * D') + 2 * P) by ring.
    unfold m in M2. destruct (r =? 0); lia.
Qed.
End quotient.

Lemma Quo_nonneg mode x y : 0 < fl_mant x -> 0 < fl_mant y -> 0 <= fl_mant (Quo mode x y).
Proof.
  intros Hx Hy. apply round_nonneg.
  assert (0 <= Z.shiftl (fl_mant x) (Z.max 0 (ProbabilityPrecisionBits + 1 + Z.log2 (fl_mant y) - Z.log2 (fl_mant x)))
    / fl_mant y) by (apply Z.div_pos; [apply Z.shiftl_nonneg|]; lia).
  destruct (_ =? 0); lia.
Qed.

(** ** The product of the draws *)
Definition frac (m : Z * Z) : Q := (inject_Z (fst m) / inject_Z (snd m))%Q.

Lemma inject_pos n : 0 < n -> (0 < inject_Z n)%Q.
Proof. intros. change 0%Q with (inject_Z 0). rewrite <-Zlt_Qlt. lia. Qed.

Lemma frac_nonneg n d : 0 <= n -> 0 < d -> (0 <= frac (n, d))%Q.
Proof.
  intros Hn Hd. unfold frac. simpl. apply Qle_shift_div_l; [apply inject_pos; lia|].
  change 0%Q with (inject_Z 0). rewrite Qmult_0_l. change 0%Q with (inject_Z 0). rewrite <-Zle_Qle. lia.
Qed.

Lemma miss_interval draws universe blocked ordinal lo hi n d :
  0 <= ordinal -> 0 <= blocked -> blocked + ordinal + Z.of_nat draws <= universe ->
  0 <= fl_mant lo -> 0 <= fl_mant hi -> 0 <= n -> 0 < d ->
  (fval lo <= frac (n, d) <= fval hi)%Q ->
  let '(lo', hi') := miss_loop draws universe blocked ordinal lo hi in
  let m := exact_miss draws universe blocked ordinal (n, d) in
  (fval lo' <= frac m <= fval hi')%Q /\ 0 <= fl_mant lo' /\ 0 <= fst m /\ 0 < snd m.
Proof.
  revert ordinal lo hi n d. induction draws as [|draws IH]; intros ordinal lo hi n d Ho Hb Hu Hlo Hhi Hn Hd I.
  { simpl. auto. }
  cbn [miss_loop exact_miss fst snd].
  set (nu := universe - blocked - ordinal). set (de := universe - ordinal).
  assert (0 < nu /\ 0 < de) as [Hnu Hde] by lia.
  assert (0 < fl_mant (SetInt nu) /\ 0 < fl_mant (SetInt de)) as [Pn Pd] by (simpl; lia).
  pose proof (Quo_down _ _ Pn Pd) as Qd. pose proof (Quo_up _ _ Pn Pd) as Qu.
  rewrite !fval_int in Qd, Qu.
  assert (frac ((n * nu)%Z, (d * de)%Z) == frac (n, d) * (inject_Z nu / inject_Z de))%Q as F.
  { unfold frac. simpl. rewrite !inject_Z_mult. pose proof (inject_pos d Hd). pose proof (inject_pos de Hde).
    field. split; lra. }
  pose proof (frac_nonneg n d Hn Hd) as N. pose proof (inject_pos _ Hnu). pose proof (inject_pos _ Hde).
  pose proof (fval_nonneg _ Hlo). pose proof (fval_nonneg _ (Quo_nonneg ToNegativeInf _ _ Pn Pd)).
  apply IH; try lia; try (apply Mul_nonneg; auto using Quo_nonneg); try nia.
  rewrite F. split.
  - eapply Qle_trans; [apply Mul_down|]. nra.
  - eapply Qle_trans; [|apply Mul_up]. apply Qmult_le_compat_nonneg; split; lra.
Qed.

(** ** The interval *)
Lemma Rat_value x : (fval x == frac (Rat x))%Q /\ 0 < snd (Rat x).
Proof.
  unfold Rat, frac. destruct (0 <=? fl_exp x) eqn:E; cbn [fst snd].
  - apply Z.leb_le in E. split; [|lia]. unfold fval.
    rewrite Z.shiftl_mul_pow2, inject_Z_mult, <-pow2_Z by lia. change (inject_Z 1) with 1%Q. field.
  - apply Z.leb_gt in E. rewrite Z.shiftl_1_l. split; [|lia]. unfold fval.
    rewrite <-pow2_Z by lia. rewrite <-(Z.opp_involutive (fl_exp x)) at 1. rewrite Qpower_opp.
    pose proof (pow2_pos (- fl_exp x)). field. lra.
Qed.

(** The exact probability that two draws collide. *)
Definition exact_success (universe blocked draws : Z) : Q :=
  (1 - frac (exact_miss (Z.to_nat draws) universe blocked 0 (1%Z, 1%Z)))%Q.

Lemma success_sound universe blocked draws :
  0 <= blocked -> 0 <= draws -> blocked + draws <= universe ->
  let '(lower, upper) := success_interval universe blocked draws in
  (fval lower <= exact_success universe blocked draws <= fval upper)%Q /\ 0 <= fl_mant lower.
Proof.
  intros Hb Hd Hu. unfold success_interval, exact_success.
  pose proof (miss_interval (Z.to_nat draws) universe blocked 0 (SetInt 1) (SetInt 1) 1 1) as I.
  destruct (miss_loop _ _ _ _ _ _) as [lo hi]. cbv zeta in I.
  destruct I as ([I1 I2] & Hlo & Hn & Hs); try (simpl; lia); [split; vm_compute; discriminate|].
  pose proof (Sub_down (SetInt 1) hi) as Sd. pose proof (Sub_up (SetInt 1) lo) as Su.
  rewrite fval_int in Sd, Su. change (inject_Z 1) with 1%Q in Sd, Su.
  set (n := exact_miss _ _ _ _ _) in *. destruct (Rat_value (Sub ToPositiveInf (SetInt 1) lo)) as [Rv Rp].
  destruct (Rat (Sub ToPositiveInf (SetInt 1) lo)) as [num den]. cbn [snd] in Rp.
  assert (0 <= frac n)%Q by (destruct n; apply frac_nonneg; assumption).
  assert (frac n <= 1)%Q.
  { clear -Hb Hd Hu. subst n.
    assert (forall k o a b, 0 <= a -> a <= b -> 0 < b -> 0 <= o -> blocked + o + Z.of_nat k <= universe ->
      fst (exact_miss k universe blocked o (a, b)) <= snd (exact_miss k universe blocked o (a, b)) /\
      0 < snd (exact_miss k universe blocked o (a, b))) as G.
    { induction k as [|k IH]; intros o a b Ha Hab Hb' Ho Hk; [simpl; lia|]. cbn [exact_miss fst snd].
      apply IH; nia. }
    destruct (G (Z.to_nat draws) 0 1 1) as [G1 G2]; try lia.
    unfold frac. apply Qle_shift_div_r; [apply inject_pos; assumption|]. rewrite Qmult_1_l, <-Zle_Qle. assumption. }
  split; [split|].
  - destruct (_ <? 0); [rewrite fval_int; change (inject_Z 0) with 0%Q; lra|lra].
  - destruct (den <? num); [rewrite fval_int; change (inject_Z 1) with 1%Q; lra|lra].
  - destruct (_ <? 0) eqn:E; [simpl; lia|]. apply Z.ltb_ge in E. assumption.
Qed.

Lemma floorScaled_le x scale :
  0 < scale -> 0 <= fl_mant x -> (inject_Z (floorScaled x scale) <= inject_Z scale * fval x)%Q /\ 0 <= floorScaled x scale.
Proof.
  intros Hs Hx. unfold floorScaled. destruct (_ <=? 0) eqn:E.
  { split; [|lia]. apply Qmult_le_0_compat; [apply Qlt_le_weak, inject_pos; assumption|apply fval_nonneg; assumption]. }
  assert (0 <= fl_mant (Mul ToNegativeInf x (SetInt scale))) as M by (apply Mul_nonneg; simpl; lia).
  pose proof (Mul_down x (SetInt scale)) as D. rewrite fval_int in D.
  pose proof (fval_nonneg _ M) as N.
  destruct (Rat_value (Mul ToNegativeInf x (SetInt scale))) as [Rv Rp].
  destruct (Rat (Mul ToNegativeInf x (SetInt scale))) as [num den]. cbn [snd] in Rp.
  assert (0 <= num) as Hnum.
  { rewrite Rv in N. unfold frac in N. cbn [fst snd] in N. apply (Qmult_le_compat_r _ _ (inject_Z den)) in N;
      [|apply Qlt_le_weak, inject_pos; assumption]. rewrite Qmult_0_l, Qmult_comm, Qmult_div_r in N
      by (pose proof (inject_pos den Rp); lra). rewrite Zle_Qle. exact N. }
  split; [|apply Z.min_glb; [apply Z.div_pos; assumption|lia]].
  apply Qle_trans with (fval (Mul ToNegativeInf x (SetInt scale))); [|lra]. rewrite Rv.
  apply Qle_trans with (inject_Z (num / den)); [rewrite <-Zle_Qle; lia|].
  unfold frac. apply Qle_shift_div_l; [apply inject_pos; assumption|].
  cbn [fst snd]. rewrite <-inject_Z_mult, <-Zle_Qle, Z.mul_comm. apply Z.mul_div_le. lia.
Qed.

Lemma directed_bound x digits :
  0 <= digits ->
  (inject_Z (directed_scaled x digits false) <= fval x * inject_Z (10 ^ digits)
   <= inject_Z (directed_scaled x digits true))%Q.
Proof.
  intros Hd. unfold directed_scaled. destruct (Rat_value x) as [Rv Rp]. rewrite Rv.
  destruct (Rat x) as [num den]. cbn [snd] in Rp. unfold frac. cbn [fst snd].
  pose proof (inject_pos den Rp) as P.
  assert (inject_Z num / inject_Z den * inject_Z (10 ^ digits) == inject_Z (num * 10 ^ digits) / inject_Z den)%Q as ->.
  { rewrite inject_Z_mult. field. lra. }
  set (n := num * 10 ^ digits). pose proof (Z.div_mod n den ltac:(lia)). pose proof (Z.mod_pos_bound n den Rp).
  split.
  - apply Qle_shift_div_l; [assumption|]. rewrite <-inject_Z_mult, <-Zle_Qle. simpl. nia.
  - apply Qle_shift_div_r; [assumption|]. rewrite <-inject_Z_mult, <-Zle_Qle.
    destruct (n mod den =? 0) eqn:E; simpl; [apply Z.eqb_eq in E|]; nia.
Qed.

(** The report [p] of a probability [s / d]: its decimals enclose it and its
    parts per trillion are below it. *)
Definition encloses (p : Probability) (s d : Z) : Prop :=
  (exists lo hi, pb_LowerDecimal p = fixed_decimal probabilityDecimalDigits lo /\
     pb_UpperDecimal p = fixed_decimal probabilityDecimalDigits hi /\
     lo * d <= s * 10 ^ probabilityDecimalDigits <= hi * d) /\
  0 <= pb_FloorPartsPerTrillion p /\ pb_FloorPartsPerTrillion p * d <= ProbabilityScale * s.

Lemma directedDecimal_lower x : 0 <= fl_mant x ->
  directedDecimal x probabilityDecimalDigits false
  = fixed_decimal probabilityDecimalDigits (directed_scaled x probabilityDecimalDigits false).
Proof.
  intros Hx. unfold directedDecimal. destruct (_ <=? 0) eqn:E; [|reflexivity].
  apply Z.leb_le in E. assert (fl_mant x = 0) as Z0 by lia. unfold directed_scaled, Rat. rewrite Z0.
  destruct (0 <=? fl_exp x); rewrite ?Z.shiftl_0_l; reflexivity.
Qed.

Lemma directedDecimal_upper x : 0 <= fl_mant x ->
  directedDecimal x probabilityDecimalDigits true
  = fixed_decimal probabilityDecimalDigits (directed_scaled x probabilityDecimalDigits true).
Proof.
  intros Hx. unfold directedDecimal. destruct (_ <=? 0) eqn:E; [|reflexivity].
  apply Z.leb_le in E. assert (fl_mant x = 0) as Z0 by lia. unfold directed_scaled, Rat. rewrite Z0.
  destruct (0 <=? fl_exp x); rewrite ?Z.shiftl_0_l; reflexivity.
Qed.

Lemma boundary_encloses universe left right one d :
  0 < d -> encloses (exactBoundaryProbability universe left right one) (if one then d else 0) d.
Proof.
  intros Hd. unfold encloses, exactBoundaryProbability. cbn [pb_LowerDecimal pb_UpperDecimal pb_FloorPartsPerTrillion].
  destruct one.
  - split; [|unfold ProbabilityScale; lia]. exists (10 ^ 50), (10 ^ 50).
    split; [reflexivity|]. split; [reflexivity|]. unfold probabilityDecimalDigits. lia.
  - split; [|lia]. exists 0, 0. split; [reflexivity|]. split; [reflexivity|]. lia.
Qed.

Lemma Z_of_Q_bound a b d : 0 < d -> (inject_Z a <= inject_Z b / inject_Z d)%Q -> a * d <= b.
Proof.
  intros Hd H. rewrite Zle_Qle, inject_Z_mult. pose proof (inject_pos d Hd).
  apply (Qmult_le_compat_r _ _ (inject_Z d)) in H; [|lra]. eapply Qle_trans; [exact H|].
  rewrite Qmult_comm, Qmult_div_r by lra. apply Qle_refl.
Qed.
Lemma Z_of_Q_bound' a b d : 0 < d -> (inject_Z b / inject_Z d <= inject_Z a)%Q -> b <= a * d.
Proof.
  intros Hd H. rewrite Zle_Qle, inject_Z_mult. pose proof (inject_pos d Hd).
  apply (Qmult_le_compat_r _ _ (inject_Z d)) in H; [|lra]. eapply Qle_trans; [|exact H].
  rewrite (Qmult_comm (_ / _)), Qmult_div_r by lra. apply Qle_refl.
Qed.

Lemma exact_miss_pos k universe blocked o m :
  0 <= o -> 0 <= blocked -> o + Z.of_nat k <= universe -> 0 < snd m -> 0 < snd (exact_miss k universe blocked o m).
Proof.
  revert o m. induction k as [|k IH]; intros o m Ho Hb Hu Hm; [assumption|]. cbn [exact_miss].
  apply IH; try lia. cbn [snd]. nia.
Qed.

Lemma interval_encloses universe blocked draws left right prec exact :
  0 <= blocked -> 0 <= draws -> blocked + draws <= universe ->
  let '(lower, upper) := success_interval universe blocked draws in
  let '(n, d) := exact_miss (Z.to_nat draws) universe blocked 0 (1, 1) in
  encloses (mkProbability universe left right prec (directedDecimal lower probabilityDecimalDigits false)
              (directedDecimal upper probabilityDecimalDigits true) (floorScaled lower ProbabilityScale) exact)
    (d - n) d /\ 0 < d.
Proof.
  intros Hb Hd Hu. pose proof (success_sound universe blocked draws Hb Hd Hu) as S.
  pose proof (exact_miss_pos (Z.to_nat draws) universe blocked 0 (1, 1)) as Hp.
  destruct (success_interval _ _ _) as [lower upper]. destruct S as [[S1 S2] Hl].
  unfold exact_success in *. destruct (exact_miss _ _ _ _ _) as [n d]. cbn [snd] in Hp.
  specialize (Hp ltac:(lia) Hb ltac:(lia) ltac:(lia)). split; [|assumption].
  pose proof (inject_pos d Hp) as P.
  assert (1 - frac (n, d) == inject_Z (d - n) / inject_Z d)%Q as E.
  { unfold frac. cbn [fst snd]. change (d - n) with (d + - n). rewrite inject_Z_plus, inject_Z_opp. field. lra. }
  rewrite E in S1, S2.
  assert (0 <= fl_mant upper) as Hup.
  { apply fval_sign. pose proof (fval_nonneg _ Hl). lra. }
  destruct (floorScaled_le lower ProbabilityScale ltac:(reflexivity) Hl) as [F1 F2].
  destruct (directed_bound lower probabilityDecimalDigits ltac:(unfold probabilityDecimalDigits; lia)) as [D1 _].
  destruct (directed_bound upper probabilityDecimalDigits ltac:(unfold probabilityDecimalDigits; lia)) as [_ D2].
  assert (forall a, 0 < a -> (inject_Z ((d - n) * a) / inject_Z d == inject_Z (d - n) / inject_Z d * inject_Z a)%Q) as Sc.
  { intros a Ha. rewrite inject_Z_mult. field. lra. }
  split; [exists (directed_scaled lower probabilityDecimalDigits false), (directed_scaled upper probabilityDecimalDigits true)|].
  - split; [apply directedDecimal_lower; assumption|]. split; [apply directedDecimal_upper; assumption|].
    pose proof (inject_pos (10 ^ probabilityDecimalDigits) ltac:(reflexivity)).
    split; [apply Z_of_Q_bound|apply Z_of_Q_bound']; try assumption; rewrite Sc by reflexivity; nra.
  - split; [assumption|]. cbn [pb_FloorPartsPerTrillion]. rewrite (Z.mul_comm ProbabilityScale).
    apply Z_of_Q_bound; [assumption|]. rewrite Sc by reflexivity.
    pose proof (inject_pos ProbabilityScale ltac:(reflexivity)). nra.
Qed.

Lemma scale_le x y s d a m : 0 < d -> 0 <= a -> s * a = d * m -> x * d <= y * s -> x * a <= y * m.
Proof.
  intros Hd Ha E H. apply (Z.mul_le_mono_pos_r _ _ d Hd).
  replace (y * m * d) with (y * s * a) by (rewrite <-Z.mul_assoc, E; ring).
  replace (x * a * d) with (x * d * a) by ring. apply Z.mul_le_mono_nonneg_r; assumption.
Qed.

Lemma scale_ge x y s d a m : 0 < d -> 0 <= a -> s * a = d * m -> y * s <= x * d -> y * m <= x * a.
Proof.
  intros Hd Ha E H. apply (Z.mul_le_mono_pos_r _ _ d Hd).
  replace (y * m * d) with (y * s * a) by (rewrite <-Z.mul_assoc, E; ring).
  replace (x * a * d) with (x * d * a) by ring. apply Z.mul_le_mono_nonneg_r; assumption.
Qed.

Lemma encloses_scaled p s d a m : 0 < d -> 0 <= a -> encloses p s d -> s * a = d * m -> encloses p m a.
Proof.
  intros Hd Ha [(lo & hi & El & Eu & H1 & H2) [H3 H4]] E.
  rewrite (Z.mul_comm s) in H1, H2. split.
  - exists lo, hi. rewrite (Z.mul_comm m). eauto 8 using scale_le, scale_ge.
  - eauto using scale_le.
Qed.

(** The branches of the function. *)
Inductive collision_case (u l r : Z) (p : Probability) : Prop :=
| collision_none : l = 0 \/ r = 0 -> p = exactBoundaryProbability u l r false -> collision_case u l r p
| collision_forced : u < l + r -> p = exactBoundaryProbability u l r true -> collision_case u l r p
| collision_open b k n d :
    b + k <= u -> (b, k) = (l, r) \/ (b, k) = (r, l) ->
    exact_miss (Z.to_nat k) u b 0 (1, 1) = (n, d) -> encloses p (d - n) d -> 0 < d -> collision_case u l r p.

Lemma collision_cases u l r p :
  0 <= l -> 0 <= r -> CollisionProbabilityWithoutReplacement u l r = Some p ->
  l <= u /\ r <= u /\ collision_case u l r p.
Proof.
  intros Hl Hr. unfold CollisionProbabilityWithoutReplacement.
  destruct ((u =? 0) || (u <? l) || (u <? r))%bool eqn:E1; [discriminate|].
  destruct ((l =? 0) || (r =? 0))%bool eqn:E2.
  { intros [= <-]. split; [lia|]. split; [lia|]. apply collision_none; [lia|reflexivity]. }
  destruct (u - r <? l) eqn:E3.
  { intros [= <-]. split; [lia|]. split; [lia|]. apply collision_forced; [lia|reflexivity]. }
  intros E. split; [lia|]. split; [lia|].
  set (bk := if l <? r then (r, l) else (l, r)) in E.
  assert (bk = (l, r) \/ bk = (r, l)) as Hbk by (subst bk; destruct (l <? r); auto).
  destruct bk as [b k]. assert (0 <= b /\ 0 <= k /\ b + k <= u) as (Hb & Hk & Hu) by (destruct Hbk as [[= -> ->]|[= -> ->]]; lia).
  pose proof (interval_encloses u b k l r ProbabilityPrecisionBits
    (if k <=? exactRationalDrawLimit then exactCollisionRational u b k else ""%string) Hb Hk Hu) as I.
  destruct (success_interval u b k) as [lo hi]. injection E as <-.
  destruct (exact_miss _ _ _ _ _) as [n d] eqn:M. destruct I as [I Hd].
  apply (collision_open u l r _ b k n d); assumption.
Qed.

Lemma asymmetric_numbers :
  exists p, CollisionProbabilityWithoutReplacement 65535 128 512 = Some p /\
    pb_FloorPartsPerTrillion p = 633926065852.
Proof. eexists. split; [vm_compute; reflexivity|reflexivity]. Qed.

(** ** The decimals parse

    The approximation that is written always reads back, so the report of a
    probability never fails for it. *)
Fixpoint all_digits (text : string) : Prop :=
  match text with
  | EmptyString => True
  | String c text' => digit_value c <> None /\ Ascii.eqb c "." = false /\ all_digits text'
  end.

Lemma all_digits_app a b : all_digits a -> all_digits b -> all_digits (append a b).
Proof. induction a as [|c a IH]; simpl; [trivial|]. intros (H1 & H2 & H3) Hb. auto. Qed.

Lemma zeroDigits_digits n : all_digits (zeroDigits n).
Proof. induction n; simpl; [exact I|]. split; [discriminate|]. split; [reflexivity|assumption]. Qed.

Lemma uint_digits u : all_digits (NilEmpty.string_of_uint u).
Proof. induction u; simpl; try exact I; (split; [discriminate|]; split; [reflexivity|assumption]). Qed.

Lemma digits_of_digits n : all_digits (digits_of n).
Proof.
  unfold digits_of. generalize (N.to_uint (Z.to_N n)). intros u.
  destruct u; simpl; try (split; [discriminate|]; split; [reflexivity|]); try exact I; apply uint_digits.
Qed.

Lemma padded_digits k n : all_digits (padded k n).
Proof. apply all_digits_app; [apply zeroDigits_digits|apply digits_of_digits]. Qed.

Lemma parse_digits_all text point acc places :
  all_digits text -> exists r, parse_digits text point acc places = Some r.
Proof.
  revert acc places. induction text as [|c text IH]; simpl; intros acc places Hd; [eexists; reflexivity|].
  destruct Hd as (Hv & Hp & Hd). rewrite Hp. simpl. destruct (digit_value c); [apply IH; assumption|congruence].
Qed.

Lemma parse_digits_point a b acc places :
  all_digits a -> all_digits b -> exists r, parse_digits (append a (String "." b)) false acc places = Some r.
Proof.
  intros Ha Hb. revert acc places. induction a as [|c a IH]; simpl; intros acc places.
  - apply parse_digits_all. assumption.
  - destruct Ha as (Hv & Hp & Ha). rewrite Hp. simpl. destruct (digit_value c); [apply IH; assumption|congruence].
Qed.

Lemma fixed_decimal_parses digits q mode : exists x, ParseFloat (fixed_decimal digits q) mode = Some x.
Proof.
  unfold fixed_decimal. cbv zeta.
  set (a := digits_of (q / 10 ^ digits)). set (b := padded digits (q mod 10 ^ digits)).
  destruct (parse_digits_point a b 0 0 (digits_of_digits _) (padded_digits _ _)) as [[m p] E].
  unfold ParseFloat. change (append "." b) with (String "." b).
  destruct (append a (String "." b)) eqn:Ea; [destruct a; discriminate|].
  rewrite E. eexists. reflexivity.
Qed.

Lemma Poisson_parses universe left right mode :
  universe <> 0 -> exists text x, PoissonApproximation universe left right = Some text /\ ParseFloat text mode = Some x.
Proof.
  intros Hu. unfold PoissonApproximation. destruct (Z.eqb_spec universe 0); [contradiction|]. cbv zeta.
  assert (Hf : forall n d, exists x, ParseFloat (FloatString n d probabilityDecimalDigits) mode = Some x)
    by (intros; apply fixed_decimal_parses).
  destruct (_ =? 0); [destruct (Hf 0 1) as [x E]; eauto|].
  destruct (_ <=? _); [destruct (Hf 1 1) as [x E]; eauto|].
  destruct (halvings _ _ _) as [reductions b]. destruct (series _ _ _ _ _ _ _) as [sum den].
  destruct (square_times _ _ _) as [num den'].
  destruct (_ <? 0); [destruct (Hf 0 1) as [x E]; eauto|]. destruct (_ <? _); [destruct (Hf 1 1) as [x E]; eauto|].
  destruct (Hf (den' - num) den') as [x E]. eauto.
Qed.
