(* ===== verification/HardNatCount.v ===== *)
(** * Hard-NAT planning: what the probability counts

    The probability of probability.go is the share of pairs of subsets, of the
    given sizes and of a set of [U] ports, that have an element in common.  This
    file uses MathComp's finite sets. *)
From Stdlib Require Import ZArith Arith Lia.
From mathcomp Require Import boot.
From S2P Require Import HardNatArith.

Set Implicit Arguments.
Unset Strict Implicit.
Unset Printing Implicit Defensive.
Open Scope nat_scope.

Section count.
Variable U : nat.

Definition draws_of (k : nat) : {set {set 'I_U}} := [set A : {set 'I_U} | #|A| == k].

(** The pairs of draws, and those that collide. *)
Definition pairs (l r : nat) : {set {set 'I_U} * {set 'I_U}} := setX (draws_of l) (draws_of r).
Definition meeting (l r : nat) : {set {set 'I_U} * {set 'I_U}} :=
  [set p in pairs l r | p.1 :&: p.2 != set0].
Definition missing (l r : nat) : {set {set 'I_U} * {set 'I_U}} :=
  [set p in pairs l r | p.1 :&: p.2 == set0].

Lemma card_pairs l r : #|pairs l r| = 'C(U, l) * 'C(U, r).
Proof. by rewrite cardsX /draws_of !card_draws card_ord. Qed.

Lemma card_split l r : #|meeting l r| + #|missing l r| = #|pairs l r|.
Proof.
rewrite addnC -(cardsID [set p : {set 'I_U} * {set 'I_U} | p.1 :&: p.2 == set0] (pairs l r)).
by congr (_ + _); apply: eq_card => p; rewrite !inE // andbC.
Qed.

(** The draws that avoid [A]. *)
Definition avoiding (A : {set 'I_U}) (r : nat) : {set {set 'I_U}} :=
  [set B : {set 'I_U} | (B \subset ~: A) && (#|B| == r)].

Lemma missing_avoiding l r (p : {set 'I_U} * {set 'I_U}) :
  (p \in missing l r) = (p.1 \in draws_of l) && (p.2 \in avoiding p.1 r).
Proof.
case: p => A B; rewrite !inE /= -andbA; congr (_ && _); rewrite andbC; congr (_ && _).
by rewrite subsets_disjoint setCK disjoint_sym -setI_eq0.
Qed.

Lemma card_missing l r : #|missing l r| = 'C(U, l) * 'C(U - l, r).
Proof.
rewrite -sum1_card (eq_bigl _ _ (missing_avoiding l r)).
rewrite -(pair_big_dep (fun A => A \in draws_of l) (fun A B => B \in avoiding A r) (fun _ _ => 1)) /=.
have h A : A \in draws_of l -> \sum_(B in avoiding A r) 1 = 'C(U - l, r).
  by rewrite inE => /eqP hA; rewrite sum1_card cards_draws cardsCs setCK hA card_ord.
by rewrite (eq_bigr _ h) sum_nat_const /draws_of card_draws card_ord.
Qed.

Lemma missing_sym l r : #|missing l r| = #|missing r l|.
Proof.
have sK : involutive (fun p : {set 'I_U} * {set 'I_U} => (p.2, p.1)) by case.
rewrite -(card_imset _ (can_inj sK)); apply: eq_card => p.
apply/imsetP/idP => [[q + ->]|hp]; last by exists (p.2, p.1); [move: hp|case: p {hp}];
  rewrite // !inE /= setIC [(#|_| == r) && _]andbC.
by rewrite !inE /= setIC [(#|_| == l) && _]andbC.
Qed.
End count.

Lemma exact_miss_ffact k u b o (a c : Z) :
  b + o + k <= u ->
  exact_miss k (Z.of_nat u) (Z.of_nat b) (Z.of_nat o) (a, c)
  = (a * Z.of_nat ((u - b - o) ^_ k), c * Z.of_nat ((u - o) ^_ k))%Z.
Proof.
elim: k o a c => [|k IH] o a c h; first by rewrite /= !Z.mul_1_r.
have hn : (Z.of_nat u - Z.of_nat b - Z.of_nat o)%Z = Z.of_nat (u - b - o).
  by move: h; rewrite -!plusE -!minusE => /leP h; lia.
have hd : (Z.of_nat u - Z.of_nat o)%Z = Z.of_nat (u - o).
  by move: h; rewrite -!plusE -!minusE => /leP h; lia.
have ho : (Z.of_nat o + 1)%Z = Z.of_nat o.+1 by lia.
rewrite /= hn hd ho IH; first by move: h; rewrite -!plusE => /leP h; apply/leP; lia.
by rewrite !ffactnS !subnS -!multE !Nat2Z.inj_mul !Z.mul_assoc.
Qed.

(** The product over the draws is the share of the pairs that miss. *)
Lemma miss_share u b k :
  b + k <= u ->
  let m := exact_miss k (Z.of_nat u) (Z.of_nat b) 0 (1, 1)%Z in
  (fst m * Z.of_nat #|pairs u b k| = snd m * Z.of_nat #|missing u b k|)%Z.
Proof.
move=> h; rewrite -[0%Z]/(Z.of_nat 0) exact_miss_ffact ?addn0 // !subn0 !Z.mul_1_l /=.
rewrite -!Nat2Z.inj_mul card_pairs card_missing !multE; congr (Z.of_nat _).
rewrite -!bin_ffact -!multE; ring.
Qed.

(** A share of the pairs that miss is a share of those that meet. *)
Lemma meet_share u b k n d :
  (0 < d)%Z -> (n * Z.of_nat #|pairs u b k| = d * Z.of_nat #|missing u b k|)%Z ->
  ((d - n) * Z.of_nat #|pairs u b k| = d * Z.of_nat #|meeting u b k|)%Z.
Proof.
by move=> hd h; have := card_split u b k; rewrite -plusE => /(congr1 Z.of_nat); rewrite Nat2Z.inj_add; nia.
Qed.

Lemma forced_meeting u l r : l <= u -> u < l + r -> #|missing u l r| = 0.
Proof.
move=> /leP hl h; rewrite card_missing [X in _ * X]bin_small ?muln0 //.
by move: h; rewrite -plusE -minusE => /ltP h; apply/ltP; lia.
Qed.

Lemma empty_meeting u l r : l = 0 \/ r = 0 -> #|missing u l r| = #|pairs u l r|.
Proof. by move=> h; rewrite card_missing card_pairs; case: h => ->; rewrite ?bin0 ?subn0 ?bin0. Qed.

(** C15: the probability is the share of colliding draws.  Whatever the sizes of
    the universe and of the two draws, the report's decimals enclose the share
    of the pairs of subsets that meet, and the parts per trillion that decide
    admission never exceed it. *)
Theorem collision_probability_sound (u l r : nat) (p : Probability) :
  CollisionProbabilityWithoutReplacement (Z.of_nat u) (Z.of_nat l) (Z.of_nat r) = Some p ->
  encloses p (Z.of_nat #|meeting u l r|) (Z.of_nat #|pairs u l r|).
Proof.
move=> /(collision_cases _ _ _ _ (Zle_0_nat l) (Zle_0_nat r)) [hl [hr c]].
have hp : (0 < Z.of_nat #|pairs u l r|)%Z.
  have : 0 < #|pairs u l r| by rewrite card_pairs muln_gt0 !bin_gt0; apply/andP; split; apply/leP; lia.
  by move=> /ltP; lia.
have sp := card_split u l r.
case: c => [h ->|h ->|b k n d h hbk E I hd].
- have -> : #|meeting u l r| = 0; last exact: (boundary_encloses _ _ _ false _ hp).
  have := empty_meeting u (l := l) (r := r) ltac:(lia); move: sp; rewrite -plusE; lia.
- have -> : #|meeting u l r| = #|pairs u l r|; last exact: (boundary_encloses _ _ _ true _ hp).
  have h' : u < l + r by rewrite -plusE; apply/ltP; lia.
  have hl' : l <= u by apply/leP; lia.
  by have := forced_meeting hl' h'; move: sp; rewrite -plusE; lia.
- have hs (x y : nat) : x + y <= u -> exact_miss y (Z.of_nat u) (Z.of_nat x) 0 (1, 1)%Z = (n, d) ->
      ((d - n) * Z.of_nat #|pairs u x y| = d * Z.of_nat #|meeting u x y|)%Z.
    by move=> hxy M; apply: meet_share => //; have := miss_share hxy; rewrite M.
  apply: (encloses_scaled _ _ _ _ _ hd _ I); first by lia.
  have hlr : l + r <= u by rewrite -plusE; apply/leP; case: hbk => [[? ?]|[? ?]]; lia.
  case: hbk => [[eb ek]|[eb ek]]; move: E; rewrite eb ek Nat2Z.id => E; first exact: hs.
  have := hs r l ltac:(by rewrite addnC) E.
  have -> : #|pairs u r l| = #|pairs u l r| by rewrite !card_pairs mulnC.
  have -> : #|meeting u r l| = #|meeting u l r|; last by [].
  have s1 := card_split u r l; have s2 := missing_sym u l r.
  have s3 : #|pairs u r l| = #|pairs u l r| by rewrite !card_pairs mulnC.
  by move: s1 sp; rewrite -!plusE; lia.
Qed.

(** The asymmetric profile: 128 mappings against 512 targets. *)
Lemma collision_probability_sound_witness :
  (633926065852 * Z.of_nat #|pairs (Z.to_nat 65535) (Z.to_nat 128) (Z.to_nat 512)|
   <= 1000000000000 * Z.of_nat #|meeting (Z.to_nat 65535) (Z.to_nat 128) (Z.to_nat 512)|)%Z.
Proof.
case: asymmetric_numbers => p [E F].
have h1 : (0 <= 65535)%Z by lia.
have h2 : (0 <= 128)%Z by lia.
have h3 : (0 <= 512)%Z by lia.
rewrite -(Z2Nat.id _ h1) -(Z2Nat.id _ h2) -(Z2Nat.id _ h3) in E.
by case: (collision_probability_sound E) => _ [_ L]; rewrite F in L.
Defined.
