(* ===== verification/HardNatTypes.v ===== *)
(** * Hard-NAT planning: data
    (src/internal/v2/hardnatplan/types.go, encoding.go)

    The defined string types of the source are strings with their constants; a
    fixed-size array is a byte list. *)
From S2P Require Import Prelude GoStd LivenessWire HardNatArith.
Open Scope go_scope.

(** ** Constants *)
Definition MinSuccessfulAllocationSamples : Z := 8.
Definition PredictiveWindowPorts : Z := 32.
Definition MaxMonotonicDelta : Z := 32.
Definition MaxMonotonicDeltaSpread : Z := 4.
Definition DynamicPortMin : Z := 49152.
Definition DynamicPortMax : Z := 65535.
Definition DynamicPortCount : Z := DynamicPortMax - DynamicPortMin + 1.
Definition MaxEvidenceWindowMillis : Z := 5000.
Definition MaxEvidenceAgeMillis : Z := 5000.

Inductive plan_err :=
| ErrInvalidEvidence
| ErrEvidenceInsufficient
| ErrUnsupportedEvidence
| ErrUnsupportedProfile
| ErrInsufficientBudget
| ErrInvalidPlannerKey
| ErrRemoteControlField
| ErrPlanMismatch
| ErrInvalidProbabilityInput
| ErrProbabilityInputOverflow
| ErrRFC5780Message
| ErrRFC5780Order.

Definition MappingUnknown : string := "mapping_unknown".
Definition MappingEIM : string := "eim".
Definition MappingADM : string := "adm".
Definition MappingAPDM : string := "apdm".
Definition mapping_valid (b : string) : bool :=
  bool_decide (b = MappingEIM) || bool_decide (b = MappingADM) || bool_decide (b = MappingAPDM).
Definition endpointDependent (b : string) : bool :=
  bool_decide (b = MappingADM) || bool_decide (b = MappingAPDM).

Definition FilteringUnknown : string := "filtering_unknown".
Definition FilteringEIF : string := "eif".
Definition FilteringADF : string := "adf".
Definition FilteringAPDF : string := "apdf".
Definition filtering_valid (b : string) : bool :=
  bool_decide (b = FilteringEIF) || bool_decide (b = FilteringADF) || bool_decide (b = FilteringAPDF).

Definition AllocationSequentialUniform : string := "sequential_uniform".
Definition AllocationMonotonicNonuniform : string := "monotonic_nonuniform".
Definition AllocationApparentlyRandom : string := "apparently_random".
Definition AllocationInsufficientData : string := "insufficient_data".

Definition SourceAuthorizedGateway : string := "authorized_gateway".
Definition SourceRFC5780 : string := "rfc5780".
Definition SourcePeerReflector : string := "peer_reflector".
Definition SourceLocalTomography : string := "local_tomography".
Definition strength (source : string) : Z :=
  if bool_decide (source = SourceAuthorizedGateway) then 4
  else if bool_decide (source = SourceRFC5780) then 3
  else if bool_decide (source = SourcePeerReflector) then 2
  else if bool_decide (source = SourceLocalTomography) then 1
  else 0.

Definition OriginLocalTransaction : string := "local_transaction".
Definition OriginRemoteReport : string := "remote_report".

Definition EvidenceKindMapping : string := "mapping".
Definition EvidenceKindFiltering : string := "filtering".
Definition EvidenceKindIPPooling : string := "ip_pooling".
Definition EvidenceKindAllocation : string := "allocation".
Definition EvidenceKindRFC5780 : string := "rfc5780_exchange".

Definition ProfilePredictiveEdm : string := "predictive_edm/1".
Definition ProfileAsymmetricBirthday : string := "asymmetric_birthday/1".
Definition ProfileHardBirthday : string := "hard_birthday_campaign/1".

Definition ResourcePredictive : string := "predictive_32/1".
Definition ResourceAsymmetric : string := "asymmetric_128x512/1".
Definition ResourceHard16KLab : string := "hard_16k_lab/1".
Definition ResourceHard32KCandidate : string := "hard_32k_candidate/1".

Definition RoleInitiator : string := "initiator".
Definition RoleResponder : string := "responder".
Definition RoleMappingSet : string := "mapping_set_role".
Definition RoleTargetSet : string := "target_set_role".

(** ** Addresses *)
Definition AddressFamilyIPv4 : Z := 4.
Definition AddressFamilyIPv6 : Z := 6.

Record Address := mkAddress { ad_Family : Z; ad_Bytes : list Z }.
#[export] Instance Address_eq_dec : EqDecision Address. Proof. solve_decision. Defined.

Definition zero_address : Address := mkAddress 0 (make_bytes 16).
Definition Address4 (value : list Z) : Address := mkAddress AddressFamilyIPv4 (value ++ make_bytes 12).
Definition Address6 (value : list Z) : Address := mkAddress AddressFamilyIPv6 value.

(** The bitwise or of all bytes is zero exactly when they all are. *)
Definition allZero (value : list Z) : bool := fold_left Z.lor value 0 =? 0.

Definition address_Valid (a : Address) : bool :=
  if ad_Family a =? AddressFamilyIPv4 then
    if existsb (fun value => negb (value =? 0)) (drop 4 (ad_Bytes a)) then false
    else negb (allZero (take 4 (ad_Bytes a)))
  else if ad_Family a =? AddressFamilyIPv6 then negb (allZero (ad_Bytes a))
  else false.

Definition canonicalBytes (a : Address) : list Z :=
  let length := if ad_Family a =? AddressFamilyIPv4 then 4%nat else 16%nat in
  ad_Family a :: take length (ad_Bytes a).

Record AddressPort := mkAddressPort { ap_Address : Address; ap_Port : Z }.
#[export] Instance AddressPort_eq_dec : EqDecision AddressPort. Proof. solve_decision. Defined.

Definition zero_endpoint : AddressPort := mkAddressPort zero_address 0.
Definition endpoint_Valid (e : AddressPort) : bool := address_Valid (ap_Address e) && negb (ap_Port e =? 0).

(** ** Encoding *)
Definition appendUint16 (value : Z) : list Z := be_encode 2 value.
Definition appendUint32 (value : Z) : list Z := be_encode 4 value.
Definition appendUint64 (value : Z) : list Z := be_encode 8 value.
Definition appendInt64 (value : Z) : list Z := appendUint64 (wrap 64 value).
Definition appendBytes (value : list Z) : list Z := appendUint32 (blen value) ++ value.
Definition appendString (value : string) : list Z := appendBytes (string_bytes value).
Definition appendAddress (a : Address) : list Z := canonicalBytes a.
Definition appendBool (b : bool) : list Z := [if b then 1 else 0].

(** ** Evidence *)
Record EvidenceMeta := mkMeta {
  em_Source : string;
  em_Origin : string;
  em_ObserverAddress : Address;
  em_ObserverPort : Z;
  em_SocketSlot : Z;
  em_TransactionID : list Z;
  em_AttemptDigest : list Z;
  em_Generation : Z;
  em_ObservedAtMilli : Z;
}.
Record MappingEvidence := mkMapping { me_Meta : EvidenceMeta; me_Behavior : string }.
Record FilteringEvidence := mkFiltering { fe_Meta : EvidenceMeta; fe_Behavior : string }.
Record IPPoolingEvidence := mkIPPooling { pe_Meta : EvidenceMeta; pe_Stable : bool; pe_PoolDigest : list Z }.
Record AllocationSample := mkSample {
  as_Meta : EvidenceMeta;
  as_SocketSlot : Z;
  as_Ordinal : Z;
  as_MappedAddress : Address;
  as_MappedPort : Z;
  as_Success : bool;
}.
Record RFC5780Exchange := mkExchange {
  ex_Step : string;
  ex_TransactionID : list Z;
  ex_RequestDestination : AddressPort;
  ex_ResponseSource : AddressPort;
  ex_ObservedAtMilli : Z;
  ex_Received : bool;
  ex_Request : list Z;
  ex_Response : list Z;
}.
(** The exchanges are an array of [RFC5780ExchangeCount] elements. *)
Record RFC5780Transcript := mkTranscript {
  ts_Origin : string;
  ts_SocketSlot : Z;
  ts_Exchanges : list RFC5780Exchange;
}.
Record IssuedTransaction := mkIssued {
  is_Kind : string;
  is_TransactionID : list Z;
  is_Source : string;
  is_Observer : AddressPort;
  is_SocketSlot : Z;
  is_Ordinal : Z;
  is_NotBeforeMilli : Z;
  is_NotAfterMilli : Z;
}.
Record TrustedValidationContext := mkTrusted {
  tv_NowMilli : Z;
  tv_ExpectedAttemptDigest : list Z;
  tv_ExpectedMachineScopeDigest : list Z;
  tv_ExpectedPeerDigest : list Z;
  tv_ExpectedObservationSetDigest : list Z;
  tv_ExpectedSocketOwnerDigest : list Z;
  tv_ExpectedGeneration : Z;
  tv_ExpectedStartedAtMilli : Z;
  tv_ExpectedFinishedAtMilli : Z;
  tv_ExpectedExpiresAtMilli : Z;
  tv_Issued : list IssuedTransaction;
}.
Record EvidenceGraph := mkGraph {
  eg_AttemptDigest : list Z;
  eg_MachineScopeDigest : list Z;
  eg_PeerDigest : list Z;
  eg_ObservationSetDigest : list Z;
  eg_SocketOwnerDigest : list Z;
  eg_Generation : Z;
  eg_StartedAtMilli : Z;
  eg_FinishedAtMilli : Z;
  eg_ExpiresAtMilli : Z;
  eg_Mapping : list MappingEvidence;
  eg_Filtering : list FilteringEvidence;
  eg_IPPooling : list IPPoolingEvidence;
  eg_Allocation : list AllocationSample;
  eg_RFC5780 : list RFC5780Transcript;
}.
Record StateModel := mkModel {
  sm_Mapping : string;
  sm_MappingSource : string;
  sm_Filtering : string;
  sm_FilteringSource : string;
  sm_Allocation : string;
  sm_PublicAddressStable : bool;
  sm_SuccessfulSamples : Z;
  sm_FailedSamples : Z;
  sm_ObserverAddressCount : Z;
  sm_HasAlternatePort : bool;
  sm_MinimumDelta : Z;
  sm_MaximumDelta : Z;
  sm_PredictedNextPort : Z;
  sm_ResidualUniverse : Z;
  sm_AllocationLimitation : string;
  sm_PredictedSourcePorts : list Z;
  sm_ReusableEndpoint : AddressPort;
  sm_ReusableEndpointSlot : Z;
  sm_EvidenceDigest : list Z;
  sm_RawEvidenceDigest : list Z;
  sm_ValidationDigest : list Z;
  sm_ExpiresAtMilli : Z;
  sm_Conditional : bool;
  sm_Coverage : string;
}.
Definition zero_digest : list Z := make_bytes 32.

#[export] Instance EvidenceMeta_eq_dec : EqDecision EvidenceMeta. Proof. solve_decision. Defined.
#[export] Instance MappingEvidence_eq_dec : EqDecision MappingEvidence. Proof. solve_decision. Defined.
#[export] Instance FilteringEvidence_eq_dec : EqDecision FilteringEvidence. Proof. solve_decision. Defined.
#[export] Instance IPPoolingEvidence_eq_dec : EqDecision IPPoolingEvidence. Proof. solve_decision. Defined.
#[export] Instance AllocationSample_eq_dec : EqDecision AllocationSample. Proof. solve_decision. Defined.

(** ** Plans *)
Record Cost := mkPlanCost {
  ct_Sockets : Z;
  ct_Targets : Z;
  ct_FiveTuples : Z;
  ct_Packets : Z;
  ct_PacketsPerSecond : Z;
  ct_ActiveMillis : Z;
}.
Definition zero_cost : Cost := mkPlanCost 0 0 0 0 0 0.
Definition admits (budget cost : Cost) : bool :=
  (ct_Sockets cost <=? ct_Sockets budget) && (ct_Targets cost <=? ct_Targets budget)
  && (ct_FiveTuples cost <=? ct_FiveTuples budget) && (ct_Packets cost <=? ct_Packets budget)
  && (ct_PacketsPerSecond cost <=? ct_PacketsPerSecond budget)
  && (ct_ActiveMillis cost <=? ct_ActiveMillis budget).

Record Candidate := mkPlanCandidate {
  cn_Role : string;
  cn_SocketSlot : Z;
  cn_Ordinal : Z;
  cn_ExpectedSourcePort : Z;
  cn_TargetPort : Z;
}.
Record Universe := mkUniverse { un_Name : string; un_Min : Z; un_Max : Z; un_Count : Z }.
Definition zero_universe : Universe := mkUniverse "" 0 0 0.

Record ProbabilityReport := mkReport {
  rp_Model : string;
  rp_Universe : string;
  rp_Assumptions : string;
  rp_Conditional : bool;
  rp_ModelCoverage : string;
  rp_Primary : Probability;
  rp_FullRangeBaseline : Probability;
  rp_PoissonApproximation : string;
  rp_ApproximationDelta : string;
}.
Definition zero_probability : Probability := mkProbability 0 0 0 0 "" "" 0 "".
Definition zero_report : ProbabilityReport :=
  mkReport "" "" "" false "" zero_probability zero_probability "" "".

Record Plan := mkPlan {
  pn_Profile : string;
  pn_ResourceClass : string;
  pn_Role : string;
  pn_Generation : Z;
  pn_Universe : Universe;
  pn_Cost : Cost;
  pn_Candidates : list Candidate;
  pn_Probability : ProbabilityReport;
  pn_EvidenceDigest : list Z;
  pn_CostDigest : list Z;
  pn_PlanDigest : list Z;
  pn_Executable : bool;
}.
Record DigestTriple := mkTriple { dt_Plan : list Z; dt_Cost : list Z; dt_Evidence : list Z }.
Definition Digests (p : Plan) : DigestTriple := mkTriple (pn_PlanDigest p) (pn_CostDigest p) (pn_EvidenceDigest p).

Record AttemptContext := mkAttemptContext { ac_AttemptDigest : list Z; ac_Generation : Z; ac_Role : string }.
Record PlannerKeyContext := mkKeyContext {
  kc_AttemptDigest : list Z;
  kc_Generation : Z;
  kc_Profile : string;
  kc_ResourceClass : string;
  kc_FirstEvidenceDigest : list Z;
  kc_SecondEvidenceDigest : list Z;
}.
Record SourceSlot := mkSlot { sl_SocketSlot : Z; sl_Ordinal : Z; sl_ExpectedPublicSourcePort : Z }.

Record LocalSourceCommitment := mkCommitment {
  lc_Profile : string;
  lc_ResourceClass : string;
  lc_Role : string;
  lc_AttemptDigest : list Z;
  lc_Generation : Z;
  lc_SourceSlots : list SourceSlot;
  lc_ReceiveEndpoint : AddressPort;
  lc_Universe : Universe;
  lc_Cost : Cost;
  lc_Probability : ProbabilityReport;
  lc_EvidenceDigest : list Z;
  lc_ValidationDigest : list Z;
  lc_CostDigest : list Z;
  lc_SourceDigest : list Z;
  lc_Executable : bool;
}.
Record LocalCommitmentInput := mkLocalInput {
  li_Profile : string;
  li_ResourceClass : string;
  li_Context : AttemptContext;
  li_Evidence : EvidenceGraph;
  li_Validation : TrustedValidationContext;
  li_Budget : Cost;
}.
Record DirectionalCommitment := mkDirection { dc_Role : string; dc_SourceDigest : list Z; dc_Triple : DigestTriple }.
(** The two directions are an array. *)
Record JointPlanCommitment := mkJointCommitment {
  jc_Profile : string;
  jc_ResourceClass : string;
  jc_AttemptDigest : list Z;
  jc_Generation : Z;
  jc_First : DirectionalCommitment;
  jc_Second : DirectionalCommitment;
  jc_JointDigest : list Z;
}.
Record BilateralPlan := mkBilateral {
  bp_Profile : string;
  bp_ResourceClass : string;
  bp_AttemptDigest : list Z;
  bp_Generation : Z;
  bp_First : Plan;
  bp_Second : Plan;
  bp_FirstSource : list Z;
  bp_SecondSource : list Z;
  bp_JointDigest : list Z;
}.

#[export] Instance Cost_eq_dec : EqDecision Cost. Proof. solve_decision. Defined.
#[export] Instance Candidate_eq_dec : EqDecision Candidate. Proof. solve_decision. Defined.
#[export] Instance Universe_eq_dec : EqDecision Universe. Proof. solve_decision. Defined.
#[export] Instance Probability_eq_dec : EqDecision Probability. Proof. solve_decision. Defined.
#[export] Instance ProbabilityReport_eq_dec : EqDecision ProbabilityReport. Proof. solve_decision. Defined.
#[export] Instance DigestTriple_eq_dec : EqDecision DigestTriple. Proof. solve_decision. Defined.
#[export] Instance DirectionalCommitment_eq_dec : EqDecision DirectionalCommitment.
Proof. solve_decision. Defined.
#[export] Instance JointPlanCommitment_eq_dec : EqDecision JointPlanCommitment. Proof. solve_decision. Defined.

Definition PlanForRole (b : BilateralPlan) (role : string) : option Plan :=
  if bool_decide (pn_Role (bp_First b) = role) then Some (bp_First b)
  else if bool_decide (pn_Role (bp_Second b) = role) then Some (bp_Second b) else None.

Definition Commitment (b : BilateralPlan) : JointPlanCommitment :=
  mkJointCommitment (bp_Profile b) (bp_ResourceClass b) (bp_AttemptDigest b) (bp_Generation b)
    (mkDirection (pn_Role (bp_First b)) (bp_FirstSource b) (Digests (bp_First b)))
    (mkDirection (pn_Role (bp_Second b)) (bp_SecondSource b) (Digests (bp_Second b)))
    (bp_JointDigest b).

(** The roles of a profile, in their order. *)
Definition profile_roles (profile : string) : option (string * string) :=
  if bool_decide (profile = ProfilePredictiveEdm) || bool_decide (profile = ProfileHardBirthday)
  then Some (RoleInitiator, RoleResponder)
  else if bool_decide (profile = ProfileAsymmetricBirthday) then Some (RoleMappingSet, RoleTargetSet)
  else None.

Definition validateRole (profile role : string) : option plan_err :=
  match profile_roles profile with
  | Some (first, second) =>
      if bool_decide (role = first) || bool_decide (role = second) then None else Some ErrUnsupportedProfile
  | None => Some ErrUnsupportedProfile
  end.

Definition direction_nonzero (d : DirectionalCommitment) : bool :=
  negb (allZero (dc_SourceDigest d)) && negb (allZero (dt_Plan (dc_Triple d)))
  && negb (allZero (dt_Cost (dc_Triple d))) && negb (allZero (dt_Evidence (dc_Triple d))).

Definition validJointCommitmentShape (c : JointPlanCommitment) : bool :=
  if (jc_Generation c =? 0) || allZero (jc_AttemptDigest c) || allZero (jc_JointDigest c) then false
  else match profile_roles (jc_Profile c) with
       | None => false
       | Some (firstRole, secondRole) =>
           if (bool_decide (jc_Profile c = ProfilePredictiveEdm)
               && negb (bool_decide (jc_ResourceClass c = ResourcePredictive)))
              || (bool_decide (jc_Profile c = ProfileAsymmetricBirthday)
                  && negb (bool_decide (jc_ResourceClass c = ResourceAsymmetric)))
              || (bool_decide (jc_Profile c = ProfileHardBirthday)
                  && negb (bool_decide (jc_ResourceClass c = ResourceHard16KLab))
                  && negb (bool_decide (jc_ResourceClass c = ResourceHard32KCandidate)))
           then false
           else if negb (bool_decide (dc_Role (jc_First c) = firstRole))
                   || negb (bool_decide (dc_Role (jc_Second c) = secondRole))
           then false
           else direction_nonzero (jc_First c) && direction_nonzero (jc_Second c)
       end.

(** Tests on the names of profiles, resource classes and roles that are known. *)
Ltac name_test a b tac :=
  let v := eval vm_compute in (bool_decide (a = b :> string)) in
  lazymatch v with true => idtac | false => idtac end;
  let E := fresh in
  assert (E : bool_decide (a = b :> string) = v) by (vm_compute; reflexivity);
  tac E; clear E.
Ltac name_tests :=
  repeat match goal with
  | |- context [bool_decide (?a = ?b :> string)] => name_test a b ltac:(fun E => rewrite !E)
  | Hx : context [bool_decide (?a = ?b :> string)] |- _ => name_test a b ltac:(fun E => rewrite !E in Hx)
  end; cbn [andb orb negb] in *.
