(* ===== verification/HardNatStun.v ===== *)
(** * Hard-NAT planning: RFC 5780 messages and discovery
    (src/internal/v2/hardnatplan/rfc5780.go, rfc5780_evidence.go) *)
From S2P Require Import Prelude GoStd LivenessWire HardNatArith HardNatTypes.
Open Scope go_scope.

Definition stunBindingRequest : Z := 1.
Definition stunBindingSuccess : Z := 257.
Definition stunMagicCookie : Z := 554869826.
Definition stunHeaderBytes : Z := 20.
Definition maxBehaviorMessageBytes : Z := 1024.
Definition RFC5780ExchangeCount : Z := 5.
Definition AttributeMappedAddress : Z := 1.
Definition AttributeChangeRequest : Z := 3.
Definition AttributeXORMappedAddress : Z := 32.
Definition AttributeResponseOrigin : Z := 32811.
Definition AttributeOtherAddress : Z := 32812.

Record ChangeRequest := mkChange { cr_ChangeIP : bool; cr_ChangePort : bool }.
#[export] Instance ChangeRequest_eq_dec : EqDecision ChangeRequest. Proof. solve_decision. Defined.

Record BehaviorAttributes := mkAttributes {
  ba_Mapped : AddressPort;
  ba_ResponseOrigin : AddressPort;
  ba_OtherAddress : AddressPort;
  ba_HasMapped : bool;
  ba_HasResponseOrigin : bool;
  ba_HasOtherAddress : bool;
}.
Definition zero_attributes : BehaviorAttributes :=
  mkAttributes zero_endpoint zero_endpoint zero_endpoint false false false.
#[export] Instance BehaviorAttributes_eq_dec : EqDecision BehaviorAttributes. Proof. solve_decision. Defined.

(** ** Messages *)
Definition stun_header (kind length : Z) (transaction : list Z) : list Z :=
  be_encode 2 kind ++ be_encode 2 length ++ be_encode 4 stunMagicCookie ++ transaction.

Definition BuildBehaviorBindingRequest (transaction : list Z) (change : ChangeRequest) : res plan_err (list Z) :=
  if allZero transaction then Err ErrRFC5780Message
  else if cr_ChangeIP change || cr_ChangePort change then
    let flags := Z.lor (if cr_ChangeIP change then 4 else 0) (if cr_ChangePort change then 2 else 0) in
    Ok (stun_header stunBindingRequest 8 transaction
        ++ be_encode 2 AttributeChangeRequest ++ be_encode 2 4 ++ be_encode 4 flags)
  else Ok (stun_header stunBindingRequest 0 transaction).

Definition validateSTUNHeader (packet : list Z) (expectedType : Z) : option plan_err :=
  if (blen packet <? stunHeaderBytes) || (maxBehaviorMessageBytes <? blen packet)
     || negb (be_decode (slice 0 2 packet) =? expectedType)
     || negb (be_decode (slice 4 8 packet) =? stunMagicCookie)
  then Some ErrRFC5780Message
  else
    let length := be_decode (slice 2 4 packet) in
    if negb (length mod 4 =? 0) || negb (length =? blen packet - stunHeaderBytes)
    then Some ErrRFC5780Message else None.

(** [(length + 3) &^ 3]. *)
Definition padded_length (length : Z) : Z := Z.ldiff (length + 3) 3.

(** The loop of [walkAttributes] on the rest of the packet, with the state the
    visitor keeps in its variables. *)
Fixpoint walk_loop {A} (fuel : nat) (visit : Z -> list Z -> A -> res plan_err A) (rest : list Z) (acc : A)
    : res plan_err A :=
  match fuel with
  | O => Ok acc
  | S fuel' =>
      match rest with
      | [] => Ok acc
      | _ =>
          if blen rest <? 4 then Err ErrRFC5780Message
          else
            let attributeType := be_decode (slice 0 2 rest) in
            let length := be_decode (slice 2 4 rest) in
            let paddedEnd := 4 + padded_length length in
            if blen rest <? paddedEnd then Err ErrRFC5780Message
            else if existsb (fun padding => negb (padding =? 0)) (slice (4 + length) paddedEnd rest)
            then Err ErrRFC5780Message
            else let! acc := visit attributeType (slice 4 (4 + length) rest) acc in
                 walk_loop fuel' visit (drop (Z.to_nat paddedEnd) rest) acc
      end
  end.

(** Every attribute takes at least four bytes, so the length is enough fuel. *)
Definition walkAttributes {A} (packet : list Z) (visit : Z -> list Z -> A -> res plan_err A) (acc : A)
    : res plan_err A :=
  walk_loop (length packet) visit (drop (Z.to_nat stunHeaderBytes) packet) acc.

Definition visit_request (attributeType : Z) (value : list Z) (acc : option ChangeRequest)
    : res plan_err (option ChangeRequest) :=
  if attributeType =? AttributeChangeRequest then
    if bool_decide (acc <> None) || negb (blen value =? 4) then Err ErrRFC5780Message
    else
      let flags := be_decode value in
      if negb (Z.land flags (4294967295 - 6) =? 0) then Err ErrRFC5780Message
      else Ok (Some (mkChange (negb (Z.land flags 4 =? 0)) (negb (Z.land flags 2 =? 0))))
  else if attributeType <? 32768 then Err ErrUnsupportedEvidence else Ok acc.

Definition ParseBehaviorBindingRequest (packet : list Z) : res plan_err (list Z * ChangeRequest) :=
  check! validateSTUNHeader packet stunBindingRequest in
  let! change := walkAttributes packet visit_request None in
  Ok (slice 8 20 packet, default (mkChange false false) change).

Definition xor_mask (transaction : list Z) : list Z := be_encode 4 stunMagicCookie ++ transaction.
Definition xor_bytes (bytes mask : list Z) : list Z := zip_with Z.lxor bytes mask.
Definition xor_port (port : Z) : Z := Z.lxor port (Z.shiftr stunMagicCookie 16).

Definition encodeSTUNAddress (attributeType : Z) (endpoint : AddressPort) (transaction : list Z) (xor : bool)
    : res plan_err (list Z) :=
  if negb (endpoint_Valid endpoint) then Err ErrRFC5780Message
  else
    let v4 := ad_Family (ap_Address endpoint) =? AddressFamilyIPv4 in
    let length := if v4 then 8 else 20 in
    let port := if xor then xor_port (ap_Port endpoint) else ap_Port endpoint in
    let address := take (if v4 then 4 else 16)%nat (ad_Bytes (ap_Address endpoint)) in
    let address := if xor then xor_bytes address (xor_mask transaction) else address in
    Ok (be_encode 2 attributeType ++ be_encode 2 length
        ++ [0; if ad_Family (ap_Address endpoint) =? AddressFamilyIPv6 then 2 else 1] ++ be_encode 2 port ++ address).

Definition decodeSTUNAddress (value transaction : list Z) (xor : bool) : res plan_err AddressPort :=
  if (blen value <? 8) || negb (byte_at 0 value =? 0) then Err ErrRFC5780Message
  else
    let port := be_decode (slice 2 4 value) in
    let port := if xor then xor_port port else port in
    if port =? 0 then Err ErrRFC5780Message
    else
      let! address :=
        if byte_at 1 value =? 1 then
          if negb (blen value =? 8) then Err ErrRFC5780Message
          else let raw := slice 4 8 value in
               Ok (Address4 (if xor then xor_bytes raw (be_encode 4 stunMagicCookie) else raw))
        else if byte_at 1 value =? 2 then
          if negb (blen value =? 20) then Err ErrRFC5780Message
          else let raw := slice 4 20 value in
               Ok (Address6 (if xor then xor_bytes raw (xor_mask transaction) else raw))
        else Err ErrRFC5780Message in
      let endpoint := mkAddressPort address port in
      if negb (endpoint_Valid endpoint) then Err ErrRFC5780Message else Ok endpoint.

(** The variables of the visitor of [ParseBehaviorBindingSuccess]. *)
Record success_vars := mkSuccessVars {
  sv_mapped : option AddressPort;
  sv_xorMapped : option AddressPort;
  sv_origin : option AddressPort;
  sv_other : option AddressPort;
}.

Definition visit_success (expected : list Z) (attributeType : Z) (value : list Z) (v : success_vars)
    : res plan_err success_vars :=
  let decode (present : option AddressPort) (xor : bool) (put : AddressPort -> success_vars) :=
    if bool_decide (present <> None) then Err ErrRFC5780Message
    else let! endpoint := decodeSTUNAddress value expected xor in Ok (put endpoint) in
  if attributeType =? AttributeMappedAddress then
    decode (sv_mapped v) false (fun e => mkSuccessVars (Some e) (sv_xorMapped v) (sv_origin v) (sv_other v))
  else if attributeType =? AttributeXORMappedAddress then
    decode (sv_xorMapped v) true (fun e => mkSuccessVars (sv_mapped v) (Some e) (sv_origin v) (sv_other v))
  else if attributeType =? AttributeResponseOrigin then
    decode (sv_origin v) false (fun e => mkSuccessVars (sv_mapped v) (sv_xorMapped v) (Some e) (sv_other v))
  else if attributeType =? AttributeOtherAddress then
    decode (sv_other v) false (fun e => mkSuccessVars (sv_mapped v) (sv_xorMapped v) (sv_origin v) (Some e))
  else if attributeType <? 32768 then Err ErrUnsupportedEvidence else Ok v.

Definition ParseBehaviorBindingSuccess (packet expected : list Z) : res plan_err BehaviorAttributes :=
  check! validateSTUNHeader packet stunBindingSuccess in
  if negb (bytes_eqb (slice 8 20 packet) expected) then Err ErrRFC5780Message
  else
    let! v := walkAttributes packet (visit_success expected) (mkSuccessVars None None None None) in
    match sv_mapped v, sv_xorMapped v with
    | Some mapped, Some xorMapped =>
        if bool_decide (mapped = xorMapped)
        then Ok (mkAttributes mapped (default zero_endpoint (sv_origin v)) (default zero_endpoint (sv_other v))
                   true (bool_decide (is_Some (sv_origin v))) (bool_decide (is_Some (sv_other v))))
        else Err ErrRFC5780Message
    | _, _ => Err ErrUnsupportedEvidence
    end.

Definition BuildBehaviorBindingSuccess (transaction : list Z) (a : BehaviorAttributes) : res plan_err (list Z) :=
  if allZero transaction || negb (ba_HasMapped a) || negb (endpoint_Valid (ba_Mapped a))
  then Err ErrRFC5780Message
  else
    let! mapped := encodeSTUNAddress AttributeMappedAddress (ba_Mapped a) transaction false in
    let! xorMapped := encodeSTUNAddress AttributeXORMappedAddress (ba_Mapped a) transaction true in
    let! origin :=
      if ba_HasResponseOrigin a
      then encodeSTUNAddress AttributeResponseOrigin (ba_ResponseOrigin a) transaction false else Ok [] in
    let! other :=
      if ba_HasOtherAddress a
      then encodeSTUNAddress AttributeOtherAddress (ba_OtherAddress a) transaction false else Ok [] in
    let encoded := mapped ++ xorMapped ++ origin ++ other in
    Ok (stun_header stunBindingSuccess (blen encoded) transaction ++ encoded).

(** ** Discovery *)
Definition StepPrimary : string := "primary".
Definition StepSameAddressOtherPort : string := "same_address_other_port".
Definition StepOtherAddress : string := "other_address".
Definition StepChangeIPPort : string := "change_ip_port".
Definition StepChangePort : string := "change_port".

Inductive DiscoveryState :=
| DiscoveryAwaitPrimary
| DiscoveryAwaitSameAddressOtherPort
| DiscoveryAwaitOtherAddress
| DiscoveryAwaitChangeIPPort
| DiscoveryAwaitChangePort
| DiscoveryComplete.

Record DiscoveryObservation := mkObservation {
  ob_TransactionID : list Z;
  ob_RequestDestination : AddressPort;
  ob_ResponseSource : AddressPort;
  ob_Received : bool;
  ob_Attributes : BehaviorAttributes;
}.

(** The transactions of the accepted exchanges, in their order. *)
Record RFC5780Machine := mkMachine {
  rm_state : DiscoveryState;
  rm_primary : BehaviorAttributes;
  rm_sameAddress : BehaviorAttributes;
  rm_otherAddress : BehaviorAttributes;
  rm_changeIPPort : bool;
  rm_changePort : bool;
  rm_transactions : list (list Z);
}.
Definition NewRFC5780Machine : RFC5780Machine :=
  mkMachine DiscoveryAwaitPrimary zero_attributes zero_attributes zero_attributes false false [].

(** A missing key of the map is the empty step. *)
Definition expected_step (s : DiscoveryState) : string :=
  match s with
  | DiscoveryAwaitPrimary => StepPrimary
  | DiscoveryAwaitSameAddressOtherPort => StepSameAddressOtherPort
  | DiscoveryAwaitOtherAddress => StepOtherAddress
  | DiscoveryAwaitChangeIPPort => StepChangeIPPort
  | DiscoveryAwaitChangePort => StepChangePort
  | DiscoveryComplete => ""
  end.

Definition same_response (o : DiscoveryObservation) : bool :=
  if ob_Received o
  then endpoint_Valid (ob_ResponseSource o) && ba_HasResponseOrigin (ob_Attributes o)
       && bool_decide (ob_ResponseSource o = ba_ResponseOrigin (ob_Attributes o))
  else bool_decide (ob_ResponseSource o = zero_endpoint) && bool_decide (ob_Attributes o = zero_attributes).

(** The request goes to [destination] and the response of a mapping step comes
    from there. *)
Definition mapping_response (o : DiscoveryObservation) (destination : AddressPort) : bool :=
  ob_Received o && ba_HasMapped (ob_Attributes o) && ba_HasResponseOrigin (ob_Attributes o)
  && endpoint_Valid (ba_Mapped (ob_Attributes o))
  && bool_decide (ob_RequestDestination o = destination)
  && bool_decide (ba_ResponseOrigin (ob_Attributes o) = destination).

Definition Advance (machine : RFC5780Machine) (step : string) (o : DiscoveryObservation)
    : res plan_err RFC5780Machine :=
  let '(mkMachine state primary same other ipPort port transactions) := machine in
  let done := transactions ++ [ob_TransactionID o] in
  let a := ob_Attributes o in
  let origin := ba_ResponseOrigin primary in
  let alternate := ba_OtherAddress primary in
  if negb (bool_decide (step = expected_step state)) then Err ErrRFC5780Order
  else if allZero (ob_TransactionID o) || negb (endpoint_Valid (ob_RequestDestination o))
  then Err ErrUnsupportedEvidence
  else if bool_decide (ob_TransactionID o ∈ transactions) then Err ErrUnsupportedEvidence
  else if negb (same_response o) then Err ErrUnsupportedEvidence
  else match state with
  | DiscoveryAwaitPrimary =>
      if negb (ob_Received o) || negb (ba_HasMapped a) || negb (ba_HasResponseOrigin a)
         || negb (ba_HasOtherAddress a) || negb (endpoint_Valid (ba_Mapped a))
         || negb (endpoint_Valid (ba_ResponseOrigin a)) || negb (endpoint_Valid (ba_OtherAddress a))
         || negb (bool_decide (ob_RequestDestination o = ba_ResponseOrigin a))
         || bool_decide (ap_Address (ba_ResponseOrigin a) = ap_Address (ba_OtherAddress a))
         || bool_decide (ap_Port (ba_ResponseOrigin a) = ap_Port (ba_OtherAddress a))
      then Err ErrUnsupportedEvidence
      else Ok (mkMachine DiscoveryAwaitSameAddressOtherPort a same other ipPort port done)
  | DiscoveryAwaitSameAddressOtherPort =>
      if negb (mapping_response o (mkAddressPort (ap_Address origin) (ap_Port alternate)))
      then Err ErrUnsupportedEvidence
      else Ok (mkMachine DiscoveryAwaitOtherAddress primary a other ipPort port done)
  | DiscoveryAwaitOtherAddress =>
      if negb (mapping_response o (mkAddressPort (ap_Address alternate) (ap_Port origin)))
      then Err ErrUnsupportedEvidence
      else Ok (mkMachine DiscoveryAwaitChangeIPPort primary same a ipPort port done)
  | DiscoveryAwaitChangeIPPort =>
      if negb (bool_decide (ob_RequestDestination o = origin)) then Err ErrUnsupportedEvidence
      else if ob_Received o && (negb (ba_HasResponseOrigin a) || negb (bool_decide (ba_ResponseOrigin a = alternate)))
      then Err ErrUnsupportedEvidence
      else Ok (mkMachine DiscoveryAwaitChangePort primary same other (ob_Received o || ipPort) port done)
  | DiscoveryAwaitChangePort =>
      if negb (bool_decide (ob_RequestDestination o = origin)) then Err ErrUnsupportedEvidence
      else if ob_Received o
              && (negb (ba_HasResponseOrigin a)
                  || negb (bool_decide (ba_ResponseOrigin a = mkAddressPort (ap_Address origin) (ap_Port alternate))))
      then Err ErrUnsupportedEvidence
      else Ok (mkMachine DiscoveryComplete primary same other ipPort (ob_Received o || port) done)
  | DiscoveryComplete => Err ErrRFC5780Order
  end.

Definition Result (machine : RFC5780Machine) : res plan_err (string * string) :=
  match rm_state machine with
  | DiscoveryComplete =>
      let primary := ba_Mapped (rm_primary machine) in
      let same := ba_Mapped (rm_sameAddress machine) in
      let other := ba_Mapped (rm_otherAddress machine) in
      let mapping :=
        if bool_decide (primary = same) && bool_decide (primary = other) then MappingEIM
        else if bool_decide (primary = same) && negb (bool_decide (primary = other)) then MappingADM
        else MappingAPDM in
      let filtering :=
        if rm_changeIPPort machine then FilteringEIF
        else if rm_changePort machine then FilteringADF else FilteringAPDF in
      Ok (mapping, filtering)
  | _ => Err ErrRFC5780Order
  end.

(** ** Transcripts *)
Definition orderedRFC5780Steps : list string :=
  [StepPrimary; StepSameAddressOtherPort; StepOtherAddress; StepChangeIPPort; StepChangePort].

Definition expectedRFC5780Change (step : string) : ChangeRequest :=
  if bool_decide (step = StepChangeIPPort) then mkChange true true
  else if bool_decide (step = StepChangePort) then mkChange false true
  else mkChange false false.

Definition exchange_observation (step : string) (exchange : RFC5780Exchange) : res plan_err DiscoveryObservation :=
  if negb (bool_decide (ex_Step exchange = step)) || (ex_ObservedAtMilli exchange <=? 0)
     || negb (endpoint_Valid (ex_RequestDestination exchange))
  then Err ErrInvalidEvidence
  else match ParseBehaviorBindingRequest (ex_Request exchange) with
  | Err _ => Err ErrInvalidEvidence
  | Ok (transaction, change) =>
      if negb (bool_decide (transaction = ex_TransactionID exchange))
         || negb (bool_decide (change = expectedRFC5780Change step))
      then Err ErrInvalidEvidence
      else
        let! attributes :=
          if ex_Received exchange then
            if bool_decide (ex_Response exchange = []) || negb (endpoint_Valid (ex_ResponseSource exchange))
            then Err ErrInvalidEvidence
            else ParseBehaviorBindingSuccess (ex_Response exchange) (ex_TransactionID exchange)
          else if negb (bool_decide (ex_Response exchange = []))
                  || negb (bool_decide (ex_ResponseSource exchange = zero_endpoint))
          then Err ErrInvalidEvidence else Ok zero_attributes in
        Ok (mkObservation (ex_TransactionID exchange) (ex_RequestDestination exchange)
              (ex_ResponseSource exchange) (ex_Received exchange) attributes)
  end.

Record derivedRFC5780Transcript := mkDerived {
  dv_mapping : string;
  dv_filtering : string;
  dv_endpoint : AddressPort;
}.

(** The loop over the exchanges. *)
Fixpoint derive_loop (steps : list string) (exchanges : list RFC5780Exchange) (machine : RFC5780Machine)
    : res plan_err RFC5780Machine :=
  match steps, exchanges with
  | step :: steps', exchange :: exchanges' =>
      let! o := exchange_observation step exchange in
      let! machine := Advance machine step o in
      derive_loop steps' exchanges' machine
  | _, _ => Ok machine
  end.

(** The endpoint is the mapped address of the primary exchange, which the
    machine keeps. *)
Definition deriveRFC5780Transcript (transcript : RFC5780Transcript) : res plan_err derivedRFC5780Transcript :=
  let! machine := derive_loop orderedRFC5780Steps (ts_Exchanges transcript) NewRFC5780Machine in
  let! (mapping, filtering) := Result machine in
  Ok (mkDerived mapping filtering
        (if bool_decide (mapping = MappingEIM) then ba_Mapped (rm_primary machine) else zero_endpoint)).

Fixpoint reusable_loop (transcripts : list RFC5780Transcript) (endpoint : AddressPort) (slot : Z)
    : res plan_err (AddressPort * Z) :=
  match transcripts with
  | [] => Ok (endpoint, slot)
  | transcript :: rest =>
      let! derived := deriveRFC5780Transcript transcript in
      if negb (bool_decide (dv_mapping derived = MappingEIM)) then reusable_loop rest endpoint slot
      else if negb (endpoint_Valid (dv_endpoint derived)) then Err ErrInvalidEvidence
      else if endpoint_Valid endpoint
              && (negb (bool_decide (endpoint = dv_endpoint derived)) || negb (slot =? ts_SocketSlot transcript))
      then Err ErrEvidenceInsufficient
      else reusable_loop rest (dv_endpoint derived) (ts_SocketSlot transcript)
  end.
Definition reusableRFC5780Endpoint (transcripts : list RFC5780Transcript) : res plan_err (AddressPort * Z) :=
  reusable_loop transcripts zero_endpoint 0.
