(* ===== verification/HardNatEvidence.v ===== *)
(** * Hard-NAT planning: evidence
    (src/internal/v2/hardnatplan/evidence.go, validation.go)

    The evidence of one attempt is validated against the transactions that were
    issued, normalized, merged, and classified into a model of the NAT. *)
From stdpp Require Import sorting.
From S2P Require Import Prelude GoStd LivenessWire HardNatArith HardNatTypes HardNatStun.
Open Scope go_scope.

(** ** The order of [bytes.Compare] *)
Fixpoint bytes_leb (a b : list Z) : bool :=
  match a, b with
  | [], _ => true
  | _, [] => false
  | x :: a', y :: b' => if x <? y then true else if y <? x then false else bytes_leb a' b'
  end.
Definition bytes_le (a b : list Z) : Prop := bytes_leb a b = true.
#[export] Instance bytes_le_dec : RelDecision bytes_le. Proof. intros a b. unfold bytes_le. apply _. Defined.

(** [sort.Slice] by the encodings. *)
Definition encoding_le {A} (encode : A -> list Z) (a b : A) : Prop := bytes_le (encode a) (encode b).
#[export] Instance encoding_le_dec {A} (encode : A -> list Z) : RelDecision (encoding_le encode).
Proof. intros a b. unfold encoding_le. apply _. Defined.
Definition sorted_by {A} (encode : A -> list Z) (l : list A) : list A := merge_sort (encoding_le encode) l.

(** ** Encodings *)
Definition encodeEvidenceRecord (kind : Z) (meta : EvidenceMeta) (value : string) (extra : list Z) : list Z :=
  kind :: appendString (em_Source meta) ++ appendString (em_Origin meta)
  ++ appendAddress (em_ObserverAddress meta) ++ appendUint16 (em_ObserverPort meta)
  ++ appendUint16 (em_SocketSlot meta) ++ em_TransactionID meta ++ em_AttemptDigest meta
  ++ appendUint64 (em_Generation meta) ++ appendInt64 (em_ObservedAtMilli meta)
  ++ appendString value ++ appendBytes extra.
Definition encodeMappingEvidence (e : MappingEvidence) : list Z :=
  encodeEvidenceRecord 1 (me_Meta e) (me_Behavior e) [].
Definition encodeFilteringEvidence (e : FilteringEvidence) : list Z :=
  encodeEvidenceRecord 2 (fe_Meta e) (fe_Behavior e) [].
Definition encodeIPPoolingEvidence (e : IPPoolingEvidence) : list Z :=
  encodeEvidenceRecord 3 (pe_Meta e) "" (appendBool (pe_Stable e) ++ pe_PoolDigest e).
Definition encodeAllocationSample (e : AllocationSample) : list Z :=
  encodeEvidenceRecord 4 (as_Meta e) ""
    (appendUint16 (as_SocketSlot e) ++ appendUint32 (as_Ordinal e) ++ appendAddress (as_MappedAddress e)
     ++ appendUint16 (as_MappedPort e) ++ appendBool (as_Success e)).
Definition encodeRFC5780Exchange (e : RFC5780Exchange) : list Z :=
  appendString (ex_Step e) ++ ex_TransactionID e
  ++ appendAddress (ap_Address (ex_RequestDestination e)) ++ appendUint16 (ap_Port (ex_RequestDestination e))
  ++ appendAddress (ap_Address (ex_ResponseSource e)) ++ appendUint16 (ap_Port (ex_ResponseSource e))
  ++ appendInt64 (ex_ObservedAtMilli e) ++ appendBool (ex_Received e)
  ++ appendBytes (ex_Request e) ++ appendBytes (ex_Response e).
Definition encodeRFC5780Transcript (t : RFC5780Transcript) : list Z :=
  5 :: appendString (ts_Origin t) ++ appendUint16 (ts_SocketSlot t) ++ appendUint32 RFC5780ExchangeCount
  ++ concat (map (fun e => appendBytes (encodeRFC5780Exchange e)) (ts_Exchanges t)).
Definition encodeIssuedTransaction (i : IssuedTransaction) : list Z :=
  appendString (is_Kind i) ++ is_TransactionID i ++ appendString (is_Source i)
  ++ appendAddress (ap_Address (is_Observer i)) ++ appendUint16 (ap_Port (is_Observer i))
  ++ appendUint16 (is_SocketSlot i) ++ appendUint32 (is_Ordinal i)
  ++ appendInt64 (is_NotBeforeMilli i) ++ appendInt64 (is_NotAfterMilli i).

Definition evidenceEncodingLabel : list Z := string_bytes "winkyou-hardnat-evidence-v1" ++ [0].
Definition validationEncodingLabel : list Z := string_bytes "winkyou-hardnat-validation-v1" ++ [0].
Definition actionableEncodingLabel : list Z := string_bytes "winkyou-hardnat-actionable-evidence-v1" ++ [0].

(** A list of records with its length, each with its length. *)
Definition appendRecords (records : list (list Z)) : list Z :=
  appendUint32 (Z.of_nat (length records)) ++ concat (map appendBytes records).

Section digests.
Context {H : Sha256}.

Definition graph_records (g : EvidenceGraph) : list (list Z) :=
  map encodeMappingEvidence (eg_Mapping g) ++ map encodeFilteringEvidence (eg_Filtering g)
  ++ map encodeIPPoolingEvidence (eg_IPPooling g) ++ map encodeAllocationSample (eg_Allocation g)
  ++ map encodeRFC5780Transcript (eg_RFC5780 g).

Definition DigestEvidence (g : EvidenceGraph) : list Z :=
  sum256 (evidenceEncodingLabel ++ eg_AttemptDigest g ++ eg_MachineScopeDigest g ++ eg_PeerDigest g
    ++ eg_ObservationSetDigest g ++ eg_SocketOwnerDigest g ++ appendUint64 (eg_Generation g)
    ++ appendInt64 (eg_StartedAtMilli g) ++ appendInt64 (eg_FinishedAtMilli g) ++ appendInt64 (eg_ExpiresAtMilli g)
    ++ appendRecords (sorted_by id (graph_records g))).

Definition DigestValidationContext (t : TrustedValidationContext) : res plan_err (list Z) :=
  if (tv_NowMilli t <=? 0) || bool_decide (tv_Issued t = []) then Err ErrInvalidEvidence
  else Ok (sum256 (validationEncodingLabel ++ tv_ExpectedAttemptDigest t ++ tv_ExpectedMachineScopeDigest t
    ++ tv_ExpectedPeerDigest t ++ tv_ExpectedObservationSetDigest t ++ tv_ExpectedSocketOwnerDigest t
    ++ appendUint64 (tv_ExpectedGeneration t) ++ appendInt64 (tv_ExpectedStartedAtMilli t)
    ++ appendInt64 (tv_ExpectedFinishedAtMilli t) ++ appendInt64 (tv_ExpectedExpiresAtMilli t)
    ++ appendRecords (map encodeIssuedTransaction (sorted_by encodeIssuedTransaction (tv_Issued t))))).

Definition digestValidatedEvidence (g : EvidenceGraph) (validationDigest : list Z) : res plan_err (list Z) :=
  if allZero validationDigest then Err ErrInvalidEvidence
  else Ok (sum256 (actionableEncodingLabel ++ validationDigest ++ DigestEvidence g)).
End digests.

(** ** Validation *)
Definition validGraphHeader (g : EvidenceGraph) : bool :=
  negb (allZero (eg_AttemptDigest g)) && negb (allZero (eg_MachineScopeDigest g))
  && negb (allZero (eg_PeerDigest g)) && negb (allZero (eg_ObservationSetDigest g))
  && negb (allZero (eg_SocketOwnerDigest g)) && (0 <? eg_Generation g) && (0 <? eg_StartedAtMilli g)
  && (eg_StartedAtMilli g <=? eg_FinishedAtMilli g) && (eg_FinishedAtMilli g <? eg_ExpiresAtMilli g).

Definition actionableMeta (m : EvidenceMeta) (g : EvidenceGraph) : bool :=
  bool_decide (em_Origin m = OriginLocalTransaction) && (0 <? strength (em_Source m))
  && address_Valid (em_ObserverAddress m) && negb (em_ObserverPort m =? 0)
  && negb (allZero (em_TransactionID m)) && bool_decide (em_AttemptDigest m = eg_AttemptDigest g)
  && (em_Generation m =? eg_Generation g) && (eg_StartedAtMilli g <=? em_ObservedAtMilli m)
  && (em_ObservedAtMilli m <=? eg_FinishedAtMilli g).

Definition validateTrustedHeader (g : EvidenceGraph) (t : TrustedValidationContext) : option plan_err :=
  if negb (validGraphHeader g) || (tv_NowMilli t <=? 0) || allZero (tv_ExpectedAttemptDigest t)
     || allZero (tv_ExpectedMachineScopeDigest t) || allZero (tv_ExpectedPeerDigest t)
     || allZero (tv_ExpectedObservationSetDigest t) || allZero (tv_ExpectedSocketOwnerDigest t)
     || (tv_ExpectedGeneration t =? 0)
  then Some ErrInvalidEvidence
  else if negb (bool_decide (eg_AttemptDigest g = tv_ExpectedAttemptDigest t))
     || negb (bool_decide (eg_MachineScopeDigest g = tv_ExpectedMachineScopeDigest t))
     || negb (bool_decide (eg_PeerDigest g = tv_ExpectedPeerDigest t))
     || negb (bool_decide (eg_ObservationSetDigest g = tv_ExpectedObservationSetDigest t))
     || negb (bool_decide (eg_SocketOwnerDigest g = tv_ExpectedSocketOwnerDigest t))
     || negb (eg_Generation g =? tv_ExpectedGeneration t)
     || negb (eg_StartedAtMilli g =? tv_ExpectedStartedAtMilli t)
     || negb (eg_FinishedAtMilli g =? tv_ExpectedFinishedAtMilli t)
     || negb (eg_ExpiresAtMilli g =? tv_ExpectedExpiresAtMilli t)
  then Some ErrInvalidEvidence
  else if (MaxEvidenceWindowMillis <? eg_FinishedAtMilli g - eg_StartedAtMilli g)
     || (tv_NowMilli t <? eg_FinishedAtMilli g)
     || (MaxEvidenceAgeMillis <? tv_NowMilli t - eg_FinishedAtMilli g)
     || (eg_ExpiresAtMilli g <=? tv_NowMilli t)
     || (MaxEvidenceAgeMillis <? eg_ExpiresAtMilli g - eg_FinishedAtMilli g)
  then Some ErrEvidenceInsufficient else None.

Definition validIssuedTransaction (i : IssuedTransaction) (t : TrustedValidationContext) : bool :=
  if allZero (is_TransactionID i) || (strength (is_Source i) =? 0) || negb (endpoint_Valid (is_Observer i))
     || (is_NotBeforeMilli i <? tv_ExpectedStartedAtMilli t) || (tv_ExpectedFinishedAtMilli t <? is_NotAfterMilli i)
     || (is_NotAfterMilli i <? is_NotBeforeMilli i)
  then false
  else if bool_decide (is_Kind i = EvidenceKindMapping) || bool_decide (is_Kind i = EvidenceKindFiltering)
          || bool_decide (is_Kind i = EvidenceKindIPPooling)
  then is_Ordinal i =? 0
  else if bool_decide (is_Kind i = EvidenceKindAllocation) then true
  else if bool_decide (is_Kind i = EvidenceKindRFC5780)
  then bool_decide (is_Source i = SourceRFC5780) && (is_Ordinal i <? RFC5780ExchangeCount)
  else false.

Notation manifest_type := (gmap (list Z) IssuedTransaction).
Notation seen_type := (gmap (list Z) (list Z)).

Fixpoint build_manifest (issued : list IssuedTransaction) (t : TrustedValidationContext) (manifest : manifest_type)
    : res plan_err manifest_type :=
  match issued with
  | [] => Ok manifest
  | i :: rest =>
      if bool_decide (is_Some (manifest !! is_TransactionID i)) || negb (validIssuedTransaction i t)
      then Err ErrInvalidEvidence
      else build_manifest rest t (<[is_TransactionID i := i]> manifest)
  end.

(** What an entry claims of its transaction. *)
Record bound := mkBound {
  bd_kind : string;
  bd_transaction : list Z;
  bd_source : string;
  bd_observer : AddressPort;
  bd_slot : Z;
  bd_ordinal : Z;
  bd_observedAt : Z;
  bd_record : list Z;
}.

Definition bound_matches (b : bound) (i : IssuedTransaction) : bool :=
  bool_decide (is_Kind i = bd_kind b) && bool_decide (is_TransactionID i = bd_transaction b)
  && bool_decide (is_Source i = bd_source b) && bool_decide (is_Observer i = bd_observer b)
  && (is_SocketSlot i =? bd_slot b) && (is_Ordinal i =? bd_ordinal b)
  && (is_NotBeforeMilli i <=? bd_observedAt b) && (bd_observedAt b <=? is_NotAfterMilli i).

(** The flag says whether the transaction was seen before. *)
Definition acceptBound (manifest : manifest_type) (b : bound) (seen : seen_type) : res plan_err (bool * seen_type) :=
  match manifest !! bd_transaction b with
  | None => Err ErrInvalidEvidence
  | Some issued =>
      if negb (bound_matches b issued) then Err ErrInvalidEvidence
      else match seen !! bd_transaction b with
           | Some previous =>
               if bytes_eqb previous (bd_record b) then Ok (true, seen) else Err ErrEvidenceInsufficient
           | None => Ok (false, <[bd_transaction b := bd_record b]> seen)
           end
  end.

(** The loop over the entries of one kind. *)
Section accept.
Context {A : Type} (origin : A -> string) (refused : A -> bool) (bound_of : A -> bound).
Context (manifest : manifest_type).
Fixpoint accept_entries (entries : list A) (seen : seen_type) : res plan_err (list A * seen_type) :=
  match entries with
  | [] => Ok ([], seen)
  | entry :: rest =>
      if bool_decide (origin entry = OriginRemoteReport) then accept_entries rest seen
      else if refused entry then Err ErrInvalidEvidence
      else
        let! (duplicate, seen) := acceptBound manifest (bound_of entry) seen in
        let! (accepted, seen) := accept_entries rest seen in
        Ok (if (duplicate : bool) then accepted else entry :: accepted, seen)
  end.
End accept.

Definition meta_bound (kind : string) (m : EvidenceMeta) (slot ordinal : Z) (record : list Z) : bound :=
  mkBound kind (em_TransactionID m) (em_Source m) (mkAddressPort (em_ObserverAddress m) (em_ObserverPort m))
    slot ordinal (em_ObservedAtMilli m) record.

Definition mapping_bound (e : MappingEvidence) : bound :=
  meta_bound EvidenceKindMapping (me_Meta e) (em_SocketSlot (me_Meta e)) 0 (encodeMappingEvidence e).
Definition filtering_bound (e : FilteringEvidence) : bound :=
  meta_bound EvidenceKindFiltering (fe_Meta e) (em_SocketSlot (fe_Meta e)) 0 (encodeFilteringEvidence e).
Definition pooling_bound (e : IPPoolingEvidence) : bound :=
  meta_bound EvidenceKindIPPooling (pe_Meta e) (em_SocketSlot (pe_Meta e)) 0 (encodeIPPoolingEvidence e).
Definition sample_bound (e : AllocationSample) : bound :=
  meta_bound EvidenceKindAllocation (as_Meta e) (as_SocketSlot e) (as_Ordinal e) (encodeAllocationSample e).
Definition exchange_bound (t : RFC5780Transcript) (index : Z) (e : RFC5780Exchange) : bound :=
  mkBound EvidenceKindRFC5780 (ex_TransactionID e) SourceRFC5780 (ex_RequestDestination e) (ts_SocketSlot t)
    index (ex_ObservedAtMilli e) (encodeRFC5780Exchange e).

Definition derivedRFC5780Meta (g : EvidenceGraph) (t : RFC5780Transcript) (e : RFC5780Exchange) : EvidenceMeta :=
  mkMeta SourceRFC5780 OriginLocalTransaction (ap_Address (ex_RequestDestination e))
    (ap_Port (ex_RequestDestination e)) (ts_SocketSlot t) (ex_TransactionID e) (eg_AttemptDigest g)
    (eg_Generation g) (ex_ObservedAtMilli e).

(** The number of exchanges that were seen before. *)
Fixpoint accept_exchanges (manifest : manifest_type) (t : RFC5780Transcript) (index : Z)
    (exchanges : list RFC5780Exchange) (seen : seen_type) : res plan_err (Z * seen_type) :=
  match exchanges with
  | [] => Ok (0, seen)
  | e :: rest =>
      let! (duplicate, seen) := acceptBound manifest (exchange_bound t index e) seen in
      let! (duplicates, seen) := accept_exchanges manifest t (index + 1) rest seen in
      Ok ((if (duplicate : bool) then duplicates + 1 else duplicates), seen)
  end.

Definition zero_exchange : RFC5780Exchange := mkExchange "" [] zero_endpoint zero_endpoint 0 false [] [].

Definition transcript_evidence (g : EvidenceGraph) (t : RFC5780Transcript) (d : derivedRFC5780Transcript)
    : MappingEvidence * FilteringEvidence :=
  (mkMapping (derivedRFC5780Meta g t (nth 2 (ts_Exchanges t) zero_exchange)) (dv_mapping d),
   mkFiltering (derivedRFC5780Meta g t (nth 4 (ts_Exchanges t) zero_exchange)) (dv_filtering d)).

Fixpoint accept_transcripts (manifest : manifest_type) (g : EvidenceGraph) (transcripts : list RFC5780Transcript)
    (seen : seen_type)
    : res plan_err (list (RFC5780Transcript * (MappingEvidence * FilteringEvidence)) * seen_type) :=
  match transcripts with
  | [] => Ok ([], seen)
  | t :: rest =>
      if bool_decide (ts_Origin t = OriginRemoteReport) then accept_transcripts manifest g rest seen
      else if negb (bool_decide (ts_Origin t = OriginLocalTransaction)) then Err ErrInvalidEvidence
      else
        let! derived := deriveRFC5780Transcript t in
        let! (duplicates, seen) := accept_exchanges manifest t 0 (ts_Exchanges t) seen in
        if negb (duplicates =? 0) && negb (duplicates =? RFC5780ExchangeCount) then Err ErrEvidenceInsufficient
        else
          let! (accepted, seen) := accept_transcripts manifest g rest seen in
          Ok (if duplicates =? RFC5780ExchangeCount then accepted
              else (t, transcript_evidence g t derived) :: accepted, seen)
  end.

Section normalize.
Context {H : Sha256}.

Definition empty_evidence (g : EvidenceGraph) : EvidenceGraph :=
  mkGraph (eg_AttemptDigest g) (eg_MachineScopeDigest g) (eg_PeerDigest g) (eg_ObservationSetDigest g)
    (eg_SocketOwnerDigest g) (eg_Generation g) (eg_StartedAtMilli g) (eg_FinishedAtMilli g) (eg_ExpiresAtMilli g)
    [] [] [] [] [].

(** The loops of [normalizeEvidence]. *)
Definition normalize_entries (manifest : manifest_type) (g : EvidenceGraph) : res plan_err (EvidenceGraph * seen_type) :=
  let! (mapping, seen) :=
    accept_entries (fun e => em_Origin (me_Meta e))
      (fun e => bool_decide (em_Source (me_Meta e) = SourceRFC5780) || negb (actionableMeta (me_Meta e) g))
      mapping_bound manifest (eg_Mapping g) ∅ in
  let! (filtering, seen) :=
    accept_entries (fun e => em_Origin (fe_Meta e))
      (fun e => bool_decide (em_Source (fe_Meta e) = SourceRFC5780) || negb (actionableMeta (fe_Meta e) g))
      filtering_bound manifest (eg_Filtering g) seen in
  let! (pooling, seen) :=
    accept_entries (fun e => em_Origin (pe_Meta e)) (fun e => negb (actionableMeta (pe_Meta e) g))
      pooling_bound manifest (eg_IPPooling g) seen in
  let! (allocation, seen) :=
    accept_entries (fun e => em_Origin (as_Meta e))
      (fun e => negb (actionableMeta (as_Meta e) g) || negb (em_SocketSlot (as_Meta e) =? as_SocketSlot e))
      sample_bound manifest (eg_Allocation g) seen in
  let! (transcripts, seen) := accept_transcripts manifest g (eg_RFC5780 g) seen in
  Ok (mkGraph (eg_AttemptDigest g) (eg_MachineScopeDigest g) (eg_PeerDigest g) (eg_ObservationSetDigest g)
        (eg_SocketOwnerDigest g) (eg_Generation g) (eg_StartedAtMilli g) (eg_FinishedAtMilli g)
        (eg_ExpiresAtMilli g) (mapping ++ map (fun x => x.2.1) transcripts)
        (filtering ++ map (fun x => x.2.2) transcripts) pooling allocation (map fst transcripts), seen).

(** An error carries the validation digest that is returned with it. *)
Definition normalizeEvidence (g : EvidenceGraph) (t : TrustedValidationContext)
    : res (plan_err * list Z) (EvidenceGraph * list Z) :=
  match validateTrustedHeader g t with
  | Some e => Err (e, zero_digest)
  | None =>
      match DigestValidationContext t with
      | Err e => Err (e, zero_digest)
      | Ok validationDigest =>
          match build_manifest (tv_Issued t) t ∅ with
          | Err e => Err (e, zero_digest)
          | Ok manifest =>
              if Z.of_nat (size manifest) =? 0 then Err (ErrEvidenceInsufficient, zero_digest)
              else match normalize_entries manifest g with
                   | Err e => Err (e, validationDigest)
                   | Ok (normalized, seen) =>
                       if negb (Z.of_nat (size seen) =? Z.of_nat (size manifest))
                       then Err (ErrEvidenceInsufficient, validationDigest)
                       else Ok (normalized, validationDigest)
                   end
          end
      end
  end.
End normalize.

(** ** Merging

    The loops of [mergeMapping] and [mergeFiltering] keep the entries seen, the
    behavior found so far and the strongest source. *)
Section merge.
Context {A : Type} `{EqDecision A} (meta : A -> EvidenceMeta) (behavior : A -> string) (valid : string -> bool).
Context (unknown : string) (g : EvidenceGraph).
Fixpoint merge_loop (entries : list A) (seen : gmap (list Z) A) (found strongest : string)
    : res plan_err (string * string) :=
  match entries with
  | [] => Ok (found, strongest)
  | entry :: rest =>
      if negb (actionableMeta (meta entry) g) || negb (valid (behavior entry))
      then merge_loop rest seen found strongest
      else match seen !! em_TransactionID (meta entry) with
           | Some previous =>
               if bool_decide (previous = entry) then merge_loop rest seen found strongest
               else Err ErrEvidenceInsufficient
           | None =>
               if negb (bool_decide (found = unknown)) && negb (bool_decide (found = behavior entry))
               then Err ErrEvidenceInsufficient
               else merge_loop rest (<[em_TransactionID (meta entry) := entry]> seen) (behavior entry)
                      (if strength strongest <? strength (em_Source (meta entry))
                       then em_Source (meta entry) else strongest)
           end
  end.
End merge.

Definition mergeMapping (g : EvidenceGraph) : res plan_err (string * string) :=
  merge_loop me_Meta me_Behavior mapping_valid MappingUnknown g
    (sorted_by encodeMappingEvidence (eg_Mapping g)) ∅ MappingUnknown "".
Definition mergeFiltering (g : EvidenceGraph) : res plan_err (string * string) :=
  merge_loop fe_Meta fe_Behavior filtering_valid FilteringUnknown g
    (sorted_by encodeFilteringEvidence (eg_Filtering g)) ∅ FilteringUnknown "".

Fixpoint pooling_loop (g : EvidenceGraph) (entries : list IPPoolingEvidence)
    (seen : gmap (list Z) IPPoolingEvidence) (pool : option (list Z)) : res plan_err bool :=
  match entries with
  | [] => Ok true
  | entry :: rest =>
      if negb (actionableMeta (pe_Meta entry) g) then pooling_loop g rest seen pool
      else match seen !! em_TransactionID (pe_Meta entry) with
           | Some previous =>
               if bool_decide (previous = entry) then pooling_loop g rest seen pool
               else Err ErrEvidenceInsufficient
           | None =>
               if negb (pe_Stable entry) || allZero (pe_PoolDigest entry) then Err ErrEvidenceInsufficient
               else if match pool with Some d => negb (bool_decide (d = pe_PoolDigest entry)) | None => false end
               then Err ErrEvidenceInsufficient
               else pooling_loop g rest (<[em_TransactionID (pe_Meta entry) := entry]> seen)
                      (Some (pe_PoolDigest entry))
           end
  end.
Definition mergeIPPooling (g : EvidenceGraph) : res plan_err bool :=
  pooling_loop g (sorted_by encodeIPPoolingEvidence (eg_IPPooling g)) ∅ None.

(** ** Allocation samples *)
Fixpoint index_samples (entries : list AllocationSample) (byOrdinal : gmap Z AllocationSample)
    : option (gmap Z AllocationSample) :=
  match entries with
  | [] => Some byOrdinal
  | entry :: rest =>
      if bool_decide (is_Some (byOrdinal !! as_Ordinal entry)) then None
      else index_samples rest (<[as_Ordinal entry := entry]> byOrdinal)
  end.

(** The samples down from an ordinal, until one is missing or failed; their
    number is bounded by the size of the map. *)
Fixpoint suffix_loop (fuel : nat) (byOrdinal : gmap Z AllocationSample) (ordinal : Z) : list AllocationSample :=
  match fuel with
  | O => []
  | S fuel' =>
      match byOrdinal !! ordinal with
      | None => []
      | Some entry =>
          if negb (as_Success entry) || negb (address_Valid (as_MappedAddress entry)) || (as_MappedPort entry =? 0)
          then []
          else entry :: (if ordinal =? 0 then [] else suffix_loop fuel' byOrdinal (ordinal - 1))
      end
  end.

(** Consecutive ordinals, in the order of time. *)
Fixpoint consecutive (samples : list AllocationSample) : bool :=
  match samples with
  | a :: (b :: _) as rest =>
      (wrap 32 (as_Ordinal a + 1) =? as_Ordinal b)
      && (em_ObservedAtMilli (as_Meta a) <=? em_ObservedAtMilli (as_Meta b)) && consecutive rest
  | _ => true
  end.

Definition maximum_ordinal (entries : list AllocationSample) : Z :=
  foldr (fun e m => Z.max (as_Ordinal e) m) 0 entries.

Definition failed_samples (entries : list AllocationSample) : Z :=
  Z.of_nat (length (List.filter (fun e => negb (as_Success e)) entries)).

Definition continuousSuccessfulAllocationSuffix (entries : list AllocationSample)
    : res plan_err (list AllocationSample * Z) :=
  match index_samples entries ∅ with
  | None => Err ErrEvidenceInsufficient
  | Some byOrdinal =>
      if bool_decide (entries = []) then Err ErrEvidenceInsufficient
      else
        let samples := rev (suffix_loop (S (length entries)) byOrdinal (maximum_ordinal entries)) in
        if Z.of_nat (length samples) <? MinSuccessfulAllocationSamples then Err ErrEvidenceInsufficient
        else if negb (consecutive samples) then Err ErrEvidenceInsufficient
        else Ok (samples, failed_samples entries)
  end.

Definition sample_observer (s : AllocationSample) : Address := em_ObserverAddress (as_Meta s).
Definition observer_ports (samples : list AllocationSample) (a : Address) : list Z :=
  remove_dups (map (fun s => em_ObserverPort (as_Meta s))
    (List.filter (fun s => bool_decide (sample_observer s = a)) samples)).
Definition observerCoverage (samples : list AllocationSample) : Z * bool :=
  let addresses := remove_dups (map sample_observer samples) in
  (Z.of_nat (length addresses), existsb (fun a => 2 <=? Z.of_nat (length (observer_ports samples a))) addresses).

(** Ports are the numbers from 1 to 65535, in a circle. *)
Definition forwardPortDelta (previous next : Z) : Z :=
  if previous <? next then next - previous else wrap 16 (65535 - previous + next).
Definition addPort (port delta : Z) : Z := wrap 16 (wrap 32 (wrap 32 (port - 1) + delta) mod 65535 + 1).

Fixpoint port_deltas (samples : list AllocationSample) : list Z :=
  match samples with
  | a :: (b :: _) as rest => forwardPortDelta (as_MappedPort a) (as_MappedPort b) :: port_deltas rest
  | _ => []
  end.

Fixpoint predictive_loop (count : nat) (current step : Z) : list Z :=
  match count with
  | O => []
  | S count' => let current := addPort current step in current :: predictive_loop count' current step
  end.
Definition predictiveSourceSchedule (last step : Z) : list Z :=
  if (last =? 0) || (step =? 0) then [] else predictive_loop (Z.to_nat PredictiveWindowPorts) last step.

Record classification := mkClassification {
  cl_behavior : string;
  cl_minimum : Z;
  cl_maximum : Z;
  cl_predicted : Z;
  cl_step : Z;
}.

Definition last_port (samples : list AllocationSample) : Z := default 0 (as_MappedPort <$> last samples).

Definition classifyAllocation (samples : list AllocationSample) : classification :=
  if Z.of_nat (length samples) <? MinSuccessfulAllocationSamples
  then mkClassification AllocationInsufficientData 0 0 0 0
  else
    let deltas := port_deltas samples in
    let minimum := foldr Z.min 65535 deltas in
    let maximum := foldr Z.max 0 deltas in
    let behavior :=
      if (minimum =? maximum) && (maximum <=? MaxMonotonicDelta) then AllocationSequentialUniform
      else if (maximum <=? MaxMonotonicDelta) && (wrap 32 (maximum - minimum) <=? MaxMonotonicDeltaSpread)
      then AllocationMonotonicNonuniform else AllocationApparentlyRandom in
    let step := nth (Z.to_nat (Z.of_nat (length deltas) / 2)) (merge_sort Z.le deltas) 0 in
    mkClassification behavior minimum maximum (addPort (last_port samples) step) step.

(** ** The model *)
Definition set_raw (rawEvidenceDigest : list Z) (m : StateModel) : StateModel :=
  mkModel (sm_Mapping m) (sm_MappingSource m) (sm_Filtering m) (sm_FilteringSource m) (sm_Allocation m)
    (sm_PublicAddressStable m) (sm_SuccessfulSamples m) (sm_FailedSamples m) (sm_ObserverAddressCount m)
    (sm_HasAlternatePort m) (sm_MinimumDelta m) (sm_MaximumDelta m) (sm_PredictedNextPort m)
    (sm_ResidualUniverse m) (sm_AllocationLimitation m) (sm_PredictedSourcePorts m)
    (sm_ReusableEndpoint m) (sm_ReusableEndpointSlot m) (sm_EvidenceDigest m) rawEvidenceDigest
    (sm_ValidationDigest m) (sm_ExpiresAtMilli m) (sm_Conditional m) (sm_Coverage m).

Definition set_validation (validationDigest : list Z) (m : StateModel) : StateModel :=
  mkModel (sm_Mapping m) (sm_MappingSource m) (sm_Filtering m) (sm_FilteringSource m) (sm_Allocation m)
    (sm_PublicAddressStable m) (sm_SuccessfulSamples m) (sm_FailedSamples m) (sm_ObserverAddressCount m)
    (sm_HasAlternatePort m) (sm_MinimumDelta m) (sm_MaximumDelta m) (sm_PredictedNextPort m)
    (sm_ResidualUniverse m) (sm_AllocationLimitation m) (sm_PredictedSourcePorts m)
    (sm_ReusableEndpoint m) (sm_ReusableEndpointSlot m) (sm_EvidenceDigest m) (sm_RawEvidenceDigest m)
    validationDigest (sm_ExpiresAtMilli m) (sm_Conditional m) (sm_Coverage m).

Definition set_evidence (evidenceDigest : list Z) (m : StateModel) : StateModel :=
  mkModel (sm_Mapping m) (sm_MappingSource m) (sm_Filtering m) (sm_FilteringSource m) (sm_Allocation m)
    (sm_PublicAddressStable m) (sm_SuccessfulSamples m) (sm_FailedSamples m) (sm_ObserverAddressCount m)
    (sm_HasAlternatePort m) (sm_MinimumDelta m) (sm_MaximumDelta m) (sm_PredictedNextPort m)
    (sm_ResidualUniverse m) (sm_AllocationLimitation m) (sm_PredictedSourcePorts m)
    (sm_ReusableEndpoint m) (sm_ReusableEndpointSlot m) evidenceDigest (sm_RawEvidenceDigest m)
    (sm_ValidationDigest m) (sm_ExpiresAtMilli m) (sm_Conditional m) (sm_Coverage m).

Definition set_behaviors (mapping : string) (mappingSource : string) (filtering : string) (filteringSource : string) (m : StateModel) : StateModel :=
  mkModel mapping mappingSource filtering filteringSource (sm_Allocation m) (sm_PublicAddressStable m)
    (sm_SuccessfulSamples m) (sm_FailedSamples m) (sm_ObserverAddressCount m) (sm_HasAlternatePort m)
    (sm_MinimumDelta m) (sm_MaximumDelta m) (sm_PredictedNextPort m) (sm_ResidualUniverse m)
    (sm_AllocationLimitation m) (sm_PredictedSourcePorts m) (sm_ReusableEndpoint m)
    (sm_ReusableEndpointSlot m) (sm_EvidenceDigest m) (sm_RawEvidenceDigest m) (sm_ValidationDigest m)
    (sm_ExpiresAtMilli m) (sm_Conditional m) (sm_Coverage m).

Definition set_samples (successfulSamples : Z) (failedSamples : Z) (observerAddressCount : Z) (hasAlternatePort : bool) (m : StateModel) : StateModel :=
  mkModel (sm_Mapping m) (sm_MappingSource m) (sm_Filtering m) (sm_FilteringSource m) (sm_Allocation m)
    (sm_PublicAddressStable m) successfulSamples failedSamples observerAddressCount hasAlternatePort
    (sm_MinimumDelta m) (sm_MaximumDelta m) (sm_PredictedNextPort m) (sm_ResidualUniverse m)
    (sm_AllocationLimitation m) (sm_PredictedSourcePorts m) (sm_ReusableEndpoint m)
    (sm_ReusableEndpointSlot m) (sm_EvidenceDigest m) (sm_RawEvidenceDigest m) (sm_ValidationDigest m)
    (sm_ExpiresAtMilli m) (sm_Conditional m) (sm_Coverage m).

Definition set_endpoint (reusableEndpoint : AddressPort) (reusableEndpointSlot : Z) (m : StateModel) : StateModel :=
  mkModel (sm_Mapping m) (sm_MappingSource m) (sm_Filtering m) (sm_FilteringSource m) (sm_Allocation m)
    (sm_PublicAddressStable m) (sm_SuccessfulSamples m) (sm_FailedSamples m) (sm_ObserverAddressCount m)
    (sm_HasAlternatePort m) (sm_MinimumDelta m) (sm_MaximumDelta m) (sm_PredictedNextPort m)
    (sm_ResidualUniverse m) (sm_AllocationLimitation m) (sm_PredictedSourcePorts m) reusableEndpoint
    reusableEndpointSlot (sm_EvidenceDigest m) (sm_RawEvidenceDigest m) (sm_ValidationDigest m)
    (sm_ExpiresAtMilli m) (sm_Conditional m) (sm_Coverage m).

Definition set_stable (publicAddressStable : bool) (m : StateModel) : StateModel :=
  mkModel (sm_Mapping m) (sm_MappingSource m) (sm_Filtering m) (sm_FilteringSource m) (sm_Allocation m)
    publicAddressStable (sm_SuccessfulSamples m) (sm_FailedSamples m) (sm_ObserverAddressCount m)
    (sm_HasAlternatePort m) (sm_MinimumDelta m) (sm_MaximumDelta m) (sm_PredictedNextPort m)
    (sm_ResidualUniverse m) (sm_AllocationLimitation m) (sm_PredictedSourcePorts m)
    (sm_ReusableEndpoint m) (sm_ReusableEndpointSlot m) (sm_EvidenceDigest m) (sm_RawEvidenceDigest m)
    (sm_ValidationDigest m) (sm_ExpiresAtMilli m) (sm_Conditional m) (sm_Coverage m).

Definition set_allocation (allocation : string) (minimumDelta : Z) (maximumDelta : Z) (predictedNextPort : Z) (predictedSourcePorts : list Z) (residualUniverse : Z) (allocationLimitation : string) (m : StateModel) : StateModel :=
  mkModel (sm_Mapping m) (sm_MappingSource m) (sm_Filtering m) (sm_FilteringSource m) allocation
    (sm_PublicAddressStable m) (sm_SuccessfulSamples m) (sm_FailedSamples m) (sm_ObserverAddressCount m)
    (sm_HasAlternatePort m) minimumDelta maximumDelta predictedNextPort residualUniverse
    allocationLimitation predictedSourcePorts (sm_ReusableEndpoint m) (sm_ReusableEndpointSlot m)
    (sm_EvidenceDigest m) (sm_RawEvidenceDigest m) (sm_ValidationDigest m) (sm_ExpiresAtMilli m)
    (sm_Conditional m) (sm_Coverage m).

Definition set_coverage (coverage : string) (m : StateModel) : StateModel :=
  mkModel (sm_Mapping m) (sm_MappingSource m) (sm_Filtering m) (sm_FilteringSource m) (sm_Allocation m)
    (sm_PublicAddressStable m) (sm_SuccessfulSamples m) (sm_FailedSamples m) (sm_ObserverAddressCount m)
    (sm_HasAlternatePort m) (sm_MinimumDelta m) (sm_MaximumDelta m) (sm_PredictedNextPort m)
    (sm_ResidualUniverse m) (sm_AllocationLimitation m) (sm_PredictedSourcePorts m)
    (sm_ReusableEndpoint m) (sm_ReusableEndpointSlot m) (sm_EvidenceDigest m) (sm_RawEvidenceDigest m)
    (sm_ValidationDigest m) (sm_ExpiresAtMilli m) (sm_Conditional m) coverage.

Definition bool_text (b : bool) : string := if b then "true" else "false".
Definition coverageString (m : StateModel) : string :=
  String.concat ""
    ["local_successes="; digits_of (sm_SuccessfulSamples m); ";local_failures="; digits_of (sm_FailedSamples m);
     ";observer_addresses="; digits_of (sm_ObserverAddressCount m); ";alternate_port=";
     bool_text (sm_HasAlternatePort m); ";mapping="; sm_Mapping m; ";filtering="; sm_Filtering m;
     ";allocation="; sm_Allocation m; ";residual_universe="; digits_of (sm_ResidualUniverse m);
     ";limitation="; sm_AllocationLimitation m]%string.

Definition initial_model (g : EvidenceGraph) : StateModel :=
  mkModel MappingUnknown "" FilteringUnknown "" AllocationInsufficientData false 0 0 0 false 0 0 0 0
    "insufficient_bound_samples" [] zero_endpoint 0 zero_digest zero_digest zero_digest (eg_ExpiresAtMilli g) true "".

(** The returns with [ErrEvidenceInsufficient] after the samples are known. *)
Definition insufficient (m : StateModel) : StateModel * option plan_err :=
  (set_coverage (coverageString m) m, Some ErrEvidenceInsufficient).

Definition same_address (samples : list AllocationSample) : bool :=
  match samples with
  | [] => true
  | s :: rest => forallb (fun x => bool_decide (as_MappedAddress x = as_MappedAddress s)) rest
  end.

Definition witnessed (endpoint : AddressPort) (slot : Z) (samples : list AllocationSample) : bool :=
  existsb (fun s => (as_SocketSlot s =? slot) && bool_decide (as_MappedAddress s = ap_Address endpoint)
                    && (as_MappedPort s =? ap_Port endpoint)) samples.

Definition classified (samples : list AllocationSample) (m : StateModel) : StateModel :=
  let c := classifyAllocation samples in
  if bool_decide (cl_behavior c = AllocationSequentialUniform)
     || bool_decide (cl_behavior c = AllocationMonotonicNonuniform)
  then
    let ports := predictiveSourceSchedule (last_port samples) (cl_step c) in
    set_allocation (cl_behavior c) (cl_minimum c) (cl_maximum c) (cl_predicted c) ports
      (Z.of_nat (length ports)) "short_window_only;competing_allocations_unbounded" m
  else set_allocation (cl_behavior c) (cl_minimum c) (cl_maximum c) (cl_predicted c) [] 65535
         "samples_do_not_bound_future_allocator;full_range_unknown" m.

(** [InferStateModel] from the normalized evidence on. *)
Definition infer_normalized (normalized : EvidenceGraph) (m : StateModel) : StateModel * option plan_err :=
  match mergeMapping normalized, mergeFiltering normalized with
  | Err _, _ | _, Err _ => (m, Some ErrEvidenceInsufficient)
  | Ok (mapping, mappingSource), Ok (filtering, filteringSource) =>
      let m := set_behaviors mapping mappingSource filtering filteringSource m in
      match reusableRFC5780Endpoint (eg_RFC5780 normalized) with
      | Err _ => (m, Some ErrEvidenceInsufficient)
      | Ok (endpoint, slot) =>
          match continuousSuccessfulAllocationSuffix (eg_Allocation normalized) with
          | Err _ => (m, Some ErrEvidenceInsufficient)
          | Ok (samples, failed) =>
              let '(addresses, alternate) := observerCoverage samples in
              let m := set_samples (Z.of_nat (length samples)) failed addresses alternate m in
              if (Z.of_nat (length samples) <? MinSuccessfulAllocationSamples) || (addresses <? 2) || negb alternate
              then insufficient m
              else if negb (same_address samples) then insufficient m
              else if endpoint_Valid endpoint && negb (witnessed endpoint slot samples) then insufficient m
              else
                let m := if endpoint_Valid endpoint then set_endpoint endpoint slot m else m in
                match mergeIPPooling normalized with
                | Ok true =>
                    let m := classified samples (set_stable true m) in
                    (set_coverage (coverageString m) m, None)
                | _ => insufficient m
                end
          end
      end
  end.

Section infer.
Context {H : Sha256}.

Definition InferStateModel (g : EvidenceGraph) (t : TrustedValidationContext) : StateModel * option plan_err :=
  let m := set_raw (DigestEvidence g) (initial_model g) in
  match normalizeEvidence g t with
  | Err (e, validationDigest) => (set_validation validationDigest m, Some e)
  | Ok (normalized, validationDigest) =>
      let m := set_validation validationDigest m in
      match digestValidatedEvidence normalized validationDigest with
      | Err e => (m, Some e)
      | Ok digest => infer_normalized normalized (set_evidence digest m)
      end
  end.
End infer.
