(* ===== verification/HardNatPlan.v ===== *)
(** * Hard-NAT planning: the planner
    (src/internal/v2/hardnatplan/planner.go, compact.go)

    Both caches of probabilities return what the functions compute, so they do
    not appear.  The value that a Go function returns beside an error is not
    modelled. *)
From S2P Require Import Prelude GoStd LivenessWire HardNatArith HardNatTypes HardNatStun HardNatEvidence.
Open Scope go_scope.

Definition minimumAsymmetricPPTrillion : Z := 632000000000.
Definition minimumHard16FullPPTrillion : Z := 60000000000.
Definition minimumHard32FullPPTrillion : Z := 221000000000.
Definition MaxModelCoverageBytes : Z := 256.

Definition label (s : string) : list Z := string_bytes s ++ [0].
Definition planEncodingLabel : list Z := label "winkyou-hardnat-plan-v3".
Definition costEncodingLabel : list Z := label "winkyou-hardnat-cost-v1".
Definition sourceEncodingLabel : list Z := label "winkyou-hardnat-source-commitment-v1".
Definition jointEncodingLabel : list Z := label "winkyou-hardnat-joint-plan-v1".
Definition prpEncodingLabel : list Z := label "winkyou-hardnat-prp-v1".

(** ** Shapes *)
Record planShape := mkShape {
  sh_cost : Cost;
  sh_universe : Universe;
  sh_candidates : Z;
  sh_executable : bool;
}.

(** [predicted] is the number of the model's predicted source ports, all that
    [shapeFor] reads of it. *)
Definition shapeFor (profile resource role : string) (predicted : Z) : res plan_err planShape :=
  if bool_decide (profile = ProfilePredictiveEdm) && bool_decide (resource = ResourcePredictive) then
    Ok (mkShape (mkPlanCost 8 64 64 64 32 13000) (mkUniverse "peer-source-schedule/1" 0 0 predicted) predicted true)
  else if bool_decide (profile = ProfileAsymmetricBirthday) && bool_decide (resource = ResourceAsymmetric) then
    Ok (mkShape (mkPlanCost 128 512 512 512 64 13000) (mkUniverse "nonzero-udp-ports/1" 1 65535 0)
          (if bool_decide (role = RoleMappingSet) then 128 else 512) true)
  else if bool_decide (profile = ProfileHardBirthday) && bool_decide (resource = ResourceHard16KLab) then
    Ok (mkShape (mkPlanCost 16 16400 16400 16432 512 45000)
          (mkUniverse "iana-dynamic-private-49152-65535/1" DynamicPortMin DynamicPortMax 0) DynamicPortCount true)
  else if bool_decide (profile = ProfileHardBirthday) && bool_decide (resource = ResourceHard32KCandidate) then
    Ok (mkShape (mkPlanCost 32 32768 32768 32768 512 45000)
          (mkUniverse "iana-dynamic-private-49152-65535/two-socket-rounds/1" DynamicPortMin DynamicPortMax 32768)
          32768 false)
  else Err ErrUnsupportedProfile.

Definition commitment_predicted (c : LocalSourceCommitment) : Z :=
  if bool_decide (lc_ResourceClass c = ResourcePredictive) then Z.of_nat (length (lc_SourceSlots c)) else 0.
Definition shapeForCommitment (c : LocalSourceCommitment) : res plan_err planShape :=
  shapeFor (lc_Profile c) (lc_ResourceClass c) (lc_Role c) (commitment_predicted c).

(** ** Probabilities *)
Definition some_or {A} (e : plan_err) (x : option A) : res plan_err A :=
  match x with Some a => Ok a | None => Err e end.

Definition collision (universe left right : Z) : res plan_err Probability :=
  some_or ErrInvalidProbabilityInput (CollisionProbabilityWithoutReplacement universe left right).

Definition probabilityForHardShape (coverage : string) (shape : planShape) : res plan_err ProbabilityReport :=
  let q := sh_candidates shape in
  let! fullUniverse := some_or ErrProbabilityInputOverflow (checkedProduct 65535 65535) in
  let! conditionalUniverse := some_or ErrProbabilityInputOverflow (checkedProduct DynamicPortCount DynamicPortCount) in
  let! primary := collision conditionalUniverse q q in
  let! baseline := collision fullUniverse q q in
  let! poisson := some_or ErrInvalidProbabilityInput
    (PoissonApproximation (pb_Universe primary) (pb_LeftDraws primary) (pb_RightDraws primary)) in
  let! delta := some_or ErrInvalidProbabilityInput (ApproximationDelta primary poisson) in
  Ok (mkReport ProfileHardBirthday (un_Name (sh_universe shape))
        "public mappings remain uniformly inside the compiled 49152-65535 model universe" true coverage
        primary baseline poisson delta).

Definition probabilityFor (resource : string) (predicted : Z) (coverage : string) (shape : planShape)
    : res plan_err ProbabilityReport :=
  if bool_decide (resource = ResourceHard16KLab) || bool_decide (resource = ResourceHard32KCandidate)
  then probabilityForHardShape coverage shape
  else if bool_decide (resource = ResourcePredictive) then
    let! primary := collision predicted predicted 1 in
    let! poisson := some_or ErrInvalidProbabilityInput
      (PoissonApproximation (pb_Universe primary) (pb_LeftDraws primary) (pb_RightDraws primary)) in
    let! delta := some_or ErrInvalidProbabilityInput (ApproximationDelta primary poisson) in
    Ok (mkReport ProfilePredictiveEdm (un_Name (sh_universe shape))
          "both committed source schedules remain valid for the directional attempt" true coverage
          primary primary poisson delta)
  else if bool_decide (resource = ResourceAsymmetric) then
    let! primary := collision 65535 128 512 in
    let! poisson := some_or ErrInvalidProbabilityInput (PoissonApproximation 65535 128 512) in
    let! delta := some_or ErrInvalidProbabilityInput (ApproximationDelta primary poisson) in
    Ok (mkReport ProfileAsymmetricBirthday (un_Name (sh_universe shape))
          "EDM mappings are uniform without replacement and the opposite mapping is reusable" true coverage
          primary primary poisson delta)
  else Err ErrUnsupportedProfile.

Definition probabilityForCommitment (c : LocalSourceCommitment) (shape : planShape) : res plan_err ProbabilityReport :=
  probabilityFor (lc_ResourceClass c) (commitment_predicted c) (rp_ModelCoverage (lc_Probability c)) shape.

Definition probabilityAdmitted (resource : string) (report : ProbabilityReport) : bool :=
  if bool_decide (resource = ResourcePredictive)
  then pb_FloorPartsPerTrillion (rp_Primary report) =? ProbabilityScale
  else if bool_decide (resource = ResourceAsymmetric)
  then minimumAsymmetricPPTrillion <=? pb_FloorPartsPerTrillion (rp_Primary report)
  else if bool_decide (resource = ResourceHard16KLab)
  then minimumHard16FullPPTrillion <=? pb_FloorPartsPerTrillion (rp_FullRangeBaseline report)
  else if bool_decide (resource = ResourceHard32KCandidate)
  then minimumHard32FullPPTrillion <=? pb_FloorPartsPerTrillion (rp_FullRangeBaseline report)
  else false.

(** ** Models and slots *)
Definition validateModelForProfile (profile role : string) (m : StateModel) : option plan_err :=
  if negb (sm_PublicAddressStable m) || (sm_SuccessfulSamples m <? MinSuccessfulAllocationSamples)
     || (sm_ObserverAddressCount m <? 2) || negb (sm_HasAlternatePort m)
  then Some ErrEvidenceInsufficient
  else if bool_decide (profile = ProfilePredictiveEdm) then
    if negb (endpointDependent (sm_Mapping m))
       || (negb (bool_decide (sm_Allocation m = AllocationSequentialUniform))
           && negb (bool_decide (sm_Allocation m = AllocationMonotonicNonuniform)))
       || negb (Z.of_nat (length (sm_PredictedSourcePorts m)) =? PredictiveWindowPorts)
    then Some ErrEvidenceInsufficient else None
  else if bool_decide (profile = ProfileAsymmetricBirthday) then
    if bool_decide (role = RoleMappingSet) && negb (endpointDependent (sm_Mapping m))
    then Some ErrEvidenceInsufficient
    else if bool_decide (role = RoleTargetSet)
            && (negb (bool_decide (sm_Mapping m = MappingEIM)) || negb (endpoint_Valid (sm_ReusableEndpoint m)))
    then Some ErrEvidenceInsufficient else None
  else if bool_decide (profile = ProfileHardBirthday) then
    if negb (endpointDependent (sm_Mapping m)) || negb (bool_decide (sm_Allocation m = AllocationApparentlyRandom))
    then Some ErrEvidenceInsufficient else None
  else Some ErrUnsupportedProfile.

Definition receives (profile role : string) : bool :=
  bool_decide (profile = ProfileAsymmetricBirthday) && bool_decide (role = RoleTargetSet).
Definition validateReceiveEndpoint (profile role : string) (endpoint : AddressPort) : option plan_err :=
  if receives profile role && negb (endpoint_Valid endpoint) then Some ErrInvalidEvidence
  else if negb (receives profile role) && negb (bool_decide (endpoint = zero_endpoint)) then Some ErrInvalidEvidence
  else None.

Definition plain_slots (n : nat) : list SourceSlot :=
  map (fun i => mkSlot (Z.of_nat i) (Z.of_nat i) 0) (seq 0 n).

Definition sourceSlotsFor (resource role : string) (ports : list Z) (reusableSlot : Z) (endpoint : AddressPort)
    : res plan_err (list SourceSlot) :=
  if bool_decide (resource = ResourcePredictive) then
    if existsb (fun port => port =? 0) ports then Err ErrEvidenceInsufficient
    else Ok (imap (fun ordinal port => mkSlot (Z.of_nat ordinal mod 8) (Z.of_nat ordinal) port) ports)
  else if bool_decide (resource = ResourceAsymmetric) then
    if bool_decide (role = RoleMappingSet) then Ok (plain_slots 128)
    else if bool_decide (role = RoleTargetSet) && endpoint_Valid endpoint
    then Ok [mkSlot reusableSlot 0 (ap_Port endpoint)]
    else Err ErrUnsupportedProfile
  else if bool_decide (resource = ResourceHard16KLab) then Ok (plain_slots 16)
  else if bool_decide (resource = ResourceHard32KCandidate) then Ok (plain_slots 32)
  else Err ErrUnsupportedProfile.

(** ** Digests *)
Definition appendUniverse (u : Universe) : list Z :=
  appendString (un_Name u) ++ appendUint16 (un_Min u) ++ appendUint16 (un_Max u) ++ appendUint32 (un_Count u).
Definition appendProbability (p : Probability) : list Z :=
  appendUint64 (pb_Universe p) ++ appendUint64 (pb_LeftDraws p) ++ appendUint64 (pb_RightDraws p)
  ++ appendUint64 (pb_PrecisionBits p) ++ appendString (pb_LowerDecimal p) ++ appendString (pb_UpperDecimal p)
  ++ appendUint64 (pb_FloorPartsPerTrillion p) ++ appendString (pb_ExactRational p).
Definition appendProbabilityReport (r : ProbabilityReport) : list Z :=
  appendString (rp_Model r) ++ appendString (rp_Universe r) ++ appendString (rp_Assumptions r)
  ++ appendBool (rp_Conditional r) ++ appendString (rp_ModelCoverage r) ++ appendProbability (rp_Primary r)
  ++ appendProbability (rp_FullRangeBaseline r) ++ appendString (rp_PoissonApproximation r)
  ++ appendString (rp_ApproximationDelta r).

Section digests.
Context {H : Sha256}.

Definition digestCost (profile resource : string) (c : Cost) : list Z :=
  sum256 (costEncodingLabel ++ appendString profile ++ appendString resource ++ appendUint32 (ct_Sockets c)
    ++ appendUint32 (ct_Targets c) ++ appendUint32 (ct_FiveTuples c) ++ appendUint32 (ct_Packets c)
    ++ appendUint32 (ct_PacketsPerSecond c) ++ appendUint32 (ct_ActiveMillis c)).

Definition digestSourceCommitment (c : LocalSourceCommitment) : list Z :=
  sum256 (sourceEncodingLabel ++ appendString (lc_Profile c) ++ appendString (lc_ResourceClass c)
    ++ appendString (lc_Role c) ++ lc_AttemptDigest c ++ appendUint64 (lc_Generation c)
    ++ appendUniverse (lc_Universe c) ++ appendAddress (ap_Address (lc_ReceiveEndpoint c))
    ++ appendUint16 (ap_Port (lc_ReceiveEndpoint c)) ++ lc_EvidenceDigest c ++ lc_ValidationDigest c
    ++ lc_CostDigest c ++ appendProbabilityReport (lc_Probability c) ++ appendBool (lc_Executable c)
    ++ appendUint32 (Z.of_nat (length (lc_SourceSlots c)))
    ++ concat (map (fun slot => appendUint16 (sl_SocketSlot slot) ++ appendUint32 (sl_Ordinal slot)
                               ++ appendUint16 (sl_ExpectedPublicSourcePort slot)) (lc_SourceSlots c))).

(** The bytes that [digestPlan] hashes. *)
Definition plan_encoding (p : Plan) (attemptDigest : list Z) : list Z :=
  planEncodingLabel ++ appendString (pn_Profile p) ++ appendString (pn_ResourceClass p)
    ++ appendString (pn_Role p) ++ attemptDigest ++ appendUint64 (pn_Generation p)
    ++ appendUniverse (pn_Universe p) ++ pn_EvidenceDigest p ++ pn_CostDigest p
    ++ appendProbabilityReport (pn_Probability p) ++ appendBool (pn_Executable p)
    ++ appendUint32 (Z.of_nat (length (pn_Candidates p)))
    ++ concat (map (fun c => appendString (cn_Role c) ++ appendUint16 (cn_SocketSlot c)
                            ++ appendUint32 (cn_Ordinal c) ++ appendUint16 (cn_ExpectedSourcePort c)
                            ++ appendUint16 (cn_TargetPort c)) (pn_Candidates p)).

Definition digestPlan (p : Plan) (attemptDigest : list Z) : list Z := sum256 (plan_encoding p attemptDigest).

Definition appendDirection (d : DirectionalCommitment) : list Z :=
  appendString (dc_Role d) ++ dc_SourceDigest d ++ dt_Plan (dc_Triple d) ++ dt_Cost (dc_Triple d)
  ++ dt_Evidence (dc_Triple d).
Definition digestJointCommitment (c : JointPlanCommitment) : list Z :=
  sum256 (jointEncodingLabel ++ appendString (jc_Profile c) ++ appendString (jc_ResourceClass c)
    ++ jc_AttemptDigest c ++ appendUint64 (jc_Generation c) ++ appendDirection (jc_First c)
    ++ appendDirection (jc_Second c)).

Definition VerifyJointCommitment (expected received : JointPlanCommitment) : option plan_err :=
  if negb (validJointCommitmentShape expected) || negb (validJointCommitmentShape received)
     || negb (bool_decide (jc_JointDigest expected = digestJointCommitment expected))
     || negb (bool_decide (jc_JointDigest received = digestJointCommitment received))
     || negb (bool_decide (expected = received))
  then Some ErrPlanMismatch else None.
End digests.

(** ** Commitments *)

(** The loop of [validateSourceSlots]. *)
Fixpoint slots_ok (resource role : string) (receivePort sockets : Z) (index : Z) (slots : list SourceSlot)
    (seenPorts : gset Z) : bool :=
  match slots with
  | [] => true
  | slot :: rest =>
      let next seen := slots_ok resource role receivePort sockets (index + 1) rest seen in
      let port := sl_ExpectedPublicSourcePort slot in
      if negb (sl_Ordinal slot =? index) then false
      else if bool_decide (resource = ResourcePredictive) then
        if negb (sl_SocketSlot slot =? index mod 8) || (port =? 0) || bool_decide (port ∈ seenPorts) then false
        else next ({[port]} ∪ seenPorts)
      else if bool_decide (resource = ResourceAsymmetric) then
        if (bool_decide (role = RoleMappingSet) && (negb (sl_SocketSlot slot =? index) || negb (port =? 0)))
           || (bool_decide (role = RoleTargetSet) && negb (port =? receivePort))
           || (bool_decide (role = RoleTargetSet) && (sockets <=? sl_SocketSlot slot))
        then false else next seenPorts
      else if negb (sl_SocketSlot slot =? index) || negb (port =? 0) then false
      else next seenPorts
  end.

Definition wanted_slots (resource role : string) : option Z :=
  if bool_decide (resource = ResourcePredictive) then Some PredictiveWindowPorts
  else if bool_decide (resource = ResourceAsymmetric)
  then Some (if bool_decide (role = RoleTargetSet) then 1 else 128)
  else if bool_decide (resource = ResourceHard16KLab) then Some 16
  else if bool_decide (resource = ResourceHard32KCandidate) then Some 32
  else None.

Definition validateSourceSlots (c : LocalSourceCommitment) : option plan_err :=
  match wanted_slots (lc_ResourceClass c) (lc_Role c) with
  | None => Some ErrUnsupportedProfile
  | Some want =>
      if negb (Z.of_nat (length (lc_SourceSlots c)) =? want) then Some ErrPlanMismatch
      else if slots_ok (lc_ResourceClass c) (lc_Role c) (ap_Port (lc_ReceiveEndpoint c)) (ct_Sockets (lc_Cost c))
                0 (lc_SourceSlots c) ∅
      then None else Some ErrPlanMismatch
  end.

Section commitments.
Context {H : Sha256}.

Definition validateLocalCommitment (c : LocalSourceCommitment) : option plan_err :=
  match validateRole (lc_Profile c) (lc_Role c) with
  | Some e => Some e
  | None =>
      match validateReceiveEndpoint (lc_Profile c) (lc_Role c) (lc_ReceiveEndpoint c) with
      | Some e => Some e
      | None =>
          match shapeForCommitment c with
          | Err e => Some e
          | Ok shape =>
              match probabilityForCommitment c shape with
              | Err e => Some e
              | Ok probability =>
                  if negb (bool_decide (lc_Cost c = sh_cost shape))
                     || negb (bool_decide (lc_Universe c = sh_universe shape))
                     || negb (Bool.eqb (lc_Executable c) (sh_executable shape))
                     || negb (bool_decide (lc_CostDigest c = digestCost (lc_Profile c) (lc_ResourceClass c) (lc_Cost c)))
                     || allZero (lc_EvidenceDigest c) || allZero (lc_ValidationDigest c)
                     || negb (bool_decide (lc_SourceDigest c = digestSourceCommitment c))
                     || negb (bool_decide (lc_Probability c = probability))
                     || negb (probabilityAdmitted (lc_ResourceClass c) (lc_Probability c))
                  then Some ErrPlanMismatch
                  else validateSourceSlots c
              end
          end
      end
  end.

(** The commitment with its digest. *)
Definition with_source_digest (c : LocalSourceCommitment) : LocalSourceCommitment :=
  mkCommitment (lc_Profile c) (lc_ResourceClass c) (lc_Role c) (lc_AttemptDigest c) (lc_Generation c)
    (lc_SourceSlots c) (lc_ReceiveEndpoint c) (lc_Universe c) (lc_Cost c) (lc_Probability c)
    (lc_EvidenceDigest c) (lc_ValidationDigest c) (lc_CostDigest c) (digestSourceCommitment c) (lc_Executable c).

Definition BuildLocalCommitment (input : LocalCommitmentInput) : res plan_err LocalSourceCommitment :=
  let '(mkLocalInput profile resource context evidence validation budget) := input in
  let role := ac_Role context in
  if (ac_Generation context =? 0) || allZero (ac_AttemptDigest context)
     || negb (bool_decide (ac_AttemptDigest context = eg_AttemptDigest evidence))
     || negb (ac_Generation context =? eg_Generation evidence)
  then Err ErrInvalidEvidence
  else
    check! validateRole profile role in
    let '(model, err) := InferStateModel evidence validation in
    check! err in
    check! validateModelForProfile profile role model in
    let receiveEndpoint := if receives profile role then sm_ReusableEndpoint model else zero_endpoint in
    check! validateReceiveEndpoint profile role receiveEndpoint in
    let predicted := Z.of_nat (length (sm_PredictedSourcePorts model)) in
    let! shape := shapeFor profile resource role predicted in
    let! probability := probabilityFor resource predicted (sm_Coverage model) shape in
    if negb (probabilityAdmitted resource probability) || negb (admits budget (sh_cost shape))
    then Err ErrInsufficientBudget
    else
      let! slots := sourceSlotsFor resource role (sm_PredictedSourcePorts model) (sm_ReusableEndpointSlot model)
                      receiveEndpoint in
      Ok (with_source_digest
            (mkCommitment profile resource role (ac_AttemptDigest context) (ac_Generation context) slots
               receiveEndpoint (sh_universe shape) (sh_cost shape) probability (sm_EvidenceDigest model)
               (sm_ValidationDigest model) (digestCost profile resource (sh_cost shape)) zero_digest
               (sh_executable shape))).

Definition canonicalCommitments (left right : LocalSourceCommitment)
    : res plan_err (LocalSourceCommitment * LocalSourceCommitment) :=
  if negb (bool_decide (lc_Profile left = lc_Profile right))
     || negb (bool_decide (lc_ResourceClass left = lc_ResourceClass right))
     || negb (bool_decide (lc_AttemptDigest left = lc_AttemptDigest right))
     || negb (lc_Generation left =? lc_Generation right) || (lc_Generation left =? 0)
     || allZero (lc_AttemptDigest left)
  then Err ErrPlanMismatch
  else match profile_roles (lc_Profile left) with
  | None => Err ErrUnsupportedProfile
  | Some (firstRole, secondRole) =>
      if bool_decide (lc_Role left = firstRole) && bool_decide (lc_Role right = secondRole) then Ok (left, right)
      else if bool_decide (lc_Role right = firstRole) && bool_decide (lc_Role left = secondRole) then Ok (right, left)
      else Err ErrPlanMismatch
  end.

(** *** The compact form (compact.go) *)
Record CompactSourceInput := mkCompact {
  ci_Profile : string;
  ci_ResourceClass : string;
  ci_Role : string;
  ci_AttemptDigest : list Z;
  ci_Generation : Z;
  ci_PredictedPorts : list Z;
  ci_ReceiveEndpoint : AddressPort;
  ci_ReceiveSocketSlot : Z;
  ci_EvidenceDigest : list Z;
  ci_ValidationDigest : list Z;
  ci_ModelCoverage : string;
}.

(** What the model of [ReconstructLocalCommitment] holds: the predicted ports
    and the slot of the reusable endpoint. *)
Definition compact_model (input : CompactSourceInput) : res plan_err (list Z * Z) :=
  let plain := bool_decide (ci_ReceiveEndpoint input = zero_endpoint) && (ci_ReceiveSocketSlot input =? 0) in
  let ports := Z.of_nat (length (ci_PredictedPorts input)) in
  if bool_decide (ci_ResourceClass input = ResourcePredictive) then
    if negb (bool_decide (ci_Profile input = ProfilePredictiveEdm)) || negb (ports =? PredictiveWindowPorts)
       || negb plain
    then Err ErrPlanMismatch else Ok (ci_PredictedPorts input, 0)
  else if bool_decide (ci_ResourceClass input = ResourceAsymmetric) then
    if negb (bool_decide (ci_Profile input = ProfileAsymmetricBirthday)) || negb (ports =? 0) then Err ErrPlanMismatch
    else if bool_decide (ci_Role input = RoleTargetSet) then
      if negb (endpoint_Valid (ci_ReceiveEndpoint input)) then Err ErrPlanMismatch
      else Ok ([], ci_ReceiveSocketSlot input)
    else if negb plain then Err ErrPlanMismatch else Ok ([], 0)
  else if bool_decide (ci_ResourceClass input = ResourceHard16KLab) then
    if negb (bool_decide (ci_Profile input = ProfileHardBirthday)) || negb (ports =? 0) || negb plain
    then Err ErrPlanMismatch else Ok ([], 0)
  else Err ErrUnsupportedProfile.

Definition ReconstructLocalCommitment (input : CompactSourceInput) : res plan_err LocalSourceCommitment :=
  let profile := ci_Profile input in
  let resource := ci_ResourceClass input in
  let role := ci_Role input in
  if (ci_Generation input =? 0) || allZero (ci_AttemptDigest input) || allZero (ci_EvidenceDigest input)
     || allZero (ci_ValidationDigest input) || (slen (ci_ModelCoverage input) =? 0)
     || (MaxModelCoverageBytes <? slen (ci_ModelCoverage input))
  then Err ErrPlanMismatch
  else
    check! validateRole profile role in
    let! (ports, reusableSlot) := compact_model input in
    let predicted := Z.of_nat (length ports) in
    match shapeFor profile resource role predicted with
    | Err _ => Err ErrUnsupportedProfile
    | Ok shape =>
        if negb (sh_executable shape) then Err ErrUnsupportedProfile
        else match probabilityFor resource predicted (ci_ModelCoverage input) shape with
        | Err _ => Err ErrPlanMismatch
        | Ok probability =>
            if negb (probabilityAdmitted resource probability) then Err ErrPlanMismatch
            else
              let! slots := sourceSlotsFor resource role ports reusableSlot (ci_ReceiveEndpoint input) in
              let commitment := with_source_digest
                (mkCommitment profile resource role (ci_AttemptDigest input) (ci_Generation input) slots
                   (ci_ReceiveEndpoint input) (sh_universe shape) (sh_cost shape) probability
                   (ci_EvidenceDigest input) (ci_ValidationDigest input)
                   (digestCost profile resource (sh_cost shape)) zero_digest (sh_executable shape)) in
              check! validateLocalCommitment commitment in Ok commitment
        end
    end.

Definition CompactSourceInputFor (c : LocalSourceCommitment) : res plan_err CompactSourceInput :=
  check! validateLocalCommitment c in
  Ok (mkCompact (lc_Profile c) (lc_ResourceClass c) (lc_Role c) (lc_AttemptDigest c) (lc_Generation c)
        (if bool_decide (lc_ResourceClass c = ResourcePredictive)
         then map sl_ExpectedPublicSourcePort (lc_SourceSlots c) else [])
        (lc_ReceiveEndpoint c)
        (if bool_decide (lc_ResourceClass c = ResourceAsymmetric) && bool_decide (lc_Role c = RoleTargetSet)
         then default 0 (sl_SocketSlot <$> head (lc_SourceSlots c)) else 0)
        (lc_EvidenceDigest c) (lc_ValidationDigest c) (rp_ModelCoverage (lc_Probability c))).
End commitments.

(** ** Candidates *)
Class Hmac := hmac_sha256 : list Z -> list Z -> list Z.

(** A draw rejects values below a threshold and tries the next counter; at most
    [attempts] counters are tried, and [None] is a draw that needs more. *)
Section candidates.
Context {M : Hmac} (attempts : nat).

Definition prf_threshold (bound : Z) : Z := (2 ^ 64 - bound) mod bound.
Definition prf_value (key domain : list Z) (ordinal counter : Z) : Z :=
  be_decode (take 8 (hmac_sha256 key
    (prpEncodingLabel ++ appendBytes domain ++ appendUint32 ordinal ++ appendUint32 counter))).

Fixpoint prf_loop (fuel : nat) (key domain : list Z) (ordinal bound counter : Z) : option Z :=
  match fuel with
  | O => None
  | S fuel' =>
      let value := prf_value key domain ordinal counter in
      if prf_threshold bound <=? value then Some (value mod bound)
      else prf_loop fuel' key domain ordinal bound (wrap 32 (counter + 1))
  end.
Definition prfIndex (key domain : list Z) (ordinal bound : Z) : option Z :=
  prf_loop attempts key domain ordinal bound 0.

Definition swap (i j : nat) (values : list Z) : list Z :=
  match values !! i, values !! j with
  | Some x, Some y => <[i := y]> (<[j := x]> values)
  | _, _ => values
  end.

(** The loop of [shuffleUint16], from [index] down to 1. *)
Fixpoint shuffle_loop (key domain : list Z) (index : nat) (values : list Z) : option (list Z) :=
  match index with
  | O => Some values
  | S index' =>
      selected ← prfIndex key domain (Z.of_nat index) (Z.of_nat index + 1);
      shuffle_loop key domain index' (swap index (Z.to_nat selected) values)
  end.
Definition shuffleUint16 (key domain : list Z) (values : list Z) : option (list Z) :=
  shuffle_loop key domain (length values - 1) values.

Definition portRange (minimum maximum : Z) : list Z :=
  map (fun i => minimum + Z.of_nat i) (seq 0 (Z.to_nat (maximum - minimum + 1))).

(** [inverse[permutation[index]] = index]. *)
Definition inverse_of (permutation : list Z) : list Z :=
  foldl (fun inverse (it : nat * Z) => <[Z.to_nat it.2 := Z.of_nat it.1]> inverse)
    (replicate (length permutation) 0) (imap pair permutation).

Definition zero_slot : SourceSlot := mkSlot 0 0 0.
Definition slot_at (slots : list SourceSlot) (index : Z) : SourceSlot := nth (Z.to_nat index) slots zero_slot.

(** Strings joined by a zero byte. *)
Definition domain (parts : list string) : list Z :=
  match parts with
  | [] => []
  | s :: rest => string_bytes s ++ concat (map (fun s => 0 :: string_bytes s) rest)
  end.

Definition pairing_domain : list Z := domain ["predictive-bilateral-pairing"; "initiator"; "responder"]%string.

Definition predictive_candidates (local peer : LocalSourceCommitment) (key : list Z) : option (list Candidate) :=
  permutation ← shuffleUint16 key pairing_domain
    (map Z.of_nat (seq 0 (length (lc_SourceSlots peer))));
  let permutation := if bool_decide (lc_Role local = RoleResponder) then inverse_of permutation else permutation in
  Some (imap (fun ordinal slot =>
          mkPlanCandidate (lc_Role local) (sl_SocketSlot slot) (Z.of_nat ordinal) (sl_ExpectedPublicSourcePort slot)
            (sl_ExpectedPublicSourcePort (slot_at (lc_SourceSlots peer) (nth ordinal permutation 0))))
        (lc_SourceSlots local)).

Definition mapping_candidates (local peer : LocalSourceCommitment) (key : list Z) : option (list Candidate) :=
  slots ← shuffleUint16 key (domain [lc_Role local; "mapping-slots"%string]) (map sl_SocketSlot (lc_SourceSlots local));
  Some (imap (fun ordinal slot =>
          mkPlanCandidate (lc_Role local) slot (Z.of_nat ordinal) 0 (ap_Port (lc_ReceiveEndpoint peer))) slots).

Definition target_candidates (local : LocalSourceCommitment) (key : list Z) : option (list Candidate) :=
  ports ← shuffleUint16 key (domain [lc_Role local; "target-ports"%string]) (portRange 1 65535);
  Some (imap (fun ordinal port =>
          mkPlanCandidate (lc_Role local) (sl_SocketSlot (slot_at (lc_SourceSlots local) 0)) (Z.of_nat ordinal)
            (ap_Port (lc_ReceiveEndpoint local)) port) (take 512 ports)).

(** [rounds] passes over the shuffled ports, 1024 candidates per socket. *)
Definition hard_candidates (local : LocalSourceCommitment) (suffix : string) (rounds : nat) (key : list Z)
    : option (list Candidate) :=
  ports ← shuffleUint16 key (domain [lc_Role local; suffix]) (portRange DynamicPortMin DynamicPortMax);
  Some (imap (fun ordinal port =>
          mkPlanCandidate (lc_Role local) (Z.of_nat ordinal / 1024) (Z.of_nat ordinal) 0 port)
        (concat (replicate rounds ports))).

Definition buildDirectionalCandidates (local peer : LocalSourceCommitment) (key : list Z)
    : option (res plan_err (list Candidate)) :=
  if bool_decide (lc_ResourceClass local = ResourcePredictive) then Ok <$> predictive_candidates local peer key
  else if bool_decide (lc_ResourceClass local = ResourceAsymmetric) then
    if bool_decide (lc_Role local = RoleMappingSet) then
      if negb (endpoint_Valid (lc_ReceiveEndpoint peer)) then Some (Err ErrPlanMismatch)
      else Ok <$> mapping_candidates local peer key
    else Ok <$> target_candidates local key
  else if bool_decide (lc_ResourceClass local = ResourceHard16KLab) then
    Ok <$> hard_candidates local "hard-16k" 1 key
  else if bool_decide (lc_ResourceClass local = ResourceHard32KCandidate) then
    Ok <$> hard_candidates local "hard-32k" 2 key
  else Some (Err ErrUnsupportedProfile).
End candidates.

(** ** The bilateral plan *)
Section bilateral.
Context {H : Sha256} {M : Hmac} (attempts : nat).

Definition with_plan_digest (attemptDigest : list Z) (p : Plan) : Plan :=
  mkPlan (pn_Profile p) (pn_ResourceClass p) (pn_Role p) (pn_Generation p) (pn_Universe p) (pn_Cost p)
    (pn_Candidates p) (pn_Probability p) (pn_EvidenceDigest p) (pn_CostDigest p) (digestPlan p attemptDigest)
    (pn_Executable p).

Definition directional_plan (local peer : LocalSourceCommitment) (key : list Z) : option (res plan_err Plan) :=
  candidates ← buildDirectionalCandidates attempts local peer key;
  Some (let! candidates := candidates in
        let! shape := shapeForCommitment local in
        if negb (Z.of_nat (length candidates) =? sh_candidates shape) then Err ErrUnsupportedProfile
        else Ok (with_plan_digest (lc_AttemptDigest local)
               (mkPlan (lc_Profile local) (lc_ResourceClass local) (lc_Role local) (lc_Generation local)
                  (lc_Universe local) (lc_Cost local) candidates (lc_Probability local) (lc_EvidenceDigest local)
                  (lc_CostDigest local) zero_digest (lc_Executable local)))).

Definition planner_key_context (first second : LocalSourceCommitment) : PlannerKeyContext :=
  mkKeyContext (lc_AttemptDigest first) (lc_Generation first) (lc_Profile first) (lc_ResourceClass first)
    (lc_EvidenceDigest first) (lc_EvidenceDigest second).

Definition joint_of (first second : LocalSourceCommitment) (p1 p2 : Plan) (jointDigest : list Z) : BilateralPlan :=
  mkBilateral (lc_Profile first) (lc_ResourceClass first) (lc_AttemptDigest first) (lc_Generation first) p1 p2
    (lc_SourceDigest first) (lc_SourceDigest second) jointDigest.

(** [keySource] is the planner's interface; its error is [None]. *)
Definition BuildBilateralPlan (left right : LocalSourceCommitment)
    (keySource : option (PlannerKeyContext -> option (list Z))) : option (res plan_err BilateralPlan) :=
  match canonicalCommitments left right with
  | Err e => Some (Err e)
  | Ok (first, second) =>
      match validateLocalCommitment first, validateLocalCommitment second with
      | Some e, _ => Some (Err e)
      | None, Some e => Some (Err e)
      | None, None =>
          match keySource with
          | None => Some (Err ErrInvalidPlannerKey)
          | Some derive =>
              match derive (planner_key_context first second) with
              | None => Some (Err ErrInvalidPlannerKey)
              | Some key =>
                  if allZero key then Some (Err ErrInvalidPlannerKey)
                  else
                    match directional_plan first second key with
                    | None => None
                    | Some (Err e) => Some (Err e)
                    | Some (Ok p1) =>
                        match directional_plan second first key with
                        | None => None
                        | Some (Err e) => Some (Err e)
                        | Some (Ok p2) =>
                            let digest := digestJointCommitment (Commitment (joint_of first second p1 p2 zero_digest)) in
                            Some (Ok (joint_of first second p1 p2 digest))
                        end
                    end
              end
          end
      end
  end.
End bilateral.

(** ** Verification *)

(** The loop of [validatePlanCandidates]. *)
Fixpoint candidates_ok (source : LocalSourceCommitment) (role : string) (sockets : Z) (index : Z)
    (candidates : list Candidate) (seen : gset (Z * Z)) : option plan_err :=
  match candidates with
  | [] => None
  | c :: rest =>
      let resource := lc_ResourceClass source in
      let slot := slot_at (lc_SourceSlots source) index in
      let next := candidates_ok source role sockets (index + 1) rest ({[(cn_SocketSlot c, cn_TargetPort c)]} ∪ seen) in
      if negb (bool_decide (cn_Role c = role)) || negb (cn_Ordinal c =? index) || (cn_TargetPort c =? 0)
         || (sockets <=? cn_SocketSlot c)
      then Some ErrPlanMismatch
      else if bool_decide ((cn_SocketSlot c, cn_TargetPort c) ∈ seen) then Some ErrPlanMismatch
      else if bool_decide (resource = ResourcePredictive) then
        if (Z.of_nat (length (lc_SourceSlots source)) <=? index) || negb (cn_SocketSlot c =? sl_SocketSlot slot)
           || negb (cn_ExpectedSourcePort c =? sl_ExpectedPublicSourcePort slot)
        then Some ErrPlanMismatch else next
      else if bool_decide (resource = ResourceAsymmetric) then
        if (bool_decide (lc_Role source = RoleMappingSet) && negb (cn_ExpectedSourcePort c =? 0))
           || (bool_decide (lc_Role source = RoleTargetSet)
               && (negb (cn_SocketSlot c =? sl_SocketSlot (slot_at (lc_SourceSlots source) 0))
                   || negb (cn_ExpectedSourcePort c =? ap_Port (lc_ReceiveEndpoint source))))
        then Some ErrPlanMismatch else next
      else if bool_decide (resource = ResourceHard16KLab) || bool_decide (resource = ResourceHard32KCandidate) then
        if negb (cn_ExpectedSourcePort c =? 0) then Some ErrPlanMismatch else next
      else Some ErrUnsupportedProfile
  end.

Definition validatePlanCandidates (p : Plan) (source : LocalSourceCommitment) (shape : planShape) : option plan_err :=
  if negb (Z.of_nat (length (pn_Candidates p)) =? sh_candidates shape) then Some ErrPlanMismatch
  else candidates_ok source (pn_Role p) (ct_Sockets (sh_cost shape)) 0 (pn_Candidates p) ∅.

Section verification.
Context {H : Sha256}.

Definition direction_matches (p : Plan) (source : LocalSourceCommitment) (d : DirectionalCommitment) : bool :=
  bool_decide (dc_Role d = pn_Role p) && bool_decide (dc_SourceDigest d = lc_SourceDigest source)
  && bool_decide (dc_Triple d = Digests p).

Definition VerifyPlanAgainstCommitment (p : Plan) (source : LocalSourceCommitment) (joint : JointPlanCommitment)
    : option plan_err :=
  match validateLocalCommitment source with
  | Some e => Some e
  | None =>
      if negb (validJointCommitmentShape joint)
         || negb (bool_decide (jc_JointDigest joint = digestJointCommitment joint))
      then Some ErrPlanMismatch
      else if negb (bool_decide (jc_Profile joint = lc_Profile source))
              || negb (bool_decide (jc_ResourceClass joint = lc_ResourceClass source))
              || negb (bool_decide (jc_AttemptDigest joint = lc_AttemptDigest source))
              || negb (jc_Generation joint =? lc_Generation source)
      then Some ErrPlanMismatch
      else if negb (bool_decide (pn_Profile p = lc_Profile source))
              || negb (bool_decide (pn_ResourceClass p = lc_ResourceClass source))
              || negb (bool_decide (pn_Role p = lc_Role source)) || negb (pn_Generation p =? lc_Generation source)
              || negb (bool_decide (pn_Universe p = lc_Universe source))
              || negb (bool_decide (pn_Cost p = lc_Cost source))
              || negb (bool_decide (pn_Probability p = lc_Probability source))
              || negb (bool_decide (pn_EvidenceDigest p = lc_EvidenceDigest source))
              || negb (bool_decide (pn_CostDigest p = lc_CostDigest source))
              || negb (Bool.eqb (pn_Executable p) (lc_Executable source))
              || negb (bool_decide (pn_PlanDigest p = digestPlan p (lc_AttemptDigest source)))
      then Some ErrPlanMismatch
      else match shapeForCommitment source with
      | Err e => Some e
      | Ok shape =>
          match validatePlanCandidates p source shape with
          | Some e => Some e
          | None =>
              if direction_matches p source (jc_First joint) || direction_matches p source (jc_Second joint)
              then None else Some ErrPlanMismatch
          end
      end
  end.

Definition VerifyExecutablePlanAgainstCommitment (p : Plan) (source : LocalSourceCommitment)
    (joint : JointPlanCommitment) : option plan_err :=
  match VerifyPlanAgainstCommitment p source joint with
  | Some e => Some e
  | None => if pn_Executable p then None else Some ErrUnsupportedProfile
  end.
End verification.
