(* ===== verification/HardNatBudget.v ===== *)
(** * Hard-NAT execution envelopes (src/internal/v2/hardnatbudget/budget.go)

    The complete cost of an attempt, of which the planner's cost is the
    candidate search.  A [time.Duration] is its nanoseconds. *)
From S2P Require Import Prelude GoStd Limits Governor LivenessWire HardNatArith HardNatTypes.
Open Scope go_scope.

Definition ActiveEnvelope : Z := 20 * Second.
Definition DrainTimeout : Z := 2 * Second.
Definition AttemptDuration : Z := ActiveEnvelope + DrainTimeout.
Definition FreshEvidencePackets : Z := 13.
Definition CandidateWindow : Z := 9 * Second.
Definition EvidenceWindow : Z := 3 * Second.
Definition Hard16ActiveEnvelope : Z := 45 * Second.
Definition Hard16DrainTimeout : Z := 2 * Second.
Definition Hard16AttemptDuration : Z := Hard16ActiveEnvelope + Hard16DrainTimeout.
Definition Hard16CandidateWindow : Z := 38 * Second.
Definition Hard16CandidatePackets : Z := 16384.
Definition Hard16ActualPacketsMaximum : Z := 16398.
Definition Hard16ActualTargetsMaximum : Z := 16388.
Definition Hard16ActualFiveTupleMaximum : Z := 16395.

Inductive budget_err := ErrUnsupportedEnvelope.

#[export] Instance AttemptCost_eq_dec : EqDecision AttemptCost. Proof. solve_decision. Defined.

Record Envelope := mkEnvelope {
  ev_Profile : string;
  ev_ResourceClass : string;
  ev_Cost : AttemptCost;
}.
#[export] Instance Envelope_eq_dec : EqDecision Envelope. Proof. solve_decision. Defined.

Definition envelope_resources (profile resource : string) : option Resources :=
  if bool_decide (profile = ProfilePredictiveEdm) && bool_decide (resource = ResourcePredictive) then
    Some {| Sockets := 8; Targets := 64; FiveTuples := 64; Packets := 64; PacketsPerSecond := 32 |}
  else if bool_decide (profile = ProfileAsymmetricBirthday) && bool_decide (resource = ResourceAsymmetric) then
    Some {| Sockets := 128; Targets := 516; FiveTuples := 523; Packets := 526; PacketsPerSecond := 64 |}
  else if bool_decide (profile = ProfileHardBirthday) && bool_decide (resource = ResourceHard16KLab) then
    Some {| Sockets := 16; Targets := 16400; FiveTuples := 16400; Packets := 16432; PacketsPerSecond := 512 |}
  else None.

Definition For (profile resource : string) : res budget_err Envelope :=
  match envelope_resources profile resource with
  | None => Err ErrUnsupportedEnvelope
  | Some resources =>
      let duration := if bool_decide (profile = ProfileHardBirthday) then Hard16AttemptDuration else AttemptDuration in
      Ok (mkEnvelope profile resource (mkCost resources duration true))
  end.

Definition envelope_Operation (profile : string) : res budget_err Operation :=
  if bool_decide (profile = ProfilePredictiveEdm) then Ok OperationPrediction
  else if bool_decide (profile = ProfileAsymmetricBirthday) then Ok OperationBirthday
  else if bool_decide (profile = ProfileHardBirthday) then Ok OperationBirthday
  else Err ErrUnsupportedEnvelope.

Definition GovernorProfile (profile resource : string) : res budget_err Profile :=
  let! _ := For profile resource in
  if bool_decide (profile = ProfileHardBirthday) then Ok ProfilePhase1HardNATCampaign
  else Ok ProfilePhase1ManualTraversal.

Definition ActiveDuration (profile resource : string) : res budget_err Z :=
  let! _ := For profile resource in
  if bool_decide (profile = ProfileHardBirthday) then Ok Hard16ActiveEnvelope else Ok ActiveEnvelope.

Definition CandidateDuration (profile resource : string) : res budget_err Z :=
  let! _ := For profile resource in
  if bool_decide (profile = ProfileHardBirthday) then Ok Hard16CandidateWindow else Ok CandidateWindow.

Definition IsHardCampaign (profile resource : string) : bool :=
  bool_decide (profile = ProfileHardBirthday) && bool_decide (resource = ResourceHard16KLab).

Definition Exact (profile resource : string) (operation : Operation) (cost : AttemptCost) : bool :=
  match For profile resource, envelope_Operation profile with
  | Ok envelope, Ok wantOperation =>
      bool_decide (operation = wantOperation) && bool_decide (cost = ev_Cost envelope)
  | _, _ => false
  end.

Section digest.
Context {H : Sha256}.

Definition envelope_Digest (envelope : Envelope) : res budget_err (list Z) :=
  match For (ev_Profile envelope) (ev_ResourceClass envelope) with
  | Err _ => Err ErrUnsupportedEnvelope
  | Ok expected =>
      if negb (bool_decide (expected = envelope)) then Err ErrUnsupportedEnvelope
      else
        let r := cost_Resources (ev_Cost envelope) in
        Ok (sum256 (string_bytes "winkyou-hardnat-execution-envelope-v1" ++ [0]
              ++ appendString (ev_Profile envelope) ++ appendString (ev_ResourceClass envelope)
              ++ appendUint32 (Sockets r) ++ appendUint32 (Targets r) ++ appendUint32 (FiveTuples r)
              ++ appendUint32 (Packets r) ++ appendUint32 (PacketsPerSecond r)
              ++ appendUint64 (wrap 64 (cost_Duration (ev_Cost envelope))) ++ [1]))
  end.
End digest.
