(* ===== verification/HardNatCandidates.v ===== *)
(** * Hard-NAT planning: the keyed shuffle

    [prfIndex] draws without bias, [shuffleUint16] permutes its input, and every
    permutation comes from exactly one sequence of draws. *)
From S2P Require Import Prelude GoStd LivenessWire HardNatArith HardNatTypes HardNatStun HardNatEvidence HardNatPlan.
Open Scope go_scope.

(** ** One draw *)
Lemma prf_threshold_mod bound : 0 < bound -> prf_threshold bound = 2 ^ 64 mod bound.
Proof.
  intros Hb. unfold prf_threshold. rewrite <-(Z.mul_1_l bound) at 1.
  replace (2 ^ 64 - 1 * bound) with (2 ^ 64 + (-1) * bound) by lia. by rewrite Z_mod_plus_full.
Qed.
Lemma prf_threshold_range bound : 0 < bound -> 0 <= prf_threshold bound < bound.
Proof. intros. apply Z.mod_pos_bound. lia. Qed.

(** The number of accepted values with a given residue. *)
Definition prf_share (bound : Z) : Z := 2 ^ 64 / bound.

Lemma prf_accepts_exactly bound residue value :
  0 < bound -> 0 <= residue < bound ->
  prf_threshold bound <= value < 2 ^ 64 /\ value mod bound = residue <->
  exists k, 0 <= k < prf_share bound /\
    value = prf_threshold bound + (residue - prf_threshold bound) mod bound + k * bound.
Proof.
  intros Hb Hr. pose proof (prf_threshold_range bound Hb) as Ht.
  pose proof (Z.div_mod (2 ^ 64) bound ltac:(lia)) as E. rewrite <-prf_threshold_mod in E by done.
  fold (prf_share bound) in E.
  set (t := prf_threshold bound) in *. set (d := (residue - t) mod bound).
  assert (Hd : 0 <= d < bound) by (apply Z.mod_pos_bound; lia).
  assert (Hd' : (t + d) mod bound = residue).
  { unfold d. rewrite Zplus_mod_idemp_r. replace (t + (residue - t)) with residue by lia. by apply Z.mod_small. }
  split.
  - intros [Hv Hm]. exists ((value - t) / bound).
    assert (Hvd : (value - t) mod bound = d).
    { unfold d. by rewrite <-Hm, Zminus_mod_idemp_l. }
    pose proof (Z.div_mod (value - t) bound ltac:(lia)) as Ev. rewrite Hvd in Ev.
    split; [|lia]. split; [apply Z.div_pos; lia|]. apply Z.div_lt_upper_bound; lia.
  - intros (k & Hk & ->). split; [nia|]. by rewrite Z_mod_plus_full.
Qed.

Section draws.
Context {M : Hmac}.

(** Some counter below [attempts] is accepted. *)
Definition drawn (attempts : nat) (key domain : list Z) (ordinal bound : Z) : Prop :=
  exists counter : nat, (counter < attempts)%nat /\
    prf_threshold bound <= prf_value key domain ordinal (wrap 32 (Z.of_nat counter)).

Lemma prf_loop_spec fuel key domain ordinal bound counter :
  (exists n : nat, (n < fuel)%nat /\
     prf_threshold bound <= prf_value key domain ordinal (wrap 32 (counter + Z.of_nat n)) /\
     (forall m : nat, (m < n)%nat ->
        prf_value key domain ordinal (wrap 32 (counter + Z.of_nat m)) < prf_threshold bound) /\
     prf_loop fuel key domain ordinal bound (wrap 32 counter)
     = Some (prf_value key domain ordinal (wrap 32 (counter + Z.of_nat n)) mod bound))
  \/ (prf_loop fuel key domain ordinal bound (wrap 32 counter) = None /\
      forall n : nat, (n < fuel)%nat ->
        prf_value key domain ordinal (wrap 32 (counter + Z.of_nat n)) < prf_threshold bound).
Proof.
  revert counter. induction fuel as [|fuel IH]; intros counter; [right; split; [done|lia]|].
  simpl prf_loop. destruct (Z.leb_spec (prf_threshold bound) (prf_value key domain ordinal (wrap 32 counter))) as [Hle|Hlt].
  - left. exists 0%nat. rewrite Z.add_0_r. repeat split; [lia|done|lia].
  - assert (Ew : wrap 32 (wrap 32 counter + 1) = wrap 32 (counter + 1)).
    { unfold wrap. by rewrite Zplus_mod_idemp_l. }
    rewrite Ew. destruct (IH (counter + 1)) as [(n & Hn & Hacc & Hbefore & E)|[E Hall]].
    + left. exists (S n). replace (counter + Z.of_nat (S n)) with (counter + 1 + Z.of_nat n) by lia.
      repeat split; [lia|done| |done].
      intros [|m] Hm; [by rewrite Z.add_0_r|].
      replace (counter + Z.of_nat (S m)) with (counter + 1 + Z.of_nat m) by lia. apply Hbefore. lia.
    + right. split; [done|]. intros [|n] Hn; [by rewrite Z.add_0_r|].
      replace (counter + Z.of_nat (S n)) with (counter + 1 + Z.of_nat n) by lia. apply Hall. lia.
Qed.

Lemma prfIndex_total attempts key domain ordinal bound :
  0 < bound -> drawn attempts key domain ordinal bound ->
  exists i, prfIndex attempts key domain ordinal bound = Some i /\ 0 <= i < bound.
Proof.
  intros Hb (n & Hn & Hacc). unfold prfIndex.
  destruct (prf_loop_spec attempts key domain ordinal bound 0) as [(k & _ & _ & _ & E)|[_ Hall]].
  - eexists. split; [exact E|]. apply Z.mod_pos_bound. lia.
  - specialize (Hall n Hn). rewrite Z.add_0_l in Hall. lia.
Qed.

Lemma prfIndex_range attempts key domain ordinal bound i :
  0 < bound -> prfIndex attempts key domain ordinal bound = Some i -> 0 <= i < bound.
Proof.
  intros Hb E. unfold prfIndex in E.
  destruct (prf_loop_spec attempts key domain ordinal bound 0) as [(k & _ & _ & _ & E')|[E' _]];
    [|change (wrap 32 0) with 0 in E'; congruence].
  change (wrap 32 0) with 0 in E'. rewrite E' in E. injection E as <-. apply Z.mod_pos_bound. lia.
Qed.

(** More counters do not change a draw. *)
Lemma prfIndex_mono attempts attempts' key domain ordinal bound i :
  (attempts <= attempts')%nat ->
  prfIndex attempts key domain ordinal bound = Some i -> prfIndex attempts' key domain ordinal bound = Some i.
Proof.
  unfold prfIndex. generalize 0. revert attempts'.
  induction attempts as [|n IH]; intros [|n'] c Hle; simpl; try done; [lia|].
  case_match; [done|]. apply IH. lia.
Qed.
End draws.

(** ** Swaps *)
Lemma swap_length i j values : length (swap i j values) = length values.
Proof. unfold swap. repeat case_match; by rewrite ?length_insert. Qed.

Lemma swap_lookup i j values k :
  (i < length values)%nat -> (j < length values)%nat ->
  swap i j values !! k = if decide (k = i) then values !! j else if decide (k = j) then values !! i else values !! k.
Proof.
  intros Hi Hj. unfold swap.
  destruct (lookup_lt_is_Some_2 values i Hi) as [x Hx], (lookup_lt_is_Some_2 values j Hj) as [y Hy].
  rewrite Hx, Hy. destruct (decide (k = i)) as [->|Hki].
  - rewrite list_lookup_insert by (rewrite length_insert; lia). rewrite decide_True; [done|]. by rewrite length_insert.
  - rewrite list_lookup_insert_ne by done. destruct (decide (k = j)) as [->|Hkj].
    + by rewrite list_lookup_insert_eq.
    + by rewrite list_lookup_insert_ne.
Qed.

Lemma swap_involutive i j values :
  (i < length values)%nat -> (j < length values)%nat -> swap i j (swap i j values) = values.
Proof.
  intros Hi Hj. apply list_eq. intros k.
  rewrite !swap_lookup by (rewrite ?swap_length; lia).
  repeat case_decide; simplify_eq; congruence.
Qed.

Definition transpose (i j k : nat) : nat := if decide (k = i) then j else if decide (k = j) then i else k.
#[export] Instance transpose_inj i j : Inj (=) (=) (transpose i j).
Proof. intros x y. unfold transpose. repeat case_decide; congruence. Qed.

Lemma swap_perm i j values : swap i j values ≡ₚ values.
Proof.
  destruct (decide (i < length values)%nat) as [Hi|Hi], (decide (j < length values)%nat) as [Hj|Hj].
  - apply Permutation_inj. split; [apply swap_length|].
    exists (transpose i j). split; [apply _|]. intros k. rewrite swap_lookup by done.
    unfold transpose. by repeat case_decide.
  - unfold swap. rewrite (lookup_ge_None_2 values j) by lia. by case_match.
  - unfold swap. by rewrite (lookup_ge_None_2 values i) by lia.
  - unfold swap. by rewrite (lookup_ge_None_2 values i) by lia.
Qed.

(** ** The shuffle as a sequence of choices

    The choice at the head is for the last position; the choice for position
    [i] is at most [i]. *)
Fixpoint exchange (choices : list nat) (values : list Z) : list Z :=
  match choices with
  | [] => values
  | c :: rest => exchange rest (swap (length choices) c values)
  end.
Fixpoint choices_ok (choices : list nat) : Prop :=
  match choices with
  | [] => True
  | c :: rest => (c <= length choices)%nat /\ choices_ok rest
  end.

Lemma exchange_perm choices values : exchange choices values ≡ₚ values.
Proof.
  revert values. induction choices as [|c rest IH]; intros values; [done|].
  cbn [exchange]. rewrite IH. apply swap_perm.
Qed.
Lemma exchange_length choices values : length (exchange choices values) = length values.
Proof. apply Permutation_length, exchange_perm. Qed.

(** Later choices leave the positions above them alone. *)
Lemma exchange_above choices values k :
  choices_ok choices -> (length choices < length values)%nat -> (length choices < k)%nat ->
  exchange choices values !! k = values !! k.
Proof.
  revert values. induction choices as [|c rest IH]; intros values; [done|].
  cbn [exchange choices_ok length]. intros [Hc Hok] Hl Hk.
  rewrite IH by (rewrite ?swap_length; auto; lia).
  rewrite swap_lookup by lia. rewrite !decide_False by lia. done.
Qed.

Lemma exchange_head c rest values :
  choices_ok (c :: rest) -> (length (c :: rest) < length values)%nat ->
  exchange (c :: rest) values !! length (c :: rest) = values !! c.
Proof.
  intros [Hc Hok] Hl. cbn [exchange length] in *.
  rewrite exchange_above by (rewrite ?swap_length; auto; lia).
  rewrite swap_lookup by lia. by rewrite decide_True.
Qed.

Lemma NoDup_lookup_inj {A} (l : list A) i j x :
  NoDup l -> l !! i = Some x -> l !! j = Some x -> i = j.
Proof. intros Hnd Hi Hj. by eapply NoDup_lookup. Qed.

Lemma choices_unique choices choices' values :
  NoDup values -> length choices = length choices' -> (length choices < length values)%nat ->
  choices_ok choices -> choices_ok choices' ->
  exchange choices values = exchange choices' values -> choices = choices'.
Proof.
  revert choices' values. induction choices as [|c rest IH]; intros [|c' rest'] values Hnd Hl Hlt Hok Hok' E;
    simplify_eq/=; [done|].
  assert (Ec : c = c').
  { pose proof (exchange_head c rest values Hok Hlt) as E1.
    pose proof (exchange_head c' rest' values Hok' ltac:(simpl; lia)) as E2.
    cbn [exchange length] in E1, E2. rewrite <-Hl in E2. rewrite <-Hl in E. rewrite <-E, E1 in E2.
    destruct Hok as [Hc _]. destruct (lookup_lt_is_Some_2 values c ltac:(simpl in *; lia)) as [x Hx].
    apply (NoDup_lookup_inj values c c' x); congruence. }
  subst c'. f_equal. destruct Hok as [Hc Hok], Hok' as [_ Hok'].
  apply (IH rest' (swap (S (length rest)) c values)); auto.
  - by rewrite swap_perm.
  - rewrite swap_length. lia.
  - rewrite E. by rewrite Hl.
Qed.

Lemma choices_exist n values target :
  NoDup values -> target ≡ₚ values -> (n < length values)%nat ->
  (forall k, (n < k)%nat -> target !! k = values !! k) ->
  exists choices, length choices = n /\ choices_ok choices /\ exchange choices values = target.
Proof.
  revert values. induction n as [|n IH]; intros values Hnd Hp Hlt Habove.
  - exists []. split_and!; [done..|]. cbn. apply list_eq. intros [|k]; [|symmetry; apply Habove; lia].
    pose proof (Permutation_length Hp) as Hl.
    destruct values as [|v vs], target as [|t ts]; simplify_eq/=; try lia.
    assert (ts = vs) as -> by (apply list_eq; intros k; apply (Habove (S k)); lia).
    apply (Permutation_app_inv_r vs [t] [v]) in Hp. apply Permutation_singleton_inj in Hp. by f_equal.
  - pose proof (Permutation_length Hp) as Hl.
    destruct (lookup_lt_is_Some_2 target (S n) ltac:(lia)) as [x Hx].
    assert (Hin : x ∈ values) by (rewrite <-Hp; by eapply list_elem_of_lookup_2).
    apply list_elem_of_lookup_1 in Hin as [c Hc].
    assert (Hcle : (c <= S n)%nat).
    { destruct (decide (c <= S n)%nat) as [|Hgt]; [done|].
      assert (Hc' : target !! c = Some x) by (rewrite Habove by lia; done).
      assert (NoDup target) by (by rewrite Hp). pose proof (NoDup_lookup_inj target c (S n) x ltac:(done) Hc' Hx). lia. }
    destruct (IH (swap (S n) c values)) as (rest & Hlr & Hok & E).
    + by rewrite swap_perm.
    + by rewrite swap_perm.
    + rewrite swap_length. lia.
    + intros k Hk. rewrite swap_lookup by lia. repeat case_decide; subst; try lia; [congruence|].
      apply Habove. lia.
    + exists (c :: rest). cbn [length choices_ok exchange]. rewrite Hlr. by split_and!.
Qed.

Section shuffle.
Context {M : Hmac} (attempts : nat).

(** The draws of a shuffle are the choices. *)
Fixpoint draws_are (key domain : list Z) (choices : list nat) : Prop :=
  match choices with
  | [] => True
  | c :: rest =>
      prfIndex attempts key domain (Z.of_nat (length choices)) (Z.of_nat (length choices) + 1) = Some (Z.of_nat c)
      /\ draws_are key domain rest
  end.

Lemma draws_are_ok key domain choices : draws_are key domain choices -> choices_ok choices.
Proof.
  induction choices as [|c rest IH]; [done|]. intros [E Hd]. split; [|by apply IH].
  apply prfIndex_range in E; lia.
Qed.

Lemma shuffle_loop_choices key domain n values result :
  shuffle_loop attempts key domain n values = Some result <->
  exists choices, length choices = n /\ draws_are key domain choices /\ exchange choices values = result.
Proof.
  revert values. induction n as [|n IH]; intros values.
  - split; [intros [= <-]; by exists []|]. by intros ([|c rest] & Hl & _ & <-).
  - cbn [shuffle_loop]. split.
    + intros (i & Hi & E)%bind_Some. apply IH in E as (rest & Hl & Hd & E).
      exists (Z.to_nat i :: rest). cbn [length draws_are exchange]. rewrite Hl. split_and!; auto.
      rewrite Z2Nat.id; [done|]. apply prfIndex_range in Hi; lia.
    + intros ([|c rest] & Hl & Hd & E); [done|]. cbn [length draws_are exchange] in *.
      injection Hl as Hl. rewrite Hl in *. destruct Hd as [Hc Hd].
      rewrite Hc. cbn. apply IH. exists rest. by rewrite Nat2Z.id.
Qed.

Lemma shuffle_perm key domain values result :
  shuffleUint16 attempts key domain values = Some result -> result ≡ₚ values.
Proof. intros (choices & _ & _ & <-)%shuffle_loop_choices. apply exchange_perm. Qed.

Lemma shuffle_length key domain values result :
  shuffleUint16 attempts key domain values = Some result -> length result = length values.
Proof. intros E. by apply shuffle_perm, Permutation_length in E. Qed.

Definition draws_within (key domain : list Z) (n : nat) : Prop :=
  forall i : nat, (1 <= i < n)%nat -> drawn attempts key domain (Z.of_nat i) (Z.of_nat i + 1).

Lemma shuffle_total key domain values :
  draws_within key domain (length values) -> is_Some (shuffleUint16 attempts key domain values).
Proof.
  intros Hd. unfold shuffleUint16.
  assert (Hd' : forall i, (1 <= i <= length values - 1)%nat -> drawn attempts key domain (Z.of_nat i) (Z.of_nat i + 1)).
  { intros i Hi. apply Hd. lia. }
  clear Hd. revert Hd'. generalize (length values - 1)%nat as n. intros n. revert values.
  induction n as [|n IH]; intros values Hd; [by eexists|]. cbn [shuffle_loop].
  destruct (prfIndex_total attempts key domain (Z.of_nat (S n)) (Z.of_nat (S n) + 1) ltac:(lia) ltac:(apply Hd; lia))
    as (i & -> & _). cbn. apply IH. intros. apply Hd. lia.
Qed.
End shuffle.

(** *** What an unbiased draw is

    The 64-bit values from [2 ^ 64 mod bound] on are divided into [bound] classes
    of [prf_share bound] values each; a draw is the class of the first output of
    the generator that belongs to one. *)
Definition class_value (bound residue k : Z) : Z :=
  2 ^ 64 mod bound + (residue - 2 ^ 64 mod bound) mod bound + k * bound.
Definition in_class (bound residue value : Z) : Prop :=
  exists k, 0 <= k < prf_share bound /\ value = class_value bound residue k.

Definition sampled (attempts : nat) (output : Z -> Z) (bound residue : Z) : Prop :=
  0 <= residue < bound /\
  exists n : nat, (n < attempts)%nat /\ in_class bound residue (output (wrap 32 (Z.of_nat n))) /\
    forall m : nat, (m < n)%nat -> forall other, 0 <= other < bound ->
      ~ in_class bound other (output (wrap 32 (Z.of_nat m))).

(** The digest of HMAC is made of bytes. *)
Definition hmac_bytes (M : Hmac) : Prop := forall key message, Forall is_byte (hmac_sha256 key message).

Lemma prf_value_range {M : Hmac} key domain ordinal counter :
  hmac_bytes M -> 0 <= prf_value key domain ordinal counter < 2 ^ 64.
Proof.
  intros HM. unfold prf_value. set (bytes := take 8 _).
  assert (Hb : Forall is_byte bytes) by (apply Forall_take, HM).
  pose proof (be_decode_range bytes Hb) as Hr.
  assert (length bytes <= 8)%nat by (unfold bytes; rewrite length_take; lia).
  assert (256 ^ Z.of_nat (length bytes) <= 256 ^ 8) by (apply Z.pow_le_mono_r; lia).
  change (256 ^ 8) with (2 ^ 64) in *. lia.
Qed.

Lemma in_class_accepted bound residue value :
  0 < bound -> 0 <= residue < bound -> 0 <= value < 2 ^ 64 ->
  in_class bound residue value <-> prf_threshold bound <= value /\ value mod bound = residue.
Proof.
  intros Hb Hr Hv. unfold in_class, class_value. rewrite <-prf_threshold_mod by done.
  rewrite <-prf_accepts_exactly by done. split; intros [? ?]; split; (done || lia).
Qed.

Lemma prfIndex_sampled {M : Hmac} attempts key domain ordinal bound residue :
  hmac_bytes M -> 0 < bound ->
  prfIndex attempts key domain ordinal bound = Some residue <->
  sampled attempts (prf_value key domain ordinal) bound residue.
Proof.
  intros HM Hb. pose proof (fun c => prf_value_range key domain ordinal c HM) as Hv.
  assert (Hmod : forall v, 0 <= v mod bound < bound) by (intros v; apply Z.mod_pos_bound; lia).
  unfold prfIndex, sampled.
  pose proof (prf_loop_spec attempts key domain ordinal bound 0) as Hspec. change (wrap 32 0) with 0 in Hspec.
  destruct Hspec as [(n & Hn & Hacc & Hbefore & ->)|[-> Hall]].
  - rewrite Z.add_0_l in *. split.
    + intros [= <-]. split; [apply Hmod|]. exists n.
      split_and!; [done|apply in_class_accepted; (done || apply Hmod || apply Hv)|].
      intros m Hm other Ho [Hle _]%in_class_accepted; [|done|done|apply Hv]. specialize (Hbefore m Hm). rewrite Z.add_0_l in Hbefore. lia.
    + intros (Hr & k & Hk & Hc & Hno). apply in_class_accepted in Hc as [Hle Hm]; [|done|done|apply Hv]. f_equal.
      destruct (Nat.lt_trichotomy k n) as [Hlt|[->|Hlt]]; [specialize (Hbefore k Hlt); rewrite Z.add_0_l in Hbefore; lia|done|].
      destruct (Hno n Hlt (prf_value key domain ordinal (wrap 32 (Z.of_nat n)) mod bound)); [apply Hmod|].
      apply in_class_accepted; (done || apply Hmod || apply Hv).
  - split; [done|]. intros (Hr & k & Hk & Hc & _). apply in_class_accepted in Hc as [Hle _]; [|done|done|apply Hv].
    specialize (Hall k Hk). rewrite Z.add_0_l in Hall. lia.
Qed.

(** The draws of a shuffle, unbiased, are the choices. *)
Fixpoint draws_sampled {M : Hmac} (attempts : nat) (key domain : list Z) (choices : list nat) : Prop :=
  match choices with
  | [] => True
  | c :: rest =>
      sampled attempts (prf_value key domain (Z.of_nat (length choices))) (Z.of_nat (length choices) + 1) (Z.of_nat c)
      /\ draws_sampled attempts key domain rest
  end.

Lemma draws_are_sampled {M : Hmac} attempts key domain choices :
  hmac_bytes M -> draws_are attempts key domain choices <-> draws_sampled attempts key domain choices.
Proof.
  intros HM. induction choices as [|c rest IH]; [done|]. cbn [draws_are draws_sampled].
  by rewrite IH, prfIndex_sampled by (done || lia).
Qed.

(** C25: the keyed shuffle of [shuffleUint16] is an unbiased permutation.  For
    every bound the 64-bit values fall into classes, one for each result, each
    of [2 ^ 64 / bound] values, disjoint and below [2 ^ 64]; the shuffle returns
    a result exactly when its draws are choices, each the class of the first
    output of HMAC (whose digests are bytes) that belongs to one within the
    given number of attempts, the others being rejected, and the result is the
    function [exchange] of the choices.  The choices are always in range, the
    result exists if every draw accepts within the attempts and is then a
    permutation of the input, and every permutation of distinct values comes from
    exactly one sequence of choices. *)
Theorem shuffle_unbiased :
  (forall bound residue residue' k k', 0 < bound -> 0 <= residue < bound -> 0 <= residue' < bound ->
     0 <= k < 2 ^ 64 / bound -> 0 <= k' < 2 ^ 64 / bound ->
     0 <= class_value bound residue k < 2 ^ 64 /\
     (class_value bound residue k = class_value bound residue' k' -> residue = residue' /\ k = k'))
  /\ (forall (M : Hmac) attempts key domain values result, hmac_bytes M ->
        shuffleUint16 attempts key domain values = Some result <->
        exists choices, length choices = (length values - 1)%nat /\ draws_sampled attempts key domain choices
          /\ exchange choices values = result)
  /\ (forall (M : Hmac) attempts key domain choices, draws_sampled attempts key domain choices -> choices_ok choices)
  /\ (forall (M : Hmac) attempts key domain values, draws_within attempts key domain (length values) ->
        exists result, shuffleUint16 attempts key domain values = Some result /\ result ≡ₚ values)
  /\ (forall values target, NoDup values -> (0 < length values)%nat -> target ≡ₚ values ->
        exists! choices, length choices = (length values - 1)%nat /\ choices_ok choices
          /\ exchange choices values = target).
Proof.
  split_and!.
  - intros bound r r' k k' Hb Hr Hr' Hk Hk'.
    assert (Hc : forall x j, 0 <= x < bound -> 0 <= j < 2 ^ 64 / bound ->
      prf_threshold bound <= class_value bound x j < 2 ^ 64 /\ class_value bound x j mod bound = x).
    { intros x j Hx Hj. apply prf_accepts_exactly; [done..|]. exists j. split; [done|].
      unfold class_value. by rewrite prf_threshold_mod. }
    pose proof (prf_threshold_range bound Hb). destruct (Hc r k Hr Hk) as [H1 H2]. split; [lia|]. intros E.
    rewrite E in H2. rewrite (proj2 (Hc r' k' Hr' Hk')) in H2. split; [done|]. subst r'. unfold class_value in E. nia.
  - intros * HM. unfold shuffleUint16. rewrite shuffle_loop_choices. by setoid_rewrite draws_are_sampled.
  - intros M attempts key domain choices. induction choices as [|c rest IH]; [done|].
    intros [[Hr _] Hd]. split; [lia|by apply IH].
  - intros * Hd. destruct (shuffle_total _ _ _ _ Hd) as [result E]. exists result.
    split; [done|]. by eapply shuffle_perm.
  - intros values target Hnd Hpos Hp.
    destruct (choices_exist (length values - 1) values target) as (cs & Hl & Hok & E); auto; [lia| |].
    { intros k Hk. pose proof (Permutation_length Hp). by rewrite !lookup_ge_None_2 by lia. }
    exists cs. split; [done|]. intros cs' (Hl' & Hok' & E').
    apply (choices_unique cs cs' values); auto; [lia..|congruence].
Qed.

(** The value 357 at every draw: the choices are 0 of 3 and 1 of 2. *)
Lemma shuffle_unbiased_witness :
  exists M : Hmac,
    (exists result, shuffleUint16 1 [1] [] [5; 6; 7] = Some result /\ result ≡ₚ [5; 6; 7])
    /\ shuffleUint16 1 [1] [] [5; 6; 7] = Some [7; 6; 5]
    /\ (exists! choices, length choices = 2%nat /\ choices_ok choices /\ exchange choices [5; 6; 7] = [7; 5; 6]).
Proof.
  exists (fun _ _ => [0; 0; 0; 0; 0; 0; 1; 101]).
  destruct shuffle_unbiased as (_ & _ & _ & Htotal & Hunique). split_and!.
  - apply (Htotal (fun _ _ => [0; 0; 0; 0; 0; 0; 1; 101]) 1%nat [1] [] [5; 6; 7]).
    intros i Hi. exists 0%nat. split; [lia|].
    assert (i = 1%nat \/ i = 2%nat) as [->| ->] by (simpl in Hi; lia); vm_compute; discriminate.
  - vm_compute. reflexivity.
  - apply (Hunique [5; 6; 7] [7; 5; 6]).
    + apply (bool_decide_unpack _). vm_compute. exact I.
    + simpl. lia.
    + apply (bool_decide_unpack _). vm_compute. exact I.
Defined.

(** * Hard-NAT planning: what the validators check

    The loops of [validateSourceSlots] and [validatePlanCandidates] as
    conditions on every element, and what a validated commitment and a verified
    plan satisfy. *)

(** ** Source slots *)
Definition slot_fine (resource role : string) (receivePort sockets index : Z) (slot : SourceSlot) : Prop :=
  let port := sl_ExpectedPublicSourcePort slot in
  sl_Ordinal slot = index /\
  (if bool_decide (resource = ResourcePredictive) then sl_SocketSlot slot = index mod 8 /\ port <> 0
   else if bool_decide (resource = ResourceAsymmetric) then
     (role = RoleMappingSet -> sl_SocketSlot slot = index /\ port = 0) /\
     (role = RoleTargetSet -> port = receivePort /\ sl_SocketSlot slot < sockets)
   else sl_SocketSlot slot = index /\ port = 0).

Lemma lookup_cons_ind {A} (P : nat -> A -> Prop) x l :
  (forall k y, (x :: l) !! k = Some y -> P k y) <-> P 0%nat x /\ (forall k y, l !! k = Some y -> P (S k) y).
Proof.
  split; [intros H; split; [by apply H|intros k y Hk; by apply (H (S k))]|].
  intros [H0 HS] [|k] y Hk; simplify_eq/=; auto.
Qed.

Lemma slots_ok_sound resource role rp sockets index slots seen :
  slots_ok resource role rp sockets index slots seen = true ->
  (forall (k : nat) s, slots !! k = Some s -> slot_fine resource role rp sockets (index + Z.of_nat k) s) /\
  (resource = ResourcePredictive ->
     NoDup (map sl_ExpectedPublicSourcePort slots) /\
     Forall (fun p => p ∉ seen) (map sl_ExpectedPublicSourcePort slots)).
Proof.
  revert index seen. induction slots as [|slot rest IH]; intros index seen E; [split; [done|by repeat constructor]|].
  rewrite lookup_cons_ind, Z.add_0_r.
  assert (Hnext : forall seen', slots_ok resource role rp sockets (index + 1) rest seen' = true ->
    forall (k : nat) s, rest !! k = Some s -> slot_fine resource role rp sockets (index + Z.of_nat (S k)) s).
  { intros seen' E' k s Hs. replace (index + Z.of_nat (S k)) with (index + 1 + Z.of_nat k) by lia.
    apply IH in E' as [E' _]. by apply E'. }
  cbn [slots_ok map] in *. unfold slot_fine at 1.
  destruct (Z.eqb_spec (sl_Ordinal slot) index) as [Ho|]; [|done]. cbn [negb] in E.
  destruct (bool_decide (resource = ResourcePredictive)) eqn:Hp.
  - apply bool_decide_eq_true in Hp.
    destruct (Z.eqb_spec (sl_SocketSlot slot) (index mod 8)); [|done].
    destruct (Z.eqb_spec (sl_ExpectedPublicSourcePort slot) 0); [done|].
    destruct (bool_decide (sl_ExpectedPublicSourcePort slot ∈ seen)) eqn:Hs; [done|].
    apply bool_decide_eq_false in Hs. cbn in E. split; [split; [done|by eapply Hnext]|].
    intros _. apply IH in E as [_ E]. destruct (E Hp) as [Hnd Hall]. rewrite Forall_forall in Hall.
    split; [|constructor; [done|]].
    + constructor; [|done]. intros Hin. specialize (Hall _ Hin). set_solver.
    + rewrite Forall_forall. intros x Hx. specialize (Hall _ Hx). set_solver.
  - apply bool_decide_eq_false in Hp. split; [|done].
    destruct (bool_decide (resource = ResourceAsymmetric)).
    + match type of E with (if ?b then _ else _) = _ => destruct b eqn:Hb; [done|] end.
      split; [split; [done|]|exact (Hnext seen E)]. apply orb_false_iff in Hb as [[H1 H2]%orb_false_iff H3].
      split; intros Hr; [rewrite (bool_decide_eq_true_2 _ Hr) in H1|rewrite (bool_decide_eq_true_2 _ Hr) in H2, H3];
        cbn [andb] in *; lia.
    + destruct (Z.eqb_spec (sl_SocketSlot slot) index); [|done].
      destruct (Z.eqb_spec (sl_ExpectedPublicSourcePort slot) 0); [|done].
      split; [done|]. exact (Hnext seen E).
Qed.

(** ** Candidates *)
Definition candidate_fine (source : LocalSourceCommitment) (role : string) (sockets index : Z) (c : Candidate) : Prop :=
  let resource := lc_ResourceClass source in
  let slot := slot_at (lc_SourceSlots source) index in
  cn_Role c = role /\ cn_Ordinal c = index /\ cn_TargetPort c <> 0 /\ cn_SocketSlot c < sockets /\
  (if bool_decide (resource = ResourcePredictive) then
     index < Z.of_nat (length (lc_SourceSlots source)) /\ cn_SocketSlot c = sl_SocketSlot slot /\
     cn_ExpectedSourcePort c = sl_ExpectedPublicSourcePort slot
   else if bool_decide (resource = ResourceAsymmetric) then
     (lc_Role source = RoleMappingSet -> cn_ExpectedSourcePort c = 0) /\
     (lc_Role source = RoleTargetSet ->
        cn_SocketSlot c = sl_SocketSlot (slot_at (lc_SourceSlots source) 0) /\
        cn_ExpectedSourcePort c = ap_Port (lc_ReceiveEndpoint source))
   else (resource = ResourceHard16KLab \/ resource = ResourceHard32KCandidate) /\ cn_ExpectedSourcePort c = 0).

Definition flow (c : Candidate) : Z * Z := (cn_SocketSlot c, cn_TargetPort c).

Definition candidates_fine (source : LocalSourceCommitment) (role : string) (sockets index : Z)
    (candidates : list Candidate) (seen : gset (Z * Z)) : Prop :=
  (forall (k : nat) c, candidates !! k = Some c -> candidate_fine source role sockets (index + Z.of_nat k) c) /\
  NoDup (map flow candidates) /\ Forall (fun f => f ∉ seen) (map flow candidates).

Lemma candidates_fine_cons source role sockets index c rest seen :
  candidates_fine source role sockets index (c :: rest) seen <->
  candidate_fine source role sockets index c /\ flow c ∉ seen /\
  candidates_fine source role sockets (index + 1) rest ({[flow c]} ∪ seen).
Proof.
  unfold candidates_fine. rewrite lookup_cons_ind, Z.add_0_r. cbn [map].
  rewrite NoDup_cons, Forall_cons. rewrite !Forall_forall.
  assert (E : forall k : nat, index + Z.of_nat (S k) = index + 1 + Z.of_nat k) by lia.
  setoid_rewrite E. setoid_rewrite not_elem_of_union. setoid_rewrite elem_of_singleton.
  split; [intros ((H1 & H2) & (H3 & H4) & H5 & H6)|intros (H1 & H5 & H2 & H4 & H6)]; split_and!; auto.
  - intros x Hx. split; [by intros ->|auto].
  - intros Hin. by destruct (H6 _ Hin).
  - intros x Hx. by destruct (H6 _ Hx).
Qed.

Lemma candidates_ok_spec source role sockets index candidates seen :
  candidates_ok source role sockets index candidates seen = None <->
  candidates_fine source role sockets index candidates seen.
Proof.
  revert index seen. induction candidates as [|c rest IH]; intros index seen.
  { split; [|done]. intros _. split; [done|]. by repeat constructor. }
  rewrite candidates_fine_cons, <-IH. cbn [candidates_ok]. unfold candidate_fine, flow.
  match goal with |- (if ?b then _ else _) = None <-> _ => destruct b eqn:Hb end.
  { split; [done|]. intros ((Hr & Ho & Ht & Hs & _) & _). exfalso.
    rewrite !orb_true_iff, negb_true_iff in Hb. rewrite (bool_decide_eq_true_2 _ Hr) in Hb. lia. }
  repeat (apply orb_false_iff in Hb as [Hb ?]). apply negb_false_iff, bool_decide_eq_true in Hb.
  destruct (bool_decide ((cn_SocketSlot c, cn_TargetPort c) ∈ seen)) eqn:Hseen.
  { apply bool_decide_eq_true in Hseen. naive_solver. }
  apply bool_decide_eq_false in Hseen.
  set (next := candidates_ok _ _ _ _ rest _).
  assert (Hbase : cn_Role c = role /\ cn_Ordinal c = index /\ cn_TargetPort c <> 0 /\ cn_SocketSlot c < sockets)
    by (split; [done|lia]).
  destruct (bool_decide (lc_ResourceClass source = ResourcePredictive)).
  { match goal with |- (if ?b then _ else _) = None <-> _ => destruct b eqn:Hc end.
    - split; [done|]. intros ((_ & _ & _ & _ & Hx) & _). lia.
    - repeat (apply orb_false_iff in Hc as [Hc ?]). split; [|tauto].
      intros En. split; [|done]. split_and!; try tauto; lia. }
  destruct (bool_decide (lc_ResourceClass source = ResourceAsymmetric)).
  { match goal with |- (if ?b then _ else _) = None <-> _ => destruct b eqn:Hc end.
    - split; [done|]. intros ((_ & _ & _ & _ & Hm1 & Hm2) & _). exfalso.
      apply orb_true_iff in Hc as [[Hr Hc]%andb_true_iff|[Hr Hc]%andb_true_iff];
        apply bool_decide_eq_true in Hr; [specialize (Hm1 Hr)|specialize (Hm2 Hr)]; lia.
    - apply orb_false_iff in Hc as [Hm1 Hm2]. split; [|tauto]. intros En. split; [|done].
      split_and!; try tauto; intros Hr; [rewrite bool_decide_eq_true_2 in Hm1 by done|
        rewrite bool_decide_eq_true_2 in Hm2 by done..]; cbn in *; lia. }
  destruct (bool_decide (lc_ResourceClass source = ResourceHard16KLab)
            || bool_decide (lc_ResourceClass source = ResourceHard32KCandidate)) eqn:Hh.
  - rewrite orb_true_iff, !bool_decide_eq_true in Hh.
    destruct (Z.eqb_spec (cn_ExpectedSourcePort c) 0); cbn; [tauto|]. split; [done|]. tauto.
  - rewrite orb_false_iff, !bool_decide_eq_false in Hh. split; [done|]. tauto.
Qed.

(** ** Shapes and commitments *)
Definition predictive_shape (predicted : Z) : planShape :=
  mkShape (mkPlanCost 8 64 64 64 32 13000) (mkUniverse "peer-source-schedule/1" 0 0 predicted) predicted true.
Definition asymmetric_shape (role : string) : planShape :=
  mkShape (mkPlanCost 128 512 512 512 64 13000) (mkUniverse "nonzero-udp-ports/1" 1 65535 0)
    (if bool_decide (role = RoleMappingSet) then 128 else 512) true.
Definition hard16_shape : planShape :=
  mkShape (mkPlanCost 16 16400 16400 16432 512 45000)
    (mkUniverse "iana-dynamic-private-49152-65535/1" DynamicPortMin DynamicPortMax 0) DynamicPortCount true.
Definition hard32_shape : planShape :=
  mkShape (mkPlanCost 32 32768 32768 32768 512 45000)
    (mkUniverse "iana-dynamic-private-49152-65535/two-socket-rounds/1" DynamicPortMin DynamicPortMax 32768)
    32768 false.

(** The pairs of a profile and a resource class that have a shape. *)
Inductive shape_case (role : string) (predicted : Z) : string -> string -> planShape -> Prop :=
| case_predictive : shape_case role predicted ProfilePredictiveEdm ResourcePredictive (predictive_shape predicted)
| case_asymmetric : shape_case role predicted ProfileAsymmetricBirthday ResourceAsymmetric (asymmetric_shape role)
| case_hard16 : shape_case role predicted ProfileHardBirthday ResourceHard16KLab hard16_shape
| case_hard32 : shape_case role predicted ProfileHardBirthday ResourceHard32KCandidate hard32_shape.

Lemma shapeFor_cases profile resource role predicted shape :
  shapeFor profile resource role predicted = Ok shape <-> shape_case role predicted profile resource shape.
Proof.
  split; [|by destruct 1].
  unfold shapeFor.
  repeat match goal with |- (if ?b then _ else _) = _ -> _ => destruct b eqn:?; [|clear dependent b || idtac] end;
    intros [= <-];
    repeat match goal with
    | Hb : _ && _ = true |- _ => apply andb_true_iff in Hb as [?%bool_decide_eq_true ?%bool_decide_eq_true]; subst
    end.
  all: first [exact (case_predictive _ _)|exact (case_asymmetric _ _)|exact (case_hard16 _ _)|exact (case_hard32 _ _)].
Qed.

Lemma some_or_Ok {A} e (x : option A) a : some_or e x = Ok a <-> x = Some a.
Proof. destruct x; naive_solver. Qed.

Section commitments.
Context {H : Sha256}.

Record committed (c : LocalSourceCommitment) (shape : planShape) : Prop := {
  cm_role : validateRole (lc_Profile c) (lc_Role c) = None;
  cm_endpoint : validateReceiveEndpoint (lc_Profile c) (lc_Role c) (lc_ReceiveEndpoint c) = None;
  cm_shape : shapeForCommitment c = Ok shape;
  cm_probability : probabilityForCommitment c shape = Ok (lc_Probability c);
  cm_cost : lc_Cost c = sh_cost shape;
  cm_universe : lc_Universe c = sh_universe shape;
  cm_executable : lc_Executable c = sh_executable shape;
  cm_cost_digest : lc_CostDigest c = digestCost (lc_Profile c) (lc_ResourceClass c) (lc_Cost c);
  cm_evidence : allZero (lc_EvidenceDigest c) = false;
  cm_validation : allZero (lc_ValidationDigest c) = false;
  cm_source : lc_SourceDigest c = digestSourceCommitment c;
  cm_admitted : probabilityAdmitted (lc_ResourceClass c) (lc_Probability c) = true;
  cm_slots : validateSourceSlots c = None;
}.

Lemma validate_committed c :
  validateLocalCommitment c = None <-> exists shape, committed c shape.
Proof.
  unfold validateLocalCommitment. split.
  - destruct (validateRole (lc_Profile c) (lc_Role c)) eqn:Hr; [done|].
    destruct (validateReceiveEndpoint (lc_Profile c) (lc_Role c) (lc_ReceiveEndpoint c)) eqn:He; [done|].
    destruct (shapeForCommitment c) as [shape|] eqn:Hs; [|done].
    destruct (probabilityForCommitment c shape) as [pr|] eqn:Hp; [|done].
    match goal with |- (if ?b then _ else _) = None -> _ => destruct b eqn:Hb; [done|] end.
    intros Hslots. exists shape.
    repeat match goal with H : _ || _ = false |- _ => apply orb_false_iff in H as [? ?] end.
    repeat match goal with
    | H : negb _ = false |- _ => apply negb_false_iff in H
    | H : bool_decide _ = true |- _ => apply bool_decide_eq_true in H
    | H : Bool.eqb _ _ = true |- _ => apply eqb_prop in H
    end.
    constructor; congruence.
  - intros [shape []].
    by rewrite cm_role0, cm_endpoint0, cm_shape0, cm_probability0, cm_evidence0, cm_validation0, cm_admitted0,
      !bool_decide_eq_true_2, cm_executable0, Bool.eqb_reflx by done.
Qed.

Lemma committed_case c shape :
  committed c shape -> shape_case (lc_Role c) (commitment_predicted c) (lc_Profile c) (lc_ResourceClass c) shape.
Proof. intros Hc. apply shapeFor_cases, Hc. Qed.

(** Every slot of a validated commitment. *)
Lemma committed_slots c shape :
  committed c shape ->
  wanted_slots (lc_ResourceClass c) (lc_Role c) = Some (Z.of_nat (length (lc_SourceSlots c))) /\
  (forall (k : nat) s, lc_SourceSlots c !! k = Some s ->
     slot_fine (lc_ResourceClass c) (lc_Role c) (ap_Port (lc_ReceiveEndpoint c)) (ct_Sockets (lc_Cost c)) (Z.of_nat k) s)
  /\ (lc_ResourceClass c = ResourcePredictive -> NoDup (map sl_ExpectedPublicSourcePort (lc_SourceSlots c))).
Proof.
  intros Hc. pose proof (cm_slots _ _ Hc) as Hv. unfold validateSourceSlots in Hv.
  destruct (wanted_slots _ _) as [want|]; [|done].
  destruct (Z.eqb_spec (Z.of_nat (length (lc_SourceSlots c))) want) as [Hw|]; [|done]. cbn [negb] in Hv.
  destruct (slots_ok _ _ _ _ _ _ _) eqn:Hok; [|done]. apply slots_ok_sound in Hok as [Hall Hnd].
  split_and!; [by rewrite Hw|exact Hall|]. intros Hp. by destruct (Hnd Hp).
Qed.
End commitments.

(** * Hard-NAT planning: the candidates of one direction

    Every candidate the planner builds, and that they pass
    [validatePlanCandidates]. *)

(** ** Lists *)
Lemma NoDup_lookups {A} (l : list A) :
  (forall i j x, l !! i = Some x -> l !! j = Some x -> i = j) -> NoDup l.
Proof. intros Hl. apply NoDup_alt. intros i j x Hi Hj. eauto. Qed.

Lemma map_lookup_Some {A B} (f : A -> B) l k y :
  map f l !! k = Some y <-> exists x, l !! k = Some x /\ y = f x.
Proof.
  change (map f l) with (f <$> l). rewrite list_lookup_fmap, fmap_Some. naive_solver.
Qed.

Lemma imap_lookup_Some {A B} (f : nat -> A -> B) l k y :
  imap f l !! k = Some y <-> exists x, l !! k = Some x /\ y = f k x.
Proof. rewrite list_lookup_imap, fmap_Some. naive_solver. Qed.

Lemma indices_lookup n k z : map Z.of_nat (seq 0 n) !! k = Some z <-> (k < n)%nat /\ z = Z.of_nat k.
Proof.
  rewrite map_lookup_Some. split.
  - intros (x & [-> Hlt]%lookup_seq & ->). split; lia.
  - intros [Hk ->]. exists k. rewrite lookup_seq. split; [|done]. lia.
Qed.
Lemma indices_elem n z : z ∈ map Z.of_nat (seq 0 n) <-> exists k : nat, (k < n)%nat /\ z = Z.of_nat k.
Proof.
  rewrite list_elem_of_lookup. setoid_rewrite indices_lookup. done.
Qed.
Lemma indices_NoDup n : NoDup (map Z.of_nat (seq 0 n)).
Proof.
  apply NoDup_lookups. intros i j x [_ ->]%indices_lookup [_ E]%indices_lookup. lia.
Qed.

Lemma portRange_lookup a b k z :
  portRange a b !! k = Some z <-> (k < Z.to_nat (b - a + 1))%nat /\ z = a + Z.of_nat k.
Proof.
  unfold portRange. rewrite map_lookup_Some. split.
  - intros (x & [-> Hlt]%lookup_seq & ->). split; lia.
  - intros [Hk ->]. exists k. rewrite lookup_seq. split; [|done]. lia.
Qed.
Lemma portRange_elem a b z : z ∈ portRange a b <-> a <= z <= b.
Proof.
  rewrite list_elem_of_lookup. setoid_rewrite portRange_lookup. split.
  - intros (k & Hk & ->). lia.
  - intros Hz. exists (Z.to_nat (z - a)). lia.
Qed.
Lemma portRange_NoDup a b : NoDup (portRange a b).
Proof. apply NoDup_lookups. intros i j x [_ ->]%portRange_lookup [_ E]%portRange_lookup. lia. Qed.
Lemma portRange_length a b : length (portRange a b) = Z.to_nat (b - a + 1).
Proof. unfold portRange. by rewrite length_map, length_seq. Qed.

(** ** The inverse permutation *)
Definition set_inverse (inverse : list Z) (it : nat * Z) : list Z := <[Z.to_nat it.2 := Z.of_nat it.1]> inverse.

Lemma set_inverse_fold permutation offset base :
  NoDup permutation -> Forall (fun z => 0 <= z < Z.of_nat (length base)) permutation ->
  let result := foldl set_inverse base (imap (fun i z => ((offset + i)%nat, z)) permutation) in
  length result = length base /\
  (forall i z, permutation !! i = Some z -> result !! Z.to_nat z = Some (Z.of_nat (offset + i))) /\
  (forall j : nat, Z.of_nat j ∉ permutation -> result !! j = base !! j).
Proof.
  revert offset base. induction permutation as [|z rest IH]; intros offset base Hnd Hall; [done|].
  apply NoDup_cons in Hnd as [Hz Hnd]. apply Forall_cons in Hall as [Hr Hall]. cbn [imap foldl].
  assert (E : imap ((fun i z => ((offset + i)%nat, z)) ∘ S) rest = imap (fun i z => ((S offset + i)%nat, z)) rest).
  { apply imap_ext. intros. cbn. f_equal. lia. }
  rewrite E. set (base' := set_inverse base ((offset + 0)%nat, z)).
  assert (Hl : length base' = length base) by apply length_insert.
  destruct (IH (S offset) base' Hnd) as (IHl & IHin & IHout); [by rewrite Hl|].
  cbn zeta. split; [by rewrite IHl|]. split.
  - intros [|i] z' Hi; [|rewrite (IHin i z' Hi); do 2 f_equal; lia].
    injection Hi as <-. rewrite IHout by (rewrite Z2Nat.id; [done|lia]).
    unfold base', set_inverse. cbn. rewrite list_lookup_insert_eq; [done|lia].
  - intros j Hj. apply not_elem_of_cons in Hj as [Hne Hj]. rewrite IHout by done.
    unfold base', set_inverse. cbn. apply list_lookup_insert_ne. lia.
Qed.

Lemma inverse_of_lookup permutation n i j :
  permutation ≡ₚ map Z.of_nat (seq 0 n) ->
  permutation !! i = Some (Z.of_nat j) <-> inverse_of permutation !! j = Some (Z.of_nat i).
Proof.
  intros Hp. assert (Hnd : NoDup permutation) by (rewrite Hp; apply indices_NoDup).
  assert (Hl : length permutation = n) by (by rewrite (Permutation_length Hp), length_map, length_seq).
  destruct (set_inverse_fold permutation 0 (replicate (length permutation) 0) Hnd) as (Hlr & Hin & _).
  { rewrite length_replicate, Hl. rewrite Forall_forall. intros z Hz. rewrite Hp in Hz.
    apply indices_elem in Hz as (k & Hk & ->). lia. }
  assert (E : foldl set_inverse (replicate (length permutation) 0) (imap (fun i z => ((0 + i)%nat, z)) permutation)
              = inverse_of permutation) by reflexivity.
  rewrite E in Hin, Hlr. rewrite length_replicate in Hlr.
  assert (Hfwd : forall i' j', permutation !! i' = Some (Z.of_nat j') -> inverse_of permutation !! j' = Some (Z.of_nat i')).
  { intros i' j' Hi. specialize (Hin i' _ Hi). by rewrite Nat2Z.id in Hin. }
  split; [apply Hfwd|]. intros Hj.
  assert (Hjn : (j < n)%nat) by (rewrite <-Hl, <-Hlr; by eapply lookup_lt_Some).
  assert (Hjp : Z.of_nat j ∈ permutation) by (rewrite Hp; apply indices_elem; eauto).
  apply list_elem_of_lookup in Hjp as [i' Hi']. pose proof (Hfwd i' j Hi') as Hj'.
  rewrite Hj' in Hj. injection Hj as Hj. by replace i with i' by lia.
Qed.

Lemma inverse_of_perm permutation n :
  permutation ≡ₚ map Z.of_nat (seq 0 n) -> inverse_of permutation ≡ₚ map Z.of_nat (seq 0 n).
Proof.
  intros Hp. pose proof (fun i j => inverse_of_lookup permutation n i j Hp) as Hinv.
  assert (Hl : length permutation = n) by (by rewrite (Permutation_length Hp), length_map, length_seq).
  assert (Hlen : length (inverse_of permutation) = n).
  { unfold inverse_of. rewrite <-Hl. generalize (imap pair permutation) as l.
    intros l. generalize (replicate (length permutation) 0), (length_replicate (length permutation) 0).
    induction l as [|it l IH]; intros b Hb; [done|]. cbn. apply IH. by rewrite length_insert. }
  assert (Hentry : forall j z, inverse_of permutation !! j = Some z ->
            exists i : nat, (i < n)%nat /\ z = Z.of_nat i /\ permutation !! i = Some (Z.of_nat j)).
  { intros j z Hj. pose proof (lookup_lt_Some _ _ _ Hj) as Hlt. rewrite Hlen in Hlt.
    assert (Hjp : Z.of_nat j ∈ permutation) by (rewrite Hp; apply indices_elem; eauto).
    apply list_elem_of_lookup in Hjp as [i Hi]. pose proof (proj1 (Hinv i j) Hi) as Hj'.
    exists i. split_and!; [|congruence|done]. rewrite <-Hl. by eapply lookup_lt_Some. }
  apply NoDup_Permutation; [|apply indices_NoDup|].
  - apply NoDup_lookups. intros i j x Hi Hj.
    destruct (Hentry i x Hi) as (a & _ & -> & Ha), (Hentry j _ Hj) as (b & _ & E & Hb).
    assert (a = b) as <- by lia. rewrite Ha in Hb. injection Hb. lia.
  - intros z. rewrite indices_elem. split.
    + intros [j Hj]%list_elem_of_lookup. destruct (Hentry j z Hj) as (i & Hi & -> & _). eauto.
    + intros (i & Hi & ->). destruct (lookup_lt_is_Some_2 permutation i ltac:(lia)) as [z Hz].
      assert (Hzin : z ∈ permutation) by (by eapply list_elem_of_lookup_2). rewrite Hp in Hzin.
      apply indices_elem in Hzin as (j & _ & ->). apply Hinv in Hz. by eapply list_elem_of_lookup_2.
Qed.

(** ** The candidates *)
Lemma perm_lookup_index permutation n k :
  permutation ≡ₚ map Z.of_nat (seq 0 n) -> (k < n)%nat ->
  exists j : nat, (j < n)%nat /\ permutation !! k = Some (Z.of_nat j).
Proof.
  intros Hp Hk. assert (Hl : length permutation = n) by (by rewrite (Permutation_length Hp), length_map, length_seq).
  destruct (lookup_lt_is_Some_2 permutation k ltac:(lia)) as [z Hz].
  assert (Hin : z ∈ permutation) by (by eapply list_elem_of_lookup_2). rewrite Hp in Hin.
  apply indices_elem in Hin as (j & Hj & ->). eauto.
Qed.

Section candidates.
Context {H : Sha256} {M : Hmac} (attempts : nat).

Definition pairing (key : list Z) (n : nat) : option (list Z) :=
  shuffleUint16 attempts key pairing_domain (map Z.of_nat (seq 0 n)).

Lemma pairing_perm key n permutation :
  pairing key n = Some permutation -> permutation ≡ₚ map Z.of_nat (seq 0 n).
Proof. apply shuffle_perm. Qed.

Definition oriented (role : string) (permutation : list Z) : list Z :=
  if bool_decide (role = RoleResponder) then inverse_of permutation else permutation.

Lemma oriented_perm role permutation n :
  permutation ≡ₚ map Z.of_nat (seq 0 n) -> oriented role permutation ≡ₚ map Z.of_nat (seq 0 n).
Proof. intros Hp. unfold oriented. case_bool_decide; [by apply inverse_of_perm|done]. Qed.

Definition predictive_candidate (role : string) (k : nat) (s t : SourceSlot) : Candidate :=
  mkPlanCandidate role (sl_SocketSlot s) (Z.of_nat k) (sl_ExpectedPublicSourcePort s) (sl_ExpectedPublicSourcePort t).

Lemma predictive_spec local peer key n cands :
  length (lc_SourceSlots local) = n -> length (lc_SourceSlots peer) = n ->
  predictive_candidates attempts local peer key = Some cands ->
  exists permutation, pairing key n = Some permutation /\ length cands = n /\
    forall k c, cands !! k = Some c -> exists s j t,
      lc_SourceSlots local !! k = Some s /\ oriented (lc_Role local) permutation !! k = Some (Z.of_nat j) /\
      lc_SourceSlots peer !! j = Some t /\ c = predictive_candidate (lc_Role local) k s t.
Proof.
  intros Hl Hp. unfold predictive_candidates. rewrite Hp. intros (permutation & Hs & E)%bind_Some.
  exists permutation. split; [done|]. injection E as <-. rewrite length_imap. split; [done|].
  intros k c (s & Hk & ->)%imap_lookup_Some.
  pose proof (pairing_perm _ _ _ Hs) as Hperm. apply (oriented_perm (lc_Role local)) in Hperm.
  destruct (perm_lookup_index _ n k Hperm) as (j & Hj & Ej).
  { rewrite <-Hl. by eapply lookup_lt_Some. }
  destruct (lookup_lt_is_Some_2 (lc_SourceSlots peer) j ltac:(lia)) as [t Ht].
  exists s, j, t. split_and!; auto. unfold predictive_candidate, oriented in *. f_equal.
  unfold slot_at. rewrite (nth_lookup_Some _ _ _ _ Ej), Nat2Z.id. by rewrite (nth_lookup_Some _ _ _ _ Ht).
Qed.

Lemma mapping_spec local peer key cands :
  mapping_candidates attempts local peer key = Some cands ->
  exists slots, slots ≡ₚ map sl_SocketSlot (lc_SourceSlots local) /\
    length cands = length (lc_SourceSlots local) /\
    forall k c, cands !! k = Some c -> exists slot, slots !! k = Some slot /\
      c = mkPlanCandidate (lc_Role local) slot (Z.of_nat k) 0 (ap_Port (lc_ReceiveEndpoint peer)).
Proof.
  unfold mapping_candidates. intros (slots & Hs & E)%bind_Some. injection E as <-.
  apply shuffle_perm in Hs. exists slots. split; [done|]. rewrite length_imap. split.
  - by rewrite (Permutation_length Hs), length_map.
  - intros k c (s & Hk & ->)%imap_lookup_Some. eauto.
Qed.

Lemma target_spec local key cands :
  target_candidates attempts local key = Some cands ->
  exists ports, ports ≡ₚ portRange 1 65535 /\ Z.of_nat (length cands) = 512 /\
    forall k c, cands !! k = Some c -> exists port, ports !! k = Some port /\
      c = mkPlanCandidate (lc_Role local) (sl_SocketSlot (slot_at (lc_SourceSlots local) 0)) (Z.of_nat k)
            (ap_Port (lc_ReceiveEndpoint local)) port.
Proof.
  unfold target_candidates. intros (ports & Hs & E)%bind_Some. injection E as <-.
  apply shuffle_perm in Hs. exists ports. split; [done|]. rewrite length_imap. split.
  - rewrite length_take, (Permutation_length Hs), portRange_length. lia.
  - intros k c (s & Hk & ->)%imap_lookup_Some. apply lookup_take_Some in Hk as [Hk _]. eauto.
Qed.

Lemma hard_spec local suffix rounds key cands :
  (rounds = 1 \/ rounds = 2)%nat ->
  hard_candidates attempts local suffix rounds key = Some cands ->
  exists ports, ports ≡ₚ portRange DynamicPortMin DynamicPortMax /\
    Z.of_nat (length cands) = Z.of_nat rounds * DynamicPortCount /\
    forall k c, cands !! k = Some c -> exists (j : nat) port,
      ports !! j = Some port /\ (Z.of_nat k = Z.of_nat j \/ Z.of_nat k = Z.of_nat j + DynamicPortCount) /\
      c = mkPlanCandidate (lc_Role local) (Z.of_nat k / 1024) (Z.of_nat k) 0 port.
Proof.
  unfold hard_candidates. intros Hr (ports & Hs & E)%bind_Some. injection E as <-.
  apply shuffle_perm in Hs. exists ports. split; [done|]. rewrite length_imap.
  assert (Hl : Z.of_nat (length ports) = DynamicPortCount).
  { rewrite (Permutation_length Hs), portRange_length. unfold DynamicPortCount, DynamicPortMin, DynamicPortMax. lia. }
  assert (Hl' : Z.of_nat (length (concat (replicate rounds ports))) = Z.of_nat rounds * DynamicPortCount).
  { destruct Hr as [->| ->]; cbn [replicate concat]; rewrite ?length_app; cbn [length]; lia. }
  split; [done|].
  intros k c (port & Hk & ->)%imap_lookup_Some.
  assert (Hj : exists j : nat, ports !! j = Some port /\
             (Z.of_nat k = Z.of_nat j \/ Z.of_nat k = Z.of_nat j + DynamicPortCount)).
  { destruct Hr as [->| ->]; cbn [replicate concat] in Hk; rewrite ?app_nil_r in Hk; [eauto|].
    apply lookup_app_Some in Hk as [Hk|[Hge Hk]]; [eauto|]. eexists. split; [done|]. right. lia. }
  destruct Hj as (j & Hj & Hkj). eauto.
Qed.

(** The two roles of the asymmetric profile. *)
Lemma asymmetric_role c shape :
  committed c shape -> lc_Profile c = ProfileAsymmetricBirthday ->
  lc_Role c = RoleMappingSet \/ lc_Role c = RoleTargetSet.
Proof.
  intros Hc Hp. pose proof (cm_role _ _ Hc) as Hr. rewrite Hp in Hr. unfold validateRole, profile_roles in Hr.
  name_tests. destruct (bool_decide (lc_Role c = RoleMappingSet)) eqn:E1; [left; by apply bool_decide_eq_true in E1|].
  destruct (bool_decide (lc_Role c = RoleTargetSet)) eqn:E2; [right; by apply bool_decide_eq_true in E2|done].
Qed.

Lemma flows_NoDup cands :
  (forall i j c d, cands !! i = Some c -> cands !! j = Some d -> cn_SocketSlot c = cn_SocketSlot d ->
     cn_TargetPort c = cn_TargetPort d -> i = j) ->
  NoDup (map flow cands) /\ Forall (fun f => f ∉ (∅ : gset (Z * Z))) (map flow cands).
Proof.
  intros Hinj. split.
  - apply NoDup_lookups. intros i j f (c & Hc & ->)%map_lookup_Some (d & Hd & E)%map_lookup_Some.
    unfold flow in E. injection E as E1 E2. eauto.
  - apply Forall_forall. intros f _. set_solver.
Qed.

Lemma predictive_fine local peer shape shape' key cands :
  committed local shape -> committed peer shape' ->
  lc_ResourceClass local = ResourcePredictive -> lc_ResourceClass peer = ResourcePredictive ->
  predictive_candidates attempts local peer key = Some cands ->
  Z.of_nat (length cands) = PredictiveWindowPorts /\
  candidates_fine local (lc_Role local) 8 0 cands ∅.
Proof.
  intros Hcl Hcp Hl Hp E.
  destruct (committed_slots _ _ Hcl) as (Hwl & Hsl & Hnl), (committed_slots _ _ Hcp) as (Hwp & Hsp & Hnp).
  specialize (Hnp Hp). rewrite Hl in *. rewrite Hp in *. unfold wanted_slots in Hwl, Hwp. name_tests.
  injection Hwl as Hwl. injection Hwp as Hwp.
  apply (predictive_spec local peer key 32) in E as (permutation & Hs & Hlen & Hspec); [|unfold PredictiveWindowPorts in *; lia..].
  apply pairing_perm, (oriented_perm (lc_Role local)) in Hs.
  split; [unfold PredictiveWindowPorts; lia|]. split.
  - intros k c Hk. destruct (Hspec k c Hk) as (s & j & t & Hks & _ & Hjt & ->).
    destruct (Hsl k s Hks) as [_ Hfs], (Hsp j t Hjt) as [_ Hft]. name_tests.
    pose proof (lookup_lt_Some _ _ _ Hks). rewrite Z.add_0_l. unfold candidate_fine. rewrite Hl. name_tests.
    assert (Hat : slot_at (lc_SourceSlots local) (Z.of_nat k) = s)
      by (unfold slot_at; rewrite Nat2Z.id; by apply nth_lookup_Some).
    rewrite Hat. cbn. destruct Hfs as [Hfs _]. split_and!; try tauto; [|lia].
    rewrite Hfs. apply Z.mod_pos_bound. lia.
  - apply flows_NoDup. intros i j c d Hc Hd _ Ht.
    destruct (Hspec i c Hc) as (s & a & t & _ & Hia & Hat & ->), (Hspec j d Hd) as (s' & b & u & _ & Hjb & Hbu & ->).
    cbn in Ht. assert (Hab : a = b).
    { apply (NoDup_lookup _ a b (sl_ExpectedPublicSourcePort t) Hnp); apply map_lookup_Some; eauto. }
    subst b. apply (NoDup_lookup (oriented (lc_Role local) permutation) i j (Z.of_nat a)); auto.
    rewrite Hs. apply indices_NoDup.
Qed.

Lemma mapping_fine local peer shape key cands :
  committed local shape ->
  lc_ResourceClass local = ResourceAsymmetric -> lc_Role local = RoleMappingSet ->
  endpoint_Valid (lc_ReceiveEndpoint peer) = true ->
  mapping_candidates attempts local peer key = Some cands ->
  Z.of_nat (length cands) = 128 /\ candidates_fine local (lc_Role local) 128 0 cands ∅.
Proof.
  intros Hcl Hl Hr He E. destruct (committed_slots _ _ Hcl) as (Hwl & Hsl & _).
  rewrite Hl, Hr in *. unfold wanted_slots in Hwl. name_tests. injection Hwl as Hwl.
  assert (Hfine : forall (k : nat) s, lc_SourceSlots local !! k = Some s -> sl_SocketSlot s = Z.of_nat k).
  { intros k s Hk. destruct (Hsl k s Hk) as [_ Hf]. name_tests. by apply Hf. }
  apply mapping_spec in E as (slots & Hp & Hlen & Hspec). rewrite Hr in Hspec.
  assert (Hslot : forall s, s ∈ slots -> s < 128).
  { intros z Hz. rewrite Hp in Hz. apply list_elem_of_lookup in Hz as (k & (s & Hs & ->)%map_lookup_Some).
    rewrite (Hfine k s Hs). apply lookup_lt_Some in Hs. lia. }
  assert (Hnd : NoDup slots).
  { rewrite Hp. apply NoDup_lookups. intros i j z (s & Hs & ->)%map_lookup_Some (s' & Hs' & Ez)%map_lookup_Some.
    rewrite (Hfine i s Hs), (Hfine j s' Hs') in Ez. lia. }
  apply andb_true_iff in He as [_ He]. split; [lia|]. split.
  - intros k c Hk. rewrite Z.add_0_l. destruct (Hspec k c Hk) as (slot & Hslot' & ->).
    apply list_elem_of_lookup_2, Hslot in Hslot'. unfold candidate_fine. rewrite Hl, Hr. name_tests. cbn.
    split_and!; try done; lia.
  - apply flows_NoDup. intros i j c d Hc Hd Es _.
    destruct (Hspec i c Hc) as (a & Ha & ->), (Hspec j d Hd) as (b & Hb & ->). cbn in Es. subst b.
    by eapply NoDup_lookup.
Qed.

Lemma target_fine local shape key cands :
  committed local shape ->
  lc_ResourceClass local = ResourceAsymmetric -> lc_Role local = RoleTargetSet -> ct_Sockets (lc_Cost local) = 128 ->
  target_candidates attempts local key = Some cands ->
  Z.of_nat (length cands) = 512 /\ candidates_fine local (lc_Role local) 128 0 cands ∅.
Proof.
  intros Hcl Hl Hr Hcost E. destruct (committed_slots _ _ Hcl) as (Hwl & Hsl & _).
  rewrite Hl, Hr, Hcost in *. unfold wanted_slots in Hwl. name_tests. injection Hwl as Hwl.
  assert (Hslot : sl_SocketSlot (slot_at (lc_SourceSlots local) 0) < 128).
  { destruct (lc_SourceSlots local) as [|s rest]; [cbn in Hwl; lia|].
    destruct (Hsl 0%nat s eq_refl) as [_ Hf]. name_tests. by apply Hf. }
  apply target_spec in E as (ports & Hp & Hlen & Hspec).
  assert (Hnd : NoDup ports) by (rewrite Hp; apply portRange_NoDup).
  split; [done|]. split.
  - intros k c Hk. rewrite Z.add_0_l. destruct (Hspec k c Hk) as (port & Hport & ->).
    apply list_elem_of_lookup_2 in Hport. rewrite Hp in Hport. apply portRange_elem in Hport.
    unfold candidate_fine. rewrite Hl, Hr. name_tests. cbn [cn_Role cn_Ordinal cn_TargetPort cn_SocketSlot cn_ExpectedSourcePort].
    split_and!; try done; lia.
  - apply flows_NoDup. intros i j c d Hc Hd _ Ep.
    destruct (Hspec i c Hc) as (a & Ha & ->), (Hspec j d Hd) as (b & Hb & ->). cbn in Ep. subst b.
    by eapply NoDup_lookup.
Qed.

Lemma hard_fine local suffix rounds key cands total sockets :
  total = Z.of_nat rounds * DynamicPortCount -> sockets = Z.of_nat rounds * 16 ->
  (rounds = 1 /\ lc_ResourceClass local = ResourceHard16KLab
   \/ rounds = 2 /\ lc_ResourceClass local = ResourceHard32KCandidate)%nat ->
  hard_candidates attempts local suffix rounds key = Some cands ->
  Z.of_nat (length cands) = total /\ candidates_fine local (lc_Role local) sockets 0 cands ∅.
Proof.
  intros Htotal Hsockets Hr E. apply hard_spec in E as (ports & Hp & Hlen & Hspec); [|tauto].
  assert (Hnd : NoDup ports) by (rewrite Hp; apply portRange_NoDup).
  assert (Hlp : Z.of_nat (length ports) = DynamicPortCount).
  { rewrite (Permutation_length Hp), portRange_length. unfold DynamicPortCount, DynamicPortMin, DynamicPortMax. lia. }
  rewrite Htotal, Hsockets. split; [done|]. split.
  - intros k c Hk. rewrite Z.add_0_l. pose proof (lookup_lt_Some _ _ _ Hk) as Hlt.
    destruct (Hspec k c Hk) as (j & port & Hport & _ & ->).
    apply list_elem_of_lookup_2 in Hport. rewrite Hp in Hport. apply portRange_elem in Hport.
    unfold DynamicPortCount, DynamicPortMin, DynamicPortMax in *.
    assert (Hdiv : Z.of_nat k / 1024 < Z.of_nat rounds * 16) by (apply Z.div_lt_upper_bound; lia).
    unfold candidate_fine. cbn [cn_Role cn_Ordinal cn_TargetPort cn_SocketSlot cn_ExpectedSourcePort].
    destruct Hr as [[-> ->]|[-> ->]]; name_tests; split_and!; try done; try lia; auto.
  - apply flows_NoDup. intros i j c d Hc Hd Es Ep.
    destruct (Hspec i c Hc) as (a & p & Ha & Hia & ->), (Hspec j d Hd) as (b & q & Hb & Hjb & ->). cbn in Es, Ep. subst q.
    assert (a = b) as <- by (by eapply NoDup_lookup). unfold DynamicPortCount, DynamicPortMin, DynamicPortMax in *.
    pose proof (Z.div_mod (Z.of_nat i) 1024 ltac:(lia)). pose proof (Z.div_mod (Z.of_nat j) 1024 ltac:(lia)).
    pose proof (Z.mod_pos_bound (Z.of_nat i) 1024 ltac:(lia)). pose proof (Z.mod_pos_bound (Z.of_nat j) 1024 ltac:(lia)).
    lia.
Qed.

Lemma built_fine local peer shape shape' key cands :
  committed local shape -> committed peer shape' -> lc_ResourceClass local = lc_ResourceClass peer ->
  buildDirectionalCandidates attempts local peer key = Some (Ok cands) ->
  Z.of_nat (length cands) = sh_candidates shape /\
  candidates_fine local (lc_Role local) (ct_Sockets (sh_cost shape)) 0 cands ∅.
Proof.
  intros Hcl Hcp Hres E. pose proof (committed_case _ _ Hcl) as Hcase. unfold buildDirectionalCandidates in E.
  inversion Hcase as [HP HR HS|HP HR HS|HP HR HS|HP HR HS]; rewrite <-HR in E; name_tests.
  - apply fmap_Some in E as (cands' & E & [= <-]). subst shape.
    destruct (predictive_fine local peer _ shape' key cands Hcl Hcp) as [Hlen Hfine]; try congruence.
    split; [|done]. cbn [sh_candidates predictive_shape]. unfold commitment_predicted. rewrite <-HR. name_tests.
    destruct (committed_slots _ _ Hcl) as (Hw & _). rewrite <-HR in Hw. unfold wanted_slots in Hw. name_tests. congruence.
  - subst shape. destruct (asymmetric_role _ _ Hcl (eq_sym HP)) as [Hr|Hr]; unfold asymmetric_shape;
      cbn [sh_candidates sh_cost ct_Sockets]; rewrite Hr in E |- *; name_tests.
    + destruct (endpoint_Valid (lc_ReceiveEndpoint peer)) eqn:He; [|done]. cbn in E.
      apply fmap_Some in E as (cands' & E & [= <-]). rewrite <-Hr. by eapply mapping_fine.
    + apply fmap_Some in E as (cands' & E & [= <-]). rewrite <-Hr.
      eapply target_fine; eauto. by rewrite (cm_cost _ _ Hcl).
  - subst shape. apply fmap_Some in E as (cands' & E & [= <-]). 
    apply (hard_fine local _ 1 key cands (sh_candidates hard16_shape) (ct_Sockets (sh_cost hard16_shape))) in E; auto.
  - subst shape. apply fmap_Some in E as (cands' & E & [= <-]). 
    apply (hard_fine local _ 2 key cands (sh_candidates hard32_shape) (ct_Sockets (sh_cost hard32_shape))) in E; auto.
Qed.
End candidates.
