(* ===== verification/HardNatBilateral.v ===== *)
(** * Hard-NAT planning: the bilateral plan

    Both ends build the same plan whatever side they call left; its candidates
    meet; and each end's verification accepts it. *)
From S2P Require Import Prelude GoStd LivenessWire HardNatArith HardNatTypes HardNatStun HardNatEvidence HardNatPlan HardNatCandidates.
Open Scope go_scope.

Lemma profile_roles_cases profile first second :
  profile_roles profile = Some (first, second) ->
  (profile = ProfilePredictiveEdm \/ profile = ProfileHardBirthday) /\ first = RoleInitiator /\ second = RoleResponder
  \/ profile = ProfileAsymmetricBirthday /\ first = RoleMappingSet /\ second = RoleTargetSet.
Proof.
  unfold profile_roles. repeat case_bool_decide; simpl; naive_solver.
Qed.
Lemma profile_roles_ne profile first second : profile_roles profile = Some (first, second) -> first <> second.
Proof. by intros [(_ & -> & ->)|(_ & -> & ->)]%profile_roles_cases. Qed.

Lemma canonical_sym left right : canonicalCommitments left right = canonicalCommitments right left.
Proof.
  unfold canonicalCommitments.
  destruct (decide (lc_Profile left = lc_Profile right)) as [Hp|Hp];
    [|by rewrite (bool_decide_eq_false_2 (lc_Profile left = _)), (bool_decide_eq_false_2 (lc_Profile right = _)) by congruence].
  destruct (decide (lc_ResourceClass left = lc_ResourceClass right)) as [Hr|Hr];
    [|by rewrite (bool_decide_eq_false_2 (lc_ResourceClass left = _)), (bool_decide_eq_false_2 (lc_ResourceClass right = _)),
        !orb_true_r by congruence].
  destruct (decide (lc_AttemptDigest left = lc_AttemptDigest right)) as [Ha|Ha];
    [|by rewrite (bool_decide_eq_false_2 (lc_AttemptDigest left = _)), (bool_decide_eq_false_2 (lc_AttemptDigest right = _)),
        !orb_true_r by congruence].
  rewrite Hp, Hr, Ha, !bool_decide_eq_true_2 by done.
  rewrite (Z.eqb_sym (lc_Generation right)).
  destruct (Z.eqb_spec (lc_Generation left) (lc_Generation right)) as [Hg|]; [|done]. rewrite Hg. cbn [negb orb].
  destruct (_ || _); [done|].
  destruct (profile_roles (lc_Profile right)) as [[first second]|] eqn:Hroles; [|done].
  apply profile_roles_ne in Hroles. repeat case_bool_decide; simpl; try done; congruence.
Qed.

(** The plan does not depend on which commitment is called left: the two ends,
    which pass theirs and the peer's in opposite order, get the same result,
    errors included. *)
Lemma bilateral_build_sym {H : Sha256} {M : Hmac} attempts left right keySource :
  BuildBilateralPlan attempts left right keySource = BuildBilateralPlan attempts right left keySource.
Proof. unfold BuildBilateralPlan. by rewrite canonical_sym. Qed.

Section bilateral.
Context {H : Sha256} {M : Hmac} (attempts : nat).

Definition unsigned_plan (local : LocalSourceCommitment) (cands : list Candidate) : Plan :=
  mkPlan (lc_Profile local) (lc_ResourceClass local) (lc_Role local) (lc_Generation local)
    (lc_Universe local) (lc_Cost local) cands (lc_Probability local) (lc_EvidenceDigest local)
    (lc_CostDigest local) zero_digest (lc_Executable local).
Definition plan_of (local : LocalSourceCommitment) (cands : list Candidate) : Plan :=
  with_plan_digest (lc_AttemptDigest local) (unsigned_plan local cands).

Lemma directional_inv local peer key p :
  directional_plan attempts local peer key = Some (Ok p) ->
  exists cands, buildDirectionalCandidates attempts local peer key = Some (Ok cands) /\ p = plan_of local cands.
Proof.
  unfold directional_plan. intros (r & Hr & E)%bind_Some. injection E as E.
  destruct r as [cands|]; [|done]. cbn [res_bind] in E.
  destruct (shapeForCommitment local) as [shape|]; [|done]. cbn [res_bind] in E.
  destruct (negb _); [done|]. injection E as <-. eauto.
Qed.

Record built (left right : LocalSourceCommitment) (derive : PlannerKeyContext -> option (list Z))
    (b : BilateralPlan) (first second : LocalSourceCommitment) (shape1 shape2 : planShape)
    (key : list Z) (cands1 cands2 : list Candidate) : Prop := {
  bt_canonical : canonicalCommitments left right = Ok (first, second);
  bt_first : committed first shape1;
  bt_second : committed second shape2;
  bt_key : derive (planner_key_context first second) = Some key;
  bt_key_nonzero : allZero key = false;
  bt_cands1 : buildDirectionalCandidates attempts first second key = Some (Ok cands1);
  bt_cands2 : buildDirectionalCandidates attempts second first key = Some (Ok cands2);
  bt_plan : b = joint_of first second (plan_of first cands1) (plan_of second cands2)
    (digestJointCommitment (Commitment (joint_of first second (plan_of first cands1) (plan_of second cands2) zero_digest)));
}.

Lemma bilateral_inv left right derive b :
  BuildBilateralPlan attempts left right (Some derive) = Some (Ok b) ->
  exists first second shape1 shape2 key cands1 cands2,
    built left right derive b first second shape1 shape2 key cands1 cands2.
Proof.
  unfold BuildBilateralPlan.
  destruct (canonicalCommitments left right) as [[first second]|] eqn:Hcan; [|done].
  destruct (validateLocalCommitment first) eqn:Hv1; [done|].
  destruct (validateLocalCommitment second) eqn:Hv2; [done|].
  destruct (derive _) as [key|] eqn:Hkey; [|done].
  destruct (allZero key) eqn:Hz; [done|].
  destruct (directional_plan attempts first second key) as [[p1|]|] eqn:Hd1; [|done..].
  destruct (directional_plan attempts second first key) as [[p2|]|] eqn:Hd2; [|done..].
  intros E. injection E as <-.
  apply validate_committed in Hv1 as [shape1 Hc1], Hv2 as [shape2 Hc2].
  apply directional_inv in Hd1 as (cands1 & Hb1 & ->), Hd2 as (cands2 & Hb2 & ->).
  exists first, second, shape1, shape2, key, cands1, cands2. by constructor.
Qed.

Record agreed (first second : LocalSourceCommitment) : Prop := {
  ag_profile : lc_Profile first = lc_Profile second;
  ag_resource : lc_ResourceClass first = lc_ResourceClass second;
  ag_attempt : lc_AttemptDigest first = lc_AttemptDigest second;
  ag_generation : lc_Generation first = lc_Generation second;
  ag_generation_nonzero : lc_Generation first <> 0;
  ag_attempt_nonzero : allZero (lc_AttemptDigest first) = false;
  ag_roles : profile_roles (lc_Profile first) = Some (lc_Role first, lc_Role second);
}.

Lemma canonical_agreed left right first second :
  canonicalCommitments left right = Ok (first, second) ->
  agreed first second /\ (first = left /\ second = right \/ first = right /\ second = left).
Proof.
  unfold canonicalCommitments. match goal with |- (if ?b then _ else _) = _ -> _ => destruct b eqn:Hb; [done|] end.
  repeat (apply orb_false_iff in Hb as [Hb ?]).
  repeat match goal with
  | Hx : negb _ = false |- _ => apply negb_false_iff in Hx
  | Hx : bool_decide _ = true |- _ => apply bool_decide_eq_true in Hx
  | Hx : (_ =? _) = true |- _ => apply Z.eqb_eq in Hx
  | Hx : (_ =? _) = false |- _ => apply Z.eqb_neq in Hx
  end.
  destruct (profile_roles (lc_Profile left)) as [[r1 r2]|] eqn:Hroles; [|done].
  destruct (bool_decide (lc_Role left = r1) && bool_decide (lc_Role right = r2)) eqn:E1;
    [|destruct (bool_decide (lc_Role right = r1) && bool_decide (lc_Role left = r2)) eqn:E2; [|done]];
    intros E; injection E as <- <-.
  - apply andb_true_iff in E1 as [<-%bool_decide_eq_true <-%bool_decide_eq_true].
    split; [by constructor|by left].
  - apply andb_true_iff in E2 as [<-%bool_decide_eq_true <-%bool_decide_eq_true].
    split; [constructor; congruence|by right].
Qed.

(** ** The schedules of the predictive profile meet *)

(** The packets of two candidates cross: each is sent from the port the other
    one targets. *)
Definition crosses (c d : Candidate) : Prop :=
  cn_TargetPort c = cn_ExpectedSourcePort d /\ cn_TargetPort d = cn_ExpectedSourcePort c.

Definition scheduled (local peer : LocalSourceCommitment) (permutation : list Z) (cands : list Candidate) : Prop :=
  length cands = length (lc_SourceSlots local) /\
  forall k c, cands !! k = Some c -> exists s j t,
    lc_SourceSlots local !! k = Some s /\ permutation !! k = Some (Z.of_nat j) /\
    lc_SourceSlots peer !! j = Some t /\ c = predictive_candidate (lc_Role local) k s t.

Lemma crossing_unique local peer permutation permutation' cands cands' c :
  (forall k j : nat, permutation !! k = Some (Z.of_nat j) <-> permutation' !! j = Some (Z.of_nat k)) ->
  scheduled local peer permutation cands -> scheduled peer local permutation' cands' ->
  NoDup (map sl_ExpectedPublicSourcePort (lc_SourceSlots peer)) ->
  c ∈ cands -> exists! d, d ∈ cands' /\ crosses c d.
Proof.
  intros Hinv [Hl Hspec] [Hl' Hspec'] Hnd [k Hk]%list_elem_of_lookup.
  destruct (Hspec k c Hk) as (s & j & t & Hs & Hj & Ht & ->).
  destruct (lookup_lt_is_Some_2 cands' j) as [d Hd]; [rewrite Hl'; by eapply lookup_lt_Some|].
  assert (Hat : forall j' d', cands' !! j' = Some d' -> cn_TargetPort (predictive_candidate (lc_Role local) k s t)
            = cn_ExpectedSourcePort d' -> j' = j).
  { intros j' d' Hd' E. destruct (Hspec' j' d' Hd') as (s' & k' & t' & Hs' & _ & _ & ->). cbn in E.
    apply (NoDup_lookup _ j' j (sl_ExpectedPublicSourcePort t) Hnd); apply map_lookup_Some; eauto. }
  exists d. split.
  - split; [by eapply list_elem_of_lookup_2|].
    destruct (Hspec' j d Hd) as (s' & k' & t' & Hs' & Hk' & Ht' & ->).
    apply Hinv in Hj. rewrite Hj in Hk'. injection Hk' as Hk'. apply Nat2Z.inj in Hk' as <-. split; cbn; congruence.
  - intros d' [[j' Hd']%list_elem_of_lookup [E _]]. pose proof (Hat j' d' Hd' E). subst j'. congruence.
Qed.

(** The port schedule of a validated predictive commitment. *)
Lemma predictive_slots c shape :
  committed c shape -> lc_ResourceClass c = ResourcePredictive ->
  length (lc_SourceSlots c) = 32%nat /\ NoDup (map sl_ExpectedPublicSourcePort (lc_SourceSlots c)).
Proof.
  intros Hc Hr. destruct (committed_slots _ _ Hc) as (Hw & _ & Hnd). split; [|auto].
  rewrite Hr in Hw. unfold wanted_slots in Hw. name_tests. injection Hw as Hw. unfold PredictiveWindowPorts in Hw. lia.
Qed.

Lemma build_predictive local peer key :
  lc_ResourceClass local = ResourcePredictive ->
  buildDirectionalCandidates attempts local peer key = Ok <$> predictive_candidates attempts local peer key.
Proof. intros Hr. unfold buildDirectionalCandidates. rewrite Hr. by name_tests. Qed.

Lemma predictive_scheduled local peer shape shape' key cands :
  committed local shape -> committed peer shape' ->
  lc_ResourceClass local = ResourcePredictive -> lc_ResourceClass peer = ResourcePredictive ->
  buildDirectionalCandidates attempts local peer key = Some (Ok cands) ->
  exists permutation, pairing attempts key 32 = Some permutation /\
    scheduled local peer (oriented (lc_Role local) permutation) cands.
Proof.
  intros Hc Hc' Hr Hr' E. rewrite build_predictive in E by done. apply fmap_Some in E as (cands' & E & Eok).
  injection Eok as <-. destruct (predictive_slots _ _ Hc Hr) as [Hl _], (predictive_slots _ _ Hc' Hr') as [Hl' _].
  apply (predictive_spec attempts local peer key 32) in E as (permutation & Hp & Hlen & Hspec); [|done..].
  exists permutation. split; [done|]. split; [congruence|done].
Qed.

Lemma predictive_crossing left right derive b :
  BuildBilateralPlan attempts left right (Some derive) = Some (Ok b) -> bp_ResourceClass b = ResourcePredictive ->
  (forall c, c ∈ pn_Candidates (bp_First b) -> exists! d, d ∈ pn_Candidates (bp_Second b) /\ crosses c d) /\
  (forall d, d ∈ pn_Candidates (bp_Second b) -> exists! c, c ∈ pn_Candidates (bp_First b) /\ crosses d c) /\
  length (pn_Candidates (bp_First b)) = 32%nat /\ length (pn_Candidates (bp_Second b)) = 32%nat.
Proof.
  intros (first & second & shape1 & shape2 & key & cands1 & cands2 & [Hcan Hc1 Hc2 _ _ Hb1 Hb2 ->])%bilateral_inv Hres.
  cbn [joint_of bp_ResourceClass bp_First bp_Second plan_of unsigned_plan with_plan_digest pn_Candidates] in *.
  apply canonical_agreed in Hcan as [Hag _]. pose proof (ag_resource _ _ Hag) as Hres2. rewrite Hres in Hres2.
  pose proof (committed_case _ _ Hc1) as Hcase.
  assert (Hroles : lc_Role first = RoleInitiator /\ lc_Role second = RoleResponder).
  { destruct (profile_roles_cases _ _ _ (ag_roles _ _ Hag)) as [(_ & ? & ?)|(Hp & _)]; [done|].
    rewrite Hres, Hp in Hcase. inversion Hcase. }
  destruct (predictive_scheduled _ _ _ _ _ _ Hc1 Hc2 Hres (eq_sym Hres2) Hb1) as (permutation & Hp & Hs1).
  destruct (predictive_scheduled _ _ _ _ _ _ Hc2 Hc1 (eq_sym Hres2) Hres Hb2) as (permutation' & Hp' & Hs2).
  rewrite Hp in Hp'. injection Hp' as <-. destruct Hroles as [Hr1 Hr2]. rewrite Hr1 in Hs1. rewrite Hr2 in Hs2.
  unfold oriented in Hs1, Hs2. name_tests. apply pairing_perm in Hp.
  pose proof (fun k j => inverse_of_lookup permutation 32 k j Hp) as Hinv.
  destruct (predictive_slots _ _ Hc1 Hres) as [Hl1 Hn1], (predictive_slots _ _ Hc2 (eq_sym Hres2)) as [Hl2 Hn2].
  split_and!.
  - intros c Hc. by eapply crossing_unique.
  - intros c Hc. eapply crossing_unique; [|exact Hs2|exact Hs1|done|done]. intros k j. by rewrite Hinv.
  - by rewrite (proj1 Hs1).
  - by rewrite (proj1 Hs2).
Qed.

(** ** Every pair of validated commitments has a plan *)

(** The shuffle one direction runs: its domain and the number of its values. *)
Definition shuffle_run (local : LocalSourceCommitment) : list Z * nat :=
  if bool_decide (lc_ResourceClass local = ResourcePredictive) then (pairing_domain, 32%nat)
  else if bool_decide (lc_ResourceClass local = ResourceAsymmetric) then
    if bool_decide (lc_Role local = RoleMappingSet) then (domain [lc_Role local; "mapping-slots"%string], 128%nat)
    else (domain [lc_Role local; "target-ports"%string], Z.to_nat 65535)
  else (domain [lc_Role local; if bool_decide (lc_ResourceClass local = ResourceHard16KLab) then "hard-16k"
                               else "hard-32k"]%string, Z.to_nat DynamicPortCount).

Definition draws_succeed (key : list Z) (local : LocalSourceCommitment) : Prop :=
  draws_within attempts key (shuffle_run local).1 (shuffle_run local).2.

Lemma shuffled key dom n values :
  draws_within attempts key dom n -> length values = n -> exists r, shuffleUint16 attempts key dom values = Some r.
Proof. intros Hd <-. by destruct (shuffle_total attempts key dom values Hd) as [r ?]; eauto. Qed.

Lemma candidates_total local peer shape shape' key :
  committed local shape -> committed peer shape' -> agreed local peer \/ agreed peer local ->
  draws_succeed key local ->
  exists cands, buildDirectionalCandidates attempts local peer key = Some (Ok cands).
Proof.
  intros Hcl Hcp Hag Hd. assert (Hres : lc_ResourceClass local = lc_ResourceClass peer)
    by (destruct Hag as [Hag|Hag]; by rewrite (ag_resource _ _ Hag)).
  pose proof (committed_case _ _ Hcl) as Hcase. unfold draws_succeed, shuffle_run in Hd.
  destruct (committed_slots _ _ Hcl) as (Hw & _).
  inversion Hcase as [HP HR HS|HP HR HS|HP HR HS|HP HR HS];
    unfold buildDirectionalCandidates; rewrite <-HR in Hd, Hw |- *; unfold wanted_slots in Hw; name_tests;
    cbn [fst snd] in Hd.
  - assert (Hlp : length (lc_SourceSlots peer) = 32%nat) by (apply (predictive_slots peer shape' Hcp); congruence).
    destruct (shuffled _ _ _ (map Z.of_nat (seq 0 (length (lc_SourceSlots peer)))) Hd) as [r Hr].
    { by rewrite length_map, length_seq. }
    unfold predictive_candidates. rewrite Hr. by eexists.
  - destruct (asymmetric_role _ _ Hcl (eq_sym HP)) as [Hr|Hr]; rewrite Hr in Hd, Hw |- *; name_tests; cbn [fst snd] in Hd.
    + assert (Hpr : lc_Role peer = RoleTargetSet).
      { destruct Hag as [Hag|Hag]; pose proof (profile_roles_cases _ _ _ (ag_roles _ _ Hag)) as Hroles;
          rewrite Hr in Hroles; naive_solver. }
      assert (Hpp : lc_Profile peer = ProfileAsymmetricBirthday)
        by (destruct Hag as [Hag|Hag]; pose proof (ag_profile _ _ Hag); congruence).
      pose proof (cm_endpoint _ _ Hcp) as He. unfold validateReceiveEndpoint, receives in He.
      rewrite Hpr, Hpp in He. name_tests. destruct (endpoint_Valid (lc_ReceiveEndpoint peer)); [|done].
      injection Hw as Hw. destruct (shuffled _ _ _ (map sl_SocketSlot (lc_SourceSlots local)) Hd) as [r Hr'].
      { rewrite length_map. lia. }
      cbn [negb]. unfold mapping_candidates. rewrite Hr, Hr'. by eexists.
    + destruct (shuffled _ _ _ (portRange 1 65535) Hd) as [r Hr']; [by rewrite portRange_length|].
      unfold target_candidates. rewrite Hr, Hr'. by eexists.
  - destruct (shuffled _ _ _ (portRange DynamicPortMin DynamicPortMax) Hd) as [r Hr']; [by rewrite portRange_length|].
    unfold hard_candidates. rewrite Hr'. by eexists.
  - destruct (shuffled _ _ _ (portRange DynamicPortMin DynamicPortMax) Hd) as [r Hr']; [by rewrite portRange_length|].
    unfold hard_candidates. rewrite Hr'. by eexists.
Qed.

Lemma directional_total local peer shape shape' key :
  committed local shape -> committed peer shape' -> agreed local peer \/ agreed peer local ->
  draws_succeed key local ->
  exists cands, buildDirectionalCandidates attempts local peer key = Some (Ok cands) /\
    directional_plan attempts local peer key = Some (Ok (plan_of local cands)).
Proof.
  intros Hcl Hcp Hag Hd. destruct (candidates_total local peer shape shape' key) as [cands E]; auto.
  exists cands. split; [done|].
  destruct (built_fine attempts local peer shape shape' key cands) as [Hlen _]; auto.
  { destruct Hag as [Hag|Hag]; by rewrite (ag_resource _ _ Hag). }
  unfold directional_plan. rewrite E. cbn [mbind option_bind res_bind].
  rewrite (cm_shape _ _ Hcl). cbn [res_bind]. by rewrite Hlen, Z.eqb_refl.
Qed.

(** ** Verification accepts the plan *)
Lemma plan_candidates_valid local peer shape shape' key cands :
  committed local shape -> committed peer shape' -> lc_ResourceClass local = lc_ResourceClass peer ->
  buildDirectionalCandidates attempts local peer key = Some (Ok cands) ->
  validatePlanCandidates (plan_of local cands) local shape = None.
Proof.
  intros Hcl Hcp Hres E. destruct (built_fine attempts local peer shape shape' key cands) as [Hlen Hfine]; auto.
  unfold validatePlanCandidates. cbn [plan_of with_plan_digest unsigned_plan pn_Candidates pn_Role].
  rewrite Hlen, Z.eqb_refl. cbn [negb]. by apply candidates_ok_spec.
Qed.

Lemma plan_of_verifies local shape cands joint :
  committed local shape -> validatePlanCandidates (plan_of local cands) local shape = None ->
  validJointCommitmentShape joint = true -> jc_JointDigest joint = digestJointCommitment joint ->
  jc_Profile joint = lc_Profile local -> jc_ResourceClass joint = lc_ResourceClass local ->
  jc_AttemptDigest joint = lc_AttemptDigest local -> jc_Generation joint = lc_Generation local ->
  let d := mkDirection (lc_Role local) (lc_SourceDigest local) (Digests (plan_of local cands)) in
  jc_First joint = d \/ jc_Second joint = d ->
  VerifyPlanAgainstCommitment (plan_of local cands) local joint = None.
Proof.
  intros Hc Hcands Hshape Hdig Hp Hr Ha Hg d Hdir. unfold VerifyPlanAgainstCommitment.
  assert (validateLocalCommitment local = None) as -> by (apply validate_committed; eauto).
  rewrite Hshape, (bool_decide_eq_true_2 _ Hdig). cbn [negb orb].
  rewrite (bool_decide_eq_true_2 _ Hp), (bool_decide_eq_true_2 _ Hr), (bool_decide_eq_true_2 _ Ha), Hg, Z.eqb_refl.
  cbn [negb orb]. rewrite (cm_shape _ _ Hc), Hcands.
  cbn [plan_of with_plan_digest unsigned_plan pn_Profile pn_ResourceClass pn_Role pn_Generation pn_Universe pn_Cost
       pn_Probability pn_EvidenceDigest pn_CostDigest pn_Executable pn_PlanDigest].
  rewrite Z.eqb_refl, Bool.eqb_reflx, !bool_decide_eq_true_2 by done. cbn [negb orb].
  assert (Hd : forall d', d' = d -> direction_matches (plan_of local cands) local d' = true).
  { intros d' ->. unfold direction_matches, d. cbn [dc_Role dc_SourceDigest dc_Triple].
    by rewrite !bool_decide_eq_true_2. }
  destruct Hdir as [E|E]; rewrite (Hd _ E), ?orb_true_r; done.
Qed.

Definition digests_nonzero (b : BilateralPlan) : bool :=
  negb (allZero (bp_JointDigest b)) && direction_nonzero (jc_First (Commitment b))
  && direction_nonzero (jc_Second (Commitment b)).

Lemma joint_shape_valid first second shape p1 p2 digest :
  agreed first second -> committed first shape ->
  pn_Role p1 = lc_Role first -> pn_Role p2 = lc_Role second ->
  digests_nonzero (joint_of first second p1 p2 digest) = true ->
  validJointCommitmentShape (Commitment (joint_of first second p1 p2 digest)) = true.
Proof.
  intros Hag Hc Hr1 Hr2 Hnz. unfold digests_nonzero in Hnz. apply andb_true_iff in Hnz as [[Hj Hd1]%andb_true_iff Hd2].
  unfold validJointCommitmentShape. cbn [Commitment joint_of jc_Generation jc_AttemptDigest jc_JointDigest jc_Profile
    jc_ResourceClass jc_First jc_Second bp_Generation bp_AttemptDigest bp_JointDigest bp_Profile bp_ResourceClass
    bp_First bp_Second dc_Role] in *.
  rewrite (ag_attempt_nonzero _ _ Hag), (ag_roles _ _ Hag), Hr1, Hr2,
    (bool_decide_eq_true_2 (lc_Role first = _)), (bool_decide_eq_true_2 (lc_Role second = _)) by done.
  rewrite Hr1 in Hd1. rewrite Hr2 in Hd2.
  rewrite (proj2 (Z.eqb_neq _ _) (ag_generation_nonzero _ _ Hag)). apply negb_true_iff in Hj. rewrite Hj, Hd1, Hd2.
  pose proof (committed_case _ _ Hc) as Hcase.
  inversion Hcase as [HP HR HS|HP HR HS|HP HR HS|HP HR HS]; by rewrite <-?HP, <-?HR; name_tests.
Qed.
End bilateral.

(** Every pair of validated commitments of the two roles has a plan: when the
    key source gives a nonzero key and every draw accepts within the attempts,
    [BuildBilateralPlan] succeeds, both roles find their direction, and unless a
    digest is zero both directions pass the verification. *)
Lemma bilateral_accepted {H : Sha256} {M : Hmac} attempts left right first second derive key :
  canonicalCommitments left right = Ok (first, second) ->
  validateLocalCommitment left = None -> validateLocalCommitment right = None ->
  derive (planner_key_context first second) = Some key -> allZero key = false ->
  draws_succeed attempts key first -> draws_succeed attempts key second ->
  exists b, BuildBilateralPlan attempts left right (Some derive) = Some (Ok b) /\
    PlanForRole b (lc_Role first) = Some (bp_First b) /\ PlanForRole b (lc_Role second) = Some (bp_Second b) /\
    (digests_nonzero b = true ->
       VerifyPlanAgainstCommitment (bp_First b) first (Commitment b) = None /\
       VerifyPlanAgainstCommitment (bp_Second b) second (Commitment b) = None /\
       VerifyJointCommitment (Commitment b) (Commitment b) = None).
Proof.
  intros Hcan Hv1 Hv2 Hkey Hz Hd1 Hd2. pose proof Hcan as Hcan'. apply canonical_agreed in Hcan' as [Hag Hsides].
  assert (validateLocalCommitment first = None /\ validateLocalCommitment second = None) as [Hf Hs]
    by (destruct Hsides as [[-> ->]|[-> ->]]; done).
  pose proof (proj1 (validate_committed _) Hf) as [shape1 Hc1]. pose proof (proj1 (validate_committed _) Hs) as [shape2 Hc2].
  destruct (directional_total attempts first second shape1 shape2 key) as (cands1 & Hb1 & Hp1); auto.
  destruct (directional_total attempts second first shape2 shape1 key) as (cands2 & Hb2 & Hp2); auto.
  unfold BuildBilateralPlan. rewrite Hcan, Hf, Hs, Hkey, Hz, Hp1, Hp2.
  eexists. split; [done|]. unfold PlanForRole. cbn [joint_of bp_First bp_Second].
  pose proof (profile_roles_ne _ _ _ (ag_roles _ _ Hag)) as Hne.
  split; [by rewrite bool_decide_eq_true_2|]. split.
  { rewrite bool_decide_eq_false_2 by done. by rewrite bool_decide_eq_true_2. }
  intros Hnz. pose proof (joint_shape_valid first second shape1 (plan_of first cands1) (plan_of second cands2) _ Hag Hc1
    eq_refl eq_refl Hnz) as Hshape.
  split_and!.
  - apply (plan_of_verifies first shape1); auto.
    apply (plan_candidates_valid attempts first second shape1 shape2 key); auto. apply Hag.
  - destruct Hag. apply (plan_of_verifies second shape2); auto.
    by apply (plan_candidates_valid attempts second first shape2 shape1 key).
  - unfold VerifyJointCommitment. rewrite Hshape. by rewrite !bool_decide_eq_true_2.
Qed.

(** C14: in a plan of the predictive profile the two schedules meet: each of the
    32 candidates of one side has exactly one candidate of the other side that
    is sent from the port it targets and targets the port it is sent from. *)
Theorem predictive_rendezvous {H : Sha256} {M : Hmac} attempts left right derive b :
  BuildBilateralPlan attempts left right (Some derive) = Some (Ok b) -> bp_ResourceClass b = ResourcePredictive ->
  (forall c, c ∈ pn_Candidates (bp_First b) -> exists! d, d ∈ pn_Candidates (bp_Second b) /\ crosses c d) /\
  (forall d, d ∈ pn_Candidates (bp_Second b) -> exists! c, c ∈ pn_Candidates (bp_First b) /\ crosses d c) /\
  length (pn_Candidates (bp_First b)) = 32%nat /\ length (pn_Candidates (bp_Second b)) = 32%nat.
Proof. apply predictive_crossing. Qed.

(** The schedule of the hard profile is complete: its candidates target
    every port from 49152 to 65535 exactly once, numbered in order, 1024
    consecutive ones per socket. *)
Theorem hard_schedule_complete {M : Hmac} attempts local peer key :
  lc_ResourceClass local = ResourceHard16KLab -> draws_succeed attempts key local ->
  exists cands, buildDirectionalCandidates attempts local peer key = Some (Ok cands) /\
    map cn_TargetPort cands ≡ₚ portRange 49152 65535 /\
    (forall k c, cands !! k = Some c ->
       cn_Ordinal c = Z.of_nat k /\ cn_SocketSlot c = Z.of_nat k / 1024 /\ 0 <= cn_SocketSlot c < 16).
Proof.
  intros Hr Hd. unfold draws_succeed, shuffle_run in Hd. rewrite Hr in Hd. name_tests. cbn [fst snd] in Hd.
  destruct (shuffled attempts _ _ _ (portRange DynamicPortMin DynamicPortMax) Hd) as [ports Hs];
    [by rewrite portRange_length|].
  unfold buildDirectionalCandidates. rewrite Hr. name_tests. unfold hard_candidates. rewrite Hs.
  eexists. split; [done|]. cbn [replicate concat]. rewrite app_nil_r. apply shuffle_perm in Hs. split.
  - rewrite <-Hs. apply reflexive_eq, list_eq. intros k. apply option_eq. intros port.
    rewrite map_lookup_Some. setoid_rewrite imap_lookup_Some. split; [naive_solver|eauto].
  - intros k c (port & Hk & ->)%imap_lookup_Some. cbn [cn_Ordinal cn_SocketSlot].
    apply lookup_lt_Some in Hk. rewrite (Permutation_length Hs), portRange_length in Hk.
    unfold DynamicPortMin, DynamicPortMax in Hk.
    split_and!; [done..|apply Z.div_pos; lia|apply Z.div_lt_upper_bound; lia].
Qed.
