(* ===== verification/HardNatPlanThms.v ===== *)
(** * Hard-NAT planning: budgets and the compact form

    What a verified plan may cost, that the governor admits it, and that a
    commitment survives its compact form. *)
From S2P Require Import Prelude GoStd Limits Governor LivenessWire HardNatArith HardNatTypes HardNatStun HardNatEvidence HardNatPlan HardNatBudget HardNatCandidates.
Open Scope go_scope.

Section verified.
Context {H : Sha256}.

Record verified (p : Plan) (source : LocalSourceCommitment) (joint : JointPlanCommitment) (shape : planShape) : Prop := {
  vf_committed : committed source shape;
  vf_joint : validJointCommitmentShape joint = true;
  vf_joint_digest : jc_JointDigest joint = digestJointCommitment joint;
  vf_profile : pn_Profile p = lc_Profile source;
  vf_resource : pn_ResourceClass p = lc_ResourceClass source;
  vf_role : pn_Role p = lc_Role source;
  vf_generation : pn_Generation p = lc_Generation source;
  vf_universe : pn_Universe p = lc_Universe source;
  vf_cost : pn_Cost p = lc_Cost source;
  vf_probability : pn_Probability p = lc_Probability source;
  vf_evidence : pn_EvidenceDigest p = lc_EvidenceDigest source;
  vf_cost_digest : pn_CostDigest p = lc_CostDigest source;
  vf_executable : pn_Executable p = lc_Executable source;
  vf_plan_digest : pn_PlanDigest p = digestPlan p (lc_AttemptDigest source);
  vf_length : Z.of_nat (length (pn_Candidates p)) = sh_candidates shape;
  vf_candidates : candidates_fine source (pn_Role p) (ct_Sockets (sh_cost shape)) 0 (pn_Candidates p) ∅;
  vf_direction : direction_matches p source (jc_First joint) = true \/ direction_matches p source (jc_Second joint) = true;
}.

Lemma verify_verified p source joint :
  VerifyPlanAgainstCommitment p source joint = None -> exists shape, verified p source joint shape.
Proof.
  unfold VerifyPlanAgainstCommitment.
  destruct (validateLocalCommitment source) eqn:Hv; [done|]. apply validate_committed in Hv as [shape Hc].
  rewrite (cm_shape _ _ Hc).
  match goal with |- (if ?b then _ else _) = None -> _ => destruct b eqn:Hb1; [done|] end.
  match goal with |- (if ?b then _ else _) = None -> _ => destruct b eqn:Hb2; [done|] end.
  match goal with |- (if ?b then _ else _) = None -> _ => destruct b eqn:Hb3; [done|] end.
  unfold validatePlanCandidates.
  destruct (Z.eqb_spec (Z.of_nat (length (pn_Candidates p))) (sh_candidates shape)); [|done]. cbn [negb].
  destruct (candidates_ok _ _ _ _ _ _) eqn:Hcand; [done|]. apply candidates_ok_spec in Hcand.
  match goal with |- (if ?b then _ else _) = None -> _ => destruct b eqn:Hdir; [|done] end.
  intros _. exists shape.
  repeat match goal with Hx : _ || _ = false |- _ => apply orb_false_iff in Hx as [? ?] end.
  repeat match goal with
  | Hx : negb _ = false |- _ => apply negb_false_iff in Hx
  | Hx : bool_decide _ = true |- _ => apply bool_decide_eq_true in Hx
  | Hx : Bool.eqb _ _ = true |- _ => apply eqb_prop in Hx
  | Hx : (_ =? _) = true |- _ => apply Z.eqb_eq in Hx
  | Hx : _ || _ = true |- _ => apply orb_true_iff in Hx
  end.
  by constructor.
Qed.
End verified.

(** ** The envelope of an executable plan *)

(** A governor with its compiled limits and no attempt. *)
Definition idle (g : Governor) (peer : PeerLease) (profile : Profile) (limits : Limits) : Prop :=
  g_profile g = profile /\ g_limits g = limits /\ g_attempts g = ∅ /\ pl_attempts peer = ∅ /\
  g_reserved g = resources_zero /\ g_heavyweightAttempts g = 0.

(** The observation before a plan: [Collect] registers its four endpoints, all
    with the first socket and one with each of the other seven, and sends
    [FreshEvidencePackets] packets. *)
Definition evidence_targets : Z := 4.
Definition evidence_flows : Z := 11.

(** What the plan and the observation need together fits the envelope. *)
Definition plan_within (p : Plan) (envelope : Envelope) (window : Z) : Prop :=
  let r := cost_Resources (ev_Cost envelope) in
  let count := Z.of_nat (length (pn_Candidates p)) in
  Forall (fun c => cn_SocketSlot c < Sockets r /\ cn_TargetPort c <> 0) (pn_Candidates p) /\
  NoDup (map flow (pn_Candidates p)) /\
  count + FreshEvidencePackets <= Packets r /\ count + evidence_flows <= FiveTuples r /\
  count + evidence_targets <= Targets r /\
  count * Second <= PacketsPerSecond r * window /\ window <= cost_Duration (ev_Cost envelope) /\
  ct_Sockets (pn_Cost p) <= Sockets r /\ ct_Targets (pn_Cost p) <= Targets r /\
  ct_FiveTuples (pn_Cost p) <= FiveTuples r /\ ct_Packets (pn_Cost p) <= Packets r /\
  ct_PacketsPerSecond (pn_Cost p) <= PacketsPerSecond r /\
  ct_ActiveMillis (pn_Cost p) * Millisecond <= cost_Duration (ev_Cost envelope).

Lemma idle_admits g peer profile limits id operation cost :
  idle g peer profile limits -> HardLimits profile = Ok limits ->
  validateIdentifier "attempt id" id = None -> Profile_Allows profile operation = true ->
  0 < cost_Duration cost <= MaxAttemptDuration limits ->
  validateNonNegative (cost_Resources cost) = None -> cost_Resources cost <> resources_zero ->
  resources_le (cost_Resources cost) (PerAttempt limits) -> resources_le (PerAttempt limits) (Aggregate limits) ->
  0 < MaxActiveAttempts limits -> 0 < MaxAttemptsPerPeer limits -> 0 < MaxHeavyweightAttempts limits ->
  validateAttemptLocked g peer (mkRequest id operation cost) = None.
Proof.
  intros (Hp & Hl & Ha & Hpa & Hr & Hh) _ Hid Hallow Hdur Hnn Hnz Hper Hagg Hma Hmp Hmh.
  unfold validateAttemptLocked. cbn [req_ID req_Operation req_Cost].
  rewrite Hid, Hp, Hallow, Ha, Hpa, Hl, Hr, Hh, lookup_empty, !map_size_empty, Hnn. cbn [negb].
  rewrite (proj2 (Z.leb_gt _ _)) by lia. rewrite (proj2 (Z.leb_gt _ _)) by lia.
  rewrite bool_decide_eq_false_2 by done.
  rewrite (proj2 (Z.leb_gt (cost_Duration cost) 0)) by lia. rewrite (proj2 (Z.ltb_ge _ _)) by lia.
  rewrite (proj2 (firstResourceExcess_None _ _) Hper). cbn [limit_error].
  rewrite (proj2 (firstResourceExcess_None _ (Aggregate limits))).
  - cbn [limit_error]. rewrite (proj2 (Z.leb_gt _ _)) by lia. by rewrite andb_false_r.
  - etransitivity; [|exact Hagg]. unfold resources_le, resources_add, resources_zero in *. cbn. lia.
Qed.

(** Comparisons of numerals. *)
Ltac closed_bounds := repeat split; vm_compute; first [reflexivity | discriminate | done].

(** The envelope of each executable shape. *)
Lemma envelope_of_shape role predicted profile resource shape :
  shape_case role predicted profile resource shape -> sh_executable shape = true ->
  (profile = ProfilePredictiveEdm -> predicted = PredictiveWindowPorts) ->
  exists envelope operation gprofile limits window,
    For profile resource = Ok envelope /\ envelope_Operation profile = Ok operation /\
    GovernorProfile profile resource = Ok gprofile /\ CandidateDuration profile resource = Ok window /\
    HardLimits gprofile = Ok limits /\
    (let r := cost_Resources (ev_Cost envelope) in
     ct_Sockets (sh_cost shape) <= Sockets r /\ ct_Targets (sh_cost shape) <= Targets r /\
     ct_FiveTuples (sh_cost shape) <= FiveTuples r /\ ct_Packets (sh_cost shape) <= Packets r /\
     ct_PacketsPerSecond (sh_cost shape) <= PacketsPerSecond r /\
     ct_ActiveMillis (sh_cost shape) * Millisecond <= cost_Duration (ev_Cost envelope) /\
     sh_candidates shape + FreshEvidencePackets <= Packets r /\ sh_candidates shape + evidence_flows <= FiveTuples r /\
     sh_candidates shape + evidence_targets <= Targets r /\ sh_candidates shape * Second <= PacketsPerSecond r * window /\
     window <= cost_Duration (ev_Cost envelope)) /\
    (forall g peer id, idle g peer gprofile limits -> validateIdentifier "attempt id" id = None ->
       validateAttemptLocked g peer (mkRequest id operation (ev_Cost envelope)) = None).
Proof.
  intros [] Hexec Hpred; try done; do 5 eexists.
  all: split; [reflexivity|]; split; [reflexivity|]; split; [reflexivity|]; split; [reflexivity|];
    split; [reflexivity|]; split.
  2,4,6: intros g peer id Hidle Hid; eapply idle_admits; [exact Hidle|reflexivity|exact Hid|reflexivity|..];
    closed_bounds.
  - rewrite (Hpred eq_refl). closed_bounds.
  - unfold asymmetric_shape. case_bool_decide; closed_bounds.
  - closed_bounds.
Qed.

(** C16: an executable plan that passes verification stays inside the frozen
    envelope of its profile: every candidate names a socket the envelope holds,
    no two share a socket and a target port; its candidates together with the
    fresh evidence (thirteen packets to four targets over eleven five-tuples)
    fit the packet, target and five-tuple budgets; the candidates can be sent at
    the rate within the candidate window; its own cost is within the budgets; and
    a governor of the profile that carries the envelope, when idle, admits an
    attempt of that cost. *)
Theorem executable_plan_within_envelope {H : Sha256} p source joint :
  VerifyExecutablePlanAgainstCommitment p source joint = None ->
  exists envelope operation gprofile limits window,
    For (pn_Profile p) (pn_ResourceClass p) = Ok envelope /\ envelope_Operation (pn_Profile p) = Ok operation /\
    GovernorProfile (pn_Profile p) (pn_ResourceClass p) = Ok gprofile /\
    CandidateDuration (pn_Profile p) (pn_ResourceClass p) = Ok window /\ HardLimits gprofile = Ok limits /\
    plan_within p envelope window /\
    (forall g peer id, idle g peer gprofile limits -> validateIdentifier "attempt id" id = None ->
       validateAttemptLocked g peer (mkRequest id operation (ev_Cost envelope)) = None).
Proof.
  unfold VerifyExecutablePlanAgainstCommitment.
  destruct (VerifyPlanAgainstCommitment p source joint) eqn:Hv; [done|].
  destruct (pn_Executable p) eqn:Hx; [|done]. intros _. apply verify_verified in Hv as [shape Hv].
  pose proof (vf_committed _ _ _ _ Hv) as Hc.
  destruct (envelope_of_shape _ _ _ _ _ (committed_case _ _ Hc))
    as (env & op & gp & limits & window & Hfor & Hop & Hgp & Hwin & Hlim & Hfit & Hadmit).
  - rewrite <-(cm_executable _ _ Hc), <-(vf_executable _ _ _ _ Hv). done.
  - intros Hp. pose proof (committed_case _ _ Hc) as Hcase. rewrite Hp in Hcase.
    inversion Hcase as [HP HR HS| | |]. unfold commitment_predicted. destruct (committed_slots _ _ Hc) as [Hw _].
    rewrite <-HR in Hw |- *. unfold wanted_slots in Hw. name_tests. congruence.
  - rewrite (vf_profile _ _ _ _ Hv), (vf_resource _ _ _ _ Hv). exists env, op, gp, limits, window. split_and!; auto.
    destruct (vf_candidates _ _ _ _ Hv) as (Hfine & Hnd & _). unfold plan_within.
    rewrite (vf_length _ _ _ _ Hv), (vf_cost _ _ _ _ Hv), (cm_cost _ _ Hc). cbn zeta in Hfit. split_and!; try tauto.
    apply Forall_lookup. intros k c Hk. destruct (Hfine k c Hk) as (_ & _ & Ht & Hs & _). split; [lia|done].
Qed.

(** ** The report of the predictive profile *)

(** Whatever the number of predicted ports, the report exists and admits. *)
Lemma predictive_report predicted coverage shape :
  0 < predicted ->
  exists report, probabilityFor ResourcePredictive predicted coverage shape = Ok report /\
    rp_ModelCoverage report = coverage /\ probabilityAdmitted ResourcePredictive report = true.
Proof.
  intros Hp. unfold probabilityFor, probabilityAdmitted. name_tests. unfold collision.
  assert (E : CollisionProbabilityWithoutReplacement predicted predicted 1
              = Some (exactBoundaryProbability predicted predicted 1 true)).
  { unfold CollisionProbabilityWithoutReplacement.
    rewrite !(proj2 (Z.eqb_neq _ _)), !(proj2 (Z.ltb_ge _ _)) by lia. cbn [orb].
    by rewrite (proj2 (Z.ltb_lt _ _)) by lia. }
  rewrite E. cbn [some_or res_bind exactBoundaryProbability pb_Universe pb_LeftDraws pb_RightDraws].
  destruct (Poisson_parses predicted predicted 1 ToNearestEven ltac:(lia)) as (text & x & -> & Hx).
  cbn [some_or res_bind]. unfold ApproximationDelta. rewrite Hx.
  set (lower := ParseFloat _ ToNegativeInf). assert (Hl : exists y, lower = Some y) by (unfold lower; vm_compute; eauto).
  destruct Hl as [y ->]. cbn [some_or res_bind]. eexists. split; [reflexivity|].
  cbn [rp_ModelCoverage rp_Primary pb_FloorPartsPerTrillion exactBoundaryProbability]. by split.
Qed.

(** Enough evidence always yields a commitment. *)
Lemma build_predictive_total {H : Sha256} role context evidence validation budget model :
  ac_Role context = role -> ac_Generation context <> 0 -> allZero (ac_AttemptDigest context) = false ->
  ac_AttemptDigest context = eg_AttemptDigest evidence -> ac_Generation context = eg_Generation evidence ->
  role = RoleInitiator \/ role = RoleResponder ->
  InferStateModel evidence validation = (model, None) ->
  validateModelForProfile ProfilePredictiveEdm role model = None ->
  existsb (fun port => port =? 0) (sm_PredictedSourcePorts model) = false ->
  0 < Z.of_nat (length (sm_PredictedSourcePorts model)) ->
  admits budget (sh_cost (predictive_shape 0)) = true ->
  exists c, BuildLocalCommitment (mkLocalInput ProfilePredictiveEdm ResourcePredictive context evidence validation budget) = Ok c.
Proof.
  intros Hrole Hgen Hatt Hatt' Hgen' Hr Hinfer Hmodel Hports Hlen Hbudget. unfold BuildLocalCommitment.
  rewrite (proj2 (Z.eqb_neq _ _) Hgen), Hatt, (bool_decide_eq_true_2 _ Hatt'), (proj2 (Z.eqb_eq _ _) Hgen'), Hrole.
  cbn [negb orb].
  assert (validateRole ProfilePredictiveEdm role = None) as -> by (destruct Hr as [->| ->]; by vm_compute).
  rewrite Hinfer. cbn [guard_err]. rewrite Hmodel. cbn [guard_err]. unfold receives. name_tests.
  assert (validateReceiveEndpoint ProfilePredictiveEdm role zero_endpoint = None) as ->
    by (unfold validateReceiveEndpoint, receives; name_tests; by rewrite bool_decide_eq_true_2).
  cbn [guard_err]. unfold shapeFor. name_tests. cbn [res_bind].
  fold (predictive_shape (Z.of_nat (length (sm_PredictedSourcePorts model)))).
  destruct (predictive_report _ (sm_Coverage model)
    (predictive_shape (Z.of_nat (length (sm_PredictedSourcePorts model)))) Hlen) as (report & -> & _ & Hadm).
  cbn [res_bind]. rewrite Hadm. change (sh_cost (predictive_shape _)) with (sh_cost (predictive_shape 0)). rewrite Hbudget.
  cbn [negb orb]. unfold sourceSlotsFor. name_tests. rewrite Hports. cbn [res_bind]. by eexists.
Qed.

(** ** The compact form *)
Lemma probabilityFor_coverage resource predicted coverage shape report :
  probabilityFor resource predicted coverage shape = Ok report -> rp_ModelCoverage report = coverage.
Proof.
  unfold probabilityFor, probabilityForHardShape. intros E.
  repeat match type of E with (if ?b then _ else _) = _ => destruct b end;
    repeat match type of E with res_bind _ _ = _ => apply res_bind_Ok in E as (? & _ & E) end; by simplify_eq.
Qed.

Lemma predicted_ports_slots ports :
  map sl_ExpectedPublicSourcePort
    (imap (fun ordinal port => mkSlot (Z.of_nat ordinal mod 8) (Z.of_nat ordinal) port) ports) = ports.
Proof.
  apply list_eq. intros k. apply option_eq. intros port. rewrite map_lookup_Some.
  setoid_rewrite imap_lookup_Some. naive_solver.
Qed.

Definition transportable (c : LocalSourceCommitment) : Prop :=
  lc_Generation c <> 0 /\ allZero (lc_AttemptDigest c) = false /\ lc_Executable c = true /\
  1 <= slen (rp_ModelCoverage (lc_Probability c)) <= MaxModelCoverageBytes.

Section compact.
Context {H : Sha256}.

Record reconstructed (i : CompactSourceInput) (c : LocalSourceCommitment) (ports : list Z) (slot : Z)
    (shape : planShape) (probability : ProbabilityReport) (slots : list SourceSlot) : Prop := {
  rc_generation : ci_Generation i <> 0;
  rc_attempt : allZero (ci_AttemptDigest i) = false;
  rc_evidence : allZero (ci_EvidenceDigest i) = false;
  rc_validation : allZero (ci_ValidationDigest i) = false;
  rc_coverage : 1 <= slen (ci_ModelCoverage i) <= MaxModelCoverageBytes;
  rc_role : validateRole (ci_Profile i) (ci_Role i) = None;
  rc_model : compact_model i = Ok (ports, slot);
  rc_shape : shapeFor (ci_Profile i) (ci_ResourceClass i) (ci_Role i) (Z.of_nat (length ports)) = Ok shape;
  rc_executable : sh_executable shape = true;
  rc_probability : probabilityFor (ci_ResourceClass i) (Z.of_nat (length ports)) (ci_ModelCoverage i) shape = Ok probability;
  rc_admitted : probabilityAdmitted (ci_ResourceClass i) probability = true;
  rc_slots : sourceSlotsFor (ci_ResourceClass i) (ci_Role i) ports slot (ci_ReceiveEndpoint i) = Ok slots;
  rc_commitment : c = with_source_digest
    (mkCommitment (ci_Profile i) (ci_ResourceClass i) (ci_Role i) (ci_AttemptDigest i) (ci_Generation i) slots
       (ci_ReceiveEndpoint i) (sh_universe shape) (sh_cost shape) probability (ci_EvidenceDigest i)
       (ci_ValidationDigest i) (digestCost (ci_Profile i) (ci_ResourceClass i) (sh_cost shape)) zero_digest
       (sh_executable shape));
  rc_valid : validateLocalCommitment c = None;
}.

Lemma slen_nonneg s : 0 <= slen s.
Proof. unfold slen. lia. Qed.

Lemma reconstruct_spec i c :
  ReconstructLocalCommitment i = Ok c <->
  exists ports slot shape probability slots, reconstructed i c ports slot shape probability slots.
Proof.
  unfold ReconstructLocalCommitment. pose proof (slen_nonneg (ci_ModelCoverage i)) as Hlen. split.
  - match goal with |- (if ?b then _ else _) = _ -> _ => destruct b eqn:Hb; [done|] end.
    repeat (apply orb_false_iff in Hb as [Hb ?]).
    destruct (validateRole (ci_Profile i) (ci_Role i)) eqn:Hr; [done|]. intros E. cbn [guard_err] in E.
    apply res_bind_Ok in E as ([ports slot] & Hm & E).
    destruct (shapeFor _ _ _ _) as [shape|] eqn:Hs; [|done].
    destruct (sh_executable shape) eqn:Hx; [|done]. cbn [negb] in E.
    destruct (probabilityFor _ _ _ _) as [probability|] eqn:Hp; [|done].
    destruct (probabilityAdmitted _ _) eqn:Ha; [|done]. cbn [negb] in E.
    apply res_bind_Ok in E as (slots & Hsl & E). cbv zeta in E.
    destruct (validateLocalCommitment _) eqn:Hv in E; [done|]. injection E as <-.
    exists ports, slot, shape, probability, slots. constructor; rewrite ?Hx; auto; lia.
  - intros (ports & slot & shape & probability & slots & []).
    rewrite (proj2 (Z.eqb_neq (ci_Generation i) 0)), rc_attempt0, rc_evidence0, rc_validation0 by done.
    rewrite (proj2 (Z.eqb_neq (slen _) 0)), (proj2 (Z.ltb_ge _ _)) by lia. cbn [orb].
    rewrite rc_role0. cbn [guard_err]. rewrite rc_model0. cbn [res_bind].
    rewrite rc_shape0, rc_executable0. cbn [negb]. rewrite rc_probability0, rc_admitted0. cbn [negb].
    rewrite rc_slots0. cbn [res_bind]. rewrite rc_executable0 in rc_commitment0. rewrite <-rc_commitment0, rc_valid0. done.
Qed.

(** The compact input of a commitment. *)
Definition compact_of (c : LocalSourceCommitment) : CompactSourceInput :=
  mkCompact (lc_Profile c) (lc_ResourceClass c) (lc_Role c) (lc_AttemptDigest c) (lc_Generation c)
    (if bool_decide (lc_ResourceClass c = ResourcePredictive)
     then map sl_ExpectedPublicSourcePort (lc_SourceSlots c) else [])
    (lc_ReceiveEndpoint c)
    (if bool_decide (lc_ResourceClass c = ResourceAsymmetric) && bool_decide (lc_Role c = RoleTargetSet)
     then default 0 (sl_SocketSlot <$> head (lc_SourceSlots c)) else 0)
    (lc_EvidenceDigest c) (lc_ValidationDigest c) (rp_ModelCoverage (lc_Probability c)).

Lemma compact_spec c i :
  CompactSourceInputFor c = Ok i <-> validateLocalCommitment c = None /\ i = compact_of c.
Proof.
  unfold CompactSourceInputFor. destruct (validateLocalCommitment c); cbn [guard_err]; [naive_solver|].
  split; [intros E; injection E as <-; done|]. by intros [_ ->].
Qed.

Lemma plain_slots_lookup n k s :
  plain_slots n !! k = Some s <-> (k < n)%nat /\ s = mkSlot (Z.of_nat k) (Z.of_nat k) 0.
Proof.
  unfold plain_slots. rewrite map_lookup_Some. split.
  - intros (x & [-> Hlt]%lookup_seq & ->). split; [lia|done].
  - intros [Hk ->]. exists k. rewrite lookup_seq. split; [|done]. lia.
Qed.

Lemma list_eq_lookups {A} (l l' : list A) :
  length l = length l' -> (forall k x y, l !! k = Some x -> l' !! k = Some y -> x = y) -> l = l'.
Proof.
  intros Hl Heq. apply list_eq. intros k. destruct (l !! k) as [x|] eqn:Hx, (l' !! k) as [y|] eqn:Hy; try done.
  - f_equal. by eapply Heq.
  - apply lookup_lt_Some in Hx. apply lookup_ge_None in Hy. lia.
  - apply lookup_lt_Some in Hy. apply lookup_ge_None in Hx. lia.
Qed.

Lemma slot_eta s : s = mkSlot (sl_SocketSlot s) (sl_Ordinal s) (sl_ExpectedPublicSourcePort s).
Proof. by destruct s. Qed.

(** The endpoint of a commitment that receives nothing. *)
Lemma endpoint_zero c shape :
  committed c shape -> receives (lc_Profile c) (lc_Role c) = false -> lc_ReceiveEndpoint c = zero_endpoint.
Proof.
  intros Hc Hr. pose proof (cm_endpoint _ _ Hc) as He. unfold validateReceiveEndpoint in He. rewrite Hr in He.
  cbn [andb negb] in He. destruct (bool_decide _) eqn:E in He; [by apply bool_decide_eq_true in E|done].
Qed.

(** The slots that [sourceSlotsFor] rebuilds are the ones of the commitment. *)
Lemma slots_rebuilt c shape :
  committed c shape ->
  let ports := ci_PredictedPorts (compact_of c) in
  compact_model (compact_of c) = Ok (ports, ci_ReceiveSocketSlot (compact_of c)) /\
  Z.of_nat (length ports) = commitment_predicted c /\
  sourceSlotsFor (lc_ResourceClass c) (lc_Role c) ports (ci_ReceiveSocketSlot (compact_of c)) (lc_ReceiveEndpoint c)
  = Ok (lc_SourceSlots c)
  \/ lc_ResourceClass c = ResourceHard32KCandidate.
Proof.
  intros Hc. pose proof (committed_case _ _ Hc) as Hcase. destruct (committed_slots _ _ Hc) as (Hw & Hs & _).
  inversion Hcase as [HP HR HS|HP HR HS|HP HR HS|HP HR HS]; [left|left|left|by right];
    unfold compact_model, compact_of, commitment_predicted, sourceSlotsFor, wanted_slots, slot_fine in *;
    cbn [ci_PredictedPorts ci_ReceiveSocketSlot ci_ResourceClass ci_Profile ci_Role ci_ReceiveEndpoint];
    rewrite <-HR, <-HP in *; name_tests; cbv zeta.
  - injection Hw as Hw. rewrite (endpoint_zero _ _ Hc) by (unfold receives; rewrite <-HP; by name_tests).
    rewrite length_map, <-Hw, Z.eqb_refl. cbn [negb orb]. split; [done|]. split; [done|].
    destruct (existsb _ _) eqn:He.
    { apply existsb_exists in He as (port & Hin & Hz). apply list_elem_of_In, list_elem_of_lookup in Hin as [k Hk].
      apply map_lookup_Some in Hk as (s & Hk & ->). destruct (Hs k s Hk) as (_ & _ & Hp). lia. }
    f_equal. apply list_eq_lookups; [by rewrite length_imap, length_map|].
    intros k x y (port & (s & Hk & ->)%map_lookup_Some & ->)%imap_lookup_Some Hy. rewrite Hk in Hy.
    injection Hy as <-. destruct (Hs k s Hk) as (Ho & Hsl & _). rewrite (slot_eta s) at 2. by rewrite Ho, Hsl.
  - pose proof (cm_endpoint _ _ Hc) as He. unfold validateReceiveEndpoint, receives in He. rewrite <-HP in He.
    destruct (asymmetric_role _ _ Hc (eq_sym HP)) as [Hr|Hr]; rewrite Hr in *; name_tests.
    + injection Hw as Hw. rewrite (endpoint_zero _ _ Hc) by (unfold receives; rewrite <-HP, Hr; by name_tests).
      split; [done|]. split; [done|]. f_equal. apply list_eq_lookups; [unfold plain_slots; rewrite length_map, length_seq; lia|].
      intros k x y [_ ->]%plain_slots_lookup Hk. destruct (Hs k y Hk) as (Ho & Hm & _). destruct (Hm eq_refl) as [H1 H2].
      rewrite (slot_eta y). by rewrite Ho, H1, H2.
    + injection Hw as Hw. destruct (endpoint_Valid (lc_ReceiveEndpoint c)); [|done].
      destruct (lc_SourceSlots c) as [|s [|]]; [cbn in Hw; lia| |cbn in Hw; lia].
      destruct (Hs 0%nat s eq_refl) as (Ho & _ & Ht). destruct (Ht eq_refl) as [Hp _]. cbn [head default fmap option_fmap option_map].
      split; [done|]. split; [done|]. rewrite (slot_eta s) at 2. by rewrite Ho, Hp.
  - injection Hw as Hw. rewrite (endpoint_zero _ _ Hc) by (unfold receives; rewrite <-HP; by name_tests).
    split; [done|]. split; [done|]. f_equal. apply list_eq_lookups; [unfold plain_slots; rewrite length_map, length_seq; lia|].
    intros k x y [_ ->]%plain_slots_lookup Hk. destruct (Hs k y Hk) as (Ho & H1 & H2).
    rewrite (slot_eta y). by rewrite Ho, H1, H2.
Qed.

Lemma reconstruct_compact c shape :
  committed c shape -> transportable c -> ReconstructLocalCommitment (compact_of c) = Ok c.
Proof.
  intros Hc (Hgen & Hatt & Hexec & Hcov). apply reconstruct_spec.
  destruct (slots_rebuilt c shape Hc) as [(Hm & Hpred & Hsl)|Hhard].
  - exists (ci_PredictedPorts (compact_of c)), (ci_ReceiveSocketSlot (compact_of c)), shape, (lc_Probability c), (lc_SourceSlots c).
    constructor; auto; try apply Hc; rewrite ?Hpred; try apply Hc.
    + by rewrite <-(cm_executable _ _ Hc).
    + pose proof (cm_source _ _ Hc) as Hsrc. rewrite <-(cm_cost _ _ Hc), <-(cm_universe _ _ Hc), <-(cm_executable _ _ Hc).
      cbn [compact_of ci_Profile ci_ResourceClass]. rewrite <-(cm_cost_digest _ _ Hc).
      destruct c. unfold with_source_digest. cbn in *. f_equal. exact Hsrc.
    + apply validate_committed. eauto.
  - pose proof (committed_case _ _ Hc) as Hcase. rewrite Hhard in Hcase. inversion Hcase as [| | |HP HS].
    subst shape. pose proof (cm_executable _ _ Hc) as E. rewrite Hexec in E. done.
Qed.

(** A compact input that reconstructs is the compact form of its commitment. *)
Lemma compact_reconstruct i c ports slot shape probability slots :
  reconstructed i c ports slot shape probability slots -> compact_of c = i /\ transportable c.
Proof.
  intros Hrc. pose proof (rc_shape _ _ _ _ _ _ _ Hrc) as Hs. apply shapeFor_cases in Hs.
  pose proof (probabilityFor_coverage _ _ _ _ _ (rc_probability _ _ _ _ _ _ _ Hrc)) as Hcov.
  destruct Hrc as [Hgen Hatt _ _ Hlen _ Hm _ Hx _ _ Hsl -> _].
  split; [|unfold transportable; cbn; by rewrite Hcov].
  destruct i as [profile resource role attempt generation pp endpoint rslot evidence validation coverage].
  unfold compact_of, compact_model, sourceSlotsFor in *.
  cbn [with_source_digest ci_Profile ci_ResourceClass ci_Role ci_PredictedPorts ci_ReceiveEndpoint ci_ReceiveSocketSlot
    ci_ModelCoverage lc_Profile lc_ResourceClass lc_Role lc_AttemptDigest lc_Generation lc_SourceSlots lc_ReceiveEndpoint
    lc_EvidenceDigest lc_ValidationDigest lc_Probability] in *.
  destruct Hs; try done; name_tests; rewrite Hcov.
  - destruct (_ || _) eqn:Hb in Hm; [done|]. injection Hm as -> <-. destruct (existsb _ _) in Hsl; [done|].
    injection Hsl as <-. rewrite predicted_ports_slots. f_equal.
    destruct (rslot =? 0) eqn:Hz; [lia|]. by rewrite andb_false_r, orb_true_r in Hb.
  - destruct (Z.eqb_spec (Z.of_nat (length pp)) 0) as [Hpp|]; [|done].
    assert (pp = []) as -> by (destruct pp; [done|cbn in Hpp; lia]).
    cbn [negb] in Hm. destruct (bool_decide (role = RoleTargetSet)) eqn:Hr.
    + apply bool_decide_eq_true in Hr. rewrite Hr in Hsl. name_tests.
      destruct (endpoint_Valid endpoint); [|done]. cbn [negb] in Hm. injection Hm as <- <-.
      injection Hsl as <-. done.
    + destruct (_ && _) eqn:Hb in Hm; [|done]. apply andb_true_iff in Hb as [_ Hz%Z.eqb_eq]. by subst rslot.
  - destruct (Z.eqb_spec (Z.of_nat (length pp)) 0) as [Hpp|]; [|done].
    assert (pp = []) as -> by (destruct pp; [done|cbn in Hpp; lia]). cbn [negb orb] in Hm.
    destruct (_ && _) eqn:Hb in Hm; [|done]. apply andb_true_iff in Hb as [_ Hz%Z.eqb_eq]. by subst rslot.
Qed.
End compact.

(** C31: the compact form is a bijection between the commitments that are
    validated, executable and may be sent (a generation, an attempt digest, a
    coverage note of 1 to 256 bytes) and the inputs that reconstruct. *)
Theorem compact_bijection {H : Sha256} c i :
  ReconstructLocalCommitment i = Ok c <-> transportable c /\ CompactSourceInputFor c = Ok i.
Proof.
  rewrite compact_spec. split.
  - intros (ports & slot & shape & probability & slots & Hrc)%reconstruct_spec.
    destruct (compact_reconstruct _ _ _ _ _ _ _ Hrc) as [<- Ht]. split; [done|]. split; [apply Hrc|done].
  - intros (Ht & [shape Hc]%validate_committed & ->). by eapply reconstruct_compact.
Qed.

(** ** One plan per commitment *)
Definition uint16 (z : Z) : Prop := 0 <= z < 2 ^ 16.
Definition candidate_typed (c : Candidate) : Prop :=
  uint16 (cn_SocketSlot c) /\ uint16 (cn_ExpectedSourcePort c) /\ uint16 (cn_TargetPort c).

Definition encode_candidate (c : Candidate) : list Z :=
  appendString (cn_Role c) ++ appendUint16 (cn_SocketSlot c) ++ appendUint32 (cn_Ordinal c)
  ++ appendUint16 (cn_ExpectedSourcePort c) ++ appendUint16 (cn_TargetPort c).

Lemma be_encode_inj n a b :
  0 <= a < 256 ^ Z.of_nat n -> 0 <= b < 256 ^ Z.of_nat n -> be_encode n a = be_encode n b -> a = b.
Proof. intros Ha Hb E. by rewrite <-(be_decode_encode_small n a Ha), E, be_decode_encode_small. Qed.

Lemma app_inj_len {A} (a b x y : list A) : length a = length b -> a ++ x = b ++ y -> a = b /\ x = y.
Proof. intros Hl E. by apply app_inj_1. Qed.

Lemma candidates_encode_inj role l l' (offset : Z) :
  length l = length l' ->
  Forall candidate_typed l -> Forall candidate_typed l' ->
  (forall (k : nat) c, l !! k = Some c -> cn_Role c = role /\ cn_Ordinal c = offset + Z.of_nat k) ->
  (forall (k : nat) c, l' !! k = Some c -> cn_Role c = role /\ cn_Ordinal c = offset + Z.of_nat k) ->
  concat (map encode_candidate l) = concat (map encode_candidate l') -> l = l'.
Proof.
  revert l' offset. induction l as [|c l IH]; intros [|c' l'] offset Hl Ht Ht' Hf Hf' E; try done.
  apply Forall_cons in Ht as [(Hs & He & Hp) Ht], Ht' as [(Hs' & He' & Hp') Ht'].
  apply lookup_cons_ind in Hf as [[Hr Ho] Hf], Hf' as [[Hr' Ho'] Hf']. cbn [map concat] in E.
  apply app_inj_len in E as [Ec El]; [|unfold encode_candidate, appendUint16, appendUint32;
    rewrite Hr, Hr', !length_app, !be_encode_length; done].
  unfold encode_candidate, appendUint16 in Ec. rewrite Hr, Hr', Ho, Ho' in Ec.
  apply app_inj_len in Ec as [_ Ec]; [|done].
  apply app_inj_len in Ec as [E1 Ec]; [|by rewrite !be_encode_length].
  apply app_inj_len in Ec as [_ Ec]; [|done].
  apply app_inj_len in Ec as [E2 E3]; [|by rewrite !be_encode_length].
  apply (be_encode_inj 2) in E1, E2, E3; [|done..]. f_equal; [destruct c, c'; cbn in *; congruence|].
  apply (IH l' (offset + 1)); auto.
  - intros k d Hk. destruct (Hf k d Hk). split; [done|lia].
  - intros k d Hk. destruct (Hf' k d Hk). split; [done|lia].
Qed.

Lemma valid_joint_roles joint :
  validJointCommitmentShape joint = true -> dc_Role (jc_First joint) <> dc_Role (jc_Second joint).
Proof.
  unfold validJointCommitmentShape. destruct (_ || _ || _); [done|].
  destruct (profile_roles (jc_Profile joint)) as [[r1 r2]|] eqn:Hroles; [|done].
  destruct (_ || _ || _); [done|].
  destruct (bool_decide_reflect (dc_Role (jc_First joint) = r1)) as [->|]; [|done].
  destruct (bool_decide_reflect (dc_Role (jc_Second joint) = r2)) as [->|]; [|done].
  intros _. unfold profile_roles in Hroles. repeat case_bool_decide; cbn in Hroles; by simplify_eq.
Qed.

Section unique.
Context {H : Sha256}.

Lemma direction_matches_spec p source d :
  direction_matches p source d = true ->
  dc_Role d = pn_Role p /\ dt_Plan (dc_Triple d) = pn_PlanDigest p.
Proof.
  unfold direction_matches. intros [[Hr _]%andb_true_iff Ht]%andb_true_iff.
  apply bool_decide_eq_true in Hr, Ht. by rewrite Ht.
Qed.

Lemma verified_same_digest p p' source joint shape shape' :
  verified p source joint shape -> verified p' source joint shape' -> pn_PlanDigest p = pn_PlanDigest p'.
Proof.
  intros Hv Hv'. pose proof (valid_joint_roles _ (vf_joint _ _ _ _ Hv)) as Hne.
  pose proof (vf_role _ _ _ _ Hv) as Hr. rewrite <-(vf_role _ _ _ _ Hv') in Hr.
  destruct (vf_direction _ _ _ _ Hv) as [[E1 E2]%direction_matches_spec|[E1 E2]%direction_matches_spec],
    (vf_direction _ _ _ _ Hv') as [[E3 E4]%direction_matches_spec|[E3 E4]%direction_matches_spec]; congruence.
Qed.

(** Everything a digest covers before the candidates. *)
Lemma digest_candidates p p' attempt :
  pn_Profile p = pn_Profile p' -> pn_ResourceClass p = pn_ResourceClass p' -> pn_Role p = pn_Role p' ->
  pn_Generation p = pn_Generation p' -> pn_Universe p = pn_Universe p' -> pn_EvidenceDigest p = pn_EvidenceDigest p' ->
  pn_CostDigest p = pn_CostDigest p' -> pn_Probability p = pn_Probability p' -> pn_Executable p = pn_Executable p' ->
  length (pn_Candidates p) = length (pn_Candidates p') ->
  exists prefix, plan_encoding p attempt = prefix ++ concat (map encode_candidate (pn_Candidates p)) /\
    plan_encoding p' attempt = prefix ++ concat (map encode_candidate (pn_Candidates p')).
Proof.
  intros E1 E2 E3 E4 E5 E6 E7 E8 E9 E10. unfold plan_encoding.
  rewrite E1, E2, E3, E4, E5, E6, E7, E8, E9, E10. rewrite !app_assoc. eexists. split; reflexivity.
Qed.
End unique.

(** C26: a joint commitment fixes the plan: two plans that pass the verification
    against the same source and joint commitment are equal, or their encodings,
    the bytes the plan digest is computed from, differ and have the same SHA-256:
    to replace a verified plan one has to find a second preimage of its digest. *)
Theorem verified_plan_unique {H : Sha256} p p' source joint :
  Forall candidate_typed (pn_Candidates p) -> Forall candidate_typed (pn_Candidates p') ->
  VerifyPlanAgainstCommitment p source joint = None -> VerifyPlanAgainstCommitment p' source joint = None ->
  p = p' \/
  plan_encoding p (lc_AttemptDigest source) <> plan_encoding p' (lc_AttemptDigest source) /\
  sum256 (plan_encoding p (lc_AttemptDigest source)) = sum256 (plan_encoding p' (lc_AttemptDigest source)).
Proof.
  intros Ht Ht' [shape Hv]%verify_verified [shape' Hv']%verify_verified.
  pose proof (verified_same_digest _ _ _ _ _ _ Hv Hv') as Hd.
  assert (shape' = shape) as ->.
  { pose proof (cm_shape _ _ (vf_committed _ _ _ _ Hv)). pose proof (cm_shape _ _ (vf_committed _ _ _ _ Hv')). congruence. }
  pose proof (vf_plan_digest _ _ _ _ Hv) as Hp. pose proof (vf_plan_digest _ _ _ _ Hv') as Hp'.
  assert (Hlen : length (pn_Candidates p) = length (pn_Candidates p')).
  { pose proof (vf_length _ _ _ _ Hv). pose proof (vf_length _ _ _ _ Hv'). lia. }
  destruct (digest_candidates p p' (lc_AttemptDigest source)) as (prefix & E & E'); auto;
    try (destruct Hv, Hv'; congruence).
  destruct (decide (plan_encoding p (lc_AttemptDigest source) = plan_encoding p' (lc_AttemptDigest source))) as [Exy|Hne].
  - left. rewrite E, E' in Exy. apply app_inv_head in Exy.
    assert (Hc : pn_Candidates p = pn_Candidates p').
    { apply (candidates_encode_inj (lc_Role source) _ _ 0); auto.
      - intros k c Hk. destruct (vf_candidates _ _ _ _ Hv) as (Hf & _). destruct (Hf k c Hk) as (Hr & Ho & _).
        by rewrite (vf_role _ _ _ _ Hv) in Hr.
      - intros k c Hk. destruct (vf_candidates _ _ _ _ Hv') as (Hf & _). destruct (Hf k c Hk) as (Hr & Ho & _).
        by rewrite (vf_role _ _ _ _ Hv') in Hr. }
    destruct Hv, Hv', p, p'; cbn in *. congruence.
  - right. split; [done|]. unfold digestPlan in *. congruence.
Qed.
