(* ===== verification/HardNatEvidenceThms.v ===== *)
(** * Hard-NAT planning: what evidence is believed

    What the peer reports has no influence, and the evidence behind a commitment
    is the issued transactions, each once. *)
From stdpp Require Import sorting.
From S2P Require Import Prelude GoStd LivenessWire HardNatArith HardNatTypes HardNatStun HardNatEvidence HardNatPlan.
Open Scope go_scope.

(** ** Remote reports *)
Definition local_only {A} (origin : A -> string) (entries : list A) : list A :=
  List.filter (fun e => negb (bool_decide (origin e = OriginRemoteReport))) entries.

(** The evidence without what was reported from remote. *)
Definition without_reports (g : EvidenceGraph) : EvidenceGraph :=
  mkGraph (eg_AttemptDigest g) (eg_MachineScopeDigest g) (eg_PeerDigest g) (eg_ObservationSetDigest g)
    (eg_SocketOwnerDigest g) (eg_Generation g) (eg_StartedAtMilli g) (eg_FinishedAtMilli g) (eg_ExpiresAtMilli g)
    (local_only (fun e => em_Origin (me_Meta e)) (eg_Mapping g))
    (local_only (fun e => em_Origin (fe_Meta e)) (eg_Filtering g))
    (local_only (fun e => em_Origin (pe_Meta e)) (eg_IPPooling g))
    (local_only (fun e => em_Origin (as_Meta e)) (eg_Allocation g))
    (local_only ts_Origin (eg_RFC5780 g)).

Lemma accept_entries_local {A} (origin : A -> string) refused bound_of manifest entries seen :
  accept_entries origin refused bound_of manifest (local_only origin entries) seen
  = accept_entries origin refused bound_of manifest entries seen.
Proof.
  revert seen. induction entries as [|e rest IH]; intros seen; [done|].
  cbn [local_only List.filter]. fold (local_only origin rest). cbn [accept_entries].
  destruct (bool_decide (origin e = OriginRemoteReport)) eqn:Ho; cbn [negb]; [apply IH|].
  cbn [accept_entries]. rewrite Ho. destruct (refused e); [done|].
  destruct (acceptBound manifest (bound_of e) seen) as [[dup seen']|]; [|done]. cbn [res_bind]. by rewrite IH.
Qed.

Lemma accept_transcripts_local manifest g transcripts seen :
  accept_transcripts manifest g (local_only ts_Origin transcripts) seen
  = accept_transcripts manifest g transcripts seen.
Proof.
  revert seen. induction transcripts as [|t rest IH]; intros seen; [done|].
  cbn [local_only List.filter]. fold (local_only ts_Origin rest). cbn [accept_transcripts].
  destruct (bool_decide (ts_Origin t = OriginRemoteReport)) eqn:Ho; cbn [negb]; [apply IH|].
  cbn [accept_transcripts]. rewrite Ho. destruct (negb _); [done|].
  destruct (deriveRFC5780Transcript t) as [d|]; [|done]. cbn [res_bind].
  destruct (accept_exchanges manifest t 0 (ts_Exchanges t) seen) as [[dups seen']|]; [|done]. cbn [res_bind].
  by rewrite IH.
Qed.

Lemma accept_transcripts_header manifest g g' transcripts seen :
  eg_AttemptDigest g = eg_AttemptDigest g' -> eg_Generation g = eg_Generation g' ->
  accept_transcripts manifest g transcripts seen = accept_transcripts manifest g' transcripts seen.
Proof.
  intros Ha Hg. revert seen. induction transcripts as [|t rest IH]; intros seen; [done|].
  cbn [accept_transcripts]. destruct (bool_decide _); [apply IH|]. destruct (negb _); [done|].
  destruct (deriveRFC5780Transcript t) as [d|]; [|done]. cbn [res_bind].
  destruct (accept_exchanges manifest t 0 (ts_Exchanges t) seen) as [[dups seen']|]; [|done]. cbn [res_bind].
  unfold transcript_evidence, derivedRFC5780Meta. by rewrite IH, Ha, Hg.
Qed.

Section reports.
Context {H : Sha256}.

Lemma normalize_entries_local manifest g :
  normalize_entries manifest (without_reports g) = normalize_entries manifest g.
Proof.
  unfold normalize_entries. cbn [without_reports eg_Mapping eg_Filtering eg_IPPooling eg_Allocation eg_RFC5780].
  rewrite accept_entries_local.
  destruct (accept_entries _ _ mapping_bound _ _ _) as [[mapping seen]|]; [|done]. cbn [res_bind].
  rewrite accept_entries_local.
  destruct (accept_entries _ _ filtering_bound _ _ _) as [[filtering seen1]|]; [|done]. cbn [res_bind].
  rewrite accept_entries_local.
  destruct (accept_entries _ _ pooling_bound _ _ _) as [[pooling seen2]|]; [|done]. cbn [res_bind].
  rewrite accept_entries_local.
  destruct (accept_entries _ _ sample_bound _ _ _) as [[allocation seen3]|]; [|done]. cbn [res_bind].
  rewrite accept_transcripts_local. by rewrite (accept_transcripts_header _ (without_reports g) g).
Qed.

Lemma normalize_local g t : normalizeEvidence (without_reports g) t = normalizeEvidence g t.
Proof.
  unfold normalizeEvidence. change (validateTrustedHeader (without_reports g) t) with (validateTrustedHeader g t).
  destruct (validateTrustedHeader g t); [done|]. destruct (DigestValidationContext t); [|done].
  destruct (build_manifest _ _ _) as [manifest|]; [|done]. by rewrite normalize_entries_local.
Qed.

(** The digest of the raw evidence takes no part in the inference. *)
Definition with_raw (r : list Z) (x : StateModel * option plan_err) : StateModel * option plan_err :=
  (set_raw r x.1, x.2).

Lemma infer_normalized_raw normalized r m :
  infer_normalized normalized (set_raw r m) = with_raw r (infer_normalized normalized m).
Proof.
  unfold infer_normalized. destruct (mergeMapping normalized) as [[mapping ms]|]; [|done].
  destruct (mergeFiltering normalized) as [[filtering fs]|]; [|done].
  destruct (reusableRFC5780Endpoint _) as [[endpoint slot]|]; [|done].
  destruct (continuousSuccessfulAllocationSuffix _) as [[samples failed]|]; [|done].
  destruct (observerCoverage samples) as [addresses alternate].
  destruct (_ || _ || _); [done|]. destruct (negb (same_address samples)); [done|].
  destruct (endpoint_Valid endpoint && _); [done|].
  destruct (mergeIPPooling normalized) as [[]|]; destruct (endpoint_Valid endpoint); try done;
    unfold classified; by destruct (_ || _).
Qed.

Lemma InferStateModel_local g t :
  exists x r r', InferStateModel g t = with_raw r x /\ InferStateModel (without_reports g) t = with_raw r' x.
Proof.
  unfold InferStateModel. rewrite normalize_local. change (initial_model (without_reports g)) with (initial_model g).
  destruct (normalizeEvidence g t) as [[normalized v]|[e v]].
  - destruct (digestValidatedEvidence normalized v) as [d|e].
    + exists (infer_normalized normalized (set_evidence d (set_validation v (initial_model g)))).
      do 2 eexists. split; rewrite <-infer_normalized_raw; reflexivity.
    + exists (set_validation v (initial_model g), Some e). do 2 eexists. split; reflexivity.
  - exists (set_validation v (initial_model g), Some e). do 2 eexists. split; reflexivity.
Qed.
End reports.

Definition with_evidence (g : EvidenceGraph) (input : LocalCommitmentInput) : LocalCommitmentInput :=
  mkLocalInput (li_Profile input) (li_ResourceClass input) (li_Context input) g (li_Validation input) (li_Budget input).

(** C24: what a peer reports has no influence: the commitment, or the error, is
    the one without the entries and transcripts of remote origin. *)
Theorem remote_reports_ignored {H : Sha256} input :
  BuildLocalCommitment input = BuildLocalCommitment (with_evidence (without_reports (li_Evidence input)) input).
Proof.
  destruct input as [profile resource context evidence validation budget].
  unfold BuildLocalCommitment, with_evidence.
  cbn [li_Profile li_ResourceClass li_Context li_Evidence li_Validation li_Budget].
  destruct (InferStateModel_local evidence validation) as ([m e] & r & r' & -> & ->).
  reflexivity.
Qed.

(** ** The evidence is what was issued *)

Lemma build_manifest_spec issued t manifest manifest' :
  build_manifest issued t manifest = Ok manifest' ->
  NoDup (map is_TransactionID issued) /\
  Forall (fun i => manifest !! is_TransactionID i = None) issued /\
  (forall k i, manifest' !! k = Some i <-> manifest !! k = Some i \/ (i ∈ issued /\ is_TransactionID i = k)).
Proof.
  revert manifest. induction issued as [|i rest IH]; intros manifest E; cbn [build_manifest] in E.
  { injection E as <-. split_and!; [constructor|constructor|]. intros k i. split; [tauto|]. intros [|[Hin _]]; [done|].
    by apply elem_of_nil in Hin. }
  destruct (bool_decide (is_Some (manifest !! is_TransactionID i))) eqn:Hs; [done|].
  apply bool_decide_eq_false, eq_None_not_Some in Hs.
  destruct (negb (validIssuedTransaction i t)); [done|]. cbn [orb] in E.
  apply IH in E as (Hnd & Hfresh & Hspec). rewrite Forall_forall in Hfresh. cbv beta in Hfresh.
  assert (Hne : forall j, j ∈ rest -> is_TransactionID j <> is_TransactionID i).
  { intros j Hj E. specialize (Hfresh j Hj). by rewrite E, lookup_insert_eq in Hfresh. }
  split_and!.
  - cbn [map]. constructor; [|done]. intros (j & E & Hj)%list_elem_of_fmap. by eapply Hne.
  - constructor; [done|]. apply Forall_forall. intros j Hj. specialize (Hfresh j Hj).
    by rewrite lookup_insert_ne in Hfresh by (intros E; symmetry in E; by apply (Hne j Hj)).
  - intros k j. rewrite Hspec, elem_of_cons, lookup_insert_Some. split.
    + intros [[[<- <-]|[_ Hm]]|[Hj <-]]; auto.
    + intros [Hm|[[->|Hj] <-]]; auto. left. right. split; [|done]. congruence.
Qed.

(** [b] is accepted: it matches its issued transaction. *)
Definition backed (manifest : manifest_type) (b : bound) : Prop :=
  exists i, manifest !! bd_transaction b = Some i /\ bound_matches b i = true.

(** Steps of the loops: the transactions of [accepted] are new, and seen after. *)
Definition accepts (manifest : manifest_type) (seen : seen_type) (accepted : list bound) (seen' : seen_type) : Prop :=
  NoDup (map bd_transaction accepted) /\ Forall (backed manifest) accepted /\
  (forall b, b ∈ accepted -> bd_transaction b ∉ dom seen) /\
  dom seen' = dom seen ∪ list_to_set (map bd_transaction accepted).

Lemma accepts_nil manifest seen : accepts manifest seen [] seen.
Proof. split_and!; [constructor|constructor|set_solver|set_solver]. Qed.

Lemma accepts_app manifest seen l seen1 l' seen2 :
  accepts manifest seen l seen1 -> accepts manifest seen1 l' seen2 -> accepts manifest seen (l ++ l') seen2.
Proof.
  intros (Hn1 & Hb1 & Hf1 & Hd1) (Hn2 & Hb2 & Hf2 & Hd2). split_and!.
  - rewrite map_app. apply NoDup_app. split_and!; [done| |done].
    intros k (b & -> & Hb)%list_elem_of_fmap (b' & E & Hb')%list_elem_of_fmap.
    specialize (Hf2 b' Hb'). rewrite Hd1, <-E in Hf2. apply Hf2, elem_of_union_r, elem_of_list_to_set.
    apply list_elem_of_fmap. eauto.
  - by apply Forall_app.
  - intros b [Hb|Hb]%elem_of_app; [auto|]. specialize (Hf2 b Hb). rewrite Hd1 in Hf2. set_solver.
  - rewrite Hd2, Hd1, map_app, list_to_set_app_L. set_solver.
Qed.

Lemma acceptBound_spec manifest b seen dup seen' :
  acceptBound manifest b seen = Ok (dup, seen') -> accepts manifest seen (if dup then [] else [b]) seen'.
Proof.
  unfold acceptBound. destruct (manifest !! bd_transaction b) as [i|] eqn:Hi; [|done].
  destruct (bound_matches b i) eqn:Hm; [|done]. cbn [negb].
  destruct (seen !! bd_transaction b) as [previous|] eqn:Hs.
  - destruct (bytes_eqb _ _); [|done]. intros E. injection E as <- <-. apply accepts_nil.
  - intros E. injection E as <- <-. split_and!.
    + apply NoDup_singleton.
    + constructor; [by exists i|constructor].
    + intros b' ->%list_elem_of_singleton. by apply not_elem_of_dom.
    + rewrite dom_insert_L. cbn. set_solver.
Qed.

Lemma accept_entries_spec {A} origin refused (bound_of : A -> bound) manifest entries seen accepted seen' :
  accept_entries origin refused bound_of manifest entries seen = Ok (accepted, seen') ->
  accepts manifest seen (map bound_of accepted) seen' /\ accepted ⊆ entries /\
  Forall (fun e => origin e <> OriginRemoteReport /\ refused e = false) accepted.
Proof.
  revert seen accepted. induction entries as [|e rest IH]; intros seen accepted E; cbn [accept_entries] in E.
  { injection E as <- <-. split_and!; [apply accepts_nil|done|constructor]. }
  destruct (bool_decide (origin e = OriginRemoteReport)) eqn:Ho.
  { destruct (IH _ _ E) as (Ha & Hs & Hf). split_and!; [done|set_solver|done]. }
  apply bool_decide_eq_false in Ho. destruct (refused e) eqn:Hr; [done|].
  apply res_bind_Ok in E as ([dup seen1] & Hb & E). apply res_bind_Ok in E as ([acc seen2] & Hrest & E).
  injection E as <- <-. apply acceptBound_spec in Hb. destruct (IH _ _ Hrest) as (Ha & Hs & Hf).
  destruct dup; split_and!; [|set_solver|done| |set_solver|by constructor].
  - by apply (accepts_app manifest seen [] seen1).
  - by apply (accepts_app manifest seen [bound_of e] seen1 (map bound_of acc)).
Qed.

Definition exchange_bounds (t : RFC5780Transcript) (index : Z) (exchanges : list RFC5780Exchange) : list bound :=
  imap (fun k e => exchange_bound t (index + Z.of_nat k) e) exchanges.

Lemma exchange_bounds_cons t index e rest :
  exchange_bounds t index (e :: rest) = exchange_bound t index e :: exchange_bounds t (index + 1) rest.
Proof.
  unfold exchange_bounds. cbn [imap]. rewrite Z.add_0_r. f_equal. apply imap_ext. intros k x _. cbn. f_equal. lia.
Qed.

Lemma accept_exchanges_spec manifest t index exchanges seen dups seen' :
  accept_exchanges manifest t index exchanges seen = Ok (dups, seen') ->
  0 <= dups <= Z.of_nat (length exchanges) /\
  exists accepted, accepts manifest seen accepted seen' /\
    (dups = 0 -> accepted = exchange_bounds t index exchanges) /\
    (dups = Z.of_nat (length exchanges) -> accepted = []).
Proof.
  revert index seen dups. induction exchanges as [|e rest IH]; intros index seen dups E; cbn [accept_exchanges] in E.
  { injection E as <- <-. split; [cbn; lia|]. exists []. split_and!; auto using accepts_nil. }
  apply res_bind_Ok in E as ([dup seen1] & Hb & E). apply res_bind_Ok in E as ([dups' seen2] & Hrest & E).
  injection E as <- <-. apply acceptBound_spec in Hb.
  destruct (IH _ _ _ Hrest) as (Hd & accepted & Ha & H0 & Hall). cbn [length].
  split; [destruct dup; lia|]. exists ((if dup then [] else [exchange_bound t index e]) ++ accepted).
  split; [by eapply accepts_app|]. rewrite exchange_bounds_cons. destruct dup; split; intros E; try lia.
  - apply Hall. lia.
  - cbn. f_equal. by apply H0.
Qed.

Definition typed_transcripts (transcripts : list RFC5780Transcript) : Prop :=
  Forall (fun t => Z.of_nat (length (ts_Exchanges t)) = RFC5780ExchangeCount) transcripts.

Lemma accept_transcripts_spec manifest g transcripts seen accepted seen' :
  typed_transcripts transcripts ->
  accept_transcripts manifest g transcripts seen = Ok (accepted, seen') ->
  accepts manifest seen (concat (map (fun t => exchange_bounds t 0 (ts_Exchanges t)) (map fst accepted))) seen' /\
  Forall (fun x => em_Source (me_Meta x.2.1) = SourceRFC5780 /\ em_Source (fe_Meta x.2.2) = SourceRFC5780) accepted.
Proof.
  intros Ht. revert seen accepted. induction Ht as [|t rest Hlen Ht IH]; intros seen accepted E;
    cbn [accept_transcripts] in E.
  { injection E as <- <-. split; [apply accepts_nil|constructor]. }
  destruct (bool_decide (ts_Origin t = OriginRemoteReport)); [by apply IH|].
  destruct (negb _); [done|]. apply res_bind_Ok in E as (d & _ & E).
  apply res_bind_Ok in E as ([dups seen1] & Hx & E).
  destruct (negb (dups =? 0) && negb (dups =? RFC5780ExchangeCount)) eqn:Hd; [done|].
  apply res_bind_Ok in E as ([acc seen2] & Hrest & E). injection E as <- <-.
  destruct (accept_exchanges_spec _ _ _ _ _ _ _ Hx) as (_ & bounds & Ha & H0 & Hall). rewrite Hlen in Hall.
  destruct (IH _ _ Hrest) as [Hacc Hf].
  destruct (Z.eqb_spec dups RFC5780ExchangeCount) as [E|Hne].
  - split; [|done]. rewrite (Hall E) in Ha. by apply (accepts_app manifest seen [] seen1).
  - destruct (Z.eqb_spec dups 0) as [E|]; [|done]. rewrite (H0 E) in Ha. cbn [map concat fst].
    split; [by eapply accepts_app|]. by constructor.
Qed.

(** The direct entries of a normalized graph; the others come from transcripts. *)
Definition direct {A} (meta : A -> EvidenceMeta) (entries : list A) : list A :=
  List.filter (fun e => negb (bool_decide (em_Source (meta e) = SourceRFC5780))) entries.

Definition evidence_bounds (g : EvidenceGraph) : list bound :=
  map mapping_bound (direct me_Meta (eg_Mapping g)) ++ map filtering_bound (direct fe_Meta (eg_Filtering g))
  ++ map pooling_bound (eg_IPPooling g) ++ map sample_bound (eg_Allocation g)
  ++ concat (map (fun t => exchange_bounds t 0 (ts_Exchanges t)) (eg_RFC5780 g)).

Lemma direct_app {A} (meta : A -> EvidenceMeta) l l' :
  Forall (fun e => em_Source (meta e) <> SourceRFC5780) l -> Forall (fun e => em_Source (meta e) = SourceRFC5780) l' ->
  direct meta (l ++ l') = l.
Proof.
  intros Hl Hl'. unfold direct. rewrite List.filter_app. transitivity (l ++ []); [|by rewrite app_nil_r]. f_equal.
  - induction Hl as [|e l He Hl IH]; [done|]. cbn. rewrite bool_decide_eq_false_2 by done. cbn. by rewrite IH.
  - induction Hl' as [|e l' He Hl' IH]; [done|]. cbn. by rewrite bool_decide_eq_true_2.
Qed.

Lemma normalize_entries_spec manifest g normalized seen :
  typed_transcripts (eg_RFC5780 g) ->
  normalize_entries manifest g = Ok (normalized, seen) ->
  accepts manifest ∅ (evidence_bounds normalized) seen.
Proof.
  intros Ht E. unfold normalize_entries in E.
  apply res_bind_Ok in E as ([mapping seen1] & H1 & E). apply res_bind_Ok in E as ([filtering seen2] & H2 & E).
  apply res_bind_Ok in E as ([pooling seen3] & H3 & E). apply res_bind_Ok in E as ([allocation seen4] & H4 & E).
  apply res_bind_Ok in E as ([transcripts seen5] & H5 & E). injection E as <- <-.
  apply accept_entries_spec in H1 as (A1 & _ & F1), H2 as (A2 & _ & F2), H3 as (A3 & _ & _), H4 as (A4 & _ & _).
  apply accept_transcripts_spec in H5 as (A5 & F5); [|done].
  unfold evidence_bounds. cbn [eg_Mapping eg_Filtering eg_IPPooling eg_Allocation eg_RFC5780].
  rewrite !direct_app.
  - eapply accepts_app; [exact A1|]. eapply accepts_app; [exact A2|]. eapply accepts_app; [exact A3|].
    by eapply accepts_app; [exact A4|].
  - eapply Forall_impl; [exact F2|]. intros e [_ He]. apply orb_false_iff in He as [He _]. by apply bool_decide_eq_false in He.
  - apply Forall_map. eapply Forall_impl; [exact F5|]. naive_solver.
  - eapply Forall_impl; [exact F1|]. intros e [_ He]. apply orb_false_iff in He as [He _]. by apply bool_decide_eq_false in He.
  - apply Forall_map. eapply Forall_impl; [exact F5|]. naive_solver.
Qed.

Section issued.
Context {H : Sha256}.

(** What one entry or exchange claims to have observed. *)
Record observation := mkObservation {
  ob_kind : string;
  ob_transaction : list Z;
  ob_source : string;
  ob_observer : AddressPort;
  ob_slot : Z;
  ob_ordinal : Z;
  ob_at : Z;
}.

Definition entry_observation (kind : string) (m : EvidenceMeta) (slot ordinal : Z) : observation :=
  mkObservation kind (em_TransactionID m) (em_Source m) (mkAddressPort (em_ObserverAddress m) (em_ObserverPort m))
    slot ordinal (em_ObservedAtMilli m).

(** The observations of a graph; mapping and filtering entries with source
    [SourceRFC5780] are derived from the exchanges of the transcripts. *)
Definition observations (g : EvidenceGraph) : list observation :=
  map (fun e => entry_observation EvidenceKindMapping (me_Meta e) (em_SocketSlot (me_Meta e)) 0) (direct me_Meta (eg_Mapping g))
  ++ map (fun e => entry_observation EvidenceKindFiltering (fe_Meta e) (em_SocketSlot (fe_Meta e)) 0)
       (direct fe_Meta (eg_Filtering g))
  ++ map (fun e => entry_observation EvidenceKindIPPooling (pe_Meta e) (em_SocketSlot (pe_Meta e)) 0) (eg_IPPooling g)
  ++ map (fun e => entry_observation EvidenceKindAllocation (as_Meta e) (as_SocketSlot e) (as_Ordinal e)) (eg_Allocation g)
  ++ concat (map (fun t => imap (fun k e => mkObservation EvidenceKindRFC5780 (ex_TransactionID e) SourceRFC5780
       (ex_RequestDestination e) (ts_SocketSlot t) (Z.of_nat k) (ex_ObservedAtMilli e)) (ts_Exchanges t)) (eg_RFC5780 g)).

(** An observation is the one that a transaction was issued for. *)
Record observes (o : observation) (i : IssuedTransaction) : Prop := {
  os_transaction : ob_transaction o = is_TransactionID i;
  os_kind : ob_kind o = is_Kind i;
  os_source : ob_source o = is_Source i;
  os_observer : ob_observer o = is_Observer i;
  os_slot : ob_slot o = is_SocketSlot i;
  os_ordinal : ob_ordinal o = is_Ordinal i;
  os_time : is_NotBeforeMilli i <= ob_at o <= is_NotAfterMilli i;
}.

(** The observations and the issued transactions correspond. *)
Definition exactly_issued (issued : list IssuedTransaction) (obs : list observation) : Prop :=
  map ob_transaction obs ≡ₚ map is_TransactionID issued /\
  Forall (fun o => exists i, i ∈ issued /\ observes o i) obs.

Definition bound_observation (b : bound) : observation :=
  mkObservation (bd_kind b) (bd_transaction b) (bd_source b) (bd_observer b) (bd_slot b) (bd_ordinal b) (bd_observedAt b).

Lemma observations_bounds g : observations g = map bound_observation (evidence_bounds g).
Proof.
  unfold observations, evidence_bounds. rewrite !map_app, !map_map, concat_map, map_map. do 4 f_equal.
  f_equal. apply map_ext. intros t. symmetry. 
  etrans; [exact (fmap_imap (fun k e => exchange_bound t (0 + Z.of_nat k) e) bound_observation _)|done].
Qed.

Lemma bound_observes b i : bound_matches b i = true -> observes (bound_observation b) i.
Proof.
  unfold bound_matches. intros Hm.
  repeat match type of Hm with _ && _ = true => apply andb_true_iff in Hm as [Hm ?] end.
  repeat match goal with H : bool_decide _ = true |- _ => apply bool_decide_eq_true in H end.
  split; cbn; try done; lia.
Qed.

Lemma normalize_exactly_issued g t normalized digest :
  typed_transcripts (eg_RFC5780 g) -> normalizeEvidence g t = Ok (normalized, digest) ->
  exactly_issued (tv_Issued t) (observations normalized).
Proof.
  intros Ht E. rewrite observations_bounds. unfold exactly_issued. rewrite map_map.
  change (fun x => ob_transaction (bound_observation x)) with bd_transaction. unfold normalizeEvidence in E. destruct (validateTrustedHeader g t); [done|].
  destruct (DigestValidationContext t); [|done]. destruct (build_manifest _ _ _) as [manifest|] eqn:Hm; [|done].
  destruct (_ =? 0); [done|]. destruct (normalize_entries manifest g) as [[n seen]|] eqn:Hn; [|done].
  destruct (Z.eqb_spec (Z.of_nat (size seen)) (Z.of_nat (size manifest))) as [Hsize|]; [|done].
  injection E as -> _. apply normalize_entries_spec in Hn as (Hnd & Hb & _ & Hdom); [|done].
  apply build_manifest_spec in Hm as (Hndi & _ & Hspec). rewrite dom_empty_L, (left_id_L ∅ _) in Hdom.
  assert (Hkeys : forall k, k ∈ map is_TransactionID (tv_Issued t) <-> k ∈ dom manifest).
  { intros k. rewrite elem_of_dom. split.
    - intros (i & -> & Hi)%list_elem_of_fmap. exists i. apply Hspec. auto.
    - intros [i [Hi|[Hi <-]]%Hspec]; [by rewrite lookup_empty in Hi|]. apply list_elem_of_fmap. eauto. }
  rewrite Forall_forall in Hb. split.
  - apply NoDup_Permutation; [done..|]. intros k. rewrite Hkeys.
    assert (Hsub : dom seen ⊆ dom manifest).
    { rewrite Hdom. intros x (b & -> & Hin)%elem_of_list_to_set%list_elem_of_fmap.
      destruct (Hb b Hin) as (i & Hi & _). apply elem_of_dom. eauto. }
    assert (Heq : dom seen = dom manifest).
    { apply set_subseteq_size_eq; [done|]. rewrite !size_dom. lia. }
    rewrite <-Heq, Hdom, elem_of_list_to_set. done.
  - apply Forall_map, Forall_forall. intros b Hin. destruct (Hb b Hin) as (i & Hi & Hmatch).
    apply Hspec in Hi as [Hi|[Hi Hid]]; [by rewrite lookup_empty in Hi|]. eauto using bound_observes.
Qed.

(** The bounds on time of [validateTrustedHeader]. *)
Definition fresh (g : EvidenceGraph) (t : TrustedValidationContext) : Prop :=
  eg_StartedAtMilli g <= eg_FinishedAtMilli g <= tv_NowMilli t /\ tv_NowMilli t < eg_ExpiresAtMilli g /\
  eg_FinishedAtMilli g - eg_StartedAtMilli g <= MaxEvidenceWindowMillis /\
  tv_NowMilli t - eg_FinishedAtMilli g <= MaxEvidenceAgeMillis.

Lemma header_fresh g t : validateTrustedHeader g t = None -> fresh g t.
Proof.
  unfold validateTrustedHeader.
  match goal with |- (if ?b then _ else _) = None -> _ => destruct b eqn:Hb1; [done|] end.
  match goal with |- (if ?b then _ else _) = None -> _ => destruct b eqn:Hb2; [done|] end.
  match goal with |- (if ?b then _ else _) = None -> _ => destruct b eqn:Hb3; [done|] end.
  intros _. repeat (apply orb_false_iff in Hb1 as [Hb1 _]). apply negb_false_iff in Hb1.
  unfold validGraphHeader in Hb1. repeat match type of Hb1 with _ && _ = true => apply andb_true_iff in Hb1 as [Hb1 ?] end.
  repeat (apply orb_false_iff in Hb3 as [Hb3 ?]). unfold fresh. lia.
Qed.

Lemma infer_normalizes g t m :
  InferStateModel g t = (m, None) ->
  exists normalized digest, normalizeEvidence g t = Ok (normalized, digest) /\ validateTrustedHeader g t = None.
Proof.
  unfold InferStateModel. destruct (normalizeEvidence g t) as [[n d]|[e d]] eqn:E; [|done].
  intros _. exists n, d. split; [done|]. unfold normalizeEvidence in E. by destruct (validateTrustedHeader g t).
Qed.
End issued.

(** C23: a commitment rests on exactly the transactions that were issued: the
    entries and exchanges that the model is inferred from carry the issued
    transaction identifiers, each once and none missing, every one has the kind,
    source, observer, socket slot and ordinal of its transaction and was made in
    the transaction's time window, and the evidence is fresh. *)
Theorem commitment_exactly_issued {H : Sha256} input c :
  typed_transcripts (eg_RFC5780 (li_Evidence input)) -> BuildLocalCommitment input = Ok c ->
  exists normalized digest,
    normalizeEvidence (li_Evidence input) (li_Validation input) = Ok (normalized, digest) /\
    exactly_issued (tv_Issued (li_Validation input)) (observations normalized) /\
    fresh (li_Evidence input) (li_Validation input).
Proof.
  intros Ht E. destruct input as [profile resource context g t budget].
  cbn [li_Evidence li_Validation] in *. unfold BuildLocalCommitment in E. destruct (_ || _ || _ || _); [done|].
  destruct (validateRole profile (ac_Role context)); [done|]. cbn [guard_err] in E.
  destruct (InferStateModel g t) as [m [e|]] eqn:Hi; [done|].
  destruct (infer_normalizes _ _ _ Hi) as (n & d & Hn & Hv). exists n, d.
  split_and!; [done|by eapply normalize_exactly_issued|by apply header_fresh].
Qed.

(** * Hard-NAT planning: prediction of ports

    Against the reference of a NAT that allocates its ports in equal steps
    around the circle of nonzero ports. *)

(** The port a sequential allocator gives to the [index]-th mapping. *)
Definition allocator (base step : Z) (index : nat) : Z := (base + Z.of_nat index * step) mod 65535 + 1.

Lemma allocator_range base step index : 1 <= allocator base step index <= 65535.
Proof. unfold allocator. pose proof (Z.mod_pos_bound (base + Z.of_nat index * step) 65535). lia. Qed.

Lemma addPort_spec port delta :
  1 <= port <= 65535 -> 0 <= delta <= 65535 -> addPort port delta = (port - 1 + delta) mod 65535 + 1.
Proof.
  intros Hp Hd. unfold addPort, wrap. rewrite (Z.mod_small (port - 1)), (Z.mod_small (port - 1 + delta)) by lia.
  pose proof (Z.mod_pos_bound (port - 1 + delta) 65535). apply Z.mod_small. lia.
Qed.

Lemma addPort_allocator base step index :
  0 <= step <= 65535 -> addPort (allocator base step index) step = allocator base step (S index).
Proof.
  intros Hs. rewrite addPort_spec by (try apply allocator_range; lia). unfold allocator.
  replace ((base + Z.of_nat index * step) mod 65535 + 1 - 1 + step)
    with ((base + Z.of_nat index * step) mod 65535 + step) by lia.
  rewrite Zplus_mod_idemp_l. do 2 f_equal. lia.
Qed.

Lemma forwardPortDelta_addPort port delta :
  1 <= port <= 65535 -> 1 <= delta <= 65535 -> forwardPortDelta port (addPort port delta) = delta.
Proof.
  intros Hp Hd. rewrite addPort_spec by lia. unfold forwardPortDelta, wrap.
  destruct (Z_lt_le_dec (port - 1 + delta) 65535) as [Hlt|Hge].
  - rewrite Z.mod_small by lia. rewrite (proj2 (Z.ltb_lt _ _)) by lia. lia.
  - replace (port - 1 + delta) with (port - 1 + delta - 65535 + 1 * 65535) by lia.
    rewrite Z_mod_plus_full, (Z.mod_small (_ - 65535)) by lia.
    rewrite (proj2 (Z.ltb_ge _ _)) by lia. rewrite Z.mod_small by lia. lia.
Qed.

(** The samples of consecutive mappings of the allocator. *)
Definition sampled (base step : Z) (samples : list AllocationSample) : Prop :=
  forall k s, samples !! k = Some s -> as_MappedPort s = allocator base step k.

Lemma sampled_deltas base step samples :
  1 <= step <= 65535 -> sampled base step samples -> port_deltas samples = replicate (length samples - 1) step.
Proof.
  intros Hs Hall.
  assert (Hgen : forall offset rest, (forall k s, rest !! k = Some s -> as_MappedPort s = allocator base step (offset + k)) ->
             port_deltas rest = replicate (length rest - 1) step).
  { intros offset rest. revert offset. induction rest as [|a rest IH]; intros offset Hr; [done|].
    destruct rest as [|b rest]; [done|]. cbn [port_deltas length].
    replace (S (S (length rest)) - 1)%nat with (S (length (b :: rest) - 1)) by (cbn; lia). cbn [replicate]. f_equal.
    - rewrite (Hr 0%nat a eq_refl), (Hr 1%nat b eq_refl), Nat.add_0_r, Nat.add_1_r, <-addPort_allocator by lia.
      apply forwardPortDelta_addPort; [apply allocator_range|done].
    - apply (IH (S offset)). intros k s Hk. rewrite (Hr (S k) s Hk). f_equal. lia. }
  apply (Hgen 0%nat). exact Hall.
Qed.

Lemma foldr_min_replicate n step bound : step <= bound -> (0 < n)%nat -> foldr Z.min bound (replicate n step) = step.
Proof.
  intros Hb. induction n as [|n IH]; [lia|]. intros _. cbn. destruct n; [cbn; lia|]. rewrite IH by lia. lia.
Qed.
Lemma foldr_max_replicate n step : 0 <= step -> (0 < n)%nat -> foldr Z.max 0 (replicate n step) = step.
Proof.
  intros Hb. induction n as [|n IH]; [lia|]. intros _. cbn. destruct n; [cbn; lia|]. rewrite IH by lia. lia.
Qed.

Lemma sort_replicate n (step : Z) : merge_sort Z.le (replicate n step) = replicate n step.
Proof.
  pose proof (merge_sort_Permutation Z.le (replicate n step)) as Hp. symmetry. by apply replicate_Permutation.
Qed.

Lemma last_sample base step samples :
  sampled base step samples -> (0 < length samples)%nat ->
  last_port samples = allocator base step (length samples - 1).
Proof.
  intros Hall Hl. unfold last_port. rewrite last_lookup.
  destruct (lookup_lt_is_Some_2 samples (pred (length samples)) ltac:(lia)) as [s Hs]. rewrite Hs. cbn.
  rewrite (Hall _ _ Hs). f_equal. lia.
Qed.

Lemma predictive_loop_allocator count base step index :
  0 <= step <= 65535 ->
  predictive_loop count (allocator base step index) step = map (fun k => allocator base step (index + S k)) (seq 0 count).
Proof.
  intros Hs. revert index. induction count as [|count IH]; intros index; [done|].
  cbn [predictive_loop seq map]. rewrite addPort_allocator by done. cbv zeta. f_equal; [f_equal; lia|].
  rewrite IH, <-seq_shift, List.map_map. apply map_ext. intros k. f_equal. lia.
Qed.

Lemma allocator_inj base step i j :
  1 <= step <= 32 -> (i < j)%nat -> Z.of_nat j - Z.of_nat i <= 2000 -> allocator base step i <> allocator base step j.
Proof.
  intros Hs Hij Hd E. unfold allocator in E.
  assert (E' : (base + Z.of_nat i * step) mod 65535 = (base + Z.of_nat j * step) mod 65535) by lia.
  pose proof (Z.div_mod (base + Z.of_nat i * step) 65535). pose proof (Z.div_mod (base + Z.of_nat j * step) 65535).
  assert (Hk : (Z.of_nat j - Z.of_nat i) * step
               = 65535 * ((base + Z.of_nat j * step) / 65535 - (base + Z.of_nat i * step) / 65535)) by lia.
  assert (0 < (Z.of_nat j - Z.of_nat i) * step < 65535) by nia. lia.
Qed.

(** The next [PredictiveWindowPorts] ports of the allocator. *)
Definition next_ports (base step : Z) (taken : nat) : list Z :=
  map (fun k => allocator base step (taken + k)) (seq 0 (Z.to_nat PredictiveWindowPorts)).

Lemma next_ports_fine base step taken :
  1 <= step <= 32 -> NoDup (next_ports base step taken) /\ Forall (fun p => 1 <= p <= 65535) (next_ports base step taken).
Proof.
  intros Hs. split.
  - apply NoDup_fmap_2_strong; [|apply NoDup_seq]. intros i j [_ Hi]%elem_of_seq [_ Hj]%elem_of_seq E.
    change (Z.to_nat PredictiveWindowPorts) with 32%nat in *.
    destruct (lt_eq_lt_dec i j) as [[Hlt| ->]|Hlt]; [|done|]; exfalso.
    + apply (allocator_inj base step (taken + i) (taken + j)) in E; auto; lia.
    + symmetry in E. apply (allocator_inj base step (taken + j) (taken + i)) in E; auto; lia.
  - apply Forall_forall. intros p (k & -> & _)%list_elem_of_fmap. apply allocator_range.
Qed.

Lemma sampled_classified base step samples :
  1 <= step <= 32 -> 8 <= Z.of_nat (length samples) -> sampled base step samples ->
  classifyAllocation samples
  = mkClassification AllocationSequentialUniform step step (allocator base step (length samples)) step.
Proof.
  intros Hs Hl Hall.
  unfold classifyAllocation, MinSuccessfulAllocationSamples, MaxMonotonicDelta.
  rewrite (proj2 (Z.ltb_ge _ _)) by lia.
  rewrite (sampled_deltas base step) by (auto; lia). rewrite foldr_min_replicate, foldr_max_replicate by lia.
  rewrite Z.eqb_refl, (proj2 (Z.leb_le _ _)) by lia. cbn [andb].
  rewrite sort_replicate, length_replicate, (last_sample base step) by (auto; lia).
  set (n := length samples) in *.
  assert (Hn : nth (Z.to_nat (Z.of_nat (n - 1) / 2)) (replicate (n - 1) step) 0 = step).
  { apply nth_lookup_Some, lookup_replicate. split; [done|].
    pose proof (Z.div_lt_upper_bound (Z.of_nat (n - 1)) 2 (Z.of_nat (n - 1))). pose proof (Z.div_pos (Z.of_nat (n - 1)) 2). lia. }
  rewrite Hn, addPort_allocator by lia. f_equal. f_equal. lia.
Qed.

(** C32: prediction is exact for a sequential NAT: from at least eight samples of
    an allocator that steps by at most 32, the allocation is classified as
    sequential with that step, and the predicted source ports are the 32 ports
    that it allocates next, distinct and nonzero, wrap-around included. *)
Theorem sequential_prediction_exact base step samples m :
  1 <= step <= MaxMonotonicDelta -> MinSuccessfulAllocationSamples <= Z.of_nat (length samples) ->
  sampled base step samples ->
  let m' := classified samples m in
  sm_Allocation m' = AllocationSequentialUniform /\ sm_MinimumDelta m' = step /\ sm_MaximumDelta m' = step /\
  sm_PredictedNextPort m' = allocator base step (length samples) /\
  sm_PredictedSourcePorts m' = next_ports base step (length samples) /\
  NoDup (sm_PredictedSourcePorts m') /\ Forall (fun p => 1 <= p <= 65535) (sm_PredictedSourcePorts m').
Proof.
  unfold MaxMonotonicDelta, MinSuccessfulAllocationSamples. intros Hs Hl Hall.
  pose proof (sampled_classified base step samples Hs Hl Hall) as Hc.
  assert (Hsched : predictiveSourceSchedule (last_port samples) step = next_ports base step (length samples)).
  { unfold predictiveSourceSchedule. rewrite (last_sample base step) by (auto; lia).
    pose proof (allocator_range base step (length samples - 1)).
    rewrite !(proj2 (Z.eqb_neq _ _)) by lia. cbn [orb]. rewrite predictive_loop_allocator by lia.
    unfold next_ports. apply map_ext. intros k. f_equal. lia. }
  unfold classified. rewrite Hc. cbn [cl_behavior cl_minimum cl_maximum cl_predicted cl_step].
  rewrite bool_decide_eq_true_2 by done. cbn [orb]. cbv zeta. rewrite Hsched. cbn.
  destruct (next_ports_fine base step (length samples)) as [Hnd Hf]; [lia|]. by split_and!.
Qed.
