(* ===== verification/HardNatDiscovery.v ===== *)
(** * Hard-NAT planning: the RFC 5780 codec

    The length of a packet is enough fuel for [walkAttributes], and the parsers
    invert the builders. *)
From S2P Require Import Prelude GoStd LivenessWire HardNatArith HardNatTypes HardNatStun.
Open Scope go_scope.

(** ** Fuel *)
Lemma padded_length_nonneg n : 0 <= n -> 0 <= padded_length n.
Proof. intros Hn. unfold padded_length. apply Z.ldiff_nonneg. lia. Qed.

Lemma slice_decode_nonneg i j b : Forall is_byte b -> 0 <= be_decode (slice i j b).
Proof.
  intros Hb. apply be_decode_range. unfold slice. apply Forall_take. by apply Forall_drop.
Qed.

Lemma walk_loop_fuel {A} fuel fuel' (visit : Z -> list Z -> A -> res plan_err A) rest acc :
  Forall is_byte rest -> (length rest <= fuel)%nat -> (length rest <= fuel')%nat ->
  walk_loop fuel visit rest acc = walk_loop fuel' visit rest acc.
Proof.
  revert fuel' rest acc. induction fuel as [|fuel IH]; intros [|fuel'] rest acc Hb Hl Hl';
    try (destruct rest; [done|simpl in *; lia]).
  cbn [walk_loop]. destruct rest as [|b rest]; [done|].
  destruct (blen (b :: rest) <? 4); [done|]. destruct (blen (b :: rest) <? _); [done|].
  destruct (existsb _ _); [done|]. destruct (visit _ _ _) as [acc'|]; [|done]. cbn [res_bind].
  pose proof (padded_length_nonneg _ (slice_decode_nonneg 2 4 (b :: rest) Hb)).
  apply IH; [by apply Forall_drop|rewrite length_drop; simpl in *; lia..].
Qed.

(** ** Requests *)
Definition transaction_typed (transaction : list Z) : Prop := length transaction = 12%nat /\ Forall is_byte transaction.

Lemma request_roundtrip transaction change :
  transaction_typed transaction -> allZero transaction = false ->
  exists packet, BuildBehaviorBindingRequest transaction change = Ok packet /\
    ParseBehaviorBindingRequest packet = Ok (transaction, change).
Proof.
  intros [Hl _] Hz. unfold BuildBehaviorBindingRequest. rewrite Hz.
  do 13 (destruct transaction as [|? transaction]; try discriminate).
  destruct change as [[] []]; cbn [cr_ChangeIP cr_ChangePort orb]; eexists; (split; [reflexivity|]); vm_compute; reflexivity.
Qed.

(** ** Addresses *)
Definition endpoint_typed (e : AddressPort) : Prop :=
  length (ad_Bytes (ap_Address e)) = 16%nat /\ Forall is_byte (ad_Bytes (ap_Address e)) /\ 0 <= ap_Port e < 2 ^ 16.

Lemma lxor_range n a b : 0 <= n -> 0 <= a < 2 ^ n -> 0 <= b < 2 ^ n -> 0 <= Z.lxor a b < 2 ^ n.
Proof.
  intros Hn Ha Hb. assert (Hnn : 0 <= Z.lxor a b) by (apply Z.lxor_nonneg; lia). split; [done|].
  destruct (decide (Z.lxor a b = 0)) as [->|Hne]; [lia|].
  apply Z.log2_lt_pow2; [lia|]. pose proof (Z.log2_lxor a b ltac:(lia) ltac:(lia)) as Hle.
  destruct (decide (n = 0)) as [->|Hn0].
  { assert (a = 0) as -> by lia. assert (b = 0) as -> by lia. done. }
  assert (Ha' : Z.log2 a < n) by (destruct (decide (a = 0)) as [->|]; [cbn; lia|apply Z.log2_lt_pow2; lia]).
  assert (Hb' : Z.log2 b < n) by (destruct (decide (b = 0)) as [->|]; [cbn; lia|apply Z.log2_lt_pow2; lia]). lia.
Qed.

Lemma xor_port_range port : 0 <= port < 2 ^ 16 -> 0 <= xor_port port < 2 ^ 16.
Proof. intros Hp. apply lxor_range; [lia|done|]. by vm_compute. Qed.
Lemma xor_port_involutive port : xor_port (xor_port port) = port.
Proof. unfold xor_port. by rewrite Z.lxor_assoc, Z.lxor_nilpotent, Z.lxor_0_r. Qed.

Lemma xor_bytes_involutive bytes mask :
  (length bytes <= length mask)%nat -> xor_bytes (xor_bytes bytes mask) mask = bytes.
Proof.
  unfold xor_bytes. revert mask. induction bytes as [|b bytes IH]; intros [|m mask] Hl; simpl in *; try done; [lia|].
  f_equal; [by rewrite Z.lxor_assoc, Z.lxor_nilpotent, Z.lxor_0_r|]. apply IH. lia.
Qed.

Lemma xor_bytes_prefix bytes mask rest :
  (length bytes <= length mask)%nat -> xor_bytes bytes (mask ++ rest) = xor_bytes bytes mask.
Proof.
  unfold xor_bytes. revert mask. induction bytes as [|b bytes IH]; intros [|m mask] Hl; simpl in *; try done; [lia|].
  f_equal. apply IH. lia.
Qed.

Lemma xor_bytes_length bytes mask :
  (length bytes <= length mask)%nat -> length (xor_bytes bytes mask) = length bytes.
Proof. intros Hl. unfold xor_bytes. rewrite length_zip_with. lia. Qed.

Lemma slice_app_mid {A} (a b c : list A) i j :
  Z.of_nat (length a) = i -> Z.of_nat (length b) = j - i -> slice i j (a ++ b ++ c) = b.
Proof. intros Ha Hb. unfold slice. rewrite drop_app_length' by lia. by apply take_app_length'; lia. Qed.
Lemma slice_app_end {A} (a b : list A) i j :
  Z.of_nat (length a) = i -> Z.of_nat (length b) = j - i -> slice i j (a ++ b) = b.
Proof. intros Ha Hb. rewrite <-(app_nil_r b) at 1. by apply slice_app_mid. Qed.

Definition wire_port (port : Z) (xor : bool) : Z := if xor then xor_port port else port.
Definition wire_address (bytes mask : list Z) (xor : bool) : list Z := if xor then xor_bytes bytes mask else bytes.

Lemma wire_port_range port xor : 0 <= port < 2 ^ 16 -> 0 <= wire_port port xor < 2 ^ 16.
Proof. destruct xor; [apply xor_port_range|done]. Qed.
Lemma wire_port_back port xor : wire_port (wire_port port xor) xor = port.
Proof. destruct xor; [apply xor_port_involutive|done]. Qed.
Lemma wire_address_length bytes mask xor :
  (length bytes <= length mask)%nat -> length (wire_address bytes mask xor) = length bytes.
Proof. destruct xor; [apply xor_bytes_length|done]. Qed.
Lemma wire_address_back bytes mask xor :
  (length bytes <= length mask)%nat -> wire_address (wire_address bytes mask xor) mask xor = bytes.
Proof. destruct xor; [apply xor_bytes_involutive|done]. Qed.

Lemma zeros_replicate (l : list Z) : existsb (fun v => negb (v =? 0)) l = false -> l = make_bytes (length l).
Proof.
  induction l as [|v l IH]; [done|]. cbn. intros [Hv Hl]%orb_false_iff.
  apply negb_false_iff, Z.eqb_eq in Hv as ->. f_equal. by apply IH.
Qed.

(** The value of an address attribute: its padding and family, port, address. *)
Definition address_value (family port : Z) (address : list Z) : list Z := [0; family] ++ be_encode 2 port ++ address.

Lemma decode_address_value family port address transaction xor e :
  0 <= port < 2 ^ 16 -> wire_port port xor = ap_Port e -> endpoint_Valid e = true ->
  (family = 1 /\ length address = 4%nat /\
   ap_Address e = Address4 (wire_address address (be_encode 4 stunMagicCookie) xor)
   \/ family = 2 /\ length address = 16%nat /\
      ap_Address e = Address6 (wire_address address (xor_mask transaction) xor)) ->
  decodeSTUNAddress (address_value family port address) transaction xor = Ok e.
Proof.
  intros Hp Hport Hv Hf. unfold decodeSTUNAddress.
  assert (Hlen : blen (address_value family port address) = 4 + Z.of_nat (length address)).
  { unfold blen, address_value. rewrite !length_app, be_encode_length. cbn [length]. lia. }
  assert (Hport' : be_decode (slice 2 4 (address_value family port address)) = port).
  { unfold address_value. rewrite slice_app_mid by (rewrite ?be_encode_length; done). by apply be_decode_encode_small. }
  rewrite Hlen, Hport'. change (byte_at 0 (address_value family port address)) with 0.
  change (byte_at 1 (address_value family port address)) with family.
  replace (if xor then xor_port port else port) with (ap_Port e) by (rewrite <-Hport; by destruct xor).
  pose proof Hv as Hv'. apply andb_true_iff in Hv' as [_ Hnz]. apply negb_true_iff in Hnz. rewrite Hnz.
  destruct Hf as [(-> & Hl & Ha)|(-> & Hl & Ha)]; rewrite Hl;
    [change (4 + Z.of_nat 4) with 8|change (4 + Z.of_nat 16) with 20].
  - assert (slice 4 8 (address_value 1 port address) = address) as ->.
    { unfold address_value. rewrite app_assoc. apply slice_app_end; [by rewrite length_app, be_encode_length|]. by rewrite Hl. }
    cbn -[endpoint_Valid xor_bytes be_encode]. replace (if xor then xor_bytes address _ else address)
      with (wire_address address (be_encode 4 stunMagicCookie) xor) by (by destruct xor).
    rewrite <-Ha. destruct e as [a p]. cbn -[endpoint_Valid] in *. by rewrite Hv.
  - assert (slice 4 20 (address_value 2 port address) = address) as ->.
    { unfold address_value. rewrite app_assoc. apply slice_app_end; [by rewrite length_app, be_encode_length|]. by rewrite Hl. }
    cbn -[endpoint_Valid xor_bytes be_encode]. replace (if xor then xor_bytes address _ else address)
      with (wire_address address (xor_mask transaction) xor) by (by destruct xor).
    rewrite <-Ha. destruct e as [a p]. cbn -[endpoint_Valid] in *. by rewrite Hv.
Qed.

Definition attribute (kind length : Z) (value : list Z) : list Z := be_encode 2 kind ++ be_encode 2 length ++ value.

Lemma address_roundtrip kind e transaction xor :
  endpoint_Valid e = true -> endpoint_typed e -> transaction_typed transaction ->
  exists length value, encodeSTUNAddress kind e transaction xor = Ok (attribute kind length value) /\
    blen value = length /\ (length = 8 \/ length = 20) /\ decodeSTUNAddress value transaction xor = Ok e.
Proof.
  intros Hv (Hl & Hb & Hp) [Ht _]. unfold encodeSTUNAddress. rewrite Hv. cbn [negb].
  assert (Hmask : length (xor_mask transaction) = 16%nat)
    by (unfold xor_mask; rewrite length_app, be_encode_length, Ht; done).
  pose proof Hv as Hv'. apply andb_true_iff in Hv' as [Ha _]. unfold address_Valid in Ha.
  destruct (Z.eqb_spec (ad_Family (ap_Address e)) AddressFamilyIPv4) as [Hf|Hf].
  - destruct (existsb _ _) eqn:Hz in Ha; [done|]. apply zeros_replicate in Hz. rewrite length_drop, Hl in Hz.
    rewrite Hf. exists 8, (address_value 1 (wire_port (ap_Port e) xor) (wire_address (take 4 (ad_Bytes (ap_Address e))) (xor_mask transaction) xor)).
    assert (Hl4 : length (take 4 (ad_Bytes (ap_Address e))) = 4%nat) by (rewrite length_take; lia).
    split; [by destruct xor|].
    assert (Hlv : length (wire_address (take 4 (ad_Bytes (ap_Address e))) (xor_mask transaction) xor) = 4%nat)
      by (rewrite wire_address_length; lia).
    split; [unfold blen, address_value; rewrite !length_app, be_encode_length, Hlv; done|]. split; [by left|].
    apply decode_address_value; auto using wire_port_range, wire_port_back. left. split_and!; [done..|].
    replace (wire_address (wire_address _ (xor_mask transaction) xor) (be_encode 4 stunMagicCookie) xor)
      with (take 4 (ad_Bytes (ap_Address e))).
    { unfold Address4. change (make_bytes 12) with (make_bytes (16 - 4)). rewrite <-Hz, take_drop.
      destruct e as [[f bs] p]. cbn in *. by rewrite Hf. }
    destruct xor; [|done]. cbn [wire_address]. unfold xor_mask.
    rewrite (xor_bytes_prefix (take 4 _)) by (rewrite be_encode_length; lia).
    rewrite xor_bytes_involutive; [done|rewrite be_encode_length; lia].
  - destruct (Z.eqb_spec (ad_Family (ap_Address e)) AddressFamilyIPv6) as [Hf6|]; [|done].
    exists 20, (address_value 2 (wire_port (ap_Port e) xor) (wire_address (take 16 (ad_Bytes (ap_Address e))) (xor_mask transaction) xor)).
    rewrite take_ge by lia. split; [by destruct xor|].
    assert (Hlv : length (wire_address (ad_Bytes (ap_Address e)) (xor_mask transaction) xor) = 16%nat)
      by (rewrite wire_address_length; lia).
    split; [unfold blen, address_value; rewrite !length_app, be_encode_length, Hlv; done|]. split; [by right|].
    apply decode_address_value; auto using wire_port_range, wire_port_back. right. split_and!; [done..|].
    rewrite wire_address_back by lia. unfold Address6. destruct e as [[f bs] p]. cbn in *. by rewrite Hf6.
Qed.

(** ** Responses *)
Lemma walk_attribute {A} fuel (visit : Z -> list Z -> A -> res plan_err A) kind len value rest acc :
  0 <= kind < 2 ^ 16 -> blen value = len -> len = 8 \/ len = 20 ->
  walk_loop (S fuel) visit (attribute kind len value ++ rest) acc
  = (let! acc := visit kind value acc in walk_loop fuel visit rest acc).
Proof.
  intros Hk Hv Hlen. unfold attribute. rewrite <-!app_assoc.
  set (packet := be_encode 2 kind ++ be_encode 2 len ++ value ++ rest).
  assert (Hkind : be_decode (slice 0 2 packet) = kind).
  { unfold packet. rewrite <-(app_nil_l (be_encode 2 kind ++ _)), slice_app_mid by (rewrite ?be_encode_length; done).
    by apply be_decode_encode_small. }
  assert (Hl : be_decode (slice 2 4 packet) = len).
  { unfold packet. rewrite slice_app_mid by (rewrite ?be_encode_length; done). apply be_decode_encode_small. lia. }
  assert (Hval : slice 4 (4 + len) packet = value).
  { unfold packet. rewrite app_assoc. apply slice_app_mid; [by rewrite length_app, !be_encode_length|unfold blen in Hv; lia]. }
  assert (Hrest : drop (Z.to_nat (4 + len)) packet = rest).
  { unfold packet. rewrite !app_assoc. apply drop_app_length'. rewrite !length_app, !be_encode_length. unfold blen in Hv. lia. }
  assert (Hpl : blen packet = 4 + len + blen rest).
  { unfold packet, blen in *. rewrite !length_app, !be_encode_length. lia. }
  assert (Hpad : padded_length len = len) by (by destruct Hlen as [->| ->]).
  cbn [walk_loop]. destruct packet as [|b packet'] eqn:Hp; [unfold blen in Hpl; cbn in Hpl; lia|].
  rewrite Hl, Hpad, Hkind, Hval, Hrest, Hpl.
  rewrite (proj2 (Z.ltb_ge _ _)), (proj2 (Z.ltb_ge _ _)) by (unfold blen; lia).
  unfold slice. by rewrite Z.sub_diag.
Qed.

Definition attributes_typed (a : BehaviorAttributes) : Prop :=
  ba_HasMapped a = true /\ endpoint_Valid (ba_Mapped a) = true /\ endpoint_typed (ba_Mapped a) /\
  (if ba_HasResponseOrigin a then endpoint_Valid (ba_ResponseOrigin a) = true /\ endpoint_typed (ba_ResponseOrigin a)
   else ba_ResponseOrigin a = zero_endpoint) /\
  (if ba_HasOtherAddress a then endpoint_Valid (ba_OtherAddress a) = true /\ endpoint_typed (ba_OtherAddress a)
   else ba_OtherAddress a = zero_endpoint).

(** A header with a body whose length it carries. *)
Lemma success_header transaction body :
  transaction_typed transaction -> blen body <= 1000 -> blen body mod 4 = 0 ->
  let packet := stun_header stunBindingSuccess (blen body) transaction ++ body in
  validateSTUNHeader packet stunBindingSuccess = None /\ slice 8 20 packet = transaction /\
  drop (Z.to_nat stunHeaderBytes) packet = body /\ (20 <= length packet)%nat.
Proof.
  intros [Ht _] Hb Hm packet.
  assert (Hlp : blen packet = 20 + blen body).
  { unfold packet, stun_header, blen. rewrite !length_app, !be_encode_length, Ht. lia. }
  assert (0 <= blen body) by (unfold blen; lia).
  assert (H0 : be_decode (slice 0 2 packet) = stunBindingSuccess).
  { unfold packet, stun_header. rewrite <-!app_assoc, <-(app_nil_l (be_encode 2 stunBindingSuccess ++ _)).
    rewrite slice_app_mid by (rewrite ?be_encode_length; done). reflexivity. }
  assert (H2 : be_decode (slice 2 4 packet) = blen body).
  { unfold packet, stun_header. rewrite <-!app_assoc. rewrite slice_app_mid by (rewrite ?be_encode_length; done).
    apply be_decode_encode_small. lia. }
  assert (H4 : be_decode (slice 4 8 packet) = stunMagicCookie).
  { unfold packet, stun_header. rewrite <-!app_assoc, app_assoc.
    rewrite slice_app_mid by (rewrite ?length_app, !be_encode_length; done). reflexivity. }
  split_and!.
  - unfold validateSTUNHeader. rewrite Hlp, H0, H2, H4, Hm, !Z.eqb_refl. unfold stunHeaderBytes, maxBehaviorMessageBytes.
    rewrite (proj2 (Z.ltb_ge _ _)), (proj2 (Z.ltb_ge _ _)) by lia. cbn [negb orb Z.eqb].
    by rewrite (proj2 (Z.eqb_eq _ _)) by lia.
  - unfold packet, stun_header. rewrite <-!app_assoc. rewrite (app_assoc (be_encode 2 _)), (app_assoc (_ ++ _)).
    apply slice_app_mid; [by rewrite !length_app, !be_encode_length|by rewrite Ht].
  - unfold packet. apply drop_app_length'. unfold stun_header. by rewrite !length_app, !be_encode_length, Ht.
  - unfold blen in Hlp. lia.
Qed.

Lemma visit_mapped tx value v e :
  sv_mapped v = None -> decodeSTUNAddress value tx false = Ok e ->
  visit_success tx AttributeMappedAddress value v = Ok (mkSuccessVars (Some e) (sv_xorMapped v) (sv_origin v) (sv_other v)).
Proof. intros Hn He. unfold visit_success. cbn [Z.eqb AttributeMappedAddress]. by rewrite Hn, He. Qed.
Lemma visit_xor_mapped tx value v e :
  sv_xorMapped v = None -> decodeSTUNAddress value tx true = Ok e ->
  visit_success tx AttributeXORMappedAddress value v = Ok (mkSuccessVars (sv_mapped v) (Some e) (sv_origin v) (sv_other v)).
Proof. intros Hn He. unfold visit_success. cbn -[decodeSTUNAddress]. by rewrite Hn, He. Qed.
Lemma visit_origin tx value v e :
  sv_origin v = None -> decodeSTUNAddress value tx false = Ok e ->
  visit_success tx AttributeResponseOrigin value v = Ok (mkSuccessVars (sv_mapped v) (sv_xorMapped v) (Some e) (sv_other v)).
Proof. intros Hn He. unfold visit_success. cbn -[decodeSTUNAddress]. by rewrite Hn, He. Qed.
Lemma visit_other tx value v e :
  sv_other v = None -> decodeSTUNAddress value tx false = Ok e ->
  visit_success tx AttributeOtherAddress value v = Ok (mkSuccessVars (sv_mapped v) (sv_xorMapped v) (sv_origin v) (Some e)).
Proof. intros Hn He. unfold visit_success. cbn -[decodeSTUNAddress]. by rewrite Hn, He. Qed.

Lemma attribute_blen kind len value : blen (attribute kind len value) = 4 + blen value.
Proof. unfold attribute, blen. rewrite !length_app, !be_encode_length. lia. Qed.
(** An optional address attribute and what the visitor makes of it. *)
Definition optional_end (present : bool) (e : AddressPort) : option AddressPort := if present then Some e else None.

Lemma optional_attribute (present : bool) kind e tx :
  (if present then endpoint_Valid e = true /\ endpoint_typed e else e = zero_endpoint) -> transaction_typed tx ->
  exists body, (if present then encodeSTUNAddress kind e tx false else Ok []) = Ok body /\
    blen body <= 24 /\ blen body mod 4 = 0 /\
    ((present = false /\ body = [])
     \/ present = true /\ exists len value, body = attribute kind len value /\ blen value = len /\ (len = 8 \/ len = 20)
        /\ decodeSTUNAddress value tx false = Ok e).
Proof.
  intros He Ht. destruct present.
  - destruct He as [Hv Hty]. destruct (address_roundtrip kind e tx false Hv Hty Ht) as (len & value & E & Hl & Hlen & Hd).
    exists (attribute kind len value). split; [done|]. rewrite attribute_blen, Hl.
    split; [lia|]. split; [by destruct Hlen as [->| ->]|]. right. split; [done|]. eauto 10.
  - exists []. split_and!; [done|unfold blen; cbn; lia|done|by left].
Qed.

Lemma walk_end {A} fuel (visit : Z -> list Z -> A -> res plan_err A) acc : walk_loop fuel visit [] acc = Ok acc.
Proof. by destruct fuel. Qed.

Lemma walk_optional fuel tx kind (present : bool) e body rest v put :
  0 <= kind < 2 ^ 16 ->
  (present = false /\ body = []
   \/ present = true /\ exists len value, body = attribute kind len value /\ blen value = len /\ (len = 8 \/ len = 20)
      /\ decodeSTUNAddress value tx false = Ok e) ->
  (forall value, decodeSTUNAddress value tx false = Ok e -> visit_success tx kind value v = Ok (put (Some e))) ->
  put None = v ->
  exists fuel', (fuel <= fuel' <= S fuel)%nat /\
    walk_loop (S fuel) (visit_success tx) (body ++ rest) v
    = walk_loop fuel' (visit_success tx) rest (put (optional_end present e)).
Proof.
  intros Hk [[-> ->]|(-> & len & value & -> & Hv & Hl & Hd)] Hvisit Hput.
  - exists (S fuel). cbn [app optional_end]. rewrite Hput. split; [lia|done].
  - exists fuel. rewrite walk_attribute, Hvisit by done. split; [lia|done].
Qed.

Lemma success_roundtrip tx a :
  transaction_typed tx -> allZero tx = false -> attributes_typed a ->
  exists packet, BuildBehaviorBindingSuccess tx a = Ok packet /\ ParseBehaviorBindingSuccess packet tx = Ok a.
Proof.
  intros Ht Hz (Hm & Hmv & Hmt & Ho & Hx). unfold BuildBehaviorBindingSuccess. rewrite Hz, Hm, Hmv. cbn [negb orb].
  destruct (address_roundtrip AttributeMappedAddress (ba_Mapped a) tx false Hmv Hmt Ht) as (l1 & v1 & -> & Hv1 & Hl1 & Hd1).
  destruct (address_roundtrip AttributeXORMappedAddress (ba_Mapped a) tx true Hmv Hmt Ht) as (l2 & v2 & -> & Hv2 & Hl2 & Hd2).
  destruct (optional_attribute (ba_HasResponseOrigin a) AttributeResponseOrigin (ba_ResponseOrigin a) tx Ho Ht)
    as (b3 & -> & Hb3 & Hm3 & Hc3).
  destruct (optional_attribute (ba_HasOtherAddress a) AttributeOtherAddress (ba_OtherAddress a) tx Hx Ht)
    as (b4 & -> & Hb4 & Hm4 & Hc4). cbn [res_bind].
  set (body := attribute AttributeMappedAddress l1 v1 ++ attribute AttributeXORMappedAddress l2 v2 ++ b3 ++ b4).
  assert (Hblen : blen body = (4 + l1) + ((4 + l2) + (blen b3 + blen b4)))
    by (unfold body; rewrite !blen_app, !attribute_blen, Hv1, Hv2; done).
  assert (Hmod : blen body mod 4 = 0).
  { rewrite Hblen, Z.add_mod, (Z.add_mod (4 + l2)), (Z.add_mod (blen b3)), Hm3, Hm4 by lia.
    by destruct Hl1 as [->| ->], Hl2 as [->| ->]. }
  destruct (success_header tx body Ht ltac:(lia) Hmod) as (Hhead & Htx & Hdrop & Hlen).
  eexists. split; [done|]. set (packet := stun_header _ _ _ ++ body) in *.
  unfold ParseBehaviorBindingSuccess. rewrite Hhead. cbn [guard_err]. rewrite Htx. unfold bytes_eqb.
  rewrite bool_decide_eq_true_2 by done. cbn [negb]. unfold walkAttributes. rewrite Hdrop.
  destruct (length packet) as [|[|[|[|k]]]] eqn:Hk; try lia. unfold body.
  rewrite walk_attribute, (visit_mapped _ _ _ (ba_Mapped a)) by done. cbn [res_bind sv_xorMapped sv_origin sv_other].
  rewrite walk_attribute, (visit_xor_mapped _ _ _ (ba_Mapped a)) by done. cbn [res_bind sv_mapped sv_origin sv_other].
  destruct (walk_optional (S k) tx AttributeResponseOrigin _ _ b3 b4
    (mkSuccessVars (Some (ba_Mapped a)) (Some (ba_Mapped a)) None None)
    (fun o => mkSuccessVars (Some (ba_Mapped a)) (Some (ba_Mapped a)) o None) ltac:(done) Hc3) as (f1 & Hf1 & ->);
    [intros value Hd; by apply visit_origin|done|].
  destruct f1 as [|f1]; [lia|].
  rewrite <-(app_nil_r b4). set (o := optional_end _ _).
  destruct (walk_optional f1 tx AttributeOtherAddress _ _ b4 []
    (mkSuccessVars (Some (ba_Mapped a)) (Some (ba_Mapped a)) o None)
    (fun x => mkSuccessVars (Some (ba_Mapped a)) (Some (ba_Mapped a)) o x) ltac:(done) Hc4) as (f2 & _ & ->);
    [intros value Hd; by apply visit_other|done|].
  rewrite walk_end. cbn [res_bind sv_mapped sv_xorMapped sv_origin sv_other]. rewrite bool_decide_eq_true_2 by done.
  destruct a as [m ro oa hm ho hx]. cbn in *. subst o hm. f_equal.
  destruct ho, hx; cbn; f_equal; try done; naive_solver.
Qed.

(** The RFC 5780 codec round-trips: a request parses back to its transaction
    and change flags, and a response to its transaction parses back to its
    attributes, plain and masked addresses of both families alike. *)
Theorem behavior_codec_roundtrip tx change a :
  transaction_typed tx -> allZero tx = false -> attributes_typed a ->
  (exists request, BuildBehaviorBindingRequest tx change = Ok request /\
     ParseBehaviorBindingRequest request = Ok (tx, change)) /\
  (exists response, BuildBehaviorBindingSuccess tx a = Ok response /\
     ParseBehaviorBindingSuccess response tx = Ok a).
Proof. intros Ht Hz Ha. split; [by apply request_roundtrip|by apply success_roundtrip]. Qed.

(** * Hard-NAT planning: discovery against a reference NAT

    A NAT with a mapping and a filtering behavior (RFC 4787) in front of the two
    addresses and two ports of an RFC 5780 observer.  Its filter remembers where
    each mapping sent to.  All five exchanges of a transcript use one socket. *)

Record nat_box := mkNat {
  nt_mapping : string;
  nt_filtering : string;
  (** The public endpoint of the flow to a destination. *)
  nt_map : AddressPort -> AddressPort;
}.

(** Flows to these destinations share a mapping. *)
Definition same_mapping (mapping : string) (d d' : AddressPort) : bool :=
  if bool_decide (mapping = MappingEIM) then true
  else if bool_decide (mapping = MappingADM) then bool_decide (ap_Address d = ap_Address d')
  else bool_decide (d = d').

(** A packet from [src] to the mapping of [dest], after packets to [contacts]. *)
Definition passes (nat : nat_box) (contacts : list AddressPort) (dest src : AddressPort) : bool :=
  existsb (fun c => same_mapping (nt_mapping nat) c dest &&
    (if bool_decide (nt_filtering nat = FilteringEIF) then true
     else if bool_decide (nt_filtering nat = FilteringADF) then bool_decide (ap_Address c = ap_Address src)
     else bool_decide (c = src))) contacts.

Record nat_laws (nat : nat_box) : Prop := {
  nl_mapping : mapping_valid (nt_mapping nat) = true;
  nl_filtering : filtering_valid (nt_filtering nat) = true;
  nl_valid : forall d, endpoint_Valid (nt_map nat d) = true;
  nl_typed : forall d, endpoint_typed (nt_map nat d);
  nl_same : forall d d', nt_map nat d = nt_map nat d' <-> same_mapping (nt_mapping nat) d d' = true;
}.

(** The observer: its primary and its other endpoint. *)
Record observer := mkObserver { ov_primary : AddressPort; ov_other : AddressPort }.

Definition cross (a p : AddressPort) : AddressPort := mkAddressPort (ap_Address a) (ap_Port p).
Definition other_address (o : observer) (e : AddressPort) : AddressPort :=
  if bool_decide (ap_Address e = ap_Address (ov_primary o)) then ov_other o else ov_primary o.
Definition other_port (o : observer) (e : AddressPort) : AddressPort :=
  if bool_decide (ap_Port e = ap_Port (ov_primary o)) then ov_other o else ov_primary o.

(** Where the response to a request to [dest] comes from. *)
Definition response_source (o : observer) (dest : AddressPort) (change : ChangeRequest) : AddressPort :=
  cross (if cr_ChangeIP change then other_address o dest else dest)
        (if cr_ChangePort change then other_port o dest else dest).

Record observer_laws (o : observer) : Prop := {
  ol_primary : endpoint_Valid (ov_primary o) = true /\ endpoint_typed (ov_primary o);
  ol_other : endpoint_Valid (ov_other o) = true /\ endpoint_typed (ov_other o);
  ol_address : ap_Address (ov_primary o) <> ap_Address (ov_other o);
  ol_port : ap_Port (ov_primary o) <> ap_Port (ov_other o);
}.

Definition response_attributes (o : observer) (nat : nat_box) (dest src : AddressPort) : BehaviorAttributes :=
  mkAttributes (nt_map nat dest) src (cross (other_address o dest) (other_port o dest)) true true true.

Definition packet_of {A} (x : res plan_err (list A)) : list A := match x with Ok p => p | Err _ => [] end.

(** One exchange: the request leaves by the NAT, the response passes its filter
    or is lost. *)
Definition nat_exchange (o : observer) (nat : nat_box) (contacts : list AddressPort) (step : string)
    (dest : AddressPort) (tx : list Z) (at_milli : Z) : RFC5780Exchange :=
  let change := expectedRFC5780Change step in
  let src := response_source o dest change in
  let request := packet_of (BuildBehaviorBindingRequest tx change) in
  if passes nat (contacts ++ [dest]) dest src
  then mkExchange step tx dest src at_milli true request (packet_of (BuildBehaviorBindingSuccess tx (response_attributes o nat dest src)))
  else mkExchange step tx dest zero_endpoint at_milli false request [].

(** The destinations of the five steps. *)
Definition destinations (o : observer) : list AddressPort :=
  [ov_primary o; cross (ov_primary o) (ov_other o); cross (ov_other o) (ov_primary o); ov_primary o; ov_primary o].

Definition nat_transcript (o : observer) (nat : nat_box) (slot : Z) (txs : list (list Z)) (times : list Z)
    : RFC5780Transcript :=
  mkTranscript OriginLocalTransaction slot
    (imap (fun k step =>
       nat_exchange o nat (take k (destinations o)) step (nth k (destinations o) zero_endpoint) (nth k txs []) (nth k times 0))
     orderedRFC5780Steps).

(** What the machine reports of a filter: the packets of the mapping steps have
    opened it already. *)
Definition discovered_filtering (mapping filtering : string) : string :=
  if bool_decide (mapping = MappingEIM) then
    if bool_decide (filtering = FilteringAPDF) then FilteringADF else FilteringEIF
  else if bool_decide (mapping = MappingADM) then
    if bool_decide (filtering = FilteringEIF) then FilteringEIF else FilteringADF
  else filtering.

(** ** One exchange *)
Definition observed (o : observer) (nat : nat_box) (contacts : list AddressPort) (step : string) (dest : AddressPort)
    (tx : list Z) : DiscoveryObservation :=
  let src := response_source o dest (expectedRFC5780Change step) in
  if passes nat (contacts ++ [dest]) dest src
  then mkObservation tx dest src true (response_attributes o nat dest src)
  else mkObservation tx dest zero_endpoint false zero_attributes.

Definition on_observer (o : observer) (e : AddressPort) : Prop :=
  (ap_Address e = ap_Address (ov_primary o) \/ ap_Address e = ap_Address (ov_other o)) /\
  (ap_Port e = ap_Port (ov_primary o) \/ ap_Port e = ap_Port (ov_other o)).

Lemma endpoint_eq e e' : ap_Address e = ap_Address e' -> ap_Port e = ap_Port e' -> e = e'.
Proof. destruct e, e'. cbn. congruence. Qed.
Lemma cross_self e : cross e e = e.
Proof. by destruct e. Qed.

Section discovery.
Context (o : observer) (Ho : observer_laws o).

Lemma on_observer_fine e : on_observer o e -> endpoint_Valid e = true /\ endpoint_typed e.
Proof.
  destruct Ho as [[V1 (L1 & B1 & P1)] [V2 (L2 & B2 & P2)] _ _]. unfold endpoint_Valid, endpoint_typed in *.
  apply andb_true_iff in V1 as [A1 Q1], V2 as [A2 Q2].
  intros [[->| ->] [->| ->]]; rewrite ?A1, ?A2, ?Q1, ?Q2; auto.
Qed.

Lemma other_address_on e : on_observer o e -> on_observer o (other_address o e).
Proof. intros _. unfold other_address, on_observer. case_bool_decide; auto. Qed.
Lemma other_port_on e : on_observer o e -> on_observer o (other_port o e).
Proof. intros _. unfold other_port, on_observer. case_bool_decide; auto. Qed.
Lemma cross_on a p : on_observer o a -> on_observer o p -> on_observer o (cross a p).
Proof. intros [Ha _] [_ Hp]. by split. Qed.
Lemma response_source_on e change : on_observer o e -> on_observer o (response_source o e change).
Proof.
  intros He. unfold response_source. destruct change as [[] []]; cbn [cr_ChangeIP cr_ChangePort];
    auto using cross_on, other_address_on, other_port_on.
Qed.

Lemma response_typed nat dest src :
  nat_laws nat -> on_observer o dest -> on_observer o src -> attributes_typed (response_attributes o nat dest src).
Proof.
  intros Hn Hd Hs. unfold attributes_typed, response_attributes.
  cbn [ba_HasMapped ba_Mapped ba_HasResponseOrigin ba_ResponseOrigin ba_HasOtherAddress ba_OtherAddress].
  split; [done|]. split; [apply Hn|]. split; [apply Hn|]. split.
  - by apply on_observer_fine.
  - apply on_observer_fine. auto using cross_on, other_address_on, other_port_on.
Qed.

Lemma exchange_observed nat contacts step dest tx at_milli :
  nat_laws nat -> on_observer o dest -> transaction_typed tx -> allZero tx = false -> 0 < at_milli ->
  exchange_observation step (nat_exchange o nat contacts step dest tx at_milli)
  = Ok (observed o nat contacts step dest tx).
Proof.
  intros Hn Hd Ht Hz Hat. destruct (on_observer_fine _ Hd) as [Hv _].
  pose proof (response_source_on dest (expectedRFC5780Change step) Hd) as Hs.
  destruct (request_roundtrip tx (expectedRFC5780Change step) Ht Hz) as (request & Hreq & Hparse).
  destruct (success_roundtrip tx _ Ht Hz (response_typed nat dest _ Hn Hd Hs)) as (response & Hresp & Hrparse).
  unfold exchange_observation, nat_exchange, observed. rewrite Hreq, Hresp. cbn [packet_of].
  destruct (passes _ _ _ _); cbn [ex_Step ex_ObservedAtMilli ex_RequestDestination ex_Request ex_TransactionID
    ex_Received ex_Response ex_ResponseSource].
  all: rewrite bool_decide_eq_true_2, (proj2 (Z.leb_gt _ _)), Hv by (done || lia); cbn [negb orb].
  all: rewrite Hparse, !bool_decide_eq_true_2 by done; cbn [negb orb].
  - rewrite bool_decide_eq_false_2 by (intros ->; by vm_compute in Hrparse).
    rewrite (proj1 (on_observer_fine _ Hs)). cbn [negb orb]. by rewrite Hrparse.
  - done.
Qed.
End discovery.

(** ** The five exchanges *)
Section run.
Context (o : observer) (Ho : observer_laws o) (nat : nat_box) (Hn : nat_laws nat).

Let e0 := ov_primary o.
Let e1 := cross (ov_primary o) (ov_other o).
Let e2 := cross (ov_other o) (ov_primary o).
Let e3 := ov_other o.

Lemma e0_ne_e1 : e0 <> e1.
Proof. intros E. apply (ol_port _ Ho). unfold e0, e1 in E. by rewrite E at 1. Qed.
Lemma e0_ne_e2 : e0 <> e2.
Proof. intros E. apply (ol_address _ Ho). unfold e0, e2 in E. by rewrite E at 1. Qed.
Lemma e1_ne_e3 : e1 <> e3.
Proof. intros E. apply (ol_address _ Ho). unfold e1, e3 in E. by rewrite <-E. Qed.
Lemma e0_ne_e3 : e0 <> e3.
Proof. intros E. apply (ol_address _ Ho). unfold e0, e3 in E. by rewrite E. Qed.
Lemma e2_ne_e3 : e2 <> e3.
Proof. intros E. apply (ol_port _ Ho). unfold e2, e3 in E. by rewrite <-E. Qed.

Lemma source_plain dest : response_source o dest (mkChange false false) = dest.
Proof. unfold response_source. cbn [cr_ChangeIP cr_ChangePort]. apply cross_self. Qed.
Lemma other_address_primary : other_address o e0 = e3.
Proof. unfold other_address, e0. by rewrite bool_decide_eq_true_2. Qed.
Lemma other_port_primary : other_port o e0 = e3.
Proof. unfold other_port, e0. by rewrite bool_decide_eq_true_2. Qed.
Lemma source_ip_port : response_source o e0 (mkChange true true) = e3.
Proof.
  unfold response_source. cbn [cr_ChangeIP cr_ChangePort]. rewrite other_address_primary, other_port_primary. apply cross_self.
Qed.
Lemma source_port : response_source o e0 (mkChange false true) = e1.
Proof. unfold response_source. cbn [cr_ChangeIP cr_ChangePort]. by rewrite other_port_primary. Qed.

Lemma same_mapping_refl mapping d : same_mapping mapping d d = true.
Proof. unfold same_mapping. repeat case_bool_decide; done. Qed.

(** A response from where the request went passes every filter. *)
Lemma passes_self contacts dest : passes nat (contacts ++ [dest]) dest dest = true.
Proof.
  unfold passes. rewrite existsb_app. cbn [existsb]. rewrite same_mapping_refl. cbn [andb].
  repeat case_bool_decide; try done; by rewrite ?orb_true_r.
Qed.

Lemma mapping_cases : nt_mapping nat = MappingEIM \/ nt_mapping nat = MappingADM \/ nt_mapping nat = MappingAPDM.
Proof.
  pose proof (nl_mapping _ Hn) as Hm. unfold mapping_valid in Hm.
  apply orb_true_iff in Hm as [[Hm|Hm]%orb_true_iff|Hm]; apply bool_decide_eq_true in Hm; auto.
Qed.
Lemma filtering_cases :
  nt_filtering nat = FilteringEIF \/ nt_filtering nat = FilteringADF \/ nt_filtering nat = FilteringAPDF.
Proof.
  pose proof (nl_filtering _ Hn) as Hm. unfold filtering_valid in Hm.
  apply orb_true_iff in Hm as [[Hm|Hm]%orb_true_iff|Hm]; apply bool_decide_eq_true in Hm; auto.
Qed.

Lemma address_tests :
  ap_Address e1 = ap_Address e0 /\ ap_Address e2 = ap_Address e3 /\ ap_Address e0 <> ap_Address e3.
Proof. split_and!; [done|done|apply Ho]. Qed.

Lemma passes_ip_port :
  passes nat ([e0; e1; e2] ++ [e0]) e0 e3 = bool_decide (discovered_filtering (nt_mapping nat) (nt_filtering nat) = FilteringEIF).
Proof.
  destruct address_tests as (A1 & A2 & A3). unfold passes, same_mapping, discovered_filtering. cbn [app existsb].
  rewrite A1, A2, (bool_decide_eq_false_2 _ A3), (bool_decide_eq_false_2 _ e0_ne_e3), (bool_decide_eq_false_2 _ e1_ne_e3),
    (bool_decide_eq_false_2 _ e2_ne_e3), !(bool_decide_eq_true_2 (_ e3 = _ e3)) by done.
  rewrite !(bool_decide_eq_true_2 (_ e0 = _ e0)), (bool_decide_eq_false_2 (_ e3 = _ e0)) by (done || congruence).
  rewrite (bool_decide_eq_false_2 (e1 = e0)), (bool_decide_eq_false_2 (e2 = e0)), (bool_decide_eq_true_2 (e0 = e0))
    by (done || (intros E; symmetry in E; first [by apply e0_ne_e1|by apply e0_ne_e2])).
  destruct mapping_cases as [->|[->| ->]], filtering_cases as [->|[->| ->]]; name_tests; done.
Qed.

Lemma passes_port :
  passes nat ([e0; e1; e2; e0] ++ [e0]) e0 e1
  = negb (bool_decide (discovered_filtering (nt_mapping nat) (nt_filtering nat) = FilteringAPDF)).
Proof.
  destruct address_tests as (A1 & A2 & A3). unfold passes, same_mapping, discovered_filtering. cbn [app existsb].
  rewrite A1, A2, (bool_decide_eq_false_2 (_ e3 = _ e0)) by congruence.
  rewrite !(bool_decide_eq_true_2 (_ e0 = _ e0)), (bool_decide_eq_true_2 (e0 = e0)), (bool_decide_eq_true_2 (e1 = e1)) by done.
  rewrite (bool_decide_eq_false_2 _ e0_ne_e1), (bool_decide_eq_false_2 (e1 = e0)), (bool_decide_eq_false_2 (e2 = e0))
    by (intros E; symmetry in E; first [by apply e0_ne_e1|by apply e0_ne_e2]).
  destruct mapping_cases as [->|[->| ->]], filtering_cases as [->|[->| ->]]; name_tests;
    rewrite ?orb_true_r, ?andb_true_r, ?andb_false_r; done.
Qed.

Lemma fine e : on_observer o e -> endpoint_Valid e = true.
Proof. intros He. by apply (on_observer_fine o Ho). Qed.
Lemma e0_on : on_observer o e0. Proof. split; by left. Qed.
Lemma e1_on : on_observer o e1. Proof. split; [by left|by right]. Qed.
Lemma e2_on : on_observer o e2. Proof. split; [by right|by left]. Qed.
Lemma e3_on : on_observer o e3. Proof. split; by right. Qed.

(** The attributes of the three mapping steps. *)
Definition A0 : BehaviorAttributes := response_attributes o nat e0 e0.
Definition A1 : BehaviorAttributes := response_attributes o nat e1 e1.
Definition A2 : BehaviorAttributes := response_attributes o nat e2 e2.

Lemma A0_other : ba_OtherAddress A0 = e3.
Proof. unfold A0, response_attributes. cbn [ba_OtherAddress]. rewrite other_address_primary, other_port_primary. apply cross_self. Qed.

Lemma observed_plain contacts step dest tx :
  expectedRFC5780Change step = mkChange false false ->
  observed o nat contacts step dest tx = mkObservation tx dest dest true (response_attributes o nat dest dest).
Proof. intros E. unfold observed. rewrite E, source_plain. by rewrite passes_self. Qed.

(** The guards every step has. *)
Definition usable (transactions : list (list Z)) (tx : list Z) : Prop := allZero tx = false /\ tx ∉ transactions.

Lemma same_response_received tx dest src a :
  endpoint_Valid src = true -> ba_HasResponseOrigin a = true -> ba_ResponseOrigin a = src ->
  same_response (mkObservation tx dest src true a) = true.
Proof.
  intros Hv Hh Hs. unfold same_response. cbn [ob_Received ob_ResponseSource ob_Attributes].
  by rewrite Hv, Hh, Hs, bool_decide_eq_true_2.
Qed.

Lemma advance_primary tx :
  usable [] tx ->
  Advance NewRFC5780Machine StepPrimary (observed o nat [] StepPrimary e0 tx)
  = Ok (mkMachine DiscoveryAwaitSameAddressOtherPort A0 zero_attributes zero_attributes false false [tx]).
Proof.
  intros [Hz Hin]. rewrite observed_plain by done. fold A0. unfold Advance, NewRFC5780Machine.
  rewrite (same_response_received tx e0 e0 A0) by (auto using fine, e0_on).
  cbn [ob_TransactionID ob_RequestDestination ob_Received ob_Attributes expected_step app].
  rewrite Hz, (fine _ e0_on), (bool_decide_eq_true_2 (StepPrimary = _)), (bool_decide_eq_false_2 _ Hin) by done.
  cbn [negb orb]. rewrite A0_other. change (ba_ResponseOrigin A0) with e0. change (ba_Mapped A0) with (nt_map nat e0).
  rewrite (nl_valid _ Hn), (fine _ e0_on), (fine _ e3_on), (bool_decide_eq_true_2 (e0 = e0)) by done.
  by rewrite (bool_decide_eq_false_2 _ (ol_address _ Ho)), (bool_decide_eq_false_2 _ (ol_port _ Ho)).
Qed.

Lemma mapping_response_ok tx dest :
  on_observer o dest ->
  mapping_response (mkObservation tx dest dest true (response_attributes o nat dest dest)) dest = true.
Proof.
  intros Hd. unfold mapping_response, response_attributes.
  cbn [ob_Received ob_Attributes ob_RequestDestination ba_HasMapped ba_HasResponseOrigin ba_Mapped ba_ResponseOrigin].
  rewrite (nl_valid _ Hn), !bool_decide_eq_true_2 by done. done.
Qed.

Lemma advance_same tx transactions :
  usable transactions tx ->
  Advance (mkMachine DiscoveryAwaitSameAddressOtherPort A0 zero_attributes zero_attributes false false transactions)
    StepSameAddressOtherPort (observed o nat [e0] StepSameAddressOtherPort e1 tx)
  = Ok (mkMachine DiscoveryAwaitOtherAddress A0 A1 zero_attributes false false (transactions ++ [tx])).
Proof.
  intros [Hz Hin]. rewrite observed_plain by done. fold A1. unfold Advance.
  rewrite (same_response_received tx e1 e1 A1) by (auto using fine, e1_on).
  rewrite A0_other. change (mkAddressPort (ap_Address (ba_ResponseOrigin A0)) (ap_Port e3)) with e1.
  unfold A1 at 1. rewrite mapping_response_ok by apply e1_on.
  cbn [ob_TransactionID ob_RequestDestination ob_Attributes expected_step].
  by rewrite Hz, (fine _ e1_on), (bool_decide_eq_true_2 (StepSameAddressOtherPort = _)), (bool_decide_eq_false_2 _ Hin).
Qed.

Lemma advance_other tx transactions :
  usable transactions tx ->
  Advance (mkMachine DiscoveryAwaitOtherAddress A0 A1 zero_attributes false false transactions)
    StepOtherAddress (observed o nat [e0; e1] StepOtherAddress e2 tx)
  = Ok (mkMachine DiscoveryAwaitChangeIPPort A0 A1 A2 false false (transactions ++ [tx])).
Proof.
  intros [Hz Hin]. rewrite observed_plain by done. fold A2. unfold Advance.
  rewrite (same_response_received tx e2 e2 A2) by (auto using fine, e2_on).
  rewrite A0_other. change (mkAddressPort (ap_Address e3) (ap_Port (ba_ResponseOrigin A0))) with e2.
  unfold A2 at 1. rewrite mapping_response_ok by apply e2_on.
  cbn [ob_TransactionID ob_RequestDestination ob_Attributes expected_step].
  by rewrite Hz, (fine _ e2_on), (bool_decide_eq_true_2 (StepOtherAddress = _)), (bool_decide_eq_false_2 _ Hin).
Qed.

Lemma same_response_lost tx dest : same_response (mkObservation tx dest zero_endpoint false zero_attributes) = true.
Proof. unfold same_response. cbn [ob_Received ob_ResponseSource ob_Attributes]. by rewrite !bool_decide_eq_true_2. Qed.

Lemma advance_ip_port tx transactions :
  usable transactions tx ->
  Advance (mkMachine DiscoveryAwaitChangeIPPort A0 A1 A2 false false transactions)
    StepChangeIPPort (observed o nat [e0; e1; e2] StepChangeIPPort e0 tx)
  = Ok (mkMachine DiscoveryAwaitChangePort A0 A1 A2
          (bool_decide (discovered_filtering (nt_mapping nat) (nt_filtering nat) = FilteringEIF)) false (transactions ++ [tx])).
Proof.
  intros [Hz Hin]. unfold observed. change (expectedRFC5780Change StepChangeIPPort) with (mkChange true true).
  rewrite source_ip_port, passes_ip_port. unfold Advance.
  destruct (bool_decide (discovered_filtering _ _ = FilteringEIF)).
  - rewrite same_response_received by (auto using fine, e3_on). rewrite A0_other.
    cbn [ob_TransactionID ob_RequestDestination ob_Attributes ob_Received expected_step response_attributes
      ba_HasResponseOrigin ba_ResponseOrigin]. change (ba_ResponseOrigin A0) with e0.
    by rewrite Hz, (fine _ e0_on), (bool_decide_eq_true_2 (StepChangeIPPort = _)), (bool_decide_eq_false_2 _ Hin),
      (bool_decide_eq_true_2 (e0 = e0)), (bool_decide_eq_true_2 (e3 = e3)).
  - rewrite same_response_lost. cbn [ob_TransactionID ob_RequestDestination ob_Attributes ob_Received expected_step].
    change (ba_ResponseOrigin A0) with e0.
    by rewrite Hz, (fine _ e0_on), (bool_decide_eq_true_2 (StepChangeIPPort = _)), (bool_decide_eq_false_2 _ Hin),
      (bool_decide_eq_true_2 (e0 = e0)).
Qed.

Lemma advance_port tx transactions ipPort :
  usable transactions tx ->
  Advance (mkMachine DiscoveryAwaitChangePort A0 A1 A2 ipPort false transactions)
    StepChangePort (observed o nat [e0; e1; e2; e0] StepChangePort e0 tx)
  = Ok (mkMachine DiscoveryComplete A0 A1 A2 ipPort
          (negb (bool_decide (discovered_filtering (nt_mapping nat) (nt_filtering nat) = FilteringAPDF))) (transactions ++ [tx])).
Proof.
  intros [Hz Hin]. unfold observed. change (expectedRFC5780Change StepChangePort) with (mkChange false true).
  rewrite source_port, passes_port. unfold Advance.
  destruct (bool_decide (discovered_filtering _ _ = FilteringAPDF)); cbn [negb].
  - rewrite same_response_lost. cbn [ob_TransactionID ob_RequestDestination ob_Attributes ob_Received expected_step].
    change (ba_ResponseOrigin A0) with e0.
    by rewrite Hz, (fine _ e0_on), (bool_decide_eq_true_2 (StepChangePort = _)), (bool_decide_eq_false_2 _ Hin),
      (bool_decide_eq_true_2 (e0 = e0)).
  - rewrite same_response_received by (auto using fine, e1_on). rewrite A0_other.
    cbn [ob_TransactionID ob_RequestDestination ob_Attributes ob_Received expected_step response_attributes
      ba_HasResponseOrigin ba_ResponseOrigin]. change (ba_ResponseOrigin A0) with e0.
    change (mkAddressPort (ap_Address e0) (ap_Port e3)) with e1.
    by rewrite Hz, (fine _ e0_on), (bool_decide_eq_true_2 (StepChangePort = _)), (bool_decide_eq_false_2 _ Hin),
      (bool_decide_eq_true_2 (e0 = e0)), (bool_decide_eq_true_2 (e1 = e1)).
Qed.

Lemma same_decides d d' : bool_decide (nt_map nat d = nt_map nat d') = same_mapping (nt_mapping nat) d d'.
Proof.
  destruct (same_mapping _ _ _) eqn:E; [apply bool_decide_eq_true_2|apply bool_decide_eq_false_2];
    rewrite (nl_same _ Hn), E; done.
Qed.

Lemma result_complete transactions :
  Result (mkMachine DiscoveryComplete A0 A1 A2
    (bool_decide (discovered_filtering (nt_mapping nat) (nt_filtering nat) = FilteringEIF))
    (negb (bool_decide (discovered_filtering (nt_mapping nat) (nt_filtering nat) = FilteringAPDF))) transactions)
  = Ok (nt_mapping nat, discovered_filtering (nt_mapping nat) (nt_filtering nat)).
Proof.
  unfold Result. cbn [rm_state rm_primary rm_sameAddress rm_otherAddress rm_changeIPPort rm_changePort].
  change (ba_Mapped A0) with (nt_map nat e0). change (ba_Mapped A1) with (nt_map nat e1).
  change (ba_Mapped A2) with (nt_map nat e2). destruct address_tests as (T1 & T2 & T3).
  rewrite !same_decides. unfold same_mapping. rewrite T1, T2, (bool_decide_eq_false_2 _ e0_ne_e1), (bool_decide_eq_false_2 _ e0_ne_e2),
    (bool_decide_eq_false_2 _ T3), (bool_decide_eq_true_2 (_ e0 = _ e0)) by done.
  unfold discovered_filtering.
  destruct mapping_cases as [->|[->| ->]], filtering_cases as [->|[->| ->]]; name_tests; done.
Qed.
End run.

Definition transactions_typed (txs : list (list Z)) : Prop :=
  length txs = 5%nat /\ NoDup txs /\ Forall (fun tx => transaction_typed tx /\ allZero tx = false) txs.
Definition times_typed (times : list Z) : Prop := length times = 5%nat /\ Forall (fun t => 0 < t) times.

(** C33: discovery against every reference NAT, through the wire format: the
    mapping behavior and, for an endpoint-independent one, its public endpoint
    are found exactly.  The filtering behavior is found exactly behind an
    address-and-port-dependent mapping only; behind the other two the mapping
    steps, sent from the same socket, open the filter that the last steps
    probe, and a stricter filter is reported as a weaker one. *)
Theorem discovery_of_reference_nat o nat slot txs times :
  observer_laws o -> nat_laws nat -> transactions_typed txs -> times_typed times ->
  deriveRFC5780Transcript (nat_transcript o nat slot txs times)
  = Ok (mkDerived (nt_mapping nat) (discovered_filtering (nt_mapping nat) (nt_filtering nat))
          (if bool_decide (nt_mapping nat = MappingEIM) then nt_map nat (ov_primary o) else zero_endpoint)).
Proof.
  intros Ho Hn (Hl & Hnd & Htx) (Hlt & Ht).
  destruct txs as [|t0 [|t1 [|t2 [|t3 [|t4 [|]]]]]]; try discriminate Hl.
  destruct times as [|m0 [|m1 [|m2 [|m3 [|m4 [|]]]]]]; try discriminate Hlt.
  rewrite !Forall_cons in Htx. rewrite !Forall_cons in Ht. destruct Htx as ([T0 Z0] & [T1 Z1] & [T2 Z2] & [T3 Z3] & [T4 Z4] & _).
  destruct Ht as (M0 & M1 & M2 & M3 & M4 & _). rewrite !NoDup_cons in Hnd. destruct Hnd as (N0 & N1 & N2 & N3 & _ & _).
  unfold deriveRFC5780Transcript, nat_transcript. cbn [ts_Exchanges orderedRFC5780Steps imap destinations nth take compose].
  cbn [derive_loop orderedRFC5780Steps].
  rewrite (exchange_observed o Ho) by (auto using e0_on). cbn [res_bind].
  rewrite (advance_primary o Ho nat Hn) by (split; [done|set_solver]). cbn [res_bind].
  rewrite (exchange_observed o Ho) by (auto using e1_on). cbn [res_bind].
  rewrite (advance_same o Ho nat Hn) by (split; [done|set_solver]). cbn [res_bind app].
  rewrite (exchange_observed o Ho) by (auto using e2_on). cbn [res_bind].
  rewrite (advance_other o Ho nat Hn) by (split; [done|set_solver]). cbn [res_bind app].
  rewrite (exchange_observed o Ho) by (auto using e0_on). cbn [res_bind].
  rewrite (advance_ip_port o Ho nat Hn) by (split; [done|set_solver]). cbn [res_bind app].
  rewrite (exchange_observed o Ho) by (auto using e0_on). cbn [res_bind].
  rewrite (advance_port o Ho nat Hn) by (split; [done|set_solver]). cbn [res_bind app].
  by rewrite (result_complete o Ho nat Hn).
Qed.
