(* ===== verification/HardNatAttempt.v ===== *)
(** * Hard-NAT planning: from evidence to a plan

    A commitment that one end builds from its evidence passes the validation of
    both ends, and two such commitments have a plan that both accept. *)
From stdpp Require Import sorting.
From S2P Require Import Prelude GoStd LivenessWire HardNatArith HardNatTypes HardNatStun HardNatEvidence HardNatPlan HardNatCandidates HardNatBilateral HardNatPlanThms HardNatEvidenceThms.
Open Scope go_scope.

(** ** What the samples of a model come from *)
Definition port_typed (s : AllocationSample) : Prop := 0 <= as_MappedPort s < 2 ^ 16.
Definition usable_sample (s : AllocationSample) : Prop := 1 <= as_MappedPort s <= 65535.

(** The ranges of the Go types that matter here: ports and slots are [uint16]. *)
Definition typed_evidence (g : EvidenceGraph) : Prop :=
  Forall port_typed (eg_Allocation g) /\ Forall (fun t => 0 <= ts_SocketSlot t < 2 ^ 16) (eg_RFC5780 g).

(** The discovery ran on the first [n] sockets. *)
Definition observed_on (n : Z) (g : EvidenceGraph) : Prop := Forall (fun t => ts_SocketSlot t < n) (eg_RFC5780 g).

Lemma accept_transcripts_sub manifest g transcripts seen accepted seen' :
  accept_transcripts manifest g transcripts seen = Ok (accepted, seen') -> map fst accepted ⊆ transcripts.
Proof.
  revert seen accepted. induction transcripts as [|t rest IH]; intros seen accepted E; cbn [accept_transcripts] in E.
  { by injection E as <- <-. }
  destruct (bool_decide (ts_Origin t = OriginRemoteReport)); [apply IH in E; set_solver|].
  destruct (negb _); [done|]. apply res_bind_Ok in E as (d & _ & E).
  apply res_bind_Ok in E as ([dups seen1] & _ & E). destruct (_ && _); [done|].
  apply res_bind_Ok in E as ([acc seen2] & Hrest & E). injection E as <- <-.
  apply IH in Hrest. destruct (_ =? _); cbn [map fst]; set_solver.
Qed.

Lemma normalize_sub {H : Sha256} g t normalized digest :
  normalizeEvidence g t = Ok (normalized, digest) ->
  eg_Allocation normalized ⊆ eg_Allocation g /\ eg_RFC5780 normalized ⊆ eg_RFC5780 g.
Proof.
  unfold normalizeEvidence. destruct (validateTrustedHeader g t); [done|].
  destruct (DigestValidationContext t); [|done]. destruct (build_manifest _ _ _) as [manifest|]; [|done].
  destruct (_ =? 0); [done|]. destruct (normalize_entries manifest g) as [[n seen]|] eqn:E; [|done].
  destruct (negb _); [done|]. intros Eq. injection Eq as <- _. unfold normalize_entries in E.
  do 3 apply res_bind_Ok in E as ([? ?] & _ & E). apply res_bind_Ok in E as ([allocation ?] & H4 & E).
  apply res_bind_Ok in E as ([transcripts ?] & H5 & E). injection E as <- _. cbn [eg_Allocation eg_RFC5780].
  split; [by apply accept_entries_spec in H4 as (_ & ? & _)|by eapply accept_transcripts_sub].
Qed.

Lemma index_samples_sub entries byOrdinal byOrdinal' k s :
  index_samples entries byOrdinal = Some byOrdinal' -> byOrdinal' !! k = Some s ->
  byOrdinal !! k = Some s \/ s ∈ entries.
Proof.
  revert byOrdinal. induction entries as [|e rest IH]; intros byOrdinal E Hk; cbn [index_samples] in E.
  { injection E as <-. by left. }
  destruct (bool_decide _); [done|]. destruct (IH _ E Hk) as [Hi|Hi]; [|set_solver].
  apply lookup_insert_Some in Hi as [[_ <-]|[_ Hi]]; [right; set_solver|by left].
Qed.

Lemma suffix_loop_sub fuel byOrdinal ordinal s :
  s ∈ suffix_loop fuel byOrdinal ordinal -> as_MappedPort s <> 0 /\ exists k, byOrdinal !! k = Some s.
Proof.
  revert ordinal. induction fuel as [|fuel IH]; intros ordinal; cbn [suffix_loop]; [by intros ?%elem_of_nil|].
  destruct (byOrdinal !! ordinal) as [e|] eqn:He; [|by intros ?%elem_of_nil].
  destruct (_ || _) eqn:Hb; [by intros ?%elem_of_nil|]. apply orb_false_iff in Hb as [_ Hp%Z.eqb_neq].
  intros [->|Hs]%elem_of_cons; [eauto|]. destruct (ordinal =? 0); [by apply elem_of_nil in Hs|eauto].
Qed.

Lemma suffix_samples entries samples failed :
  Forall port_typed entries -> continuousSuccessfulAllocationSuffix entries = Ok (samples, failed) ->
  Forall usable_sample samples /\ MinSuccessfulAllocationSamples <= Z.of_nat (length samples).
Proof.
  intros Ht. unfold continuousSuccessfulAllocationSuffix.
  destruct (index_samples entries ∅) as [byOrdinal|] eqn:Hi; [|done].
  destruct (bool_decide _); [done|]. destruct (Z.ltb_spec (Z.of_nat (length
    (rev (suffix_loop (S (length entries)) byOrdinal (maximum_ordinal entries))))) MinSuccessfulAllocationSamples) as [|Hl];
    [done|]. destruct (negb _); [done|]. intros E. injection E as <- _. split; [|done].
  apply Forall_forall. intros s Hs. rewrite list_elem_of_In, <-in_rev, <-list_elem_of_In in Hs.
  apply (suffix_loop_sub (S (length entries))) in Hs as (Hp & k & Hk). destruct (index_samples_sub _ _ _ _ _ Hi Hk) as [He|He];
    [by rewrite lookup_empty in He|]. rewrite Forall_forall in Ht. specialize (Ht s He).
  unfold usable_sample, port_typed in *. lia.
Qed.

(** ** The predicted ports *)
Lemma forwardPortDelta_range previous next :
  1 <= previous <= 65535 -> 1 <= next <= 65535 -> 1 <= forwardPortDelta previous next <= 65535.
Proof.
  intros Hp Hn. unfold forwardPortDelta, wrap. destruct (Z.ltb_spec previous next); [lia|].
  rewrite Z.mod_small; lia.
Qed.

Lemma port_deltas_range samples :
  Forall usable_sample samples -> Forall (fun d => 1 <= d <= 65535) (port_deltas samples).
Proof.
  intros Hs. induction Hs as [|a rest Ha Hs IH]; [constructor|]. destruct rest as [|b rest]; [constructor|].
  cbn [port_deltas]. apply Forall_cons in Hs as [Hb _]. constructor; [by apply forwardPortDelta_range|done].
Qed.

Lemma port_deltas_length samples : length (port_deltas samples) = (length samples - 1)%nat.
Proof.
  induction samples as [|a rest IH]; [done|]. destruct rest as [|b rest]; [done|]. cbn [port_deltas length] in *. lia.
Qed.

Lemma foldr_max_bound deltas d : d ∈ deltas -> d <= foldr Z.max 0 deltas.
Proof.
  induction deltas as [|x rest IH]; [by intros ?%elem_of_nil|]. cbn. intros [->|Hd]%elem_of_cons; [lia|].
  specialize (IH Hd). lia.
Qed.

(** The step of a predictable allocation is one of the deltas. *)
Lemma predictable_step samples :
  Forall usable_sample samples -> MinSuccessfulAllocationSamples <= Z.of_nat (length samples) ->
  cl_behavior (classifyAllocation samples) = AllocationSequentialUniform
    \/ cl_behavior (classifyAllocation samples) = AllocationMonotonicNonuniform ->
  1 <= cl_step (classifyAllocation samples) <= MaxMonotonicDelta.
Proof.
  intros Hs Hl Hb. unfold classifyAllocation in *. rewrite (proj2 (Z.ltb_ge _ _)) in * by done.
  cbn [cl_behavior cl_step] in *.
  assert (Hmax : foldr Z.max 0 (port_deltas samples) <= MaxMonotonicDelta).
  { destruct ((foldr Z.min 65535 (port_deltas samples) =? foldr Z.max 0 (port_deltas samples)) &&
      (foldr Z.max 0 (port_deltas samples) <=? MaxMonotonicDelta)) eqn:E1; [lia|].
    destruct ((foldr Z.max 0 (port_deltas samples) <=? MaxMonotonicDelta) && _) eqn:E2; [lia|].
    by destruct Hb. }
  set (sorted := merge_sort Z.le (port_deltas samples)).
  assert (Hp : sorted ≡ₚ port_deltas samples) by apply merge_sort_Permutation.
  pose proof (Permutation_length Hp) as Hlen. pose proof (port_deltas_length samples) as Hdl.
  unfold MinSuccessfulAllocationSamples in Hl.
  destruct (nth_lookup_or_length sorted (Z.to_nat (Z.of_nat (length (port_deltas samples)) / 2)) 0) as [Hn|Hn].
  - fold sorted. set (step := nth _ sorted 0) in *. apply list_elem_of_lookup_2 in Hn. rewrite Hp in Hn.
    pose proof (foldr_max_bound _ _ Hn). pose proof (port_deltas_range _ Hs) as Hr.
    rewrite Forall_forall in Hr. specialize (Hr _ Hn). lia.
  - pose proof (Z.div_lt_upper_bound (Z.of_nat (length (port_deltas samples))) 2 (Z.of_nat (length (port_deltas samples)))).
    lia.
Qed.

Lemma schedule_fine last step :
  1 <= last <= 65535 -> 1 <= step <= MaxMonotonicDelta ->
  let ports := predictiveSourceSchedule last step in
  length ports = 32%nat /\ NoDup ports /\ Forall (fun p => 1 <= p <= 65535) ports.
Proof.
  unfold MaxMonotonicDelta. intros Hl Hs. unfold predictiveSourceSchedule.
  rewrite !(proj2 (Z.eqb_neq _ _)) by lia. cbn [orb].
  assert (E : last = allocator (last - 1) step 0) by (unfold allocator; rewrite Z.mod_small; lia).
  rewrite E, predictive_loop_allocator by lia. change (Z.to_nat PredictiveWindowPorts) with 32%nat.
  replace (map _ (seq 0 32)) with (next_ports (last - 1) step 1)
    by (unfold next_ports; apply map_ext; intros k; f_equal; lia).
  split; [unfold next_ports; by rewrite length_map, length_seq|]. by apply next_ports_fine.
Qed.

Lemma last_usable samples : Forall usable_sample samples -> samples <> [] -> 1 <= last_port samples <= 65535.
Proof.
  intros Hs Hne. unfold last_port. destruct (last samples) as [s|] eqn:E; [|by apply last_None in E].
  apply last_Some_elem_of in E. rewrite Forall_forall in Hs. exact (Hs s E).
Qed.

(** ** The model *)
Lemma reusable_loop_slot (P : Z -> Prop) transcripts endpoint slot endpoint' slot' :
  Forall (fun t => P (ts_SocketSlot t)) transcripts -> P slot ->
  reusable_loop transcripts endpoint slot = Ok (endpoint', slot') -> P slot'.
Proof.
  intros Ht. revert endpoint slot. induction Ht as [|t rest Ht _ IH]; intros endpoint slot Hs E; cbn [reusable_loop] in E.
  { by injection E as <- <-. }
  apply res_bind_Ok in E as (d & _ & E).
  destruct (negb (bool_decide _)); [exact (IH _ _ Hs E)|]. destruct (negb (endpoint_Valid _)); [done|].
  destruct (_ && _); [done|]. exact (IH _ _ Ht E).
Qed.

(** The model of normalized evidence: its samples and its reusable endpoint. *)
Record inferred (n : EvidenceGraph) (m0 m : StateModel) (samples : list AllocationSample) : Prop := {
  if_samples : exists failed, continuousSuccessfulAllocationSuffix (eg_Allocation n) = Ok (samples, failed);
  if_slot : exists endpoint slot, reusableRFC5780Endpoint (eg_RFC5780 n) = Ok (endpoint, slot) /\
    (sm_ReusableEndpointSlot m = slot \/ sm_ReusableEndpointSlot m = sm_ReusableEndpointSlot m0);
  if_allocation : sm_Allocation m = cl_behavior (classifyAllocation samples);
  if_ports : sm_Allocation m = AllocationSequentialUniform \/ sm_Allocation m = AllocationMonotonicNonuniform ->
    sm_PredictedSourcePorts m = predictiveSourceSchedule (last_port samples) (cl_step (classifyAllocation samples));
  if_validation : sm_ValidationDigest m = sm_ValidationDigest m0;
  if_evidence : sm_EvidenceDigest m = sm_EvidenceDigest m0;
}.

Lemma infer_inferred n m0 m : infer_normalized n m0 = (m, None) -> exists samples, inferred n m0 m samples.
Proof.
  unfold infer_normalized. destruct (mergeMapping n) as [[mapping ms]|]; [|done].
  destruct (mergeFiltering n) as [[filtering fs]|]; [|done].
  destruct (reusableRFC5780Endpoint (eg_RFC5780 n)) as [[endpoint slot]|] eqn:Hr; [|done].
  destruct (continuousSuccessfulAllocationSuffix (eg_Allocation n)) as [[samples failed]|] eqn:Hs; [|done].
  destruct (observerCoverage samples) as [addresses alternate]. destruct (_ || _); [done|].
  destruct (negb (same_address samples)); [done|].
  destruct (endpoint_Valid endpoint && _); [done|]. destruct (mergeIPPooling n) as [[]|]; [|done..].
  intros E. injection E as <-. exists samples.
  set (m1 := if endpoint_Valid endpoint then _ else _). unfold classified.
  destruct (bool_decide (cl_behavior _ = AllocationSequentialUniform)) eqn:E1;
    [|destruct (bool_decide (cl_behavior _ = AllocationMonotonicNonuniform)) eqn:E2]; cbn [orb].
  3: apply bool_decide_eq_false in E1, E2.
  all: constructor; [by exists failed| | | | |]; cbn [set_coverage set_allocation set_stable sm_ReusableEndpointSlot
    sm_Allocation sm_PredictedSourcePorts sm_ValidationDigest sm_EvidenceDigest]; try done; try tauto;
    unfold m1; destruct (endpoint_Valid endpoint); try done; exists endpoint, slot; (split; [done|]);
    cbn [set_endpoint set_samples set_behaviors sm_ReusableEndpointSlot]; auto.
Qed.

Lemma infer_model {H : Sha256} g t m :
  typed_evidence g -> InferStateModel g t = (m, None) ->
  allZero (sm_ValidationDigest m) = false /\ 0 <= sm_ReusableEndpointSlot m /\
  (forall n, 0 < n -> observed_on n g -> sm_ReusableEndpointSlot m < n) /\
  (sm_Allocation m = AllocationSequentialUniform \/ sm_Allocation m = AllocationMonotonicNonuniform ->
     length (sm_PredictedSourcePorts m) = 32%nat /\ NoDup (sm_PredictedSourcePorts m) /\
     Forall (fun p => 1 <= p <= 65535) (sm_PredictedSourcePorts m)).
Proof.
  intros [Hports Hslots]. unfold InferStateModel.
  destruct (normalizeEvidence g t) as [[n d]|[]] eqn:Hn; [|done].
  destruct (digestValidatedEvidence n d) as [digest|] eqn:Hd; [|done].
  intros (samples & [[failed Hs] (endpoint & slot & Hr & Hslot) Ha Hp Hv _])%infer_inferred.
  apply normalize_sub in Hn as [Hsub1 Hsub2].
  assert (Hall : forall P : Z -> Prop, P 0 -> (forall x, x ∈ eg_RFC5780 g -> P (ts_SocketSlot x)) ->
    P (sm_ReusableEndpointSlot m)).
  { intros P H0 HP. assert (P slot) by
      (apply (reusable_loop_slot P (eg_RFC5780 n) zero_endpoint 0 endpoint slot); [|done|done];
       apply Forall_forall; intros x Hx; apply HP; by apply Hsub2).
    cbn in Hslot. by destruct Hslot as [->| ->]. }
  split_and!.
  - rewrite Hv. cbn. unfold digestValidatedEvidence in Hd. by destruct (allZero d).
  - rewrite Forall_forall in Hslots. apply (Hall (fun z => 0 <= z)); [lia|]. intros x Hx. apply Hslots in Hx. lia.
  - intros k Hk Ho. unfold observed_on in Ho. rewrite Forall_forall in Ho. by apply (Hall (fun z => z < k)).
  - intros Hb. rewrite (Hp Hb). rewrite Ha in Hb.
    destruct (suffix_samples (eg_Allocation n) samples failed) as [Hu Hl]; [|done|].
    { rewrite Forall_forall in Hports |- *. intros x Hx. apply Hports. by apply Hsub1. }
    apply schedule_fine; [|by apply predictable_step].
    apply last_usable; [done|]. intros ->. cbn in Hl. unfold MinSuccessfulAllocationSamples in Hl. lia.
Qed.

(** ** The slots *)
Lemma predictive_slots_ok role rp sockets index ports seen :
  NoDup ports -> Forall (fun p => 1 <= p <= 65535) ports -> (forall p, p ∈ ports -> p ∉ seen) ->
  slots_ok ResourcePredictive role rp sockets index
    (imap (fun k port => mkSlot ((index + Z.of_nat k) mod 8) (index + Z.of_nat k) port) ports) seen = true.
Proof.
  intros Hnd. revert index seen. induction Hnd as [|p rest Hp Hnd IH]; intros index seen Hr Hs; [done|].
  apply Forall_cons in Hr as [Hp1 Hr]. cbn [imap slots_ok sl_Ordinal sl_SocketSlot sl_ExpectedPublicSourcePort].
  rewrite Z.add_0_r, !Z.eqb_refl. cbn [negb orb]. name_tests. rewrite (proj2 (Z.eqb_neq p 0)) by lia.
  rewrite bool_decide_eq_false_2 by (apply Hs; set_solver). cbn [orb].
  rewrite <-(IH (index + 1) ({[p]} ∪ seen)) by set_solver. f_equal. apply imap_ext. intros k x _.
  cbn. by replace (index + Z.of_nat (S k)) with (index + 1 + Z.of_nat k) by lia.
Qed.

Lemma plain_slots_ok resource role rp sockets n :
  resource <> ResourcePredictive -> (resource = ResourceAsymmetric -> role = RoleMappingSet) ->
  slots_ok resource role rp sockets 0 (plain_slots n) ∅ = true.
Proof.
  intros Hne Hrole. assert (Hgen : forall k index, slots_ok resource role rp sockets (Z.of_nat index)
    (map (fun i => mkSlot (Z.of_nat i) (Z.of_nat i) 0) (seq index k)) ∅ = true); [|apply (Hgen n 0%nat)].
  induction k as [|k IH]; intros index; [done|].
  cbn [seq map slots_ok sl_Ordinal sl_SocketSlot sl_ExpectedPublicSourcePort].
  rewrite !Z.eqb_refl, (bool_decide_eq_false_2 (resource = ResourcePredictive)) by done. cbn [negb orb andb].
  specialize (IH (S index)). replace (Z.of_nat index + 1) with (Z.of_nat (S index)) by lia. rewrite IH.
  destruct (decide (resource = ResourceAsymmetric)) as [E|E]; [rewrite (Hrole E)|by rewrite bool_decide_eq_false_2].
  rewrite (bool_decide_eq_true_2 _ E). by name_tests.
Qed.

(** ** A commitment that was built *)
Record local_built {H : Sha256} (input : LocalCommitmentInput) (c : LocalSourceCommitment) (m : StateModel)
    (shape : planShape) (report : ProbabilityReport) (slots : list SourceSlot) (endpoint : AddressPort) : Prop := {
  lb_infer : InferStateModel (li_Evidence input) (li_Validation input) = (m, None);
  lb_role : validateRole (li_Profile input) (ac_Role (li_Context input)) = None;
  lb_model : validateModelForProfile (li_Profile input) (ac_Role (li_Context input)) m = None;
  lb_endpoint : endpoint = if receives (li_Profile input) (ac_Role (li_Context input))
                           then sm_ReusableEndpoint m else zero_endpoint;
  lb_receive : validateReceiveEndpoint (li_Profile input) (ac_Role (li_Context input)) endpoint = None;
  lb_shape : shapeFor (li_Profile input) (li_ResourceClass input) (ac_Role (li_Context input))
               (Z.of_nat (length (sm_PredictedSourcePorts m))) = Ok shape;
  lb_report : probabilityFor (li_ResourceClass input) (Z.of_nat (length (sm_PredictedSourcePorts m))) (sm_Coverage m)
                shape = Ok report;
  lb_admitted : probabilityAdmitted (li_ResourceClass input) report = true;
  lb_slots : sourceSlotsFor (li_ResourceClass input) (ac_Role (li_Context input)) (sm_PredictedSourcePorts m)
               (sm_ReusableEndpointSlot m) endpoint = Ok slots;
  lb_commitment : c = with_source_digest
    (mkCommitment (li_Profile input) (li_ResourceClass input) (ac_Role (li_Context input))
       (ac_AttemptDigest (li_Context input)) (ac_Generation (li_Context input)) slots endpoint (sh_universe shape)
       (sh_cost shape) report (sm_EvidenceDigest m) (sm_ValidationDigest m)
       (digestCost (li_Profile input) (li_ResourceClass input) (sh_cost shape)) zero_digest (sh_executable shape));
  lb_generation : ac_Generation (li_Context input) <> 0;
  lb_attempt : allZero (ac_AttemptDigest (li_Context input)) = false;
}.

Lemma build_local_inv {H : Sha256} input c :
  BuildLocalCommitment input = Ok c -> exists m shape report slots endpoint, local_built input c m shape report slots endpoint.
Proof.
  destruct input as [profile resource context g t budget]. unfold BuildLocalCommitment.
  match goal with |- (if ?b then _ else _) = _ -> _ => destruct b eqn:Hb; [done|] end.
  do 2 apply orb_false_iff in Hb as [Hb _]. apply orb_false_iff in Hb as [Hg%Z.eqb_neq Ha].
  destruct (validateRole profile (ac_Role context)) eqn:Hr; [done|]. cbn [guard_err].
  destruct (InferStateModel g t) as [m [e|]] eqn:Hi; [done|]. cbn [guard_err].
  destruct (validateModelForProfile profile (ac_Role context) m) eqn:Hm; [done|]. cbn [guard_err].
  set (endpoint := if receives _ _ then _ else _).
  destruct (validateReceiveEndpoint profile (ac_Role context) endpoint) eqn:He; [done|]. cbn [guard_err].
  intros (shape & Hs & E)%res_bind_Ok. apply res_bind_Ok in E as (report & Hp & E).
  destruct (probabilityAdmitted resource report) eqn:Hadm; [|done].
  destruct (admits budget (sh_cost shape)); [|done]. cbn [negb orb] in E.
  apply res_bind_Ok in E as (slots & Hsl & E). injection E as <-.
  exists m, shape, report, slots, endpoint. by constructor.
Qed.

Lemma probabilityFor_predicted resource predicted predicted' coverage shape :
  resource <> ResourcePredictive ->
  probabilityFor resource predicted coverage shape = probabilityFor resource predicted' coverage shape.
Proof. intros Hne. unfold probabilityFor. by rewrite (bool_decide_eq_false_2 (resource = ResourcePredictive)). Qed.

Section built.
Context {H : Sha256} (input : LocalCommitmentInput) (c : LocalSourceCommitment) (m : StateModel) (shape : planShape).
Context (report : ProbabilityReport) (slots : list SourceSlot) (endpoint : AddressPort).
Context (Hb : local_built input c m shape report slots endpoint).

Lemma built_case :
  shape_case (ac_Role (li_Context input)) (Z.of_nat (length (sm_PredictedSourcePorts m))) (li_Profile input)
    (li_ResourceClass input) shape.
Proof. apply shapeFor_cases, Hb. Qed.

(** Shape and probability depend on the number of predicted ports only where it
    is the number of slots. *)
Lemma built_predicted :
  shapeFor (li_Profile input) (li_ResourceClass input) (ac_Role (li_Context input)) (commitment_predicted c) = Ok shape /\
  probabilityFor (li_ResourceClass input) (commitment_predicted c) (sm_Coverage m) shape = Ok report.
Proof.
  pose proof built_case as Hcase. pose proof (lb_report _ _ _ _ _ _ _ Hb) as Hr. pose proof (lb_slots _ _ _ _ _ _ _ Hb) as Hs.
  rewrite (lb_commitment _ _ _ _ _ _ _ Hb). unfold commitment_predicted. cbn [with_source_digest lc_ResourceClass lc_SourceSlots].
  rewrite shapeFor_cases. destruct (decide (li_ResourceClass input = ResourcePredictive)) as [E|E].
  - rewrite (bool_decide_eq_true_2 _ E). rewrite E in Hs. unfold sourceSlotsFor in Hs. name_tests.
    destruct (existsb _ _); [done|]. injection Hs as <-. rewrite length_imap. by split.
  - rewrite (bool_decide_eq_false_2 _ E). rewrite <-Hr.
    split; [|by apply probabilityFor_predicted]. inversion Hcase; constructor || congruence.
Qed.

(** Every slot names one of the sockets that the cost reserves. *)
Definition slots_reserved : Prop := Forall (fun s => 0 <= sl_SocketSlot s < ct_Sockets (sh_cost shape)) slots.

Lemma built_slots : typed_evidence (li_Evidence input) -> validateSourceSlots c = None <-> slots_reserved.
Proof.
  intros Ht. destruct (infer_model _ _ _ Ht (lb_infer _ _ _ _ _ _ _ Hb)) as (_ & Hslot & _ & Hports).
  assert (Hplain : forall n, Forall (fun s => 0 <= sl_SocketSlot s < Z.of_nat n) (plain_slots n)).
  { intros n. apply Forall_map, Forall_forall. intros k Hk%elem_of_seq. cbn. lia. }
  assert (Hboth : forall A B : Prop, A -> B -> A <-> B) by tauto. unfold slots_reserved.
  pose proof built_case as Hcase. pose proof (lb_slots _ _ _ _ _ _ _ Hb) as Hs.
  pose proof (lb_model _ _ _ _ _ _ _ Hb) as Hm. pose proof (lb_role _ _ _ _ _ _ _ Hb) as Hrole.
  rewrite (lb_commitment _ _ _ _ _ _ _ Hb). unfold validateSourceSlots.
  cbn [with_source_digest lc_ResourceClass lc_Role lc_SourceSlots lc_ReceiveEndpoint lc_Cost].
  inversion Hcase as [HP HR HS|HP HR HS|HP HR HS|HP HR HS]; rewrite <-HR in Hs; rewrite <-HP in Hm, Hrole;
    unfold sourceSlotsFor in Hs; unfold wanted_slots; name_tests.
  - unfold validateModelForProfile in Hm. name_tests. destruct (_ || _ || _ || _); [done|].
    destruct (_ || _ || _) eqn:Hb1 in Hm; [done|].
    destruct Hports as (Hl & Hnd & Hr).
    { apply orb_false_iff in Hb1 as [[_ Hb1]%orb_false_iff _].
      destruct (bool_decide (sm_Allocation m = AllocationSequentialUniform)) eqn:E1;
        [left; by apply bool_decide_eq_true in E1|right].
      destruct (bool_decide (sm_Allocation m = AllocationMonotonicNonuniform)) eqn:E2; [|done].
      by apply bool_decide_eq_true in E2. }
    destruct (existsb _ _); [done|]. injection Hs as <-. apply Hboth.
    + rewrite length_imap, Hl. cbn [negb Z.eqb]. change (Z.of_nat 32 =? PredictiveWindowPorts) with true. cbn [negb].
      by rewrite (predictive_slots_ok _ _ _ 0) by (done || set_solver).
    + apply Forall_lookup. intros k s (p & _ & ->)%imap_lookup_Some. apply Z.mod_pos_bound. reflexivity.
  - destruct (decide (ac_Role (li_Context input) = RoleMappingSet)) as [E|E].
    + rewrite E in Hs |- *. name_tests. injection Hs as <-. change (Z.of_nat (length (plain_slots 128)) =? 128) with true.
      cbn [negb]. rewrite plain_slots_ok by done. apply Hboth; [done|exact (Hplain 128%nat)].
    + unfold validateRole, profile_roles in Hrole. name_tests. rewrite (bool_decide_eq_false_2 _ E) in Hrole, Hs.
      destruct (bool_decide (ac_Role (li_Context input) = RoleTargetSet)) eqn:E2; [|done].
      destruct (endpoint_Valid endpoint); [|done]. injection Hs as <-. cbn [length]. change (Z.of_nat 1 =? 1) with true.
      cbn [negb slots_ok sl_Ordinal sl_SocketSlot sl_ExpectedPublicSourcePort]. name_tests.
      rewrite (bool_decide_eq_false_2 _ E), E2, Z.eqb_refl. cbn [negb orb andb Z.eqb].
      change (ct_Sockets _) with 128. rewrite Z.eqb_refl, Forall_singleton. cbn [sl_SocketSlot].
      destruct (Z.leb_spec 128 (sm_ReusableEndpointSlot m)); cbn; split; [done|lia|lia|done].
  - injection Hs as <-. change (Z.of_nat (length (plain_slots 16)) =? 16) with true. cbn [negb].
    rewrite plain_slots_ok by done. apply Hboth; [done|exact (Hplain 16%nat)].
  - injection Hs as <-. change (Z.of_nat (length (plain_slots 32)) =? 32) with true. cbn [negb].
    rewrite plain_slots_ok by done. apply Hboth; [done|exact (Hplain 32%nat)].
Qed.

(** All roles but one number their own sockets; the target set takes over the
    socket of its discovery. *)
Lemma built_sockets :
  typed_evidence (li_Evidence input) ->
  ac_Role (li_Context input) <> RoleTargetSet \/ observed_on (ct_Sockets (sh_cost shape)) (li_Evidence input) ->
  slots_reserved.
Proof.
  intros Ht Hor. destruct (infer_model _ _ _ Ht (lb_infer _ _ _ _ _ _ _ Hb)) as (_ & H0 & Hslot & _).
  assert (Hplain : forall n, Forall (fun s => 0 <= sl_SocketSlot s < Z.of_nat n) (plain_slots n)).
  { intros n. apply Forall_map, Forall_forall. intros k Hk%elem_of_seq. cbn. lia. }
  pose proof built_case as Hcase. pose proof (lb_slots _ _ _ _ _ _ _ Hb) as Hs.
  pose proof (lb_role _ _ _ _ _ _ _ Hb) as Hrole. unfold slots_reserved.
  inversion Hcase as [HP HR HS|HP HR HS|HP HR HS|HP HR HS]; rewrite <-HR in Hs; rewrite <-HP in Hrole;
    unfold sourceSlotsFor in Hs; name_tests.
  - destruct (existsb _ _); [done|]. injection Hs as <-. apply Forall_lookup.
    intros k s (p & _ & ->)%imap_lookup_Some. apply Z.mod_pos_bound. reflexivity.
  - destruct (bool_decide (_ = RoleMappingSet)) eqn:E1; [injection Hs as <-; exact (Hplain 128%nat)|].
    unfold validateRole, profile_roles in Hrole. name_tests. rewrite E1 in Hrole.
    destruct (bool_decide (_ = RoleTargetSet)) eqn:E2; [|done]. apply bool_decide_eq_true in E2.
    destruct (_ && _); [|done]. injection Hs as <-. constructor; [|constructor]. split; [exact H0|].
    destruct Hor as [?|Ho]; [done|]. rewrite <-HS in Ho. by apply Hslot.
  - injection Hs as <-. exact (Hplain 16%nat).
  - injection Hs as <-. exact (Hplain 32%nat).
Qed.
End built.

(** What one end builds, both ends accept exactly when its slots are reserved. *)
Lemma built_valid {H : Sha256} input c :
  typed_evidence (li_Evidence input) -> BuildLocalCommitment input = Ok c ->
  validateLocalCommitment c = None <->
  allZero (lc_EvidenceDigest c) = false /\
  Forall (fun s => 0 <= sl_SocketSlot s < ct_Sockets (lc_Cost c)) (lc_SourceSlots c).
Proof.
  intros Ht (m & shape & report & slots & endpoint & Hb)%build_local_inv. rewrite validate_committed.
  pose proof (built_slots _ _ _ _ _ _ _ Hb Ht) as Hslots. unfold slots_reserved in Hslots. split.
  { intros [shape' Hc]. split; [apply (cm_evidence _ _ Hc)|]. pose proof (cm_slots _ _ Hc) as Hv.
    rewrite Hslots in Hv. by rewrite (lb_commitment _ _ _ _ _ _ _ Hb). }
  intros [He Hfor]. exists shape.
  assert (Hv : validateSourceSlots c = None).
  { apply Hslots. by rewrite (lb_commitment _ _ _ _ _ _ _ Hb) in Hfor. }
  destruct (built_predicted _ _ _ _ _ _ _ Hb) as [Hshape Hrep].
  pose proof (infer_model _ _ _ Ht (lb_infer _ _ _ _ _ _ _ Hb)) as (Hval & _).
  pose proof (probabilityFor_coverage _ _ _ _ _ Hrep) as Hcov.
  pose proof (lb_commitment _ _ _ _ _ _ _ Hb) as Hc. destruct c as [c1 c2 c3 c4 c5 c6 c7 c8 c9 c10 c11 c12 c13 c14 c15].
  injection Hc as -> -> -> -> -> -> -> -> -> -> -> -> -> Hsd ->.
  constructor; unfold shapeForCommitment, probabilityForCommitment; cbn [lc_Profile lc_Role lc_ReceiveEndpoint
    lc_ResourceClass lc_Probability lc_Cost lc_Universe lc_Executable lc_CostDigest lc_EvidenceDigest lc_ValidationDigest
    lc_SourceDigest].
  - apply Hb.
  - apply Hb.
  - exact Hshape.
  - rewrite Hcov. exact Hrep.
  - reflexivity.
  - reflexivity.
  - reflexivity.
  - reflexivity.
  - exact He.
  - exact Hval.
  - exact Hsd.
  - apply Hb.
  - exact Hv.
Qed.

Lemma built_reserved {H : Sha256} input c :
  typed_evidence (li_Evidence input) -> BuildLocalCommitment input = Ok c ->
  lc_Role c <> RoleTargetSet \/ observed_on (ct_Sockets (lc_Cost c)) (li_Evidence input) ->
  Forall (fun s => 0 <= sl_SocketSlot s < ct_Sockets (lc_Cost c)) (lc_SourceSlots c).
Proof.
  intros Ht (m & shape & report & slots & endpoint & Hb)%build_local_inv.
  rewrite (lb_commitment _ _ _ _ _ _ _ Hb). by apply (built_sockets _ _ _ _ _ _ _ Hb).
Qed.

(** C35: what one end builds from its evidence is well formed: the commitment
    passes [validateLocalCommitment], which the peer and the verifier of the plan
    run on it, exactly when its evidence digest is not zero and each of its slots
    names one of the sockets that its cost reserves.  The slots do so for every
    profile and role but the target set, and for the target set if the discovery
    ran on sockets that the cost reserves (the slots of the transcripts are below
    their number, which [BuildLocalCommitment] does not check). *)
Theorem built_commitment_well_formed {H : Sha256} input c :
  typed_evidence (li_Evidence input) -> BuildLocalCommitment input = Ok c ->
  (validateLocalCommitment c = None <->
     allZero (lc_EvidenceDigest c) = false /\
     Forall (fun s => 0 <= sl_SocketSlot s < ct_Sockets (lc_Cost c)) (lc_SourceSlots c)) /\
  (lc_Role c <> RoleTargetSet \/ observed_on (ct_Sockets (lc_Cost c)) (li_Evidence input) ->
     Forall (fun s => 0 <= sl_SocketSlot s < ct_Sockets (lc_Cost c)) (lc_SourceSlots c)).
Proof. intros Ht Hc. split; [by apply (built_valid input)|by apply built_reserved]. Qed.

(** The context of a commitment. *)
Lemma built_context {H : Sha256} input c :
  BuildLocalCommitment input = Ok c ->
  lc_Profile c = li_Profile input /\ lc_ResourceClass c = li_ResourceClass input /\
  lc_Role c = ac_Role (li_Context input) /\ lc_AttemptDigest c = ac_AttemptDigest (li_Context input) /\
  lc_Generation c = ac_Generation (li_Context input) /\ lc_Generation c <> 0 /\ allZero (lc_AttemptDigest c) = false.
Proof.
  intros (m & shape & report & slots & endpoint & Hb)%build_local_inv.
  rewrite (lb_commitment _ _ _ _ _ _ _ Hb). cbn. destruct Hb. tauto.
Qed.

(** C8: from evidence to an accepted plan: when the two ends build their
    commitments for the same profile, resource class, attempt and generation, in
    the two roles of the profile, the plan exists whichever end builds it, each
    role finds its direction in it, and (unless a digest of the plan is zero)
    both directions pass the verification that precedes any packet.  It is
    assumed that the evidence digests are not zero, that a target set discovered
    its endpoint on a socket its cost reserves, that both ends derive the same
    key from the two commitments and it is not zero, and that the keyed draws of
    the shuffles accept a value within the given number of attempts. *)
Theorem evidence_to_plan {H : Sha256} {M : Hmac} attempts left right c1 c2 derive key :
  typed_evidence (li_Evidence left) -> typed_evidence (li_Evidence right) ->
  BuildLocalCommitment left = Ok c1 -> BuildLocalCommitment right = Ok c2 ->
  lc_Role c1 <> RoleTargetSet \/ observed_on (ct_Sockets (lc_Cost c1)) (li_Evidence left) ->
  lc_Role c2 <> RoleTargetSet \/ observed_on (ct_Sockets (lc_Cost c2)) (li_Evidence right) ->
  allZero (lc_EvidenceDigest c1) = false -> allZero (lc_EvidenceDigest c2) = false ->
  li_Profile left = li_Profile right -> li_ResourceClass left = li_ResourceClass right ->
  ac_AttemptDigest (li_Context left) = ac_AttemptDigest (li_Context right) ->
  ac_Generation (li_Context left) = ac_Generation (li_Context right) ->
  profile_roles (li_Profile left) = Some (ac_Role (li_Context left), ac_Role (li_Context right)) ->
  derive (planner_key_context c1 c2) = Some key -> allZero key = false ->
  draws_succeed attempts key c1 -> draws_succeed attempts key c2 ->
  exists b, BuildBilateralPlan attempts c1 c2 (Some derive) = Some (Ok b) /\
    BuildBilateralPlan attempts c2 c1 (Some derive) = Some (Ok b) /\
    PlanForRole b (lc_Role c1) = Some (bp_First b) /\ PlanForRole b (lc_Role c2) = Some (bp_Second b) /\
    (digests_nonzero b = true ->
       VerifyPlanAgainstCommitment (bp_First b) c1 (Commitment b) = None /\
       VerifyPlanAgainstCommitment (bp_Second b) c2 (Commitment b) = None /\
       VerifyJointCommitment (Commitment b) (Commitment b) = None).
Proof.
  intros Ht1 Ht2 Hc1 Hc2 Ho1 Ho2 He1 He2 Hprof Hres Hatt Hgen Hroles Hkey Hz Hd1 Hd2.
  pose proof (proj2 (built_valid _ _ Ht1 Hc1) (conj He1 (built_reserved _ _ Ht1 Hc1 Ho1))) as Hv1.
  pose proof (proj2 (built_valid _ _ Ht2 Hc2) (conj He2 (built_reserved _ _ Ht2 Hc2 Ho2))) as Hv2.
  destruct (built_context _ _ Hc1) as (P1 & R1 & O1 & A1 & G1 & N1 & Z1).
  destruct (built_context _ _ Hc2) as (P2 & R2 & O2 & A2 & G2 & N2 & Z2).
  assert (Hcan : canonicalCommitments c1 c2 = Ok (c1, c2)).
  { unfold canonicalCommitments. rewrite (bool_decide_eq_true_2 (lc_Profile c1 = _)) by congruence.
    rewrite (bool_decide_eq_true_2 (lc_ResourceClass c1 = _)) by congruence.
    rewrite (bool_decide_eq_true_2 (lc_AttemptDigest c1 = _)) by congruence.
    replace (lc_Generation c2) with (lc_Generation c1) by congruence.
    rewrite Z.eqb_refl, Z1, (proj2 (Z.eqb_neq _ _) N1). cbn [negb orb].
    rewrite P1, Hroles, O1, O2. by rewrite !bool_decide_eq_true_2 by done. }
  destruct (bilateral_accepted attempts c1 c2 c1 c2 derive key) as (b & Hb & H1 & H2 & Hv); auto.
  exists b. rewrite <-(bilateral_build_sym attempts c1 c2). auto.
Qed.
