(* ===== verification/HardNatObserve.v ===== *)
(** * Hard-NAT observation (src/internal/v2/hardnatobserve/observe.go)

    [Collect] sends five RFC 5780 requests and eight allocation requests on
    sockets it is given and infers the model of the NAT from the replies.  What
    surrounds it is an argument: the network and its sockets ([Network]), the
    readings of the clock, the random source, what the sockets answer about their
    reservation and to a registration.  [os_log] records the packets sent. *)
From S2P Require Import Prelude GoStd Limits Governor LivenessWire HardNatArith HardNatTypes HardNatStun HardNatEvidence HardNatPlan HardNatBudget HardNatPlanThms HardNatDiscovery.
Open Scope go_scope.

Definition ObservationSocketCount : Z := MinSuccessfulAllocationSamples.
Definition ObservationPacketCount : Z := FreshEvidencePackets.
Definition maxResponseBytes : Z := 1024.

Inductive observe_err := ErrInvalidConfig | ErrObservationFailed | ErrRequiredReplyAbsent | ErrContext.

(** ** The observer's endpoints

    A [netip.AddrPort] is an [AddressPort]; zones do not occur. *)
Definition multicast (a : Address) : bool :=
  if ad_Family a =? AddressFamilyIPv4
  then (224 <=? byte_at 0 (ad_Bytes a)) && (byte_at 0 (ad_Bytes a) <=? 239)
  else byte_at 0 (ad_Bytes a) =? 255.
Definition validEndpoint (e : AddressPort) : bool := endpoint_Valid e && negb (multicast (ap_Address e)).

Record Topology := mkTopology { tp_Primary : AddressPort; tp_Other : AddressPort }.

Definition Endpoints (t : Topology) : res observe_err (list AddressPort) :=
  let primary := tp_Primary t in
  let other := tp_Other t in
  if negb (validEndpoint primary) || negb (validEndpoint other)
     || bool_decide (ap_Address primary = ap_Address other) || (ap_Port primary =? ap_Port other)
  then Err ErrInvalidConfig
  else Ok [primary; mkAddressPort (ap_Address primary) (ap_Port other);
           mkAddressPort (ap_Address other) (ap_Port primary); other].

Definition endpoint_at (endpoints : list AddressPort) (index : nat) : AddressPort := nth index endpoints zero_endpoint.
Definition allocationTarget (endpoints : list AddressPort) (slot : nat) : AddressPort :=
  endpoint_at endpoints (slot mod length endpoints)%nat.

Record TrustAnchors := mkTrust {
  ta_AttemptDigest : list Z;
  ta_MachineScopeDigest : list Z;
  ta_PeerDigest : list Z;
  ta_ObservationSetDigest : list Z;
  ta_SocketOwnerDigest : list Z;
  ta_Generation : Z;
}.
Definition validTrust (t : TrustAnchors) : bool :=
  (0 <? ta_Generation t) && negb (allZero (ta_AttemptDigest t)) && negb (allZero (ta_MachineScopeDigest t))
  && negb (allZero (ta_PeerDigest t)) && negb (allZero (ta_ObservationSetDigest t))
  && negb (allZero (ta_SocketOwnerDigest t)).

(** ** Transactions *)
Record transaction := mkTxn {
  tx_id : list Z;
  tx_kind : string;
  tx_source : string;
  tx_observer : AddressPort;
  tx_socketSlot : nat;
  tx_ordinal : Z;
  tx_change : ChangeRequest;
  tx_discovery : string;
  tx_replyNeeded : bool;
}.

(** The transactions before their identifiers are drawn. *)
Definition discovery_plan (endpoints : list AddressPort) : list (list Z -> transaction) :=
  imap (fun ordinal '(step, target, change, needed) id =>
          mkTxn id EvidenceKindRFC5780 SourceRFC5780 target 0 (Z.of_nat ordinal) change step needed)
    [ (StepPrimary, endpoint_at endpoints 0, mkChange false false, true);
      (StepSameAddressOtherPort, endpoint_at endpoints 1, mkChange false false, true);
      (StepOtherAddress, endpoint_at endpoints 2, mkChange false false, true);
      (StepChangeIPPort, endpoint_at endpoints 0, mkChange true true, false);
      (StepChangePort, endpoint_at endpoints 0, mkChange false true, false) ].
Definition allocation_plan (endpoints : list AddressPort) : list (list Z -> transaction) :=
  map (fun ordinal id =>
         mkTxn id EvidenceKindAllocation SourceLocalTomography (allocationTarget endpoints ordinal) ordinal
           (Z.of_nat ordinal) (mkChange false false) "" true)
    (seq 0 (Z.to_nat ObservationSocketCount)).

(** [appendTransaction] for each of the plan; a read of the random source is the
    bytes it fills in, or an error. *)
Fixpoint issue_loop (plan : list (list Z -> transaction)) (random : list (option (list Z))) (seen : gset (list Z))
    : res observe_err (list transaction) :=
  match plan with
  | [] => Ok []
  | make :: rest =>
      match random with
      | Some id :: random' =>
          if allZero id then Err ErrInvalidConfig
          else if bool_decide (id ∈ seen) then Err ErrInvalidConfig
          else let! result := issue_loop rest random' ({[id]} ∪ seen) in Ok (make id :: result)
      | _ => Err ErrInvalidConfig
      end
  end.
Definition issueTransactions (random : list (option (list Z))) (endpoints : list AddressPort)
    : res observe_err (list transaction) :=
  issue_loop (discovery_plan endpoints ++ allocation_plan endpoints) random ∅.

(** ** Sockets and clock *)

(** What [ReadFrom] gives before the deadline of a reply.  [packet] is what it
    reports to have put into the buffer ([dst[:n]]): of a longer datagram that a
    socket truncates, the part that fits. *)
Inductive datagram :=
| Datagram (packet : list Z) (from : AddressPort)
| ReadDeadline
| ReadFailed.

Class Network (Env : Type) := {
  net_send : Env -> nat -> AddressPort -> list Z -> Env * bool;
  net_read : Env -> nat -> Env * datagram;
}.

Definition positiveMilli (millis : Z) : Z := if millis <=? 0 then 1 else millis.

Section collect.
Context {H : Sha256} {Env : Type} {N : Network Env}.
(** [readings] are the times [now] returns, in milliseconds. *)
Context (readings : nat -> Z).

Record ostate := mkOState {
  os_env : Env;
  os_reading : nat;
  os_last : Z;
  os_log : list (nat * AddressPort * list Z);
}.

Definition stamp (s : ostate) : ostate * Z :=
  let value := positiveMilli (readings (os_reading s)) in
  let value := if value <=? os_last s then os_last s + 1 else value in
  (mkOState (os_env s) (S (os_reading s)) value (os_log s), value).

Definition SendProbe (slot : nat) (target : AddressPort) (packet : list Z) (s : ostate) : ostate * bool :=
  let '(env, sent) := net_send (os_env s) slot target packet in
  (mkOState env (os_reading s) (os_last s) (os_log s ++ [(slot, target, packet)]), sent).

(** The targets a socket has registered. *)
Definition registered (endpoints : list AddressPort) (slot : nat) (from : AddressPort) : bool :=
  if (slot =? 0)%nat then bool_decide (from ∈ endpoints) else bool_decide (from = allocationTarget endpoints slot).

(** The verifier of [exchange]. *)
Definition verify_reply (txn : transaction) (packet : list Z) (from : AddressPort) : res plan_err BehaviorAttributes :=
  let! parsed := ParseBehaviorBindingSuccess packet (tx_id txn) in
  if negb (ba_HasResponseOrigin parsed) || negb (bool_decide (from = ba_ResponseOrigin parsed))
  then Err ErrInvalidEvidence else Ok parsed.

Inductive reply := Replied (packet : list Z) (from : AddressPort) (a : BehaviorAttributes) | NoReply | BadReply.

(** A reported length beyond the buffer violates the contract of the datagram. *)
Definition ReceiveReply (endpoints : list AddressPort) (txn : transaction) (s : ostate) : ostate * reply :=
  let '(env, d) := net_read (os_env s) (tx_socketSlot txn) in
  (mkOState env (os_reading s) (os_last s) (os_log s),
   match d with
   | Datagram packet from =>
       if maxResponseBytes <? blen packet then BadReply
       else if negb (registered endpoints (tx_socketSlot txn) from) then BadReply
       else match verify_reply txn packet from with Ok a => Replied packet from a | Err _ => BadReply end
   | ReadDeadline => NoReply
   | ReadFailed => BadReply
   end).

Definition exchange (endpoints : list AddressPort) (txn : transaction) (s : ostate)
    : ostate * res observe_err RFC5780Exchange :=
  match BuildBehaviorBindingRequest (tx_id txn) (tx_change txn) with
  | Err _ => (s, Err ErrObservationFailed)
  | Ok request =>
      let result received source response at_milli :=
        mkExchange (tx_discovery txn) (tx_id txn) (tx_observer txn) source at_milli received request response in
      let '(s, sent) := SendProbe (tx_socketSlot txn) (tx_observer txn) request s in
      if negb sent then (s, Err ErrObservationFailed)
      else
        let '(s, r) := ReceiveReply endpoints txn s in
        let '(s, observedAt) := stamp s in
        match r with
        | NoReply =>
            if negb (tx_replyNeeded txn) then (s, Ok (result false zero_endpoint [] observedAt))
            else (s, Err ErrRequiredReplyAbsent)
        | BadReply => (s, Err ErrObservationFailed)
        | Replied packet from a =>
            if bool_decide (packet = []) || negb (ba_HasMapped a) then (s, Err ErrObservationFailed)
            else (s, Ok (result true from packet observedAt))
        end
  end.

(** The first loop of [Collect]. *)
Fixpoint discovery_loop (endpoints : list AddressPort) (txns : list transaction) (s : ostate)
    : ostate * res observe_err (list RFC5780Exchange) :=
  match txns with
  | [] => (s, Ok [])
  | txn :: rest =>
      let '(s, r) := exchange endpoints txn s in
      match r with
      | Err e => (s, Err e)
      | Ok e =>
          let '(s, r) := discovery_loop endpoints rest s in
          (s, let! exchanges := r in Ok (e :: exchanges))
      end
  end.

Definition allocation_sample (trust : TrustAnchors) (txn : transaction) (observedAt : Z) (a : BehaviorAttributes)
    : AllocationSample :=
  mkSample
    (mkMeta SourceLocalTomography OriginLocalTransaction (ap_Address (tx_observer txn)) (ap_Port (tx_observer txn))
       (Z.of_nat (tx_socketSlot txn)) (tx_id txn) (ta_AttemptDigest trust) (ta_Generation trust) observedAt)
    (Z.of_nat (tx_socketSlot txn)) (tx_ordinal txn) (ap_Address (ba_Mapped a)) (ap_Port (ba_Mapped a)) true.

(** The second loop. *)
Fixpoint allocation_loop (endpoints : list AddressPort) (trust : TrustAnchors) (txns : list transaction) (s : ostate)
    : ostate * res observe_err (list AllocationSample) :=
  match txns with
  | [] => (s, Ok [])
  | txn :: rest =>
      let '(s, r) := exchange endpoints txn s in
      match r with
      | Err _ => (s, Err ErrObservationFailed)
      | Ok e =>
          if negb (ex_Received e) then (s, Err ErrObservationFailed)
          else match ParseBehaviorBindingSuccess (ex_Response e) (ex_TransactionID e) with
          | Err _ => (s, Err ErrObservationFailed)
          | Ok a =>
              let '(s, r) := allocation_loop endpoints trust rest s in
              (s, let! samples := r in Ok (allocation_sample trust txn (ex_ObservedAtMilli e) a :: samples))
          end
      end
  end.

Record Config := mkConfig {
  cf_Profile : string;
  cf_ResourceClass : string;
  (** The reservation of each socket: generation, operation and cost. *)
  cf_Sockets : list (option (Z * Operation * AttemptCost));
  cf_Topology : Topology;
  cf_Trust : TrustAnchors;
  cf_Random : list (option (list Z));
  cf_Cancelled : bool;
  cf_Registers : nat -> AddressPort -> bool;
}.

Record Result := mkResult {
  rt_Graph : EvidenceGraph;
  rt_Trusted : TrustedValidationContext;
  rt_Model : StateModel;
  rt_PublicAddress : Address;
  rt_PacketsSent : Z;
  rt_Targets : Z;
  rt_FiveTuples : Z;
}.

Definition reserved (config : Config) (operation : Operation) (envelope : Envelope)
    (r : option (Z * Operation * AttemptCost)) : bool :=
  match r with
  | None => false
  | Some (generation, op, cost) =>
      (generation =? ta_Generation (cf_Trust config))
      && Exact (cf_Profile config) (cf_ResourceClass config) op cost
      && bool_decide (op = operation) && bool_decide (cost = ev_Cost envelope)
  end.

Definition registrations (endpoints : list AddressPort) : list (nat * AddressPort) :=
  map (pair 0%nat) endpoints
  ++ map (fun slot => (slot, allocationTarget endpoints slot)) (seq 1 (Z.to_nat ObservationSocketCount - 1)).

(** What an observation registers is what the envelopes leave room for. *)
Lemma registrations_budget endpoints :
  length endpoints = 4%nat ->
  Z.of_nat (length endpoints) = evidence_targets /\ Z.of_nat (length (registrations endpoints)) = evidence_flows.
Proof. intros Hl. unfold registrations. rewrite length_app, !length_map, length_seq, Hl. by split. Qed.

Definition collected_graph (trust : TrustAnchors) (started finished : Z) (exchanges : list RFC5780Exchange)
    (samples : list AllocationSample) : EvidenceGraph :=
  mkGraph (ta_AttemptDigest trust) (ta_MachineScopeDigest trust) (ta_PeerDigest trust) (ta_ObservationSetDigest trust)
    (ta_SocketOwnerDigest trust) (ta_Generation trust) started finished (finished + MaxEvidenceAgeMillis)
    [] [] [] samples [mkTranscript OriginLocalTransaction 0 exchanges].

Definition issued_of (started finished : Z) (txn : transaction) : IssuedTransaction :=
  mkIssued (tx_kind txn) (tx_id txn) (tx_source txn) (tx_observer txn) (Z.of_nat (tx_socketSlot txn)) (tx_ordinal txn)
    started finished.
Definition collected_trust (trust : TrustAnchors) (started finished : Z) (txns : list transaction)
    : TrustedValidationContext :=
  mkTrusted finished (ta_AttemptDigest trust) (ta_MachineScopeDigest trust) (ta_PeerDigest trust)
    (ta_ObservationSetDigest trust) (ta_SocketOwnerDigest trust) (ta_Generation trust) started finished
    (finished + MaxEvidenceAgeMillis) (map (issued_of started finished) txns).

(** The inference and the checks at the end of [Collect]. *)
Definition conclude (config : Config) (txns : list transaction) (started finished : Z)
    (exchanges : list RFC5780Exchange) (samples : list AllocationSample) : res observe_err Result :=
  if MaxEvidenceWindowMillis <? finished - started then Err ErrObservationFailed
  else
    let graph := collected_graph (cf_Trust config) started finished exchanges samples in
    let trusted := collected_trust (cf_Trust config) started finished txns in
    let '(model, err) := InferStateModel graph trusted in
    match err with
    | Some _ => Err ErrObservationFailed
    | None =>
        if IsHardCampaign (cf_Profile config) (cf_ResourceClass config)
           && (negb (bool_decide (sm_Mapping model = MappingAPDM))
               || negb (bool_decide (sm_Allocation model = AllocationApparentlyRandom))
               || existsb (fun x => (as_MappedPort x <? DynamicPortMin) || (DynamicPortMax <? as_MappedPort x)) samples)
        then Err ErrObservationFailed
        else Ok (mkResult graph trusted model (default zero_address (as_MappedAddress <$> head samples))
                   (Z.of_nat (length exchanges + length samples)) 4 11)
    end.

Definition Collect (config : Config) (env : Env) : ostate * res observe_err Result :=
  let idle := mkOState env 0 0 [] in
  if cf_Cancelled config then (idle, Err ErrContext)
  else match Endpoints (cf_Topology config) with
  | Err _ => (idle, Err ErrInvalidConfig)
  | Ok endpoints =>
      if negb (Z.of_nat (length (cf_Sockets config)) =? ObservationSocketCount) || negb (validTrust (cf_Trust config))
      then (idle, Err ErrInvalidConfig)
      else match For (cf_Profile config) (cf_ResourceClass config), envelope_Operation (cf_Profile config) with
      | Ok envelope, Ok operation =>
          if negb (forallb (reserved config operation envelope) (cf_Sockets config)) then (idle, Err ErrInvalidConfig)
          else match issueTransactions (cf_Random config) endpoints with
          | Err _ => (idle, Err ErrInvalidConfig)
          | Ok txns =>
              if negb (forallb (fun '(slot, target) => cf_Registers config slot target) (registrations endpoints))
              then (idle, Err ErrObservationFailed)
              else
                let started := positiveMilli (readings 0) in
                let s := mkOState env 1 (started - 1) [] in
                let '(s, r) := discovery_loop endpoints (take 5 txns) s in
                match r with
                | Err e => (s, Err e)
                | Ok exchanges =>
                    let '(s, r) := allocation_loop endpoints (cf_Trust config) (drop 5 txns) s in
                    match r with
                    | Err e => (s, Err e)
                    | Ok samples =>
                        let '(s, finished) := stamp s in
                        (s, conclude config txns started finished exchanges samples)
                    end
                end
          end
      | _, _ => (idle, Err ErrInvalidConfig)
      end
  end.
End collect.

(** ** What is sent *)
Definition planned (t : transaction) : nat * AddressPort * list Z :=
  (tx_socketSlot t, tx_observer t, packet_of (BuildBehaviorBindingRequest (tx_id t) (tx_change t))).

Lemma issue_loop_spec plan random seen txns :
  issue_loop plan random seen = Ok txns ->
  Forall2 (fun (make : list Z -> transaction) t => exists id, t = make id /\ allZero id = false) plan txns.
Proof.
  revert random seen txns. induction plan as [|make rest IH]; intros random seen txns E; cbn [issue_loop] in E.
  { injection E as <-. constructor. }
  destruct random as [|[id|] random]; [done| |done]. destruct (allZero id) eqn:Hz; [done|].
  destruct (bool_decide (id ∈ seen)); [done|]. apply res_bind_Ok in E as (result & Hr & E). injection E as <-.
  constructor; eauto.
Qed.

Definition keeps_id (make : list Z -> transaction) : Prop := forall id, tx_id (make id) = id.

Lemma plan_keeps_id endpoints : Forall keeps_id (discovery_plan endpoints ++ allocation_plan endpoints).
Proof. by repeat constructor. Qed.

Lemma plan_registered e0 e1 e2 e3 :
  let endpoints := [e0; e1; e2; e3] in
  Forall (fun make => forall id, (tx_socketSlot (make id), tx_observer (make id)) ∈ registrations endpoints)
    (discovery_plan endpoints ++ allocation_plan endpoints).
Proof. cbn. repeat constructor; intros id; cbn; set_solver. Qed.

Section sends.
Context {H : Sha256} {Env : Type} {N : Network Env} (readings : nat -> Z) (endpoints : list AddressPort).

Definition nonzero_id (t : transaction) : Prop := allZero (tx_id t) = false.

Lemma exchange_log txn s s' r :
  nonzero_id txn -> exchange readings endpoints txn s = (s', r) -> os_log s' = os_log s ++ [planned txn].
Proof.
  intros Hz E. unfold exchange in E. unfold planned.
  destruct (BuildBehaviorBindingRequest (tx_id txn) (tx_change txn)) as [request|] eqn:Hb.
  2:{ unfold BuildBehaviorBindingRequest in Hb. rewrite Hz in Hb. by destruct (_ || _). }
  destruct (SendProbe _ _ _ s) as [s1 sent] eqn:Hsend. unfold SendProbe in Hsend.
  destruct (net_send _ _ _ _) as [env1 sent']. injection Hsend as <- <-.
  destruct (negb sent'); [by injection E as <- _|].
  unfold ReceiveReply, stamp in E. cbn [os_env os_reading os_last os_log] in E.
  destruct (net_read env1 _) as [env2 d]. cbn [os_env os_reading os_last os_log] in E.
  repeat (case_match; simplify_eq); done.
Qed.

Lemma discovery_log txns s s' r :
  Forall nonzero_id txns -> discovery_loop readings endpoints txns s = (s', r) ->
  exists sent, os_log s' = os_log s ++ map planned sent /\ sent `prefix_of` txns /\
    (forall exchanges, r = Ok exchanges -> sent = txns /\ length exchanges = length txns).
Proof.
  intros Ht. revert s s' r. induction Ht as [|txn rest Hz Ht IH]; intros s s' r E; cbn [discovery_loop] in E.
  { injection E as <- <-. exists []. rewrite app_nil_r. split_and!; [done..|]. by intros ? [= <-]. }
  destruct (exchange readings endpoints txn s) as [s1 [e|e]] eqn:Hx; apply exchange_log in Hx; auto.
  - destruct (discovery_loop readings endpoints rest s1) as [s2 r2] eqn:Hd. injection E as <- <-.
    destruct (IH _ _ _ Hd) as (sent & Hlog & [k Hpre] & Hok). exists (txn :: sent). split_and!.
    + rewrite Hlog, Hx, <-app_assoc. done.
    + exists k. by rewrite Hpre.
    + intros exchanges E. apply res_bind_Ok in E as (xs & E & Ec). injection Ec as <-.
      destruct (Hok xs E) as [-> Hl]. cbn. by rewrite Hl.
  - injection E as <- <-. exists [txn]. split_and!; [done|by exists rest|done].
Qed.

Lemma allocation_log trust txns s s' r :
  Forall nonzero_id txns -> allocation_loop readings endpoints trust txns s = (s', r) ->
  exists sent, os_log s' = os_log s ++ map planned sent /\ sent `prefix_of` txns /\
    (forall samples, r = Ok samples -> sent = txns /\ length samples = length txns).
Proof.
  intros Ht. revert s s' r. induction Ht as [|txn rest Hz Ht IH]; intros s s' r E; cbn [allocation_loop] in E.
  { injection E as <- <-. exists []. rewrite app_nil_r. split_and!; [done..|]. by intros ? [= <-]. }
  destruct (exchange readings endpoints txn s) as [s1 r1] eqn:Hx; apply exchange_log in Hx; auto.
  assert (Hstop : forall e, (s', r) = (s1, Err e) -> exists sent, os_log s' = os_log s ++ map planned sent /\
    sent `prefix_of` txn :: rest /\ (forall samples, r = Ok samples -> sent = txn :: rest /\ length samples = length (txn :: rest))).
  { intros e [= -> ->]. exists [txn]. split_and!; [done|by exists rest|done]. }
  destruct r1 as [e|e]; [|by eapply Hstop]. destruct (negb (ex_Received e)); [by eapply Hstop|].
  destruct (ParseBehaviorBindingSuccess _ _) as [a|]; [|by eapply Hstop].
  destruct (allocation_loop readings endpoints trust rest s1) as [s2 r2] eqn:Hd. injection E as <- <-.
  destruct (IH _ _ _ Hd) as (sent & Hlog & [k Hpre] & Hok). exists (txn :: sent). split_and!.
  - rewrite Hlog, Hx, <-app_assoc. done.
  - exists k. by rewrite Hpre.
  - intros samples E. apply res_bind_Ok in E as (xs & E & Ec). injection Ec as <-.
    destruct (Hok xs E) as [-> Hl]. cbn. by rewrite Hl.
Qed.
End sends.

(** The packets a call sent: a prefix of the thirteen it planned, each to a
    target registered for its socket. *)
Definition sent_as_planned (config : Config) (log : list (nat * AddressPort * list Z)) : Prop :=
  log = [] \/
  exists endpoints txns, Endpoints (cf_Topology config) = Ok endpoints /\
    issueTransactions (cf_Random config) endpoints = Ok txns /\ length txns = 13%nat /\
    log `prefix_of` map planned txns /\
    Forall (fun '(slot, target, _) => (slot, target) ∈ registrations endpoints) log.

Lemma Endpoints_four t endpoints : Endpoints t = Ok endpoints -> exists e0 e1 e2 e3, endpoints = [e0; e1; e2; e3].
Proof. unfold Endpoints. case_match; [done|]. intros [= <-]. by do 4 eexists. Qed.

Lemma issued_registered random e0 e1 e2 e3 txns :
  issueTransactions random [e0; e1; e2; e3] = Ok txns ->
  length txns = 13%nat /\ Forall nonzero_id txns /\
  Forall (fun t => (tx_socketSlot t, tx_observer t) ∈ registrations [e0; e1; e2; e3]) txns.
Proof.
  intros E. apply issue_loop_spec in E. pose proof (plan_keeps_id [e0; e1; e2; e3]) as Hid.
  pose proof (plan_registered e0 e1 e2 e3) as Hreg. cbv zeta in Hreg.
  split; [by apply Forall2_length in E|]. revert Hid Hreg.
  induction E as [|make t plan txns (id & -> & Hz) E IH]; intros Hid Hreg; [by split; constructor|].
  apply Forall_cons in Hid as [Hk Hid], Hreg as [Hr Hreg]. destruct (IH Hid Hreg) as [H1 H2].
  split; constructor; auto. unfold nonzero_id. by rewrite Hk.
Qed.

Section outcome.
Context {H : Sha256} {Env : Type} {N : Network Env} (readings : nat -> Z).

Lemma prefix_planned e0 e1 e2 e3 config random txns sent :
  Endpoints (cf_Topology config) = Ok [e0; e1; e2; e3] -> cf_Random config = random ->
  issueTransactions random [e0; e1; e2; e3] = Ok txns -> sent `prefix_of` txns ->
  sent_as_planned config (map planned sent) /\ (length (map planned sent) <= 13)%nat.
Proof.
  intros He Hr Hi Hp. destruct (issued_registered _ _ _ _ _ _ Hi) as (Hl & _ & Hreg).
  destruct Hp as [k ->]. rewrite length_app in Hl. apply Forall_app in Hreg as [Hreg _].
  split; [right|rewrite length_map; lia]. exists [e0; e1; e2; e3], (sent ++ k). rewrite Hr.
  split_and!; [done|done|by rewrite length_app|rewrite map_app; by eexists|].
  apply Forall_map. eapply Forall_impl; [exact Hreg|]. done.
Qed.

Definition outcome_ok (config : Config) (log : list (nat * AddressPort * list Z)) (r : res observe_err Result) : Prop :=
  sent_as_planned config log /\ (length log <= 13)%nat /\
  (forall result, r = Ok result -> length log = 13%nat /\ rt_PacketsSent result = 13 /\
     exists endpoints, Endpoints (cf_Topology config) = Ok endpoints /\
       rt_Targets result = Z.of_nat (length endpoints) /\ rt_FiveTuples result = Z.of_nat (length (registrations endpoints))).

Lemma collect_log config env s r :
  Collect readings config env = (s, r) -> outcome_ok config (os_log s) r.
Proof.
  unfold Collect.
  assert (Hidle : forall e, outcome_ok config (os_log (mkOState env 0 0 [])) (Err e)).
  { intros e. split; [by left|]. split; [cbn; lia|done]. }
  destruct (cf_Cancelled config); [intros [= <- <-]; apply Hidle|].
  destruct (Endpoints (cf_Topology config)) as [endpoints|] eqn:He; [|intros [= <- <-]; apply Hidle].
  destruct (_ || _); [intros [= <- <-]; apply Hidle|].
  destruct (For _ _) as [envelope|]; [|intros [= <- <-]; apply Hidle].
  destruct (envelope_Operation _) as [operation|]; [|intros [= <- <-]; apply Hidle].
  destruct (negb (forallb _ (cf_Sockets config))); [intros [= <- <-]; apply Hidle|].
  destruct (issueTransactions (cf_Random config) endpoints) as [txns|] eqn:Hi; [|intros [= <- <-]; apply Hidle].
  destruct (negb (forallb _ (registrations endpoints))); [intros [= <- <-]; apply Hidle|]. cbv zeta. clear Hidle.
  destruct (Endpoints_four _ _ He) as (e0 & e1 & e2 & e3 & ->).
  destruct (issued_registered _ _ _ _ _ _ Hi) as (Hl & Hz & _).
  destruct (discovery_loop readings _ (take 5 txns) _) as [s1 r1] eqn:Hd.
  apply discovery_log in Hd as (sent1 & Hlog1 & Hp1 & Hok1); [|by apply Forall_take]. cbn [os_log app] in Hlog1.
  assert (Hpre : sent1 `prefix_of` txns) by (etrans; [exact Hp1|exists (drop 5 txns); by rewrite take_drop]).
  destruct r1 as [exchanges|e].
  2:{ intros [= <- <-]. rewrite Hlog1. destruct (prefix_planned _ _ _ _ _ _ _ _ He eq_refl Hi Hpre). by split_and!. }
  destruct (Hok1 exchanges eq_refl) as [-> Hlx].
  destruct (allocation_loop readings _ _ (drop 5 txns) s1) as [s2 r2] eqn:Ha.
  apply allocation_log in Ha as (sent2 & Hlog2 & [k Hp2] & Hok2); [|by apply Forall_drop].
  rewrite Hlog1, <-map_app in Hlog2.
  assert (Hpre2 : take 5 txns ++ sent2 `prefix_of` txns) by (exists k; by rewrite <-app_assoc, <-Hp2, take_drop).
  destruct (prefix_planned _ _ _ _ _ _ _ _ He eq_refl Hi Hpre2) as [Hplan Hle].
  destruct r2 as [samples|e].
  2:{ intros [= <- <-]. rewrite Hlog2. by split_and!. }
  destruct (Hok2 samples eq_refl) as [-> Hls]. rewrite take_drop in Hlog2, Hplan, Hle.
  intros [= <- <-]. cbn [stamp os_log fst]. rewrite Hlog2. split_and!; [done|done|].
  intros result E. rewrite length_map. split; [done|].
  unfold conclude in E. destruct (_ <? _); [done|]. destruct (InferStateModel _ _) as [m [err|]]; [done|].
  destruct (IsHardCampaign _ _ && _); [done|]. injection E as <-. cbn [rt_PacketsSent rt_Targets rt_FiveTuples].
  split; [|by exists [e0; e1; e2; e3]]. rewrite Hlx, Hls, length_take, length_drop. lia.
Qed.
End outcome.

(** C34: whatever the network answers, [Collect] sends at most the thirteen
    packets of its plan, in order and without repetition, each from a socket to
    an observer endpoint registered for it; on success all thirteen were sent,
    and the counts it reports are the packets, the observer's endpoints and the
    registered pairs of socket and target. *)
Theorem collect_sends_plan {H : Sha256} {Env : Type} {N : Network Env} readings config env s r :
  Collect readings config env = (s, r) ->
  sent_as_planned config (os_log s) /\ Z.of_nat (length (os_log s)) <= FreshEvidencePackets /\
  (forall result, r = Ok result -> Z.of_nat (length (os_log s)) = FreshEvidencePackets /\
     rt_PacketsSent result = FreshEvidencePackets /\
     exists endpoints, Endpoints (cf_Topology config) = Ok endpoints /\
       rt_Targets result = Z.of_nat (length endpoints) /\ rt_FiveTuples result = Z.of_nat (length (registrations endpoints))).
Proof.
  intros E. destruct (collect_log readings config env s r E) as (Hp & Hl & Hok). unfold FreshEvidencePackets.
  split; [done|]. split; [lia|]. intros result Hr. destruct (Hok result Hr) as (H1 & H2 & H3). split; [lia|done].
Qed.
