(* ===== verification/HardNatRuns.v ===== *)
(** * Hard-NAT planning: concrete runs

    A NAT with a sequential allocator as a network for [Collect], the commitments
    and the plan that two ends behind such NATs arrive at, and the witnesses. *)
From S2P Require Import Prelude GoStd Limits Governor LivenessWire LivenessWireThms HardNatArith HardNatTypes HardNatStun HardNatEvidence HardNatPlan HardNatBudget HardNatCandidates HardNatBilateral HardNatPlanThms HardNatEvidenceThms HardNatDiscovery HardNatAttempt HardNatObserve.
Open Scope go_scope.

(** ** A NAT as a network *)
Record box := mkBox {
  bx_mapping : string;
  bx_filtering : string;
  bx_observer : observer;
  bx_public : Address;
  bx_base : Z;
  bx_step : Z;
  (** Socket and destination of the packets sent, and the mappings: socket, first
      destination and port. *)
  bx_sent : list (nat * AddressPort);
  bx_ports : list (nat * AddressPort * Z);
  bx_pending : list (nat * list Z * AddressPort);
}.

Definition box_port (b : box) (slot : nat) (dest : AddressPort) : option Z :=
  snd <$> List.find (fun '(s, d, _) => (s =? slot)%nat && same_mapping (bx_mapping b) d dest) (bx_ports b).

Definition box_send (b : box) (slot : nat) (dest : AddressPort) (packet : list Z) : box * bool :=
  let port := match box_port b slot dest with
              | Some p => p | None => allocator (bx_base b) (bx_step b) (length (bx_ports b)) end in
  let ports := match box_port b slot dest with
               | Some _ => bx_ports b | None => bx_ports b ++ [(slot, dest, port)] end in
  let sent := bx_sent b ++ [(slot, dest)] in
  let contacts := map snd (List.filter (fun x => (x.1 =? slot)%nat) sent) in
  let nat := mkNat (bx_mapping b) (bx_filtering b) (fun _ => mkAddressPort (bx_public b) port) in
  let pending :=
    match ParseBehaviorBindingRequest packet with
    | Err _ => []
    | Ok (tx, change) =>
        let src := response_source (bx_observer b) dest change in
        if passes nat contacts dest src
        then [(slot, packet_of (BuildBehaviorBindingSuccess tx (response_attributes (bx_observer b) nat dest src)), src)]
        else []
    end in
  (mkBox (bx_mapping b) (bx_filtering b) (bx_observer b) (bx_public b) (bx_base b) (bx_step b) sent ports pending, true).

Definition box_read (b : box) (slot : nat) : box * datagram :=
  (mkBox (bx_mapping b) (bx_filtering b) (bx_observer b) (bx_public b) (bx_base b) (bx_step b) (bx_sent b) (bx_ports b) [],
   match bx_pending b with
   | (s, packet, src) :: _ => if (s =? slot)%nat then Datagram packet src else ReadDeadline
   | [] => ReadDeadline
   end).

#[export] Instance box_network : Network box := {| net_send := box_send; net_read := box_read |}.
#[export] Instance run_sha : Sha256 := tail_digest.

Definition v4 (a b c d : Z) : Address := Address4 [a; b; c; d].
Definition run_observer : observer :=
  mkObserver (mkAddressPort (v4 192 0 2 1) 3478) (mkAddressPort (v4 192 0 2 2) 3479).
Definition run_box (mapping filtering : string) (step : Z) : box :=
  mkBox mapping filtering run_observer (v4 203 0 113 7) 40000 step [] [] [].

Definition filled (b : Z) : list Z := replicate 32 b.
Definition run_trust (peer : Z) : TrustAnchors :=
  mkTrust (filled 1) (filled 2) (filled peer) (filled 4) (filled 5) 7.
Definition run_config (peer : Z) : Config :=
  mkConfig ProfilePredictiveEdm ResourcePredictive
    (replicate 8 (Some (7, OperationPrediction,
       mkCost {| Sockets := 8; Targets := 64; FiveTuples := 64; Packets := 64; PacketsPerSecond := 32 |} AttemptDuration true)))
    (mkTopology (ov_primary run_observer) (ov_other run_observer)) (run_trust peer)
    (map (fun k => Some (replicate 12 (Z.of_nat k))) (seq 1 13)) false (fun _ _ => true).
Definition run_clock (k : nat) : Z := 1000 + Z.of_nat k.

Definition run_collect (peer : Z) (mapping filtering : string) (step : Z) : res observe_err Result :=
  snd (Collect run_clock (run_config peer) (run_box mapping filtering step)).
Definition run_model (mapping filtering : string) (step : Z) : option (string * string * string * list Z) :=
  match run_collect 3 mapping filtering step with
  | Ok r => let m := rt_Model r in
            Some (sm_Mapping m, sm_Filtering m, sm_Allocation m, take 2 (sm_PredictedSourcePorts m))
  | Err _ => None
  end.

(** What discovery and sampling find: the step-1 allocator of an
    address-and-port-dependent NAT is predicted; the filter of an
    endpoint-independent NAT is taken for an open one. *)
Example run_sequential :
  run_model MappingAPDM FilteringAPDF 1
  = Some (MappingAPDM, FilteringAPDF, AllocationMonotonicNonuniform, [40011; 40012]).
Proof. vm_compute. reflexivity. Qed.
Example run_filter : run_model MappingEIM FilteringADF 1 = Some (MappingEIM, FilteringEIF, AllocationSequentialUniform, [40009; 40010]).
Proof. vm_compute. reflexivity. Qed.

(** The first sample of [Collect] repeats the flow of the primary exchange, so an
    endpoint-dependent NAT answers it with the mapping that flow has: behind an
    allocator of step 3 the deltas are 9 and then 3, and a sequential NAT passes
    for a random one. *)
Theorem first_sample_stale :
  run_model MappingAPDM FilteringAPDF 3 = Some (MappingAPDM, FilteringAPDF, AllocationApparentlyRandom, [])
  /\ (forall m base samples, Z.of_nat (length samples) = 8 -> sampled base 3 samples ->
        sm_Allocation (classified samples m) = AllocationSequentialUniform).
Proof.
  split; [vm_compute; reflexivity|]. intros m base samples Hl Hs.
  assert (Hc : classifyAllocation samples = mkClassification AllocationSequentialUniform 3 3
                 (allocator base 3 (length samples)) 3) by (apply sampled_classified; auto; lia).
  unfold classified. rewrite Hc. reflexivity.
Qed.

(** ** Two ends

    Commitments of the predictive profile with 32 consecutive ports.  SHA-256 is
    a checksum of 32 bytes here and HMAC gives the largest value, so every draw accepts. *)
Definition mix_sha : Sha256 := fun data =>
  1 :: be_encode 31 (fold_left (fun acc b => (acc * 257 + b + 1) mod 2 ^ 248) data 0).
Definition top_hmac : Hmac := fun _ _ => replicate 32 255.

(** Their values are never needed. *)
#[local] Opaque probabilityFor.

Lemma lor_positive bytes acc : Forall is_byte bytes -> 0 < acc -> 0 < fold_left Z.lor bytes acc.
Proof.
  intros Hb. revert acc. induction Hb as [|b bytes Hb _ IH]; intros acc Ha; [done|]. cbn [fold_left]. apply IH.
  unfold is_byte in Hb. assert (0 <= Z.lor acc b) by (apply Z.lor_nonneg; lia).
  assert (Z.lor acc b <> 0) by (rewrite Z.lor_eq_0_iff; lia). lia.
Qed.

Lemma one_nonzero bytes : Forall is_byte bytes -> allZero (1 :: bytes) = false.
Proof. intros Hb. apply Z.eqb_neq. pose proof (lor_positive bytes 1 Hb ltac:(lia)) as Hp. cbn [fold_left]. change (Z.lor 0 1) with 1. lia. Qed.

Lemma mix_sha_nonzero data : allZero (mix_sha data) = false.
Proof. apply one_nonzero, be_encode_is_byte. Qed.
#[local] Opaque mix_sha.

Definition report_of (r : res plan_err ProbabilityReport) : ProbabilityReport :=
  match r with Ok report => report | Err _ => zero_report end.
Definition run_report : ProbabilityReport :=
  report_of (probabilityFor ResourcePredictive 32 "window" (predictive_shape 32)).
Definition run_slots (base : Z) : list SourceSlot :=
  map (fun k => mkSlot (Z.of_nat k mod 8) (Z.of_nat k) (base + Z.of_nat k)) (seq 0 32).
Definition run_end (role : string) (base evidence : Z) : LocalSourceCommitment :=
  with_source_digest (H := mix_sha)
    (mkCommitment ProfilePredictiveEdm ResourcePredictive role (filled 1) 7 (run_slots base) zero_endpoint
       (sh_universe (predictive_shape 32)) (sh_cost (predictive_shape 32)) run_report (filled evidence)
       (filled 3) (digestCost (H := mix_sha) ProfilePredictiveEdm ResourcePredictive (sh_cost (predictive_shape 32)))
       zero_digest true).

Lemma run_report_ok :
  probabilityFor ResourcePredictive 32 "window" (predictive_shape 32) = Ok run_report /\
  rp_ModelCoverage run_report = "window"%string /\ probabilityAdmitted ResourcePredictive run_report = true.
Proof.
  unfold run_report. destruct (predictive_report 32 "window" (predictive_shape 32) ltac:(lia)) as (r & E & Hc & Ha).
  revert E. generalize (probabilityFor ResourcePredictive 32 "window" (predictive_shape 32)). intros x ->. by split.
Qed.

Lemma source_digest_fixed {H : Sha256} c :
  lc_SourceDigest (with_source_digest c) = digestSourceCommitment (with_source_digest c).
Proof. by destruct c. Qed.

Lemma run_slots_ok role base :
  base = 40000 \/ base = 50000 -> slots_ok ResourcePredictive role 0 8 0 (run_slots base) ∅ = true.
Proof. intros [->| ->]; vm_compute; reflexivity. Qed.

Lemma run_end_committed role base evidence :
  role = RoleInitiator \/ role = RoleResponder -> base = 40000 \/ base = 50000 -> evidence = 2 \/ evidence = 4 ->
  committed (H := mix_sha) (run_end role base evidence) (predictive_shape 32).
Proof.
  intros Hr Hb He. destruct run_report_ok as (Hrep & Hcov & Hadm).
  constructor.
  - destruct Hr as [->| ->]; reflexivity.
  - destruct Hr as [->| ->]; reflexivity.
  - reflexivity.
  - unfold probabilityForCommitment. change (lc_Probability (run_end role base evidence)) with run_report.
    rewrite Hcov. exact Hrep.
  - reflexivity.
  - reflexivity.
  - reflexivity.
  - reflexivity.
  - destruct He as [->| ->]; reflexivity.
  - reflexivity.
  - apply source_digest_fixed.
  - exact Hadm.
  - unfold validateSourceSlots. change (lc_ResourceClass (run_end role base evidence)) with ResourcePredictive.
    change (lc_SourceSlots (run_end role base evidence)) with (run_slots base).
    change (ap_Port (lc_ReceiveEndpoint (run_end role base evidence))) with 0.
    change (ct_Sockets (lc_Cost (run_end role base evidence))) with 8. unfold wanted_slots. name_tests.
    by rewrite (run_slots_ok _ _ Hb).
Qed.

Definition left_end : LocalSourceCommitment := run_end RoleInitiator 40000 2.
Definition right_end : LocalSourceCommitment := run_end RoleResponder 50000 4.
Definition run_key : list Z := filled 9.
Definition run_derive (_ : PlannerKeyContext) : option (list Z) := Some run_key.

Lemma left_committed : committed (H := mix_sha) left_end (predictive_shape 32).
Proof. apply run_end_committed; auto. Qed.
Lemma right_committed : committed (H := mix_sha) right_end (predictive_shape 32).
Proof. apply run_end_committed; auto. Qed.
Lemma left_valid : validateLocalCommitment (H := mix_sha) left_end = None.
Proof. apply validate_committed. eexists. apply left_committed. Qed.
Lemma right_valid : validateLocalCommitment (H := mix_sha) right_end = None.
Proof. apply validate_committed. eexists. apply right_committed. Qed.

Lemma ends_canonical : canonicalCommitments left_end right_end = Ok (left_end, right_end).
Proof.
  unfold canonicalCommitments. change (lc_Profile left_end) with ProfilePredictiveEdm.
  change (lc_Profile right_end) with ProfilePredictiveEdm. change (lc_ResourceClass left_end) with ResourcePredictive.
  change (lc_ResourceClass right_end) with ResourcePredictive. change (lc_Role left_end) with RoleInitiator.
  change (lc_Role right_end) with RoleResponder. change (lc_AttemptDigest left_end) with (filled 1).
  change (lc_AttemptDigest right_end) with (filled 1). change (lc_Generation right_end) with 7.
  change (lc_Generation left_end) with 7. unfold profile_roles.
  rewrite (bool_decide_eq_true_2 (filled 1 = _)) by done. name_tests. done.
Qed.

(** The largest value is accepted by every draw. *)
Lemma top_draws key dom n : Z.of_nat n <= 65536 -> draws_within (M := top_hmac) 1 key dom n.
Proof.
  intros Hn i Hi. exists 0%nat. split; [lia|].
  change (prf_value (M := top_hmac) key dom (Z.of_nat i) (wrap 32 (Z.of_nat 0))) with (2 ^ 64 - 1).
  pose proof (prf_threshold_range (Z.of_nat i + 1) ltac:(lia)). lia.
Qed.

Lemma top_succeeds key local : draws_succeed (M := top_hmac) 1 key local.
Proof.
  apply top_draws. unfold shuffle_run, DynamicPortCount. repeat case_bool_decide; cbn [snd]; by vm_compute.
Qed.

Lemma run_accepted :
  exists b, BuildBilateralPlan (H := mix_sha) (M := top_hmac) 1 left_end right_end (Some run_derive) = Some (Ok b) /\
    PlanForRole b RoleInitiator = Some (bp_First b) /\ PlanForRole b RoleResponder = Some (bp_Second b) /\
    (digests_nonzero b = true ->
       VerifyPlanAgainstCommitment (H := mix_sha) (bp_First b) left_end (Commitment b) = None /\
       VerifyPlanAgainstCommitment (H := mix_sha) (bp_Second b) right_end (Commitment b) = None /\
       VerifyJointCommitment (H := mix_sha) (Commitment b) (Commitment b) = None).
Proof.
  exact (bilateral_accepted (H := mix_sha) (M := top_hmac) 1 left_end right_end left_end right_end run_derive run_key
    ends_canonical left_valid right_valid eq_refl eq_refl (top_succeeds _ _) (top_succeeds _ _)).
Qed.

Lemma joint_nonzero first second cands1 cands2 digest :
  allZero (lc_SourceDigest first) = false -> allZero (lc_SourceDigest second) = false ->
  allZero (lc_CostDigest first) = false -> allZero (lc_CostDigest second) = false ->
  allZero (lc_EvidenceDigest first) = false -> allZero (lc_EvidenceDigest second) = false -> allZero digest = false ->
  digests_nonzero (joint_of first second (plan_of (H := mix_sha) first cands1) (plan_of (H := mix_sha) second cands2)
    digest) = true.
Proof.
  intros H1 H2 H3 H4 H5 H6 H7. unfold digests_nonzero, direction_nonzero.
  cbn [joint_of bp_JointDigest Commitment jc_First jc_Second dc_SourceDigest dc_Triple Digests dt_Plan dt_Cost dt_Evidence
    bp_First bp_Second bp_FirstSource bp_SecondSource plan_of with_plan_digest unsigned_plan pn_PlanDigest pn_CostDigest
    pn_EvidenceDigest]. unfold digestPlan, sum256. rewrite H1, H2, H3, H4, H5, H6, H7. by rewrite !mix_sha_nonzero.
Qed.

Lemma run_end_nonzero role base evidence :
  allZero (lc_SourceDigest (run_end role base evidence)) = false /\
  allZero (lc_CostDigest (run_end role base evidence)) = false.
Proof. split; apply mix_sha_nonzero. Qed.

Lemma run_digests b :
  BuildBilateralPlan (H := mix_sha) (M := top_hmac) 1 left_end right_end (Some run_derive) = Some (Ok b) ->
  digests_nonzero b = true /\ bp_ResourceClass b = ResourcePredictive /\ pn_Executable (bp_First b) = true /\
  Forall candidate_typed (pn_Candidates (bp_First b)).
Proof.
  intros (first & second & shape1 & shape2 & key & cands1 & cands2 & [Hcan _ _ _ _ Hb1 _ ->])%bilateral_inv.
  rewrite ends_canonical in Hcan. injection Hcan as <- <-.
  split.
  { apply joint_nonzero;
      [exact (proj1 (run_end_nonzero _ _ _))|exact (proj1 (run_end_nonzero _ _ _))|
       exact (proj2 (run_end_nonzero _ _ _))|exact (proj2 (run_end_nonzero _ _ _))|lazy; reflexivity|lazy; reflexivity|].
    unfold digestJointCommitment, sum256. apply mix_sha_nonzero. }
  split; [reflexivity|]. split; [reflexivity|].
  cbn [joint_of bp_First plan_of with_plan_digest unsigned_plan pn_Candidates].
  destruct (predictive_scheduled (H := mix_sha) (M := top_hmac) 1 left_end right_end _ _ key cands1
    left_committed right_committed eq_refl eq_refl Hb1) as (permutation & _ & _ & Hspec).
  apply Forall_lookup. intros k c Hk. destruct (Hspec k c Hk) as (s & j & t & Hs & _ & Ht & ->).
  apply map_lookup_Some in Hs as (x & Hx & ->), Ht as (y & Hy & ->). apply lookup_seq in Hx, Hy. unfold candidate_typed, uint16. cbn [predictive_candidate cn_SocketSlot cn_ExpectedSourcePort
    cn_TargetPort sl_SocketSlot sl_ExpectedPublicSourcePort].
  pose proof (Z.mod_pos_bound (Z.of_nat x) 8). lia.
Qed.

(** ** Witnesses *)
Lemma predictive_rendezvous_witness :
  exists b, BuildBilateralPlan (H := mix_sha) (M := top_hmac) 1 left_end right_end (Some run_derive) = Some (Ok b) /\
    forall c, c ∈ pn_Candidates (bp_First b) -> exists! d, d ∈ pn_Candidates (bp_Second b) /\ crosses c d.
Proof.
  destruct run_accepted as (b & Hb & _). exists b. split; [exact Hb|].
  apply (predictive_rendezvous (H := mix_sha) (M := top_hmac) 1 left_end right_end run_derive b Hb).
  apply (run_digests b Hb).
Defined.

Definition hard_end : LocalSourceCommitment :=
  mkCommitment ProfileHardBirthday ResourceHard16KLab RoleInitiator (filled 1) 7 [] zero_endpoint
    (sh_universe (predictive_shape 32)) zero_cost zero_report
    (filled 2) (filled 3) (filled 4) (filled 5) false.

Lemma hard_schedule_complete_witness :
  exists cands, buildDirectionalCandidates (M := top_hmac) 1 hard_end hard_end run_key = Some (Ok cands) /\
    map cn_TargetPort cands ≡ₚ portRange 49152 65535.
Proof.
  destruct (hard_schedule_complete (M := top_hmac) 1 hard_end hard_end run_key eq_refl (top_succeeds _ _))
    as (cands & Hb & Hp & _). exists cands. by split.
Defined.

Lemma executable_verified {H : Sha256} p source joint :
  VerifyPlanAgainstCommitment p source joint = None -> pn_Executable p = true ->
  VerifyExecutablePlanAgainstCommitment p source joint = None.
Proof. unfold VerifyExecutablePlanAgainstCommitment. by intros -> ->. Qed.

Lemma executable_plan_within_envelope_witness :
  exists p window envelope, For (pn_Profile p) (pn_ResourceClass p) = Ok envelope /\ plan_within p envelope window.
Proof.
  destruct run_accepted as (b & Hb & _ & _ & Hv). destruct (run_digests b Hb) as (Hd & _ & Hx & _).
  destruct (Hv Hd) as (Hv1 & _).
  destruct (executable_plan_within_envelope (H := mix_sha) (bp_First b) left_end (Commitment b)
    (executable_verified _ _ _ Hv1 Hx)) as (envelope & operation & gprofile & limits & window & He & _ & _ & _ & _ & Hw & _).
  exists (bp_First b), window, envelope. exact (conj He Hw).
Defined.

Lemma verified_plan_unique_witness :
  exists p joint, VerifyPlanAgainstCommitment (H := mix_sha) p left_end joint = None /\
    forall p', Forall candidate_typed (pn_Candidates p') ->
      VerifyPlanAgainstCommitment (H := mix_sha) p' left_end joint = None ->
      p = p' \/
      plan_encoding p (lc_AttemptDigest left_end) <> plan_encoding p' (lc_AttemptDigest left_end) /\
      mix_sha (plan_encoding p (lc_AttemptDigest left_end)) = mix_sha (plan_encoding p' (lc_AttemptDigest left_end)).
Proof.
  destruct run_accepted as (b & Hb & _ & _ & Hv). destruct (run_digests b Hb) as (Hd & _ & _ & Ht).
  destruct (Hv Hd) as (Hv1 & _). exists (bp_First b), (Commitment b). split; [exact Hv1|]. intros p' Ht' Hv'.
  exact (verified_plan_unique (H := mix_sha) (bp_First b) p' left_end (Commitment b) Ht Ht' Hv1 Hv').
Defined.

(** An open endpoint-independent NAT with a port-dependent filter. *)
Definition run_nat : nat_box := mkNat MappingEIM FilteringAPDF (fun _ => mkAddressPort (v4 203 0 113 7) 40000).
Definition run_txs : list (list Z) := map (fun k => replicate 12 (Z.of_nat k)) (seq 1 5).

Lemma run_typed k : (1 <= k <= 200)%nat -> transaction_typed (replicate 12 (Z.of_nat k)) /\ allZero (replicate 12 (Z.of_nat k)) = false.
Proof.
  intros Hk. split; [split; [done|]|].
  - apply Forall_replicate. unfold is_byte. lia.
  - by destruct k; [lia|].
Qed.

Lemma run_observer_laws : observer_laws run_observer.
Proof. constructor; [..|discriminate|discriminate]; (split; [reflexivity|]); (split; [reflexivity|]); cbn; repeat constructor; lia. Qed.
Lemma run_nat_laws : nat_laws run_nat.
Proof.
  constructor; [reflexivity..| |].
  - intros d. split; [reflexivity|]. cbn. repeat constructor; lia.
  - by intros d d'.
Qed.

Lemma behavior_codec_roundtrip_witness :
  exists response, BuildBehaviorBindingSuccess (replicate 12 7)
    (response_attributes run_observer run_nat (ov_primary run_observer) (ov_other run_observer)) = Ok response.
Proof.
  destruct (behavior_codec_roundtrip (replicate 12 (Z.of_nat 7)) (mkChange false true)
    (response_attributes run_observer run_nat (ov_primary run_observer) (ov_other run_observer))) as [_ (r & Hr & _)].
  - apply run_typed. lia.
  - apply run_typed. lia.
  - destruct run_observer_laws as [Hp Ho _ _]. destruct run_nat_laws as [_ _ Hv Ht _].
    split_and!; cbn [response_attributes ba_HasMapped ba_Mapped ba_HasResponseOrigin ba_ResponseOrigin ba_HasOtherAddress
      ba_OtherAddress]; auto.
  - exists r. exact Hr.
Defined.

Lemma discovery_of_reference_nat_witness :
  deriveRFC5780Transcript (nat_transcript run_observer run_nat 0 run_txs [1; 2; 3; 4; 5])
  = Ok (mkDerived MappingEIM FilteringADF (mkAddressPort (v4 203 0 113 7) 40000)).
Proof.
  apply (discovery_of_reference_nat run_observer run_nat 0 run_txs [1; 2; 3; 4; 5] run_observer_laws run_nat_laws).
  - split; [reflexivity|]. split; [vm_compute; repeat constructor; set_solver|].
    apply Forall_map, Forall_forall. intros k Hk%elem_of_seq. apply run_typed. lia.
  - split; [reflexivity|]. repeat constructor.
Defined.

Definition run_samples : list AllocationSample :=
  map (fun k => mkSample (mkMeta SourceLocalTomography OriginLocalTransaction (v4 192 0 2 1) 3478 (Z.of_nat k) [] [] 7 1)
         (Z.of_nat k) (Z.of_nat k) (v4 203 0 113 7) (allocator 65500 5 k) true) (seq 0 8).
Definition run_state : StateModel :=
  mkModel MappingAPDM SourceRFC5780 FilteringAPDF SourceRFC5780 AllocationInsufficientData true 8 0 2 true 0 0 0 0
    "none" [] zero_endpoint 0 zero_digest zero_digest zero_digest 9 true "window".

Lemma sequential_prediction_exact_witness :
  sm_PredictedNextPort (classified run_samples run_state) = 6 /\
  NoDup (sm_PredictedSourcePorts (classified run_samples run_state)).
Proof.
  destruct (sequential_prediction_exact 65500 5 run_samples run_state)
    as (_ & _ & _ & Hn & _ & Hd & _).
  - vm_compute. by split.
  - by vm_compute.
  - intros k s (x & Hx & ->)%map_lookup_Some. apply lookup_seq in Hx as [-> _]. reflexivity.
  - split; [by rewrite Hn|exact Hd].
Defined.

(** A run whose evidence admits a predictive commitment. *)
Definition none_err {E} (e : option E) : bool := match e with None => true | Some _ => false end.
Definition run_input (role : string) (r : Result) : LocalCommitmentInput :=
  mkLocalInput ProfilePredictiveEdm ResourcePredictive (mkAttemptContext (filled 1) 7 role) (rt_Graph r) (rt_Trusted r)
    (sh_cost (predictive_shape 0)).
Definition admits_commitment (g : EvidenceGraph) (t : TrustedValidationContext) : bool :=
  let '(m, err) := InferStateModel g t in
  none_err err && none_err (validateModelForProfile ProfilePredictiveEdm RoleInitiator m)
  && negb (existsb (fun port => port =? 0) (sm_PredictedSourcePorts m))
  && (0 <? Z.of_nat (length (sm_PredictedSourcePorts m)))
  && bool_decide (filled 1 = eg_AttemptDigest g) && (7 =? eg_Generation g) && negb (allZero (sm_EvidenceDigest m))
  && forallb (fun t => Z.of_nat (length (ts_Exchanges t)) =? RFC5780ExchangeCount) (eg_RFC5780 g)
  && forallb (fun s => (0 <=? as_MappedPort s) && (as_MappedPort s <? 2 ^ 16)) (eg_Allocation g)
  && forallb (fun t => (0 <=? ts_SocketSlot t) && (ts_SocketSlot t <? 128)) (eg_RFC5780 g).

Lemma forallb_Forall {A} (f : A -> bool) (P : A -> Prop) l :
  (forall x, f x = true -> P x) -> forallb f l = true -> Forall P l.
Proof. intros Hf Hl. rewrite forallb_forall in Hl. apply Forall_forall. intros x Hx%list_elem_of_In. auto. Qed.

Lemma admitted_commitment role r :
  role = RoleInitiator \/ role = RoleResponder -> admits_commitment (rt_Graph r) (rt_Trusted r) = true ->
  typed_transcripts (eg_RFC5780 (rt_Graph r)) /\ typed_evidence (rt_Graph r) /\
  exists c, BuildLocalCommitment (run_input role r) = Ok c /\ allZero (lc_EvidenceDigest c) = false /\
    lc_Role c <> RoleTargetSet.
Proof.
  intros Hrole. unfold admits_commitment. destruct (InferStateModel _ _) as [m [err|]] eqn:Hi; [done|].
  destruct (validateModelForProfile _ _ _) eqn:Hm; [done|]. cbn [none_err andb].
  intros E. repeat match type of E with _ && _ = true => apply andb_true_iff in E as [E ?] end.
  repeat match goal with
  | Hx : bool_decide _ = true |- _ => apply bool_decide_eq_true in Hx
  | Hx : (_ =? _) = true |- _ => apply Z.eqb_eq in Hx
  | Hx : (_ <? _) = true |- _ => apply Z.ltb_lt in Hx
  | Hx : negb _ = true |- _ => apply negb_true_iff in Hx
  end.
  split; [|split; [split|]].
  1-3: unfold typed_transcripts; match goal with Hf : forallb _ _ = true |- _ =>
    solve [eapply forallb_Forall; [|exact Hf]; cbv beta; unfold port_typed; intros x Hx; lia] end.
  destruct (build_predictive_total role (mkAttemptContext (filled 1) 7 role) (rt_Graph r) (rt_Trusted r)
    (sh_cost (predictive_shape 0)) m) as [c Hc]; auto.
  exists c. split; [exact Hc|]. destruct (built_context _ _ Hc) as (_ & _ & Hro & _).
  apply build_local_inv in Hc as (m' & shape & report & slots & endpoint & Hb).
  pose proof (lb_infer _ _ _ _ _ _ _ Hb) as Hi'. cbn [li_Evidence li_Validation] in Hi'. rewrite Hi in Hi'.
  injection Hi' as <-. split; [by rewrite (lb_commitment _ _ _ _ _ _ _ Hb)|].
  rewrite Hro. by destruct Hrole as [->| ->].
Qed.

Definition run_admits (r : res observe_err Result) : bool :=
  match r with Ok r => admits_commitment (rt_Graph r) (rt_Trusted r) | Err _ => false end.

Lemma commitment_exactly_issued_witness :
  exists r, run_collect 3 MappingAPDM FilteringAPDF 1 = Ok r /\ fresh (rt_Graph r) (rt_Trusted r).
Proof.
  assert (Hr : run_admits (run_collect 3 MappingAPDM FilteringAPDF 1) = true) by (vm_compute; reflexivity).
  destruct (run_collect 3 MappingAPDM FilteringAPDF 1) as [r|]; [|discriminate Hr].
  destruct (admitted_commitment RoleInitiator r (or_introl eq_refl) Hr) as (Ht & _ & c & Hc & _).
  exists r. split; [reflexivity|].
  destruct (commitment_exactly_issued (run_input RoleInitiator r) c Ht Hc) as (_ & _ & _ & _ & Hf). exact Hf.
Defined.

Lemma built_commitment_well_formed_witness :
  exists r c, BuildLocalCommitment (run_input RoleInitiator r) = Ok c /\ validateLocalCommitment c = None.
Proof.
  assert (Hr : run_admits (run_collect 3 MappingAPDM FilteringAPDF 1) = true) by (vm_compute; reflexivity).
  destruct (run_collect 3 MappingAPDM FilteringAPDF 1) as [r|]; [|discriminate Hr].
  destruct (admitted_commitment RoleInitiator r (or_introl eq_refl) Hr) as (_ & Ht & c & Hc & He & Hro).
  destruct (built_commitment_well_formed (run_input RoleInitiator r) c Ht Hc) as [Hv Hs].
  exists r, c. split; [exact Hc|]. apply Hv. split; [exact He|]. apply Hs. left. exact Hro.
Defined.

Lemma evidence_to_plan_witness :
  exists c1 c2 b, BuildBilateralPlan (M := top_hmac) 1 c1 c2 (Some run_derive) = Some (Ok b) /\
    PlanForRole b (lc_Role c1) = Some (bp_First b).
Proof.
  assert (H3 : run_admits (run_collect 3 MappingAPDM FilteringAPDF 1) = true) by (vm_compute; reflexivity).
  assert (H6 : run_admits (run_collect 6 MappingAPDM FilteringAPDF 2) = true) by (vm_compute; reflexivity).
  destruct (run_collect 3 MappingAPDM FilteringAPDF 1) as [r|]; [|discriminate H3].
  destruct (run_collect 6 MappingAPDM FilteringAPDF 2) as [r'|]; [|discriminate H6].
  destruct (admitted_commitment RoleInitiator r (or_introl eq_refl) H3) as (_ & Ht1 & c1 & Hc1 & He1 & Hr1).
  destruct (admitted_commitment RoleResponder r' (or_intror eq_refl) H6) as (_ & Ht2 & c2 & Hc2 & He2 & Hr2).
  destruct (evidence_to_plan (M := top_hmac) 1 (run_input RoleInitiator r) (run_input RoleResponder r') c1 c2 run_derive
    run_key Ht1 Ht2 Hc1 Hc2 (or_introl Hr1) (or_introl Hr2) He1 He2 eq_refl eq_refl eq_refl eq_refl eq_refl eq_refl eq_refl (top_succeeds _ _)
    (top_succeeds _ _)) as (b & Hb & _ & Hp & _).
  exists c1, c2, b. split; [exact Hb|exact Hp].
Defined.

Lemma collect_sends_plan_witness :
  length (os_log (fst (Collect run_clock (run_config 3) (run_box MappingAPDM FilteringAPDF 1)))) = 13%nat.
Proof.
  destruct (collect_sends_plan run_clock (run_config 3) (run_box MappingAPDM FilteringAPDF 1)
    (fst (Collect run_clock (run_config 3) (run_box MappingAPDM FilteringAPDF 1)))
    (snd (Collect run_clock (run_config 3) (run_box MappingAPDM FilteringAPDF 1)))) as (_ & _ & Hok).
  { by rewrite <-surjective_pairing. }
  assert (Hr : run_admits (run_collect 3 MappingAPDM FilteringAPDF 1) = true) by (vm_compute; reflexivity).
  unfold run_collect in Hr. destruct (snd _) as [result|]; [|discriminate Hr].
  destruct (Hok result eq_refl) as [Hl _]. apply Nat2Z.inj. exact Hl.
Defined.
