(* ===== verification/ProbeIO.v ===== *)
(** * Probe I/O: the controller of an attempt's sockets
    (src/internal/probeio/probeio.go, terminal_revoke.go)

    A [Controller] owns the sockets of one attempt: it admits every open, every
    target and every packet against the reservation of the attempt's lease,
    hands one verified socket over, and trips the machine when a limit would be
    exceeded.  Everything between [c.mu.Lock] and [c.mu.Unlock] is one function
    of the first part (data, guards, accounting); the second part composes them
    into the operations and interleaves these.

    Code outside the package is an argument: the current generation, the
    readings of the clock, whether the lease revokes probing, and what the
    factory, the datagrams and the verifier answer.  The build is the default
    one: the hooks of deployment_scope_default.go add no further scope.  The two
    [Done] calls at the end of an operation are one step, and an operation that
    returns a value records its error only. *)
From stdpp Require Import pretty.
From S2P Require Import Prelude GoStd Limits SafetyTrip Governor GovernorSteps.
Open Scope go_scope.

(** ** [net/netip] *)

(** [Addr4] holds 32 bits, [Addr6] 128 bits and a zone; [AddrNone] is the zero
    value. *)
Inductive NetAddr :=
| AddrNone
| Addr4 (bits : Z)
| Addr6 (bits : Z) (zone : string).

Record AddrPort := mkAddrPort { ap_addr : NetAddr; ap_port : Z }.

#[export] Instance Addr_eq_dec : EqDecision NetAddr.
Proof. solve_decision. Defined.

#[export] Instance AddrPort_eq_dec : EqDecision AddrPort.
Proof. solve_decision. Defined.

#[export] Instance AddrPort_countable : Countable AddrPort.
Proof.
  refine (inj_countable'
    (fun a => (match ap_addr a with
               | AddrNone => (0%nat, 0, "") | Addr4 b => (1%nat, b, "") | Addr6 b z => (2%nat, b, z)
               end, ap_port a))
    (fun '(k, b, z, p) => mkAddrPort
       match k with 0%nat => AddrNone | 1%nat => Addr4 b | _ => Addr6 b z end p) _).
  by intros [[] ?].
Defined.

Definition Addr_IsValid (a : NetAddr) : bool :=
  match a with AddrNone => false | _ => true end.

(** [Is4In6]: the high 80 bits are zero and the next 16 are one. *)
Definition Is4In6 (a : NetAddr) : bool :=
  match a with Addr6 b _ => Z.shiftr b 32 =? 65535 | _ => false end.

Definition Unmap (a : NetAddr) : NetAddr :=
  match a with
  | Addr6 b _ => if Is4In6 a then Addr4 (b mod 2 ^ 32) else a
  | _ => a
  end.

Definition IPv4Unspecified : NetAddr := Addr4 0.
Definition IPv6Unspecified : NetAddr := Addr6 0 "".
Definition IsUnspecified (a : NetAddr) : bool :=
  bool_decide (a = IPv4Unspecified) || bool_decide (a = IPv6Unspecified).

(** [IsMulticast]; an IPv4-mapped address is judged by its IPv4 address. *)
Definition IsMulticast (a : NetAddr) : bool :=
  match Unmap a with
  | AddrNone => false
  | Addr4 b => Z.shiftr b 28 =? 14
  | Addr6 b _ => Z.shiftr b 120 =? 255
  end.

Definition broadcast : NetAddr := Addr4 4294967295.

(** ** Errors *)
Inductive probe_err :=
| PErrInvalidConfig
| PErrLeaseClosed
| PErrSocketClosed
| PErrUnregisteredTarget
| PErrInvalidTarget
| PErrReplyRejected
| PErrReplyNotVerified
| PErrHardLimit
| PErrResourceExhausted
| PErrWriteFailures
| PErrStaleGeneration
| PErrAlreadyPromoted
| PErrDatagramContract
| PShortWrite
| PContext (msg : string)
| PEnv (msg : string)
| PGovernor (e : goerr)
| PJoin (errs : list probe_err).

(** [errors.Join]. *)
Definition probe_join (errs : list (option probe_err)) : option probe_err :=
  match omap id errs with [] => None | l => Some (PJoin l) end.

Definition canonicalTarget (target : AddrPort) : res probe_err AddrPort :=
  if negb (Addr_IsValid (ap_addr target)) || (ap_port target =? 0)
     || IsUnspecified (ap_addr target) || IsMulticast (ap_addr target)
  then Err PErrInvalidTarget
  else
    let canonical := mkAddrPort (Unmap (ap_addr target)) (ap_port target) in
    if bool_decide (ap_addr canonical = IPv4Unspecified)
       || bool_decide (ap_addr canonical = broadcast)
    then Err PErrInvalidTarget
    else Ok canonical.

(** ** Texts *)
Definition validateText (value : string) (maxBytes : Z) (allowEmpty : bool) : option probe_err :=
  if negb (valid_utf8 value) then Some PErrInvalidConfig
  else if negb allowEmpty && all_space value then Some PErrInvalidConfig
  else if negb (trimmed value) then Some PErrInvalidConfig
  else if maxBytes <? slen value then Some PErrInvalidConfig
  else if has_control value then Some PErrInvalidConfig
  else None.

Definition normalizeBuildVersion (value : string) : res probe_err string :=
  check! validateText value 128 true in Ok value.

(** [strings.ToValidUTF8(detail, "?")] on the encodings of the runes: a run of
    invalid bytes becomes one question mark. *)
Definition valid_chunk (chunk : list Z) : bool := forallb snd (runes chunk).
Fixpoint to_valid (after_invalid : bool) (chunks : list (list Z)) : list (list Z) :=
  match chunks with
  | [] => []
  | chunk :: chunks' =>
      if valid_chunk chunk then chunk :: to_valid false chunks'
      else if after_invalid then to_valid true chunks'
      else [63] :: to_valid true chunks'
  end.

(** [strings.Map] with a space for every control character. *)
Definition blank_control (chunk : list Z) : list Z :=
  if existsb (fun r => is_control (fst r)) (runes chunk) then [32] else chunk.

(** The loop that drops the last rune while the text is too long, on the
    reversed encodings. *)
Fixpoint shorten (maxBytes : Z) (rchunks : list (list Z)) : list (list Z) :=
  match rchunks with
  | [] => []
  | _ :: rchunks' =>
      if maxBytes <? blen (concat rchunks) then shorten maxBytes rchunks' else rchunks
  end.

Definition boundedDetail (detail : string) : string :=
  let chunks := map blank_control (to_valid false (rune_chunks (string_bytes detail))) in
  let chunks := rev (drop_spaces (rev (drop_spaces chunks))) in
  bytes_string (concat (rev (shorten 512 (rev chunks)))).

(** ** Sockets and the controller *)
Inductive socketLifecycle := socketOpen | socketPromoting | socketPromoted | socketClosed.

#[export] Instance socketLifecycle_eq_dec : EqDecision socketLifecycle.
Proof. solve_decision. Defined.

(** [ss_cancelled] is [ctx] after [cancel]; [ss_ops] counts the operations
    between [ops.Add] and [ops.Done]; [ss_closed] says that the datagram has
    been closed. *)
Record socketState := mkSocket {
  ss_state : socketLifecycle;
  ss_targets : gset AddrPort;
  ss_verified : gset AddrPort;
  ss_writeFails : Z;
  ss_cancelled : bool;
  ss_ops : Z;
  ss_closed : bool;
}.

(** What does not change after [New]. *)
Record ProbeConfig := mkProbeConfig {
  cfg_lease : ptr;
  cfg_expectedGeneration : Z;
  cfg_buildVersion : string;
  cfg_request : AttemptRequest;
  cfg_startedAt : Time;
  cfg_drain : Z;
}.

(** [sync.Once] of [stopLocal]. *)
Inductive once := OnceIdle | OnceRunning | OnceDone.

#[export] Instance once_eq_dec : EqDecision once.
Proof. solve_decision. Defined.

(** The socket states are shared by the map, the handles and the goroutines:
    [pc_heap] holds all of them, [pc_sockets] the keys of the map [sockets].  A
    channel that is closed once is a boolean; the counter of identifiers is not
    wrapped. *)
Record Controller := mkController {
  pc_config : ProbeConfig;
  pc_stopped : bool;
  pc_tripping : bool;
  pc_promoted : bool;
  pc_pending : Z;
  pc_pendingDone : bool;
  pc_nextID : Z;
  pc_heap : gmap Z socketState;
  pc_sockets : gset Z;
  pc_targetRefs : gmap AddrPort Z;
  pc_fiveTuples : Z;
  pc_packetsSent : Z;
  pc_sendTimes : list Time;
  pc_lastNow : Time;
  pc_cancelled : bool;
  pc_handoffDone : bool;
  pc_drainOnce : once;
  pc_ops : Z;
  pc_watchDone : bool;
}.

(** *** Field updates *)

Definition set_ss_state (v : socketLifecycle) (s : socketState) : socketState := mkSocket v
  (ss_targets s) (ss_verified s) (ss_writeFails s) (ss_cancelled s) (ss_ops s) (ss_closed s).
Definition set_ss_targets (v : gset AddrPort) (s : socketState) : socketState := mkSocket
  (ss_state s) v (ss_verified s) (ss_writeFails s) (ss_cancelled s) (ss_ops s) (ss_closed s).
Definition set_ss_verified (v : gset AddrPort) (s : socketState) : socketState := mkSocket
  (ss_state s) (ss_targets s) v (ss_writeFails s) (ss_cancelled s) (ss_ops s) (ss_closed s).
Definition set_ss_writeFails (v : Z) (s : socketState) : socketState := mkSocket (ss_state s)
  (ss_targets s) (ss_verified s) v (ss_cancelled s) (ss_ops s) (ss_closed s).
Definition set_ss_cancelled (v : bool) (s : socketState) : socketState := mkSocket (ss_state s)
  (ss_targets s) (ss_verified s) (ss_writeFails s) v (ss_ops s) (ss_closed s).
Definition set_ss_ops (v : Z) (s : socketState) : socketState := mkSocket (ss_state s) (ss_targets
  s) (ss_verified s) (ss_writeFails s) (ss_cancelled s) v (ss_closed s).
Definition set_ss_closed (v : bool) (s : socketState) : socketState := mkSocket (ss_state s)
  (ss_targets s) (ss_verified s) (ss_writeFails s) (ss_cancelled s) (ss_ops s) v.
Definition set_pc_stopped (v : bool) (c : Controller) : Controller := mkController (pc_config c) v
  (pc_tripping c) (pc_promoted c) (pc_pending c) (pc_pendingDone c) (pc_nextID c) (pc_heap c)
  (pc_sockets c) (pc_targetRefs c) (pc_fiveTuples c) (pc_packetsSent c) (pc_sendTimes c)
  (pc_lastNow c) (pc_cancelled c) (pc_handoffDone c) (pc_drainOnce c) (pc_ops c) (pc_watchDone c).
Definition set_pc_tripping (v : bool) (c : Controller) : Controller := mkController (pc_config c)
  (pc_stopped c) v (pc_promoted c) (pc_pending c) (pc_pendingDone c) (pc_nextID c) (pc_heap c)
  (pc_sockets c) (pc_targetRefs c) (pc_fiveTuples c) (pc_packetsSent c) (pc_sendTimes c)
  (pc_lastNow c) (pc_cancelled c) (pc_handoffDone c) (pc_drainOnce c) (pc_ops c) (pc_watchDone c).
Definition set_pc_promoted (v : bool) (c : Controller) : Controller := mkController (pc_config c)
  (pc_stopped c) (pc_tripping c) v (pc_pending c) (pc_pendingDone c) (pc_nextID c) (pc_heap c)
  (pc_sockets c) (pc_targetRefs c) (pc_fiveTuples c) (pc_packetsSent c) (pc_sendTimes c)
  (pc_lastNow c) (pc_cancelled c) (pc_handoffDone c) (pc_drainOnce c) (pc_ops c) (pc_watchDone c).
Definition set_pc_pending (v : Z) (c : Controller) : Controller := mkController (pc_config c)
  (pc_stopped c) (pc_tripping c) (pc_promoted c) v (pc_pendingDone c) (pc_nextID c) (pc_heap c)
  (pc_sockets c) (pc_targetRefs c) (pc_fiveTuples c) (pc_packetsSent c) (pc_sendTimes c)
  (pc_lastNow c) (pc_cancelled c) (pc_handoffDone c) (pc_drainOnce c) (pc_ops c) (pc_watchDone c).
Definition set_pc_pendingDone (v : bool) (c : Controller) : Controller := mkController (pc_config
  c) (pc_stopped c) (pc_tripping c) (pc_promoted c) (pc_pending c) v (pc_nextID c) (pc_heap c)
  (pc_sockets c) (pc_targetRefs c) (pc_fiveTuples c) (pc_packetsSent c) (pc_sendTimes c)
  (pc_lastNow c) (pc_cancelled c) (pc_handoffDone c) (pc_drainOnce c) (pc_ops c) (pc_watchDone c).
Definition set_pc_nextID (v : Z) (c : Controller) : Controller := mkController (pc_config c)
  (pc_stopped c) (pc_tripping c) (pc_promoted c) (pc_pending c) (pc_pendingDone c) v (pc_heap c)
  (pc_sockets c) (pc_targetRefs c) (pc_fiveTuples c) (pc_packetsSent c) (pc_sendTimes c)
  (pc_lastNow c) (pc_cancelled c) (pc_handoffDone c) (pc_drainOnce c) (pc_ops c) (pc_watchDone c).
Definition set_pc_heap (v : gmap Z socketState) (c : Controller) : Controller := mkController
  (pc_config c) (pc_stopped c) (pc_tripping c) (pc_promoted c) (pc_pending c) (pc_pendingDone c)
  (pc_nextID c) v (pc_sockets c) (pc_targetRefs c) (pc_fiveTuples c) (pc_packetsSent c)
  (pc_sendTimes c) (pc_lastNow c) (pc_cancelled c) (pc_handoffDone c) (pc_drainOnce c) (pc_ops c)
  (pc_watchDone c).
Definition set_pc_sockets (v : gset Z) (c : Controller) : Controller := mkController (pc_config c)
  (pc_stopped c) (pc_tripping c) (pc_promoted c) (pc_pending c) (pc_pendingDone c) (pc_nextID c)
  (pc_heap c) v (pc_targetRefs c) (pc_fiveTuples c) (pc_packetsSent c) (pc_sendTimes c)
  (pc_lastNow c) (pc_cancelled c) (pc_handoffDone c) (pc_drainOnce c) (pc_ops c) (pc_watchDone c).
Definition set_pc_targetRefs (v : gmap AddrPort Z) (c : Controller) : Controller := mkController
  (pc_config c) (pc_stopped c) (pc_tripping c) (pc_promoted c) (pc_pending c) (pc_pendingDone c)
  (pc_nextID c) (pc_heap c) (pc_sockets c) v (pc_fiveTuples c) (pc_packetsSent c) (pc_sendTimes c)
  (pc_lastNow c) (pc_cancelled c) (pc_handoffDone c) (pc_drainOnce c) (pc_ops c) (pc_watchDone c).
Definition set_pc_fiveTuples (v : Z) (c : Controller) : Controller := mkController (pc_config c)
  (pc_stopped c) (pc_tripping c) (pc_promoted c) (pc_pending c) (pc_pendingDone c) (pc_nextID c)
  (pc_heap c) (pc_sockets c) (pc_targetRefs c) v (pc_packetsSent c) (pc_sendTimes c) (pc_lastNow
  c) (pc_cancelled c) (pc_handoffDone c) (pc_drainOnce c) (pc_ops c) (pc_watchDone c).
Definition set_pc_packetsSent (v : Z) (c : Controller) : Controller := mkController (pc_config c)
  (pc_stopped c) (pc_tripping c) (pc_promoted c) (pc_pending c) (pc_pendingDone c) (pc_nextID c)
  (pc_heap c) (pc_sockets c) (pc_targetRefs c) (pc_fiveTuples c) v (pc_sendTimes c) (pc_lastNow c)
  (pc_cancelled c) (pc_handoffDone c) (pc_drainOnce c) (pc_ops c) (pc_watchDone c).
Definition set_pc_sendTimes (v : list Time) (c : Controller) : Controller := mkController
  (pc_config c) (pc_stopped c) (pc_tripping c) (pc_promoted c) (pc_pending c) (pc_pendingDone c)
  (pc_nextID c) (pc_heap c) (pc_sockets c) (pc_targetRefs c) (pc_fiveTuples c) (pc_packetsSent c)
  v (pc_lastNow c) (pc_cancelled c) (pc_handoffDone c) (pc_drainOnce c) (pc_ops c) (pc_watchDone
  c).
Definition set_pc_lastNow (v : Time) (c : Controller) : Controller := mkController (pc_config c)
  (pc_stopped c) (pc_tripping c) (pc_promoted c) (pc_pending c) (pc_pendingDone c) (pc_nextID c)
  (pc_heap c) (pc_sockets c) (pc_targetRefs c) (pc_fiveTuples c) (pc_packetsSent c) (pc_sendTimes
  c) v (pc_cancelled c) (pc_handoffDone c) (pc_drainOnce c) (pc_ops c) (pc_watchDone c).
Definition set_pc_cancelled (v : bool) (c : Controller) : Controller := mkController (pc_config c)
  (pc_stopped c) (pc_tripping c) (pc_promoted c) (pc_pending c) (pc_pendingDone c) (pc_nextID c)
  (pc_heap c) (pc_sockets c) (pc_targetRefs c) (pc_fiveTuples c) (pc_packetsSent c) (pc_sendTimes
  c) (pc_lastNow c) v (pc_handoffDone c) (pc_drainOnce c) (pc_ops c) (pc_watchDone c).
Definition set_pc_handoffDone (v : bool) (c : Controller) : Controller := mkController (pc_config
  c) (pc_stopped c) (pc_tripping c) (pc_promoted c) (pc_pending c) (pc_pendingDone c) (pc_nextID
  c) (pc_heap c) (pc_sockets c) (pc_targetRefs c) (pc_fiveTuples c) (pc_packetsSent c)
  (pc_sendTimes c) (pc_lastNow c) (pc_cancelled c) v (pc_drainOnce c) (pc_ops c) (pc_watchDone c).
Definition set_pc_drainOnce (v : once) (c : Controller) : Controller := mkController (pc_config c)
  (pc_stopped c) (pc_tripping c) (pc_promoted c) (pc_pending c) (pc_pendingDone c) (pc_nextID c)
  (pc_heap c) (pc_sockets c) (pc_targetRefs c) (pc_fiveTuples c) (pc_packetsSent c) (pc_sendTimes
  c) (pc_lastNow c) (pc_cancelled c) (pc_handoffDone c) v (pc_ops c) (pc_watchDone c).
Definition set_pc_ops (v : Z) (c : Controller) : Controller := mkController (pc_config c)
  (pc_stopped c) (pc_tripping c) (pc_promoted c) (pc_pending c) (pc_pendingDone c) (pc_nextID c)
  (pc_heap c) (pc_sockets c) (pc_targetRefs c) (pc_fiveTuples c) (pc_packetsSent c) (pc_sendTimes
  c) (pc_lastNow c) (pc_cancelled c) (pc_handoffDone c) (pc_drainOnce c) v (pc_watchDone c).
Definition set_pc_watchDone (v : bool) (c : Controller) : Controller := mkController (pc_config c)
  (pc_stopped c) (pc_tripping c) (pc_promoted c) (pc_pending c) (pc_pendingDone c) (pc_nextID c)
  (pc_heap c) (pc_sockets c) (pc_targetRefs c) (pc_fiveTuples c) (pc_packetsSent c) (pc_sendTimes
  c) (pc_lastNow c) (pc_cancelled c) (pc_handoffDone c) (pc_drainOnce c) (pc_ops c) v.

Definition upd_socket (id : Z) (f : socketState -> socketState) (c : Controller) : Controller :=
  set_pc_heap (alter f id (pc_heap c)) c.

Definition cost_of_config (c : Controller) : AttemptCost := req_Cost (cfg_request (pc_config c)).
Definition limits_of (c : Controller) : Resources := cost_Resources (cost_of_config c).

(** ** [New] *)
Definition validateResources (resources : Resources) : option probe_err :=
  if (Sockets resources <? 0) || (Targets resources <? 0) || (PacketsPerSecond resources <? 0)
     || (Packets resources <? 0) || (FiveTuples resources <? 0)
  then Some PErrInvalidConfig
  else if bool_decide (resources = resources_zero) then Some PErrInvalidConfig
  else None.

Definition validateEnforcedCost (reserved enforced : AttemptCost) : option probe_err :=
  if (cost_Duration enforced <=? 0) || (cost_Duration reserved <? cost_Duration enforced)
     || cost_Heavyweight enforced && negb (cost_Heavyweight reserved)
  then Some PErrInvalidConfig
  else
    validateResources (cost_Resources enforced) &then
    let want := cost_Resources enforced in
    let have := cost_Resources reserved in
    if (Sockets have <? Sockets want) || (Targets have <? Targets want)
       || (PacketsPerSecond have <? PacketsPerSecond want) || (Packets have <? Packets want)
       || (FiveTuples have <? FiveTuples want)
    then Some PErrInvalidConfig
    else None.

Definition can_probe (operation : Operation) : bool :=
  bool_decide (operation = OperationDiagnose) || bool_decide (operation = OperationConnectTest)
  || bool_decide (operation = OperationPrediction) || bool_decide (operation = OperationBirthday).

(** The request the controller enforces: that of the lease, with a lower cost
    where one is given. *)
Definition enforced_request (request : AttemptRequest) (enforced : option AttemptCost)
    : res probe_err AttemptRequest :=
  if negb (can_probe (req_Operation request)) then Err PErrInvalidConfig
  else if cost_Duration (req_Cost request) <=? 0 then Err PErrInvalidConfig
  else
    check! validateResources (cost_Resources (req_Cost request)) in
    match enforced with
    | None => Ok request
    | Some cost =>
        check! validateEnforcedCost (req_Cost request) cost in
        Ok (mkRequest (req_ID request) (req_Operation request) cost)
    end.

Definition new_controller (config : ProbeConfig) : Controller :=
  mkController config false false false 0 true 0 ∅ ∅ ∅ 0 0 [] (cfg_startedAt config)
    false false OnceIdle 0 false.

(** [New] for a lease of the governor; [current] is the current generation and
    [now] the reading of the clock after the drain is registered. *)
Definition Controller_New (a : ptr) (current expected : Z) (enforced : option AttemptCost)
    (buildVersion : string) (now : Time) (g : Governor) : Governor * res probe_err Controller :=
  match g_aheap g !! a with
  | None => (g, Err PErrInvalidConfig)
  | Some l =>
      match enforced_request (al_request l) enforced with
      | Err e => (g, Err e)
      | Ok request =>
          if negb (current =? expected) then (g, Err PErrStaleGeneration) else
          match normalizeBuildVersion buildVersion with
          | Err e => (g, Err e)
          | Ok buildVersion =>
              match registerDrain a "probeio-controller" false g with
              | (g', Err e) => (g', Err (PGovernor e))
              | (g', Ok drain) =>
                  (g', Ok (new_controller
                             (mkProbeConfig a expected buildVersion request now drain)))
              end
          end
      end
  end.

(** ** The guard of every operation *)

(** [v_reason] is [None] for the empty reason. *)
Record safetyViolation := mkViolation {
  v_reason : option SafetyTripReason;
  v_detail : string;
  v_cause : option probe_err;
}.

Definition violation_closed : safetyViolation := mkViolation None "" (Some PErrLeaseClosed).
Definition violation_limit (detail : string) : safetyViolation :=
  mkViolation (Some SafetyTripHardLimit) detail (Some PErrHardLimit).

Definition decimal (n : Z) : string := pretty (Z.to_N n).

Definition stale_detail (expected current : Z) : string :=
  ("active probe generation=" +:+ decimal expected) +:+ (" current=" +:+ decimal current).

Definition guardViolationLocked (revoked : bool) (current : Z) (now : Time) (c : Controller)
    : Controller * option safetyViolation :=
  if pc_stopped c || pc_tripping c then (c, Some violation_closed)
  else if revoked then (c, Some violation_closed)
  else if negb (current =? cfg_expectedGeneration (pc_config c)) then
    (c, Some (mkViolation (Some SafetyTripStaleGeneration)
                (stale_detail (cfg_expectedGeneration (pc_config c)) current)
                (Some PErrStaleGeneration)))
  else if Before now (pc_lastNow c) then
    (c, Some (violation_limit "probe budget clock moved backwards"))
  else
    let c := set_pc_lastNow now c in
    if negb (Before now (TAdd (cfg_startedAt (pc_config c)) (cost_Duration (cost_of_config c))))
    then (c, Some (violation_limit "attempt duration budget exhausted"))
    else (c, None).

(** ** Accounting *)

(** The loop that drops the sends at or before the cutoff. *)
Fixpoint expire (cutoff : Time) (times : list Time) : list Time :=
  match times with
  | [] => []
  | t :: times' => if negb (After t cutoff) then expire cutoff times' else times
  end.

Definition reserveSendLocked (now : Time) (c : Controller) : Controller * option safetyViolation :=
  let resources := limits_of c in
  if Packets resources <=? pc_packetsSent c then
    (c, Some (violation_limit "total outbound packet reservation exceeded"))
  else
    let cutoff := TAdd now (- Second) in
    let c := set_pc_sendTimes (expire cutoff (pc_sendTimes c)) c in
    if PacketsPerSecond resources <=? Z.of_nat (length (pc_sendTimes c)) then
      (c, Some (violation_limit "outbound packets-per-second reservation exceeded"))
    else
      (set_pc_sendTimes (pc_sendTimes c ++ [now]) (set_pc_packetsSent (pc_packetsSent c + 1) c),
       None).

Definition addPendingLocked (c : Controller) : Controller :=
  let c := if pc_pending c =? 0 then set_pc_pendingDone false c else c in
  set_pc_pending (pc_pending c + 1) c.

Definition finishPendingLocked (c : Controller) : Controller :=
  if pc_pending c <=? 0 then c else
  let c := set_pc_pending (pc_pending c - 1) c in
  if pc_pending c =? 0 then set_pc_pendingDone true c else c.

(** [targetRefs[target]]; an absent key reads as zero. *)
Definition refs_at (refs : gmap AddrPort Z) (target : AddrPort) : Z := default 0 (refs !! target).

Definition release_target (st : gmap AddrPort Z * Z) (target : AddrPort) : gmap AddrPort Z * Z :=
  let '(refs, fiveTuples) := st in
  (if refs_at refs target <=? 1 then delete target refs
   else <[target := refs_at refs target - 1]> refs,
   if 0 <? fiveTuples then fiveTuples - 1 else fiveTuples).

Definition releaseTargetsLocked (id : Z) (c : Controller) : Controller :=
  match pc_heap c !! id with
  | None => c
  | Some s =>
      let '(refs, fiveTuples) :=
        fold_left release_target (elements (ss_targets s)) (pc_targetRefs c, pc_fiveTuples c) in
      upd_socket id (fun s => set_ss_verified ∅ (set_ss_targets ∅ s))
        (set_pc_fiveTuples fiveTuples (set_pc_targetRefs refs c))
  end.

(** A socket leaves the map in state [st]: the statements shared by
    [promote], [ProbeSocket.Close], [detachOpenSocketsLocked] and
    [closeSocketState]. *)
Definition retire (st : socketLifecycle) (id : Z) (c : Controller) : Controller :=
  releaseTargetsLocked id
    (set_pc_sockets (pc_sockets c ∖ {[id]})
       (upd_socket id (fun s => set_ss_cancelled true (set_ss_state st s)) c)).

Definition state_of (id : Z) (c : Controller) : option socketLifecycle :=
  ss_state <$> pc_heap c !! id.

Definition detach_one (st : Controller * list Z) (id : Z) : Controller * list Z :=
  let '(c, states) := st in
  if bool_decide (state_of id c = Some socketPromoted) then (c, states)
  else (retire socketClosed id c, states ++ [id]).

Definition detachOpenSocketsLocked (c : Controller) : Controller * list Z :=
  fold_left detach_one (elements (pc_sockets c)) (c, []).

Definition validSafetyTripReason (reason : SafetyTripReason) : bool :=
  match reason with
  | SafetyTripResourceExhausted | SafetyTripWriteFailures | SafetyTripHardLimit
  | SafetyTripCancellation | SafetyTripStaleGeneration | SafetyTripOperator => true
  | SafetyTripReasonOther _ => false
  end.

(** * Operations and their interleaving

    An operation is a sequence of critical sections; between two of them its
    goroutine is a [pthread] that says what it does next: it waits for the
    factory, a datagram, the verifier or the governor, closes datagrams, or
    waits for operations of others.  [pstep] lets the goroutines of one
    controller, the governor it belongs to, the network generation and the
    clock take turns in any order.  A transition records what it did
    ([pevent]); [probe_run] relates a trace to the state it leads to. *)

(** ** Goroutines *)

(** Who called [stopLocal]. *)
Inductive stop_for := ForWatcher | ForRevoke.

(** What a goroutine does once the datagrams of [TClosing] are closed and their
    operations have ended. *)
Inductive kont :=
| KReturn (result : option probe_err)
| KViolation (v : safetyViolation)
| KStop (who : stop_for)
| KHandoff (id : Z) (closeLease : bool).

Inductive pthread :=
(* OpenProbeSocket: in factory.Open; closing an unwanted datagram *)
| TOpen
| TOpenClose (v : option safetyViolation) (openErr : option probe_err)
(* SendProbe: in WriteTo; after ops.Done; before the failure is counted *)
| TSend (id : Z) (target : AddrPort) (size : Z)
| TSent (id : Z) (writeErr : option probe_err)
| TSendFailed (id : Z) (writeErr : probe_err)
(* ReceiveReply: in ReadFrom; in the verifier *)
| TRecv (id : Z) (capacity : Z)
| TVerify (id : Z) (from : AddrPort)
(* promote: in ops.Wait and SetDeadline; before closeSocketState; after the
   siblings are closed; in lease.Close *)
| TPromoting (id : Z) (target : AddrPort) (closeLease : bool)
| TAbort (id : Z) (k : kont)
| THandoff (id : Z) (closeLease : bool)
| TLeaseClose (id : Z)
| TLeaseWait (id : Z)
(* closeStates, datagram.Close and ops.Wait *)
| TClosing (todo states : list Z) (k : kont)
| TWaiting (todo : list Z) (k : kont)
(* trip: before its critical section; before lease.Trip *)
| TTrip (v : safetyViolation) (watcher : bool)
| TTripCall (reason : SafetyTripReason) (detail : string) (cause : option probe_err)
    (watcher : bool)
(* watchLifecycle *)
| TWatch
| TWatchDone
| TWatchComplete
(* stopLocal *)
| TStopLocal (who : stop_for)
| TStopPending (who : stop_for)
| TStopOps (who : stop_for)
(* RevokeForTerminal *)
| TRevokeHandoff
| TRevokeWait
| TRevokeComplete.

(** ** Events *)
Inductive pevent :=
| EvNow (t : Time)
| EvOpened (id : Z)
| EvRegistered (id : Z) (target : AddrPort)
| EvSend (id : Z) (target : AddrPort) (at_ : Time)
| EvVerified (id : Z) (from : AddrPort)
| EvPromoted (id : Z) (target : AddrPort)
| EvTrip (reason : SafetyTripReason) (err : option goerr)
| EvDrained
| EvRevoked
| EvReturn (result : option probe_err).

(** The controller, what the goroutine does next ([None] when it has returned)
    and the events of a critical section. *)
Definition stretch : Type := Controller * option pthread * list pevent.

Definition return_ (result : option probe_err) (c : Controller) (ev : list pevent) : stretch :=
  (c, None, ev ++ [EvReturn result]).

Definition handleViolation (v : safetyViolation) (c : Controller) (ev : list pevent) : stretch :=
  match v_reason v with
  | None => return_ (v_cause v) c ev
  | Some _ => (c, Some (TTrip v false), ev)
  end.

(** A context that is nil, has ended, or is live. *)
Inductive context := CtxNil | CtxEnded (msg : string) | CtxLive.
Definition context_err (ctx : context) : option probe_err :=
  match ctx with
  | CtxNil => Some PErrInvalidConfig
  | CtxEnded msg => Some (PContext msg)
  | CtxLive => None
  end.

(** What a goroutine reads of its surroundings: whether the lease revokes
    probing, is stopping, is done; the current generation; the clock. *)
Record view := mkView {
  vw_revoked : bool;
  vw_stopping : bool;
  vw_done : bool;
  vw_current : Z;
  vw_now : Time;
}.

Definition guard (w : view) (c : Controller) : Controller * option safetyViolation :=
  guardViolationLocked (vw_revoked w) (vw_current w) (vw_now w) c.

Definition now_of (w : view) : pevent := EvNow (vw_now w).

(** ** [OpenProbeSocket] *)
Definition OpenProbeSocket (ctx : context) (w : view) (c : Controller) : stretch :=
  match context_err ctx with
  | Some e => return_ (Some e) c []
  | None =>
      match guard w c with
      | (c, Some v) => handleViolation v c [now_of w]
      | (c, None) =>
          if Sockets (limits_of c) <=? Z.of_nat (size (pc_sockets c)) + pc_pending c then
            handleViolation (violation_limit "socket reservation exceeded") c [now_of w]
          else (addPendingLocked c, Some TOpen, [now_of w])
      end
  end.

Definition fresh_socket : socketState := mkSocket socketOpen ∅ ∅ 0 false 0 false.

Definition install_socket (c : Controller) : Controller :=
  let id := pc_nextID c + 1 in
  set_pc_sockets ({[id]} ∪ pc_sockets c)
    (set_pc_heap (<[id := fresh_socket]> (pc_heap c)) (set_pc_nextID id c)).

(** The end of [OpenProbeSocket] for a datagram that is not wanted;
    [exhausted] is the answer of [resourceExhausted]. *)
Definition open_failed (exhausted : bool) (v : option safetyViolation)
    (openErr : option probe_err) (c : Controller) (ev : list pevent) : stretch :=
  match v with
  | Some v => handleViolation v c ev
  | None =>
      if exhausted then
        (c, Some (TTrip (mkViolation (Some SafetyTripResourceExhausted)
             "opening probe socket exhausted an operating-system resource"
             (probe_join [Some PErrResourceExhausted; openErr])) false), ev)
      else return_ openErr c ev
  end.

(** [factory.Open] has returned: whether with a datagram, and its error. *)
Definition open_returned (datagram : bool) (openErr : option probe_err) (exhausted : bool)
    (w : view) (c : Controller) : stretch :=
  let '(c, v) := guard w (finishPendingLocked c) in
  let openErr := match openErr, datagram with
                 | None, false => Some PErrInvalidConfig
                 | _, _ => openErr
                 end in
  match openErr, v with
  | None, None => return_ None (install_socket c) [now_of w; EvOpened (pc_nextID c + 1)]
  | _, _ =>
      if datagram then (c, Some (TOpenClose v openErr), [now_of w])
      else open_failed exhausted v openErr c [now_of w]
  end.

(** ** [RegisterTarget], [LocalAddr] and [Reservation] *)
Definition register (id : Z) (target : AddrPort) (c : Controller) : Controller :=
  set_pc_fiveTuples (pc_fiveTuples c + 1)
    (set_pc_targetRefs (<[target := refs_at (pc_targetRefs c) target + 1]> (pc_targetRefs c))
       (upd_socket id (fun s => set_ss_targets ({[target]} ∪ ss_targets s) s) c)).

Definition RegisterTarget (id : Z) (target : AddrPort) (w : view) (c : Controller) : stretch :=
  match canonicalTarget target with
  | Err e => return_ (Some e) c []
  | Ok canonical =>
      match pc_heap c !! id with
      | None => return_ (Some PErrSocketClosed) c []
      | Some s =>
          match guard w c with
          | (c, Some v) => handleViolation v c [now_of w]
          | (c, None) =>
              if negb (bool_decide (ss_state s = socketOpen)) then
                return_ (Some PErrSocketClosed) c [now_of w]
              else if bool_decide (canonical ∈ ss_targets s) then return_ None c [now_of w]
              else if (refs_at (pc_targetRefs c) canonical =? 0)
                      && (Targets (limits_of c) <=? Z.of_nat (size (pc_targetRefs c))) then
                handleViolation (violation_limit "target reservation exceeded") c [now_of w]
              else if FiveTuples (limits_of c) <=? pc_fiveTuples c then
                handleViolation (violation_limit "five-tuple reservation exceeded") c [now_of w]
              else return_ None (register id canonical c) [now_of w; EvRegistered id canonical]
          end
      end
  end.

(** [LocalAddr] and [Reservation] read the socket after the guard;
    [metadata] is what [LocalAddr] makes of the datagram's answer. *)
Definition read_socket (metadata : option probe_err) (id : Z) (w : view) (c : Controller) : stretch :=
  match pc_heap c !! id with
  | None => return_ (Some PErrSocketClosed) c []
  | Some s =>
      match guard w c with
      | (c, Some v) => handleViolation v c [now_of w]
      | (c, None) =>
          if negb (bool_decide (ss_state s = socketOpen)) then
            return_ (Some PErrSocketClosed) c [now_of w]
          else return_ metadata c [now_of w]
      end
  end.

(** [LocalAddr] on the address of the datagram: [None] is an address that is
    not a UDP address, [allowed] the answer of [allowsUnspecifiedLocalAddr]. *)
Definition local_metadata (address : option AddrPort) (allowed : bool) : option probe_err :=
  match address with
  | None => Some PErrDatagramContract
  | Some endpoint =>
      if negb (Addr_IsValid (ap_addr endpoint)) || (ap_port endpoint =? 0)
      then Some PErrDatagramContract
      else if IsUnspecified (ap_addr endpoint) && negb allowed then Some PErrDatagramContract
      else None
  end.
Definition LocalAddr (address : option AddrPort) (allowed : bool) : Z -> view -> Controller -> stretch :=
  read_socket (local_metadata address allowed).
Definition Reservation : Z -> view -> Controller -> stretch := read_socket None.

(** ** [SendProbe] *)
Definition add_op (id : Z) (c : Controller) : Controller :=
  set_pc_ops (pc_ops c + 1) (upd_socket id (fun s => set_ss_ops (ss_ops s + 1) s) c).
Definition done_op (id : Z) (c : Controller) : Controller :=
  set_pc_ops (pc_ops c - 1) (upd_socket id (fun s => set_ss_ops (ss_ops s - 1) s) c).

(** [now'] is the second reading of the clock. *)
Definition SendProbe (id : Z) (ctx : context) (target : AddrPort) (size : Z) (now' : Time)
    (w : view) (c : Controller) : stretch :=
  match context_err ctx with
  | Some e => return_ (Some e) c []
  | None =>
      match canonicalTarget target with
      | Err e => return_ (Some e) c []
      | Ok canonical =>
          match pc_heap c !! id with
          | None => return_ (Some PErrSocketClosed) c []
          | Some s =>
              match guard w c with
              | (c, Some v) => handleViolation v c [now_of w]
              | (c, None) =>
                  if negb (bool_decide (ss_state s = socketOpen)) then
                    return_ (Some PErrSocketClosed) c [now_of w]
                  else if negb (bool_decide (canonical ∈ ss_targets s)) then
                    return_ (Some PErrUnregisteredTarget) c [now_of w]
                  else
                    match reserveSendLocked now' c with
                    | (c, Some v) => handleViolation v c [now_of w; EvNow now']
                    | (c, None) =>
                        (add_op id c, Some (TSend id canonical size),
                         [now_of w; EvNow now'; EvSend id canonical now'])
                    end
              end
          end
      end
  end.

(** [WriteTo] has returned [n] and [writeErr]. *)
Definition write_returned (id size n : Z) (writeErr : option probe_err) (c : Controller) : stretch :=
  let writeErr := match writeErr with
                  | None => if n =? size then None
                            else probe_join [Some PShortWrite; Some PErrDatagramContract]
                  | Some e => Some e
                  end in
  (done_op id c, Some (TSent id writeErr), []).

Definition consecutiveWriteFailureLimit : Z := 3.

Definition write_failures_detail (failures : Z) : string :=
  ("probe socket reached " +:+ decimal failures) +:+ " consecutive write failures".

(** The rest of [SendProbe]; [ctx] is the caller's context now. *)
Definition send_finish (id : Z) (writeErr : option probe_err) (ctx : context) (exhausted : bool)
    (c : Controller) : stretch :=
  match pc_heap c !! id with
  | None => return_ (Some PErrSocketClosed) c []
  | Some s =>
      match writeErr with
      | None =>
          return_ None (if bool_decide (ss_state s = socketOpen)
                        then upd_socket id (set_ss_writeFails 0) c else c) []
      | Some e =>
          match context_err ctx with
          | Some e' => return_ (Some e') c []
          | None =>
              if ss_cancelled s then return_ (Some PErrLeaseClosed) c [] else
              if exhausted then
                (c, Some (TTrip (mkViolation (Some SafetyTripResourceExhausted)
                     "probe write exhausted an operating-system resource"
                     (probe_join [Some PErrResourceExhausted; Some e])) false), [])
              else (c, Some (TSendFailed id e), [])
          end
      end
  end.

(** The critical section that counts the failure. *)
Definition send_failed (id : Z) (writeErr : probe_err) (c : Controller) : stretch :=
  match pc_heap c !! id with
  | None => return_ (Some PErrSocketClosed) c []
  | Some s =>
      let failures := if bool_decide (ss_state s = socketOpen)
                      then ss_writeFails s + 1 else ss_writeFails s in
      let c := upd_socket id (set_ss_writeFails failures) c in
      if consecutiveWriteFailureLimit <=? failures then
        (c, Some (TTrip (mkViolation (Some SafetyTripWriteFailures)
             (write_failures_detail failures)
             (probe_join [Some PErrWriteFailures; Some writeErr])) false), [])
      else return_ (Some writeErr) c []
  end.

(** ** [ReceiveReply] *)
Definition ReceiveReply (id : Z) (ctx : context) (capacity : Z) (verify : bool) (w : view)
    (c : Controller) : stretch :=
  match ctx with
  | CtxNil => return_ (Some PErrInvalidConfig) c []
  | _ =>
      if negb verify then return_ (Some PErrInvalidConfig) c [] else
      match context_err ctx with
      | Some e => return_ (Some e) c []
      | None =>
          match pc_heap c !! id with
          | None => return_ (Some PErrSocketClosed) c []
          | Some s =>
              match guard w c with
              | (c, Some v) => handleViolation v c [now_of w]
              | (c, None) =>
                  if negb (bool_decide (ss_state s = socketOpen)) then
                    return_ (Some PErrSocketClosed) c [now_of w]
                  else (add_op id c, Some (TRecv id capacity), [now_of w])
              end
          end
      end
  end.

(** A return of [ReceiveReply] runs the deferred [Done] calls. *)
Definition recv_return (id : Z) (result : option probe_err) (c : Controller) (ev : list pevent)
    : stretch :=
  return_ result (done_op id c) ev.

Definition still_open (s : socketState) (c : Controller) : bool :=
  bool_decide (ss_state s = socketOpen) && negb (pc_stopped c) && negb (pc_tripping c).

(** [ReadFrom] has returned. *)
Definition read_returned (id capacity n : Z) (from : AddrPort) (readErr : option probe_err)
    (ctx : context) (c : Controller) : stretch :=
  match pc_heap c !! id with
  | None => recv_return id (Some PErrSocketClosed) c []
  | Some s =>
      match readErr with
      | Some e =>
          recv_return id (match context_err ctx with
                          | Some e' => Some e'
                          | None => if ss_cancelled s then Some PErrLeaseClosed else Some e
                          end) c []
      | None =>
          if (n <? 0) || (capacity <? n) then recv_return id (Some PErrDatagramContract) c [] else
          match canonicalTarget from with
          | Err e => recv_return id (Some e) c []
          | Ok canonical =>
              if negb (bool_decide (canonical ∈ ss_targets s)) then
                recv_return id (Some PErrUnregisteredTarget) c []
              else if negb (still_open s c) then recv_return id (Some PErrLeaseClosed) c []
              else (c, Some (TVerify id canonical), [])
          end
      end
  end.

(** The verifier has returned. *)
Definition verify_returned (id : Z) (from : AddrPort) (verifyErr : option probe_err)
    (c : Controller) : stretch :=
  match pc_heap c !! id with
  | None => recv_return id (Some PErrSocketClosed) c []
  | Some s =>
      match verifyErr with
      | Some e => recv_return id (probe_join [Some PErrReplyRejected; Some e]) c []
      | None =>
          if negb (still_open s c) then recv_return id (Some PErrLeaseClosed) c []
          else recv_return id None
                 (upd_socket id (fun s => set_ss_verified ({[from]} ∪ ss_verified s) s) c)
                 [EvVerified id from]
      end
  end.

(** ** [promote] *)
Definition promote (id : Z) (target : AddrPort) (pathID : string) (closeLease : bool) (w : view)
    (c : Controller) : stretch :=
  match canonicalTarget target with
  | Err e => return_ (Some e) c []
  | Ok canonical =>
      match validateText pathID 256 false with
      | Some e => return_ (Some e) c []
      | None =>
          match pc_heap c !! id with
          | None => return_ (Some PErrSocketClosed) c []
          | Some s =>
              match guard w c with
              | (c, Some v) => handleViolation v c [now_of w]
              | (c, None) =>
                  if pc_promoted c then return_ (Some PErrAlreadyPromoted) c [now_of w]
                  else if negb (bool_decide (ss_state s = socketOpen)) then
                    return_ (Some PErrSocketClosed) c [now_of w]
                  else if negb (bool_decide (canonical ∈ ss_targets s)) then
                    return_ (Some PErrUnregisteredTarget) c [now_of w]
                  else if negb (bool_decide (canonical ∈ ss_verified s)) then
                    return_ (Some PErrReplyNotVerified) c [now_of w]
                  else (upd_socket id (fun s => set_ss_cancelled true (set_ss_state socketPromoting s)) c,
                        Some (TPromoting id canonical closeLease), [now_of w])
              end
          end
      end
  end.

(** The second critical section: [ops.Wait] and [SetDeadline] have returned. *)
Definition promote_commit (id : Z) (target : AddrPort) (closeLease : bool)
    (deadlineErr : option probe_err) (w : view) (c : Controller) : stretch :=
  match deadlineErr with
  | Some e => (c, Some (TAbort id (KReturn (Some e))), [])
  | None =>
      match guard w c with
      | (c, Some v) => (c, Some (TAbort id (KViolation v)), [now_of w])
      | (c, None) =>
          if negb (bool_decide (state_of id c = Some socketPromoting)) then
            (c, Some (TAbort id (KReturn (Some PErrLeaseClosed))), [now_of w])
          else
            let c := set_pc_cancelled true (set_pc_stopped true (set_pc_promoted true c)) in
            let '(c, siblings) := detachOpenSocketsLocked (retire socketPromoted id c) in
            (c, Some (TClosing siblings siblings (KHandoff id closeLease)),
             [now_of w; EvPromoted id target])
      end
  end.

(** [closeSocketState] up to [datagram.Close]. *)
Definition closeSocketState (id : Z) (k : kont) (c : Controller) : stretch :=
  (if bool_decide (state_of id c = Some socketPromoted) then c else retire socketClosed id c,
   Some (TClosing [id] [id] k), []).

(** [c.handoffOnce.Do(func() { close(c.handoffDone) })]. *)
Definition close_handoff (c : Controller) : Controller := set_pc_handoffDone true c.

(** ** [Close], [Poison] and [trip] *)
Definition ProbeSocket_Close (id : Z) (c : Controller) : stretch :=
  match pc_heap c !! id with
  | None => return_ (Some PErrSocketClosed) c []
  | Some s =>
      if bool_decide (ss_state s = socketPromoted) then return_ (Some PErrLeaseClosed) c []
      else if negb (bool_decide (ss_state s = socketOpen)) then return_ (Some PErrSocketClosed) c []
      else (retire socketClosed id c, Some (TClosing [id] [id] (KReturn None)), [])
  end.

Definition Poison (reason : SafetyTripReason) (detail : string) (c : Controller) : stretch :=
  if negb (validSafetyTripReason reason) then return_ (Some PErrInvalidConfig) c []
  else (c, Some (TTrip (mkViolation (Some reason) detail None) false), []).

(** What follows a trip: its caller returns, the watcher goes on. *)
Definition after_trip (watcher : bool) (result : option probe_err) (c : Controller)
    (ev : list pevent) : stretch :=
  if watcher then (c, Some (TStopLocal ForWatcher), ev) else return_ result c ev.

Definition trip (v : safetyViolation) (watcher : bool) (c : Controller) : stretch :=
  match v_reason v with
  | None => after_trip watcher (v_cause v) c []
  | Some reason =>
      let detail := boundedDetail (v_detail v) in
      if pc_stopped c || pc_tripping c then
        after_trip watcher
          (match v_cause v with
           | Some cause => probe_join [Some cause; Some PErrLeaseClosed]
           | None => Some PErrLeaseClosed
           end) c []
      else (set_pc_cancelled true (set_pc_tripping true c),
            Some (TTripCall reason detail (v_cause v) watcher), [])
  end.

Definition trip_event (reason : SafetyTripReason) (detail : string) (c : Controller)
    : SafetyTripEvent :=
  mkEvent reason detail "" "" (cfg_buildVersion (pc_config c)) time_zero.

(** ** [stopLocal], [watchLifecycle] and [RevokeForTerminal] *)

(** The critical section of [stopLocal]. *)
Definition stop_section (who : stop_for) (c : Controller) : stretch :=
  let c := set_pc_cancelled true (set_pc_stopped true (set_pc_drainOnce OnceRunning c)) in
  let '(c, states) := detachOpenSocketsLocked c in
  (c, Some (TClosing states states (KStop who)), []).

Definition stop_returned (who : stop_for) : pthread :=
  match who with ForWatcher => TWatchDone | ForRevoke => TRevokeHandoff end.

(** [drainOnce.Do]: the first caller runs [stop_section], a later one waits. *)
Definition stopLocal (who : stop_for) (c : Controller) : option stretch :=
  match pc_drainOnce c with
  | OnceIdle => Some (stop_section who c)
  | OnceRunning => None
  | OnceDone => Some (c, Some (stop_returned who), [])
  end.

(** What ends the watcher's [select]. *)
Inductive watch_wake :=
| WakeStopping
| WakeDone
| WakeHandoff
| WakeTimer (detail : string).

Definition watchLifecycle (why : watch_wake) (c : Controller) : stretch :=
  match why with
  | WakeStopping | WakeDone => (c, Some (TStopLocal ForWatcher), [])
  | WakeHandoff => (c, Some TWatchDone, [])
  | WakeTimer detail => (c, Some (TTrip (violation_limit detail) true), [])
  end.

(** ** Closing datagrams *)
Definition continue (k : kont) (c : Controller) : stretch :=
  match k with
  | KReturn result => return_ result c []
  | KViolation v => handleViolation v c []
  | KStop who => (c, Some (TStopPending who), [])
  | KHandoff id closeLease => (c, Some (THandoff id closeLease), [])
  end.

Definition close_next (todo states : list Z) (k : kont) (c : Controller) : stretch :=
  match todo with
  | [] => (c, Some (TWaiting states k), [])
  | id :: todo' => (upd_socket id (set_ss_closed true) c, Some (TClosing todo' states k), [])
  end.

Definition ops_done (id : Z) (c : Controller) : bool :=
  match pc_heap c !! id with Some s => ss_ops s =? 0 | None => true end.

(** [None] while [ops.Wait] blocks. *)
Definition wait_next (todo : list Z) (k : kont) (c : Controller) : option stretch :=
  match todo with
  | [] => Some (continue k c)
  | id :: todo' => if ops_done id c then Some (c, Some (TWaiting todo' k), []) else None
  end.

(** ** The operations and the goroutines *)
Inductive call :=
| COpenProbeSocket (ctx : context)
| CRegisterTarget (id : Z) (target : AddrPort)
| CLocalAddr (id : Z) (address : option AddrPort) (allowed : bool)
| CReservation (id : Z)
| CSendProbe (id : Z) (ctx : context) (target : AddrPort) (size : Z) (now' : Time)
| CReceiveReply (id : Z) (ctx : context) (capacity : Z) (verify : bool)
| CPromote (id : Z) (target : AddrPort) (pathID : string) (closeLease : bool)
| CClose (id : Z)
| CPoison (reason : SafetyTripReason) (detail : string)
| CRevokeForTerminal.

(** A call up to the end of its first critical section. *)
Definition invoke (op : call) (w : view) (c : Controller) : stretch :=
  match op with
  | COpenProbeSocket ctx => OpenProbeSocket ctx w c
  | CRegisterTarget id target => RegisterTarget id target w c
  | CLocalAddr id address allowed => LocalAddr address allowed id w c
  | CReservation id => Reservation id w c
  | CSendProbe id ctx target size now' => SendProbe id ctx target size now' w c
  | CReceiveReply id ctx capacity verify => ReceiveReply id ctx capacity verify w c
  | CPromote id target pathID closeLease => promote id target pathID closeLease w c
  | CClose id => ProbeSocket_Close id c
  | CPoison reason detail => Poison reason detail c
  | CRevokeForTerminal => (c, Some (TStopLocal ForRevoke), [])
  end.

(** What the code outside the package answers to a goroutine. *)
Inductive answer :=
| AOpen (datagram : bool) (openErr : option probe_err) (exhausted : bool)
| AExhausted (exhausted : bool)
| AWrite (n : Z) (writeErr : option probe_err)
| AFinish (ctx : context) (exhausted : bool)
| ARead (n : Z) (from : AddrPort) (readErr : option probe_err) (ctx : context)
| AVerify (verifyErr : option probe_err)
| ADeadline (deadlineErr : option probe_err)
| AWake (why : watch_wake)
| ANone.

(** Whether the [select] of the watcher may take a branch; a timer fires at
    any time. *)
Definition wake_ready (why : watch_wake) (w : view) (c : Controller) : bool :=
  match why with
  | WakeStopping => vw_stopping w
  | WakeDone => vw_done w
  | WakeHandoff => pc_handoffDone c
  | WakeTimer _ => true
  end.

(** The next stretch of a goroutine that involves the controller alone; [None]
    while it blocks. *)
Definition resume (t : pthread) (ans : answer) (w : view) (c : Controller) : option stretch :=
  match t, ans with
  | TOpen, AOpen datagram openErr exhausted =>
      Some (open_returned datagram openErr exhausted w c)
  | TOpenClose v openErr, AExhausted exhausted => Some (open_failed exhausted v openErr c [])
  | TSend id _ size, AWrite n writeErr => Some (write_returned id size n writeErr c)
  | TSent id writeErr, AFinish ctx exhausted => Some (send_finish id writeErr ctx exhausted c)
  | TSendFailed id writeErr, ANone => Some (send_failed id writeErr c)
  | TRecv id capacity, ARead n from readErr ctx =>
      Some (read_returned id capacity n from readErr ctx c)
  | TVerify id from, AVerify verifyErr => Some (verify_returned id from verifyErr c)
  | TPromoting id target closeLease, ADeadline deadlineErr =>
      if ops_done id c then Some (promote_commit id target closeLease deadlineErr w c) else None
  | TAbort id k, ANone => Some (closeSocketState id k c)
  | THandoff id closeLease, ANone =>
      Some (if closeLease then (close_handoff c, Some (TLeaseClose id), [])
            else return_ None (close_handoff c) [])
  | TClosing todo states k, ANone => Some (close_next todo states k c)
  | TWaiting todo k, ANone => wait_next todo k c
  | TTrip v watcher, ANone => Some (trip v watcher c)
  | TWatch, AWake why => if wake_ready why w c then Some (watchLifecycle why c) else None
  | TWatchDone, ANone => Some (set_pc_watchDone true c, Some TWatchComplete, [])
  | TStopLocal who, ANone => stopLocal who c
  | TStopPending who, ANone => if pc_pendingDone c then Some (c, Some (TStopOps who), []) else None
  | TStopOps who, ANone =>
      if pc_ops c =? 0 then Some (set_pc_drainOnce OnceDone c, Some (stop_returned who), [])
      else None
  | TRevokeHandoff, ANone => Some (close_handoff c, Some TRevokeWait, [])
  | TRevokeWait, ANone => if pc_watchDone c then Some (c, Some TRevokeComplete, []) else None
  | _, _ => None
  end.

(** ** A controller beside its governor *)
Record World := mkWorld {
  w_governor : Governor;
  w_generation : Z;
  w_controller : Controller;
  w_threads : gmap nat pthread;
}.

Definition world_lease (w : World) : ptr := cfg_lease (pc_config (w_controller w)).
Definition world_drain (w : World) : Z := cfg_drain (pc_config (w_controller w)).

(** [Stopping], [Done] and [ProbeRevocation] of the lease. *)
Definition lease_stopping (g : Governor) (a : ptr) : bool :=
  match g_aheap g !! a with Some l => closed_chan (al_stopping l) | None => false end.
Definition lease_done (g : Governor) (a : ptr) : bool :=
  match g_aheap g !! a with Some l => closed_chan (al_done l) | None => false end.
Definition ProbeRevocation (g : Governor) (a : ptr) : bool :=
  if is_phased g a then lease_stopping g a else lease_done g a.

Definition view_of (now : Time) (w : World) : view :=
  mkView (ProbeRevocation (w_governor w) (world_lease w)) (lease_stopping (w_governor w) (world_lease w))
    (lease_done (w_governor w) (world_lease w)) (w_generation w) now.

Definition put_thread (tid : nat) (next : option pthread) (m : gmap nat pthread)
    : gmap nat pthread :=
  match next with Some t => <[tid := t]> m | None => delete tid m end.

(** The world after goroutine [tid] has run to [o] with governor [g]. *)
Definition after (tid : nat) (g : Governor) (o : stretch) (w : World) : World :=
  mkWorld g (w_generation w) o.1.1 (put_thread tid o.1.2 (w_threads w)).

(** The drain handle is private to the controller: what else happens to the
    governor does not complete it. *)
Definition drain_kept (a : ptr) (drain : Z) (g g' : Governor) : Prop :=
  forall l, g_aheap g !! a = Some l -> is_Some (al_drains l !! drain) ->
  exists l', g_aheap g' !! a = Some l' /\ is_Some (al_drains l' !! drain).

(** The result of [lease.Trip] as the package sees it. *)
Definition trip_result (cause : option probe_err) (err : option goerr) : option probe_err :=
  probe_join [cause; PGovernor <$> err].

Section steps.
Context {St : TripStore} {F : Sprintf}.

Inductive pstep : World -> list pevent -> World -> Prop :=
| pstep_governor g' w :
    gstep (w_governor w) g' -> drain_kept (world_lease w) (world_drain w) (w_governor w) g' ->
    pstep w [] (mkWorld g' (w_generation w) (w_controller w) (w_threads w))
| pstep_generation n w :
    pstep w [] (mkWorld (w_governor w) n (w_controller w) (w_threads w))
| pstep_call op now tid w :
    w_threads w !! tid = None ->
    pstep w (invoke op (view_of now w) (w_controller w)).2
      (after tid (w_governor w) (invoke op (view_of now w) (w_controller w)) w)
| pstep_resume t ans now tid o w :
    w_threads w !! tid = Some t ->
    resume t ans (view_of now w) (w_controller w) = Some o ->
    pstep w o.2 (after tid (w_governor w) o w)
| pstep_trip tid reason detail cause watcher reply w :
    w_threads w !! tid = Some (TTripCall reason detail cause watcher) ->
    (forall l, g_aheap (w_governor w) !! world_lease w = Some l ->
       store_reply (lease_event (w_governor w) l (trip_event reason detail (w_controller w))) reply) ->
    let r := AttemptLease_Trip (world_lease w) (trip_event reason detail (w_controller w)) reply
               (w_governor w) in
    pstep w (after_trip watcher (trip_result cause r.2.2) (w_controller w) [EvTrip reason r.2.2]).2
      (after tid r.1
         (after_trip watcher (trip_result cause r.2.2) (w_controller w) [EvTrip reason r.2.2]) w)
| pstep_lease_close tid id w :
    w_threads w !! tid = Some (TLeaseClose id) ->
    pstep w []
      (after tid (AttemptLease_Close (world_lease w) (w_governor w))
         (w_controller w, Some (TLeaseWait id), []) w)
(* lease.Close returns *)
| pstep_lease_closed tid id (err : option goerr) w :
    w_threads w !! tid = Some (TLeaseWait id) ->
    pstep w [EvReturn (PGovernor <$> err)]
      (after tid (w_governor w)
         (match err with
          | Some _ => upd_socket id (set_ss_closed true) (w_controller w)
          | None => w_controller w
          end, None, []) w)
| pstep_watch_complete tid w :
    w_threads w !! tid = Some TWatchComplete ->
    pstep w [EvDrained]
      (after tid (Complete (world_lease w) (world_drain w) (w_governor w))
         (w_controller w, None, []) w)
| pstep_revoke_complete tid w :
    w_threads w !! tid = Some TRevokeComplete ->
    pstep w [EvDrained; EvRevoked]
      (after tid (Complete (world_lease w) (world_drain w) (w_governor w))
         (w_controller w, None, []) w).

(** A run starts when [New] has returned a controller and its watcher waits. *)
Inductive probe_run : list pevent -> World -> Prop :=
| probe_start a current expected enforced build now g g' c :
    reachable g ->
    Controller_New a current expected enforced build now g = (g', Ok c) ->
    probe_run [EvNow now] (mkWorld g' current c {[ 0%nat := TWatch ]})
| probe_more tr w ev w' :
    probe_run tr w -> pstep w ev w' -> probe_run (tr ++ ev) w'.
End steps.
