(* ===== verification/ProbeInv.v ===== *)
(** * Probe I/O: invariants

    [books]: the sockets, the reference counts of the targets and the number of
    five-tuples agree.  [budget]: no counter exceeds the reservation.  Every
    critical section keeps both, and changes the numbers of pending opens and
    of operations in flight by what its goroutine begins or ends ([moves]). *)
From S2P Require Import Prelude GoStd Limits SafetyTrip Governor GovernorSteps ProbeIO.

Lemma map_sum_alter {A} (f : A -> Z) (g : A -> A) (m : gmap Z A) k x :
  m !! k = Some x -> map_sum f (alter g k m) = map_sum f m - f x + f (g x).
Proof.
  intros Hk. rewrite (map_sum_delete f m k x Hk).
  rewrite (map_sum_delete f (alter g k m) k (g x)) by (by rewrite lookup_alter_eq, Hk).
  rewrite delete_alter_eq. lia.
Qed.

(** ** The books *)
Definition holds (t : AddrPort) (s : socketState) : Z := bool_Z (bool_decide (t ∈ ss_targets s)).
Definition tuples (s : socketState) : Z := Z.of_nat (size (ss_targets s)).

Record books (c : Controller) : Prop := {
  bk_in id : id ∈ pc_sockets c ->
    exists s, pc_heap c !! id = Some s /\ (ss_state s = socketOpen \/ ss_state s = socketPromoting);
  bk_out id s : pc_heap c !! id = Some s -> id ∉ pc_sockets c ->
    (ss_state s = socketClosed \/ ss_state s = socketPromoted) /\
    ss_targets s = ∅ /\ ss_verified s = ∅ /\ ss_cancelled s = true;
  bk_fresh id s : pc_heap c !! id = Some s -> id <= pc_nextID c;
  bk_refs t : refs_at (pc_targetRefs c) t = map_sum (holds t) (pc_heap c);
  bk_pos t n : pc_targetRefs c !! t = Some n -> 0 < n;
  bk_five : pc_fiveTuples c = map_sum tuples (pc_heap c);
}.

Lemma holds_range t s : 0 <= holds t s <= 1.
Proof. unfold holds. destruct (bool_decide _); simpl; lia. Qed.

Lemma refs_at_delete refs t u :
  refs_at (delete t refs) u = if bool_decide (t = u) then 0 else refs_at refs u.
Proof.
  unfold refs_at. case_bool_decide as E; [subst; by rewrite lookup_delete_eq|].
  by rewrite lookup_delete_ne.
Qed.

Lemma refs_at_insert refs t n u :
  refs_at (<[t := n]> refs) u = if bool_decide (t = u) then n else refs_at refs u.
Proof.
  unfold refs_at. case_bool_decide as E; [subst; by rewrite lookup_insert_eq|].
  by rewrite lookup_insert_ne.
Qed.

(** Releasing distinct targets that are all counted takes one from each. *)
Lemma release_spec ts : forall refs five,
  NoDup ts -> (forall t, t ∈ ts -> 1 <= refs_at refs t) ->
  (forall t n, refs !! t = Some n -> 0 < n) -> Z.of_nat (length ts) <= five ->
  (fold_left release_target ts (refs, five)).2 = five - Z.of_nat (length ts) /\
  (forall t, refs_at (fold_left release_target ts (refs, five)).1 t =
             refs_at refs t - bool_Z (bool_decide (t ∈ ts))) /\
  (forall t n, (fold_left release_target ts (refs, five)).1 !! t = Some n -> 0 < n) /\
  dom (fold_left release_target ts (refs, five)).1 ⊆ dom refs.
Proof.
  induction ts as [|t ts IH]; intros refs five Hnd Hone Hpos Hlen.
  { simpl. split_and!; [lia| |done|done]. intros u. lia. }
  apply NoDup_cons in Hnd as [Hni Hnd]. simpl length in *. cbn [fold_left].
  set (refs1 := if refs_at refs t <=? 1 then delete t refs else <[t := refs_at refs t - 1]> refs).
  assert (Hone1 : release_target (refs, five) t = (refs1, five - 1)).
  { unfold release_target, refs1. by rewrite (proj2 (Z.ltb_lt 0 five)) by lia. }
  rewrite Hone1.
  assert (H1 : forall u, refs_at refs1 u = refs_at refs u - bool_Z (bool_decide (u = t))).
  { intros u. unfold refs1. pose proof (Hone t ltac:(set_solver)).
    destruct (refs_at refs t <=? 1) eqn:E; rewrite ?refs_at_delete, ?refs_at_insert;
      repeat case_bool_decide; subst; simpl; try done; lia. }
  assert (Hp1 : forall u n, refs1 !! u = Some n -> 0 < n).
  { intros u n. unfold refs1. destruct (refs_at refs t <=? 1) eqn:E.
    - rewrite lookup_delete_Some. intros [_ ?]. eauto.
    - rewrite lookup_insert_Some. intros [[<- <-]|[_ ?]]; [lia|eauto]. }
  assert (Hd1 : dom refs1 ⊆ dom refs).
  { unfold refs1. destruct (refs_at refs t <=? 1) eqn:E; [set_solver|].
    rewrite dom_insert_L. assert (t ∈ dom refs); [|set_solver].
    apply elem_of_dom. unfold refs_at in E. destruct (refs !! t); [by eauto|simpl in E; lia]. }
  destruct (IH refs1 (five - 1) Hnd) as (I1 & I2 & I3 & I4); [|done|lia|].
  { intros u Hu. rewrite H1, bool_decide_eq_false_2 by (intros ->; done). simpl.
    specialize (Hone u ltac:(set_solver)). lia. }
  split_and!; [rewrite I1; lia| |done|by etrans]. intros u. rewrite I2, H1.
  assert (u ∈ t :: ts <-> u = t \/ u ∈ ts) as Hcons by apply elem_of_cons.
  repeat case_bool_decide; subst; simpl; try lia; tauto.
Qed.

Lemma holds_le c t id s :
  books c -> pc_heap c !! id = Some s -> t ∈ ss_targets s -> 1 <= refs_at (pc_targetRefs c) t.
Proof.
  intros B Hs Ht. rewrite (bk_refs c B), (map_sum_delete _ _ _ _ Hs).
  unfold holds at 1. rewrite bool_decide_eq_true_2 by done. simpl.
  pose proof (map_sum_nonneg (holds t) (delete id (pc_heap c)) (fun _ x _ => proj1 (holds_range t x))).
  lia.
Qed.

Lemma tuples_le c id s :
  books c -> pc_heap c !! id = Some s -> tuples s <= pc_fiveTuples c.
Proof.
  intros B Hs. rewrite (bk_five c B), (map_sum_delete _ _ _ _ Hs).
  assert (0 <= map_sum tuples (delete id (pc_heap c))); [|lia].
  apply map_sum_nonneg. intros. unfold tuples. lia.
Qed.

(** What a critical section leaves alone when it retires sockets. *)
Definition retired (st : socketLifecycle) (s : socketState) : socketState :=
  mkSocket st ∅ ∅ (ss_writeFails s) true (ss_ops s) (ss_closed s).

(** Everything but the sockets, their map and the counts of targets. *)
Record same_rest (c c' : Controller) : Prop := {
  sr_config : pc_config c' = pc_config c;
  sr_flags : (pc_stopped c', pc_tripping c', pc_promoted c', pc_cancelled c', pc_handoffDone c',
              pc_drainOnce c', pc_watchDone c') =
             (pc_stopped c, pc_tripping c, pc_promoted c, pc_cancelled c, pc_handoffDone c,
              pc_drainOnce c, pc_watchDone c);
  sr_counts : (pc_pending c', pc_pendingDone c', pc_nextID c', pc_packetsSent c', pc_sendTimes c',
               pc_lastNow c', pc_ops c') =
              (pc_pending c, pc_pendingDone c, pc_nextID c, pc_packetsSent c, pc_sendTimes c,
               pc_lastNow c, pc_ops c);
}.

#[export] Instance same_rest_preorder : PreOrder same_rest.
Proof.
  split; [by intros c|]. intros c1 c2 c3 [] []. split; congruence.
Qed.

Lemma retire_heap st id c s :
  pc_heap c !! id = Some s -> pc_heap (retire st id c) = <[id := retired st s]> (pc_heap c).
Proof.
  intros Hs. unfold retire, releaseTargetsLocked, upd_socket. simpl.
  rewrite lookup_alter_eq, Hs. simpl.
  destruct (fold_left _ _ _) as [refs five]. simpl. apply map_eq. intros j.
  destruct (decide (id = j)) as [->|Hne].
  - by rewrite lookup_insert_eq, !lookup_alter_eq, Hs.
  - by rewrite lookup_insert_ne, !lookup_alter_ne.
Qed.

Lemma retire_missing st id c :
  pc_heap c !! id = None ->
  retire st id c = set_pc_sockets (pc_sockets c ∖ {[id]}) c.
Proof.
  intros Hs. unfold retire, releaseTargetsLocked, upd_socket. simpl.
  rewrite lookup_alter_eq, Hs. simpl. destruct c; simpl in *. unfold set_pc_sockets. simpl.
  f_equal. apply map_eq. intros j. destruct (decide (id = j)) as [->|].
  - by rewrite lookup_alter_eq, Hs.
  - by rewrite lookup_alter_ne.
Qed.

Lemma retire_rest st id c : same_rest c (retire st id c).
Proof.
  unfold retire, releaseTargetsLocked, upd_socket. simpl.
  destruct (alter _ id (pc_heap c) !! id) as [s|]; simpl; [|by split].
  by destruct (fold_left _ _ _) as [refs five].
Qed.

Lemma retire_sockets st id c : pc_sockets (retire st id c) = pc_sockets c ∖ {[id]}.
Proof.
  unfold retire, releaseTargetsLocked, upd_socket. simpl.
  destruct (alter _ id (pc_heap c) !! id) as [s|]; simpl; [|done].
  by destruct (fold_left _ _ _) as [refs five].
Qed.

(** A socket that leaves takes its targets with it. *)
Lemma retire_books st id c s :
  st = socketClosed \/ st = socketPromoted ->
  books c -> pc_heap c !! id = Some s ->
  books (retire st id c) /\ pc_fiveTuples (retire st id c) <= pc_fiveTuples c /\
  dom (pc_targetRefs (retire st id c)) ⊆ dom (pc_targetRefs c).
Proof.
  intros Hst B Hs. pose proof (retire_heap st id c s Hs) as Hh.
  pose proof (sr_counts _ _ (retire_rest st id c)) as Hc. injection Hc as _ _ Hnext _ _ _ _.
  assert (Hr : (pc_targetRefs (retire st id c), pc_fiveTuples (retire st id c)) =
    fold_left release_target (elements (ss_targets s)) (pc_targetRefs c, pc_fiveTuples c)).
  { unfold retire, releaseTargetsLocked, upd_socket. simpl. rewrite lookup_alter_eq, Hs. simpl.
    by destruct (fold_left _ _ _) as [refs five]. }
  destruct (release_spec (elements (ss_targets s)) (pc_targetRefs c) (pc_fiveTuples c))
    as (R1 & R2 & R3 & R4).
  { apply NoDup_elements. }
  { intros t Ht%elem_of_elements. by eapply holds_le. }
  { apply (bk_pos c B). }
  { apply (tuples_le c id s B Hs). }
  rewrite <-Hr in R1, R2, R3, R4. simpl in *.
  assert (Hsum : forall f : socketState -> Z, map_sum f (pc_heap (retire st id c)) =
    map_sum f (pc_heap c) - f s + f (retired st s)).
  { intros f. rewrite Hh. rewrite (map_sum_delete f (pc_heap c) id s Hs).
    rewrite <-insert_delete_eq, map_sum_insert by apply lookup_delete_eq. lia. }
  split; [|split; [rewrite R1; lia|done]].
  split.
  - intros j Hj. rewrite retire_sockets in Hj. rewrite Hh.
    destruct (bk_in c B j) as (s' & Hs' & ?); [set_solver|]. exists s'.
    rewrite lookup_insert_ne by set_solver. done.
  - intros j s'. rewrite Hh, retire_sockets. rewrite lookup_insert_Some.
    intros [[<- <-]|[Hne Hj]] Hn; [by destruct Hst as [-> | ->]; simpl; auto|].
    eapply (bk_out c B); [done|set_solver].
  - intros j s'. rewrite Hh, lookup_insert_Some, Hnext.
    intros [[<- <-]|[_ Hj]]; by eapply (bk_fresh c B).
  - intros t. rewrite R2, (bk_refs c B), Hsum. 
    assert (holds t (retired st s) = 0) as ->.
    { unfold holds. by rewrite bool_decide_eq_false_2 by set_solver. }
    assert (holds t s = bool_Z (bool_decide (t ∈ ss_targets s))) as -> by done.
    assert (t ∈ elements (ss_targets s) <-> t ∈ ss_targets s) by apply elem_of_elements.
    repeat case_bool_decide; simpl; tauto || lia.
  - done.
  - rewrite R1, (bk_five c B), Hsum. unfold tuples at 3 4. unfold size, set_size. simpl.
    rewrite elements_empty. simpl. lia.
Qed.

(** All sockets leave at once. *)
Lemma detach_fold l : forall c acc,
  books c -> NoDup l -> (forall id, id ∈ l -> id ∈ pc_sockets c) ->
  let r := fold_left detach_one l (c, acc) in
  books r.1 /\ same_rest c r.1 /\ pc_sockets r.1 = pc_sockets c ∖ list_to_set l /\
  r.2 = acc ++ l /\ pc_fiveTuples r.1 <= pc_fiveTuples c /\
  dom (pc_targetRefs r.1) ⊆ dom (pc_targetRefs c) /\
  (forall id, pc_heap r.1 !! id =
     (if bool_decide (id ∈ l) then retired socketClosed else (fun s => s)) <$> pc_heap c !! id).
Proof.
  induction l as [|id l IH]; intros c acc B Hnd Hin r; subst r; cbn [fold_left].
  { simpl. split_and!; try done; [set_solver|by rewrite app_nil_r|].
    intros j. by destruct (pc_heap c !! j). }
  apply NoDup_cons in Hnd as [Hni Hnd].
  destruct (bk_in c B id) as (s & Hs & Hst); [set_solver|].
  assert (detach_one (c, acc) id = (retire socketClosed id c, acc ++ [id])) as ->.
  { unfold detach_one, state_of. rewrite Hs. simpl.
    by rewrite bool_decide_eq_false_2 by (destruct Hst as [E|E]; rewrite E; done). }
  destruct (retire_books socketClosed id c s (or_introl eq_refl) B Hs) as (B1 & F1 & D1).
  destruct (IH (retire socketClosed id c) (acc ++ [id]) B1 Hnd) as (I1 & I2 & I3 & I4 & I5 & I6 & I7).
  { intros j Hj. rewrite retire_sockets. specialize (Hin j). set_solver. }
  split_and!; [done|by etrans; [apply retire_rest|]| | |lia|by etrans|].
  - rewrite I3, retire_sockets. set_solver.
  - rewrite I4. by rewrite <-(assoc_L (++)).
  - intros j. rewrite I7, (retire_heap _ _ _ _ Hs).
    destruct (decide (id = j)) as [<-|Hne].
    + rewrite lookup_insert_eq, Hs, (bool_decide_eq_false_2 (id ∈ l)) by done.
      by rewrite bool_decide_eq_true_2 by set_solver.
    + rewrite lookup_insert_ne by done.
      assert (j ∈ id :: l <-> j ∈ l) by set_solver.
      repeat case_bool_decide; by tauto || destruct (pc_heap c !! j).
Qed.

Record detached (c c' : Controller) (states : list Z) : Prop := {
  dt_books : books c';
  dt_rest : same_rest c c';
  dt_sockets : pc_sockets c' = ∅;
  dt_states : states = elements (pc_sockets c);
  dt_five : pc_fiveTuples c' <= pc_fiveTuples c;
  dt_refs : dom (pc_targetRefs c') ⊆ dom (pc_targetRefs c);
  dt_heap id : pc_heap c' !! id =
    (if bool_decide (id ∈ pc_sockets c) then retired socketClosed else (fun s => s)) <$> pc_heap c !! id;
}.

Lemma detach_spec c c' states :
  books c -> detachOpenSocketsLocked c = (c', states) -> detached c c' states.
Proof.
  intros B E. unfold detachOpenSocketsLocked in E.
  destruct (detach_fold (elements (pc_sockets c)) c [] B) as (D1 & D2 & D3 & D4 & D5 & D6 & D7).
  { apply NoDup_elements. }
  { intros id. by rewrite elem_of_elements. }
  rewrite E in *. simpl in *. split; try done.
  - rewrite D3, list_to_set_elements_L. set_solver.
  - intros id. rewrite D7. assert (id ∈ elements (pc_sockets c) <-> id ∈ pc_sockets c)
      by apply elem_of_elements. repeat case_bool_decide; by tauto.
Qed.

(** ** The budget *)
Record budget (c : Controller) : Prop := {
  bg_pending : 0 <= pc_pending c;
  bg_pendingDone : pc_pendingDone c = (pc_pending c =? 0);
  bg_sockets : Z.of_nat (size (pc_sockets c)) + pc_pending c <= Sockets (limits_of c);
  bg_targets : Z.of_nat (size (pc_targetRefs c)) <= Targets (limits_of c);
  bg_five : pc_fiveTuples c <= FiveTuples (limits_of c);
  bg_packets : 0 <= pc_packetsSent c <= Packets (limits_of c);
  bg_rate : Z.of_nat (length (pc_sendTimes c)) <= PacketsPerSecond (limits_of c);
  bg_stopped : pc_stopped c = true -> pc_sockets c = ∅;
  bg_promoted : pc_promoted c = true -> pc_stopped c = true;
  bg_once : pc_drainOnce c <> OnceIdle -> pc_stopped c = true;
}.

Lemma dom_size_le (m m' : gmap AddrPort Z) : dom m' ⊆ dom m -> (size m' <= size m)%nat.
Proof. intros H. rewrite <-!size_dom. by apply subseteq_size. Qed.

(** Retiring sockets keeps the budget, whatever the flags become. *)
Lemma budget_shrinks c c' :
  budget c ->
  pc_config c' = pc_config c -> pc_sockets c' ⊆ pc_sockets c ->
  dom (pc_targetRefs c') ⊆ dom (pc_targetRefs c) -> pc_fiveTuples c' <= pc_fiveTuples c ->
  (pc_pending c', pc_pendingDone c', pc_packetsSent c', pc_sendTimes c') =
    (pc_pending c, pc_pendingDone c, pc_packetsSent c, pc_sendTimes c) ->
  (pc_stopped c' = true -> pc_sockets c' = ∅) -> (pc_promoted c' = true -> pc_stopped c' = true) ->
  (pc_drainOnce c' <> OnceIdle -> pc_stopped c' = true) -> budget c'.
Proof.
  intros G Hcfg Hs Hr Hf Hc H1 H2 H3. injection Hc as Hp Hpd Hps Hst.
  assert (limits_of c' = limits_of c) as Hl by (unfold limits_of, cost_of_config; by rewrite Hcfg).
  pose proof (subseteq_size _ _ Hs). pose proof (dom_size_le _ _ Hr). destruct G.
  split; rewrite ?Hp, ?Hpd, ?Hps, ?Hst, ?Hl; auto; lia.
Qed.

(** ** Goroutines in flight *)
Definition n_open (t : option pthread) : Z := match t with Some TOpen => 1 | _ => 0 end.
Definition on_socket (t : option pthread) : option Z :=
  match t with
  | Some (TSend id _ _) | Some (TRecv id _) | Some (TVerify id _) => Some id
  | _ => None
  end.
Definition n_ops (t : option pthread) : Z := bool_Z (bool_decide (is_Some (on_socket t))).
Definition n_on (id : Z) (t : option pthread) : Z := bool_Z (bool_decide (on_socket t = Some id)).

Definition sock_ops (c : Controller) (id : Z) : Z :=
  match pc_heap c !! id with Some s => ss_ops s | None => 0 end.

(** A goroutine that was at [t] goes on to [next]. *)
Record moves (t : option pthread) (c c' : Controller) (next : option pthread) : Prop := {
  mv_books : books c';
  mv_budget : budget c';
  mv_config : pc_config c' = pc_config c;
  mv_pending : pc_pending c' = pc_pending c - n_open t + n_open next;
  mv_ops : pc_ops c' = pc_ops c - n_ops t + n_ops next;
  mv_grow id : is_Some (pc_heap c !! id) -> is_Some (pc_heap c' !! id);
  mv_socket id : sock_ops c' id = sock_ops c id - n_on id t + n_on id next;
  mv_known id : on_socket next = Some id -> is_Some (pc_heap c' !! id);
}.

(** *** Changes that leave the books alone *)
Definition same_books (c c' : Controller) : Prop :=
  (pc_config c', pc_heap c', pc_sockets c', pc_targetRefs c', pc_fiveTuples c', pc_nextID c') =
  (pc_config c, pc_heap c, pc_sockets c, pc_targetRefs c, pc_fiveTuples c, pc_nextID c).

Lemma books_same c c' : same_books c c' -> books c -> books c'.
Proof.
  intros E B. injection E as E0 E1 E2 E3 E4 E5.
  split; rewrite ?E1, ?E2, ?E3, ?E4, ?E5; apply B.
Qed.

Lemma alter_sum_same (f : socketState -> Z) g id (m : gmap Z socketState) :
  (forall s, m !! id = Some s -> f (g s) = f s) -> map_sum f (alter g id m) = map_sum f m.
Proof.
  intros Hf. destruct (m !! id) as [s|] eqn:Hs.
  - rewrite (map_sum_alter f g m id s Hs), (Hf s) by done. lia.
  - f_equal. apply map_eq. intros j. destruct (decide (id = j)) as [<-|].
    + by rewrite lookup_alter_eq, Hs.
    + by rewrite lookup_alter_ne.
Qed.

(** A change of one socket that keeps its targets. *)
Lemma books_alter id f c :
  books c ->
  (forall s, pc_heap c !! id = Some s ->
     ss_targets (f s) = ss_targets s /\
     (id ∈ pc_sockets c -> ss_state (f s) = socketOpen \/ ss_state (f s) = socketPromoting) /\
     (id ∉ pc_sockets c -> (ss_state (f s), ss_verified (f s), ss_cancelled (f s)) =
                           (ss_state s, ss_verified s, ss_cancelled s))) ->
  books (upd_socket id f c).
Proof.
  intros B Hf. split; simpl.
  - intros j Hj. destruct (bk_in c B j Hj) as (s & Hs & Hst).
    destruct (decide (id = j)) as [<-|].
    + rewrite lookup_alter_eq, Hs. exists (f s). split; [done|]. by apply Hf.
    + rewrite lookup_alter_ne by done. by exists s.
  - intros j s'. rewrite lookup_alter_Some. intros [(<- & s & Hs & ->)|[Hne Hs]] Hn.
    + destruct (Hf s Hs) as (Ht & _ & Hk). specialize (Hk Hn). injection Hk as -> -> ->.
      rewrite Ht. by apply (bk_out c B id).
    + by apply (bk_out c B j).
  - intros j s'. rewrite lookup_alter_Some.
    intros [(<- & s & Hs & ->)|[Hne Hs]]; by eapply (bk_fresh c B).
  - intros t. rewrite alter_sum_same; [apply B|]. intros s Hs. unfold holds.
    by rewrite (proj1 (Hf s Hs)).
  - apply B.
  - rewrite alter_sum_same; [apply B|]. intros s Hs. unfold tuples. by rewrite (proj1 (Hf s Hs)).
Qed.

(** The fields the budget is about. *)
Definition same_budget (c c' : Controller) : Prop :=
  (pc_config c', pc_sockets c', pc_targetRefs c', pc_fiveTuples c') =
    (pc_config c, pc_sockets c, pc_targetRefs c, pc_fiveTuples c) /\
  (pc_pending c', pc_pendingDone c', pc_packetsSent c', pc_sendTimes c') =
    (pc_pending c, pc_pendingDone c, pc_packetsSent c, pc_sendTimes c) /\
  (pc_stopped c', pc_promoted c') = (pc_stopped c, pc_promoted c) /\
  (pc_drainOnce c' <> OnceIdle -> pc_stopped c' = true).

Lemma budget_same c c' : same_budget c c' -> budget c -> budget c'.
Proof.
  intros (E1 & E2 & E3 & H) G. injection E1 as ? Hs Hr Hf. injection E3 as Hst Hp.
  apply (budget_shrinks c); try done; rewrite ?Hs, ?Hr, ?Hf, ?Hst, ?Hp; try done; apply G.
Qed.

Lemma same_budget_refl c : budget c -> same_budget c c.
Proof. intros G. split_and!; [done..|apply G]. Qed.

(** A goroutine with nothing in flight before or after. *)
Definition idle (t : option pthread) : Prop := n_open t = 0 /\ on_socket t = None.

Lemma idle_counts t : idle t -> n_open t = 0 /\ n_ops t = 0 /\ forall id, n_on id t = 0.
Proof.
  intros [H1 H2]. unfold n_ops, n_on. rewrite H2. split_and!; [done| |].
  - by rewrite bool_decide_eq_false_2 by (by intros [? [=]]).
  - done.
Qed.

Lemma moves_idle t next c c' :
  idle t -> idle next -> books c' -> budget c' -> pc_config c' = pc_config c ->
  pc_pending c' = pc_pending c -> pc_ops c' = pc_ops c ->
  (forall id, is_Some (pc_heap c !! id) -> is_Some (pc_heap c' !! id)) ->
  (forall id, sock_ops c' id = sock_ops c id) -> moves t c c' next.
Proof.
  intros Ht Hn B G Hc Hp Ho Hg Hs.
  destruct (idle_counts _ Ht) as (T1 & T2 & T3), (idle_counts _ Hn) as (N1 & N2 & N3).
  split; try done; [lia|lia| |].
  - intros id. rewrite Hs, T3, N3. lia.
  - intros id. rewrite (proj2 Hn). done.
Qed.

(** Only fields outside the books and the budget change. *)
Lemma moves_same t next c c' :
  books c -> budget c -> same_books c c' -> same_budget c c' -> pc_ops c' = pc_ops c ->
  idle t -> idle next -> moves t c c' next.
Proof.
  intros B G SB SG Ho Ht Hn. pose proof SB as E. injection E as E0 E1 _ _ _ _.
  pose proof SG as (_ & F2 & _). injection F2 as ? _ _ _.
  apply moves_idle; try done.
  - by apply (books_same c).
  - by apply (budget_same c).
  - by rewrite E1.
  - intros id. unfold sock_ops. by rewrite E1.
Qed.

(** The guard. *)
Lemma guard_spec w c c' v :
  guard w c = (c', v) ->
  (c' = c \/ c' = set_pc_lastNow (vw_now w) c) /\
  (v = None ->
     c' = set_pc_lastNow (vw_now w) c /\ pc_stopped c = false /\ pc_tripping c = false /\
     vw_revoked w = false /\ vw_current w = cfg_expectedGeneration (pc_config c) /\
     instant (pc_lastNow c) <= instant (vw_now w) <
       instant (cfg_startedAt (pc_config c)) + cost_Duration (cost_of_config c)) /\
  (v <> None -> v = Some violation_closed \/
     exists reason detail cause, v = Some (mkViolation (Some reason) detail cause)).
Proof.
  unfold guard, guardViolationLocked. intros E.
  destruct (pc_stopped c) eqn:E1; [simplify_eq/=; split_and!; by eauto|].
  destruct (pc_tripping c) eqn:E2; [simplify_eq/=; split_and!; by eauto|].
  destruct (vw_revoked w) eqn:E3; [simplify_eq/=; split_and!; by eauto|].
  destruct (vw_current w =? _) eqn:E4; [|simplify_eq/=; split_and!; by eauto 6].
  destruct (Before (vw_now w) _) eqn:E5; [simplify_eq/=; split_and!; by eauto 6|].
  destruct (Before (vw_now w) (TAdd _ _)) eqn:E6; simplify_eq/=; [|split_and!; by eauto 6].
  split_and!; [by eauto| |done]. intros _. unfold Before, cost_of_config in *. simpl in *.
  apply Z.eqb_eq in E4. split_and!; done || lia.
Qed.

(** *** Composition *)
Lemma idle_None : idle None.
Proof. done. Qed.

Lemma moves_trans t c c1 c2 next :
  moves t c c1 None -> moves None c1 c2 next -> moves t c c2 next.
Proof.
  intros [_ _ A1 A2 A3 A4 A5 _] [B1 B2 B3 B4 B5 B6 B7 B8].
  destruct (idle_counts None idle_None) as (E1 & E2 & E3). split; try done.
  - congruence.
  - rewrite B4, A2. lia.
  - rewrite B5, A3. lia.
  - intros id Hid. by apply B6, A4.
  - intros id. rewrite B7, A5, E3. lia.
Qed.

Lemma moves_refl t next c : books c -> budget c -> idle t -> idle next -> moves t c c next.
Proof. intros. apply moves_same; try done. by apply same_budget_refl. Qed.

Lemma moves_guard w c c' v : books c -> budget c -> guard w c = (c', v) -> moves None c c' None.
Proof.
  intros B G E. destruct (guard_spec w c c' v E) as [[-> | ->] _]; [by apply moves_refl|].
  apply moves_same; try done. split_and!; try done. apply G.
Qed.

Lemma idle_violation v c ev : idle (handleViolation v c ev).1.2.
Proof. unfold handleViolation. by destruct (v_reason v). Qed.
Lemma handleViolation_controller v c ev : (handleViolation v c ev).1.1 = c.
Proof. unfold handleViolation. by destruct (v_reason v). Qed.

Lemma moves_violation v c ev :
  books c -> budget c ->
  moves None c (handleViolation v c ev).1.1 (handleViolation v c ev).1.2.
Proof.
  intros. rewrite handleViolation_controller. apply moves_refl; try done. apply idle_violation.
Qed.

(** *** Elementary changes *)
Lemma moves_addPending c :
  books c -> budget c -> pc_stopped c = false ->
  Z.of_nat (size (pc_sockets c)) + pc_pending c < Sockets (limits_of c) ->
  moves None c (addPendingLocked c) (Some TOpen).
Proof.
  intros B G Hst Hlt. unfold addPendingLocked.
  assert (E : exists b, (if pc_pending c =? 0 then set_pc_pendingDone false c else c) =
                        set_pc_pendingDone b c).
  { destruct (pc_pending c =? 0); [by eexists|]. exists (pc_pendingDone c). by destruct c. }
  pose proof (bg_pendingDone c G) as Hd. pose proof (bg_pending c G) as Hp.
  set (c1 := if pc_pending c =? 0 then set_pc_pendingDone false c else c).
  assert (Hd1 : pc_pendingDone c1 = false).
  { subst c1. destruct (pc_pending c =? 0) eqn:E0; [done|by rewrite Hd]. }
  assert (Hc1 : c1 = set_pc_pendingDone false c).
  { subst c1. destruct E as [b Eb]. rewrite Eb in *. simpl in Hd1. by subst b. }
  rewrite Hc1. split; simpl; try done.
  - by apply (books_same c).
  - destruct G. split; unfold limits_of, cost_of_config in *; simpl in *; try done; lia.
  - lia.
  - unfold n_ops. simpl. lia.
  - intros id. unfold n_on. simpl. change (sock_ops c id = sock_ops c id - 0 + 0). lia.
Qed.

Lemma moves_finishPending c :
  books c -> budget c -> 1 <= pc_pending c ->
  moves (Some TOpen) c (finishPendingLocked c) None /\
  pc_pending (finishPendingLocked c) = pc_pending c - 1 /\
  (pc_stopped (finishPendingLocked c), pc_sockets (finishPendingLocked c)) =
    (pc_stopped c, pc_sockets c).
Proof.
  intros B G Hp. unfold finishPendingLocked. rewrite (proj2 (Z.leb_gt _ _)) by lia. simpl.
  pose proof (bg_pendingDone c G) as Hd.
  set (b := pc_pending c - 1 =? 0).
  assert ((if b then set_pc_pendingDone true (set_pc_pending (pc_pending c - 1) c)
           else set_pc_pending (pc_pending c - 1) c) =
          set_pc_pendingDone b (set_pc_pending (pc_pending c - 1) c)) as ->.
  { destruct b; [done|]. destruct c; simpl in *. unfold set_pc_pendingDone, set_pc_pending. simpl.
    f_equal. rewrite Hd. apply Z.eqb_neq. lia. }
  split; [|done]. split; simpl; try done; try (unfold n_ops; simpl; lia).
  - by apply (books_same c).
  - destruct G. split; unfold limits_of, cost_of_config in *; simpl in *; try done; lia.
  - intros id. unfold n_on. change (sock_ops c id = sock_ops c id - 0 + 0). lia.
Qed.

Lemma limits_same c c' : pc_config c' = pc_config c -> limits_of c' = limits_of c.
Proof. intros H. unfold limits_of, cost_of_config. by rewrite H. Qed.

Lemma moves_install c :
  books c -> budget c -> pc_stopped c = false ->
  Z.of_nat (size (pc_sockets c)) + pc_pending c < Sockets (limits_of c) ->
  moves None c (install_socket c) None.
Proof.
  intros B G Hst Hlt. unfold install_socket.
  assert (Hf : pc_heap c !! (pc_nextID c + 1) = None).
  { destruct (pc_heap c !! _) as [s|] eqn:E; [|done]. apply (bk_fresh c B) in E. lia. }
  assert (Hsum : forall f : socketState -> Z, f fresh_socket = 0 ->
    map_sum f (<[pc_nextID c + 1 := fresh_socket]> (pc_heap c)) = map_sum f (pc_heap c)).
  { intros f E. rewrite map_sum_insert, E by done. lia. }
  assert (Hni : pc_nextID c + 1 ∉ pc_sockets c).
  { intros Hin. destruct (bk_in c B _ Hin) as (s & Hs & _). congruence. }
  split; simpl; try done; try (unfold n_ops; simpl; lia).
  - split; simpl.
    + intros j [->%elem_of_singleton|Hj]%elem_of_union.
      * exists fresh_socket. rewrite lookup_insert_eq. by auto.
      * destruct (bk_in c B j Hj) as (s & Hs & ?). exists s.
        by rewrite lookup_insert_ne by (intros <-; done).
    + intros j s. rewrite lookup_insert_Some. intros [[<- <-]|[Hne Hs]] Hn; [set_solver|].
      apply (bk_out c B j); [done|set_solver].
    + intros j s. rewrite lookup_insert_Some. intros [[<- <-]|[Hne Hs]]; [lia|].
      apply (bk_fresh c B) in Hs. lia.
    + intros t. rewrite Hsum; [apply B|]. unfold holds. by rewrite bool_decide_eq_false_2 by set_solver.
    + apply B.
    + rewrite Hsum; [apply B|done].
  - destruct G. split; simpl; rewrite ?limits_same with (c := c) by done; try done; try lia.
    + rewrite size_union, size_singleton by set_solver. lia.
    + congruence.
  - intros id [s Hs]. destruct (decide (pc_nextID c + 1 = id)) as [<-|].
    + rewrite lookup_insert_eq. by eauto.
    + rewrite lookup_insert_ne by done. by eauto.
  - intros id. unfold n_on, sock_ops. simpl. destruct (decide (pc_nextID c + 1 = id)) as [<-|].
    + rewrite lookup_insert_eq, Hf. simpl. lia.
    + rewrite lookup_insert_ne by done. lia.
Qed.

(** One socket changes. *)
Lemma sock_ops_alter id f c j :
  (forall s, ss_ops (f s) = ss_ops s) -> sock_ops (upd_socket id f c) j = sock_ops c j.
Proof.
  intros Hf. unfold sock_ops. simpl. destruct (decide (id = j)) as [<-|].
  - rewrite lookup_alter_eq. destruct (pc_heap c !! id); simpl; [apply Hf|done].
  - by rewrite lookup_alter_ne.
Qed.

Lemma alter_some (f : socketState -> socketState) id (m : gmap Z socketState) j :
  is_Some (alter f id m !! j) <-> is_Some (m !! j).
Proof.
  destruct (decide (id = j)) as [<-|]; [by rewrite lookup_alter_eq, fmap_is_Some|].
  by rewrite lookup_alter_ne.
Qed.

Lemma moves_upd id f c t next :
  books c -> budget c -> idle t -> idle next ->
  (forall s, ss_ops (f s) = ss_ops s) ->
  (forall s, pc_heap c !! id = Some s ->
     ss_targets (f s) = ss_targets s /\
     (id ∈ pc_sockets c -> ss_state (f s) = socketOpen \/ ss_state (f s) = socketPromoting) /\
     (id ∉ pc_sockets c -> (ss_state (f s), ss_verified (f s), ss_cancelled (f s)) =
                           (ss_state s, ss_verified s, ss_cancelled s))) ->
  moves t c (upd_socket id f c) next.
Proof.
  intros B G Ht Hn Ho Hf. apply moves_idle; try done.
  - by apply books_alter.
  - apply (budget_same c); [|done]. split_and!; try done. apply G.
  - intros j Hj. simpl. by apply alter_some.
  - intros j. by apply sock_ops_alter.
Qed.

(** The socket keeps state, targets, verified targets and context. *)
Lemma moves_upd_inert id f c t next :
  books c -> budget c -> idle t -> idle next ->
  (forall s, (ss_state (f s), ss_targets (f s), ss_verified (f s), ss_cancelled (f s), ss_ops (f s)) =
             (ss_state s, ss_targets s, ss_verified s, ss_cancelled s, ss_ops s)) ->
  moves t c (upd_socket id f c) next.
Proof.
  intros B G Ht Hn Hf. apply moves_upd; try done.
  - intros s. specialize (Hf s). congruence.
  - intros s Hs. specialize (Hf s). injection Hf as H1 H2 H3 H4 _. rewrite H1, H2, H3, H4.
    split_and!; try done. intros Hin. destruct (bk_in c B id Hin) as (s' & ? & ?). by simplify_eq.
Qed.

Lemma open_in c id s :
  books c -> pc_heap c !! id = Some s -> ss_state s = socketOpen \/ ss_state s = socketPromoting ->
  id ∈ pc_sockets c.
Proof.
  intros B Hs Hst. destruct (decide (id ∈ pc_sockets c)) as [|Hn]; [done|].
  destruct (bk_out c B id s Hs Hn) as [[E|E] _]; destruct Hst; congruence.
Qed.

(** A counted operation begins or ends. *)
Lemma moves_add_op id c t next :
  books c -> budget c -> idle t -> n_open next = 0 -> on_socket next = Some id ->
  is_Some (pc_heap c !! id) -> moves t c (add_op id c) next.
Proof.
  intros B G Ht Hn1 Hn [s Hs]. destruct (idle_counts _ Ht) as (T1 & T2 & T3).
  assert (Hb : books (upd_socket id (fun s => set_ss_ops (ss_ops s + 1) s) c)).
  { apply books_alter; [done|]. intros s' Hs'. simpl. split_and!; try done.
    intros Hin. destruct (bk_in c B id Hin) as (s'' & ? & ?). by simplify_eq. }
  split; simpl; try done.
  - by apply (books_same (upd_socket id (fun s => set_ss_ops (ss_ops s + 1) s) c)).
  - apply (budget_same c); [|done]. split_and!; try done. apply G.
  - lia.
  - rewrite T2. unfold n_ops. rewrite Hn. simpl. lia.
  - intros j Hj. by apply alter_some.
  - intros j. rewrite T3. unfold n_on. rewrite Hn. unfold sock_ops. simpl.
    destruct (decide (id = j)) as [<-|Hne].
    + rewrite lookup_alter_eq, Hs, bool_decide_eq_true_2 by done. simpl. lia.
    + rewrite lookup_alter_ne, bool_decide_eq_false_2 by congruence. simpl. lia.
  - intros j. rewrite Hn. intros [= <-]. apply alter_some. by eauto.
Qed.

Lemma moves_done_op id c t :
  books c -> budget c -> n_open t = 0 -> on_socket t = Some id -> is_Some (pc_heap c !! id) ->
  moves t c (done_op id c) None.
Proof.
  intros B G Ht1 Ht [s Hs].
  assert (Hb : books (upd_socket id (fun s => set_ss_ops (ss_ops s - 1) s) c)).
  { apply books_alter; [done|]. intros s' Hs'. simpl. split_and!; try done.
    intros Hin. destruct (bk_in c B id Hin) as (s'' & ? & ?). by simplify_eq. }
  split; simpl; try done.
  - by apply (books_same (upd_socket id (fun s => set_ss_ops (ss_ops s - 1) s) c)).
  - apply (budget_same c); [|done]. split_and!; try done. apply G.
  - lia.
  - unfold n_ops. rewrite Ht. simpl. lia.
  - intros j Hj. by apply alter_some.
  - intros j. unfold n_on. rewrite Ht. unfold sock_ops. simpl.
    destruct (decide (id = j)) as [<-|Hne].
    + rewrite lookup_alter_eq, Hs, bool_decide_eq_true_2 by done. simpl. lia.
    + rewrite lookup_alter_ne, bool_decide_eq_false_2 by congruence. simpl. lia.
Qed.

(** A new target of an open socket. *)
Lemma moves_register id t c s :
  books c -> budget c -> pc_heap c !! id = Some s -> ss_state s = socketOpen ->
  t ∉ ss_targets s ->
  (refs_at (pc_targetRefs c) t = 0 -> Z.of_nat (size (pc_targetRefs c)) < Targets (limits_of c)) ->
  pc_fiveTuples c < FiveTuples (limits_of c) ->
  moves None c (register id t c) None.
Proof.
  intros B G Hs Hst Hni Htg Hfv.
  pose proof (open_in c id s B Hs (or_introl Hst)) as Hin.
  assert (Hsum : forall f : socketState -> Z,
    map_sum f (alter (fun s => set_ss_targets ({[t]} ∪ ss_targets s) s) id (pc_heap c)) =
    map_sum f (pc_heap c) - f s + f (set_ss_targets ({[t]} ∪ ss_targets s) s)).
  { intros f. by rewrite (map_sum_alter f _ _ _ _ Hs). }
  assert (Hpos : 0 <= refs_at (pc_targetRefs c) t).
  { rewrite (bk_refs c B). apply map_sum_nonneg. intros k x _. apply holds_range. }
  apply moves_idle; try done.
  - split; simpl.
    + intros j Hj. destruct (bk_in c B j Hj) as (s' & Hs' & ?).
      destruct (decide (id = j)) as [<-|].
      * rewrite lookup_alter_eq, Hs. eexists. split; [done|]. by left.
      * rewrite lookup_alter_ne by done. by exists s'.
    + intros j s'. rewrite lookup_alter_Some. intros [(<- & ? & ? & ->)|[? ?]] ?; [done|].
      by apply (bk_out c B j).
    + intros j s'. rewrite lookup_alter_Some.
      intros [(<- & ? & ? & ->)|[? ?]]; by eapply (bk_fresh c B).
    + intros u. rewrite refs_at_insert, Hsum, <-(bk_refs c B). unfold holds. simpl.
      assert (u ∈ {[t]} ∪ ss_targets s <-> u = t \/ u ∈ ss_targets s) by set_solver.
      repeat case_bool_decide; subst; simpl; try lia; naive_solver.
    + intros u n. rewrite lookup_insert_Some. intros [[<- <-]|[? ?]]; [lia|by eapply (bk_pos c B)].
    + rewrite Hsum, (bk_five c B). unfold tuples at 3 4. simpl.
      rewrite size_union, size_singleton by set_solver. lia.
  - destruct G. split; simpl; rewrite ?limits_same with (c := c) by done; try done; try lia.
    destruct (pc_targetRefs c !! t) as [n|] eqn:E.
    + rewrite map_size_insert_Some by (by rewrite E). lia.
    + rewrite map_size_insert_None by done. unfold refs_at in Htg. rewrite E in Htg. simpl in Htg. lia.
  - intros j Hj. simpl. by apply alter_some.
  - intros j. by apply (sock_ops_alter id (fun s => set_ss_targets ({[t]} ∪ ss_targets s) s) c).
Qed.

Lemma expire_length cutoff l : (length (expire cutoff l) <= length l)%nat.
Proof. induction l as [|t l IH]; simpl; [done|]. destruct (negb _); simpl; lia. Qed.

(** A packet is accounted or refused. *)
Lemma reserve_spec now c c' v :
  reserveSendLocked now c = (c', v) ->
  match v with
  | Some _ => c' = c \/ c' = set_pc_sendTimes (expire (TAdd now (- Second)) (pc_sendTimes c)) c
  | None =>
      pc_packetsSent c < Packets (limits_of c) /\
      Z.of_nat (length (expire (TAdd now (- Second)) (pc_sendTimes c))) < PacketsPerSecond (limits_of c) /\
      c' = set_pc_sendTimes (expire (TAdd now (- Second)) (pc_sendTimes c) ++ [now])
             (set_pc_packetsSent (pc_packetsSent c + 1) c)
  end.
Proof.
  unfold reserveSendLocked. intros E.
  destruct (Packets (limits_of c) <=? pc_packetsSent c) eqn:E1; simplify_eq/=; [by left|].
  destruct (PacketsPerSecond _ <=? _) eqn:E2; simplify_eq/=; [by right|].
  split_and!; [lia|simpl in E2; lia|done].
Qed.

Lemma moves_reserve now c c' v :
  books c -> budget c -> reserveSendLocked now c = (c', v) -> moves None c c' None.
Proof.
  intros B G E. apply reserve_spec in E.
  pose proof (expire_length (TAdd now (- Second)) (pc_sendTimes c)) as Hl.
  assert (Hx : moves None c (set_pc_sendTimes (expire (TAdd now (- Second)) (pc_sendTimes c)) c) None).
  { apply moves_idle; try done; [by apply (books_same c)|].
    destruct G. split; simpl; rewrite ?limits_same with (c := c) by done; try done; lia. }
  destruct v as [v|].
  - destruct E as [-> | ->]; [by apply moves_refl|done].
  - destruct E as (H1 & H2 & ->). apply moves_idle; try done; [by apply (books_same c)|].
    destruct G. split; simpl; rewrite ?limits_same with (c := c) by done; try done; [lia|].
    rewrite length_app. simpl. lia.
Qed.

(** A socket leaves the map. *)
Lemma moves_retire st id c s t next :
  st = socketClosed \/ st = socketPromoted -> books c -> budget c -> pc_heap c !! id = Some s ->
  idle t -> idle next -> moves t c (retire st id c) next.
Proof.
  intros Hst B G Hs Ht Hn. destruct (retire_books st id c s Hst B Hs) as (B' & F & D).
  destruct (retire_rest st id c) as [R1 R2 R3]. injection R2 as F1 F2 F3 F4 F5 F6 F7.
  injection R3 as P1 P2 P3 P4 P5 P6 P7. pose proof (retire_sockets st id c) as Hsk.
  apply moves_idle; try done.
  - apply (budget_shrinks c); [done|done| |done|done|congruence| | |].
    + rewrite Hsk. apply subseteq_difference_l. done.
    + intros Hc. rewrite Hsk, (bg_stopped c G) by congruence. set_solver.
    + intros Hc. rewrite F1. apply (bg_promoted c G). congruence.
    + intros Hc. rewrite F1. apply (bg_once c G). congruence.
  - intros j Hj. rewrite (retire_heap st id c s Hs).
    destruct (decide (id = j)) as [<-|]; [rewrite lookup_insert_eq; by eauto|].
    by rewrite lookup_insert_ne.
  - intros j. unfold sock_ops. rewrite (retire_heap st id c s Hs).
    destruct (decide (id = j)) as [<-|]; [by rewrite lookup_insert_eq, Hs|].
    by rewrite lookup_insert_ne.
Qed.

(** All sockets leave the map of a controller that stops. *)
Lemma moves_detach c c' states t next :
  books c -> detachOpenSocketsLocked c = (c', states) ->
  (forall c0, same_rest c c0 -> books c0 -> pc_sockets c0 = ∅ ->
     pc_fiveTuples c0 <= pc_fiveTuples c ->
     dom (pc_targetRefs c0) ⊆ dom (pc_targetRefs c) -> budget c0) ->
  idle t -> idle next -> moves t c c' next.
Proof.
  intros B E G Ht Hn. destruct (detach_spec c c' states B E) as [D1 D2 D3 _ D5 D6 D7].
  destruct (sr_counts _ _ D2). apply moves_idle; try done.
  - by apply G.
  - apply D2.
  - pose proof (sr_counts _ _ D2). congruence.
  - pose proof (sr_counts _ _ D2). congruence.
  - intros j. rewrite D7. by rewrite fmap_is_Some.
  - intros j. unfold sock_ops. rewrite D7. case_bool_decide; by destruct (pc_heap c !! j).
Qed.

(** ** Every operation and every goroutine *)

(** Goes through the guard to the branch in which it is satisfied. *)
Ltac use_guard c1 Hm :=
  let v := fresh "v" in let E := fresh "Eg" in
  match goal with
  | B : books ?c, G : budget ?c |- context [guard ?w ?c] =>
      destruct (guard w c) as [c1 v] eqn:E;
      pose proof (moves_guard w c c1 v B G E) as Hm;
      apply (moves_trans _ _ c1); [exact Hm|];
      pose proof (mv_books _ _ _ _ Hm); pose proof (mv_budget _ _ _ _ Hm);
      destruct v as [v|];
      [by apply moves_violation|];
      destruct (guard_spec w c c1 None E) as (_ & [-> (? & ? & ? & ? & ?)] & _); [done|]
  end.

Lemma moves_return t c result ev :
  books c -> budget c -> idle t -> moves t c (return_ result c ev).1.1 (return_ result c ev).1.2.
Proof. intros. by apply moves_refl. Qed.

Section operations.
Context (w : view) (c : Controller) (B : books c) (G : budget c).

Lemma moves_OpenProbeSocket ctx :
  moves None c (OpenProbeSocket ctx w c).1.1 (OpenProbeSocket ctx w c).1.2.
Proof.
  unfold OpenProbeSocket. destruct (context_err ctx); [by apply moves_return|]. use_guard c1 Hm.
  destruct (_ <=? _) eqn:E; [by apply moves_violation|]. apply moves_addPending; try done.
  apply Z.leb_gt in E. simpl in *. lia.
Qed.

Lemma moves_RegisterTarget id target :
  moves None c (RegisterTarget id target w c).1.1 (RegisterTarget id target w c).1.2.
Proof.
  unfold RegisterTarget. destruct (canonicalTarget target) as [canonical|e]; [|by apply moves_return].
  destruct (pc_heap c !! id) as [s|] eqn:Hs; [|by apply moves_return]. use_guard c1 Hm.
  case_bool_decide as Ho; simpl negb; cbn iota; [|by apply moves_return].
  case_bool_decide as Ht; [by apply moves_return|].
  destruct (_ && _) eqn:E1; [by apply moves_violation|].
  destruct (FiveTuples _ <=? _) eqn:E2; [by apply moves_violation|].
  apply (moves_register id canonical _ s); try done.
  - intros Hz. apply andb_false_iff in E1 as [E1|E1]; [|by apply Z.leb_gt in E1].
    apply Z.eqb_neq in E1. done.
  - by apply Z.leb_gt in E2.
Qed.

Lemma moves_read_socket metadata id :
  moves None c (read_socket metadata id w c).1.1 (read_socket metadata id w c).1.2.
Proof.
  unfold read_socket. destruct (pc_heap c !! id) as [s|]; [|by apply moves_return].
  use_guard c1 Hm. destruct (negb _); by apply moves_return.
Qed.

Lemma moves_SendProbe id ctx target size now' :
  moves None c (SendProbe id ctx target size now' w c).1.1 (SendProbe id ctx target size now' w c).1.2.
Proof.
  unfold SendProbe. destruct (context_err ctx); [by apply moves_return|].
  destruct (canonicalTarget target) as [canonical|e]; [|by apply moves_return].
  destruct (pc_heap c !! id) as [s|] eqn:Hs; [|by apply moves_return]. use_guard c1 Hm.
  destruct (negb _); [by apply moves_return|]. destruct (negb _); [by apply moves_return|].
  destruct (reserveSendLocked now' _) as [c2 v] eqn:Er.
  pose proof (moves_reserve _ _ _ _ ltac:(eassumption) ltac:(eassumption) Er) as Hr.
  apply (moves_trans _ _ c2); [done|]. destruct Hr as [B2 G2 _ _ _ Hgrow _ _].
  destruct v as [v|]; [by apply moves_violation|]. apply moves_add_op; try done.
  apply Hgrow. simpl. by eauto.
Qed.

Lemma moves_ReceiveReply id ctx capacity verify :
  moves None c (ReceiveReply id ctx capacity verify w c).1.1
    (ReceiveReply id ctx capacity verify w c).1.2.
Proof.
  unfold ReceiveReply. destruct ctx as [|msg|]; [by apply moves_return| |];
    (destruct (negb verify); [by apply moves_return|]); simpl context_err; cbn iota;
    [by apply moves_return|].
  destruct (pc_heap c !! id) as [s|] eqn:Hs; [|by apply moves_return]. use_guard c1 Hm.
  destruct (negb _); [by apply moves_return|]. by apply moves_add_op.
Qed.

Lemma moves_promote id target pathID closeLease :
  moves None c (promote id target pathID closeLease w c).1.1
    (promote id target pathID closeLease w c).1.2.
Proof.
  unfold promote. destruct (canonicalTarget target) as [canonical|e]; [|by apply moves_return].
  destruct (validateText _ _ _); [by apply moves_return|].
  destruct (pc_heap c !! id) as [s|] eqn:Hs; [|by apply moves_return]. use_guard c1 Hm.
  destruct (pc_promoted _); [by apply moves_return|].
  case_bool_decide as Ho; simpl negb; cbn iota; [|by apply moves_return].
  destruct (negb _); [by apply moves_return|]. destruct (negb _); [by apply moves_return|].
  apply moves_upd; try done. intros s' Hs'. simpl in *. split_and!; [done|by right|].
  intros Hn. exfalso. apply Hn, (open_in c id s B Hs). by left.
Qed.

Lemma moves_ProbeSocket_Close id :
  moves None c (ProbeSocket_Close id c).1.1 (ProbeSocket_Close id c).1.2.
Proof.
  unfold ProbeSocket_Close. destruct (pc_heap c !! id) as [s|] eqn:Hs; [|by apply moves_return].
  case_bool_decide; [by apply moves_return|]. destruct (negb _); [by apply moves_return|].
  apply (moves_retire _ _ _ s); by auto.
Qed.

Lemma moves_invoke op : moves None c (invoke op w c).1.1 (invoke op w c).1.2.
Proof.
  destruct op; simpl.
  - apply moves_OpenProbeSocket.
  - apply moves_RegisterTarget.
  - apply moves_read_socket.
  - apply moves_read_socket.
  - apply moves_SendProbe.
  - apply moves_ReceiveReply.
  - apply moves_promote.
  - apply moves_ProbeSocket_Close.
  - unfold Poison. destruct (negb _); [by apply moves_return|by apply moves_refl].
  - by apply moves_refl.
Qed.

(** *** Goroutines *)
Lemma moves_open_failed exhausted v openErr c0 ev :
  books c0 -> budget c0 ->
  moves None c0 (open_failed exhausted v openErr c0 ev).1.1 (open_failed exhausted v openErr c0 ev).1.2.
Proof.
  intros. unfold open_failed. destruct v; [by apply moves_violation|].
  destruct exhausted; [by apply moves_refl|by apply moves_return].
Qed.

Lemma moves_open_returned datagram openErr exhausted :
  1 <= pc_pending c ->
  moves (Some TOpen) c (open_returned datagram openErr exhausted w c).1.1
    (open_returned datagram openErr exhausted w c).1.2.
Proof.
  intros Hp. unfold open_returned.
  destruct (moves_finishPending c B G Hp) as (Hf & Hp1 & [= Hst Hsk]).
  pose proof (mv_books _ _ _ _ Hf) as B1. pose proof (mv_budget _ _ _ _ Hf) as G1.
  destruct (guard w (finishPendingLocked c)) as [c1 v] eqn:E.
  pose proof (moves_guard w _ c1 v B1 G1 E) as Hm.
  apply (moves_trans _ _ c1); [by eapply moves_trans|].
  pose proof (mv_books _ _ _ _ Hm). pose proof (mv_budget _ _ _ _ Hm).
  set (e := match openErr, datagram with None, false => _ | _, _ => _ end).
  assert (Hrest : moves None c1
    (if datagram then (c1, Some (TOpenClose v e), [now_of w]) else open_failed exhausted v e c1 [now_of w]).1.1
    (if datagram then (c1, Some (TOpenClose v e), [now_of w]) else open_failed exhausted v e c1 [now_of w]).1.2).
  { destruct datagram; [by apply moves_refl|by apply moves_open_failed]. }
  destruct e as [e|]; [done|]. destruct v as [v|]; [done|].
  destruct (guard_spec w _ c1 None E) as (_ & [-> (? & ? & ? & ? & ?)] & _); [done|].
  apply moves_install; try done. simpl. rewrite Hp1, Hsk, limits_same with (c := c); [|apply Hf].
  pose proof (bg_sockets c G). lia.
Qed.

Lemma moves_write_returned id target size n writeErr :
  is_Some (pc_heap c !! id) ->
  moves (Some (TSend id target size)) c (write_returned id size n writeErr c).1.1
    (write_returned id size n writeErr c).1.2.
Proof.
  intros Hs. unfold write_returned.
  pose proof (moves_done_op id c (Some (TSend id target size)) B G eq_refl eq_refl Hs) as Hd.
  apply (moves_trans _ _ (done_op id c)); [done|]. simpl. apply moves_refl; try done; apply Hd.
Qed.

Lemma moves_send_finish id writeErr ctx exhausted :
  moves (Some (TSent id writeErr)) c (send_finish id writeErr ctx exhausted c).1.1
    (send_finish id writeErr ctx exhausted c).1.2.
Proof.
  unfold send_finish. destruct (pc_heap c !! id) as [s|]; [|by apply moves_return].
  destruct writeErr as [e|].
  - destruct (context_err ctx); [by apply moves_return|].
    destruct (ss_cancelled s); [by apply moves_return|].
    destruct exhausted; by apply moves_refl.
  - destruct (bool_decide _); [by apply moves_upd_inert|by apply moves_return].
Qed.

Lemma moves_send_failed id writeErr :
  moves (Some (TSendFailed id writeErr)) c (send_failed id writeErr c).1.1
    (send_failed id writeErr c).1.2.
Proof.
  unfold send_failed. destruct (pc_heap c !! id) as [s|]; [|by apply moves_return].
  destruct (_ <=? _); by apply moves_upd_inert.
Qed.

Lemma moves_recv_return id t result c0 ev :
  n_open t = 0 -> on_socket t = Some id -> is_Some (pc_heap c0 !! id) -> books c0 -> budget c0 ->
  moves t c0 (recv_return id result c0 ev).1.1 (recv_return id result c0 ev).1.2.
Proof. intros. by apply moves_done_op. Qed.

Lemma moves_stays t next c0 :
  books c0 -> budget c0 -> n_open t = 0 -> n_open next = 0 -> on_socket t = on_socket next ->
  (forall id, on_socket t = Some id -> is_Some (pc_heap c0 !! id)) -> moves t c0 c0 next.
Proof.
  intros B0 G0 Ht Hn E Hk. split; try done; unfold n_ops, n_on; rewrite <-?E; done || lia.
Qed.

Lemma moves_read_returned id capacity n from readErr ctx :
  is_Some (pc_heap c !! id) ->
  moves (Some (TRecv id capacity)) c (read_returned id capacity n from readErr ctx c).1.1
    (read_returned id capacity n from readErr ctx c).1.2.
Proof.
  intros Hk. unfold read_returned. destruct (pc_heap c !! id) as [s|] eqn:Hs; [|by destruct Hk].
  rewrite <-Hs in Hk.
  destruct readErr; [by apply moves_recv_return|]. destruct (_ || _); [by apply moves_recv_return|].
  destruct (canonicalTarget from) as [canonical|e]; [|by apply moves_recv_return].
  destruct (negb _); [by apply moves_recv_return|]. destruct (negb _); [by apply moves_recv_return|].
  apply moves_stays; try done. by intros j [= <-].
Qed.

Lemma moves_verify_returned id from verifyErr :
  is_Some (pc_heap c !! id) ->
  moves (Some (TVerify id from)) c (verify_returned id from verifyErr c).1.1
    (verify_returned id from verifyErr c).1.2.
Proof.
  intros Hk. unfold verify_returned. destruct (pc_heap c !! id) as [s|] eqn:Hs; [|by destruct Hk].
  rewrite <-Hs in Hk. destruct verifyErr; [by apply moves_recv_return|].
  destruct (still_open s c) eqn:Ho; simpl negb; cbn iota; [|by apply moves_recv_return].
  set (f := fun s => set_ss_verified ({[from]} ∪ ss_verified s) s).
  assert (Hu : moves None c (upd_socket id f c) None).
  { unfold still_open in Ho. apply andb_true_iff in Ho as [Ho _]. apply andb_true_iff in Ho as [Ho _].
    apply bool_decide_eq_true in Ho. apply moves_upd; try done. intros s' Hs'.
    assert (s' = s) as -> by congruence. split_and!; [done|by left|].
    intros Hn. destruct Hn. apply (open_in c id s B Hs). by left. }
  pose proof (moves_recv_return id (Some (TVerify id from)) None (upd_socket id f c)
    [EvVerified id from] eq_refl eq_refl) as Hr.
  destruct Hu as [U1 U2 U3 U4 U5 U6 U7 _]. specialize (Hr (U6 id Hk) U1 U2).
  destruct Hr as [R1 R2 R3 R4 R5 R6 R7 _].
  destruct (idle_counts None idle_None) as (E1 & E2 & E3). split; try done.
  - intros j Hj. by apply R6, U6.
  - intros j. rewrite R7, U7, E3. lia.
Qed.
End operations.

(** A controller that has just been marked stopped: its sockets leave. *)
Lemma moves_stop c f t next c' states :
  books c -> budget c -> same_books c (f c) -> pc_ops (f c) = pc_ops c ->
  (pc_pending (f c), pc_pendingDone (f c), pc_packetsSent (f c), pc_sendTimes (f c)) =
    (pc_pending c, pc_pendingDone c, pc_packetsSent c, pc_sendTimes c) ->
  pc_stopped (f c) = true -> detachOpenSocketsLocked (f c) = (c', states) ->
  idle t -> idle next -> moves t c c' next.
Proof.
  intros B G SB Ho Hc Hst E Ht Hn. pose proof (books_same c (f c) SB B) as Bf.
  injection SB as S0 S1 S2 S3 S4 S5. injection Hc as C1 C2 C3 C4.
  assert (M : moves t (f c) c' next).
  { apply (moves_detach (f c) c' states); try done. intros c0 R B0 K F D.
    destruct R as [R1 R2 R3]. injection R2 as F1 F2 F3 F4 F5 F6 F7. injection R3 as P1 P2 P3 P4 P5 P6 P7.
    apply (budget_shrinks c); [done|congruence| | | |congruence|done| |].
    - rewrite K. apply empty_subseteq.
    - by rewrite <-S3.
    - lia.
    - intros _. congruence.
    - intros _. congruence. }
  destruct M as [M1 M2 M3 M4 M5 M6 M7 M8]. split; try done.
  - congruence.
  - rewrite M4. lia.
  - rewrite M5. lia.
  - intros id Hid. apply M6. by rewrite S1.
  - intros id. rewrite M7. unfold sock_ops. by rewrite S1.
Qed.

Section goroutines.
Context (w : view) (c : Controller) (B : books c) (G : budget c).

Lemma moves_promote_commit id target closeLease deadlineErr :
  moves None c (promote_commit id target closeLease deadlineErr w c).1.1
    (promote_commit id target closeLease deadlineErr w c).1.2.
Proof.
  unfold promote_commit. destruct deadlineErr; [by apply moves_refl|].
  destruct (guard w c) as [c1 v] eqn:E. pose proof (moves_guard w c c1 v B G E) as Hm.
  apply (moves_trans _ _ c1); [done|]. destruct Hm as [B1 G1 _ _ _ _ _ _].
  destruct v as [v|]; [by apply moves_refl|]. unfold state_of.
  case_bool_decide as Hs; simpl negb; cbn iota; [|by apply moves_refl].
  destruct (pc_heap c1 !! id) as [s|] eqn:Hh; [|done].
  pose (c2 := retire socketPromoted id c1).
  pose (f := fun c0 => set_pc_cancelled true (set_pc_stopped true (set_pc_promoted true c0))).
  pose proof (moves_retire socketPromoted id c1 s None None ltac:(by right) B1 G1 Hh
    idle_None idle_None) as Hr.
  change (set_pc_cancelled true (set_pc_stopped true (set_pc_promoted true c1))) with (f c1).
  assert (Ef : retire socketPromoted id (f c1) = f c2).
  { unfold c2, f, retire, releaseTargetsLocked, upd_socket. simpl.
    rewrite lookup_alter_eq, Hh. simpl. by destruct (fold_left _ _ _). }
  rewrite Ef. destruct (detachOpenSocketsLocked (f c2)) as [c3 siblings] eqn:Ed.
  apply (moves_trans _ _ c2); [done|]. apply (moves_stop c2 f _ _ _ siblings); try done; apply Hr.
Qed.

Lemma moves_closeSocketState id k :
  is_Some (pc_heap c !! id) ->
  moves None c (closeSocketState id k c).1.1 (closeSocketState id k c).1.2.
Proof.
  intros [s Hs]. unfold closeSocketState. destruct (bool_decide _); [by apply moves_refl|].
  apply (moves_retire _ _ _ s); by auto.
Qed.

Lemma idle_continue k : idle (continue k c).1.2 /\ (continue k c).1.1 = c.
Proof.
  destruct k; simpl; try by split. split; [apply idle_violation|apply handleViolation_controller].
Qed.

Lemma moves_stopLocal who o : stopLocal who c = Some o -> moves None c o.1.1 o.1.2.
Proof.
  unfold stopLocal. destruct (pc_drainOnce c) eqn:E; [|done|].
  - intros [= <-]. unfold stop_section. destruct (detachOpenSocketsLocked _) as [c' states] eqn:Ed.
    by apply (moves_stop c (fun c0 => set_pc_cancelled true
      (set_pc_stopped true (set_pc_drainOnce OnceRunning c0))) _ _ _ states).
  - intros [= <-]. by destruct who; apply moves_refl.
Qed.

Lemma idle_after_trip watcher result c0 ev :
  idle (after_trip watcher result c0 ev).1.2 /\ (after_trip watcher result c0 ev).1.1 = c0.
Proof. by destruct watcher. Qed.

Lemma moves_trip v watcher : moves None c (trip v watcher c).1.1 (trip v watcher c).1.2.
Proof.
  unfold trip. destruct (v_reason v).
  - destruct (_ || _).
    + destruct (idle_after_trip watcher (match v_cause v with
        | Some cause => probe_join [Some cause; Some PErrLeaseClosed]
        | None => Some PErrLeaseClosed end) c []) as [Hi ->]. by apply moves_refl.
    + apply moves_same; try done. split_and!; try done. apply G.
  - destruct (idle_after_trip watcher (v_cause v) c []) as [Hi ->]. by apply moves_refl.
Qed.

(** A change of flags that are in neither the books nor the budget. *)
Lemma moves_flags c' next :
  same_books c c' -> pc_ops c' = pc_ops c ->
  (pc_pending c', pc_pendingDone c', pc_packetsSent c', pc_sendTimes c') =
    (pc_pending c, pc_pendingDone c, pc_packetsSent c, pc_sendTimes c) ->
  (pc_stopped c', pc_promoted c') = (pc_stopped c, pc_promoted c) ->
  (pc_drainOnce c' <> OnceIdle -> pc_stopped c' = true) -> idle next -> moves None c c' next.
Proof.
  intros SB Ho H1 H2 H3 Hn. apply moves_same; try done. pose proof SB as E.
  injection E as E0 E1 E2 E3 E4 E5. split_and!; try done. congruence.
Qed.

(** What the goroutine at [t] needs of the state. *)
Definition thread_ok (t : pthread) : Prop :=
  (t = TOpen -> 1 <= pc_pending c) /\
  (forall id, on_socket (Some t) = Some id -> is_Some (pc_heap c !! id)) /\
  match t with
  | TAbort id _ | TPromoting id _ _ => is_Some (pc_heap c !! id)
  | TStopOps _ => pc_stopped c = true
  | _ => True
  end.

Lemma moves_from_idle t c' next : idle (Some t) -> moves None c c' next -> moves (Some t) c c' next.
Proof.
  intros Ht [M1 M2 M3 M4 M5 M6 M7 M8].
  destruct (idle_counts _ Ht) as (T1 & T2 & T3), (idle_counts None idle_None) as (E1 & E2 & E3).
  split; try done; try lia. intros id. rewrite M7, T3, E3. done.
Qed.

Lemma moves_resume t ans o :
  thread_ok t -> resume t ans w c = Some o -> moves (Some t) c o.1.1 o.1.2.
Proof.
  intros (H1 & H2 & H3) E.
  destruct t, ans; try discriminate E; simpl in E.
  all: try (injection E as <-).
  all: try (by apply moves_from_idle; [done|]; apply moves_refl).
  - apply moves_open_returned; auto.
  - apply moves_from_idle; [done|]. by apply moves_open_failed.
  - apply moves_write_returned; auto.
  - by apply moves_send_finish.
  - by apply moves_send_failed.
  - apply moves_read_returned; auto.
  - apply moves_verify_returned; auto.
  - destruct (ops_done _ _); [|done]. injection E as <-. apply moves_from_idle; [done|].
    apply moves_promote_commit.
  - apply moves_from_idle; [done|]. by apply moves_closeSocketState.
  - apply moves_from_idle; [done|]. destruct closeLease; apply moves_flags; try done; apply G.
  - apply moves_from_idle; [done|]. unfold close_next. destruct todo as [|id todo].
    + by apply moves_refl.
    + by apply moves_upd_inert.
  - apply moves_from_idle; [done|]. unfold wait_next in E. destruct todo as [|id todo].
    + injection E as <-. destruct (idle_continue k) as [Hi ->]. by apply moves_refl.
    + destruct (ops_done _ _); [|done]. injection E as <-. by apply moves_refl.
  - apply moves_from_idle; [done|]. apply moves_trip.
  - destruct (wake_ready _ _ _); [|done]. injection E as <-. apply moves_from_idle; [done|].
    destruct why; by apply moves_refl.
  - apply moves_from_idle; [done|]. apply moves_flags; try done. apply G.
  - apply moves_from_idle; [done|]. by eapply moves_stopLocal.
  - destruct (pc_pendingDone c); [|done]. injection E as <-. apply moves_from_idle; [done|].
    by apply moves_refl.
  - destruct (pc_ops c =? 0); [|done]. injection E as <-. apply moves_from_idle; [done|].
    destruct who; by apply moves_flags.
  - apply moves_from_idle; [done|]. apply moves_flags; try done. apply G.
  - destruct (pc_watchDone c); [|done]. injection E as <-. apply moves_from_idle; [done|].
    by apply moves_refl.
Qed.
End goroutines.

(** ** The events a controller trips with are valid *)

(** A chunk that is one whole rune wherever it stands. *)
Definition good_chunk (chunk : list Z) : Prop :=
  Forall is_byte chunk /\
  exists r, is_control r = false /\ forall rest, runes (chunk ++ rest) = (r, true) :: runes rest.

Lemma rune_chunks_good n : forall bs,
  (length bs <= n)%nat -> Forall is_byte bs ->
  forall chunk, chunk ∈ rune_chunks bs -> valid_chunk chunk = true ->
  Forall is_byte chunk /\ exists r, forall rest, runes (chunk ++ rest) = (r, true) :: runes rest.
Proof.
  induction n as [|n IH]; intros bs Hn Hb chunk Hin Hv.
  { destruct bs; [by apply elem_of_nil in Hin|simpl in Hn; lia]. }
  destruct bs as [|b0 r0]; [by apply elem_of_nil in Hin|].
  assert (Hlow : b0 <? 128 = false -> runes [b0] = [(rune_error, false)]).
  { intros E. simpl. by rewrite E. }
  assert (Hbad : forall bs' cs, (length bs' <= n)%nat -> Forall is_byte bs' -> b0 <? 128 = false ->
    chunk ∈ [b0] :: cs -> (chunk ∈ cs -> chunk ∈ rune_chunks bs') ->
    Forall is_byte chunk /\ exists r, forall rest, runes (chunk ++ rest) = (r, true) :: runes rest).
  { intros bs' cs Hl Hb' E Hc Hcs. apply elem_of_cons in Hc as [-> |Hc]; [|by apply (IH bs'); auto].
    unfold valid_chunk in Hv. by rewrite (Hlow E) in Hv. }
  apply Forall_cons in Hb as [Hb0 Hb]. simpl in Hn. simpl rune_chunks in Hin.
  destruct (b0 <? 128) eqn:E0.
  { apply elem_of_cons in Hin as [-> |Hin]; [|apply (IH r0); [lia|done..]].
    split; [by rewrite ?Forall_cons, ?Forall_nil|]. exists b0. intros rest. simpl. by rewrite E0. }
  destruct r0 as [|b1 r1]; [by apply (Hbad [] []); [simpl; lia|..]|].
  apply Forall_cons in Hb as [Hb1 Hb]. simpl in Hn.
  destruct (in_range 194 223 b0 && cont_byte b1) eqn:E1.
  { apply elem_of_cons in Hin as [-> |Hin]; [|apply (IH r1); [lia|done..]].
    split; [by rewrite ?Forall_cons, ?Forall_nil|]. eexists. intros rest. simpl. by rewrite E0, E1. }
  destruct r1 as [|b2 r2]; [by eapply (Hbad [b1]); [simpl; lia|by rewrite ?Forall_cons, ?Forall_nil|done|done|]|].
  apply Forall_cons in Hb as [Hb2 Hb]. simpl in Hn.
  assert (H2 : forall x, in_range 224 239 x || in_range 240 244 x = true -> in_range 194 223 x = false).
  { unfold in_range. intros x. lia. }
  destruct (in_range 224 239 b0 && second_ok b0 b1 && cont_byte b2) eqn:E2.
  { apply elem_of_cons in Hin as [-> |Hin]; [|apply (IH r2); [lia|done..]].
    split; [by rewrite ?Forall_cons, ?Forall_nil|]. eexists. intros rest. simpl. rewrite E0.
    rewrite H2 by (apply andb_true_iff in E2 as [[-> _]%andb_true_iff _]; done). simpl. by rewrite E2. }
  destruct r2 as [|b3 r3];
    [by eapply (Hbad [b1; b2]); [simpl; lia|by rewrite ?Forall_cons, ?Forall_nil|done|done|]|].
  apply Forall_cons in Hb as [Hb3 Hb]. simpl in Hn.
  destruct (in_range 240 244 b0 && second_ok b0 b1 && cont_byte b2 && cont_byte b3) eqn:E3.
  { apply elem_of_cons in Hin as [-> |Hin]; [|apply (IH r3); [lia|done..]].
    split; [by rewrite ?Forall_cons, ?Forall_nil|]. eexists. intros rest. simpl. rewrite E0.
    assert (Hr : in_range 240 244 b0 = true) by (by destruct (in_range 240 244 b0)).
    rewrite H2 by (by rewrite Hr, orb_true_r). simpl.
    assert (in_range 224 239 b0 = false) as -> by (unfold in_range in *; lia). simpl. by rewrite E3. }
  eapply (Hbad (b1 :: b2 :: b3 :: r3)); [simpl; lia|by rewrite ?Forall_cons, ?Forall_nil|done|done|done].
Qed.

Lemma runes_good cs :
  Forall good_chunk cs ->
  forallb snd (runes (concat cs)) = true /\
  existsb (fun r => is_control (fst r)) (runes (concat cs)) = false.
Proof.
  induction 1 as [|c cs (_ & r & Hc & Hr) _ [I1 I2]]; [done|]. simpl. rewrite Hr. simpl.
  by rewrite I1, I2, Hc.
Qed.

Lemma good_concat_bytes cs : Forall good_chunk cs -> Forall is_byte (concat cs).
Proof.
  induction 1 as [|c cs [Hb _] _ IH]; simpl; [by apply Forall_nil|]. by apply Forall_app.
Qed.

Lemma to_valid_good bs : Forall is_byte bs -> forall b chunks,
  (forall c, c ∈ chunks -> c ∈ rune_chunks bs) ->
  Forall (fun c => Forall is_byte c /\
            exists r, forall rest, runes (c ++ rest) = (r, true) :: runes rest) (to_valid b chunks).
Proof.
  intros Hb b chunks. revert b. induction chunks as [|c chunks IH]; intros b Hin; simpl.
  { by apply Forall_nil. }
  assert (Hin' : forall c, c ∈ chunks -> c ∈ rune_chunks bs) by (intros; apply Hin; by right).
  destruct (valid_chunk c) eqn:Hv.
  - apply Forall_cons. split; [|by apply IH].
    eapply (rune_chunks_good (length bs) bs); try done. apply Hin. by left.
  - destruct b; [by apply IH|]. apply Forall_cons. split; [|by apply IH].
    split; [rewrite Forall_cons, Forall_nil; by unfold is_byte|]. by exists 63.
Qed.

Lemma blank_control_good c :
  Forall is_byte c -> (exists r, forall rest, runes (c ++ rest) = (r, true) :: runes rest) ->
  good_chunk (blank_control c).
Proof.
  intros Hb (r & Hr). unfold blank_control. specialize (Hr []) as Hr0. rewrite app_nil_r in Hr0.
  rewrite Hr0. simpl. rewrite orb_false_r. destruct (is_control r) eqn:E.
  - split; [rewrite Forall_cons, Forall_nil; by unfold is_byte|]. by exists 32.
  - split; [done|]. by exists r.
Qed.

Lemma drop_spaces_Forall (P : list Z -> Prop) cs : Forall P cs -> Forall P (drop_spaces cs).
Proof. induction 1 as [|c cs Hc Hcs IH]; simpl; [by apply Forall_nil|]. destruct (space_chunk c); [done|]. by apply Forall_cons. Qed.

Lemma shorten_Forall (P : list Z -> Prop) n cs : Forall P cs -> Forall P (shorten n cs).
Proof. induction 1 as [|c cs Hc Hcs IH]; simpl; [by apply Forall_nil|]. destruct (_ <? _); [done|]. by apply Forall_cons. Qed.

Lemma shorten_length n cs : 0 <= n -> blen (concat (shorten n cs)) <= n.
Proof.
  intros Hn. induction cs as [|c cs IH]; [done|]. cbn [shorten].
  destruct (n <? blen (concat (c :: cs))) eqn:E; [done|]. by apply Z.ltb_ge in E.
Qed.

Lemma concat_rev_length (cs : list (list Z)) : length (concat (rev cs)) = length (concat cs).
Proof.
  induction cs as [|c cs IH]; [done|]. simpl. rewrite concat_app, !length_app, IH. simpl.
  rewrite length_app. simpl. lia.
Qed.

Lemma slen_bytes_string bs : slen (bytes_string bs) = blen bs.
Proof. unfold slen, blen. induction bs as [|b bs IH]; simpl; [done|]. lia. Qed.

Lemma boundedDetail_text field detail :
  validateSafetyDiagnosticText field (boundedDetail detail) maxSafetyTripDetailLen true = None.
Proof.
  unfold validateSafetyDiagnosticText. case_bool_decide; [done|]. unfold boundedDetail.
  set (cs := map blank_control _).
  assert (Hg : Forall good_chunk cs).
  { apply Forall_map. pose proof (to_valid_good (string_bytes detail) (string_bytes_is_byte detail) false
      (rune_chunks (string_bytes detail)) (fun _ H => H)) as Hv.
    eapply Forall_impl; [exact Hv|]. intros c [Hb Hr]. by apply blank_control_good. }
  set (ds := rev (shorten 512 _)).
  assert (Hd : Forall good_chunk ds).
  { apply Forall_rev, shorten_Forall, Forall_rev, Forall_rev, drop_spaces_Forall, Forall_rev,
      drop_spaces_Forall. done. }
  pose proof (string_bytes_string _ (good_concat_bytes ds Hd)) as Hs.
  destruct (runes_good ds Hd) as [Hv Hc].
  unfold valid_utf8, has_control, string_runes. rewrite Hs, Hv, Hc. simpl.
  rewrite slen_bytes_string. rewrite (proj2 (Z.ltb_ge _ _)); [done|].
  unfold ds, blen. rewrite concat_rev_length.
  pose proof (shorten_length 512 (rev (rev (drop_spaces (rev (drop_spaces cs)))))) as Hl.
  unfold blen in Hl. unfold maxSafetyTripDetailLen. lia.
Qed.
