(* ===== verification/ProbeTrace.v ===== *)
(** * Probe I/O: the trace of a run

    [counted]: the counters are the numbers of goroutines in flight.
    [happened] classifies what a stretch of a goroutine does, and [earned] says
    what a trace tells about the state it leads to: how many packets were sent
    and when, and which events justify a send and a promotion. *)
From S2P Require Import Prelude GoStd Limits SafetyTrip Governor GovernorSteps GovernorInv GovernorMicro GovernorLocal GovernorThms ProbeIO ProbeInv.

(** ** Counting the goroutines *)
Definition count (f : option pthread -> Z) (m : gmap nat pthread) : Z := map_sum (fun t => f (Some t)) m.

Lemma count_put f m tid (t next : option pthread) :
  m !! tid = t -> f None = 0 -> count f (put_thread tid next m) = count f m - f t + f next.
Proof.
  intros Ht H0. unfold count.
  assert (Hd : map_sum (fun t => f (Some t)) m =
               f t + map_sum (fun t => f (Some t)) (delete tid m)).
  { destruct t as [t|]; [by rewrite (map_sum_delete _ _ _ _ Ht)|]. rewrite H0, delete_id by done. lia. }
  destruct next as [t'|]; simpl.
  - rewrite <-insert_delete_eq, map_sum_insert by apply lookup_delete_eq. lia.
  - rewrite H0. lia.
Qed.

Lemma put_thread_Some tid next m tid' t' :
  put_thread tid next m !! tid' = Some t' ->
  (tid' = tid /\ next = Some t') \/ (tid' <> tid /\ m !! tid' = Some t').
Proof.
  destruct next as [t|]; simpl.
  - rewrite lookup_insert_Some. intros [[-> [= ->]]|[? ?]]; [by left|right; by auto].
  - rewrite lookup_delete_Some. intros [? ?]. right. by auto.
Qed.

Lemma count_ge f m tid t :
  m !! tid = Some t -> (forall t, 0 <= f t) -> f (Some t) <= count f m.
Proof.
  intros Ht Hf. unfold count. rewrite (map_sum_delete _ _ _ _ Ht).
  pose proof (map_sum_nonneg (fun t => f (Some t)) (delete tid m) (fun _ x _ => Hf _)). lia.
Qed.

Lemma n_open_nonneg t : 0 <= n_open t.
Proof. destruct t as [[]|]; simpl; lia. Qed.
Lemma n_ops_nonneg t : 0 <= n_ops t.
Proof. unfold n_ops. destruct (bool_decide _); simpl; lia. Qed.

(** The socket a goroutine will look up again. *)
Definition names (t : pthread) : option Z :=
  match t with
  | TSend id _ _ | TRecv id _ | TVerify id _ | TAbort id _ | TPromoting id _ _ => Some id
  | _ => None
  end.

(** The goroutine that runs the body of [drainOnce.Do]. *)
Definition n_stop (t : option pthread) : Z :=
  match t with
  | Some (TAbort _ (KStop _)) | Some (TClosing _ _ (KStop _)) | Some (TWaiting _ (KStop _))
  | Some (TStopPending _) | Some (TStopOps _) => 1
  | _ => 0
  end.

(** ** The invariant of a run: counters and goroutines *)
Record counted (c : Controller) (m : gmap nat pthread) : Prop := {
  ct_books : books c;
  ct_budget : budget c;
  ct_pending : pc_pending c = count n_open m;
  ct_ops : pc_ops c = count n_ops m;
  ct_socket id : sock_ops c id = count (n_on id) m;
  ct_names tid t id : m !! tid = Some t -> names t = Some id -> is_Some (pc_heap c !! id);
}.

(** The names of a goroutine are sockets. *)
Definition named (c : Controller) (t : option pthread) : Prop :=
  forall t' id, t = Some t' -> names t' = Some id -> is_Some (pc_heap c !! id).

Lemma counted_moves c c' m tid t next :
  counted c m -> m !! tid = t -> moves t c c' next -> named c' next ->
  counted c' (put_thread tid next m).
Proof.
  intros [C1 C2 C3 C4 C5 C6] Ht [M1 M2 M3 M4 M5 M6 M7 M8] Hn.
  split; try done.
  - rewrite (count_put n_open m tid t next) by done. lia.
  - rewrite (count_put n_ops m tid t next) by done. lia.
  - intros id. rewrite (count_put (n_on id) m tid t next), M7, C5 by done. done.
  - intros tid' t' id Hp Hk. destruct (put_thread_Some _ _ _ _ _ Hp) as [[_ E]|[_ E]].
    + by eapply Hn.
    + apply M6. by eapply C6.
Qed.

Lemma named_invoke op w c :
  books c -> budget c -> named (invoke op w c).1.1 (invoke op w c).1.2.
Proof.
  intros B G t' id E Hk. pose proof (moves_invoke w c B G op) as [_ _ _ _ _ Hg _ Hkn].
  destruct (names t') eqn:En; [|done]. injection Hk as ->.
  assert (on_socket (Some t') = Some id \/ is_Some (pc_heap c !! id)) as [Ho|Ho]; [|by apply Hkn; rewrite E|by apply Hg].
  destruct t'; simpl in En; try discriminate En; simplify_eq; try (by left); right.
  all: clear Hg Hkn; destruct op; simpl in E; unfold OpenProbeSocket, RegisterTarget, LocalAddr, Reservation,
    read_socket, SendProbe, ReceiveReply, promote, ProbeSocket_Close, Poison, handleViolation, return_ in E;
    repeat (case_match; simplify_eq/=); by eauto.
Qed.

(** ** What a stretch of a goroutine does *)

(** Nothing is gained: sockets, targets and verified targets at most leave. *)
Record inert (c c' : Controller) : Prop := {
  in_config : pc_config c' = pc_config c;
  in_sent : (pc_packetsSent c', pc_sendTimes c', pc_promoted c') =
            (pc_packetsSent c, pc_sendTimes c, pc_promoted c);
  in_stopped : pc_stopped c = true -> pc_stopped c' = true;
  in_tripping : pc_tripping c = true -> pc_tripping c' = true;
  in_heap id s' : pc_heap c' !! id = Some s' ->
    exists s, pc_heap c !! id = Some s /\ ss_targets s' ⊆ ss_targets s /\
      ss_verified s' ⊆ ss_verified s /\ (ss_state s' = socketOpen -> ss_state s = socketOpen);
}.

#[export] Instance inert_preorder : PreOrder inert.
Proof.
  split.
  - intros c. split; try done. intros id s Hs. exists s. done.
  - intros c1 c2 c3 [A1 A2 A3 A4 A5] [B1 B2 B3 B4 B5]. split; try congruence; auto.
    intros id s3 K3. destruct (B5 id s3 K3) as (s2 & K2 & ? & ? & ?).
    destruct (A5 id s2 K2) as (s1 & K1 & ? & ? & ?). exists s1. split_and!; auto; by etrans.
Qed.

(** Changes of the fields [inert] does not mention. *)
Lemma inert_same c c' :
  pc_config c' = pc_config c -> pc_heap c' = pc_heap c ->
  (pc_packetsSent c', pc_sendTimes c', pc_promoted c') =
    (pc_packetsSent c, pc_sendTimes c, pc_promoted c) ->
  (pc_stopped c = true -> pc_stopped c' = true) -> (pc_tripping c = true -> pc_tripping c' = true) ->
  inert c c'.
Proof. intros ? Hh ? ? ?. split; try done. intros id s. rewrite Hh. intros Hs. exists s. done. Qed.

Lemma inert_upd id f c :
  (forall s, pc_heap c !! id = Some s -> ss_targets (f s) ⊆ ss_targets s /\
     ss_verified (f s) ⊆ ss_verified s /\ (ss_state (f s) = socketOpen -> ss_state s = socketOpen)) ->
  inert c (upd_socket id f c).
Proof.
  intros Hf. split; try done. intros j s'. simpl. rewrite lookup_alter_Some.
  intros [(<- & s & Hs & ->)|[_ Hs]]; [exists s; by auto|by exists s'].
Qed.

Lemma inert_add_op id c : inert c (add_op id c).
Proof. etrans; [apply (inert_upd id (fun s => set_ss_ops (ss_ops s + 1) s)); done|by apply inert_same]. Qed.
Lemma inert_done_op id c : inert c (done_op id c).
Proof. etrans; [apply (inert_upd id (fun s => set_ss_ops (ss_ops s - 1) s)); done|by apply inert_same]. Qed.

Lemma inert_retire st id c :
  st <> socketOpen -> inert c (retire st id c).
Proof.
  intros Hst. destruct (retire_rest st id c) as [R1 R2 R3]. injection R2 as F1 F2 F3 _ _ _ _.
  injection R3 as _ _ _ P4 P5 _ _. split; try congruence.
  intros j s'. destruct (pc_heap c !! id) as [s|] eqn:Hs.
  - rewrite (retire_heap _ _ _ _ Hs), lookup_insert_Some. intros [[<- <-]|[_ Hj]]; [|by exists s'].
    exists s. split_and!; try done; apply empty_subseteq.
  - rewrite retire_missing by done. simpl. intros Hj. by exists s'.
Qed.

Lemma inert_detach c : books c -> inert c (detachOpenSocketsLocked c).1.
Proof.
  intros B. destruct (detachOpenSocketsLocked c) as [c' states] eqn:E.
  destruct (detach_spec c c' states B E) as [_ [R1 R2 R3] _ _ _ _ Hh]. simpl.
  injection R2 as F1 F2 F3 _ _ _ _. injection R3 as _ _ _ P4 P5 _ _. split; try congruence.
  intros id s'. rewrite Hh. intros (s & Hs & ->)%fmap_Some. exists s.
  rewrite Hs. case_bool_decide; [|done].
  split_and!; try done; apply empty_subseteq.
Qed.

Lemma inert_guard w c c' v : guard w c = (c', v) -> inert c c'.
Proof. intros E. destruct (guard_spec w c c' v E) as [[-> | ->] _]; [done|by apply inert_same]. Qed.

Lemma inert_pending c : inert c (addPendingLocked c) /\ inert c (finishPendingLocked c).
Proof.
  unfold addPendingLocked, finishPendingLocked.
  split; repeat case_match; by apply inert_same.
Qed.

(** Events that tell of no socket: readings, returns, trips and drains. *)
Definition plain (ev : list pevent) : bool :=
  forallb (fun e => match e with
                    | EvNow _ | EvReturn _ | EvTrip _ _ | EvDrained | EvRevoked => true
                    | _ => false
                    end) ev.

Inductive happened (w : view) (c : Controller) : list pevent -> Controller -> Prop :=
| hp_inert ev c' : plain ev = true -> inert c c' -> happened w c ev c'
| hp_expire now now' c1 c' :
    inert c c1 -> c' = set_pc_sendTimes (expire (TAdd now' (- Second)) (pc_sendTimes c1)) c1 ->
    happened w c [EvNow now; EvNow now'] c'
| hp_opened c1 now :
    inert c c1 -> pc_stopped c = false ->
    happened w c [EvNow now; EvOpened (pc_nextID c1 + 1); EvReturn None] (install_socket c1)
| hp_registered c1 id t now :
    inert c c1 -> pc_stopped c = false -> is_Some (pc_heap c1 !! id) ->
    happened w c [EvNow now; EvRegistered id t; EvReturn None] (register id t c1)
| hp_send c1 c' id s t now' :
    inert c c1 -> pc_stopped c = false -> pc_tripping c = false ->
    vw_revoked w = false -> vw_current w = cfg_expectedGeneration (pc_config c) ->
    instant (pc_lastNow c) <= instant (vw_now w) <
      instant (cfg_startedAt (pc_config c)) + cost_Duration (cost_of_config c) ->
    pc_heap c !! id = Some s -> ss_state s = socketOpen -> t ∈ ss_targets s ->
    pc_packetsSent c < Packets (limits_of c) ->
    Z.of_nat (length (expire (TAdd now' (- Second)) (pc_sendTimes c))) < PacketsPerSecond (limits_of c) ->
    inert (set_pc_sendTimes (expire (TAdd now' (- Second)) (pc_sendTimes c) ++ [now'])
             (set_pc_packetsSent (pc_packetsSent c + 1) c1)) c' ->
    happened w c [EvNow (vw_now w); EvNow now'; EvSend id t now'] c'
| hp_verified c' id t :
    pc_stopped c = false -> inert (upd_socket id (fun s => set_ss_verified ({[t]} ∪ ss_verified s) s) c) c' ->
    happened w c [EvVerified id t; EvReturn None] c'
| hp_promoted c1 c' id t :
    inert c c1 -> pc_stopped c = false -> state_of id c = Some socketPromoting ->
    inert (set_pc_stopped true (set_pc_promoted true c1)) c' ->
    happened w c [now_of w; EvPromoted id t] c'.

Lemma happened_violation w c c1 v ev :
  inert c c1 -> plain ev = true ->
  happened w c (handleViolation v c1 ev).2 (handleViolation v c1 ev).1.1.
Proof.
  intros Hi Hp. unfold handleViolation, return_. destruct (v_reason v); simpl; apply hp_inert; try done.
  unfold plain in *. rewrite forallb_app, Hp. done.
Qed.

(** Goes through the guard; what is left is the branch in which it holds. *)
Ltac past_guard c1 Hi :=
  let v := fresh "v" in let E := fresh "Eg" in
  match goal with
  | |- context [guard ?w ?c] =>
      destruct (guard w c) as [c1 v] eqn:E; pose proof (inert_guard w c c1 v E) as Hi;
      destruct v as [v|]; [by apply happened_violation|];
      destruct (guard_spec w c c1 None E) as (_ & [-> (? & ? & ? & ? & ?)] & _); [done|]
  end.
Ltac quiet := by apply hp_inert.

Section happened.
Context (w : view) (c : Controller) (B : books c) (G : budget c).

Lemma happened_send id ctx target size now' :
  happened w c (SendProbe id ctx target size now' w c).2 (SendProbe id ctx target size now' w c).1.1.
Proof.
  unfold SendProbe. destruct (context_err ctx); [quiet|].
  destruct (canonicalTarget target) as [t|e]; [|quiet].
  destruct (pc_heap c !! id) as [s|] eqn:Hs; [|quiet]. past_guard c1 Hi.
  case_bool_decide as Ho; simpl negb; cbn iota; [|quiet].
  case_bool_decide as Ht; simpl negb; cbn iota; [|quiet].
  destruct (reserveSendLocked now' _) as [c2 v] eqn:Er. pose proof (reserve_spec _ _ _ _ Er) as Hr.
  destruct v as [v|].
  - destruct Hr as [-> | ->]; [by apply happened_violation|].
    unfold handleViolation. destruct (v_reason v) eqn:Ev.
    + by eapply hp_expire.
    + unfold reserveSendLocked in Er. repeat case_match; simplify_eq.
  - destruct Hr as (H1' & H2' & ->). eapply hp_send; try done. apply inert_add_op.
Qed.

Lemma happened_invoke op : happened w c (invoke op w c).2 (invoke op w c).1.1.
Proof.
  destruct op; simpl.
  - unfold OpenProbeSocket. destruct (context_err ctx); [quiet|]. past_guard c1 Hi.
    destruct (_ <=? _); [by apply happened_violation|]. apply hp_inert; [done|].
    etrans; [done|apply inert_pending].
  - unfold RegisterTarget. destruct (canonicalTarget target) as [t|e]; [|quiet].
    destruct (pc_heap c !! id) as [s|] eqn:Hs; [|quiet]. past_guard c1 Hi.
    destruct (negb _); [quiet|]. destruct (bool_decide _); [quiet|].
    destruct (_ && _); [by apply happened_violation|].
    destruct (_ <=? _); [by apply happened_violation|]. by apply hp_registered.
  - unfold LocalAddr, read_socket. destruct (pc_heap c !! id) as [s|]; [|quiet]. past_guard c1 Hi.
    destruct (negb _); quiet.
  - unfold Reservation, read_socket. destruct (pc_heap c !! id) as [s|]; [|quiet]. past_guard c1 Hi.
    destruct (negb _); quiet.
  - apply happened_send.
  - unfold ReceiveReply. destruct ctx as [|msg|]; [quiet| |]; (destruct (negb verify); [quiet|]);
      simpl context_err; cbn iota; [quiet|].
    destruct (pc_heap c !! id) as [s|]; [|quiet]. past_guard c1 Hi.
    destruct (negb _); [quiet|]. apply hp_inert; [done|]. etrans; [done|apply inert_add_op].
  - unfold promote. destruct (canonicalTarget target) as [t|e]; [|quiet].
    destruct (validateText _ _ _); [quiet|].
    destruct (pc_heap c !! id) as [s|] eqn:Hs; [|quiet]. past_guard c1 Hi.
    destruct (pc_promoted _); [quiet|]. destruct (negb _); [quiet|]. destruct (negb _); [quiet|].
    destruct (negb _); [quiet|]. apply hp_inert; [done|]. etrans; [done|]. by apply inert_upd.
  - unfold ProbeSocket_Close. destruct (pc_heap c !! id); [|quiet].
    destruct (bool_decide _); [quiet|]. destruct (negb _); [quiet|].
    apply hp_inert; [done|]. by apply inert_retire.
  - unfold Poison. destruct (negb _); quiet.
  - quiet.
Qed.

Lemma happened_open_failed exhausted v openErr c0 ev :
  inert c c0 -> plain ev = true ->
  happened w c (open_failed exhausted v openErr c0 ev).2 (open_failed exhausted v openErr c0 ev).1.1.
Proof.
  intros Hi Hp. unfold open_failed. destruct v; [by apply happened_violation|].
  destruct exhausted; [quiet|]. apply hp_inert; [|done]. simpl. unfold plain in *.
  by rewrite forallb_app, Hp.
Qed.

Lemma happened_open_returned datagram openErr exhausted :
  happened w c (open_returned datagram openErr exhausted w c).2
    (open_returned datagram openErr exhausted w c).1.1.
Proof.
  unfold open_returned. destruct (guard w (finishPendingLocked c)) as [c1 v] eqn:E.
  assert (Hi : inert c c1) by (etrans; [apply inert_pending|by eapply inert_guard]).
  destruct (guard_spec w _ c1 v E) as (_ & Hg & _).
  set (e := match openErr, datagram with None, false => _ | _, _ => _ end).
  assert (Hrest : happened w c
    (if datagram then (c1, Some (TOpenClose v e), [now_of w]) else open_failed exhausted v e c1 [now_of w]).2
    (if datagram then (c1, Some (TOpenClose v e), [now_of w]) else open_failed exhausted v e c1 [now_of w]).1.1).
  { destruct datagram; [quiet|by apply happened_open_failed]. }
  destruct e as [e|]; [done|]. destruct v as [v|]; [done|].
  apply hp_opened; [done|]. destruct (Hg eq_refl) as (_ & Hst & _).
  unfold finishPendingLocked in Hst. by repeat case_match.
Qed.

Lemma happened_promote_commit id target closeLease deadlineErr :
  happened w c (promote_commit id target closeLease deadlineErr w c).2
    (promote_commit id target closeLease deadlineErr w c).1.1.
Proof.
  unfold promote_commit. destruct deadlineErr; [quiet|].
  destruct (guard w c) as [c1 v] eqn:E. pose proof (inert_guard w c c1 v E) as Hi.
  destruct v as [v|]; [quiet|]. destruct (guard_spec w c c1 None E) as (_ & [-> (? & ? & ? & ? & ?)] & _); [done|].
  case_bool_decide as Hs; simpl negb; cbn iota; [|quiet].
  set (c2 := set_pc_cancelled true _).
  assert (Bk : books (retire socketPromoted id c2)).
  { assert (books c2) by (by apply (books_same c)). unfold state_of in Hs. simpl in Hs.
    destruct (pc_heap c !! id) as [s|] eqn:Hh; [|done].
    apply (retire_books socketPromoted id c2 s); by auto. }
  pose proof (inert_detach _ Bk) as Hd.
  destruct (detachOpenSocketsLocked (retire socketPromoted id c2)) as [c3 siblings]. simpl in *.
  eapply hp_promoted; [exact Hi|done|done|]. etrans; [|exact Hd].
  etrans; [|by apply inert_retire]. by apply inert_same.
Qed.

Lemma happened_after_trip watcher result c0 ev :
  inert c c0 -> plain ev = true ->
  happened w c (after_trip watcher result c0 ev).2 (after_trip watcher result c0 ev).1.1.
Proof.
  intros Hi Hp. unfold after_trip, return_. destruct watcher; simpl; apply hp_inert; try done.
  unfold plain in *. by rewrite forallb_app, Hp.
Qed.

Lemma happened_resume t ans o : resume t ans w c = Some o -> happened w c o.2 o.1.1.
Proof.
  intros E. destruct t, ans; try discriminate E; simpl in E; try (injection E as <-); try quiet.
  - apply happened_open_returned.
  - by apply happened_open_failed.
  - apply hp_inert; [done|]. apply inert_done_op.
  - unfold send_finish. destruct (pc_heap c !! id) as [s|]; [|quiet].
    destruct writeErr; [destruct (context_err ctx); [quiet|]; destruct (ss_cancelled s); [quiet|];
      destruct exhausted; quiet|].
    apply hp_inert; [done|]. simpl. destruct (bool_decide _); [by apply inert_upd|done].
  - unfold send_failed. destruct (pc_heap c !! id) as [s|]; [|quiet].
    destruct (_ <=? _); (apply hp_inert; [done|by apply inert_upd]).
  - unfold read_returned, recv_return, return_. destruct (pc_heap c !! id) as [s|];
      repeat case_match; simplify_eq/=; (apply hp_inert; [done|]); done || apply inert_done_op.
  - unfold verify_returned, recv_return, return_. destruct (pc_heap c !! id) as [s|] eqn:Hs;
      [|apply hp_inert; [done|apply inert_done_op]].
    destruct verifyErr; [apply hp_inert; [done|apply inert_done_op]|].
    destruct (still_open s c) eqn:Ho; simpl; [|apply hp_inert; [done|apply inert_done_op]].
    apply hp_verified; [|apply inert_done_op]. unfold still_open in Ho.
    by destruct (pc_stopped c), (bool_decide _).
  - destruct (ops_done _ _); [|done]. injection E as <-. apply happened_promote_commit.
  - unfold closeSocketState. apply hp_inert; [done|]. simpl. destruct (bool_decide _); [done|].
    by apply inert_retire.
  - destruct closeLease; (apply hp_inert; [done|by apply inert_same]).
  - unfold close_next. destruct todo; (apply hp_inert; [done|]); [done|by apply inert_upd].
  - unfold wait_next in E. destruct todo as [|id todo].
    + injection E as <-. destruct k; simpl; try quiet. by apply happened_violation.
    + destruct (ops_done _ _); [|done]. injection E as <-. quiet.
  - unfold trip. destruct (v_reason v); [|by apply happened_after_trip].
    destruct (_ || _); [by apply happened_after_trip|]. apply hp_inert; [done|by apply inert_same].
  - destruct (wake_ready _ _ _); [|done]. injection E as <-. destruct why; quiet.
  - apply hp_inert; [done|by apply inert_same].
  - unfold stopLocal in E. destruct (pc_drainOnce c); [|done|injection E as <-; quiet].
    injection E as <-. unfold stop_section. set (c1 := set_pc_cancelled true _).
    assert (Bk : books c1) by (by apply (books_same c)).
    pose proof (inert_detach c1 Bk) as Hd. destruct (detachOpenSocketsLocked c1) as [c2 states].
    simpl in *. apply hp_inert; [done|]. etrans; [|exact Hd]. by apply inert_same.
  - destruct (pc_pendingDone c); [|done]. injection E as <-. quiet.
  - destruct (pc_ops c =? 0); [|done]. injection E as <-. apply hp_inert; [done|by apply inert_same].
  - apply hp_inert; [done|by apply inert_same].
  - destruct (pc_watchDone c); [|done]. injection E as <-. quiet.
Qed.
End happened.

(** ** The trace *)
Definition sends (tr : list pevent) : list Time :=
  omap (fun e => match e with EvSend _ _ t => Some t | _ => None end) tr.
Definition reads (tr : list pevent) : list Time :=
  omap (fun e => match e with EvNow t => Some t | _ => None end) tr.

Lemma sends_app tr ev : sends (tr ++ ev) = sends tr ++ sends ev.
Proof. apply omap_app. Qed.
Lemma reads_app tr ev : reads (tr ++ ev) = reads tr ++ reads ev.
Proof. apply omap_app. Qed.

(** The clock never went back. *)
Definition monotone (ts : list Time) : Prop :=
  forall l1 t l2 u l3, ts = l1 ++ t :: l2 ++ u :: l3 -> instant t <= instant u.

(** The packets of the second that ends at [t]. *)
Definition in_window (t : Time) (ts : list Time) : nat :=
  length (filter (fun s => instant t - Second < instant s <= instant t) ts).

Lemma in_window_app t l1 l2 : in_window t (l1 ++ l2) = (in_window t l1 + in_window t l2)%nat.
Proof. unfold in_window. by rewrite filter_app, length_app. Qed.
Lemma in_window_le t l : (in_window t l <= length l)%nat.
Proof. apply length_filter. Qed.
Lemma in_window_old t l :
  (forall s, s ∈ l -> instant s <= instant t - Second) -> in_window t l = 0%nat.
Proof.
  intros Hl. unfold in_window. induction l as [|s l IH]; [done|].
  rewrite filter_cons_False; [apply IH; intros; apply Hl; by right|].
  intros [Ha _]. specialize (Hl s (list_elem_of_here _ _)). lia.
Qed.

Lemma expire_split cutoff l :
  exists dropped, l = dropped ++ expire cutoff l /\ forall s, s ∈ dropped -> instant s <= instant cutoff.
Proof.
  induction l as [|t l (d & Hd & Hs)]; simpl.
  { exists []. split; [done|]. by intros s ?%elem_of_nil. }
  destruct (After t cutoff) eqn:E; simpl.
  - exists []. split; [done|]. by intros s ?%elem_of_nil.
  - exists (t :: d). split; [simpl; by rewrite <-Hd|]. unfold After in E.
    intros s [-> |Hin]%elem_of_cons; [lia|auto].
Qed.

(** [sendTimes] is the tail of the sends; what was dropped is a second old. *)
Record rated (tr : list pevent) (c : Controller) : Prop := {
  rt_tail : exists old, sends tr = old ++ pc_sendTimes c /\
    forall s, s ∈ old -> exists r, r ∈ reads tr /\ instant s + Second <= instant r;
  rt_window t : Z.of_nat (in_window t (sends tr)) <= PacketsPerSecond (limits_of c);
}.

Lemma monotone_app_l l1 l2 : monotone (l1 ++ l2) -> monotone l1.
Proof.
  intros H a t b u d E. apply (H a t b u (d ++ l2)). rewrite E. by rewrite <-!(assoc_L (++)), <-!app_comm_cons, <-!(assoc_L (++)).
Qed.

Lemma monotone_last l now r : monotone (l ++ [now]) -> r ∈ l -> instant r <= instant now.
Proof.
  intros H (a & b & ->)%list_elem_of_split. apply (H a r b now []).
  by rewrite <-(assoc_L (++)).
Qed.

Lemma rated_plain tr ev c c' :
  sends ev = [] -> pc_sendTimes c' = pc_sendTimes c -> pc_config c' = pc_config c ->
  rated tr c -> rated (tr ++ ev) c'.
Proof.
  intros Hs Ht Hc [(old & H1 & H2) H3].
  split.
  - exists old. rewrite sends_app, Hs, app_nil_r, Ht. split; [done|]. intros s Hin. destruct (H2 s Hin) as (r & ? & ?).
    exists r. split; [|done]. rewrite reads_app. apply elem_of_app. by left.
  - intros t. rewrite sends_app, Hs, app_nil_r, (limits_same c) by done. apply H3.
Qed.

Lemma rated_expire tr ev now c c' :
  sends ev = [] -> now ∈ reads ev ->
  pc_sendTimes c' = expire (TAdd now (- Second)) (pc_sendTimes c) -> pc_config c' = pc_config c ->
  rated tr c -> rated (tr ++ ev) c'.
Proof.
  intros Hs Hn Ht Hc [(old & H1 & H2) H3].
  destruct (expire_split (TAdd now (- Second)) (pc_sendTimes c)) as (d & Hd & Hds).
  split.
  - exists (old ++ d). rewrite sends_app, Hs, app_nil_r, Ht, <-(assoc_L (++)), <-Hd.
    split; [done|]. intros s [Hin|Hin]%elem_of_app.
    + destruct (H2 s Hin) as (r & ? & ?). exists r. split; [|done]. rewrite reads_app. apply elem_of_app. by left.
    + exists now. split; [rewrite reads_app; apply elem_of_app; by right|]. specialize (Hds s Hin). simpl in Hds. lia.
  - intros t. rewrite sends_app, Hs, app_nil_r, (limits_same c) by done. apply H3.
Qed.

Lemma rated_send tr now1 now id t c c' :
  monotone (reads tr ++ [now1; now]) ->
  Z.of_nat (length (expire (TAdd now (- Second)) (pc_sendTimes c))) < PacketsPerSecond (limits_of c) ->
  pc_sendTimes c' = expire (TAdd now (- Second)) (pc_sendTimes c) ++ [now] ->
  pc_config c' = pc_config c -> rated tr c ->
  rated (tr ++ [EvNow now1; EvNow now; EvSend id t now]) c'.
Proof.
  intros Hm Hl Ht Hc [(old & H1 & H2) H3].
  destruct (expire_split (TAdd now (- Second)) (pc_sendTimes c)) as (d & Hd & Hds).
  assert (Hm' : monotone ((reads tr ++ [now1]) ++ [now])) by (by rewrite <-(assoc_L (++))).
  assert (Hold : forall s, s ∈ old ++ d -> instant s <= instant now - Second).
  { intros s [Hin|Hin]%elem_of_app; [|specialize (Hds s Hin); simpl in Hds; lia].
    destruct (H2 s Hin) as (r & Hr & ?).
    pose proof (monotone_last _ now r Hm' ltac:(apply elem_of_app; by left)). lia. }
  assert (Hsn : sends (tr ++ [EvNow now1; EvNow now; EvSend id t now]) =
    (old ++ d) ++ (expire (TAdd now (- Second)) (pc_sendTimes c) ++ [now])).
  { rewrite sends_app, H1. simpl. rewrite Hd at 1. by rewrite <-!(assoc_L (++)). }
  split.
  - exists (old ++ d). rewrite Hsn, Ht. split; [done|]. intros s Hin. exists now.
    split; [|specialize (Hold s Hin); lia]. rewrite reads_app. apply elem_of_app. right.
    simpl. set_solver.
  - intros u. rewrite (limits_same c) by done. rewrite Hsn.
    destruct (decide (instant u - Second < instant now <= instant u)) as [Hw|Hw].
    + rewrite (in_window_app u (old ++ d)), (in_window_app u (expire _ _)), in_window_old.
      * pose proof (in_window_le u (expire (TAdd now (- Second)) (pc_sendTimes c))).
        pose proof (in_window_le u [now]) as Hone. simpl in Hone. lia.
      * intros s Hin. specialize (Hold s Hin). lia.
    + replace ((old ++ d) ++ expire (TAdd now (- Second)) (pc_sendTimes c) ++ [now])
        with (sends tr ++ [now]).
      * rewrite in_window_app. specialize (H3 u).
        assert (in_window u [now] = 0%nat) as ->; [|lia].
        unfold in_window. by rewrite filter_cons_False.
      * rewrite H1. rewrite Hd at 1. by rewrite <-!(assoc_L (++)).
Qed.

(** ** Every event is justified by the events before it *)
Definition unpromoted (tr : list pevent) : Prop := forall id t, EvPromoted id t ∉ tr.

Definition justified (tr : list pevent) (e : pevent) : Prop :=
  match e with
  | EvOpened _ | EvRegistered _ _ | EvVerified _ _ => unpromoted tr
  | EvSend id t _ => unpromoted tr /\ EvOpened id ∈ tr /\ EvRegistered id t ∈ tr
  | EvPromoted id t =>
      unpromoted tr /\ EvOpened id ∈ tr /\ EvRegistered id t ∈ tr /\ EvVerified id t ∈ tr
  | _ => True
  end.

Definition ordered (tr : list pevent) : Prop :=
  forall tr1 e tr2, tr = tr1 ++ e :: tr2 -> justified tr1 e.

Lemma ordered_snoc tr e : ordered tr -> justified tr e -> ordered (tr ++ [e]).
Proof.
  intros Ho Hj tr1 e' tr2 E. destruct tr2 as [|e2 tr2 _] using rev_ind.
  - apply app_inj_tail in E as [-> ->]. done.
  - rewrite app_comm_cons, (assoc_L (++)) in E. apply app_inj_tail in E as [-> _]. by eapply Ho.
Qed.

Lemma ordered_plain tr ev : ordered tr -> plain ev = true -> ordered (tr ++ ev).
Proof.
  intros Ho Hp. induction ev as [|e ev IH] using rev_ind; [by rewrite app_nil_r|].
  unfold plain in Hp. rewrite forallb_app in Hp. apply andb_true_iff in Hp as [Hp1 Hp2].
  rewrite (assoc_L (++)). apply ordered_snoc; [by apply IH|]. by destruct e.
Qed.

Record earned (tr : list pevent) (c : Controller) (m : gmap nat pthread) : Prop := {
  er_sent : pc_packetsSent c = Z.of_nat (length (sends tr));
  er_rate : monotone (reads tr) -> rated tr c;
  er_heap id s : pc_heap c !! id = Some s -> EvOpened id ∈ tr /\
    (forall t, t ∈ ss_targets s -> EvRegistered id t ∈ tr) /\
    (forall t, t ∈ ss_verified s -> EvVerified id t ∈ tr);
  er_promoting tid id t closeLease : m !! tid = Some (TPromoting id t closeLease) ->
    EvOpened id ∈ tr /\ EvRegistered id t ∈ tr /\ EvVerified id t ∈ tr;
  er_promoted : pc_promoted c = true <-> ~ unpromoted tr;
  er_order : ordered tr;
}.

(** What the rest of a trace relies on, after a stretch that gains nothing. *)
Definition heap_earned (tr : list pevent) (c : Controller) : Prop :=
  forall id s, pc_heap c !! id = Some s -> EvOpened id ∈ tr /\
    (forall t, t ∈ ss_targets s -> EvRegistered id t ∈ tr) /\
    (forall t, t ∈ ss_verified s -> EvVerified id t ∈ tr).

Lemma heap_earned_inert tr ev c c' : heap_earned tr c -> inert c c' -> heap_earned (tr ++ ev) c'.
Proof.
  intros He Hi id s' Hs'. destruct (in_heap _ _ Hi id s' Hs') as (s & Hs & Ht & Hv & _).
  destruct (He id s Hs) as (H1 & H2 & H3).
  split_and!; intros; apply elem_of_app; left; try done; [apply H2|apply H3]; set_solver.
Qed.

Lemma unpromoted_app tr ev :
  unpromoted (tr ++ ev) <-> unpromoted tr /\ unpromoted ev.
Proof.
  unfold unpromoted. split.
  - intros H. split; intros id t Hin; apply (H id t), elem_of_app; by auto.
  - intros [H1 H2] id t [Hin|Hin]%elem_of_app; [by eapply H1|by eapply H2].
Qed.

Lemma plain_facts ev : plain ev = true -> sends ev = [] /\ unpromoted ev.
Proof.
  intros Hp. unfold plain in Hp. rewrite forallb_forall in Hp. split.
  - induction ev as [|e ev IH]; [done|]. specialize (Hp e (or_introl eq_refl)) as He.
    assert (IH' : sends ev = []) by (apply IH; intros x Hx; apply Hp; by right).
    unfold sends in *. simpl. by destruct e.
  - intros id t Hin. apply list_elem_of_In in Hin. by specialize (Hp _ Hin).
Qed.

Section earned.
Context (tr : list pevent) (w : view) (c : Controller).
Context (B : books c) (G : budget c).
Context (Hheap : heap_earned tr c) (Hsent : pc_packetsSent c = Z.of_nat (length (sends tr))).
Context (Hrate : monotone (reads tr) -> rated tr c).
Context (Hprom : pc_promoted c = true <-> ~ unpromoted tr) (Hord : ordered tr).

(** The part of [earned] that does not mention goroutines. *)
Definition earned_rest (tr : list pevent) (c : Controller) : Prop :=
  heap_earned tr c /\ pc_packetsSent c = Z.of_nat (length (sends tr)) /\
  (monotone (reads tr) -> rated tr c) /\ (pc_promoted c = true <-> ~ unpromoted tr) /\ ordered tr.

Lemma unstopped : pc_stopped c = false -> unpromoted tr.
Proof.
  intros Hs id t Hin. assert (pc_promoted c = true) as Hp.
  { apply Hprom. intros Hu. by apply (Hu id t). }
  apply (bg_promoted c G) in Hp. congruence.
Qed.

Lemma earned_inert ev c' : plain ev = true -> inert c c' -> earned_rest (tr ++ ev) c'.
Proof.
  intros Hp Hi. destruct (plain_facts ev Hp) as [Hs Hu].
  pose proof (in_sent _ _ Hi) as E. injection E as E1 E2 E3. split_and!.
  - by apply (heap_earned_inert tr ev c).
  - by rewrite E1, Hsent, sends_app, Hs, app_nil_r.
  - intros Hm. apply (rated_plain tr ev c); try done; [apply Hi|]. apply Hrate.
    rewrite reads_app in Hm. by eapply monotone_app_l.
  - rewrite E3, Hprom, unpromoted_app. tauto.
  - by apply ordered_plain.
Qed.

Lemma earned_expire now now' c1 :
  inert c c1 ->
  earned_rest (tr ++ [EvNow now; EvNow now'])
    (set_pc_sendTimes (expire (TAdd now' (- Second)) (pc_sendTimes c1)) c1).
Proof.
  intros Hi. destruct (earned_inert [EvNow now; EvNow now'] c1 eq_refl Hi) as (H1 & H2 & H3 & H4 & H5).
  split_and!; try done. intros Hm. pose proof (in_sent _ _ Hi) as E. injection E as _ E2 _.
  apply (rated_expire tr [EvNow now; EvNow now'] now' c); try done.
  - simpl. set_solver.
  - simpl. by rewrite E2.
  - apply Hi.
  - apply Hrate. rewrite reads_app in Hm. by eapply monotone_app_l.
Qed.

(** One event among readings and returns. *)
Lemma earned_event pre e post c' :
  plain pre = true -> plain post = true -> justified (tr ++ pre) e ->
  sends [e] = [] -> unpromoted [e] -> pc_config c' = pc_config c ->
  (pc_packetsSent c', pc_sendTimes c', pc_promoted c') =
    (pc_packetsSent c, pc_sendTimes c, pc_promoted c) ->
  heap_earned (tr ++ pre ++ e :: post) c' ->
  earned_rest (tr ++ pre ++ e :: post) c'.
Proof.
  intros P1 P2 Hj He Hu Hc E Hh. injection E as E1 E2 E3.
  destruct (plain_facts pre P1) as [S1 U1], (plain_facts post P2) as [S2 U2].
  assert (Hev : sends (pre ++ e :: post) = []).
  { change (e :: post) with ([e] ++ post). by rewrite !sends_app, S1, He, S2. }
  split_and!; [done| | | |].
  - by rewrite E1, Hsent, sends_app, Hev, app_nil_r.
  - intros Hm. apply (rated_plain tr _ c); try done. apply Hrate.
    rewrite reads_app in Hm. by eapply monotone_app_l.
  - rewrite E3, Hprom. change (e :: post) with ([e] ++ post). rewrite !unpromoted_app. tauto.
  - change (e :: post) with ([e] ++ post). rewrite !(assoc_L (++)).
    apply ordered_plain; [|done]. apply ordered_snoc; [by apply ordered_plain|done].
Qed.

Lemma earned_opened c1 now :
  inert c c1 -> pc_stopped c = false ->
  earned_rest (tr ++ [EvNow now; EvOpened (pc_nextID c1 + 1); EvReturn None]) (install_socket c1).
Proof.
  intros Hi Hs.
  apply (earned_event [EvNow now] (EvOpened (pc_nextID c1 + 1)) [EvReturn None]); try done.
  - apply unpromoted_app. split; [by apply unstopped|]. by apply plain_facts.
  - by intros ? ? ?%list_elem_of_singleton.
  - apply Hi.
  - apply Hi.
  - intros id s. simpl. rewrite lookup_insert_Some. intros [[<- <-]|[_ Hh]].
    + split_and!; [set_solver| |]; intros t Ht; by apply not_elem_of_empty in Ht.
    + by apply (heap_earned_inert tr _ c c1).
Qed.

Lemma earned_registered c1 id t now :
  inert c c1 -> pc_stopped c = false ->
  earned_rest (tr ++ [EvNow now; EvRegistered id t; EvReturn None]) (register id t c1).
Proof.
  intros Hi Hs. apply (earned_event [EvNow now] (EvRegistered id t) [EvReturn None]); try done.
  - apply unpromoted_app. split; [by apply unstopped|]. by apply plain_facts.
  - by intros ? ? ?%list_elem_of_singleton.
  - apply Hi.
  - apply Hi.
  - pose proof (heap_earned_inert tr [EvNow now; EvRegistered id t; EvReturn None] c c1 Hheap Hi) as Hh.
    intros j s'. simpl. rewrite lookup_alter_Some. intros [(<- & s & Hk & ->)|[_ Hk]]; [|by apply Hh].
    destruct (Hh id s Hk) as (K1 & K2 & K3). simpl. split_and!; try done.
    intros u [->%elem_of_singleton|Hu]%elem_of_union; [set_solver|by apply K2].
Qed.

Lemma earned_verified c' id t :
  pc_stopped c = false -> inert (upd_socket id (fun s => set_ss_verified ({[t]} ∪ ss_verified s) s) c) c' ->
  earned_rest (tr ++ [EvVerified id t; EvReturn None]) c'.
Proof.
  intros Hs Hi. apply (earned_event [] (EvVerified id t) [EvReturn None]); try done.
  - rewrite app_nil_r. by apply unstopped.
  - by intros ? ? ?%list_elem_of_singleton.
  - apply Hi.
  - apply Hi.
  - rewrite <-(app_nil_r (tr ++ _)).
    apply (heap_earned_inert _ [] (upd_socket id (fun s => set_ss_verified ({[t]} ∪ ss_verified s) s) c));
      [|done].
    assert (Hh : heap_earned (tr ++ [EvVerified id t; EvReturn None]) c)
      by (by apply (heap_earned_inert tr _ c)).
    intros j s'. simpl. rewrite lookup_alter_Some. intros [(<- & s & Hk & ->)|[_ Hk]]; [|by apply Hh].
    destruct (Hh id s Hk) as (K1 & K2 & K3). simpl. split_and!; try done.
    intros u [->%elem_of_singleton|Hu]%elem_of_union; [set_solver|by apply K3].
Qed.

Lemma earned_send c1 c' id s t now' :
  inert c c1 -> pc_stopped c = false -> pc_heap c !! id = Some s -> t ∈ ss_targets s ->
  Z.of_nat (length (expire (TAdd now' (- Second)) (pc_sendTimes c))) < PacketsPerSecond (limits_of c) ->
  inert (set_pc_sendTimes (expire (TAdd now' (- Second)) (pc_sendTimes c) ++ [now'])
           (set_pc_packetsSent (pc_packetsSent c + 1) c1)) c' ->
  earned_rest (tr ++ [EvNow (vw_now w); EvNow now'; EvSend id t now']) c'.
Proof.
  intros Hi Hs Hk Ht Hl Hi'. pose proof (in_sent _ _ Hi) as E. injection E as E1 E2 E3.
  pose proof (in_sent _ _ Hi') as F. simpl in F. injection F as F1 F2 F3.
  destruct (Hheap id s Hk) as (K1 & K2 & K3). split_and!.
  - intros j s' Hj. destruct (in_heap _ _ Hi' j s' Hj) as (s1 & Hs1 & T1 & V1 & _). simpl in Hs1.
    destruct (heap_earned_inert tr [EvNow (vw_now w); EvNow now'; EvSend id t now'] c c1 Hheap Hi j s1 Hs1)
      as (L1 & L2 & L3). split_and!; [done| |]; intros u Hu; [apply L2|apply L3]; set_solver.
  - rewrite F1, Hsent, sends_app. simpl. rewrite length_app. simpl. lia.
  - intros Hm. rewrite reads_app in Hm. simpl in Hm. apply (rated_send tr _ now' id t c); try done.
    + rewrite (in_config _ _ Hi'). simpl. apply Hi.
    + apply Hrate. by eapply monotone_app_l.
  - rewrite F3, E3, Hprom, unpromoted_app.
    assert (unpromoted [EvNow (vw_now w); EvNow now'; EvSend id t now']) by (intros ? ? ?; set_solver).
    tauto.
  - change [EvNow (vw_now w); EvNow now'; EvSend id t now'] with
      ([EvNow (vw_now w); EvNow now'] ++ [EvSend id t now']).
    rewrite (assoc_L (++)). apply ordered_snoc; [by apply ordered_plain|]. split_and!.
    + apply unpromoted_app. split; [by apply unstopped|]. by apply plain_facts.
    + apply elem_of_app. by left.
    + apply elem_of_app. left. by apply K2.
Qed.

Lemma earned_promoted c1 c' id t :
  EvOpened id ∈ tr /\ EvRegistered id t ∈ tr /\ EvVerified id t ∈ tr ->
  inert c c1 -> pc_stopped c = false ->
  inert (set_pc_stopped true (set_pc_promoted true c1)) c' ->
  earned_rest (tr ++ [now_of w; EvPromoted id t]) c'.
Proof.
  intros (Q1 & Q2 & Q3) Hi Hs Hi'. pose proof (in_sent _ _ Hi) as E. injection E as E1 E2 E3.
  pose proof (in_sent _ _ Hi') as F. simpl in F. injection F as F1 F2 F3. split_and!.
  - intros j s' Hj. destruct (in_heap _ _ Hi' j s' Hj) as (s1 & Hs1 & T1 & V1 & _). simpl in Hs1.
    destruct (heap_earned_inert tr [now_of w; EvPromoted id t] c c1 Hheap Hi j s1 Hs1)
      as (L1 & L2 & L3). split_and!; [done| |]; intros u Hu; [apply L2|apply L3]; set_solver.
  - rewrite F1, E1, Hsent, sends_app. simpl. by rewrite app_nil_r.
  - intros Hm. rewrite reads_app in Hm. apply (rated_plain tr _ c); try done.
    + by rewrite F2, E2.
    + rewrite (in_config _ _ Hi'). simpl. apply Hi.
    + apply Hrate. by eapply monotone_app_l.
  - rewrite F3. split; [|done]. intros _ Hu. apply (Hu id t). set_solver.
  - change [now_of w; EvPromoted id t] with ([now_of w] ++ [EvPromoted id t]).
    rewrite (assoc_L (++)). apply ordered_snoc; [by apply ordered_plain|].
    split_and!; [|by apply elem_of_app; left..].
    apply unpromoted_app. split; [by apply unstopped|]. by apply plain_facts.
Qed.

Lemma earned_happened ev c' :
  happened w c ev c' ->
  (forall id t, EvPromoted id t ∈ ev ->
     EvOpened id ∈ tr /\ EvRegistered id t ∈ tr /\ EvVerified id t ∈ tr) ->
  earned_rest (tr ++ ev) c'.
Proof.
  intros Hh Hp. destruct Hh.
  - by apply earned_inert.
  - subst c'. by apply earned_expire.
  - by apply earned_opened.
  - by apply earned_registered.
  - by eapply earned_send.
  - by apply earned_verified.
  - eapply earned_promoted; try done. apply Hp. set_solver.
Qed.
End earned.

(** * Probe I/O: phases

    How a controller stops: [stopLocal] runs once, the watcher completes the
    drain after it or after a handoff, and nothing begins once the controller is
    stopped. *)

(** ** Goroutines and their next stretch *)

Ltac open_invoke E :=
  unfold OpenProbeSocket, RegisterTarget, LocalAddr, Reservation, read_socket, SendProbe, ReceiveReply,
    promote, ProbeSocket_Close, Poison, handleViolation, return_ in E;
  simplify_eq/=; repeat (case_match; simplify_eq/=).

Lemma invoke_promoting op w c id t closeLease :
  (invoke op w c).1.2 = Some (TPromoting id t closeLease) ->
  exists s, pc_heap c !! id = Some s /\ t ∈ ss_targets s /\ t ∈ ss_verified s.
Proof.
  intros E. destruct op; simpl in E; open_invoke E; eexists; (split_and!; [done| |]);
    by match goal with H : negb (bool_decide (?P)) = false |- ?P =>
         apply negb_false_iff, bool_decide_eq_true in H end.
Qed.

Lemma plain_unpromoted ev id t : plain ev = true -> EvPromoted id t ∉ ev.
Proof. intros Hp. by apply plain_facts. Qed.

Lemma invoke_unpromoted op w c : unpromoted (invoke op w c).2.
Proof.
  intros id t E. destruct op; simpl in E; open_invoke E; set_solver.
Qed.

(** The stretches of goroutines, case by case. *)
Ltac open_resume E :=
  unfold open_returned, open_failed, write_returned, send_finish, send_failed, read_returned,
    verify_returned, recv_return, promote_commit, closeSocketState, close_next, wait_next, continue,
    trip, after_trip, watchLifecycle, stopLocal, stop_section, stop_returned, handleViolation, return_ in E;
  simplify_eq/=; repeat (case_match; simplify_eq/=); try done.

Lemma resume_promoting t ans w c o id target closeLease :
  resume t ans w c = Some o -> o.1.2 <> Some (TPromoting id target closeLease).
Proof.
  intros E Hn. destruct t, ans; try discriminate E; simpl in E; open_resume E.
Qed.

Lemma resume_promoted t ans w c o id target :
  resume t ans w c = Some o -> EvPromoted id target ∈ o.2 ->
  exists closeLease, t = TPromoting id target closeLease.
Proof.
  intros E Hn. destruct t, ans; try discriminate E; simpl in E; open_resume E.
  all: try (exfalso; set_solver).
  all: assert (id = id0 /\ target = target0) as [-> ->] by set_solver; by eexists.
Qed.

Lemma resume_names t ans w c o t' id :
  resume t ans w c = Some o -> o.1.2 = Some t' -> names t' = Some id -> names t = Some id.
Proof.
  intros E Hn Hk. destruct t, ans; try discriminate E; simpl in E; open_resume E.
Qed.

(** ** Stopping *)

Lemma guard_stopped w c c' : pc_stopped c = true -> guard w c <> (c', None).
Proof. intros Hs E. destruct (guard_spec w c c' None E) as (_ & H & _). destruct (H eq_refl) as (_ & ? & _). congruence. Qed.

(** Once stopped, no operation and no open begins. *)
Lemma invoke_stopped op w c : pc_stopped c = true -> idle (invoke op w c).1.2.
Proof.
  intros Hs. destruct (invoke op w c).1.2 as [t|] eqn:E; [|done].
  destruct op; simpl in E; open_invoke E; try done.
  all: match goal with H : guard _ _ = (_, None) |- _ => by destruct (guard_stopped _ _ _ Hs H) end.
Qed.

Lemma finishPending_stopped c : pc_stopped (finishPendingLocked c) = pc_stopped c.
Proof. unfold finishPendingLocked. by repeat case_match. Qed.

Lemma resume_stopped t ans w c o :
  pc_stopped c = true -> resume t ans w c = Some o ->
  n_open o.1.2 = 0 /\ n_ops o.1.2 <= n_ops (Some t).
Proof.
  intros Hs E. destruct t, ans; try discriminate E; simpl in E; open_resume E;
    try (by unfold n_ops; simpl; split; [done|lia]).
  all: exfalso; unfold still_open in *; rewrite ?Hs in *;
    match goal with H : context [bool_decide _ && _ && _] |- _ => by rewrite andb_false_r in H end.
Qed.

(** The flags of a controller that only rise. *)
Record rises (c c' : Controller) : Prop := {
  rs_stopped : pc_stopped c = true -> pc_stopped c' = true;
  rs_promoted : pc_promoted c = true -> pc_promoted c' = true;
  rs_handoff : pc_handoffDone c = true -> pc_handoffDone c' = true;
  rs_once : pc_drainOnce c = OnceDone -> pc_drainOnce c' = OnceDone;
}.

#[export] Instance rises_preorder : PreOrder rises.
Proof. split; [by intros c|]. intros c1 c2 c3 [] []. split; auto. Qed.

Definition flags (c : Controller) : bool * bool * bool * once * bool :=
  (pc_stopped c, pc_promoted c, pc_handoffDone c, pc_drainOnce c, pc_watchDone c).

Lemma flags_guard w c c' v : guard w c = (c', v) -> flags c' = flags c.
Proof. intros E. by destruct (guard_spec w c c' v E) as [[-> | ->] _]. Qed.
Lemma flags_retire st id c : flags (retire st id c) = flags c.
Proof. destruct (retire_rest st id c) as [_ R2 _]. unfold flags. congruence. Qed.
Lemma flags_pending c : flags (addPendingLocked c) = flags c /\ flags (finishPendingLocked c) = flags c.
Proof. unfold addPendingLocked, finishPendingLocked. split; by repeat case_match. Qed.
Lemma flags_reserve now c c' v : reserveSendLocked now c = (c', v) -> flags c' = flags c.
Proof. intros E%reserve_spec. destruct v; [by destruct E as [-> | ->]|by destruct E as (_ & _ & ->)]. Qed.

(** Rewrites the flags of a state back to those of the state before. *)
Ltac same_flags :=
  repeat match goal with
  | H : guard ?w ?c = (?c', _) |- _ => apply flags_guard in H
  | H : reserveSendLocked _ _ = _ |- _ => apply flags_reserve in H
  end;
  rewrite ?flags_retire, ?(proj1 (flags_pending _)), ?(proj2 (flags_pending _)) in *;
  try (unfold flags in *; simpl in *; congruence).

Lemma invoke_flags op w c : flags (invoke op w c).1.1 = flags c.
Proof.
  remember (invoke op w c) as o eqn:E. symmetry in E. destruct op; simpl in E; open_invoke E; same_flags.
Qed.

(** What a goroutine may do to the flags. *)
Definition flags_step (t : pthread) (next : option pthread) (c c' : Controller) : Prop :=
  match t with
  | TPromoting _ _ _ =>
      (flags c' = flags c /\ exists id k, next = Some (TAbort id k)) \/
      flags c' = (true, true, pc_handoffDone c, pc_drainOnce c, pc_watchDone c)
  | THandoff _ _ | TRevokeHandoff =>
      flags c' = (pc_stopped c, pc_promoted c, true, pc_drainOnce c, pc_watchDone c)
  | TWatchDone => flags c' = (pc_stopped c, pc_promoted c, pc_handoffDone c, pc_drainOnce c, true)
  | TStopLocal _ =>
      flags c' = flags c \/
      pc_drainOnce c = OnceIdle /\
      flags c' = (true, pc_promoted c, pc_handoffDone c, OnceRunning, pc_watchDone c)
  | TStopOps _ => flags c' = (pc_stopped c, pc_promoted c, pc_handoffDone c, OnceDone, pc_watchDone c)
  | _ => flags c' = flags c
  end.

Lemma flags_detach c c' states :
  books c -> detachOpenSocketsLocked c = (c', states) -> flags c' = flags c.
Proof.
  intros B E. destruct (detach_spec c c' states B E) as [_ [_ R2 _] _ _ _ _ _]. unfold flags. congruence.
Qed.

Lemma resume_flags t ans w c o :
  books c -> resume t ans w c = Some o -> flags_step t o.1.2 c o.1.1.
Proof.
  intros B E. destruct t, ans; try discriminate E; simpl in E; simpl flags_step.
  all: match goal with
       | |- _ \/ _ => idtac
       | _ => open_resume E; same_flags
       end.
  - destruct (ops_done _ _); [|done]. injection E as <-. unfold promote_commit.
    destruct deadlineErr; [left; by eauto|]. destruct (guard w c) as [c1 v] eqn:Eg.
    pose proof (flags_guard _ _ _ _ Eg) as Hf. pose proof (guard_spec _ _ _ _ Eg) as [Hc _].
    destruct v; [left; by eauto|]. case_bool_decide as Hs; simpl negb; cbn iota; [|left; by eauto].
    set (c2 := set_pc_cancelled true _).
    assert (B2 : books (retire socketPromoted id c2)).
    { assert (books c2) by (apply (books_same c); [by destruct Hc as [-> | ->]|done]).
      unfold state_of in Hs. destruct (pc_heap c1 !! id) as [s|] eqn:Hh; [|done].
      apply (retire_books socketPromoted id c2 s); by auto. }
    destruct (detachOpenSocketsLocked _) as [c3 siblings] eqn:Ed.
    pose proof (flags_detach _ _ _ B2 Ed) as Hd. rewrite flags_retire in Hd. simpl. right.
    rewrite Hd. unfold flags in *. simpl. congruence.
  - unfold stopLocal in E. destruct (pc_drainOnce c) eqn:Eo; [|done|].
    + injection E as <-. unfold stop_section. set (c1 := set_pc_cancelled true _).
      assert (B1 : books c1) by (by apply (books_same c)).
      destruct (detachOpenSocketsLocked c1) as [c2 states] eqn:Ed.
      pose proof (flags_detach _ _ _ B1 Ed) as Hd. simpl. right. rewrite Hd. done.
    + injection E as <-. by left.
Qed.

Lemma flags_step_rises t next c c' : flags_step t next c c' -> rises c c'.
Proof.
  intros H. unfold flags_step, flags in H. destruct t; open_hyps; repeat destruct H as [H|H]; open_hyps;
    simplify_eq; split; congruence.
Qed.

(** ** Phases *)
Definition thread_phase (c : Controller) (t : pthread) : Prop :=
  match t with
  | TWatchDone | TWatchComplete => pc_drainOnce c = OnceDone \/ pc_handoffDone c = true
  | TRevokeHandoff | TRevokeWait | TRevokeComplete => pc_drainOnce c = OnceDone
  | TAbort _ (KHandoff _ _) | TClosing _ _ (KHandoff _ _) | TWaiting _ (KHandoff _ _)
  | THandoff _ _ => pc_promoted c = true
  | TStopOps _ => pc_pending c = 0
  | _ => True
  end.

Record phased (c : Controller) (m : gmap nat pthread) : Prop := {
  ph_once : count n_stop m = bool_Z (match pc_drainOnce c with OnceRunning => true | _ => false end);
  ph_quiet : pc_drainOnce c = OnceDone -> pc_pending c = 0 /\ pc_ops c = 0;
  ph_thread tid t : m !! tid = Some t -> thread_phase c t;
  ph_handoff : pc_handoffDone c = true -> pc_drainOnce c = OnceDone \/ pc_promoted c = true;
}.

Lemma n_stop_nonneg t : 0 <= n_stop t.
Proof. unfold n_stop. repeat case_match; lia. Qed.

Lemma thread_phase_rises c c' t :
  rises c c' -> (pc_stopped c = true -> pc_pending c = 0 -> pc_pending c' = 0) ->
  (forall who, t = TStopOps who -> pc_stopped c = true) ->
  thread_phase c t -> thread_phase c' t.
Proof.
  intros [R1 R2 R3 R4] Hp Hs. unfold thread_phase. destruct t; try done; try (by auto).
  - by destruct k; auto.
  - by destruct k; auto.
  - by destruct k; auto.
  - intros [?|?]; auto.
  - intros [?|?]; auto.
  - intros H. apply Hp; [by eapply Hs|done].
Qed.

Lemma stopping_thread c m tid t :
  budget c -> phased c m -> m !! tid = Some t -> n_stop (Some t) = 1 ->
  pc_drainOnce c = OnceRunning /\ pc_stopped c = true.
Proof.
  intros G P Ht Hn. pose proof (count_ge n_stop m tid t Ht n_stop_nonneg) as Hc.
  rewrite (ph_once c m P), Hn in Hc. destruct (pc_drainOnce c) eqn:E; simpl in Hc; try lia.
  split; [done|]. apply (bg_once c G). congruence.
Qed.

(** What a stretch must establish for the invariant to go on. *)
Record phase_step (t next : option pthread) (c c' : Controller) : Prop := {
  ps_rises : rises c c';
  ps_once : n_stop next - n_stop t =
    bool_Z (match pc_drainOnce c' with OnceRunning => true | _ => false end) -
    bool_Z (match pc_drainOnce c with OnceRunning => true | _ => false end);
  ps_quiet : pc_stopped c = true -> n_open next = 0 /\ n_ops next <= n_ops t;
  ps_done : pc_drainOnce c' = OnceDone -> pc_drainOnce c <> OnceDone -> pc_pending c' = 0 /\ pc_ops c' = 0;
  ps_next t' : next = Some t' -> thread_phase c' t';
  ps_handoff : pc_handoffDone c' = true -> pc_handoffDone c = false ->
    pc_drainOnce c' = OnceDone \/ pc_promoted c' = true;
}.

Lemma phased_step c c' m tid t next :
  counted c m -> phased c m -> m !! tid = t -> moves t c c' next -> phase_step t next c c' ->
  counted c' (put_thread tid next m) -> phased c' (put_thread tid next m).
Proof.
  intros C P Ht M S C'. pose proof (ct_budget c m C) as G.
  assert (Hstop : pc_stopped c = true -> pc_pending c = 0 -> pc_pending c' = 0).
  { intros Hs Hz. destruct (ps_quiet _ _ _ _ S Hs) as [Q1 _].
    pose proof (bg_pending c' (ct_budget _ _ C')). pose proof (mv_pending _ _ _ _ M).
    pose proof (n_open_nonneg t). lia. }
  assert (Hops : pc_stopped c = true -> pc_ops c = 0 -> pc_ops c' = 0).
  { intros Hs Hz. destruct (ps_quiet _ _ _ _ S Hs) as [_ Q2].
    pose proof (mv_ops _ _ _ _ M). rewrite (ct_ops _ _ C') in *.
    assert (0 <= count n_ops (put_thread tid next m)); [|lia].
    apply map_sum_nonneg. intros. apply n_ops_nonneg. }
  split.
  - rewrite (count_put n_stop m tid t next) by done. rewrite (ph_once c m P).
    pose proof (ps_once _ _ _ _ S). lia.
  - intros Hd. destruct (decide (pc_drainOnce c = OnceDone)) as [E|E].
    + destruct (ph_quiet c m P E) as [? ?].
      assert (pc_stopped c = true) by (apply (bg_once c G); congruence). by auto.
    + by apply (ps_done _ _ _ _ S).
  - intros tid' t' Hp. destruct (put_thread_Some _ _ _ _ _ Hp) as [[_ E]|[_ E]].
    + by apply (ps_next _ _ _ _ S).
    + apply (thread_phase_rises c); [apply S|done| |by eapply (ph_thread c m P)].
      intros who ->. by eapply (stopping_thread c m tid' _ G P E).
  - intros Hh. destruct (pc_handoffDone c) eqn:E.
    + destruct (ph_handoff c m P E) as [H|H]; [left|right]; by apply (ps_rises _ _ _ _ S).
    + by apply (ps_handoff _ _ _ _ S).
Qed.

(** Flags that stay as they are. *)
Lemma phase_same t next c c' :
  flags c' = flags c -> n_stop next = n_stop t ->
  (pc_stopped c = true -> n_open next = 0 /\ n_ops next <= n_ops t) ->
  (forall t', next = Some t' -> thread_phase c' t') -> phase_step t next c c'.
Proof.
  intros Hf Hn Hq Ht. unfold flags in Hf. injection Hf as F1 F2 F3 F4 F5.
  split; try done; try congruence.
  - split; congruence.
  - rewrite Hn, F4. lia.
Qed.

Lemma phase_invoke op w c :
  phase_step None (invoke op w c).1.2 c (invoke op w c).1.1.
Proof.
  apply phase_same; [apply invoke_flags| | |].
  - destruct (invoke op w c).1.2 as [t|] eqn:E; [|done].
    destruct op; simpl in E; open_invoke E; try done.
  - intros Hs. destruct (idle_counts _ (invoke_stopped op w c Hs)) as (-> & -> & _).
    split; [done|]. by unfold n_ops.
  - intros t' E. destruct op; simpl in E; open_invoke E; done.
Qed.

Lemma resume_next_phase t ans w c o :
  books c -> budget c -> thread_phase c t -> resume t ans w c = Some o ->
  forall t', o.1.2 = Some t' -> thread_phase o.1.1 t'.
Proof.
  intros B G Hph E t' En. pose proof (resume_flags t ans w c o B E) as Hf.
  pose proof (bg_pendingDone c G) as Hpd.
  destruct t, ans; try discriminate E; simpl in E; open_resume E; simpl in *; try done;
    unfold flags in *; try congruence.
  all: try (destruct Hph; [left|right]; congruence).
  all: try (by left; congruence).
  all: try (by right).
  all: try (destruct k; simpl in *; by congruence).
  all: try (destruct Hf as [[_ (? & ? & ?)]|Hf]; simplify_eq/=; congruence).
  all: try (apply Z.eqb_eq; congruence).
Qed.

Lemma resume_once t ans w c o :
  books c -> (n_stop (Some t) = 1 -> pc_drainOnce c = OnceRunning) -> resume t ans w c = Some o ->
  n_stop o.1.2 - n_stop (Some t) =
    bool_Z (match pc_drainOnce o.1.1 with OnceRunning => true | _ => false end) -
    bool_Z (match pc_drainOnce c with OnceRunning => true | _ => false end).
Proof.
  intros B Hr E. pose proof (resume_flags t ans w c o B E) as Hf.
  assert (Hsame : n_stop o.1.2 = n_stop (Some t) -> pc_drainOnce o.1.1 = pc_drainOnce c ->
    n_stop o.1.2 - n_stop (Some t) =
    bool_Z (match pc_drainOnce o.1.1 with OnceRunning => true | _ => false end) -
    bool_Z (match pc_drainOnce c with OnceRunning => true | _ => false end)).
  { intros -> ->. lia. }
  destruct t; simpl in Hf; unfold flags in Hf.
  all: try (apply Hsame; [clear Hf Hsame|congruence];
            destruct ans; try discriminate E; simpl in E; open_resume E; done).
  all: try (apply Hsame; [clear Hf Hsame|congruence];
            destruct ans; try discriminate E; simpl in E; open_resume E;
            unfold continue, n_stop; by repeat case_match).
  - apply Hsame; [|by destruct Hf as [[? _]|?]; congruence].
    destruct ans; try discriminate E; simpl in E; open_resume E.
  - destruct ans; try discriminate E. simpl in E. unfold stopLocal in E.
    destruct (pc_drainOnce c) eqn:Eo; [|done|].
    + injection E as <-. destruct Hf as [Hf|[_ Hf]].
      * exfalso. unfold stop_section in Hf. set (c1 := set_pc_cancelled true _) in Hf.
        assert (B1 : books c1) by (by apply (books_same c)).
        destruct (detachOpenSocketsLocked c1) as [c2 states] eqn:Ed.
        pose proof (flags_detach _ _ _ B1 Ed) as Hd. unfold flags in Hd. simpl in *. congruence.
      * unfold stop_section in *. destruct (detachOpenSocketsLocked _) as [c2 states]. simpl in *.
        injection Hf as _ _ _ -> _. done.
    + injection E as <-. simpl in *. rewrite Eo. by destruct who.
  - destruct ans; try discriminate E. simpl in E. destruct (pc_ops c =? 0); [|done].
    injection E as <-. simpl in *. rewrite (Hr eq_refl). by destruct who.
Qed.

Lemma phase_resume t ans w c o :
  books c -> budget c -> thread_phase c t -> (n_stop (Some t) = 1 -> pc_drainOnce c = OnceRunning) ->
  resume t ans w c = Some o -> phase_step (Some t) o.1.2 c o.1.1.
Proof.
  intros B G Hph Hr E. pose proof (resume_flags t ans w c o B E) as Hf. split.
  - by eapply flags_step_rises.
  - by eapply resume_once.
  - intros Hs. by eapply resume_stopped.
  - intros Hd Hnd. unfold flags_step, flags in Hf. destruct t;
      try (repeat destruct Hf as [Hf|Hf]; open_hyps; simplify_eq; congruence).
    destruct ans; try discriminate E. simpl in E. destruct (pc_ops c =? 0) eqn:Eo; [|done].
    injection E as <-. simpl in *. split; [done|]. by apply Z.eqb_eq.
  - by eapply resume_next_phase.
  - intros Hh Hnh. unfold flags_step, flags in Hf. destruct t;
      try (repeat destruct Hf as [Hf|Hf]; open_hyps; simplify_eq; congruence).
    + injection Hf as _ F2 _ _ _. right. simpl in Hph. congruence.
    + injection Hf as _ _ _ F4 _. left. simpl in Hph. congruence.
Qed.

(** ** The reasons of trips *)
Definition violation_ok (v : safetyViolation) : Prop :=
  forall r, v_reason v = Some r -> SafetyTripReason_valid r = true.
Definition kont_ok (k : kont) : Prop := match k with KViolation v => violation_ok v | _ => True end.
Definition reasons_ok (t : pthread) : Prop :=
  match t with
  | TTrip v _ | TOpenClose (Some v) _ => violation_ok v
  | TAbort _ k | TClosing _ _ k | TWaiting _ k => kont_ok k
  | TTripCall r d _ _ => SafetyTripReason_valid r = true /\ exists d0, d = boundedDetail d0
  | _ => True
  end.

Lemma guard_reason w c c' v : guard w c = (c', Some v) -> violation_ok v.
Proof.
  unfold guard, guardViolationLocked, violation_ok. intros E r Hr.
  repeat (case_match; simplify_eq/=); done.
Qed.

Lemma reserve_reason now c c' v : reserveSendLocked now c = (c', Some v) -> violation_ok v.
Proof.
  unfold reserveSendLocked, violation_ok. intros E r Hr. repeat (case_match; simplify_eq/=); done.
Qed.

Lemma limit_reason detail : violation_ok (violation_limit detail).
Proof. intros r [= <-]. done. Qed.

Lemma invoke_reasons op w c t : (invoke op w c).1.2 = Some t -> reasons_ok t.
Proof.
  intros E. destruct op; simpl in E; open_invoke E; try done; try apply limit_reason;
    try (by eapply guard_reason); try (by eapply reserve_reason).
  intros r [= <-]. by destruct reason.
Qed.

Lemma resume_reasons t ans w c o t' :
  reasons_ok t -> resume t ans w c = Some o -> o.1.2 = Some t' -> reasons_ok t'.
Proof.
  intros Hr E En. destruct t, ans; try discriminate E; simpl in E; open_resume E; simpl in *;
    try done; try apply limit_reason; try (by eapply guard_reason).
  all: try (intros r [= <-]; done).
  - split; [by apply Hr|by eexists].
Qed.

(** Who sets [tripping]. *)
Lemma invoke_tripping op w c : pc_tripping (invoke op w c).1.1 = pc_tripping c.
Proof.
  remember (invoke op w c) as o eqn:E. symmetry in E.
  assert (Hg : forall w c c' v, guard w c = (c', v) -> pc_tripping c' = pc_tripping c).
  { intros ? c1 c2 ? Eg. by destruct (guard_spec _ _ _ _ Eg) as [[-> | ->] _]. }
  assert (Hv : forall now c c' v, reserveSendLocked now c = (c', v) -> pc_tripping c' = pc_tripping c).
  { intros ? ? ? v Er%reserve_spec. destruct v; [by destruct Er as [-> | ->]|by destruct Er as (_ & _ & ->)]. }
  assert (Hp : forall c, pc_tripping (addPendingLocked c) = pc_tripping c).
  { intros. unfold addPendingLocked. by case_match. }
  assert (Hr : forall st id c, pc_tripping (retire st id c) = pc_tripping c).
  { intros. destruct (retire_rest st id c0) as [_ R2 _]. congruence. }
  destruct op; simpl in E; open_invoke E; rewrite ?Hp, ?Hr; try done;
    repeat match goal with
    | H : guard _ _ = _ |- _ => apply Hg in H
    | H : reserveSendLocked _ _ = _ |- _ => apply Hv in H
    end; simpl in *; congruence.
Qed.

Lemma retire_tripping st id c : pc_tripping (retire st id c) = pc_tripping c.
Proof. destruct (retire_rest st id c) as [_ R2 _]. congruence. Qed.

Lemma detach_tripping c c' l : detachOpenSocketsLocked c = (c', l) -> pc_tripping c' = pc_tripping c.
Proof.
  unfold detachOpenSocketsLocked. generalize (@nil Z), (elements (pc_sockets c)).
  intros acc ids. revert c acc. induction ids as [|id ids IH]; intros c acc E; [by injection E as <- _|].
  cbn [fold_left] in E. unfold detach_one at 2 in E. destruct (bool_decide _).
  - by eapply IH.
  - apply IH in E. by rewrite retire_tripping in E.
Qed.

Lemma resume_tripping t ans w c o :
  resume t ans w c = Some o -> pc_tripping o.1.1 = true ->
  pc_tripping c = true \/ exists r d cause watcher, o.1.2 = Some (TTripCall r d cause watcher).
Proof.
  intros E Ht. destruct t.
  15: { destruct ans; try discriminate E. simpl in E. open_resume E; by eauto 6. }
  all: left; destruct ans; try discriminate E; simpl in E.
  all: assert (Hg : forall w c c' v, guard w c = (c', v) -> pc_tripping c' = pc_tripping c)
         by (intros ? c1 c2 ? Eg; by destruct (guard_spec _ _ _ _ Eg) as [[-> | ->] _]).
  all: assert (Hf : forall c, pc_tripping (finishPendingLocked c) = pc_tripping c)
         by (intros; unfold finishPendingLocked; by repeat case_match).
  all: open_resume E; rewrite ?retire_tripping in *; try done;
    repeat match goal with
    | H : guard _ _ = _ |- _ => apply Hg in H
    | H : detachOpenSocketsLocked _ = _ |- _ => apply detach_tripping in H; rewrite ?retire_tripping in H
    end;
    rewrite ?Hf in *; simpl in *; try congruence.
Qed.

(** Trips and drains are no events of the controller alone. *)
Definition of_governor (e : pevent) : bool :=
  match e with EvTrip _ _ | EvDrained | EvRevoked => true | _ => false end.

Lemma invoke_events op w c e : e ∈ (invoke op w c).2 -> of_governor e = false.
Proof.
  intros E. destruct op; simpl in E; open_invoke E; rewrite ?elem_of_cons, ?elem_of_nil in E;
    naive_solver.
Qed.

Lemma resume_events t ans w c o e : resume t ans w c = Some o -> e ∈ o.2 -> of_governor e = false.
Proof.
  intros E He. destruct t, ans; try discriminate E; simpl in E; open_resume E;
    rewrite ?elem_of_cons, ?elem_of_nil in He; naive_solver.
Qed.
