(* ===== verification/ProbeThms.v ===== *)
(** * Probe I/O: what every run guarantees *)
From S2P Require Import Prelude GoStd Limits SafetyTrip Governor GovernorSteps GovernorInv GovernorMicro GovernorLocal GovernorThms ProbeIO ProbeInv ProbeTrace.

(** ** The governor's side *)

(** The identifiers of peers and attempts are valid. *)
Definition identified (g : Governor) : Prop :=
  (forall p pl, g_pheap g !! p = Some pl -> validateIdentifier "peer id" (pl_peerID pl) = None) /\
  (forall a l, g_aheap g !! a = Some l ->
     validateIdentifier "attempt id" (req_ID (al_request l)) = None).

Lemma identified_heaps g g' :
  (forall p pl', g_pheap g' !! p = Some pl' ->
     exists pl, g_pheap g !! p = Some pl /\ pl_peerID pl' = pl_peerID pl) ->
  (forall a l', g_aheap g' !! a = Some l' ->
     exists l, g_aheap g !! a = Some l /\ al_request l' = al_request l) ->
  identified g -> identified g'.
Proof.
  intros Hp Ha [I1 I2]. split.
  - intros p pl' H. destruct (Hp p pl' H) as (pl & Hpl & ->). by eapply I1.
  - intros a l' H. destruct (Ha a l' H) as (l & Hl & ->). by eapply I2.
Qed.

Lemma identified_micro g g' : micro g g' -> identified g -> identified g'.
Proof.
  assert (Hsame : forall g1 g2, g_pheap g2 = g_pheap g1 -> g_aheap g2 = g_aheap g1 ->
    identified g1 -> identified g2).
  { intros g1 g2 E1 E2. apply identified_heaps; rewrite ?E1, ?E2; by eauto. }
  assert (Hput : forall g1 g2 a l l', g_pheap g2 = g_pheap g1 ->
    g_aheap g2 = <[a := l']> (g_aheap g1) -> g_aheap g1 !! a = Some l ->
    al_request l' = al_request l -> identified g1 -> identified g2).
  { intros g1 g2 a l l' E1 E2 Hl Hr. apply identified_heaps; rewrite ?E1, ?E2; [by eauto|].
    intros b k. rewrite lookup_insert_Some. intros [[<- <-]|[_ ?]]; by eauto. }
  assert (Halt : forall g1 g2 a (f : AttemptLease -> AttemptLease), g_pheap g2 = g_pheap g1 ->
    g_aheap g2 = alter f a (g_aheap g1) -> (forall l, al_request (f l) = al_request l) ->
    identified g1 -> identified g2).
  { intros g1 g2 a f E1 E2 Hr. apply identified_heaps; rewrite ?E1, ?E2; [by eauto|].
    intros b k. rewrite lookup_alter_Some. intros [(<- & k0 & ? & ->)|[_ ?]]; by eauto. }
  intros Hm I. destruct Hm; try (by apply (Hsame g)).
  - eapply (Hput g); try done. by destruct (lstep_grows _ _ _ H0).
  - eapply (Hput g); try done. by destruct (start_stopping_grows l).
  - apply (identified_heaps g); [| |done]; unfold remove_attempt; set (b := cost_Heavyweight _).
    + intros p pl'. destruct b; simpl; rewrite lookup_alter_Some; intros [(<- & pl & ? & ->)|[_ ?]]; by eauto.
    + intros c k. destruct b; simpl; rewrite lookup_alter_Some;
        intros [(<- & k0 & ? & ->)|[_ ?]]; by eauto.
  - apply validateAttemptLocked_None in H3 as [Hid _]. destruct I as [I1 I2].
    split; unfold install_attempt; set (b := cost_Heavyweight _).
    + intros q pl'. destruct b; simpl; rewrite lookup_alter_Some;
        intros [(<- & k0 & Hk & ->)|[_ Hk]]; apply (I1 _ _ Hk).
    + intros c k. destruct b; simpl; rewrite lookup_insert_Some;
        intros [[<- <-]|[_ ?]]; done || by eapply I2.
  - destruct I as [I1 I2]. split; simpl; [|done]. intros q pl. rewrite lookup_insert_Some.
    intros [[<- <-]|[_ ?]]; [done|by eapply I1].
  - apply (identified_heaps g); [| |done]; simpl; [|by eauto].
    intros q pl'. rewrite lookup_alter_Some. intros [(<- & pl & ? & ->)|[_ ?]]; by eauto.
  - by eapply (Halt g).
  - by eapply (Halt g).
  - by eapply (Halt g).
  - by eapply (Halt g).
Qed.

(** Stopping and tripping complete no drain. *)
Definition drains_of (g : Governor) (a : ptr) : option (gmap Z attemptDrain) :=
  al_drains <$> g_aheap g !! a.

Lemma start_stopping_drains l : al_drains (start_stopping l) = al_drains l.
Proof.
  unfold start_stopping, maybeCloseLoopbackNetworkLocked, closeAttemptDrainedLocked, upd_terminal.
  by repeat (case_match; simpl).
Qed.

Lemma begin_drains g b a : drains_of (beginAttemptStoppingLocked g b) a = drains_of g a.
Proof.
  unfold drains_of, beginAttemptStoppingLocked. destruct (g_aheap g !! b) as [l|] eqn:Hl; [|done].
  destruct (_ || _); [done|].
  assert (E : forall g', g_aheap g' = alter start_stopping b (g_aheap g) ->
    al_drains <$> g_aheap g' !! a = al_drains <$> g_aheap g !! a).
  { intros g' ->. destruct (decide (b = a)) as [->|]; [|by rewrite lookup_alter_ne].
    rewrite lookup_alter_eq, Hl. simpl. by rewrite start_stopping_drains. }
  by destruct (al_terminal l); apply E.
Qed.

Lemma begin_all_drains l g a : drains_of (begin_all g l) a = drains_of g a.
Proof.
  revert g. induction l as [|b l IH]; intros g; [done|]. simpl. by rewrite IH, begin_drains.
Qed.

Lemma trip_drain_drains g a : drains_of (beginSafetyTripDrainLocked g) a = drains_of g a.
Proof.
  unfold beginSafetyTripDrainLocked. rewrite <-(begin_all_drains (activeAttemptsLocked g) g a).
  by destruct (_ || _).
Qed.

Lemma tripLocked_drains reply g a : drains_of (tripLocked reply g).1 a = drains_of g a.
Proof.
  unfold tripLocked. destruct (g_closed g); [done|].
  destruct (ts_BlocksActiveWork (g_trip g)); [apply trip_drain_drains|].
  destruct reply as [[status err] called].
  set (g1 := if called then beginSafetyTripDrainLocked g else g).
  assert (H1 : drains_of g1 a = drains_of g a) by (destruct called; [apply trip_drain_drains|done]).
  destruct (negb _); simpl; rewrite trip_drain_drains; exact H1.
Qed.

Lemma AttemptLease_Trip_drains a event reply g b :
  drains_of (AttemptLease_Trip a event reply g).1 b = drains_of g b.
Proof.
  unfold AttemptLease_Trip. destruct (g_aheap g !! a); [|done].
  destruct (validateSafetyTripEvent _); [done|]. destruct (_ || _); [done|]. apply tripLocked_drains.
Qed.

Lemma AttemptLease_Close_drains a g b : drains_of (AttemptLease_Close a g) b = drains_of g b.
Proof.
  unfold AttemptLease_Close. destruct (g_aheap g !! a) as [l|]; [|done].
  destruct (al_terminal l); [apply begin_drains|]. destruct (_ || _); [done|].
  rewrite <-(begin_drains g a b). done.
Qed.

Lemma drains_kept g g' a drain :
  drains_of g' a = drains_of g a -> drain_kept a drain g g'.
Proof.
  unfold drains_of. intros E l Hl Hd. rewrite Hl in E. simpl in E.
  destruct (g_aheap g' !! a) as [l'|]; [|done]. simpl in E. injection E as E.
  exists l'. by rewrite E.
Qed.

Section run.
Context {St : TripStore} {F : Sprintf}.

Lemma reachable_identified g : reachable g -> identified g.
Proof.
  intros (g0 & Hi & Hst). destruct (steps_inv g0 g (initial_inv g0 Hi) Hst) as [Hm _].
  assert (identified g0) as I0.
  { destruct Hi as (owner & trip & profile & requested & o & Hnew).
    destruct (newGovernor_Ok _ _ _ _ _ _ Hnew) as
      (o0 & hard & _ & _ & _ & _ & _ & _ & _ & _ & Hg & _). rewrite Hg. by split. }
  clear -Hm I0. induction Hm as [|g1 g2 g3 Hm _ IH]; [done|]. by eapply IH, identified_micro.
Qed.

(** A lease keeps its request and its peer. *)
Lemma steps_lease g g' a l :
  reachable g -> rtc gstep g g' -> g_aheap g !! a = Some l ->
  exists l', g_aheap g' !! a = Some l' /\ lease_grows l l'.
Proof.
  intros Hr Hst Hl. destruct (steps_inv g g' (reachable_inv g Hr) Hst) as [Hm _].
  apply (micros_grow g g' a l Hm); [|done]. apply (reachable_inv g Hr).
Qed.

Lemma build_text build : normalizeBuildVersion build = Ok build ->
  validateSafetyDiagnosticText "build version" build maxSafetyTripBuildLen true = None.
Proof.
  unfold normalizeBuildVersion, validateText, validateSafetyDiagnosticText, guard_err.
  intros E. case_bool_decide; [done|]. destruct (negb (valid_utf8 build)); [done|]. simpl in E.
  destruct (negb (trimmed build)); [done|]. unfold maxSafetyTripBuildLen.
  destruct (128 <? slen build); [done|]. by destruct (has_control build).
Qed.

(** Every event a controller trips with is valid. *)
Lemma trip_event_valid g l reason detail c :
  identified g -> g_aheap g !! cfg_lease (pc_config c) = Some l ->
  SafetyTripReason_valid reason = true -> normalizeBuildVersion (cfg_buildVersion (pc_config c)) =
    Ok (cfg_buildVersion (pc_config c)) ->
  validateSafetyTripEvent (lease_event g l (trip_event reason (boundedDetail detail) c)) = None.
Proof.
  intros [I1 I2] Hl Hr Hb. unfold validateSafetyTripEvent. simpl. rewrite Hr. simpl.
  rewrite boundedDetail_text, build_text by done. simpl. unfold validateOptionalIdentifier.
  destruct (g_pheap g !! al_peer l) as [pl|] eqn:Hp.
  - rewrite (I1 _ _ Hp), (I2 _ _ Hl). by repeat case_bool_decide.
  - rewrite (I2 _ _ Hl). simpl. by destruct (bool_decide (req_ID _ = _)).
Qed.

Lemma trip_latches a event reply g l :
  g_aheap g !! a = Some l -> validateSafetyTripEvent (lease_event g l event) = None ->
  let r := AttemptLease_Trip a event reply g in
  latched r.1 \/ r.1 = g /\ r.2.2 = Some ErrLeaseClosed /\ al_closed l || al_stoppingStarted l = true.
Proof.
  intros Hl Hv. unfold AttemptLease_Trip. rewrite Hl, Hv. simpl.
  destruct (al_closed l || al_stoppingStarted l) eqn:E; [by right|]. left.
  destruct (g_closed g) eqn:Hc.
  - unfold tripLocked. rewrite Hc. by right; left.
  - left. by apply tripLocked_blocks.
Qed.

(** ** The invariant of a run *)

(** The slice of the reservation the controller enforces. *)
Definition slice_of (enforced reserved : AttemptCost) : Prop :=
  resources_nonneg (cost_Resources enforced) /\
  resources_le (cost_Resources enforced) (cost_Resources reserved) /\
  0 < cost_Duration enforced <= cost_Duration reserved.

Record governed (tr : list pevent) (g : Governor) (c : Controller) (m : gmap nat pthread) : Prop := {
  gv_reachable : reachable g;
  gv_build : normalizeBuildVersion (cfg_buildVersion (pc_config c)) =
             Ok (cfg_buildVersion (pc_config c));
  gv_lease : exists l, g_aheap g !! cfg_lease (pc_config c) = Some l /\
    slice_of (cost_of_config c) (req_Cost (al_request l));
  gv_drain : EvDrained ∉ tr -> exists l, g_aheap g !! cfg_lease (pc_config c) = Some l /\
    is_Some (al_drains l !! cfg_drain (pc_config c));
  gv_drained : EvDrained ∈ tr -> pc_drainOnce c = OnceDone \/ pc_handoffDone c = true;
  gv_revoked : EvRevoked ∈ tr -> pc_drainOnce c = OnceDone;
  gv_reasons tid t : m !! tid = Some t -> reasons_ok t;
  gv_tripped r e : EvTrip r e ∈ tr -> latched g \/ e = Some ErrLeaseClosed;
  gv_tripping : pc_tripping c = true ->
    (exists tid r d cause watcher, m !! tid = Some (TTripCall r d cause watcher)) \/
    (exists r e, EvTrip r e ∈ tr);
}.

Record probe_inv (tr : list pevent) (w : World) : Prop := {
  pi_counted : counted (w_controller w) (w_threads w);
  pi_phased : phased (w_controller w) (w_threads w);
  pi_earned : earned tr (w_controller w) (w_threads w);
  pi_governed : governed tr (w_governor w) (w_controller w) (w_threads w);
}.

(** The governor moves on its own. *)
Lemma governed_governor tr g g' c m :
  gstep g g' ->
  EvDrained ∈ tr \/ drain_kept (cfg_lease (pc_config c)) (cfg_drain (pc_config c)) g g' ->
  governed tr g c m -> governed tr g' c m.
Proof.
  intros Hs Hk [V1 V2 (l & Hl & Hle) V4 V5 V6 V7 V8 V9].
  assert (Hst : rtc gstep g g') by (by apply rtc_once).
  destruct (steps_lease g g' _ l V1 Hst Hl) as (l' & Hl' & Hg).
  split; try done.
  - destruct V1 as (g0 & ? & ?). exists g0. split; [done|]. by etrans.
  - exists l'. split; [done|]. by destruct Hg as [-> _].
  - intros Hn. destruct Hk as [|Hk]; [done|]. destruct (V4 Hn) as (l0 & H0 & Hd). by apply (Hk l0).
  - intros r e He. destruct (V8 r e He) as [Hlat|]; [left|by right].
    apply (latched_micros g g'); [|done]. by apply (steps_inv g g' (reachable_inv g V1)).
Qed.

(** A goroutine of the controller takes a stretch. *)
Lemma inv_stretch tr g gen c m tid t next c' ev :
  counted c m -> phased c m -> governed tr g c m ->
  (forall tid id t closeLease, m !! tid = Some (TPromoting id t closeLease) ->
     EvOpened id ∈ tr /\ EvRegistered id t ∈ tr /\ EvVerified id t ∈ tr) ->
  m !! tid = t -> moves t c c' next -> named c' next -> phase_step t next c c' ->
  earned_rest (tr ++ ev) c' ->
  (forall id t' closeLease, next = Some (TPromoting id t' closeLease) ->
     EvOpened id ∈ tr /\ EvRegistered id t' ∈ tr /\ EvVerified id t' ∈ tr) ->
  (forall t', next = Some t' -> reasons_ok t') ->
  (EvDrained ∈ ev -> pc_drainOnce c = OnceDone \/ pc_handoffDone c = true) ->
  (EvRevoked ∈ ev -> pc_drainOnce c = OnceDone) ->
  (forall r e, EvTrip r e ∈ ev -> latched g \/ e = Some ErrLeaseClosed) ->
  (forall r d cause watcher, t = Some (TTripCall r d cause watcher) -> exists e, EvTrip r e ∈ ev) ->
  (pc_tripping c' = true -> pc_tripping c = true \/
     exists r d cause watcher, next = Some (TTripCall r d cause watcher)) ->
  probe_inv (tr ++ ev) (mkWorld g gen c' (put_thread tid next m)).
Proof.
  intros C P [V1 V2 V3 V4 V5 V6 V7 V8 V9] HP Ht M N S (R1 & R2 & R3 & R4 & R5) HPn HR HD HV HT HC Htr.
  pose proof (counted_moves c c' m tid t next C Ht M N) as C'.
  pose proof (ps_rises _ _ _ _ S) as [_ _ Rh Ro].
  assert (Hcost : cost_of_config c' = cost_of_config c).
  { unfold cost_of_config. by rewrite (mv_config _ _ _ _ M). }
  split; simpl; [done|by eapply phased_step| |].
  - split; try done. intros tid' id u cl Hp. destruct (put_thread_Some _ _ _ _ _ Hp) as [[_ E]|[_ E]].
    + destruct (HPn id u cl E) as (? & ? & ?). split_and!; apply elem_of_app; by left.
    + destruct (HP tid' id u cl E) as (? & ? & ?). split_and!; apply elem_of_app; by left.
  - split; rewrite ?(mv_config _ _ _ _ M), ?Hcost; try done.
    + intros Hn. apply V4. intros Hin. apply Hn, elem_of_app. by left.
    + intros [Hin|Hin]%elem_of_app; [destruct (V5 Hin)|destruct (HD Hin)]; auto.
    + intros [Hin|Hin]%elem_of_app; auto.
    + intros tid' t' Hp. destruct (put_thread_Some _ _ _ _ _ Hp) as [[_ E]|[_ E]]; eauto.
    + intros r e [Hin|Hin]%elem_of_app; eauto.
    + intros Hc. destruct (Htr Hc) as [Hold|(r & d & cause & watcher & ->)].
      * destruct (V9 Hold) as [(tid' & r & d & cause & watcher & Hm)|(r & e & Hin)].
        -- destruct (decide (tid' = tid)) as [->|Hne].
           ++ rewrite Hm in Ht. subst t. destruct (HC r d cause watcher eq_refl) as (e & He).
              right. exists r, e. apply elem_of_app. by right.
           ++ left. exists tid', r, d, cause, watcher. destruct next; simpl.
              ** by rewrite lookup_insert_ne.
              ** by rewrite lookup_delete_ne.
        -- right. exists r, e. apply elem_of_app. by left.
      * left. exists tid, r, d, cause, watcher. simpl. apply lookup_insert_eq.
Qed.

(** Stretches that leave the controller as it is. *)
Lemma inv_same tr g gen c m tid t next ev :
  probe_inv tr (mkWorld g gen c m) -> governed tr g c m ->
  m !! tid = Some t -> idle (Some t) -> idle next -> named c next ->
  n_stop next = n_stop (Some t) ->
  (forall t', next = Some t' -> thread_phase c t') -> plain ev = true ->
  (forall id t' closeLease, next <> Some (TPromoting id t' closeLease)) ->
  (forall t', next = Some t' -> reasons_ok t') ->
  (EvDrained ∈ ev -> pc_drainOnce c = OnceDone \/ pc_handoffDone c = true) ->
  (EvRevoked ∈ ev -> pc_drainOnce c = OnceDone) ->
  (forall r e, EvTrip r e ∈ ev -> latched g \/ e = Some ErrLeaseClosed) ->
  (forall r d cause watcher, t = TTripCall r d cause watcher -> exists e, EvTrip r e ∈ ev) ->
  probe_inv (tr ++ ev) (mkWorld g gen c (put_thread tid next m)).
Proof.
  intros [C P E _] V Ht It In Nm Ns Ph Pl HP HR HD HV HT HC. simpl in *.
  pose proof (ct_books _ _ C). pose proof (ct_budget _ _ C).
  apply (inv_stretch tr g gen c m tid (Some t) next); try done.
  - apply E.
  - by apply moves_refl.
  - apply phase_same; try done. intros _.
    destruct (idle_counts _ It) as (_ & -> & _), (idle_counts _ In) as (-> & -> & _). done.
  - apply (earned_inert tr c); try done; first [exact (er_heap _ _ _ E)|apply E].
  - intros id t' cl Hn. by destruct (HP id t' cl).
  - intros r d cause watcher [= ->]. by eapply HC.
  - by left.
Qed.

Lemma inv_call tr w op now tid :
  probe_inv tr w -> w_threads w !! tid = None ->
  let o := invoke op (view_of now w) (w_controller w) in
  probe_inv (tr ++ o.2) (after tid (w_governor w) o w).
Proof.
  intros [C P E V] Ht. pose proof (ct_books _ _ C) as B. pose proof (ct_budget _ _ C) as G.
  apply (inv_stretch _ _ _ (w_controller w) (w_threads w) tid None); try done.
  - apply E.
  - by apply moves_invoke.
  - by apply named_invoke.
  - apply phase_invoke.
  - apply (earned_happened tr (view_of now w) (w_controller w)); try done;
      try first [exact (er_heap _ _ _ E)|apply E].
    + by apply happened_invoke.
    + intros id t Hin. by apply invoke_unpromoted in Hin.
  - intros id t cl Hn. destruct (invoke_promoting _ _ _ _ _ _ Hn) as (s & Hs & Hin & Hv).
    destruct (er_heap _ _ _ E id s Hs) as (? & Hr & Hvf). split_and!; auto.
  - intros t' Hn. by eapply invoke_reasons.
  - intros Hin. by apply invoke_events in Hin.
  - intros Hin. by apply invoke_events in Hin.
  - intros r e Hin. by apply invoke_events in Hin.
  - rewrite invoke_tripping. by left.
Qed.

Lemma inv_resume tr w t ans now tid o :
  probe_inv tr w -> w_threads w !! tid = Some t ->
  resume t ans (view_of now w) (w_controller w) = Some o ->
  probe_inv (tr ++ o.2) (after tid (w_governor w) o w).
Proof.
  intros [C P E V] Ht Eo. pose proof (ct_books _ _ C) as B. pose proof (ct_budget _ _ C) as G.
  assert (Hok : thread_ok (w_controller w) t).
  { split_and!.
    - intros ->. rewrite (ct_pending _ _ C). apply (count_ge n_open _ _ _ Ht n_open_nonneg).
    - intros id Hid. eapply (ct_names _ _ C tid t id Ht). by destruct t.
    - pose proof (ct_names _ _ C tid t) as Hn. destruct t; try done; try (by eapply Hn).
      by eapply (stopping_thread _ _ _ _ G P Ht). }
  pose proof (moves_resume (view_of now w) (w_controller w) B G t ans o Hok Eo) as M.
  apply (inv_stretch _ _ _ (w_controller w) (w_threads w) tid (Some t)); try done.
  - apply E.
  - intros t' id Hn Hk. apply (mv_grow _ _ _ _ M).
    eapply (ct_names _ _ C tid t id Ht). by eapply resume_names.
  - eapply phase_resume; try done; [by eapply (ph_thread _ _ P)|].
    intros Hn. by eapply (stopping_thread _ _ _ _ G P Ht).
  - apply (earned_happened tr (view_of now w) (w_controller w)); try done;
      try first [exact (er_heap _ _ _ E)|apply E].
    + by eapply happened_resume.
    + intros id u Hin. destruct (resume_promoted _ _ _ _ _ _ _ Eo Hin) as (cl & ->).
      by apply (er_promoting _ _ _ E) in Ht.
  - intros id u cl Hn. by apply (resume_promoting _ _ _ _ _ _ _ _ Eo) in Hn.
  - intros t' Hn. eapply resume_reasons; try done. by eapply (gv_reasons _ _ _ _ V).
  - intros Hin. by apply (resume_events _ _ _ _ _ _ Eo) in Hin.
  - intros Hin. by apply (resume_events _ _ _ _ _ _ Eo) in Hin.
  - intros r e Hin. by apply (resume_events _ _ _ _ _ _ Eo) in Hin.
  - intros r d cause watcher [= ->]. by destruct ans.
  - intros Hc. by apply (resume_tripping _ _ _ _ _ Eo).
Qed.

(** *** The start *)
Lemma validateResources_None r : validateResources r = None -> resources_nonneg r.
Proof.
  unfold validateResources, resources_nonneg, resources_le, resources_zero. simpl.
  destruct (_ || _) eqn:E; [done|]. intros _. rewrite !orb_false_iff, !Z.ltb_ge in E. lia.
Qed.

Lemma enforced_request_slice request enforced r :
  enforced_request request enforced = Ok r -> slice_of (req_Cost r) (req_Cost request).
Proof.
  unfold enforced_request. destruct (negb _); [done|].
  destruct (cost_Duration (req_Cost request) <=? 0) eqn:E1; [done|]. apply Z.leb_gt in E1.
  rewrite guard_err_Ok. intros [Hr%validateResources_None H]. destruct enforced as [cost|].
  - apply guard_err_Ok in H as [Hv [= <-]]. simpl. unfold validateEnforcedCost in Hv.
    destruct (_ || _) eqn:E2; [done|]. apply err_then_None in Hv as [Hn%validateResources_None Hv].
    rewrite !orb_false_iff, Z.leb_gt, Z.ltb_ge in E2. destruct E2 as [[? ?] _].
    destruct (_ || _) eqn:E3; [done|]. rewrite !orb_false_iff, !Z.ltb_ge in E3.
    split_and!; try done. unfold resources_le. lia.
  - injection H as <-. split_and!; try done; unfold resources_le; lia.
Qed.

Lemma Controller_New_Ok a current expected enforced build now g g' c :
  Controller_New a current expected enforced build now g = (g', Ok c) ->
  exists l l' request drain,
    g_aheap g !! a = Some l /\ g_aheap g' !! a = Some l' /\ is_Some (al_drains l' !! drain) /\
    al_request l' = al_request l /\ gstep g g' /\
    c = new_controller (mkProbeConfig a expected build request now drain) /\
    current = expected /\ slice_of (req_Cost request) (req_Cost (al_request l)) /\
    normalizeBuildVersion build = Ok build.
Proof.
  unfold Controller_New. destruct (g_aheap g !! a) as [l|] eqn:Hl; [|done].
  destruct (enforced_request (al_request l) enforced) as [request|e] eqn:Er; [|done].
  destruct (negb _) eqn:Ec; [done|]. apply negb_false_iff, Z.eqb_eq in Ec.
  destruct (normalizeBuildVersion build) as [b|e] eqn:Eb; [|done].
  assert (b = build) as ->.
  { unfold normalizeBuildVersion in Eb. apply guard_err_Ok in Eb as [_ [= <-]]. done. }
  destruct (registerDrain a "probeio-controller" false g) as [g1 [drain|e]] eqn:Ed; [|done].
  intros [= <- <-]. pose proof (step_registerDrain a "probeio-controller" false g) as Hst.
  rewrite Ed in Hst. simpl in Hst. unfold registerDrain in Ed. rewrite Hl in Ed.
  destruct (validateIdentifier _ _); [done|]. destruct (lease_unusable g l); [done|]. simpl in Ed.
  destruct (_ <=? _); [done|]. injection Ed as <- <-.
  exists l. eexists. exists request. eexists. simpl. rewrite lookup_alter_eq, Hl. simpl.
  split_and!; try done.
  - simpl. rewrite lookup_insert_eq. by eauto.
  - by eapply enforced_request_slice.
Qed.

Lemma probe_start_inv a current expected enforced build now g g' c :
  reachable g -> Controller_New a current expected enforced build now g = (g', Ok c) ->
  probe_inv [EvNow now] (mkWorld g' current c {[ 0%nat := TWatch ]}).
Proof.
  intros Hr E. destruct (Controller_New_Ok _ _ _ _ _ _ _ _ _ E) as
    (l & l' & request & drain & Hl & Hl' & Hd & Hreq & Hst & -> & _ & Hsl & Hb).
  pose proof Hsl as (Hnn & _ & _).
  assert (Hcount : forall f, f (Some TWatch) = 0 -> count f {[ 0%nat := TWatch ]} = 0).
  { intros f Hf. unfold count. rewrite <-insert_empty, map_sum_insert, map_sum_empty, Hf by done. lia. }
  unfold resources_nonneg, resources_le, resources_zero in Hnn. simpl in Hnn.
  split; simpl.
  - split; simpl; try done.
    + split; try done; unfold limits_of, cost_of_config.
      * change (Z.of_nat (size (∅ : gset Z)) + 0 <= Sockets (cost_Resources (req_Cost request))).
        rewrite size_empty. lia.
      * simpl. rewrite map_size_empty. lia.
      * simpl. lia.
      * simpl. lia.
      * simpl. lia.
    + intros tid t id [<- <-]%lookup_singleton_Some. done.
  - split; simpl; try done.
    intros tid t [<- <-]%lookup_singleton_Some. done.
  - split; simpl; try done.
    + split; simpl; [exists []; split; [done|]; by intros ? ?%elem_of_nil|]. intros t. unfold limits_of, cost_of_config, in_window. simpl. lia.
    + intros tid id t cl [_ H]%lookup_singleton_Some. done.
    + split; [done|]. intros H. destruct H. by apply plain_facts.
    + apply (ordered_plain [] [EvNow now]); [|done]. intros tr1 e tr2 H. by destruct tr1.
  - split; simpl; try done.
    + destruct Hr as (g0 & ? & ?). exists g0. split; [done|]. by eapply rtc_r.
    + exists l'. split; [done|]. by rewrite Hreq.
    + intros _. by exists l'.
    + by intros ?%list_elem_of_singleton.
    + by intros ?%list_elem_of_singleton.
    + by intros tid t [<- <-]%lookup_singleton_Some.
    + by intros r e ?%list_elem_of_singleton.
Qed.

(** *** Every step *)
Lemma upd_closed_inv tr g gen c m tid id ev :
  probe_inv tr (mkWorld g gen c m) -> m !! tid = Some (TLeaseWait id) -> plain ev = true ->
  (forall e, e ∈ ev -> of_governor e = false) ->
  probe_inv (tr ++ ev) (mkWorld g gen (upd_socket id (set_ss_closed true) c) (delete tid m)).
Proof.
  intros [C P E V] Ht Hp Ho. simpl in *.
  pose proof (ct_books _ _ C). pose proof (ct_budget _ _ C).
  apply (inv_stretch tr g gen c m tid (Some (TLeaseWait id)) None); try done.
  - apply E.
  - by apply moves_upd_inert.
  - by apply phase_same.
  - apply (earned_inert tr c); try done; try first [exact (er_heap _ _ _ E)|apply E]. by apply inert_upd.
  - by intros ?%Ho.
  - by intros ?%Ho.
  - by intros r e ?%Ho.
  - by left.
Qed.

Lemma world_eta w : w = mkWorld (w_governor w) (w_generation w) (w_controller w) (w_threads w).
Proof. by destruct w. Qed.

Lemma inv_complete tr g gen c m tid t ev :
  probe_inv tr (mkWorld g gen c m) -> m !! tid = Some t ->
  t = TWatchComplete /\ ev = [EvDrained] \/ t = TRevokeComplete /\ ev = [EvDrained; EvRevoked] ->
  probe_inv (tr ++ ev)
    (mkWorld (Complete (cfg_lease (pc_config c)) (cfg_drain (pc_config c)) g) gen c (delete tid m)).
Proof.
  intros I Ht Hev. pose proof (ph_thread _ _ (pi_phased _ _ I) tid t Ht) as Hph. simpl in Hph.
  assert (I' : probe_inv (tr ++ ev) (mkWorld g gen c (delete tid m))).
  { pose proof (pi_governed _ _ I) as V. simpl in V.
    apply (inv_same tr g gen c m tid t None); try done;
      destruct Hev as [[-> ->]|[-> ->]]; simpl in *; try done; try (by auto).
    - by intros ?%list_elem_of_singleton.
    - by intros r e ?%list_elem_of_singleton.
    - intros r e Hin. set_solver. }
  destruct I' as [C P E V]. split; try done. simpl in *.
  apply (governed_governor _ g); [apply step_Complete| |done].
  left. destruct Hev as [[_ ->]|[_ ->]]; set_solver.
Qed.

Lemma step_inv tr w ev w' : probe_inv tr w -> pstep w ev w' -> probe_inv (tr ++ ev) w'.
Proof.
  intros I Hs. destruct Hs as [g' w Hs Hk|n w|op now tid w Ht|t ans now tid o w Ht Eo|
    tid reason detail cause watcher reply w Ht Hrep r|tid id w Ht|tid id err w Ht|tid w Ht|tid w Ht].
  - rewrite app_nil_r. destruct I as [C P E V]. split; try done. simpl.
    apply (governed_governor _ (w_governor w)); try done. by right.
  - rewrite app_nil_r. by destruct I.
  - by apply inv_call.
  - by eapply inv_resume.
  - pose proof (pi_governed _ _ I) as V.
    destruct (gv_lease _ _ _ _ V) as (l & Hl & _).
    destruct (gv_reasons _ _ _ _ V tid _ Ht) as [Hv (d0 & ->)].
    assert (V' : governed tr r.1 (w_controller w) (w_threads w)).
    { apply (governed_governor _ (w_governor w)); [by apply step_AttemptLease_Trip| |done].
      right. apply drains_kept, AttemptLease_Trip_drains. }
    assert (Hlat : latched r.1 \/ r.2.2 = Some ErrLeaseClosed).
    { destruct (trip_latches (world_lease w) (trip_event reason (boundedDetail d0) (w_controller w))
        reply (w_governor w) l Hl) as [?|(_ & ? & _)]; [|by left|by right].
      apply trip_event_valid; try done; [|apply V]. apply reachable_identified, V. }
    assert (I' : probe_inv tr (mkWorld r.1 (w_generation w) (w_controller w) (w_threads w))).
    { destruct I. by split. }
    unfold after. destruct watcher; simpl.
    + apply (inv_same tr _ _ _ _ tid _ (Some (TStopLocal ForWatcher)) [EvTrip reason r.2.2] I' V' Ht);
        try done.
      * intros t' id [= <-]. done.
      * by intros t' [= <-].
      * by intros t' [= <-].
      * by intros ?%list_elem_of_singleton.
      * by intros ?%list_elem_of_singleton.
      * intros r' e [= -> ->]%list_elem_of_singleton. done.
      * intros ? ? ? ? [= -> _ _]. exists r.2.2. by apply list_elem_of_singleton.
    + apply (inv_same tr _ _ _ _ tid _ None _ I' V' Ht); try done.
      * intros Hin. set_solver.
      * intros Hin. set_solver.
      * intros r' e Hin. assert (e = r.2.2) as -> by set_solver. done.
      * intros ? ? ? ? [= -> _ _]. exists r.2.2. set_solver.
  - assert (V' : governed tr (AttemptLease_Close (world_lease w) (w_governor w)) (w_controller w) (w_threads w)).
    { apply (governed_governor _ (w_governor w)); [apply step_AttemptLease_Close| |apply I].
      right. apply drains_kept, AttemptLease_Close_drains. }
    assert (I' : probe_inv tr (mkWorld (AttemptLease_Close (world_lease w) (w_governor w))
      (w_generation w) (w_controller w) (w_threads w))) by (destruct I; by split).
    apply (inv_same tr _ _ _ _ tid _ (Some (TLeaseWait id)) [] I' V' Ht); try done.
    + intros t' id' [= <-]. done.
    + by intros t' [= <-].
    + by intros t' [= <-].
    + by intros ?%elem_of_nil.
    + by intros ?%elem_of_nil.
    + by intros r e ?%elem_of_nil.
  - rewrite (world_eta w) in I. destruct err as [e|].
    + apply (upd_closed_inv tr _ _ _ _ tid id); try done. by intros e' ->%list_elem_of_singleton.
    + apply (inv_same tr _ _ _ _ tid (TLeaseWait id) None); try done; [apply I|..].
      * by intros ?%list_elem_of_singleton.
      * by intros ?%list_elem_of_singleton.
      * by intros r e ?%list_elem_of_singleton.
  - rewrite (world_eta w) in I. eapply (inv_complete tr _ _ _ _ tid); [done|done|by left].
  - rewrite (world_eta w) in I. eapply (inv_complete tr _ _ _ _ tid); [done|done|by right].
Qed.

Lemma run_inv tr w : probe_run tr w -> probe_inv tr w.
Proof. induction 1; [by eapply probe_start_inv|by eapply step_inv]. Qed.

(** ** Theorems *)

(** A released attempt of the loopback lifecycle has no drain left. *)
Lemma loopback_drains g a l t :
  reachable g -> g_aheap g !! a = Some l -> al_terminal l = Some t ->
  closed_chan (al_done l) = true -> al_drains l = ∅.
Proof.
  intros Hr Hl Ht Hd. destruct (reachable_inv g Hr) as [_ L].
  destruct (lc_lease g L a l Hl) as [[_ _ Dn C _ _] Htm].
  assert (Hc : al_closed l = true) by (rewrite Dn in Hd; by destruct (al_closed l)).
  unfold terminal_ok in Htm. rewrite Ht in Htm. destruct Htm as [_ P]. unfold phase_ok in P.
  destruct (g_terms g !! a) as [ph|]; [destruct P as (_ & ? & _); congruence|].
  rewrite (C Hc) in P. by destruct P.
Qed.

Lemma cost_le_total g a l :
  registry g -> g_aheap g !! a = Some l -> al_closed l = false ->
  resources_le (cost_Resources (req_Cost (al_request l))) (g_reserved g).
Proof.
  intros R Hl Hc. rewrite (reg_reserved g R). pose proof (reg_open g R a l Hl Hc) as Ha.
  assert (Hone : forall f : Resources -> Z,
    (forall id b, g_attempts g !! id = Some b -> 0 <= f (cost_of (g_aheap g) b)) ->
    f (cost_Resources (req_Cost (al_request l))) <=
    map_sum (fun b => f (cost_of (g_aheap g) b)) (g_attempts g)).
  { intros f Hf. rewrite (map_sum_delete _ _ _ _ Ha).
    replace (cost_of (g_aheap g) a) with (cost_Resources (req_Cost (al_request l)))
      by (unfold cost_of; by rewrite Hl).
    assert (0 <= map_sum (fun b => f (cost_of (g_aheap g) b))
      (delete (req_ID (al_request l)) (g_attempts g))); [|lia].
    apply map_sum_nonneg. intros id b Hb. apply lookup_delete_Some in Hb as [_ Hb]. by eapply Hf. }
  assert (Hnn : forall id b, g_attempts g !! id = Some b -> resources_nonneg (cost_of (g_aheap g) b)).
  { intros id b Hb. destruct (reg_attempt g R id b Hb) as (k & ? & Hk & _). unfold cost_of. rewrite Hk.
    by apply (reg_cost g R b). }
  unfold resources_nonneg, resources_le in Hnn. simpl in Hnn.
  unfold resources_le, total_cost. simpl.
  split_and!; apply Hone; intros id b Hb; specialize (Hnn id b Hb); lia.
Qed.

Lemma refs_dom c t :
  books c -> t ∈ dom (pc_targetRefs c) <-> exists id s, pc_heap c !! id = Some s /\ t ∈ ss_targets s.
Proof.
  intros B. rewrite elem_of_dom. split.
  - intros [n Hn]. pose proof (bk_pos c B t n Hn) as Hp.
    pose proof (bk_refs c B t) as Hr. unfold refs_at in Hr. rewrite Hn in Hr. simpl in Hr.
    destruct (decide (map_Exists (fun _ s => t ∈ ss_targets s) (pc_heap c))) as [(id & s & ? & ?)|Hno].
    { by exists id, s. }
    exfalso. assert (map_sum (holds t) (pc_heap c) = 0) as Hz; [|lia].
    rewrite <-(map_sum_zero (pc_heap c)). apply map_sum_ext. intros id s Hs. unfold holds.
    rewrite bool_decide_eq_false_2; [done|]. intros Hin. apply Hno. by exists id, s.
  - intros (id & s & Hs & Ht). pose proof (holds_le c t id s B Hs Ht) as H. unfold refs_at in H.
    destruct (pc_targetRefs c !! t); [by eauto|simpl in H; lia].
Qed.

(** C7: a controller never exceeds its reservation.  Whatever the callers, the
    network, the clock and the governor do, in every state of every run: the
    limits it enforces are those of the lease or lower, and while the lease is
    registered they are part of what the governor has reserved, within the
    machine's aggregate; the open sockets together with the opens in flight, the
    distinct targets in use and the pairs of socket and target stay within
    them; and so does the number of packets ever handed to a datagram, failed
    writes included.  If the clock never goes back, then no second holds more
    packets than the rate. *)
Theorem probe_within_budget tr w :
  probe_run tr w ->
  let c := w_controller w in
  (exists l, g_aheap (w_governor w) !! world_lease w = Some l /\
     resources_le (limits_of c) (cost_Resources (req_Cost (al_request l))) /\
     (al_closed l = false ->
        resources_le (limits_of c) (g_reserved (w_governor w)) /\
        resources_le (g_reserved (w_governor w)) (Aggregate (g_limits (w_governor w))))) /\
  Z.of_nat (size (pc_sockets c)) + count n_open (w_threads w) <= Sockets (limits_of c) /\
  (forall t, t ∈ dom (pc_targetRefs c) <->
     exists id s, pc_heap c !! id = Some s /\ t ∈ ss_targets s) /\
  Z.of_nat (size (dom (pc_targetRefs c))) <= Targets (limits_of c) /\
  map_sum tuples (pc_heap c) <= FiveTuples (limits_of c) /\
  Z.of_nat (length (sends tr)) <= Packets (limits_of c) /\
  (monotone (reads tr) ->
     forall t, Z.of_nat (in_window t (sends tr)) <= PacketsPerSecond (limits_of c)).
Proof.
  intros Hr c. subst c. destruct (run_inv tr w Hr) as [[B G Hp _ _ _] _ E V].
  destruct (gv_lease _ _ _ _ V) as (l & Hl & _ & Hle & _). split_and!.
  - exists l. split_and!; [done|done|]. intros Hc.
    destruct (reachable_inv _ (gv_reachable _ _ _ _ V)) as [R _].
    split; [|apply R]. etrans; [exact Hle|]. by eapply cost_le_total.
  - rewrite <-Hp. apply G.
  - intros t. by apply refs_dom.
  - rewrite size_dom. apply G.
  - rewrite <-(bk_five _ B). apply G.
  - rewrite <-(er_sent _ _ _ E). apply G.
  - intros Hm. apply (er_rate _ _ _ E Hm).
Qed.

Lemma sends_elem ev id t at_ : EvSend id t at_ ∈ ev -> at_ ∈ sends ev.
Proof. intros Hin. apply list_elem_of_omap. by exists (EvSend id t at_). Qed.

(** Only a step of [SendProbe] sends. *)
Lemma probe_send_step w ev w' id t at_ :
  pstep w ev w' -> EvSend id t at_ ∈ ev ->
  exists op now, ev = (invoke op (view_of now w) (w_controller w)).2.
Proof.
  intros Hs Hin. destruct Hs as [| |op now tid w Ht|t' ans now tid o w Ht Eo|tid reason detail cause watcher reply w| | | |];
    try (by exists op, now); try (rewrite ?elem_of_cons, ?elem_of_nil in Hin; naive_solver).
  - exfalso. destruct t', ans; try discriminate Eo; simpl in Eo; open_resume Eo;
      rewrite ?elem_of_cons, ?elem_of_nil in Hin; naive_solver.
  - destruct watcher; simpl in Hin; rewrite ?elem_of_cons, ?elem_of_nil in Hin; naive_solver.
Qed.

Lemma drained_stopped tr w : probe_inv tr w -> EvDrained ∈ tr -> pc_stopped (w_controller w) = true.
Proof.
  intros [C P E V] Hd. pose proof (ct_budget _ _ C) as G.
  assert (Ho : pc_drainOnce (w_controller w) = OnceDone -> pc_stopped (w_controller w) = true).
  { intros Ho. apply (bg_once _ G). congruence. }
  destruct (gv_drained _ _ _ _ V Hd) as [H|H]; [auto|].
  destruct (ph_handoff _ _ P H) as [H'|H']; [auto|]. by apply (bg_promoted _ G).
Qed.

(** C20: what authorizes a packet.  Whenever a packet is handed to a datagram, at
    that moment: the controller is neither stopped nor tripping, the lease does
    not revoke probing, the network generation is the one the controller was
    built for, the clock is inside the duration of the lease's reservation, the
    socket is open and the target is registered for it.  So once the drain has
    completed, nothing is sent any more. *)
Theorem send_authorized tr w ev w' id t at_ :
  probe_run tr w -> pstep w ev w' -> EvSend id t at_ ∈ ev ->
  let c := w_controller w in
  pc_stopped c = false /\ pc_tripping c = false /\
  ProbeRevocation (w_governor w) (world_lease w) = false /\
  w_generation w = cfg_expectedGeneration (pc_config c) /\
  (exists s, pc_heap c !! id = Some s /\ id ∈ pc_sockets c /\ ss_state s = socketOpen /\
     t ∈ ss_targets s) /\
  (exists l now, g_aheap (w_governor w) !! world_lease w = Some l /\ EvNow now ∈ ev /\
     instant now < instant (cfg_startedAt (pc_config c)) + cost_Duration (req_Cost (al_request l))) /\
  EvDrained ∉ tr.
Proof.
  intros Hr Hs Hin c. subst c. pose proof (run_inv tr w Hr) as I. pose proof (drained_stopped tr w I) as Hdr.
  destruct I as [[B G _ _ _ _] P E V].
  destruct (probe_send_step _ _ _ _ _ _ Hs Hin) as (op & now & ->).
  destruct (gv_lease _ _ _ _ V) as (l & Hl & _ & _ & Hd).
  pose proof (happened_invoke (view_of now w) (w_controller w) op) as Hh.
  remember (invoke op (view_of now w) (w_controller w)).2 as ev eqn:Ee. clear Ee Hs.
  destruct Hh as [ev c' Hp Hi| | | |c1 c' id' s t' now' Hi H1 H2 H3 H4 H5 H6 H7 H8 H9 H10 H11| |];
    try (by apply sends_elem, elem_of_nil in Hin).
  - apply sends_elem in Hin. rewrite (proj1 (plain_facts _ Hp)) in Hin. by apply elem_of_nil in Hin.
  - assert (id' = id /\ t' = t) as [-> ->] by set_solver. split_and!; try done.
    + exists s. split_and!; try done. apply (open_in _ id s B H6). by left.
    + exists l, now. split_and!; [done|set_solver|]. simpl in H5. lia.
    + intros Hd'. specialize (Hdr Hd'). congruence.
Qed.

(** Events that need a live controller. *)
Definition live_event (e : pevent) : bool :=
  match e with
  | EvOpened _ | EvRegistered _ _ | EvVerified _ _ | EvSend _ _ _ | EvPromoted _ _ => true
  | _ => false
  end.

Lemma justified_unpromoted tr e : live_event e = true -> justified tr e -> unpromoted tr.
Proof. destruct e; simpl; try done; by intros _ []. Qed.

(** C12: one promotion, earned and final.  When a run promotes a socket to a target,
    the socket was opened, the target registered for it and a reply of the
    target accepted by the verifier, all before the promotion, and nothing was
    promoted before.  Afterwards no socket is opened, no target registered or
    verified, no packet sent and no socket promoted, and no handle is left. *)
Theorem promotion_earned_and_final tr w tr1 id t tr2 :
  probe_run tr w -> tr = tr1 ++ EvPromoted id t :: tr2 ->
  (EvOpened id ∈ tr1 /\ EvRegistered id t ∈ tr1 /\ EvVerified id t ∈ tr1 /\ unpromoted tr1) /\
  (forall e, e ∈ tr2 -> live_event e = false) /\
  pc_promoted (w_controller w) = true /\ pc_sockets (w_controller w) = ∅.
Proof.
  intros Hr ->. destruct (run_inv _ w Hr) as [C _ E _]. pose proof (ct_budget _ _ C) as G.
  pose proof (er_order _ _ _ E) as Ho.
  destruct (Ho tr1 (EvPromoted id t) tr2 eq_refl) as (Hu & H1 & H2 & H3).
  assert (Hp : pc_promoted (w_controller w) = true).
  { apply (er_promoted _ _ _ E). intros Hn. apply (Hn id t), elem_of_app. right. by left. }
  split_and!; try done.
  - intros e (a & b & ->)%list_elem_of_split. apply not_true_iff_false. intros Hl.
    assert (Hj : justified (tr1 ++ EvPromoted id t :: a) e).
    { apply (Ho _ e b). by rewrite <-(assoc_L (++)). }
    apply (justified_unpromoted _ _ Hl Hj id t), elem_of_app. right. by left.
  - by apply (bg_stopped _ G), (bg_promoted _ G).
Qed.

(** A goroutine is inside [factory.Open], [WriteTo], [ReadFrom] or the verifier. *)
Definition in_io (t : pthread) : Prop :=
  match t with
  | TOpen | TSend _ _ _ | TRecv _ _ | TVerify _ _ => True
  | _ => False
  end.
Definition quiescent (w : World) : Prop := forall tid t, w_threads w !! tid = Some t -> ~ in_io t.

Lemma quiet_quiescent w :
  counted (w_controller w) (w_threads w) ->
  pc_pending (w_controller w) = 0 -> pc_ops (w_controller w) = 0 -> quiescent w.
Proof.
  intros C Hp Ho tid t Ht. rewrite (ct_pending _ _ C) in Hp. rewrite (ct_ops _ _ C) in Ho.
  pose proof (count_ge n_open _ _ _ Ht n_open_nonneg) as H1.
  pose proof (count_ge n_ops _ _ _ Ht n_ops_nonneg) as H2.
  assert (Hz : n_ops (Some t) <= 0 /\ n_open (Some t) <= 0) by lia. clear -Hz. unfold n_ops, bool_Z in Hz.
  destruct t; simpl in Hz |- *; try tauto; try (rewrite bool_decide_eq_true_2 in Hz by eauto); lia.
Qed.

Lemma drained_or_not (tr : list pevent) : EvDrained ∈ tr \/ EvDrained ∉ tr.
Proof.
  induction tr as [|e tr [IH|IH]]; [right; apply not_elem_of_nil|left; by right|].
  destruct e; try (by left; left); right; by intros [?|?]%elem_of_cons.
Qed.

(** C13: the drain of a controller is a witness.  Until it has completed it is
    registered with the governor, so in the loopback lifecycle the attempt is not
    released: when [Done] is closed, the drain has completed.  Once it has, the
    controller is stopped and holds no socket and, unless it was promoted, no
    goroutine is inside [factory.Open], [WriteTo], [ReadFrom] or a verifier.  When
    [RevokeForTerminal] has returned, that holds even after a promotion.  A
    [Close] or a [SetDeadline] of a datagram that has left the controller may
    still run. *)
Theorem drain_is_witness tr w :
  probe_run tr w ->
  (EvDrained ∉ tr -> exists l, g_aheap (w_governor w) !! world_lease w = Some l /\
     is_Some (al_drains l !! world_drain w)) /\
  (EvDrained ∈ tr -> pc_stopped (w_controller w) = true /\ pc_sockets (w_controller w) = ∅ /\
     (pc_promoted (w_controller w) = false -> quiescent w)) /\
  (EvRevoked ∈ tr -> quiescent w) /\
  (forall l t, g_aheap (w_governor w) !! world_lease w = Some l -> al_terminal l = Some t ->
     closed_chan (al_done l) = true -> EvDrained ∈ tr).
Proof.
  intros Hr. pose proof (run_inv tr w Hr) as I. pose proof (drained_stopped tr w I) as Hdr.
  destruct I as [C P E V]. pose proof (ct_budget _ _ C) as G.
  assert (Hq : pc_drainOnce (w_controller w) = OnceDone -> quiescent w).
  { intros Ho. destruct (ph_quiet _ _ P Ho). by apply quiet_quiescent. }
  split_and!.
  - apply (gv_drain _ _ _ _ V).
  - intros Hd. split_and!; [auto|by apply (bg_stopped _ G), Hdr|]. intros Hp.
    destruct (gv_drained _ _ _ _ V Hd) as [Ho|Ho]; [auto|].
    destruct (ph_handoff _ _ P Ho) as [?|?]; [auto|congruence].
  - intros Hd. by apply Hq, (gv_revoked _ _ _ _ V).
  - intros l t Hl Ht Hd.
    destruct (drained_or_not tr) as [|Hn]; [done|]. exfalso.
    destruct (gv_drain _ _ _ _ V Hn) as (l' & Hl' & [d Hd']).
    assert (l' = l) as -> by (unfold world_lease in Hl; congruence).
    rewrite (loopback_drains _ _ _ _ (gv_reachable _ _ _ _ V) Hl Ht Hd) in Hd'.
    by rewrite lookup_empty in Hd'.
Qed.

(** C21: a trip of the controller latches the machine.  While the controller is
    tripping, a goroutine is about to call [lease.Trip] or the call has
    returned.  The event it passes is always valid, whatever detail it was
    given, so once the call has returned, either it reported a lease that was
    already closed, or the governor is latched, stays latched in all its later
    states and grants no lease any more.  While the controller is tripping it
    sends nothing. *)
Theorem trip_latches_machine tr w :
  probe_run tr w ->
  (pc_tripping (w_controller w) = true ->
     (exists tid r d cause watcher, w_threads w !! tid = Some (TTripCall r d cause watcher)) \/
     (exists r e, EvTrip r e ∈ tr)) /\
  (forall r e, EvTrip r e ∈ tr ->
     e = Some ErrLeaseClosed \/
     latched (w_governor w) /\
     forall g', rtc gstep (w_governor w) g' -> latched g' /\ no_new_leases (w_governor w) g') /\
  (forall ev w' id t at_, pc_tripping (w_controller w) = true -> pstep w ev w' -> EvSend id t at_ ∉ ev).
Proof.
  intros Hr. destruct (run_inv tr w Hr) as [C P E V]. split_and!.
  - apply V.
  - intros r e He. destruct (gv_tripped _ _ _ _ V r e He) as [Hl|]; [right|by left].
    split; [done|]. intros g' Hst. apply latched_micros; [|done].
    by apply (steps_inv _ _ (reachable_inv _ (gv_reachable _ _ _ _ V))).
  - intros ev w' id t at_ Ht Hs Hin.
    destruct (probe_send_step _ _ _ _ _ _ Hs Hin) as (op & now & ->).
    pose proof (happened_invoke (view_of now w) (w_controller w) op) as Hh.
    apply sends_elem in Hin. revert Hin.
    destruct Hh as [ev c' Hp Hi| | | | | |]; simpl; try (by intros ?%elem_of_nil).
    + rewrite (proj1 (plain_facts _ Hp)). by intros ?%elem_of_nil.
    + congruence.
Qed.
End run.
