(* ===== verification/ProbeRuns.v ===== *)
(** * Concrete runs of the probe controller

    A script is executed ([play]) and shown to be a run ([play_run]): a socket is
    opened, a target registered, probed and verified, and the socket promoted;
    a controller trips the machine; and a promotion releases the attempt while
    an open is still in the factory. *)
From S2P Require Import Prelude GoStd Limits SafetyTrip Governor GovernorSteps GovernorInv GovernorMicro GovernorLocal GovernorThms GovernorRuns ProbeIO ProbeInv ProbeTrace ProbeThms.

Inductive probe_move :=
| MCall (tid : nat) (op : call) (now : Time)
| MResume (tid : nat) (ans : answer) (now : Time)
| MTrip (tid : nat)
| MLeaseClose (tid : nat)
| MComplete (tid : nat)
(* a goroutine of [drainAttempts] *)
| MDrain (tid : nat).

(** The answer of the disk store to an event. *)
Definition probe_reply (event : SafetyTripEvent) : trip_reply :=
  let r := @tripThen sample_codec io_all_ok (mkTime 2 true) event (Some sample_file) in
  (run_status r, run_err r, run_after_latch r).

Definition gdrain (tid : nat) (g : Governor) : option Governor :=
  match g_drainThreads g !! tid with
  | None => None
  | Some t =>
      match dt_phase t with
      | DStopPhased => Some (drain_stop_phased tid t g)
      | DStopOrdinary => Some (drain_stop_ordinary tid t g)
      | DWait => match waitForAttemptDrains false (dt_ordinary t) g with
                 | Some timedOut => Some (drain_wait tid t timedOut g)
                 | None => None
                 end
      | DRelease result => Some (drain_release tid t result g)
      | _ => None
      end
  end.

Lemma gdrain_step tid g g' : gdrain tid g = Some g' -> gstep g g'.
Proof.
  unfold gdrain. destruct (g_drainThreads g !! tid) as [t|] eqn:Ht; [|done].
  destruct (dt_phase t) eqn:Hp; try done.
  - intros [= <-]. by apply step_stop_phased.
  - intros [= <-]. by apply step_stop_ordinary.
  - destruct (waitForAttemptDrains _ _ _) eqn:Hw; [|done]. intros [= <-]. by eapply step_wait.
  - intros [= <-]. by apply step_release.
Qed.

Definition drain_check (a : ptr) (drain : Z) (g g' : Governor) : bool :=
  match g_aheap g !! a with
  | Some l =>
      match al_drains l !! drain with
      | Some _ => match g_aheap g' !! a with
                  | Some l' => bool_decide (is_Some (al_drains l' !! drain))
                  | None => false
                  end
      | None => true
      end
  | None => true
  end.

Lemma drain_check_kept a drain g g' : drain_check a drain g g' = true -> drain_kept a drain g g'.
Proof.
  unfold drain_check. intros H l Hl [d Hd]. rewrite Hl, Hd in H.
  destruct (g_aheap g' !! a) as [l'|]; [|done]. exists l'. by apply bool_decide_eq_true in H.
Qed.

Definition play1 (mv : probe_move) (w : World) : option (list pevent * World) :=
  match mv with
  | MCall tid op now =>
      match w_threads w !! tid with
      | Some _ => None
      | None => let o := invoke op (view_of now w) (w_controller w) in
                Some (o.2, after tid (w_governor w) o w)
      end
  | MResume tid ans now =>
      match w_threads w !! tid with
      | None => None
      | Some t => match resume t ans (view_of now w) (w_controller w) with
                  | Some o => Some (o.2, after tid (w_governor w) o w)
                  | None => None
                  end
      end
  | MTrip tid =>
      match w_threads w !! tid, g_aheap (w_governor w) !! world_lease w with
      | Some (TTripCall reason detail cause watcher), Some l =>
          let event := trip_event reason detail (w_controller w) in
          let r := AttemptLease_Trip (world_lease w) event
                     (probe_reply (lease_event (w_governor w) l event)) (w_governor w) in
          let o := after_trip watcher (trip_result cause r.2.2) (w_controller w) [EvTrip reason r.2.2] in
          Some (o.2, after tid r.1 o w)
      | _, _ => None
      end
  | MLeaseClose tid =>
      match w_threads w !! tid with
      | Some (TLeaseClose id) =>
          Some ([], after tid (AttemptLease_Close (world_lease w) (w_governor w))
                      (w_controller w, Some (TLeaseWait id), []) w)
      | _ => None
      end
  | MComplete tid =>
      match w_threads w !! tid with
      | Some TWatchComplete =>
          Some ([EvDrained], after tid (Complete (world_lease w) (world_drain w) (w_governor w))
                               (w_controller w, None, []) w)
      | Some TRevokeComplete =>
          Some ([EvDrained; EvRevoked],
                after tid (Complete (world_lease w) (world_drain w) (w_governor w))
                  (w_controller w, None, []) w)
      | _ => None
      end
  | MDrain tid =>
      match gdrain tid (w_governor w) with
      | Some g' => if drain_check (world_lease w) (world_drain w) (w_governor w) g'
                   then Some ([], mkWorld g' (w_generation w) (w_controller w) (w_threads w))
                   else None
      | None => None
      end
  end.

Lemma play1_step mv w ev w' : play1 mv w = Some (ev, w') -> pstep w ev w'.
Proof.
  destruct mv as [tid op now|tid ans now|tid|tid|tid|tid]; simpl.
  - destruct (w_threads w !! tid) eqn:Ht; [done|]. intros [= <- <-]. by apply pstep_call.
  - destruct (w_threads w !! tid) as [t|] eqn:Ht; [|done].
    destruct (resume _ _ _ _) as [o|] eqn:Eo; [|done]. intros [= <- <-]. by eapply pstep_resume.
  - destruct (w_threads w !! tid) as [t|] eqn:Ht; [|done].
    destruct t; try done. destruct (g_aheap _ !! _) as [l|] eqn:Hl; [|done]. intros [= <- <-].
    apply pstep_trip; [done|]. intros l' Hl'. assert (l' = l) as -> by congruence.
    exists io_all_ok, (mkTime 2 true), (Some sample_file). done.
  - destruct (w_threads w !! tid) as [[]|] eqn:Ht; try done. intros [= <- <-]. by apply pstep_lease_close.
  - destruct (w_threads w !! tid) as [[]|] eqn:Ht; try done; intros [= <- <-].
    + by apply pstep_watch_complete.
    + by apply pstep_revoke_complete.
  - destruct (gdrain _ _) as [g'|] eqn:Eg; [|done]. destruct (drain_check _ _ _ _) eqn:Ec; [|done].
    intros [= <- <-]. apply pstep_governor; [by eapply gdrain_step|by apply drain_check_kept].
Qed.

Fixpoint play (mvs : list probe_move) (w : World) : option (list pevent * World) :=
  match mvs with
  | [] => Some ([], w)
  | mv :: mvs' =>
      match play1 mv w with
      | None => None
      | Some (ev, w1) => match play mvs' w1 with
                         | Some (ev', w2) => Some (ev ++ ev', w2)
                         | None => None
                         end
      end
  end.

Lemma play_run mvs : forall tr w ev w',
  probe_run tr w -> play mvs w = Some (ev, w') -> probe_run (tr ++ ev) w'.
Proof.
  induction mvs as [|mv mvs IH]; intros tr w ev w' Hr E; simpl in E.
  { injection E as <- <-. by rewrite app_nil_r. }
  destruct (play1 mv w) as [[ev1 w1]|] eqn:E1; [|done].
  destruct (play mvs w1) as [[ev2 w2]|] eqn:E2; [|done]. injection E as <- <-.
  rewrite (assoc_L (++)). eapply IH; [|done]. eapply probe_more; [done|]. by eapply play1_step.
Qed.

(** ** The sample machine *)
Definition probe_request : AttemptRequest :=
  mkRequest "a" OperationConnectTest (mkCost (mkResources 2 2 2 4 2) (5 * Second) false).

Definition probe_peer : Governor := (AcquirePeer "p1" machine_start).1.
Definition probe_machine : Governor :=
  (acquireAttempt 0 (Some None) probe_request false no_reply probe_peer).1.

Lemma probe_machine_reachable : reachable probe_machine.
Proof.
  eapply (reach_acquire 0 (mkPeer "p1" ∅ false)); [vm_compute; reflexivity..|].
  apply reach_step with machine_start; [apply step_AcquirePeer|]. apply machine_start_reachable.
Qed.

Definition tick (n : Z) : Time := mkTime (Hour + n * Millisecond) true.

Definition probe_new := Controller_New 1 7 7 None "v1" (tick 0) probe_machine.
Definition start_world : World :=
  match probe_new with
  | (g, Ok c) => mkWorld g 7 c {[ 0%nat := TWatch ]}
  | (g, Err _) => mkWorld g 7 (new_controller (mkProbeConfig 0 0 "" probe_request (tick 0) 0)) ∅
  end.

Lemma start_run : probe_run [EvNow (tick 0)] start_world.
Proof.
  unfold start_world. destruct probe_new as [g [c|e]] eqn:E; [|vm_compute in E; discriminate].
  eapply (probe_start 1 7 7 None "v1"); [apply probe_machine_reachable|exact E].
Qed.

Definition reflector : AddrPort := mkAddrPort (Addr4 3232235521) 3478.

(** A socket is opened, its target registered, probed and verified. *)
Definition script_probe : list probe_move :=
  [ MCall 1 (COpenProbeSocket CtxLive) (tick 1); MResume 1 (AOpen true None false) (tick 2);
    MCall 1 (CRegisterTarget 1 reflector) (tick 3);
    MCall 1 (CSendProbe 1 CtxLive reflector 20 (tick 5)) (tick 4);
    MResume 1 (AWrite 20 None) (tick 6); MResume 1 (AFinish CtxLive false) (tick 6);
    MCall 1 (CReceiveReply 1 CtxLive 1024 true) (tick 7);
    MResume 1 (ARead 60 reflector None CtxLive) (tick 8); MResume 1 (AVerify None) (tick 8) ].

(** It is promoted, and the watcher completes the drain. *)
Definition script_promote (closeLease : bool) : list probe_move :=
  [ MCall 1 (CPromote 1 reflector "path" closeLease) (tick 9);
    MResume 1 (ADeadline None) (tick 10); MResume 1 ANone (tick 10); MResume 1 ANone (tick 10);
    MResume 1 ANone (tick 10) ].
Definition script_watch : list probe_move :=
  [ MResume 0 (AWake WakeHandoff) (tick 11); MResume 0 ANone (tick 11); MComplete 0 ].

Definition play_of (mvs : list probe_move) : list pevent * World :=
  match play mvs start_world with Some r => r | None => ([], start_world) end.

Lemma play_of_run mvs :
  bool_decide (is_Some (play mvs start_world)) = true ->
  probe_run ([EvNow (tick 0)] ++ (play_of mvs).1) (play_of mvs).2.
Proof.
  intros H%bool_decide_eq_true. unfold play_of. destruct (play mvs start_world) as [[ev w]|] eqn:E.
  - by apply (play_run mvs _ start_world); [apply start_run|].
  - by destruct H.
Qed.

Definition script_full : list probe_move := script_probe ++ script_promote false ++ script_watch.
Definition full_trace : list pevent := [EvNow (tick 0)] ++ (play_of script_full).1.
Definition full_world : World := (play_of script_full).2.

Lemma full_run : probe_run full_trace full_world.
Proof. apply play_of_run. vm_compute. reflexivity. Qed.

(** ** Witnesses *)

Lemma probe_within_budget_witness :
  sends full_trace = [tick 5] /\
  Z.of_nat (length (sends full_trace)) <= Packets (limits_of (w_controller full_world)).
Proof.
  split; [vm_compute; reflexivity|].
  destruct (probe_within_budget full_trace full_world full_run) as (_ & _ & _ & _ & _ & H & _). exact H.
Defined.

Definition send_world : World := (play_of (take 3 script_probe)).2.
Definition send_move : probe_move := MCall 1 (CSendProbe 1 CtxLive reflector 20 (tick 5)) (tick 4).
Definition send_result : list pevent * World :=
  match play1 send_move send_world with Some r => r | None => ([], send_world) end.

Lemma send_authorized_witness :
  EvSend 1 reflector (tick 5) ∈ send_result.1 /\ pc_stopped (w_controller send_world) = false.
Proof.
  assert (Hin : EvSend 1 reflector (tick 5) ∈ send_result.1).
  { vm_compute. do 2 right. left. }
  split; [exact Hin|].
  refine (proj1 (send_authorized _ send_world send_result.1 send_result.2 1 reflector (tick 5) _ _ Hin)).
  - apply play_of_run. vm_compute. reflexivity.
  - apply (play1_step send_move). vm_compute. reflexivity.
Defined.

Lemma promotion_earned_and_final_witness :
  EvVerified 1 reflector ∈ take 17 full_trace /\ pc_promoted (w_controller full_world) = true.
Proof.
  destruct (promotion_earned_and_final full_trace full_world (take 17 full_trace) 1 reflector
    (drop 18 full_trace) full_run) as ((_ & _ & H & _) & _ & Hp & _).
  - vm_compute. reflexivity.
  - split; [exact H|exact Hp].
Defined.

(** A controller that is revoked before a terminal record. *)
Definition script_revoke : list probe_move :=
  script_probe ++
  [ MCall 1 CRevokeForTerminal (tick 9); MResume 1 ANone (tick 9); MResume 1 ANone (tick 9);
    MResume 1 ANone (tick 9); MResume 1 ANone (tick 9); MResume 1 ANone (tick 9);
    MResume 1 ANone (tick 9); MResume 1 ANone (tick 9); MResume 1 ANone (tick 9);
    MResume 0 (AWake WakeHandoff) (tick 9); MResume 0 ANone (tick 9); MComplete 0;
    MResume 1 ANone (tick 9); MComplete 1 ].

Lemma drain_is_witness_witness :
  EvRevoked ∈ [EvNow (tick 0)] ++ (play_of script_revoke).1 /\
  quiescent (play_of script_revoke).2.
Proof.
  assert (Hin : EvRevoked ∈ [EvNow (tick 0)] ++ (play_of script_revoke).1).
  { apply list_elem_of_In. vm_compute. tauto. }
  split; [exact Hin|].
  refine (proj1 (proj2 (proj2 (drain_is_witness _ (play_of script_revoke).2 _))) Hin).
  apply play_of_run. vm_compute. reflexivity.
Defined.

Definition script_poison : list probe_move :=
  [ MCall 1 (CPoison SafetyTripHardLimit "plan exceeded") (tick 1); MResume 1 ANone (tick 1); MTrip 1 ].

Lemma trip_latches_machine_witness :
  EvTrip SafetyTripHardLimit None ∈ [EvNow (tick 0)] ++ (play_of script_poison).1 /\
  latched (w_governor (play_of script_poison).2).
Proof.
  assert (Hin : EvTrip SafetyTripHardLimit None ∈ [EvNow (tick 0)] ++ (play_of script_poison).1).
  { vm_compute. right. left. }
  split; [exact Hin|].
  destruct (trip_latches_machine ([EvNow (tick 0)] ++ (play_of script_poison).1)
    (play_of script_poison).2) as (_ & H & _).
  - apply play_of_run. vm_compute. reflexivity.
  - destruct (H _ _ Hin) as [E|[Hl _]]; [discriminate E|exact Hl].
Defined.

(** ** The drain does not wait for the close of a late datagram

    An open that returns after the controller stopped announces [pendingDone]
    before it closes the datagram nobody wants, so [RevokeForTerminal] can return
    and the drain complete while that datagram is still open. *)
Definition script_late : list probe_move :=
  script_probe ++ [MCall 2 (COpenProbeSocket CtxLive) (tick 8);
    MCall 1 CRevokeForTerminal (tick 9); MResume 1 ANone (tick 9); MResume 1 ANone (tick 9);
    MResume 1 ANone (tick 9); MResume 1 ANone (tick 9); MResume 1 ANone (tick 9);
    MResume 2 (AOpen true None false) (tick 9);
    MResume 1 ANone (tick 9); MResume 1 ANone (tick 9); MResume 1 ANone (tick 9);
    MResume 0 (AWake WakeHandoff) (tick 9); MResume 0 ANone (tick 9); MComplete 0;
    MResume 1 ANone (tick 9); MComplete 1 ].

Theorem drained_before_late_close :
  exists tr w v, probe_run tr w /\ EvDrained ∈ tr /\ EvRevoked ∈ tr /\
    w_threads w !! 2%nat = Some (TOpenClose v None).
Proof.
  exists ([EvNow (tick 0)] ++ (play_of script_late).1), (play_of script_late).2. eexists. split_and!.
  - apply play_of_run. vm_compute. reflexivity.
  - apply list_elem_of_In. vm_compute. tauto.
  - apply list_elem_of_In. vm_compute. tauto.
  - vm_compute. reflexivity.
Qed.

(** ** A promotion does not wait for the factory

    After [Promote] the watcher completes the drain as soon as the handoff is
    announced, without waiting for opens in flight, so the governor can release
    the attempt and its reservation while [factory.Open] still runs. *)
Definition script_leak : list probe_move :=
  script_probe ++ [MCall 2 (COpenProbeSocket CtxLive) (tick 8)] ++ script_promote true ++
  [MLeaseClose 1] ++ script_watch ++ [MDrain 2; MDrain 2; MDrain 2; MDrain 2].

Theorem promotion_releases_during_open :
  exists tr w, probe_run tr w /\ EvDrained ∈ tr /\
    lease_done (w_governor w) (world_lease w) = true /\
    g_reserved (w_governor w) = resources_zero /\ w_threads w !! 2%nat = Some TOpen.
Proof.
  exists ([EvNow (tick 0)] ++ (play_of script_leak).1), (play_of script_leak).2. split_and!.
  - apply play_of_run. vm_compute. reflexivity.
  - apply list_elem_of_In. vm_compute. tauto.
  - vm_compute. reflexivity.
  - vm_compute. reflexivity.
  - vm_compute. reflexivity.
Qed.
